(* ===== verification/_CoqProject ===== *)
-Q . S2P
Prelude.v
SendState.v
Attachment.v
Bubble.v
OutboxStore.v
OutboxDriver.v
OutboxSystem.v
Overlay.v
SeqGap.v
RelayProto.v
RelayAuth.v
Transit.v
TransitSqlite.v
GroupLog.v
GroupLogSqlite.v
Session.v
PairRecord.v
ShareUri.v
Text.v
HtmlText.v
HttpDate.v
RelayHttp.v
DeviceFabric.v
PairIndex.v
RelayWs.v
Conversation.v
ConvRegistry.v
ContactCard.v
Inbound.v
EpochRecovery.v
Outbound.v
Publish.v
PendingJoin.v
JoinRuns.v
Pairing.v
MultiHome.v
DmLookup.v
Endpoint.v
DmSend.v
Daemon.v
Singleflight.v
GroupMsg.v
RelayClient.v
RelayClientRuns.v
Trust.v
FediSig.v
FediInbox.v
ActorDoc.v
BridgeStore.v
BridgeAuth.v
BridgeInbox.v
GroupRoute.v
GroupBridge.v
WebFinger.v
ActorRegistry.v
ProfileBlob.v
LinkDevice.v
TrustGates.v
