(* ===== verification/Prelude.v ===== *)
(** * fetch>it: a verified model of the messaging engine, its relay and its bridge

    fetch>it is an end-to-end encrypted messenger.  A client keeps an outbox of
    messages it still has to deliver, hands them over WebSocket to a relay, and
    the relay, which cannot read them, keeps each one until its recipient
    acknowledges it.  Relays also keep a log per group and signed records that
    say at which relays an agent is reachable.  A trust service signs lists of
    what is denied, and a bridge gives an agent an account in the fediverse.
    This library models the path of a message from the sender's outbox to what
    its recipient does with it, how contacts, devices and groups come to share
    keys, the moderation gates and the bridge, and proves what makes them
    correct.

    ** Files

    - [Prelude]: machine-width integers, results, hash maps whose iteration order
      is a parameter, ordered maps, byte encodings, sums over maps, list lemmas,
      the [fetchit] hint database.
    - [Text]: the string functions of the Rust library the parsers use.

    The sender (crates/fetchit-chat/src):
    - [SendState] ([send_state.rs], [error.rs]): send states with their order,
      the error type, which errors are terminal.
    - [Attachment] ([attachment.rs]): admission of inline images.
    - [Bubble] ([outbox/mod.rs]): the outbox bubble and its predicates.
    - [OutboxStore] ([outbox/store.rs]): the sealed store; claims in flight,
      outcomes, receipts, migration, vault round trip.
    - [OutboxDriver] ([outbox/driver.rs], [client.rs] [enqueue_dm] and
      [start_outbox_driver]): flushing with claims, retry pacing, stalled claims,
      the event loop as [loop_step].
    - [OutboxSystem]: a step relation that interleaves concurrent enqueues, group
      retries, flushes, send outcomes, receipts, peer drops, sweeps and driver
      starts over one store.
    - [Overlay] ([outbox/overlay.rs], [conversation/types.rs] [HistoryEntry]):
      the send state a history listing shows.
    - [Outbound] ([conversation/outbound.rs], the sealing half of
      [chat_crypto.rs]): the welcome, message and receipt envelopes of a
      conversation, composed with [Inbound].
    - [DmLookup] ([conversation/registry.rs]): which direct conversation with a
      peer is the current one.
    - [Endpoint] ([messages.rs]): the stores the send and receive calls share, and
      handing an envelope over with re-resolution of stale relays.
    - [DmSend] ([messages.rs] [send]): a direct message to every device of its
      recipient.
    - [GroupMsg] ([messages.rs], the group calls): sending to a private group,
      retrying, and the receive path of group frames.

    The receiver (crates/fetchit-chat/src):
    - [SeqGap] ([conversation/seq_gap.rs]): the receiver's ledger of missing
      per-sender counters.
    - [Conversation] ([conversation/types.rs]): a conversation's members, epoch
      keys, replay windows, history and read marks.
    - [ConvRegistry] ([conversation/registry.rs]): the cache of conversations over
      sealed files; calls that hold the lock are one step, [get] and [save] have
      their steps apart, a failed seal restores the snapshot.
    - [ContactCard] ([messages.rs] [StoredContactCard], [card.rs]): contact cards
      on disk, relay hints learned from messages, imports.
    - [Inbound] ([conversation/inbound.rs], [chat_crypto.rs]): the dispatch of a
      delivered envelope as a message, a receipt or a welcome, over [ConvRegistry],
      [ContactCard] and [OutboxStore].

    Groups (crates/fetchit-chat/src/groups):
    - [EpochRecovery] ([epoch_recovery/], [group_log.rs]): how a
      group member that fell behind catches up from the relay's log; its fetch,
      apply, probe and resume seams are the class [RecoverySeams], and one theorem
      runs it over [GroupLog]'s stores with [RelayWs]'s visibility rule.
    - [PendingJoin], [JoinRuns] ([pending_join.rs], [pending_join_driver.rs],
      [convergence.rs], [join_bridge.rs], [engine_a.rs], [membership.rs], the join
      policy of [client.rs]): stored join intents and their resumption, and what
      every run of them keeps.
    - [Singleflight] ([members_singleflight.rs]): one roster request shared by
      concurrent callers, as a transition system.
    - [Daemon] ([http.rs], [groups/mod.rs], x0xd-client [secure.rs]): requests to
      the local daemon that seals and opens group frames.
    - [GroupRoute] ([groups_reachability.rs]): gossip or bridge, per member, from
      what was heard of it.
    - [GroupBridge] ([groups/bridge.rs], [dispatch.rs], [bridge_*.rs], the bridge
      calls of [client.rs]): group events carried over the direct channel, the
      owner's fan-out and the intake.

    Contacts, devices, transports (crates/fetchit-chat/src):
    - [ShareUri] ([pair_uri.rs], [profile.rs]): the links that name a contact.
    - [Pairing] ([pair.rs], [messages.rs], [client.rs] [import_pair_uri]):
      fetching signed records and turning them into contact cards.
    - [DeviceFabric] ([fabric.rs], [device_cert.rs], [pair_record_v4.rs]): the
      account's devices and the cached device lists of contacts.
    - [LinkDevice] ([link_device*.rs], [sibling_admission.rs]): a new device's
      sealed offer, its pointer, preview, confirmation and enrolment over
      [DeviceFabric], run over [ProfileBlob]'s store; admission of siblings.
    - [Publish] ([pair_record.rs], [client.rs] [publish_pair_record]): stamping,
      signing and posting an agent's records, composed with [PairIndex].
    - [RelayHttp] ([relay_http.rs]; fetchit-fedi [ssrf.rs]): guarded requests.
    - [MultiHome] ([transport/]): the router, several relays at once, the
      duplicate gate.
    - [RelayClient], [RelayClientRuns] (crates/fetchit-relay-client/src): the
      handle, supervisor, reader and keepalive tasks as a transition system; its
      invariants, and its composition with [RelayWs].

    The protocol (crates/fetchit-relay-proto/src):
    - [RelayProto] ([region.rs], [envelope.rs], [capability.rs], [frame.rs]; also
      the relay's [error.rs]): wire types and forward-compatible discriminators.
    - [RelayAuth] ([auth.rs], [sign_domains.rs], [identity.rs], [capability.rs];
      the relay's [auth.rs] and [capability.rs]): signing framings, challenges,
      bearer tokens, capability tokens.
    - [PairRecord] ([pair_record.rs]): signed pairing, forwarding and user
      records: validation, canonical layouts, verification.

    The relay (crates/fetchit-relay-server/src):
    - [Transit] ([transit.rs]): the store of undelivered envelopes.  The trait is
      the class [TransitStore], what its comments promise is [TransitStoreLaws];
      the in-memory store is an instance, and a step relation interleaves the
      atomic actions its methods are made of.
    - [TransitSqlite] ([transit_sqlite.rs]): the durable store over its table,
      another instance, and its agreement with the first.
    - [GroupLog], [GroupLogSqlite] ([group_log.rs], [group_log_sqlite.rs]): the
      same structure for the per-group log.
    - [Session] ([session.rs]): connected sessions, presence watches, bounded
      outbound channels in a shared store of channels.
    - [PairIndex] ([pair_record.rs], [forwarding.rs], the sweeper of
      [server.rs]): the reachability indexes and their HTTP handlers.
    - [RelayWs] ([ws.rs]): a session from [Hello] to cleanup, every client frame,
      replay, log chunking, keepalive.  It is written against the two classes and
      composes [Session], [PairIndex], [RelayAuth] and the stores into one relay
      state.
    - [FediInbox] ([inbox/]): the gates of the public-post inbox, the key cache,
      the replay window and the broadcast to sessions.
    - [ActorRegistry] ([registry/], [registry_admin.rs]): the directory of
      handles, both stores as instances of the trait, the served documents, read
      by [ActorDoc] and [WebFinger].
    - [ProfileBlob] ([profile.rs], [blob.rs]): the profile index and the sealed
      blobs, the first composed with the client's signer.

    Trust (crates/fetchit-trust-types, fetchit-trust, fetchit-trust-client):
    - [Trust]: canonical targets, the moderator's service with its file under
      concurrent writes, signed lists, the consumer with its cache and index.
    - [TrustGates]: the service, the consumer and the gates of the chat client and
      the bridge composed.

    The fediverse (crates/fetchit-fedi/src, crates/fetchit-bridge-server/src):
    - [HttpDate] ([transport.rs], the relay's [inbox/sig_verify.rs]): dates.
    - [FediSig] ([signature.rs], [signature_cavage.rs]): both signature schemes.
    - [HtmlText] ([text.rs], [activity.rs]): posts as HTML and back.
    - [ActorDoc] ([actor.rs], [attestation.rs], [avatar.rs], [lookup.rs]): actor
      documents, the attestation of a chat identity, remote actors and outboxes.
    - [WebFinger] ([webfinger.rs]): mentions, the request that resolves one, its
      gates and the link it reads.
    - [BridgeStore] ([store.rs], [store_follow.rs], [store_avatar.rs]): the tables.
    - [BridgeAuth] ([auth.rs], [routes/actors.rs], [follow.rs], [avatar.rs],
      [webfinger.rs]): signed owner requests, registration and the routes.
    - [BridgeInbox] ([routes/inbox.rs], [signature_meta.rs]): deliveries, and runs
      of the whole bridge.

    ** What is shown

    Sender: in every interleaving a bubble is sent by two tasks at once only when
    its claim was taken from a task still sending it (by the sweep of stalled
    claims or a driver start), its state never goes back, retained images stay
    within the cap; superseded message ids still close their bubble; a flush
    attempts exactly the eligible bubbles; a restart re-attempts everything
    queued; the vault round trips; the backoff is capped.  The overlay shows the
    least advanced copy.  A message reported sent was taken by a transport for the
    devices of one of its targets; a group send hands the sealed envelope to the
    whole roster and queues what was not taken, where there is an outbox for it;
    the first message to a new contact is read there.

    Receiver: a message is shown only when its signature and its encryption are
    right, and not twice within 64 deliveries, across failed writes and restarts,
    unless a welcome addressed to another group replaced its conversation; a
    welcome re-keys a conversation only for a member and forwards; an epoch's key
    opens frames until sixty seconds after the epoch ended; contact cards never
    lose keys or go back to older relay hints; reported sequence gaps are real.

    Groups: recovery applies log records in order without holes and shows a group
    as live only when it is, and does not drain the log of a daemon that cannot
    apply it; a tap that finds the stored intent of an invite does not spend it;
    no caller of a shared roster request is left waiting; sealed group frames have
    the daemon's shape and round trip; an owner's event reaches exactly the
    members told, a welcome only the joiner, in its envelope and in the record of
    the relay's log that is for the joiner alone.

    Contacts and devices: links round trip; a link binds the keys of the card it
    stores; device lists stay valid and never roll back; a device that enrols is
    the one of an offer; an offer is stored where its pointer says and reads back
    unless something else was stored there; a sibling joins a group only with the
    account's authority; stamps increase, and a publish renews the record at a
    relay of this repository or fails for a named cause with the relay unchanged;
    a request is blocked exactly when the addresses its guard resolved are.

    Relay client: watches survive reconnects, an answered send was acknowledged,
    reconnecting gives up when its budget is spent.

    Relay: a deposit that was acknowledged survives everything the relay does
    until its recipient acknowledges it or it expires, and a reconnecting agent
    gets the oldest stored envelopes queued in order behind what was pushed since
    it registered, as far as its channel has room; stores meet the laws of their
    seams, keep their byte caps under interleaving, and the durable one answers as
    the in-memory one up to the first enqueue that only one byte budget admits;
    group sequence numbers are never reused and a
    member catches up exactly; bearer tokens prove control of the key; capability
    tokens grant only what an issuer signed; watch indexes stay consistent; a
    registered handle keeps its agent, its document verifies offline and resolving
    a mention leads to it; a blob is read for its hour.

    Records: signed messages determine the record; a verified record binds its
    id, key and relays; indexes never roll back between sweeps and serve only
    verified records; a forwarding record passes exactly the documented gates.

    Trust: after a refresh the gates the consumer is wired to (direct and group
    sends, the actor gates of the chat and the bridge; not the relay transport,
    which gets a query that blocks nothing) refuse what was denied and not revoked
    since; an index holds only what the issuer signed.

    Fediverse and bridge: dates, actor documents and the text of posts round trip;
    signing bases determine the request; an activity the relay's inbox accepts, or
    a delivery that changes the bridge's store, passed every gate and comes from
    its signer; registered actors stay attested; an accepted follow was asked for
    and answered; owner requests are signed; pages of messages are complete.

    Some theorems state behaviour the source does not intend or describes
    differently.  In the messenger: log numbers withheld from a member that stop
    its recovery, a welcome that overwrites a conversation its envelope does not
    name, a frame confirmed as a replay though it was never stored, a cold read
    that brings an old replay window back, retries that do not run while the event
    stream is up, a claim that its own refusals keep alive, claims that the boot
    sweep frees, two overlapping taps that spend an invite twice, a failed bubble that a receipt still delivers, a conversation left
    without its welcome, a copy of a message to an own device that goes to a third
    party, an imported key that is rolled back, contacts whose keys no reader
    decodes, a hostile conflict that ends publishing, device lists too large to be
    read, a bridged event whose sender is not verified, a fan-out that stops at
    the first failure, an enrolment not bound to the code that was compared.  In
    the relay: a pair-record sweep that forgets watermarks, a profile sweep that
    undoes a deletion, a mixed-case profile that is never served, a byte cap
    that ignores the overhead of stored rows, deposits that get no reply, region claims of which the
    last wins, a request dated ahead that is accepted twice, a slash that evades a
    denylist.  In the trust service: concurrent writes that lose the list, old
    responses that unblock.  In the bridge: a grafted key that takes an account
    over, messages of one millisecond that are never listed, a note id taken by
    another account, a flood that evicts requests, a post that panics its reader.

    ** Conventions

    Unsigned integers are [N]; where the source saturates, clamps or wraps the
    model does, and theorems name the bounds they need ([u64_max], [i64_max] for
    SQLite).  Clock readings, random bytes and the verdict of the rate limiter
    (floating point) are arguments of the operation that reads them.  Hashing,
    signatures, base64, URL and JSON parsing, postcard and encryption at rest are
    other packages' code: classes, instantiated by concrete functions in the
    witnesses.  Loops that are not structural are [Fixpoint]s over the list they
    consume; [send_log_loop] takes the number of records as fuel, enough because
    each turn but the last removes a full chunk, and its theorem shows that the
    whole reply is produced; [recover_passes] takes the source's own bound of 64
    passes.  Concurrent tasks are transition systems whose steps are the sections
    a lock or an await delimits.

    ** Not modelled

    The async runtime, sockets, HTTP routing, configuration, metrics and logging;
    rate limiters (floating point); the postcard and JSON derives; the handshake
    and the LAN transport; QR payloads, vault files and key ceremonies of the chat
    identity; the builders of activities, threads of replies and the client's
    fediverse caches; the core address registry; bindings, the command line and the applications, which call the
    parts above. *)
From stdpp Require Export base gmap strings list numbers sorting.
#[local] Set Default Goal Selector "!".

(** ** Notations *)

Declare Scope rust_scope.
Delimit Scope rust_scope with rust.
Open Scope N_scope.

(** ** Machine-width integers

    Unsigned Rust integers are [N]; the widths the source relies on are written
    out.  [saturating_sub] is truncated subtraction, [saturating_add] and
    [saturating_mul] clamp at the width's maximum, [wrapping] is what release
    builds do with an overflowing [+]. *)

Definition u8_max : N := 255.
Definition u32_max : N := 4294967295.
Definition u64_max : N := 18446744073709551615.
Definition usize_max : N := u64_max.
Definition i64_max : N := 9223372036854775807.

Definition saturating_add (max a b : N) : N := N.min max (a + b).
Definition saturating_mul (max a b : N) : N := N.min max (a * b).
Definition saturating_sub (a b : N) : N := a - b.
Definition wrapping_add (max a b : N) : N := (a + b) mod (max + 1).

(** [AtomicUsize::fetch_sub]. *)
Definition wrapping_sub (max a b : N) : N := (a + (max + 1) - b mod (max + 1)) mod (max + 1).

Lemma wrapping_sub_small max a b : b <= a -> a <= max -> wrapping_sub max a b = a - b.
Proof.
  intros Hb Ha. unfold wrapping_sub. rewrite (N.mod_small b) by lia.
  replace (a + (max + 1) - b) with ((a - b) + 1 * (max + 1)) by lia.
  rewrite N.Div0.mod_add. apply N.mod_small. lia.
Qed.

Notation "a +|64 b" := (saturating_add u64_max a b)
  (at level 50, left associativity) : rust_scope.
Notation "a -| b" := (saturating_sub a b)
  (at level 50, left associativity) : rust_scope.
Open Scope rust_scope.

(** [i64::try_from(x).unwrap_or(i64::MAX)] for an unsigned [x]. *)
Definition clamp_i64 (x : N) : N := N.min i64_max x.

(** [v.len()] of a [Vec], [VecDeque] or [HashMap]. *)
Definition len {A} (l : list A) : N := N.of_nat (length l).

(** ** Results *)

Inductive result (A E : Type) : Type :=
| Ok (a : A)
| Err (e : E).
Arguments Ok {A E} a.
Arguments Err {A E} e.

(** The [?] operator. *)
Notation "'let?' x := c1 'in' c2" :=
  (match c1 with Ok x => c2 | Err e => Err e end)
  (at level 10, x pattern, c1 at level 200, c2 at level 200) : rust_scope.

Definition is_ok {A E} (r : result A E) : bool :=
  match r with Ok _ => true | Err _ => false end.
Definition is_some {A} (o : option A) : bool :=
  match o with Some _ => true | None => false end.

#[export] Instance result_eq_dec {A E} `{EqDecision A, EqDecision E} :
  EqDecision (result A E).
Proof. solve_decision. Defined.

(** ** Hash maps

    A [HashMap] or [DashMap] is a [gmap]; the order in which the source
    iterates over one is unspecified, so it is a parameter: any enumeration of
    the entries.  Every definition that iterates takes it from this class and
    every theorem holds for all instances. *)

Class HashIter (K V : Type) `{Countable K} := {
  hm_iter : gmap K V -> list (K * V);
  hm_iter_perm : forall m : gmap K V, hm_iter m ≡ₚ map_to_list m;
}.

(** The enumeration the witnesses run with. *)
#[export] Instance canonical_iter K V `{Countable K} : HashIter K V | 100 := {
  hm_iter := map_to_list;
  hm_iter_perm m := Permutation_refl (map_to_list m);
}.

Definition hm_values {K V} `{HashIter K V} (m : gmap K V) : list V := (hm_iter m).*2.
Definition hm_keys {K V} `{HashIter K V} (m : gmap K V) : list K := (hm_iter m).*1.

Section hash_iter.
Context {K V : Type} `{HI : HashIter K V}.
Implicit Types (m : gmap K V).

Lemma elem_of_hm_iter m k v : (k, v) ∈ hm_iter m <-> m !! k = Some v.
Proof. rewrite hm_iter_perm. apply elem_of_map_to_list. Qed.

Lemma elem_of_hm_values m v : v ∈ hm_values m <-> exists k, m !! k = Some v.
Proof.
  unfold hm_values. rewrite list_elem_of_fmap. split.
  - intros ([k v'] & -> & Hin). exists k. by apply elem_of_hm_iter.
  - intros [k Hk]. exists (k, v). split; [done | by apply elem_of_hm_iter].
Qed.

Lemma elem_of_hm_keys m k : k ∈ hm_keys m <-> is_Some (m !! k).
Proof.
  unfold hm_keys. rewrite list_elem_of_fmap. split.
  - intros ([k' v] & -> & Hin). exists v. by apply elem_of_hm_iter.
  - intros [v Hv]. exists (k, v). split; [done | by apply elem_of_hm_iter].
Qed.

Lemma NoDup_hm_keys m : NoDup (hm_keys m).
Proof. unfold hm_keys. rewrite hm_iter_perm. apply NoDup_fst_map_to_list. Qed.

Lemma NoDup_hm_iter m : NoDup (hm_iter m).
Proof. rewrite hm_iter_perm. apply NoDup_map_to_list. Qed.
End hash_iter.

(** ** Ordered maps and ranges

    A [BTreeMap] with integer keys is a [gmap] iterated in key order. *)

Definition key_le {V} (a b : N * V) : Prop := a.1 <= b.1.
#[export] Instance key_le_dec {V} : RelDecision (@key_le V).
Proof. intros a b. unfold key_le. apply _. Defined.
#[export] Instance key_le_trans {V} : Transitive (@key_le V).
Proof. intros a b c. unfold key_le. lia. Qed.
#[export] Instance key_le_total {V} : Total (@key_le V).
Proof. intros a b. unfold key_le. lia. Qed.

Definition btree_iter {V} (m : gmap N V) : list (N * V) := merge_sort key_le (map_to_list m).

(** [map.iter().next()]. *)
Definition btree_first {V} (m : gmap N V) : option N := fst <$> head (btree_iter m).

(** [(a..b).collect()]. *)
Definition range (a b : N) : list N :=
  (fun i => a + N.of_nat i) <$> seq 0 (N.to_nat (b - a)).

Lemma elem_of_range a b x : x ∈ range a b <-> a <= x < b.
Proof.
  unfold range. rewrite list_elem_of_fmap. setoid_rewrite elem_of_seq. split.
  - intros (i & -> & ?). lia.
  - intros ?. exists (N.to_nat (x - a)). lia.
Qed.

Lemma range_cons a b : a < b -> range a b = a :: range (a + 1) b.
Proof.
  intros Hab. unfold range. replace (N.to_nat (b - a)) with (S (N.to_nat (b - (a + 1)))) by lia.
  cbn [seq]. rewrite fmap_cons, <- fmap_S_seq, <- list_fmap_compose. f_equal; [lia|].
  apply list_fmap_ext. intros i x _. cbn. lia.
Qed.

Lemma StronglySorted_filter_keys {A} (R : N -> N -> Prop) (f : A -> N) (P : A -> bool) l :
  StronglySorted R (f <$> l) -> StronglySorted R (f <$> List.filter P l).
Proof.
  induction l as [|x l IH]; [done|]. rewrite fmap_cons. intros Hs.
  apply StronglySorted_inv in Hs as [Hs Hall]. simpl. destruct (P x); [|by apply IH].
  rewrite fmap_cons. constructor; [by apply IH|]. rewrite Forall_fmap in Hall |- *.
  rewrite Forall_forall in Hall |- *. intros y Hy. apply Hall.
  rewrite list_elem_of_In in *. by apply List.filter_In in Hy as [? _].
Qed.

Lemma StronglySorted_snoc_lt (l : list N) x :
  StronglySorted N.lt l -> Forall (fun y => y < x) l -> StronglySorted N.lt (l ++ [x]).
Proof.
  induction l as [|y l IH]; intros Hs Hall; simpl; [by repeat constructor|].
  apply StronglySorted_inv in Hs as [Hs Hy]. apply Forall_cons in Hall as [Hyx Hall].
  constructor; [by apply IH|]. apply Forall_app. by repeat constructor.
Qed.

Lemma StronglySorted_app_lt (l k : list N) x y :
  StronglySorted N.lt (l ++ k) -> x ∈ l -> y ∈ k -> x < y.
Proof.
  induction l as [|z l IH]; intros Hs Hx Hy; [by apply elem_of_nil in Hx|].
  cbn in Hs. apply StronglySorted_inv in Hs as [Hs Hall].
  apply elem_of_cons in Hx as [->|Hx]; [|by apply IH].
  rewrite Forall_forall in Hall. apply Hall, elem_of_app. by right.
Qed.

Section btree.
Context {V : Type}.
Implicit Types (m : gmap N V).

Lemma elem_of_btree_iter m k v : (k, v) ∈ btree_iter m <-> m !! k = Some v.
Proof. unfold btree_iter. rewrite merge_sort_Permutation. apply elem_of_map_to_list. Qed.

Lemma btree_iter_sorted m : StronglySorted key_le (btree_iter m).
Proof. apply (StronglySorted_merge_sort key_le). Qed.

Lemma btree_iter_strict m : StronglySorted N.lt (btree_iter m).*1.
Proof.
  assert (NoDup (btree_iter m).*1) as Hnd.
  { unfold btree_iter. rewrite merge_sort_Permutation. apply NoDup_fst_map_to_list. }
  pose proof (btree_iter_sorted m) as Hs.
  induction Hs as [|kv l Hs IH Hall]; [constructor|].
  rewrite fmap_cons in *. apply NoDup_cons in Hnd as [Hni Hnd]. constructor; [by apply IH|].
  apply Forall_fmap. rewrite Forall_forall in Hall |- *. intros kv' Hin. cbn.
  specialize (Hall kv' Hin). unfold key_le in Hall.
  assert (kv.1 <> kv'.1); [|lia]. intros Heq. apply Hni. rewrite Heq.
  by apply list_elem_of_fmap_2.
Qed.

Lemma btree_first_None m : btree_first m = None -> m = ∅.
Proof.
  unfold btree_first. destruct (btree_iter m) as [|kv l] eqn:He; [|done]. intros _.
  apply map_empty. intros k. destruct (m !! k) as [v|] eqn:Hk; [|done].
  apply elem_of_btree_iter in Hk. rewrite He in Hk. by apply elem_of_nil in Hk.
Qed.

Lemma btree_first_Some m k :
  btree_first m = Some k -> is_Some (m !! k) /\ forall k', is_Some (m !! k') -> k <= k'.
Proof.
  unfold btree_first. pose proof (btree_iter_sorted m) as Hs.
  destruct (btree_iter m) as [|[k0 v0] l] eqn:He; [done|]. intros [= <-].
  assert (m !! k0 = Some v0) as Hk0 by (apply elem_of_btree_iter; rewrite He; left).
  split; [by eexists|]. intros k' [v' Hv']. apply elem_of_btree_iter in Hv'. rewrite He in Hv'.
  apply elem_of_cons in Hv' as [[= -> ->]|Hin]; [lia|].
  apply StronglySorted_inv in Hs as [_ Hall]. rewrite Forall_forall in Hall.
  exact (Hall _ Hin).
Qed.
End btree.

(** ** Bytes *)

(** The bytes of a [b"..."] literal or of [str::as_bytes] on ASCII text. *)
Fixpoint ascii_bytes (s : string) : list N :=
  match s with
  | EmptyString => []
  | String a s' => Ascii.N_of_ascii a :: ascii_bytes s'
  end.

(** [u32::to_be_bytes]. *)
Definition u32_be (n : N) : list N :=
  [n / 16777216 mod 256; n / 65536 mod 256; n / 256 mod 256; n mod 256].

Lemma ascii_bytes_inj s t : ascii_bytes s = ascii_bytes t -> s = t.
Proof.
  revert t. induction s as [|a s IH]; intros [|b t]; simpl; try done.
  intros [= Ha Hs]. f_equal; [|by apply IH].
  by rewrite <- (Ascii.ascii_N_embedding a), <- (Ascii.ascii_N_embedding b), Ha.
Qed.

Lemma u32_be_inj a b : a <= u32_max -> b <= u32_max -> u32_be a = u32_be b -> a = b.
Proof.
  unfold u32_max, u32_be. intros Ha Hb [= H3 H2 H1 H0].
  pose proof (N.div_mod a 256). pose proof (N.div_mod b 256).
  pose proof (N.div_mod (a / 256) 256). pose proof (N.div_mod (b / 256) 256).
  pose proof (N.div_mod (a / 65536) 256). pose proof (N.div_mod (b / 65536) 256).
  assert (a / 65536 = a / 256 / 256) as Ea by (rewrite N.Div0.div_div; f_equal).
  assert (b / 65536 = b / 256 / 256) as Eb by (rewrite N.Div0.div_div; f_equal).
  assert (a / 16777216 = a / 65536 / 256) as Ea' by (rewrite N.Div0.div_div; f_equal).
  assert (b / 16777216 = b / 65536 / 256) as Eb' by (rewrite N.Div0.div_div; f_equal).
  assert (a / 16777216 < 256) by (apply N.Div0.div_lt_upper_bound; lia).
  assert (b / 16777216 < 256) by (apply N.Div0.div_lt_upper_bound; lia).
  rewrite !N.mod_small in H3 by done. lia.
Qed.

(** The [base64] crate's [STANDARD] engine: [decode] inverts [encode]. *)
Class Base64 := {
  b64_encode : list N -> string;
  b64_decode : string -> option (list N);
  b64_decode_encode : forall raw, Forall (fun b => b < 256) raw ->
    b64_decode (b64_encode raw) = Some raw;
}.

(** A codec the witnesses run with: the bits of stdpp's encoding, as digits. *)
Fixpoint bits_of_pos (p : positive) : string :=
  match p with
  | xH => EmptyString
  | xO p' => String (Ascii.ascii_of_N 48) (bits_of_pos p')
  | xI p' => String (Ascii.ascii_of_N 49) (bits_of_pos p')
  end.
Fixpoint pos_of_bits (s : string) : option positive :=
  match s with
  | EmptyString => Some xH
  | String c s' =>
      p ← pos_of_bits s';
      if decide (c = (Ascii.ascii_of_N 48)) then Some (xO p)
      else if decide (c = (Ascii.ascii_of_N 49)) then Some (xI p) else None
  end.
Lemma pos_of_bits_of_pos p : pos_of_bits (bits_of_pos p) = Some p.
Proof. induction p as [p IH|p IH|]; cbn; rewrite ?IH; done. Qed.

Definition demo_base64 : Base64.
Proof.
  refine {| b64_encode := fun raw => bits_of_pos (encode raw);
            b64_decode := fun s => p ← pos_of_bits s; decode p |}.
  intros raw _. rewrite pos_of_bits_of_pos. apply decode_encode.
Defined.

(** [u64::to_be_bytes]. *)
Definition u64_be (n : N) : list N := u32_be (n / 4294967296) ++ u32_be (n mod 4294967296).

Lemma u64_be_inj a b : a <= u64_max -> b <= u64_max -> u64_be a = u64_be b -> a = b.
Proof.
  unfold u64_max. intros Ha Hb Heq. unfold u64_be in Heq. apply app_inj_1 in Heq as [Hh Hl]; [|done].
  assert (a / 4294967296 < 4294967296) by (apply N.Div0.div_lt_upper_bound; lia).
  assert (b / 4294967296 < 4294967296) by (apply N.Div0.div_lt_upper_bound; lia).
  pose proof (N.mod_lt a 4294967296). pose proof (N.mod_lt b 4294967296).
  apply u32_be_inj in Hh; [|unfold u32_max; lia..].
  apply u32_be_inj in Hl; [|unfold u32_max; lia..].
  rewrite (N.div_mod a 4294967296), (N.div_mod b 4294967296) by done. congruence.
Qed.

(** [hex::encode]. *)
Definition hex_digit (n : N) : Ascii.ascii :=
  Ascii.ascii_of_N (if n <? 10 then 48 + n else 87 + n).
Fixpoint hex_encode (b : list N) : string :=
  match b with
  | [] => EmptyString
  | x :: b' => String (hex_digit (x / 16)) (String (hex_digit (x mod 16)) (hex_encode b'))
  end.

(** [hex::decode]: pairs of digits of either case. *)
Definition hex_value (c : Ascii.ascii) : option N :=
  let n := Ascii.N_of_ascii c in
  if (48 <=? n) && (n <=? 57) then Some (n - 48)
  else if (97 <=? n) && (n <=? 102) then Some (n - 87)
  else if (65 <=? n) && (n <=? 70) then Some (n - 55)
  else None.
Fixpoint hex_decode (s : string) : option (list N) :=
  match s with
  | EmptyString => Some []
  | String _ EmptyString => None
  | String a (String b s') =>
      h ← hex_value a; l ← hex_value b; r ← hex_decode s'; Some (16 * h + l :: r)
  end.

Lemma hex_value_digit n : n < 16 -> hex_value (hex_digit n) = Some n.
Proof.
  intros Hn. assert (forallb (fun n => bool_decide (hex_value (hex_digit n) = Some n)) (range 0 16) = true)
    as Hall by by vm_compute.
  rewrite forallb_forall in Hall. specialize (Hall n). apply bool_decide_eq_true in Hall; [done|].
  apply list_elem_of_In, elem_of_range. lia.
Qed.
Lemma hex_decode_encode b : Forall (fun x => x < 256) b -> hex_decode (hex_encode b) = Some b.
Proof.
  induction 1 as [|x b Hx _ IH]; [done|]. cbn.
  rewrite (hex_value_digit (x / 16)), (hex_value_digit (x mod 16)), IH
    by (apply N.mod_lt || apply N.Div0.div_lt_upper_bound; lia). cbn.
  do 2 f_equal. pose proof (N.div_mod x 16). lia.
Qed.

(** The bytes of a [str]; its [len()] counts them. *)
Definition str_len (s : string) : N := len (ascii_bytes s).

(** [c.to_ascii_lowercase()] over a string. *)
Definition ascii_lower (c : Ascii.ascii) : Ascii.ascii :=
  let n := Ascii.N_of_ascii c in
  if (65 <=? n) && (n <=? 90) then Ascii.ascii_of_N (n + 32) else c.
Fixpoint to_ascii_lowercase (s : string) : string :=
  match s with
  | EmptyString => EmptyString
  | String c s' => String (ascii_lower c) (to_ascii_lowercase s')
  end.

(** ** Sums *)

Fixpoint sum_by {A} (f : A -> N) (l : list A) : N :=
  match l with
  | [] => 0
  | x :: l' => f x + sum_by f l'
  end.

Lemma sum_by_app {A} (f : A -> N) l k : sum_by f (l ++ k) = sum_by f l + sum_by f k.
Proof. induction l as [|x l IH]; simpl; lia. Qed.

#[export] Instance sum_by_proper {A} (f : A -> N) : Proper ((≡ₚ) ==> (=)) (sum_by f).
Proof. induction 1; simpl; lia. Qed.

(** A predicate splits a sum. *)
Lemma sum_by_filter_split {A} (f : A -> N) (P : A -> bool) (l : list A) :
  sum_by f l = sum_by f (List.filter P l) + sum_by f (List.filter (fun x => negb (P x)) l).
Proof. induction l as [|x l IH]; simpl; [done|]. destruct (P x); simpl; lia. Qed.

Lemma sum_by_concat {A} (f : A -> N) (l : list (list A)) :
  sum_by f (List.concat l) = sum_by (sum_by f) l.
Proof. induction l as [|x l IH]; simpl; [done|]. by rewrite sum_by_app, IH. Qed.

Lemma sum_by_fmap {A B} (f : B -> N) (g : A -> B) (l : list A) :
  sum_by f (g <$> l) = sum_by (fun x => f (g x)) l.
Proof. induction l as [|x l IH]; simpl; [done|]. by f_equal. Qed.

Lemma filter_concat {A} (P : A -> bool) (l : list (list A)) :
  List.filter P (List.concat l) = List.concat (List.filter P <$> l).
Proof. induction l as [|x l IH]; simpl; [done|]. by rewrite List.filter_app, IH. Qed.

(** A saturating accumulation is the clamped sum. *)
Lemma foldl_saturating max l acc :
  acc <= max -> foldl (saturating_add max) acc l = N.min max (acc + sum_by id l).
Proof.
  revert acc. induction l as [|x l IH]; intros acc Ha; simpl; [lia|].
  unfold saturating_add at 2. unfold id. rewrite IH by lia. unfold id. lia.
Qed.

Section msum.
Context {K V : Type} `{Countable K}.

(** The sum of [f] over the values of a map. *)
Definition msum (f : V -> N) (m : gmap K V) : N :=
  map_fold (fun _ v acc => f v + acc) 0 m.

Lemma msum_empty f : msum f ∅ = 0.
Proof. apply map_fold_empty. Qed.

Lemma msum_insert_fresh f m k v :
  m !! k = None -> msum f (<[k:=v]> m) = f v + msum f m.
Proof. intros Hk. unfold msum. rewrite map_fold_insert_L; [done| |done]. intros; lia. Qed.

Lemma msum_delete f m k v :
  m !! k = Some v -> msum f m = f v + msum f (delete k m).
Proof.
  intros Hk. rewrite <- (insert_delete_id m k v) at 1 by done.
  apply msum_insert_fresh, lookup_delete_eq.
Qed.

Lemma msum_insert f m k v v' :
  m !! k = Some v -> msum f (<[k:=v']> m) + f v = msum f m + f v'.
Proof.
  intros Hk. rewrite <- insert_delete_eq, msum_insert_fresh by apply lookup_delete_eq.
  rewrite (msum_delete f m k v) by done. lia.
Qed.

Lemma msum_le_lookup f m k v : m !! k = Some v -> f v <= msum f m.
Proof. intros Hk. rewrite (msum_delete f m k v) by done. lia. Qed.

Lemma msum_values f (m : gmap K V) : msum f m = sum_by f (map_to_list m).*2.
Proof.
  unfold msum. induction m as [|k v m Hk IH] using map_ind.
  - by rewrite map_fold_empty, map_to_list_empty.
  - rewrite map_fold_insert_L; [|intros; lia|done].
    rewrite map_to_list_insert by done. simpl. by rewrite IH.
Qed.

(** Sums are additive in the summed function. *)
Lemma msum_add f g h (m : gmap K V) :
  (forall v, h v = f v + g v) -> msum h m = msum f m + msum g m.
Proof.
  intros Hh. induction m as [|k v m Hk IH] using map_ind.
  - by rewrite !msum_empty.
  - rewrite !msum_insert_fresh, IH, Hh by done. lia.
Qed.

Lemma msum_ext f g (m : gmap K V) :
  (forall k v, m !! k = Some v -> f v = g v) -> msum f m = msum g m.
Proof.
  induction m as [|k v m Hk IH] using map_ind; intros Hfg.
  - by rewrite !msum_empty.
  - rewrite !msum_insert_fresh by done. f_equal.
    + apply (Hfg k). apply lookup_insert_eq.
    + apply IH. intros k' v' Hk'. apply (Hfg k'). rewrite lookup_insert_ne; congruence.
Qed.
Lemma msum_subseteq f (m m' : gmap K V) : m' ⊆ m -> msum f m' <= msum f m.
Proof.
  revert m. induction m' as [|k v m' Hk IH] using map_ind; intros m Hsub.
  { rewrite msum_empty. lia. }
  rewrite msum_insert_fresh by done.
  assert (m !! k = Some v) as Hm.
  { eapply lookup_weaken; [apply lookup_insert_eq | done]. }
  rewrite (msum_delete f m k v) by done.
  enough (msum f m' <= msum f (delete k m)) by lia.
  apply IH, map_subseteq_spec. intros i x Hi.
  assert (i <> k) by congruence. rewrite lookup_delete_ne by done.
  eapply lookup_weaken; [|done]. by rewrite lookup_insert_ne.
Qed.

Lemma msum_omap {W} (h : W -> N) (g : V -> option W) (m : gmap K V) :
  map_fold (fun _ v acc => h v + acc) 0 (omap g m) =
  msum (fun v => match g v with Some w => h w | None => 0 end) m.
Proof.
  induction m as [|k v m Hk IH] using map_ind.
  - rewrite omap_empty, msum_empty. apply map_fold_empty.
  - rewrite msum_insert_fresh by done. destruct (g v) as [w|] eqn:Hg.
    + rewrite (omap_insert_Some _ _ _ _ w) by done.
      rewrite map_fold_insert_L; [by rewrite IH | intros; lia | by rewrite lookup_omap, Hk].
    + rewrite omap_insert_None, delete_id by (rewrite ?lookup_omap, ?Hk; done). by rewrite IH.
Qed.

(** Replacing one entry, absent or not, when the default weighs nothing. *)
Lemma msum_set f (m : gmap K V) k d v :
  f d = 0 -> msum f (<[k := v]> m) + f (default d (m !! k)) = msum f m + f v.
Proof.
  intros Hd. destruct (m !! k) as [w|] eqn:Hk; cbn; [by apply msum_insert|].
  rewrite msum_insert_fresh by done. lia.
Qed.

Lemma msum_hm_values `{!HashIter K V} f (m : gmap K V) : msum f m = sum_by f (hm_values m).
Proof.
  rewrite msum_values. apply sum_by_proper. unfold hm_values. by rewrite hm_iter_perm.
Qed.
End msum.

Lemma msum_fmap {K V W} `{Countable K} (h : W -> N) (g : V -> W) (m : gmap K V) :
  msum h (g <$> m) = msum (fun v => h (g v)) m.
Proof.
  induction m as [|k v m Hk IH] using map_ind.
  - by rewrite fmap_empty, !msum_empty.
  - rewrite fmap_insert, !msum_insert_fresh, IH by (rewrite ?lookup_fmap, ?Hk; done). done.
Qed.

(** Counting with a predicate is summing its indicator, in any order. *)
Lemma len_filter_values {K V} `{HashIter K V} (P : V -> bool) (m : gmap K V) :
  len (List.filter P (hm_values m)) = msum (fun v => if P v then 1 else 0) m.
Proof.
  rewrite msum_values. unfold hm_values. rewrite <- (sum_by_proper _ (hm_iter m).*2 (map_to_list m).*2).
  - generalize (hm_iter m).*2. intros l. unfold len.
    induction l as [|x l IH]; [done|]. simpl. destruct (P x); simpl; lia.
  - by rewrite hm_iter_perm.
Qed.

(** ** Lists *)

(** A bounded push at the back of a list: the oldest element leaves first. *)
Lemma length_lt_cap_snoc {A} (l : list A) (x : A) (cap : nat) :
  (length l < cap)%nat -> (length (l ++ [x]) <= cap)%nat.
Proof. rewrite length_app. simpl. lia. Qed.

Lemma tail_drop {A} (n : nat) (l : list A) : tail (drop n l) = drop (S n) l.
Proof. revert n. induction l as [|x l IH]; intros [|n]; simpl; try done. Qed.

Lemma elem_of_list_filter_bool {A} (P : A -> bool) (l : list A) x :
  x ∈ List.filter P l <-> P x = true /\ x ∈ l.
Proof. rewrite !list_elem_of_In, List.filter_In. tauto. Qed.

Lemma filter_filter_bool {A} (P Q : A -> bool) (l : list A) :
  List.filter P (List.filter Q l) = List.filter (fun x => Q x && P x) l.
Proof.
  induction l as [|x l IH]; [done|]. cbn. destruct (Q x); cbn; [|done].
  destruct (P x); by rewrite IH.
Qed.

Lemma NoDup_filter_bool {A} (P : A -> bool) (l : list A) :
  NoDup l -> NoDup (List.filter P l).
Proof. rewrite !NoDup_ListNoDup. apply List.NoDup_filter. Qed.

Lemma filter_bool_sublist {A} (P : A -> bool) (l : list A) : List.filter P l `sublist_of` l.
Proof. induction l as [|x l IH]; simpl; [constructor|]. by case_match; constructor. Qed.

Lemma NoDup_fmap_filter_bool {A B} (f : A -> B) (P : A -> bool) (l : list A) :
  NoDup (f <$> l) -> NoDup (f <$> List.filter P l).
Proof. intros Hd. eapply sublist_NoDup; [exact Hd|]. apply fmap_sublist, filter_bool_sublist. Qed.

#[export] Instance filter_bool_perm {A} (P : A -> bool) : Proper ((≡ₚ) ==> (≡ₚ)) (List.filter P).
Proof.
  induction 1 as [|x l k _ IH|x y l|l k m _ IH1 _ IH2]; simpl; [done| | |by etrans].
  - by case_match; rewrite IH.
  - repeat case_match; try done. apply Permutation_swap.
Qed.

Lemma list_filter_bool_nil {A} (P : A -> bool) (l : list A) :
  (forall x, x ∈ l -> P x = false) -> List.filter P l = [].
Proof.
  induction l as [|x l IH]; intros HP; [done|]. cbn. rewrite HP by left.
  apply IH. intros y ?. apply HP. by right.
Qed.

Lemma list_filter_bool_all {A} (P : A -> bool) (l : list A) :
  (forall x, x ∈ l -> P x = true) -> List.filter P l = l.
Proof.
  induction l as [|x l IH]; intros HP; [done|]. cbn. rewrite HP by left. f_equal.
  apply IH. intros y ?. apply HP. by right.
Qed.

(** First occurrences of the keys [f x] in iteration order: the
    [filter_map(|b| seen.insert(f(b)).then_some(f(b)))] idiom. *)
Fixpoint dedup_by {A K} `{Countable K} (f : A -> K) (seen : gset K) (l : list A) : list K :=
  match l with
  | [] => []
  | x :: l' =>
      if decide (f x ∈ seen) then dedup_by f seen l'
      else f x :: dedup_by f ({[f x]} ∪ seen) l'
  end.

Lemma elem_of_dedup_by {A K} `{Countable K} (f : A -> K) l (seen : gset K) k :
  k ∈ dedup_by f seen l <-> k ∉ seen /\ exists x, x ∈ l /\ k = f x.
Proof.
  revert seen. induction l as [|x l IH]; intros seen; simpl.
  { split; [by intros ?%elem_of_nil | intros (_ & ? & ?%elem_of_nil & _); done]. }
  case_decide as Hs.
  - rewrite IH. split.
    + intros (? & y & ? & ->). split; [done|]. exists y. split; [by right | done].
    + intros (? & y & [->|?]%elem_of_cons & ->); [done|eauto].
  - rewrite elem_of_cons, IH. split.
    + intros [-> | (Hn & y & ? & ->)].
      * split; [done|]. exists x. split; [by left | done].
      * split; [set_solver|]. exists y. split; [by right | done].
    + intros (Hn & y & [->|?]%elem_of_cons & ->); [by left|].
      destruct (decide (f y = f x)) as [->|]; [by left | right].
      split; [set_solver | eauto].
Qed.

Lemma NoDup_dedup_by {A K} `{Countable K} (f : A -> K) l (seen : gset K) :
  NoDup (dedup_by f seen l).
Proof.
  revert seen. induction l as [|x l IH]; intros seen; simpl; [constructor|].
  case_decide; [done|]. constructor; [|done].
  rewrite elem_of_dedup_by. set_solver.
Qed.

Lemma NoDup_bounded_length (l : list N) (b : N) :
  NoDup l -> (forall x, x ∈ l -> x < b) -> len l <= b.
Proof.
  intros Hnd Hb.
  assert (list_to_set l ⊆ (list_to_set (range 0 b) : gset N)) as Hsub.
  { intros x Hx%elem_of_list_to_set. apply elem_of_list_to_set, elem_of_range.
    specialize (Hb x Hx). lia. }
  apply subseteq_size in Hsub. rewrite size_list_to_set in Hsub by done.
  rewrite size_list_to_set in Hsub.
  - unfold range in Hsub. rewrite length_fmap, length_seq in Hsub. unfold len. lia.
  - apply NoDup_fmap_2; [intros ???; lia | apply NoDup_seq].
Qed.

(** [str::contains] with a string pattern. *)
Definition str_contains (needle hay : string) : bool := is_some (String.index 0 needle hay).

(** ** Automation *)

Create HintDb fetchit.
Create Rewrite HintDb fetchit.
#[export] Hint Rewrite @lookup_insert_eq @lookup_delete_eq @lookup_empty @length_app : fetchit.
#[export] Hint Resolve NoDup_hm_keys NoDup_hm_iter NoDup_dedup_by : fetchit.

(** Case split on every [match] and [if] of the goal, closing what is absurd. *)
Ltac split_cases := repeat (case_match; simplify_eq/=; try done).
