(* ===== verification/SendState.v ===== *)
(** * Send states and failure classification

    Models [crates/fetchit-chat/src/send_state.rs] and the error type it
    classifies, [crates/fetchit-chat/src/error.rs]. *)
From S2P Require Import Prelude.

(** ** What the sender knows about one message *)

Inductive SendState := Failed | Queued | Sent | Delivered.

#[export] Instance SendState_eq_dec : EqDecision SendState.
Proof. solve_decision. Defined.

(** The derived [Ord]: variant order is "how far it got". *)
Definition SendState_rank (s : SendState) : N :=
  match s with Failed => 0 | Queued => 1 | Sent => 2 | Delivered => 3 end.

Definition SendState_lt (a b : SendState) : bool := SendState_rank a <? SendState_rank b.

Definition reached_relay (s : SendState) : bool :=
  match s with Sent | Delivered => true | _ => false end.

Definition is_terminal (s : SendState) : bool :=
  match s with Delivered | Failed => true | _ => false end.

Record SendProgress := { sp_state : SendState; sp_changed_at_ms : N }.

(** ** Errors

    Payloads that are errors of other crates ([reqwest], [serde_json], [std::io])
    are kept as their display text. *)

Inductive ChatError :=
| NotDiscoverable (why : string)
| Transport (source : string)
| WebSocket (why : string)
| Daemon (status : N) (body : string)
| Decode (source : string)
| Invalid (why : string)
| Io (source : string)
| NoTransportAvailable
| MessageTransport (why : string)
| IdentityNotInitialised (path : string)
| SealedRequired (caller : string)
| ShareCardMissing (agent_id_short : string)
| BridgeNeedsConsent (group_id : string)
| BridgeDeclined (group_id : string)
| Denied (agent_id_hex : string)
| DeniedActor (actor_url : string)
| JoinerNotConverged (group_id : string) (waited_ms : N)
| AllRelaysUnreachable (recipient : string)
| OutboxAttachmentsFull (retained cap : N).

(** [error.to_string()]: the [Display] that the [thiserror] derive generates. *)
Class ErrorDisplay := error_to_string : ChatError -> string.

(** A failed send attempt, classified. *)
Record SendFailure := { sf_reason : string; sf_terminal : bool }.

Definition classify `{ErrorDisplay} (error : ChatError) : SendFailure :=
  {| sf_reason := error_to_string error;
     sf_terminal :=
       match error with
       | Denied _ | DeniedActor _ | SealedRequired _ => true
       | _ => false
       end |}.

Definition retryable (reason : string) : SendFailure :=
  {| sf_reason := reason; sf_terminal := false |}.

(** ** Facts the clients use *)

Lemma reached_relay_terminal s : reached_relay s = true -> s = Sent \/ is_terminal s = true.
Proof. destruct s; simpl; auto; discriminate. Qed.

Lemma not_terminal_cases s : is_terminal s = false -> s = Queued \/ s = Sent.
Proof. destruct s; simpl; auto; discriminate. Qed.
