(* ===== verification/Attachment.v ===== *)
(** * Inline attachments

    Models [crates/fetchit-chat/src/attachment.rs]: the checks an inline image
    passes when it is built from raw bytes and when it is received. *)
From S2P Require Import Prelude.

Definition MAX_ATTACHMENT_BYTES : N := 256 * 1024.

Definition ALLOWED_ATTACHMENT_MIMES : list string :=
  ["image/jpeg"; "image/png"; "image/webp"; "image/gif"]%string.

Record Attachment := {
  at_mime : string;
  at_width : N;
  at_height : N;
  at_bytes_b64 : string;
}.

#[export] Instance Attachment_eq_dec : EqDecision Attachment.
Proof. solve_decision. Defined.

Inductive AttachmentError :=
| DisallowedMime (mime : string)
| ZeroDimension
| InvalidBase64
| TooLarge (raw_len max : N).

Definition check_mime (mime : string) : result unit AttachmentError :=
  if decide (mime ∈ ALLOWED_ATTACHMENT_MIMES) then Ok tt else Err (DisallowedMime mime).

Definition check_dimensions (width height : N) : result unit AttachmentError :=
  if (width =? 0) || (height =? 0) then Err ZeroDimension else Ok tt.

Definition check_len (raw_len : N) : result unit AttachmentError :=
  if MAX_ATTACHMENT_BYTES <? raw_len then Err (TooLarge raw_len MAX_ATTACHMENT_BYTES) else Ok tt.

Section attachment.
  Context `{Base64}.

Definition from_raw (mime : string) (width height : N) (raw : list N)
    : result Attachment AttachmentError :=
  let? _ := check_mime mime in
  let? _ := check_dimensions width height in
  let? _ := check_len (len raw) in
  Ok {| at_mime := mime; at_width := width; at_height := height;
        at_bytes_b64 := b64_encode raw |}.

Definition validate (a : Attachment) : result (list N) AttachmentError :=
  let? _ := check_mime (at_mime a) in
  let? _ := check_dimensions (at_width a) (at_height a) in
  match b64_decode (at_bytes_b64 a) with
  | None => Err InvalidBase64
  | Some raw => let? _ := check_len (len raw) in Ok raw
  end.

(** What [validate] accepts: exactly the attachments within every limit. *)
Lemma validate_ok_iff a raw :
  validate a = Ok raw <->
  at_mime a ∈ ALLOWED_ATTACHMENT_MIMES /\ at_width a <> 0 /\ at_height a <> 0 /\
  b64_decode (at_bytes_b64 a) = Some raw /\ len raw <= MAX_ATTACHMENT_BYTES.
Proof.
  unfold validate, check_mime, check_dimensions, check_len.
  case_decide; [|naive_solver].
  destruct (N.eqb_spec (at_width a) 0), (N.eqb_spec (at_height a) 0); simpl; try naive_solver.
  destruct (b64_decode (at_bytes_b64 a)) as [r|]; [|naive_solver].
  destruct (N.ltb_spec MAX_ATTACHMENT_BYTES (len r)); simpl; [|naive_solver].
  split; [done | intros (_ & _ & _ & [= ->] & ?); lia].
Qed.

Lemma from_raw_ok_iff mime w h raw a :
  from_raw mime w h raw = Ok a <->
  mime ∈ ALLOWED_ATTACHMENT_MIMES /\ w <> 0 /\ h <> 0 /\ len raw <= MAX_ATTACHMENT_BYTES /\
  a = {| at_mime := mime; at_width := w; at_height := h; at_bytes_b64 := b64_encode raw |}.
Proof.
  unfold from_raw, check_mime, check_dimensions, check_len.
  case_decide; [|naive_solver].
  destruct (N.eqb_spec w 0), (N.eqb_spec h 0); simpl; try naive_solver.
  destruct (N.ltb_spec MAX_ATTACHMENT_BYTES (len raw)); simpl; [|naive_solver].
  split; [done | intros (_ & _ & _ & ? & _); lia].
Qed.
End attachment.
