(* ===== verification/Bubble.v ===== *)
(** * Outbox bubbles

    Models [crates/fetchit-chat/src/outbox/mod.rs]: the record that tracks one
    outbound message from enqueue to delivery, and the retry-eligibility rule. *)
From S2P Require Import Prelude SendState Attachment.

(** A 64-hex agent id of the chat layer. *)
Abbreviation AgentId := string.

Definition PRIOR_MESSAGE_ID_CAP : nat := 8.
Definition ATTACHMENT_BUBBLE_CAP : N := 16.

Record GroupOutbound := {
  g_group_id : string;
  g_envelope : list N;
  g_client_message_id : string;
}.

Record OutboxBubble := mkBubble {
  b_id : string;
  b_peer : AgentId;
  b_body : string;
  b_status : SendState;
  b_message_id : option string;
  b_enqueued_at_ms : N;
  b_state_changed_at_ms : N;
  b_prior_message_ids : list string;
  b_last_error : option string;
  b_group : option GroupOutbound;
  b_attachment : option Attachment;
  b_reply_to_message_id : option string;
  b_attachment_dropped : bool;
}.

(** Field assignment, [bubble.f = v]. *)


Definition set_status (v : SendState) (b : OutboxBubble) : OutboxBubble :=
  mkBubble (b_id b) (b_peer b) (b_body b) v (b_message_id b) (b_enqueued_at_ms b)
    (b_state_changed_at_ms b) (b_prior_message_ids b) (b_last_error b) (b_group b) (b_attachment
    b) (b_reply_to_message_id b) (b_attachment_dropped b).
Definition set_message_id (v : option string) (b : OutboxBubble) : OutboxBubble :=
  mkBubble (b_id b) (b_peer b) (b_body b) (b_status b) v (b_enqueued_at_ms b)
    (b_state_changed_at_ms b) (b_prior_message_ids b) (b_last_error b) (b_group b) (b_attachment
    b) (b_reply_to_message_id b) (b_attachment_dropped b).
Definition set_state_changed_at_ms (v : N) (b : OutboxBubble) : OutboxBubble :=
  mkBubble (b_id b) (b_peer b) (b_body b) (b_status b) (b_message_id b) (b_enqueued_at_ms b) v
    (b_prior_message_ids b) (b_last_error b) (b_group b) (b_attachment b) (b_reply_to_message_id
    b) (b_attachment_dropped b).
Definition set_prior_message_ids (v : list string) (b : OutboxBubble) : OutboxBubble :=
  mkBubble (b_id b) (b_peer b) (b_body b) (b_status b) (b_message_id b) (b_enqueued_at_ms b)
    (b_state_changed_at_ms b) v (b_last_error b) (b_group b) (b_attachment b)
    (b_reply_to_message_id b) (b_attachment_dropped b).
Definition set_last_error (v : option string) (b : OutboxBubble) : OutboxBubble :=
  mkBubble (b_id b) (b_peer b) (b_body b) (b_status b) (b_message_id b) (b_enqueued_at_ms b)
    (b_state_changed_at_ms b) (b_prior_message_ids b) v (b_group b) (b_attachment b)
    (b_reply_to_message_id b) (b_attachment_dropped b).
Definition set_group (v : option GroupOutbound) (b : OutboxBubble) : OutboxBubble :=
  mkBubble (b_id b) (b_peer b) (b_body b) (b_status b) (b_message_id b) (b_enqueued_at_ms b)
    (b_state_changed_at_ms b) (b_prior_message_ids b) (b_last_error b) v (b_attachment b)
    (b_reply_to_message_id b) (b_attachment_dropped b).
Definition set_attachment (v : option Attachment) (b : OutboxBubble) : OutboxBubble :=
  mkBubble (b_id b) (b_peer b) (b_body b) (b_status b) (b_message_id b) (b_enqueued_at_ms b)
    (b_state_changed_at_ms b) (b_prior_message_ids b) (b_last_error b) (b_group b) v
    (b_reply_to_message_id b) (b_attachment_dropped b).
Definition set_reply_to_message_id (v : option string) (b : OutboxBubble) : OutboxBubble :=
  mkBubble (b_id b) (b_peer b) (b_body b) (b_status b) (b_message_id b) (b_enqueued_at_ms b)
    (b_state_changed_at_ms b) (b_prior_message_ids b) (b_last_error b) (b_group b) (b_attachment
    b) v (b_attachment_dropped b).
Definition set_attachment_dropped (v : bool) (b : OutboxBubble) : OutboxBubble :=
  mkBubble (b_id b) (b_peer b) (b_body b) (b_status b) (b_message_id b) (b_enqueued_at_ms b)
    (b_state_changed_at_ms b) (b_prior_message_ids b) (b_last_error b) (b_group b) (b_attachment
    b) (b_reply_to_message_id b) v.

(** The one constructor every send path uses. *)
Definition queued (id : string) (peer : AgentId) (body : string) (now_ms : N) : OutboxBubble :=
  {| b_id := id; b_peer := peer; b_body := body;
     b_status := Queued; b_message_id := None;
     b_enqueued_at_ms := now_ms; b_state_changed_at_ms := now_ms;
     b_prior_message_ids := []; b_last_error := None; b_group := None;
     b_attachment := None; b_reply_to_message_id := None;
     b_attachment_dropped := false |}.

Definition with_group (g : GroupOutbound) (b : OutboxBubble) : OutboxBubble :=
  set_group (Some g) b.

Definition with_dm_payload (a : option Attachment) (reply : option string)
    (b : OutboxBubble) : OutboxBubble :=
  set_reply_to_message_id reply (set_attachment a b).

Definition release_attachment (last_holder : bool) (b : OutboxBubble) : OutboxBubble :=
  let taken := is_some (b_attachment b) in
  let b := set_attachment None b in
  if taken && last_holder then set_attachment_dropped true b else b.

Definition matches_receipt (message_id : string) (b : OutboxBubble) : bool :=
  bool_decide (b_message_id b = Some message_id)
  || existsb (fun i => bool_decide (i = message_id)) (b_prior_message_ids b).

Definition is_retryable (b : OutboxBubble) : bool :=
  match b_status b with
  | Queued => true
  | Sent => negb (is_some (b_group b))
  | Delivered | Failed => false
  end.

(** ** Lemmas *)

Lemma matches_receipt_spec mid b :
  matches_receipt mid b = true <-> b_message_id b = Some mid \/ mid ∈ b_prior_message_ids b.
Proof.
  unfold matches_receipt. rewrite orb_true_iff, bool_decide_eq_true, existsb_exists.
  split; (intros [?|Hp]; [by left | right]).
  - destruct Hp as (x & Hx & ->%bool_decide_eq_true). by apply list_elem_of_In.
  - exists mid. split; [by apply list_elem_of_In | by apply bool_decide_eq_true].
Qed.

Lemma release_attachment_status lh b : b_status (release_attachment lh b) = b_status b.
Proof. unfold release_attachment. by destruct (b_attachment b), lh. Qed.
Lemma release_attachment_none lh b : b_attachment (release_attachment lh b) = None.
Proof. unfold release_attachment. by destruct (b_attachment b), lh. Qed.
Lemma release_attachment_frame lh b :
  let b' := release_attachment lh b in
  b_id b' = b_id b /\ b_peer b' = b_peer b /\ b_message_id b' = b_message_id b /\
  b_prior_message_ids b' = b_prior_message_ids b /\
  b_state_changed_at_ms b' = b_state_changed_at_ms b /\ b_group b' = b_group b.
Proof. unfold release_attachment. by destruct (b_attachment b), lh. Qed.
Lemma release_attachment_dropped lh b :
  b_attachment_dropped (release_attachment lh b) =
  b_attachment_dropped b || (is_some (b_attachment b) && lh).
Proof.
  unfold release_attachment.
  destruct (b_attachment b), lh; simpl; by rewrite ?orb_true_r, ?orb_false_r.
Qed.
#[export] Hint Rewrite release_attachment_status release_attachment_none : fetchit.
