(* ===== verification/OutboxStore.v ===== *)
(** * The durable outbox store

    Models [crates/fetchit-chat/src/outbox/store.rs].  The bubble map is [inner],
    the in-flight claims are [inflight]; [vault] is the map the sealed file
    [outbox/outbox.json.enc] opens to ([None] when it is missing or unreadable),
    and [persistent] says whether the store holds a persistence handle. *)
From S2P Require Import Prelude SendState Attachment Bubble.

Record OutboxStore := mkStore {
  inner : gmap string OutboxBubble;
  persistent : bool;
  inflight : gmap string N;
  vault : option (gmap string OutboxBubble);
}.

(** Whether serializing and sealing the map to disk succeeds: [serde_json], the
    AEAD and the file system decide. *)
Class VaultIO := seal_ok : gmap string OutboxBubble -> bool.

Section store.
  Context `{VaultIO} `{HB : !HashIter string OutboxBubble} `{HF : !HashIter string N}.

Definition set_inner (m : gmap string OutboxBubble) (s : OutboxStore) : OutboxStore :=
  mkStore m (persistent s) (inflight s) (vault s).
Definition set_inflight (c : gmap string N) (s : OutboxStore) : OutboxStore :=
  mkStore (inner s) (persistent s) c (vault s).

(** Seal the whole map when a handle is set; a failure is swallowed. *)
Definition flush (s : OutboxStore) : OutboxStore :=
  if persistent s && seal_ok (inner s)
  then mkStore (inner s) (persistent s) (inflight s) (Some (inner s))
  else s.

Definition new : OutboxStore := mkStore ∅ false ∅ None.

(** One bubble of [migrate_legacy]. *)
Definition migrate_bubble (b : OutboxBubble) : OutboxBubble :=
  if negb (b_state_changed_at_ms b =? 0) then b
  else
    let status :=
      match b_status b with
      | Failed => Queued
      | Queued => if is_some (b_message_id b) then Sent else Queued
      | other => other
      end in
    set_state_changed_at_ms (b_enqueued_at_ms b) (set_status status b).

Definition migrate_legacy (m : gmap string OutboxBubble) : gmap string OutboxBubble :=
  migrate_bubble <$> m.

(** [load]: the vault's map, or the empty one, migrated; no claim survives. *)
Definition load (v : option (gmap string OutboxBubble)) : OutboxStore :=
  mkStore (migrate_legacy (default ∅ v)) true ∅ v.

Definition upsert (b : OutboxBubble) (s : OutboxStore) : OutboxStore :=
  flush (set_inner (<[b_id b := b]> (inner s)) s).

Definition get (id : string) (s : OutboxStore) : option OutboxBubble := inner s !! id.

Definition snapshot (s : OutboxStore) : list OutboxBubble := hm_values (inner s).

Definition attachment_bubble_count (s : OutboxStore) : N :=
  len (List.filter (fun b => is_some (b_attachment b)) (hm_values (inner s))).

Definition has_attachment_capacity (s : OutboxStore) : bool :=
  attachment_bubble_count s <? ATTACHMENT_BUBBLE_CAP.

Definition remove (id : string) (s : OutboxStore) : OutboxStore :=
  flush (set_inner (delete id (inner s)) s).

Definition drop_bubbles_for_peers (peers : list AgentId) (s : OutboxStore)
    : list string * OutboxStore :=
  match peers with
  | [] => ([], s)
  | _ =>
      let dropped :=
        b_id <$> List.filter (fun b => bool_decide (b_peer b ∈ peers)) (snapshot s) in
      let s' := set_inner (foldl (fun m id => delete id m) (inner s) dropped) s in
      (dropped, match dropped with [] => s' | _ => flush s' end)
  end.

(** [HashMap::insert] stores [now_ms] whether or not a claim was there. *)
Definition try_mark_inflight (id : string) (now_ms : N) (s : OutboxStore)
    : bool * OutboxStore :=
  (negb (is_some (inflight s !! id)), set_inflight (<[id := now_ms]> (inflight s)) s).

Definition clear_inflight (id : string) (s : OutboxStore) : OutboxStore :=
  set_inflight (delete id (inflight s)) s.

Definition clear_all_inflight (s : OutboxStore) : OutboxStore := set_inflight ∅ s.

(** The claim of [id], taken at [claimed_at], is stalled. *)
Definition claim_stalled (now_ms stall_ms : N) (s : OutboxStore) (c : string * N) : bool :=
  (stall_ms <=? now_ms -| c.2)
  && match inner s !! c.1 with
     | Some b => negb (is_terminal (b_status b))
     | None => false
     end.

Definition clear_stalled_inflight (now_ms stall_ms : N) (s : OutboxStore)
    : list OutboxBubble * OutboxStore :=
  let stalled := (List.filter (claim_stalled now_ms stall_ms s) (hm_iter (inflight s))).*1 in
  (omap (fun id => inner s !! id) stalled,
   set_inflight (foldl (fun c id => delete id c) (inflight s) stalled) s).

Definition mark_delivered (message_id : string) (received_at_ms : N) (s : OutboxStore)
    : option OutboxBubble * OutboxStore :=
  match List.find (fun kb => matches_receipt message_id kb.2) (hm_iter (inner s)) with
  | None => (None, s)
  | Some (k, b) =>
      let b' := release_attachment false
                  (set_state_changed_at_ms received_at_ms (set_status Delivered b)) in
      (Some b', flush (set_inner (<[k := b']> (inner s)) s))
  end.

(** The superseded id is remembered, oldest first out. *)
Definition remember_superseded (old : string) (prior : list string) : list string :=
  if bool_decide (old ∈ prior) then prior
  else (if (PRIOR_MESSAGE_ID_CAP <=? length prior)%nat then tail prior else prior) ++ [old].

(** The body of [record_send_outcome] on the bubble it looked up; [None] is the
    early return on a terminal bubble. *)
Definition apply_outcome (message_id : option string) (failure : option SendFailure)
    (now_ms : N) (b : OutboxBubble) : option OutboxBubble :=
  if is_terminal (b_status b) then None
  else match failure with
  | Some f =>
      let b := set_last_error (Some (sf_reason f)) b in
      if sf_terminal f && negb (reached_relay (b_status b))
      then Some (release_attachment true
                   (set_state_changed_at_ms now_ms (set_status Failed b)))
      else Some b
  | None =>
      let b :=
        match message_id with
        | None => b
        | Some new_id =>
            let old := b_message_id b in
            let b := set_message_id (Some new_id) b in
            match old with
            | None => b
            | Some old =>
                set_prior_message_ids (remember_superseded old (b_prior_message_ids b)) b
            end
        end in
      let b := if bool_decide (b_status b = Sent) then b
               else set_state_changed_at_ms now_ms b in
      Some (set_last_error None (set_status Sent b))
  end.

Definition record_send_outcome (bubble_id : string) (message_id : option string)
    (failure : option SendFailure) (now_ms : N) (s : OutboxStore)
    : option OutboxBubble * OutboxStore :=
  match inner s !! bubble_id with
  | None => (None, s)
  | Some b =>
      match apply_outcome message_id failure now_ms b with
      | None => (None, s)
      | Some b' => (Some b', flush (set_inner (<[bubble_id := b']> (inner s)) s))
      end
  end.

End store.

(** ** Frame lemmas *)

Section frame.
  Context `{VaultIO} `{HB : !HashIter string OutboxBubble} `{HF : !HashIter string N}.

Lemma flush_inner s : inner (flush s) = inner s.
Proof. unfold flush. by destruct (persistent s && seal_ok (inner s)). Qed.
Lemma flush_inflight s : inflight (flush s) = inflight s.
Proof. unfold flush. by destruct (persistent s && seal_ok (inner s)). Qed.
Lemma flush_persistent s : persistent (flush s) = persistent s.
Proof. unfold flush. by destruct (persistent s && seal_ok (inner s)). Qed.

Lemma record_send_outcome_inflight id mid f t s :
  inflight (record_send_outcome id mid f t s).2 = inflight s.
Proof. unfold record_send_outcome. split_cases. by rewrite flush_inflight. Qed.

Lemma record_send_outcome_inner id mid f t s :
  inner (record_send_outcome id mid f t s).2 =
  match inner s !! id ≫= apply_outcome mid f t with
  | Some b' => <[id := b']> (inner s)
  | None => inner s
  end.
Proof.
  unfold record_send_outcome. destruct (inner s !! id) as [b|]; simpl; [|done].
  destruct (apply_outcome mid f t b); simpl; [by rewrite flush_inner | done].
Qed.

(** What [mark_delivered] does, whichever matching bubble the map yields first. *)
Lemma mark_delivered_cases mid t s :
  (mark_delivered mid t s = (None, s) /\
   forall k b, inner s !! k = Some b -> matches_receipt mid b = false) \/
  (exists k b, inner s !! k = Some b /\ matches_receipt mid b = true /\
     let b' := release_attachment false (set_state_changed_at_ms t (set_status Delivered b)) in
     mark_delivered mid t s = (Some b', flush (set_inner (<[k := b']> (inner s)) s))).
Proof.
  unfold mark_delivered.
  destruct (List.find _ (hm_iter (inner s))) as [[k b]|] eqn:Hf.
  - right. apply List.find_some in Hf as [Hin Hm]. exists k, b.
    apply list_elem_of_In, elem_of_hm_iter in Hin. done.
  - left. split; [done|]. intros k b Hk.
    apply (List.find_none _ _ Hf (k, b)). by apply list_elem_of_In, elem_of_hm_iter.
Qed.

Lemma lookup_foldl_delete {V} (ids : list string) (m : gmap string V) k :
  foldl (fun m id => delete id m) m ids !! k = if decide (k ∈ ids) then None else m !! k.
Proof.
  revert m. induction ids as [|i ids IH]; intros m.
  { rewrite decide_False by apply not_elem_of_nil. done. }
  cbn [foldl]. rewrite IH. destruct (decide (k = i)) as [->|Hne].
  - rewrite lookup_delete_eq. repeat case_decide; set_solver.
  - rewrite lookup_delete_ne by done. repeat case_decide; set_solver.
Qed.

Lemma drop_bubbles_inner peers s k :
  (forall k b, inner s !! k = Some b -> b_id b = k) ->
  inner (drop_bubbles_for_peers peers s).2 !! k =
  match inner s !! k with
  | Some b => if decide (b_peer b ∈ peers) then None else Some b
  | None => None
  end.
Proof.
  intros Hkey. unfold drop_bubbles_for_peers. destruct peers as [|p ps].
  { destruct (inner s !! k) eqn:Hk; [|done].
    rewrite decide_False by apply not_elem_of_nil. done. }
  cbv zeta. cbn [snd]. set (dr := b_id <$> _).
  assert (forall s', inner (match dr with [] => s' | _ => flush s' end) = inner s') as ->
    by (intros; destruct dr; [done | apply flush_inner]).
  simpl. rewrite lookup_foldl_delete. subst dr.
  assert (k ∈ b_id <$> List.filter (fun b => bool_decide (b_peer b ∈ p :: ps)) (snapshot s)
          <-> exists b, inner s !! k = Some b /\ b_peer b ∈ p :: ps) as Hin.
  { rewrite list_elem_of_fmap. unfold snapshot. setoid_rewrite elem_of_list_filter_bool.
    setoid_rewrite bool_decide_eq_true. setoid_rewrite elem_of_hm_values. split.
    - intros (b & -> & Hp & k' & Hk'). exists b. by rewrite (Hkey k' b Hk').
    - intros (b & Hk & Hp). exists b. rewrite (Hkey k b Hk). eauto. }
  destruct (inner s !! k) as [b|] eqn:Hk; repeat case_decide; naive_solver.
Qed.

Lemma clear_stalled_inner t st s : inner (clear_stalled_inflight t st s).2 = inner s.
Proof. done. Qed.

(** A claim survives the sweep exactly when it is not stalled. *)
Lemma clear_stalled_inflight_lookup t st s k :
  inflight (clear_stalled_inflight t st s).2 !! k =
  match inflight s !! k with
  | Some at_ms => if claim_stalled t st s (k, at_ms) then None else Some at_ms
  | None => None
  end.
Proof.
  unfold clear_stalled_inflight. simpl. rewrite lookup_foldl_delete.
  assert (k ∈ (List.filter (claim_stalled t st s) (hm_iter (inflight s))).*1 <->
          exists a, inflight s !! k = Some a /\ claim_stalled t st s (k, a) = true) as Hin.
  { rewrite list_elem_of_fmap. setoid_rewrite elem_of_list_filter_bool. split.
    - intros ([k' a] & -> & Hs & Hi). apply elem_of_hm_iter in Hi. eauto.
    - intros (a & Hi & Hs). exists (k, a). rewrite elem_of_hm_iter. eauto. }
  destruct (inflight s !! k) as [a|] eqn:Hk.
  - destruct (claim_stalled t st s (k, a)) eqn:Hs; case_decide as Hd; try done.
    + exfalso. apply Hd, Hin. eauto.
    + exfalso. apply Hin in Hd as (a' & [= <-] & Hs'). congruence.
  - by case_decide.
Qed.

End frame.

(** ** The representation invariant *)

Definition bubble_wf (b : OutboxBubble) : Prop :=
  (is_terminal (b_status b) = true -> b_attachment b = None) /\
  (reached_relay (b_status b) = false -> b_message_id b = None /\ b_prior_message_ids b = []) /\
  (length (b_prior_message_ids b) <= PRIOR_MESSAGE_ID_CAP)%nat /\
  NoDup (b_prior_message_ids b) /\
  (b_attachment_dropped b = true -> b_attachment b = None).

Definition holds_image (b : OutboxBubble) : N := if is_some (b_attachment b) then 1 else 0.

Record store_wf (s : OutboxStore) : Prop := {
  wf_keyed : forall k b, inner s !! k = Some b -> b_id b = k;
  wf_bubbles : forall k b, inner s !! k = Some b -> bubble_wf b;
  wf_images : msum holds_image (inner s) <= ATTACHMENT_BUBBLE_CAP;
}.

Lemma remember_superseded_bounds old prior :
  NoDup prior -> (length prior <= PRIOR_MESSAGE_ID_CAP)%nat ->
  NoDup (remember_superseded old prior) /\
  (length (remember_superseded old prior) <= PRIOR_MESSAGE_ID_CAP)%nat.
Proof.
  intros Hnd Hlen. unfold remember_superseded.
  case_bool_decide as Hin; [done|].
  assert (Hgo : forall p, NoDup p -> (forall x, x ∈ p -> x ∈ prior) ->
    (length p < PRIOR_MESSAGE_ID_CAP)%nat ->
    NoDup (p ++ [old]) /\ (length (p ++ [old]) <= PRIOR_MESSAGE_ID_CAP)%nat).
  { intros p Hp Hsub Hl. split; [|by apply length_lt_cap_snoc].
    apply NoDup_app. split; [done|]. split; [|by apply NoDup_singleton].
    intros x Hx ->%list_elem_of_singleton. by apply Hin, Hsub. }
  destruct (Nat.leb_spec PRIOR_MESSAGE_ID_CAP (length prior)); apply Hgo; try done.
  - destruct prior; [done | by apply NoDup_cons in Hnd as [_ ?]].
  - intros x Hx. destruct prior; [done | by right].
  - unfold PRIOR_MESSAGE_ID_CAP in *. destruct prior; simpl in *; lia.
Qed.

Lemma apply_outcome_frame mid f t b b' :
  apply_outcome mid f t b = Some b' ->
  b_id b' = b_id b /\ b_peer b' = b_peer b /\ b_group b' = b_group b.
Proof.
  unfold apply_outcome, release_attachment. intros Ha. split_cases.
Qed.

Lemma apply_outcome_image mid f t b b' :
  apply_outcome mid f t b = Some b' -> holds_image b' <= holds_image b.
Proof.
  unfold apply_outcome, holds_image. intros Ha.
  repeat case_match; simplify_eq/=; rewrite ?release_attachment_none in *; simplify_eq/=; try lia; congruence.
Qed.

Lemma bubble_wf_outcome mid f t b b' :
  bubble_wf b -> apply_outcome mid f t b = Some b' -> bubble_wf b'.
Proof.
  intros (Hterm & Hid & Hcap & Hnd & Hdrop) Ha.
  pose proof (fun old => remember_superseded_bounds old _ Hnd Hcap) as Hrem.
  unfold apply_outcome in Ha. destruct (is_terminal (b_status b)) eqn:Ht; [done|].
  destruct f as [[why []]|]; simpl in Ha.
  - destruct (reached_relay (b_status b)) eqn:Hr; simpl in Ha; simplify_eq.
    + repeat split; intros; simpl in *; try done; try congruence; by apply Hdrop.
    + destruct (Hid eq_refl) as [Hm Hp].
      unfold bubble_wf. rewrite release_attachment_status, release_attachment_none.
      pose proof (release_attachment_frame true (set_state_changed_at_ms t
        (set_status Failed (set_last_error (Some why) b)))) as (_ & _ & -> & -> & _).
      simpl. rewrite Hp. repeat split; try done; [simpl; lia | constructor].
  - simplify_eq. repeat split; intros; simpl in *; try done; try congruence;
      solve [by apply Hid | by apply Hdrop].
  - destruct mid as [m|]; simpl in Ha.
    + destruct (b_message_id b); case_bool_decide; simplify_eq;
        repeat split; intros; simpl in *; try done; solve [by apply Hdrop | apply Hrem].
    + case_bool_decide; simplify_eq; repeat split; intros; simpl in *; try done; by apply Hdrop.
Qed.

Lemma bubble_wf_delivered t b :
  bubble_wf b ->
  bubble_wf (release_attachment false (set_state_changed_at_ms t (set_status Delivered b))).
Proof.
  intros (_ & _ & Hcap & Hnd & _). unfold bubble_wf.
  rewrite release_attachment_status, release_attachment_none.
  pose proof (release_attachment_frame false (set_state_changed_at_ms t (set_status Delivered b)))
    as (_ & _ & _ & -> & _). done.
Qed.

Lemma bubble_wf_fresh id peer body t att reply :
  bubble_wf (with_dm_payload att reply (queued id peer body t)).
Proof. repeat split; simpl; try done; [unfold PRIOR_MESSAGE_ID_CAP; lia | constructor]. Qed.

Lemma bubble_wf_migrate b : bubble_wf b -> bubble_wf (migrate_bubble b).
Proof.
  intros (Hterm & Hid & Hcap & Hnd & Hdrop). unfold migrate_bubble.
  destruct (negb _); [by repeat split; try apply Hid |].
  destruct (b_status b) eqn:Hs; simpl in *;
    [| destruct (Hid eq_refl) as [Hm Hp]; rewrite Hm; simpl | |];
    repeat split; simpl; try done; try (by apply Hid); by rewrite ?Hm.
Qed.

(** ** Preservation of the invariant *)

Section preservation.
  Context `{VaultIO} `{HB : !HashIter string OutboxBubble} `{HF : !HashIter string N}.

Lemma attachment_count_msum s : attachment_bubble_count s = msum holds_image (inner s).
Proof. apply len_filter_values. Qed.

Lemma store_wf_inner s s' : inner s' = inner s -> store_wf s -> store_wf s'.
Proof. intros Heq [Hk Hb Hi]. constructor; by rewrite Heq. Qed.

Lemma store_wf_shrink s s' : inner s' ⊆ inner s -> store_wf s -> store_wf s'.
Proof.
  intros Hsub [Hk Hb Hi]. constructor.
  - intros k b Hl. eapply Hk, lookup_weaken; eauto.
  - intros k b Hl. eapply Hb, lookup_weaken; eauto.
  - pose proof (msum_subseteq holds_image _ _ Hsub). lia.
Qed.

Lemma store_wf_update s s' k b b' :
  store_wf s -> inner s !! k = Some b -> inner s' = <[k := b']> (inner s) ->
  b_id b' = b_id b -> bubble_wf b' -> holds_image b' <= holds_image b -> store_wf s'.
Proof.
  intros [Hkey Hb Hi] Hk Heq Hid Hwf Him. constructor; rewrite Heq.
  - intros k' c [[<- <-] | [? ?]]%lookup_insert_Some; [by rewrite Hid; apply Hkey | by eapply Hkey].
  - intros k' c [[<- <-] | [? ?]]%lookup_insert_Some; [done | by eapply Hb].
  - pose proof (msum_insert holds_image (inner s) k b b' Hk). lia.
Qed.

Lemma store_wf_outcome id mid f t s :
  store_wf s -> store_wf (record_send_outcome id mid f t s).2.
Proof.
  intros Hwf. unfold record_send_outcome.
  destruct (inner s !! id) as [b|] eqn:Hb; [|done].
  destruct (apply_outcome mid f t b) as [b'|] eqn:Ha; [|done]. simpl.
  eapply store_wf_update; [done | done | rewrite flush_inner; reflexivity | | |].
  - eapply apply_outcome_frame, Ha.
  - eapply bubble_wf_outcome; [|done]. by eapply wf_bubbles.
  - by eapply apply_outcome_image.
Qed.

Lemma store_wf_receipt mid t s : store_wf s -> store_wf (mark_delivered mid t s).2.
Proof.
  intros Hwf. destruct (mark_delivered_cases mid t s) as [[-> _] | (k & b & Hk & _ & ->)]; [done|].
  cbn [snd]. eapply store_wf_update; [done | done | rewrite flush_inner; reflexivity | | |].
  - by destruct (release_attachment_frame false
      (set_state_changed_at_ms t (set_status Delivered b))) as [-> _].
  - apply bubble_wf_delivered. by eapply wf_bubbles.
  - unfold holds_image. rewrite release_attachment_none. simpl. lia.
Qed.

Lemma store_wf_remove id s : store_wf s -> store_wf (remove id s).
Proof.
  apply store_wf_shrink. unfold remove. rewrite flush_inner. apply delete_subseteq.
Qed.

Lemma store_wf_drop peers s : store_wf s -> store_wf (drop_bubbles_for_peers peers s).2.
Proof.
  intros Hwf. eapply store_wf_shrink; [|done]. apply map_subseteq_spec.
  intros k b. rewrite drop_bubbles_inner by apply Hwf. intros ?. split_cases.
Qed.

Lemma store_wf_load v :
  (forall s, inner s = default ∅ v -> store_wf s) -> store_wf (load v).
Proof.
  intros Hv. pose proof (Hv (mkStore (default ∅ v) true ∅ v) eq_refl) as [Hk Hb Hi].
  constructor; unfold load, migrate_legacy; cbn [inner] in *.
  - intros k b. rewrite lookup_fmap, fmap_Some. intros (b0 & Hb0 & ->).
    rewrite <- (Hk k b0 Hb0). unfold migrate_bubble. by destruct (negb _).
  - intros k b. rewrite lookup_fmap, fmap_Some. intros (b0 & Hb0 & ->).
    by eapply bubble_wf_migrate, Hb.
  - revert Hi. generalize (default ∅ v : gmap string OutboxBubble). intros m Hi.
    enough (msum holds_image (migrate_bubble <$> m) = msum holds_image m) as -> by done.
    clear. induction m as [|k b m Hk IH] using map_ind; [by rewrite fmap_empty|].
    rewrite fmap_insert, !msum_insert_fresh, IH; [|done|by rewrite lookup_fmap, Hk].
    f_equal. unfold holds_image, migrate_bubble. by destruct (negb _).
Qed.

(** An upsert is admitted under the image cap the way [enqueue_dm] checks it. *)
Lemma store_wf_upsert b s :
  store_wf s -> inner s !! b_id b = None -> bubble_wf b ->
  (b_attachment b = None \/ has_attachment_capacity s = true) -> store_wf (upsert b s).
Proof.
  intros [Hkey Hb Hi] Hfresh Hwf Hcap.
  constructor; unfold upsert; rewrite flush_inner; cbn [inner set_inner].
  - intros k c [[<- <-] | [? ?]]%lookup_insert_Some; [done | by eapply Hkey].
  - intros k c [[<- <-] | [? ?]]%lookup_insert_Some; [done | by eapply Hb].
  - rewrite msum_insert_fresh by done. unfold has_attachment_capacity in Hcap.
    rewrite attachment_count_msum, N.ltb_lt in Hcap. unfold holds_image at 1.
    destruct Hcap as [-> | Hlt]; simpl; [lia|]. destruct (b_attachment b); simpl; lia.
Qed.
End preservation.

#[export] Hint Resolve store_wf_outcome store_wf_receipt store_wf_remove store_wf_drop : fetchit.

(** ** Receipts for superseded copies *)

(** A bubble after the accepted sends [ids], in order. *)
Definition resend_all (t : N) (ids : list string) (b : OutboxBubble) : option OutboxBubble :=
  foldl (fun ob id => ob ≫= apply_outcome (Some id) None t) (Some b) ids.

Lemma resend_all_snoc t ids id b :
  resend_all t (ids ++ [id]) b = resend_all t ids b ≫= apply_outcome (Some id) None t.
Proof. unfold resend_all. by rewrite foldl_snoc. Qed.

Lemma remember_superseded_drop (l : list string) y :
  NoDup (l ++ [y]) ->
  remember_superseded y (drop (length l - PRIOR_MESSAGE_ID_CAP) l) =
  drop (length (l ++ [y]) - PRIOR_MESSAGE_ID_CAP) (l ++ [y]).
Proof.
  intros (_ & Hy & _)%NoDup_app. unfold remember_superseded.
  rewrite bool_decide_eq_false_2.
  2:{ intros Hin. apply (Hy y); [|by left].
      rewrite <- (take_drop (length l - PRIOR_MESSAGE_ID_CAP) l). apply elem_of_app. by right. }
  rewrite length_drop, length_app. cbn [length]. unfold PRIOR_MESSAGE_ID_CAP.
  destruct (Nat.leb_spec 8 (length l - (length l - 8))).
  - rewrite tail_drop, drop_app_le by lia. do 2 f_equal; lia.
  - rewrite drop_app_le by lia. do 2 f_equal; lia.
Qed.

Lemma resend_all_state t l x b :
  is_terminal (b_status b) = false -> b_message_id b = None -> b_prior_message_ids b = [] ->
  NoDup (l ++ [x]) ->
  exists b', resend_all t (l ++ [x]) b = Some b' /\ b_status b' = Sent /\
    b_message_id b' = Some x /\
    b_prior_message_ids b' = drop (length l - PRIOR_MESSAGE_ID_CAP) l.
Proof.
  intros Hs Hm Hp. revert x. induction l as [|y l IH] using rev_ind; intros x Hnd.
  { unfold resend_all. cbn. unfold apply_outcome. rewrite Hs, Hm.
    eexists. split; [done|]. case_bool_decide; cbn; by rewrite Hp. }
  apply NoDup_app in Hnd as (Hl & _ & _).
  destruct (IH y Hl) as (b1 & Hb1 & Hst & Hid & Hpr).
  rewrite resend_all_snoc, Hb1. cbn. unfold apply_outcome. rewrite Hst, Hid. cbn.
  rewrite Hst. eexists. split; [done|]. cbn. split; [done|]. split; [done|].
  rewrite Hpr. by apply remember_superseded_drop.
Qed.

(** After any sequence of accepted sends with
    distinct logical ids, a delivery receipt closes the bubble exactly when it
    names one of the last [PRIOR_MESSAGE_ID_CAP + 1] of them: resends do not
    lose the receipt of an earlier copy, and the memory is bounded. *)
Theorem superseded_receipts_match (id : string) (peer : AgentId) (body : string) (t now : N)
    (ids : list string) :
  NoDup ids -> ids <> [] ->
  exists b, resend_all t ids (queued id peer body now) = Some b /\ b_status b = Sent /\
    forall mid, matches_receipt mid b = true <->
      mid ∈ drop (length ids - S PRIOR_MESSAGE_ID_CAP) ids.
Proof.
  intros Hnd Hne. destruct ids as [|x l _] using rev_ind; [done|].
  destruct (resend_all_state t l x (queued id peer body now)) as (b & Hb & Hst & Hid & Hpr);
    [done.. |].
  exists b. split; [done|]. split; [done|]. intros mid.
  rewrite matches_receipt_spec, Hid, Hpr, length_app. cbn [length].
  replace (length l + 1 - S PRIOR_MESSAGE_ID_CAP)%nat with (length l - PRIOR_MESSAGE_ID_CAP)%nat
    by lia.
  rewrite drop_app_le by lia. rewrite elem_of_app, list_elem_of_singleton. naive_solver.
Qed.

Lemma superseded_receipts_match_witness :
  exists b, resend_all 5 ["m0"; "m1"]%string (queued "b" "peer" "hi" 1) = Some b /\
    matches_receipt "m0" b = true.
Proof.
  destruct (superseded_receipts_match "b" "peer" "hi" 5 1 ["m0"; "m1"]%string)
    as (b & Hb & _ & Hm).
  - by vm_compute; repeat constructor; set_solver.
  - done.
  - exists b. split; [exact Hb|]. apply Hm. vm_compute. by left.
Defined.

(** ** Restart *)

Lemma migrate_bubble_stamped b : b_state_changed_at_ms b <> 0 -> migrate_bubble b = b.
Proof. intros Hs. unfold migrate_bubble. by apply N.eqb_neq in Hs as ->. Qed.

(** A store that sealed its map and is loaded again has the
    same bubbles, whatever their states, and no in-flight claim. *)
Theorem vault_round_trip `{VaultIO} (s : OutboxStore) :
  persistent s = true -> seal_ok (inner s) = true ->
  (forall k b, inner s !! k = Some b -> b_state_changed_at_ms b <> 0) ->
  inner (load (vault (flush s))) = inner s /\ inflight (load (vault (flush s))) = ∅.
Proof.
  intros Hp Hok Hst. unfold flush. rewrite Hp, Hok. cbn. split; [|done].
  unfold migrate_legacy. apply map_eq. intros k. rewrite lookup_fmap.
  destruct (inner s !! k) as [b|] eqn:Hk; [|done]. cbn.
  by rewrite migrate_bubble_stamped by by eapply Hst.
Qed.

(** A persistent one-bubble store for the witnesses. *)
Definition demo_store (b : OutboxBubble) : OutboxStore :=
  mkStore {[ b_id b := b ]} true ∅ None.

Lemma vault_round_trip_witness :
  inner (load (vault (@flush (fun _ => true) (demo_store (queued "b" "peer" "hi" 7)))))
  = {[ "b" := queued "b" "peer" "hi" 7 ]}.
Proof.
  refine (proj1 (@vault_round_trip (fun _ => true) (demo_store (queued "b" "peer" "hi" 7))
    eq_refl eq_refl _)).
  intros k b Hb. cbn in Hb. apply lookup_singleton_Some in Hb as [_ <-]. done.
Defined.

(** Loading a vault sealed by the old
    three-state machine strands nothing: every legacy direct message that was
    not delivered comes back eligible for a resend, and loading twice is the
    same as loading once. *)
Theorem legacy_bubbles_stay_sendable (v : gmap string OutboxBubble) k b :
  v !! k = Some b -> b_state_changed_at_ms b = 0 -> b_status b <> Delivered ->
  b_group b = None ->
  exists b', inner (load (Some v)) !! k = Some b' /\ is_retryable b' = true /\
    b_body b' = b_body b /\ b_attachment b' = b_attachment b.
Proof.
  intros Hk Hz Hnd Hg. exists (migrate_bubble b). unfold load, migrate_legacy. cbn.
  rewrite lookup_fmap, Hk. split; [done|]. unfold migrate_bubble, is_retryable. rewrite Hz. cbn.
  rewrite Hg. destruct (b_status b); try done. by destruct (is_some (b_message_id b)).
Qed.

(** A legacy bubble: no stamp, the old [Failed], an id from an earlier ack. *)
Definition legacy_failed : OutboxBubble :=
  set_status Failed (set_message_id (Some "m"%string) (queued "b" "peer" "hi" 0)).

Lemma legacy_bubbles_stay_sendable_witness :
  exists b', inner (load (Some {[ "b"%string := legacy_failed ]})) !! "b"%string = Some b' /\
    is_retryable b' = true.
Proof.
  destruct (legacy_bubbles_stay_sendable {[ "b"%string := legacy_failed ]} "b" legacy_failed)
    as (b' & Hb & Hr & _); [by vm_compute | done | done | done |].
  exists b'. split; [exact Hb | exact Hr].
Defined.

Lemma demo_store_wf b : bubble_wf b -> store_wf (demo_store b).
Proof.
  intros Hwf. constructor; cbn [demo_store inner].
  - by intros k c [<- <-]%lookup_singleton_Some.
  - by intros k c [<- <-]%lookup_singleton_Some.
  - rewrite <- insert_empty, msum_insert_fresh, msum_empty by apply lookup_empty.
    unfold holds_image, ATTACHMENT_BUBBLE_CAP. destruct (is_some _); lia.
Qed.

(** The invariant behind "terminal" needs bubbles
    born in the new state machine.  A legacy bubble that kept the id of an
    earlier ack is re-queued by [load], can fail terminally, and a receipt for
    that id still moves it from [Failed] to [Delivered]. *)
Theorem legacy_failure_is_not_final `{VaultIO} (why : string) (t1 t2 : N) :
  let s0 := load (Some {[ "b"%string := legacy_failed ]}) in
  let s1 := (record_send_outcome "b" None (Some {| sf_reason := why; sf_terminal := true |}) t1 s0).2 in
  let s2 := (mark_delivered "m" t2 s1).2 in
  b_status <$> inner s0 !! "b"%string = Some Queued /\
  b_status <$> inner s1 !! "b"%string = Some Failed /\
  b_status <$> inner s2 !! "b"%string = Some Delivered.
Proof.
  cbv zeta. set (s0 := load _). set (s1 := (record_send_outcome _ _ _ _ _).2).
  assert (inner s0 = {[ "b"%string := migrate_bubble legacy_failed ]}) as H0.
  { cbn. unfold migrate_legacy. by rewrite map_fmap_singleton. }
  assert (exists b1, inner s1 = {[ "b"%string := b1 ]} /\ b_status b1 = Failed /\
            b_message_id b1 = Some "m"%string) as (b1 & H1 & Hf & Hm).
  { unfold s1. rewrite record_send_outcome_inner, H0, lookup_singleton_eq. cbn.
    eexists. rewrite insert_singleton_eq. done. }
  split; [by rewrite H0, lookup_singleton_eq|].
  split; [by rewrite H1, lookup_singleton_eq; cbn; rewrite Hf|].
  destruct (mark_delivered_cases "m" t2 s1) as [[-> Hno] | (k & b & Hk & _ & ->)].
  - specialize (Hno "b"%string b1). rewrite H1, lookup_singleton_eq in Hno.
    specialize (Hno eq_refl). unfold matches_receipt in Hno. by rewrite Hm in Hno.
  - rewrite H1 in Hk. apply lookup_singleton_Some in Hk as [<- <-]. cbn [snd].
    rewrite flush_inner. cbn [inner set_inner]. rewrite lookup_insert_eq. cbn.
    by rewrite release_attachment_status.
Qed.
