(* ===== verification/OutboxDriver.v ===== *)
(** * The outbox driver and the enqueue path

    Models [crates/fetchit-chat/src/outbox/driver.rs], the critical sections of
    [Client::enqueue_dm] and the run loop of [Client::start_outbox_driver]
    ([crates/fetchit-chat/src/client.rs]).

    The driver's mutable state is one record.  [d_events] is the broadcast
    stream and [d_sent] the log of transport sends, both oldest first; the
    transport is a parameter that answers each send from the log so far, so it
    may behave differently on every attempt.  The ready gate only delays a
    flush, so a flush is modelled from the moment the gate has resolved. *)
From S2P Require Import Prelude SendState Attachment Bubble OutboxStore.

Definition STALLED_CLAIM_MS : N := 15 * 60 * 1000.
Definition RETRY_BACKOFF_BASE_MS : N := 15000.
Definition RETRY_BACKOFF_MAX_MS : N := 15 * 60 * 1000.

Definition backoff_ms (attempts : N) : N :=
  let doublings := N.min (attempts -| 1) 6 in
  N.min (saturating_mul u64_max RETRY_BACKOFF_BASE_MS (N.shiftl 1 doublings))
        RETRY_BACKOFF_MAX_MS.

Definition is_queued_retryable (b : OutboxBubble) : bool :=
  is_retryable b && bool_decide (b_status b = Queued).

Record RetryPace := { rp_attempts : N; rp_last_attempt_ms : N }.

Record SendReceipt := {
  sr_accepted_at_ms : N;
  sr_message_id : option string;
  sr_transport_name : string;
}.

(** [OutboxTransport::send], given the sends made before. *)
Class OutboxTransport :=
  transport_send : list OutboxBubble -> OutboxBubble -> result SendReceipt ChatError.

Record OutboxDriver := mkDriver {
  d_store : OutboxStore;
  d_events : list OutboxBubble;
  d_sent : list OutboxBubble;
  d_last_online : gmap AgentId bool;
  d_retry_pace : gmap string RetryPace;
}.

Section driver.
  Context `{VaultIO} `{ErrorDisplay} `{OutboxTransport}.
  Context `{HB : !HashIter string OutboxBubble} `{HF : !HashIter string N}.

Definition driver_new (s : OutboxStore) : OutboxDriver := mkDriver s [] [] ∅ ∅.

Definition with_store (s : OutboxStore) (d : OutboxDriver) : OutboxDriver :=
  mkDriver s (d_events d) (d_sent d) (d_last_online d) (d_retry_pace d).
Definition with_pace (p : gmap string RetryPace) (d : OutboxDriver) : OutboxDriver :=
  mkDriver (d_store d) (d_events d) (d_sent d) (d_last_online d) p.
Definition emit (bs : list OutboxBubble) (d : OutboxDriver) : OutboxDriver :=
  mkDriver (d_store d) (d_events d ++ bs) (d_sent d) (d_last_online d) (d_retry_pace d).
Definition log_send (b : OutboxBubble) (d : OutboxDriver) : OutboxDriver :=
  mkDriver (d_store d) (d_events d) (d_sent d ++ [b]) (d_last_online d) (d_retry_pace d).

(** [candidates.filter(|b| store.try_mark_inflight(&b.id, now_ms))]. *)
Fixpoint claim_all (now_ms : N) (cands : list OutboxBubble) (s : OutboxStore)
    : list OutboxBubble * OutboxStore :=
  match cands with
  | [] => ([], s)
  | b :: rest =>
      let '(newly, s1) := try_mark_inflight (b_id b) now_ms s in
      let '(claims, s2) := claim_all now_ms rest s1 in
      (if newly then b :: claims else claims, s2)
  end.

(** The claim critical section of a flush. *)
Definition flush_claims (peer : AgentId) (eligible : OutboxBubble -> bool) (now_ms : N)
    (s : OutboxStore) : list OutboxBubble * OutboxStore :=
  claim_all now_ms
    (List.filter (fun b => bool_decide (b_peer b = peer) && eligible b) (snapshot s)) s.

Definition stamp_one (now_ms : N) (pace : gmap string RetryPace) (b : OutboxBubble)
    : gmap string RetryPace :=
  let entry := default {| rp_attempts := 0; rp_last_attempt_ms := now_ms |} (pace !! b_id b) in
  <[b_id b := {| rp_attempts := saturating_add u32_max (rp_attempts entry) 1;
                 rp_last_attempt_ms := now_ms |}]> pace.

Definition stamp_pace (now_ms : N) (claims : list OutboxBubble) (pace : gmap string RetryPace)
    : gmap string RetryPace := foldl (stamp_one now_ms) pace claims.

(** The outcome critical section: record, release the claim, emit. *)
Definition finish_send (id : string) (res : result (option string) ChatError) (now_ms : N)
    (s : OutboxStore) : option OutboxBubble * OutboxStore :=
  let '(message_id, failure) :=
    match res with
    | Ok mid => (mid, None)
    | Err e => (None, Some (classify e))
    end in
  let '(updated, s1) := record_send_outcome id message_id failure now_ms s in
  (updated, clear_inflight id s1).

Definition receipt_id (r : result SendReceipt ChatError) : result (option string) ChatError :=
  match r with Ok receipt => Ok (sr_message_id receipt) | Err e => Err e end.

(** One iteration of the send loop. *)
Definition attempt (now_ms : N) (d : OutboxDriver) (claimed : OutboxBubble) : OutboxDriver :=
  let res := transport_send (d_sent d) claimed in
  let d := log_send claimed d in
  let '(updated, s') := finish_send (b_id claimed) (receipt_id res) now_ms (d_store d) in
  emit (option_list updated) (with_store s' d).

Definition flush_matching (peer : AgentId) (eligible : OutboxBubble -> bool) (now_ms : N)
    (d : OutboxDriver) : OutboxDriver :=
  let '(claims, s) := flush_claims peer eligible now_ms (d_store d) in
  let d := with_pace (stamp_pace now_ms claims (d_retry_pace d)) (with_store s d) in
  foldl (attempt now_ms) d claims.

Definition flush_peer (peer : AgentId) (now_ms : N) (d : OutboxDriver) : OutboxDriver :=
  flush_matching peer is_retryable now_ms d.

Definition on_presence (peer : AgentId) (online : bool) (now_ms : N) (d : OutboxDriver)
    : OutboxDriver :=
  let was := d_last_online d !! peer in
  let d := mkDriver (d_store d) (d_events d) (d_sent d)
             (<[peer := online]> (d_last_online d)) (d_retry_pace d) in
  if online && negb (bool_decide (was = Some true)) then flush_peer peer now_ms d else d.

Definition sweep_stalled (now_ms : N) (d : OutboxDriver) : OutboxDriver :=
  let '(freed, s) := clear_stalled_inflight now_ms STALLED_CLAIM_MS (d_store d) in
  foldl (fun d peer => flush_matching peer is_retryable now_ms d) (with_store s d)
        (dedup_by b_peer ∅ freed).

(** A bubble is due when the driver never attempted it or its backoff elapsed. *)
Definition is_due (now_ms : N) (pace : gmap string RetryPace) (b : OutboxBubble) : bool :=
  match pace !! b_id b with
  | None => true
  | Some p => backoff_ms (rp_attempts p) <=? now_ms -| rp_last_attempt_ms p
  end.

Definition flush_due (now_ms : N) (d : OutboxDriver) : OutboxDriver :=
  let queued := List.filter is_queued_retryable (snapshot (d_store d)) in
  let live : gset string := list_to_set (b_id <$> queued) in
  let pace := filter (fun kv => kv.1 ∈ live) (d_retry_pace d) in
  let peers := dedup_by b_peer ∅ (List.filter (is_due now_ms pace) queued) in
  foldl (fun d peer => flush_matching peer is_queued_retryable now_ms d) (with_pace pace d) peers.

Definition boot_sweep (d : OutboxDriver) : OutboxDriver :=
  with_store (clear_all_inflight (d_store d)) d.

Definition driver_mark_delivered (message_id : string) (received_at_ms : N) (d : OutboxDriver)
    : OutboxDriver :=
  let '(changed, s) := mark_delivered message_id received_at_ms (d_store d) in
  emit (option_list changed) (with_store s d).

Definition flush_all (now_ms : N) (d : OutboxDriver) : OutboxDriver :=
  foldl (fun d peer => flush_peer peer now_ms d) d
        (dedup_by b_peer ∅ (List.filter is_retryable (snapshot (d_store d)))).

(** ** The initial send *)

(** The bubble [enqueue_dm] builds; [id] is the fresh random bubble id. *)
Definition enqueue_bubble (id : string) (peer : AgentId) (body : string)
    (reply_to_message_id : option string) (attachment : option Attachment) (now_ms : N)
    : OutboxBubble :=
  with_dm_payload attachment reply_to_message_id (queued id peer body now_ms).

(** Its first critical section: cap check, upsert and claim under one lock. *)
Definition enqueue_admit (b : OutboxBubble) (now_ms : N) (s : OutboxStore)
    : result OutboxStore ChatError :=
  if is_some (b_attachment b) && negb (has_attachment_capacity s)
  then Err (OutboxAttachmentsFull (attachment_bubble_count s) ATTACHMENT_BUBBLE_CAP)
  else Ok (try_mark_inflight (b_id b) now_ms (upsert b s)).2.

(** The whole call with nothing interleaved: [res] is what [messages().send]
    returns, [done_ms] the clock when it does. *)
Definition enqueue_dm (b : OutboxBubble) (res : result (option string) ChatError)
    (now_ms done_ms : N) (d : OutboxDriver) : result (string * OutboxDriver) ChatError :=
  match enqueue_admit b now_ms (d_store d) with
  | Err e => Err e
  | Ok s =>
      let d := emit [b] (with_store s d) in
      let '(updated, s') := finish_send (b_id b) res done_ms (d_store d) in
      Ok (b_id b, emit (option_list updated) (with_store s' d))
  end.

(** ** The run loop

    [Opening] is the await on [client.events()], [StreamUp] the inner select with
    the event stream open, [StreamDown] the inner select while the backoff
    deadline runs.  [loop_step] is [None] when the select has no arm for the
    event, so the loop does not react to it. *)
Inductive LoopPhase := Opening | StreamUp | StreamDown.

Inductive LoopEvent :=
| EvOpenOk | EvOpenErr
| EvPresence (peer : AgentId) (online : bool) (now_ms : N)
| EvOther | EvStreamErr | EvStreamEnd
| EvSweepTick (now_ms : N)
| EvRetryTick (now_ms : N)
| EvManualRetry (now_ms : N) | EvRetrySenderDropped
| EvDeadline.

Definition loop_step (phase : LoopPhase) (ev : LoopEvent) (d : OutboxDriver)
    : option (LoopPhase * OutboxDriver) :=
  match phase, ev with
  | Opening, EvOpenOk => Some (StreamUp, d)
  | Opening, EvOpenErr => Some (StreamDown, d)
  | StreamDown, EvDeadline => Some (Opening, d)
  | StreamDown, EvRetryTick now => Some (StreamDown, flush_due now d)
  | StreamUp, EvPresence peer online now => Some (StreamUp, on_presence peer online now d)
  | StreamUp, EvOther => Some (StreamUp, d)
  | StreamUp, (EvStreamErr | EvStreamEnd) => Some (Opening, d)
  | StreamUp, EvSweepTick now => Some (StreamUp, sweep_stalled now d)
  | StreamUp, EvManualRetry now => Some (StreamUp, flush_all now d)
  | StreamUp, EvRetrySenderDropped => Some (Opening, d)
  | _, _ => None
  end.

(** Events the select has no arm for are passed over. *)
Fixpoint run_loop (phase : LoopPhase) (evs : list LoopEvent) (d : OutboxDriver)
    : LoopPhase * OutboxDriver :=
  match evs with
  | [] => (phase, d)
  | ev :: rest =>
      match loop_step phase ev d with
      | Some (phase', d') => run_loop phase' rest d'
      | None => run_loop phase rest d
      end
  end.

End driver.

(** ** What one flush does *)

Section flush.
  Context `{VaultIO} `{ErrorDisplay} `{OutboxTransport}.
  Context `{HB : !HashIter string OutboxBubble} `{HF : !HashIter string N}.

Lemma claim_all_inner t cands s : inner (claim_all t cands s).2 = inner s.
Proof.
  revert s. induction cands as [|b cands IH]; intros s; [done|]. simpl.
  specialize (IH (set_inflight (<[b_id b:=t]> (inflight s)) s)).
  by destruct (claim_all t cands _).
Qed.

Lemma claim_all_inflight t cands s k :
  inflight (claim_all t cands s).2 !! k =
  if decide (k ∈ b_id <$> cands) then Some t else inflight s !! k.
Proof.
  revert s. induction cands as [|b cands IH]; intros s.
  { by rewrite decide_False by apply not_elem_of_nil. }
  cbn. specialize (IH (set_inflight (<[b_id b:=t]> (inflight s)) s)).
  destruct (claim_all t cands _) as [cl s2]. cbn in *. rewrite IH.
  destruct (decide (k = b_id b)) as [->|Hne].
  - rewrite lookup_insert_eq. case_decide; rewrite decide_True by set_solver; done.
  - rewrite lookup_insert_ne by done.
    destruct (decide (k ∈ b_id <$> cands)).
    + by rewrite decide_True by set_solver.
    + by rewrite decide_False by set_solver.
Qed.

(** With distinct ids, what is claimed is what was not in flight. *)
Lemma claim_all_claims t cands s :
  NoDup (b_id <$> cands) ->
  (claim_all t cands s).1 = List.filter (fun b => negb (is_some (inflight s !! b_id b))) cands.
Proof.
  revert s. induction cands as [|b cands IH]; intros s Hnd; [done|].
  rewrite fmap_cons in Hnd. apply NoDup_cons in Hnd as [Hni Hnd]. cbn.
  specialize (IH (set_inflight (<[b_id b:=t]> (inflight s)) s) Hnd).
  destruct (claim_all t cands _) as [cl s2]. cbn in IH. subst cl. cbn [fst].
  assert (List.filter (fun b0 => negb (is_some (<[b_id b:=t]> (inflight s) !! b_id b0))) cands
          = List.filter (fun b0 => negb (is_some (inflight s !! b_id b0))) cands) as ->;
    [|by destruct (negb _)].
  apply List.filter_ext_in. intros c Hc%list_elem_of_In.
  rewrite lookup_insert_ne; [done|]. intros Heq. apply Hni. rewrite Heq.
  by apply list_elem_of_fmap_2.
Qed.

Lemma snapshot_ids s :
  (forall k b, inner s !! k = Some b -> b_id b = k) -> b_id <$> snapshot s = hm_keys (inner s).
Proof.
  intros Hkey. unfold snapshot, hm_values, hm_keys.
  assert (forall kb, kb ∈ hm_iter (inner s) -> b_id kb.2 = kb.1) as Hl.
  { intros [k b] Hi. by apply Hkey, elem_of_hm_iter. }
  induction (hm_iter (inner s)) as [|kb l IH]; [done|]. rewrite !fmap_cons.
  f_equal; [apply Hl; by left | apply IH; intros ? ?; apply Hl; by right].
Qed.

(** The bubbles a flush of [peer] is about to attempt. *)
Definition flush_set (peer : AgentId) (eligible : OutboxBubble -> bool) (s : OutboxStore)
    : list OutboxBubble :=
  List.filter (fun b => negb (is_some (inflight s !! b_id b)))
    (List.filter (fun b => bool_decide (b_peer b = peer) && eligible b) (snapshot s)).

Lemma flush_claims_set peer el t s :
  store_wf s -> (flush_claims peer el t s).1 = flush_set peer el s.
Proof.
  intros Hwf. apply claim_all_claims, NoDup_fmap_filter_bool.
  rewrite snapshot_ids by apply Hwf. apply NoDup_hm_keys.
Qed.

Lemma NoDup_flush_set peer el s : store_wf s -> NoDup (b_id <$> flush_set peer el s).
Proof.
  intros Hwf. do 2 apply NoDup_fmap_filter_bool.
  rewrite snapshot_ids by apply Hwf. apply NoDup_hm_keys.
Qed.

Lemma elem_of_flush_set peer el s b :
  store_wf s ->
  b ∈ flush_set peer el s <->
  inner s !! b_id b = Some b /\ b_peer b = peer /\ el b = true /\ inflight s !! b_id b = None.
Proof.
  intros Hwf. unfold flush_set, snapshot. rewrite !elem_of_list_filter_bool, elem_of_hm_values.
  rewrite andb_true_iff, bool_decide_eq_true.
  assert (negb (is_some (inflight s !! b_id b)) = true <-> inflight s !! b_id b = None) as ->
    by (destruct (inflight s !! b_id b); simpl; naive_solver).
  split.
  - intros (? & [? ?] & k & Hk). pose proof (wf_keyed s Hwf k b Hk). by subst k.
  - intros (? & ? & ? & ?). eauto.
Qed.

Lemma finish_send_inner id res t s k :
  k <> id -> inner (finish_send id res t s).2 !! k = inner s !! k.
Proof.
  intros Hk. unfold finish_send. destruct res as [mid|e].
  - destruct (record_send_outcome id mid None t s) as [u s1] eqn:Hr.
    pose proof (record_send_outcome_inner id mid None t s) as Hi. rewrite Hr in Hi. simpl in *.
    rewrite Hi. case_match; [by rewrite lookup_insert_ne | done].
  - destruct (record_send_outcome id None (Some (classify e)) t s) as [u s1] eqn:Hr.
    pose proof (record_send_outcome_inner id None (Some (classify e)) t s) as Hi.
    rewrite Hr in Hi. simpl in *. rewrite Hi. case_match; [by rewrite lookup_insert_ne | done].
Qed.

Lemma finish_send_inflight id res t s :
  inflight (finish_send id res t s).2 = delete id (inflight s).
Proof.
  unfold finish_send. destruct res as [mid|e].
  - pose proof (record_send_outcome_inflight id mid None t s) as Hi.
    destruct (record_send_outcome id mid None t s). simpl in *. by rewrite Hi.
  - pose proof (record_send_outcome_inflight id None (Some (classify e)) t s) as Hi.
    destruct (record_send_outcome id None (Some (classify e)) t s). simpl in *. by rewrite Hi.
Qed.

Lemma store_wf_finish id res t s : store_wf s -> store_wf (finish_send id res t s).2.
Proof.
  intros Hwf. unfold finish_send. destruct res as [mid|e].
  - pose proof (store_wf_outcome id mid None t s Hwf).
    destruct (record_send_outcome id mid None t s) as [u s1]. by apply (store_wf_inner s1).
  - pose proof (store_wf_outcome id None (Some (classify e)) t s Hwf).
    destruct (record_send_outcome _ _ _ _ _) as [u s1]. by apply (store_wf_inner s1).
Qed.

Lemma attempt_sent t d c : d_sent (attempt t d c) = d_sent d ++ [c].
Proof. unfold attempt. by destruct (finish_send _ _ _ _). Qed.
Lemma attempt_store t d c :
  d_store (attempt t d c) =
  (finish_send (b_id c) (receipt_id (transport_send (d_sent d) c)) t (d_store d)).2.
Proof. unfold attempt. simpl. by destruct (finish_send _ _ _ _). Qed.

(** The send loop over the claims. *)
Lemma attempts_spec t cs d :
  store_wf (d_store d) ->
  let d' := foldl (attempt t) d cs in
  store_wf (d_store d') /\ d_sent d' = d_sent d ++ cs /\
  (forall k, k ∉ b_id <$> cs -> inner (d_store d') !! k = inner (d_store d) !! k) /\
  (forall k, inflight (d_store d') !! k =
     if decide (k ∈ b_id <$> cs) then None else inflight (d_store d) !! k).
Proof.
  revert d. induction cs as [|c cs IH]; intros d Hwf.
  { split; [done|]. split; [by rewrite app_nil_r|]. split; [done|].
    intros k. by rewrite decide_False by apply not_elem_of_nil. }
  cbn [foldl]. destruct (IH (attempt t d c)) as (Hwf' & Hsent & Hin & Hfl).
  { rewrite attempt_store. by apply store_wf_finish. }
  split; [done|]. split; [by rewrite Hsent, attempt_sent, <- app_assoc|].
  rewrite fmap_cons. split.
  - intros k Hk. rewrite Hin by set_solver. rewrite attempt_store.
    apply finish_send_inner. set_solver.
  - intros k. rewrite Hfl, attempt_store, finish_send_inflight.
    destruct (decide (k = b_id c)) as [->|Hne].
    + rewrite lookup_delete_eq. case_decide; by rewrite decide_True by set_solver.
    + rewrite lookup_delete_ne by done. destruct (decide (k ∈ b_id <$> cs)).
      * by rewrite decide_True by set_solver.
      * by rewrite decide_False by set_solver.
Qed.

(** A flush attempts its flush set once, in order, and touches nothing else:
    other bubbles keep their state and other peers' claims are untouched. *)
Lemma flush_matching_spec peer el t d :
  store_wf (d_store d) ->
  let d' := flush_matching peer el t d in
  store_wf (d_store d') /\
  d_sent d' = d_sent d ++ flush_set peer el (d_store d) /\
  (forall k, k ∉ b_id <$> flush_set peer el (d_store d) ->
     inner (d_store d') !! k = inner (d_store d) !! k) /\
  (forall k b, inner (d_store d) !! k = Some b -> b_peer b <> peer ->
     inflight (d_store d') !! k = inflight (d_store d) !! k) /\
  (forall k b, inner (d_store d) !! k = Some b -> b_peer b = peer -> el b = true ->
     is_Some (inflight (d_store d) !! k) -> inflight (d_store d') !! k = Some t).
Proof.
  intros Hwf. unfold flush_matching.
  pose proof (flush_claims_set peer el t (d_store d) Hwf) as Hc.
  unfold flush_claims in *. set (cands := List.filter _ (snapshot _)) in *.
  pose proof (claim_all_inner t cands (d_store d)) as Hi.
  pose proof (claim_all_inflight t cands (d_store d)) as Hf.
  destruct (claim_all t cands (d_store d)) as [cl s]. simpl in *. subst cl.
  set (d1 := with_pace _ _).
  destruct (attempts_spec t (flush_set peer el (d_store d)) d1) as (Hwf' & Hs & Hin & Hfl).
  { by apply (store_wf_inner (d_store d)). }
  assert (forall k b, inner (d_store d) !! k = Some b ->
            k ∈ b_id <$> cands <-> b_peer b = peer /\ el b = true) as Hcand.
  { intros k b Hk. rewrite list_elem_of_fmap. unfold cands, snapshot.
    setoid_rewrite elem_of_list_filter_bool. setoid_rewrite elem_of_hm_values.
    setoid_rewrite andb_true_iff. setoid_rewrite bool_decide_eq_true. split.
    - intros (c & -> & ? & k' & Hk'). pose proof (wf_keyed _ Hwf k' c Hk'). by simplify_eq.
    - intros ?. exists b. rewrite (wf_keyed _ Hwf k b Hk). eauto. }
  assert (forall k b, inner (d_store d) !! k = Some b ->
            k ∈ b_id <$> flush_set peer el (d_store d) ->
            b_peer b = peer /\ inflight (d_store d) !! k = None) as Hset.
  { intros k b Hk (c & -> & Hc)%list_elem_of_fmap.
    apply elem_of_flush_set in Hc as (Hc & ? & ? & ?); [|done]. by simplify_eq. }
  split; [done|]. split; [done|]. split; [|split].
  - intros k Hk. rewrite Hin by done. simpl. by rewrite Hi.
  - intros k b Hk Hp. rewrite Hfl. simpl. rewrite Hf.
    rewrite decide_False by (intros [? _]%(Hset k b); done).
    rewrite decide_False by (rewrite (Hcand k b Hk); naive_solver). done.
  - intros k b Hk Hp He [a Ha]. rewrite Hfl. simpl. rewrite Hf.
    rewrite decide_False by (intros [_ ?]%(Hset k b); [congruence | done]).
    rewrite decide_True by (by rewrite (Hcand k b Hk)). done.
Qed.

(** Flushing a list of distinct peers attempts every eligible unclaimed bubble
    of each of them. *)
Lemma flush_peers_attempts el t peers d b :
  store_wf (d_store d) -> NoDup peers ->
  inner (d_store d) !! b_id b = Some b -> inflight (d_store d) !! b_id b = None ->
  el b = true -> b_peer b ∈ peers ->
  b ∈ d_sent (foldl (fun d peer => flush_matching peer el t d) d peers).
Proof.
  revert d. induction peers as [|p ps IH]; intros d Hwf Hnd Hb Hfree Hel Hp.
  { by apply not_elem_of_nil in Hp. }
  apply NoDup_cons in Hnd as [Hni Hnd]. cbn [foldl].
  destruct (flush_matching_spec p el t d Hwf) as (Hwf' & Hs & Hin & Hother & _).
  destruct (decide (b_peer b = p)) as [Heq|Hne].
  - assert (b ∈ d_sent (flush_matching p el t d)) as Hsent.
    { rewrite Hs. apply elem_of_app. right. by apply elem_of_flush_set. }
    clear -Hsent Hwf'. revert Hsent Hwf'. generalize (flush_matching p el t d).
    induction ps as [|q qs IH]; intros d' Hsent Hwf'; [done|]. cbn [foldl].
    destruct (flush_matching_spec q el t d' Hwf') as (? & Hs & _).
    apply IH; [|done]. rewrite Hs. apply elem_of_app. by left.
  - apply IH; [done | done | | | done | set_solver].
    + rewrite Hin; [done|]. intros (c & Hid & Hc)%list_elem_of_fmap.
      apply elem_of_flush_set in Hc as (Hc & ? & _); [|done]. congruence.
    + by rewrite (Hother _ b) by done.
Qed.

End flush.

(** ** Properties *)

Lemma shiftl_1_pow n : N.shiftl 1 n = 2 ^ n.
Proof. by rewrite N.shiftl_1_l. Qed.

(** The retry delay doubles from the base with
    every attempt until it reaches the cap, never leaves the interval between
    them, and its multiplication never saturates. *)
Theorem backoff_is_capped_doubling (attempts : N) :
  backoff_ms attempts =
    N.min (RETRY_BACKOFF_BASE_MS * 2 ^ (attempts - 1)) RETRY_BACKOFF_MAX_MS /\
  RETRY_BACKOFF_BASE_MS <= backoff_ms attempts <= RETRY_BACKOFF_MAX_MS /\
  backoff_ms attempts <= backoff_ms (attempts + 1).
Proof.
  assert (Heq : forall a, backoff_ms a =
    N.min (RETRY_BACKOFF_BASE_MS * 2 ^ (a - 1)) RETRY_BACKOFF_MAX_MS).
  { intros a. unfold backoff_ms, saturating_sub, saturating_mul. rewrite shiftl_1_pow.
    assert (2 ^ N.min (a - 1) 6 <= 2 ^ 6) by (apply N.pow_le_mono_r; lia).
    unfold RETRY_BACKOFF_BASE_MS, RETRY_BACKOFF_MAX_MS, u64_max.
    destruct (N.le_gt_cases (a - 1) 6) as [Hle|Hgt].
    - rewrite (N.min_l _ 6) by lia. lia.
    - rewrite (N.min_r _ 6) by lia.
      assert (2 ^ 6 <= 2 ^ (a - 1)) by (apply N.pow_le_mono_r; lia). lia. }
  assert (1 <= 2 ^ (attempts - 1)) by (apply (N.pow_le_mono_r 2 0); lia).
  assert (2 ^ (attempts - 1) <= 2 ^ (attempts + 1 - 1)) by (apply N.pow_le_mono_r; lia).
  rewrite !Heq. unfold RETRY_BACKOFF_BASE_MS, RETRY_BACKOFF_MAX_MS. lia.
Qed.

Section properties.
  Context `{VaultIO} `{ErrorDisplay} `{OutboxTransport}.
  Context `{HB : !HashIter string OutboxBubble} `{HF : !HashIter string N}.

(** A flush of a peer hands the transport exactly the
    peer's eligible bubbles that no other send holds, each once, and leaves
    every other bubble as it was. *)
Theorem flush_attempts_exactly (peer : AgentId) (eligible : OutboxBubble -> bool) (now : N)
    (d : OutboxDriver) :
  store_wf (d_store d) ->
  exists batch, d_sent (flush_matching peer eligible now d) = d_sent d ++ batch /\
    NoDup (b_id <$> batch) /\
    (forall b, b ∈ batch <->
       inner (d_store d) !! b_id b = Some b /\ b_peer b = peer /\ eligible b = true /\
       inflight (d_store d) !! b_id b = None) /\
    (forall k, k ∉ b_id <$> batch ->
       inner (d_store (flush_matching peer eligible now d)) !! k = inner (d_store d) !! k).
Proof.
  intros Hwf. exists (flush_set peer eligible (d_store d)).
  destruct (flush_matching_spec peer eligible now d Hwf) as (_ & Hs & Hin & _).
  split; [done|]. split; [by apply NoDup_flush_set|]. split; [|done].
  intros b. by apply elem_of_flush_set.
Qed.

(** The first clock tick of a fresh driver
    hands the transport every bubble the store holds still queued: a restart
    needs no presence edge to resume sending. *)
Theorem restart_reattempts_every_queued (s : OutboxStore) (now : N) id b :
  store_wf s -> inflight s = ∅ -> inner s !! id = Some b -> b_status b = Queued ->
  b ∈ d_sent (flush_due now (driver_new s)).
Proof.
  intros Hwf Hfl Hb Hq. unfold flush_due. cbn [driver_new d_store d_retry_pace].
  assert (is_queued_retryable b = true) as Hel.
  { unfold is_queued_retryable, is_retryable. by rewrite Hq. }
  apply flush_peers_attempts; cbn [with_pace d_store]; [done | apply NoDup_dedup_by | | | done |].
  - cbn. by rewrite (wf_keyed s Hwf id b Hb).
  - cbn. by rewrite Hfl, lookup_empty.
  - apply elem_of_dedup_by. split; [set_solver|]. exists b. split; [|done].
    apply elem_of_list_filter_bool. split.
    + unfold is_due. by rewrite map_filter_empty, lookup_empty.
    + apply elem_of_list_filter_bool. split; [done|]. apply elem_of_hm_values. eauto.
Qed.

(** ** The run loop while the event stream is up *)

Lemma sweep_stalled_no_claims now d : inflight (d_store d) = ∅ -> sweep_stalled now d = d.
Proof.
  intros Hfl. unfold sweep_stalled, clear_stalled_inflight.
  assert (hm_iter (inflight (d_store d)) = []) as ->.
  { apply Permutation_nil_r. by rewrite hm_iter_perm, Hfl, map_to_list_empty. }
  cbn. unfold with_store, set_inflight. by destruct d as [[? ? ? ?] ? ? ? ?].
Qed.

(** Clock events and events that are not presence. *)
Definition is_clock_event (ev : LoopEvent) : bool :=
  match ev with EvRetryTick _ | EvSweepTick _ | EvOther => true | _ => false end.

(** With the event stream open, the retry
    clock does nothing: no sequence of retry ticks, sweep ticks and other
    events ever hands a queued bubble to the transport, however long its
    backoff has elapsed. *)
Theorem clock_retry_silent_while_stream_up (evs : list LoopEvent) (d : OutboxDriver) :
  forallb is_clock_event evs = true -> inflight (d_store d) = ∅ ->
  run_loop StreamUp evs d = (StreamUp, d).
Proof.
  intros Hev Hfl. induction evs as [|ev evs IH]; [done|].
  cbn in Hev. apply andb_true_iff in Hev as [He Hev].
  destruct ev; try done; cbn [run_loop loop_step]; rewrite ?sweep_stalled_no_claims by done;
    by apply IH.
Qed.

(** ** The stalled-claim sweep *)

(** A claim some flush found held: its bubble, and when the claim was stamped. *)
Definition claimed_at (id : string) (b : OutboxBubble) (t : N) (d : OutboxDriver) : Prop :=
  inner (d_store d) !! id = Some b /\ inflight (d_store d) !! id = Some t.

Lemma flush_refreshes_claim peer el t0 t id b d :
  store_wf (d_store d) -> claimed_at id b t0 d ->
  let d' := flush_matching peer el t d in
  store_wf (d_store d') /\
  (exists batch, d_sent d' = d_sent d ++ batch /\ id ∉ b_id <$> batch) /\
  (b_peer b = peer -> el b = true -> claimed_at id b t d') /\
  (b_peer b <> peer -> claimed_at id b t0 d').
Proof.
  intros Hwf [Hb Ht].
  destruct (flush_matching_spec peer el t d Hwf) as (Hwf' & Hs & Hin & Hother & Hsame).
  assert (id ∉ b_id <$> flush_set peer el (d_store d)) as Hni.
  { intros (c & -> & Hc)%list_elem_of_fmap.
    apply elem_of_flush_set in Hc as (_ & _ & _ & ?); [congruence | done]. }
  split; [done|]. split; [by exists (flush_set peer el (d_store d))|].
  split; intros Hp; [intros He|]; (split; [by rewrite Hin|]).
  - eapply Hsame; eauto.
  - by erewrite Hother.
Qed.

Lemma flushes_keep_claim t t0 peers id b d :
  store_wf (d_store d) -> is_retryable b = true -> claimed_at id b t0 d ->
  let d' := foldl (fun d peer => flush_matching peer is_retryable t d) d peers in
  store_wf (d_store d') /\
  (exists batch, d_sent d' = d_sent d ++ batch /\ id ∉ b_id <$> batch) /\
  (claimed_at id b t0 d' \/ claimed_at id b t d').
Proof.
  revert t0 d. induction peers as [|p ps IH]; intros t0 d Hwf Hr Hc.
  { split; [done|]. split; [|by left]. exists [].
    split; [by rewrite app_nil_r | apply not_elem_of_nil]. }
  cbn [foldl].
  destruct (flush_refreshes_claim p is_retryable t0 t id b d Hwf Hc)
    as (Hwf' & (l1 & Hs1 & Hn1) & Hsame & Hdiff).
  assert (exists t1, (t1 = t0 \/ t1 = t) /\ claimed_at id b t1 (flush_matching p is_retryable t d))
    as (t1 & Ht1 & Hc1).
  { destruct (decide (b_peer b = p)); [exists t | exists t0]; auto. }
  destruct (IH t1 _ Hwf' Hr Hc1) as (? & (l2 & Hs2 & Hn2) & Hcl).
  split; [done|]. split.
  - exists (l1 ++ l2). rewrite Hs2, Hs1, app_assoc, fmap_app. set_solver.
  - destruct Ht1 as [-> | ->]; [done|]. right. by destruct Hcl.
Qed.

Lemma sweep_keeps_fresh_claim now t id b d :
  store_wf (d_store d) -> is_retryable b = true -> claimed_at id b t d ->
  now - t < STALLED_CLAIM_MS ->
  let d' := sweep_stalled now d in
  store_wf (d_store d') /\
  (exists batch, d_sent d' = d_sent d ++ batch /\ id ∉ b_id <$> batch) /\
  exists t', claimed_at id b t' d'.
Proof.
  intros Hwf Hr [Hb Ht] Hlt. unfold sweep_stalled.
  pose proof (clear_stalled_inflight_lookup now STALLED_CLAIM_MS (d_store d) id) as Hl.
  pose proof (clear_stalled_inner now STALLED_CLAIM_MS (d_store d)) as Hi.
  destruct (clear_stalled_inflight now STALLED_CLAIM_MS (d_store d)) as [freed s]. cbn in *.
  rewrite Ht in Hl. unfold claim_stalled in Hl at 1. cbn in Hl.
  assert ((STALLED_CLAIM_MS <=? now -| t) = false) as Hst
    by (apply N.leb_gt; unfold saturating_sub; lia).
  rewrite Hst in Hl. cbn in Hl.
  destruct (flushes_keep_claim now t (dedup_by b_peer ∅ freed) id b (with_store s d))
    as (? & (l & Hs & Hn) & Hcl); cbn; [by apply (store_wf_inner (d_store d)) | done | |].
  - split; cbn; [by rewrite Hi | done].
  - split; [done|]. split; [by exists l|]. destruct Hcl; eauto.
Qed.

(** A run that alternates flushes of the claim's peer with claim sweeps. *)
Definition flush_then_sweep (peer : AgentId) (d : OutboxDriver) (ts : N * N) : OutboxDriver :=
  sweep_stalled ts.2 (flush_peer peer ts.1 d).

(** A claim left by a dead send is never
    released, and its message never sent again, as long as the peer is flushed
    within [STALLED_CLAIM_MS] before each sweep: the flush that finds the claim
    held stamps it anew, however old it is. *)
Theorem refreshed_claim_defeats_sweep (id : string) (b : OutboxBubble) (t0 : N)
    (times : list (N * N)) (d : OutboxDriver) :
  store_wf (d_store d) -> is_retryable b = true -> claimed_at id b t0 d ->
  Forall (fun ts => ts.2 - ts.1 < STALLED_CLAIM_MS) times ->
  let d' := foldl (flush_then_sweep (b_peer b)) d times in
  (exists t', claimed_at id b t' d') /\
  exists batch, d_sent d' = d_sent d ++ batch /\ id ∉ b_id <$> batch.
Proof.
  intros Hwf Hr Hc Hts. revert t0 d Hwf Hc.
  induction Hts as [|[t now] times Hlt _ IH]; intros t0 d Hwf Hc; cbn [foldl].
  { split; [eauto|]. exists [].
    split; [by rewrite app_nil_r | apply not_elem_of_nil]. }
  destruct (flush_refreshes_claim (b_peer b) is_retryable t0 t id b d Hwf Hc)
    as (Hwf1 & (l1 & Hs1 & Hn1) & Hsame & _).
  destruct (sweep_keeps_fresh_claim now t id b _ Hwf1 Hr (Hsame eq_refl Hr) Hlt)
    as (Hwf2 & (l2 & Hs2 & Hn2) & t' & Hc2).
  destruct (IH t' _ Hwf2 Hc2) as (Hc3 & l3 & Hs3 & Hn3).
  split; [done|]. exists (l1 ++ l2 ++ l3). split.
  - change (flush_then_sweep (b_peer b) d (t, now)) with
      (sweep_stalled now (flush_matching (b_peer b) is_retryable t d)).
    by rewrite Hs3, Hs2, Hs1, <- !app_assoc.
  - rewrite !fmap_app. set_solver.
Qed.

End properties.

(** ** Witnesses *)

#[local] Instance demo_io : VaultIO := fun _ => true.
#[local] Instance demo_display : ErrorDisplay := fun _ => "error"%string.
#[local] Instance demo_transport : OutboxTransport := fun _ _ =>
  Ok {| sr_accepted_at_ms := 9; sr_message_id := Some "relay-1"%string;
        sr_transport_name := "demo" |}.

Definition demo_bubble : OutboxBubble := queued "b" "peer" "hi" 7.

Lemma demo_bubble_wf : bubble_wf demo_bubble.
Proof. repeat split; cbn; try done; [unfold PRIOR_MESSAGE_ID_CAP; lia | constructor]. Qed.

Lemma flush_attempts_exactly_witness :
  exists batch, d_sent (flush_matching "peer" is_retryable 9 (driver_new (demo_store demo_bubble)))
    = [] ++ batch /\ demo_bubble ∈ batch.
Proof.
  destruct (flush_attempts_exactly "peer" is_retryable 9 (driver_new (demo_store demo_bubble)))
    as (batch & Hs & _ & Hin & _); [by apply demo_store_wf, demo_bubble_wf|].
  exists batch. split; [exact Hs|]. apply Hin. by vm_compute.
Defined.

Lemma restart_reattempts_every_queued_witness :
  demo_bubble ∈ d_sent (flush_due 9 (driver_new (demo_store demo_bubble))).
Proof.
  apply (restart_reattempts_every_queued (demo_store demo_bubble) 9 "b");
    [by apply demo_store_wf, demo_bubble_wf | done | by vm_compute | done].
Defined.

Lemma clock_retry_silent_while_stream_up_witness :
  run_loop StreamUp [EvRetryTick 1000000000; EvOther; EvSweepTick 2000000000; EvRetryTick 3000000000]
    (driver_new (demo_store demo_bubble)) = (StreamUp, driver_new (demo_store demo_bubble)).
Proof.
  apply (clock_retry_silent_while_stream_up
    [EvRetryTick 1000000000; EvOther; EvSweepTick 2000000000; EvRetryTick 3000000000]
    (driver_new (demo_store demo_bubble))); reflexivity.
Defined.

(** The demo store with a claim that a dead task left at time 100. *)
Definition wedged_driver : OutboxDriver :=
  driver_new (set_inflight {[ "b"%string := 100 ]} (demo_store demo_bubble)).

(** Two presence edges a minute before two sweeps, each more than fifteen
    minutes after the claim was taken. *)
Lemma refreshed_claim_defeats_sweep_witness :
  exists t', claimed_at "b" demo_bubble t'
    (foldl (flush_then_sweep "peer") wedged_driver
       [(2000000, 2060000); (4000000, 4060000)]).
Proof.
  apply (refreshed_claim_defeats_sweep "b" demo_bubble 100
    [(2000000, 2060000); (4000000, 4060000)] wedged_driver).
  - apply (store_wf_inner (demo_store demo_bubble)); [done|].
    by apply demo_store_wf, demo_bubble_wf.
  - done.
  - by split; vm_compute.
  - repeat constructor.
Defined.
