(* ===== verification/OutboxSystem.v ===== *)
(** * The outbox under interleaving

    The store is shared by every send task: [enqueue_dm] calls, driver flushes,
    the receipt dispatcher, pair-record revocations and the claim sweeps.  Each
    takes the store's lock for one critical section at a time, so a run of the
    system is a sequence of those critical sections in any order.  [y_held] is
    the multiset of bubble ids some live task has claimed and is sending,
    [y_used] the bubble ids handed out so far (they are fresh 128-bit random
    strings, [new_bubble_id]), [y_evicted] those whose claim a sweep or the start
    of a driver took from a task that was still sending. *)
From S2P Require Import Prelude SendState Attachment Bubble OutboxStore OutboxDriver.

Record OutboxSys := mkSys {
  y_store : OutboxStore;
  y_held : list string;
  y_used : gset string;
  y_evicted : gset string;
}.

Section system.
  Context `{VaultIO} `{ErrorDisplay}.
  Context `{HB : !HashIter string OutboxBubble} `{HF : !HashIter string N}.

(** The live claims a sweep at [now] takes. *)
Definition swept (now : N) (s : OutboxStore) (h : list string) : gset string :=
  list_to_set (List.filter (fun id => match inflight s !! id with
                                      | Some a => claim_stalled now STALLED_CLAIM_MS s (id, a)
                                      | None => false
                                      end) h).

(** One critical section.  [ys_abort] is a task that dies holding its claim;
    [ys_group] queues a group frame that a member could not be handed. *)
Inductive sys_step : OutboxSys -> OutboxSys -> Prop :=
| ys_enqueue id peer body reply att now s s' h u ev :
    id ∉ u ->
    enqueue_admit (enqueue_bubble id peer body reply att now) now s = Ok s' ->
    sys_step (mkSys s h u ev) (mkSys s' (id :: h) ({[id]} ∪ u) ev)
| ys_group id member body g reason now s h u ev :
    id ∉ u ->
    sys_step (mkSys s h u ev)
      (mkSys (upsert (set_last_error (Some reason) (with_group g (queued id member body now))) s) h ({[id]} ∪ u) ev)
| ys_flush peer eligible now claims s s' h u ev :
    flush_claims peer eligible now s = (claims, s') ->
    sys_step (mkSys s h u ev) (mkSys s' ((b_id <$> claims) ++ h) u ev)
| ys_finish id res now upd s s' h1 h2 u ev :
    finish_send id res now s = (upd, s') ->
    sys_step (mkSys s (h1 ++ id :: h2) u ev) (mkSys s' (h1 ++ h2) u ev)
| ys_abort id s h1 h2 u ev :
    sys_step (mkSys s (h1 ++ id :: h2) u ev) (mkSys s (h1 ++ h2) u ev)
| ys_receipt mid at_ms upd s s' h u ev :
    mark_delivered mid at_ms s = (upd, s') ->
    sys_step (mkSys s h u ev) (mkSys s' h u ev)
| ys_drop peers dropped s s' h u ev :
    drop_bubbles_for_peers peers s = (dropped, s') ->
    sys_step (mkSys s h u ev) (mkSys s' h u ev)
| ys_remove id s h u ev :
    sys_step (mkSys s h u ev) (mkSys (remove id s) h u ev)
| ys_sweep now freed s s' h u ev :
    clear_stalled_inflight now STALLED_CLAIM_MS s = (freed, s') ->
    sys_step (mkSys s h u ev) (mkSys s' h u (swept now s h ∪ ev))
| ys_boot s h u ev :
    sys_step (mkSys s h u ev) (mkSys (clear_all_inflight s) h u (list_to_set h ∪ ev)).

(** A store nobody is sending from yet: in memory, or just loaded. *)
Definition sys_init (s : OutboxStore) : OutboxSys := mkSys s [] (dom (inner s)) ∅.

(** The sends whose claim was left alone. *)
Definition undisturbed (y : OutboxSys) : list string := filter (fun id => id ∉ y_evicted y) (y_held y).

Record sys_inv (y : OutboxSys) : Prop := {
  inv_wf : store_wf (y_store y);
  inv_held : forall id, id ∈ undisturbed y -> is_Some (inflight (y_store y) !! id);
  inv_nodup : NoDup (undisturbed y);
  inv_used : forall id, is_Some (inner (y_store y) !! id) -> id ∈ y_used y;
  inv_used_claim : forall id, is_Some (inflight (y_store y) !! id) -> id ∈ y_used y;
}.

Lemma enqueue_admit_spec id peer body reply att now s s' :
  enqueue_admit (enqueue_bubble id peer body reply att now) now s = Ok s' ->
  inner s' = <[id := enqueue_bubble id peer body reply att now]> (inner s) /\
  inflight s' = <[id := now]> (inflight s) /\
  (att = None \/ has_attachment_capacity s = true).
Proof.
  unfold enqueue_admit. cbn [enqueue_bubble with_dm_payload b_attachment set_reply_to_message_id
    set_attachment].
  destruct (is_some att && negb (has_attachment_capacity s)) eqn:Hc; [done|].
  intros [= <-]. cbn. unfold upsert. rewrite flush_inner, flush_inflight. split; [done|].
  split; [done|]. destruct att; [right | by left]. simpl in Hc.
  by destruct (has_attachment_capacity s).
Qed.

Lemma store_wf_enqueue id peer body reply att now s s' :
  store_wf s -> inner s !! id = None ->
  enqueue_admit (enqueue_bubble id peer body reply att now) now s = Ok s' -> store_wf s'.
Proof.
  intros Hwf Hfresh He. apply enqueue_admit_spec in He as (Hin & _ & Hcap).
  apply (store_wf_inner (upsert (enqueue_bubble id peer body reply att now) s)).
  - unfold upsert. by rewrite flush_inner.
  - apply store_wf_upsert; [done | done | apply bubble_wf_fresh | done].
Qed.

(** The bubbles a step leaves are those it found, plus the enqueued one. *)
Lemma finish_send_dom id res t s k :
  is_Some (inner (finish_send id res t s).2 !! k) -> is_Some (inner s !! k).
Proof.
  destruct (decide (k = id)) as [->|Hne]; [|by rewrite finish_send_inner].
  unfold finish_send. destruct res as [mid|e].
  - pose proof (record_send_outcome_inner id mid None t s) as Hi.
    destruct (record_send_outcome _ _ _ _ _) as [u s1].
    destruct (inner s !! id) eqn:E; [eauto | simpl in *; by rewrite Hi, E].
  - pose proof (record_send_outcome_inner id None (Some (classify e)) t s) as Hi.
    destruct (record_send_outcome _ _ _ _ _) as [u s1].
    destruct (inner s !! id) eqn:E; [eauto | simpl in *; by rewrite Hi, E].
Qed.

Lemma mark_delivered_inflight mid t s : inflight (mark_delivered mid t s).2 = inflight s.
Proof.
  destruct (mark_delivered_cases mid t s) as [[-> _] | (k & b & _ & _ & ->)]; [done|].
  cbn [snd]. by rewrite flush_inflight.
Qed.

Lemma mark_delivered_dom mid t s k :
  is_Some (inner (mark_delivered mid t s).2 !! k) -> is_Some (inner s !! k).
Proof.
  destruct (mark_delivered_cases mid t s) as [[-> _] | (k' & b & Hk & _ & ->)]; [done|].
  cbn [snd]. rewrite flush_inner. cbn [set_inner inner].
  destruct (decide (k = k')) as [->|]; [eauto | by rewrite lookup_insert_ne].
Qed.

Lemma drop_bubbles_inflight peers s :
  inflight (drop_bubbles_for_peers peers s).2 = inflight s.
Proof.
  unfold drop_bubbles_for_peers. destruct peers; [done|]. cbv zeta. cbn [snd].
  case_match; [done | by rewrite flush_inflight].
Qed.

Lemma flush_claims_inflight peer el t s k :
  is_Some (inflight (flush_claims peer el t s).2 !! k) ->
  is_Some (inflight s !! k) \/ exists b, b_id b = k /\ b ∈ snapshot s.
Proof.
  unfold flush_claims. rewrite claim_all_inflight. case_decide as Hd; [|by left].
  intros _. right. apply list_elem_of_fmap in Hd as (b & -> & Hb).
  apply elem_of_list_filter_bool in Hb as [_ Hb]. eauto.
Qed.

(** ** Each critical section keeps the invariant *)

Lemma elem_of_undisturbed id s h u ev : id ∈ undisturbed (mkSys s h u ev) <-> id ∉ ev /\ id ∈ h.
Proof. unfold undisturbed. cbn. by rewrite list_elem_of_filter. Qed.

Lemma sys_inv_enqueue id peer body reply att now s s' h u ev :
  sys_inv (mkSys s h u ev) -> id ∉ u ->
  enqueue_admit (enqueue_bubble id peer body reply att now) now s = Ok s' ->
  sys_inv (mkSys s' (id :: h) ({[id]} ∪ u) ev).
Proof.
  intros [Hwf Hheld Hnd Hused Hclaim] Hid He; cbn [y_store y_used] in *.
  assert (inner s !! id = None) as Hfresh.
  { apply eq_None_not_Some. intros Hs. by apply Hid, Hused. }
  assert (inflight s !! id = None) as Hfree.
  { apply eq_None_not_Some. intros Hs. by apply Hid, Hclaim. }
  pose proof (store_wf_enqueue _ _ _ _ _ _ _ _ Hwf Hfresh He).
  apply enqueue_admit_spec in He as (Hin & Hfl & _).
  constructor; cbn [y_store y_used]; [done | | | |].
  - intros i [Hev [->|Hi]%elem_of_cons]%elem_of_undisturbed; rewrite Hfl; [by rewrite lookup_insert_eq|].
    apply lookup_insert_is_Some. destruct (decide (id = i)); [by left | right; split; [done|]].
    apply Hheld. by apply elem_of_undisturbed.
  - unfold undisturbed in *. cbn [y_held y_evicted] in *. rewrite filter_cons. case_decide as Hev; [|done].
    constructor; [|done]. intros Hi. apply Hheld in Hi as [? ?]. congruence.
  - intros i. rewrite Hin, lookup_insert_is_Some. set_solver.
  - intros i. rewrite Hfl, lookup_insert_is_Some. set_solver.
Qed.

Lemma sys_inv_group id member body g reason now s h u ev :
  sys_inv (mkSys s h u ev) -> id ∉ u ->
  sys_inv (mkSys (upsert (set_last_error (Some reason) (with_group g (queued id member body now))) s) h ({[id]} ∪ u) ev).
Proof.
  intros [Hwf Hheld Hnd Hused Hclaim] Hid; cbn [y_store y_used] in *.
  assert (inner s !! id = None) as Hfresh by (apply eq_None_not_Some; intros Hs; by apply Hid, Hused).
  constructor; cbn [y_store y_used].
  - apply store_wf_upsert; [done|done| |by left]. repeat split; cbn; try done; [unfold PRIOR_MESSAGE_ID_CAP; lia|constructor].
  - intros i Hi. unfold upsert. rewrite flush_inflight. by apply Hheld.
  - exact Hnd.
  - intros i. unfold upsert. rewrite flush_inner. cbn. rewrite lookup_insert_is_Some. set_solver.
  - intros i. unfold upsert. rewrite flush_inflight. cbn. set_solver.
Qed.

Lemma sys_inv_flush peer el now s h u ev :
  sys_inv (mkSys s h u ev) ->
  sys_inv (mkSys (flush_claims peer el now s).2 ((b_id <$> flush_set peer el s) ++ h) u ev).
Proof.
  intros [Hwf Hheld Hnd Hused Hclaim]; cbn [y_store y_used] in *.
  assert (inner (flush_claims peer el now s).2 = inner s) as Hin by apply claim_all_inner.
  constructor; cbn [y_store y_used].
  - by apply (store_wf_inner s).
  - intros i [Hev Hi]%elem_of_undisturbed. unfold flush_claims. rewrite claim_all_inflight. case_decide as Hn; [eauto|].
    apply elem_of_app in Hi as [(b & -> & Hb)%list_elem_of_fmap | Hi]; [|by apply Hheld, elem_of_undisturbed].
    exfalso. apply Hn, list_elem_of_fmap_2. unfold flush_set in Hb.
    by apply elem_of_list_filter_bool in Hb as [_ ?].
  - unfold undisturbed in *. cbn [y_held y_evicted] in *. rewrite filter_app. apply NoDup_app.
    split; [by apply NoDup_filter, NoDup_flush_set|]. split; [|done].
    intros i [_ (b & -> & Hb)%list_elem_of_fmap]%list_elem_of_filter Hi. apply Hheld in Hi as [? Hi].
    apply elem_of_flush_set in Hb as (_ & _ & _ & ?); [congruence | done].
  - intros i. rewrite Hin. apply Hused.
  - intros i Hi. apply flush_claims_inflight in Hi as [Hi | (b & <- & Hb)]; [eauto|].
    apply elem_of_hm_values in Hb as [k Hk]. rewrite (wf_keyed s Hwf k b Hk). eauto.
Qed.

(** Taking one send off: the others keep their claims. *)
Lemma secure_remove id s h1 h2 u ev i :
  NoDup (undisturbed (mkSys s (h1 ++ id :: h2) u ev)) ->
  NoDup (undisturbed (mkSys s (h1 ++ h2) u ev)) /\
  (i ∈ undisturbed (mkSys s (h1 ++ h2) u ev) -> i <> id /\ i ∈ undisturbed (mkSys s (h1 ++ id :: h2) u ev)).
Proof.
  unfold undisturbed. cbn [y_held y_evicted]. rewrite !filter_app, filter_cons. case_decide as Hev.
  - rewrite <- Permutation_middle. intros [Hni ?]%NoDup_cons. split; [done|]. intros Hi. split; [by intros ->|by right].
  - intros Hnd. split; [done|]. intros Hi. split; [|done]. intros ->. rewrite elem_of_app, !list_elem_of_filter in Hi. naive_solver.
Qed.

Lemma sys_inv_finish id res now s h1 h2 u ev :
  sys_inv (mkSys s (h1 ++ id :: h2) u ev) ->
  sys_inv (mkSys (finish_send id res now s).2 (h1 ++ h2) u ev).
Proof.
  intros [Hwf Hheld Hnd Hused Hclaim]; cbn [y_store y_used] in *.
  constructor; cbn [y_store y_used]; [by apply store_wf_finish | | | |].
  - intros i Hi. destruct (secure_remove id s h1 h2 u ev i Hnd) as [_ Hr]. destruct (Hr Hi) as [? Hi'].
    rewrite finish_send_inflight, lookup_delete_ne by done. by apply Hheld.
  - by apply (secure_remove id s h1 h2 u ev id).
  - intros i Hi. by eapply Hused, finish_send_dom.
  - intros i. rewrite finish_send_inflight, lookup_delete_is_Some. intros [_ ?]. by apply Hclaim.
Qed.

(** A critical section that takes no claim and only shrinks or rewrites the map. *)
Lemma sys_inv_store s s' h u ev :
  sys_inv (mkSys s h u ev) -> store_wf s' -> inflight s' = inflight s ->
  (forall k, is_Some (inner s' !! k) -> is_Some (inner s !! k)) -> sys_inv (mkSys s' h u ev).
Proof.
  intros [Hwf Hheld Hnd Hused Hclaim] Hwf' Hfl Hdom; cbn [y_store y_used] in *.
  constructor; cbn [y_store y_used]; rewrite ?Hfl; auto.
Qed.

(** A critical section that takes claims, and says whose. *)
Lemma sys_inv_evict X s s' h u ev :
  sys_inv (mkSys s h u ev) -> inner s' = inner s ->
  (forall i, i ∈ h -> i ∉ X -> is_Some (inflight s !! i) -> is_Some (inflight s' !! i)) ->
  (forall i, is_Some (inflight s' !! i) -> is_Some (inflight s !! i)) -> sys_inv (mkSys s' h u (X ∪ ev)).
Proof.
  intros [Hwf Hheld Hnd Hused Hclaim] Hin Hkeep Hsub; cbn [y_store y_used] in *.
  constructor; cbn [y_store y_used].
  - by apply (store_wf_inner s).
  - intros i [Hev Hi]%elem_of_undisturbed. apply Hkeep; [done|set_solver|]. apply Hheld, elem_of_undisturbed. set_solver.
  - unfold undisturbed in *. cbn [y_held y_evicted] in *. apply (NoDup_filter (fun id => id ∉ X ∪ ev)) in Hnd.
    rewrite list_filter_filter_l in Hnd; [done|]. set_solver.
  - intros i. rewrite Hin. apply Hused.
  - intros i Hi. by apply Hclaim, Hsub.
Qed.

Lemma sys_inv_sweep now s h u ev :
  sys_inv (mkSys s h u ev) -> sys_inv (mkSys (clear_stalled_inflight now STALLED_CLAIM_MS s).2 h u (swept now s h ∪ ev)).
Proof.
  intros Hinv. apply (sys_inv_evict _ s); [done|done| |]; intros i; rewrite clear_stalled_inflight_lookup.
  - intros Hi Hx [a Ha]. rewrite Ha. destruct (claim_stalled _ _ _ _) eqn:Hst; [|eauto]. exfalso. apply Hx. unfold swept.
    rewrite elem_of_list_to_set, elem_of_list_filter_bool, Ha. done.
  - intros [x Hx]. destruct (inflight s !! i); [eauto|done].
Qed.

Lemma sys_inv_step y y' : sys_step y y' -> sys_inv y -> sys_inv y'.
Proof.
  intros Hstep Hinv. pose proof (inv_wf _ Hinv) as Hwf. destruct Hstep as
    [|
    | peer el now claims s s' h u ev Hf
    | id res now upd s s' h1 h2 u ev Hf
    | id s h1 h2 u ev
    | mid t upd s s' h u ev Hm
    | peers dr s s' h u ev Hd
    | id s h u ev
    | now freed s s' h u ev Hc
    | s h u ev]; cbn [y_store] in Hwf.
  - by eapply sys_inv_enqueue.
  - by apply sys_inv_group.
  - replace s' with (flush_claims peer el now s).2 by by rewrite Hf.
    replace claims with (flush_set peer el s)
      by by rewrite <- (flush_claims_set peer el now s Hwf), Hf.
    by apply sys_inv_flush.
  - replace s' with (finish_send id res now s).2 by by rewrite Hf. by apply sys_inv_finish.
  - destruct Hinv as [? Hheld Hnd ? ?]. constructor; cbn [y_store y_used] in *; try done.
    + intros i Hi. apply Hheld. by apply (secure_remove id s h1 h2 u ev i Hnd).
    + by apply (secure_remove id s h1 h2 u ev id).
  - replace s' with (mark_delivered mid t s).2 by by rewrite Hm.
    eapply sys_inv_store; [done | auto with fetchit | apply mark_delivered_inflight |].
    intros k. apply mark_delivered_dom.
  - replace s' with (drop_bubbles_for_peers peers s).2 by by rewrite Hd.
    eapply sys_inv_store; [done | auto with fetchit | apply drop_bubbles_inflight |].
    intros k. rewrite drop_bubbles_inner by apply Hwf. destruct (inner s !! k); [eauto | done].
  - eapply sys_inv_store; [done | auto with fetchit | by unfold remove; rewrite flush_inflight |].
    intros k. unfold remove. rewrite flush_inner. cbn [inner set_inner].
    rewrite lookup_delete_is_Some. by intros [_ ?].
  - replace s' with (clear_stalled_inflight now STALLED_CLAIM_MS s).2 by by rewrite Hc.
    by apply sys_inv_sweep.
  - apply (sys_inv_evict _ s); [done|done| |].
    + intros i Hi Hx. exfalso. apply Hx. by apply elem_of_list_to_set.
    + intros i [x Hx]. cbn in Hx. by rewrite lookup_empty in Hx.
Qed.

Lemma sys_inv_steps y y' : rtc sys_step y y' -> sys_inv y -> sys_inv y'.
Proof. induction 1; eauto using sys_inv_step. Qed.

Lemma sys_inv_init s : store_wf s -> inflight s = ∅ -> sys_inv (sys_init s).
Proof.
  intros Hwf Hfl. constructor; cbn [sys_init y_store y_held y_used]; [done | | constructor | |].
  - intros i Hi. by apply not_elem_of_nil in Hi.
  - intros i. by rewrite elem_of_dom.
  - intros i [x Hx]. by rewrite Hfl, lookup_empty in Hx.
Qed.

(** ** Send states only move forward *)

Definition advances (a b : SendState) : Prop :=
  a = b \/ a = Queued \/ (a = Sent /\ b = Delivered).

Lemma advances_trans a b c : advances a b -> advances b c -> advances a c.
Proof. unfold advances. destruct a, b, c; naive_solver. Qed.

Lemma apply_outcome_advances mid f t b b' :
  apply_outcome mid f t b = Some b' -> advances (b_status b) (b_status b').
Proof.
  unfold apply_outcome, advances. intros Ha.
  destruct (b_status b) eqn:Hs; simpl in Ha; try done; [by right; left|].
  left. destruct f as [f|]; simpl in Ha.
  { rewrite Hs in Ha. simpl in Ha. rewrite andb_false_r in Ha. by simplify_eq/=. }
  repeat case_match; simplify_eq/=; done.
Qed.

Lemma finish_send_advances id res t s k b' :
  inner (finish_send id res t s).2 !! k = Some b' ->
  exists b, inner s !! k = Some b /\ advances (b_status b) (b_status b').
Proof.
  destruct (decide (k = id)) as [->|Hne].
  2:{ rewrite finish_send_inner by done. intros ?. exists b'. split; [done | by left]. }
  unfold finish_send. destruct res as [mid|e].
  - pose proof (record_send_outcome_inner id mid None t s) as Hi.
    destruct (record_send_outcome _ _ _ _ _) as [u s1]. cbn in *. rewrite Hi.
    destruct (inner s !! id) as [b|] eqn:E; cbn; [|by rewrite E].
    destruct (apply_outcome mid None t b) eqn:Ha; rewrite ?lookup_insert_eq, ?E; intros [= <-];
      exists b; (split; [done|]); [by eapply apply_outcome_advances | by left].
  - pose proof (record_send_outcome_inner id None (Some (classify e)) t s) as Hi.
    destruct (record_send_outcome _ _ _ _ _) as [u s1]. cbn in *. rewrite Hi.
    destruct (inner s !! id) as [b|] eqn:E; cbn; [|by rewrite E].
    destruct (apply_outcome _ _ t b) eqn:Ha; rewrite ?lookup_insert_eq, ?E; intros [= <-];
      exists b; (split; [done|]); [by eapply apply_outcome_advances | by left].
Qed.

(** A receipt only ever names a bubble some relay accepted. *)
Lemma mark_delivered_advances mid t s k b' :
  store_wf s -> inner (mark_delivered mid t s).2 !! k = Some b' ->
  exists b, inner s !! k = Some b /\ advances (b_status b) (b_status b').
Proof.
  intros Hwf. destruct (mark_delivered_cases mid t s) as [[-> _] | (k' & b & Hk & Hm & ->)].
  { intros ?. exists b'. split; [done | by left]. }
  cbn [snd]. rewrite flush_inner. cbn [set_inner inner].
  intros [[<- <-] | [? ?]]%lookup_insert_Some.
  - exists b. split; [done|]. rewrite release_attachment_status. cbn.
    destruct (wf_bubbles s Hwf k' b Hk) as (_ & Hid & _).
    apply matches_receipt_spec in Hm. unfold advances.
    destruct (b_status b); simpl in *; try naive_solver;
      destruct (Hid eq_refl) as [E1 E2]; rewrite E1, E2 in Hm; set_solver.
  - exists b'. split; [done | by left].
Qed.

Lemma step_advances y y' id b' :
  sys_inv y -> sys_step y y' -> id ∈ y_used y -> inner (y_store y') !! id = Some b' ->
  exists b, inner (y_store y) !! id = Some b /\ advances (b_status b) (b_status b').
Proof.
  intros Hinv Hstep Hu Hb'. pose proof (inv_wf _ Hinv) as Hwf. destruct Hstep as
    [i peer body reply att now s s' h u ev Hid He
    | i member body g reason now s h u ev Hid
    | peer el now claims s s' h u ev Hf
    | i res now upd s s' h1 h2 u ev Hf
    | i s h1 h2 u ev
    | mid t upd s s' h u ev Hm
    | peers dr s s' h u ev Hd
    | i s h u ev
    | now freed s s' h u ev Hc
    | s h u ev]; cbn [y_store y_used] in *;
    try (exists b'; split; [done | by left]).
  - apply enqueue_admit_spec in He as (Hin & _). rewrite Hin, lookup_insert_ne in Hb' by set_solver.
    exists b'. split; [done | by left].
  - unfold upsert in Hb'. rewrite flush_inner in Hb'. cbn in Hb'. rewrite lookup_insert_ne in Hb' by set_solver.
    exists b'. split; [done | by left].
  - assert (inner s' = inner s) as <-; [|exists b'; split; [done | by left]].
    pose proof (claim_all_inner now (List.filter (fun b => bool_decide (b_peer b = peer) && el b)
      (snapshot s)) s) as Hin. unfold flush_claims in Hf. by rewrite Hf in Hin.
  - apply (finish_send_advances i res now s). by rewrite Hf.
  - apply (mark_delivered_advances mid t s); [done | by rewrite Hm].
  - pose proof (drop_bubbles_inner peers s id (wf_keyed s Hwf)) as Hin. rewrite Hd in Hin.
    cbn in Hin. rewrite Hin in Hb'. destruct (inner s !! id); [|done].
    case_decide; simplify_eq. exists b'. split; [done | by left].
  - unfold remove in Hb'. rewrite flush_inner in Hb'. cbn in Hb'.
    apply lookup_delete_Some in Hb' as [_ ?]. exists b'. split; [done | by left].
  - injection Hc as <- <-. exists b'. split; [done | by left].
Qed.

Lemma step_used y y' : sys_step y y' -> y_used y ⊆ y_used y'.
Proof. destruct 1; cbn; set_solver. Qed.

Lemma steps_advance y y' id b' :
  rtc sys_step y y' -> sys_inv y -> id ∈ y_used y -> inner (y_store y') !! id = Some b' ->
  exists b, inner (y_store y) !! id = Some b /\ advances (b_status b) (b_status b').
Proof.
  induction 1 as [y | y y1 y' Hstep _ IH]; intros Hinv Hu Hb'.
  { exists b'. split; [done | by left]. }
  destruct IH as (b1 & Hb1 & Ha1); [by eapply sys_inv_step | by eapply step_used | done |].
  destruct (step_advances y y1 id b1) as (b & Hb & Ha); [done.. |].
  exists b. split; [done | by eapply advances_trans].
Qed.

(** ** Properties *)

(** C1: whatever the interleaving of enqueues, group retries, flushes, outcomes,
    receipts, revocations, sweeps and driver starts, two live tasks send the same
    bubble at once only when its claim was taken from a task still sending it: by a
    sweep that found it older than [STALLED_CLAIM_MS], or by the start of a driver.
    As long as that has not happened to a bubble, at most one task sends it, and it
    holds the claim. *)
Theorem outbox_no_double_send (s : OutboxStore) (y : OutboxSys) :
  store_wf s -> inflight s = ∅ -> rtc sys_step (sys_init s) y ->
  forall id h1 h2, y_held y = h1 ++ id :: h2 -> id ∉ y_evicted y ->
    id ∉ h1 ++ h2 /\ is_Some (inflight (y_store y) !! id).
Proof.
  intros Hwf Hfl Hrun id h1 h2 Hh Hev.
  assert (sys_inv y) as [_ Hheld Hnd _ _] by by eapply sys_inv_steps, sys_inv_init.
  destruct y as [st h u ev]. cbn [y_held y_evicted y_store] in *. subst h. split.
  - intros Hi. destruct (secure_remove id st h1 h2 u ev id Hnd) as [_ Hr].
    destruct (Hr (proj2 (elem_of_undisturbed _ _ _ _ _) (conj Hev Hi))) as [? _]. done.
  - apply Hheld, elem_of_undisturbed. split; [done|]. set_solver.
Qed.

(** C2: along every run, a bubble's send state only
    moves forward: a queued message may be accepted or fail, an accepted one
    may only become delivered, and delivered and failed are final. *)
Theorem outbox_states_never_regress (s : OutboxStore) (y y' : OutboxSys) id b b' :
  store_wf s -> inflight s = ∅ -> rtc sys_step (sys_init s) y -> rtc sys_step y y' ->
  inner (y_store y) !! id = Some b -> inner (y_store y') !! id = Some b' ->
  advances (b_status b) (b_status b').
Proof.
  intros Hwf Hfl Hrun Hrun' Hb Hb'.
  assert (sys_inv y) as Hinv by by eapply sys_inv_steps, sys_inv_init.
  destruct (steps_advance y y' id b') as (b0 & Hb0 & Ha); [done | done | | done |].
  - apply (inv_used y Hinv). eauto.
  - by simplify_eq.
Qed.

(** Along every run the outbox retains at most
    [ATTACHMENT_BUBBLE_CAP] images, no terminal bubble keeps one, and every
    bubble remembers at most [PRIOR_MESSAGE_ID_CAP] superseded ids. *)
Theorem outbox_images_bounded (s : OutboxStore) (y : OutboxSys) :
  store_wf s -> inflight s = ∅ -> rtc sys_step (sys_init s) y ->
  attachment_bubble_count (y_store y) <= ATTACHMENT_BUBBLE_CAP /\
  forall id b, inner (y_store y) !! id = Some b ->
    (is_terminal (b_status b) = true -> b_attachment b = None) /\
    (length (b_prior_message_ids b) <= PRIOR_MESSAGE_ID_CAP)%nat.
Proof.
  intros Hwf Hfl Hrun.
  assert (sys_inv y) as [[_ Hb Hi] _ _ _ _] by by eapply sys_inv_steps, sys_inv_init.
  split; [by rewrite attachment_count_msum|]. intros id b Hl. by destruct (Hb id b Hl) as (? & ? & ? & _).
Qed.

End system.

(** [boot_sweep] drops the claim of a send that
    [enqueue_dm] has in progress: the next flush of the peer claims and sends
    the same bubble again. *)
Theorem boot_sweep_frees_live_claim `{VaultIO} `{!HashIter string OutboxBubble}
    `{!HashIter string N} (id : string) (peer : AgentId) (body : string) (reply : option string)
    (att : option Attachment) (now later : N) (s s' : OutboxStore) :
  store_wf s -> inner s !! id = None ->
  enqueue_admit (enqueue_bubble id peer body reply att now) now s = Ok s' ->
  inflight s' !! id = Some now /\
  enqueue_bubble id peer body reply att now
    ∈ (flush_claims peer is_retryable later (clear_all_inflight s')).1.
Proof.
  intros Hwf Hfresh He.
  pose proof (store_wf_enqueue _ _ _ _ _ _ _ _ Hwf Hfresh He) as Hwf'.
  apply enqueue_admit_spec in He as (Hin & Hfl & _).
  split; [by rewrite Hfl, lookup_insert_eq|].
  assert (store_wf (clear_all_inflight s')) as Hwf2 by by apply (store_wf_inner s').
  rewrite flush_claims_set by done. apply elem_of_flush_set; [done|].
  split; [|done]. cbn. by rewrite Hin, lookup_insert_eq.
Qed.

(** ** Witnesses *)

#[local] Instance sys_demo_io : VaultIO := fun _ => true.
#[local] Instance sys_demo_display : ErrorDisplay := fun _ => "error"%string.

Lemma new_wf : store_wf new.
Proof.
  constructor; cbn; try (intros ? ? Hx; by rewrite lookup_empty in Hx).
  rewrite msum_empty. unfold ATTACHMENT_BUBBLE_CAP. lia.
Qed.

(** The store after one enqueue, and after its send was accepted as [m]. *)
Definition sys_demo_bubble : OutboxBubble := enqueue_bubble "b" "peer" "hi" None None 7.
Definition sys_demo_store : OutboxStore :=
  (try_mark_inflight "b" 7 (upsert sys_demo_bubble new)).2.
Definition sys_demo_sent : OutboxStore :=
  (finish_send "b" (Ok (Some "m"%string)) 8 sys_demo_store).2.

Lemma sys_demo_run :
  rtc sys_step (sys_init new) (mkSys sys_demo_store ["b"%string] {["b"%string]} ∅).
Proof.
  apply rtc_once.
  replace {["b"%string]} with ({["b"%string]} ∪ dom (inner new)) by (cbn; set_solver).
  eapply (ys_enqueue "b" "peer" "hi" None None 7); [|by vm_compute].
  cbn. rewrite dom_empty_L. set_solver.
Qed.

Lemma outbox_no_double_send_witness : is_Some (inflight sys_demo_store !! "b"%string).
Proof.
  refine (proj2 (outbox_no_double_send new _ new_wf eq_refl sys_demo_run "b" [] [] eq_refl _)).
  cbn. set_solver.
Defined.

Lemma outbox_images_bounded_witness :
  attachment_bubble_count sys_demo_store <= ATTACHMENT_BUBBLE_CAP.
Proof. exact (proj1 (outbox_images_bounded new _ new_wf eq_refl sys_demo_run)). Defined.

Lemma sys_demo_accept :
  rtc sys_step (mkSys sys_demo_store ["b"%string] {["b"%string]} ∅)
    (mkSys sys_demo_sent [] {["b"%string]} ∅).
Proof.
  apply rtc_once.
  apply (ys_finish "b" (Ok (Some "m"%string)) 8
    (finish_send "b" (Ok (Some "m"%string)) 8 sys_demo_store).1 sys_demo_store sys_demo_sent [] []).
  apply surjective_pairing.
Qed.

Lemma outbox_states_never_regress_witness : advances Queued Sent.
Proof.
  destruct (inner sys_demo_sent !! "b"%string) as [b'|] eqn:Hb'; [|by vm_compute in Hb'].
  assert (b_status b' = Sent) as Hs by by vm_compute in Hb'; simplify_eq.
  pose proof (outbox_states_never_regress new
    (mkSys sys_demo_store ["b"%string] {["b"%string]} ∅) (mkSys sys_demo_sent [] {["b"%string]} ∅)
    "b" sys_demo_bubble b' new_wf eq_refl sys_demo_run sys_demo_accept) as Hadv.
  rewrite Hs in Hadv. apply Hadv; [by vm_compute | exact Hb'].
Defined.

Lemma boot_sweep_frees_live_claim_witness :
  sys_demo_bubble ∈ (flush_claims "peer" is_retryable 9 (clear_all_inflight sys_demo_store)).1.
Proof.
  apply (boot_sweep_frees_live_claim "b" "peer" "hi" None None 7 9 new sys_demo_store);
    [exact new_wf | done | by vm_compute].
Defined.
