(* ===== verification/Overlay.v ===== *)
(** * Send state of a listed transcript

    Models [overlay_history_send_state]
    ([crates/fetchit-chat/src/outbox/overlay.rs]) and the history entries it
    updates ([crates/fetchit-chat/src/conversation/types.rs]): the live outbox
    bubbles are folded onto the persisted entries of a conversation. *)
From S2P Require Import Prelude SendState Attachment Bubble.

Record HistoryEntry := mkEntry {
  h_sender_agent_id_hex : string;
  h_sender_name : option string;
  h_body : string;
  h_ts_ms : N;
  h_message_id : string;
  h_attachment : option Attachment;
  h_delivered_at_ms : option N;
  h_send_state : option SendState;
  h_state_changed_at_ms : N;
}.

Definition send_progress (e : HistoryEntry) : SendProgress :=
  {| sp_state :=
       match h_send_state e with
       | Some s => s
       | None => if is_some (h_delivered_at_ms e) then Delivered else Sent
       end;
     sp_changed_at_ms :=
       match h_state_changed_at_ms e with
       | 0 => default (h_ts_ms e) (h_delivered_at_ms e)
       | stamped => stamped
       end |}.

(** [entry.send_state = Some(state); entry.state_changed_at_ms = at]. *)
Definition set_progress (state : SendState) (at_ms : N) (e : HistoryEntry) : HistoryEntry :=
  mkEntry (h_sender_agent_id_hex e) (h_sender_name e) (h_body e) (h_ts_ms e) (h_message_id e)
    (h_attachment e) (h_delivered_at_ms e) (Some state) at_ms.

(** A slot of the [live] map: the least advanced copy, and the receipt time. *)
Abbreviation Slot := ((SendState * N) * option N)%type.

Definition anchors (b : OutboxBubble) : list string :=
  option_list (g_client_message_id <$> b_group b) ++ option_list (b_message_id b)
    ++ b_prior_message_ids b.

Definition candidate (b : OutboxBubble) : SendState * N := (b_status b, b_state_changed_at_ms b).

Definition delivered_at (b : OutboxBubble) : option N :=
  if bool_decide (b_status b = Delivered) then Some (b_state_changed_at_ms b) else None.

Definition fold_anchor (b : OutboxBubble) (live : gmap string Slot) (anchor : string)
    : gmap string Slot :=
  if bool_decide (anchor = EmptyString) then live
  else
    let '(low, del) := default (candidate b, delivered_at b) (live !! anchor) in
    let low := if SendState_lt (candidate b).1 low.1 then candidate b else low in
    let del := match del with Some t => Some t | None => delivered_at b end in
    <[anchor := (low, del)]> live.

Definition fold_bubble (live : gmap string Slot) (b : OutboxBubble) : gmap string Slot :=
  foldl (fold_anchor b) live (anchors b).

Definition live_slots (bubbles : list OutboxBubble) : gmap string Slot :=
  foldl fold_bubble ∅ bubbles.

Definition overlay_entry (live : gmap string Slot) (e : HistoryEntry) : HistoryEntry :=
  match live !! h_message_id e with
  | None => e
  | Some (lowest, del) =>
      let persisted := send_progress e in
      let '(state, changed_at_ms) :=
        if bool_decide (sp_state persisted = Delivered)
        then (sp_state persisted, sp_changed_at_ms persisted)
        else match del with
             | Some t => (Delivered, t)
             | None =>
                 if SendState_lt lowest.1 (sp_state persisted) then lowest
                 else (sp_state persisted, sp_changed_at_ms persisted)
             end in
      set_progress state changed_at_ms e
  end.

Definition overlay_history_send_state (entries : list HistoryEntry) (bubbles : list OutboxBubble)
    : list HistoryEntry :=
  if bool_decide (bubbles = []) then entries
  else overlay_entry (live_slots bubbles) <$> entries.

(** ** What the slot map holds *)

(** [b] is a copy of the message [mid]. *)
Definition owns (mid : string) (b : OutboxBubble) : Prop := mid <> EmptyString /\ mid ∈ anchors b.

(** What slot [mid] says about the copies [P]: nothing if there are none, else a
    least advanced one and the time of a delivered one if there is any. *)
Definition slot_ok (P : OutboxBubble -> Prop) (o : option Slot) : Prop :=
  match o with
  | None => forall b, ~ P b
  | Some (low, del) =>
      (exists b, P b /\ low = candidate b) /\
      (forall b, P b -> SendState_rank low.1 <= SendState_rank (b_status b)) /\
      match del with
      | None => forall b, P b -> b_status b <> Delivered
      | Some t => exists b, P b /\ b_status b = Delivered /\ t = b_state_changed_at_ms b
      end
  end.

#[export] Instance slot_ok_proper :
  Proper (pointwise_relation _ iff ==> eq ==> iff) slot_ok.
Proof.
  intros P Q HPQ o ? <-. unfold slot_ok. destruct o as [[low [t|]]|]; by setoid_rewrite HPQ.
Qed.

Lemma fold_anchor_ok b live a k P :
  slot_ok P (live !! k) ->
  slot_ok (fun c => P c \/ (k = a /\ k <> EmptyString /\ c = b)) (fold_anchor b live a !! k).
Proof.
  intros Hok. unfold fold_anchor. case_bool_decide as Ha.
  { eapply slot_ok_proper; [|done|exact Hok]. intros c. naive_solver. }
  destruct (decide (k = a)) as [->|Hne]; cycle 1.
  { destruct (default _ _) as [low del]. rewrite lookup_insert_ne by done.
    eapply slot_ok_proper; [|done|exact Hok]. intros c. naive_solver. }
  unfold delivered_at, candidate, SendState_lt.
  destruct (live !! a) as [[low del]|]; cbn; rewrite lookup_insert_eq; cbn.
  - destruct Hok as ((b0 & Hb0 & ->) & Hmin & Hdel). unfold candidate in *. cbn in *.
    split; [|split].
    + destruct (N.ltb_spec (SendState_rank (b_status b)) (SendState_rank (b_status b0))); eauto 6.
    + intros c [Hc | (_ & _ & ->)]; [specialize (Hmin c Hc)|];
        destruct (N.ltb_spec (SendState_rank (b_status b)) (SendState_rank (b_status b0)));
        cbn; lia.
    + destruct del as [t|]; [naive_solver|]. case_bool_decide; naive_solver.
  - rewrite N.ltb_irrefl. split; [|split].
    + eauto 6.
    + intros c [Hc | (_ & _ & ->)]; [by destruct (Hok c)|]. cbn. lia.
    + case_bool_decide; cbn; [by exists b; auto|].
      intros c [Hc | (_ & _ & ->)]; [by destruct (Hok c)|done].
Qed.

Lemma fold_anchors_ok b as_ live k P :
  slot_ok P (live !! k) ->
  slot_ok (fun c => P c \/ (k ∈ as_ /\ k <> EmptyString /\ c = b))
    (foldl (fold_anchor b) live as_ !! k).
Proof.
  revert live P. induction as_ as [|a as_ IH]; intros live P Hok; cbn.
  - eapply slot_ok_proper; [|done|exact Hok]. intros c. set_solver.
  - eapply slot_ok_proper; [|done|apply IH, fold_anchor_ok, Hok]. intros c. set_solver.
Qed.

Lemma live_slots_ok_from bubbles live mid P :
  slot_ok P (live !! mid) ->
  slot_ok (fun b => P b \/ (b ∈ bubbles /\ owns mid b)) (foldl fold_bubble live bubbles !! mid).
Proof.
  revert live P. induction bubbles as [|b bubbles IH]; intros live P Hok; cbn.
  - eapply slot_ok_proper; [|done|exact Hok]. intros c. set_solver.
  - eapply slot_ok_proper; [|done|apply IH, fold_anchors_ok, Hok].
    intros c. unfold owns. set_solver.
Qed.

Lemma live_slots_ok bubbles mid :
  slot_ok (fun b => b ∈ bubbles /\ owns mid b) (live_slots bubbles !! mid).
Proof.
  eapply slot_ok_proper; [|done|apply (live_slots_ok_from bubbles ∅ mid (fun _ => False))].
  - intros b. naive_solver.
  - rewrite lookup_empty. cbn. auto.
Qed.

Lemma overlay_lookup entries bubbles i :
  overlay_history_send_state entries bubbles !! i =
  overlay_entry (live_slots bubbles) <$> entries !! i.
Proof.
  unfold overlay_history_send_state. case_bool_decide as Hb.
  - subst. destruct (entries !! i) as [e|]; [|done]. cbn. unfold overlay_entry, live_slots.
    cbn. by rewrite lookup_empty.
  - apply list_lookup_fmap.
Qed.

(** ** Properties *)

(** The entry shows a receipt as soon as either view has one. *)
Definition is_delivered (e : HistoryEntry) (copies : OutboxBubble -> Prop) : Prop :=
  sp_state (send_progress e) = Delivered \/ exists b, copies b /\ b_status b = Delivered.

(** After the overlay an entry without a live copy is
    unchanged; any other entry differs only in its send state and transition
    time, is [Delivered] exactly when the persisted view or some copy is, and is
    otherwise as far along as the least advanced of the persisted view and all
    its copies, with the transition time of the view it reports. *)
Theorem overlay_least_advanced (entries : list HistoryEntry) (bubbles : list OutboxBubble)
    (i : nat) (e : HistoryEntry) :
  entries !! i = Some e ->
  let copies b := b ∈ bubbles /\ owns (h_message_id e) b in
  exists e', overlay_history_send_state entries bubbles !! i = Some e' /\
    ((forall b, ~ copies b) -> e' = e) /\
    forall b0, copies b0 ->
      exists s t, e' = set_progress s t e /\
        (s = Delivered <-> is_delivered e copies) /\
        ((s, t) = (sp_state (send_progress e), sp_changed_at_ms (send_progress e)) \/
         exists b, copies b /\ (s, t) = candidate b) /\
        (~ is_delivered e copies ->
           SendState_rank s <= SendState_rank (sp_state (send_progress e)) /\
           forall b, copies b -> SendState_rank s <= SendState_rank (b_status b)).
Proof.
  intros He copies. rewrite overlay_lookup, He. eexists. split; [reflexivity|].
  pose proof (live_slots_ok bubbles (h_message_id e)) as Hok. fold copies in Hok.
  unfold overlay_entry, is_delivered.
  destruct (live_slots bubbles !! h_message_id e) as [[low del]|]; cycle 1.
  { split; [done|]. intros b0 Hb0. by destruct (Hok b0). }
  destruct Hok as ((bl & Hbl & ->) & Hmin & Hdel). cbn in Hmin. generalize (send_progress e). intros p.
  split; [intros Hno; by destruct (Hno bl)|]. intros b0 _.
  case_bool_decide as Hp; [|destruct del as [t|]].
  - rewrite Hp. do 2 eexists. split; [reflexivity|].
    split; [tauto|]. split; [by left|]. intros Hn. by destruct Hn; left.
  - destruct Hdel as (bd & Hbd & Hs & ->). do 2 eexists. split; [reflexivity|].
    assert (exists b, copies b /\ b_status b = Delivered) as Hex by (exists bd; done).
    split; [tauto|]. split; [|intros Hn; by destruct Hn; right].
    right. exists bd. unfold candidate. by rewrite Hs.
  - unfold SendState_lt, candidate. cbn.
    destruct (N.ltb_spec (SendState_rank (b_status bl)) (SendState_rank (sp_state p))) as [Hlt|Hge];
      (do 2 eexists; split; [reflexivity|]; split; [naive_solver|]; split; [by eauto 6|];
       intros _; split; [lia|]; intros b Hb; specialize (Hmin b Hb); lia).
Qed.

(** A group message whose second copy fell back to the queue. *)
Definition overlay_demo_bubble (id : string) (s : SendState) (t : N) : OutboxBubble :=
  set_status s (with_group (Build_GroupOutbound "g" [] "m") (queued id "peer" "hi" t)).
Definition overlay_demo_entry : HistoryEntry :=
  mkEntry "me" None "hi" 5 "m" None None (Some Sent) 6.

Lemma overlay_least_advanced_witness :
  exists e', overlay_history_send_state [overlay_demo_entry]
    [overlay_demo_bubble "x" Sent 7; overlay_demo_bubble "y" Queued 8] !! 0%nat = Some e' /\
    h_send_state e' = Some Queued /\ h_state_changed_at_ms e' = 8.
Proof.
  destruct (overlay_least_advanced [overlay_demo_entry]
    [overlay_demo_bubble "x" Sent 7; overlay_demo_bubble "y" Queued 8] 0 overlay_demo_entry eq_refl)
    as (e' & He' & _).
  exists e'. split; [exact He'|]. by vm_compute in He'; simplify_eq.
Defined.
