(* ===== verification/SeqGap.v ===== *)
(** * Missed-message detection

    Models [crates/fetchit-chat/src/conversation/seq_gap.rs]: the receive-side
    ledger of one sender's message counters.  [missing] is a [BTreeMap], so
    evicting the oldest hole is removing the least key. *)
From S2P Require Import Prelude.

Definition MISSING_CAP : N := 128.

Record SenderSeqState := mkSeq {
  high_water : N;
  missing : gmap N N;
}.

(** The derived [Default]. *)
Definition seq_default : SenderSeqState := mkSeq 0 ∅.

Inductive SeqObservation :=
| First
| Consecutive
| Gap (newly : list N)
| FilledHole
| Duplicate.

(** [while self.missing.len() > MISSING_CAP]: one hole leaves per turn, so the
    number of holes is enough fuel. *)
Fixpoint evict_oldest (fuel : nat) (m : gmap N N) : gmap N N :=
  match fuel with
  | O => m
  | S fuel =>
      if MISSING_CAP <? N.of_nat (size m) then
        match btree_first m with
        | Some oldest => evict_oldest fuel (delete oldest m)
        | None => evict_oldest fuel m
        end
      else m
  end.

Definition record (seq now_ms : N) (st : SenderSeqState) : SeqObservation * SenderSeqState :=
  if seq =? 0 then (Duplicate, st)
  else if high_water st =? 0 then (First, mkSeq seq (missing st))
  else if seq =? wrapping_add u64_max (high_water st) 1 then (Consecutive, mkSeq seq (missing st))
  else if high_water st <? seq then
    let first_missing := N.max (wrapping_add u64_max (high_water st) 1) (seq -| MISSING_CAP) in
    let newly := range first_missing seq in
    let grown := foldl (fun m k => <[k := now_ms]> m) (missing st) newly in
    (Gap newly, mkSeq seq (evict_oldest (size grown) grown))
  else
    match missing st !! seq with
    | Some _ => (FilledHole, mkSeq (high_water st) (delete seq (missing st)))
    | None => (Duplicate, st)
    end.

Definition stale_missing (now_ms grace_ms : N) (st : SenderSeqState) : list N :=
  (List.filter (fun kv => grace_ms <=? now_ms -| kv.2) (btree_iter (missing st))).*1.

(** The ledger after a stream of [(counter, arrival time)] observations. *)
Definition observe (st : SenderSeqState) (obs : list (N * N)) : SenderSeqState :=
  foldl (fun st o => (record o.1 o.2 st).2) st obs.

(** ** Eviction *)

Lemma size_keys_within (m : gmap N N) lo hi :
  (forall k, is_Some (m !! k) -> lo <= k < hi) -> N.of_nat (size m) <= hi - lo.
Proof.
  intros Hk. rewrite <- size_dom.
  assert (dom m ⊆ list_to_set (range lo hi)) as Hsub.
  { intros k Hd. apply elem_of_dom in Hd. by apply elem_of_list_to_set, elem_of_range, Hk. }
  apply subseteq_size in Hsub.
  assert (size (list_to_set (range lo hi) : gset N) <= N.to_nat (hi - lo))%nat; [|lia].
  rewrite size_list_to_set.
  - unfold range. rewrite length_fmap, length_seq. done.
  - unfold range. apply NoDup_fmap_2; [intros ???; lia | apply NoDup_seq].
Qed.

Lemma evict_subseteq fuel m : evict_oldest fuel m ⊆ m.
Proof.
  revert m. induction fuel as [|fuel IH]; intros m; simpl; [done|].
  case_match; [|done]. case_match; [|done].
  etrans; [apply IH | apply delete_subseteq].
Qed.

Lemma evict_size fuel m :
  (size m <= fuel)%nat -> N.of_nat (size (evict_oldest fuel m)) <= MISSING_CAP.
Proof.
  revert m. induction fuel as [|fuel IH]; intros m Hf; simpl.
  { unfold MISSING_CAP. lia. }
  destruct (N.ltb_spec MISSING_CAP (N.of_nat (size m))); [|done].
  destruct (btree_first m) as [k|] eqn:Hk.
  - apply btree_first_Some in Hk as [[v Hv] _]. apply IH.
    rewrite map_size_delete_Some by (by eexists). lia.
  - apply btree_first_None in Hk. subst. rewrite map_size_empty in *. unfold MISSING_CAP in *. lia.
Qed.

(** A hole among the [MISSING_CAP] newest counters is never evicted. *)
Lemma evict_keeps_newest fuel m hi k :
  (forall k', is_Some (m !! k') -> k' < hi) -> hi <= k + MISSING_CAP ->
  evict_oldest fuel m !! k = m !! k.
Proof.
  revert m. induction fuel as [|fuel IH]; intros m Hhi Hk; simpl; [done|].
  destruct (N.ltb_spec MISSING_CAP (N.of_nat (size m))) as [Hbig|]; [|done].
  destruct (btree_first m) as [k0|] eqn:Hf; [|by apply IH].
  apply btree_first_Some in Hf as [_ Hmin].
  assert (k0 < k) as Hlt.
  { destruct (N.lt_ge_cases k0 k) as [|Hge]; [done|]. exfalso.
    pose proof (size_keys_within m k hi). lapply H; [lia|].
    intros k' Hk'. specialize (Hmin k' Hk'). specialize (Hhi k' Hk'). lia. }
  rewrite IH; [|intros k' Hk'|done].
  - rewrite lookup_delete_ne by lia. done.
  - apply Hhi. destruct Hk' as [v Hv]. apply lookup_delete_Some in Hv as [_ ?]. by eexists.
Qed.

Lemma foldl_insert_lookup (t : N) (ks : list N) (m : gmap N N) k :
  foldl (fun m k => <[k := t]> m) m ks !! k = if decide (k ∈ ks) then Some t else m !! k.
Proof.
  revert m. induction ks as [|k0 ks IH]; intros m; [by rewrite decide_False by apply not_elem_of_nil|].
  cbn. rewrite IH. destruct (decide (k ∈ ks)); [by rewrite decide_True by set_solver|].
  destruct (decide (k = k0)) as [->|].
  - rewrite lookup_insert_eq. by rewrite decide_True by set_solver.
  - rewrite lookup_insert_ne by done. by rewrite decide_False by set_solver.
Qed.

(** ** The ledger invariant *)

(** The first counted observation: losses before it are undetectable. *)
Definition first_counter (seen : list N) : option N :=
  head (List.filter (fun s => negb (s =? 0)) seen).

(** [seen] lists every counter observed so far, [st] the ledger after them. *)
Record ledger_inv (seen : list N) (st : SenderSeqState) : Prop := {
  li_max : forall s, s ∈ seen -> s <= high_water st;
  li_bound : high_water st <= u64_max;
  li_seen : high_water st <> 0 -> high_water st ∈ seen;
  li_first : high_water st <> 0 -> exists f, first_counter seen = Some f /\ f <= high_water st;
  li_hole : forall m, is_Some (missing st !! m) ->
      m ∉ seen /\ m < high_water st /\ exists f, first_counter seen = Some f /\ f < m;
  li_size : N.of_nat (size (missing st)) <= MISSING_CAP;
  li_window : forall f m, first_counter seen = Some f -> f < m < high_water st ->
      high_water st <= m + MISSING_CAP -> m ∉ seen -> is_Some (missing st !! m);
}.

Lemma ledger_inv_init : ledger_inv [] seq_default.
Proof.
  constructor; cbn; try done.
  - intros s Hs. by apply elem_of_nil in Hs.
  - intros m [v Hv]. by rewrite lookup_empty in Hv.
Qed.

Lemma first_counter_snoc seen s f :
  first_counter seen = Some f -> first_counter (seen ++ [s]) = Some f.
Proof.
  unfold first_counter. rewrite List.filter_app. by destruct (List.filter _ seen).
Qed.

Lemma first_counter_fresh seen s :
  (forall x, x ∈ seen -> x <= 0) -> s <> 0 -> first_counter (seen ++ [s]) = Some s.
Proof.
  intros Hz Hs. unfold first_counter. rewrite List.filter_app.
  assert (List.filter (fun s => negb (s =? 0)) seen = []) as ->.
  { induction seen as [|x seen IH]; [done|]. simpl.
    assert (x <= 0) by (apply Hz; left). replace x with 0 by lia. simpl.
    apply IH. intros y Hy. apply Hz. by right. }
  simpl. destruct (N.eqb_spec s 0); [lia | done].
Qed.

Lemma first_counter_snoc_inv seen s f g :
  first_counter seen = Some f -> first_counter (seen ++ [s]) = Some g -> f = g.
Proof. intros Hf. rewrite (first_counter_snoc _ _ _ Hf). congruence. Qed.

Lemma first_counter_snoc_zero seen : first_counter (seen ++ [0]) = first_counter seen.
Proof. unfold first_counter. rewrite List.filter_app. simpl. by rewrite app_nil_r. Qed.

(** Each branch of [record]. *)
Section branches.
Context (seen : list N) (st : SenderSeqState) (seq now : N).
Context (Hinv : ledger_inv seen st) (Hseq : seq <= u64_max).

Lemma ledger_zero : ledger_inv (seen ++ [0]) st.
Proof.
  destruct Hinv as [Hmax Hb Hhw Hf Hh Hs Hw]. constructor; try rewrite first_counter_snoc_zero; auto.
  - intros x [?| ->%list_elem_of_singleton]%elem_of_app; [auto | lia].
  - intros H0. apply elem_of_app. left. by apply Hhw.
  - intros m Hm. destruct (Hh m Hm) as (? & ? & f & ? & ?).
    split; [|split; [done | eauto]]. apply not_elem_of_app. split; [done|].
    intros ->%list_elem_of_singleton. lia.
  - intros f m Hfc ? ? Hn. apply (Hw f); try done. set_solver.
Qed.

Lemma ledger_first : seq <> 0 -> high_water st = 0 -> ledger_inv (seen ++ [seq]) (mkSeq seq (missing st)).
Proof.
  intros Hne H0. destruct Hinv as [Hmax Hb Hhw Hf Hh Hs Hw]. rewrite H0 in *.
  assert (first_counter (seen ++ [seq]) = Some seq) as Hfc by by apply first_counter_fresh.
  constructor; cbn; auto.
  - intros x [Hx| ->%list_elem_of_singleton]%elem_of_app; [specialize (Hmax x Hx); lia | lia].
  - intros _. set_solver.
  - intros _. exists seq. split; [done | lia].
  - intros m Hm. destruct (Hh m Hm) as (_ & ? & _). lia.
  - intros f m Hf' ?. rewrite Hfc in Hf'. simplify_eq. lia.
Qed.

(** A counter above the high-water mark, with the holes it opens. *)
Lemma ledger_advance (grown : gmap N N) :
  high_water st <> 0 -> high_water st < seq ->
  (forall k, is_Some (grown !! k) -> is_Some (missing st !! k) \/ high_water st < k < seq) ->
  (forall k, is_Some (missing st !! k) -> seq <= k + MISSING_CAP -> is_Some (grown !! k)) ->
  (forall k, high_water st < k < seq -> seq <= k + MISSING_CAP -> is_Some (grown !! k)) ->
  N.of_nat (size grown) <= MISSING_CAP ->
  ledger_inv (seen ++ [seq]) (mkSeq seq grown).
Proof.
  intros H0 Hlt Hin Hold Hnew Hsz. destruct Hinv as [Hmax Hb Hhw Hf Hh Hs Hw].
  destruct (Hf H0) as (f & Hfc & Hfle).
  pose proof (first_counter_snoc seen seq f Hfc) as Hfc'.
  constructor; cbn; auto.
  - intros x [Hx| ->%list_elem_of_singleton]%elem_of_app; [specialize (Hmax x Hx); lia | lia].
  - intros _. set_solver.
  - intros _. exists f. split; [done | lia].
  - intros m Hm. rewrite not_elem_of_app, list_elem_of_singleton.
    destruct (Hin m Hm) as [Hm'|Hm'].
    + destruct (Hh m Hm') as (? & ? & g & ? & ?). simplify_eq.
      split; [split; [done | lia] | split; [lia | eauto]].
    + split; [split; [intros Hx; specialize (Hmax m Hx); lia | lia]|].
      split; [lia|]. exists f. split; [done | lia].
  - intros g m Hg Hm Hwin Hn. simplify_eq. rewrite not_elem_of_app in Hn. destruct Hn as [Hn _].
    destruct (N.lt_trichotomy m (high_water st)) as [?|[->|?]].
    + apply Hold; [|lia]. apply (Hw f); [done | lia | lia | done].
    + destruct Hn. by apply Hhw.
    + apply Hnew; lia.
Qed.

(** A counter at or below the high-water mark. *)
Lemma ledger_below :
  seq <> 0 -> high_water st <> 0 -> seq <= high_water st ->
  ledger_inv (seen ++ [seq]) (mkSeq (high_water st) (delete seq (missing st))).
Proof.
  intros Hne H0 Hle. destruct Hinv as [Hmax Hb Hhw Hf Hh Hs Hw].
  destruct (Hf H0) as (f & Hfc & Hfle).
  pose proof (first_counter_snoc seen seq f Hfc) as Hfc'.
  constructor; cbn; auto.
  - intros x [Hx| ->%list_elem_of_singleton]%elem_of_app; [specialize (Hmax x Hx); lia | lia].
  - intros _. apply elem_of_app. left. by apply Hhw.
  - intros _. eauto.
  - intros m [v Hm]. apply lookup_delete_Some in Hm as [Hne' Hm].
    destruct (Hh m) as (? & ? & g & ? & ?); [by eexists|]. simplify_eq.
    rewrite not_elem_of_app, list_elem_of_singleton. split; [split; [done | congruence] | eauto].
  - etrans; [|exact Hs].
    assert (size (delete seq (missing st)) <= size (missing st))%nat; [|lia].
    apply map_subseteq_size, delete_subseteq.
  - intros g m Hg Hm Hwin Hn. simplify_eq. rewrite not_elem_of_app, list_elem_of_singleton in Hn.
    rewrite lookup_delete_ne by (intros ->; tauto). apply (Hw f); tauto.
Qed.

Lemma ledger_filled :
  seq <> 0 -> high_water st <> 0 -> seq <= high_water st ->
  ledger_inv (seen ++ [seq])
    match missing st !! seq with
    | Some _ => (FilledHole, mkSeq (high_water st) (delete seq (missing st)))
    | None => (Duplicate, st)
    end.2.
Proof.
  intros Hne H0 Hle. pose proof (ledger_below Hne H0 Hle) as Hb.
  destruct (missing st !! seq) eqn:Hm; [done|]. rewrite delete_id in Hb by done.
  by destruct st.
Qed.

Lemma record_gap_ledger :
  high_water st <> 0 -> high_water st < seq ->
  let newly := range (N.max (high_water st + 1) (seq - MISSING_CAP)) seq in
  let grown := foldl (fun m k => <[k := now]> m) (missing st) newly in
  ledger_inv (seen ++ [seq]) (mkSeq seq (evict_oldest (size grown) grown)).
Proof.
  intros H0 Hlt newly grown.
  assert (forall k, grown !! k = if decide (k ∈ newly) then Some now else missing st !! k) as Hg
    by (intros k; apply foldl_insert_lookup).
  assert (forall k, is_Some (grown !! k) -> is_Some (missing st !! k) \/ high_water st < k < seq) as Hin.
  { intros k. rewrite Hg. case_decide as Hk; [|by left].
    apply elem_of_range in Hk. intros _. right. lia. }
  assert (forall k, seq <= k + MISSING_CAP ->
    evict_oldest (size grown) grown !! k = grown !! k) as Hkeep.
  { intros k Hk. apply (evict_keeps_newest _ _ seq); [|done]. intros k' Hk'.
    destruct (Hin k' Hk') as [Hm|]; [|lia]. apply (li_hole _ _ Hinv) in Hm as (_ & ? & _). lia. }
  apply ledger_advance; auto.
  - intros k [v Hv]. apply Hin. eapply lookup_weaken_is_Some; [by eexists | apply evict_subseteq].
  - intros k Hm Hk. rewrite Hkeep, Hg by done. case_decide; [by eexists | done].
  - intros k Hk Hc. rewrite Hkeep, Hg by done. rewrite decide_True; [by eexists|].
    apply elem_of_range. lia.
  - by apply evict_size.
Qed.

Lemma wrapping_succ h : h <= u64_max -> h < u64_max /\ wrapping_add u64_max h 1 = h + 1 \/
  h = u64_max /\ wrapping_add u64_max h 1 = 0.
Proof.
  intros Hh. unfold wrapping_add. destruct (decide (h = u64_max)) as [->|]; [by right | left].
  split; [lia|]. apply N.mod_small. unfold u64_max in *. lia.
Qed.

Lemma record_ledger : ledger_inv (seen ++ [seq]) (record seq now st).2.
Proof.
  unfold record. destruct (N.eqb_spec seq 0) as [Hz|Hne]; [rewrite Hz; apply ledger_zero|].
  destruct (N.eqb_spec (high_water st) 0) as [H0|H0]; [by apply ledger_first|].
  destruct (wrapping_succ _ (li_bound _ _ Hinv)) as [[Hlt ->]|[Hmax ->]].
  - destruct (N.eqb_spec seq (high_water st + 1)) as [Hnext|].
    { apply ledger_advance; cbn; auto; try (intros; lia). apply Hinv. }
    destruct (N.ltb_spec (high_water st) seq); [by apply record_gap_ledger|].
    by apply ledger_filled.
  - destruct (N.eqb_spec seq 0); [done|].
    destruct (N.ltb_spec (high_water st) seq); [lia|].
    by apply ledger_filled.
Qed.
End branches.

Lemma observe_ledger seen st obs :
  ledger_inv seen st -> Forall (fun o => o.1 <= u64_max) obs ->
  ledger_inv (seen ++ obs.*1) (observe st obs).
Proof.
  revert seen st. induction obs as [|[s t] obs IH]; intros seen st Hinv Hall.
  { by rewrite app_nil_r. }
  apply Forall_cons in Hall as [Hs Hall].
  rewrite fmap_cons, cons_middle, app_assoc. cbn.
  apply IH; [|done]. by apply record_ledger.
Qed.

(** ** Properties *)

(** Whatever counters arrive, in whatever order, every
    hole the ledger holds is a counter strictly between the first one observed
    and the highest one observed that never arrived; there are at most
    [MISSING_CAP] of them; and every counter among the [MISSING_CAP] newest that
    never arrived is held, so a recent loss is always detected. *)
Theorem seq_gap_never_false (obs : list (N * N)) :
  Forall (fun o => o.1 <= u64_max) obs ->
  let st := observe seq_default obs in
  let seen := obs.*1 in
  (forall m, is_Some (missing st !! m) ->
     m ∉ seen /\ m < high_water st /\ exists f, first_counter seen = Some f /\ f < m) /\
  N.of_nat (size (missing st)) <= MISSING_CAP /\
  (forall f m, first_counter seen = Some f -> f < m < high_water st ->
     high_water st <= m + MISSING_CAP -> m ∉ seen -> is_Some (missing st !! m)) /\
  (forall s, s ∈ seen -> s <= high_water st).
Proof.
  intros Hall. pose proof (observe_ledger [] seq_default obs ledger_inv_init Hall) as Hinv.
  cbn in Hinv. destruct Hinv. eauto.
Qed.

Lemma seq_gap_never_false_witness :
  (9 ∉ [7; 12; 10; 7]) /\ is_Some (missing (observe seq_default [(7,1);(12,2);(10,3);(7,4)]) !! 9).
Proof.
  pose proof (seq_gap_never_false [(7,1);(12,2);(10,3);(7,4)]) as Hgap.
  destruct Hgap as (_ & _ & Hwin & _); [by repeat constructor|].
  assert (9 ∉ [7; 12; 10; 7]) as Hn by (apply (bool_decide_unpack _); by vm_compute).
  split; [exact Hn|]. apply (Hwin 7); [done | by vm_compute | by vm_compute | exact Hn].
Defined.

(** [stale_missing] lists, ascending and without repeats,
    exactly the holes detected at least the grace period ago. *)
Theorem stale_missing_exact (st : SenderSeqState) (now grace : N) :
  StronglySorted N.lt (stale_missing now grace st) /\
  forall k, k ∈ stale_missing now grace st <->
    exists t, missing st !! k = Some t /\ grace <= now - t.
Proof.
  unfold stale_missing. split.
  - apply StronglySorted_filter_keys, btree_iter_strict.
  - intros k. rewrite list_elem_of_fmap. split.
    + intros ([k' t] & -> & Hin). apply elem_of_list_filter_bool in Hin as [Hg Hin].
      apply elem_of_btree_iter in Hin. exists t. split; [done|]. by apply N.leb_le in Hg.
    + intros (t & Hk & Hg). exists (k, t). split; [done|].
      apply elem_of_list_filter_bool. split; [by apply N.leb_le | by apply elem_of_btree_iter].
Qed.
