(* ===== verification/RelayProto.v ===== *)
(** * Relay wire types

    Models the data of [crates/fetchit-relay-proto/src]: identifiers
    ([identity.rs]), regions ([region.rs]), envelopes and the forward-compatible
    kind discriminator ([envelope.rs]), capability claims ([capability.rs]) and
    the WebSocket frames ([frame.rs]).  A [Vec<u8>] or [[u8; n]] is a list of
    [N]; the postcard encoding itself is code of another package, so where the
    relay calls it the encoder is a parameter. *)
From S2P Require Import Prelude.

Abbreviation bytes := (list N).

(** Newtypes over 32- and 16-byte arrays, and over a string. *)
Abbreviation AgentId := bytes.
Abbreviation MachineId := bytes.
Abbreviation GroupId := bytes.
Abbreviation DedupeKey := bytes.
Abbreviation TenantId := string.

(** ** Regions *)

Inductive Region :=
| Nyc | Sfo | Fra | Sgp
| OtherRegion (tag : string).

#[export] Instance Region_eq_dec : EqDecision Region.
Proof. solve_decision. Defined.
#[export] Instance Region_countable : Countable Region.
Proof.
  refine (inj_countable'
    (fun r => match r with
              | Nyc => inl 0 | Sfo => inl 1 | Fra => inl 2 | Sgp => inl 3
              | OtherRegion t => inr t end)
    (fun x => match x with
              | inl 0 => Nyc | inl 1 => Sfo | inl 2 => Fra | inl _ => Sgp
              | inr t => OtherRegion t end) _).
  by intros [].
Defined.

Definition region_tag (r : Region) : string :=
  match r with
  | Nyc => "nyc" | Sfo => "sfo" | Fra => "fra" | Sgp => "sgp"
  | OtherRegion tag => tag
  end.

Definition region_from (s : string) : Region :=
  if bool_decide (s = "nyc"%string) then Nyc
  else if bool_decide (s = "sfo"%string) then Sfo
  else if bool_decide (s = "fra"%string) then Fra
  else if bool_decide (s = "sgp"%string) then Sgp
  else OtherRegion s.

(** ** Envelopes *)

Inductive EnvelopeKind :=
| Dm | GroupChat | AdminEvent | DeliveryReceipt | PrivateGroupChat
| X0xdGroupMetadataEvent | PairRecordPush | Reserved7 | PublicPost
| UnknownKind (n : N).

#[export] Instance EnvelopeKind_eq_dec : EqDecision EnvelopeKind.
Proof. solve_decision. Defined.

Definition DISC_DM : N := 0.
Definition DISC_GROUP_CHAT : N := 1.
Definition DISC_ADMIN_EVENT : N := 2.
Definition DISC_DELIVERY_RECEIPT : N := 3.
Definition DISC_PRIVATE_GROUP_CHAT : N := 4.
Definition DISC_X0XD_GROUP_METADATA_EVENT : N := 5.
Definition DISC_PAIR_RECORD_PUSH : N := 6.
Definition DISC_RESERVED_7 : N := 7.
Definition DISC_PUBLIC_POST : N := 8.

(** The discriminator [Serialize] hands to the codec. *)
Definition kind_serialize (k : EnvelopeKind) : N :=
  match k with
  | Dm => DISC_DM
  | GroupChat => DISC_GROUP_CHAT
  | AdminEvent => DISC_ADMIN_EVENT
  | DeliveryReceipt => DISC_DELIVERY_RECEIPT
  | PrivateGroupChat => DISC_PRIVATE_GROUP_CHAT
  | X0xdGroupMetadataEvent => DISC_X0XD_GROUP_METADATA_EVENT
  | PairRecordPush => DISC_PAIR_RECORD_PUSH
  | Reserved7 => DISC_RESERVED_7
  | PublicPost => DISC_PUBLIC_POST
  | UnknownKind n => n
  end.

(** [visit_enum] on the [u32] discriminator the codec read. *)
Definition kind_deserialize (disc : N) : option EnvelopeKind :=
  if disc =? DISC_DM then Some Dm
  else if disc =? DISC_GROUP_CHAT then Some GroupChat
  else if disc =? DISC_ADMIN_EVENT then Some AdminEvent
  else if disc =? DISC_DELIVERY_RECEIPT then Some DeliveryReceipt
  else if disc =? DISC_PRIVATE_GROUP_CHAT then Some PrivateGroupChat
  else if disc =? DISC_X0XD_GROUP_METADATA_EVENT then Some X0xdGroupMetadataEvent
  else if disc =? DISC_PAIR_RECORD_PUSH then Some PairRecordPush
  else if disc =? DISC_RESERVED_7 then Some Reserved7
  else if disc =? DISC_PUBLIC_POST then Some PublicPost
  else if disc <=? u8_max then Some (UnknownKind disc)
  else None.

Record TransitEnvelope := {
  e_version : N;
  e_kind : EnvelopeKind;
  e_group_id : option GroupId;
  e_tenant_id : option TenantId;
  e_sender_agent_id : AgentId;
  e_sender_machine_id : MachineId;
  e_timestamp_ms : N;
  e_epoch : N;
  e_ciphertext : bytes;
  e_nonce : bytes;
  e_kem_ciphertext : bytes;
  e_sender_signature : bytes;
}.

#[export] Instance TransitEnvelope_eq_dec : EqDecision TransitEnvelope.
Proof. solve_decision. Defined.

(** ** Capabilities *)

Inductive FeatureFlag :=
| EncryptedBackup | Voice | Video | FileTransfer | AuditPublish | AuditConsume
| UnknownFeature (v : N).

#[export] Instance FeatureFlag_eq_dec : EqDecision FeatureFlag.
Proof. solve_decision. Defined.

Definition feature_from (v : N) : FeatureFlag :=
  match v with
  | 0 => EncryptedBackup | 1 => Voice | 2 => Video | 3 => FileTransfer
  | 4 => AuditPublish | 5 => AuditConsume
  | other => UnknownFeature other
  end.

Definition feature_into (f : FeatureFlag) : N :=
  match f with
  | EncryptedBackup => 0 | Voice => 1 | Video => 2 | FileTransfer => 3
  | AuditPublish => 4 | AuditConsume => 5
  | UnknownFeature v => v
  end.

#[export] Instance FeatureFlag_countable : Countable FeatureFlag.
Proof.
  refine (inj_countable'
    (fun f => match f with UnknownFeature v => inr v | _ => inl (feature_into f) end)
    (fun x => match x with inl n => feature_from n | inr v => UnknownFeature v end) _).
  by intros [].
Defined.

Inductive Capability :=
| MaxEnvelopesPerMin (n : N)
| MaxEnvelopeBytes (n : N)
| MaxGroupSize (n : N)
| AllowedRegions (set : gset Region)
| AdminFor (t : TenantId)
| Feature (f : FeatureFlag)
| UnknownCapability (tag : N) (payload : bytes).

Record CapabilityClaims := {
  cc_agent_id : AgentId;
  cc_tenant_id : option TenantId;
  cc_issued_at_ms : N;
  cc_expires_at_ms : N;
  cc_capabilities : list Capability;
  cc_issuer_key_id : string;
}.

Record CapabilityToken := {
  ct_claims : CapabilityClaims;
  ct_signature : bytes;
}.

Record EffectiveCapabilities := mkCaps {
  max_envelopes_per_min : N;
  max_envelope_bytes : N;
  max_group_size : N;
  allowed_regions : option (gset Region);
  admin_for : gset TenantId;
  features : gset FeatureFlag;
}.

(** ** Frames *)

Record Hello := {
  hello_client_version : string;
  hello_tenant_id : option TenantId;
  hello_preferred_region : option Region;
  hello_capabilities : option CapabilityToken;
}.

Inductive ThrottleReason := PerRecipientCapacity | PerSenderRate | EnvelopeTooLarge.

Inductive ByeReason :=
| ClientGoodbye | ServerShutdown | AuthExpired | ProtocolError | DisplacedByNewSession.

Inductive LogRecordKind := Commit | JoinResult.

#[export] Instance LogRecordKind_eq_dec : EqDecision LogRecordKind.
Proof. solve_decision. Defined.

Record LogRecordWire := {
  lw_seq : N;
  lw_kind : LogRecordKind;
  lw_recipient : option AgentId;
  lw_payload : bytes;
  lw_author : option AgentId;
  lw_inserted_at_ms : N;
}.

Record SendFrame := {
  sf_to : AgentId;
  sf_envelope : TransitEnvelope;
  sf_dedupe_key : DedupeKey;
}.

Record LogAppend := {
  la_group_id : GroupId;
  la_kind : LogRecordKind;
  la_recipient : option AgentId;
  la_payload : bytes;
}.

Inductive ClientFrame :=
| CHello (h : Hello)
| CSubscribe (topic : string)
| CSend (s : SendFrame)
| CWatchPresence (add remove : list AgentId)
| CPing (nonce : N)
| CBye (reason : ByeReason)
| CTransitAck (acked_ids : list N)
| CLogAppend (a : LogAppend)
| CLogFetch (group_id : GroupId) (since_seq : N).

Inductive ServerFrame :=
| SReady (server_version : string) (region : Region) (effective : EffectiveCapabilities)
| SAck (dedupe_key : DedupeKey) (accepted_at_ms : N)
| SDeliver (envelope : TransitEnvelope) (transit_seq delivered_at_ms : N)
| SThrottle (retry_after_ms : N) (reason : ThrottleReason)
| SPresenceUpdate (agent_id : AgentId) (online : bool)
| SPong (nonce : N)
| SBye (reason : ByeReason)
| SMoved (dedupe_key : DedupeKey)
| SLogRecords (group_id : GroupId) (records : list LogRecordWire) (is_done : bool).

(** ** Relay errors ([crates/fetchit-relay-server/src/error.rs]) *)

Inductive ServerError :=
| IoError (why : string)
| ConfigError (why : string)
| ProtoError (why : string)
| AuthRejected (why : string)
| BearerInvalid
| CapabilityInvalid (why : string)
| RegionDenied (region : string)
| RateLimited
| EnvelopeTooLargeError (size cap : N)
| TransitBufferFull
| TransitStoreError (why : string)
| GroupLogFull
| GroupLogError (why : string).

(** ** Codec properties *)

Lemma kind_deserialize_some d k : kind_deserialize d = Some k -> kind_serialize k = d.
Proof.
  unfold kind_deserialize. intros Hd.
  repeat (match type of Hd with context [?a =? ?b] => destruct (N.eqb_spec a b) end;
          [simplify_eq/=; done|]).
  destruct (d <=? u8_max); by simplify_eq/=.
Qed.

Lemma kind_deserialize_total d : is_Some (kind_deserialize d) <-> d <= u8_max.
Proof.
  unfold kind_deserialize.
  repeat (match goal with |- context [?a =? ?b] => destruct (N.eqb_spec a b) as [->|] end;
          [by vm_compute; split; eauto|]).
  destruct (N.leb_spec d u8_max); split; eauto; try lia. by intros [].
Qed.

Lemma kind_deserialize_unknown n :
  kind_deserialize n = Some (UnknownKind n) <-> DISC_PUBLIC_POST < n <= u8_max.
Proof.
  split.
  - intros Hn. pose proof (proj1 (kind_deserialize_total n)) as Hb.
    split; [|apply Hb; by eexists]. destruct (N.lt_ge_cases DISC_PUBLIC_POST n) as [|Hle]; [done|].
    exfalso. assert (n ∈ range 0 9) as Hin by (apply elem_of_range; unfold DISC_PUBLIC_POST in *; lia).
    vm_compute in Hin. repeat (apply elem_of_cons in Hin as [->|Hin]; [by vm_compute in Hn|]).
    by apply elem_of_nil in Hin.
  - unfold DISC_PUBLIC_POST, kind_deserialize. intros [Hlo Hhi].
    repeat (match goal with |- context [?a =? ?b] => destruct (N.eqb_spec a b) as [->|] end;
            [by vm_compute in Hlo|]).
    by destruct (N.leb_spec n u8_max); [|lia].
Qed.

Lemma kind_round_trip k :
  kind_deserialize (kind_serialize k) = Some k <->
  forall n, k = UnknownKind n -> DISC_PUBLIC_POST < n <= u8_max.
Proof.
  destruct k; try (split; [by intros _ ? | done]).
  simpl. rewrite kind_deserialize_unknown. split; [by intros ? ? [= <-] | eauto].
Qed.

Lemma feature_round_trip f :
  feature_from (feature_into f) = f <-> forall v, f = UnknownFeature v -> 5 < v.
Proof.
  destruct f as [| | | | | |v]; try (split; [by intros _ ? | done]). simpl. split.
  - intros Hf w [= <-]. destruct v as [|p]; [done|]. simpl in Hf.
    destruct (N.lt_ge_cases 5 (N.pos p)) as [|Hle]; [done|].
    exfalso. do 3 (destruct p as [p|p|]; try done); destruct p; lia.
  - intros Hv. specialize (Hv v eq_refl). destruct v as [|p]; [done|].
    do 3 (destruct p as [p|p|]; try done; try lia).
Qed.

Lemma region_round_trip r :
  region_from (region_tag r) = r <->
  forall t, r = OtherRegion t -> t ∉ ["nyc"; "sfo"; "fra"; "sgp"]%string.
Proof.
  destruct r as [| | | |t]; try (split; [by intros _ ? | by vm_compute]).
  simpl. unfold region_from. split.
  - intros Hr u [= <-]. repeat case_bool_decide; simplify_eq/=. set_solver.
  - intros Hr. specialize (Hr t eq_refl). rewrite !not_elem_of_cons in Hr.
    destruct Hr as (? & ? & ? & ? & _). by rewrite !bool_decide_eq_false_2 by done.
Qed.

Lemma region_tag_from s : region_tag (region_from s) = s.
Proof. unfold region_from. repeat case_bool_decide; by simplify_eq/=. Qed.

Lemma feature_into_from v : feature_into (feature_from v) = v.
Proof. destruct v as [|p]; [done|]. by do 3 (destruct p as [p|p|]; try done). Qed.

(** The forward-compatible wire discriminators round
    trip.  Every envelope-kind discriminator that fits a byte decodes, and
    re-encodes to itself, so a relay passes envelopes of kinds it does not know
    through unchanged; larger ones are refused; the kinds that do not survive a
    round trip are exactly the [UnknownKind]s of an assigned discriminator or of
    more than a byte.  The same holds of feature flags and of region tags. *)
Theorem wire_tags_round_trip :
  (forall d, d <= u8_max <-> exists k, kind_deserialize d = Some k /\ kind_serialize k = d) /\
  (forall k, kind_deserialize (kind_serialize k) = Some k <->
     forall n, k = UnknownKind n -> DISC_PUBLIC_POST < n <= u8_max) /\
  (forall v, feature_into (feature_from v) = v) /\
  (forall f, feature_from (feature_into f) = f <-> forall v, f = UnknownFeature v -> 5 < v) /\
  (forall s, region_tag (region_from s) = s) /\
  (forall r, region_from (region_tag r) = r <->
     forall t, r = OtherRegion t -> t ∉ ["nyc"; "sfo"; "fra"; "sgp"]%string).
Proof.
  split.
  { intros d. rewrite <- kind_deserialize_total. split; [|by intros (k & -> & _)].
    intros [k Hk]. exists k. split; [done | by apply kind_deserialize_some]. }
  split; [exact kind_round_trip|]. split; [exact feature_into_from|].
  split; [exact feature_round_trip|]. split; [exact region_tag_from | exact region_round_trip].
Qed.
