(* ===== verification/RelayAuth.v ===== *)
(** * Who a relay session is and what it may do

    Models the signing framings ([crates/fetchit-relay-proto/src/sign_domains.rs],
    [auth.rs], [identity.rs]), the challenge / bearer service
    ([crates/fetchit-relay-server/src/auth.rs]) and the resolution of capability
    tokens ([crates/fetchit-relay-proto/src/capability.rs] and
    [crates/fetchit-relay-server/src/capability.rs]).

    SHA-256, ML-DSA-65 verification and the postcard encoder are code of other
    packages and are parameters.  Clock readings and random bytes are arguments
    of the operation that reads them. *)
From S2P Require Import Prelude RelayProto.

(** ** Signing inputs *)

Definition AGENT_ID_DOMAIN : bytes := ascii_bytes "AUTONOMI_PEER_ID_V2:".
Definition USER_ID_DOMAIN : bytes := ascii_bytes "fetchit-user-id-v1:".
Definition AUTH_CHALLENGE_DOMAIN : bytes := ascii_bytes "fetchit-relay/v1/auth/challenge" ++ [0].
Definition SIGN_DOMAIN_PROFILE : bytes := ascii_bytes "fetchit/profile-manifest/v1".
Definition AGENT_SIGN_NAMESPACE_TAG : N := 240.
Definition AGENT_SIGN_MAGIC : bytes := ascii_bytes "x0x.external-agent-sign.v1".
Definition AGENT_SIGN_CONTEXT : string := "fetchit.agent-sign.v1".

Definition auth_signing_bytes (challenge : bytes) : bytes := AUTH_CHALLENGE_DOMAIN ++ challenge.

Definition assemble_agent_sign_buffer (context : string) (payload : bytes) : bytes :=
  let ctx := ascii_bytes context in
  let l := if len ctx <=? u32_max then len ctx else u32_max in
  [AGENT_SIGN_NAMESPACE_TAG] ++ AGENT_SIGN_MAGIC ++ u32_be l ++ ctx ++ payload.

Definition agent_sign_input (message : bytes) : bytes :=
  assemble_agent_sign_buffer AGENT_SIGN_CONTEXT message.

Class Sha256 := sha256 : bytes -> bytes.

Definition derive_agent_id `{Sha256} (public_key : bytes) : bytes :=
  sha256 (AGENT_ID_DOMAIN ++ public_key).
Definition derive_user_id `{Sha256} (public_key : bytes) : bytes :=
  sha256 (USER_ID_DOMAIN ++ public_key).

(** [SignatureVerifier::verify_ml_dsa_65]: public key, message, signature. *)
Class SignatureVerifier := verify_ml_dsa_65 : bytes -> bytes -> bytes -> bool.

(** [saorsa_pqc]'s ML-DSA-65: key and signature parsing, then verification. *)
Class MlDsaBackend := {
  pk_from_bytes : bytes -> result unit string;
  sig_from_bytes : bytes -> result unit string;
  mldsa_verify : bytes -> bytes -> bytes -> result bool string;
}.

(** The production implementation of the trait, and the one tests use. *)
Definition ml_dsa_65_verifier `{MlDsaBackend} : SignatureVerifier :=
  fun public_key message signature =>
    match pk_from_bytes public_key with
    | Err _ => false
    | Ok _ =>
        match sig_from_bytes signature with
        | Err _ => false
        | Ok _ =>
            match mldsa_verify public_key message signature with
            | Ok ok => ok
            | Err _ => false
            end
        end
    end.
Definition accept_all_verifier : SignatureVerifier := fun _ _ _ => true.

(** ** Challenges and bearer tokens *)

Record AuthTokenState := {
  ats_agent_id : AgentId;
  ats_agent_public_key : bytes;
  ats_expires_at : N;
}.

Record AuthService := mkAuth {
  pending : gmap bytes N;
  tokens : gmap string AuthTokenState;
  challenge_ttl : N;
  bearer_ttl : N;
}.

Record AuthVerifyRequest := {
  avr_agent_id : AgentId;
  avr_agent_public_key : bytes;
  avr_challenge : bytes;
  avr_signature : bytes;
}.

Section auth.
  Context `{Sha256} `{SignatureVerifier}.

Definition auth_new (challenge_ttl bearer_ttl : N) : AuthService :=
  mkAuth ∅ ∅ challenge_ttl bearer_ttl.

Definition issue_challenge (random : bytes) (now : N) (s : AuthService) : bytes * AuthService :=
  (random, mkAuth (<[random := now + challenge_ttl s]> (pending s)) (tokens s)
             (challenge_ttl s) (bearer_ttl s)).

Definition verify (req : AuthVerifyRequest) (token : string) (now : N) (s : AuthService)
    : result string ServerError * AuthService :=
  match pending s !! avr_challenge req with
  | None => (Err (AuthRejected "unknown challenge"), s)
  | Some expires_at =>
      let s := mkAuth (delete (avr_challenge req) (pending s)) (tokens s)
                 (challenge_ttl s) (bearer_ttl s) in
      if expires_at <=? now then (Err (AuthRejected "challenge expired"), s)
      else if negb (bool_decide (derive_agent_id (avr_agent_public_key req) = avr_agent_id req))
      then (Err (AuthRejected "public_key does not match agent_id"), s)
      else
        let signing_bytes := agent_sign_input (auth_signing_bytes (avr_challenge req)) in
        if negb (verify_ml_dsa_65 (avr_agent_public_key req) signing_bytes (avr_signature req))
        then (Err (AuthRejected "signature verification failed"), s)
        else
          (Ok token,
           mkAuth (pending s)
             (<[token := {| ats_agent_id := avr_agent_id req;
                            ats_agent_public_key := avr_agent_public_key req;
                            ats_expires_at := now + bearer_ttl s |}]> (tokens s))
             (challenge_ttl s) (bearer_ttl s))
  end.

Definition validate_bearer (token : string) (now : N) (s : AuthService)
    : option AuthTokenState * AuthService :=
  match tokens s !! token with
  | None => (None, s)
  | Some entry =>
      if ats_expires_at entry <=? now
      then (None, mkAuth (pending s) (delete token (tokens s)) (challenge_ttl s) (bearer_ttl s))
      else (Some entry, s)
  end.

Definition auth_sweep_expired (now : N) (s : AuthService) : nat * AuthService :=
  let p := filter (fun kv => now < kv.2) (pending s) in
  let t := filter (fun kv => now < ats_expires_at kv.2) (tokens s) in
  ((size (pending s) - size p) + (size (tokens s) - size t),
   mkAuth p t (challenge_ttl s) (bearer_ttl s))%nat.

(** A call on the service, with the clock reading and random bytes it used. *)
Inductive AuthOp :=
| OpIssue (random : bytes) (now : N)
| OpVerify (req : AuthVerifyRequest) (token : string) (now : N)
| OpValidate (token : string) (now : N)
| OpSweep (now : N).

Definition auth_step (s : AuthService) (op : AuthOp) : AuthService :=
  match op with
  | OpIssue random now => (issue_challenge random now s).2
  | OpVerify req token now => (verify req token now s).2
  | OpValidate token now => (validate_bearer token now s).2
  | OpSweep now => (auth_sweep_expired now s).2
  end.

Definition auth_run (cttl bttl : N) (ops : list AuthOp) : AuthService :=
  foldl auth_step (auth_new cttl bttl) ops.

(** *** What the service's state says about the calls made so far *)

Definition is_verify_of (c : bytes) (op : AuthOp) : bool :=
  match op with OpVerify req _ _ => bool_decide (avr_challenge req = c) | _ => false end.

(** The challenge [c] was issued with expiry [e] and nobody answered it since. *)
Definition outstanding (cttl : N) (ops : list AuthOp) (c : bytes) (e : N) : Prop :=
  exists pre post t, ops = pre ++ OpIssue c t :: post /\ e = t + cttl /\
    forallb (fun op => negb (is_verify_of c op)) post = true.

(** The token was minted by an answer to an outstanding challenge that proved
    control of the key behind the agent id. *)
Definition proven (cttl bttl : N) (ops : list AuthOp) (token : string) (st : AuthTokenState)
    : Prop :=
  exists pre post req now e, ops = pre ++ OpVerify req token now :: post /\
    outstanding cttl pre (avr_challenge req) e /\ now < e /\
    derive_agent_id (avr_agent_public_key req) = avr_agent_id req /\
    verify_ml_dsa_65 (avr_agent_public_key req)
      (agent_sign_input (auth_signing_bytes (avr_challenge req))) (avr_signature req) = true /\
    st = {| ats_agent_id := avr_agent_id req;
            ats_agent_public_key := avr_agent_public_key req;
            ats_expires_at := now + bttl |}.

Record auth_inv (cttl bttl : N) (ops : list AuthOp) (s : AuthService) : Prop := {
  ai_cttl : challenge_ttl s = cttl;
  ai_bttl : bearer_ttl s = bttl;
  ai_pending : forall c e, pending s !! c = Some e -> outstanding cttl ops c e;
  ai_tokens : forall tok st, tokens s !! tok = Some st -> proven cttl bttl ops tok st;
}.

Lemma outstanding_snoc cttl ops c e op :
  is_verify_of c op = false -> outstanding cttl ops c e -> outstanding cttl (ops ++ [op]) c e.
Proof.
  intros Hop (pre & post & t & -> & -> & Hpost). exists pre, (post ++ [op]), t.
  rewrite <- app_assoc. split; [done|]. split; [done|].
  rewrite forallb_app, Hpost. simpl. by rewrite Hop.
Qed.

Lemma proven_snoc cttl bttl ops tok st op :
  proven cttl bttl ops tok st -> proven cttl bttl (ops ++ [op]) tok st.
Proof.
  intros (pre & post & req & now & e & -> & Hrest). exists pre, (post ++ [op]), req, now, e.
  rewrite <- app_assoc. by split.
Qed.

(** A step that only forgets entries, and is not an answer to a pending one. *)
Lemma auth_inv_shrink cttl bttl ops s op p t :
  auth_inv cttl bttl ops s -> p ⊆ pending s -> t ⊆ tokens s ->
  (forall c, is_Some (p !! c) -> is_verify_of c op = false) ->
  auth_inv cttl bttl (ops ++ [op]) (mkAuth p t (challenge_ttl s) (bearer_ttl s)).
Proof.
  intros [Hc Hb Hp Ht] Hsp Hst Hop. constructor; cbn; try done.
  - intros c e Hce. apply outstanding_snoc; [by apply Hop; eexists|].
    apply Hp. by eapply lookup_weaken.
  - intros tok st Htk. apply proven_snoc, Ht. by eapply lookup_weaken.
Qed.

Lemma auth_inv_verify cttl bttl ops s req token now :
  auth_inv cttl bttl ops s ->
  auth_inv cttl bttl (ops ++ [OpVerify req token now]) (verify req token now s).2.
Proof.
  intros Hinv. unfold verify.
  destruct (pending s !! avr_challenge req) as [e|] eqn:He; cycle 1.
  { destruct s as [p t ct bt]. apply (auth_inv_shrink _ _ _ _ _ p t Hinv); try done.
    intros c [x Hx]. simpl. case_bool_decide; [|done]. cbn in *. congruence. }
  assert (auth_inv cttl bttl (ops ++ [OpVerify req token now])
    (mkAuth (delete (avr_challenge req) (pending s)) (tokens s) (challenge_ttl s) (bearer_ttl s)))
    as Hdel.
  { apply auth_inv_shrink; try done; [apply delete_subseteq|].
    intros c [x Hx]. simpl. case_bool_decide; [|done]. subst. by rewrite lookup_delete_eq in Hx. }
  destruct (N.leb_spec e now) as [|Hlt]; [done|]. case_bool_decide as Hid; [|done]. simpl.
  destruct (verify_ml_dsa_65 _ _ _) eqn:Hsig; [|done]. simpl.
  destruct Hdel as [Hc Hb Hp Ht]. constructor; try done. cbn in *. intros tok st.
  rewrite lookup_insert_Some. intros [[<- <-]|[_ Htk]]; [|by apply Ht].
  exists ops, [], req, now, e. split; [done|].
  split; [by apply (ai_pending _ _ _ _ Hinv)|]. rewrite (ai_bttl _ _ _ _ Hinv). done.
Qed.

Lemma auth_inv_step cttl bttl ops s op :
  auth_inv cttl bttl ops s -> auth_inv cttl bttl (ops ++ [op]) (auth_step s op).
Proof.
  intros Hinv. destruct op as [random now|req token now|token now|now]; simpl.
  - destruct Hinv as [Hc Hb Hp Ht]. constructor; cbn; try done.
    + intros c e. rewrite lookup_insert_Some. intros [[<- <-]|[Hne Hce]].
      * exists ops, [], now. by rewrite Hc.
      * apply outstanding_snoc; [done | by apply Hp].
    + intros tok st Htk. by apply proven_snoc, Ht.
  - by apply auth_inv_verify.
  - unfold validate_bearer.
    assert (forall t, t ⊆ tokens s -> auth_inv cttl bttl (ops ++ [OpValidate token now])
      (mkAuth (pending s) t (challenge_ttl s) (bearer_ttl s))) as Hsh
      by (intros t Hsub; by apply auth_inv_shrink).
    destruct s as [p t ct bt]. cbn in *.
    destruct (t !! token); [|by apply Hsh]. case_match; [apply Hsh, delete_subseteq | by apply Hsh].
  - apply auth_inv_shrink; try done; apply map_filter_subseteq.
Qed.

Lemma auth_inv_run cttl bttl ops : auth_inv cttl bttl ops (auth_run cttl bttl ops).
Proof.
  unfold auth_run. induction ops as [|op ops IH] using rev_ind.
  - constructor; cbn; intros; done.
  - rewrite foldl_app. by apply auth_inv_step.
Qed.

(** C24: whatever calls were made, a bearer token that
    validates is unexpired and was minted by a [verify] whose public key hashes
    to the agent id, whose signature covers this relay's framing of a challenge
    the service had issued, that was unexpired, and that no [verify] had
    answered in between: tokens cannot be had by replaying a signed answer. *)
Theorem bearer_proves_key_control (cttl bttl : N) (ops : list AuthOp) (token : string) (now : N)
    (st : AuthTokenState) :
  (validate_bearer token now (auth_run cttl bttl ops)).1 = Some st ->
  now < ats_expires_at st /\ proven cttl bttl ops token st.
Proof.
  unfold validate_bearer.
  destruct (tokens (auth_run cttl bttl ops) !! token) as [e|] eqn:He; [|done].
  destruct (N.leb_spec (ats_expires_at e) now); [done|]. intros [= <-].
  split; [done|]. by apply (ai_tokens _ _ _ _ (auth_inv_run cttl bttl ops)).
Qed.

End auth.

(** ** Capability tokens *)

Definition DEFAULT_MAX_ENVELOPES_PER_MIN : N := 60.
Definition DEFAULT_MAX_ENVELOPE_BYTES : N := 1572864.
Definition DEFAULT_MAX_GROUP_SIZE : N := 10.

Definition default_profile : EffectiveCapabilities :=
  mkCaps DEFAULT_MAX_ENVELOPES_PER_MIN DEFAULT_MAX_ENVELOPE_BYTES DEFAULT_MAX_GROUP_SIZE
    None ∅ ∅.

(** The loop body of [from_claims]. *)
Definition apply_claim (eff : EffectiveCapabilities) (c : Capability) : EffectiveCapabilities :=
  let '(mkCaps rate size group regions admin feats) := eff in
  match c with
  | MaxEnvelopesPerMin n => mkCaps (N.max rate n) size group regions admin feats
  | MaxEnvelopeBytes n => mkCaps rate (N.max size n) group regions admin feats
  | MaxGroupSize n => mkCaps rate size (N.max group n) regions admin feats
  | AllowedRegions set => mkCaps rate size group (Some set) admin feats
  | AdminFor t => mkCaps rate size group regions ({[t]} ∪ admin) feats
  | Feature (UnknownFeature _) => eff
  | Feature f => mkCaps rate size group regions admin ({[f]} ∪ feats)
  | UnknownCapability _ _ => eff
  end.

Definition from_claims (claims : list Capability) : EffectiveCapabilities :=
  foldl apply_claim default_profile claims.

Definition permits_region (region : Region) (eff : EffectiveCapabilities) : bool :=
  match allowed_regions eff with
  | None => true
  | Some set => bool_decide (region ∈ set)
  end.

(** The postcard encoding of the claims, as the issuer signed it. *)
Class ClaimsCodec := claims_to_bytes : CapabilityClaims -> result bytes string.

Section capability.
  Context `{SignatureVerifier} `{ClaimsCodec}.

Definition resolve (issuer_keys : gmap string bytes) (token : option CapabilityToken)
    (bound_agent : AgentId) (region : Region) (now_ms : N)
    : result EffectiveCapabilities ServerError :=
  match token with
  | None => Ok default_profile
  | Some token =>
      let claims := ct_claims token in
      match issuer_keys !! cc_issuer_key_id claims with
      | None => Err (CapabilityInvalid "unknown issuer key id")
      | Some issuer_pk =>
          if negb (bool_decide (cc_agent_id claims = bound_agent))
          then Err (CapabilityInvalid "agent_id does not match session")
          else if cc_expires_at_ms claims <=? now_ms then Err (CapabilityInvalid "token expired")
          else
            match claims_to_bytes claims with
            | Err e => Err (ProtoError e)
            | Ok claim_bytes =>
                if negb (verify_ml_dsa_65 issuer_pk claim_bytes (ct_signature token))
                then Err (CapabilityInvalid "issuer signature invalid")
                else
                  let eff := from_claims (cc_capabilities claims) in
                  if negb (permits_region region eff)
                  then Err (RegionDenied (region_tag region))
                  else Ok eff
            end
      end
  end.

(** When a token resolves: every check passed. *)
Lemma resolve_token_ok issuer_keys token agent region now eff :
  resolve issuer_keys (Some token) agent region now = Ok eff <->
  exists pk cb,
    issuer_keys !! cc_issuer_key_id (ct_claims token) = Some pk /\
    cc_agent_id (ct_claims token) = agent /\
    now < cc_expires_at_ms (ct_claims token) /\
    claims_to_bytes (ct_claims token) = Ok cb /\
    verify_ml_dsa_65 pk cb (ct_signature token) = true /\
    eff = from_claims (cc_capabilities (ct_claims token)) /\
    permits_region region eff = true.
Proof.
  unfold resolve. destruct (issuer_keys !! _) as [pk|]; [|naive_solver].
  case_bool_decide as Ha; simpl; [|naive_solver].
  destruct (N.leb_spec (cc_expires_at_ms (ct_claims token)) now) as [Hle|Hlt].
  { split; [done|]. intros (? & ? & ? & ? & ? & _). lia. }
  destruct (claims_to_bytes (ct_claims token)) as [cb|]; [|naive_solver].
  destruct (verify_ml_dsa_65 pk cb (ct_signature token)) eqn:Hv; simpl; cycle 1.
  { split; [done|]. intros (? & ? & ? & ? & ? & ? & ? & _). simplify_eq. congruence. }
  destruct (permits_region region _) eqn:Hr; simpl.
  - split; [intros [= <-]; eauto 12|]. intros (? & ? & ? & ? & ? & ? & ? & -> & _). done.
  - split; [done|]. intros (? & ? & ? & ? & ? & ? & ? & -> & ?). congruence.
Qed.

End capability.

(** *** What a list of claims grants *)

Lemma apply_claim_rate eff c :
  max_envelopes_per_min (apply_claim eff c) =
  match c with MaxEnvelopesPerMin n => N.max (max_envelopes_per_min eff) n
  | _ => max_envelopes_per_min eff end.
Proof. destruct eff, c as [| | | | |[]|]; done. Qed.
Lemma apply_claim_size eff c :
  max_envelope_bytes (apply_claim eff c) =
  match c with MaxEnvelopeBytes n => N.max (max_envelope_bytes eff) n
  | _ => max_envelope_bytes eff end.
Proof. destruct eff, c as [| | | | |[]|]; done. Qed.
Lemma apply_claim_group eff c :
  max_group_size (apply_claim eff c) =
  match c with MaxGroupSize n => N.max (max_group_size eff) n | _ => max_group_size eff end.
Proof. destruct eff, c as [| | | | |[]|]; done. Qed.
Lemma apply_claim_regions eff c :
  allowed_regions (apply_claim eff c) =
  match c with AllowedRegions r => Some r | _ => allowed_regions eff end.
Proof. destruct eff, c as [| | | | |[]|]; done. Qed.
Lemma apply_claim_admin eff c t :
  t ∈ admin_for (apply_claim eff c) <-> c = AdminFor t \/ t ∈ admin_for eff.
Proof.
  destruct eff, c as [| | | | |[]|]; cbn; rewrite ?elem_of_union, ?elem_of_singleton;
    naive_solver.
Qed.
Lemma apply_claim_features eff c f :
  f ∈ features (apply_claim eff c) <->
  (c = Feature f /\ (forall v, f <> UnknownFeature v)) \/ f ∈ features eff.
Proof.
  destruct eff, c as [| | | | |[]|]; cbn; rewrite ?elem_of_union, ?elem_of_singleton;
    naive_solver.
Qed.

(** A cap after the claims is the largest of the default and the claims for it. *)
Lemma cap_fold (get : EffectiveCapabilities -> N) (mk : N -> Capability) claims eff :
  (forall e c, get (apply_claim e c) = get e /\ (forall n, c <> mk n) \/
     exists n, c = mk n /\ get (apply_claim e c) = N.max (get e) n) ->
  (forall m n, mk m = mk n -> m = n) ->
  let r := get (foldl apply_claim eff claims) in
  get eff <= r /\ (forall n, mk n ∈ claims -> n <= r) /\ (r = get eff \/ mk r ∈ claims).
Proof.
  intros Hget Hinj. revert eff. induction claims as [|c claims IH]; intros eff; cbn.
  { split; [lia|]. split; [by intros ? ?%elem_of_nil | by left]. }
  destruct (IH (apply_claim eff c)) as (Hle & Hall & Hin).
  destruct (Hget eff c) as [[Hc Hne]|(n & -> & Hc)]; rewrite Hc in *.
  - split; [done|]. split; [|destruct Hin; [by left | right; by right]].
    intros n [Hn|Hn]%elem_of_cons; [by destruct (Hne n) | by apply Hall].
  - split; [lia|]. split.
    + intros m [Hm|Hm]%elem_of_cons; [apply Hinj in Hm; subst; lia | by apply Hall].
    + destruct Hin as [Hin|Hin]; [|right; by right].
      destruct (N.max_spec (get eff) n) as [[? Hm]|[? Hm]]; rewrite Hm in Hin; rewrite Hin;
        [right; by left | by left].
Qed.

Lemma admin_fold claims eff t :
  t ∈ admin_for (foldl apply_claim eff claims) <-> AdminFor t ∈ claims \/ t ∈ admin_for eff.
Proof.
  revert eff. induction claims as [|c claims IH]; intros eff; cbn.
  { split; [by right | intros [Hin|]; [|done]]; by apply elem_of_nil in Hin. }
  rewrite IH, apply_claim_admin, elem_of_cons. naive_solver.
Qed.

Lemma features_fold claims eff f :
  f ∈ features (foldl apply_claim eff claims) <->
  (Feature f ∈ claims /\ (forall v, f <> UnknownFeature v)) \/ f ∈ features eff.
Proof.
  revert eff. induction claims as [|c claims IH]; intros eff; cbn.
  { split; [by right | intros [[Hin _]|]; [|done]]; by apply elem_of_nil in Hin. }
  rewrite IH, apply_claim_features, elem_of_cons. naive_solver.
Qed.

(** A session gets more than the default
    profile only from a token bound to its agent, unexpired, and signed by a
    configured issuer over exactly its claims.  Each numeric cap is then the
    larger of the default and some claim for it, a feature or an admin right is
    granted exactly when it is claimed (an unknown feature never is), and the
    relay's region is permitted. *)
Theorem capability_grants_only_signed_claims `{SignatureVerifier} `{ClaimsCodec}
    (issuer_keys : gmap string bytes) (token : CapabilityToken) (agent : AgentId)
    (region : Region) (now : N) (eff : EffectiveCapabilities) :
  resolve issuer_keys (Some token) agent region now = Ok eff ->
  let claims := ct_claims token in
  let cl := cc_capabilities claims in
  (exists pk cb, issuer_keys !! cc_issuer_key_id claims = Some pk /\
     claims_to_bytes claims = Ok cb /\ verify_ml_dsa_65 pk cb (ct_signature token) = true) /\
  cc_agent_id claims = agent /\ now < cc_expires_at_ms claims /\
  (max_envelopes_per_min eff = DEFAULT_MAX_ENVELOPES_PER_MIN \/
     MaxEnvelopesPerMin (max_envelopes_per_min eff) ∈ cl) /\
  DEFAULT_MAX_ENVELOPES_PER_MIN <= max_envelopes_per_min eff /\
  (max_envelope_bytes eff = DEFAULT_MAX_ENVELOPE_BYTES \/
     MaxEnvelopeBytes (max_envelope_bytes eff) ∈ cl) /\
  DEFAULT_MAX_ENVELOPE_BYTES <= max_envelope_bytes eff /\
  (forall f, f ∈ features eff <-> Feature f ∈ cl /\ forall v, f <> UnknownFeature v) /\
  (forall t, t ∈ admin_for eff <-> AdminFor t ∈ cl) /\
  permits_region region eff = true.
Proof.
  intros Hres. cbv zeta.
  apply resolve_token_ok in Hres as (pk & cb & Hpk & Hag & Hexp & Hcb & Hsig & -> & Hreg).
  assert (forall m n, MaxEnvelopesPerMin m = MaxEnvelopesPerMin n -> m = n) as Hinj1 by congruence.
  assert (forall m n, MaxEnvelopeBytes m = MaxEnvelopeBytes n -> m = n) as Hinj2 by congruence.
  destruct (cap_fold max_envelopes_per_min MaxEnvelopesPerMin
    (cc_capabilities (ct_claims token)) default_profile) as (Hr1 & _ & Hr2); [|done|].
  { intros e c. rewrite apply_claim_rate. destruct c; naive_solver. }
  destruct (cap_fold max_envelope_bytes MaxEnvelopeBytes
    (cc_capabilities (ct_claims token)) default_profile) as (Hs1 & _ & Hs2); [|done|].
  { intros e c. rewrite apply_claim_size. destruct c; naive_solver. }
  split; [by eauto|]. split; [done|]. split; [done|]. split; [done|]. split; [done|].
  split; [done|]. split; [done|].
  split; [|split; [|done]]; intros x; unfold from_claims;
    [rewrite features_fold | rewrite admin_fold]; cbn; set_solver.
Qed.

(** Only the last [AllowedRegions] claim of a token
    counts: a region permitted by an earlier claim is denied. *)
Theorem last_region_claim_wins (pre post : list Capability) (earlier last : gset Region) (r : Region) :
  r ∈ earlier -> r ∉ last ->
  (forall s, AllowedRegions s ∉ post) ->
  permits_region r (from_claims (pre ++ AllowedRegions earlier :: AllowedRegions last :: post))
  = false.
Proof.
  intros _ Hr Hpost. unfold permits_region.
  assert (forall l eff, (forall s, AllowedRegions s ∉ l) ->
    allowed_regions (foldl apply_claim eff l) = allowed_regions eff) as Hkeep.
  { intros l. induction l as [|c l IH]; intros eff Hl; [done|]. cbn. rewrite IH by set_solver.
    rewrite apply_claim_regions. destruct c as [| | |s| | |]; try done.
    destruct (Hl s). by left. }
  unfold from_claims. rewrite foldl_app. cbn. rewrite Hkeep by done.
  rewrite apply_claim_regions. by apply bool_decide_eq_false_2.
Qed.

(** ** Framing *)

Lemma agent_sign_buffer_tagged c p : head (assemble_agent_sign_buffer c p) = Some 240.
Proof. done. Qed.

(** Two external-agent-sign buffers are equal
    only if context and payload are, so a signature made under one context never
    verifies under another; no such buffer is a raw relay-auth or
    profile-manifest signing input; and the hash inputs of agent ids and of user
    ids never coincide. *)
Theorem agent_sign_framing_injective (c c' : string) (p p' k k' m : bytes) :
  len (ascii_bytes c) <= u32_max -> len (ascii_bytes c') <= u32_max ->
  (assemble_agent_sign_buffer c p = assemble_agent_sign_buffer c' p' -> c = c' /\ p = p') /\
  assemble_agent_sign_buffer c p <> auth_signing_bytes m /\
  assemble_agent_sign_buffer c p <> SIGN_DOMAIN_PROFILE ++ m /\
  AGENT_ID_DOMAIN ++ k <> USER_ID_DOMAIN ++ k'.
Proof.
  intros Hc Hc'. split; [|repeat split; by intros [=]].
  unfold assemble_agent_sign_buffer.
  rewrite (proj2 (N.leb_le _ _) Hc), (proj2 (N.leb_le _ _) Hc').
  rewrite !(app_assoc AGENT_SIGN_MAGIC). intros Heq.
  apply (inj (app [AGENT_SIGN_NAMESPACE_TAG])) in Heq.
  rewrite <- !app_assoc in Heq. apply (inj (app AGENT_SIGN_MAGIC)) in Heq.
  apply app_inj_1 in Heq as [Hl Heq]; [|done].
  apply u32_be_inj in Hl; [|done|done]. unfold len in Hl.
  apply app_inj_1 in Heq as [Hctx ->]; [|lia].
  split; [by apply ascii_bytes_inj | done].
Qed.

(** ** Witnesses *)

#[local] Instance demo_sha : Sha256 := fun b => firstn 3 (rev b).
#[local] Instance demo_verifier : SignatureVerifier := fun pk _ sig => bool_decide (pk = sig).
#[local] Instance demo_codec : ClaimsCodec := fun _ => Ok [].

Definition demo_req : AuthVerifyRequest :=
  {| avr_agent_id := [3; 2; 1]; avr_agent_public_key := [1; 2; 3];
     avr_challenge := [7; 7]; avr_signature := [1; 2; 3] |}.
Definition demo_ops : list AuthOp :=
  [OpIssue [7; 7] 10; OpVerify demo_req "tok" 20; OpVerify demo_req "replay" 21].

Lemma bearer_proves_key_control_witness :
  exists st, (validate_bearer "tok" 30 (auth_run 60 100 demo_ops)).1 = Some st /\
    (30 < ats_expires_at st /\ proven 60 100 demo_ops "tok" st) /\
    (validate_bearer "replay" 30 (auth_run 60 100 demo_ops)).1 = None.
Proof.
  eexists. split; [vm_compute; reflexivity|]. split; [|by vm_compute].
  apply (bearer_proves_key_control 60 100 demo_ops "tok" 30). by vm_compute.
Defined.

Definition demo_keys : gmap string bytes := <["k"%string := [5]]> ∅.
Definition demo_token : CapabilityToken :=
  {| ct_claims := {| cc_agent_id := [9]; cc_tenant_id := None; cc_issued_at_ms := 0;
       cc_expires_at_ms := 50; cc_issuer_key_id := "k";
       cc_capabilities := [MaxEnvelopesPerMin 600; Feature (UnknownFeature 8); Feature Voice;
                           AllowedRegions {[Nyc]}] |};
     ct_signature := [5] |}.

Lemma capability_grants_only_signed_claims_witness :
  let eff := from_claims (cc_capabilities (ct_claims demo_token)) in
  resolve demo_keys (Some demo_token) [9] Nyc 40 = Ok eff /\
  max_envelopes_per_min eff = 600 /\ Voice ∈ features eff /\ permits_region Nyc eff = true.
Proof.
  cbv zeta.
  assert (resolve demo_keys (Some demo_token) [9] Nyc 40
    = Ok (from_claims (cc_capabilities (ct_claims demo_token)))) as Hres by by vm_compute.
  destruct (capability_grants_only_signed_claims demo_keys demo_token [9] Nyc 40 _ Hres)
    as (_ & _ & _ & _ & _ & _ & _ & Hf & _ & Hr).
  split; [exact Hres|]. split; [done|]. split; [|exact Hr]. apply Hf. split; [|done].
  simpl. right. right. left.
Defined.

Lemma last_region_claim_wins_witness :
  permits_region Nyc (from_claims [AllowedRegions {[Nyc]}; AllowedRegions {[Fra]}]) = false.
Proof.
  apply (last_region_claim_wins [] [] {[Nyc]} {[Fra]} Nyc); [set_solver | set_solver |].
  intros s. apply not_elem_of_nil.
Defined.

Lemma agent_sign_framing_injective_witness :
  assemble_agent_sign_buffer "ab" [1] <> assemble_agent_sign_buffer "a" [98; 1].
Proof.
  intros Heq. apply (agent_sign_framing_injective "ab" "a" [1] [98; 1] [] [] []) in Heq;
    [by destruct Heq | by vm_compute | by vm_compute].
Defined.
