(* ===== verification/Transit.v ===== *)
(** * The transit store

    Models the store seam [TransitStore] and its in-memory implementation
    [TransitBuffer] ([crates/fetchit-relay-server/src/transit.rs]).  The trait is
    a class of operations together with the laws its comments promise, so the
    relay's theorems are proved once against the class; the SQLite store is
    another instance (file TransitSqlite). *)
From S2P Require Import Prelude RelayProto.

(** ** The seam *)

Record StoredEntry := {
  se_id : N;
  se_envelope : TransitEnvelope;
  se_enqueued_at_ms : N;
}.

(** Not yet expired at [now]. *)
Definition se_alive (now ttl : N) (e : StoredEntry) : bool := now - se_enqueued_at_ms e <? ttl.

Class TransitStore (S : Type) := {
  t_enqueue : AgentId -> TransitEnvelope -> N -> S -> result N ServerError * S;
  t_read_all : AgentId -> S -> list StoredEntry;
  t_delete : AgentId -> list N -> S -> N * S;
  t_sweep_expired : N -> S -> N * S;
  t_len : S -> N;
  t_total_bytes : S -> N;
  (** Specification state: representation invariant, next id, lifetime. *)
  t_wf : S -> Prop;
  t_next : S -> N;
  t_ttl : S -> N;
}.

(** The frame a law keeps: still well formed, same lifetime. *)
Definition t_keeps {S} `{TransitStore S} (s s' : S) : Prop :=
  t_wf s' /\ t_ttl s' = t_ttl s.

Class TransitStoreLaws (S : Type) `{TransitStore S} := {
  (** Ids grow, are handed out once, and belong to one recipient. *)
  t_ids_sorted : forall s a, t_wf s ->
    StronglySorted N.lt (se_id <$> t_read_all a s) /\
    Forall (fun e => 0 < se_id e < t_next s) (t_read_all a s);
  t_enqueue_ok : forall s s' to e now id, t_wf s -> t_next s < i64_max -> now <= i64_max ->
    t_enqueue to e now s = (Ok id, s') ->
    t_keeps s s' /\ id = t_next s /\ t_next s' = t_next s + 1 /\
    forall a, t_read_all a s' = t_read_all a s ++
      (if decide (a = to) then [Build_StoredEntry id e now] else []);
  t_enqueue_err : forall s s' to e now er, t_wf s ->
    t_enqueue to e now s = (Err er, s') ->
    t_keeps s s' /\ t_next s' = t_next s /\ forall a, t_read_all a s' = t_read_all a s;
  t_delete_spec : forall s s' to ids n, t_wf s ->
    t_delete to ids s = (n, s') ->
    t_keeps s s' /\ t_next s' = t_next s /\
    n = len (t_read_all to s) - len (t_read_all to s') /\
    forall a, t_read_all a s' =
      if decide (a = to)
      then List.filter (fun e => negb (bool_decide (se_id e ∈ ids))) (t_read_all a s)
      else t_read_all a s;
  t_sweep_spec : forall s s' now n, t_wf s -> 0 < t_ttl s <= now -> now <= i64_max ->
    t_sweep_expired now s = (n, s') ->
    t_keeps s s' /\ t_next s' = t_next s /\
    forall a, t_read_all a s' = List.filter (se_alive now (t_ttl s)) (t_read_all a s);
}.

(** ** The in-memory store *)

Definition ENVELOPE_FIXED_OVERHEAD : N := 128.

Definition envelope_size (env : TransitEnvelope) : N :=
  let add := saturating_add usize_max in
  add (add (add (add ENVELOPE_FIXED_OVERHEAD (len (e_ciphertext env))) (len (e_nonce env)))
    (len (e_kem_ciphertext env))) (len (e_sender_signature env)).

Record Entry := { en_envelope : TransitEnvelope; en_enqueued_at_ms : N }.

Record TransitBuffer := mkBuf {
  by_recipient : gmap AgentId (list (N * Entry));
  tb_ttl_ms : N;
  tb_cap_per_recipient : N;
  tb_max_total_bytes : N;
  tb_total_bytes : N;
  tb_next_id : N;
}.

Definition buf_new (ttl_ms cap_per_recipient max_total_bytes : N) : TransitBuffer :=
  mkBuf ∅ ttl_ms cap_per_recipient max_total_bytes 0 1.

Definition set_queues (m : gmap AgentId (list (N * Entry))) (b : TransitBuffer) : TransitBuffer :=
  mkBuf m (tb_ttl_ms b) (tb_cap_per_recipient b) (tb_max_total_bytes b) (tb_total_bytes b)
    (tb_next_id b).
Definition set_total (n : N) (b : TransitBuffer) : TransitBuffer :=
  mkBuf (by_recipient b) (tb_ttl_ms b) (tb_cap_per_recipient b) (tb_max_total_bytes b) n
    (tb_next_id b).
Definition set_next (n : N) (b : TransitBuffer) : TransitBuffer :=
  mkBuf (by_recipient b) (tb_ttl_ms b) (tb_cap_per_recipient b) (tb_max_total_bytes b)
    (tb_total_bytes b) n.

(** The compare-exchange loop, which retries until it wins or the cap is hit. *)
Definition reserve_bytes (size : N) (b : TransitBuffer) : result TransitBuffer ServerError :=
  let next := saturating_add usize_max (tb_total_bytes b) size in
  if tb_max_total_bytes b <? next then Err TransitBufferFull else Ok (set_total next b).

(** [total_bytes.fetch_sub(n)]. *)
Definition release_bytes (n : N) (b : TransitBuffer) : TransitBuffer :=
  set_total (wrapping_sub usize_max (tb_total_bytes b) n) b.

(** The part of [enqueue] under the recipient's entry guard. *)
Definition push_entry (to : AgentId) (envelope : TransitEnvelope) (now_ms : N) (b : TransitBuffer)
    : result N ServerError * TransitBuffer :=
  let q := default [] (by_recipient b !! to) in
  if tb_cap_per_recipient b <=? len q then
    (Err TransitBufferFull,
     release_bytes (envelope_size envelope) (set_queues (<[to := q]> (by_recipient b)) b))
  else
    let id := tb_next_id b in
    let b := set_next (wrapping_add u64_max id 1) b in
    (Ok id, set_queues (<[to := q ++ [(id, Build_Entry envelope now_ms)]]> (by_recipient b)) b).

Definition buf_enqueue (to : AgentId) (envelope : TransitEnvelope) (now_ms : N)
    (b : TransitBuffer) : result N ServerError * TransitBuffer :=
  match reserve_bytes (envelope_size envelope) b with
  | Err e => (Err e, b)
  | Ok b => push_entry to envelope now_ms b
  end.

Definition to_stored (item : N * Entry) : StoredEntry :=
  {| se_id := item.1; se_envelope := en_envelope item.2;
     se_enqueued_at_ms := en_enqueued_at_ms item.2 |}.

Definition buf_read_all (to : AgentId) (b : TransitBuffer) : list StoredEntry :=
  match by_recipient b !! to with
  | Some q => to_stored <$> q
  | None => []
  end.

Definition item_size (item : N * Entry) : N := envelope_size (en_envelope item.2).

(** [freed] accumulates with [saturating_add]. *)
Definition saturating_sum (l : list N) : N := foldl (saturating_add usize_max) 0 l.

(** [q.retain(keep)] and the bytes it freed. *)
Definition retain_queue (keep : N * Entry -> bool) (q : list (N * Entry)) : list (N * Entry) * N :=
  (List.filter keep q,
   saturating_sum (item_size <$> List.filter (fun i => negb (keep i)) q)).

(** The part of [delete] under the recipient's guard: what is left and freed. *)
Definition buf_delete (to : AgentId) (ids : list N) (b : TransitBuffer) : N * TransitBuffer :=
  match by_recipient b !! to with
  | None => (0, b)
  | Some q =>
      let '(q', freed) := retain_queue (fun i => negb (bool_decide (i.1 ∈ ids))) q in
      (len q -| len q', release_bytes freed (set_queues (<[to := q']> (by_recipient b)) b))
  end.

Definition item_alive (now ttl : N) (i : N * Entry) : bool :=
  now -| en_enqueued_at_ms i.2 <? ttl.

(** [by_recipient.retain]: each queue keeps its live entries, an emptied one
    leaves the map. *)
Definition sweep_queue (now ttl : N) (q : list (N * Entry)) : option (list (N * Entry)) :=
  match List.filter (item_alive now ttl) q with
  | [] => None
  | q' => Some q'
  end.

Definition buf_sweep_expired `{!HashIter AgentId (list (N * Entry))} (now : N) (b : TransitBuffer)
    : N * TransitBuffer :=
  let dead := List.filter (fun i => negb (item_alive now (tb_ttl_ms b) i)) in
  let swept := hm_values (by_recipient b) in
  let evicted := saturating_sum ((fun q => len (dead q)) <$> swept) in
  let freed := saturating_sum (item_size <$> dead (List.concat swept)) in
  (evicted,
   release_bytes freed (set_queues (omap (sweep_queue now (tb_ttl_ms b)) (by_recipient b)) b)).

Definition buf_len `{!HashIter AgentId (list (N * Entry))} (b : TransitBuffer) : N :=
  sum_by len (hm_values (by_recipient b)).

(** ** Its representation invariant *)

Definition queue_bytes (q : list (N * Entry)) : N := sum_by item_size q.
Definition stored_bytes (b : TransitBuffer) : N := msum queue_bytes (by_recipient b).

(** Queues are in id order, below the next id. *)
Record queues_wf (b : TransitBuffer) : Prop := {
  qw_sorted : forall a q, by_recipient b !! a = Some q ->
    StronglySorted N.lt q.*1 /\ Forall (fun i => 0 < i.1 < tb_next_id b) q;
  qw_next : 0 < tb_next_id b <= i64_max;
  qw_cap : tb_max_total_bytes b < usize_max;
}.

(** With nothing in progress the counter is exactly what is stored. *)
Record buf_wf (b : TransitBuffer) : Prop := {
  bw_queues : queues_wf b;
  bw_bytes : tb_total_bytes b = stored_bytes b;
  bw_bound : tb_total_bytes b <= tb_max_total_bytes b;
}.

Lemma saturating_sum_min l : saturating_sum l = N.min usize_max (sum_by id l).
Proof. unfold saturating_sum. by rewrite foldl_saturating by lia. Qed.

Lemma saturating_sum_sizes (q : list (N * Entry)) :
  queue_bytes q <= usize_max -> saturating_sum (item_size <$> q) = queue_bytes q.
Proof. 
  intros Hq. rewrite saturating_sum_min, sum_by_fmap.
  change (sum_by (fun x => id (item_size x)) q) with (queue_bytes q). lia.
Qed.

(** *** Preservation of the queue invariant *)

Lemma queues_wf_retain (b : TransitBuffer) (a : AgentId) (q : list (N * Entry))
    (keep : N * Entry -> bool) :
  queues_wf b -> by_recipient b !! a = Some q ->
  queues_wf (set_queues (<[a := List.filter keep q]> (by_recipient b)) b).
Proof.
  intros [Hs Hn Hc] Hq. constructor; cbn; try done. intros a' q'.
  rewrite lookup_insert_Some. intros [[<- <-]|[_ Hq']]; [|by apply (Hs a')].
  destruct (Hs a q Hq) as [Hsq Hall]. split; [by apply StronglySorted_filter_keys|].
  rewrite Forall_forall in Hall |- *. intros i [_ Hi]%elem_of_list_filter_bool. by apply Hall.
Qed.

Lemma queues_wf_total n (b : TransitBuffer) : queues_wf b -> queues_wf (set_total n b).
Proof. intros [? ? ?]. by constructor. Qed.

Lemma queues_wf_push (b : TransitBuffer) (to : AgentId) e now :
  queues_wf b -> tb_next_id b < i64_max ->
  let q := default [] (by_recipient b !! to) in
  queues_wf (set_queues (<[to := q ++ [(tb_next_id b, Build_Entry e now)]]> (by_recipient b))
    (set_next (tb_next_id b + 1) b)).
Proof.
  intros [Hs Hn Hc] Hlt q. constructor; cbn; try done; [|lia].
  assert (StronglySorted N.lt q.*1 /\ Forall (fun i => 0 < i.1 < tb_next_id b) q) as [Hsq Hall].
  { unfold q. destruct (by_recipient b !! to) as [q0|] eqn:Hq0; [by apply (Hs to)|]. by repeat constructor. }
  intros a q'. rewrite lookup_insert_Some. intros [[<- <-]|[_ Hq']].
  - split.
    + rewrite fmap_app. apply StronglySorted_snoc_lt; [done|]. apply Forall_fmap.
      eapply Forall_impl; [done|]. cbn. lia.
    + apply Forall_app. split; [|repeat constructor; cbn; lia].
      eapply Forall_impl; [done|]. cbn. lia.
  - destruct (Hs a q' Hq') as [Hsq' Hall']. split; [done|].
    eapply Forall_impl; [done|]. cbn. lia.
Qed.

Lemma queues_wf_sweep now (b : TransitBuffer) :
  queues_wf b -> queues_wf (set_queues (omap (sweep_queue now (tb_ttl_ms b)) (by_recipient b)) b).
Proof.
  intros [Hs Hn Hc]. constructor; cbn; try done. intros a q'.
  rewrite lookup_omap. intros (q & Hq & Hsw)%bind_Some. destruct (Hs a q Hq) as [Hsq Hall].
  unfold sweep_queue in Hsw. destruct (List.filter _ q) as [|i l] eqn:Hf; [done|].
  simplify_eq. rewrite <- Hf. split; [by apply StronglySorted_filter_keys|].
  rewrite Forall_forall in Hall |- *. intros j [_ Hj]%elem_of_list_filter_bool. by apply Hall.
Qed.

(** *** Byte accounting of each mutation *)

Lemma queue_bytes_retain keep q :
  queue_bytes q = queue_bytes (List.filter keep q) +
                  queue_bytes (List.filter (fun i => negb (keep i)) q).
Proof. apply sum_by_filter_split. Qed.

Lemma stored_bytes_retain (b : TransitBuffer) a q keep :
  by_recipient b !! a = Some q ->
  stored_bytes (set_queues (<[a := List.filter keep q]> (by_recipient b)) b) +
    queue_bytes (List.filter (fun i => negb (keep i)) q) = stored_bytes b.
Proof.
  intros Hq. unfold stored_bytes. cbn.
  pose proof (msum_insert queue_bytes (by_recipient b) a q (List.filter keep q) Hq).
  pose proof (queue_bytes_retain keep q). lia.
Qed.

Lemma stored_bytes_set (b : TransitBuffer) a q' :
  stored_bytes (set_queues (<[a := q']> (by_recipient b)) b) +
    queue_bytes (default [] (by_recipient b !! a)) = stored_bytes b + queue_bytes q'.
Proof.
  unfold stored_bytes. cbn. destruct (by_recipient b !! a) as [q|] eqn:Hq; cbn.
  - by apply msum_insert.
  - rewrite msum_insert_fresh by done. unfold queue_bytes. simpl. lia.
Qed.

Lemma stored_bytes_sweep `{!HashIter AgentId (list (N * Entry))} now (b : TransitBuffer) :
  let dead := List.filter (fun i => negb (item_alive now (tb_ttl_ms b) i)) in
  stored_bytes (set_queues (omap (sweep_queue now (tb_ttl_ms b)) (by_recipient b)) b) +
    queue_bytes (dead (List.concat (hm_values (by_recipient b)))) = stored_bytes b.
Proof.
  intros dead. unfold stored_bytes at 1. cbn. unfold msum. rewrite msum_omap.
  rewrite (msum_ext _ (fun q => queue_bytes (List.filter (item_alive now (tb_ttl_ms b)) q))).
  2: { intros k q _. unfold sweep_queue. by destruct (List.filter _ q). }
  unfold dead, queue_bytes at 2. rewrite filter_concat, sum_by_concat, sum_by_fmap.
  rewrite <- msum_hm_values.
  unfold stored_bytes. symmetry. apply msum_add. intros q. apply queue_bytes_retain.
Qed.

Lemma queue_le_stored b a q : by_recipient b !! a = Some q -> queue_bytes q <= stored_bytes b.
Proof. intros Hq. by apply (msum_le_lookup queue_bytes _ a). Qed.

Lemma release_bytes_total n b :
  n <= tb_total_bytes b -> tb_total_bytes b <= usize_max ->
  release_bytes n b = set_total (tb_total_bytes b - n) b.
Proof. intros Hn Hb. unfold release_bytes. by rewrite wrapping_sub_small. Qed.

Lemma reserve_bytes_spec size b :
  tb_max_total_bytes b < usize_max ->
  reserve_bytes size b =
  if tb_max_total_bytes b <? tb_total_bytes b + size then Err TransitBufferFull
  else Ok (set_total (tb_total_bytes b + size) b).
Proof.
  intros Hc. unfold reserve_bytes, saturating_add.
  destruct (N.ltb_spec (tb_max_total_bytes b) (tb_total_bytes b + size)) as [Hlt|Hle];
    destruct (N.ltb_spec (tb_max_total_bytes b) (N.min usize_max (tb_total_bytes b + size)));
    try done; try lia.
  by rewrite N.min_r by lia.
Qed.

Lemma buf_wf_new ttl cap max : max < usize_max -> buf_wf (buf_new ttl cap max).
Proof.
  intros Hm. constructor; [constructor|..]; cbn; try done; try lia.
Qed.

(** *** The operations meet the seam's laws *)

Section ram_store.
Context `{HQ : !HashIter AgentId (list (N * Entry))}.

#[export] Instance ram_transit : TransitStore TransitBuffer := {
  t_enqueue := buf_enqueue;
  t_read_all := buf_read_all;
  t_delete := buf_delete;
  t_sweep_expired := buf_sweep_expired;
  t_len := buf_len;
  t_total_bytes := tb_total_bytes;
  t_wf := buf_wf;
  t_next := tb_next_id;
  t_ttl := tb_ttl_ms;
}.

Lemma read_all_set a to q b b' :
  buf_read_all a (set_queues (<[to := q]> (by_recipient b)) b') =
  if decide (a = to) then to_stored <$> q else buf_read_all a b.
Proof.
  unfold buf_read_all. cbn. destruct (decide (a = to)) as [->|Hne].
  - by rewrite lookup_insert_eq.
  - by rewrite lookup_insert_ne.
Qed.

Lemma read_all_default a b : buf_read_all a b = to_stored <$> default [] (by_recipient b !! a).
Proof. unfold buf_read_all. by destruct (by_recipient b !! a). Qed.

Lemma buf_ids_sorted s a :
  buf_wf s -> StronglySorted N.lt (se_id <$> buf_read_all a s) /\
    Forall (fun e => 0 < se_id e < tb_next_id s) (buf_read_all a s).
Proof.
  intros [[Hs _ _] _ _]. unfold buf_read_all.
  destruct (by_recipient s !! a) as [q|] eqn:Hq; [|by repeat constructor].
  destruct (Hs a q Hq) as [Hsq Hall]. rewrite <- list_fmap_compose. split; [done|].
  by apply Forall_fmap.
Qed.

Lemma buf_enqueue_cases to e now b :
  buf_wf b ->
  let q := default [] (by_recipient b !! to) in
  let size := envelope_size e in
  buf_enqueue to e now b =
  if tb_max_total_bytes b <? tb_total_bytes b + size then (Err TransitBufferFull, b)
  else if tb_cap_per_recipient b <=? len q
       then (Err TransitBufferFull, set_queues (<[to := q]> (by_recipient b)) b)
       else (Ok (tb_next_id b),
             set_queues (<[to := q ++ [(tb_next_id b, Build_Entry e now)]]> (by_recipient b))
               (set_next (tb_next_id b + 1) (set_total (tb_total_bytes b + size) b))).
Proof.
  intros Hwf q size. destruct Hwf as [[Hs Hn Hc] Hb Hle]. unfold buf_enqueue.
  rewrite reserve_bytes_spec by done. fold size.
  destruct (N.ltb_spec (tb_max_total_bytes b) (tb_total_bytes b + size)) as [|Hlt]; [done|].
  unfold push_entry. cbn. fold q. destruct (tb_cap_per_recipient b <=? len q).
  - rewrite release_bytes_total by (cbn; fold size; lia). cbn. fold size.
    rewrite N.add_sub. by destruct b.
  - unfold wrapping_add. rewrite N.mod_small by (unfold i64_max, u64_max in *; lia). done.
Qed.

Lemma buf_wf_keep_queue to b :
  buf_wf b -> buf_wf (set_queues (<[to := default [] (by_recipient b !! to)]> (by_recipient b)) b).
Proof.
  intros [Hq Hb Hle]. destruct (by_recipient b !! to) as [q|] eqn:Hlk; cbn.
  - rewrite insert_id by done. destruct b. by constructor.
  - pose proof (stored_bytes_set b to []) as Hst. rewrite Hlk in Hst. cbn in Hst.
    constructor; cbn; [|lia|done].
    destruct Hq as [Hs Hn Hc]. constructor; cbn; try done. intros a q'.
    rewrite lookup_insert_Some. intros [[<- <-]|[_ Hq']]; [by repeat constructor | by apply (Hs a)].
Qed.

Lemma buf_law_enqueue_ok s s' to e now id :
  buf_wf s -> tb_next_id s < i64_max -> buf_enqueue to e now s = (Ok id, s') ->
  buf_wf s' /\ tb_ttl_ms s' = tb_ttl_ms s /\ id = tb_next_id s /\ tb_next_id s' = tb_next_id s + 1 /\
  forall a, buf_read_all a s' = buf_read_all a s ++
    (if decide (a = to) then [Build_StoredEntry id e now] else []).
Proof.
  intros Hwf Hn. rewrite buf_enqueue_cases by done. cbv zeta.
  destruct (N.ltb_spec (tb_max_total_bytes s) (tb_total_bytes s + envelope_size e)); [done|].
  case_match; [done|]. intros [= <- <-]. destruct Hwf as [Hq Hb Hle].
  split; [constructor; cbn|].
  - apply (queues_wf_push (set_total (tb_total_bytes s + envelope_size e) s) to e now);
      [by apply queues_wf_total | done].
  - pose proof (stored_bytes_set s to (default [] (by_recipient s !! to) ++
      [(tb_next_id s, Build_Entry e now)])) as Hst.
    unfold stored_bytes in *. cbn in *. unfold queue_bytes in *. rewrite sum_by_app in Hst.
    cbn in Hst. unfold item_size in *. cbn in Hst. lia.
  - lia.
  - repeat split. intros a.
    rewrite read_all_set. case_decide; subst.
    + rewrite fmap_app, read_all_default. done.
    + by rewrite app_nil_r.
Qed.

Lemma buf_law_enqueue_err s s' to e now er :
  buf_wf s -> buf_enqueue to e now s = (Err er, s') ->
  buf_wf s' /\ tb_ttl_ms s' = tb_ttl_ms s /\ tb_next_id s' = tb_next_id s /\
  forall a, buf_read_all a s' = buf_read_all a s.
Proof.
  intros Hwf. rewrite buf_enqueue_cases by done. cbv zeta.
  case_match; [by intros [= _ <-]|]. case_match; [|done]. intros [= _ <-].
  split; [by apply buf_wf_keep_queue|]. split; [done|]. split; [done|]. intros a.
  rewrite read_all_set. case_decide; [|done]. subst. by rewrite read_all_default.
Qed.

(** Entries leave: what a [retain] removes is released from the counter. *)
Lemma buf_wf_retain b a q keep :
  buf_wf b -> by_recipient b !! a = Some q ->
  let '(q', freed) := retain_queue keep q in
  buf_wf (release_bytes freed (set_queues (<[a := q']> (by_recipient b)) b)) /\
  tb_total_bytes (release_bytes freed (set_queues (<[a := q']> (by_recipient b)) b)) + freed
    = tb_total_bytes b.
Proof.
  intros [Hq Hb Hle] Hlk. unfold retain_queue.
  pose proof (stored_bytes_retain b a q keep Hlk) as Hst.
  pose proof (qw_cap _ Hq) as Hc.
  rewrite saturating_sum_sizes by lia. rewrite release_bytes_total by (cbn; lia). cbn.
  split; [|lia]. constructor; cbn; [|unfold stored_bytes in *; cbn in *; lia|lia].
  by apply queues_wf_total, queues_wf_retain.
Qed.

Lemma filter_to_stored (P : StoredEntry -> bool) (Q : N * Entry -> bool) q :
  (forall i, P (to_stored i) = Q i) ->
  to_stored <$> List.filter Q q = List.filter P (to_stored <$> q).
Proof.
  intros HPQ. induction q as [|i q IH]; [done|]. cbn. rewrite HPQ.
  destruct (Q i); cbn; by rewrite IH.
Qed.

Lemma buf_law_delete s s' to ids n :
  buf_wf s -> buf_delete to ids s = (n, s') ->
  (buf_wf s' /\ tb_ttl_ms s' = tb_ttl_ms s) /\ tb_next_id s' = tb_next_id s /\
  n = len (buf_read_all to s) - len (buf_read_all to s') /\
  forall a, buf_read_all a s' =
    if decide (a = to)
    then List.filter (fun e => negb (bool_decide (se_id e ∈ ids))) (buf_read_all a s)
    else buf_read_all a s.
Proof.
  intros Hwf. unfold buf_delete. destruct (by_recipient s !! to) as [q|] eqn:Hq; cycle 1.
  { intros [= <- <-]. split; [done|]. split; [done|]. split; [lia|]. intros a.
    case_decide; [subst; by rewrite read_all_default, Hq | done]. }
  pose proof (buf_wf_retain s to q (fun i => negb (bool_decide (i.1 ∈ ids))) Hwf Hq) as Hr.
  unfold retain_queue in *. destruct Hr as [Hwf' _]. intros [= <- <-].
  split; [done|]. split; [done|].
  set (keep := fun i : N * Entry => negb (bool_decide (i.1 ∈ ids))) in *.
  assert (forall a, buf_read_all a (set_queues (<[to := List.filter keep q]> (by_recipient s)) s) =
    if decide (a = to)
    then List.filter (fun e => negb (bool_decide (se_id e ∈ ids))) (buf_read_all a s)
    else buf_read_all a s) as Hread.
  { intros a. rewrite read_all_set. case_decide; [|done]. subst.
    rewrite read_all_default, Hq. by apply filter_to_stored. }
  split; [|exact Hread].
  change (buf_read_all to (release_bytes _ ?x)) with (buf_read_all to x).
  rewrite read_all_set, decide_True by done. rewrite read_all_default, Hq.
  unfold len, saturating_sub. cbn. by rewrite !length_fmap.
Qed.

Lemma buf_law_sweep s s' now n :
  buf_wf s -> buf_sweep_expired now s = (n, s') ->
  (buf_wf s' /\ tb_ttl_ms s' = tb_ttl_ms s) /\ tb_next_id s' = tb_next_id s /\
  forall a, buf_read_all a s' = List.filter (se_alive now (tb_ttl_ms s)) (buf_read_all a s).
Proof.
  intros [Hq Hb Hle]. unfold buf_sweep_expired. cbv zeta. intros [= <- <-].
  pose proof (stored_bytes_sweep now s) as Hst. cbv zeta in Hst.
  pose proof (qw_cap _ Hq) as Hc.
  rewrite saturating_sum_sizes by lia. rewrite release_bytes_total by (cbn; lia). cbn.
  split; [split; [|done]; constructor; cbn|split; [done|]].
  - by apply queues_wf_total, queues_wf_sweep.
  - unfold stored_bytes in *. cbn in *. lia.
  - lia.
  - intros a. unfold buf_read_all. cbn. rewrite lookup_omap.
    destruct (by_recipient s !! a) as [q|]; [|done]. cbn.
    rewrite <- (filter_to_stored _ (item_alive now (tb_ttl_ms s))) by done.
    unfold sweep_queue. by destruct (List.filter _ q).
Qed.

#[export] Instance ram_transit_laws : TransitStoreLaws TransitBuffer.
Proof.
  constructor; cbn; unfold t_keeps; cbn.
  - exact buf_ids_sorted.
  - intros s s' to e now id Hwf Hn _ He.
    destruct (buf_law_enqueue_ok s s' to e now id Hwf Hn He) as (? & ? & ? & ? & ?). auto.
  - intros s s' to e now er Hwf He.
    destruct (buf_law_enqueue_err s s' to e now er Hwf He) as (? & ? & ? & ?). auto.
  - exact buf_law_delete.
  - intros s s' now n Hwf _ _ He. by eapply buf_law_sweep.
Qed.

End ram_store.

(** ** What every transit store guarantees its clients *)

Inductive TransitOp :=
| TEnqueue (to : AgentId) (e : TransitEnvelope) (now : N)
| TDelete (to : AgentId) (ids : list N)
| TSweep (now : N).

Section clients.
Context {S : Type} `{TransitStoreLaws S}.

Definition transit_step (s : S) (op : TransitOp) : S :=
  match op with
  | TEnqueue to e now => (t_enqueue to e now s).2
  | TDelete to ids => (t_delete to ids s).2
  | TSweep now => (t_sweep_expired now s).2
  end.

(** An operation that neither acknowledges [x] on behalf of [to] nor runs the
    expiry sweep after its lifetime. *)
Definition spares (to : AgentId) (x : StoredEntry) (ttl : N) (op : TransitOp) : Prop :=
  match op with
  | TEnqueue _ _ now => now <= i64_max
  | TDelete a ids => a = to -> se_id x ∉ ids
  | TSweep now => 0 < ttl <= now /\ now <= i64_max /\ se_alive now ttl x = true
  end.

Lemma transit_step_spares s op to x :
  t_wf s -> t_next s < i64_max -> spares to x (t_ttl s) op -> x ∈ t_read_all to s ->
  t_keeps s (transit_step s op) /\ t_next (transit_step s op) <= t_next s + 1 /\
  x ∈ t_read_all to (transit_step s op).
Proof.
  intros Hwf Hn Hsp Hx. destruct op as [a e now|a ids|now]; cbn in *.
  - destruct (t_enqueue a e now s) as [[id|er] s'] eqn:He; cbn.
    + apply t_enqueue_ok in He as (Hk & -> & Hnx & Hr); [|done..].
      split; [done|]. split; [lia|]. rewrite Hr. apply elem_of_app. by left.
    + apply t_enqueue_err in He as (Hk & Hnx & Hr); [|done].
      split; [done|]. split; [lia|]. by rewrite Hr.
  - destruct (t_delete a ids s) as [n s'] eqn:He; cbn.
    apply t_delete_spec in He as (Hk & Hnx & _ & Hr); [|done].
    split; [done|]. split; [lia|]. rewrite Hr. case_decide; [|done].
    apply elem_of_list_filter_bool. split; [|done].
    rewrite bool_decide_eq_false_2 by (by apply Hsp). done.
  - destruct Hsp as (Ht & Hnow & Hal). destruct (t_sweep_expired now s) as [n s'] eqn:He; cbn.
    apply t_sweep_spec in He as (Hk & Hnx & Hr); [|done..].
    split; [done|]. split; [lia|]. rewrite Hr. by apply elem_of_list_filter_bool.
Qed.

Lemma transit_run_spares ops s to x :
  t_wf s -> t_next s + len ops <= i64_max -> Forall (spares to x (t_ttl s)) ops ->
  x ∈ t_read_all to s -> x ∈ t_read_all to (foldl transit_step s ops).
Proof.
  revert s. induction ops as [|op ops IH]; intros s Hwf Hn Hall Hx; [done|].
  apply Forall_cons in Hall as [Hop Hall]. unfold len in *. cbn [length] in Hn.
  destruct (transit_step_spares s op to x) as ([Hwf' Ht] & Hnx & Hx'); [done|lia|done|done|].
  cbn. apply IH; [done|lia|by rewrite Ht|done].
Qed.

(** In any store that meets the seam's laws, an
    envelope that was accepted stays readable by its recipient through any
    operations whatsoever, other recipients' acknowledgements included, until
    the recipient acknowledges its id or it expires. *)
Theorem transit_entry_survives (s s' : S) (to : AgentId) (e : TransitEnvelope) (now id : N)
    (ops : list TransitOp) :
  t_wf s -> t_next s + 1 + len ops <= i64_max -> now <= i64_max ->
  t_enqueue to e now s = (Ok id, s') ->
  Forall (spares to (Build_StoredEntry id e now) (t_ttl s)) ops ->
  Build_StoredEntry id e now ∈ t_read_all to (foldl transit_step s' ops).
Proof.
  intros Hwf Hn Hnow He Hall.
  apply t_enqueue_ok in He as ([Hwf' Ht] & -> & Hnx & Hr); [|done|lia|done].
  apply transit_run_spares; [done|lia|by rewrite Ht|].
  rewrite Hr, decide_True by done. apply elem_of_app. right. by left.
Qed.

End clients.

Definition demo_envelope : TransitEnvelope :=
  Build_TransitEnvelope 3 Dm None None [1] [1] 0 0 [5; 6] [] [] [].

Lemma transit_entry_survives_witness :
  Build_StoredEntry 1 demo_envelope 100 ∈ t_read_all [2]
    (foldl transit_step (t_enqueue [2] demo_envelope 100 (buf_new 50 4 1000)).2
       [TDelete [3] [1]; TEnqueue [2] demo_envelope 101; TSweep 140; TDelete [2] [2]]).
Proof.
  eapply (transit_entry_survives (buf_new 50 4 1000)).
  - apply buf_wf_new. by vm_compute.
  - by vm_compute.
  - by vm_compute.
  - by vm_compute.
  - repeat constructor; try by vm_compute. intros _. cbn. set_solver.
Defined.

(** ** Interleavings

    Every operation of the in-memory store is a few atomic actions on shared
    state: the byte counter and the next id are atomics, and each recipient's
    queue is guarded by its map entry.  [ts_reserved] are the envelopes whose
    bytes an [enqueue] has reserved but not yet pushed, [ts_freeing] the byte
    counts a [delete] or sweep has removed from the queues but not yet
    subtracted. *)
Record TransitSys := mkTS {
  ts_buf : TransitBuffer;
  ts_reserved : list (AgentId * TransitEnvelope);
  ts_freeing : list N;
}.

Inductive transit_sys_step : TransitSys -> TransitSys -> Prop :=
| ts_reserve to e b b' r f :
    reserve_bytes (envelope_size e) b = Ok b' ->
    transit_sys_step (mkTS b r f) (mkTS b' ((to, e) :: r) f)
| ts_push to e now res b b' r1 r2 f :
    tb_next_id b < i64_max ->
    push_entry to e now b = (res, b') ->
    transit_sys_step (mkTS b (r1 ++ (to, e) :: r2) f) (mkTS b' (r1 ++ r2) f)
| ts_delete_retain to (ids : list N) q b r f :
    by_recipient b !! to = Some q ->
    transit_sys_step (mkTS b r f)
      (let '(q', freed) := retain_queue (fun i => negb (bool_decide (i.1 ∈ ids))) q in
       mkTS (set_queues (<[to := q']> (by_recipient b)) b) r (freed :: f))
| ts_sweep_begin b r f :
    transit_sys_step (mkTS b r f) (mkTS b r (0 :: f))
| ts_sweep_one to now q acc b r f1 f2 :
    by_recipient b !! to = Some q ->
    transit_sys_step (mkTS b r (f1 ++ acc :: f2))
      (let freed := saturating_sum (item_size <$>
         List.filter (fun i => negb (item_alive now (tb_ttl_ms b) i)) q) in
       mkTS (set_queues (partial_alter (fun _ => sweep_queue now (tb_ttl_ms b) q) to
                           (by_recipient b)) b) r
         (f1 ++ saturating_add usize_max acc freed :: f2))
| ts_release n b r f1 f2 :
    transit_sys_step (mkTS b r (f1 ++ n :: f2)) (mkTS (release_bytes n b) r (f1 ++ f2)).

(** The counter is what is stored plus what is reserved or not yet released. *)
Record transit_sys_inv (y : TransitSys) : Prop := {
  tsi_queues : queues_wf (ts_buf y);
  tsi_bytes : tb_total_bytes (ts_buf y) = stored_bytes (ts_buf y) +
    sum_by (fun x => envelope_size x.2) (ts_reserved y) + sum_by id (ts_freeing y);
  tsi_bound : tb_total_bytes (ts_buf y) <= tb_max_total_bytes (ts_buf y);
}.

Lemma sum_by_middle {A} (f : A -> N) l1 x l2 :
  sum_by f (l1 ++ x :: l2) = f x + sum_by f (l1 ++ l2).
Proof. rewrite !sum_by_app. simpl. lia. Qed.

Lemma sum_by_id_middle l1 (x : N) l2 : sum_by id (l1 ++ x :: l2) = x + sum_by id (l1 ++ l2).
Proof. apply sum_by_middle. Qed.

Lemma sum_by_id_cons (x : N) l : sum_by id (x :: l) = x + sum_by id l.
Proof. done. Qed.

Lemma push_entry_inv to e now b r1 r2 f :
  tb_next_id b < i64_max ->
  transit_sys_inv (mkTS b (r1 ++ (to, e) :: r2) f) ->
  transit_sys_inv (mkTS (push_entry to e now b).2 (r1 ++ r2) f).
Proof.
  intros Hn [Hq Hb Hle]. cbn in *. pose proof (qw_cap _ Hq) as Hc.
  rewrite sum_by_middle in Hb. cbn in Hb. unfold push_entry.
  pose proof (stored_bytes_set b to) as Hst. destruct (tb_cap_per_recipient b <=? len _).
  - specialize (Hst (default [] (by_recipient b !! to))).
    rewrite release_bytes_total by (cbn; lia). cbn.
    constructor; cbn; [|unfold stored_bytes in *; cbn in *; lia|lia].
    apply queues_wf_total. destruct Hq as [Hs Hn' Hc']. constructor; cbn; try done.
    intros a q'. rewrite lookup_insert_Some. intros [[<- <-]|[_ Hq']]; [|by apply (Hs a)].
    destruct (by_recipient b !! to) as [q|] eqn:Hlk; [by apply (Hs to) | by repeat constructor].
  - specialize (Hst (default [] (by_recipient b !! to) ++ [(tb_next_id b, Build_Entry e now)])).
    unfold wrapping_add. rewrite N.mod_small by (unfold i64_max, u64_max in *; lia). cbn.
    constructor; cbn; [by apply queues_wf_push | |done].
    unfold stored_bytes, queue_bytes in *. cbn in *. rewrite sum_by_app in Hst.
    cbn in Hst. unfold item_size in *. cbn in Hst. lia.
Qed.

Lemma sweep_one_inv to now q acc b r f1 f2 :
  by_recipient b !! to = Some q ->
  transit_sys_inv (mkTS b r (f1 ++ acc :: f2)) ->
  transit_sys_inv (mkTS (set_queues (partial_alter (fun _ => sweep_queue now (tb_ttl_ms b) q) to
                           (by_recipient b)) b) r
    (f1 ++ saturating_add usize_max acc (saturating_sum (item_size <$>
       List.filter (fun i => negb (item_alive now (tb_ttl_ms b) i)) q)) :: f2)).
Proof.
  intros Hlk [Hq Hb Hle]. cbn in *. pose proof (qw_cap _ Hq) as Hc.
  rewrite sum_by_id_middle in Hb.
  pose proof (queue_bytes_retain (item_alive now (tb_ttl_ms b)) q) as Hr.
  pose proof (queue_le_stored b to q Hlk) as Hqs.
  rewrite saturating_sum_sizes by lia. unfold saturating_add. rewrite N.min_r by lia.
  assert (stored_bytes (set_queues (partial_alter (fun _ => sweep_queue now (tb_ttl_ms b) q) to
      (by_recipient b)) b) + queue_bytes (List.filter
        (fun i => negb (item_alive now (tb_ttl_ms b) i)) q) = stored_bytes b) as Hst.
  { unfold sweep_queue. destruct (List.filter (item_alive now (tb_ttl_ms b)) q) as [|i l] eqn:Hf.
    - change (partial_alter _ to (by_recipient b)) with (delete to (by_recipient b)).
      unfold stored_bytes. cbn. rewrite (msum_delete queue_bytes _ to q Hlk). cbn in Hr. lia.
    - change (partial_alter _ to (by_recipient b)) with (<[to := i :: l]> (by_recipient b)).
      rewrite <- Hf. by apply stored_bytes_retain. }
  constructor; cbn; [|rewrite sum_by_id_middle; lia|done].
  destruct Hq as [Hs Hn' Hc']. constructor; cbn; try done. intros a q'.
  destruct (decide (a = to)) as [->|Hne]; [|rewrite lookup_partial_alter_ne by done; by apply Hs].
  rewrite lookup_partial_alter_eq. unfold sweep_queue. destruct (Hs to q Hlk) as [Hsq Hall].
  destruct (List.filter _ q) as [|i l] eqn:Hf; [done|]. intros [= <-]. rewrite <- Hf.
  split; [by apply StronglySorted_filter_keys|].
  rewrite Forall_forall in Hall |- *. intros j [_ Hj]%elem_of_list_filter_bool. by apply Hall.
Qed.

Lemma transit_sys_inv_step x y : transit_sys_step x y -> transit_sys_inv x -> transit_sys_inv y.
Proof.
  intros [to e b b' r f Hres|to e now res b b' r1 r2 f Hn Hp|to ids q b r f Hlk|b r f
         |to now q acc b r f1 f2 Hlk|n b r f1 f2] Hinv.
  - destruct Hinv as [Hq Hb Hle]. cbn in *.
    rewrite reserve_bytes_spec in Hres by apply Hq.
    destruct (N.ltb_spec (tb_max_total_bytes b) (tb_total_bytes b + envelope_size e)); [done|].
    injection Hres as <-. constructor; cbn; [by apply queues_wf_total| |done].
    unfold stored_bytes in *. cbn. lia.
  - pose proof (push_entry_inv to e now b r1 r2 f Hn Hinv) as Hpi. by rewrite Hp in Hpi.
  - destruct Hinv as [Hq Hb Hle]. cbn in *.
    pose proof (qw_cap _ Hq). pose proof (queue_le_stored b to q Hlk).
    pose proof (stored_bytes_retain b to q (fun i => negb (bool_decide (i.1 ∈ ids))) Hlk) as Hst.
    rewrite saturating_sum_sizes by lia.
    constructor; cbn [ts_buf ts_reserved ts_freeing];
      [by apply queues_wf_retain | rewrite sum_by_id_cons; cbn in *; lia | done].
  - destruct Hinv as [Hq Hb Hle]. by constructor.
  - by apply sweep_one_inv.
  - destruct Hinv as [Hq Hb Hle]. cbn in *. rewrite sum_by_id_middle in Hb.
    pose proof (qw_cap _ Hq). rewrite release_bytes_total by lia.
    constructor; cbn; [by apply queues_wf_total| |lia]. unfold stored_bytes in *. cbn. lia.
Qed.

(** C25: however enqueues, acknowledgements and sweeps
    interleave, the envelopes held never exceed the byte counter and the counter
    never exceeds the configured cap (so it never wraps), every queue stays in id
    order below the next id, and with no operation in progress the counter is
    exactly the bytes held. *)
Theorem transit_bytes_bounded (b : TransitBuffer) (y : TransitSys) :
  buf_wf b -> rtc transit_sys_step (mkTS b [] []) y ->
  stored_bytes (ts_buf y) <= tb_total_bytes (ts_buf y) <= tb_max_total_bytes (ts_buf y) /\
  (forall a q, by_recipient (ts_buf y) !! a = Some q ->
     StronglySorted N.lt q.*1 /\ Forall (fun i => 0 < i.1 < tb_next_id (ts_buf y)) q) /\
  (ts_reserved y = [] -> ts_freeing y = [] -> tb_total_bytes (ts_buf y) = stored_bytes (ts_buf y)).
Proof.
  intros [Hq Hb Hle] Hrun. assert (transit_sys_inv y) as [Hq' Hb' Hle'].
  { assert (transit_sys_inv (mkTS b [] [])) as H0 by (constructor; cbn; [done|lia|done]).
    clear -Hrun H0. induction Hrun as [|x y z Hs _ IH]; [done|].
    by apply IH, (transit_sys_inv_step x). }
  split; [lia|]. split; [apply Hq'|]. intros Hr Hf. rewrite Hr, Hf in Hb'.
  cbn in Hb'. lia.
Qed.

Definition demo_buf0 : TransitBuffer := buf_new 50 4 1000.
Definition demo_buf1 : TransitBuffer := set_total 130 demo_buf0.
Definition demo_buf2 : TransitBuffer := (push_entry [2] demo_envelope 9 demo_buf1).2.

Lemma transit_bytes_bounded_witness :
  stored_bytes (set_total 260 demo_buf2) <= 260 <= 1000.
Proof.
  apply (transit_bytes_bounded demo_buf0 (mkTS (set_total 260 demo_buf2) [([3], demo_envelope)] [])).
  { apply buf_wf_new. by vm_compute. }
  apply (rtc_l _ _ (mkTS demo_buf1 [([2], demo_envelope)] [])).
  { apply ts_reserve. by vm_compute. }
  apply (rtc_l _ _ (mkTS demo_buf2 [] [])).
  { apply (ts_push [2] demo_envelope 9 (Ok 1) demo_buf1 demo_buf2 [] []); by vm_compute. }
  apply rtc_once, ts_reserve. by vm_compute.
Defined.
