(* ===== verification/TransitSqlite.v ===== *)
(** * The durable transit store

    Models [crates/fetchit-relay-server/src/transit_sqlite.rs].  The table is its
    list of rows in rowid order, [sq_seq] the [AUTOINCREMENT] high-water mark that
    SQLite keeps beside it; each statement of the source is one definition.
    Statements themselves do not fail here, except an insert past the largest
    rowid.  The postcard codec is a parameter: what it decodes is what it
    encoded. *)
From S2P Require Import Prelude RelayProto Transit.

Definition FIXED_OVERHEAD : N := 128.

Definition row_size (env : TransitEnvelope) : N :=
  let add := saturating_add usize_max in
  add (add (add (add FIXED_OVERHEAD (len (e_ciphertext env))) (len (e_nonce env)))
    (len (e_kem_ciphertext env))) (len (e_sender_signature env)).

Class EnvelopeCodec := {
  env_to_bytes : TransitEnvelope -> result bytes string;
  env_from_bytes : bytes -> option TransitEnvelope;
  env_codec_round_trip : forall e b, env_to_bytes e = Ok b -> env_from_bytes b = Some e;
}.

(** A row of the [transit] table. *)
Record Row := {
  r_id : N;
  r_recipient : AgentId;
  r_enqueued_at_ms : N;
  r_envelope : bytes;
}.

Record SqliteTransitStore := mkSq {
  sq_rows : list Row;
  sq_seq : N;
  sq_ttl_ms : N;
  sq_cap_per_recipient : N;
  sq_max_total_bytes : N;
}.

Definition sq_open (ttl_ms cap_per_recipient max_total_bytes : N) : SqliteTransitStore :=
  mkSq [] 0 ttl_ms cap_per_recipient max_total_bytes.

Definition sq_with_rows (rows : list Row) (s : SqliteTransitStore) : SqliteTransitStore :=
  mkSq rows (sq_seq s) (sq_ttl_ms s) (sq_cap_per_recipient s) (sq_max_total_bytes s).

(** [WHERE recipient = ?1]. *)
Definition for_recipient (a : AgentId) (r : Row) : bool := bool_decide (r_recipient r = a).

(** [SELECT COALESCE(SUM(LENGTH(envelope)), 0) FROM transit]. *)
Definition raw_bytes (s : SqliteTransitStore) : N := sum_by (fun r => len (r_envelope r)) (sq_rows s).

Section sqlite.
  Context `{EnvelopeCodec}.

Definition sq_enqueue (to : AgentId) (envelope : TransitEnvelope) (now_ms : N)
    (s : SqliteTransitStore) : result N ServerError * SqliteTransitStore :=
  match env_to_bytes envelope with
  | Err e => (Err (TransitStoreError e), s)
  | Ok b =>
      let size := row_size envelope in
      let count := len (List.filter (for_recipient to) (sq_rows s)) in
      if sq_cap_per_recipient s <=? count then (Err TransitBufferFull, s)
      else if sq_max_total_bytes s <? saturating_add usize_max (raw_bytes s) size
      then (Err TransitBufferFull, s)
      else if i64_max <=? sq_seq s
      then (Err (TransitStoreError "database or disk is full"), s)
      else
        let id := sq_seq s + 1 in
        (Ok id,
         mkSq (sq_rows s ++ [Build_Row id to (clamp_i64 now_ms) b]) id
           (sq_ttl_ms s) (sq_cap_per_recipient s) (sq_max_total_bytes s))
  end.

(** A row that does not decode is skipped. *)
Definition row_entry (r : Row) : option StoredEntry :=
  match env_from_bytes (r_envelope r) with
  | Some e => Some {| se_id := r_id r; se_envelope := e; se_enqueued_at_ms := r_enqueued_at_ms r |}
  | None => None
  end.

Definition sq_read_all (to : AgentId) (s : SqliteTransitStore) : list StoredEntry :=
  omap row_entry (List.filter (for_recipient to) (sq_rows s)).

(** [DELETE FROM transit WHERE recipient = ?1 AND id = ?2]: rows affected. *)
Definition delete_row (to : AgentId) (id : N) (rows : list Row) : N * list Row :=
  let hit r := for_recipient to r && (r_id r =? clamp_i64 id) in
  (len (List.filter hit rows), List.filter (fun r => negb (hit r)) rows).

Definition delete_loop (to : AgentId) (ids : list N) (rows : list Row) : N * list Row :=
  foldl (fun '(reclaimed, rows) id =>
           let '(n, rows) := delete_row to id rows in
           (saturating_add usize_max reclaimed n, rows)) (0, rows) ids.

Definition sq_delete (to : AgentId) (ids : list N) (s : SqliteTransitStore)
    : N * SqliteTransitStore :=
  let '(reclaimed, rows) := delete_loop to ids (sq_rows s) in
  (reclaimed, sq_with_rows rows s).

(** [DELETE FROM transit WHERE enqueued_at_ms <= ?1]. *)
Definition sq_sweep_expired (now_ms : N) (s : SqliteTransitStore) : N * SqliteTransitStore :=
  let cutoff := clamp_i64 (now_ms -| sq_ttl_ms s) in
  let old r := r_enqueued_at_ms r <=? cutoff in
  (len (List.filter old (sq_rows s)),
   sq_with_rows (List.filter (fun r => negb (old r)) (sq_rows s)) s).

Definition sq_len (s : SqliteTransitStore) : N := len (sq_rows s).

Definition sq_total_bytes (s : SqliteTransitStore) : N :=
  saturating_add usize_max (raw_bytes s) (saturating_mul usize_max (sq_len s) FIXED_OVERHEAD).

(** ** Representation invariant *)

Record sq_wf (s : SqliteTransitStore) : Prop := {
  sw_sorted : StronglySorted N.lt (r_id <$> sq_rows s);
  sw_ids : forall r, r ∈ sq_rows s -> 0 < r_id r <= sq_seq s;
  sw_seq : sq_seq s < i64_max;
  sw_decodes : forall r, r ∈ sq_rows s -> is_Some (row_entry r);
}.

#[export] Instance sqlite_transit : TransitStore SqliteTransitStore := {
  t_enqueue := sq_enqueue;
  t_read_all := sq_read_all;
  t_delete := sq_delete;
  t_sweep_expired := sq_sweep_expired;
  t_len := sq_len;
  t_total_bytes := sq_total_bytes;
  t_wf := sq_wf;
  t_next s := sq_seq s + 1;
  t_ttl := sq_ttl_ms;
}.

Lemma sq_wf_open ttl cap max : sq_wf (sq_open ttl cap max).
Proof. constructor; cbn; try done; try (by intros r ?%elem_of_nil). constructor. Qed.

Lemma sq_wf_filter P s : sq_wf s -> sq_wf (sq_with_rows (List.filter P (sq_rows s)) s).
Proof.
  intros [Hs Hi Hq Hd]. constructor; cbn; try done.
  - by apply StronglySorted_filter_keys.
  - intros r [_ Hr]%elem_of_list_filter_bool. by apply Hi.
  - intros r [_ Hr]%elem_of_list_filter_bool. by apply Hd.
Qed.

(** Reading is filtering, entry by entry. *)
Lemma omap_entry_filter (P : Row -> bool) (Q : StoredEntry -> bool) rows :
  (forall r e, r ∈ rows -> row_entry r = Some e -> Q e = P r) ->
  omap row_entry (List.filter P rows) = List.filter Q (omap row_entry rows).
Proof.
  induction rows as [|r rows IH]; intros HPQ; [done|]. cbn.
  assert (forall r' e, r' ∈ rows -> row_entry r' = Some e -> Q e = P r') as HPQ'
    by (intros r' e Hr; apply HPQ; by right).
  destruct (row_entry r) as [e|] eqn:He.
  - cbn. rewrite (HPQ r e) by (done || left). destruct (P r); cbn; rewrite ?He; by rewrite IH.
  - destruct (P r); cbn; rewrite ?He; by rewrite IH.
Qed.

Lemma filter_comm {A} (P Q : A -> bool) l :
  List.filter P (List.filter Q l) = List.filter Q (List.filter P l).
Proof.
  induction l as [|x l IH]; [done|]. cbn.
  destruct (P x) eqn:HP, (Q x) eqn:HQ; cbn; rewrite ?HP, ?HQ; by rewrite IH.
Qed.

Lemma sq_ids_sorted s a :
  sq_wf s -> StronglySorted N.lt (se_id <$> sq_read_all a s) /\
    Forall (fun e => 0 < se_id e < sq_seq s + 1) (sq_read_all a s).
Proof.
  intros [Hs Hi _ Hd]. unfold sq_read_all. split.
  - assert (forall rows : list Row, (forall r, r ∈ rows -> is_Some (row_entry r)) ->
      se_id <$> omap row_entry rows = r_id <$> rows) as Hids.
    { induction rows as [|r rows IH]; intros Hr; [done|]. cbn.
      destruct (Hr r) as [e He]; [left|]. rewrite He. cbn. unfold row_entry in He.
      case_match; simplify_eq/=. f_equal. apply IH. intros r' ?. apply Hr. by right. }
    rewrite Hids; [by apply StronglySorted_filter_keys|].
    intros r [_ Hr]%elem_of_list_filter_bool. by apply Hd.
  - apply Forall_forall. intros e (r & Hr & He)%list_elem_of_omap.
    apply elem_of_list_filter_bool in Hr as [_ Hr]. specialize (Hi r Hr).
    unfold row_entry in He. case_match; simplify_eq/=. lia.
Qed.

Lemma sq_law_enqueue_ok s s' to e now id :
  sq_wf s -> sq_seq s + 1 < i64_max -> now <= i64_max -> sq_enqueue to e now s = (Ok id, s') ->
  t_keeps s s' /\ id = sq_seq s + 1 /\ sq_seq s' + 1 = sq_seq s + 1 + 1 /\
  forall a, sq_read_all a s' = sq_read_all a s ++
    (if decide (a = to) then [Build_StoredEntry id e now] else []).
Proof.
  intros [Hs Hi Hq Hd] Hn Hnow. unfold sq_enqueue.
  destruct (env_to_bytes e) as [b|] eqn:Hb; [|done].
  apply env_codec_round_trip in Hb. repeat (case_match; [done|]). intros [= <- <-].
  assert (clamp_i64 now = now) as Hcl by (unfold clamp_i64; lia). rewrite Hcl.
  assert (row_entry (Build_Row (sq_seq s + 1) to now b) =
    Some (Build_StoredEntry (sq_seq s + 1) e now)) as Hre by (unfold row_entry; cbn; by rewrite Hb).
  split; [split; [constructor; cbn|done]|split; [done|split; [done|]]].
  - rewrite fmap_app. apply StronglySorted_snoc_lt; [done|]. apply Forall_fmap, Forall_forall.
    intros r Hr. specialize (Hi r Hr). cbn. lia.
  - intros r [Hr| ->%list_elem_of_singleton]%elem_of_app; [specialize (Hi r Hr); lia | cbn; lia].
  - lia.
  - intros r [Hr| ->%list_elem_of_singleton]%elem_of_app; [by apply Hd | by eexists].
  - intros a. unfold sq_read_all. cbn. rewrite List.filter_app, omap_app. f_equal. cbn.
    unfold for_recipient at 1. cbn. destruct (decide (a = to)) as [->|Hne].
    + rewrite bool_decide_eq_true_2 by done. cbn. by rewrite Hre.
    + by rewrite bool_decide_eq_false_2 by congruence.
Qed.

Lemma sq_law_enqueue_err s s' to e now er :
  sq_wf s -> sq_enqueue to e now s = (Err er, s') -> s' = s.
Proof.
  intros _. unfold sq_enqueue. intros He. by repeat (case_match; simplify_eq/=; try done).
Qed.

(** The rows listed for [to] stay out; [hit_row] is one statement's condition. *)
Definition kept_row (to : AgentId) (ids : list N) (r : Row) : bool :=
  negb (for_recipient to r && bool_decide (r_id r ∈ ids)).

Lemma kept_row_nil to rows : List.filter (kept_row to []) rows = rows.
Proof.
  rewrite <- (List.filter_true rows) at 2. apply List.filter_ext. intros r. unfold kept_row.
  rewrite bool_decide_eq_false_2 by apply not_elem_of_nil. by rewrite andb_false_r.
Qed.

Lemma len_filter_split {A} (P : A -> bool) l :
  len l = len (List.filter P l) + len (List.filter (fun x => negb (P x)) l).
Proof. unfold len. induction l as [|x l IH]; [done|]. cbn. destruct (P x); cbn; lia. Qed.

Lemma kept_row_cons to id ids rows :
  (forall r, r ∈ rows -> r_id r < i64_max) ->
  List.filter (kept_row to ids) (delete_row to id rows).2 = List.filter (kept_row to (id :: ids)) rows.
Proof.
  intros Hid. unfold delete_row, kept_row. cbn [snd].
  induction rows as [|r rows IHr]; [done|]. cbn.
  assert ((r_id r =? clamp_i64 id) = bool_decide (r_id r = id)) as ->.
  { assert (r_id r < i64_max) by (apply Hid; left). unfold clamp_i64.
    case_bool_decide; [apply N.eqb_eq; lia | apply N.eqb_neq; lia]. }
  assert (bool_decide (r_id r ∈ id :: ids) =
    bool_decide (r_id r = id) || bool_decide (r_id r ∈ ids)) as ->.
  { rewrite <- bool_decide_or. apply bool_decide_ext. apply elem_of_cons. }
  assert (forall r', r' ∈ rows -> r_id r' < i64_max) as Hid' by (intros; apply Hid; by right).
  destruct (for_recipient to r) eqn:Hr, (bool_decide (r_id r = id)),
    (bool_decide (r_id r ∈ ids)) eqn:Hi; cbn; rewrite ?Hr, ?Hi; cbn; by rewrite IHr.
Qed.

(** The loop of deletes removes exactly the recipient's rows listed. *)
Lemma delete_loop_spec to ids rows n :
  (forall r, r ∈ rows -> r_id r < i64_max) -> n + len rows <= usize_max ->
  foldl (fun '(reclaimed, rows) id =>
           let '(k, rows) := delete_row to id rows in
           (saturating_add usize_max reclaimed k, rows)) (n, rows) ids =
  (n + (len rows - len (List.filter (kept_row to ids) rows)), List.filter (kept_row to ids) rows).
Proof.
  revert n rows. induction ids as [|id ids IH]; intros n rows Hid Hn.
  { rewrite kept_row_nil. cbn. f_equal. lia. }
  cbn [foldl]. rewrite <- kept_row_cons by done.
  destruct (delete_row to id rows) as [k rows'] eqn:Hd. cbn [snd].
  assert (len rows = k + len rows') as Hlen
    by (injection Hd as <- <-; apply len_filter_split).
  assert (saturating_add usize_max n k = n + k) as -> by (unfold saturating_add; lia).
  rewrite IH; cycle 1.
  { injection Hd as _ <-. intros r [_ Hr]%elem_of_list_filter_bool. by apply Hid. }
  { lia. }
  f_equal. pose proof (len_filter_split (kept_row to ids) rows'). lia.
Qed.

Lemma sq_rows_count s : sq_wf s -> len (sq_rows s) <= i64_max.
Proof.
  intros [Hs Hi Hq _].
  assert (len (r_id <$> sq_rows s) <= i64_max) as Hl; [|by unfold len in *; rewrite length_fmap in Hl].
  apply NoDup_bounded_length.
  - clear -Hs. induction Hs as [|x l _ IH Hall]; constructor; [|done].
    intros Hx. rewrite Forall_forall in Hall. specialize (Hall x Hx). lia.
  - intros x (r & -> & Hr)%list_elem_of_fmap. specialize (Hi r Hr). lia.
Qed.

Lemma sq_read_deleted s to ids a :
  sq_read_all a (sq_with_rows (List.filter (kept_row to ids) (sq_rows s)) s) =
  if decide (a = to)
  then List.filter (fun e => negb (bool_decide (se_id e ∈ ids))) (sq_read_all a s)
  else sq_read_all a s.
Proof.
  unfold sq_read_all. cbn. rewrite filter_comm. case_decide as Ha.
  - subst. apply omap_entry_filter. intros r e [Hf _]%elem_of_list_filter_bool He.
    unfold kept_row. rewrite Hf. unfold row_entry in He. case_match; by simplify_eq/=.
  - f_equal. rewrite <- (List.filter_true (List.filter (for_recipient a) (sq_rows s))) at 2.
    apply List.filter_ext_in. intros r [_ Hf]%List.filter_In. unfold kept_row, for_recipient in *.
    apply bool_decide_eq_true in Hf. by rewrite bool_decide_eq_false_2 by congruence.
Qed.

Lemma len_omap_entry rows :
  (forall r, r ∈ rows -> is_Some (row_entry r)) -> len (omap row_entry rows) = len rows.
Proof.
  induction rows as [|r rows IH]; intros Hr; [done|]. cbn.
  destruct (Hr r) as [e ->]; [left|]. unfold len in *. cbn. rewrite Nat2N.inj_succ.
  assert (N.of_nat (length (omap row_entry rows)) = N.of_nat (length rows)) as Hl; [|lia].
  apply IH. intros r' ?. apply Hr. by right.
Qed.

(** Rows of other recipients are all kept, so the table shrinks by what the
    recipient's list shrinks. *)
Lemma deleted_count to ids rows :
  len rows - len (List.filter (kept_row to ids) rows) =
  len (List.filter (for_recipient to) rows) -
    len (List.filter (for_recipient to) (List.filter (kept_row to ids) rows)).
Proof.
  induction rows as [|r rows IH]; [done|]. cbn.
  pose proof (len_filter_split (kept_row to ids) rows).
  pose proof (len_filter_split (kept_row to ids) (List.filter (for_recipient to) rows)) as Hk.
  rewrite filter_comm in Hk.
  destruct (kept_row to ids r) eqn:Hkr; cbn; destruct (for_recipient to r) eqn:Hf; cbn;
    unfold len in *; cbn [length]; try lia.
  unfold kept_row in Hkr. by rewrite Hf in Hkr.
Qed.

Lemma sq_law_delete s s' to ids n :
  sq_wf s -> sq_delete to ids s = (n, s') ->
  t_keeps s s' /\ sq_seq s' + 1 = sq_seq s + 1 /\
  n = len (sq_read_all to s) - len (sq_read_all to s') /\
  forall a, sq_read_all a s' =
    if decide (a = to)
    then List.filter (fun e => negb (bool_decide (se_id e ∈ ids))) (sq_read_all a s)
    else sq_read_all a s.
Proof.
  intros Hwf. pose proof (sq_rows_count s Hwf) as Hcount.
  unfold sq_delete, delete_loop. rewrite delete_loop_spec; cycle 1.
  { intros r Hr. pose proof (sw_ids s Hwf r Hr). pose proof (sw_seq s Hwf). lia. }
  { unfold i64_max, usize_max, u64_max in *. lia. }
  intros [= <- <-]. split; [split; [by apply sq_wf_filter | done]|]. split; [done|].
  split; [|intros a; apply sq_read_deleted].
  unfold sq_read_all. cbn. rewrite !len_omap_entry; [apply deleted_count|..].
  - intros r [_ [_ Hr]%elem_of_list_filter_bool]%elem_of_list_filter_bool. by apply (sw_decodes s).
  - intros r [_ Hr]%elem_of_list_filter_bool. by apply (sw_decodes s).
Qed.

Lemma sq_law_sweep s s' now n :
  sq_wf s -> 0 < sq_ttl_ms s <= now -> now <= i64_max -> sq_sweep_expired now s = (n, s') ->
  t_keeps s s' /\ sq_seq s' + 1 = sq_seq s + 1 /\
  forall a, sq_read_all a s' = List.filter (se_alive now (sq_ttl_ms s)) (sq_read_all a s).
Proof.
  intros Hwf Ht Hnow. unfold sq_sweep_expired. intros [= <- <-].
  split; [split; [by apply sq_wf_filter | done]|]. split; [done|].
  intros a. unfold sq_read_all. cbn. rewrite filter_comm. apply omap_entry_filter.
  intros r e _ He. unfold row_entry in He. case_match; simplify_eq/=.
  unfold se_alive, clamp_i64, saturating_sub. cbn. rewrite N.min_r by lia.
  destruct (N.leb_spec (r_enqueued_at_ms r) (now - sq_ttl_ms s)); cbn;
    [apply N.ltb_ge; lia | apply N.ltb_lt; lia].
Qed.

#[export] Instance sqlite_transit_laws : TransitStoreLaws SqliteTransitStore.
Proof.
  constructor; cbn.
  - exact sq_ids_sorted.
  - exact sq_law_enqueue_ok.
  - intros s s' to e now er Hwf He. apply sq_law_enqueue_err in He; [|done]. by subst.
  - exact sq_law_delete.
  - exact sq_law_sweep.
Qed.

End sqlite.

(** ** The two stores behave the same *)

Lemma len_cons {A} (x : A) l : len (x :: l) = len l + 1.
Proof. unfold len. cbn [length]. lia. Qed.
Lemma msum_zero {K V} `{Countable K} (m : gmap K V) : msum (fun _ => 0) m = 0.
Proof. induction m as [|k v m Hk IH] using map_ind; [done|]. by rewrite msum_insert_fresh. Qed.

(** What each call of a run returns. *)
Inductive TransitAnswer := EnqueueSaid (r : result N ServerError) | DeleteSaid (n : N) | SweepSaid (n : N).
Definition transit_answer {S} `{TransitStore S} (s : S) (op : TransitOp) : TransitAnswer :=
  match op with
  | TEnqueue to e now => EnqueueSaid (t_enqueue to e now s).1
  | TDelete to ids => DeleteSaid (t_delete to ids s).1
  | TSweep now => SweepSaid (t_sweep_expired now s).1
  end.
Fixpoint transit_answers {S} `{TransitStore S} (s : S) (ops : list TransitOp) : list TransitAnswer :=
  match ops with
  | [] => []
  | op :: rest => transit_answer s op :: transit_answers (transit_step s op) rest
  end.

(** Clock readings a run may use: past the configured lifetime, within [i64]. *)
Definition timed (ttl : N) (op : TransitOp) : Prop :=
  match op with
  | TEnqueue _ _ now => now <= i64_max
  | TDelete _ _ => True
  | TSweep now => 0 < ttl <= now /\ now <= i64_max
  end.

Section agree.
Context {S1 S2 : Type} `{TransitStoreLaws S1} `{TransitStoreLaws S2}.

(** Same next id, same lifetime, and every recipient reads the same. *)
Record agree (s1 : S1) (s2 : S2) : Prop := {
  ag_wf1 : t_wf s1;
  ag_wf2 : t_wf s2;
  ag_next : t_next s1 = t_next s2;
  ag_ttl : t_ttl s1 = t_ttl s2;
  ag_read : forall a, t_read_all a s1 = t_read_all a s2;
}.

(** An enqueue both answer alike, or any other call, keeps them in step. *)
Lemma agree_step s1 s2 op :
  agree s1 s2 -> t_next s1 < i64_max -> timed (t_ttl s1) op ->
  (forall to e now, op = TEnqueue to e now -> transit_answer s1 op = transit_answer s2 op) ->
  agree (transit_step s1 op) (transit_step s2 op) /\
  t_next (transit_step s1 op) <= t_next s1 + 1 /\ t_ttl (transit_step s1 op) = t_ttl s1.
Proof.
  intros [W1 W2 Hn Ht Hr] Hlt Htm Hans. destruct op as [to e now|to ids|now]; cbn in *.
  - specialize (Hans to e now eq_refl).
    destruct (t_enqueue to e now s1) as [[id1|er1] s1'] eqn:E1,
      (t_enqueue to e now s2) as [[id2|er2] s2'] eqn:E2; cbn in *; try done.
    + apply t_enqueue_ok in E1 as ([? ?] & -> & ? & Hr1); [|done..].
      apply t_enqueue_ok in E2 as ([? ?] & -> & ? & Hr2); [|done|lia|done].
      split; [|split; [lia|done]]. split; try done; [lia|congruence|].
      intros a. by rewrite Hr1, Hr2, Hr, Hn.
    + apply t_enqueue_err in E1 as ([? ?] & ? & Hr1); [|done].
      apply t_enqueue_err in E2 as ([? ?] & ? & Hr2); [|done].
      split; [|split; [lia|done]]. split; try done; [lia|congruence|].
      intros a. by rewrite Hr1, Hr2.
  - destruct (t_delete to ids s1) as [n1 s1'] eqn:E1, (t_delete to ids s2) as [n2 s2'] eqn:E2; cbn.
    apply t_delete_spec in E1 as ([? ?] & ? & _ & Hr1); [|done].
    apply t_delete_spec in E2 as ([? ?] & ? & _ & Hr2); [|done].
    split; [|split; [lia|done]]. split; try done; [lia|congruence|].
    intros a. by rewrite Hr1, Hr2, Hr.
  - destruct (t_sweep_expired now s1) as [n1 s1'] eqn:E1,
      (t_sweep_expired now s2) as [n2 s2'] eqn:E2; cbn. destruct Htm as [Htm Hnow].
    apply t_sweep_spec in E1 as ([? ?] & ? & Hr1); [|done..].
    apply t_sweep_spec in E2 as ([? ?] & ? & Hr2); [|done|by rewrite <- Ht|done].
    split; [|split; [lia|done]]. split; try done; [lia|congruence|].
    intros a. by rewrite Hr1, Hr2, Hr, Ht.
Qed.

(** What an acknowledgement reports follows from what it leaves. *)
Lemma agree_delete s1 s2 to ids : agree s1 s2 -> transit_answer s1 (TDelete to ids) = transit_answer s2 (TDelete to ids).
Proof.
  intros [W1 W2 _ _ Hr]. cbn. destruct (t_delete to ids s1) as [n1 s1'] eqn:E1, (t_delete to ids s2) as [n2 s2'] eqn:E2.
  apply t_delete_spec in E1 as (_ & _ & -> & Hr1); [|done]. apply t_delete_spec in E2 as (_ & _ & -> & Hr2); [|done].
  cbn. by rewrite Hr1, Hr2, Hr.
Qed.
End agree.

(** *** The in-memory store beside the durable one *)

Section twins.
Context `{EnvelopeCodec} `{HQ : !HashIter AgentId (list (N * Entry))}.
Implicit Types (b : TransitBuffer) (s : SqliteTransitStore).

Lemma rows_counted rows : forall m : gmap AgentId (list (N * Entry)),
  (forall a, len (List.filter (for_recipient a) rows) = len (default [] (m !! a))) -> len rows = msum len m.
Proof.
  induction rows as [|r rows IH]; intros m Hm.
  - rewrite (msum_ext len (fun _ => 0) m); [by rewrite msum_zero|]. intros k q Hq. specialize (Hm k). rewrite Hq in Hm. by cbn in Hm.
  - pose proof (Hm (r_recipient r)) as Hr. cbn in Hr. unfold for_recipient in Hr at 1. rewrite bool_decide_eq_true_2 in Hr by done.
    destruct (m !! r_recipient r) as [[|i q]|] eqn:Hq; try done. cbn in Hr. rewrite !len_cons in Hr.
    pose proof (msum_insert len m _ _ q Hq) as Hi. rewrite len_cons in Hi. rewrite len_cons, (IH (<[r_recipient r := q]> m)); [lia|].
    intros a. specialize (Hm a). cbn in Hm. unfold for_recipient in Hm at 1. case_bool_decide as Ha.
    + subst a. rewrite lookup_insert_eq. cbn. lia.
    + by rewrite lookup_insert_ne by done.
Qed.

Lemma agree_len b s : agree b s -> buf_len b = sq_len s.
Proof.
  intros [_ W2 _ _ Hr]. unfold buf_len, sq_len. rewrite <- msum_hm_values. symmetry. apply rows_counted. intros a. specialize (Hr a).
  change (buf_read_all a b = sq_read_all a s) in Hr. apply (f_equal len) in Hr. rewrite read_all_default in Hr. unfold sq_read_all in Hr.
  rewrite len_omap_entry in Hr; [by rewrite <- Hr; unfold len; rewrite length_fmap|].
  intros r [_ Hin]%elem_of_list_filter_bool. by apply (sw_decodes s W2).
Qed.

Lemma buf_sweep_count now b :
  buf_len b <= usize_max -> (buf_sweep_expired now b).1 + buf_len (buf_sweep_expired now b).2 = buf_len b.
Proof.
  intros Hle. unfold buf_sweep_expired, buf_len in *. cbn [fst snd release_bytes set_total set_queues by_recipient].
  rewrite saturating_sum_min, sum_by_fmap, <- !msum_hm_values. rewrite <- msum_hm_values in Hle. set (alive := item_alive now (tb_ttl_ms b)).
  assert (msum len (omap (sweep_queue now (tb_ttl_ms b)) (by_recipient b)) = msum (fun q => len (List.filter alive q)) (by_recipient b)) as ->.
  { unfold msum at 1. rewrite msum_omap. apply msum_ext. intros k q _. unfold sweep_queue. fold alive. by destruct (List.filter alive q). }
  assert (msum len (by_recipient b) = msum (fun q => len (List.filter alive q)) (by_recipient b)
    + msum (fun q => len (List.filter (fun i => negb (alive i)) q)) (by_recipient b)) as Hadd
    by (apply msum_add; intros q; apply len_filter_split).
  unfold id. lia.
Qed.

Lemma sq_sweep_count now s : (sq_sweep_expired now s).1 + sq_len (sq_sweep_expired now s).2 = sq_len s.
Proof. unfold sq_sweep_expired, sq_len. cbn. symmetry. apply len_filter_split. Qed.

(** In step, with the same bounds. *)
Record twins b s : Prop := {
  tw_agree : agree b s;
  tw_cap : tb_cap_per_recipient b = sq_cap_per_recipient s;
  tw_max : tb_max_total_bytes b = sq_max_total_bytes s;
}.

(** The enqueues they may answer differently: the envelope has no encoding, or one byte budget is exceeded and the other is
    not ([stored_bytes] is what the first charges, [raw_bytes] what the second does) while the recipient has room. *)
Definition parts b s (op : TransitOp) : Prop :=
  exists to e now, op = TEnqueue to e now /\
    ((exists err, env_to_bytes e = Err err) \/
     len (t_read_all to b) < tb_cap_per_recipient b /\
     (tb_max_total_bytes b <? stored_bytes b + envelope_size e) <> (tb_max_total_bytes b <? raw_bytes s + envelope_size e)).

Lemma over_budget s e : sq_max_total_bytes s < usize_max ->
  (sq_max_total_bytes s <? saturating_add usize_max (raw_bytes s) (row_size e)) = (sq_max_total_bytes s <? raw_bytes s + envelope_size e).
Proof.
  intros Hm. change (row_size e) with (envelope_size e). unfold saturating_add.
  destruct (N.ltb_spec (sq_max_total_bytes s) (raw_bytes s + envelope_size e)); [apply N.ltb_lt | apply N.ltb_ge]; lia.
Qed.

Lemma twins_enqueue b s to e now : twins b s -> t_next b < i64_max ->
  transit_answer b (TEnqueue to e now) = transit_answer s (TEnqueue to e now) \/ parts b s (TEnqueue to e now).
Proof.
  intros [Hag Hcap Hmax] Hlt. pose proof (ag_wf1 _ _ Hag) as W1. pose proof (ag_read _ _ Hag to) as Hr. pose proof (ag_next _ _ Hag) as Hn.
  destruct (env_to_bytes e) as [bs|err] eqn:Hb; [|right; exists to, e, now; eauto].
  cbn in Hr, Hn, Hlt, W1. pose proof (f_equal len Hr) as Hlen. rewrite read_all_default in Hlen. unfold sq_read_all in Hlen.
  rewrite len_omap_entry in Hlen; [|intros r [_ Hin]%elem_of_list_filter_bool; by apply (sw_decodes s (ag_wf2 _ _ Hag))].
  assert (len (buf_read_all to b) = len (default [] (by_recipient b !! to))) as Hq by (rewrite read_all_default; unfold len; by rewrite length_fmap).
  rewrite <- read_all_default in Hlen. rewrite Hq in Hlen.
  destruct (tb_cap_per_recipient b <=? len (default [] (by_recipient b !! to))) eqn:Hroom.
  { left. cbn. rewrite buf_enqueue_cases by done. unfold sq_enqueue. rewrite Hb, <- Hlen, <- Hcap. cbv zeta.
    rewrite Hroom. by destruct (_ <? _). }
  destruct (decide ((tb_max_total_bytes b <? stored_bytes b + envelope_size e) = (tb_max_total_bytes b <? raw_bytes s + envelope_size e)))
    as [Hsame|Hdiff]; [left|right; exists to, e, now; split; [done|]; right; split; [apply N.leb_gt in Hroom; cbn; lia|done]].
  cbn. rewrite buf_enqueue_cases by done. unfold sq_enqueue. rewrite Hb, <- Hlen, <- Hcap. cbv zeta.
  rewrite over_budget by (rewrite <- Hmax; apply W1). rewrite <- Hmax, (bw_bytes b W1), Hsame.
  rewrite Hroom. destruct (tb_max_total_bytes b <? raw_bytes s + envelope_size e); [reflexivity|]. assert ((i64_max <=? sq_seq s) = false) as -> by (apply N.leb_gt; lia). cbn. by rewrite Hn.
Qed.

Lemma twins_sweep b s now : twins b s -> t_next b < i64_max -> timed (t_ttl b) (TSweep now) ->
  transit_answer b (TSweep now) = transit_answer s (TSweep now).
Proof.
  intros [Hag _ _] Hlt Htm. destruct (agree_step b s (TSweep now) Hag Hlt Htm) as (Hag' & _); [done|].
  apply agree_len in Hag as Hl. apply agree_len in Hag' as Hl'.
  change (buf_len (buf_sweep_expired now b).2 = sq_len (sq_sweep_expired now s).2) in Hl'.
  pose proof (sq_rows_count s (ag_wf2 _ _ Hag)) as Hc. pose proof (sq_sweep_count now s) as H2.
  assert (buf_len b <= usize_max) as Hle by (rewrite Hl; unfold sq_len, i64_max, usize_max, u64_max in *; lia).
  pose proof (buf_sweep_count now b Hle) as H1.
  change (SweepSaid (buf_sweep_expired now b).1 = SweepSaid (sq_sweep_expired now s).1). f_equal. lia.
Qed.

Lemma step_bounds b s op : twins b s ->
  tb_cap_per_recipient (transit_step b op) = sq_cap_per_recipient (transit_step s op) /\
  tb_max_total_bytes (transit_step b op) = sq_max_total_bytes (transit_step s op) /\
  tb_cap_per_recipient (transit_step b op) = tb_cap_per_recipient b /\ tb_max_total_bytes (transit_step b op) = tb_max_total_bytes b.
Proof.
  intros [Hag Hcap Hmax].
  assert (tb_cap_per_recipient (transit_step b op) = tb_cap_per_recipient b /\ tb_max_total_bytes (transit_step b op) = tb_max_total_bytes b) as [-> ->].
  { destruct op as [to e now|to ids|now]; cbn; [|unfold buf_delete; by repeat case_match|done].
    rewrite buf_enqueue_cases by apply Hag. cbv zeta. by repeat case_match. }
  rewrite Hcap, Hmax. destruct op as [to e now|to ids|now]; cbn; [unfold sq_enqueue; by repeat case_match| |done].
  unfold sq_delete. by destruct (delete_loop _ _ _).
Qed.

(** One call: the same answer and still in step, or a parting. *)
Lemma twins_step b s op : twins b s -> t_next b < i64_max -> timed (t_ttl b) op ->
  (transit_answer b op = transit_answer s op /\ twins (transit_step b op) (transit_step s op) /\
   t_next (transit_step b op) <= t_next b + 1 /\ t_ttl (transit_step b op) = t_ttl b) \/ parts b s op.
Proof.
  intros Htw Hlt Htm.
  assert (transit_answer b op = transit_answer s op \/ parts b s op) as [Heq|Hp]; [|left|by right].
  { destruct op; [by apply twins_enqueue|left; apply agree_delete, Htw|left; by apply twins_sweep]. }
  destruct (step_bounds b s op Htw) as (Hc & Hm & _). destruct (agree_step b s op (tw_agree _ _ Htw) Hlt Htm) as (Hag & Hn & Ht); [done|].
  split; [exact Heq|]. split; [by constructor|]. done.
Qed.

Lemma twins_run ops b s : twins b s -> t_next b + len ops <= i64_max -> Forall (timed (t_ttl b)) ops ->
  exists n, let b' := foldl transit_step b (take n ops) in let s' := foldl transit_step s (take n ops) in
    take n (transit_answers b ops) = take n (transit_answers s ops) /\ twins b' s' /\
    (length ops <= n \/ exists op, ops !! n = Some op /\ parts b' s' op)%nat.
Proof.
  revert b s. induction ops as [|op ops IH]; intros b s Htw Hn Hall; [exists 0%nat; split; [done|]; split; [done|by left]|].
  apply Forall_cons in Hall as [Hop Hall]. rewrite len_cons in Hn.
  destruct (twins_step b s op Htw) as [(Ha & Htw' & Hn' & Ht)|Hp]; [lia|done| |].
  - destruct (IH _ _ Htw') as (n & Han & Htwn & Hend); [lia|by rewrite Ht|]. exists (S n). cbn. rewrite Ha, Han. split; [done|]. split; [done|].
    destruct Hend as [|Hp]; [left; cbn; lia|by right].
  - exists 0%nat. split; [done|]. split; [done|]. right. by exists op.
Qed.
End twins.

(** *** Runs within both budgets *)

(** The most an enqueue adds to either account. *)
Definition op_cost `{EnvelopeCodec} (op : TransitOp) : N :=
  match op with
  | TEnqueue _ e _ => N.max (envelope_size e) (match env_to_bytes e with Ok bs => len bs | Err _ => 0 end)
  | _ => 0
  end.
Definition encodes `{EnvelopeCodec} (op : TransitOp) : bool :=
  match op with TEnqueue _ e _ => is_ok (env_to_bytes e) | _ => true end.

Section budget.
Context `{EnvelopeCodec} `{HQ : !HashIter AgentId (list (N * Entry))}.
Implicit Types (b : TransitBuffer) (s : SqliteTransitStore).

Lemma stored_step b op : buf_wf b -> stored_bytes (transit_step b op) <= stored_bytes b + op_cost op.
Proof.
  intros Hwf. destruct op as [to e now|to ids|now]; cbn.
  - rewrite buf_enqueue_cases by done. cbv zeta. case_match; [cbn; lia|]. case_match; cbn.
    + pose proof (stored_bytes_set b to (default [] (by_recipient b !! to))) as Hs. lia.
    + pose proof (stored_bytes_set b to (default [] (by_recipient b !! to) ++ [(tb_next_id b, Build_Entry e now)])) as Hs.
      unfold stored_bytes, queue_bytes in *. cbn in *. rewrite sum_by_app in Hs. cbn in Hs. unfold item_size in *. cbn in Hs. lia.
  - unfold buf_delete. destruct (by_recipient b !! to) as [q|] eqn:Hq; [|cbn; lia]. cbn.
    pose proof (stored_bytes_retain b to q (fun i => negb (bool_decide (i.1 ∈ ids))) Hq) as Hs. unfold stored_bytes in *. cbn in *. lia.
  - pose proof (stored_bytes_sweep now b) as Hs. unfold stored_bytes in *. cbn in *. lia.
Qed.

Lemma raw_filter (P : Row -> bool) rows : sum_by (fun r => len (r_envelope r)) (List.filter P rows) <= sum_by (fun r => len (r_envelope r)) rows.
Proof. rewrite (sum_by_filter_split _ P rows). lia. Qed.

Lemma raw_loop to ids : forall n rows,
  sum_by (fun r => len (r_envelope r)) (foldl (fun '(reclaimed, rows) id =>
           let '(k, rows) := delete_row to id rows in (saturating_add usize_max reclaimed k, rows)) (n, rows) ids).2
  <= sum_by (fun r => len (r_envelope r)) rows.
Proof.
  induction ids as [|id ids IH]; intros n rows; [done|]. cbn. etrans; [apply IH|]. apply raw_filter.
Qed.

Lemma raw_step s op : raw_bytes (transit_step s op) <= raw_bytes s + op_cost op.
Proof.
  destruct op as [to e now|to ids|now]; cbn; unfold raw_bytes.
  - unfold sq_enqueue. destruct (env_to_bytes e) as [bs|]; [|cbn; lia]. repeat (case_match; [cbn; lia|]). cbn. rewrite sum_by_app. cbn. lia.
  - unfold sq_delete. destruct (delete_loop to ids (sq_rows s)) as [n rows] eqn:E. cbn.
    pose proof (raw_loop to ids 0 (sq_rows s)) as Hr. unfold delete_loop in E. rewrite E in Hr. cbn in Hr. lia.
  - unfold sq_sweep_expired. cbn. etrans; [apply raw_filter|]. lia.
Qed.

Lemma affordable_not_parts b s op : encodes op = true ->
  stored_bytes b + op_cost op <= tb_max_total_bytes b -> raw_bytes s + op_cost op <= tb_max_total_bytes b -> ~ parts b s op.
Proof.
  intros He Hb Hs (to & e & now & -> & [[err Herr]|[_ Hne]]); cbn in *; [by rewrite Herr in He|].
  destruct Hne. transitivity false; [|symmetry]; apply N.ltb_ge; lia.
Qed.

Lemma affordable_run ops b s : twins b s -> t_next b + len ops <= i64_max -> Forall (timed (t_ttl b)) ops ->
  Forall (fun op => encodes op = true) ops ->
  stored_bytes b + sum_by op_cost ops <= tb_max_total_bytes b -> raw_bytes s + sum_by op_cost ops <= tb_max_total_bytes b ->
  transit_answers b ops = transit_answers s ops /\ twins (foldl transit_step b ops) (foldl transit_step s ops).
Proof.
  revert b s. induction ops as [|op ops IH]; intros b s Htw Hn Hall Henc Hb Hs; [done|].
  apply Forall_cons in Hall as [Hop Hall]. apply Forall_cons in Henc as [He Henc]. rewrite len_cons in Hn. cbn in Hb, Hs.
  destruct (twins_step b s op Htw) as [(Ha & Htw' & Hn' & Ht)|Hp]; [lia|done| |by apply affordable_not_parts in Hp; [|done|lia..]].
  pose proof (stored_step b op (ag_wf1 _ _ (tw_agree _ _ Htw))) as Hst. pose proof (raw_step s op) as Hrw.
  destruct (step_bounds b s op Htw) as (_ & _ & _ & Hmx).
  destruct (IH _ _ Htw') as [Hans Hend]; [lia|by rewrite Ht|done|rewrite Hmx; lia..|]. cbn. by rewrite Ha, Hans.
Qed.

Lemma twins_new ttl cap max : max < usize_max -> twins (buf_new ttl cap max) (sq_open ttl cap max).
Proof.
  intros Hm. split; [|done..]. split; [by apply buf_wf_new | apply sq_wf_open | done | done |].
  intros a. cbn. unfold buf_read_all. cbn. by rewrite lookup_empty.
Qed.
End budget.

(** C40: the durable store refines the in-memory one: opened with the same
    lifetime and bounds, they answer every run of enqueues, acknowledgements and
    sweeps alike and leave every recipient the same entries, ids and order
    included, up to the first enqueue whose envelope does not encode or that
    exceeds only one of the two byte budgets, which they charge differently; a
    run whose envelopes all encode and fit both budgets together is answered
    alike to its end.  Clocks are within [i64] and past the lifetime. *)
Theorem transit_stores_agree `{EnvelopeCodec} `{!HashIter AgentId (list (N * Entry))} (ttl cap max : N) (ops : list TransitOp) :
  max < usize_max -> 1 + len ops <= i64_max -> Forall (timed ttl) ops ->
  let b := buf_new ttl cap max in
  let s := sq_open ttl cap max in
  (exists n, take n (transit_answers b ops) = take n (transit_answers s ops) /\
     (forall a, t_read_all a (foldl transit_step b (take n ops)) = t_read_all a (foldl transit_step s (take n ops))) /\
     (length ops <= n \/ exists op, ops !! n = Some op /\
        parts (foldl transit_step b (take n ops)) (foldl transit_step s (take n ops)) op)%nat) /\
  (Forall (fun op => encodes op = true) ops -> sum_by op_cost ops <= max ->
   transit_answers b ops = transit_answers s ops /\
   forall a, t_read_all a (foldl transit_step b ops) = t_read_all a (foldl transit_step s ops)).
Proof.
  intros Hm Hn Hall b s. pose proof (twins_new ttl cap max Hm) as Htw. split.
  - destruct (twins_run ops b s Htw Hn Hall) as (n & Ha & [[_ _ _ _ Hr] _ _] & Hend). by exists n.
  - intros He Hc. destruct (affordable_run ops b s Htw Hn Hall He) as [Ha [[_ _ _ _ Hr] _ _]]; [done..|]. done.
Qed.

(** A codec that stores the envelope's ciphertext beside a fixed header. *)
#[local] Instance demo_env_codec : EnvelopeCodec.
Proof.
  refine {| env_to_bytes e := if decide (e = demo_envelope) then Ok [1] else Err "x"%string;
            env_from_bytes b := if decide (b = [1]) then Some demo_envelope else None |}.
  intros e b. case_decide; [|done]. intros [= <-]. by subst.
Defined.

Definition demo_transit_ops : list TransitOp :=
  [TEnqueue [2] demo_envelope 60; TEnqueue [3] demo_envelope 70; TDelete [3] [1; 2]; TSweep 100].
Lemma transit_stores_agree_witness :
  transit_answers (buf_new 50 4 1000) demo_transit_ops = transit_answers (sq_open 50 4 1000) demo_transit_ops /\
  t_read_all [2] (foldl transit_step (buf_new 50 4 1000) demo_transit_ops) =
  t_read_all [2] (foldl transit_step (sq_open 50 4 1000) demo_transit_ops).
Proof.
  destruct (transit_stores_agree 50 4 1000 demo_transit_ops) as [_ Hfit]; [by vm_compute | by vm_compute | repeat constructor; by vm_compute |].
  destruct Hfit as [Ha Hr]; [repeat constructor; by vm_compute | by vm_compute |]. split; [exact Ha | exact (Hr [2])].
Defined.

(** The budgets differ: two envelopes fill the first store's 300 bytes and leave the second room for a third. *)
Example transit_budgets_part :
  let ops := [TEnqueue [2] demo_envelope 60; TEnqueue [3] demo_envelope 70; TEnqueue [4] demo_envelope 80] in
  transit_answers (buf_new 50 4 300) ops <> transit_answers (sq_open 50 4 300) ops.
Proof. by vm_compute. Qed.
