(* ===== verification/GroupLog.v ===== *)
(** * The group log

    Models the seam [GroupLogStore], its in-memory implementation [RamGroupLog]
    ([crates/fetchit-relay-server/src/group_log.rs]) and the durable
    [SqliteGroupLog] ([group_log_sqlite.rs]).  As for the transit store, the trait
    is a class with the laws its comments promise and each store an instance. *)
From S2P Require Import Prelude RelayProto.

Record StoredLogRecord := {
  lr_seq : N;
  lr_kind : LogRecordKind;
  lr_recipient : option AgentId;
  lr_payload : bytes;
  lr_author : option AgentId;
  lr_inserted_at_ms : N;
}.

Definition lr_alive (now window : N) (r : StoredLogRecord) : bool :=
  now - lr_inserted_at_ms r <? window.

(** ** The seam *)

Class GroupLogStore (S : Type) := {
  g_append : GroupId -> LogRecordKind -> option AgentId -> bytes -> AgentId -> N -> S ->
             result N ServerError * S;
  g_fetch_since : GroupId -> N -> S -> list StoredLogRecord;
  g_sweep_expired : N -> S -> N * S;
  g_len : S -> N;
  g_total_bytes : S -> N;
  (** Specification state. *)
  g_wf : S -> Prop;
  g_next : GroupId -> S -> N;
  g_cap : S -> N;
  g_window : S -> N;
}.

Definition g_records {S} `{GroupLogStore S} (g : GroupId) (s : S) : list StoredLogRecord :=
  g_fetch_since g 0 s.

(** The newest [n] records. *)
Definition newest {A} (n : N) (l : list A) : list A := drop (length l - N.to_nat n) l.

(** Agent ids are 32 bytes; the durable store reads them back as such. *)
Definition agent_ok (a : AgentId) : Prop := length a = 32%nat.

Definition g_keeps {S} `{GroupLogStore S} (s s' : S) : Prop :=
  g_wf s' /\ g_cap s' = g_cap s /\ g_window s' = g_window s.

Class GroupLogLaws (S : Type) `{GroupLogStore S} := {
  g_seqs : forall s g, g_wf s ->
    StronglySorted N.lt (lr_seq <$> g_records g s) /\
    Forall (fun r => 0 < lr_seq r < g_next g s) (g_records g s);
  g_fetch_spec : forall s g n, g_wf s -> n <= i64_max ->
    g_fetch_since g n s = List.filter (fun r => n <? lr_seq r) (g_records g s);
  g_append_ok : forall s s' g k rc p au now seq, g_wf s -> g_next g s < i64_max -> now <= i64_max ->
    (forall a, rc = Some a -> agent_ok a) -> agent_ok au ->
    g_append g k rc p au now s = (Ok seq, s') ->
    g_keeps s s' /\ seq = g_next g s /\
    (forall g', g_next g' s' = if decide (g' = g) then g_next g s + 1 else g_next g' s) /\
    forall g', g_records g' s' =
      if decide (g' = g)
      then newest (g_cap s - 1) (g_records g s) ++ [Build_StoredLogRecord seq k rc p (Some au) now]
      else g_records g' s;
  g_append_err : forall s s' g k rc p au now er, g_wf s ->
    g_append g k rc p au now s = (Err er, s') -> s' = s;
  g_sweep_spec : forall s s' now n, g_wf s -> 0 < g_window s <= now -> now <= i64_max ->
    g_sweep_expired now s = (n, s') ->
    g_keeps s s' /\ (forall g, g_next g s' = g_next g s) /\
    forall g, g_records g s' = List.filter (lr_alive now (g_window s)) (g_records g s);
}.

(** ** The in-memory log *)

Definition RECORD_FIXED_OVERHEAD : N := 64.
Definition record_size (payload_len : N) : N :=
  saturating_add usize_max RECORD_FIXED_OVERHEAD payload_len.

Record GroupSlot := mkSlot { gs_next_seq : N; gs_records : list StoredLogRecord }.

Record RamGroupLog := mkLog {
  gl_groups : gmap GroupId GroupSlot;
  gl_window_ms : N;
  gl_per_group_cap : N;
  gl_max_total_bytes : N;
  gl_total_bytes : N;
}.

Definition log_new (window_ms per_group_cap max_total_bytes : N) : RamGroupLog :=
  mkLog ∅ window_ms per_group_cap max_total_bytes 0.

Definition log_set (groups : gmap GroupId GroupSlot) (total : N) (s : RamGroupLog) : RamGroupLog :=
  mkLog groups (gl_window_ms s) (gl_per_group_cap s) (gl_max_total_bytes s) total.

Definition log_reserve_bytes (size : N) (s : RamGroupLog) : result RamGroupLog ServerError :=
  let next := saturating_add usize_max (gl_total_bytes s) size in
  if gl_max_total_bytes s <? next then Err GroupLogFull else Ok (log_set (gl_groups s) next s).

Definition lr_size (r : StoredLogRecord) : N := record_size (len (lr_payload r)).

(** [while slot.records.len() >= per_group_cap]: pop the oldest, release it. *)
Fixpoint evict_front (cap : N) (records : list StoredLogRecord) (total : N)
    : list StoredLogRecord * N :=
  match records with
  | [] => ([], total)
  | old :: rest =>
      if cap <=? len records
      then evict_front cap rest (wrapping_sub usize_max total (lr_size old))
      else (records, total)
  end.

Definition ram_append (group : GroupId) (kind : LogRecordKind) (recipient : option AgentId)
    (payload : bytes) (author : AgentId) (now_ms : N) (s : RamGroupLog)
    : result N ServerError * RamGroupLog :=
  match log_reserve_bytes (record_size (len payload)) s with
  | Err e => (Err e, s)
  | Ok s =>
      let slot := default (mkSlot 1 []) (gl_groups s !! group) in
      let '(records, total) := evict_front (gl_per_group_cap s) (gs_records slot) (gl_total_bytes s) in
      let seq := gs_next_seq slot in
      let r := Build_StoredLogRecord seq kind recipient payload (Some author) now_ms in
      (Ok seq,
       log_set (<[group := mkSlot (saturating_add u64_max seq 1) (records ++ [r])]> (gl_groups s))
         total s)
  end.

Definition ram_fetch_since (group : GroupId) (since_seq : N) (s : RamGroupLog)
    : list StoredLogRecord :=
  match gl_groups s !! group with
  | Some slot => List.filter (fun r => since_seq <? lr_seq r) (gs_records slot)
  | None => []
  end.

(** Slots are kept even when emptied. *)
Definition sweep_slot (now window : N) (slot : GroupSlot) : GroupSlot :=
  mkSlot (gs_next_seq slot) (List.filter (fun r => now -| lr_inserted_at_ms r <? window) (gs_records slot)).

Definition ram_sweep_expired `{!HashIter GroupId GroupSlot} (now_ms : N) (s : RamGroupLog)
    : N * RamGroupLog :=
  let dead := List.filter (fun r => negb (now_ms -| lr_inserted_at_ms r <? gl_window_ms s)) in
  let slots := hm_values (gl_groups s) in
  let evicted := foldl (saturating_add usize_max) 0 ((fun sl => len (dead (gs_records sl))) <$> slots) in
  let freed := foldl (saturating_add usize_max) 0
    (lr_size <$> List.concat ((fun sl => dead (gs_records sl)) <$> slots)) in
  (evicted,
   log_set (sweep_slot now_ms (gl_window_ms s) <$> gl_groups s)
     (wrapping_sub usize_max (gl_total_bytes s) freed) s).

Definition ram_len `{!HashIter GroupId GroupSlot} (s : RamGroupLog) : N :=
  sum_by (fun sl => len (gs_records sl)) (hm_values (gl_groups s)).

(** *** Invariant *)

Definition slot_bytes (slot : GroupSlot) : N := sum_by lr_size (gs_records slot).

Definition slot_wf (slot : GroupSlot) : Prop :=
  StronglySorted N.lt (lr_seq <$> gs_records slot) /\
  Forall (fun r => 0 < lr_seq r < gs_next_seq slot) (gs_records slot) /\
  0 < gs_next_seq slot <= i64_max.

Record log_wf (s : RamGroupLog) : Prop := {
  lw_slots : forall g slot, gl_groups s !! g = Some slot -> slot_wf slot;
  lw_bytes : gl_total_bytes s = msum slot_bytes (gl_groups s);
  lw_bound : gl_total_bytes s <= gl_max_total_bytes s;
  lw_cap : gl_max_total_bytes s < usize_max;
}.

Definition ram_next (g : GroupId) (s : RamGroupLog) : N :=
  gs_next_seq (default (mkSlot 1 []) (gl_groups s !! g)).

Lemma log_wf_new w c m : m < usize_max -> log_wf (log_new w c m).
Proof. intros Hm. constructor; cbn; try done. lia. Qed.

Lemma newest_nil {A} n : newest n (@nil A) = [].
Proof. unfold newest. by rewrite drop_nil. Qed.

Lemma newest_bytes {A} (f : A -> N) n l : sum_by f (newest n l) <= sum_by f l.
Proof.
  unfold newest. set (k := (length l - N.to_nat n)%nat).
  pose proof (sum_by_app f (take k l) (drop k l)) as Hsp. rewrite take_drop in Hsp. lia.
Qed.

(** What the eviction loop leaves, and the counter after it. *)
Lemma evict_front_spec cap records total :
  sum_by lr_size records <= total -> total <= usize_max ->
  evict_front cap records total =
  (newest (cap - 1) records,
   total - (sum_by lr_size records - sum_by lr_size (newest (cap - 1) records))).
Proof.
  revert total. induction records as [|r records IH]; intros total Hs Ht.
  { rewrite newest_nil. cbn. f_equal. lia. }
  cbn [evict_front]. destruct (N.leb_spec cap (len (r :: records))) as [Hle|Hlt].
  - cbn in Hs. rewrite wrapping_sub_small by lia. rewrite IH by lia.
    assert (newest (cap - 1) (r :: records) = newest (cap - 1) records) as ->.
    { unfold newest, len in *. cbn [length] in *.
      replace (S (length records) - N.to_nat (cap - 1))%nat
        with (S (length records - N.to_nat (cap - 1))) by lia. done. }
    f_equal. cbn.
    pose proof (newest_bytes lr_size (cap - 1) records). lia.
  - assert (newest (cap - 1) (r :: records) = r :: records) as ->.
    { unfold newest, len in *. cbn [length] in *.
      replace (S (length records) - N.to_nat (cap - 1))%nat with 0%nat by lia. done. }
    f_equal. lia.
Qed.

Lemma newest_sub {A} (P : A -> Prop) n l : Forall P l -> Forall P (newest n l).
Proof. intros Hl. by apply Forall_drop. Qed.

Lemma newest_sorted n (l : list StoredLogRecord) :
  StronglySorted N.lt (lr_seq <$> l) -> StronglySorted N.lt (lr_seq <$> newest n l).
Proof.
  unfold newest. generalize (length l - N.to_nat n)%nat as k. induction l as [|x l IH]; intros k Hs.
  { by rewrite drop_nil. }
  destruct k as [|k]; [done|]. cbn. apply StronglySorted_inv in Hs as [Hs _]. by apply IH.
Qed.

Lemma append_slot_wf slot n k rc p au now :
  slot_wf slot -> gs_next_seq slot < i64_max ->
  slot_wf (mkSlot (gs_next_seq slot + 1) (newest n (gs_records slot) ++
    [Build_StoredLogRecord (gs_next_seq slot) k rc p (Some au) now])).
Proof.
  intros (Hs & Hall & Hnx) Hn. split; [|split; [|cbn; lia]]; cbn.
  - rewrite fmap_app. apply StronglySorted_snoc_lt; [by apply newest_sorted|].
    apply Forall_fmap. eapply Forall_impl; [by apply newest_sub|]. cbn. lia.
  - apply Forall_app. split; [|repeat constructor; cbn; lia].
    eapply Forall_impl; [by apply newest_sub|]. cbn. lia.
Qed.

Section ram_log.
Context `{HG : !HashIter GroupId GroupSlot}.

#[export] Instance ram_group_log : GroupLogStore RamGroupLog := {
  g_append := ram_append;
  g_fetch_since := ram_fetch_since;
  g_sweep_expired := ram_sweep_expired;
  g_len := ram_len;
  g_total_bytes := gl_total_bytes;
  g_wf := log_wf;
  g_next := ram_next;
  g_cap := gl_per_group_cap;
  g_window := gl_window_ms;
}.

Lemma slot_wf_default (s : RamGroupLog) g :
  log_wf s -> slot_wf (default (mkSlot 1 []) (gl_groups s !! g)).
Proof.
  intros Hwf. destruct (gl_groups s !! g) as [slot|] eqn:Hg; [by apply (lw_slots s Hwf g)|].
  split; [constructor|]. split; [constructor | done].
Qed.

Lemma ram_records g s :
  log_wf s -> ram_fetch_since g 0 s = gs_records (default (mkSlot 1 []) (gl_groups s !! g)).
Proof.
  intros Hwf. pose proof (slot_wf_default s g Hwf) as (_ & Hall & _). unfold ram_fetch_since.
  destruct (gl_groups s !! g) as [slot|]; [|done]. cbn in *.
  rewrite <- (List.filter_true (gs_records slot)) at 2. apply List.filter_ext_in.
  intros r Hr%list_elem_of_In. rewrite Forall_forall in Hall. specialize (Hall r Hr).
  apply N.ltb_lt. lia.
Qed.

Lemma slot_bytes_le s g :
  log_wf s -> slot_bytes (default (mkSlot 1 []) (gl_groups s !! g)) <= gl_total_bytes s.
Proof.
  intros Hwf. destruct (gl_groups s !! g) as [slot|] eqn:Hg; [|cbn; lia]. cbn.
  rewrite (lw_bytes s Hwf). by apply (msum_le_lookup slot_bytes _ g).
Qed.

Lemma ram_append_cases g k rc p au now s :
  log_wf s ->
  let slot := default (mkSlot 1 []) (gl_groups s !! g) in
  let old := newest (gl_per_group_cap s - 1) (gs_records slot) in
  let size := record_size (len p) in
  ram_append g k rc p au now s =
  if gl_max_total_bytes s <? gl_total_bytes s + size then (Err GroupLogFull, s)
  else (Ok (gs_next_seq slot),
        log_set (<[g := mkSlot (saturating_add u64_max (gs_next_seq slot) 1)
                     (old ++ [Build_StoredLogRecord (gs_next_seq slot) k rc p (Some au) now])]>
                   (gl_groups s))
          (gl_total_bytes s + size - (slot_bytes slot - sum_by lr_size old)) s).
Proof.
  intros Hwf slot old size. pose proof (lw_cap s Hwf). pose proof (lw_bound s Hwf).
  pose proof (slot_bytes_le s g Hwf) as Hsb. fold slot in Hsb.
  unfold ram_append, log_reserve_bytes, saturating_add at 1 2.
  destruct (N.ltb_spec (gl_max_total_bytes s) (gl_total_bytes s + record_size (len p))) as [Hlt|Hge].
  { rewrite (proj2 (N.ltb_lt _ _)) by lia. unfold size. rewrite (proj2 (N.ltb_lt _ _)) by lia. done. }
  rewrite (proj2 (N.ltb_ge _ _)) by lia. unfold size. rewrite (proj2 (N.ltb_ge _ _)) by lia.
  cbn. fold slot. rewrite N.min_r by lia.
  rewrite evict_front_spec by (unfold slot_bytes in Hsb; lia). done.
Qed.

Lemma ram_law_append_ok s s' g k rc p au now seq :
  log_wf s -> ram_next g s < i64_max -> ram_append g k rc p au now s = (Ok seq, s') ->
  g_keeps s s' /\ seq = ram_next g s /\
  (forall g', ram_next g' s' = if decide (g' = g) then ram_next g s + 1 else ram_next g' s) /\
  forall g', ram_fetch_since g' 0 s' =
    if decide (g' = g)
    then newest (gl_per_group_cap s - 1) (ram_fetch_since g 0 s) ++
         [Build_StoredLogRecord seq k rc p (Some au) now]
    else ram_fetch_since g' 0 s.
Proof.
  intros Hwf Hn. rewrite ram_append_cases by done. cbv zeta.
  rewrite (ram_records g s Hwf). unfold ram_next in Hn.
  pose proof (slot_wf_default s g Hwf) as (Hs & Hall & Hnx).
  pose proof (slot_bytes_le s g Hwf) as Hsb.
  set (slot := default (mkSlot 1 []) (gl_groups s !! g)) in *.
  set (old := newest (gl_per_group_cap s - 1) (gs_records slot)) in *.
  destruct (N.ltb_spec (gl_max_total_bytes s) (gl_total_bytes s + record_size (len p))); [done|].
  intros [= <- <-].
  assert (saturating_add u64_max (gs_next_seq slot) 1 = gs_next_seq slot + 1) as Hsat
    by (unfold saturating_add, i64_max, u64_max in *; lia). rewrite Hsat.
  pose proof (append_slot_wf slot (gl_per_group_cap s - 1) k rc p au now
    (slot_wf_default s g Hwf) Hn) as Hsw. fold old in Hsw.
  set (r := Build_StoredLogRecord (gs_next_seq slot) k rc p (Some au) now) in *.
  assert (log_wf (log_set (<[g := mkSlot (gs_next_seq slot + 1) (old ++ [r])]> (gl_groups s))
    (gl_total_bytes s + record_size (len p) - (slot_bytes slot - sum_by lr_size old)) s)) as Hwf'.
  { pose proof (newest_bytes lr_size (gl_per_group_cap s - 1) (gs_records slot)) as Hold.
    fold old in Hold. destruct Hwf as [Hsl Hb Hle Hc]. constructor; cbn; [| |lia|done].
    - intros g' slot'. rewrite lookup_insert_Some. intros [[<- <-]|[_ Hg']]; [done | by apply (Hsl g')].
    - pose proof (msum_set slot_bytes (gl_groups s) g (mkSlot 1 [])
        (mkSlot (gs_next_seq slot + 1) (old ++ [r])) eq_refl) as Hms. fold slot in Hms.
      unfold slot_bytes in *. cbn in Hms. rewrite sum_by_app in Hms. cbn in Hms.
      change (lr_size r) with (record_size (len p)) in Hms. lia. }
  split; [split; [done | by split]|]. split; [done|]. split.
  - intros g'. unfold ram_next. cbn. case_decide; subst; [by rewrite lookup_insert_eq|].
    by rewrite lookup_insert_ne.
  - intros g'. rewrite ram_records by done. cbn. case_decide; subst.
    + by rewrite lookup_insert_eq.
    + rewrite lookup_insert_ne by done. by rewrite ram_records.
Qed.

Lemma sweep_bytes (now w : N) (m : gmap GroupId GroupSlot) :
  sum_by lr_size (List.concat ((fun sl => List.filter
    (fun r => negb (now -| lr_inserted_at_ms r <? w)) (gs_records sl)) <$> hm_values m))
  + msum slot_bytes (sweep_slot now w <$> m) = msum slot_bytes m.
Proof.
  rewrite sum_by_concat, sum_by_fmap, <- msum_hm_values. rewrite msum_fmap.
  symmetry. apply msum_add. intros sl. unfold slot_bytes. cbn.
  rewrite (sum_by_filter_split lr_size (fun r => now -| lr_inserted_at_ms r <? w)). lia.
Qed.

Lemma ram_law_sweep s s' now n :
  log_wf s -> ram_sweep_expired now s = (n, s') ->
  g_keeps s s' /\ (forall g, ram_next g s' = ram_next g s) /\
  forall g, ram_fetch_since g 0 s' =
    List.filter (lr_alive now (gl_window_ms s)) (ram_fetch_since g 0 s).
Proof.
  intros Hwf. unfold ram_sweep_expired. cbv zeta. intros [= <- <-].
  set (dead := List.filter (fun r => negb (now -| lr_inserted_at_ms r <? gl_window_ms s))).
  set (freed := foldl _ 0 _).
  assert (freed + msum slot_bytes (sweep_slot now (gl_window_ms s) <$> gl_groups s)
    = gl_total_bytes s) as Hfreed.
  { pose proof (sweep_bytes now (gl_window_ms s) (gl_groups s)) as Hsw. rewrite <- (lw_bytes s Hwf) in Hsw.
    pose proof (lw_bound s Hwf). pose proof (lw_cap s Hwf).
    unfold freed. rewrite foldl_saturating by lia. rewrite sum_by_fmap. unfold id.
    fold dead in Hsw. change (sum_by (fun x => lr_size x)) with (sum_by lr_size). lia. }
  assert (log_wf (log_set (sweep_slot now (gl_window_ms s) <$> gl_groups s)
    (wrapping_sub usize_max (gl_total_bytes s) freed) s)) as Hwf'.
  { pose proof (lw_bound s Hwf). pose proof (lw_cap s Hwf).
    rewrite wrapping_sub_small by lia. constructor; cbn; [|lia|lia|done].
    intros g slot. rewrite lookup_fmap, fmap_Some. intros (slot0 & Hg & ->).
    apply (lw_slots s Hwf) in Hg as (Hs & Hall & Hnx).
    split; [by apply StronglySorted_filter_keys|]. split; [|done]. cbn.
    rewrite Forall_forall in Hall |- *. intros r [_ Hr]%elem_of_list_filter_bool. by apply Hall. }
  split; [split; [done | by split]|]. split.
  - intros g. unfold ram_next. cbn. rewrite lookup_fmap. by destruct (gl_groups s !! g).
  - intros g. rewrite !ram_records by done. cbn. rewrite lookup_fmap.
    by destruct (gl_groups s !! g).
Qed.

#[export] Instance ram_group_log_laws : GroupLogLaws RamGroupLog.
Proof.
  constructor; cbn.
  - intros s g Hwf. unfold g_records. cbn. rewrite ram_records by done.
    destruct (slot_wf_default s g Hwf) as (? & ? & _). done.
  - intros s g n Hwf _. unfold g_records. cbn. rewrite ram_records by done.
    unfold ram_fetch_since. by destruct (gl_groups s !! g).
  - intros s s' g k rc p au now seq Hwf Hn _ _ _ He. unfold g_records. cbn.
    by eapply ram_law_append_ok.
  - intros s s' g k rc p au now er Hwf. rewrite ram_append_cases by done. cbv zeta.
    case_match; [by intros [= _ <-] | done].
  - intros s s' now n Hwf _ _ He. unfold g_records. cbn. by eapply ram_law_sweep.
Qed.

End ram_log.

(** ** What every group log guarantees its clients *)

Inductive LogOp :=
| LAppend (g : GroupId) (k : LogRecordKind) (rc : option AgentId) (p : bytes) (au : AgentId) (now : N)
| LSweep (now : N).

Section log_clients.
Context {S : Type} `{GroupLogLaws S}.

Definition log_step (s : S) (op : LogOp) : S :=
  match op with
  | LAppend g k rc p au now => (g_append g k rc p au now s).2
  | LSweep now => (g_sweep_expired now s).2
  end.

(** The record an operation puts on [g]'s log, if it does. *)
Definition adds (g : GroupId) (s : S) (op : LogOp) : option StoredLogRecord :=
  match op with
  | LAppend g' k rc p au now =>
      match (g_append g' k rc p au now s).1 with
      | Ok seq => if decide (g' = g) then Some (Build_StoredLogRecord seq k rc p (Some au) now) else None
      | Err _ => None
      end
  | LSweep _ => None
  end.

(** The records a run puts on [g]'s log, oldest first. *)
Fixpoint added (g : GroupId) (s : S) (ops : list LogOp) : list StoredLogRecord :=
  match ops with
  | [] => []
  | op :: rest => option_list (adds g s op) ++ added g (log_step s op) rest
  end.

Definition log_timed (window : N) (op : LogOp) : Prop :=
  match op with
  | LAppend _ _ rc _ au now => now <= i64_max /\ (forall a, rc = Some a -> agent_ok a) /\ agent_ok au
  | LSweep now => 0 < window <= now /\ now <= i64_max
  end.

Lemma log_step_spec s op :
  g_wf s -> (forall g, g_next g s < i64_max) -> log_timed (g_window s) op ->
  g_keeps s (log_step s op) /\
  forall g, match adds g s op with
    | Some r => lr_seq r = g_next g s /\ g_next g (log_step s op) = g_next g s + 1 /\
        g_records g (log_step s op) = newest (g_cap s - 1) (g_records g s) ++ [r]
    | None => g_next g (log_step s op) = g_next g s /\
        (g_records g (log_step s op) = g_records g s \/ exists now, op = LSweep now)
    end.
Proof.
  intros Hwf Hn Ht. destruct op as [g k rc p au now|now]; cbn in *.
  - destruct Ht as (Hnow & Hrc & Hau).
    destruct (g_append g k rc p au now s) as [[seq|er] s'] eqn:He; cbn.
    + apply g_append_ok in He as (Hk & -> & Hnx & Hrec); [|done..]. split; [done|].
      intros g'. specialize (Hnx g'). specialize (Hrec g').
      destruct (decide (g = g')) as [->|Hne].
      * rewrite decide_True in Hnx by done. by rewrite decide_True in Hrec by done.
      * rewrite decide_False in Hnx by congruence. rewrite decide_False in Hrec by congruence. auto.
    + apply g_append_err in He; [|done]. subst. split; [done|]. intros g'. auto.
  - destruct Ht as [Hw Hnow]. destruct (g_sweep_expired now s) as [n s'] eqn:He. cbn.
    apply g_sweep_spec in He as (Hk & Hnx & _); [|done..]. split; [done|]. intros g.
    split; [done | by eauto].
Qed.

Lemma log_next_le s op g :
  g_wf s -> (forall g, g_next g s < i64_max) -> log_timed (g_window s) op ->
  g_next g (log_step s op) <= g_next g s + 1.
Proof.
  intros Hwf Hn Ht. destruct (log_step_spec s op Hwf Hn Ht) as [_ Hg]. specialize (Hg g).
  destruct (adds g s op) as [r|]; [|lia]. destruct Hg as (_ & -> & _). lia.
Qed.

Lemma added_seqs ops s g :
  g_wf s -> (forall g, g_next g s + len ops <= i64_max) -> Forall (log_timed (g_window s)) ops ->
  g_next g s <= g_next g (foldl log_step s ops) /\
  lr_seq <$> added g s ops = range (g_next g s) (g_next g (foldl log_step s ops)).
Proof.
  revert s. induction ops as [|op ops IH]; intros s Hwf Hn Hall.
  { cbn. split; [lia|]. unfold range. by rewrite N.sub_diag. }
  apply Forall_cons in Hall as [Hop Hall]. unfold len in *. cbn [length] in Hn.
  assert (forall g, g_next g s < i64_max) as Hlt by (intros g'; specialize (Hn g'); lia).
  destruct (log_step_spec s op Hwf Hlt Hop) as [(Hwf' & Hcap & Hwin) Hg]. specialize (Hg g).
  destruct (IH (log_step s op)) as [Hle Hseqs]; [done| |by rewrite Hwin|].
  { intros g'. pose proof (log_next_le s op g' Hwf Hlt Hop). specialize (Hn g'). lia. }
  cbn. rewrite fmap_app, Hseqs. destruct (adds g s op) as [r|]; cbn.
  - destruct Hg as (Hr & Hnx & _). rewrite Hnx, Hr in *.
    split; [lia|]. by rewrite (range_cons (g_next g s)) by lia.
  - destruct Hg as [Hnx _]. by rewrite Hnx in *.
Qed.

(** Through any run of appends (admitted or not)
    and retention sweeps, on any log that meets the seam's laws, the sequence
    numbers a group's records get are consecutive from the group's counter: none
    is skipped, and none is ever reused, not even after every record of the group
    was evicted or swept. *)
Theorem group_log_seq_never_reused (s : S) (ops : list LogOp) (g : GroupId) :
  g_wf s -> (forall g', g_next g' s + len ops <= i64_max) -> Forall (log_timed (g_window s)) ops ->
  lr_seq <$> added g s ops = range (g_next g s) (g_next g (foldl log_step s ops)).
Proof. intros. by apply added_seqs. Qed.

(** *** Catching up *)

Definition is_append (op : LogOp) : Prop := match op with LAppend _ _ _ _ _ _ => True | _ => False end.

(** Evicting down to [n] loses nothing of a tail of at most [n] records. *)
Lemma newest_keeps_tail n since (l : list StoredLogRecord) :
  StronglySorted N.lt (lr_seq <$> l) ->
  len (List.filter (fun r => since <? lr_seq r) l) <= n ->
  List.filter (fun r => since <? lr_seq r) (newest n l) =
  List.filter (fun r => since <? lr_seq r) l.
Proof.
  intros Hs Hn. unfold newest. set (k := (length l - N.to_nat n)%nat).
  assert (List.filter (fun r => since <? lr_seq r) (take k l) = []) as Hnil.
  { apply list_filter_bool_nil. intros x Hx. destruct (N.ltb_spec since (lr_seq x)) as [Hlt|]; [|done].
    exfalso. rewrite <- (take_drop k l), List.filter_app in Hn.
    assert (List.filter (fun r => since <? lr_seq r) (drop k l) = drop k l) as Hd.
    { apply list_filter_bool_all. intros y Hy. apply N.ltb_lt.
      assert (lr_seq x < lr_seq y); [|lia].
      rewrite <- (take_drop k l), fmap_app in Hs.
      eapply StronglySorted_app_lt; [exact Hs| |]; by apply list_elem_of_fmap_2. }
    rewrite Hd in Hn. unfold len in Hn. rewrite length_app, length_drop in Hn.
    assert (length (List.filter (fun r => since <? lr_seq r) (take k l)) <> 0%nat).
    { destruct (List.filter _ (take k l)) eqn:Hf; [|done].
      assert (x ∈ List.filter (fun r => since <? lr_seq r) (take k l)) as Hin
        by (apply elem_of_list_filter_bool; split; [by apply N.ltb_lt | done]).
      rewrite Hf in Hin. by apply elem_of_nil in Hin. }
    assert (k <= length l)%nat by lia.
    assert (0 < k)%nat; [|lia]. destruct k; [|lia]. by apply elem_of_nil in Hx. }
  rewrite <- (take_drop k l) at 2. by rewrite List.filter_app, Hnil.
Qed.

Lemma catch_up_run ops s g since :
  g_wf s -> (forall g, g_next g s + len ops <= i64_max) -> Forall (log_timed (g_window s)) ops ->
  Forall is_append ops -> since < g_next g s ->
  let tail := List.filter (fun r => since <? lr_seq r) in
  len (tail (g_records g s)) + len (added g s ops) <= g_cap s ->
  tail (g_records g (foldl log_step s ops)) = tail (g_records g s) ++ added g s ops.
Proof.
  intros Hwf Hn Hall Happ Hsince tail. revert s Hwf Hn Hall Happ Hsince.
  induction ops as [|op ops IH]; intros s Hwf Hn Hall Happ Hsince Hcap; cbn.
  { by rewrite app_nil_r. }
  apply Forall_cons in Hall as [Hop Hall]. apply Forall_cons in Happ as [Ha Happ].
  unfold len in *. cbn [length] in Hn.
  assert (forall g, g_next g s < i64_max) as Hlt by (intros g'; specialize (Hn g'); lia).
  destruct (log_step_spec s op Hwf Hlt Hop) as [(Hwf' & Hcap' & Hwin) Hg]. specialize (Hg g).
  destruct (g_seqs s g Hwf) as [Hs _].
  assert (since < g_next g (log_step s op) /\ tail (g_records g (log_step s op)) =
    tail (g_records g s) ++ option_list (adds g s op)) as [Hsince' Htail].
  { cbn in Hcap. rewrite length_app in Hcap. destruct (adds g s op) as [r|]; cbn in *.
    - destruct Hg as (Hr & Hnx & Hrec). split; [lia|]. rewrite Hrec. unfold tail.
      rewrite List.filter_app, newest_keeps_tail; [|done|unfold tail, len in *; lia]. f_equal.
      cbn. by rewrite (proj2 (N.ltb_lt since (lr_seq r))) by lia.
    - destruct Hg as (Hnx & [-> | [now ->]]); [|done]. rewrite Hnx. by rewrite app_nil_r. }
  rewrite IH; try done.
  - rewrite Htail. cbn. by rewrite <- app_assoc.
  - intros g'. pose proof (log_next_le s op g' Hwf Hlt Hop). specialize (Hn g'). lia.
  - by rewrite Hwin.
  - rewrite Htail, Hcap'. cbn in Hcap. rewrite length_app in *. lia.
Qed.

(** A member that has read a group's log to its end and
    then misses at most a cap's worth of records gets, on its next fetch, exactly
    the records appended since, in order: per-group eviction never costs a member
    that is less than the cap behind. *)
Theorem group_log_catch_up (s : S) (ops : list LogOp) (g : GroupId) :
  g_wf s -> 0 < g_next g s -> (forall g', g_next g' s + len ops <= i64_max) ->
  Forall (log_timed (g_window s)) ops -> Forall is_append ops ->
  len (added g s ops) <= g_cap s ->
  g_fetch_since g (g_next g s - 1) (foldl log_step s ops) = added g s ops.
Proof.
  intros Hwf Hpos Hn Hall Happ Hcap.
  assert (List.filter (fun r => g_next g s - 1 <? lr_seq r) (g_records g s) = []) as Hnil.
  { apply list_filter_bool_nil. intros r Hr. destruct (g_seqs s g Hwf) as [_ Hlt].
    rewrite Forall_forall in Hlt. specialize (Hlt r Hr). apply N.ltb_ge. lia. }
  assert (g_wf (foldl log_step s ops)) as Hwf'.
  { clear Hcap Happ Hnil Hpos. revert s Hwf Hn Hall. induction ops as [|op ops IH]; intros s Hwf Hn Hall; [done|].
    apply Forall_cons in Hall as [Hop Hall]. unfold len in *. cbn [length] in Hn.
    assert (forall g, g_next g s < i64_max) as Hlt by (intros g'; specialize (Hn g'); lia).
    destruct (log_step_spec s op Hwf Hlt Hop) as [(Hwf' & _ & Hwin) _]. cbn. apply IH; try done.
    - intros g'. pose proof (log_next_le s op g' Hwf Hlt Hop). specialize (Hn g'). lia.
    - by rewrite Hwin. }
  rewrite g_fetch_spec; [|done|specialize (Hn g); lia].
  rewrite catch_up_run; [by rewrite Hnil|done..|lia|rewrite Hnil; unfold len in *; cbn; lia].
Qed.
End log_clients.

(** ** Witnesses *)

Definition demo_agent : AgentId := repeat 7 32.
Definition demo_append (g : GroupId) (t : N) : LogOp := LAppend g Commit None [1; 2] demo_agent t.
Definition demo_log_ops : list LogOp :=
  [demo_append [1] 200; demo_append [2] 201; LSweep 500; demo_append [1] 600].

Lemma demo_log_next g' : g_next g' (log_new 100 2 1000) + 4 <= i64_max.
Proof. unfold g_next. cbn. unfold ram_next. cbn. by rewrite lookup_empty. Qed.

Lemma group_log_seq_never_reused_witness :
  lr_seq <$> added [1] (log_new 100 2 1000) demo_log_ops = [1; 2] /\
  g_records [1] (foldl log_step (log_new 100 2 1000) (take 3 demo_log_ops)) = [].
Proof.
  split; [|by vm_compute].
  rewrite (group_log_seq_never_reused (log_new 100 2 1000) demo_log_ops [1]).
  - by vm_compute.
  - by apply log_wf_new.
  - apply demo_log_next.
  - repeat constructor; by vm_compute.
Defined.

Definition demo_log : RamGroupLog := log_step (log_new 100 2 1000) (demo_append [1] 199).
Definition demo_log_more : list LogOp :=
  [demo_append [1] 200; demo_append [1] 201; demo_append [2] 202].

Lemma demo_log_spec :
  g_wf demo_log /\ forall g', g_next g' demo_log + 3 <= i64_max.
Proof.
  assert (forall g, g_next g (log_new 100 2 1000) < i64_max) as Hn.
  { intros g. pose proof (demo_log_next g). lia. }
  assert (log_timed (g_window (log_new 100 2 1000)) (demo_append [1] 199)) as Ht
    by (repeat constructor; by vm_compute).
  assert (g_wf (log_new 100 2 1000)) as Hwf by by apply log_wf_new.
  split; [by apply (log_step_spec (log_new 100 2 1000))|]. intros g'.
  pose proof (log_next_le (log_new 100 2 1000) _ g' Hwf Hn Ht). pose proof (demo_log_next g').
  unfold demo_log. lia.
Qed.

Lemma group_log_catch_up_witness :
  lr_seq <$> g_fetch_since [1] (g_next [1] demo_log - 1) (foldl log_step demo_log demo_log_more)
  = [2; 3].
Proof.
  rewrite (group_log_catch_up demo_log demo_log_more [1]).
  - by vm_compute.
  - apply demo_log_spec.
  - by vm_compute.
  - apply demo_log_spec.
  - repeat constructor; by vm_compute.
  - repeat constructor.
  - by vm_compute.
Defined.
