(* ===== verification/GroupLogSqlite.v ===== *)
(** * The durable group log

    Models [crates/fetchit-relay-server/src/group_log_sqlite.rs].  The
    [group_log] table is its list of rows in rowid order, [group_log_seq] the
    per-group watermark; each statement of a transaction is applied in turn and
    statements do not fail, so the transaction commits as a whole. *)
From S2P Require Import Prelude RelayProto GroupLog.

Definition LOG_FIXED_OVERHEAD : N := 64.

Definition kind_to_i64 (k : LogRecordKind) : N := match k with Commit => 0 | JoinResult => 1 end.
Definition kind_from_i64 (v : N) : option LogRecordKind :=
  match v with 0 => Some Commit | 1 => Some JoinResult | _ => None end.

(** A row of the [group_log] table. *)
Record LogRow := {
  gr_group_id : GroupId;
  gr_seq : N;
  gr_kind : N;
  gr_recipient : option bytes;
  gr_payload : bytes;
  gr_author : option bytes;
  gr_inserted_at_ms : N;
}.

Record SqliteGroupLog := mkSqLog {
  sg_rows : list LogRow;
  sg_seq : gmap GroupId N;
  sg_window_ms : N;
  sg_per_group_cap : N;
  sg_max_total_bytes : N;
}.

Definition sg_open (window_ms per_group_cap max_total_bytes : N) : SqliteGroupLog :=
  mkSqLog [] ∅ window_ms per_group_cap max_total_bytes.

Definition sg_with (rows : list LogRow) (seqs : gmap GroupId N) (s : SqliteGroupLog)
    : SqliteGroupLog :=
  mkSqLog rows seqs (sg_window_ms s) (sg_per_group_cap s) (sg_max_total_bytes s).

Definition in_group (g : GroupId) (r : LogRow) : bool := bool_decide (gr_group_id r = g).

(** [ORDER BY seq]. *)
Definition seq_le (a b : LogRow) : Prop := gr_seq a <= gr_seq b.
#[export] Instance seq_le_dec : RelDecision seq_le.
Proof. intros a b. unfold seq_le. apply _. Defined.
Definition order_by_seq (rows : list LogRow) : list LogRow := merge_sort seq_le rows.

Definition sg_raw_bytes (s : SqliteGroupLog) : N := sum_by (fun r => len (gr_payload r)) (sg_rows s).

(** [DELETE ... WHERE group_id = ?1 AND seq IN (SELECT seq ... ORDER BY seq ASC LIMIT ?2)]. *)
Definition evict_oldest_rows (g : GroupId) (excess : N) (rows : list LogRow) : list LogRow :=
  let doomed := gr_seq <$> take (N.to_nat excess) (order_by_seq (List.filter (in_group g) rows)) in
  List.filter (fun r => negb (in_group g r && bool_decide (gr_seq r ∈ doomed))) rows.

Definition sg_append (group : GroupId) (kind : LogRecordKind) (recipient : option AgentId)
    (payload : bytes) (author : AgentId) (now_ms : N) (s : SqliteGroupLog)
    : result N ServerError * SqliteGroupLog :=
  let size := saturating_add usize_max LOG_FIXED_OVERHEAD (len payload) in
  if sg_max_total_bytes s <? saturating_add usize_max (sg_raw_bytes s) size
  then (Err GroupLogFull, s)
  else
    let count := len (List.filter (in_group group) (sg_rows s)) in
    let rows :=
      if sg_per_group_cap s <=? count
      then evict_oldest_rows group (clamp_i64 (count -| sg_per_group_cap s + 1)) (sg_rows s)
      else sg_rows s in
    let seq := default 1 (sg_seq s !! group) in
    let row := Build_LogRow group (clamp_i64 seq) (kind_to_i64 kind) recipient payload
                 (Some author) (clamp_i64 now_ms) in
    (Ok seq, sg_with (rows ++ [row]) (<[group := clamp_i64 (seq +|64 1)]> (sg_seq s)) s).

(** [<[u8; 32]>::try_from]. *)
Definition agent_from (b : bytes) : option AgentId :=
  if bool_decide (length b = 32%nat) then Some b else None.

(** A row with an unknown kind or an unparseable recipient is skipped; an
    unparseable author reads as none. *)
Definition row_record (r : LogRow) : option StoredLogRecord :=
  match kind_from_i64 (gr_kind r) with
  | None => None
  | Some kind =>
      match gr_recipient r with
      | None => Some (Build_StoredLogRecord (gr_seq r) kind None (gr_payload r)
                        (gr_author r ≫= agent_from) (gr_inserted_at_ms r))
      | Some b =>
          match agent_from b with
          | None => None
          | Some a => Some (Build_StoredLogRecord (gr_seq r) kind (Some a) (gr_payload r)
                              (gr_author r ≫= agent_from) (gr_inserted_at_ms r))
          end
      end
  end.

Definition sg_fetch_since (group : GroupId) (since_seq : N) (s : SqliteGroupLog)
    : list StoredLogRecord :=
  omap row_record (order_by_seq
    (List.filter (fun r => in_group group r && (clamp_i64 since_seq <? gr_seq r)) (sg_rows s))).

Definition sg_sweep_expired (now_ms : N) (s : SqliteGroupLog) : N * SqliteGroupLog :=
  let cutoff := clamp_i64 (now_ms -| sg_window_ms s) in
  let old r := gr_inserted_at_ms r <=? cutoff in
  (len (List.filter old (sg_rows s)),
   sg_with (List.filter (fun r => negb (old r)) (sg_rows s)) (sg_seq s) s).

Definition sg_len (s : SqliteGroupLog) : N := len (sg_rows s).

Definition sg_total_bytes (s : SqliteGroupLog) : N :=
  saturating_add usize_max (sg_raw_bytes s) (saturating_mul usize_max (sg_len s) LOG_FIXED_OVERHEAD).

(** ** Invariant *)

Definition group_rows (g : GroupId) (s : SqliteGroupLog) : list LogRow :=
  List.filter (in_group g) (sg_rows s).

Definition sg_next (g : GroupId) (s : SqliteGroupLog) : N := default 1 (sg_seq s !! g).

Record sg_wf (s : SqliteGroupLog) : Prop := {
  sgw_sorted : forall g, StronglySorted N.lt (gr_seq <$> group_rows g s);
  sgw_seqs : forall g r, r ∈ group_rows g s -> 0 < gr_seq r < sg_next g s;
  sgw_next : forall g, 0 < sg_next g s <= i64_max;
  sgw_decodes : forall r, r ∈ sg_rows s -> is_Some (row_record r);
}.

Lemma sg_wf_open w c m : sg_wf (sg_open w c m).
Proof.
  constructor; cbn; try done.
  - intros g. constructor.
  - by intros g r ?%elem_of_nil.
  - by intros r ?%elem_of_nil.
Qed.

#[export] Instance sqlite_group_log : GroupLogStore SqliteGroupLog := {
  g_append := sg_append;
  g_fetch_since := sg_fetch_since;
  g_sweep_expired := sg_sweep_expired;
  g_len := sg_len;
  g_total_bytes := sg_total_bytes;
  g_wf := sg_wf;
  g_next := sg_next;
  g_cap := sg_per_group_cap;
  g_window := sg_window_ms;
}.

#[export] Instance seq_le_trans : Transitive seq_le.
Proof. intros a b c. unfold seq_le. lia. Qed.
#[export] Instance seq_le_total : Total seq_le.
Proof. intros a b. unfold seq_le. lia. Qed.

Lemma sorted_seq_inj l a b :
  StronglySorted N.lt (gr_seq <$> l) -> a ∈ l -> b ∈ l -> gr_seq a = gr_seq b -> a = b.
Proof.
  induction l as [|x l IH]; intros Hs Ha Hb Heq; [by apply elem_of_nil in Ha|].
  rewrite fmap_cons in Hs. apply StronglySorted_inv in Hs as [Hs Hall].
  rewrite Forall_fmap, Forall_forall in Hall.
  apply elem_of_cons in Ha as [->|Ha]; apply elem_of_cons in Hb as [->|Hb]; try done.
  - specialize (Hall b Hb). cbn in Hall. lia.
  - specialize (Hall a Ha). cbn in Hall. lia.
  - by apply IH.
Qed.

(** Rows already in seq order are not reordered. *)
Lemma order_by_seq_sorted l : StronglySorted N.lt (gr_seq <$> l) -> order_by_seq l = l.
Proof.
  intros Hs. unfold order_by_seq.
  apply (StronglySorted_unique_strong seq_le); [| | |apply merge_sort_Permutation].
  - intros a b Ha Hb Hab Hba. rewrite merge_sort_Permutation in Ha.
    apply (sorted_seq_inj l); try done. unfold seq_le in *. lia.
  - apply (StronglySorted_merge_sort seq_le).
  - clear -Hs. induction l as [|x l IH]; [constructor|].
    rewrite fmap_cons in Hs. apply StronglySorted_inv in Hs as [Hs Hall].
    constructor; [by apply IH|]. rewrite Forall_fmap in Hall. eapply Forall_impl; [done|].
    intros y. unfold seq_le. cbn. lia.
Qed.

Lemma group_rows_filter P g s seqs :
  group_rows g (sg_with (List.filter P (sg_rows s)) seqs s) = List.filter P (group_rows g s).
Proof.
  unfold group_rows. cbn. induction (sg_rows s) as [|r l IH]; [done|]. cbn.
  destruct (P r) eqn:HP, (in_group g r) eqn:Hg; cbn; rewrite ?HP, ?Hg, ?IH; done.
Qed.

Lemma sg_fetch_rows g n s :
  sg_wf s -> n <= i64_max ->
  sg_fetch_since g n s = omap row_record (List.filter (fun r => n <? gr_seq r) (group_rows g s)).
Proof.
  intros Hwf Hn. unfold sg_fetch_since. assert (clamp_i64 n = n) as -> by (unfold clamp_i64; lia).
  assert (List.filter (fun r => in_group g r && (n <? gr_seq r)) (sg_rows s) =
    List.filter (fun r => n <? gr_seq r) (group_rows g s)) as ->.
  { unfold group_rows. induction (sg_rows s) as [|r l IH]; [done|]. cbn.
    destruct (in_group g r) eqn:Hg; cbn; [destruct (n <? gr_seq r)|]; by rewrite ?IH. }
  rewrite order_by_seq_sorted; [done|]. apply StronglySorted_filter_keys, (sgw_sorted s Hwf).
Qed.

Lemma sg_records g s : sg_wf s -> sg_fetch_since g 0 s = omap row_record (group_rows g s).
Proof.
  intros Hwf. rewrite sg_fetch_rows by (done || lia). f_equal.
  rewrite <- (List.filter_true (group_rows g s)) at 2. apply List.filter_ext_in.
  intros r Hr%list_elem_of_In. apply (sgw_seqs s Hwf) in Hr. apply N.ltb_lt. lia.
Qed.

Lemma row_record_frame r x :
  row_record r = Some x -> lr_seq x = gr_seq r /\ lr_inserted_at_ms x = gr_inserted_at_ms r.
Proof. unfold row_record. intros Hr. by repeat (case_match; simplify_eq/=). Qed.

Lemma omap_record_filter (P : LogRow -> bool) (Q : StoredLogRecord -> bool) rows :
  (forall r x, row_record r = Some x -> Q x = P r) ->
  omap row_record (List.filter P rows) = List.filter Q (omap row_record rows).
Proof.
  intros HPQ. induction rows as [|r rows IH]; [done|]. cbn. destruct (row_record r) as [x|] eqn:Hr.
  - cbn. rewrite (HPQ r x Hr). destruct (P r); cbn; rewrite ?Hr; by rewrite IH.
  - destruct (P r); cbn; rewrite ?Hr; by rewrite IH.
Qed.

Lemma omap_record_seqs (rows : list LogRow) :
  (forall r, r ∈ rows -> is_Some (row_record r)) ->
  lr_seq <$> omap row_record rows = gr_seq <$> rows.
Proof.
  induction rows as [|r rows IH]; intros Hd; [done|]. cbn.
  destruct (Hd r) as [x Hx]; [left|]. rewrite Hx. cbn. apply row_record_frame in Hx as [-> _].
  f_equal. apply IH. intros r' ?. apply Hd. by right.
Qed.

Lemma omap_record_drop n (rows : list LogRow) :
  (forall r, r ∈ rows -> is_Some (row_record r)) ->
  omap row_record (drop n rows) = drop n (omap row_record rows).
Proof.
  revert n. induction rows as [|r rows IH]; intros n Hd; [by destruct n|].
  destruct n as [|n]; [done|]. cbn. destruct (Hd r) as [x ->]; [left|]. cbn.
  apply IH. intros r' ?. apply Hd. by right.
Qed.

Lemma omap_record_length (rows : list LogRow) :
  (forall r, r ∈ rows -> is_Some (row_record r)) -> length (omap row_record rows) = length rows.
Proof.
  intros Hd. apply omap_record_seqs in Hd. by rewrite <- (length_fmap lr_seq), Hd, length_fmap.
Qed.

(** Dropping the rows whose seq is among the first [n] seqs drops [n] rows. *)
Lemma filter_not_first n l :
  StronglySorted N.lt (gr_seq <$> l) ->
  List.filter (fun r => negb (bool_decide (gr_seq r ∈ gr_seq <$> take n l))) l = drop n l.
Proof.
  revert n. induction l as [|x l IH]; intros n Hs; [by rewrite drop_nil|].
  rewrite fmap_cons in Hs. apply StronglySorted_inv in Hs as [Hs Hall].
  destruct n as [|n].
  { rewrite <- (List.filter_true (x :: l)) at 2. apply List.filter_ext. intros r.
    rewrite bool_decide_eq_false_2 by apply not_elem_of_nil. done. }
  cbn [take drop List.filter]. rewrite bool_decide_eq_true_2 by (rewrite fmap_cons; left). cbn [negb].
  rewrite <- (IH n Hs). apply List.filter_ext_in. intros r Hr%list_elem_of_In. f_equal.
  apply bool_decide_ext. rewrite fmap_cons, elem_of_cons.
  rewrite Forall_fmap, Forall_forall in Hall. specialize (Hall r Hr). cbn in Hall.
  split; [intros [?|?]; [lia|done] | by right].
Qed.

Lemma group_rows_count g s : sg_wf s -> len (group_rows g s) < i64_max.
Proof.
  intros Hwf. pose proof (sgw_next s Hwf g) as Hn.
  assert (len (0 :: (gr_seq <$> group_rows g s)) <= sg_next g s) as Hl.
  { apply NoDup_bounded_length.
    - constructor.
      + intros (r & H0 & Hr)%list_elem_of_fmap. apply (sgw_seqs s Hwf) in Hr. lia.
      + pose proof (sgw_sorted s Hwf g) as Hs. induction Hs as [|x l _ IH Hall]; constructor; [|done].
        intros Hx. rewrite Forall_forall in Hall. specialize (Hall x Hx). lia.
    - intros x [->|(r & -> & Hr)%list_elem_of_fmap]%elem_of_cons; [lia|].
      apply (sgw_seqs s Hwf) in Hr. lia. }
  unfold len in *. cbn [length] in Hl. rewrite length_fmap in Hl. lia.
Qed.

(** The eviction of an append keeps the newest rows of the group, and every row
    of the others. *)
Lemma group_rows_evict g g' s :
  sg_wf s ->
  let count := len (group_rows g s) in
  let rows := if sg_per_group_cap s <=? count
              then evict_oldest_rows g (clamp_i64 (count -| sg_per_group_cap s + 1)) (sg_rows s)
              else sg_rows s in
  List.filter (in_group g') rows =
  if decide (g' = g) then newest (sg_per_group_cap s - 1) (group_rows g s) else group_rows g' s.
Proof.
  intros Hwf count rows. unfold rows.
  pose proof (group_rows_count g s Hwf) as Hc. fold count in Hc.
  destruct (N.leb_spec (sg_per_group_cap s) count) as [Hle|Hlt]; cycle 1.
  { case_decide; [|done]. subst. fold (group_rows g s). unfold newest.
    replace (length (group_rows g s) - N.to_nat (sg_per_group_cap s - 1))%nat with 0%nat; [done|].
    unfold count, len in Hlt. lia. }
  unfold evict_oldest_rows, saturating_sub. fold (group_rows g s).
  rewrite order_by_seq_sorted by apply (sgw_sorted s Hwf).
  set (doomed := gr_seq <$> take _ _).
  pose proof (group_rows_filter (fun r => negb (in_group g r && bool_decide (gr_seq r ∈ doomed)))
    g' s (sg_seq s)) as Hgr. unfold group_rows in Hgr at 1. cbn in Hgr. rewrite Hgr. clear Hgr.
  case_decide as Hg.
  - subst. rewrite (List.filter_ext_in _ (fun r => negb (bool_decide (gr_seq r ∈ doomed)))).
    2: { intros r [_ Hr]%List.filter_In. by rewrite Hr. }
    unfold doomed. rewrite filter_not_first by apply (sgw_sorted s Hwf). unfold newest.
    unfold clamp_i64, count, len in *. rewrite N.min_r by lia.
    destruct (decide (sg_per_group_cap s = 0)) as [Hz|]; [|f_equal; lia].
    rewrite Hz. rewrite !drop_ge by lia. done.
  - rewrite <- (List.filter_true (group_rows g' s)) at 2. apply List.filter_ext_in.
    intros r [_ Hr]%List.filter_In. unfold in_group in *. apply bool_decide_eq_true in Hr.
    by rewrite bool_decide_eq_false_2 by congruence.
Qed.

Lemma group_rows_append g g' s row seqs :
  gr_group_id row = g ->
  forall rows, group_rows g' (sg_with (rows ++ [row]) seqs s) =
  List.filter (in_group g') rows ++ (if decide (g' = g) then [row] else []).
Proof.
  intros Hrow rows. unfold group_rows. cbn. rewrite List.filter_app. f_equal. cbn.
  unfold in_group. rewrite Hrow. case_decide.
  - by rewrite bool_decide_eq_true_2.
  - by rewrite bool_decide_eq_false_2 by congruence.
Qed.

Lemma newest_elem {A} n (l : list A) x : x ∈ newest n l -> x ∈ l.
Proof. intros Hx. unfold newest in Hx. 
  apply list_elem_of_lookup in Hx as [i Hi]. rewrite lookup_drop in Hi.
  by eapply list_elem_of_lookup_2.
Qed.

Lemma row_record_new g seq k rc p au now :
  (forall a, rc = Some a -> agent_ok a) -> agent_ok au ->
  row_record (Build_LogRow g seq (kind_to_i64 k) rc p (Some au) now) =
  Some (Build_StoredLogRecord seq k rc p (Some au) now).
Proof.
  intros Hrc Hau. unfold row_record, agent_from. cbn.
  rewrite (bool_decide_eq_true_2 _ Hau).
  destruct rc as [a|]; [|by destruct k].
  rewrite (bool_decide_eq_true_2 _ (Hrc a eq_refl)). by destruct k.
Qed.

Section append.
Context (s : SqliteGroupLog) (g : GroupId) (k : LogRecordKind) (rc : option AgentId) (p : bytes).
Context (au : AgentId) (now : N).
Context (Hwf : sg_wf s) (Hn : sg_next g s < i64_max) (Hnow : now <= i64_max).
Context (Hrc : forall a, rc = Some a -> agent_ok a) (Hau : agent_ok au).

Definition appended_row : LogRow :=
  Build_LogRow g (sg_next g s) (kind_to_i64 k) rc p (Some au) now.

(** The state an admitted append reaches. *)
Definition appended : SqliteGroupLog :=
  let count := len (group_rows g s) in
  let rows := if sg_per_group_cap s <=? count
              then evict_oldest_rows g (clamp_i64 (count -| sg_per_group_cap s + 1)) (sg_rows s)
              else sg_rows s in
  sg_with (rows ++ [appended_row]) (<[g := sg_next g s + 1]> (sg_seq s)) s.

Lemma sg_append_appended seq s' :
  sg_append g k rc p au now s = (Ok seq, s') -> seq = sg_next g s /\ s' = appended.
Proof.
  unfold sg_append. case_match; [done|]. intros [= <- <-]. split; [done|].
  pose proof (sgw_next s Hwf g). unfold sg_next in *.
  unfold appended, appended_row, clamp_i64, saturating_add, group_rows, sg_next.
  rewrite (N.min_r i64_max now) by done.
  rewrite (N.min_r i64_max (default 1 (sg_seq s !! g))) by lia.
  rewrite (N.min_r u64_max) by (unfold i64_max, u64_max in *; lia).
  by rewrite (N.min_r i64_max (default 1 (sg_seq s !! g) + 1)) by lia.
Qed.

Lemma appended_rows g' :
  group_rows g' appended =
  if decide (g' = g) then newest (sg_per_group_cap s - 1) (group_rows g s) ++ [appended_row]
  else group_rows g' s.
Proof.
  unfold appended. cbv zeta. rewrite (group_rows_append g) by done.
  rewrite group_rows_evict by done. case_decide; [done|]. by rewrite app_nil_r.
Qed.

Lemma appended_next g' :
  sg_next g' appended = if decide (g' = g) then sg_next g s + 1 else sg_next g' s.
Proof.
  unfold sg_next, appended. cbn. case_decide; subst; [by rewrite lookup_insert_eq|].
  by rewrite lookup_insert_ne.
Qed.

Lemma appended_decodes r : r ∈ sg_rows appended -> is_Some (row_record r).
Proof.
  unfold appended. cbn. rewrite elem_of_app, list_elem_of_singleton. intros [Hr| ->].
  - apply (sgw_decodes s Hwf). case_match; [|done].
    unfold evict_oldest_rows in Hr. by apply elem_of_list_filter_bool in Hr as [_ ?].
  - unfold appended_row. rewrite row_record_new by done. by eexists.
Qed.

Lemma appended_wf : sg_wf appended.
Proof.
  constructor; [intros g'|intros g' r|intros g'|apply appended_decodes].
  - rewrite appended_rows. case_decide; [|apply Hwf]. rewrite fmap_app.
    pose proof (sgw_sorted s Hwf g) as Hs.
    apply StronglySorted_snoc_lt.
    + unfold newest. rewrite fmap_drop. revert Hs. generalize (gr_seq <$> group_rows g s) as l.
      intros l. generalize (length (group_rows g s) - N.to_nat (sg_per_group_cap s - 1))%nat as m.
      induction l as [|x l IH]; intros m Hs; [by rewrite drop_nil|]. destruct m; [done|].
      apply IH. by apply StronglySorted_inv in Hs as [? _].
    + apply Forall_fmap, Forall_forall. intros r Hr%newest_elem. cbn.
      by apply (sgw_seqs s Hwf g) in Hr as [_ ?].
  - rewrite appended_rows, appended_next. case_decide; [|apply Hwf].
    intros [Hr%newest_elem| ->%list_elem_of_singleton]%elem_of_app.
    + apply (sgw_seqs s Hwf g) in Hr. lia.
    + cbn. pose proof (sgw_next s Hwf g). lia.
  - rewrite appended_next. case_decide; [|apply Hwf]. pose proof (sgw_next s Hwf g). lia.
Qed.

Lemma appended_records g' :
  sg_fetch_since g' 0 appended =
  if decide (g' = g)
  then newest (sg_per_group_cap s - 1) (sg_fetch_since g 0 s) ++
       [Build_StoredLogRecord (sg_next g s) k rc p (Some au) now]
  else sg_fetch_since g' 0 s.
Proof.
  assert (forall r, r ∈ group_rows g s -> is_Some (row_record r)) as Hd.
  { intros r [_ Hr]%elem_of_list_filter_bool. by apply (sgw_decodes s Hwf). }
  rewrite (sg_records g' appended appended_wf), appended_rows. case_decide; [|by rewrite sg_records].
  rewrite omap_app. f_equal.
  - unfold newest. rewrite omap_record_drop by done. rewrite sg_records by done.
    by rewrite omap_record_length.
  - cbn. unfold appended_row. by rewrite row_record_new.
Qed.
End append.

Lemma sg_wf_sweep P s : sg_wf s -> sg_wf (sg_with (List.filter P (sg_rows s)) (sg_seq s) s).
Proof.
  intros Hwf. constructor; [intros g|intros g r|apply Hwf|].
  - rewrite group_rows_filter. apply StronglySorted_filter_keys, Hwf.
  - rewrite group_rows_filter. intros [_ Hr]%elem_of_list_filter_bool. by apply (sgw_seqs s Hwf).
  - cbn. intros r [_ Hr]%elem_of_list_filter_bool. by apply (sgw_decodes s Hwf).
Qed.

Lemma sg_law_sweep s s' now n :
  sg_wf s -> 0 < sg_window_ms s <= now -> now <= i64_max -> sg_sweep_expired now s = (n, s') ->
  g_keeps s s' /\ (forall g, sg_next g s' = sg_next g s) /\
  forall g, sg_fetch_since g 0 s' =
    List.filter (lr_alive now (sg_window_ms s)) (sg_fetch_since g 0 s).
Proof.
  intros Hwf Hw Hnow. unfold sg_sweep_expired. intros [= <- <-].
  split; [split; [by apply sg_wf_sweep | done]|]. split; [done|].
  intros g. rewrite sg_records by (by apply sg_wf_sweep). rewrite sg_records by done.
  rewrite group_rows_filter. apply omap_record_filter. intros r x [_ Hx]%row_record_frame.
  unfold lr_alive, clamp_i64, saturating_sub. rewrite Hx, N.min_r by lia.
  destruct (N.leb_spec (gr_inserted_at_ms r) (now - sg_window_ms s)); cbn;
    [apply N.ltb_ge; lia | apply N.ltb_lt; lia].
Qed.

#[export] Instance sqlite_group_log_laws : GroupLogLaws SqliteGroupLog.
Proof.
  constructor; cbn; unfold g_records; cbn.
  - intros s g Hwf. rewrite sg_records by done.
    assert (forall r, r ∈ group_rows g s -> is_Some (row_record r)) as Hd.
    { intros r [_ Hr]%elem_of_list_filter_bool. by apply (sgw_decodes s Hwf). }
    rewrite omap_record_seqs by done. split; [apply Hwf|].
    apply Forall_forall. intros x (r & Hr & Hx)%list_elem_of_omap.
    apply row_record_frame in Hx as [-> _]. by apply (sgw_seqs s Hwf).
  - intros s g n Hwf Hn. rewrite sg_fetch_rows, sg_records by done. apply omap_record_filter.
    by intros r x [-> _]%row_record_frame.
  - intros s s' g k rc p au now seq Hwf Hn Hnow Hrc Hau He.
    apply sg_append_appended in He as [-> ->]; [|done..].
    split; [split; [by apply appended_wf | done]|]. split; [done|].
    split; [apply appended_next | by apply appended_records].
  - intros s s' g k rc p au now er _. unfold sg_append. case_match; [by intros [= _ <-] | done].
  - exact sg_law_sweep.
Qed.

(** ** The two logs account bytes differently *)

(** [n] appends of an empty record, one per group. *)
Fixpoint fill (n : nat) (s : SqliteGroupLog) : result SqliteGroupLog ServerError :=
  match n with
  | O => Ok s
  | S n =>
      match fill n s with
      | Err e => Err e
      | Ok s =>
          match sg_append [N.of_nat n] Commit None [] [] 0 s with
          | (Ok _, s) => Ok s
          | (Err e, _) => Err e
          end
      end
  end.

(** Every row is empty, in its own group. *)
Record filled (n : nat) (cap max : N) (s : SqliteGroupLog) : Prop := {
  fl_len : length (sg_rows s) = n;
  fl_empty : forall r, r ∈ sg_rows s -> gr_payload r = [];
  fl_group : forall r, r ∈ sg_rows s -> exists i, (i < n)%nat /\ gr_group_id r = [N.of_nat i];
  fl_cap : sg_per_group_cap s = cap;
  fl_max : sg_max_total_bytes s = max;
}.

Lemma filled_raw_bytes n cap max s : filled n cap max s -> sg_raw_bytes s = 0.
Proof.
  intros [_ He _ _ _]. unfold sg_raw_bytes. induction (sg_rows s) as [|r l IH]; [done|].
  cbn. rewrite He by left. rewrite IH; [done|]. intros r' ?. apply He. by right.
Qed.

Lemma fill_filled n cap max w :
  0 < cap -> LOG_FIXED_OVERHEAD <= max ->
  exists s, fill n (sg_open w cap max) = Ok s /\ filled n cap max s.
Proof.
  intros Hcap Hmax. induction n as [|n (s & Hf & Hs)].
  { eexists. split; [done|]. constructor; cbn; try done; by intros r ?%elem_of_nil. }
  cbn. rewrite Hf. unfold sg_append. rewrite (filled_raw_bytes n cap max s Hs), (fl_max _ _ _ _ Hs).
  change (saturating_add usize_max 0 (saturating_add usize_max LOG_FIXED_OVERHEAD (len [])))
    with LOG_FIXED_OVERHEAD.
  rewrite (proj2 (N.ltb_ge _ _) Hmax).
  assert (List.filter (in_group [N.of_nat n]) (sg_rows s) = []) as Hno.
  { apply list_filter_bool_nil. intros r Hr. apply bool_decide_eq_false_2.
    destruct (fl_group _ _ _ _ Hs r Hr) as (i & Hi & ->). intros [= Heq]. lia. }
  rewrite Hno, (fl_cap _ _ _ _ Hs). cbn [len length].
  rewrite (proj2 (N.leb_gt _ _)) by (unfold len; cbn; lia). eexists. split; [reflexivity|].
  destruct Hs as [Hl He Hg Hc Hm]. constructor; cbn; try done.
  - rewrite length_app, Hl. cbn. lia.
  - intros r [Hr| ->%list_elem_of_singleton]%elem_of_app; [by apply He | done].
  - intros r [Hr| ->%list_elem_of_singleton]%elem_of_app.
    + destruct (Hg r Hr) as (i & ? & ?). exists i. split; [lia | done].
    + exists n. split; [lia | done].
Qed.

(** However small the configured byte cap (at
    least one record's overhead), the durable log admits any number of empty
    records, so the bytes it reports grow without bound past the cap; the
    in-memory log refuses what exceeds it. *)
Theorem sqlite_log_cap_ignores_overhead (w cap max : N) (n : nat) :
  0 < cap -> LOG_FIXED_OVERHEAD <= max -> N.of_nat n * 64 < usize_max ->
  exists s, fill n (sg_open w cap max) = Ok s /\ sg_total_bytes s = N.of_nat n * 64.
Proof.
  intros Hcap Hmax Hn. destruct (fill_filled n cap max w Hcap Hmax) as (s & Hf & Hs).
  exists s. split; [done|]. unfold sg_total_bytes, sg_len. rewrite (filled_raw_bytes n cap max s Hs).
  unfold len. rewrite (fl_len _ _ _ _ Hs). unfold saturating_add, saturating_mul, LOG_FIXED_OVERHEAD.
  lia.
Qed.

Lemma sqlite_log_cap_ignores_overhead_witness :
  exists s, fill 3 (sg_open 10 5 64) = Ok s /\ sg_total_bytes s = 192.
Proof. exact (sqlite_log_cap_ignores_overhead 10 5 64 3 eq_refl ltac:(done) eq_refl). Defined.
