(* ===== verification/Session.v ===== *)
(** * Connected sessions and presence

    Models [crates/fetchit-relay-server/src/session.rs].  An outbound
    [mpsc::Sender] is the name of a bounded channel in a shared store of
    channels: clones of a sender are the same name, and a [try_send] fails when
    the queue is full or the receiving task is gone. *)
From S2P Require Import Prelude RelayProto.

(** ** Channels *)

Record Channel := mkChan { ch_queue : list ServerFrame; ch_capacity : nat; ch_open : bool }.
Abbreviation Sender := N.
Abbreviation Channels := (gmap Sender Channel).

Definition try_send (tx : Sender) (f : ServerFrame) (cs : Channels) : bool * Channels :=
  match cs !! tx with
  | Some (mkChan q cap true) =>
      if (length q <? cap)%nat then (true, <[tx := mkChan (q ++ [f]) cap true]> cs)
      else (false, cs)
  | _ => (false, cs)
  end.

(** [let _ = tx.try_send(f)] to each of several senders. *)
Definition send_each (f : ServerFrame) (txs : list Sender) (cs : Channels) : Channels :=
  foldl (fun cs tx => (try_send tx f cs).2) cs txs.

(** ** The registry *)

Abbreviation SessionId := N.
Definition MAX_WATCHES_PER_SESSION : N := 1024.

(** The bridge sender is all zeros and is never a delivery target. *)
Definition FEDIVERSE_BRIDGE_SENDER : AgentId := repeat 0 32.

Record SessionRegistry := mkReg {
  by_agent : gmap AgentId (SessionId * Sender);
  next_id : N;
  watchers : gmap AgentId (list (SessionId * Sender));
  watches_by_session : gmap SessionId (gset AgentId);
}.

Definition registry_new : SessionRegistry := mkReg ∅ 0 ∅ ∅.

Definition set_by_agent (m : gmap AgentId (SessionId * Sender)) (r : SessionRegistry) :=
  mkReg m (next_id r) (watchers r) (watches_by_session r).
Definition set_watchers (m : gmap AgentId (list (SessionId * Sender))) (r : SessionRegistry) :=
  mkReg (by_agent r) (next_id r) m (watches_by_session r).
Definition set_watches (m : gmap SessionId (gset AgentId)) (r : SessionRegistry) :=
  mkReg (by_agent r) (next_id r) (watchers r) m.

Definition broadcast_presence (agent : AgentId) (online : bool) (r : SessionRegistry) (cs : Channels)
    : Channels :=
  match watchers r !! agent with
  | None => cs
  | Some l => send_each (SPresenceUpdate agent online) l.*2 cs
  end.

Definition register (agent : AgentId) (tx : Sender) (r : SessionRegistry) (cs : Channels)
    : SessionId * SessionRegistry * Channels :=
  let id := wrapping_add u64_max (next_id r) 1 in
  let prior := by_agent r !! agent in
  let r' := mkReg (<[agent := (id, tx)]> (by_agent r)) id (watchers r) (watches_by_session r) in
  match prior with
  | Some (_, prior_tx) => (id, r', (try_send prior_tx (SBye DisplacedByNewSession) cs).2)
  | None => (id, r', broadcast_presence agent true r' cs)
  end.

Definition unregister (agent : AgentId) (id : SessionId) (r : SessionRegistry) (cs : Channels)
    : SessionRegistry * Channels :=
  match by_agent r !! agent with
  | Some (current_id, _) =>
      if current_id =? id then
        let r' := set_by_agent (delete agent (by_agent r)) r in
        (r', broadcast_presence agent false r' cs)
      else (r, cs)
  | None => (r, cs)
  end.

Definition session_send (agent : AgentId) (f : ServerFrame) (r : SessionRegistry) (cs : Channels)
    : bool * Channels :=
  if bool_decide (agent = FEDIVERSE_BRIDGE_SENDER) then (false, cs)
  else match by_agent r !! agent with
       | None => (false, cs)
       | Some (_, tx) => try_send tx f cs
       end.

Definition broadcast `{!HashIter AgentId (SessionId * Sender)} (f : ServerFrame)
    (r : SessionRegistry) (cs : Channels) : N * Channels :=
  foldl (fun '(delivered, cs) tx =>
           let '(ok, cs) := try_send tx f cs in
           (if ok : bool then delivered + 1 else delivered, cs))
    (0, cs) (hm_values (by_agent r)).*2.

Definition connection_count (r : SessionRegistry) : nat := size (by_agent r).
Definition watched_agent_count (r : SessionRegistry) : nat := size (watchers r).
Definition watching_session_count (r : SessionRegistry) : nat := size (watches_by_session r).

Definition is_online (agent : AgentId) (r : SessionRegistry) : bool :=
  bool_decide (is_Some (by_agent r !! agent)).

(** One turn of the loop of [add_watches], after the cap check. *)
Definition add_watch (watcher_id : SessionId) (watcher_tx : Sender) (agent : AgentId)
    (r : SessionRegistry) (cs : Channels) : SessionRegistry * Channels :=
  let mine := default ∅ (watches_by_session r !! watcher_id) in
  if bool_decide (agent ∈ mine) then (r, cs)
  else
    let r := set_watches (<[watcher_id := {[agent]} ∪ mine]> (watches_by_session r)) r in
    let l := default [] (watchers r !! agent) in
    let r := set_watchers (<[agent := l ++ [(watcher_id, watcher_tx)]]> (watchers r)) r in
    (r, (try_send watcher_tx (SPresenceUpdate agent (is_online agent r)) cs).2).

Fixpoint add_watches_loop (watcher_id : SessionId) (watcher_tx : Sender) (agents : list AgentId)
    (r : SessionRegistry) (cs : Channels) : SessionRegistry * Channels :=
  match agents with
  | [] => (r, cs)
  | agent :: rest =>
      let mine := default ∅ (watches_by_session r !! watcher_id) in
      if MAX_WATCHES_PER_SESSION <=? N.of_nat (size mine) then (r, cs)
      else
        let '(r, cs) := add_watch watcher_id watcher_tx agent r cs in
        add_watches_loop watcher_id watcher_tx rest r cs
  end.

Definition add_watches (watcher_id : SessionId) (watcher_tx : Sender) (agents : list AgentId)
    (r : SessionRegistry) (cs : Channels) : SessionRegistry * Channels :=
  let mine := default ∅ (watches_by_session r !! watcher_id) in
  add_watches_loop watcher_id watcher_tx agents
    (set_watches (<[watcher_id := mine]> (watches_by_session r)) r) cs.

(** An emptied list gives its key back. *)
Definition unwatch (watcher_id : SessionId) (agent : AgentId) (r : SessionRegistry)
    : SessionRegistry :=
  match watchers r !! agent with
  | None => r
  | Some l =>
      match List.filter (fun w => negb (w.1 =? watcher_id)) l with
      | [] => set_watchers (delete agent (watchers r)) r
      | l' => set_watchers (<[agent := l']> (watchers r)) r
      end
  end.

Definition unwatch_all (watcher_id : SessionId) (agents : list AgentId) (r : SessionRegistry)
    : SessionRegistry := foldl (fun r a => unwatch watcher_id a r) r agents.

Definition remove_watches (watcher_id : SessionId) (agents : list AgentId) (r : SessionRegistry)
    : SessionRegistry :=
  let r :=
    match watches_by_session r !! watcher_id with
    | Some mine => set_watches (<[watcher_id := mine ∖ list_to_set agents]> (watches_by_session r)) r
    | None => r
    end in
  unwatch_all watcher_id agents r.

Definition drop_all_watches (watcher_id : SessionId) (r : SessionRegistry) : SessionRegistry :=
  match watches_by_session r !! watcher_id with
  | None => r
  | Some agents =>
      unwatch_all watcher_id (elements agents)
        (set_watches (delete watcher_id (watches_by_session r)) r)
  end.

(** ** Invariant *)

Definition watched (sid : SessionId) (a : AgentId) (r : SessionRegistry) : Prop :=
  a ∈ default ∅ (watches_by_session r !! sid).
Definition watching (sid : SessionId) (a : AgentId) (r : SessionRegistry) : Prop :=
  sid ∈ (default [] (watchers r !! a)).*1.

(** The two watch indexes are the same relation, without duplicates and without
    empty lists; session ids are below the counter and one agent's each; no
    session watches more than the cap. *)
Record reg_wf (r : SessionRegistry) : Prop := {
  rw_index : forall sid a, watching sid a r <-> watched sid a r;
  rw_nodup : forall a l, watchers r !! a = Some l -> l <> [] /\ NoDup l.*1;
  rw_cap : forall sid s, watches_by_session r !! sid = Some s ->
    N.of_nat (size s) <= MAX_WATCHES_PER_SESSION;
  rw_ids : forall a e, by_agent r !! a = Some e -> 0 < e.1 <= next_id r;
  rw_one : forall a b e f, by_agent r !! a = Some e -> by_agent r !! b = Some f -> e.1 = f.1 -> a = b;
}.

Lemma reg_wf_new : reg_wf registry_new.
Proof. constructor; cbn; try done. intros sid a. unfold watching, watched. cbn. set_solver. Qed.

(** *** Un-watching *)

Lemma unwatch_list sid a a' r :
  default [] (watchers (unwatch sid a r) !! a') =
  if decide (a' = a)
  then List.filter (fun w => negb (w.1 =? sid)) (default [] (watchers r !! a))
  else default [] (watchers r !! a').
Proof.
  unfold unwatch. destruct (watchers r !! a) as [l|] eqn:Hl; cbn.
  - destruct (List.filter _ l) as [|w l'] eqn:Hf; cbn; case_decide; subst.
    + by rewrite lookup_delete_eq.
    + by rewrite lookup_delete_ne.
    + by rewrite lookup_insert_eq.
    + by rewrite lookup_insert_ne.
  - case_decide; [by subst; rewrite Hl | done].
Qed.

Lemma unwatch_frame sid a r :
  watches_by_session (unwatch sid a r) = watches_by_session r /\
  by_agent (unwatch sid a r) = by_agent r /\ next_id (unwatch sid a r) = next_id r.
Proof. unfold unwatch. destruct (watchers r !! a) as [l|]; [|done]. by destruct (List.filter _ l). Qed.

Lemma unwatch_watching sid a sid' a' r :
  watching sid' a' (unwatch sid a r) <-> watching sid' a' r /\ ~ (sid' = sid /\ a' = a).
Proof.
  unfold watching. rewrite unwatch_list. case_decide as Ha; [subst|naive_solver].
  rewrite !list_elem_of_fmap. setoid_rewrite elem_of_list_filter_bool.
  setoid_rewrite negb_true_iff. setoid_rewrite N.eqb_neq. naive_solver.
Qed.

(** The part of the invariant un-watching keeps on its own. *)
Definition lists_wf (r : SessionRegistry) : Prop :=
  forall a l, watchers r !! a = Some l -> l <> [] /\ NoDup l.*1.

Lemma unwatch_lists_wf sid a r : lists_wf r -> lists_wf (unwatch sid a r).
Proof.
  intros Hw a' l'. unfold unwatch. destruct (watchers r !! a) as [l|] eqn:Hl; [|apply Hw].
  destruct (List.filter _ l) as [|w l0] eqn:Hf; cbn.
  - intros [_ ?]%lookup_delete_Some. by apply (Hw a').
  - rewrite lookup_insert_Some. intros [[<- <-]|[_ ?]]; [|by apply (Hw a')].
    split; [done|]. rewrite <- Hf. destruct (Hw a l Hl) as [_ Hnd].
    clear -Hnd. induction l as [|x l IH]; [constructor|]. rewrite fmap_cons, NoDup_cons in Hnd.
    destruct Hnd as [Hx Hnd]. cbn. destruct (negb _); [|by apply IH].
    rewrite fmap_cons, NoDup_cons. split; [|by apply IH].
    intros (y & Hy & [_ Hin]%elem_of_list_filter_bool)%list_elem_of_fmap.
    apply Hx. rewrite Hy. by apply list_elem_of_fmap_2.
Qed.

Lemma unwatch_all_spec sid agents r :
  lists_wf r ->
  lists_wf (unwatch_all sid agents r) /\
  watches_by_session (unwatch_all sid agents r) = watches_by_session r /\
  by_agent (unwatch_all sid agents r) = by_agent r /\
  next_id (unwatch_all sid agents r) = next_id r /\
  forall sid' a', watching sid' a' (unwatch_all sid agents r) <->
    watching sid' a' r /\ ~ (sid' = sid /\ a' ∈ agents).
Proof.
  revert r. induction agents as [|a agents IH]; intros r Hw.
  { repeat (split; [done|]). intros sid' a'. unfold unwatch_all. cbn. set_solver. }
  change (unwatch_all sid (a :: agents) r) with (unwatch_all sid agents (unwatch sid a r)).
  destruct (IH (unwatch sid a r) (unwatch_lists_wf sid a r Hw)) as (Hw' & H1 & H2 & H3 & H4).
  destruct (unwatch_frame sid a r) as (E1 & E2 & E3).
  split; [done|]. rewrite H1, H2, H3. repeat (split; [done|]).
  intros sid' a'. etransitivity; [apply H4|]. rewrite unwatch_watching, elem_of_cons. tauto.
Qed.

(** *** Every operation keeps the invariant *)

Lemma reg_wf_remove_watches sid agents r : reg_wf r -> reg_wf (remove_watches sid agents r).
Proof.
  intros [Hi Hn Hc Hids Hone]. unfold remove_watches.
  set (r1 := match watches_by_session r !! sid with Some _ => _ | None => r end).
  assert (lists_wf r1 /\ by_agent r1 = by_agent r /\ next_id r1 = next_id r /\
    (forall sid' a', watching sid' a' r1 <-> watching sid' a' r)) as (Hw1 & Hb1 & Hn1 & Hwt).
  { unfold r1. by destruct (watches_by_session r !! sid). }
  destruct (unwatch_all_spec sid agents r1 Hw1) as (Hw & E1 & E2 & E3 & Hwatch).
  constructor; [intros sid' a'|done| |rewrite E2, E3, Hb1, Hn1; done|by rewrite E2, Hb1].
  - etransitivity; [apply Hwatch|]. rewrite Hwt, Hi. unfold watched. rewrite E1. unfold r1.
    destruct (watches_by_session r !! sid) as [mine|] eqn:Hm; cbn.
    + destruct (decide (sid' = sid)) as [->|Hne].
      * rewrite lookup_insert_eq, Hm. cbn. set_solver.
      * rewrite lookup_insert_ne by done. naive_solver.
    + split; [tauto|]. intros Hin. split; [done|]. intros [-> _]. rewrite Hm in Hin. set_solver.
  - intros sid' s'. rewrite E1. unfold r1. destruct (watches_by_session r !! sid) as [mine|] eqn:Hm; cbn.
    + rewrite lookup_insert_Some. intros [[<- <-]|[_ ?]]; [|by apply (Hc sid')].
      specialize (Hc sid mine Hm). assert (size (mine ∖ list_to_set agents) <= size mine)%nat; [|lia].
      apply subseteq_size. set_solver.
    + apply Hc.
Qed.

Lemma reg_wf_drop_all sid r :
  reg_wf r ->
  reg_wf (drop_all_watches sid r) /\
  watches_by_session (drop_all_watches sid r) !! sid = None /\
  forall a, ~ watching sid a (drop_all_watches sid r).
Proof.
  intros Hwf. pose proof Hwf as [Hi Hn Hc Hids Hone]. unfold drop_all_watches.
  destruct (watches_by_session r !! sid) as [mine|] eqn:Hm; cycle 1.
  { split; [done|]. split; [done|]. intros a Hw%Hi. unfold watched in Hw. rewrite Hm in Hw. set_solver. }
  destruct (unwatch_all_spec sid (elements mine)
    (set_watches (delete sid (watches_by_session r)) r) Hn) as (Hw & E1 & E2 & E3 & Hwatch).
  assert (forall sid' a', watching sid' a' (unwatch_all sid (elements mine)
    (set_watches (delete sid (watches_by_session r)) r)) <->
    watching sid' a' r /\ sid' <> sid) as Hwatch'.
  { intros sid' a'. etransitivity; [apply Hwatch|]. rewrite elem_of_elements.
    change (watching sid' a' (set_watches _ r)) with (watching sid' a' r).
    assert (sid' = sid -> watching sid' a' r -> a' ∈ mine); [|naive_solver].
    intros -> Hx%Hi. unfold watched in Hx. by rewrite Hm in Hx. }
  split; [constructor; [intros sid' a'|done| |by rewrite E2, E3|by rewrite E2]|].
  - rewrite Hwatch', Hi. unfold watched. rewrite E1. cbn.
    destruct (decide (sid' = sid)) as [->|Hne].
    + rewrite lookup_delete_eq. cbn. set_solver.
    + rewrite lookup_delete_ne by done. naive_solver.
  - intros sid' s'. rewrite E1. cbn. intros [_ ?]%lookup_delete_Some. by apply (Hc sid').
  - rewrite E1. cbn. split; [apply lookup_delete_eq|]. intros a [_ ?]%Hwatch'. done.
Qed.

Lemma reg_wf_add_watch sid tx a r cs :
  reg_wf r -> N.of_nat (size (default ∅ (watches_by_session r !! sid))) < MAX_WATCHES_PER_SESSION ->
  reg_wf (add_watch sid tx a r cs).1.
Proof.
  intros [Hi Hn Hc Hids Hone] Hsz. unfold add_watch. case_bool_decide as Hin; [done|]. cbn.
  assert (~ watching sid a r) as Hnw by (rewrite Hi; done).
  constructor; cbn; try done.
  - intros sid' a'. specialize (Hi sid' a'). unfold watching, watched in *. cbn.
    destruct (decide (a' = a)) as [->|Ha]; [rewrite lookup_insert_eq | rewrite lookup_insert_ne by done];
      (destruct (decide (sid' = sid)) as [->|Hs];
        [rewrite lookup_insert_eq | rewrite lookup_insert_ne by done]); cbn.
    + rewrite fmap_app, elem_of_app, elem_of_union. cbn. rewrite list_elem_of_singleton, elem_of_singleton. tauto.
    + rewrite fmap_app, elem_of_app. cbn. rewrite list_elem_of_singleton. naive_solver.
    + rewrite elem_of_union, elem_of_singleton. naive_solver.
    + done.
  - intros a' l. rewrite lookup_insert_Some. intros [[<- <-]|[_ ?]]; [|by apply (Hn a')].
    split; [by destruct (default [] _)|]. rewrite fmap_app. apply NoDup_app.
    split; [|split; [|apply NoDup_singleton]].
    + destruct (watchers r !! a) as [l|] eqn:Hl; [by apply (Hn a) | constructor].
    + intros x Hx ->%list_elem_of_singleton. by apply Hnw.
  - intros sid' s'. rewrite lookup_insert_Some. intros [[<- <-]|[_ ?]]; [|by apply (Hc sid')].
    rewrite size_union by set_solver. rewrite size_singleton. lia.
Qed.

Lemma reg_wf_add_loop sid tx agents r cs :
  reg_wf r -> reg_wf (add_watches_loop sid tx agents r cs).1.
Proof.
  revert r cs. induction agents as [|a agents IH]; intros r cs Hwf; [done|]. cbn.
  destruct (N.leb_spec MAX_WATCHES_PER_SESSION
    (N.of_nat (size (default ∅ (watches_by_session r !! sid))))) as [|Hlt]; [done|].
  pose proof (reg_wf_add_watch sid tx a r cs Hwf Hlt) as Hwf'.
  destruct (add_watch sid tx a r cs) as [r' cs']. by apply IH.
Qed.

Lemma reg_wf_add_watches sid tx agents r cs :
  reg_wf r -> reg_wf (add_watches sid tx agents r cs).1.
Proof.
  intros Hwf. apply reg_wf_add_loop. destruct Hwf as [Hi Hn Hc Hids Hone].
  constructor; cbn; try done.
  - intros sid' a'. rewrite (Hi sid' a'). unfold watched. cbn.
    destruct (decide (sid' = sid)) as [->|]; [by rewrite lookup_insert_eq | by rewrite lookup_insert_ne].
  - intros sid' s'. rewrite lookup_insert_Some. intros [[<- <-]|[_ ?]]; [|by apply (Hc sid')].
    destruct (watches_by_session r !! sid) as [s|] eqn:Hs; [by apply (Hc sid)|]. cbn.
    rewrite size_empty. unfold MAX_WATCHES_PER_SESSION. lia.
Qed.

Lemma reg_wf_register a tx r cs :
  reg_wf r -> next_id r < u64_max -> reg_wf (register a tx r cs).1.2.
Proof.
  intros [Hi Hn Hc Hids Hone] Hlt. unfold register, wrapping_add.
  rewrite N.mod_small by lia.
  assert (reg_wf (mkReg (<[a := (next_id r + 1, tx)]> (by_agent r)) (next_id r + 1)
    (watchers r) (watches_by_session r))) as Hwf.
  { constructor; cbn; try done.
    - intros b e. rewrite lookup_insert_Some. intros [[<- <-]|[_ He]]; [cbn; lia|].
      specialize (Hids b e He). lia.
    - intros b c e f. rewrite !lookup_insert_Some.
      intros [[<- <-]|[Hb He]] [[<- <-]|[Hc' Hf]] Heq; cbn in *; try done.
      + specialize (Hids c f Hf). lia.
      + specialize (Hids b e He). lia.
      + by eapply Hone. }
  by destruct (by_agent r !! a) as [[? ?]|].
Qed.

Lemma reg_wf_unregister a id r cs : reg_wf r -> reg_wf (unregister a id r cs).1.
Proof.
  intros Hwf. pose proof Hwf as [Hi Hn Hc Hids Hone]. unfold unregister.
  destruct (by_agent r !! a) as [[cid tx]|]; [|done]. case_match; [|done].
  constructor; cbn; try done.
  - intros b e [_ ?]%lookup_delete_Some. by apply (Hids b).
  - intros b c e f [_ ?]%lookup_delete_Some [_ ?]%lookup_delete_Some. by apply Hone.
Qed.
#[export] Hint Resolve reg_wf_remove_watches reg_wf_add_watches reg_wf_register reg_wf_unregister
  : fetchit.

(** ** Properties *)

(** A call on the registry. *)
Inductive SessOp :=
| RRegister (a : AgentId) (tx : Sender)
| RUnregister (a : AgentId) (id : SessionId)
| RAddWatches (sid : SessionId) (tx : Sender) (agents : list AgentId)
| RRemoveWatches (sid : SessionId) (agents : list AgentId)
| RDropAll (sid : SessionId)
| RSend (a : AgentId) (f : ServerFrame).

Definition sess_step (st : SessionRegistry * Channels) (op : SessOp) : SessionRegistry * Channels :=
  let '(r, cs) := st in
  match op with
  | RRegister a tx => let '(_, r, cs) := register a tx r cs in (r, cs)
  | RUnregister a id => unregister a id r cs
  | RAddWatches sid tx agents => add_watches sid tx agents r cs
  | RRemoveWatches sid agents => (remove_watches sid agents r, cs)
  | RDropAll sid => (drop_all_watches sid r, cs)
  | RSend a f => (r, (session_send a f r cs).2)
  end.

Lemma unwatch_all_next sid l r : next_id (unwatch_all sid l r) = next_id r.
Proof.
  unfold unwatch_all. revert r. induction l as [|a l IH]; intros r; [done|]. cbn. rewrite IH.
  apply unwatch_frame.
Qed.

Lemma add_loop_next sid tx agents r cs :
  next_id (add_watches_loop sid tx agents r cs).1 = next_id r.
Proof.
  revert r cs. induction agents as [|a agents IH]; intros r cs; [done|]. cbn.
  case_match; [done|]. unfold add_watch. case_bool_decide; by rewrite IH.
Qed.

Lemma sess_step_wf st op :
  reg_wf st.1 -> next_id st.1 < u64_max ->
  reg_wf (sess_step st op).1 /\ next_id (sess_step st op).1 <= next_id st.1 + 1.
Proof.
  destruct st as [r cs]. intros Hwf Hlt. destruct op as [a tx|a id|sid tx l|sid l|sid|a f]; cbn in *.
  - pose proof (reg_wf_register a tx r cs Hwf Hlt) as Hr. unfold register in *.
    unfold wrapping_add in *. rewrite N.mod_small in * by lia.
    destruct (by_agent r !! a) as [[? ?]|]; cbn in *; (split; [done | lia]).
  - split; [auto with fetchit|]. unfold unregister.
    destruct (by_agent r !! a) as [[? ?]|]; [case_match|]; cbn; lia.
  - split; [auto with fetchit|]. unfold add_watches. rewrite add_loop_next. cbn. lia.
  - split; [auto with fetchit|]. unfold remove_watches. rewrite unwatch_all_next.
    case_match; cbn; lia.
  - split; [by apply reg_wf_drop_all|]. unfold drop_all_watches. case_match; [|lia].
    rewrite unwatch_all_next. cbn. lia.
  - split; [done | lia].
Qed.

Lemma sess_run_wf ops st :
  reg_wf st.1 -> next_id st.1 + len ops <= u64_max -> reg_wf (foldl sess_step st ops).1.
Proof.
  revert st. induction ops as [|op ops IH]; intros st Hwf Hn; [done|]. unfold len in *. cbn [length] in Hn.
  destruct (sess_step_wf st op) as [Hwf' Hn']; [done|lia|]. cbn. apply IH; [done|lia].
Qed.

(** Through any run of registrations, displacements,
    exits, watch and un-watch requests, the two watch indexes stay the same
    relation, hold no duplicate and no empty entry, and no session watches more
    than [MAX_WATCHES_PER_SESSION] agents; a session that exits leaves no entry
    behind in either. *)
Theorem watch_indexes_consistent (ops : list SessOp) (cs : Channels) (sid : SessionId) :
  len ops <= u64_max ->
  let r := (foldl sess_step (registry_new, cs) ops).1 in
  (forall a, sid ∈ (default [] (watchers r !! a)).*1 <-> a ∈ default ∅ (watches_by_session r !! sid)) /\
  (forall a l, watchers r !! a = Some l -> l <> [] /\ NoDup l.*1) /\
  N.of_nat (size (default ∅ (watches_by_session r !! sid))) <= MAX_WATCHES_PER_SESSION /\
  let r' := drop_all_watches sid r in
  watches_by_session r' !! sid = None /\ forall a, sid ∉ (default [] (watchers r' !! a)).*1.
Proof.
  intros Hl r. assert (reg_wf r) as Hwf.
  { apply sess_run_wf; [apply reg_wf_new|]. cbn. lia. }
  pose proof (reg_wf_drop_all sid r Hwf) as (_ & Hd1 & Hd2). destruct Hwf as [Hi Hn Hc _ _].
  split; [intros a; apply Hi|]. split; [done|]. split; [|done].
  destruct (watches_by_session r !! sid) as [s|] eqn:Hs; cbn; [by apply (Hc sid)|].
  rewrite size_empty. unfold MAX_WATCHES_PER_SESSION. lia.
Qed.

Lemma watch_indexes_consistent_witness :
  let r := (foldl sess_step (registry_new, ∅)
    [RRegister [1] 10; RAddWatches 1 10 [[2]; [3]; [2]]; RRemoveWatches 1 [[3]]]).1 in
  1 ∈ (default [] (watchers r !! [2])).*1 /\ [2] ∈ default ∅ (watches_by_session r !! 1) /\
  watchers r !! [3] = None.
Proof.
  cbv zeta.
  pose proof (watch_indexes_consistent
    [RRegister [1] 10; RAddWatches 1 10 [[2]; [3]; [2]]; RRemoveWatches 1 [[3]]] ∅ 1) as Hc.
  destruct Hc as (Hi & _ & _ & _); [by vm_compute|].
  assert (1 ∈ (default [] (watchers (foldl sess_step (registry_new, ∅)
    [RRegister [1] 10; RAddWatches 1 10 [[2]; [3]; [2]]; RRemoveWatches 1 [[3]]]).1 !! [2])).*1) as H1
    by (apply (bool_decide_unpack _); by vm_compute).
  split; [exact H1|]. split; [by apply Hi | by vm_compute].
Defined.

(** When an agent reconnects, the older
    connection is told so and watchers see no change; the exit of the older
    connection then removes nothing and sends nothing, so the newer session stays
    the one the relay delivers to. *)
Theorem displaced_exit_keeps_newer_session (r r' : SessionRegistry) (cs cs' : Channels)
    (a : AgentId) (id1 id2 : SessionId) (tx1 tx2 : Sender) (f : ServerFrame) :
  reg_wf r -> next_id r < u64_max -> by_agent r !! a = Some (id1, tx1) ->
  a <> FEDIVERSE_BRIDGE_SENDER ->
  register a tx2 r cs = (id2, r', cs') ->
  id1 <> id2 /\ cs' = (try_send tx1 (SBye DisplacedByNewSession) cs).2 /\
  unregister a id1 r' cs' = (r', cs') /\
  session_send a f r' cs' = try_send tx2 f cs' /\
  is_online a (unregister a id2 r' cs').1 = false.
Proof.
  intros Hwf Hlt Ha Hb. unfold register, wrapping_add. rewrite N.mod_small by lia. rewrite Ha.
  intros [= <- <- <-]. pose proof (rw_ids r Hwf a _ Ha) as Hid. cbn in Hid.
  split; [lia|]. split; [done|]. unfold unregister, session_send, is_online. cbn.
  rewrite lookup_insert_eq. split; [by rewrite (proj2 (N.eqb_neq _ _)) by lia|].
  split; [by rewrite bool_decide_eq_false_2|].
  rewrite N.eqb_refl. cbn. rewrite lookup_delete_eq. apply bool_decide_eq_false_2. by intros [].
Qed.

Lemma displaced_exit_keeps_newer_session_witness :
  let st := sess_step (registry_new, ∅) (RRegister [1] 10) in
  let '(id2, r', cs') := register [1] 11 st.1 st.2 in
  id2 = 2 /\ unregister [1] 1 r' cs' = (r', cs').
Proof.
  cbn. split; [done|].
  apply (displaced_exit_keeps_newer_session (sess_step (registry_new, ∅) (RRegister [1] 10)).1 _
    (sess_step (registry_new, ∅) (RRegister [1] 10)).2 _ [1] 1 2 10 11 (SPong 0)).
  - apply (sess_run_wf [RRegister [1] 10] (registry_new, ∅)); [apply reg_wf_new | by vm_compute].
  - by vm_compute.
  - by vm_compute.
  - by vm_compute.
  - by vm_compute.
Defined.

(** A session that removed its last watch is still counted by
    [watching_session_count]: only [drop_all_watches] removes its entry. *)
Lemma emptied_watch_set_still_counted (sid : SessionId) (agents : list AgentId) (r : SessionRegistry)
    (mine : gset AgentId) :
  reg_wf r -> watches_by_session r !! sid = Some mine -> mine ⊆ list_to_set agents ->
  watches_by_session (remove_watches sid agents r) !! sid = Some ∅ /\
  watching_session_count (remove_watches sid agents r) = watching_session_count r.
Proof.
  intros Hwf Hm Hsub. unfold remove_watches, watching_session_count. rewrite Hm.
  assert (mine ∖ list_to_set agents = ∅) as -> by set_solver.
  destruct (unwatch_all_spec sid agents
    (set_watches (<[sid := ∅]> (watches_by_session r)) r) (rw_nodup r Hwf)) as (_ & -> & _).
  cbn. split; [apply lookup_insert_eq|]. apply map_size_insert_Some. by eexists.
Qed.
