(* ===== verification/PairRecord.v ===== *)
(** * Signed pairing records

    Models [crates/fetchit-relay-proto/src/pair_record.rs]: the three signed
    records (per agent, forwarding, per user with its devices), the validation of
    their fields, the canonical byte layouts that are signed, and their stateless
    verification.  Base64, URL parsing, SHA-256 and the ML-DSA-65 backend are code
    of other packages and are parameters. *)
From S2P Require Import Prelude RelayProto RelayAuth.

Definition PAIR_RECORD_DOMAIN : bytes := ascii_bytes "fetchit-pair-record-v1".
Definition FORWARDING_DOMAIN : bytes := ascii_bytes "fetchit-forwarding-v1".
Definition PAIR_RECORD_V4_DOMAIN : bytes := ascii_bytes "fetchit-pair-record-v4".
Definition MAX_DEVICES : N := 5.
Definition MAX_RELAYS : N := 4.
Definition MAX_URL_BYTES : N := 256.

Record PairRecordV1 := {
  pr_record_version : N;
  pr_agent_id_hex : string;
  pr_ml_dsa_pubkey_b64 : string;
  pr_kem_pubkey_b64 : string;
  pr_machine_id : string;
  pr_advertised_relays : list string;
  pr_issued_at_ms : N;
  pr_sig_b64 : string;
}.

Record ForwardingRecordV1 := {
  fr_agent_id_hex : string;
  fr_moved_to_relays : list string;
  fr_issued_at_ms : N;
  fr_sig_b64 : string;
}.

Record DeviceEntryV4 := {
  de_agent_id_hex : string;
  de_ml_dsa_pubkey_b64 : string;
  de_kem_pubkey_b64 : string;
  de_advertised_relays : list string;
  de_cert_b64 : string;
  de_added_at_ms : N;
  de_primary : bool;
}.

Record PairRecordV4 := {
  p4_record_version : N;
  p4_user_id_hex : string;
  p4_user_ml_dsa_pubkey_b64 : string;
  p4_revision : N;
  p4_issued_at_ms : N;
  p4_devices : list DeviceEntryV4;
  p4_user_signature_b64 : string;
}.

(** The texts of decoding errors come from the decoder; [Base64]'s is left out. *)
Inductive PairRecordError :=
| EmptyRelays
| TooManyRelays (n : N)
| RelayUrlTooLong (n : N)
| RelayUrlInvalid
| RelayUrlHasCredentials
| AgentIdMismatch
| InvalidAgentIdHex
| InvalidUserIdHex
| UserIdMismatch
| EmptyDevices
| TooManyDevices (n : N)
| NotExactlyOnePrimary (n : N)
| Base64Error
| PubkeyParse (why : string)
| SignatureParse (why : string)
| VerifyBackend (why : string)
| SignatureInvalid
| FieldTooLong (n : N).

(** [url::Url]: what the program reads of a parsed URL. *)
Record Url := {
  url_scheme : string;
  url_host_str : option string;
  url_port : option N;
  url_username : string;
  url_password : option string;
  url_path : string;
  url_query : option string;
  url_fragment : option string;
}.
Class UrlParse := url_parse : string -> option Url.
(** [Url::set_scheme], [Url::set_host] and its [Display]. *)
Class UrlEdit := {
  url_set_scheme : Url -> string -> option Url;
  url_set_host : Url -> string -> option Url;
  url_to_string : Url -> string;
}.

(** ** Field validation *)

Definition is_lower_hex (b : N) : bool :=
  ((48 <=? b) && (b <=? 57)) || ((97 <=? b) && (b <=? 102)).

Definition lower_hex_64 (s : string) : bool :=
  (str_len s =? 64) && forallb is_lower_hex (ascii_bytes s).

Definition validate_user_id_hex (s : string) : result unit PairRecordError :=
  if lower_hex_64 s then Ok tt else Err InvalidUserIdHex.

Definition validate_agent_id_hex (s : string) : result unit PairRecordError :=
  if lower_hex_64 s then Ok tt else Err InvalidAgentIdHex.

Section validation.
  Context `{UrlParse}.

(** The body of the loop over relay URLs. *)
Definition validate_relay (relay : string) : result unit PairRecordError :=
  if MAX_URL_BYTES <? str_len relay then Err (RelayUrlTooLong (str_len relay))
  else match url_parse relay with
       | None => Err RelayUrlInvalid
       | Some u =>
           if negb (bool_decide (url_scheme u = "http"%string))
              && negb (bool_decide (url_scheme u = "https"%string))
           then Err RelayUrlInvalid
           else if match url_host_str u with None => true | Some h => bool_decide (h = EmptyString) end
           then Err RelayUrlInvalid
           else if negb (bool_decide (url_username u = EmptyString)) || is_some (url_password u)
           then Err RelayUrlHasCredentials
           else Ok tt
       end.

(** [for x in l { f(x)?; }]. *)
Fixpoint try_each {A} (f : A -> result unit PairRecordError) (l : list A)
    : result unit PairRecordError :=
  match l with
  | [] => Ok tt
  | x :: l' => let? _ := f x in try_each f l'
  end.

Definition validate_relays (relays : list string) : result unit PairRecordError :=
  if bool_decide (relays = []) then Err EmptyRelays
  else if MAX_RELAYS <? len relays then Err (TooManyRelays (len relays))
  else try_each validate_relay relays.

(** Pre-decoded view of one device. *)
Record DeviceSigningView := {
  dv_agent_id_hex : string;
  dv_ml_dsa_pubkey : bytes;
  dv_kem_pubkey : bytes;
  dv_relays : list string;
  dv_cert : bytes;
  dv_added_at_ms : N;
  dv_primary : bool;
}.

Definition validate_device_list (devices : list DeviceSigningView) : result unit PairRecordError :=
  if bool_decide (devices = []) then Err EmptyDevices
  else if MAX_DEVICES <? len devices then Err (TooManyDevices (len devices))
  else
    let primaries := len (List.filter dv_primary devices) in
    if negb (primaries =? 1) then Err (NotExactlyOnePrimary primaries)
    else try_each (fun d =>
      let? _ := validate_agent_id_hex (dv_agent_id_hex d) in
      validate_relays (dv_relays d)) devices.

(** ** Canonical layouts *)

(** [push_lp]: length prefix and bytes; what is appended. *)
Definition lp (b : bytes) : result bytes PairRecordError :=
  if len b <=? u32_max then Ok (u32_be (len b) ++ b) else Err (FieldTooLong (len b)).

(** [for x in l { push(out, x)?; }]. *)
Fixpoint push_each {A} (f : A -> result bytes PairRecordError) (l : list A)
    : result bytes PairRecordError :=
  match l with
  | [] => Ok []
  | x :: l' => let? b := f x in let? rest := push_each f l' in Ok (b ++ rest)
  end.

(** [u32::try_from(relays.len())], the count, then each relay. *)
Definition push_relays (relays : list string) : result bytes PairRecordError :=
  if len relays <=? u32_max then
    let? body := push_each (fun r => lp (ascii_bytes r)) relays in
    Ok (u32_be (len relays) ++ body)
  else Err (TooManyRelays (len relays)).

Definition pair_signing_input (agent_id_hex : string) (ml_dsa_pubkey kem_pubkey : bytes)
    (relays : list string) (issued_at_ms : N) : result bytes PairRecordError :=
  let? _ := validate_agent_id_hex agent_id_hex in
  let? _ := validate_relays relays in
  let? a := lp (ascii_bytes agent_id_hex) in
  let? m := lp ml_dsa_pubkey in
  let? k := lp kem_pubkey in
  let? r := push_relays relays in
  Ok (PAIR_RECORD_DOMAIN ++ a ++ m ++ k ++ r ++ u64_be issued_at_ms).

Definition forwarding_signing_input (agent_id_hex : string) (relays : list string)
    (issued_at_ms : N) : result bytes PairRecordError :=
  let? _ := validate_agent_id_hex agent_id_hex in
  let? _ := validate_relays relays in
  let? a := lp (ascii_bytes agent_id_hex) in
  let? r := push_relays relays in
  Ok (FORWARDING_DOMAIN ++ a ++ r ++ u64_be issued_at_ms).

Definition push_device (d : DeviceSigningView) : result bytes PairRecordError :=
  let? a := lp (ascii_bytes (dv_agent_id_hex d)) in
  let? m := lp (dv_ml_dsa_pubkey d) in
  let? k := lp (dv_kem_pubkey d) in
  let? r := push_relays (dv_relays d) in
  let? c := lp (dv_cert d) in
  Ok (a ++ m ++ k ++ r ++ u64_be (dv_added_at_ms d)
        ++ [if dv_primary d then 1 else 0] ++ c).

Definition pair_record_v4_signing_input (user_id_hex : string) (user_ml_dsa_pubkey : bytes)
    (revision issued_at_ms : N) (devices : list DeviceSigningView)
    : result bytes PairRecordError :=
  let? _ := validate_user_id_hex user_id_hex in
  let? _ := validate_device_list devices in
  let? u := lp (ascii_bytes user_id_hex) in
  let? m := lp user_ml_dsa_pubkey in
  if len devices <=? u32_max then
    let? ds := push_each push_device devices in
    Ok (PAIR_RECORD_V4_DOMAIN ++ u ++ m ++ u64_be revision ++ u64_be issued_at_ms
          ++ u32_be (len devices) ++ ds)
  else Err (TooManyDevices (len devices)).
End validation.

(** ** Verification *)

Section verification.
  Context `{UrlParse} `{Sha256} `{Base64} `{MlDsaBackend}.

Definition b64 (s : string) : result bytes PairRecordError :=
  match b64_decode s with Some b => Ok b | None => Err Base64Error end.

(** Parse key and signature, then verify. *)
Definition check_signature (pk input sig : bytes) : result unit PairRecordError :=
  match pk_from_bytes pk with
  | Err e => Err (PubkeyParse e)
  | Ok _ =>
      match sig_from_bytes sig with
      | Err e => Err (SignatureParse e)
      | Ok _ =>
          match mldsa_verify pk input sig with
          | Err e => Err (VerifyBackend e)
          | Ok ok => if (ok : bool) then Ok tt else Err SignatureInvalid
          end
      end
  end.

Definition verify_pair_record (record : PairRecordV1) : result unit PairRecordError :=
  let? _ := validate_agent_id_hex (pr_agent_id_hex record) in
  let? _ := validate_relays (pr_advertised_relays record) in
  let? ml_dsa_pubkey := b64 (pr_ml_dsa_pubkey_b64 record) in
  let? kem_pubkey := b64 (pr_kem_pubkey_b64 record) in
  let? sig_bytes := b64 (pr_sig_b64 record) in
  if negb (bool_decide (hex_encode (derive_agent_id ml_dsa_pubkey) = pr_agent_id_hex record))
  then Err AgentIdMismatch
  else
    let? input := pair_signing_input (pr_agent_id_hex record) ml_dsa_pubkey kem_pubkey
                    (pr_advertised_relays record) (pr_issued_at_ms record) in
    check_signature ml_dsa_pubkey (agent_sign_input input) sig_bytes.

Definition verify_forwarding_record (record : ForwardingRecordV1) (expected_pubkey : bytes)
    : result unit PairRecordError :=
  let? _ := validate_agent_id_hex (fr_agent_id_hex record) in
  let? _ := validate_relays (fr_moved_to_relays record) in
  let? sig_bytes := b64 (fr_sig_b64 record) in
  if negb (bool_decide (hex_encode (derive_agent_id expected_pubkey) = fr_agent_id_hex record))
  then Err AgentIdMismatch
  else
    let? input := forwarding_signing_input (fr_agent_id_hex record) (fr_moved_to_relays record)
                    (fr_issued_at_ms record) in
    check_signature expected_pubkey (agent_sign_input input) sig_bytes.

(** Validate and decode one device, checking its id derives from its key. *)
Definition decode_device (d : DeviceEntryV4) : result DeviceSigningView PairRecordError :=
  let? _ := validate_agent_id_hex (de_agent_id_hex d) in
  let? _ := validate_relays (de_advertised_relays d) in
  let? ml := b64 (de_ml_dsa_pubkey_b64 d) in
  let? kem := b64 (de_kem_pubkey_b64 d) in
  let? cert := b64 (de_cert_b64 d) in
  if negb (bool_decide (hex_encode (derive_agent_id ml) = de_agent_id_hex d))
  then Err AgentIdMismatch
  else Ok (Build_DeviceSigningView (de_agent_id_hex d) ml kem (de_advertised_relays d) cert
             (de_added_at_ms d) (de_primary d)).

Fixpoint decode_devices (l : list DeviceEntryV4) : result (list DeviceSigningView) PairRecordError :=
  match l with
  | [] => Ok []
  | d :: l' => let? v := decode_device d in let? vs := decode_devices l' in Ok (v :: vs)
  end.

Definition verify_pair_record_v4 (record : PairRecordV4) : result unit PairRecordError :=
  let? _ := validate_user_id_hex (p4_user_id_hex record) in
  if bool_decide (p4_devices record = []) then Err EmptyDevices
  else if MAX_DEVICES <? len (p4_devices record)
  then Err (TooManyDevices (len (p4_devices record)))
  else
    let primaries := len (List.filter de_primary (p4_devices record)) in
    if negb (primaries =? 1) then Err (NotExactlyOnePrimary primaries)
    else
      let? user_pubkey := b64 (p4_user_ml_dsa_pubkey_b64 record) in
      if negb (bool_decide (hex_encode (derive_user_id user_pubkey) = p4_user_id_hex record))
      then Err UserIdMismatch
      else
        let? views := decode_devices (p4_devices record) in
        let? input := pair_record_v4_signing_input (p4_user_id_hex record) user_pubkey
                        (p4_revision record) (p4_issued_at_ms record) views in
        let? sig_bytes := b64 (p4_user_signature_b64 record) in
        check_signature user_pubkey input sig_bytes.
End verification.

(** ** The layouts are unambiguous *)

(** An encoder whose output can be cut off the front of any byte string. *)
Definition self_delimiting {A E} (P : A -> Prop) (f : A -> result bytes E) : Prop :=
  forall x y bx by_ r s, P x -> P y -> f x = Ok bx -> f y = Ok by_ ->
    bx ++ r = by_ ++ s -> x = y /\ r = s.

(** [let? x := c in k = Ok b] taken apart. *)
Lemma bind_ok {A B E} (c : result A E) (k : A -> result B E) b :
  match c with Ok x => k x | Err e => Err e end = Ok b <-> exists x, c = Ok x /\ k x = Ok b.
Proof. destruct c; naive_solver. Qed.

Lemma ok_inj {A E} (a b : A) : Ok (E:=E) a = Ok b -> a = b.
Proof. congruence. Qed.

Ltac inv_bind H :=
  repeat lazymatch type of H with
  | match _ with Ok _ => _ | Err _ => _ end = Ok _ =>
      let x := fresh "x" in let Hx := fresh "Hx" in apply bind_ok in H as (x & Hx & H)
  end.

(** A fixed-width prefix splits off. *)
Lemma u32_be_split a b (r s : bytes) :
  a <= u32_max -> b <= u32_max -> u32_be a ++ r = u32_be b ++ s -> a = b /\ r = s.
Proof. intros Ha Hb [Heq Hrs]%app_inj_1; [|done]. by apply u32_be_inj in Heq. Qed.

Lemma u64_be_split a b (r s : bytes) :
  a <= u64_max -> b <= u64_max -> u64_be a ++ r = u64_be b ++ s -> a = b /\ r = s.
Proof. intros Ha Hb [Heq Hrs]%app_inj_1; [|done]. by apply u64_be_inj in Heq. Qed.

Lemma lp_self_delimiting : self_delimiting (fun _ => True) lp.
Proof.
  intros x y bx by_ r s _ _. unfold lp.
  destruct (N.leb_spec (len x) u32_max); [|done]. intros <-%ok_inj.
  destruct (N.leb_spec (len y) u32_max); [|done]. intros <-%ok_inj.
  rewrite <- !app_assoc. intros [Hlen Heq]%u32_be_split; [|done..].
  apply app_inj_1 in Heq; [done|]. unfold len in Hlen. lia.
Qed.

Lemma lp_string_self_delimiting :
  self_delimiting (fun _ => True) (fun s => lp (ascii_bytes s)).
Proof.
  intros x y bx by_ r s _ _ Hx Hy Heq.
  destruct (lp_self_delimiting _ _ _ _ _ _ I I Hx Hy Heq) as [Hxy ->].
  by apply ascii_bytes_inj in Hxy.
Qed.

Lemma push_each_split {A} (P : A -> Prop) (f : A -> result bytes PairRecordError) :
  self_delimiting P f ->
  forall x y bx by_ r s, length x = length y -> Forall P x -> Forall P y ->
    push_each f x = Ok bx -> push_each f y = Ok by_ -> bx ++ r = by_ ++ s -> x = y /\ r = s.
Proof.
  intros Hf x. induction x as [|a x IH]; intros [|c y] bx by_ r s Hlen HPx HPy; try done; cbn.
  { intros [= <-] [= <-]. done. }
  intros Hx Hy. inv_bind Hx. inv_bind Hy. apply ok_inj in Hx as <-. apply ok_inj in Hy as <-.
  apply Forall_cons in HPx as [HPa HPx]. apply Forall_cons in HPy as [HPc HPy].
  rewrite <- !app_assoc. intros Heq.
  edestruct (Hf a c) as [<- Heq']; [done..|].
  edestruct (IH y) as [<- ->]; eauto.
Qed.

Lemma push_relays_self_delimiting : self_delimiting (fun _ => True) push_relays.
Proof.
  intros x y bx by_ r s _ _. unfold push_relays.
  destruct (N.leb_spec (len x) u32_max); [|done]. intros Hx.
  destruct (N.leb_spec (len y) u32_max); [|done]. intros Hy.
  inv_bind Hx. inv_bind Hy. apply ok_inj in Hx as <-. apply ok_inj in Hy as <-. rewrite <- !app_assoc.
  intros [Hlen Heq]%u32_be_split; [|done..].
  eapply push_each_split in Heq; [done| |..]; try done.
  - apply lp_string_self_delimiting.
  - unfold len in Hlen. lia.
  - by apply Forall_true.
  - by apply Forall_true.
Qed.

(** Cut one length-prefixed or fixed-width field off the front of an equation. *)
Ltac split_field H :=
  rewrite <- ?app_assoc in H;
  first
    [ eapply lp_string_self_delimiting in H; [|done|done|eassumption|eassumption]
    | eapply lp_self_delimiting in H; [|done|done|eassumption|eassumption]
    | eapply push_relays_self_delimiting in H; [|done|done|eassumption|eassumption]
    | apply u64_be_split in H; [|lia|lia] ];
  let He := fresh "He" in destruct H as [He H].

Definition device_bounded (d : DeviceSigningView) : Prop := dv_added_at_ms d <= u64_max.

Lemma push_device_self_delimiting : self_delimiting device_bounded push_device.
Proof.
  unfold device_bounded.
  intros [a m k r c t p] [a' m' k' r' c' t' p'] bx by_ l l' Hb Hb' Hx Hy Heq.
  unfold push_device in *. cbn in *. inv_bind Hx. inv_bind Hy. apply ok_inj in Hx as <-. apply ok_inj in Hy as <-.
  repeat split_field Heq. cbn in Heq. injection Heq as Hp Heq.
  split_field Heq. subst. split; [|done]. f_equal. by destruct p, p'.
Qed.

(** What the three signers sign. *)
Inductive Signable :=
| SignPair (agent_id_hex : string) (ml_dsa_pubkey kem_pubkey : bytes) (relays : list string)
    (issued_at_ms : N)
| SignForwarding (agent_id_hex : string) (relays : list string) (issued_at_ms : N)
| SignUser (user_id_hex : string) (user_ml_dsa_pubkey : bytes) (revision issued_at_ms : N)
    (devices : list DeviceSigningView).

Section signed.
  Context `{UrlParse}.

(** The bytes under the signature: the agent key signs inside the
    external-agent-sign framing, the user key signs the layout itself. *)
Definition signed_bytes (r : Signable) : result bytes PairRecordError :=
  match r with
  | SignPair a m k rs t => let? i := pair_signing_input a m k rs t in Ok (agent_sign_input i)
  | SignForwarding a rs t => let? i := forwarding_signing_input a rs t in Ok (agent_sign_input i)
  | SignUser u m rev t ds => pair_record_v4_signing_input u m rev t ds
  end.

(** The timestamps and revisions are [u64]s. *)
Definition signable_wf (r : Signable) : Prop :=
  match r with
  | SignPair _ _ _ _ t | SignForwarding _ _ t => t <= u64_max
  | SignUser _ _ rev t ds => rev <= u64_max /\ t <= u64_max /\ Forall device_bounded ds
  end.

Lemma pair_input_inj a m k rs t a' m' k' rs' t' b :
  t <= u64_max -> t' <= u64_max ->
  pair_signing_input a m k rs t = Ok b -> pair_signing_input a' m' k' rs' t' = Ok b ->
  SignPair a m k rs t = SignPair a' m' k' rs' t'.
Proof.
  intros Ht Ht' Hx Hy. unfold pair_signing_input in *. inv_bind Hx. inv_bind Hy.
  rewrite <- Hx in Hy. apply ok_inj in Hy as Heq. apply app_inv_head in Heq.
  symmetry in Heq. do 4 split_field Heq. apply u64_be_inj in Heq; [|done..]. congruence.
Qed.

Lemma forwarding_input_inj a rs t a' rs' t' b :
  t <= u64_max -> t' <= u64_max ->
  forwarding_signing_input a rs t = Ok b -> forwarding_signing_input a' rs' t' = Ok b ->
  SignForwarding a rs t = SignForwarding a' rs' t'.
Proof.
  intros Ht Ht' Hx Hy. unfold forwarding_signing_input in *. inv_bind Hx. inv_bind Hy.
  rewrite <- Hx in Hy. apply ok_inj in Hy as Heq. apply app_inv_head in Heq.
  symmetry in Heq. do 2 split_field Heq. apply u64_be_inj in Heq; [|done..]. congruence.
Qed.

Lemma user_input_inj u m rev t ds u' m' rev' t' ds' b :
  rev <= u64_max /\ t <= u64_max /\ Forall device_bounded ds ->
  rev' <= u64_max /\ t' <= u64_max /\ Forall device_bounded ds' ->
  pair_record_v4_signing_input u m rev t ds = Ok b ->
  pair_record_v4_signing_input u' m' rev' t' ds' = Ok b ->
  SignUser u m rev t ds = SignUser u' m' rev' t' ds'.
Proof.
  intros (? & ? & Hds) (? & ? & Hds') Hx Hy. unfold pair_record_v4_signing_input in *.
  inv_bind Hx. inv_bind Hy.
  destruct (N.leb_spec (len ds) u32_max); [|done].
  destruct (N.leb_spec (len ds') u32_max); [|done]. inv_bind Hx. inv_bind Hy.
  rewrite <- Hx in Hy. apply ok_inj in Hy as Heq. apply app_inv_head in Heq. symmetry in Heq.
  do 4 split_field Heq. apply u32_be_split in Heq as [Hlen Heq]; [|done..].
  apply (f_equal (.++ [])) in Heq.
  assert (length ds = length ds') by (unfold len in Hlen; lia).
  pose proof push_device_self_delimiting as Hd.
  assert (ds = ds') as ->; [|congruence].
  eapply (push_each_split _ _ Hd); [..|exact Heq]; done.
Qed.

(** Each signing input starts with its domain. *)
Lemma pair_input_domain a m k rs t b :
  pair_signing_input a m k rs t = Ok b -> exists r, b = PAIR_RECORD_DOMAIN ++ r.
Proof. intros Hx. unfold pair_signing_input in Hx. inv_bind Hx. apply ok_inj in Hx as <-. eauto. Qed.
Lemma forwarding_input_domain a rs t b :
  forwarding_signing_input a rs t = Ok b -> exists r, b = FORWARDING_DOMAIN ++ r.
Proof. intros Hx. unfold forwarding_signing_input in Hx. inv_bind Hx. apply ok_inj in Hx as <-. eauto. Qed.
Lemma user_input_domain u m rev t ds b :
  pair_record_v4_signing_input u m rev t ds = Ok b -> exists r, b = PAIR_RECORD_V4_DOMAIN ++ r.
Proof.
  intros Hx. unfold pair_record_v4_signing_input in Hx. inv_bind Hx.
  case_match; [|done]. inv_bind Hx. apply ok_inj in Hx as <-. eauto.
Qed.
End signed.

Lemma agent_sign_input_inj x y : agent_sign_input x = agent_sign_input y -> x = y.
Proof. by intros [=]. Qed.

(** The three layouts never coincide, framed as they are signed. *)
Lemma signed_kinds_disjoint (p f u : bytes) :
  agent_sign_input (PAIR_RECORD_DOMAIN ++ p) <> agent_sign_input (FORWARDING_DOMAIN ++ f) /\
  agent_sign_input p <> PAIR_RECORD_V4_DOMAIN ++ u.
Proof. split; [intros Heq%agent_sign_input_inj; by inversion Heq | by intros [=]]. Qed.

(** No byte string is what two different records
    sign: per-agent, forwarding and per-user records are told apart by their
    domains and by the framing of the agent key, and within one kind the signed
    bytes determine every field of the layout, so a signature over one record
    can never be presented with another. *)
Theorem signed_records_unambiguous `{UrlParse} (r r' : Signable) (b : bytes) :
  signable_wf r -> signable_wf r' -> signed_bytes r = Ok b -> signed_bytes r' = Ok b -> r = r'.
Proof.
  intros Hwf Hwf' Hb Hb'. pose proof signed_kinds_disjoint as Hdis.
  assert (forall i i', Ok (E:=PairRecordError) (agent_sign_input i) = Ok b ->
    Ok (E:=PairRecordError) (agent_sign_input i') = Ok b -> i = i') as Hinj.
  { intros i i' [= <-] Heq%ok_inj. symmetry. by apply agent_sign_input_inj. }
  destruct r as [a m k rs t|a rs t|u m rev t ds], r' as [a' m' k' rs' t'|a' rs' t'|u' m' rev' t' ds'];
    cbn in Hb, Hb', Hwf, Hwf'; inv_bind Hb; inv_bind Hb'.
  - rewrite (Hinj _ _ Hb Hb') in Hx. by eapply pair_input_inj.
  - apply pair_input_domain in Hx as [p ->]. apply forwarding_input_domain in Hx0 as [f ->].
    apply ok_inj in Hb, Hb'. exfalso. apply (proj1 (Hdis p f [])). congruence.
  - apply user_input_domain in Hb' as [w ->]. apply ok_inj in Hb.
    by destruct (proj2 (Hdis x [] w)).
  - apply pair_input_domain in Hx0 as [p ->]. apply forwarding_input_domain in Hx as [f ->].
    apply ok_inj in Hb, Hb'. exfalso. apply (proj1 (Hdis p f [])). congruence.
  - rewrite (Hinj _ _ Hb Hb') in Hx. by eapply forwarding_input_inj.
  - apply user_input_domain in Hb' as [w ->]. apply ok_inj in Hb.
    by destruct (proj2 (Hdis x [] w)).
  - apply user_input_domain in Hb as [w ->]. apply ok_inj in Hb'.
    by destruct (proj2 (Hdis x [] w)).
  - apply user_input_domain in Hb as [w ->]. apply ok_inj in Hb'.
    by destruct (proj2 (Hdis x [] w)).
  - by eapply user_input_inj.
Qed.

(** ** What a verified record guarantees *)

(** The rule every relay URL of a record obeys. *)
Definition relay_ok `{UrlParse} (relay : string) : Prop :=
  str_len relay <= MAX_URL_BYTES /\
  exists u, url_parse relay = Some u /\
    (url_scheme u = "http"%string \/ url_scheme u = "https"%string) /\
    (exists h, url_host_str u = Some h /\ h <> EmptyString) /\
    url_username u = EmptyString /\ url_password u = None.

Lemma validate_relay_ok `{UrlParse} relay : validate_relay relay = Ok tt <-> relay_ok relay.
Proof.
  unfold validate_relay, relay_ok.
  destruct (N.ltb_spec MAX_URL_BYTES (str_len relay)) as [Hl|Hl].
  { split; [done | intros [? _]; lia]. }
  destruct (url_parse relay) as [u|] eqn:Hu; [|naive_solver].
  destruct u as [sc [h|] po un [pw|]]; cbn;
    repeat case_bool_decide; cbn; subst; naive_solver.
Qed.

Lemma try_each_ok {A} (f : A -> result unit PairRecordError) l :
  try_each f l = Ok tt <-> Forall (fun x => f x = Ok tt) l.
Proof.
  induction l as [|x l IH]; cbn; [by split; constructor|].
  rewrite Forall_cons, <- IH. destruct (f x) as [[]|]; naive_solver.
Qed.

Lemma validate_relays_ok `{UrlParse} relays :
  validate_relays relays = Ok tt <-> 1 <= len relays <= MAX_RELAYS /\ Forall relay_ok relays.
Proof.
  unfold validate_relays. case_bool_decide as He.
  { subst. split; [done|]. by intros [[Hl _] _]. }
  assert (1 <= len relays) by (destruct relays; [done | unfold len; cbn; lia]).
  destruct (N.ltb_spec MAX_RELAYS (len relays)) as [Hl|Hl].
  { split; [done | intros [? _]; lia]. }
  rewrite try_each_ok.
  split; [intros Hf; split; [done|] | intros [_ Hf]]; eapply Forall_impl; try exact Hf;
    intros r; apply validate_relay_ok.
Qed.

Lemma check_signature_ok `{MlDsaBackend} pk input sig :
  check_signature pk input sig = Ok tt <->
  is_ok (pk_from_bytes pk) = true /\ is_ok (sig_from_bytes sig) = true /\
  mldsa_verify pk input sig = Ok true.
Proof.
  unfold check_signature. destruct (pk_from_bytes pk); [|naive_solver].
  destruct (sig_from_bytes sig); [|naive_solver].
  destruct (mldsa_verify pk input sig) as [[]|]; naive_solver.
Qed.

(** The relay's verifier and the record check accept the same signatures. *)
Lemma ml_dsa_65_verifier_ok `{MlDsaBackend} pk input sig :
  ml_dsa_65_verifier pk input sig = true <-> check_signature pk input sig = Ok tt.
Proof.
  rewrite check_signature_ok. unfold ml_dsa_65_verifier.
  destruct (pk_from_bytes pk); [|naive_solver]. destruct (sig_from_bytes sig); [|naive_solver].
  destruct (mldsa_verify pk input sig) as [[]|]; naive_solver.
Qed.

Lemma b64_ok `{Base64} s b : b64 s = Ok b <-> b64_decode s = Some b.
Proof. unfold b64. destruct (b64_decode s); naive_solver. Qed.

Lemma lower_hex_ok {E} (e : E) s : (if lower_hex_64 s then Ok tt else Err e) = Ok tt <-> lower_hex_64 s = true.
Proof. destruct (lower_hex_64 s); naive_solver. Qed.

(** A check that returns nothing. *)
Lemma bind_unit_ok {B E} (c : result unit E) (k : result B E) b :
  match c with Ok _ => k | Err e => Err e end = Ok b <-> c = Ok tt /\ k = Ok b.
Proof. destruct c as [[]|]; naive_solver. Qed.

Lemma guard_ok {B E} (c : bool) (e : E) (k : result B E) b :
  (if negb c then Err e else k) = Ok b <-> c = true /\ k = Ok b.
Proof. destruct c; naive_solver. Qed.

Section verified.
  Context `{UrlParse} `{Sha256} `{Base64} `{MlDsaBackend}.

(** The signature check a signer's record has to pass. *)
Definition signature_good (pk input sig : bytes) : Prop :=
  is_ok (pk_from_bytes pk) = true /\ is_ok (sig_from_bytes sig) = true /\
  mldsa_verify pk input sig = Ok true.

(** A device entry and the raw fields it decodes to. *)
Definition device_bound (d : DeviceEntryV4) (v : DeviceSigningView) : Prop :=
  b64_decode (de_ml_dsa_pubkey_b64 d) = Some (dv_ml_dsa_pubkey v) /\
  b64_decode (de_kem_pubkey_b64 d) = Some (dv_kem_pubkey v) /\
  b64_decode (de_cert_b64 d) = Some (dv_cert v) /\
  dv_agent_id_hex v = de_agent_id_hex d /\ dv_relays v = de_advertised_relays d /\
  dv_added_at_ms v = de_added_at_ms d /\ dv_primary v = de_primary d /\
  hex_encode (derive_agent_id (dv_ml_dsa_pubkey v)) = de_agent_id_hex d /\
  1 <= len (de_advertised_relays d) <= MAX_RELAYS /\ Forall relay_ok (de_advertised_relays d).

Lemma decode_device_bound d v : decode_device d = Ok v -> device_bound d v.
Proof.
  unfold decode_device. rewrite !bind_unit_ok. intros (_ & Hrel & Hd). inv_bind Hd.
  apply guard_ok in Hd as [Hid%bool_decide_eq_true Hv]. apply ok_inj in Hv as <-.
  apply b64_ok in Hx, Hx0, Hx1. by apply validate_relays_ok in Hrel as [? ?].
Qed.

Lemma decode_devices_bound l vs : decode_devices l = Ok vs -> Forall2 device_bound l vs.
Proof.
  revert vs. induction l as [|d l IH]; intros vs; cbn; [intros [= <-]; constructor|].
  intros Hd. inv_bind Hd. apply ok_inj in Hd as <-.
  constructor; [by apply decode_device_bound | by apply IH].
Qed.

(** Exactly one element satisfies the predicate. *)
Lemma filter_len_one {A} (P : A -> bool) (l : list A) :
  len (List.filter P l) = 1 ->
  exists pre x post, l = pre ++ x :: post /\ P x = true /\
    List.filter P pre = [] /\ List.filter P post = [].
Proof.
  unfold len. induction l as [|x l IH]; cbn; [done|]. destruct (P x) eqn:Hx; cbn.
  - intros Hl. exists [], x, l. split; [done|]. split; [done|]. split; [done|].
    apply nil_length_inv. lia.
  - intros (pre & y & post & -> & Hy & Hpre & Hpost)%IH. exists (x :: pre), y, post.
    cbn. by rewrite Hx.
Qed.

(** A per-agent record verifies exactly when its
    agent id is the derived id of the key it carries, it lists one to four relay
    URLs, all http(s), with a host, of at most 256 bytes and without
    credentials, and that key signed, inside the agent framing, the canonical
    layout of these very fields.  A record for somebody else's id, or one edited
    after signing, needs a second signature by the same key. *)
Theorem verified_record_binds_agent (record : PairRecordV1) :
  verify_pair_record record = Ok tt <->
  exists pk kem sig input,
    b64_decode (pr_ml_dsa_pubkey_b64 record) = Some pk /\
    b64_decode (pr_kem_pubkey_b64 record) = Some kem /\
    b64_decode (pr_sig_b64 record) = Some sig /\
    hex_encode (derive_agent_id pk) = pr_agent_id_hex record /\
    1 <= len (pr_advertised_relays record) <= MAX_RELAYS /\
    Forall relay_ok (pr_advertised_relays record) /\
    signed_bytes (SignPair (pr_agent_id_hex record) pk kem (pr_advertised_relays record)
      (pr_issued_at_ms record)) = Ok input /\
    signature_good pk input sig.
Proof.
  unfold verify_pair_record, signature_good. cbn. rewrite !bind_unit_ok, validate_relays_ok. split.
  - intros (_ & [Hl Hf] & Hv). inv_bind Hv. apply guard_ok in Hv as [Hid%bool_decide_eq_true Hv].
    inv_bind Hv. apply check_signature_ok in Hv. apply b64_ok in Hx, Hx0, Hx1.
    exists x, x0, x1, (agent_sign_input x2). by rewrite Hx2.
  - intros (pk & kem & sig & input & Hpk & Hkem & Hsig & Hid & Hl & Hf & Hin & Hgood).
    inv_bind Hin. apply ok_inj in Hin as <-.
    assert (validate_agent_id_hex (pr_agent_id_hex record) = Ok tt) as Hhex.
    { unfold pair_signing_input in Hx. by apply bind_unit_ok in Hx as [? _]. }
    apply b64_ok in Hpk, Hkem, Hsig. split; [done|]. split; [done|].
    rewrite Hpk, Hkem, Hsig, bool_decide_true, Hx by done. by apply check_signature_ok.
Qed.

(** A per-user record that verifies was
    signed by the key its user id derives from; it has one to five devices of
    which exactly one is primary, and each device's agent id derives from that
    device's own key, all covered by the user's signature. *)
Theorem verified_user_record_binds_devices (record : PairRecordV4) :
  verify_pair_record_v4 record = Ok tt ->
  exists pk views input sig,
    b64_decode (p4_user_ml_dsa_pubkey_b64 record) = Some pk /\
    b64_decode (p4_user_signature_b64 record) = Some sig /\
    hex_encode (derive_user_id pk) = p4_user_id_hex record /\
    1 <= len (p4_devices record) <= MAX_DEVICES /\
    (exists pre d post, p4_devices record = pre ++ d :: post /\ de_primary d = true /\
       List.filter de_primary pre = [] /\ List.filter de_primary post = []) /\
    Forall2 device_bound (p4_devices record) views /\
    signed_bytes (SignUser (p4_user_id_hex record) pk (p4_revision record)
      (p4_issued_at_ms record) views) = Ok input /\
    signature_good pk input sig.
Proof.
  unfold verify_pair_record_v4. rewrite bind_unit_ok. intros [_ Hv].
  case_bool_decide as Hne; [done|].
  destruct (N.ltb_spec MAX_DEVICES (len (p4_devices record))) as [|Hmax]; [done|].
  apply guard_ok in Hv as [Hone%N.eqb_eq Hv]. inv_bind Hv.
  apply guard_ok in Hv as [Hid%bool_decide_eq_true Hv]. inv_bind Hv.
  apply check_signature_ok in Hv. apply b64_ok in Hx, Hx2. apply decode_devices_bound in Hx0.
  exists x, x0, x1, x2. split; [done|]. split; [done|]. split; [done|].
  split. { destruct (p4_devices record); [done|]. unfold len in *. cbn in *. lia. }
  split; [by apply filter_len_one | done].
Qed.
End verified.

(** The same for a forwarding record, whose key the caller supplies. *)
Lemma verified_forwarding_ok `{UrlParse} `{Sha256} `{Base64} `{MlDsaBackend} record pk :
  verify_forwarding_record record pk = Ok tt ->
  exists sig input,
    b64_decode (fr_sig_b64 record) = Some sig /\
    hex_encode (derive_agent_id pk) = fr_agent_id_hex record /\
    1 <= len (fr_moved_to_relays record) <= MAX_RELAYS /\
    Forall relay_ok (fr_moved_to_relays record) /\
    signed_bytes (SignForwarding (fr_agent_id_hex record) (fr_moved_to_relays record)
      (fr_issued_at_ms record)) = Ok input /\
    signature_good pk input sig.
Proof.
  unfold verify_forwarding_record, signature_good. cbn.
  rewrite !bind_unit_ok, validate_relays_ok. intros (_ & [Hl Hf] & Hv). inv_bind Hv.
  apply guard_ok in Hv as [Hid%bool_decide_eq_true Hv]. inv_bind Hv.
  apply check_signature_ok in Hv. apply b64_ok in Hx.
  exists x, (agent_sign_input x0). by rewrite Hx0.
Qed.

(** ** Witnesses *)

(** Instances the witnesses run with: a hash of the right length, URLs whose
    scheme is what precedes the colon, a signature that repeats the key. *)
Definition demo_url : UrlParse := fun s =>
  match String.index 0 "://" s with
  | Some n => Some {| url_scheme := String.substring 0 n s; url_host_str := Some "h"%string;
                      url_port := None; url_username := EmptyString; url_password := None;
                      url_path := EmptyString; url_query := None; url_fragment := None |}
  | None => None
  end.
Definition demo_sha32 : Sha256 := fun b => replicate 31 0 ++ [len b].
Definition demo_mldsa : MlDsaBackend :=
  {| pk_from_bytes := fun _ => Ok tt; sig_from_bytes := fun _ => Ok tt;
     mldsa_verify := fun pk _ sig => Ok (bool_decide (pk = sig)) |}.

#[local] Existing Instance demo_url.
#[local] Existing Instance demo_sha32.
#[local] Existing Instance demo_mldsa.
#[local] Existing Instance demo_base64.

Definition demo_agent (pk : bytes) : string := hex_encode (derive_agent_id pk).

Lemma signed_records_unambiguous_witness :
  let r := SignPair (demo_agent [1]) [1] [2; 3] ["http://a"; "http://b"]%string 7 in
  let r' := SignPair (demo_agent [1]) [1] [2; 3] ["http://b"; "http://a"]%string 7 in
  exists b, signed_bytes r = Ok b /\ signed_bytes r' <> Ok b.
Proof.
  cbv zeta. eexists. split; [vm_compute; reflexivity|]. intros Hr'.
  assert (forall t, t = 7 -> t <= u64_max) as Hb by (intros ? ->; by vm_compute).
  refine (_ (signed_records_unambiguous
    (SignPair (demo_agent [1]) [1] [2; 3] ["http://a"; "http://b"]%string 7)
    (SignPair (demo_agent [1]) [1] [2; 3] ["http://b"; "http://a"]%string 7) _
    (Hb 7 eq_refl) (Hb 7 eq_refl) _ Hr')); [by intros [=] | by vm_compute].
Defined.

Definition demo_device (pk : bytes) (primary : bool) : DeviceEntryV4 :=
  {| de_agent_id_hex := demo_agent pk; de_ml_dsa_pubkey_b64 := b64_encode pk;
     de_kem_pubkey_b64 := b64_encode [8]; de_advertised_relays := ["https://r"%string];
     de_cert_b64 := b64_encode []; de_added_at_ms := 3; de_primary := primary |}.
Definition demo_user_record : PairRecordV4 :=
  {| p4_record_version := 4; p4_user_id_hex := hex_encode (derive_user_id [5; 6]);
     p4_user_ml_dsa_pubkey_b64 := b64_encode [5; 6]; p4_revision := 1; p4_issued_at_ms := 9;
     p4_devices := [demo_device [1] false; demo_device [1; 2] true];
     p4_user_signature_b64 := b64_encode [5; 6] |}.

Lemma verified_user_record_binds_devices_witness :
  verify_pair_record_v4 demo_user_record = Ok tt /\
  exists pk, b64_decode (p4_user_ml_dsa_pubkey_b64 demo_user_record) = Some pk /\
    hex_encode (derive_user_id pk) = p4_user_id_hex demo_user_record.
Proof.
  assert (verify_pair_record_v4 demo_user_record = Ok tt) as Hv by by vm_compute.
  split; [exact Hv|].
  destruct (verified_user_record_binds_devices demo_user_record Hv)
    as (pk & _ & _ & _ & Hpk & _ & Hid & _).
  exists pk. split; [exact Hpk | exact Hid].
Defined.
