(* ===== verification/ShareUri.v ===== *)
(** * Links that name a contact

    Models the two links a contact is added from: the pairing link of
    [crates/fetchit-chat/src/pair_uri.rs] and the v3 share link of
    [crates/fetchit-chat/src/profile.rs].  URL parsing and the form encoding of
    query strings are the [url] crate's: parameters, with their documented inverse
    as laws where a theorem needs it. *)
From Stdlib Require Import Ascii.
From stdpp Require Import pretty.
From S2P Require Import Prelude PairRecord.
Open Scope rust_scope.

(** ** [str] *)

Fixpoint strip_prefix (p s : string) : option string :=
  match p, s with
  | EmptyString, _ => Some s
  | String a p, String b s => if bool_decide (a = b) then strip_prefix p s else None
  | String _ _, EmptyString => None
  end.

Fixpoint split_once (c : Ascii.ascii) (s : string) : option (string * string) :=
  match s with
  | EmptyString => None
  | String a s =>
      if bool_decide (a = c) then Some (EmptyString, s)
      else '(x, y) ← split_once c s; Some (String a x, y)
  end.

(** The parts between separators: the first one and the others. *)
Fixpoint split (c : Ascii.ascii) (s : string) : string * list string :=
  match s with
  | EmptyString => (EmptyString, [])
  | String a s =>
      let '(h, t) := split c s in
      if bool_decide (a = c) then (EmptyString, h :: t) else (String a h, t)
  end.

Fixpoint trim_start_matches (c : Ascii.ascii) (s : string) : string :=
  match s with
  | String a s' => if bool_decide (a = c) then trim_start_matches c s' else s
  | EmptyString => EmptyString
  end.

Fixpoint trim_end_matches (c : Ascii.ascii) (s : string) : string :=
  match s with
  | EmptyString => EmptyString
  | String a s' =>
      match trim_end_matches c s' with
      | EmptyString => if bool_decide (a = c) then EmptyString else String a EmptyString
      | t => String a t
      end
  end.

(** [url::form_urlencoded]: [parse], and the serializer of one value. *)
Class FormUrl := { form_parse : string -> list (string * string); form_serialize : string -> string }.

(** What a series of [append_pair] leaves as the query. *)
Fixpoint form_print `{FormUrl} (pairs : list (string * string)) : string :=
  match pairs with
  | [] => EmptyString
  | [(k, v)] => form_serialize k +:+ "=" +:+ form_serialize v
  | (k, v) :: rest => form_serialize k +:+ "=" +:+ form_serialize v +:+ "&" +:+ form_print rest
  end.

(** ** [pair_uri.rs] *)

Module PairUri.
Definition SCHEME : string := "x0x".
Definition HOST_SEGMENT : string := "pair".
Definition MAX_URI_LEN : N := 512.
Definition MAX_RELAY_LEN : N := 256.
Definition MAX_RELAYS : N := 4.

Inductive PairUriError := TooLong | InvalidAgentId | NoRelays | TooManyRelays | InvalidRelay (why : string).

Record ParsedPairUri := { pu_agent_id_hex : string; pu_relays : list string }.

Section pair_uri.
  Context `{UrlParse, UrlEdit, FormUrl}.

Definition validate_agent_id_hex (s : string) : result unit PairUriError :=
  if lower_hex_64 s then Ok tt else Err InvalidAgentId.

Definition validate_relay (relay : string) : result unit PairUriError :=
  if MAX_RELAY_LEN <? str_len relay then Err (InvalidRelay "relay URL exceeds 256 bytes")
  else match url_parse relay with
       | None => Err (InvalidRelay "URL parse")
       | Some u =>
           if negb (bool_decide (url_scheme u = "http"%string) || bool_decide (url_scheme u = "https"%string))
           then Err (InvalidRelay ("relay scheme must be http or https, got " +:+ url_scheme u))
           else if match url_host_str u with None => true | Some h => bool_decide (h = EmptyString) end
           then Err (InvalidRelay "relay has no host")
           else if negb (bool_decide (url_username u = EmptyString)) || is_some (url_password u)
           then Err (InvalidRelay "relay URL must not embed credentials")
           else Ok tt
       end.

Definition without_port (u : Url) : Url :=
  Build_Url (url_scheme u) (url_host_str u) None (url_username u) (url_password u) (url_path u) (url_query u)
    (url_fragment u).

(** [s.pop()]. *)
Fixpoint pop (s : string) : string :=
  match s with
  | EmptyString | String _ EmptyString => EmptyString
  | String a s => String a (pop s)
  end.

Definition ends_with_slash (s : string) : bool := bool_decide (last (String.list_ascii_of_string s) = Some "/"%char).

Definition normalize_relay (relay : string) : result string PairUriError :=
  match url_parse relay with
  | None => Err (InvalidRelay "URL parse")
  | Some url =>
      match url_set_host url (to_ascii_lowercase (default EmptyString (url_host_str url))) with
      | None => Err (InvalidRelay "set_host")
      | Some url =>
          let default_port := if bool_decide (url_scheme url = "http"%string) then Some 80
                              else if bool_decide (url_scheme url = "https"%string) then Some 443 else None in
          let url := match default_port with
                     | Some dp => if bool_decide (url_port url = Some dp) then without_port url else url
                     | None => url
                     end in
          let s := url_to_string url in
          Ok (if ends_with_slash s && bool_decide (url_path url = "/"%string) then pop s else s)
      end
  end.

Fixpoint validate_relays (relays : list string) : result unit PairUriError :=
  match relays with
  | [] => Ok tt
  | r :: rest => let? _ := validate_relay r in validate_relays rest
  end.

Definition with_query (q : string) (u : Url) : Url :=
  Build_Url (url_scheme u) (url_host_str u) (url_port u) (url_username u) (url_password u) (url_path u) (Some q)
    (url_fragment u).

Definition emit_pair_uri (agent_id_hex : string) (relays : list string) : result string PairUriError :=
  let? _ := validate_agent_id_hex agent_id_hex in
  if bool_decide (relays = []) then Err NoRelays
  else if MAX_RELAYS <? len relays then Err TooManyRelays
  else
    let? _ := validate_relays relays in
    match url_parse ("x0x://pair/" +:+ agent_id_hex) with
    | None => Err (InvalidRelay "failed to construct base URI")
    | Some url =>
        let s := url_to_string (with_query (form_print ((fun r => ("r"%string, r)) <$> relays)) url) in
        if MAX_URI_LEN <? str_len s then Err TooLong else Ok s
    end.

(** The relays, validated, normalized and kept on first sight. *)
Fixpoint collect_relays (relays : list string) (raw : list string) : result (list string) PairUriError :=
  match raw with
  | [] => Ok relays
  | r :: rest =>
      let? _ := validate_relay r in
      let? n := normalize_relay r in
      collect_relays (if bool_decide (n ∈ relays) then relays else relays ++ [n]) rest
  end.

Definition parse_pair_uri (uri : string) : result ParsedPairUri PairUriError :=
  if MAX_URI_LEN <? str_len uri then Err TooLong
  else match url_parse uri with
       | None => Err InvalidAgentId
       | Some parsed =>
           if negb (bool_decide (url_scheme parsed = SCHEME)) then Err InvalidAgentId
           else if negb (bool_decide (default EmptyString (url_host_str parsed) = HOST_SEGMENT)) then Err InvalidAgentId
           else
             let agent_id_hex := trim_start_matches "/" (url_path parsed) in
             let? _ := validate_agent_id_hex agent_id_hex in
             let raw_relays := (fun kv => kv.2) <$>
               List.filter (fun kv => bool_decide (kv.1 = "r"%string))
                 (form_parse (default EmptyString (url_query parsed))) in
             if bool_decide (raw_relays = []) then Err NoRelays
             else if MAX_RELAYS <? len raw_relays then Err TooManyRelays
             else
               let? relays := collect_relays [] raw_relays in
               Ok {| pu_agent_id_hex := agent_id_hex; pu_relays := relays |}
       end.
End pair_uri.
End PairUri.

(** ** [profile.rs] *)

Definition V3_SHARE_URI_PREFIX : string := "fetchit://share/v3/".
Definition V3_SHARE_URI_MAX_BYTES : N := 256.
Definition TOMBSTONE_HEX : string := "0000000000000000000000000000000000000000000000000000000000000000".

Record V3ShareUri := { vs_agent_id : string; vs_profile_addr : string; vs_relay : Url }.

Inductive V3ShareUriError :=
| WrongScheme | UnsupportedVersion | MalformedAgentId | MalformedProfileAddr | MissingRelay
| MalformedRelay (why : string) | V3TooLong (n : N).

Section v3.
  Context `{UrlParse, UrlEdit, FormUrl}.

Definition to_v3_share_uri (agent_id profile_addr : string) (relay : Url) : result string V3ShareUriError :=
  let relay_enc := form_serialize (trim_end_matches "/" (url_to_string relay)) in
  let uri := V3_SHARE_URI_PREFIX +:+ agent_id +:+ "/" +:+ profile_addr +:+ "?relay=" +:+ relay_enc in
  if V3_SHARE_URI_MAX_BYTES <? str_len uri then Err (V3TooLong (str_len uri)) else Ok uri.

(** The last [relay] parameter counts. *)
Definition relay_param (pairs : list (string * string)) : option string :=
  foldl (fun acc kv => if bool_decide (kv.1 = "relay"%string) then Some kv.2 else acc) None pairs.

Definition from_v3_share_uri (uri : string) : result V3ShareUri V3ShareUriError :=
  if V3_SHARE_URI_MAX_BYTES <? str_len uri then Err (V3TooLong (str_len uri))
  else match strip_prefix V3_SHARE_URI_PREFIX uri with
  | None => Err (if String.prefix "fetchit://share/" uri then UnsupportedVersion else WrongScheme)
  | Some rest =>
  match split_once "?" rest with
  | None => Err MissingRelay
  | Some (path, query) =>
  match split "/" path with
  | (_, []) | (_, _ :: _ :: _) => Err MalformedProfileAddr
  | (agent_id, [profile_addr]) =>
      if negb (lower_hex_64 agent_id) then Err MalformedAgentId
      else if negb (lower_hex_64 profile_addr) || bool_decide (profile_addr = TOMBSTONE_HEX)
      then Err MalformedProfileAddr
      else match relay_param (form_parse query) with
      | None => Err MissingRelay
      | Some relay_str =>
      match url_parse relay_str with
      | None => Err (MalformedRelay "parse")
      | Some relay =>
          if negb (bool_decide (url_scheme relay = "http"%string) || bool_decide (url_scheme relay = "https"%string))
          then Err (MalformedRelay ("scheme must be http or https, got `" +:+ url_scheme relay +:+ "`"))
          else Ok {| vs_agent_id := agent_id; vs_profile_addr := profile_addr; vs_relay := relay |}
      end end
  end end end.
End v3.

(** ** Round trips *)

Lemma append_cons a s t : String a s +:+ t = String a (s +:+ t).
Proof. done. Qed.
Lemma append_empty t : EmptyString +:+ t = t.
Proof. done. Qed.

Lemma strip_prefix_app p s : strip_prefix p (p +:+ s) = Some s.
Proof.
  induction p as [|a p IH]; [done|]. rewrite append_cons. cbn -[bool_decide]. by rewrite bool_decide_true.
Qed.

Definition lacks (c : ascii) (s : string) : Prop := c ∉ String.list_ascii_of_string s.

Lemma lacks_cons c a s : lacks c (String a s) <-> a <> c /\ lacks c s.
Proof. unfold lacks. cbn -[bool_decide]. rewrite not_elem_of_cons. naive_solver. Qed.

Lemma append_assoc s t v : (s +:+ t) +:+ v = s +:+ t +:+ v.
Proof. induction s as [|a s IH]; [done|]. by rewrite !append_cons, IH. Qed.

Lemma lacks_app c s t : lacks c s -> lacks c t -> lacks c (s +:+ t).
Proof.
  intros Hs Ht. induction s as [|a s IH]; [done|]. rewrite append_cons. apply lacks_cons in Hs as [? ?].
  apply lacks_cons. auto.
Qed.

Lemma split_once_app c s t : lacks c s -> split_once c (s +:+ String c t) = Some (s, t).
Proof.
  induction s as [|a s IH]; [intros _; rewrite append_empty; cbn -[bool_decide]; by rewrite bool_decide_true|].
  intros [Ha Hs]%lacks_cons. rewrite append_cons. cbn -[bool_decide]. rewrite bool_decide_false by done. by rewrite IH.
Qed.

Lemma split_app c s t : lacks c s -> split c (s +:+ String c t) = (s, (split c t).1 :: (split c t).2).
Proof.
  induction s as [|a s IH].
  - intros _. rewrite append_empty. cbn -[bool_decide]. destruct (split c t). by rewrite bool_decide_true.
  - intros [Ha Hs]%lacks_cons. rewrite append_cons. cbn -[bool_decide]. rewrite IH by done. by rewrite bool_decide_false.
Qed.

Lemma split_whole c s : lacks c s -> split c s = (s, []).
Proof.
  induction s as [|a s IH]; [done|]. intros [Ha Hs]%lacks_cons. cbn -[bool_decide]. rewrite IH by done.
  by rewrite bool_decide_false.
Qed.

Lemma hex_lacks c s :
  is_lower_hex (Ascii.N_of_ascii c) = false -> lower_hex_64 s = true -> lacks c s.
Proof.
  intros Hc [_ Hs]%andb_prop. intros Hin. rewrite forallb_forall in Hs.
  enough (List.In (N_of_ascii c) (ascii_bytes s)) as Hi by (apply Hs in Hi; by rewrite Hc in Hi).
  clear Hs. induction s as [|a s IH]; cbn in *; [by apply elem_of_nil in Hin|].
  apply elem_of_cons in Hin as [->|Hin]; [by left|right; by apply IH].
Qed.

Lemma trim_slash_hex s : lower_hex_64 s = true -> trim_start_matches "/" ("/" +:+ s) = s.
Proof.
  intros Hs. rewrite append_cons, append_empty. cbn -[bool_decide]. rewrite bool_decide_true by done. pose proof (hex_lacks "/" s eq_refl Hs) as Hw.
  destruct s as [|a s]; [done|]. apply lacks_cons in Hw as [Ha _]. cbn -[bool_decide]. by rewrite bool_decide_false.
Qed.

(** A list with the later copies left out. *)
Definition first_seen (l : list string) : list string :=
  foldl (fun acc n => if bool_decide (n ∈ acc) then acc else acc ++ [n]) [] l.

Lemma first_seen_distinct l : NoDup l -> first_seen l = l.
Proof.
  unfold first_seen. enough (forall acc, NoDup (acc ++ l) ->
    foldl (fun acc n => if bool_decide (n ∈ acc) then acc else acc ++ [n]) acc l = acc ++ l) as He.
  { intros Hl. by apply (He []). }
  induction l as [|n l IH]; intros acc Hacc; cbn; [by rewrite app_nil_r|].
  rewrite bool_decide_false.
  - rewrite IH; by rewrite <- app_assoc.
  - apply NoDup_app in Hacc as (_ & Hd & _). intros Hin. by apply (Hd n), list_elem_of_here.
Qed.

(** What the [url] crate documents of the links built here: the base of a pairing
    link, that a URL it prints parses back, and that form decoding undoes encoding;
    a parsed web URL has its host in lower case. *)
Class UrlLaws `{UrlParse, UrlEdit, FormUrl} := {
  form_parse_print pairs : form_parse (form_print pairs) = pairs;
  form_parse_one k v : form_serialize k = k -> form_parse (k +:+ "=" +:+ form_serialize v) = [(k, v)];
  pair_base aid : lower_hex_64 aid = true ->
    exists u, url_parse ("x0x://pair/" +:+ aid) = Some u /\ url_scheme u = "x0x"%string /\
              url_host_str u = Some "pair"%string /\ url_path u = "/" +:+ aid;
  pair_reparse aid u pairs : url_parse ("x0x://pair/" +:+ aid) = Some u ->
    let u' := PairUri.with_query (form_print pairs) u in url_parse (url_to_string u') = Some u';
  host_lower s u h : url_parse s = Some u -> url_host_str u = Some h ->
    url_scheme u = "http"%string \/ url_scheme u = "https"%string ->
    url_set_host u (to_ascii_lowercase h) = Some u;
  relay_key : form_serialize "relay" = "relay"%string;
}.

Section links.
  Context `{UrlLaws}.

Lemma valid_relay_normalizes r : PairUri.validate_relay r = Ok tt -> exists n, PairUri.normalize_relay r = Ok n.
Proof.
  unfold PairUri.validate_relay, PairUri.normalize_relay. destruct (_ <? _); [done|].
  destruct (url_parse r) as [u|] eqn:Hu; [|done]. destruct (negb _) eqn:Hs; [done|].
  destruct (url_host_str u) as [h|] eqn:Hh; [|done]. destruct (bool_decide (h = _)); [done|]. intros _. cbn.
  rewrite (host_lower r u h Hu Hh); [eauto|]. apply negb_false_iff, orb_true_iff in Hs.
  by destruct Hs as [Hs%bool_decide_eq_true|Hs%bool_decide_eq_true]; auto.
Qed.

Lemma collect_valid raw acc :
  PairUri.validate_relays raw = Ok tt ->
  exists ns, Forall2 (fun r n => PairUri.normalize_relay r = Ok n) raw ns /\
    PairUri.collect_relays acc raw =
      Ok (foldl (fun acc n => if bool_decide (n ∈ acc) then acc else acc ++ [n]) acc ns).
Proof.
  revert acc. induction raw as [|r raw IH]; intros acc; [exists []; by split; [constructor|]|]. cbn.
  destruct (PairUri.validate_relay r) as [[]|] eqn:Hr; [|done]. cbn. intros Hraw.
  destruct (valid_relay_normalizes r Hr) as [n Hn]. rewrite Hn. cbn.
  destruct (IH (if bool_decide (n ∈ acc) then acc else acc ++ [n]) Hraw) as (ns & Hns & ->).
  exists (n :: ns). by split; [constructor|].
Qed.

(** A pairing link that was made is read back: the agent it
    names, and its relays, normalized, in their order of priority and each once; all
    of them when the normalized relays differ.  A link is never made that its reader
    would refuse. *)
Theorem pair_link_round_trip (agent_id_hex : string) (relays : list string) (uri : string) :
  PairUri.emit_pair_uri agent_id_hex relays = Ok uri ->
  exists ns, Forall2 (fun r n => PairUri.normalize_relay r = Ok n) relays ns /\
    PairUri.parse_pair_uri uri = Ok {| PairUri.pu_agent_id_hex := agent_id_hex; PairUri.pu_relays := first_seen ns |} /\
    (NoDup ns -> first_seen ns = ns).
Proof.
  unfold PairUri.emit_pair_uri, PairUri.parse_pair_uri.
  unfold PairUri.validate_agent_id_hex. destruct (lower_hex_64 agent_id_hex) eqn:Hhex; [|done].
  destruct (bool_decide (relays = [])) eqn:Hne; [done|]. destruct (_ <? len relays) eqn:Hmax; [done|].
  destruct (PairUri.validate_relays relays) as [[]|] eqn:Hv; [|done].
  destruct (pair_base _ Hhex) as (u & Hu & Hscheme & Hhost & Hpath). rewrite Hu.
  destruct (_ <? str_len _) eqn:Hlen; [done|]. intros [= <-]. rewrite Hlen.
  rewrite (pair_reparse _ _ _ Hu). unfold PairUri.with_query.
  cbn [url_scheme url_host_str url_path url_query default]. rewrite Hscheme, Hhost, Hpath. cbn [default].
  rewrite !bool_decide_true by done. cbv beta iota zeta. cbn [negb]. rewrite trim_slash_hex, Hhex by done.
  unfold id. rewrite form_parse_print. set (raw := _ <$> List.filter _ _).
  assert (raw = relays) as ->.
  { subst raw. clear. induction relays as [|r l IH]; [done|].
    rewrite fmap_cons. cbn [List.filter fst]. rewrite bool_decide_true by done. by rewrite fmap_cons, IH. }
  rewrite Hne, Hmax. destruct (collect_valid relays [] Hv) as (ns & Hns & ->).
  exists ns. split; [done|]. split; [done|]. apply first_seen_distinct.
Qed.

(** A share link reads back as what it was made from; the relay as its printed URL
    without slashes at the end parses. *)
Theorem share_link_round_trip (agent_id profile_addr : string) (relay relay' : Url) (uri : string) :
  lower_hex_64 agent_id = true -> lower_hex_64 profile_addr = true -> profile_addr <> TOMBSTONE_HEX ->
  url_parse (trim_end_matches "/" (url_to_string relay)) = Some relay' ->
  url_scheme relay' = "http"%string \/ url_scheme relay' = "https"%string ->
  to_v3_share_uri agent_id profile_addr relay = Ok uri ->
  from_v3_share_uri uri = Ok {| vs_agent_id := agent_id; vs_profile_addr := profile_addr; vs_relay := relay' |}.
Proof.
  intros Ha Hp Ht Hr Hs. unfold to_v3_share_uri, from_v3_share_uri. destruct (_ <? _) eqn:Hlen; [done|].
  intros [= <-]. rewrite Hlen, strip_prefix_app.
  set (q := form_serialize _).
  assert (agent_id +:+ "/" +:+ profile_addr +:+ "?relay=" +:+ q
          = (agent_id +:+ String "/" profile_addr) +:+ String "?" ("relay=" +:+ q)) as ->.
  { by rewrite append_assoc, append_cons. }
  rewrite split_once_app.
  2:{ apply lacks_app; [by apply (hex_lacks "?" agent_id eq_refl)|]. apply lacks_cons. split; [done|by apply (hex_lacks "?" profile_addr eq_refl)]. }
  rewrite split_app, (split_whole _ profile_addr) by (by apply (hex_lacks "/" _ eq_refl)). cbn [fst snd].
  rewrite Ha, Hp, (bool_decide_false _ Ht). subst q. cbn [negb orb].
  change ("relay=" +:+ ?x) with ("relay" +:+ "=" +:+ x). rewrite form_parse_one by apply relay_key.
  unfold relay_param. cbn [foldl fst snd]. rewrite bool_decide_true, Hr by done.
  by destruct Hs as [-> | ->].
Qed.
End links.

(** ** Witness *)

Definition escape (c : ascii) : string :=
  if bool_decide (c = "%"%char) then "%0"
  else if bool_decide (c = "&"%char) then "%1"
  else if bool_decide (c = "="%char) then "%2" else String c EmptyString.
Fixpoint escape_all (s : string) : string :=
  match s with EmptyString => EmptyString | String c s => escape c +:+ escape_all s end.
Fixpoint unescape (s : string) : string :=
  match s with
  | EmptyString => EmptyString
  | String c rest =>
      if bool_decide (c = "%"%char) then
        match rest with
        | String d rest =>
            String (if bool_decide (d = "0"%char) then "%"%char
                    else if bool_decide (d = "1"%char) then "&"%char else "="%char) (unescape rest)
        | EmptyString => EmptyString
        end
      else String c (unescape rest)
  end.
Definition read_pair (s : string) : string * string :=
  match split_once "=" s with Some (k, v) => (unescape k, unescape v) | None => (unescape s, EmptyString) end.
#[local] Instance su_form : FormUrl :=
  {| form_serialize := escape_all;
     form_parse s := if bool_decide (s = EmptyString) then []
                     else read_pair <$> (split "&" s).1 :: (split "&" s).2 |}.

Lemma unescape_escape s : unescape (escape_all s) = s.
Proof.
  induction s as [|c s IH]; [done|]. cbn [escape_all]. unfold escape.
  destruct (bool_decide_reflect (c = "%"%char)) as [->|Hp];
  [|destruct (bool_decide_reflect (c = "&"%char)) as [->|Ha];
    [|destruct (bool_decide_reflect (c = "="%char)) as [->|He]]];
    rewrite ?append_cons, append_empty; cbn -[bool_decide];
    rewrite ?IH; [done..|]. by rewrite bool_decide_false.
Qed.

Lemma escape_lacks (c : ascii) s : c = "&"%char \/ c = "="%char -> lacks c (escape_all s).
Proof.
  intros Hc. induction s as [|a s IH]; [apply not_elem_of_nil|]. cbn [escape_all]. apply lacks_app; [|done].
  unfold escape, lacks.
  destruct (bool_decide_reflect (a = "%"%char)); [by destruct Hc as [-> | ->]; cbn; set_solver|].
  destruct (bool_decide_reflect (a = "&"%char)); [by destruct Hc as [-> | ->]; cbn; set_solver|].
  destruct (bool_decide_reflect (a = "="%char)); [by destruct Hc as [-> | ->]; cbn; set_solver|].
  cbn. rewrite list_elem_of_singleton. destruct Hc as [-> | ->]; congruence.
Qed.

Lemma read_pair_print k v : read_pair (escape_all k +:+ "=" +:+ escape_all v) = (k, v).
Proof.
  unfold read_pair. rewrite (append_cons "=" ""), append_empty, split_once_app by (apply escape_lacks; auto).
  by rewrite !unescape_escape.
Qed.

Lemma pair_lacks k v : lacks "&" (escape_all k +:+ "=" +:+ escape_all v).
Proof.
  apply lacks_app; [apply escape_lacks; auto|]. rewrite append_cons, append_empty. apply lacks_cons.
  split; [done|apply escape_lacks; auto].
Qed.

Lemma form_parse_nonempty s :
  s <> EmptyString -> form_parse s = read_pair <$> (split "&" s).1 :: (split "&" s).2.
Proof. intros Hs. cbn -[bool_decide split]. by rewrite bool_decide_false. Qed.

Lemma form_print_cons k v p pairs :
  form_print ((k, v) :: p :: pairs) = (escape_all k +:+ "=" +:+ escape_all v) +:+ String "&" (form_print (p :: pairs)).
Proof. rewrite !append_assoc. by destruct p. Qed.

Lemma pair_nonempty k v : escape_all k +:+ "=" +:+ v <> EmptyString.
Proof. by destruct (escape_all k). Qed.

Lemma print_nonempty p pairs : form_print (p :: pairs) <> EmptyString.
Proof. destruct p as [k v]. destruct pairs as [|[] ?]; apply pair_nonempty. Qed.

Lemma su_parse_print pairs : form_parse (form_print pairs) = pairs.
Proof.
  destruct pairs as [|p pairs]; [done|]. revert p. induction pairs as [|p' pairs IH]; intros [k v].
  - change (form_print [(k, v)]) with (escape_all k +:+ "=" +:+ escape_all v).
    rewrite form_parse_nonempty by apply pair_nonempty. rewrite split_whole by apply pair_lacks.
    cbn [fst snd fmap list_fmap]. by rewrite read_pair_print.
  - specialize (IH p'). rewrite form_parse_nonempty in IH by apply print_nonempty.
    rewrite form_parse_nonempty by apply print_nonempty. rewrite form_print_cons, split_app by apply pair_lacks.
    cbn [fst snd]. by rewrite fmap_cons, read_pair_print, IH.
Qed.

Lemma split_once_lacks c s a b : split_once c s = Some (a, b) -> lacks c a.
Proof.
  revert a. induction s as [|x s IH]; intros a; [done|]. cbn -[bool_decide].
  destruct (bool_decide_reflect (x = c)) as [->|Hx]; [intros [= <- _]; apply not_elem_of_nil|].
  destruct (split_once c s) as [[a' b']|]; [|done]. intros [= <- <-]. apply lacks_cons. auto.
Qed.

Lemma split_once_none c s : split_once c s = None -> lacks c s.
Proof.
  induction s as [|x s IH]; [intros _; apply not_elem_of_nil|]. cbn -[bool_decide].
  destruct (bool_decide_reflect (x = c)); [done|]. destruct (split_once c s) as [[]|]; [done|].
  intros _. apply lacks_cons. auto.
Qed.

Lemma lacks_split_once c s : lacks c s -> split_once c s = None.
Proof.
  induction s as [|x s IH]; [done|]. intros [Hx Hs]%lacks_cons. cbn -[bool_decide].
  by rewrite bool_decide_false, IH.
Qed.

Definition web (s : string) : Url := Build_Url s (Some "h"%string) None "" None "/" None None.
Definition pair_url (path : string) (q : option string) : Url :=
  Build_Url "x0x" (Some "pair"%string) None "" None path q None.
#[local] Instance su_parse : UrlParse := fun s =>
  match strip_prefix "x0x://pair/" s with
  | Some rest => Some (match split_once "?" rest with
                       | Some (p, q) => pair_url ("/" +:+ p) (Some q)
                       | None => pair_url ("/" +:+ rest) None
                       end)
  | None => match split_once ":" s with Some (a, _) => Some (web a) | None => None end
  end.
#[local] Instance su_edit : UrlEdit :=
  {| url_set_scheme := fun _ _ => None; url_set_host u _ := Some u;
     url_to_string u := if bool_decide (url_scheme u = "x0x"%string)
                        then "x0x://pair" +:+ url_path u +:+ "?" +:+ default EmptyString (url_query u)
                        else url_scheme u +:+ "://h/" |}.

Lemma su_reparse p q :
  lacks "?" p -> url_parse (url_to_string (pair_url ("/" +:+ p) (Some q))) = Some (pair_url ("/" +:+ p) (Some q)).
Proof.
  intros Hp. change (url_to_string _) with ("x0x://pair/" +:+ (p +:+ String "?" q)). unfold url_parse, su_parse.
  by rewrite strip_prefix_app, split_once_app.
Qed.

#[local] Instance su_laws : UrlLaws.
Proof.
  split.
  - apply su_parse_print.
  - intros k v Hk. rewrite <- Hk at 1. apply (su_parse_print [(k, v)]).
  - intros aid Hhex. exists (pair_url ("/" +:+ aid) None). unfold url_parse, su_parse. rewrite strip_prefix_app.
    by rewrite (lacks_split_once "?" aid (hex_lacks "?" aid eq_refl Hhex)).
  - intros aid u pairs. unfold url_parse at 1, su_parse at 1. rewrite strip_prefix_app. cbn zeta.
    destruct (split_once "?" aid) as [[a b]|] eqn:E; intros [= <-]; apply su_reparse;
      eauto using split_once_lacks, split_once_none.
  - done.
  - done.
Qed.

Definition some_agent : string := "00000000000000000000000000000000000000000000000000000000000000aa".
Lemma pair_link_round_trip_witness :
  exists uri : string, PairUri.emit_pair_uri some_agent ["http://h"; "https://h/"]%string = Ok uri /\
    PairUri.parse_pair_uri uri =
      Ok {| PairUri.pu_agent_id_hex := some_agent; PairUri.pu_relays := ["http://h"; "https://h"]%string |}.
Proof.
  destruct (PairUri.emit_pair_uri some_agent ["http://h"; "https://h/"]%string) as [uri|e] eqn:E; [|by vm_compute in E].
  exists uri. split; [done|].
  destruct (pair_link_round_trip some_agent _ uri E) as (ns & Hns & -> & _).
  apply Forall2_cons_inv_l in Hns as (n1 & ? & Hn1 & Hns & ->).
  apply Forall2_cons_inv_l in Hns as (n2 & ? & Hn2 & Hns & ->). apply Forall2_nil_inv_l in Hns as ->.
  vm_compute in Hn1, Hn2. injection Hn1 as <-. injection Hn2 as <-.
  reflexivity.
Defined.
