(* ===== verification/Text.v ===== *)
(** * Strings of the standard library

    What the source uses of [str] beyond concatenation and comparison: prefixes and suffixes,
    trimming, splitting at white space, numbers.  A string is its UTF-8 bytes; white space
    is the Unicode property, as in [char::is_whitespace]. *)
From Stdlib Require Import Ascii.
From stdpp Require Import pretty.
From S2P Require Import Prelude ShareUri.
Open Scope rust_scope.

(** A double quote and a line feed. *)
Definition quote : string := String (ascii_of_N 34) EmptyString.
Definition newline : string := String (ascii_of_N 10) EmptyString.

(** [str::starts_with]. *)
Definition starts_with (p s : string) : bool := is_some (strip_prefix p s).

(** [str::strip_suffix] with one character. *)
Fixpoint strip_last (c : ascii) (s : string) : option string :=
  match s with
  | EmptyString => None
  | String x EmptyString => if bool_decide (x = c) then Some EmptyString else None
  | String x s' => String x <$> strip_last c s'
  end.

(** [str::strip_suffix]. *)
Fixpoint strip_suffix (p s : string) : option string :=
  if bool_decide (s = p) then Some EmptyString
  else match s with
       | EmptyString => None
       | String x s' => String x <$> strip_suffix p s'
       end.

Fixpoint rev_onto (s acc : string) : string :=
  match s with
  | EmptyString => acc
  | String x s' => rev_onto s' (String x acc)
  end.

(** The white space characters by the length of their encoding: the ASCII ones, U+0085 and
    U+00A0, and U+1680, U+2000 to U+200A, U+2028, U+2029, U+202F, U+205F and U+3000. *)
Definition white1 (a : ascii) : bool :=
  let a := N_of_ascii a in ((9 <=? a) && (a <=? 13)) || (a =? 32).
Definition white2 (a b : ascii) : bool :=
  let a := N_of_ascii a in let b := N_of_ascii b in (a =? 194) && ((b =? 133) || (b =? 160)).
Definition white3 (a b c : ascii) : bool :=
  let a := N_of_ascii a in let b := N_of_ascii b in let c := N_of_ascii c in
  ((a =? 225) && (b =? 154) && (c =? 128))
  || ((a =? 226) && (b =? 128) && (((128 <=? c) && (c <=? 138)) || (c =? 168) || (c =? 169) || (c =? 175)))
  || ((a =? 226) && (b =? 129) && (c =? 159))
  || ((a =? 227) && (b =? 128) && (c =? 128)).

(** [str::trim_start]. *)
Fixpoint trim_start (s : string) : string :=
  match s with
  | EmptyString => EmptyString
  | String a s1 =>
      if white1 a then trim_start s1
      else match s1 with
           | EmptyString => s
           | String b s2 =>
               if white2 a b then trim_start s2
               else match s2 with
                    | EmptyString => s
                    | String c s3 => if white3 a b c then trim_start s3 else s
                    end
           end
  end.

(** The same on a reversed string. *)
Fixpoint trim_start_rev (s : string) : string :=
  match s with
  | EmptyString => EmptyString
  | String a s1 =>
      if white1 a then trim_start_rev s1
      else match s1 with
           | EmptyString => s
           | String b s2 =>
               if white2 b a then trim_start_rev s2
               else match s2 with
                    | EmptyString => s
                    | String c s3 => if white3 c b a then trim_start_rev s3 else s
                    end
           end
  end.

Definition trim_end (s : string) : string := rev_onto (trim_start_rev (rev_onto s EmptyString)) EmptyString.
Definition trim (s : string) : string := trim_end (trim_start s).

(** [str::split_whitespace]: [acc] is the current word, reversed. *)
Definition push_word (acc : string) (words : list string) : list string :=
  match acc with EmptyString => words | _ => rev_onto acc EmptyString :: words end.
Fixpoint split_white (s acc : string) : list string :=
  match s with
  | EmptyString => push_word acc []
  | String a s1 =>
      if white1 a then push_word acc (split_white s1 EmptyString)
      else match s1 with
           | EmptyString => push_word (String a acc) []
           | String b s2 =>
               if white2 a b then push_word acc (split_white s2 EmptyString)
               else match s2 with
                    | EmptyString => split_white s1 (String a acc)
                    | String c s3 => if white3 a b c then push_word acc (split_white s3 EmptyString)
                                     else split_white s1 (String a acc)
                    end
           end
  end.
Definition split_whitespace (s : string) : list string := split_white s EmptyString.

(** [str::split_once] with a string: what precedes and follows its first occurrence. *)
Definition split_once_str (p s : string) : option (string * string) :=
  match String.index 0 p s with
  | Some i => Some (String.substring 0 i s,
                    String.substring (i + String.length p) (String.length s - (i + String.length p)) s)
  | None => None
  end.

(** [str::chars().count()]: the bytes that do not continue a character. *)
Definition char_count (s : string) : N :=
  len (List.filter (fun b => negb ((128 <=? b) && (b <? 192))) (ascii_bytes s)).

(** [str::parse] at an unsigned type of maximum [max]: an optional plus sign and digits. *)
Definition digit_value (c : ascii) : option N :=
  let n := N_of_ascii c in if (48 <=? n) && (n <=? 57) then Some (n - 48) else None.
Fixpoint parse_digits (max acc : N) (s : string) : option N :=
  match s with
  | EmptyString => Some acc
  | String c s' =>
      d ← digit_value c;
      if max <? 10 * acc + d then None else parse_digits max (10 * acc + d) s'
  end.
Definition parse_unsigned (max : N) (s : string) : option N :=
  match s with
  | EmptyString => None
  | String c s' =>
      if bool_decide (c = "+"%char)
      then match s' with EmptyString => None | _ => parse_digits max 0 s' end
      else parse_digits max 0 s
  end.

(** [str::parse::<i64>]. *)
Definition parse_i64 (s : string) : option Z :=
  match s with
  | String "-"%char EmptyString => None
  | String "-"%char s' => (fun n => (- Z.of_N n)%Z) <$> parse_digits (i64_max + 1) 0 s'
  | _ => Z.of_N <$> parse_unsigned i64_max s
  end.

Lemma append_empty_r s : s +:+ EmptyString = s.
Proof. induction s as [|x s IH]; [done|]. by rewrite append_cons, IH. Qed.
Lemma rev_onto_app s acc : rev_onto s acc = rev_onto s EmptyString +:+ acc.
Proof.
  revert acc. induction s as [|x s IH]; intros acc; [done|]. cbn [rev_onto].
  rewrite (IH (String x acc)), (IH (String x EmptyString)). by rewrite append_assoc.
Qed.
Lemma rev_onto_involutive s : rev_onto (rev_onto s EmptyString) EmptyString = s.
Proof.
  enough (forall acc, rev_onto (rev_onto s acc) EmptyString = rev_onto acc EmptyString +:+ s) as H by apply H.
  induction s as [|x s IH]; intros acc; cbn [rev_onto].
  - by rewrite append_empty_r.
  - rewrite IH. cbn [rev_onto]. rewrite (rev_onto_app acc (String x EmptyString)). by rewrite append_assoc.
Qed.

(** Stripping a suffix undoes appending it. *)
Lemma strip_last_app c s : strip_last c (s +:+ String c EmptyString) = Some s.
Proof.
  induction s as [|x s IH]; simpl.
  - by rewrite bool_decide_eq_true_2.
  - destruct (s +:+ String c EmptyString) as [|y s'] eqn:E; [by destruct s|]. by rewrite IH.
Qed.
Lemma strip_last_Some c s r : strip_last c s = Some r -> s = r +:+ String c EmptyString.
Proof.
  revert r. induction s as [|x s IH]; intros r; simpl; [done|]. destruct s as [|y s'].
  - case_bool_decide; [|done]. intros [= <-]. by subst x.
  - destruct (strip_last c (String y s')) as [r'|] eqn:E; [|done]. intros [= <-].
    by rewrite (IH r' eq_refl).
Qed.

(** ** Words of plain characters *)

(** An ASCII character that is not white space. *)
Definition plain (a : ascii) : Prop := N_of_ascii a < 128 /\ white1 a = false.
Fixpoint all_plain (s : string) : Prop :=
  match s with EmptyString => True | String a s' => plain a /\ all_plain s' end.

Lemma plain_not_white2 a b : plain a -> white2 a b = false.
Proof. intros [Ha _]. unfold white2. by rewrite (proj2 (N.eqb_neq _ 194)) by lia. Qed.
Lemma plain_not_white2_l a b : plain b -> white2 a b = false.
Proof.
  intros [Hb _]. unfold white2. rewrite (proj2 (N.eqb_neq (N_of_ascii b) 133)), (proj2 (N.eqb_neq (N_of_ascii b) 160)) by lia.
  by rewrite andb_false_r.
Qed.
Lemma plain_not_white3 a b c : plain a -> white3 a b c = false.
Proof.
  intros [Ha _]. unfold white3.
  by rewrite (proj2 (N.eqb_neq _ 225)), (proj2 (N.eqb_neq _ 226)), (proj2 (N.eqb_neq _ 227)) by lia.
Qed.
Lemma plain_not_white3_r a b c : plain c -> white3 a b c = false.
Proof.
  intros [Hc _]. unfold white3.
  rewrite (proj2 (N.eqb_neq (N_of_ascii c) 128)), (proj2 (N.leb_gt 128 (N_of_ascii c))), (proj2 (N.eqb_neq (N_of_ascii c) 168)),
    (proj2 (N.eqb_neq (N_of_ascii c) 169)), (proj2 (N.eqb_neq (N_of_ascii c) 175)), (proj2 (N.eqb_neq (N_of_ascii c) 159)) by lia.
  by rewrite !andb_false_r.
Qed.
Lemma all_plain_app s t : all_plain s -> all_plain t -> all_plain (s +:+ t).
Proof. intros Hs Ht. induction s as [|a s IH]; [done|]. destruct Hs. rewrite append_cons. by split; [|apply IH]. Qed.

Lemma trim_start_plain a s : plain a -> trim_start (String a s) = String a s.
Proof.
  intros Ha. cbn. destruct Ha as [Ha1 Ha2]. rewrite Ha2. destruct s as [|b s]; [done|].
  rewrite plain_not_white2 by done. destruct s as [|c s]; [done|]. by rewrite plain_not_white3.
Qed.
Lemma trim_start_rev_plain a s : plain a -> trim_start_rev (String a s) = String a s.
Proof.
  intros Ha. cbn. destruct Ha as [Ha1 Ha2]. rewrite Ha2. destruct s as [|b s]; [done|].
  rewrite plain_not_white2_l by done. destruct s as [|c s]; [done|]. by rewrite plain_not_white3_r.
Qed.

(** A string that starts and ends with plain characters has nothing to trim. *)
Lemma trim_plain_ends a s b : plain a -> plain b -> trim (String a s +:+ String b EmptyString) = String a s +:+ String b EmptyString.
Proof.
  intros Ha Hb. rewrite append_cons. unfold trim. rewrite trim_start_plain by done.
  unfold trim_end. rewrite <- append_cons.
  enough (rev_onto (String a s +:+ String b EmptyString) EmptyString = String b (rev_onto (String a s) EmptyString)) as Hrev.
  { rewrite Hrev, trim_start_rev_plain by done. rewrite <- Hrev. apply rev_onto_involutive. }
  generalize (String a s). intros t. enough (forall acc, rev_onto (t +:+ String b EmptyString) acc = String b (rev_onto t acc)) as H by apply H.
  induction t as [|x t IH]; intros acc; [done|]. rewrite append_cons. cbn [rev_onto]. apply IH.
Qed.

Lemma split_white_plain a s acc : plain a -> split_white (String a s) acc = split_white s (String a acc).
Proof.
  intros Ha. cbn. destruct Ha as [Ha1 Ha2]. rewrite Ha2. destruct s as [|b s]; [done|].
  rewrite plain_not_white2 by done. destruct s as [|c s]; [done|]. by rewrite plain_not_white3.
Qed.
Lemma split_white_word w s acc : all_plain w -> split_white (w +:+ s) acc = split_white s (rev_onto w acc).
Proof.
  revert acc. induction w as [|a w IH]; intros acc Hw; [done|]. destruct Hw as [Ha Hw]. rewrite append_cons, split_white_plain by done.
  by rewrite IH.
Qed.
Lemma push_word_rev w rest : w <> EmptyString -> push_word (rev_onto w EmptyString) rest = w :: rest.
Proof.
  intros Hw. unfold push_word. destruct (rev_onto w EmptyString) eqn:E.
  - destruct Hw. rewrite <- (rev_onto_involutive w), E. done.
  - rewrite <- E. by rewrite rev_onto_involutive.
Qed.
(** The words of a string are split at its spaces. *)
Lemma split_whitespace_cons w s : w <> EmptyString -> all_plain w ->
  split_whitespace (w +:+ " " +:+ s) = w :: split_whitespace s.
Proof.
  intros Hne Hw. unfold split_whitespace. rewrite split_white_word by done.
  change (" " +:+ s) with (String " " s). cbn [split_white]. change (white1 " ") with true. cbn iota. by rewrite push_word_rev.
Qed.
Lemma split_whitespace_word w : w <> EmptyString -> all_plain w -> split_whitespace w = [w].
Proof.
  intros Hne Hw. unfold split_whitespace. rewrite <- (append_empty_r w), split_white_word by done. cbn [split_white].
  rewrite push_word_rev; by rewrite ?append_empty_r.
Qed.

(** *** Suffixes and substrings *)

Lemma append_length s t : String.length (s +:+ t) = (String.length s + String.length t)%nat.
Proof. induction s as [|a s IH]; [done|]. rewrite append_cons. cbn. by rewrite IH. Qed.
Lemma strip_suffix_app p s : strip_suffix p (s +:+ p) = Some s.
Proof.
  induction s as [|x s IH].
  { change (EmptyString +:+ p) with p. destruct p; unfold strip_suffix; by rewrite bool_decide_eq_true_2. }
  rewrite append_cons. cbn -[bool_decide]. rewrite bool_decide_eq_false_2; [by rewrite IH|].
  intros Heq. apply (f_equal String.length) in Heq. cbn in Heq. rewrite append_length in Heq. lia.
Qed.
Lemma substring_all s : String.substring 0 (String.length s) s = s.
Proof. induction s as [|x s IH]; [done|]. cbn. by rewrite IH. Qed.

(** *** Numbers *)

Lemma digit_value_char n : n < 10 -> digit_value (pretty_N_char n) = Some n.
Proof.
  intros Hn. assert (forallb (fun n => bool_decide (digit_value (pretty_N_char n) = Some n)) (range 0 10) = true)
    as Hall by by vm_compute.
  rewrite forallb_forall in Hall. specialize (Hall n). apply bool_decide_eq_true in Hall; [done|].
  apply list_elem_of_In, elem_of_range. lia.
Qed.
Lemma parse_digits_go max x s : x <= max -> parse_digits max 0 (pretty_N_go x s) = parse_digits max x s.
Proof.
  revert s. induction x as [x IH] using (well_founded_ind N.lt_wf_0). intros s Hx.
  destruct (decide (x = 0)) as [->|Hne]; [by rewrite pretty_N_go_0|].
  rewrite pretty_N_go_step by lia. pose proof (N.div_mod x 10 ltac:(lia)) as Hdm. pose proof (N.mod_lt x 10 ltac:(lia)) as Hlt.
  rewrite IH; [|apply N.div_lt; lia|pose proof (N.div_lt x 10); lia]. cbn [parse_digits]. rewrite digit_value_char by done. cbn [mbind option_bind].
  rewrite <- Hdm. by rewrite (proj2 (N.ltb_ge max x)).
Qed.
Lemma parse_digits_pretty max n : n <= max -> parse_digits max 0 (pretty n) = Some n.
Proof.
  intros Hn. unfold pretty, pretty_N. destruct (decide (n = 0)) as [->|Hne].
  - by destruct max.
  - by rewrite parse_digits_go.
Qed.
Lemma parse_digits_zero max s : parse_digits max 0 (String "0" s) = parse_digits max 0 s.
Proof. by destruct max. Qed.

(** A decimal numeral. *)
Fixpoint all_digits (s : string) : Prop :=
  match s with EmptyString => True | String a s' => (exists n, n < 10 /\ a = pretty_N_char n) /\ all_digits s' end.
Lemma all_digits_go x s : all_digits s -> all_digits (pretty_N_go x s).
Proof.
  revert s. induction x as [x IH] using (well_founded_ind N.lt_wf_0). intros s Hs.
  destruct (decide (x = 0)) as [->|Hne]; [by rewrite pretty_N_go_0|]. rewrite pretty_N_go_step by lia.
  apply IH; [apply N.div_lt; lia|]. split; [|done]. exists (x mod 10). split; [apply N.mod_lt; lia|done].
Qed.
Lemma all_digits_pretty (n : N) : all_digits (pretty n).
Proof.
  unfold pretty, pretty_N. destruct (decide (n = 0)); [|by apply all_digits_go]. split; [|done]. by exists 0.
Qed.
Lemma pretty_nonempty (n : N) : pretty n <> EmptyString.
Proof.
  intros Hn. pose proof (parse_digits_pretty n n (N.le_refl n)) as Hp. rewrite Hn in Hp. cbn in Hp. injection Hp as <-. done.
Qed.
Lemma digit_plain n : n < 10 -> plain (pretty_N_char n) /\ pretty_N_char n <> ":"%char /\ pretty_N_char n <> "+"%char /\ pretty_N_char n <> "-"%char.
Proof.
  intros Hn. assert (n ∈ range 0 10) as Hin by (apply elem_of_range; lia).
  change (range 0 10) with [0; 1; 2; 3; 4; 5; 6; 7; 8; 9] in Hin. rewrite !elem_of_cons, elem_of_nil in Hin.
  destruct Hin as [->|[->|[->|[->|[->|[->|[->|[->|[->|[->|[]]]]]]]]]]]; by vm_compute.
Qed.
Lemma all_digits_plain s : all_digits s -> all_plain s.
Proof. induction s as [|a s IH]; [done|]. intros [[n [Hn ->]] Hs]. split; [by apply digit_plain|by apply IH]. Qed.
Lemma all_digits_lacks s : all_digits s -> lacks ":" s.
Proof.
  induction s as [|a s IH]; [intros _; apply not_elem_of_nil|]. intros [[n [Hn ->]] Hs]. apply lacks_cons. split; [by apply digit_plain|by apply IH].
Qed.

(** Reading back a numeral, with or without leading zeros. *)
Lemma parse_unsigned_digits max s : all_digits s -> s <> EmptyString -> parse_unsigned max s = parse_digits max 0 s.
Proof.
  destruct s as [|a s]; [done|]. intros [[n [Hn ->]] Hs] _. cbn [parse_unsigned]. destruct (digit_plain n Hn) as (_ & _ & Hp & _).
  by rewrite bool_decide_eq_false_2.
Qed.
Lemma parse_i64_digits s : all_digits s -> s <> EmptyString -> parse_i64 s = Z.of_N <$> parse_digits i64_max 0 s.
Proof.
  intros Hs Hne. rewrite <- parse_unsigned_digits by done. destruct s as [|a s]; [done|]. destruct Hs as [[n [Hn ->]] Hs].
  assert (n ∈ range 0 10) as Hin by (apply elem_of_range; lia).
  change (range 0 10) with [0; 1; 2; 3; 4; 5; 6; 7; 8; 9] in Hin. rewrite !elem_of_cons, elem_of_nil in Hin.
  destruct Hin as [->|[->|[->|[->|[->|[->|[->|[->|[->|[->|[]]]]]]]]]]]; reflexivity.
Qed.
