(* ===== verification/HtmlText.v ===== *)
(** * Posts as HTML and back

    Models [crates/fetchit-fedi/src/text.rs], which reduces the HTML of a post to text, and the
    writer of that HTML in [activity.rs] ([markdown_body_to_html] with
    [linkify_autonomi_addresses]).  A string is its UTF-8 bytes.  Both loops advance by whole
    characters and compare only ASCII ones, so they are written over bytes.  Slicing a string
    inside a character panics, which is [None]. *)
From Stdlib Require Import Ascii.
From S2P Require Import Prelude ShareUri Text.
Open Scope rust_scope.

Fixpoint str_drop (n : nat) (s : string) : string :=
  match n, s with
  | O, _ => s
  | S n, String _ s' => str_drop n s'
  | S _, EmptyString => EmptyString
  end.
Fixpoint str_take (n : nat) (s : string) : string :=
  match n, s with
  | S n, String c s' => String c (str_take n s')
  | _, _ => EmptyString
  end.

Definition is_alphanumeric (c : ascii) : bool :=
  let n := N_of_ascii c in
  ((48 <=? n) && (n <=? 57)) || ((65 <=? n) && (n <=? 90)) || ((97 <=? n) && (n <=? 122)).
Definition is_hexdigit (c : ascii) : bool :=
  let n := N_of_ascii c in
  ((48 <=? n) && (n <=? 57)) || ((65 <=? n) && (n <=? 70)) || ((97 <=? n) && (n <=? 102)).
Fixpoint take_while (p : ascii -> bool) (s : string) : string :=
  match s with
  | String c s' => if p c then String c (take_while p s') else EmptyString
  | EmptyString => EmptyString
  end.
Fixpoint all_chars (p : ascii -> bool) (s : string) : bool :=
  match s with String c s' => p c && all_chars p s' | EmptyString => true end.

(** ** Reading *)

Definition tag_name (tag_body : string) : string :=
  to_ascii_lowercase (take_while is_alphanumeric (trim_start_matches "/" tag_body)).

(** The bytes after a [<] that its tag takes, with what it writes; [None] drops the rest. *)
Definition tag_step (rest : string) : option (string * nat) :=
  match split_once ">" rest with
  | None => None
  | Some (tag_body, after_tag) =>
      let name := tag_name tag_body in
      let closing := starts_with "/" tag_body in
      let past := S (String.length tag_body) in
      if bool_decide (name ∈ ["script"; "style"]%string) && negb closing then
        match String.index 0 ("</" +:+ name) (to_ascii_lowercase after_tag) with
        | None => None
        | Some rel =>
            let closer := str_drop rel after_tag in
            Some (EmptyString, past + rel + match split_once ">" closer with
                                            | Some (before, _) => S (String.length before)
                                            | None => String.length closer
                                            end)%nat
        end
      else if bool_decide (name = "br"%string) then Some (newline, past)
      else if bool_decide (name ∈ ["p"; "div"; "li"; "blockquote"]%string) && closing then Some (newline, past)
      else Some (EmptyString, past)
  end.

(** The loop of [html_to_text]; [skip] bytes belong to the tag just read. *)
Fixpoint strip_tags (skip : nat) (html : string) : string :=
  match html with
  | EmptyString => EmptyString
  | String c rest =>
      match skip with
      | S k => strip_tags k rest
      | O =>
          if negb (bool_decide (c = "<"%char)) then String c (strip_tags 0 rest)
          else match tag_step rest with
               | None => EmptyString
               | Some (written, n) => written +:+ strip_tags n rest
               end
      end
  end.

(** [char::from_u32] and the encoding of a character. *)
Definition byte_chars (l : list N) : string := foldr (fun b s => String (ascii_of_N b) s) EmptyString l.
Definition char_from_u32 (n : N) : option string :=
  if ((55296 <=? n) && (n <=? 57343)) || (1114111 <? n) then None
  else Some (byte_chars
    (if n <? 128 then [n]
     else if n <? 2048 then [192 + n / 64; 128 + n mod 64]
     else if n <? 65536 then [224 + n / 4096; 128 + (n / 64) mod 64; 128 + n mod 64]
     else [240 + n / 262144; 128 + (n / 4096) mod 64; 128 + (n / 64) mod 64; 128 + n mod 64])).

Definition decode_entity (entity : string) : option string :=
  if bool_decide (entity = "amp"%string) then Some "&"%string
  else if bool_decide (entity = "lt"%string) then Some "<"%string
  else if bool_decide (entity = "gt"%string) then Some ">"%string
  else if bool_decide (entity = "quot"%string) then Some quote
  else if bool_decide (entity ∈ ["apos"; "#39"]%string) then Some "'"%string
  else if bool_decide (entity = "nbsp"%string) then Some " "%string
  else d ← strip_prefix "#" entity; n ← parse_unsigned u32_max d; char_from_u32 n.

(** A byte inside a character. *)
Definition continues_char (c : ascii) : bool := let n := N_of_ascii c in (128 <=? n) && (n <? 192).

(** Whether the slice of the first twelve bytes, or of all if there are fewer, ends between
    characters. *)
Definition window_ok (tail : string) : bool :=
  match str_drop 12 tail with String c _ => negb (continues_char c) | EmptyString => true end.

Fixpoint decode_entities (skip : nat) (s : string) : option string :=
  match s with
  | EmptyString => Some EmptyString
  | String c after =>
      match skip with
      | S k => decode_entities k after
      | O =>
          if negb (bool_decide (c = "&"%char)) then String c <$> decode_entities 0 after
          else if negb (window_ok s) then None
          else match split_once ";" (str_take 11 after) with
               | None => String "&" <$> decode_entities 0 after
               | Some (entity, _) =>
                   let text := default ("&" +:+ entity +:+ ";") (decode_entity entity) in
                   (fun t => text +:+ t) <$> decode_entities (S (String.length entity)) after
               end
      end
  end.

Fixpoint collapse_newlines (run : N) (s : string) : string :=
  match s with
  | EmptyString => EmptyString
  | String c s' =>
      if bool_decide (c = ascii_of_N 10)
      then if run + 1 <=? 2 then String c (collapse_newlines (run + 1) s') else collapse_newlines (run + 1) s'
      else String c (collapse_newlines 0 s')
  end.

Definition html_to_text (html : string) : option string :=
  (fun decoded => trim (collapse_newlines 0 decoded)) <$> decode_entities 0 (strip_tags 0 html).

(** ** Writing *)

(** [str::replace] of a character. *)
Fixpoint replace_char (c : ascii) (by_ : string) (s : string) : string :=
  match s with
  | EmptyString => EmptyString
  | String x s' => if bool_decide (x = c) then by_ +:+ replace_char c by_ s' else String x (replace_char c by_ s')
  end.

Definition ADDRESS_LANDING_BASE : string := "https://etchit.io/a/#".
Definition ADDRESS_HEX_LEN : nat := 64.

Definition is_token_char (c : ascii) : bool := is_alphanumeric c || bool_decide (c = "_"%char).

(** [match_address] on the bytes from its start: the token's length and the lower-case address. *)
Definition match_address (s : string) : option (nat * string) :=
  let scheme := if bool_decide (to_ascii_lowercase (str_take 11 s) = "autonomi://"%string) then 11%nat else 0%nat in
  let s1 := str_drop scheme s in
  let zero_x := match s1 with
                | String a (String b _) => if bool_decide (a = "0"%char) && (N.lor (N_of_ascii b) 32 =? 120) then 2%nat else 0%nat
                | _ => 0%nat
                end in
  let s2 := str_drop zero_x s1 in
  let hex := str_take ADDRESS_HEX_LEN s2 in
  if (String.length s2 <? ADDRESS_HEX_LEN)%nat then None
  else if negb (all_chars is_hexdigit hex) then None
  else if match str_drop ADDRESS_HEX_LEN s2 with String c _ => is_token_char c | EmptyString => false end then None
  else Some (scheme + zero_x + ADDRESS_HEX_LEN, to_ascii_lowercase hex)%nat.

(** [skip] bytes belong to the token just written. *)
Fixpoint linkify_autonomi_addresses (boundary_before : bool) (skip : nat) (s : string) : string :=
  match s with
  | EmptyString => EmptyString
  | String c s' =>
      match skip with
      | S k => linkify_autonomi_addresses (negb (is_token_char c)) k s'
      | O =>
          match (if boundary_before then match_address s else None) with
          | Some (n, hex) =>
              "<a href=" +:+ quote +:+ ADDRESS_LANDING_BASE +:+ hex +:+ quote +:+ ">" +:+ str_take n s +:+ "</a>"
              +:+ linkify_autonomi_addresses (negb (is_token_char c)) (Nat.pred n) s'
          | None => String c (linkify_autonomi_addresses (negb (is_token_char c)) 0 s')
          end
      end
  end.

Definition escape_html (body : string) : string :=
  replace_char "'" "&#39;" (replace_char (ascii_of_N 34) "&quot;" (replace_char ">" "&gt;" (replace_char "<" "&lt;"
    (replace_char "&" "&amp;" body)))).

Definition markdown_body_to_html (body : string) : string :=
  "<p>" +:+ replace_char (ascii_of_N 10) "<br>" (linkify_autonomi_addresses true 0 (escape_html body)) +:+ "</p>".

Definition demo_address : string := "a41df88f01ea2ecb2f3f4dcd1d93f3d26e8cd0f5a7f5d1d3d8b2d9b0f2f5d1AA".
Example html_demo :
  html_to_text ("<p>a<br>b &amp; c</p><script>x</scRIPT x>d<ul><li>e</li></ul>&#8364;&lt;") = Some ("a" +:+ newline +:+ "b & c" +:+ newline +:+ "de" +:+ newline
    +:+ byte_chars [226; 130; 172] +:+ "<")
  /\ html_to_text (markdown_body_to_html ("see 0x" +:+ demo_address +:+ " <b> & 'c'")) = Some ("see 0x" +:+ demo_address +:+ " <b> & 'c'").
Proof. by vm_compute. Qed.

(** ** What the reader does to what the writer wrote *)

Lemma lacks_bool c s : bool_decide (c ∈ String.list_ascii_of_string s) = false -> lacks c s.
Proof. intros Hs. unfold lacks. by apply bool_decide_eq_false_1 in Hs. Qed.

Lemma str_take_drop n s : str_take n s +:+ str_drop n s = s.
Proof. revert s. induction n as [|n IH]; intros [|c s]; try done. cbn [str_take str_drop]. by rewrite append_cons, IH. Qed.
Lemma str_take_length n s : (n <= String.length s)%nat -> String.length (str_take n s) = n.
Proof. revert s. induction n as [|n IH]; intros [|c s]; cbn; [done|done|lia|]. intros Hn. by rewrite IH by lia. Qed.
Lemma str_drop_length n s : String.length (str_drop n s) = (String.length s - n)%nat.
Proof. revert s. induction n as [|n IH]; intros [|c s]; cbn; try done. Qed.
Lemma lacks_take c n s : lacks c s -> lacks c (str_take n s).
Proof.
  revert s. induction n as [|n IH]; intros [|x s]; cbn [str_take]; try (intros _; apply not_elem_of_nil).
  rewrite !lacks_cons. intros [? ?]. auto.
Qed.
Lemma lacks_drop c n s : lacks c s -> lacks c (str_drop n s).
Proof. revert s. induction n as [|n IH]; intros [|x s]; cbn [str_drop]; try done. rewrite lacks_cons. intros [? ?]. auto. Qed.

Lemma replace_char_app c r s t : replace_char c r (s +:+ t) = replace_char c r s +:+ replace_char c r t.
Proof.
  induction s as [|x s IH]; [done|]. rewrite append_cons. cbn [replace_char].
  case_bool_decide; rewrite IH; [by rewrite append_assoc|by rewrite append_cons].
Qed.
Lemma replace_char_lacks c r s : lacks c s -> replace_char c r s = s.
Proof.
  induction s as [|x s IH]; [done|]. rewrite lacks_cons. intros [Hx Hs]. cbn [replace_char].
  rewrite bool_decide_eq_false_2 by done. by rewrite IH.
Qed.

Lemma strip_tags_skip x rest : strip_tags (String.length x) (x +:+ rest) = strip_tags 0 rest.
Proof. induction x as [|c x IH]; [done|]. rewrite append_cons. cbn [String.length strip_tags]. apply IH. Qed.

(** Text of which the tags are complete: what it reads as does not depend on what follows. *)
Inductive Renders : string -> string -> Prop :=
| R_nil : Renders EmptyString EmptyString
| R_char c h t : c <> "<"%char -> Renders h t -> Renders (String c h) (String c t)
| R_tag tag written h t :
    (forall rest, tag_step (tag +:+ ">" +:+ rest) = Some (written, S (String.length tag))) ->
    Renders h t -> Renders ("<" +:+ tag +:+ ">" +:+ h) (written +:+ t).

Lemma renders_strip h t k : Renders h t -> strip_tags 0 (h +:+ k) = t +:+ strip_tags 0 k.
Proof.
  induction 1 as [|c h t Hc _ IH|tag written h t Htag _ IH]; [done| |].
  - rewrite !append_cons. cbn [strip_tags]. rewrite bool_decide_eq_false_2 by done. cbn [negb]. by rewrite IH.
  - rewrite !append_assoc. change ("<" +:+ ?x) with (String "<" x). cbn [strip_tags].
    rewrite bool_decide_eq_true_2 by done. cbn [negb]. rewrite Htag, <- IH. f_equal.
    rewrite <- (strip_tags_skip (tag +:+ ">") (h +:+ k)). rewrite append_length, append_assoc. by rewrite Nat.add_comm.
Qed.
Lemma renders_app h t h' t' : Renders h t -> Renders h' t' -> Renders (h +:+ h') (t +:+ t').
Proof.
  intros Hh Hh'. induction Hh as [|c h t Hc _ IH|tag written h t Htag _ IH]; [done| |].
  - rewrite !append_cons. by constructor.
  - rewrite !append_assoc. by constructor.
Qed.
Lemma renders_tag tag written :
  (forall rest, tag_step (tag +:+ ">" +:+ rest) = Some (written, S (String.length tag))) -> Renders ("<" +:+ tag +:+ ">") written.
Proof. intros Htag. rewrite <- (append_empty_r written), <- (append_empty_r ">"). by constructor; [|constructor]. Qed.

(** Lines of text without tags. *)
Lemma renders_lines s : lacks "<" s -> Renders (replace_char (ascii_of_N 10) "<br>" s) s.
Proof.
  induction s as [|c s IH]; [constructor|]. rewrite lacks_cons. intros [Hc Hs]. cbn [replace_char].
  case_bool_decide as Hn; [|by constructor; [|apply IH]]. subst c. apply (renders_app "<br>" newline); [|by apply IH].
  apply (renders_tag "br" newline). done.
Qed.

Lemma anchor_tag_step hex rest : all_chars is_hexdigit hex = true ->
  tag_step (("a href=" +:+ quote +:+ ADDRESS_LANDING_BASE +:+ hex +:+ quote) +:+ ">" +:+ rest)
    = Some (EmptyString, S (String.length ("a href=" +:+ quote +:+ ADDRESS_LANDING_BASE +:+ hex +:+ quote))).
Proof.
  intros Hhex. set (tag := "a href=" +:+ quote +:+ ADDRESS_LANDING_BASE +:+ hex +:+ quote).
  assert (lacks ">" tag) as Hl.
  { subst tag. apply lacks_app; [by apply lacks_bool|]. apply lacks_app; [by apply lacks_bool|]. apply lacks_app; [by apply lacks_bool|].
    apply lacks_app; [|by apply lacks_bool]. clear -Hhex. induction hex as [|c hex IH]; [apply not_elem_of_nil|].
    cbn in Hhex. apply andb_prop in Hhex as [Hc Hhex]. apply lacks_cons. split; [by intros ->|by apply IH]. }
  unfold tag_step. change (">" +:+ rest) with (String ">" rest). rewrite (split_once_app ">" tag rest Hl). done.
Qed.

Lemma all_hex_lower s : all_chars is_hexdigit s = true -> all_chars is_hexdigit (to_ascii_lowercase s) = true.
Proof.
  induction s as [|c s IH]; [done|]. cbn. rewrite !andb_true_iff. intros [Hc Hs]. split; [|by apply IH].
  destruct c as [[] [] [] [] [] [] [] []]; first [discriminate Hc|reflexivity].
Qed.
Lemma match_address_spec s n hex : match_address s = Some (n, hex) ->
  (0 < n <= String.length s)%nat /\ all_chars is_hexdigit hex = true.
Proof.
  unfold match_address. set (sc := if bool_decide _ then 11%nat else 0%nat). set (s1 := str_drop sc s).
  set (zx := match s1 with EmptyString => 0%nat | _ => _ end). set (s2 := str_drop zx s1).
  destruct (_ <? _)%nat eqn:Hlen; [done|]. apply Nat.ltb_ge in Hlen. destruct (all_chars is_hexdigit _) eqn:Hhex; [|done]. cbn [negb].
  destruct (match str_drop ADDRESS_HEX_LEN s2 with EmptyString => false | _ => _ end); [done|]. intros [= <- <-].
  split; [|by apply all_hex_lower]. subst s2 s1. rewrite !str_drop_length in Hlen. unfold ADDRESS_HEX_LEN in *. lia.
Qed.

Lemma linkify_skip b n s : (n <= String.length s)%nat -> exists b', linkify_autonomi_addresses b n s = linkify_autonomi_addresses b' 0 (str_drop n s).
Proof.
  revert b s. induction n as [|n IH]; intros b [|c s]; cbn; [eauto..|lia|]. intros Hn. apply IH. lia.
Qed.

(** Links are invisible in the text. *)
Lemma renders_linked b s : lacks "<" s ->
  Renders (replace_char (ascii_of_N 10) "<br>" (linkify_autonomi_addresses b 0 s)) s.
Proof.
  revert b. induction s as [s IH] using (induction_ltof1 _ String.length). unfold ltof in IH. intros b Hs.
  destruct s as [|c s']; [constructor|]. cbn [linkify_autonomi_addresses].
  destruct (if b then match_address (String c s') else None) as [[n hex]|] eqn:Em.
  - assert (match_address (String c s') = Some (n, hex)) as Hm by (by destruct b).
    apply match_address_spec in Hm as [Hn Hhex]. destruct n as [|n]; [lia|]. cbn [Nat.pred].
    cbn [String.length] in Hn. destruct (linkify_skip (negb (is_token_char c)) n s') as [b' ->]; [lia|].
    rewrite !replace_char_app. rewrite (replace_char_lacks _ _ hex).
    2:{ clear -Hhex. induction hex as [|x hex IH]; [apply not_elem_of_nil|]. cbn in Hhex. apply andb_prop in Hhex as [Hx Hhex].
        apply lacks_cons. split; [by intros ->|by apply IH]. }
    change (replace_char (ascii_of_N 10) "<br>" "<a href=") with ("<" +:+ "a href=").
    change (replace_char (ascii_of_N 10) "<br>" quote) with quote. change (replace_char (ascii_of_N 10) "<br>" ">") with ">"%string.
    change (replace_char (ascii_of_N 10) "<br>" ADDRESS_LANDING_BASE) with ADDRESS_LANDING_BASE.
    change (replace_char (ascii_of_N 10) "<br>" "</a>") with ("<" +:+ "/a" +:+ ">").
    assert (String c s' = EmptyString +:+ str_take (S n) (String c s') +:+ EmptyString +:+ str_drop n s') as Htext.
    { rewrite !append_empty. exact (eq_sym (str_take_drop (S n) (String c s'))). }
    rewrite Htext at 2. clear Htext.
    replace ((("<" +:+ "a href=") +:+ quote +:+ ADDRESS_LANDING_BASE +:+ hex +:+ quote +:+ ">" +:+
      replace_char (ascii_of_N 10) "<br>" (str_take (S n) (String c s')) +:+ ("<" +:+ "/a" +:+ ">") +:+
      replace_char (ascii_of_N 10) "<br>" (linkify_autonomi_addresses b' 0 (str_drop n s'))))
      with (("<" +:+ ("a href=" +:+ quote +:+ ADDRESS_LANDING_BASE +:+ hex +:+ quote) +:+ ">") +:+
      replace_char (ascii_of_N 10) "<br>" (str_take (S n) (String c s')) +:+ ("<" +:+ "/a" +:+ ">") +:+
      replace_char (ascii_of_N 10) "<br>" (linkify_autonomi_addresses b' 0 (str_drop n s')))
      by (rewrite !append_assoc; done).
    apply renders_app; [apply renders_tag; intros rest; by apply anchor_tag_step|].
    apply renders_app; [apply renders_lines; by apply lacks_take|].
    apply renders_app; [by apply (renders_tag "/a" EmptyString)|].
    apply IH; [cbn [String.length]; rewrite str_drop_length; lia|]. apply lacks_cons in Hs as [_ Hs]. by apply lacks_drop.
  - apply lacks_cons in Hs as [Hc Hs]. cbn [replace_char].
    assert (Renders (replace_char (ascii_of_N 10) "<br>" (linkify_autonomi_addresses (negb (is_token_char c)) 0 s')) s') as Hr
      by (apply IH; [cbn; lia|done]).
    case_bool_decide as Hn; [|by constructor]. subst c. apply (renders_app "<br>" newline); [by apply (renders_tag "br" newline)|done].
Qed.

(** *** Entities *)

Definition escape_char (c : ascii) : string :=
  if bool_decide (c = "&"%char) then "&amp;" else if bool_decide (c = "<"%char) then "&lt;"
  else if bool_decide (c = ">"%char) then "&gt;" else if bool_decide (c = ascii_of_N 34) then "&quot;"
  else if bool_decide (c = "'"%char) then "&#39;" else String c EmptyString.

(** The five passes of the writer escape each character once. *)
Lemma escape_html_cons c s : escape_html (String c s) = escape_char c +:+ escape_html s.
Proof.
  change (String c s) with (String c EmptyString +:+ s). unfold escape_html. rewrite !replace_char_app. f_equal.
  unfold escape_char. destruct (decide (c = "&"%char)) as [->|H1]; [done|]. rewrite (bool_decide_eq_false_2 _ H1).
  destruct (decide (c = "<"%char)) as [->|H2]; [done|]. rewrite (bool_decide_eq_false_2 _ H2).
  destruct (decide (c = ">"%char)) as [->|H3]; [done|]. rewrite (bool_decide_eq_false_2 _ H3).
  destruct (decide (c = ascii_of_N 34)) as [->|H4]; [done|]. rewrite (bool_decide_eq_false_2 _ H4).
  destruct (decide (c = "'"%char)) as [->|H5]; [done|]. rewrite (bool_decide_eq_false_2 _ H5).
  by repeat (cbn [replace_char]; rewrite bool_decide_eq_false_2 by done).
Qed.

Ltac escape_cases c :=
  unfold escape_char; destruct (decide (c = "&"%char)) as [->|]; [|rewrite (bool_decide_eq_false_2 (c = "&"%char)) by done;
  destruct (decide (c = "<"%char)) as [->|]; [|rewrite (bool_decide_eq_false_2 (c = "<"%char)) by done;
  destruct (decide (c = ">"%char)) as [->|]; [|rewrite (bool_decide_eq_false_2 (c = ">"%char)) by done;
  destruct (decide (c = ascii_of_N 34)) as [->|]; [|rewrite (bool_decide_eq_false_2 (c = ascii_of_N 34)) by done;
  destruct (decide (c = "'"%char)) as [->|]; [|rewrite (bool_decide_eq_false_2 (c = "'"%char)) by done]]]]].

Lemma escape_html_lacks s : lacks "<" (escape_html s).
Proof.
  induction s as [|c s IH]; [apply not_elem_of_nil|]. rewrite escape_html_cons. apply lacks_app; [|done].
  escape_cases c; try (by apply lacks_bool). apply lacks_cons. split; [done|apply not_elem_of_nil].
Qed.

Definition is_ascii (c : ascii) : bool := N_of_ascii c <? 128.

Lemma all_chars_app p s t : all_chars p (s +:+ t) = all_chars p s && all_chars p t.
Proof. induction s as [|c s IH]; [done|]. rewrite append_cons. cbn. by rewrite IH, andb_assoc. Qed.
Lemma all_chars_drop p n s : all_chars p s = true -> all_chars p (str_drop n s) = true.
Proof. revert s. induction n as [|n IH]; intros [|c s]; cbn; try done. intros [_ Hs]%andb_prop. by apply IH. Qed.
Lemma window_ok_ascii s : all_chars is_ascii s = true -> window_ok s = true.
Proof.
  intros Hs. unfold window_ok. apply (all_chars_drop _ 12) in Hs. destruct (str_drop 12 s) as [|c t]; [done|].
  cbn in Hs. apply andb_prop in Hs as [Hc _]. unfold is_ascii in Hc. apply N.ltb_lt in Hc. unfold continues_char.
  rewrite (proj2 (N.leb_gt 128 (N_of_ascii c))) by lia. done.
Qed.
Lemma escape_ascii s : all_chars is_ascii s = true -> all_chars is_ascii (escape_html s) = true.
Proof.
  induction s as [|c s IH]; [done|]. cbn [all_chars]. intros [Hc Hs]%andb_prop. rewrite escape_html_cons, all_chars_app, IH by done.
  rewrite andb_true_r. escape_cases c; try done. cbn. by rewrite Hc.
Qed.

(** An entity at the start of a text, when the slice is fine and when it is not. *)
Lemma str_take_app n s t : str_take (String.length s + n) (s +:+ t) = s +:+ str_take n t.
Proof. induction s as [|c s IH]; [done|]. rewrite !append_cons. cbn [String.length plus str_take]. by rewrite IH. Qed.
Lemma decode_skip x rest : decode_entities (String.length x) (x +:+ rest) = decode_entities 0 rest.
Proof. induction x as [|c x IH]; [done|]. rewrite append_cons. cbn [String.length decode_entities]. apply IH. Qed.
Lemma decode_at_entity ent c k : lacks ";" ent -> (String.length ent <= 10)%nat -> decode_entity ent = Some (String c EmptyString) ->
  decode_entities 0 (String "&" (ent +:+ String ";" k)) =
    if window_ok (String "&" (ent +:+ String ";" k)) then String c <$> decode_entities 0 k else None.
Proof.
  intros Hl Hlen He. cbn [decode_entities]. rewrite bool_decide_eq_true_2 by done. cbn [negb].
  destruct (window_ok _); [cbn [negb]|done].
  replace 11%nat with (String.length ent + S (10 - String.length ent))%nat by lia. rewrite str_take_app. cbn [str_take].
  rewrite split_once_app by done. rewrite He. cbn [default].
  replace (ent +:+ String ";" k) with ((ent +:+ ";") +:+ k) by (by rewrite append_assoc).
  replace (S (String.length ent)) with (String.length (ent +:+ ";")) by (rewrite append_length; cbn; lia).
  rewrite decode_skip. by destruct (decode_entities 0 k).
Qed.
Lemma decode_escaped_entity ent c k : escape_char c = String "&" (ent +:+ ";") -> lacks ";" ent -> (String.length ent <= 10)%nat ->
  decode_entity ent = Some (String c EmptyString) -> window_ok (escape_char c +:+ k) = true ->
  decode_entities 0 (escape_char c +:+ k) = String c <$> decode_entities 0 k.
Proof.
  intros -> Hl Hlen He. rewrite append_cons, append_assoc. change (";" +:+ k) with (String ";" k). intros Hw.
  by rewrite (decode_at_entity ent c k) by done; rewrite Hw.
Qed.
Lemma decode_escaped c k : window_ok (escape_char c +:+ k) = true ->
  decode_entities 0 (escape_char c +:+ k) = String c <$> decode_entities 0 k.
Proof.
  destruct (decide (c ∈ ["&"; "<"; ">"; ascii_of_N 34; "'"]%char)) as [Hin|Hout].
  - rewrite !elem_of_cons, elem_of_nil in Hin. destruct Hin as [->|[->|[->|[->|[->|[]]]]]].
    + apply (decode_escaped_entity "amp"); [done|by apply lacks_bool|cbn; lia|done].
    + apply (decode_escaped_entity "lt"); [done|by apply lacks_bool|cbn; lia|done].
    + apply (decode_escaped_entity "gt"); [done|by apply lacks_bool|cbn; lia|done].
    + apply (decode_escaped_entity "quot"); [done|by apply lacks_bool|cbn; lia|done].
    + apply (decode_escaped_entity "#39"); [done|by apply lacks_bool|cbn; lia|done].
  - rewrite !not_elem_of_cons in Hout. destruct Hout as (?&?&?&?&?&_). unfold escape_char.
    rewrite !bool_decide_eq_false_2 by done. intros _. rewrite append_cons. cbn [decode_entities]. by rewrite bool_decide_eq_false_2.
Qed.

Lemma decode_escape_html s k : all_chars is_ascii s = true -> all_chars is_ascii k = true ->
  decode_entities 0 (escape_html s +:+ k) = (fun t => s +:+ t) <$> decode_entities 0 k.
Proof.
  intros Hs Hk. induction s as [|c s IH].
  { change (escape_html EmptyString +:+ k) with k. by destruct (decode_entities 0 k). }
  pose proof Hs as Hall. cbn [all_chars] in Hs. apply andb_prop in Hs as [_ Hs]. rewrite escape_html_cons, append_assoc.
  rewrite decode_escaped.
  - rewrite IH by done. destruct (decode_entities 0 k); cbn; by rewrite ?append_cons.
  - apply window_ok_ascii. by rewrite <- append_assoc, <- escape_html_cons, all_chars_app, escape_ascii.
Qed.

(** *** White space *)

Lemma collapse_app_newline run s : exists e, (e = EmptyString \/ e = newline) /\ collapse_newlines run (s +:+ newline) = collapse_newlines run s +:+ e.
Proof.
  revert run. induction s as [|c s IH]; intros run.
  { rewrite append_empty. cbn. rewrite bool_decide_eq_true_2 by done. destruct (run + 1 <=? 2); eauto. }
  rewrite append_cons. cbn [collapse_newlines].
  destruct (IH (run + 1)) as (e1 & He1 & ->), (IH 0) as (e2 & He2 & ->).
  case_bool_decide; [destruct (run + 1 <=? 2); exists e1|exists e2]; by rewrite ?append_cons.
Qed.

Lemma rev_onto_newline s acc : rev_onto (s +:+ newline) acc = String (ascii_of_N 10) (rev_onto s acc).
Proof. revert acc. induction s as [|c s IH]; intros acc; [done|]. rewrite append_cons. cbn [rev_onto]. apply IH. Qed.
Lemma trim_end_newline s : trim_end (s +:+ newline) = trim_end s.
Proof. unfold trim_end. by rewrite rev_onto_newline. Qed.
Lemma trim_newline s : all_chars is_ascii s = true -> trim (s +:+ newline) = trim s.
Proof.
  unfold trim. induction s as [|c s IH]; [done|]. cbn [all_chars]. intros [Hc Hs]%andb_prop. rewrite append_cons.
  destruct (white1 c) eqn:Hw.
  - assert (forall t, trim_start (String c t) = trim_start t) as Hskip by (intros t; cbn [trim_start]; by rewrite Hw).
    rewrite !Hskip. by apply IH.
  - assert (plain c) as Hp by (split; [by apply N.ltb_lt|done]). rewrite !trim_start_plain by done.
    rewrite <- append_cons. apply trim_end_newline.
Qed.

(** ** Round trip *)

Lemma rendered_body body :
  strip_tags 0 (markdown_body_to_html body) = escape_html body +:+ newline.
Proof.
  unfold markdown_body_to_html.
  rewrite (renders_strip "<p>" EmptyString) by by apply (renders_tag "p" EmptyString).
  rewrite append_empty, (renders_strip _ (escape_html body)) by apply renders_linked, escape_html_lacks.
  by rewrite <- (append_empty_r "</p>"), (renders_strip "</p>" newline) by by apply (renders_tag "/p" newline).
Qed.

(** C33: an ASCII post body that is trimmed and has no more than one blank line in a row is read back
    from the HTML written for it exactly as typed, addresses that were made into links included. *)
Theorem post_text_round_trip body :
  all_chars is_ascii body = true -> trim body = body -> collapse_newlines 0 body = body ->
  html_to_text (markdown_body_to_html body) = Some body.
Proof.
  intros Ha Ht Hc. unfold html_to_text. rewrite rendered_body, decode_escape_html by done.
  change (decode_entities 0 newline) with (Some newline). cbn [fmap option_fmap option_map].
  destruct (collapse_app_newline 0 body) as (e & He & ->). rewrite Hc. destruct He as [->| ->].
  - by rewrite append_empty_r, Ht.
  - by rewrite trim_newline, Ht.
Qed.

(** No tag survives: before entities are decoded the text has no [<]. *)
Lemma stripped_has_no_tag skip html : lacks "<" (strip_tags skip html).
Proof.
  revert skip. induction html as [|c html IH]; intros [|k]; cbn [strip_tags]; try (apply not_elem_of_nil); [|by apply IH].
  case_bool_decide as Hc; cbn [negb]; [|apply lacks_cons; split; [done|by apply IH]].
  destruct (tag_step html) as [[w n]|] eqn:E; [|apply not_elem_of_nil]. apply lacks_app; [|by apply IH].
  unfold tag_step in E. destruct (split_once ">" html) as [[b a]|]; [|done].
  repeat (case_match; simplify_eq; try (by apply lacks_bool)).
Qed.

(** *** Where the reader panics *)

Lemma escape_html_app s t : escape_html (s +:+ t) = escape_html s +:+ escape_html t.
Proof. unfold escape_html. by rewrite !replace_char_app. Qed.
Lemma str_drop_app s t : str_drop (String.length s) (s +:+ t) = t.
Proof. induction s as [|c s IH]; [done|]. rewrite append_cons. cbn [String.length str_drop]. apply IH. Qed.

Lemma decode_escaped_None c k : decode_entities 0 k = None -> decode_entities 0 (escape_char c +:+ k) = None.
Proof.
  intros Hk. destruct (window_ok (escape_char c +:+ k)) eqn:Hw; [by rewrite decode_escaped, Hk|].
  revert Hw. unfold escape_char.
  repeat case_bool_decide; intros Hw; rewrite ?append_cons in *; cbn [decode_entities];
    first [rewrite bool_decide_eq_false_2 by done; cbn [negb]; by rewrite ?append_empty, Hk
          |rewrite bool_decide_eq_true_2 by done; cbn [negb]; by rewrite Hw].
Qed.
Lemma decode_escape_None s k : decode_entities 0 k = None -> decode_entities 0 (escape_html s +:+ k) = None.
Proof.
  intros Hk. induction s as [|c s IH]; [done|]. rewrite escape_html_cons, append_assoc. by apply decode_escaped_None.
Qed.

(** The reader slices twelve bytes at every ampersand, so it panics on the HTML of every post
    in which the eighth byte after an ampersand lies inside a character and the seven before need no escaping. *)
Theorem multibyte_post_panics p x b rest :
  escape_html x = x -> String.length x = 7%nat -> continues_char b = true ->
  html_to_text (markdown_body_to_html (p +:+ "&" +:+ x +:+ String b rest)) = None.
Proof.
  intros Hx Hlen Hb. unfold html_to_text. rewrite rendered_body, !escape_html_app, Hx, !append_assoc.
  rewrite decode_escape_None; [done|]. change (escape_html "&") with ("&amp;").
  assert (escape_html (String b rest) = String b (escape_html rest)) as ->.
  { rewrite escape_html_cons. unfold escape_char. by rewrite !bool_decide_eq_false_2 by (by intros ->). }
  set (k := String b (escape_html rest) +:+ newline). change ("&amp;" +:+ x +:+ k) with (String "&" ("amp" +:+ String ";" (x +:+ k))).
  rewrite (decode_at_entity "amp" "&") by (by apply lacks_bool || done || (cbn; lia)).
  assert (window_ok (String "&" ("amp" +:+ String ";" (x +:+ k))) = false) as ->; [|done].
  unfold window_ok. replace 12%nat with (String.length ("&amp;" +:+ x)) by (rewrite append_length, Hlen; done).
  change (String "&" ("amp" +:+ String ";" (x +:+ k))) with ("&amp;" +:+ (x +:+ k)).
  rewrite <- append_assoc, str_drop_app. unfold k. rewrite append_cons. by rewrite Hb.
Qed.

Lemma post_text_round_trip_witness :
  html_to_text (markdown_body_to_html ("see 0x" +:+ demo_address +:+ newline +:+ newline +:+ "<b> & 'c'"))
    = Some ("see 0x" +:+ demo_address +:+ newline +:+ newline +:+ "<b> & 'c'").
Proof. apply post_text_round_trip; by vm_compute. Defined.

(** An ampersand before Japanese text: U+65E5 three times. *)
Lemma multibyte_post_panics_witness :
  html_to_text (markdown_body_to_html ("Q" +:+ "&" +:+ byte_chars [230; 151; 165; 230; 151; 165; 230] +:+ String (ascii_of_N 151) (byte_chars [165]))) = None.
Proof. by apply multibyte_post_panics; vm_compute. Defined.
