(* ===== verification/HttpDate.v ===== *)
(** * Dates in HTTP headers

    Models [format_imf_fixdate] of [crates/fetchit-fedi/src/transport.rs] and the parser and
    [days_from_civil] of [crates/fetchit-relay-server/src/inbox/sig_verify.rs] (of which
    [transport.rs] has a copy).  Integers have the widths of the source and wrap as a
    release build's do; a time past what [SystemTime] can hold is a panic. *)
From Stdlib Require Import Ascii.
From stdpp Require Import pretty.
From S2P Require Import Prelude ShareUri Text.
Open Scope rust_scope.

(** [as i64], [as u64]. *)
Definition wrap_i64 (z : Z) : Z := ((z + 2 ^ 63) mod 2 ^ 64 - 2 ^ 63)%Z.
Definition wrap_u64 (z : Z) : Z := (z mod 2 ^ 64)%Z.

(** Division of machine integers truncates. *)
Definition era_of (y : Z) : Z :=
  if (0 <=? y)%Z then Z.quot y 400 else Z.quot (wrap_i64 (y - 399)) 400.

Definition days_from_civil (y : Z) (m d : N) : option Z :=
  if negb ((1 <=? m) && (m <=? 12)) || negb ((1 <=? d) && (d <=? 31)) then None
  else
    let y := if m <=? 2 then wrap_i64 (y - 1) else y in
    let era := era_of y in
    let yoe := wrap_u64 (wrap_i64 (y - wrap_i64 (era * 400))) in
    let doy := ((153 * Z.of_N (if 2 <? m then m - 3 else m + 9)%N + 2) / 5 + Z.of_N d - 1)%Z in
    let doe := wrap_u64 (yoe * 365 + yoe / 4 - yoe / 100 + doy) in
    let days := wrap_i64 (wrap_i64 (era * 146097) + wrap_i64 doe - 719468) in
    if (days <? 0)%Z then None else Some days.

Definition month_number (name : string) : option N :=
  if bool_decide (name = "Jan"%string) then Some 1
  else if bool_decide (name = "Feb"%string) then Some 2
  else if bool_decide (name = "Mar"%string) then Some 3
  else if bool_decide (name = "Apr"%string) then Some 4
  else if bool_decide (name = "May"%string) then Some 5
  else if bool_decide (name = "Jun"%string) then Some 6
  else if bool_decide (name = "Jul"%string) then Some 7
  else if bool_decide (name = "Aug"%string) then Some 8
  else if bool_decide (name = "Sep"%string) then Some 9
  else if bool_decide (name = "Oct"%string) then Some 10
  else if bool_decide (name = "Nov"%string) then Some 11
  else if bool_decide (name = "Dec"%string) then Some 12
  else None.

(** A time, a refusal, or the panic of adding a duration past the range of [SystemTime]. *)
Inductive DateParse := DateNone | DateSecs (secs : N) | DatePanic.

(** The zone names the parser takes off. *)
Definition strip_zone (s : string) : option string :=
  match strip_suffix " GMT" s with
  | Some r => Some r
  | None => match strip_suffix " UTC" s with Some r => Some r | None => strip_suffix " +0000" s end
  end.

(** Day, month name, year, hour, minute and second of the words after the day's name. *)
Definition date_fields (words : list string) : option (N * string * Z * N * N * N) :=
  match words with
  | [day; month_name; year; hms] =>
      day ← parse_unsigned u32_max day;
      year ← parse_i64 year;
      match split ":" hms with
      | (h, [m; s]) =>
          h ← parse_unsigned u64_max h; m ← parse_unsigned u64_max m; s ← parse_unsigned u64_max s;
          Some (day, month_name, year, h, m, s)
      | _ => None
      end
  | _ => None
  end.

Definition parse_imf_fixdate (s : string) : DateParse :=
  let parsed :=
    s ← strip_zone (trim s);
    '(_, rest) ← split_once_str ", " s;
    '(day, month_name, year, hour, minute, second) ← date_fields (split_whitespace rest);
    month ← month_number month_name;
    days ← days_from_civil year month day;
    Some (wrap_u64 (wrap_u64 (days * 86400) + Z.of_N hour * 3600 + Z.of_N minute * 60 + Z.of_N second)) in
  match parsed with
  | None => DateNone
  | Some secs => if (Z.of_N i64_max <? secs)%Z then DatePanic else DateSecs (Z.to_N secs)
  end.

(** *** The writer *)

(** Year, month and day of a day counted from the epoch. *)
Definition civil_from_days (days : N) : N * N * N :=
  let z := days + 719468 in
  let era := z / 146097 in
  let doe := z - era * 146097 in
  let yoe := (doe - doe / 1460 + doe / 36524 - doe / 146096) / 365 in
  let doy := doe - (365 * yoe + yoe / 4 - yoe / 100) in
  let mp := (5 * doy + 2) / 153 in
  let d := doy - (153 * mp + 2) / 5 + 1 in
  let m := if mp <? 10 then mp + 3 else mp - 9 in
  let y := yoe + era * 400 in
  (if m <=? 2 then y + 1 else y, m, d).

Definition day_name (dow : N) : string :=
  match dow with
  | 0 => "Sun" | 1 => "Mon" | 2 => "Tue" | 3 => "Wed" | 4 => "Thu" | 5 => "Fri" | _ => "Sat"
  end.
Definition month_name (m : N) : string :=
  match m with
  | 1 => "Jan" | 2 => "Feb" | 3 => "Mar" | 4 => "Apr" | 5 => "May" | 6 => "Jun" | 7 => "Jul" | 8 => "Aug"
  | 9 => "Sep" | 10 => "Oct" | 11 => "Nov" | _ => "Dec"
  end.

(** The [02] and [04] formats. *)
Definition pad2 (n : N) : string := if n <? 10 then "0" +:+ pretty n else pretty n.
Definition pad4 (n : N) : string :=
  if n <? 10 then "000" +:+ pretty n else if n <? 100 then "00" +:+ pretty n
  else if n <? 1000 then "0" +:+ pretty n else pretty n.

Definition format_imf_fixdate (secs : N) : string :=
  let days := secs / 86400 in
  let secs_of_day := secs mod 86400 in
  let '(year, month, day) := civil_from_days days in
  day_name ((days + 4) mod 7) +:+ ", " +:+ pad2 day +:+ " " +:+ month_name month +:+ " " +:+ pad4 year +:+ " "
  +:+ pad2 (secs_of_day / 3600) +:+ ":" +:+ pad2 ((secs_of_day mod 3600) / 60) +:+ ":" +:+ pad2 (secs_of_day mod 60)
  +:+ " GMT".

Example fixdate_example : format_imf_fixdate 784111777 = "Sun, 06 Nov 1994 08:49:37 GMT"%string
  /\ parse_imf_fixdate "Sun, 06 Nov 1994 08:49:37 GMT" = DateSecs 784111777.
Proof. by vm_compute. Qed.
Example fixdate_panics : parse_imf_fixdate "Sun, 06 Nov 1994 5000000000000000:00:00 GMT" = DatePanic.
Proof. by vm_compute. Qed.

(** ** The calendar *)

Lemma wrap_i64_small z : (- 2 ^ 63 <= z < 2 ^ 63)%Z -> wrap_i64 z = z.
Proof. intros Hz. unfold wrap_i64. rewrite Z.mod_small; lia. Qed.
Lemma wrap_u64_small z : (0 <= z < 2 ^ 64)%Z -> wrap_u64 z = z.
Proof. intros Hz. unfold wrap_u64. by apply Z.mod_small. Qed.

(** The day of the year counted from March. *)
Definition doy_of (m d : N) : Z := ((153 * Z.of_N (if 2 <? m then m - 3 else m + 9)%N + 2) / 5 + Z.of_N d - 1)%Z.

(** For years a calendar has, [days_from_civil] is the closed form of Hinnant's algorithm. *)
Lemma days_from_civil_closed y m d :
  1 <= m <= 12 -> 1 <= d <= 31 -> (1 <= y <= 2 ^ 40)%Z ->
  let y' := if m <=? 2 then (y - 1)%Z else y in
  let days := (365 * y' + y' / 4 - y' / 100 + y' / 400 + doy_of m d - 719468)%Z in
  days_from_civil y m d = if (days <? 0)%Z then None else Some days.
Proof.
  intros Hm Hd Hy. cbv zeta. unfold days_from_civil.
  rewrite (proj2 (N.leb_le 1 m)), (proj2 (N.leb_le m 12)), (proj2 (N.leb_le 1 d)), (proj2 (N.leb_le d 31)) by lia.
  cbn [negb andb orb].
  assert ((if m <=? 2 then wrap_i64 (y - 1) else y) = (if m <=? 2 then (y - 1)%Z else y)) as ->
    by (destruct (m <=? 2); [|done]; apply wrap_i64_small; lia).
  set (y' := if m <=? 2 then (y - 1)%Z else y). assert (0 <= y' <= 2 ^ 40)%Z as Hy' by (subst y'; destruct (m <=? 2); lia).
  fold (doy_of m d). assert (0 <= doy_of m d <= 400)%Z as Hdoy.
  { unfold doy_of. destruct (2 <? m) eqn:E; [apply N.ltb_lt in E|apply N.ltb_ge in E]; Z.to_euclidean_division_equations; lia. }
  unfold era_of. rewrite (proj2 (Z.leb_le 0 y')) by lia. rewrite Z.quot_div_nonneg by lia.
  pose proof (Z.div_mod y' 400 ltac:(lia)) as Hdm. pose proof (Z.mod_pos_bound y' 400 ltac:(lia)) as Hb.
  set (era := (y' / 400)%Z) in *. set (yoe := (y' mod 400)%Z) in *.
  rewrite (wrap_i64_small (era * 400)) by lia. rewrite (wrap_i64_small (y' - era * 400)) by lia.
  rewrite (wrap_u64_small (y' - era * 400)) by lia. replace (y' - era * 400)%Z with yoe by lia.
  assert (0 <= yoe * 365 + yoe / 4 - yoe / 100 + doy_of m d < 200000)%Z as Hdoe by (Z.to_euclidean_division_equations; lia).
  rewrite (wrap_u64_small (yoe * 365 + yoe / 4 - yoe / 100 + doy_of m d)) by lia.
  rewrite (wrap_i64_small (era * 146097)), (wrap_i64_small (yoe * 365 + yoe / 4 - yoe / 100 + doy_of m d)), wrap_i64_small by lia.
  replace (era * 146097 + (yoe * 365 + yoe / 4 - yoe / 100 + doy_of m d) - 719468)%Z
    with (365 * y' + y' / 4 - y' / 100 + era + doy_of m d - 719468)%Z; [done|].
  assert (y' / 4 = 100 * era + yoe / 4)%Z as -> by (Z.to_euclidean_division_equations; lia).
  assert (y' / 100 = 4 * era + yoe / 100)%Z as -> by (Z.to_euclidean_division_equations; lia). lia.
Qed.

(** *** The reference calendar *)

Definition leap (y : N) : bool := (y mod 4 =? 0) && (negb (y mod 100 =? 0) || (y mod 400 =? 0)).
Definition year_days (y : N) : N := if leap y then 366 else 365.
Definition month_days (y m : N) : N :=
  if m =? 2 then (if leap y then 29 else 28)
  else if (m =? 4) || (m =? 6) || (m =? 9) || (m =? 11) then 30 else 31.

(** Days from 1 January 1970 to 1 January of [y], to the first of a month of [y], to a day. *)
Definition days_to_year (y : N) : N := sum_by year_days (range 1970 y).
Definition days_to_month (y m : N) : N := sum_by (month_days y) (range 1 m).
Definition calendar_days (y m d : N) : N := days_to_year y + days_to_month y m + (d - 1).

(** The days of the years from 1970 on, in closed form. *)
Definition closed_year (y : Z) : Z := (365 * (y - 1) + (y - 1) / 4 - (y - 1) / 100 + (y - 1) / 400 - 719162)%Z.

Lemma year_days_closed y : 1970 <= y -> Z.of_N (year_days y) = (closed_year (Z.of_N y + 1) - closed_year (Z.of_N y))%Z.
Proof.
  intros Hy. unfold year_days, leap, closed_year.
  destruct (y mod 4 =? 0) eqn:E4; [apply N.eqb_eq in E4|apply N.eqb_neq in E4];
    destruct (y mod 100 =? 0) eqn:E100; [apply N.eqb_eq in E100|apply N.eqb_neq in E100|apply N.eqb_eq in E100|apply N.eqb_neq in E100];
    destruct (y mod 400 =? 0) eqn:E400; [apply N.eqb_eq in E400|apply N.eqb_neq in E400|apply N.eqb_eq in E400|apply N.eqb_neq in E400
      |apply N.eqb_eq in E400|apply N.eqb_neq in E400|apply N.eqb_eq in E400|apply N.eqb_neq in E400];
    cbn [negb orb andb]; zify; Z.to_euclidean_division_equations; lia.
Qed.

Lemma range_snoc a b : a <= b -> range a (b + 1) = range a b ++ [b].
Proof.
  intros Hab. unfold range. replace (N.to_nat (b + 1 - a)) with (N.to_nat (b - a) + 1)%nat by lia.
  rewrite seq_app, fmap_app. cbn. f_equal. f_equal. lia.
Qed.
Lemma days_to_year_closed y : 1970 <= y -> Z.of_N (days_to_year y) = closed_year (Z.of_N y).
Proof.
  intros Hy. replace y with (1970 + (y - 1970)) by lia. generalize (y - 1970). clear y Hy. intros k.
  induction k as [|k IH] using N.peano_ind; [done|].
  replace (1970 + N.succ k) with (1970 + k + 1) by lia. unfold days_to_year in *. rewrite range_snoc, sum_by_app by lia.
  cbn [sum_by]. rewrite N.add_0_r, N2Z.inj_add, IH, year_days_closed by lia. rewrite (N2Z.inj_add (1970 + k) 1). change (Z.of_N 1) with 1%Z. lia.
Qed.

(** The month's offset in the year, against the closed form that counts from March. *)
Lemma month_offset y m : 1 <= m <= 12 ->
  Z.of_N (days_to_month y m) =
    if m <=? 2 then (doy_of m 1 - 306)%Z else (doy_of m 1 - 306 + Z.of_N (year_days y))%Z.
Proof.
  intros Hm. assert (m ∈ range 1 13) as Hin by (apply elem_of_range; lia).
  unfold days_to_month, year_days.
  change (range 1 13) with [1; 2; 3; 4; 5; 6; 7; 8; 9; 10; 11; 12] in Hin. rewrite !elem_of_cons, elem_of_nil in Hin.
  destruct Hin as [->|[->|[->|[->|[->|[->|[->|[->|[->|[->|[->|[->|[]]]]]]]]]]]]]; unfold month_days;
    destruct (leap y); reflexivity.
Qed.

(** For every date of the Gregorian calendar from 1970 on, the day number the [Date] header's
    parser computes is the number of days counted year by year and month by month. *)
Theorem date_days_are_calendar_days y m d :
  1970 <= y -> (Z.of_N y <= 2 ^ 40)%Z -> 1 <= m <= 12 -> 1 <= d <= month_days y m ->
  days_from_civil (Z.of_N y) m d = Some (Z.of_N (calendar_days y m d)).
Proof.
  intros Hy Hmax Hm Hd. assert (d <= 31) as Hd31.
  { unfold month_days in Hd. destruct (m =? 2), (leap y), ((m =? 4) || (m =? 6) || (m =? 9) || (m =? 11)); lia. }
  rewrite days_from_civil_closed by lia. cbv zeta.
  assert (doy_of m d = doy_of m 1 + Z.of_N d - 1)%Z as Hdoy by (unfold doy_of; lia).
  set (y' := if m <=? 2 then (Z.of_N y - 1)%Z else Z.of_N y).
  enough ((365 * y' + y' / 4 - y' / 100 + y' / 400 + doy_of m d - 719468)%Z = Z.of_N (calendar_days y m d)) as ->.
  { by rewrite (proj2 (Z.ltb_ge _ _)) by lia. }
  unfold calendar_days. rewrite !N2Z.inj_add, days_to_year_closed, month_offset, Hdoy by lia.
  rewrite N2Z.inj_sub by lia. subst y'. destruct (m <=? 2).
  - unfold closed_year. lia.
  - rewrite year_days_closed by lia. unfold closed_year. replace (Z.of_N y + 1 - 1)%Z with (Z.of_N y) by lia. lia.
Qed.

(** *** From days to dates *)

Lemma year_of_era doe :
  doe < 146097 ->
  let yoe := (doe - doe / 1460 + doe / 36524 - doe / 146096) / 365 in
  yoe < 400 /\ 365 * yoe + yoe / 4 - yoe / 100 <= doe /\ doe - (365 * yoe + yoe / 4 - yoe / 100) <= 365.
Proof.
  intros Hdoe. cbv zeta. set (yoe := (doe - doe / 1460 + doe / 36524 - doe / 146096) / 365).
  assert (yoe < 400) as Hy. { subst yoe. zify. Z.to_euclidean_division_equations. lia. }
  split; [done|]. split; subst yoe; zify; Z.to_euclidean_division_equations; lia.
Qed.

Lemma month_of_year doy :
  doy <= 365 -> let mp := (5 * doy + 2) / 153 in
  mp <= 11 /\ (153 * mp + 2) / 5 <= doy /\ doy - (153 * mp + 2) / 5 <= 30.
Proof.
  intros Hdoy. cbv zeta.
  assert (forallb (fun doy => ((5 * doy + 2) / 153 <=? 11) && ((153 * ((5 * doy + 2) / 153) + 2) / 5 <=? doy)
    && (doy - (153 * ((5 * doy + 2) / 153) + 2) / 5 <=? 30)) (range 0 366) = true) as Hall by by vm_compute.
  rewrite forallb_forall in Hall. specialize (Hall doy). rewrite !andb_true_iff, !N.leb_le in Hall.
  destruct Hall as [[? ?] ?]; [|done]. apply list_elem_of_In, elem_of_range. lia.
Qed.

(** The date the writer computes for a day is that day's. *)
Lemma civil_from_days_inv days y m d :
  civil_from_days days = (y, m, d) ->
  1 <= m <= 12 /\ 1 <= d <= 31 /\ 1970 <= y /\ (Z.of_N y * 365 <= Z.of_N days + 719468 + 365)%Z /\
  ((Z.of_N y <= 2 ^ 40)%Z -> days_from_civil (Z.of_N y) m d = Some (Z.of_N days)).
Proof.
  unfold civil_from_days. set (z := days + 719468). set (era := z / 146097).
  pose proof (N.div_mod z 146097 ltac:(lia)) as Hdm. pose proof (N.mod_lt z 146097 ltac:(lia)) as Hlt. fold era in Hdm.
  rewrite (N.mul_comm era 146097), <- N.Div0.mod_eq by done. set (doe := z mod 146097) in *.
  pose proof (year_of_era doe Hlt) as Hyr. cbv zeta in Hyr. set (yoe := (doe - doe / 1460 + doe / 36524 - doe / 146096) / 365) in *.
  destruct Hyr as (Hy & Hstart & Hdoy). set (doy := doe - (365 * yoe + yoe / 4 - yoe / 100)) in *.
  pose proof (month_of_year doy Hdoy) as Hmo. cbv zeta in Hmo. set (mp := (5 * doy + 2) / 153) in *.
  destruct Hmo as (Hmp & Hoff & Hday).
  set (mm := if mp <? 10 then mp + 3 else mp - 9).
  assert (1 <= mm <= 12 /\ (mm <= 2 <-> 10 <= mp) /\ (if 2 <? mm then mm - 3 else mm + 9) = mp) as (Hmm & Hm2 & Hback).
  { subst mm. destruct (mp <? 10) eqn:E; [apply N.ltb_lt in E|apply N.ltb_ge in E].
    - rewrite (proj2 (N.ltb_lt 2 (mp + 3))) by lia. lia.
    - rewrite (proj2 (N.ltb_ge 2 (mp - 9))) by lia. lia. }
  assert (doe = 365 * yoe + yoe / 4 - yoe / 100 + doy) as Hdoe by (subst doy; lia).
  assert (306 <= doy -> 10 <= mp) as Hjan by (intros ?; subst mp; apply N.div_le_lower_bound; lia).
  assert (719468 <= z) as Hz by (subst z; lia). assert (z = days + 719468) as Hzd by done.
  clearbody mm mp doy yoe doe era z. set (y0 := yoe + era * 400). set (yy := if mm <=? 2 then y0 + 1 else y0).
  intros [= <- <- <-]. fold yy.
  assert (1970 <= yy) as H1970.
  { subst yy y0. destruct (mm <=? 2) eqn:E; [apply N.leb_le in E|apply N.leb_gt in E]; zify; Z.to_euclidean_division_equations; lia. }
  split; [done|]. split; [lia|]. split; [done|]. split.
  { subst yy y0. destruct (mm <=? 2); zify; Z.to_euclidean_division_equations; lia. }
  intros Hmax. rewrite days_from_civil_closed; [|lia|lia|lia]. cbv zeta.
  assert ((if mm <=? 2 then (Z.of_N yy - 1)%Z else Z.of_N yy) = Z.of_N y0) as -> by (subst yy; destruct (mm <=? 2); lia).
  assert (doy_of mm (doy - (153 * mp + 2) / 5 + 1) = Z.of_N doy) as ->.
  { unfold doy_of. rewrite Hback. rewrite N2Z.inj_add, N2Z.inj_sub, N2Z.inj_div, N2Z.inj_add, N2Z.inj_mul by lia. lia. }
  enough ((365 * Z.of_N y0 + Z.of_N y0 / 4 - Z.of_N y0 / 100 + Z.of_N y0 / 400 + Z.of_N doy - 719468)%Z = Z.of_N days) as ->
    by (by rewrite (proj2 (Z.ltb_ge _ _)) by lia).
  subst y0. zify. Z.to_euclidean_division_equations. lia.
Qed.

(** *** Round trip *)

Lemma pad2_digits n : all_digits (pad2 n) /\ pad2 n <> EmptyString.
Proof.
  unfold pad2. destruct (n <? 10); [|split; [apply all_digits_pretty|apply pretty_nonempty]].
  split; [|done]. split; [by exists 0|apply all_digits_pretty].
Qed.
Lemma parse_pad2 max n : n <= max -> parse_digits max 0 (pad2 n) = Some n.
Proof.
  intros Hn. unfold pad2. destruct (n <? 10); [|by apply parse_digits_pretty].
  change ("0" +:+ pretty n) with (String "0" (pretty n)). rewrite parse_digits_zero. by apply parse_digits_pretty.
Qed.
Lemma pad4_digits n : all_digits (pad4 n) /\ pad4 n <> EmptyString.
Proof.
  assert (exists k, k < 10 /\ "0"%char = pretty_N_char k) as Hz by by exists 0.
  unfold pad4. destruct (n <? 10); [|destruct (n <? 100); [|destruct (n <? 1000)]];
    (split; [|done || apply pretty_nonempty]); try apply all_digits_pretty; repeat (split; [done|]); apply all_digits_pretty.
Qed.
Lemma parse_pad4 max n : n <= max -> parse_digits max 0 (pad4 n) = Some n.
Proof.
  intros Hn. unfold pad4. destruct (n <? 10); [|destruct (n <? 100); [|destruct (n <? 1000)]];
    repeat (rewrite append_cons, parse_digits_zero); try change (EmptyString +:+ pretty n) with (pretty n); by apply parse_digits_pretty.
Qed.

Lemma day_name_shape dow : exists a b c, day_name dow = String a (String b (String c EmptyString)) /\ plain a /\
  a <> ","%char /\ b <> ","%char /\ c <> ","%char.
Proof.
  destruct dow as [|[[[]|[]|]|[[]|[]|]|]]; cbn; do 3 eexists; (split; [reflexivity|]); by vm_compute.
Qed.
Lemma month_name_shape m : 1 <= m <= 12 -> all_plain (month_name m) /\ month_name m <> EmptyString /\ month_number (month_name m) = Some m.
Proof.
  intros Hm. assert (m ∈ range 1 13) as Hin by (apply elem_of_range; lia).
  change (range 1 13) with [1; 2; 3; 4; 5; 6; 7; 8; 9; 10; 11; 12] in Hin. rewrite !elem_of_cons, elem_of_nil in Hin.
  destruct Hin as [->|[->|[->|[->|[->|[->|[->|[->|[->|[->|[->|[->|[]]]]]]]]]]]]]; by vm_compute.
Qed.

Lemma split_day_name dow rest : split_once_str ", " (day_name dow +:+ ", " +:+ rest) = Some (day_name dow, rest).
Proof.
  destruct (day_name_shape dow) as (a & b & c & -> & _ & Ha & Hb & Hc). unfold split_once_str.
  change (String a (String b (String c "")) +:+ ", " +:+ rest) with (String a (String b (String c (String "," (String " " rest))))).
  assert (forall x s, x <> ","%char -> String.prefix ", " (String x s) = false) as Hpre.
  { intros x s Hx. cbn [String.prefix]. destruct (ascii_dec "," x); [by destruct Hx|done]. }
  assert (forall x s, x <> ","%char -> String.index 0 ", " (String x s) = option_map S (String.index 0 ", " s)) as Hidx.
  { intros x s Hx. cbn [String.index]. rewrite Hpre by done. by destruct (String.index 0 ", " s). }
  rewrite !Hidx by done.
  assert (String.index 0 ", " (String "," (String " " rest)) = Some 0%nat) as -> by by destruct rest.
  cbn [option_map]. cbn [String.length Nat.add Nat.sub String.substring].
  rewrite Nat.sub_0_r, substring_all. by destruct rest.
Qed.

Lemma date_fields_written day mo year h m s :
  day <= u32_max -> year <= i64_max -> h <= u64_max -> m <= u64_max -> s <= u64_max -> all_plain mo -> mo <> EmptyString ->
  date_fields (split_whitespace (pad2 day +:+ " " +:+ mo +:+ " " +:+ pad4 year +:+ " " +:+ pad2 h +:+ ":" +:+ pad2 m +:+ ":" +:+ pad2 s))
    = Some (day, mo, Z.of_N year, h, m, s).
Proof.
  intros Hd Hy Hh Hm Hs Hmo Hmo'.
  destruct (pad2_digits day) as [Dd Nd]. destruct (pad4_digits year) as [Dy Ny]. destruct (pad2_digits h) as [Dh Nh].
  destruct (pad2_digits m) as [Dm Nm]. destruct (pad2_digits s) as [Ds Ns].
  rewrite split_whitespace_cons by (try apply all_digits_plain; done).
  rewrite split_whitespace_cons by done.
  rewrite split_whitespace_cons by (try apply all_digits_plain; done).
  rewrite split_whitespace_word.
  2: { destruct (pad2 h); done. }
  2: { repeat apply all_plain_app; try (by apply all_digits_plain); by vm_compute. }
  unfold date_fields. rewrite parse_unsigned_digits, parse_pad2 by done. cbn [mbind option_bind].
  rewrite parse_i64_digits, parse_pad4 by done. cbn [fmap option_fmap option_map mbind option_bind].
  change (pad2 h +:+ ":" +:+ pad2 m +:+ ":" +:+ pad2 s) with (pad2 h +:+ String ":" (pad2 m +:+ String ":" (pad2 s))).
  rewrite split_app by by apply all_digits_lacks. rewrite split_app by by apply all_digits_lacks.
  rewrite split_whole by by apply all_digits_lacks. cbn [fst snd].
  by rewrite !parse_unsigned_digits, !parse_pad2 by done.
Qed.

(** The [Date] header written for any time up to the range of [SystemTime] is read back as that time. *)
Theorem http_date_round_trip secs :
  secs <= i64_max -> parse_imf_fixdate (format_imf_fixdate secs) = DateSecs secs.
Proof.
  intros Hsecs. unfold format_imf_fixdate. set (days := secs / 86400). set (sod := secs mod 86400).
  pose proof (N.div_mod secs 86400 ltac:(lia)) as Hdm. pose proof (N.mod_lt secs 86400 ltac:(lia)) as Hlt.
  fold days sod in Hdm, Hlt. destruct (civil_from_days days) as [[year month] day] eqn:Hciv.
  apply civil_from_days_inv in Hciv as (Hm & Hd & Hy & Hbound & Hdays).
  unfold i64_max in *. assert (Z.of_N year <= 2 ^ 40)%Z as Hmax by lia. specialize (Hdays Hmax).
  destruct (month_name_shape month Hm) as (Hplain & Hmne & Hmn).
  set (body := pad2 day +:+ " " +:+ month_name month +:+ " " +:+ pad4 year +:+ " " +:+ pad2 (sod / 3600) +:+ ":"
               +:+ pad2 (sod mod 3600 / 60) +:+ ":" +:+ pad2 (sod mod 60)).
  assert (day_name ((days + 4) mod 7) +:+ ", " +:+ pad2 day +:+ " " +:+ month_name month +:+ " " +:+ pad4 year +:+ " "
    +:+ pad2 (sod / 3600) +:+ ":" +:+ pad2 (sod mod 3600 / 60) +:+ ":" +:+ pad2 (sod mod 60) +:+ " GMT"
    = (day_name ((days + 4) mod 7) +:+ ", " +:+ body) +:+ " GMT") as -> by (subst body; by rewrite !append_assoc).
  unfold parse_imf_fixdate. destruct (day_name_shape ((days + 4) mod 7)) as (a & b & c & Hname & Ha & _).
  assert (trim ((day_name ((days + 4) mod 7) +:+ ", " +:+ body) +:+ " GMT") =
          (day_name ((days + 4) mod 7) +:+ ", " +:+ body) +:+ " GMT") as ->.
  { rewrite Hname. change (String a (String b (String c "")) +:+ ", " +:+ body) with (String a (String b (String c "") +:+ ", " +:+ body)).
    change " GMT"%string with (" GM" +:+ "T"). rewrite <- append_assoc.
    rewrite append_cons. apply trim_plain_ends; [done|by vm_compute]. }
  unfold strip_zone. rewrite strip_suffix_app. cbn [mbind option_bind]. rewrite split_day_name. cbn [mbind option_bind].
  subst body. rewrite date_fields_written; try done; unfold u32_max, u64_max, i64_max; try (zify; Z.to_euclidean_division_equations; lia).
  cbn [mbind option_bind]. rewrite Hmn. cbn [mbind option_bind]. rewrite Hdays. cbn [mbind option_bind].
  assert (wrap_u64 (wrap_u64 (Z.of_N days * 86400) + Z.of_N (sod / 3600) * 3600 + Z.of_N (sod mod 3600 / 60) * 60 + Z.of_N (sod mod 60))
    = Z.of_N secs) as ->.
  { rewrite (wrap_u64_small (Z.of_N days * 86400)) by lia. rewrite wrap_u64_small; zify; Z.to_euclidean_division_equations; lia. }
  rewrite (proj2 (Z.ltb_ge _ _)) by lia. by rewrite N2Z.id.
Qed.

Lemma http_date_round_trip_witness :
  784111777 <= i64_max /\ parse_imf_fixdate (format_imf_fixdate 784111777) = DateSecs 784111777.
Proof.
  assert (784111777 <= i64_max) as Hle by by vm_compute. split; [exact Hle|]. apply (http_date_round_trip 784111777 Hle).
Defined.
Lemma date_days_are_calendar_days_witness :
  days_from_civil 2024 2 29 = Some (Z.of_N (calendar_days 2024 2 29)) /\ calendar_days 2024 2 29 = 19782.
Proof.
  split; [|by vm_compute]. apply (date_days_are_calendar_days 2024 2 29); by vm_compute.
Defined.
