(* ===== verification/RelayHttp.v ===== *)
(** * HTTP to relays

    Models [crates/fetchit-fedi/src/ssrf.rs], the gate against private addresses,
    and [crates/fetchit-chat/src/relay_http.rs], the guarded, capped and retried
    requests every client call to a relay goes through.  Name resolution, the
    answers of [reqwest] and the chunks of a body are arguments. *)
From stdpp Require Import pretty.
From S2P Require Import Prelude SendState RelayProto RelayAuth PairRecord.
Open Scope rust_scope.

(** ** Addresses *)

(** [std::net]: an IPv4 address is its octets, an IPv6 address its segments. *)
Record Ipv4Addr := mkV4 { o0 : N; o1 : N; o2 : N; o3 : N }.
Record Ipv6Addr := mkV6 { s0 : N; s1 : N; s2 : N; s3 : N; s4 : N; s5 : N; s6 : N; s7 : N }.

Inductive IpAddr := V4 (a : Ipv4Addr) | V6 (a : Ipv6Addr).

Module Std.
Definition is_private (a : Ipv4Addr) : bool :=
  (o0 a =? 10) || ((o0 a =? 172) && (16 <=? o1 a) && (o1 a <=? 31))
  || ((o0 a =? 192) && (o1 a =? 168)).
Definition v4_is_loopback (a : Ipv4Addr) : bool := o0 a =? 127.
Definition is_link_local (a : Ipv4Addr) : bool := (o0 a =? 169) && (o1 a =? 254).
Definition v4_is_multicast (a : Ipv4Addr) : bool := (224 <=? o0 a) && (o0 a <=? 239).
Definition is_broadcast (a : Ipv4Addr) : bool :=
  (o0 a =? 255) && (o1 a =? 255) && (o2 a =? 255) && (o3 a =? 255).
Definition v4_is_unspecified (a : Ipv4Addr) : bool :=
  (o0 a =? 0) && (o1 a =? 0) && (o2 a =? 0) && (o3 a =? 0).

(** The first seven segments are zero. *)
Definition high_zero (a : Ipv6Addr) : bool :=
  (s0 a =? 0) && (s1 a =? 0) && (s2 a =? 0) && (s3 a =? 0) && (s4 a =? 0) && (s5 a =? 0) && (s6 a =? 0).
Definition v6_is_loopback (a : Ipv6Addr) : bool := high_zero a && (s7 a =? 1).
Definition v6_is_unspecified (a : Ipv6Addr) : bool := high_zero a && (s7 a =? 0).
Definition v6_is_multicast (a : Ipv6Addr) : bool := N.shiftr (s0 a) 8 =? 0xff.
Definition to_ipv4_mapped (a : Ipv6Addr) : option Ipv4Addr :=
  if (s0 a =? 0) && (s1 a =? 0) && (s2 a =? 0) && (s3 a =? 0) && (s4 a =? 0) && (s5 a =? 0xffff)
  then Some (mkV4 (N.shiftr (s6 a) 8) (N.land (s6 a) 255) (N.shiftr (s7 a) 8) (N.land (s7 a) 255))
  else None.
End Std.
Import Std.

(** The [Display] of the two address types. *)
Class IpDisplay := { v4_to_string : Ipv4Addr -> string; v6_to_string : Ipv6Addr -> string }.

(** ** [ssrf.rs] *)

Inductive SsrfError := Resolve (why : string) | PrivateAddress (host : string).

Definition is_private_v4 (v4 : Ipv4Addr) : bool :=
  is_private v4 || v4_is_loopback v4 || is_link_local v4 || v4_is_multicast v4 || is_broadcast v4
  || v4_is_unspecified v4 || ((o0 v4 =? 100) && (N.land (o1 v4) 0xc0 =? 64)).

(** [url::Host]. *)
Inductive Host := Domain (name : string) | HostV4 (a : Ipv4Addr) | HostV6 (a : Ipv6Addr).

Section gate.
  Context `{IpDisplay}.

(** What both twins answer for an IPv6 address. *)
Definition private_v6_reason (v6 : Ipv6Addr) : option string :=
  if v6_is_loopback v6 || v6_is_unspecified v6 || v6_is_multicast v6
  then Some ("non-routable IPv6 " +:+ v6_to_string v6)
  else if match to_ipv4_mapped v6 with Some v4 => is_private_v4 v4 | None => false end
  then Some ("IPv4-mapped private IPv6 " +:+ v6_to_string v6)
  else if N.land (s0 v6) 0xfe00 =? 0xfc00 then Some ("unique-local IPv6 " +:+ v6_to_string v6)
  else if N.land (s0 v6) 0xffc0 =? 0xfe80 then Some ("link-local IPv6 " +:+ v6_to_string v6)
  else None.

Definition is_private_ip_addr (ip : IpAddr) : option string :=
  match ip with
  | V4 v4 => if is_private_v4 v4 then Some ("private/non-routable IPv4 " +:+ v4_to_string v4) else None
  | V6 v6 => private_v6_reason v6
  end.

Definition private_ip_reason (host : Host) : option string :=
  match host with
  | HostV4 ip => if is_private_v4 ip then Some ("private/non-routable IPv4 " +:+ v4_to_string ip) else None
  | HostV6 ip => private_v6_reason ip
  | Domain _ => None
  end.

(** The loop over the resolved addresses. *)
Fixpoint check_addrs (addrs : list IpAddr) : result unit SsrfError :=
  match addrs with
  | [] => Ok tt
  | a :: rest => match is_private_ip_addr a with
                 | Some reason => Err (PrivateAddress reason)
                 | None => check_addrs rest
                 end
  end.

(** [lookup] is what [lookup_host] answers for the name and port. *)
Definition resolve_and_pin_host (host : string) (lookup : result (list IpAddr) string)
    : result (list IpAddr) SsrfError :=
  match lookup with
  | Err e => Err (Resolve ("lookup_host(" +:+ host +:+ "): " +:+ e))
  | Ok [] => Err (Resolve ("lookup_host(" +:+ host +:+ "): empty result"))
  | Ok addrs => let? _ := check_addrs addrs in Ok addrs
  end.
End gate.

(** ** [relay_http.rs] *)

Inductive RelayGuardError := MissingHost | PrivateHost (why : string) | ResolveFailed (why : string).

(** What the guard reads of a relay URL, and the resolver. *)
Class RelayNet := {
  url_host : Url -> option Host;
  url_port_or_known_default : Url -> option N;
  lookup_host : string -> N -> result (list IpAddr) string;
}.

Definition guard_relay_url_with `{IpDisplay, RelayNet} (relay : Url) (allow_local : bool)
    : result unit RelayGuardError :=
  if allow_local then Ok tt
  else match url_host relay with
       | None => Err MissingHost
       | Some (Domain name) =>
           let port := default 443 (url_port_or_known_default relay) in
           match resolve_and_pin_host name (lookup_host name port) with
           | Ok _ => Ok tt
           | Err (PrivateAddress h) => Err (PrivateHost h)
           | Err (Resolve e) => Err (ResolveFailed e)
           end
       | Some host => match private_ip_reason host with
                      | Some reason => Err (PrivateHost reason)
                      | None => Ok tt
                      end
       end.

(** A response: its status, its declared length and the chunks [reqwest] yields,
    up to the end or the first error. *)
Record Response := {
  rp_status : N;
  rp_content_length : option N;
  rp_chunks : list (result bytes string);
}.

Definition is_success (r : Response) : bool := (200 <=? rp_status r) && (rp_status r <? 300).

Inductive BodyReadError := CapExceeded | ReadError (why : string).

Fixpoint read_chunks (cap : N) (buf : bytes) (chunks : list (result bytes string))
    : result bytes BodyReadError :=
  match chunks with
  | [] => Ok buf
  | Err e :: _ => Err (ReadError e)
  | Ok chunk :: rest =>
      if cap <? len buf + len chunk then Err CapExceeded else read_chunks cap (buf ++ chunk) rest
  end.

Definition read_body_capped (resp : Response) (cap : N) : result bytes BodyReadError :=
  if match rp_content_length resp with Some n => cap <? n | None => false end
  then Err CapExceeded
  else read_chunks cap [] (rp_chunks resp).

(** A failed request, and [is_transient] of it. *)
Record SendError := { se_timeout : bool; se_connect : bool; se_request : bool; se_why : string }.
Definition is_transient (e : SendError) : bool := se_timeout e || se_connect e || se_request e.

Definition MAX_ATTEMPTS : N := 3.

(** [sends] answers the first, second, ... request; the answer comes with the
    number of requests sent and the time slept between them.  [fuel] bounds the
    attempts and is [MAX_ATTEMPTS] at the call. *)
Fixpoint retry_loop (fuel : nat) (sends : nat -> result Response SendError) (attempt backoff slept : N)
    : result Response SendError * N * N :=
  match sends (N.to_nat (attempt - 1)), fuel with
  | Ok resp, _ => (Ok resp, attempt, slept)
  | Err e, S fuel =>
      if (attempt <? MAX_ATTEMPTS) && is_transient e
      then retry_loop fuel sends (attempt + 1) (saturating_mul u64_max backoff 2) (slept + backoff)
      else (Err e, attempt, slept)
  | Err e, O => (Err e, attempt, slept)
  end.

Definition relay_send_with_retry (sends : nat -> result Response SendError)
    : result Response SendError * N * N :=
  retry_loop (N.to_nat MAX_ATTEMPTS) sends 1 400 0.

(** *** Requests *)

(** [ProfileIndexRecord] of [pair.rs]. *)
Record ProfileIndexRecord := {
  pi_agent_id : string;
  pi_profile_addr : string;
  pi_kem_pubkey : string;
  pi_ml_dsa_pubkey : string;
  pi_issued_at_ms : N;
  pi_sig : string;
}.

Inductive RequestBody :=
| GetRequest
| PostPair (r : PairRecordV1)
| PostForwarding (r : ForwardingRecordV1)
| PostPairV4 (r : PairRecordV4)
| PostProfile (r : ProfileIndexRecord)
| PostSealed (b : bytes).

(** [Url::join], the relays on the other side (what the first, second, ... attempt at
    a request is answered, and the world after them), and whether this build lets
    local relays through. *)
Class RelayServer (W : Type) := {
  url_join : Url -> string -> result Url string;
  serve : Url -> RequestBody -> W -> (nat -> result Response SendError) * W;
  local_relays_allowed : bool;
}.

Inductive RequestError :=
| Blocked (e : RelayGuardError)
| BadUrl (why : string)
| HttpError (e : SendError).

(** The opening of every call: guard, build the URL, send with retries. *)
Definition relay_request {W} `{IpDisplay, RelayNet, RelayServer W} (relay : Url) (path : string)
    (body : RequestBody) (w : W) : result Response RequestError * W :=
  match guard_relay_url_with relay local_relays_allowed with
  | Err e => (Err (Blocked e), w)
  | Ok _ =>
      match url_join relay path with
      | Err e => (Err (BadUrl e), w)
      | Ok url =>
          let '(sends, w) := serve url body w in
          match relay_send_with_retry sends with
          | (Ok resp, _, _) => (Ok resp, w)
          | (Err e, _, _) => (Err (HttpError e), w)
          end
      end
  end.

Definition guard_display (e : RelayGuardError) : string :=
  match e with
  | MissingHost => "relay url has no host"
  | PrivateHost h => "relay host is private or non-routable: " +:+ h
  | ResolveFailed e => "relay host resolution failed: " +:+ e
  end.

(** How the calls that return [ChatError] convert it. *)
Definition request_error (e : RequestError) : ChatError :=
  match e with
  | Blocked e => Invalid ("relay blocked: " +:+ guard_display e)
  | BadUrl e => Invalid ("build relay url: " +:+ e)
  | HttpError e => Transport (se_why e)
  end.

Definition body_display (e : BodyReadError) : string :=
  match e with
  | CapExceeded => "relay body exceeds size cap"
  | ReadError e => "relay body read: " +:+ e
  end.

(** ** Facts *)

(** Masking the high bits of an [n]-bit number rounds it down. *)
Lemma land_high_mask (x n k : N) :
  x < 2 ^ n -> k <= n -> N.land x (N.shiftl (N.ones (n - k)) k) = 2 ^ k * (x / 2 ^ k).
Proof.
  intros Hx Hk. rewrite N.mul_comm, <- N.shiftr_div_pow2, <- N.shiftl_mul_pow2.
  apply N.bits_inj. intros i. rewrite N.land_spec.
  destruct (N.lt_ge_cases i k) as [Hi|Hi].
  { by rewrite !N.shiftl_spec_low, andb_false_r by done. }
  rewrite !N.shiftl_spec_high' by done. rewrite N.shiftr_spec', N.sub_add by done.
  destruct (N.lt_ge_cases i n) as [Hin|Hin].
  - by rewrite N.ones_spec_low, andb_true_r by lia.
  - rewrite N.ones_spec_high by lia. rewrite andb_false_r. symmetry.
    destruct (N.eq_dec x 0) as [->|Hz]; [apply N.bits_0|]. apply N.bits_above_log2.
    apply N.lt_le_trans with n; [|done]. apply N.log2_lt_pow2; [lia|done].
Qed.

(** Testing a mask on the high bits is an interval test. *)
Lemma high_mask_interval (x n k m : N) :
  x < 2 ^ n -> k <= n ->
  (N.land x (N.shiftl (N.ones (n - k)) k) =? 2 ^ k * m) = (2 ^ k * m <=? x) && (x <? 2 ^ k * m + 2 ^ k).
Proof.
  intros Hx Hk. rewrite land_high_mask by done.
  assert (0 < 2 ^ k) as Hp by (apply N.neq_0_lt_0, N.pow_nonzero; lia).
  pose proof (N.div_mod x (2 ^ k) ltac:(lia)) as Hd. pose proof (N.mod_lt x (2 ^ k) ltac:(lia)) as Hm.
  generalize dependent (x mod 2 ^ k). generalize dependent (x / 2 ^ k). generalize dependent (2 ^ k).
  intros P HP q r Hd Hr. destruct (N.eqb_spec (P * q) (P * m)) as [E|E]; symmetry.
  - apply andb_true_intro. split; [apply N.leb_le|apply N.ltb_lt]; lia.
  - destruct (N.leb_spec (P * m) x); [|done]. destruct (N.ltb_spec x (P * m + P)); [|done].
    exfalso. apply E. f_equal. nia.
Qed.

(** *** The gate as address ranges *)

Definition v4_wf (a : Ipv4Addr) : Prop := o0 a < 256 /\ o1 a < 256 /\ o2 a < 256 /\ o3 a < 256.
Definition v6_wf (a : Ipv6Addr) : Prop :=
  Forall (fun s => s < 65536) [s0 a; s1 a; s2 a; s3 a; s4 a; s5 a; s6 a; s7 a].
Definition ip_wf (a : IpAddr) : Prop := match a with V4 a => v4_wf a | V6 a => v6_wf a end.

Definition v4_num (a : Ipv4Addr) : N := 2 ^ 24 * o0 a + 2 ^ 16 * o1 a + 2 ^ 8 * o2 a + o3 a.
Definition v6_num (a : Ipv6Addr) : N :=
  2 ^ 112 * s0 a + 2 ^ 96 * s1 a + 2 ^ 80 * s2 a + 2 ^ 64 * s3 a + 2 ^ 48 * s4 a + 2 ^ 32 * s5 a
  + 2 ^ 16 * s6 a + s7 a.

(** [n] is in the block of [2^k] addresses from [base]. *)
Definition in_block (n : N) (b : N * N) : bool := (b.1 <=? n) && (n <? b.1 + 2 ^ b.2).

(** 10/8, 172.16/12, 192.168/16, 127/8, 169.254/16, 224/4, 255.255.255.255, 0.0.0.0,
    100.64/10. *)
Definition v4_blocks : list (N * N) :=
  [(2 ^ 24 * 10, 24); (2 ^ 24 * 172 + 2 ^ 16 * 16, 20); (2 ^ 24 * 192 + 2 ^ 16 * 168, 16);
   (2 ^ 24 * 127, 24); (2 ^ 24 * 169 + 2 ^ 16 * 254, 16); (2 ^ 24 * 224, 28); (2 ^ 32 - 1, 0); (0, 0);
   (2 ^ 24 * 100 + 2 ^ 16 * 64, 22)].
(** [::], [::1], [ff00::/8], [fc00::/7], [fe80::/10]. *)
Definition v6_blocks : list (N * N) :=
  [(0, 0); (1, 0); (2 ^ 112 * 0xff00, 120); (2 ^ 112 * 0xfc00, 121); (2 ^ 112 * 0xfe80, 118)].
(** [::ffff:0:0/96]. *)
Definition mapped_base : N := 2 ^ 32 * 0xffff.

Definition blocked (a : IpAddr) : bool :=
  match a with
  | V4 a => existsb (in_block (v4_num a)) v4_blocks
  | V6 a => existsb (in_block (v6_num a)) v6_blocks
            || (in_block (v6_num a) (mapped_base, 32)
                && existsb (in_block (v6_num a - mapped_base)) v4_blocks)
  end.

(** An interval test equals the test on the parts of the address. *)
Ltac block_test :=
  unfold in_block; cbn [fst snd];
  apply Bool.eq_iff_eq_true;
  rewrite ?orb_true_iff, ?andb_true_iff, ?N.eqb_eq, ?N.leb_le, ?N.ltb_lt; lia.

Lemma private_v4_blocks a : v4_wf a -> is_private_v4 a = existsb (in_block (v4_num a)) v4_blocks.
Proof.
  intros (H0 & H1 & H2 & H3). unfold is_private_v4.
  rewrite (high_mask_interval (o1 a) 8 6 1 H1 ltac:(lia) : (N.land (o1 a) 0xc0 =? 64) = _).
  unfold is_private, v4_is_loopback, is_link_local, v4_is_multicast, is_broadcast, v4_is_unspecified.
  destruct a as [a b c d]; cbn [o0 o1 o2 o3] in *. unfold v4_blocks, existsb.
  set (n := v4_num (mkV4 a b c d)). unfold v4_num in n; cbn [o0 o1 o2 o3] in n.
  assert (in_block n (2 ^ 24 * 10, 24) = (a =? 10)) as -> by block_test.
  assert (in_block n (2 ^ 24 * 172 + 2 ^ 16 * 16, 20) = (a =? 172) && (16 <=? b) && (b <=? 31)) as ->
    by block_test.
  assert (in_block n (2 ^ 24 * 192 + 2 ^ 16 * 168, 16) = (a =? 192) && (b =? 168)) as -> by block_test.
  assert (in_block n (2 ^ 24 * 127, 24) = (a =? 127)) as -> by block_test.
  assert (in_block n (2 ^ 24 * 169 + 2 ^ 16 * 254, 16) = (a =? 169) && (b =? 254)) as -> by block_test.
  assert (in_block n (2 ^ 24 * 224, 28) = (224 <=? a) && (a <=? 239)) as -> by block_test.
  assert (in_block n (2 ^ 32 - 1, 0) = (a =? 255) && (b =? 255) && (c =? 255) && (d =? 255)) as ->
    by block_test.
  assert (in_block n (0, 0) = (a =? 0) && (b =? 0) && (c =? 0) && (d =? 0)) as -> by block_test.
  assert (in_block n (2 ^ 24 * 100 + 2 ^ 16 * 64, 22) = (a =? 100) && ((2 ^ 6 * 1 <=? b) && (b <? 2 ^ 6 * 1 + 2 ^ 6)))
    as -> by block_test.
  by rewrite !orb_assoc, !orb_false_r.
Qed.

Lemma two_octets (s : N) :
  s < 65536 -> N.shiftr s 8 < 256 /\ N.land s 255 < 256 /\ s = 256 * N.shiftr s 8 + N.land s 255.
Proof.
  intros Hs. change 255 with (N.ones 8). rewrite N.land_ones, N.shiftr_div_pow2.
  change (2 ^ 8) with 256. pose proof (N.div_mod s 256 ltac:(lia)). pose proof (N.mod_lt s 256 ltac:(lia)).
  pose proof (N.Div0.div_lt_upper_bound s 256 256 ltac:(lia)). lia.
Qed.

Lemma mapped_num a v4 :
  v6_wf a -> to_ipv4_mapped a = Some v4 ->
  v4_wf v4 /\ in_block (v6_num a) (mapped_base, 32) = true /\ v6_num a - mapped_base = v4_num v4.
Proof.
  unfold v6_wf. rewrite !Forall_cons. intros (H0 & H1 & H2 & H3 & H4 & H5 & H6 & H7 & _).
  unfold to_ipv4_mapped. destruct (_ && _) eqn:E; [|done]. intros [= <-].
  rewrite !andb_true_iff, !N.eqb_eq in E. destruct E as [[[[[E0 E1] E2] E3] E4] E5].
  destruct (two_octets _ H6) as (? & ? & Hs6). destruct (two_octets _ H7) as (? & ? & Hs7).
  split; [done|]. unfold v6_num, mapped_base, v4_num, in_block. cbn [o0 o1 o2 o3 fst snd].
  rewrite E0, E1, E2, E3, E4, E5. split; [|lia].
  apply andb_true_intro. rewrite N.leb_le, N.ltb_lt. lia.
Qed.

Lemma unmapped_num a :
  v6_wf a -> to_ipv4_mapped a = None -> in_block (v6_num a) (mapped_base, 32) = false.
Proof.
  unfold v6_wf. rewrite !Forall_cons. intros (H0 & H1 & H2 & H3 & H4 & H5 & H6 & H7 & _).
  unfold to_ipv4_mapped. destruct (_ && _) eqn:E; [done|]. intros _.
  apply not_true_iff_false. rewrite <- not_true_iff_false in E. intros Hb. apply E.
  unfold in_block in Hb. rewrite andb_true_iff, N.leb_le, N.ltb_lt in Hb. cbn [fst snd] in Hb.
  unfold v6_num, mapped_base in Hb. rewrite !andb_true_iff, !N.eqb_eq. lia.
Qed.

Lemma private_v6_blocks `{IpDisplay} a :
  v6_wf a -> is_some (private_v6_reason a) = blocked (V6 a).
Proof.
  intros Hwf. pose proof Hwf as Hwf'. unfold v6_wf in Hwf. rewrite !Forall_cons in Hwf.
  destruct Hwf as (H0 & H1 & H2 & H3 & H4 & H5 & H6 & H7 & _). unfold private_v6_reason, blocked.
  rewrite (high_mask_interval (s0 a) 16 9 126 H0 ltac:(lia) : (N.land (s0 a) 0xfe00 =? 0xfc00) = _).
  rewrite (high_mask_interval (s0 a) 16 6 1018 H0 ltac:(lia) : (N.land (s0 a) 0xffc0 =? 0xfe80) = _).
  assert ((match to_ipv4_mapped a with Some v4 => is_private_v4 v4 | None => false end)
    = in_block (v6_num a) (mapped_base, 32) && existsb (in_block (v6_num a - mapped_base)) v4_blocks) as ->.
  { destruct (to_ipv4_mapped a) as [v4|] eqn:Em; [|by rewrite unmapped_num].
    destruct (mapped_num _ _ Hwf' Em) as (Hv & -> & ->). by rewrite private_v4_blocks. }
  assert (v6_is_multicast a = in_block (v6_num a) (2 ^ 112 * 0xff00, 120)) as ->.
  { unfold v6_is_multicast. rewrite N.shiftr_div_pow2. change (2 ^ 8) with 256.
    pose proof (N.div_mod (s0 a) 256 ltac:(lia)). pose proof (N.mod_lt (s0 a) 256 ltac:(lia)).
    unfold v6_num. generalize dependent (s0 a / 256). generalize dependent (s0 a mod 256).
    intros r Hr q Hq. block_test. }
  assert (v6_is_loopback a = in_block (v6_num a) (1, 0)) as ->.
  { unfold v6_is_loopback, high_zero, v6_num. block_test. }
  assert (v6_is_unspecified a = in_block (v6_num a) (0, 0)) as ->.
  { unfold v6_is_unspecified, high_zero, v6_num. block_test. }
  assert ((2 ^ 9 * 126 <=? s0 a) && (s0 a <? 2 ^ 9 * 126 + 2 ^ 9)
    = in_block (v6_num a) (2 ^ 112 * 0xfc00, 121)) as -> by (unfold v6_num; block_test).
  assert ((2 ^ 6 * 1018 <=? s0 a) && (s0 a <? 2 ^ 6 * 1018 + 2 ^ 6)
    = in_block (v6_num a) (2 ^ 112 * 0xfe80, 118)) as -> by (unfold v6_num; block_test).
  unfold v6_blocks. cbn [existsb].
  destruct (in_block _ (0, 0)), (in_block _ (1, 0)), (in_block _ (2 ^ 112 * 0xff00, 120)); try done.
  cbn [orb]. destruct (_ && existsb _ _); [by rewrite orb_true_r|].
  rewrite orb_false_r. by destruct (in_block _ _), (in_block _ _).
Qed.

(** *** The guard *)

(** The addresses the guard judges: the literal one, or what the name resolves to when
    it is asked.  The connection made afterwards resolves the name again. *)
Definition guarded_addresses `{RelayNet} (relay : Url) : option (list IpAddr) :=
  match url_host relay with
  | Some (HostV4 a) => Some [V4 a]
  | Some (HostV6 a) => Some [V6 a]
  | Some (Domain name) =>
      match lookup_host name (default 443 (url_port_or_known_default relay)) with
      | Ok (a :: rest) => Some (a :: rest)
      | _ => None
      end
  | None => None
  end.

Lemma ip_blocked `{IpDisplay} a : ip_wf a -> is_some (is_private_ip_addr a) = blocked a.
Proof.
  destruct a as [a|a]; intros Hw; cbn [is_private_ip_addr blocked].
  - rewrite <- private_v4_blocks by done. by destruct (is_private_v4 a).
  - by apply private_v6_blocks.
Qed.

Lemma forallb_negb {A} (p : A -> bool) l : forallb (fun a => negb (p a)) l = true <-> existsb p l = false.
Proof. induction l as [|a l IH]; [done|]. cbn. destruct (p a); cbn; [done|exact IH]. Qed.

Lemma check_addrs_ok `{IpDisplay} l :
  Forall ip_wf l -> is_ok (check_addrs l) = forallb (fun a => negb (blocked a)) l.
Proof.
  induction l as [|a l IH]; [done|]. rewrite Forall_cons. intros [Ha Hl]. cbn.
  rewrite <- (ip_blocked a Ha). destruct (is_private_ip_addr a); [done|]. by rewrite IH.
Qed.

Lemma guard_public `{IpDisplay, RelayNet} (relay : Url) :
  (forall l, guarded_addresses relay = Some l -> Forall ip_wf l) ->
  guard_relay_url_with relay false = Ok tt <->
  exists l, guarded_addresses relay = Some l /\ forallb (fun a => negb (blocked a)) l = true.
Proof.
  unfold guard_relay_url_with, guarded_addresses. intros Hwf.
  assert (forall a, ip_wf a -> is_private_ip_addr a = None <->
    exists l, Some [a] = Some l /\ forallb (fun a => negb (blocked a)) l = true) as Hone.
  { intros a Ha. pose proof (ip_blocked a Ha) as Hb. split.
    - intros E. exists [a]. split; [done|]. cbn [forallb]. by rewrite <- Hb, E.
    - intros (l & [= <-] & Hl). cbn [forallb] in Hl. rewrite <- Hb in Hl.
      by destruct (is_private_ip_addr a). }
  destruct (url_host relay) as [[name|a|a]|].
  - unfold resolve_and_pin_host. destruct (lookup_host _ _) as [[|a l]|e]; [naive_solver| |naive_solver].
    pose proof (check_addrs_ok (a :: l) (Hwf _ eq_refl)) as Hc.
    revert Hc. generalize (a :: l). intros l' Hc.
    destruct (check_addrs l') as [[]|[?|?]]; cbn [is_ok] in Hc; split; try done;
      [intros _; by exists l'|..]; intros (? & [= <-] & Hb); by rewrite Hb in Hc.
  - rewrite <- (Hone (V4 a)) by (by apply Forall_singleton, Hwf).
    cbn. by destruct (is_private_v4 a).
  - rewrite <- (Hone (V6 a)) by (by apply Forall_singleton, Hwf).
    cbn [private_ip_reason is_private_ip_addr]. by destruct (private_v6_reason a).
  - naive_solver.
Qed.

(** C28: a call to a relay is blocked by its guard, with nothing sent, exactly when
    local relays are not allowed and the URL has no host, or its name does not resolve,
    or its literal address or any one of the addresses its name resolves to when the
    guard asks lies in the listed private and non-routable blocks, an IPv4-mapped IPv6
    address counting as the IPv4 address it stands for.  (The name is resolved again
    when the connection is made.) *)
Theorem relay_guard_exact `{IpDisplay, RelayNet} {W} `{RelayServer W} (relay : Url) (path : string) (body : RequestBody) (w : W) :
  (forall l, guarded_addresses relay = Some l -> Forall ip_wf l) ->
  (exists e, relay_request relay path body w = (Err (Blocked e), w)) <->
  local_relays_allowed = false /\
  forall l, guarded_addresses relay = Some l -> existsb blocked l = true.
Proof.
  intros Hwf. assert (guard_relay_url_with relay local_relays_allowed = Ok tt <->
    local_relays_allowed = true \/ exists l, guarded_addresses relay = Some l /\ existsb blocked l = false) as Hg.
  { destruct local_relays_allowed; [split; [by left|done]|]. rewrite (guard_public relay Hwf). setoid_rewrite forallb_negb. naive_solver. }
  unfold relay_request. destruct (guard_relay_url_with relay local_relays_allowed) as [[]|e].
  - split.
    + intros [e He]. exfalso. destruct (url_join relay path); [|done]. destruct (serve _ _ _) as [sends w'].
      destruct (relay_send_with_retry sends) as [[[resp|e'] n] t]; done.
    + intros [Hl Hall]. exfalso. destruct (proj1 Hg eq_refl) as [?|(l & Hs & Hb)]; [congruence|]. rewrite (Hall l Hs) in Hb. done.
  - split; [intros _|by eexists]. split.
    + destruct local_relays_allowed; [|done]. discriminate (proj2 Hg (or_introl eq_refl)).
    + intros l Hl. destruct (existsb blocked l) eqn:Hb; [done|]. discriminate (proj2 Hg (or_intror (ex_intro _ l (conj Hl Hb)))).
Qed.

(** ** Bodies and retries *)

Lemma read_chunks_spec cap buf chunks body :
  read_chunks cap buf chunks = Ok body ->
  exists parts, chunks = Ok <$> parts /\ body = buf ++ concat parts /\ (len buf <= cap -> len body <= cap).
Proof.
  revert buf. induction chunks as [|[c|e] chunks IH]; intros buf; cbn.
  - intros [= ->]. exists []. by rewrite app_nil_r.
  - destruct (N.ltb_spec cap (len buf + len c)); [done|]. intros Hr.
    destruct (IH _ Hr) as (parts & -> & -> & Hl). exists (c :: parts). split; [done|].
    rewrite <- app_assoc. split; [done|]. intros _. rewrite app_assoc. apply Hl. unfold len in *; rewrite length_app; lia.
  - done.
Qed.

(** A body that was read is complete and within the cap. *)
Lemma read_body_bounded resp cap body :
  read_body_capped resp cap = Ok body ->
  exists parts, rp_chunks resp = Ok <$> parts /\ body = concat parts /\ len body <= cap.
Proof.
  unfold read_body_capped. destruct (match rp_content_length resp with Some n => _ | None => _ end); [done|].
  intros Hr. destruct (read_chunks_spec _ _ _ _ Hr) as (parts & ? & ? & Hl). exists parts.
  split_and!; [done..|]. apply Hl, N.le_0_l.
Qed.

(** A complete body within the cap is read. *)
Lemma read_body_fits resp cap body :
  rp_chunks resp = [Ok body] -> len body <= cap ->
  match rp_content_length resp with Some n => n <= cap | None => True end ->
  read_body_capped resp cap = Ok body.
Proof.
  intros Hc Hl Hn. unfold read_body_capped. rewrite Hc. cbn [read_chunks].
  assert ((match rp_content_length resp with Some n => cap <? n | None => false end) = false) as ->.
  { destruct (rp_content_length resp); [|done]. by apply N.ltb_ge. }
  change (len (A := N) []) with 0. rewrite N.add_0_l. destruct (N.ltb_spec cap (len body)); [lia|done].
Qed.

Lemma retry_loop_bounds fuel sends attempt backoff slept r n t :
  1 <= attempt -> attempt <= MAX_ATTEMPTS -> MAX_ATTEMPTS - attempt <= N.of_nat fuel ->
  retry_loop fuel sends attempt backoff slept = (r, n, t) ->
  attempt <= n <= MAX_ATTEMPTS /\ r = sends (N.to_nat (n - 1)) /\
  (forall i, attempt <= i < n -> exists e, sends (N.to_nat (i - 1)) = Err e /\ is_transient e = true) /\
  (forall e, r = Err e -> n = MAX_ATTEMPTS \/ is_transient e = false).
Proof.
  unfold MAX_ATTEMPTS. revert attempt backoff slept. induction fuel as [|fuel IH]; intros attempt backoff slept H1 H2 H3; cbn [retry_loop];
    destruct (sends (N.to_nat (attempt - 1))) as [resp|e] eqn:Es.
  - intros [= <- <- <-]. rewrite Es. split_and!; [lia|lia|done|intros; lia|done].
  - intros [= <- <- <-]. rewrite Es. split_and!; [lia|lia|done|intros; lia|intros; left; lia].
  - intros [= <- <- <-]. rewrite Es. split_and!; [lia|lia|done|intros; lia|done].
  - unfold MAX_ATTEMPTS at 1. destruct (N.ltb_spec attempt 3) as [Hlt|Hge]; cbn [andb].
    + destruct (is_transient e) eqn:Et.
      * intros Hr. apply IH in Hr as (Hn & Hlast & Hall & Hend); [|lia..].
        split_and!; [lia|lia|done| |done]. intros i Hi.
        destruct (N.eq_dec i attempt) as [->|]; [by exists e|]. apply Hall. lia.
      * intros [= <- <- <-]. rewrite Es. split_and!; [lia|lia|done|intros; lia|].
        intros e' [= <-]. by right.
    + intros [= <- <- <-]. rewrite Es. split_and!; [lia|lia|done|intros; lia|intros; left; lia].
Qed.

(** A request is sent at most three times; each but the last failed with an error
    worth retrying, the answer is that of the last, and an error is only given up on
    when it is the third or not worth retrying. *)
Theorem retries_bounded (sends : nat -> result Response SendError) :
  let '(r, n, slept) := relay_send_with_retry sends in
  1 <= n <= 3 /\ r = sends (N.to_nat (n - 1)) /\
  (forall i, 1 <= i < n -> exists e, sends (N.to_nat (i - 1)) = Err e /\ is_transient e = true) /\
  (forall e, r = Err e -> n = 3 \/ is_transient e = false).
Proof.
  destruct (relay_send_with_retry sends) as [[r n] slept] eqn:E.
  by apply (retry_loop_bounds (N.to_nat MAX_ATTEMPTS) sends 1 400 0 r n slept).
Qed.

(** ** Witnesses *)

#[local] Instance rh_display : IpDisplay :=
  {| v4_to_string := fun _ => EmptyString; v6_to_string := fun _ => EmptyString |}.
#[local] Instance rh_net : RelayNet :=
  {| url_host := fun u => Some (HostV6 (mkV6 0 0 0 0 0 0xffff 0xa9fe 0xa9fe));
     url_port_or_known_default := fun _ => None; lookup_host := fun _ _ => Err "x"%string |}.

Definition quiet_server : RelayServer unit :=
  {| url_join := fun u _ => Ok u; serve := fun _ _ w => (fun _ => Err (Build_SendError true true true EmptyString), w);
     local_relays_allowed := false |}.

(** The mapped form of the cloud metadata address. *)
Lemma relay_guard_exact_witness :
  exists e, relay_request (H1 := quiet_server) (Build_Url "https" None None "" None "" None None) "v1/pair-record" GetRequest tt
    = (Err (Blocked e), tt).
Proof.
  apply relay_guard_exact.
  - intros l Hl. cbn in Hl. injection Hl as <-. repeat constructor.
  - split; [reflexivity|]. intros l Hl. cbn in Hl. injection Hl as <-. by vm_compute.
Defined.
