(* ===== verification/DeviceFabric.v ===== *)
(** * The account's devices

    Models [crates/fetchit-chat/src/fabric.rs] (device certificates and the signed
    device list), [device_cert.rs] and [pair_record_v4.rs]: minting the list when a
    device is enrolled or revoked, publishing it, and keeping the last accepted list
    of each contact.  A device's files are the fields of [FabricStore]; whether a
    write succeeds, and whether the vault yields the account key, are arguments. *)
From stdpp Require Import pretty.
From S2P Require Import Prelude SendState Attachment Bubble OutboxStore RelayProto RelayAuth PairRecord RelayHttp.
Open Scope rust_scope.

(** ** [fabric.rs] *)

Definition AGENT_CERT_DOMAIN : bytes := ascii_bytes "fetchit-agent-cert-v1".
Definition CERT_VERSION_V1 : N := 1.
Definition RECORD_VERSION_V4 : N := 4.
Definition MAX_RELAY_BODY_BYTES : N := 64 * 1024.

Record AgentCertificate := {
  ac_cert_version : N;
  ac_user_id_hex : string;
  ac_agent_id_hex : string;
  ac_agent_ml_dsa_pubkey_b64 : string;
  ac_kem_pubkey_b64 : string;
  ac_added_at_ms : N;
  ac_sig_b64 : string;
}.

(** The account key: its public half and ML-DSA signing. *)
Record UserKeypair := {
  uk_public : bytes;
  uk_sign : bytes -> result bytes string;
}.

(** [Display] of the record errors, and [serde_json] at the types of this file. *)
Class PairErrorDisplay := pair_error_to_string : PairRecordError -> string.
Class FabricJson := {
  print_cert : AgentCertificate -> result bytes string;
  print_v4 : PairRecordV4 -> result bytes string;
  parse_v4 : bytes -> result PairRecordV4 string;
  parse_revision : bytes -> result N string;
}.

Section fabric.
  Context `{Base64, Sha256, MlDsaBackend, UrlParse, PairErrorDisplay, FabricJson}.

Definition user_id_hex (user : UserKeypair) : string := hex_encode (derive_user_id (uk_public user)).
Definition user_sign (user : UserKeypair) (m : bytes) : result bytes ChatError :=
  match uk_sign user m with Ok s => Ok s | Err e => Err (Invalid ("user-key sign: " +:+ e)) end.

Definition push_lp (b : bytes) : result bytes ChatError :=
  if len b <=? u32_max then Ok (u32_be (len b) ++ b)
  else Err (Invalid ("cert field is " +:+ pretty (len b) +:+ " bytes; exceeds u32::MAX")).

Definition cert_signing_input (user_id_hex agent_id_hex : string) (ml_dsa kem : bytes)
    (added_at_ms : N) : result bytes ChatError :=
  let? u := push_lp (ascii_bytes user_id_hex) in
  let? a := push_lp (ascii_bytes agent_id_hex) in
  let? m := push_lp ml_dsa in
  let? k := push_lp kem in
  Ok (AGENT_CERT_DOMAIN ++ u ++ a ++ m ++ k ++ u64_be added_at_ms).

Definition mint_agent_certificate (user : UserKeypair) (agent_id_hex : string) (ml_dsa kem : bytes)
    (added_at_ms : N) : result AgentCertificate ChatError :=
  if negb (bool_decide (hex_encode (derive_agent_id ml_dsa) = agent_id_hex))
  then Err (Invalid "cert agent_id does not match the device key")
  else
    let? input := cert_signing_input (user_id_hex user) agent_id_hex ml_dsa kem added_at_ms in
    let? sig := user_sign user input in
    Ok {| ac_cert_version := CERT_VERSION_V1; ac_user_id_hex := user_id_hex user;
          ac_agent_id_hex := agent_id_hex; ac_agent_ml_dsa_pubkey_b64 := b64_encode ml_dsa;
          ac_kem_pubkey_b64 := b64_encode kem; ac_added_at_ms := added_at_ms;
          ac_sig_b64 := b64_encode sig |}.

Definition b64_or (what s : string) : result bytes ChatError :=
  match b64_decode s with Some b => Ok b | None => Err (Invalid what) end.

Definition verify_agent_certificate (cert : AgentCertificate) (user_pubkey : bytes)
    : result unit ChatError :=
  if negb (bool_decide (hex_encode (derive_user_id user_pubkey) = ac_user_id_hex cert))
  then Err (Invalid "cert user_id does not derive from the user key")
  else
    let? agent_ml := b64_or "cert agent pubkey b64" (ac_agent_ml_dsa_pubkey_b64 cert) in
    let? kem := b64_or "cert kem pubkey b64" (ac_kem_pubkey_b64 cert) in
    if negb (bool_decide (hex_encode (derive_agent_id agent_ml) = ac_agent_id_hex cert))
    then Err (Invalid "cert agent_id does not derive from the device key")
    else
      let? input := cert_signing_input (ac_user_id_hex cert) (ac_agent_id_hex cert) agent_ml kem
                      (ac_added_at_ms cert) in
      let? sig := b64_or "cert sig b64" (ac_sig_b64 cert) in
      match pk_from_bytes user_pubkey with
      | Err e => Err (Invalid ("user pubkey parse: " +:+ e))
      | Ok _ =>
          match sig_from_bytes sig with
          | Err e => Err (Invalid ("cert sig parse: " +:+ e))
          | Ok _ =>
              match mldsa_verify user_pubkey input sig with
              | Err e => Err (Invalid ("cert verify backend: " +:+ e))
              | Ok ok => if (ok : bool) then Ok tt else Err (Invalid "cert signature does not verify")
              end
          end
      end.

(** The raw bytes of one device for the signing view. *)
Definition mint_view (d : DeviceEntryV4) : result DeviceSigningView ChatError :=
  let? ml := b64_or "device ml_dsa b64" (de_ml_dsa_pubkey_b64 d) in
  let? kem := b64_or "device kem b64" (de_kem_pubkey_b64 d) in
  let? cert := b64_or "device cert b64" (de_cert_b64 d) in
  Ok (Build_DeviceSigningView (de_agent_id_hex d) ml kem (de_advertised_relays d) cert
        (de_added_at_ms d) (de_primary d)).
Fixpoint mint_views (l : list DeviceEntryV4) : result (list DeviceSigningView) ChatError :=
  match l with
  | [] => Ok []
  | d :: l => let? v := mint_view d in let? vs := mint_views l in Ok (v :: vs)
  end.

Definition mint_pair_record_v4 (user : UserKeypair) (revision issued_at_ms : N)
    (devices : list DeviceEntryV4) : result PairRecordV4 ChatError :=
  let? views := mint_views devices in
  match pair_record_v4_signing_input (user_id_hex user) (uk_public user) revision issued_at_ms views with
  | Err e => Err (Invalid ("v4 signing input: " +:+ pair_error_to_string e))
  | Ok input =>
      let? sig := user_sign user input in
      Ok {| p4_record_version := RECORD_VERSION_V4; p4_user_id_hex := user_id_hex user;
            p4_user_ml_dsa_pubkey_b64 := b64_encode (uk_public user); p4_revision := revision;
            p4_issued_at_ms := issued_at_ms; p4_devices := devices;
            p4_user_signature_b64 := b64_encode sig |}
  end.

(** ** [device_cert.rs] and [pair_record_v4.rs]: the files *)

(** What reading and parsing each file yields; [None] is a missing file. *)
Record FabricStore := mkFabric {
  fb_cert : option (result AgentCertificate ChatError);
  fb_record : option (result PairRecordV4 ChatError);
  fb_contacts : gmap string (result PairRecordV4 ChatError);
}.

Definition read_file {A} (f : option (result A ChatError)) : result (option A) ChatError :=
  match f with None => Ok None | Some (Ok a) => Ok (Some a) | Some (Err e) => Err e end.

Definition load_device_certificate (fb : FabricStore) : result (option AgentCertificate) ChatError :=
  read_file (fb_cert fb).

Definition cert_matches_device (existing : AgentCertificate) (agent_id_hex : string) (ml_dsa kem : bytes)
    : bool :=
  bool_decide (ac_agent_id_hex existing = agent_id_hex)
  && bool_decide (ac_agent_ml_dsa_pubkey_b64 existing = b64_encode ml_dsa)
  && bool_decide (ac_kem_pubkey_b64 existing = b64_encode kem).

(** [key] is what the vault yields for the account key. *)
Definition ensure_device_certificate_from_master (key : result UserKeypair ChatError)
    (agent_id_hex : string) (ml_dsa kem : bytes) (added_at_ms : N) (io : result unit ChatError)
    (fb : FabricStore) : result AgentCertificate ChatError * FabricStore :=
  match load_device_certificate fb with
  | Err e => (Err e, fb)
  | Ok existing =>
      let matching := match existing with
                      | Some c => if cert_matches_device c agent_id_hex ml_dsa kem then Some c else None
                      | None => None
                      end in
      match matching with
      | Some c => (Ok c, fb)
      | None =>
          match (let? user := key in mint_agent_certificate user agent_id_hex ml_dsa kem added_at_ms) with
          | Err e => (Err e, fb)
          | Ok cert =>
              match io with
              | Err e => (Err e, fb)
              | Ok _ => (Ok cert, mkFabric (Some (Ok cert)) (fb_record fb) (fb_contacts fb))
              end
          end
      end
  end.

Definition load_pair_record_v4 (fb : FabricStore) : result (option PairRecordV4) ChatError :=
  read_file (fb_record fb).

Definition save_pair_record_v4 (record : PairRecordV4) (io : result unit ChatError) (fb : FabricStore)
    : result unit ChatError * FabricStore :=
  match io with
  | Err e => (Err e, fb)
  | Ok _ => (Ok tt, mkFabric (fb_cert fb) (Some (Ok record)) (fb_contacts fb))
  end.

Definition next_pair_record_v4_revision (fb : FabricStore) : result N ChatError :=
  let? r := load_pair_record_v4 fb in
  Ok (match r with Some r => saturating_add u64_max (p4_revision r) 1 | None => 1 end).

Definition mint_and_cache_pair_record_v4_from_master (key : result UserKeypair ChatError)
    (revision issued_at_ms : N) (devices : list DeviceEntryV4) (io : result unit ChatError)
    (fb : FabricStore) : result PairRecordV4 ChatError * FabricStore :=
  match (let? user := key in mint_pair_record_v4 user revision issued_at_ms devices) with
  | Err e => (Err e, fb)
  | Ok record =>
      match save_pair_record_v4 record io fb with
      | (Err e, fb) => (Err e, fb)
      | (Ok _, fb) => (Ok record, fb)
      end
  end.

Definition device_entry_from_cert (cert : AgentCertificate) (relays : list string)
    : result DeviceEntryV4 ChatError :=
  match print_cert cert with
  | Err e => Err (Invalid ("serialize device cert: " +:+ e))
  | Ok cert_bytes =>
      Ok {| de_agent_id_hex := ac_agent_id_hex cert; de_ml_dsa_pubkey_b64 := ac_agent_ml_dsa_pubkey_b64 cert;
            de_kem_pubkey_b64 := ac_kem_pubkey_b64 cert; de_advertised_relays := relays;
            de_cert_b64 := b64_encode cert_bytes; de_added_at_ms := ac_added_at_ms cert;
            de_primary := false |}
  end.

(** The first entry of the agent is replaced, else the entry is appended. *)
Fixpoint put_device (entry : DeviceEntryV4) (devices : list DeviceEntryV4) : list DeviceEntryV4 :=
  match devices with
  | [] => [entry]
  | d :: rest => if bool_decide (de_agent_id_hex d = de_agent_id_hex entry) then entry :: rest
                 else d :: put_device entry rest
  end.

Definition append_and_mint_from_master (key : result UserKeypair ChatError) (cert : AgentCertificate)
    (relays : list string) (issued_at_ms : N) (io : result unit ChatError) (fb : FabricStore)
    : result PairRecordV4 ChatError * FabricStore :=
  match load_pair_record_v4 fb with
  | Err e => (Err e, fb)
  | Ok None =>
      (Err (Invalid "no cached device record; the existing device must self-cert before enrolling another"), fb)
  | Ok (Some current) =>
      match device_entry_from_cert cert relays with
      | Err e => (Err e, fb)
      | Ok entry =>
          mint_and_cache_pair_record_v4_from_master key (saturating_add u64_max (p4_revision current) 1)
            issued_at_ms (put_device entry (p4_devices current)) io fb
      end
  end.

Definition set_primary (b : bool) (d : DeviceEntryV4) : DeviceEntryV4 :=
  {| de_agent_id_hex := de_agent_id_hex d; de_ml_dsa_pubkey_b64 := de_ml_dsa_pubkey_b64 d;
     de_kem_pubkey_b64 := de_kem_pubkey_b64 d; de_advertised_relays := de_advertised_relays d;
     de_cert_b64 := de_cert_b64 d; de_added_at_ms := de_added_at_ms d; de_primary := b |}.

(** The survivors, the first of them promoted when the primary left. *)
Definition survivors (agent_id_hex : string) (removed_was_primary : bool) (devices : list DeviceEntryV4)
    : list DeviceEntryV4 :=
  let devices := List.filter (fun d => negb (bool_decide (de_agent_id_hex d = agent_id_hex))) devices in
  if removed_was_primary && negb (existsb de_primary devices)
  then match devices with [] => [] | d :: rest => set_primary true d :: rest end
  else devices.

Definition remove_and_mint_from_master (key : result UserKeypair ChatError) (agent_id_hex : string)
    (issued_at_ms : N) (io : result unit ChatError) (fb : FabricStore)
    : result PairRecordV4 ChatError * FabricStore :=
  match load_pair_record_v4 fb with
  | Err e => (Err e, fb)
  | Ok None => (Err (Invalid "no cached device record; nothing to revoke"), fb)
  | Ok (Some current) =>
      match List.find (fun d => bool_decide (de_agent_id_hex d = agent_id_hex)) (p4_devices current) with
      | None => (Err (Invalid ("device " +:+ agent_id_hex +:+ " is not in the account device list")), fb)
      | Some removed =>
          let devices := survivors agent_id_hex (de_primary removed) (p4_devices current) in
          if bool_decide (devices = [])
          then (Err (Invalid "cannot revoke the only device; use account recovery instead"), fb)
          else mint_and_cache_pair_record_v4_from_master key
                 (saturating_add u64_max (p4_revision current) 1) issued_at_ms devices io fb
      end
  end.
End fabric.

(** ** Publishing and resolving *)

Inductive PostV4Outcome := V4Accepted | RevisionReject (current_revision : N).

Section net.
  Context `{Base64, Sha256, MlDsaBackend, UrlParse, PairErrorDisplay, FabricJson}.
  Context {W : Type} `{IpDisplay, RelayNet, !RelayServer W}.

Definition post_pair_record_v4 (relay : Url) (record : PairRecordV4) (w : W)
    : result PostV4Outcome ChatError * W :=
  match relay_request relay "v1/pair-record-v4" (PostPairV4 record) w with
  | (Err e, w) => (Err (request_error e), w)
  | (Ok resp, w) =>
      if is_success resp then (Ok V4Accepted, w)
      else if rp_status resp =? 409 then
        match read_body_capped resp MAX_RELAY_BODY_BYTES with
        | Err e => (Err (Invalid (body_display e)), w)
        | Ok raw =>
            match parse_revision raw with
            | Err e => (Err (Invalid ("409 body decode: " +:+ e)), w)
            | Ok n => (Ok (RevisionReject n), w)
            end
        end
      else (Err (Invalid ("relay returned " +:+ pretty (rp_status resp) +:+ " publishing pair record v4")), w)
  end.

Definition republish_cached_pair_record_v4 (relay : Url) (fb : FabricStore) (w : W)
    : result unit ChatError * W :=
  match load_pair_record_v4 fb with
  | Err e => (Err e, w)
  | Ok None => (Ok tt, w)
  | Ok (Some record) =>
      match post_pair_record_v4 relay record w with
      | (Err e, w) => (Err e, w)
      | (Ok _, w) => (Ok tt, w)
      end
  end.

(** The record is minted and cached before it is posted. *)
Definition append_publish_from_master (key : result UserKeypair ChatError) (cert : AgentCertificate)
    (new_device_relays : list string) (relay : Url) (relay_str : string) (issued_at_ms : N)
    (io : result unit ChatError) (fb : FabricStore) (w : W)
    : result PairRecordV4 ChatError * FabricStore * W :=
  let relays := if bool_decide (new_device_relays = []) then [relay_str] else new_device_relays in
  match append_and_mint_from_master key cert relays issued_at_ms io fb with
  | (Err e, fb) => (Err e, fb, w)
  | (Ok record, fb) =>
      match post_pair_record_v4 relay record w with
      | (Err e, w) => (Err e, fb, w)
      | (Ok V4Accepted, w) => (Ok record, fb, w)
      | (Ok (RevisionReject n), w) =>
          (Err (Invalid ("enroll publish rejected: relay holds a newer revision " +:+ pretty n +:+ ", re-run")),
           fb, w)
      end
  end.

Definition revoke_publish_from_master (key : result UserKeypair ChatError) (agent_id_hex : string)
    (relay : Url) (issued_at_ms : N) (io : result unit ChatError) (fb : FabricStore) (w : W)
    : result PairRecordV4 ChatError * FabricStore * W :=
  match remove_and_mint_from_master key agent_id_hex issued_at_ms io fb with
  | (Err e, fb) => (Err e, fb, w)
  | (Ok record, fb) =>
      match post_pair_record_v4 relay record w with
      | (Err e, w) => (Err e, fb, w)
      | (Ok V4Accepted, w) => (Ok record, fb, w)
      | (Ok (RevisionReject n), w) =>
          (Err (Invalid ("revoke publish rejected: relay holds a newer revision " +:+ pretty n +:+ ", re-run")),
           fb, w)
      end
  end.

Definition is_user_id_hex (s : string) : bool := lower_hex_64 s.

Definition load_contact_pair_record_v4 (user_id_hex : string) (fb : FabricStore)
    : result (option PairRecordV4) ChatError :=
  if negb (is_user_id_hex user_id_hex) then Err (Invalid "user id is not 64-hex")
  else read_file (fb_contacts fb !! user_id_hex).

Definition save_contact_pair_record_v4 (record : PairRecordV4) (io : result unit ChatError)
    (fb : FabricStore) : result unit ChatError * FabricStore :=
  if negb (is_user_id_hex (p4_user_id_hex record)) then (Err (Invalid "record user id is not 64-hex"), fb)
  else match io with
       | Err e => (Err e, fb)
       | Ok _ => (Ok tt, mkFabric (fb_cert fb) (fb_record fb)
                           (<[p4_user_id_hex record := Ok record]> (fb_contacts fb)))
       end.

Definition get_pair_record_v4 (relay : Url) (user_id_hex : string) (w : W)
    : result (option PairRecordV4) ChatError * W :=
  match relay_request relay ("v1/pair-record-v4/" +:+ user_id_hex) GetRequest w with
  | (Err e, w) => (Err (request_error e), w)
  | (Ok resp, w) =>
      if rp_status resp =? 404 then (Ok None, w)
      else if negb (is_success resp)
      then (Err (Invalid ("relay returned " +:+ pretty (rp_status resp) +:+ " resolving pair record v4")), w)
      else match read_body_capped resp MAX_RELAY_BODY_BYTES with
           | Err e => (Err (Invalid (body_display e)), w)
           | Ok raw =>
               match parse_v4 raw with
               | Err e => (Err (Invalid ("pair record v4 body decode: " +:+ e)), w)
               | Ok record => (Ok (Some record), w)
               end
           end
  end.

(** For the expected account, verified, and newer than the cached one. *)
Definition acceptable (user_id_hex : string) (cached : option PairRecordV4) (record : PairRecordV4) : bool :=
  bool_decide (p4_user_id_hex record = user_id_hex) && is_ok (verify_pair_record_v4 record)
  && (match cached with Some r => p4_revision r | None => 0 end <? p4_revision record).

Definition resolve_pair_record_v4 (user_id_hex : string) (relay : Url) (io : result unit ChatError)
    (fb : FabricStore) (w : W) : result (option PairRecordV4) ChatError * FabricStore * W :=
  match load_contact_pair_record_v4 user_id_hex fb with
  | Err e => (Err e, fb, w)
  | Ok cached =>
      match get_pair_record_v4 relay user_id_hex w with
      | (Err _, w) | (Ok None, w) => (Ok cached, fb, w)
      | (Ok (Some fetched), w) =>
          if negb (acceptable user_id_hex cached fetched) then (Ok cached, fb, w)
          else match save_contact_pair_record_v4 fetched io fb with
               | (Err e, fb) => (Err e, fb, w)
               | (Ok _, fb) => (Ok (Some fetched), fb, w)
               end
      end
  end.

Definition removed_device_agents (old new : PairRecordV4) : list string :=
  let kept : gset string := list_to_set (de_agent_id_hex <$> p4_devices new) in
  de_agent_id_hex <$> List.filter (fun d => negb (bool_decide (de_agent_id_hex d ∈ kept))) (p4_devices old).

Definition accept_pushed_pair_record_v4 (expected_user_id_hex : string) (record : PairRecordV4)
    (io : result unit ChatError) (fb : FabricStore)
    : result (option (option PairRecordV4 * PairRecordV4)) ChatError * FabricStore :=
  match load_contact_pair_record_v4 expected_user_id_hex fb with
  | Err e => (Err e, fb)
  | Ok cached =>
      if negb (acceptable expected_user_id_hex cached record) then (Ok None, fb)
      else match save_contact_pair_record_v4 record io fb with
           | (Err e, fb) => (Err e, fb)
           | (Ok _, fb) => (Ok (Some (cached, record)), fb)
           end
  end.

(** [decode_pushed_pair_record_v4] of [client.rs]; [unwrap] reads the postcard
    wrapper of the push. *)
Definition decode_pushed_pair_record_v4 (unwrap : bytes -> result bytes string) (ciphertext : bytes)
    : result PairRecordV4 ChatError :=
  match unwrap ciphertext with
  | Err e => Err (Invalid ("pair-record-push wrapper decode: " +:+ e))
  | Ok record_bytes =>
      if MAX_RELAY_BODY_BYTES <? len record_bytes
      then Err (Invalid ("pushed pair record too large: " +:+ pretty (len record_bytes) +:+ " bytes (cap "
                         +:+ pretty MAX_RELAY_BODY_BYTES +:+ ")"))
      else match parse_v4 record_bytes with
           | Err e => Err (Invalid ("pushed pair record decode: " +:+ e))
           | Ok r => Ok r
           end
  end.
End net.

(** ** What is minted verifies *)

Section minting.
  Context `{Base64, Sha256, MlDsaBackend, UrlParse, PairErrorDisplay, FabricJson}.

(** The account key signs what its public half verifies. *)
Definition user_ok (user : UserKeypair) : Prop :=
  Forall (fun b => b < 256) (uk_public user) /\
  forall m sig, uk_sign user m = Ok sig ->
    Forall (fun b => b < 256) sig /\ pk_from_bytes (uk_public user) = Ok tt /\
    sig_from_bytes sig = Ok tt /\ mldsa_verify (uk_public user) m sig = Ok true.

(** The device id is that of its signing key. *)
Definition bound_device (d : DeviceEntryV4) : Prop :=
  forall ml, b64_decode (de_ml_dsa_pubkey_b64 d) = Some ml ->
    hex_encode (derive_agent_id ml) = de_agent_id_hex d.

Lemma signing_input_valid uid pk rev t views input :
  pair_record_v4_signing_input uid pk rev t views = Ok input ->
  validate_user_id_hex uid = Ok tt /\ views <> [] /\ len views <= MAX_DEVICES /\
  len (List.filter dv_primary views) = 1 /\
  Forall (fun d => validate_agent_id_hex (dv_agent_id_hex d) = Ok tt /\
                   validate_relays (dv_relays d) = Ok tt) views.
Proof.
  unfold pair_record_v4_signing_input. destruct (validate_user_id_hex uid) as [[]|e]; [|done].
  unfold validate_device_list. case_bool_decide as Hn; [done|].
  destruct (N.ltb_spec MAX_DEVICES (len views)) as [|Hm]; [done|].
  destruct (N.eqb_spec (len (List.filter dv_primary views)) 1) as [Hp|]; [|done]. cbn [negb].
  destruct (try_each _ views) as [[]|e] eqn:Ht; [|done]. intros _. split_and!; try done.
  eapply Forall_impl; [apply try_each_ok, Ht|]. intros d. cbn.
  destruct (validate_agent_id_hex _) as [[]|]; [|done]. by destruct (validate_relays _) as [[]|].
Qed.

Lemma mint_view_fields d v :
  mint_view d = Ok v ->
  dv_agent_id_hex v = de_agent_id_hex d /\ dv_relays v = de_advertised_relays d /\
  dv_primary v = de_primary d.
Proof.
  unfold mint_view, b64_or. destruct (b64_decode (de_ml_dsa_pubkey_b64 d)); [|done].
  destruct (b64_decode (de_kem_pubkey_b64 d)); [|done].
  destruct (b64_decode (de_cert_b64 d)); [|done]. by intros [= <-].
Qed.

Lemma decode_minted ds vs :
  mint_views ds = Ok vs -> Forall bound_device ds ->
  Forall (fun d => validate_agent_id_hex (dv_agent_id_hex d) = Ok tt /\
                   validate_relays (dv_relays d) = Ok tt) vs ->
  decode_devices ds = Ok vs.
Proof.
  revert vs. induction ds as [|d ds IH]; intros vs; cbn; [by intros [= <-]|].
  destruct (mint_view d) as [v|] eqn:Hv; [|done]. destruct (mint_views ds) as [vs'|] eqn:Hvs; [|done].
  intros [= <-] [Hb Hbs]%Forall_cons [[Ha Hr] Hall]%Forall_cons.
  destruct (mint_view_fields _ _ Hv) as (Ea & Er & _). rewrite Ea in Ha. rewrite Er in Hr.
  rewrite (IH _ eq_refl Hbs Hall). unfold decode_device, b64. rewrite Ha, Hr.
  unfold mint_view, b64_or in Hv. destruct (b64_decode (de_ml_dsa_pubkey_b64 d)) as [ml|] eqn:Em; [|done].
  destruct (b64_decode (de_kem_pubkey_b64 d)) as [kem|]; [|done].
  destruct (b64_decode (de_cert_b64 d)) as [cert|]; [|done]. injection Hv as <-.
  by rewrite (Hb _ Em), bool_decide_eq_true_2.
Qed.

Lemma mint_views_shape ds vs :
  mint_views ds = Ok vs -> length vs = length ds /\ length (List.filter dv_primary vs) = length (List.filter de_primary ds).
Proof.
  revert vs. induction ds as [|d ds IH]; intros vs; cbn; [by intros [= <-]|].
  destruct (mint_view d) as [v|] eqn:Hv; [|done]. destruct (mint_views ds) as [vs'|]; [|done].
  intros [= <-]. destruct (IH _ eq_refl) as [E1 E2]. destruct (mint_view_fields _ _ Hv) as (_ & _ & Hp).
  cbn. rewrite Hp, E1. destruct (de_primary d); cbn; by rewrite E2.
Qed.

Lemma minted_verifies user rev t ds r :
  user_ok user -> Forall bound_device ds -> mint_pair_record_v4 user rev t ds = Ok r ->
  verify_pair_record_v4 r = Ok tt.
Proof.
  intros [Hpk Hsig] Hb. unfold mint_pair_record_v4, user_sign.
  destruct (mint_views ds) as [vs|] eqn:Hvs; [|done].
  destruct (pair_record_v4_signing_input _ _ _ _ _) as [input|] eqn:Hi; [|done].
  destruct (uk_sign user input) as [sig|] eqn:Hs; [|done]. intros [= <-].
  destruct (signing_input_valid _ _ _ _ _ _ Hi) as (Hu & Hn & Hm & Hp & Hall).
  destruct (mint_views_shape _ _ Hvs) as [El Ep]. destruct (Hsig _ _ Hs) as (Hsb & Hpkp & Hsp & Hv).
  unfold verify_pair_record_v4. cbn [p4_user_id_hex p4_devices p4_user_ml_dsa_pubkey_b64 p4_revision
    p4_issued_at_ms p4_user_signature_b64].
  rewrite Hu. rewrite bool_decide_eq_false_2; [|intros ->; by destruct vs].
  replace (len ds) with (len vs) by (unfold len; by rewrite El).
  destruct (N.ltb_spec MAX_DEVICES (len vs)); [lia|].
  replace (len (List.filter de_primary ds)) with (len (List.filter dv_primary vs)) by (unfold len; by rewrite Ep).
  rewrite Hp. cbn [negb N.eqb Pos.eqb]. unfold b64 at 1. rewrite b64_decode_encode by done.
  unfold user_id_hex at 1. rewrite bool_decide_eq_true_2 by done. cbn [negb].
  rewrite (decode_minted _ _ Hvs Hb Hall), Hi. unfold b64. rewrite b64_decode_encode by done.
  unfold check_signature. by rewrite Hpkp, Hsp, Hv.
Qed.

(** A certificate the account mints verifies under the account's key. *)
Lemma minted_cert_verifies user id ml kem t cert :
  user_ok user -> Forall (fun b => b < 256) ml -> Forall (fun b => b < 256) kem ->
  mint_agent_certificate user id ml kem t = Ok cert -> verify_agent_certificate cert (uk_public user) = Ok tt.
Proof.
  intros [Hpk Hsig] Hml Hkem. unfold mint_agent_certificate, user_sign.
  case_bool_decide as Hid; [|done]. cbn [negb].
  destruct (cert_signing_input _ _ _ _ _) as [input|] eqn:Hi; [|done].
  destruct (uk_sign user input) as [sig|] eqn:Hs; [|done]. intros [= <-].
  destruct (Hsig _ _ Hs) as (Hsb & Hpkp & Hsp & Hv). unfold verify_agent_certificate, b64_or.
  cbn [ac_user_id_hex ac_agent_ml_dsa_pubkey_b64 ac_kem_pubkey_b64 ac_agent_id_hex ac_added_at_ms ac_sig_b64].
  unfold user_id_hex at 1. rewrite bool_decide_eq_true_2, !b64_decode_encode by done. cbn [negb].
  rewrite (bool_decide_eq_true_2 (hex_encode _ = id)) by done. cbn [negb]. rewrite Hi, Hpkp, Hsp, Hv. done.
Qed.

(** *** The list over its life *)

Inductive FabricOp :=
| Enroll (cert : AgentCertificate) (relays : list string) (now : N) (io : result unit ChatError)
| Revoke (agent_id_hex : string) (now : N) (io : result unit ChatError).

Definition fabric_op (key : result UserKeypair ChatError) (op : FabricOp) (fb : FabricStore)
    : result PairRecordV4 ChatError * FabricStore :=
  match op with
  | Enroll cert relays now io => append_and_mint_from_master key cert relays now io fb
  | Revoke id now io => remove_and_mint_from_master key id now io fb
  end.

(** The cached list: the account's, verified, at revision [n] at least. *)
Definition list_valid (user : UserKeypair) (n : N) (fb : FabricStore) : Prop :=
  exists r, fb_record fb = Some (Ok r) /\ p4_user_id_hex r = user_id_hex user /\
    verify_pair_record_v4 r = Ok tt /\ n <= p4_revision r.

Lemma verified_bound r : verify_pair_record_v4 r = Ok tt -> Forall bound_device (p4_devices r).
Proof.
  unfold verify_pair_record_v4. destruct (validate_user_id_hex _) as [[]|]; [|done].
  case_bool_decide; [done|]. destruct (_ <? _); [done|]. destruct (negb (_ =? 1)); [done|].
  destruct (b64 _) as [pk|]; [|done]. destruct (negb _); [done|].
  destruct (decode_devices _) as [vs|] eqn:Hd; [|done]. intros _. clear - Hd. revert vs Hd.
  induction (p4_devices r) as [|d ds IH]; intros vs; [constructor|]. cbn.
  destruct (decode_device d) as [v|] eqn:Hv; [|done]. destruct (decode_devices ds) as [vs'|]; [|done].
  intros _. constructor; [|by eapply IH]. intros ml Hml. revert Hv. unfold decode_device, b64. rewrite Hml.
  destruct (validate_agent_id_hex _) as [[]|]; [|done]. destruct (validate_relays _) as [[]|]; [|done].
  destruct (b64_decode (de_kem_pubkey_b64 d)); [|done]. destruct (b64_decode (de_cert_b64 d)); [|done].
  by case_bool_decide.
Qed.

(** Minting from bound devices: nothing changes, or the list is replaced by a valid
    one with these devices. *)
Lemma mint_and_cache_cases user rev t ds io fb :
  user_ok user -> Forall bound_device ds ->
  let '(res, fb') := mint_and_cache_pair_record_v4_from_master (Ok user) rev t ds io fb in
  match res with
  | Err _ => fb' = fb
  | Ok r => fb_record fb' = Some (Ok r) /\ p4_user_id_hex r = user_id_hex user /\
      verify_pair_record_v4 r = Ok tt /\ p4_revision r = rev /\ p4_devices r = ds
  end.
Proof.
  intros Hu Hb. unfold mint_and_cache_pair_record_v4_from_master.
  destruct (mint_pair_record_v4 user rev t ds) as [r|] eqn:Hm; [|done].
  pose proof (minted_verifies _ _ _ _ _ Hu Hb Hm) as Hv.
  assert (p4_user_id_hex r = user_id_hex user /\ p4_revision r = rev /\ p4_devices r = ds) as (E1 & E2 & E3).
  { revert Hm. unfold mint_pair_record_v4. destruct (mint_views ds); [|done].
    destruct (pair_record_v4_signing_input _ _ _ _ _); [|done]. destruct (user_sign _ _); [|done].
    by intros [= <-]. }
  unfold save_pair_record_v4. by destruct io.
Qed.

Lemma put_device_bound e ds : bound_device e -> Forall bound_device ds -> Forall bound_device (put_device e ds).
Proof.
  intros He. induction ds as [|d ds IH]; cbn; [by constructor|]. intros [Hd Hds]%Forall_cons.
  case_bool_decide; constructor; auto.
Qed.

Lemma put_device_in e ds : e ∈ put_device e ds.
Proof. induction ds as [|d ds IH]; cbn; [left|]. case_bool_decide; [left|by right]. Qed.

Lemma survivors_bound id p ds : Forall bound_device ds -> Forall bound_device (survivors id p ds).
Proof.
  intros Hb. unfold survivors.
  assert (Forall bound_device (List.filter (fun d => negb (bool_decide (de_agent_id_hex d = id))) ds)) as Hf.
  { apply Forall_forall. intros d [_ Hd]%elem_of_list_filter_bool. by eapply Forall_forall in Hd. }
  destruct (p && _); [|done]. destruct (List.filter _ ds) as [|d l]; [done|].
  apply Forall_cons in Hf as [Hd Hl]. constructor; [exact Hd|done].
Qed.

Lemma survivors_gone id p ds d : d ∈ survivors id p ds -> de_agent_id_hex d <> id.
Proof.
  unfold survivors.
  assert (forall d', d' ∈ List.filter (fun d => negb (bool_decide (de_agent_id_hex d = id))) ds ->
    de_agent_id_hex d' <> id) as Hf.
  { intros d' [Hd' _]%elem_of_list_filter_bool. by case_bool_decide. }
  destruct (p && _); [|apply Hf]. destruct (List.filter _ ds) as [|d0 l]; [inversion 1|].
  intros [->|Hd]%elem_of_cons; [apply (Hf d0); left|apply Hf; by right].
Qed.

(** What one operation does to a valid list. *)
Lemma fabric_op_valid user op n fb :
  user_ok user -> n <= u64_max ->
  (forall cert relays now io, op = Enroll cert relays now io ->
     is_ok (verify_agent_certificate cert (uk_public user)) = true) ->
  list_valid user n fb ->
  let '(res, fb') := fabric_op (Ok user) op fb in
  list_valid user n fb' /\
  match res with
  | Err _ => fb' = fb
  | Ok r => fb_record fb' = Some (Ok r) /\
      (n < u64_max -> n < p4_revision r) /\
      match op with
      | Enroll cert _ _ _ => exists d, d ∈ p4_devices r /\ de_agent_id_hex d = ac_agent_id_hex cert
      | Revoke id _ _ => forall d, d ∈ p4_devices r -> de_agent_id_hex d <> id
      end
  end.
Proof.
  intros Hu Hn Hcert (r0 & Hr0 & Hid & Hv0 & Hrev).
  assert (forall ds rev t io,
    Forall bound_device ds -> rev = saturating_add u64_max (p4_revision r0) 1 ->
    let '(res, fb') := mint_and_cache_pair_record_v4_from_master (Ok user) rev t ds io fb in
    list_valid user n fb' /\
    match res with
    | Err _ => fb' = fb
    | Ok r => fb_record fb' = Some (Ok r) /\ (n < u64_max -> n < p4_revision r) /\ p4_devices r = ds
    end) as Hmint.
  { intros ds rev t io Hb Hrev'. pose proof (mint_and_cache_cases user rev t ds io fb Hu Hb) as Hc.
    destruct (mint_and_cache_pair_record_v4_from_master _ _ _ _ _ _) as [[r|e] fb'].
    - destruct Hc as (Hr & Hi & Hv & Hrv & Hd). unfold saturating_add in *. split; [exists r|]; split_and!; lia || done.
    - subst fb'. split; [by exists r0|done]. }
  assert (list_valid user n fb) as Hkeep by by exists r0.
  pose proof (verified_bound _ Hv0) as Hb0.
  destruct op as [cert relays now io|id now io]; cbn [fabric_op].
  - unfold append_and_mint_from_master, load_pair_record_v4. rewrite Hr0. cbn [read_file].
    unfold device_entry_from_cert. destruct (print_cert cert) as [cb|e]; [|done].
    set (entry := Build_DeviceEntryV4 _ _ _ _ _ _ _).
    assert (bound_device entry) as He.
    { intros ml Hml. cbn in Hml |- *. specialize (Hcert cert relays now io eq_refl). revert Hcert.
      unfold verify_agent_certificate, b64_or. case_bool_decide; [|done]. cbn [negb]. rewrite Hml.
      destruct (b64_decode (ac_kem_pubkey_b64 cert)); [|done]. by case_bool_decide. }
    specialize (Hmint (put_device entry (p4_devices r0)) _ now io (put_device_bound _ _ He Hb0) eq_refl).
    destruct (mint_and_cache_pair_record_v4_from_master _ _ _ _ _ _) as [[r|e] fb']; [|done].
    destruct Hmint as (? & ? & ? & Hd). split_and!; [done..|]. exists entry. split; [|done].
    rewrite Hd. apply put_device_in.
  - unfold remove_and_mint_from_master, load_pair_record_v4. rewrite Hr0. cbn [read_file].
    destruct (List.find _ _) as [removed|]; [|done]. case_bool_decide; [done|].
    specialize (Hmint _ _ now io (survivors_bound id (de_primary removed) _ Hb0) eq_refl).
    destruct (mint_and_cache_pair_record_v4_from_master _ _ _ _ _ _) as [[r|e] fb']; [|done].
    destruct Hmint as (? & ? & ? & Hd). split_and!; [done..|]. intros d Hin. rewrite Hd in Hin.
    by apply survivors_gone in Hin.
Qed.

Definition certified (user : UserKeypair) (op : FabricOp) : bool :=
  match op with
  | Enroll cert _ _ _ => is_ok (verify_agent_certificate cert (uk_public user))
  | Revoke _ _ _ => true
  end.

Definition fabric_run (key : result UserKeypair ChatError) (ops : list FabricOp) (fb : FabricStore)
    : FabricStore := foldl (fun fb op => (fabric_op key op fb).2) fb ops.

(** C10: through any sequence of enrollments of certified
    devices and revocations, failed ones and failed writes included, the cached
    device list is the account's and verifies as every relay and contact checks it
    (so it has one to five devices, exactly one of them primary), and its revision
    never falls; a revocation that succeeds raises it (below the ceiling) and leaves
    no entry of the device. *)
Theorem device_list_stays_valid (user : UserKeypair) (ops : list FabricOp) (fb : FabricStore) (r : PairRecordV4)
    (id : string) (now : N) (io : result unit ChatError) :
  user_ok user -> Forall (fun op => certified user op = true) ops ->
  fb_record fb = Some (Ok r) -> p4_user_id_hex r = user_id_hex user -> verify_pair_record_v4 r = Ok tt ->
  p4_revision r <= u64_max ->
  let fb1 := fabric_run (Ok user) ops fb in
  list_valid user (p4_revision r) fb1 /\
  forall r', (remove_and_mint_from_master (Ok user) id now io fb1).1 = Ok r' ->
    (p4_revision r < u64_max -> p4_revision r < p4_revision r') /\ verify_pair_record_v4 r' = Ok tt /\
    forall d, d ∈ p4_devices r' -> de_agent_id_hex d <> id.
Proof.
  intros Hu Hops Hr Hid Hv Hmax fb1.
  assert (list_valid user (p4_revision r) fb1) as Hfb1.
  { unfold fb1. clear fb1. assert (list_valid user (p4_revision r) fb) as Hl by by exists r.
    clear Hr Hid Hv. revert fb Hl. induction Hops as [|op ops Hop _ IH]; intros fb Hl; [done|]. cbn.
    apply IH. pose proof (fabric_op_valid user op (p4_revision r) fb Hu Hmax) as Hf.
    destruct (fabric_op (Ok user) op fb) as [res fb']. apply Hf; [|done].
    intros cert relays t io' ->. exact Hop. }
  split; [done|]. intros r' Hr'.
  pose proof (fabric_op_valid user (Revoke id now io) _ fb1 Hu Hmax ltac:(done) Hfb1) as Hf.
  cbn [fabric_op] in Hf. destruct (remove_and_mint_from_master _ _ _ _ _) as [res fb']. cbn in Hr'. subst res.
  destruct Hf as ((r1 & Hr1 & _ & Hv1 & _) & Hr2 & Hlt & Hgone). rewrite Hr1 in Hr2. by simplify_eq.
Qed.

Lemma put_over_primary e p ds :
  de_primary e = false -> de_primary p = true -> List.filter de_primary ds = [p] ->
  List.find (fun d => bool_decide (de_agent_id_hex d = de_agent_id_hex e)) ds = Some p ->
  List.filter de_primary (put_device e ds) = [].
Proof.
  intros He Hp. induction ds as [|d ds IH]; [done|]. cbn [List.filter List.find put_device].
  case_bool_decide as Hd.
  - intros Hf [= ->]. rewrite Hp in Hf. injection Hf as Hf. cbn. by rewrite He.
  - intros Hf Hfind. cbn [List.filter]. destruct (de_primary d); [|by apply IH].
    injection Hf as -> _. apply List.find_some in Hfind as [_ Hx]. by apply bool_decide_eq_true in Hx.
Qed.

(** Enrolling the primary device again is refused: its new entry is not primary, and
    a list without a primary cannot be signed. *)
Theorem reenrolling_primary_fails (user : UserKeypair) (cert : AgentCertificate) (relays : list string)
    (now : N) (io : result unit ChatError) (fb : FabricStore) (r : PairRecordV4) (p : DeviceEntryV4) :
  fb_record fb = Some (Ok r) -> List.filter de_primary (p4_devices r) = [p] ->
  List.find (fun d => bool_decide (de_agent_id_hex d = ac_agent_id_hex cert)) (p4_devices r) = Some p ->
  is_ok (append_and_mint_from_master (Ok user) cert relays now io fb).1 = false /\
  (append_and_mint_from_master (Ok user) cert relays now io fb).2 = fb.
Proof.
  intros Hr Hp Hf. unfold append_and_mint_from_master, load_pair_record_v4. rewrite Hr. cbn [read_file].
  unfold device_entry_from_cert. destruct (print_cert cert) as [cb|e]; [|done].
  set (entry := Build_DeviceEntryV4 _ _ _ _ _ _ _). unfold mint_and_cache_pair_record_v4_from_master, mint_pair_record_v4.
  destruct (mint_views _) as [vs|] eqn:Hvs; [|done].
  destruct (pair_record_v4_signing_input _ _ _ _ _) as [input|] eqn:Hi; [|done]. exfalso.
  destruct (signing_input_valid _ _ _ _ _ _ Hi) as (_ & _ & _ & Hone & _).
  destruct (mint_views_shape _ _ Hvs) as [_ Hlen]. unfold len in Hone.
  rewrite Hlen, (put_over_primary entry p) in Hone; [done|done| |done|exact Hf].
  assert (p ∈ List.filter de_primary (p4_devices r)) as [Hpp _]%elem_of_list_filter_bool by (rewrite Hp; left).
  done.
Qed.
End minting.

(** ** The lists of contacts *)

Section contacts.
  Context `{Base64, Sha256, MlDsaBackend, UrlParse, PairErrorDisplay, FabricJson}.
  Context {W : Type} `{IpDisplay, RelayNet, HS : !RelayServer W}.

(** A contact's list is fetched from a relay, or arrives pushed. *)
Inductive ContactOp :=
| OpResolve (user_id : string) (relay : Url) (io : result unit ChatError)
| OpPushed (user_id : string) (record : PairRecordV4) (io : result unit ChatError).

Definition contact_op (s : FabricStore * W) (op : ContactOp) : FabricStore * W :=
  match op with
  | OpResolve u relay io => let '(_, fb, w) := resolve_pair_record_v4 u relay io s.1 s.2 in (fb, w)
  | OpPushed u r io => ((accept_pushed_pair_record_v4 u r io s.1).2, s.2)
  end.

(** Every file that parses holds a verified record of the account it is named by. *)
Definition contacts_verified (fb : FabricStore) : Prop :=
  forall u r, fb_contacts fb !! u = Some (Ok r) -> p4_user_id_hex r = u /\ verify_pair_record_v4 r = Ok tt.

(** Nothing a contact has was lost or lowered. *)
Definition contacts_le (fb fb' : FabricStore) : Prop :=
  forall u r, fb_contacts fb !! u = Some (Ok r) ->
    exists r', fb_contacts fb' !! u = Some (Ok r') /\ (r' = r \/ p4_revision r < p4_revision r').

Lemma accept_step u cached r io fb :
  read_file (fb_contacts fb !! u) = Ok cached -> acceptable u cached r = true -> contacts_verified fb ->
  contacts_verified (save_contact_pair_record_v4 r io fb).2 /\
  contacts_le fb (save_contact_pair_record_v4 r io fb).2.
Proof.
  intros Hread Hacc Hall. unfold acceptable in Hacc.
  apply andb_true_iff in Hacc as [[Hu Hv]%andb_true_iff Hrev]. apply bool_decide_eq_true in Hu.
  assert (contacts_le fb fb) as Hrefl by (intros ? r0 ?; exists r0; auto).
  unfold save_contact_pair_record_v4. destruct (negb _); [done|]. destruct io; [|done]. cbn [snd]. split.
  - intros u' r'. cbn. rewrite lookup_insert_Some. intros [[<- [= <-]]|[_ Hr]]; [|by apply Hall].
    split; [done|]. by destruct (verify_pair_record_v4 r) as [[]|].
  - intros u' r' Hr'. cbn. destruct (decide (u' = u)) as [->|Hne].
    + rewrite Hu, lookup_insert_eq. exists r. split; [done|]. right. rewrite Hr' in Hread.
      injection Hread as <-. by apply N.ltb_lt in Hrev.
    + rewrite Hu, lookup_insert_ne by done. exists r'. auto.
Qed.

Lemma contact_op_step s op :
  contacts_verified s.1 -> contacts_verified (contact_op s op).1 /\ contacts_le s.1 (contact_op s op).1.
Proof.
  intros Hall. assert (contacts_le s.1 s.1) as Hrefl by (intros ? r0 ?; exists r0; auto).
  destruct op as [u relay io|u r io]; cbn [contact_op fst].
  - unfold resolve_pair_record_v4, load_contact_pair_record_v4. destruct (negb _); [done|].
    destruct (read_file _) as [cached|] eqn:Hread; [|done].
    destruct (get_pair_record_v4 _ _ _) as [[[r|]|e] w]; [|done..].
    destruct (acceptable u cached r) eqn:Hacc; cbn [negb]; [|done].
    pose proof (accept_step u cached r io s.1 Hread Hacc Hall) as Hst.
    by destruct (save_contact_pair_record_v4 r io s.1) as [[[]|] fb].
  - unfold accept_pushed_pair_record_v4, load_contact_pair_record_v4. destruct (negb _); [done|].
    destruct (read_file _) as [cached|] eqn:Hread; [|done].
    destruct (acceptable u cached r) eqn:Hacc; cbn [negb]; [|done].
    pose proof (accept_step u cached r io s.1 Hread Hacc Hall) as Hst.
    by destruct (save_contact_pair_record_v4 r io s.1) as [[[]|] fb].
Qed.

(** Whatever relays answer and whoever pushes
    records, a contact's cached device list is only ever replaced by a verified list
    of the same account with a higher revision: a device the account revoked does
    not come back, and an unreachable or hostile relay cannot shrink or empty the
    list a message fans out to. *)
Theorem contact_devices_never_roll_back (ops : list ContactOp) (fb : FabricStore) (w : W) :
  contacts_verified fb ->
  contacts_verified (foldl contact_op (fb, w) ops).1 /\ contacts_le fb (foldl contact_op (fb, w) ops).1.
Proof.
  revert fb w. induction ops as [|op ops IH]; intros fb w Hall.
  { split; [done|]. intros ? r0 ?. exists r0. auto. }
  cbn [foldl]. destruct (contact_op_step (fb, w) op Hall) as [Hall1 Hle1].
  destruct (contact_op (fb, w) op) as [fb1 w1]. cbn [fst] in *. destruct (IH fb1 w1 Hall1) as [Hall2 Hle2].
  split; [done|]. intros u r Hr. destruct (Hle1 _ _ Hr) as (r1 & Hr1 & Hx).
  destruct (Hle2 _ _ Hr1) as (r2 & Hr2 & Hy). exists r2. split; [done|]. destruct Hx as [->|], Hy as [->|]; auto.
  right. lia.
Qed.
End contacts.

(** ** How large a list can be *)

(** Base64 takes four characters for three bytes; JSON holds every string it prints. *)
Class SizeLaws `{Base64, FabricJson} := {
  b64_len : forall raw, str_len (b64_encode raw) = 4 * ((len raw + 2) / 3);
  cert_json_len : forall c b, print_cert c = Ok b ->
    str_len (ac_agent_ml_dsa_pubkey_b64 c) + str_len (ac_kem_pubkey_b64 c) + str_len (ac_sig_b64 c) <= len b;
  v4_json_len : forall r b, print_v4 r = Ok b ->
    str_len (p4_user_ml_dsa_pubkey_b64 r) + str_len (p4_user_signature_b64 r)
    + foldr N.add 0 ((fun d => str_len (de_ml_dsa_pubkey_b64 d) + str_len (de_kem_pubkey_b64 d)
                               + str_len (de_cert_b64 d)) <$> p4_devices r) <= len b;
}.

Section sizes.
  Context `{Base64, Sha256, MlDsaBackend, UrlParse, PairErrorDisplay, FabricJson} `{!SizeLaws}.
  Context {W : Type} `{IpDisplay, RelayNet, HS : !RelayServer W}.

(** ML-DSA-65: keys of 1952 and signatures of 3309 bytes. *)
Definition ml_dsa_65_sized (user : UserKeypair) : Prop :=
  len (uk_public user) = 1952 /\ forall m s, uk_sign user m = Ok s -> len s = 3309.

(** A device enrolled with a certificate of the account and keys of the usual sizes
    (ML-KEM-768 keys have 1184 bytes). *)
Definition enrolled_device (user : UserKeypair) (d : DeviceEntryV4) : Prop :=
  exists id ml kem t cert relays d0 p,
    len ml = 1952 /\ len kem = 1184 /\ mint_agent_certificate user id ml kem t = Ok cert /\
    device_entry_from_cert cert relays = Ok d0 /\ d = set_primary p d0.

Lemma enrolled_device_size user d :
  ml_dsa_65_sized user -> enrolled_device user d ->
  15648 <= str_len (de_ml_dsa_pubkey_b64 d) + str_len (de_kem_pubkey_b64 d) + str_len (de_cert_b64 d).
Proof.
  intros [_ Hsig] (id & ml & kem & t & cert & relays & d0 & p & Hml & Hkem & Hc & Hd & ->).
  revert Hc. unfold mint_agent_certificate, user_sign. destruct (negb _); [done|].
  destruct (cert_signing_input _ _ _ _ _) as [input|]; [|done].
  destruct (uk_sign user input) as [sig|] eqn:Hs; [|done]. intros [= <-].
  revert Hd. unfold device_entry_from_cert. destruct (print_cert _) as [cb|] eqn:Hp; [|done]. intros [= <-].
  pose proof (cert_json_len _ _ Hp) as Hl. revert Hl.
  cbn [set_primary de_ml_dsa_pubkey_b64 de_kem_pubkey_b64 de_cert_b64 ac_agent_ml_dsa_pubkey_b64
    ac_kem_pubkey_b64 ac_sig_b64]. rewrite !b64_len, Hml, Hkem, (Hsig _ _ Hs).
  change ((1952 + 2) / 3) with 651. change ((1184 + 2) / 3) with 395. change ((3309 + 2) / 3) with 1103.
  intros Hl. assert (2866 <= (len cb + 2) / 3) by (apply N.div_le_lower_bound; lia). lia.
Qed.

Lemma four_devices_size user rev t ds r body :
  ml_dsa_65_sized user -> Forall (enrolled_device user) ds -> 4 <= len ds ->
  mint_pair_record_v4 user rev t ds = Ok r -> print_v4 r = Ok body -> MAX_RELAY_BODY_BYTES < len body.
Proof.
  intros Hsz Hds Hlen Hm Hp. pose proof (v4_json_len _ _ Hp) as Hl. revert Hm. unfold mint_pair_record_v4, user_sign.
  destruct (mint_views ds); [|done]. destruct (pair_record_v4_signing_input _ _ _ _ _) as [input|]; [|done].
  destruct (uk_sign user input) as [sig|] eqn:Hs; [|done]. intros [= <-]. revert Hl.
  cbn [p4_user_ml_dsa_pubkey_b64 p4_user_signature_b64 p4_devices].
  destruct Hsz as [Hpk Hsig]. rewrite !b64_len, Hpk, (Hsig _ _ Hs).
  change ((1952 + 2) / 3) with 651. change ((3309 + 2) / 3) with 1103.
  set (f := fun d => _). assert (15648 * len ds <= foldr N.add 0 (f <$> ds)) as Hsum.
  { clear Hlen Hp. unfold len. induction Hds as [|d ds Hd _ IH]; [done|].
    rewrite fmap_cons. cbn [foldr length]. rewrite Nat2N.inj_succ.
    pose proof (enrolled_device_size user d (conj Hpk Hsig) Hd : 15648 <= f d) as Hone. lia. }
  unfold MAX_RELAY_BODY_BYTES. lia.
Qed.

(** The device list of an account with four or more
    enrolled devices is larger than a client reads. A relay that holds it serves it
    (its own cap allows for five), but every contact that resolves it, or receives it
    pushed, rejects the body: it keeps what it had cached, nothing at first contact,
    and goes on sending to that. *)
Theorem four_devices_unresolvable (user : UserKeypair) (rev t : N) (ds : list DeviceEntryV4) (r : PairRecordV4)
    (body : bytes) (relay : Url) (resp : Response) (w w' : W) (parts : list bytes)
    (cached : option PairRecordV4) (io : result unit ChatError) (fb : FabricStore)
    (unwrap : bytes -> result bytes string) (push : bytes) :
  ml_dsa_65_sized user -> Forall (enrolled_device user) ds -> 4 <= len ds ->
  mint_pair_record_v4 user rev t ds = Ok r -> print_v4 r = Ok body ->
  relay_request relay ("v1/pair-record-v4/" +:+ user_id_hex user) GetRequest w = (Ok resp, w') ->
  rp_status resp = 200 -> rp_chunks resp = Ok <$> parts -> concat parts = body ->
  load_contact_pair_record_v4 (user_id_hex user) fb = Ok cached -> unwrap push = Ok body ->
  resolve_pair_record_v4 (user_id_hex user) relay io fb w = (Ok cached, fb, w') /\
  is_ok (decode_pushed_pair_record_v4 unwrap push) = false.
Proof.
  intros Hsz Hds Hlen Hm Hp Hreq Hst Hch Hbody Hload Hpush.
  pose proof (four_devices_size _ _ _ _ _ _ Hsz Hds Hlen Hm Hp) as Hbig. split.
  - unfold resolve_pair_record_v4. rewrite Hload. unfold get_pair_record_v4. rewrite Hreq, Hst. cbn [N.eqb Pos.eqb].
    unfold is_success. rewrite Hst. cbn [N.leb N.ltb N.compare Pos.compare Pos.compare_cont andb negb].
    destruct (read_body_capped resp MAX_RELAY_BODY_BYTES) as [raw|e] eqn:Hread; [|done]. exfalso.
    destruct (read_body_bounded _ _ _ Hread) as (parts' & Hch' & -> & Hb). rewrite Hch in Hch'.
    assert (Inj (=) (=) (@Ok bytes string)) by (intros ? ? [= ->]; done).
    assert (parts = parts') as <- by (by apply (inj (fmap (M := list) (@Ok bytes string)))).
    rewrite Hbody in Hb. lia.
  - unfold decode_pushed_pair_record_v4. rewrite Hpush. by destruct (N.ltb_spec MAX_RELAY_BODY_BYTES (len body)); [|lia].
Qed.
End sizes.

(** ** Witnesses *)

(** Padding to the length of base64, a mark, and the bytes as characters. *)
Definition pad_to_b64 (raw : bytes) : bytes :=
  match raw with
  | [] => []
  | _ => replicate (N.to_nat (4 * ((len raw + 2) / 3) - len raw - 1)) 0 ++ 1 :: raw
  end.
Fixpoint unpad (l : bytes) : option bytes :=
  match l with [] => Some [] | 0 :: l => unpad l | _ :: l => Some l end.
Fixpoint chars (l : bytes) : string :=
  match l with [] => EmptyString | b :: l => String (Ascii.ascii_of_N b) (chars l) end.

Lemma unpad_pad raw : unpad (pad_to_b64 raw) = Some raw.
Proof. destruct raw as [|b raw]; [done|]. unfold pad_to_b64. generalize (b :: raw). intros l. by induction (N.to_nat _). Qed.

Lemma pad_len raw : len (pad_to_b64 raw) = 4 * ((len raw + 2) / 3).
Proof.
  destruct raw as [|b raw]; [done|]. unfold pad_to_b64. set (l := b :: raw).
  assert (1 <= len l) as Hl by (unfold l, len; cbn; lia).
  pose proof (N.div_mod (len l + 2) 3 ltac:(lia)). pose proof (N.mod_lt (len l + 2) 3 ltac:(lia)).
  unfold len at 1. rewrite length_app. cbn [length]. rewrite length_replicate.
  set (q := (len l + 2) / 3) in *. unfold len in *. lia.
Qed.

Lemma pad_bytes raw : Forall (fun b => b < 256) raw -> Forall (fun b => b < 256) (pad_to_b64 raw).
Proof.
  destruct raw as [|b raw]; [done|]. intros Hr. apply Forall_app. split.
  - apply Forall_replicate. lia.
  - constructor; [lia|done].
Qed.

Lemma ascii_bytes_chars l : Forall (fun b => b < 256) l -> ascii_bytes (chars l) = l.
Proof. induction 1 as [|b l Hb _ IH]; [done|]. cbn. by rewrite Ascii.N_ascii_embedding, IH. Qed.

Lemma chars_len l : str_len (chars l) = len l.
Proof. unfold str_len, len. f_equal. induction l as [|b l IH]; [done|]. cbn. by rewrite IH. Qed.

Definition sized_base64 : Base64.
Proof.
  refine {| b64_encode raw := chars (pad_to_b64 raw); b64_decode s := unpad (ascii_bytes s) |}.
  intros raw Hr. by rewrite ascii_bytes_chars, unpad_pad by (by apply pad_bytes).
Defined.
#[local] Existing Instance sized_base64.
#[local] Existing Instance demo_url.
#[local] Instance fb_sha : Sha256 := fun b => replicate 31 0 ++ [len b mod 256].
#[local] Existing Instance demo_mldsa.
#[local] Instance fb_display : PairErrorDisplay := fun _ => EmptyString.

(** JSON as the strings one after the other. *)
#[local] Instance fb_json : FabricJson :=
  {| print_cert := fun c => Ok (ascii_bytes (ac_agent_ml_dsa_pubkey_b64 c)
       ++ ascii_bytes (ac_kem_pubkey_b64 c) ++ ascii_bytes (ac_sig_b64 c));
     print_v4 := fun r => Ok (ascii_bytes (p4_user_ml_dsa_pubkey_b64 r) ++ ascii_bytes (p4_user_signature_b64 r)
       ++ concat ((fun d => ascii_bytes (de_ml_dsa_pubkey_b64 d) ++ ascii_bytes (de_kem_pubkey_b64 d)
                            ++ ascii_bytes (de_cert_b64 d)) <$> p4_devices r));
     parse_v4 := fun _ => Err "x"%string; parse_revision := fun _ => Err "x"%string |}.

#[local] Instance fb_sizes : SizeLaws.
Proof.
  constructor.
  - intros raw. cbn. by rewrite chars_len, pad_len.
  - intros c b [= <-]. unfold str_len, len. rewrite !length_app. lia.
  - intros r b [= <-]. unfold str_len, len. rewrite !length_app.
    assert (foldr N.add 0 ((fun d => N.of_nat (length (ascii_bytes (de_ml_dsa_pubkey_b64 d)))
      + N.of_nat (length (ascii_bytes (de_kem_pubkey_b64 d))) + N.of_nat (length (ascii_bytes (de_cert_b64 d)))) <$> p4_devices r)
      = N.of_nat (length (concat ((fun d => ascii_bytes (de_ml_dsa_pubkey_b64 d) ++ ascii_bytes (de_kem_pubkey_b64 d)
                            ++ ascii_bytes (de_cert_b64 d)) <$> p4_devices r)))) as ->; [|lia].
    induction (p4_devices r) as [|d ds IH]; [done|]. rewrite !fmap_cons. cbn [foldr concat].
    rewrite !length_app, IH. lia.
Qed.

Definition account : UserKeypair := {| uk_public := replicate 1952 5; uk_sign := fun _ => Ok (replicate 3309 5) |}.
Definition phone_key (n : N) : bytes := n :: replicate 1951 6.
Definition phone (n : N) (primary : bool) : result DeviceEntryV4 ChatError :=
  let? c := mint_agent_certificate account (hex_encode (derive_agent_id (phone_key n))) (phone_key n)
              (replicate 1184 7) 3 in
  let? d := device_entry_from_cert c ["https://r"%string] in
  Ok (set_primary primary d).
Definition phones : list DeviceEntryV4 :=
  default [] (mapM (fun n => match phone n (n =? 1) with Ok d => Some d | Err _ => None end) [1; 2; 3; 4]).

Definition body_of (r : result PairRecordV4 ChatError) : bytes :=
  match r with Ok r => match print_v4 r with Ok b => b | _ => [] end | _ => [] end.
Definition phones_body : bytes := body_of (mint_pair_record_v4 account 4 9 phones).

#[local] Instance fb_ip : IpDisplay :=
  {| v4_to_string := fun _ => EmptyString; v6_to_string := fun _ => EmptyString |}.
#[local] Instance fb_net : RelayNet :=
  {| url_host := fun _ => None; url_port_or_known_default := fun _ => None; lookup_host := fun _ _ => Err "x"%string |}.
#[local] Instance fb_server : RelayServer unit :=
  {| url_join := fun u _ => Ok u;
     serve := fun _ _ _ => (fun _ => Ok {| rp_status := 200; rp_content_length := None;
                                          rp_chunks := Ok <$> [phones_body] |}, tt);
     local_relays_allowed := true |}.

Definition some_relay : Url := Build_Url "https" None None "" None "" None None.
Definition no_files : FabricStore := mkFabric None None ∅.

Lemma account_sized : ml_dsa_65_sized account.
Proof. split; [by vm_compute|]. intros m s [= <-]. by vm_compute. Qed.

Lemma account_id : is_user_id_hex (user_id_hex account) = true.
Proof. by vm_compute. Qed.

Lemma phones_enrolled : Forall (enrolled_device account) phones.
Proof.
  assert (forall n p d, phone n p = Ok d -> enrolled_device account d) as Hp.
  { intros n p d. unfold phone.
    destruct (mint_agent_certificate _ _ _ _ _) as [c|] eqn:Hc; [|done].
    destruct (device_entry_from_cert _ _) as [d0|] eqn:Hd; [|done]. intros [= <-].
    do 8 eexists. split_and!; [| |exact Hc|exact Hd|done]; by vm_compute. }
  unfold phones. destruct (mapM _ _) as [l|] eqn:Hm; [|constructor]. cbn [default].
  eapply mapM_Some_1, Forall2_Forall_r in Hm; [exact Hm|].
  apply Forall_forall. intros n _ d. destruct (phone n _) eqn:E; intros [= <-]. by eapply Hp.
Qed.

Lemma four_devices_unresolvable_witness :
  exists w', resolve_pair_record_v4 (user_id_hex account) some_relay (Ok tt) no_files tt = (Ok None, no_files, w').
Proof.
  assert (is_ok (mint_pair_record_v4 account 4 9 phones) = true) as Hok by by vm_compute.
  destruct (mint_pair_record_v4 account 4 9 phones) as [r|e] eqn:Hr; [|done]. clear Hok. exists tt.
  assert (print_v4 r = Ok phones_body) as Hb by (unfold phones_body; by rewrite Hr).
  refine (proj1 (four_devices_unresolvable account 4 9 phones r phones_body some_relay
    {| rp_status := 200; rp_content_length := None; rp_chunks := Ok <$> [phones_body] |} tt tt [phones_body]
    None (Ok tt) no_files (fun _ => Ok phones_body) []
    account_sized phones_enrolled _ Hr Hb _ eq_refl eq_refl _ _ eq_refl)).
  - by vm_compute.
  - done.
  - apply app_nil_r.
  - unfold load_contact_pair_record_v4. rewrite account_id. cbn [negb no_files fb_contacts].
    rewrite lookup_empty. reflexivity.
Defined.

(** A small account with two devices; a third is enrolled, then the primary leaves. *)
Definition owner : UserKeypair := {| uk_public := [5; 6]; uk_sign := fun _ => Ok [5; 6] |}.
Definition small_device (pk : bytes) (primary : bool) : DeviceEntryV4 :=
  {| de_agent_id_hex := hex_encode (derive_agent_id pk); de_ml_dsa_pubkey_b64 := b64_encode pk;
     de_kem_pubkey_b64 := b64_encode [8]; de_advertised_relays := ["https://r"%string];
     de_cert_b64 := b64_encode []; de_added_at_ms := 3; de_primary := primary |}.
Definition small_record (rev : N) (ds : list DeviceEntryV4) : PairRecordV4 :=
  {| p4_record_version := 4; p4_user_id_hex := user_id_hex owner;
     p4_user_ml_dsa_pubkey_b64 := b64_encode [5; 6]; p4_revision := rev; p4_issued_at_ms := 9;
     p4_devices := ds; p4_user_signature_b64 := b64_encode [5; 6] |}.
Definition two_devices : list DeviceEntryV4 := [small_device [1] true; small_device [1; 2] false].
Definition third_cert : AgentCertificate :=
  {| ac_cert_version := 1; ac_user_id_hex := user_id_hex owner;
     ac_agent_id_hex := hex_encode (derive_agent_id [1; 2; 3]); ac_agent_ml_dsa_pubkey_b64 := b64_encode [1; 2; 3];
     ac_kem_pubkey_b64 := b64_encode [8]; ac_added_at_ms := 4; ac_sig_b64 := b64_encode [5; 6] |}.
Definition owner_files : FabricStore := mkFabric None (Some (Ok (small_record 1 two_devices))) ∅.

Lemma owner_ok : user_ok owner.
Proof. split; [repeat constructor|]. intros m sig [= <-]. split_and!; [repeat constructor|done..]. Qed.

Lemma device_list_stays_valid_witness :
  let fb1 := fabric_run (Ok owner) [Enroll third_cert ["https://r"%string] 5 (Ok tt)] owner_files in
  exists r', (remove_and_mint_from_master (Ok owner) (hex_encode (derive_agent_id [1])) 7 (Ok tt) fb1).1 = Ok r' /\
    1 < p4_revision r' /\ length (p4_devices r') = 2%nat /\ verify_pair_record_v4 r' = Ok tt.
Proof.
  cbv zeta. eexists. split; [vm_compute; reflexivity|].
  destruct (device_list_stays_valid owner [Enroll third_cert ["https://r"%string] 5 (Ok tt)] owner_files
    (small_record 1 two_devices) (hex_encode (derive_agent_id [1])) 7 (Ok tt)) as [_ Hr];
    [exact owner_ok|constructor; [by vm_compute|constructor]|done|done|by vm_compute|done|].
  destruct (Hr _ ltac:(vm_compute; reflexivity)) as (Hlt & Hv & _).
  split; [by apply Hlt|]. split; [done|exact Hv].
Defined.

Lemma contact_devices_never_roll_back_witness :
  let fb := mkFabric None None {[user_id_hex owner := Ok (small_record 4 two_devices)]} in
  let ops := [OpPushed (user_id_hex owner) (small_record 2 [small_device [1] true]) (Ok tt);
              OpResolve (user_id_hex owner) some_relay (Ok tt);
              OpPushed (user_id_hex owner) (small_record 7 [small_device [1] true]) (Ok tt)] in
  fb_contacts (foldl contact_op (fb, tt) ops).1 !! user_id_hex owner
    = Some (Ok (small_record 7 [small_device [1] true])) /\
  contacts_le fb (foldl contact_op (fb, tt) ops).1.
Proof.
  cbv zeta. split; [by vm_compute|].
  apply contact_devices_never_roll_back. intros u r. cbn [fb_contacts]. rewrite lookup_singleton_Some.
  intros [<- [= <-]]. split; [done|by vm_compute].
Defined.
