(* ===== verification/PairIndex.v ===== *)
(** * The relay's reachability indexes

    Models [crates/fetchit-relay-server/src/pair_record.rs] and [forwarding.rs]:
    the per-agent and per-user record indexes, the forwarding index, the HTTP
    handlers that write and read them, and the background sweep that
    [server.rs] runs over both.

    JSON parsing is the [serde_json] package and is a parameter.  The verdict of
    the rate limiter is an argument of each POST: the handlers only read it, and
    the theorems hold for either answer. *)
From S2P Require Import Prelude RelayProto RelayAuth PairRecord.

Definition MAX_PAIR_RECORD_BODY_BYTES : N := 16 * 1024.
Definition MAX_PAIR_RECORD_V4_BODY_BYTES : N := 128 * 1024.
Definition MAX_FORWARDING_BODY_BYTES : N := 8 * 1024.
Definition FORWARDING_TTL_MS : N := 30 * 24 * 60 * 60 * 1000.

(** ** Indexes *)

Record PairRecordIndex := mkIndex {
  by_agent : gmap string PairRecordV1;
  by_user : gmap string PairRecordV4;
}.

Definition index_new : PairRecordIndex := mkIndex ∅ ∅.

Definition index_get (agent_id_hex : string) (i : PairRecordIndex) : option PairRecordV1 :=
  by_agent i !! agent_id_hex.

Definition current_issued_at (agent_id_hex : string) (i : PairRecordIndex) : option N :=
  pr_issued_at_ms <$> by_agent i !! agent_id_hex.

Definition index_put (record : PairRecordV1) (i : PairRecordIndex) : PairRecordIndex :=
  mkIndex (<[pr_agent_id_hex record := record]> (by_agent i)) (by_user i).

Definition put_if_newer (record : PairRecordV1) (i : PairRecordIndex)
    : result unit N * PairRecordIndex :=
  match by_agent i !! pr_agent_id_hex record with
  | Some e =>
      let current := pr_issued_at_ms e in
      if pr_issued_at_ms record <=? current then (Err current, i)
      else (Ok tt, mkIndex (<[pr_agent_id_hex record := record]> (by_agent i)) (by_user i))
  | None => (Ok tt, mkIndex (<[pr_agent_id_hex record := record]> (by_agent i)) (by_user i))
  end.

Definition get_v4 (user_id_hex : string) (i : PairRecordIndex) : option PairRecordV4 :=
  by_user i !! user_id_hex.

Definition current_revision (user_id_hex : string) (i : PairRecordIndex) : option N :=
  p4_revision <$> by_user i !! user_id_hex.

Definition put_v4 (record : PairRecordV4) (i : PairRecordIndex) : PairRecordIndex :=
  mkIndex (by_agent i) (<[p4_user_id_hex record := record]> (by_user i)).

Definition put_if_newer_v4 (record : PairRecordV4) (i : PairRecordIndex)
    : result unit N * PairRecordIndex :=
  match by_user i !! p4_user_id_hex record with
  | Some e =>
      let current := p4_revision e in
      if p4_revision record <=? current then (Err current, i)
      else (Ok tt, mkIndex (by_agent i) (<[p4_user_id_hex record := record]> (by_user i)))
  | None => (Ok tt, mkIndex (by_agent i) (<[p4_user_id_hex record := record]> (by_user i)))
  end.

Definition index_sweep_expired (now_ms ttl_ms : N) (i : PairRecordIndex)
    : nat * PairRecordIndex :=
  let a := filter (fun kv => now_ms -| pr_issued_at_ms kv.2 <= ttl_ms) (by_agent i) in
  let u := filter (fun kv => now_ms -| p4_issued_at_ms kv.2 <= ttl_ms) (by_user i) in
  ((size (by_agent i) - size a) + (size (by_user i) - size u), mkIndex a u)%nat.

Record StoredForwarding := {
  sf_record : ForwardingRecordV1;
  sf_stored_at_ms : N;
}.

Definition ForwardingIndex := gmap string StoredForwarding.

Definition get_live (agent_id_hex : string) (now_ms : N) (f : ForwardingIndex)
    : option ForwardingRecordV1 :=
  s ← f !! agent_id_hex;
  if FORWARDING_TTL_MS <? now_ms -| sf_stored_at_ms s then None else Some (sf_record s).

Definition fwd_put_if_newer (record : ForwardingRecordV1) (now_ms : N) (f : ForwardingIndex)
    : result unit N * ForwardingIndex :=
  match f !! fr_agent_id_hex record with
  | Some e =>
      let current := fr_issued_at_ms (sf_record e) in
      if fr_issued_at_ms record <=? current then (Err current, f)
      else (Ok tt, <[fr_agent_id_hex record :=
                       {| sf_record := record; sf_stored_at_ms := now_ms |}]> f)
  | None => (Ok tt, <[fr_agent_id_hex record :=
                       {| sf_record := record; sf_stored_at_ms := now_ms |}]> f)
  end.

Definition fwd_sweep_expired (now_ms : N) (f : ForwardingIndex) : nat * ForwardingIndex :=
  let f' := filter (fun kv => now_ms -| sf_stored_at_ms kv.2 <= FORWARDING_TTL_MS) f in
  (size f - size f', f')%nat.

(** ** HTTP *)

Inductive PairRecordHttpError :=
| BodyTooLarge
| Malformed (why : string)
| Verify (e : PairRecordError)
| RateLimited
| NonMonotonic (current_issued_at_ms : N)
| NonMonotonicRevision (current_revision : N).

Inductive ForwardingHttpError :=
| FwdBodyTooLarge
| FwdMalformed (why : string)
| NoPairRecord
| StoredKeyUndecodable
| FwdVerify (e : PairRecordError)
| FwdRateLimited
| FwdNonMonotonic (current_issued_at_ms : N).

Definition verify_status (e : PairRecordError) : N :=
  match e with
  | AgentIdMismatch | UserIdMismatch | SignatureInvalid => 403
  | VerifyBackend _ => 500
  | EmptyRelays | TooManyRelays _ | RelayUrlTooLong _ | RelayUrlInvalid
  | RelayUrlHasCredentials | InvalidAgentIdHex | InvalidUserIdHex | EmptyDevices
  | TooManyDevices _ | NotExactlyOnePrimary _ | Base64Error | PubkeyParse _
  | SignatureParse _ | FieldTooLong _ => 400
  end.

Definition pair_status (e : PairRecordHttpError) : N :=
  match e with
  | BodyTooLarge => 413
  | Malformed _ => 400
  | RateLimited => 429
  | NonMonotonic _ | NonMonotonicRevision _ => 409
  | Verify e => verify_status e
  end.

Definition fwd_status (e : ForwardingHttpError) : N :=
  match e with
  | FwdBodyTooLarge => 413
  | FwdMalformed _ => 400
  | NoPairRecord => 412
  | StoredKeyUndecodable => 500
  | FwdRateLimited => 429
  | FwdNonMonotonic _ => 409
  | FwdVerify e => verify_status e
  end.

(** The 32-byte id behind a hex id, or why it is malformed. *)
Definition agent_id_from_hex (hex_str : string) : result AgentId string :=
  match hex_decode hex_str with
  | None => Err "agent_id_hex not hex"%string
  | Some raw => if len raw =? 32 then Ok raw else Err "agent_id_hex wrong length"%string
  end.

(** [serde_json::from_slice] for the three bodies. *)
Class RecordJson := {
  json_pair : bytes -> option PairRecordV1;
  json_pair_v4 : bytes -> option PairRecordV4;
  json_forwarding : bytes -> option ForwardingRecordV1;
}.

(** The part of [ServerState] these handlers share. *)
Record Reach := mkReach {
  pair_records : PairRecordIndex;
  forwarding : ForwardingIndex;
}.

(** [r.map_err(f)]. *)
Definition map_err {A E F} (f : E -> F) (r : result A E) : result A F :=
  match r with Ok a => Ok a | Err e => Err (f e) end.

Section handlers.
  Context `{UrlParse} `{Sha256} `{Base64} `{MlDsaBackend} `{RecordJson}.

Definition post_pair_record (body : bytes) (allowed : bool) (st : Reach)
    : result unit PairRecordHttpError * Reach :=
  if MAX_PAIR_RECORD_BODY_BYTES <? len body then (Err BodyTooLarge, st)
  else match json_pair body with
  | None => (Err (Malformed "invalid JSON body"), st)
  | Some record =>
      match verify_pair_record record with
      | Err e => (Err (Verify e), st)
      | Ok _ =>
          match agent_id_from_hex (pr_agent_id_hex record) with
          | Err why => (Err (Malformed why), st)
          | Ok _ =>
              if negb allowed then (Err RateLimited, st)
              else
                let '(r, i) := put_if_newer record (pair_records st) in
                (map_err NonMonotonic r, mkReach i (forwarding st))
          end
      end
  end.

Definition get_pair_record (agent_id : string) (st : Reach) : option PairRecordV1 :=
  index_get (to_ascii_lowercase agent_id) (pair_records st).

Definition post_pair_record_v4 (body : bytes) (allowed : bool) (st : Reach)
    : result unit PairRecordHttpError * Reach :=
  if MAX_PAIR_RECORD_V4_BODY_BYTES <? len body then (Err BodyTooLarge, st)
  else match json_pair_v4 body with
  | None => (Err (Malformed "invalid JSON body"), st)
  | Some record =>
      match verify_pair_record_v4 record with
      | Err e => (Err (Verify e), st)
      | Ok _ =>
          match agent_id_from_hex (p4_user_id_hex record) with
          | Err why => (Err (Malformed why), st)
          | Ok _ =>
              if negb allowed then (Err RateLimited, st)
              else
                let '(r, i) := put_if_newer_v4 record (pair_records st) in
                (map_err NonMonotonicRevision r, mkReach i (forwarding st))
          end
      end
  end.

Definition get_pair_record_v4 (user_id : string) (st : Reach) : option PairRecordV4 :=
  get_v4 (to_ascii_lowercase user_id) (pair_records st).

Definition post_forwarding (body : bytes) (allowed : bool) (now_ms : N) (st : Reach)
    : result unit ForwardingHttpError * Reach :=
  if MAX_FORWARDING_BODY_BYTES <? len body then (Err FwdBodyTooLarge, st)
  else match json_forwarding body with
  | None => (Err (FwdMalformed "invalid JSON body"), st)
  | Some record =>
      match index_get (to_ascii_lowercase (fr_agent_id_hex record)) (pair_records st) with
      | None => (Err NoPairRecord, st)
      | Some pr =>
          match b64_decode (pr_ml_dsa_pubkey_b64 pr) with
          | None => (Err StoredKeyUndecodable, st)
          | Some pubkey =>
              match verify_forwarding_record record pubkey with
              | Err e => (Err (FwdVerify e), st)
              | Ok _ =>
                  match agent_id_from_hex (fr_agent_id_hex record) with
                  | Err why => (Err (FwdMalformed why), st)
                  | Ok _ =>
                      if negb allowed then (Err FwdRateLimited, st)
                      else
                        let '(r, f) := fwd_put_if_newer record now_ms (forwarding st) in
                        (map_err FwdNonMonotonic r, mkReach (pair_records st) f)
                  end
              end
          end
      end
  end.

Definition get_live_unsuperseded (st : Reach) (agent_id_hex : string) (now_ms : N)
    : option ForwardingRecordV1 :=
  fwd ← get_live agent_id_hex now_ms (forwarding st);
  match index_get agent_id_hex (pair_records st) with
  | Some pr => if fr_issued_at_ms fwd <? pr_issued_at_ms pr then None else Some fwd
  | None => Some fwd
  end.

Definition get_forwarding (agent_id : string) (now_ms : N) (st : Reach)
    : option ForwardingRecordV1 :=
  get_live_unsuperseded st (to_ascii_lowercase agent_id) now_ms.

(** The background sweeper's two calls on this state. *)
Definition sweep_reach (now_ms ttl_ms : N) (st : Reach) : Reach :=
  mkReach (index_sweep_expired now_ms ttl_ms (pair_records st)).2
          (fwd_sweep_expired now_ms (forwarding st)).2.

(** A call that writes the indexes. *)
Inductive ReachOp :=
| PostPair (body : bytes) (allowed : bool)
| PostPairV4 (body : bytes) (allowed : bool)
| PostForwarding (body : bytes) (allowed : bool) (now_ms : N)
| SweepReach (now_ms ttl_ms : N).

Definition reach_step (st : Reach) (op : ReachOp) : Reach :=
  match op with
  | PostPair body ok => (post_pair_record body ok st).2
  | PostPairV4 body ok => (post_pair_record_v4 body ok st).2
  | PostForwarding body ok now => (post_forwarding body ok now st).2
  | SweepReach now ttl => sweep_reach now ttl st
  end.

Definition reach_run (st : Reach) (ops : list ReachOp) : Reach := foldl reach_step st ops.
Definition reach_new : Reach := mkReach index_new ∅.

(** ** What each POST does *)

Ltac destruct_exists :=
  repeat match goal with H : exists _, _ |- _ => destruct H as [? H] end; destruct_and?.
(** A gate that failed: no record passes and the state is returned as it was. *)
Ltac refused :=
  right; split;
  [ intros ? (? & ? & ? & ? & ?); destruct_exists; simplify_eq;
    try match goal with Ha : ?x = Err _, H : is_ok ?x = true |- _ => by rewrite Ha in H end;
    (lia || congruence)
  | by eexists ].

(** The gates a pair-record POST passes before the watermark. *)
Definition pair_gates (body : bytes) (allowed : bool) (record : PairRecordV1) : Prop :=
  len body <= MAX_PAIR_RECORD_BODY_BYTES /\ json_pair body = Some record /\
  verify_pair_record record = Ok tt /\
  is_ok (agent_id_from_hex (pr_agent_id_hex record)) = true /\ allowed = true.

Definition user_gates (body : bytes) (allowed : bool) (record : PairRecordV4) : Prop :=
  len body <= MAX_PAIR_RECORD_V4_BODY_BYTES /\ json_pair_v4 body = Some record /\
  verify_pair_record_v4 record = Ok tt /\
  is_ok (agent_id_from_hex (p4_user_id_hex record)) = true /\ allowed = true.

(** Those of a forwarding POST: the key comes from the stored pair record. *)
Definition fwd_gates (body : bytes) (allowed : bool) (st : Reach) (record : ForwardingRecordV1)
    : Prop :=
  len body <= MAX_FORWARDING_BODY_BYTES /\ json_forwarding body = Some record /\
  (exists pr pk,
     index_get (to_ascii_lowercase (fr_agent_id_hex record)) (pair_records st) = Some pr /\
     b64_decode (pr_ml_dsa_pubkey_b64 pr) = Some pk /\
     verify_forwarding_record record pk = Ok tt) /\
  is_ok (agent_id_from_hex (fr_agent_id_hex record)) = true /\ allowed = true.

Lemma post_pair_gated body allowed st :
  (exists record, pair_gates body allowed record /\
     post_pair_record body allowed st =
       (map_err NonMonotonic (put_if_newer record (pair_records st)).1,
        mkReach (put_if_newer record (pair_records st)).2 (forwarding st))) \/
  ((forall record, ~ pair_gates body allowed record) /\
   exists e, post_pair_record body allowed st = (Err e, st) /\ forall c, e <> NonMonotonic c).
Proof.
  unfold post_pair_record, pair_gates.
  destruct (N.ltb_spec MAX_PAIR_RECORD_BODY_BYTES (len body)) as [Hl|Hl].
  { refused. }
  destruct (json_pair body) as [record|]; [|refused].
  destruct (verify_pair_record record) as [[]|e] eqn:Hv; [|refused].
  destruct (agent_id_from_hex (pr_agent_id_hex record)) as [a|w] eqn:Ha; [|refused].
  destruct allowed; [|refused].
  left. exists record. rewrite Ha. split; [done|]. by destruct (put_if_newer _ _).
Qed.

Lemma post_pair_no_revision body allowed st c :
  (post_pair_record body allowed st).1 <> Err (NonMonotonicRevision c).
Proof.
  unfold post_pair_record. destruct (_ <? _); [done|]. destruct (json_pair body) as [r|]; [|done].
  destruct (verify_pair_record r); [|done]. destruct (agent_id_from_hex _); [|done]. destruct allowed; [|done].
  cbn [negb]. by destruct (put_if_newer _ _) as [[|] ?].
Qed.

Lemma post_user_gated body allowed st :
  (exists record, user_gates body allowed record /\
     post_pair_record_v4 body allowed st =
       (map_err NonMonotonicRevision (put_if_newer_v4 record (pair_records st)).1,
        mkReach (put_if_newer_v4 record (pair_records st)).2 (forwarding st))) \/
  ((forall record, ~ user_gates body allowed record) /\
   exists e, post_pair_record_v4 body allowed st = (Err e, st) /\
     forall c, e <> NonMonotonicRevision c).
Proof.
  unfold post_pair_record_v4, user_gates.
  destruct (N.ltb_spec MAX_PAIR_RECORD_V4_BODY_BYTES (len body)) as [Hl|Hl].
  { refused. }
  destruct (json_pair_v4 body) as [record|]; [|refused].
  destruct (verify_pair_record_v4 record) as [[]|e] eqn:Hv; [|refused].
  destruct (agent_id_from_hex (p4_user_id_hex record)) as [a|w] eqn:Ha; [|refused].
  destruct allowed; [|refused].
  left. exists record. rewrite Ha. split; [done|]. by destruct (put_if_newer_v4 _ _).
Qed.

Lemma post_fwd_gated body allowed now st :
  (exists record, fwd_gates body allowed st record /\
     post_forwarding body allowed now st =
       (map_err FwdNonMonotonic (fwd_put_if_newer record now (forwarding st)).1,
        mkReach (pair_records st) (fwd_put_if_newer record now (forwarding st)).2)) \/
  ((forall record, ~ fwd_gates body allowed st record) /\
   exists e, post_forwarding body allowed now st = (Err e, st) /\ forall c, e <> FwdNonMonotonic c).
Proof.
  unfold post_forwarding, fwd_gates.
  destruct (N.ltb_spec MAX_FORWARDING_BODY_BYTES (len body)) as [Hl|Hl].
  { refused. }
  destruct (json_forwarding body) as [record|]; [|refused].
  destruct (index_get _ _) as [pr|] eqn:Hpr; [|refused].
  destruct (b64_decode (pr_ml_dsa_pubkey_b64 pr)) as [pk|] eqn:Hpk; [|refused].
  destruct (verify_forwarding_record record pk) as [[]|e] eqn:Hv; [|refused].
  destruct (agent_id_from_hex (fr_agent_id_hex record)) as [a|w] eqn:Ha; [|refused].
  destruct allowed; [|refused].
  left. exists record. rewrite Ha. split; [split_and!; eauto|]. by destruct (fwd_put_if_newer _ _ _).
Qed.

(** ** The watermark *)

(** Storing under a strictly growing stamp: the new value when it is newer than
    what is held, and otherwise the stamp that is held. *)
Lemma put_if_newer_spec record i :
  let k := pr_agent_id_hex record in
  (forall r, by_agent i !! k = Some r -> pr_issued_at_ms r < pr_issued_at_ms record) /\
    put_if_newer record i = (Ok tt, index_put record i) \/
  exists r, by_agent i !! k = Some r /\ pr_issued_at_ms record <= pr_issued_at_ms r /\
    put_if_newer record i = (Err (pr_issued_at_ms r), i).
Proof.
  cbv zeta. unfold put_if_newer, index_put.
  destruct (by_agent i !! pr_agent_id_hex record) as [r|] eqn:Hr; [|by left].
  destruct (N.leb_spec (pr_issued_at_ms record) (pr_issued_at_ms r)); [right; eauto|].
  left. split; [|done]. intros ? [= <-]. lia.
Qed.

Lemma put_if_newer_v4_spec record i :
  let k := p4_user_id_hex record in
  (forall r, by_user i !! k = Some r -> p4_revision r < p4_revision record) /\
    put_if_newer_v4 record i = (Ok tt, put_v4 record i) \/
  exists r, by_user i !! k = Some r /\ p4_revision record <= p4_revision r /\
    put_if_newer_v4 record i = (Err (p4_revision r), i).
Proof.
  cbv zeta. unfold put_if_newer_v4, put_v4.
  destruct (by_user i !! p4_user_id_hex record) as [r|] eqn:Hr; [|by left].
  destruct (N.leb_spec (p4_revision record) (p4_revision r)); [right; eauto|].
  left. split; [|done]. intros ? [= <-]. lia.
Qed.

Lemma fwd_put_if_newer_spec record now f :
  let k := fr_agent_id_hex record in
  (forall r, f !! k = Some r -> fr_issued_at_ms (sf_record r) < fr_issued_at_ms record) /\
    fwd_put_if_newer record now f =
      (Ok tt, <[k := {| sf_record := record; sf_stored_at_ms := now |}]> f) \/
  exists r, f !! k = Some r /\ fr_issued_at_ms record <= fr_issued_at_ms (sf_record r) /\
    fwd_put_if_newer record now f = (Err (fr_issued_at_ms (sf_record r)), f).
Proof.
  cbv zeta. unfold fwd_put_if_newer.
  destruct (f !! fr_agent_id_hex record) as [r|] eqn:Hr; [|by left].
  destruct (N.leb_spec (fr_issued_at_ms record) (fr_issued_at_ms (sf_record r))); [right; eauto|].
  left. split; [|done]. intros ? [= <-]. lia.
Qed.

(** Every entry of [m] is still in [m'], or a strictly later one took its place. *)
Definition advanced {V} (stamp : V -> N) (m m' : gmap string V) : Prop :=
  forall k v, m !! k = Some v -> exists v', m' !! k = Some v' /\ (v' = v \/ stamp v < stamp v').

#[export] Instance advanced_preorder {V} (stamp : V -> N) : PreOrder (advanced stamp).
Proof.
  split; [intros m k v; eauto|]. intros m1 m2 m3 H12 H23 k v Hv.
  destruct (H12 k v Hv) as (v' & Hv' & Hc). destruct (H23 k v' Hv') as (v'' & Hv'' & Hc').
  exists v''. split; [done|].
  destruct Hc as [->|?], Hc' as [->|?]; [by left | by right..| right; lia].
Qed.

Lemma advanced_insert {V} (stamp : V -> N) (m : gmap string V) k v :
  (forall w, m !! k = Some w -> stamp w < stamp v) -> advanced stamp m (<[k := v]> m).
Proof.
  intros Hnew k' w Hw. destruct (decide (k' = k)) as [->|].
  - exists v. rewrite lookup_insert_eq. eauto.
  - exists w. rewrite lookup_insert_ne by done. eauto.
Qed.

(** One state's records after another's, on all three indexes. *)
Definition reach_advanced (st st' : Reach) : Prop :=
  advanced pr_issued_at_ms (by_agent (pair_records st)) (by_agent (pair_records st')) /\
  advanced p4_revision (by_user (pair_records st)) (by_user (pair_records st')) /\
  advanced (fun s => fr_issued_at_ms (sf_record s)) (forwarding st) (forwarding st').

#[export] Instance reach_advanced_preorder : PreOrder reach_advanced.
Proof.
  split; [by intros st|]. intros s1 s2 s3 (? & ? & ?) (? & ? & ?).
  split_and!; by etrans.
Qed.

Definition is_sweep (op : ReachOp) : bool :=
  match op with SweepReach _ _ => true | _ => false end.

Lemma reach_step_advanced st op : is_sweep op = false -> reach_advanced st (reach_step st op).
Proof.
  intros Hop. destruct op as [body ok|body ok|body ok now|]; [..|done]; cbn.
  - destruct (post_pair_gated body ok st) as [(r & _ & ->)|[_ (e & -> & _)]]; [|done]. cbn.
    destruct (put_if_newer_spec r (pair_records st)) as [[Hn ->]|(c & _ & _ & ->)];
      split_and!; try done. by apply advanced_insert.
  - destruct (post_user_gated body ok st) as [(r & _ & ->)|[_ (e & -> & _)]]; [|done]. cbn.
    destruct (put_if_newer_v4_spec r (pair_records st)) as [[Hn ->]|(c & _ & _ & ->)];
      split_and!; try done. by apply advanced_insert.
  - destruct (post_fwd_gated body ok now st) as [(r & _ & ->)|[_ (e & -> & _)]]; [|done]. cbn.
    destruct (fwd_put_if_newer_spec r now (forwarding st)) as [[Hn ->]|(c & _ & _ & ->)];
      split_and!; try done. by apply advanced_insert.
Qed.

Lemma reach_run_advanced ops st :
  existsb is_sweep ops = false -> reach_advanced st (reach_run st ops).
Proof.
  unfold reach_run. revert st. induction ops as [|op ops IH]; intros st; [done|]. cbn.
  intros [Hop Hops]%orb_false_iff. etrans; [by apply reach_step_advanced | by apply IH].
Qed.

(** Between sweeps no index ever goes back: whatever
    requests arrive, each agent's record, each user's record and each forwarding
    record stays or is replaced by one with a strictly larger stamp.  A POST of
    a record is answered 409 with the held stamp exactly when the record passed
    every gate and is not newer than what is held. *)
Theorem no_record_rollback (st : Reach) (ops : list ReachOp) (body : bytes) (allowed : bool) (c : N) :
  existsb is_sweep ops = false ->
  reach_advanced st (reach_run st ops) /\
  ((post_pair_record body allowed st).1 = Err (NonMonotonic c) <->
   exists record held, pair_gates body allowed record /\
     by_agent (pair_records st) !! pr_agent_id_hex record = Some held /\
     pr_issued_at_ms held = c /\ pr_issued_at_ms record <= c).
Proof.
  intros Hops. split; [by apply reach_run_advanced|].
  destruct (post_pair_gated body allowed st) as [(r & Hg & ->)|[Hng (e & -> & He)]]; cbn; cycle 1.
  { split; [intros [= ->]; by destruct (He c) | intros (r & h & Hg & _); by destruct (Hng r)]. }
  destruct (put_if_newer_spec r (pair_records st)) as [[Hn ->]|(h & Hh & Hle & ->)]; cbn.
  - split; [done|]. intros (r' & h & Hg' & Hh & <- & Hle).
    assert (r' = r) as -> by (destruct Hg as (_ & ? & _), Hg' as (_ & ? & _); congruence).
    specialize (Hn h Hh). lia.
  - split; [intros [= <-]; eauto 10|]. intros (r' & h' & Hg' & Hh' & <- & Hle').
    assert (r' = r) as -> by (destruct Hg as (_ & ? & _), Hg' as (_ & ? & _); congruence).
    congruence.
Qed.

(** ** What is served *)

Record reach_wf (st : Reach) : Prop := {
  rw_agent : forall k r, by_agent (pair_records st) !! k = Some r ->
    pr_agent_id_hex r = k /\ verify_pair_record r = Ok tt;
  rw_user : forall k r, by_user (pair_records st) !! k = Some r ->
    p4_user_id_hex r = k /\ verify_pair_record_v4 r = Ok tt;
  rw_fwd : forall k s, forwarding st !! k = Some s ->
    fr_agent_id_hex (sf_record s) = k /\
    exists pk, verify_forwarding_record (sf_record s) pk = Ok tt;
}.

(** Fewer entries are as well-formed. *)
Lemma reach_wf_subseteq st st' :
  reach_wf st ->
  by_agent (pair_records st') ⊆ by_agent (pair_records st) ->
  by_user (pair_records st') ⊆ by_user (pair_records st) ->
  forwarding st' ⊆ forwarding st -> reach_wf st'.
Proof.
  intros [Ha Hu Hf] Sa Su Sf.
  constructor; intros k x Hx; [apply Ha | apply Hu | apply Hf]; by eapply lookup_weaken.
Qed.

Lemma reach_step_wf st op : reach_wf st -> reach_wf (reach_step st op).
Proof.
  intros Hwf. destruct op as [body ok|body ok|body ok now|now ttl]; cbn.
  - destruct (post_pair_gated body ok st) as [(r & Hg & ->)|[_ (e & -> & _)]]; [|done]. cbn.
    destruct (put_if_newer_spec r (pair_records st)) as [[_ ->]|(c & _ & _ & ->)];
      destruct Hwf as [Ha Hu Hf], Hg as (_ & _ & Hv & _); constructor; cbn; try done.
    intros k x [[<- <-]|[_ Hx]]%lookup_insert_Some; [done | by apply Ha].
  - destruct (post_user_gated body ok st) as [(r & Hg & ->)|[_ (e & -> & _)]]; [|done]. cbn.
    destruct (put_if_newer_v4_spec r (pair_records st)) as [[_ ->]|(c & _ & _ & ->)];
      destruct Hwf as [Ha Hu Hf], Hg as (_ & _ & Hv & _); constructor; cbn; try done.
    intros k x [[<- <-]|[_ Hx]]%lookup_insert_Some; [done | by apply Hu].
  - destruct (post_fwd_gated body ok now st) as [(r & Hg & ->)|[_ (e & -> & _)]]; [|done]. cbn.
    destruct (fwd_put_if_newer_spec r now (forwarding st)) as [[_ ->]|(c & _ & _ & ->)];
      destruct Hwf as [Ha Hu Hf], Hg as (_ & _ & (pr & pk & _ & _ & Hv) & _);
      constructor; cbn; try done.
    intros k x [[<- <-]|[_ Hx]]%lookup_insert_Some; [eauto | by apply Hf].
  - apply (reach_wf_subseteq st); try done; apply map_filter_subseteq.
Qed.

Lemma reach_run_wf ops st : reach_wf st -> reach_wf (reach_run st ops).
Proof.
  unfold reach_run. revert st. induction ops as [|op ops IH]; intros st Hst; [done|].
  apply IH, reach_step_wf, Hst.
Qed.

Lemma reach_new_wf : reach_wf reach_new.
Proof. constructor; cbn; intros k x Hx; by apply lookup_empty_Some in Hx. Qed.

(** Whatever was posted or swept, a GET only ever
    returns a record that verifies and that is about the id that was asked for;
    a forwarding record it returns was signed by a key that id derives from, is
    at most 30 days old by the relay's clock, and is not older than the agent's
    own pair record. *)
Theorem served_records_verified (ops : list ReachOp) (id : string) (now : N) :
  let st := reach_run reach_new ops in
  let k := to_ascii_lowercase id in
  (forall r, get_pair_record id st = Some r ->
     pr_agent_id_hex r = k /\ verify_pair_record r = Ok tt) /\
  (forall r, get_pair_record_v4 id st = Some r ->
     p4_user_id_hex r = k /\ verify_pair_record_v4 r = Ok tt) /\
  (forall f, get_forwarding id now st = Some f ->
     fr_agent_id_hex f = k /\
     (exists pk, hex_encode (derive_agent_id pk) = k /\ verify_forwarding_record f pk = Ok tt) /\
     (exists s, forwarding st !! k = Some s /\ sf_record s = f /\
        now <= sf_stored_at_ms s + FORWARDING_TTL_MS) /\
     forall r, get_pair_record id st = Some r -> pr_issued_at_ms r <= fr_issued_at_ms f).
Proof.
  cbv zeta. destruct (reach_run_wf ops reach_new reach_new_wf) as [Ha Hu Hf].
  set (st := reach_run reach_new ops) in *.
  split; [intros r Hr; by apply Ha|]. split; [intros r Hr; by apply Hu|].
  unfold get_forwarding, get_live_unsuperseded, get_live. intros f Hget.
  destruct (forwarding st !! to_ascii_lowercase id) as [s|] eqn:Hs; [|done]. cbn in Hget.
  destruct (N.ltb_spec FORWARDING_TTL_MS (now -| sf_stored_at_ms s)) as [|Hlive]; [done|].
  cbn in Hget. destruct (Hf _ _ Hs) as [Hk [pk Hv]].
  assert (sf_record s = f /\ forall r, get_pair_record id st = Some r ->
    pr_issued_at_ms r <= fr_issued_at_ms f) as [<- Hsup].
  { unfold get_pair_record. destruct (index_get _ (pair_records st)) as [r|];
      [|by injection Hget as <-].
    destruct (N.ltb_spec (fr_issued_at_ms (sf_record s)) (pr_issued_at_ms r)); [done|].
    injection Hget as <-. split; [done|]. intros ? [= <-]. lia. }
  split; [done|]. destruct (verified_forwarding_ok _ _ Hv) as (sig & input & _ & Hid & _).
  split; [exists pk; split; [congruence | done]|].
  split; [exists s; unfold saturating_sub in Hlive; split_and!; [done..|lia] | done].
Qed.

(** A forwarding record is stored exactly when the body
    is within the cap and parses, the relay holds a pair record for the agent,
    the signature verifies under that record's key, the sender is within its
    rate and no forwarding record as new is held; the POST then changes that one
    entry.  Every refusal leaves the state as it was, and an agent without a
    pair record is refused with 412. *)
Theorem forwarding_write_gate (body : bytes) (allowed : bool) (now : N) (st : Reach) :
  ((post_forwarding body allowed now st).1 = Ok tt <->
   exists record, fwd_gates body allowed st record /\
     forall s, forwarding st !! fr_agent_id_hex record = Some s ->
       fr_issued_at_ms (sf_record s) < fr_issued_at_ms record) /\
  (forall record, (post_forwarding body allowed now st).1 = Ok tt ->
     json_forwarding body = Some record ->
     (post_forwarding body allowed now st).2 = mkReach (pair_records st)
       (<[fr_agent_id_hex record := {| sf_record := record; sf_stored_at_ms := now |}]>
          (forwarding st))) /\
  (forall e, (post_forwarding body allowed now st).1 = Err e ->
     (post_forwarding body allowed now st).2 = st) /\
  (forall record, len body <= MAX_FORWARDING_BODY_BYTES -> json_forwarding body = Some record ->
     index_get (to_ascii_lowercase (fr_agent_id_hex record)) (pair_records st) = None ->
     exists e, (post_forwarding body allowed now st).1 = Err e /\ fwd_status e = 412).
Proof.
  destruct (post_fwd_gated body allowed now st) as [(r & Hg & Heq)|[Hng (e & Heq & He)]].
  - assert (json_forwarding body = Some r) as Hj by apply Hg.
    assert (index_get (to_ascii_lowercase (fr_agent_id_hex r)) (pair_records st) <> None) as Hpr
      by (destruct Hg as (_ & _ & (? & ? & ? & _) & _); congruence).
    rewrite Heq. cbn.
    destruct (fwd_put_if_newer_spec r now (forwarding st)) as [[Hn ->]|(h & Hh & Hle & ->)]; cbn.
    + split; [split; eauto|]. split; [intros r' _ Hr'; congruence|].
      split; [done|]. intros r' _ Hr' Hnone. congruence.
    + split. { split; [done|]. intros (r' & (_ & Hr' & _) & Hn).
        assert (r' = r) as -> by congruence. specialize (Hn h Hh). lia. }
      split; [done|]. split; [by destruct st|]. intros r' _ Hr' Hnone. congruence.
  - rewrite Heq. cbn.
    split; [split; [done | intros (r & Hg & _); by destruct (Hng r)]|].
    split; [done|]. split; [done|]. intros r Hlen Hr Hnone.
    exists NoPairRecord. split; [|done]. revert Heq. unfold post_forwarding.
    destruct (N.ltb_spec MAX_FORWARDING_BODY_BYTES (len body)); [lia|].
    rewrite Hr, Hnone. by intros [= <-].
Qed.

(** The sweep removes a pair record whose own
    stamp is older than the time-to-live, and with it what depended on it: the
    next verified record of that agent is stored however old it is, and a
    forwarding record that the pair record had retired, if it was stored
    recently enough by the relay's clock, is served again. *)
Theorem sweep_forgets_pair_watermark (st : Reach) (now ttl : N) (held : PairRecordV1)
    (older : PairRecordV1) (fwd : StoredForwarding) :
  by_agent (pair_records st) !! pr_agent_id_hex older = Some held ->
  forwarding st !! pr_agent_id_hex older = Some fwd ->
  ttl < now -| pr_issued_at_ms held ->
  now -| sf_stored_at_ms fwd <= FORWARDING_TTL_MS ->
  pr_issued_at_ms older <= pr_issued_at_ms held ->
  fr_issued_at_ms (sf_record fwd) < pr_issued_at_ms held ->
  (put_if_newer older (pair_records st)).1 = Err (pr_issued_at_ms held) /\
  get_live_unsuperseded st (pr_agent_id_hex older) now = None /\
  (put_if_newer older (pair_records (sweep_reach now ttl st))).1 = Ok tt /\
  get_live_unsuperseded (sweep_reach now ttl st) (pr_agent_id_hex older) now
    = Some (sf_record fwd).
Proof.
  intros Hh Hf Hexp Hlive Hold Hsup.
  assert (by_agent (pair_records (sweep_reach now ttl st)) !! pr_agent_id_hex older = None) as Hgone.
  { cbn. apply map_lookup_filter_None. right. intros r Hr. cbn. simplify_eq. lia. }
  assert (forwarding (sweep_reach now ttl st) !! pr_agent_id_hex older = Some fwd) as Hkept.
  { cbn. by apply map_lookup_filter_Some. }
  unfold put_if_newer, get_live_unsuperseded, get_live, index_get. rewrite Hgone, Hkept, Hh, Hf.
  cbn. destruct (N.leb_spec (pr_issued_at_ms older) (pr_issued_at_ms held)); [|lia].
  destruct (N.ltb_spec FORWARDING_TTL_MS (now -| sf_stored_at_ms fwd)); [lia|]. cbn.
  destruct (N.ltb_spec (fr_issued_at_ms (sf_record fwd)) (pr_issued_at_ms held)); [done | lia].
Qed.
End handlers.

(** ** Witnesses *)

#[local] Existing Instance demo_url.
#[local] Existing Instance demo_sha32.
#[local] Existing Instance demo_mldsa.
#[local] Existing Instance demo_base64.

Definition demo_pair (t : N) : PairRecordV1 :=
  {| pr_record_version := 1; pr_agent_id_hex := demo_agent [1];
     pr_ml_dsa_pubkey_b64 := b64_encode [1]; pr_kem_pubkey_b64 := b64_encode [8];
     pr_machine_id := "m"; pr_advertised_relays := ["https://r"%string];
     pr_issued_at_ms := t; pr_sig_b64 := b64_encode [1] |}.
Definition demo_fwd (t : N) : ForwardingRecordV1 :=
  {| fr_agent_id_hex := demo_agent [1]; fr_moved_to_relays := ["https://s"%string];
     fr_issued_at_ms := t; fr_sig_b64 := b64_encode [1] |}.

(** A body is the one stamp of the record it stands for. *)
#[local] Instance demo_json : RecordJson :=
  {| json_pair := fun b => demo_pair <$> head b;
     json_pair_v4 := fun _ => None;
     json_forwarding := fun b => demo_fwd <$> head b |}.

Lemma no_record_rollback_witness :
  let st := reach_run reach_new [PostPair [5] true] in
  let ops := [PostPair [9] true; PostForwarding [2] true 7; PostPair [4] true] in
  reach_advanced st (reach_run st ops) /\
  (post_pair_record [4] true st).1 = Err (NonMonotonic 5).
Proof.
  cbv zeta.
  destruct (no_record_rollback (reach_run reach_new [PostPair [5] true])
    [PostPair [9] true; PostForwarding [2] true 7; PostPair [4] true] [4] true 5 eq_refl)
    as [Hadv Hc].
  split; [exact Hadv|]. apply Hc. exists (demo_pair 4), (demo_pair 5).
  split; [|by vm_compute]. unfold pair_gates. split_and!; by vm_compute.
Defined.

Lemma served_records_verified_witness :
  let st := reach_run reach_new [PostPair [5] true; PostForwarding [6] true 2000] in
  get_pair_record (demo_agent [1]) st = Some (demo_pair 5) /\
  get_forwarding (demo_agent [1]) 2001 st = Some (demo_fwd 6) /\
  verify_pair_record (demo_pair 5) = Ok tt /\
  exists pk, verify_forwarding_record (demo_fwd 6) pk = Ok tt.
Proof.
  cbv zeta.
  destruct (served_records_verified [PostPair [5] true; PostForwarding [6] true 2000]
    (demo_agent [1]) 2001) as (Hp & _ & Hf).
  assert (get_pair_record (demo_agent [1])
    (reach_run reach_new [PostPair [5] true; PostForwarding [6] true 2000]) = Some (demo_pair 5))
    as Hgp by by vm_compute.
  assert (get_forwarding (demo_agent [1]) 2001
    (reach_run reach_new [PostPair [5] true; PostForwarding [6] true 2000]) = Some (demo_fwd 6))
    as Hgf by by vm_compute.
  split; [exact Hgp|]. split; [exact Hgf|]. split; [exact (proj2 (Hp _ Hgp))|].
  destruct (Hf _ Hgf) as (_ & (pk & _ & Hv) & _). exists pk. exact Hv.
Defined.

Lemma sweep_forgets_pair_watermark_witness :
  let st := reach_run reach_new
    [PostPair [5] true; PostForwarding [6] true 2000; PostPair [9] true] in
  get_live_unsuperseded st (demo_agent [1]) 2009 = None /\
  get_live_unsuperseded (sweep_reach 2009 1000 st) (demo_agent [1]) 2009 = Some (demo_fwd 6).
Proof.
  cbv zeta.
  destruct (sweep_forgets_pair_watermark
    (reach_run reach_new [PostPair [5] true; PostForwarding [6] true 2000; PostPair [9] true])
    2009 1000 (demo_pair 9) (demo_pair 5) {| sf_record := demo_fwd 6; sf_stored_at_ms := 2000 |})
    as (_ & Hb & _ & Ha); [by vm_compute..|].
  split; [exact Hb | exact Ha].
Defined.
