(* ===== verification/RelayWs.v ===== *)
(** * The relay's WebSocket sessions

    Models [crates/fetchit-relay-server/src/ws.rs]: opening a session, the
    handlers of client frames, the io and writer loops and the cleanup.  A
    session works against any transit store and any group log that meet their
    seams' laws, the session registry and the reachability indexes; an outbound
    queue is a channel of the shared store of channels.

    Metrics are counters nothing reads back and are left out.  The rate limiter's
    verdict and the clock readings a frame's handler takes are arguments.  The
    postcard encoding is a parameter. *)
From S2P Require Import Prelude RelayProto RelayAuth Transit GroupLog Session PairRecord PairIndex.

Definition WS_OUTBOUND_CAPACITY : nat := 512.
Definition LOG_RECORDS_CHUNK : nat := 64.
Definition REPLAY_BATCH_MAX : nat := 256.
Definition MAX_ACK_IDS_PER_FRAME : nat := 1024.
Definition WS_PONG_TIMEOUT : N := 105 * 1000.

(** ** Bearer extraction *)

(** [str::split_once(' ')]. *)
Fixpoint split_once_space (s : string) : option (string * string) :=
  match s with
  | EmptyString => None
  | String c s' =>
      if bool_decide (Ascii.N_of_ascii c = 32) then Some (EmptyString, s')
      else '(a, b) ← split_once_space s'; Some (String c a, b)
  end.

(** [str::trim] on the characters a header value may hold: space and tab. *)
Definition is_blank (c : Ascii.ascii) : bool :=
  let n := Ascii.N_of_ascii c in (n =? 32) || (n =? 9).
Fixpoint trim_start (s : string) : string :=
  match s with
  | String c s' => if is_blank c then trim_start s' else s
  | EmptyString => EmptyString
  end.
Fixpoint trim_end (s : string) : string :=
  match s with
  | EmptyString => EmptyString
  | String c s' =>
      match trim_end s' with
      | EmptyString => if is_blank c then EmptyString else String c EmptyString
      | t => String c t
      end
  end.
Definition trim (s : string) : string := trim_end (trim_start s).

(** [header] is the [Authorization] value when it is present and [to_str] can
    read it. *)
Definition bearer_from_headers (header : option string) : option string :=
  raw ← header;
  '(scheme, token) ← split_once_space raw;
  if negb (bool_decide (to_ascii_lowercase scheme = "bearer"%string)) then None
  else
    let token := trim token in
    if bool_decide (token = EmptyString) then None else Some token.

(** ** Keepalive *)

Record PongClock := { pc_origin : N; last_pong_ms : N }.

Definition pong_new (now : N) : PongClock := {| pc_origin := now; last_pong_ms := 0 |}.
Definition record_pong (now : N) (c : PongClock) : PongClock :=
  {| pc_origin := pc_origin c; last_pong_ms := now -| pc_origin c |}.
Definition since_last_pong (now : N) (c : PongClock) : N :=
  (now -| pc_origin c) -| last_pong_ms c.

(** ** The relay's state *)

Record Relay (T L : Type) := mkRelay {
  r_sessions : SessionRegistry;
  r_channels : Channels;
  r_transit : T;
  r_log : L;
  r_reach : Reach;
}.
Arguments mkRelay {T L} _ _ _ _ _.
Arguments r_sessions {T L} _.
Arguments r_channels {T L} _.
Arguments r_transit {T L} _.
Arguments r_log {T L} _.
Arguments r_reach {T L} _.

(** What a connection's task holds: [auth], [effective_caps], [tx], [session_id]. *)
Record Conn := {
  cn_agent : AgentId;
  cn_caps : EffectiveCapabilities;
  cn_tx : Sender;
  cn_id : SessionId;
}.

(** What handling one frame reads from outside: the limiter's verdict and the
    clock, at the forwarding lookup, in the store, at the push and at the reply. *)
Record Reading := {
  rd_allowed : bool;
  rd_now_forwarding : N;
  rd_now_store : N;
  rd_now_push : N;
  rd_now_reply : N;
}.

(** [TransitEnvelope::encoded_len]: the length of the postcard encoding. *)
Class EncodedLen := encoded_len : TransitEnvelope -> option N.

Section relay.
  Context {T L : Type} `{TransitStore T} `{GroupLogStore L} `{EncodedLen}.
  Abbreviation R := (Relay T L).

Definition set_channels (cs : Channels) (r : R) : R :=
  mkRelay (r_sessions r) cs (r_transit r) (r_log r) (r_reach r).
Definition set_sessions (s : SessionRegistry) (cs : Channels) (r : R) : R :=
  mkRelay s cs (r_transit r) (r_log r) (r_reach r).
Definition set_transit (t : T) (r : R) : R :=
  mkRelay (r_sessions r) (r_channels r) t (r_log r) (r_reach r).
Definition set_log (l : L) (r : R) : R :=
  mkRelay (r_sessions r) (r_channels r) (r_transit r) l (r_reach r).

(** [let _ = self_tx.try_send(f)]. *)
Definition tell (tx : Sender) (f : ServerFrame) (r : R) : R :=
  set_channels (try_send tx f (r_channels r)).2 r.

(** The recipient left a live forwarding record and is not connected. *)
Definition recipient_moved (to : AgentId) (now : N) (r : R) : bool :=
  negb (is_online to (r_sessions r)) &&
  is_some (get_live_unsuperseded (r_reach r) (hex_encode to) now).

Definition handle_send (cn : Conn) (rd : Reading) (send : SendFrame) (r : R) : R :=
  let '(Build_SendFrame to envelope dedupe_key) := send in
  let encoded := default usize_max (encoded_len envelope) in
  if max_envelope_bytes (cn_caps cn) <? encoded
  then tell (cn_tx cn) (SThrottle 0 EnvelopeTooLarge) r
  else if negb (rd_allowed rd) then tell (cn_tx cn) (SThrottle 1000 PerSenderRate) r
  else if negb (bool_decide (e_sender_agent_id envelope = cn_agent cn)) then r
  else if negb ((e_version envelope =? 2) || (e_version envelope =? 3)) then r
  else if recipient_moved to (rd_now_forwarding rd) r
  then tell (cn_tx cn) (SMoved dedupe_key) r
  else
    match t_enqueue to envelope (rd_now_store rd) (r_transit r) with
    | (Err _, t) => tell (cn_tx cn) (SThrottle 5000 PerRecipientCapacity) (set_transit t r)
    | (Ok transit_seq, t) =>
        let r := set_transit t r in
        let '(_, cs) := session_send to (SDeliver envelope transit_seq (rd_now_push rd))
                          (r_sessions r) (r_channels r) in
        tell (cn_tx cn) (SAck dedupe_key (rd_now_reply rd)) (set_channels cs r)
    end.

Definition handle_log_append (cn : Conn) (rd : Reading) (append : LogAppend) (r : R) : R :=
  let '(Build_LogAppend group_id kind recipient payload) := append in
  if max_envelope_bytes (cn_caps cn) <? len payload
  then tell (cn_tx cn) (SThrottle 0 EnvelopeTooLarge) r
  else if negb (rd_allowed rd) then tell (cn_tx cn) (SThrottle 1000 PerSenderRate) r
  else
    let '(res, l) := g_append group_id kind recipient payload (cn_agent cn)
                       (rd_now_store rd) (r_log r) in
    let r := set_log l r in
    match res with
    | Ok _ => r
    | Err _ => tell (cn_tx cn) (SThrottle 5000 PerRecipientCapacity) r
    end.

Definition to_wire (rec : StoredLogRecord) : LogRecordWire :=
  {| lw_seq := lr_seq rec; lw_kind := lr_kind rec; lw_recipient := lr_recipient rec;
     lw_payload := lr_payload rec; lw_author := lr_author rec;
     lw_inserted_at_ms := lr_inserted_at_ms rec |}.

(** The loop of [send_log_records]; each turn but the last removes a full chunk,
    so the number of records is fuel enough. *)
Fixpoint send_log_loop (fuel : nat) (tx : Sender) (group_id : GroupId)
    (remaining : list LogRecordWire) (cs : Channels) : Channels :=
  let here := if (LOG_RECORDS_CHUNK <? length remaining)%nat
              then take LOG_RECORDS_CHUNK remaining else remaining in
  let tail := if (LOG_RECORDS_CHUNK <? length remaining)%nat
              then drop LOG_RECORDS_CHUNK remaining else [] in
  let is_done := bool_decide (tail = []) in
  let '(ok, cs) := try_send tx (SLogRecords group_id here is_done) cs in
  if negb ok || is_done then cs
  else match fuel with
       | O => cs
       | S fuel => send_log_loop fuel tx group_id tail cs
       end.

Definition send_log_records (tx : Sender) (group_id : GroupId) (records : list LogRecordWire)
    (cs : Channels) : Channels :=
  send_log_loop (length records) tx group_id records cs.

Definition log_visible (agent : AgentId) (rec : StoredLogRecord) : bool :=
  bool_decide (lr_recipient rec = None) || bool_decide (lr_recipient rec = Some agent).

Definition handle_log_fetch (cn : Conn) (group_id : GroupId) (since_seq : N) (r : R) : R :=
  let records := to_wire <$> List.filter (log_visible (cn_agent cn))
                               (g_fetch_since group_id since_seq (r_log r)) in
  set_channels (send_log_records (cn_tx cn) group_id records (r_channels r)) r.

Definition handle_client_frame (cn : Conn) (rd : Reading) (frame : ClientFrame) (r : R)
    : bool * R :=
  match frame with
  | CHello _ | CSubscribe _ => (true, r)
  | CLogAppend append => (true, handle_log_append cn rd append r)
  | CLogFetch group_id since_seq => (true, handle_log_fetch cn group_id since_seq r)
  | CPing nonce =>
      let '(ok, cs) := try_send (cn_tx cn) (SPong nonce) (r_channels r) in
      (ok, set_channels cs r)
  | CBye _ => (false, r)
  | CWatchPresence add remove =>
      let r :=
        match add with
        | [] => r
        | _ => let '(s, cs) := add_watches (cn_id cn) (cn_tx cn) add (r_sessions r) (r_channels r) in
               set_sessions s cs r
        end in
      let r :=
        match remove with
        | [] => r
        | _ => set_sessions (remove_watches (cn_id cn) remove (r_sessions r)) (r_channels r) r
        end in
      (true, r)
  | CTransitAck acked_ids =>
      let ids := take MAX_ACK_IDS_PER_FRAME acked_ids in
      (true, set_transit (t_delete (cn_agent cn) ids (r_transit r)).2 r)
  | CSend send => (true, handle_send cn rd send r)
  end.

(** ** Opening and closing a session *)

(** The loop of [replay_transit]: stop at the first failed send. *)
Fixpoint replay_loop (stored : list StoredEntry) (tx : Sender) (delivered_at_ms : N)
    (delivered : N) (cs : Channels) : N * Channels :=
  match stored with
  | [] => (delivered, cs)
  | entry :: rest =>
      let '(ok, cs) := try_send tx (SDeliver (se_envelope entry) (se_id entry) delivered_at_ms) cs in
      if negb ok then (delivered, cs)
      else replay_loop rest tx delivered_at_ms (delivered + 1) cs
  end.

Definition replay_transit (stored : list StoredEntry) (tx : Sender) (delivered_at_ms : N)
    (cs : Channels) : N * Channels :=
  replay_loop (take REPLAY_BATCH_MAX stored) tx delivered_at_ms 0 cs.

Inductive Message :=
| MBinary (b : bytes)
| MText (b : bytes)
| MPing (b : bytes)
| MPong (b : bytes)
| MClose.

(** [from_bytes::<ClientFrame>]. *)
Class FrameCodec := frame_from_bytes : bytes -> option ClientFrame.
Context `{FrameCodec}.

(** [while let Some(Ok(msg)) = receiver.next()]: a stream error is [None]. *)
Fixpoint await_hello_inner (receiver : list (option Message)) : option Hello :=
  match receiver with
  | Some (MBinary b) :: _ =>
      match frame_from_bytes b with Some (CHello h) => Some h | _ => None end
  | Some _ :: rest => await_hello_inner rest
  | _ => None
  end.

(** The part of [handle_socket] up to the registration, once [Hello] arrived and
    [Ready] was sent: resolve the capabilities, register. *)
Definition register_session `{SignatureVerifier} `{ClaimsCodec} (issuer_keys : gmap string bytes)
    (region : Region) (auth : AuthTokenState) (hello : Hello) (tx : Sender)
    (now_resolve : N) (r : R)
    : option (Conn * R) :=
  match resolve issuer_keys (hello_capabilities hello) (ats_agent_id auth) region now_resolve with
  | Err _ => None
  | Ok caps =>
      let cs := <[tx := mkChan [] WS_OUTBOUND_CAPACITY true]> (r_channels r) in
      let '(id, s, cs) := register (ats_agent_id auth) tx (r_sessions r) cs in
      Some ({| cn_agent := ats_agent_id auth; cn_caps := caps; cn_tx := tx; cn_id := id |},
            set_sessions s cs r)
  end.

(** The next step of the same task: other tasks may run in between. *)
Definition replay_session (cn : Conn) (now_ms : N) (r : R) : R :=
  let '(_, cs) := replay_transit (t_read_all (cn_agent cn) (r_transit r)) (cn_tx cn) now_ms (r_channels r) in
  set_channels cs r.

(** The cleanup after the io loop; the writer is aborted, so the channel closes. *)
Definition close_session (cn : Conn) (r : R) : R :=
  let s := drop_all_watches (cn_id cn) (r_sessions r) in
  let '(s, cs) := unregister (cn_agent cn) (cn_id cn) s (r_channels r) in
  set_sessions s
    (alter (fun c => mkChan (ch_queue c) (ch_capacity c) false) (cn_tx cn) cs) r.

(** ** The io loop *)

Inductive LoopExit := ClientClosed | ProtocolEnd | WriterDied.

(** One turn of [run_io_loop]: an arrival on the socket, or the writer's end.
    [Some] is the exit. *)
Inductive IoEvent :=
| Arrival (msg : option Message) (rd : Reading) (now : N)
| WriterExit.

Definition io_turn (cn : Conn) (ev : IoEvent) (clock : PongClock) (r : R)
    : option LoopExit * PongClock * R :=
  match ev with
  | WriterExit => (Some WriterDied, clock, r)
  | Arrival None _ _ => (Some ClientClosed, clock, r)
  | Arrival (Some msg) rd now =>
      match msg with
      | MClose => (Some ClientClosed, clock, r)
      | MPong _ => (None, record_pong now clock, r)
      | MBinary b =>
          match frame_from_bytes b with
          | None => (None, clock, r)
          | Some frame =>
              let '(go, r) := handle_client_frame cn rd frame r in
              (if go : bool then None else Some ProtocolEnd, clock, r)
          end
      | _ => (None, clock, r)
      end
  end.

Fixpoint run_io_loop (cn : Conn) (evs : list IoEvent) (clock : PongClock) (r : R)
    : option LoopExit * PongClock * R :=
  match evs with
  | [] => (None, clock, r)
  | ev :: evs =>
      match io_turn cn ev clock r with
      | (Some e, clock, r) => (Some e, clock, r)
      | (None, clock, r) => run_io_loop cn evs clock r
      end
  end.

(** One turn of [writer_loop]: a frame is taken from the queue and written, or
    the ping interval elapsed.  [false] ends the writer; [written] is whether
    encoding and the sink succeeded. *)
Inductive WriterEvent :=
| WFrame (written : bool)
| WPing (now : N) (written : bool).

Definition writer_turn (ev : WriterEvent) (clock : PongClock) (tx : Sender) (r : R) : bool * R :=
  match ev with
  | WFrame written =>
      match r_channels r !! tx with
      | Some (mkChan (_ :: q) cap o) =>
          (written, set_channels (<[tx := mkChan q cap o]> (r_channels r)) r)
      | _ => (true, r)
      end
  | WPing now written =>
      if WS_PONG_TIMEOUT <? since_last_pong now clock then (false, r) else (written, r)
  end.

(** ** The relay as a transition system *)

(** Anything that happens to the relay, by any session, request or timer. *)
Inductive RelayOp :=
| RFrame (cn : Conn) (rd : Reading) (frame : ClientFrame)
| ROpen (sv : SignatureVerifier) (cc : ClaimsCodec) (issuer_keys : gmap string bytes)
    (region : Region) (auth : AuthTokenState) (hello : Hello) (tx : Sender) (now_resolve : N)
| RReplay (cn : Conn) (now_ms : N)
| RClose (cn : Conn)
| RWriter (ev : WriterEvent) (clock : PongClock) (tx : Sender)
| RSweepTransit (now : N)
| RSweepLog (now : N).

Definition relay_step (r : R) (op : RelayOp) : R :=
  match op with
  | RFrame cn rd frame => (handle_client_frame cn rd frame r).2
  | ROpen sv cc keys region auth hello tx now_resolve =>
      match register_session keys region auth hello tx now_resolve r with
      | Some (_, r') => r'
      | None => r
      end
  | RReplay cn now => replay_session cn now r
  | RClose cn => close_session cn r
  | RWriter ev clock tx => (writer_turn ev clock tx r).2
  | RSweepTransit now => set_transit (t_sweep_expired now (r_transit r)).2 r
  | RSweepLog now => set_log (g_sweep_expired now (r_log r)).2 r
  end.

Definition relay_run (r : R) (ops : list RelayOp) : R := foldl relay_step r ops.

(** *** What an operation does to the transit store *)

Lemma tell_transit tx f (r : R) : r_transit (tell tx f r) = r_transit r.
Proof. done. Qed.

(** Every check of [handle_send] before the store. *)
Definition send_gates (cn : Conn) (rd : Reading) (send : SendFrame) (r : R) : Prop :=
  default usize_max (encoded_len (sf_envelope send)) <= max_envelope_bytes (cn_caps cn) /\
  rd_allowed rd = true /\ e_sender_agent_id (sf_envelope send) = cn_agent cn /\
  (e_version (sf_envelope send) = 2 \/ e_version (sf_envelope send) = 3) /\
  recipient_moved (sf_to send) (rd_now_forwarding rd) r = false.

(** The reply to a deposit that was refused before the store, if there is one. *)
Definition refusal (f : option ServerFrame) (dk : DedupeKey) : Prop :=
  f = None \/ f = Some (SThrottle 0 EnvelopeTooLarge) \/ f = Some (SThrottle 1000 PerSenderRate) \/
  f = Some (SMoved dk).

Lemma handle_send_cases cn rd send (r : R) :
  (exists f, refusal f (sf_dedupe_key send) /\
     handle_send cn rd send r = match f with Some f => tell (cn_tx cn) f r | None => r end) \/
  send_gates cn rd send r /\
  ((exists e t, t_enqueue (sf_to send) (sf_envelope send) (rd_now_store rd) (r_transit r) = (Err e, t) /\
      handle_send cn rd send r =
        tell (cn_tx cn) (SThrottle 5000 PerRecipientCapacity) (set_transit t r)) \/
   (exists id t, t_enqueue (sf_to send) (sf_envelope send) (rd_now_store rd) (r_transit r) = (Ok id, t) /\
      handle_send cn rd send r =
        tell (cn_tx cn) (SAck (sf_dedupe_key send) (rd_now_reply rd))
          (set_channels (session_send (sf_to send)
             (SDeliver (sf_envelope send) id (rd_now_push rd)) (r_sessions r) (r_channels r)).2
             (set_transit t r)))).
Proof.
  destruct send as [to env dk]. unfold handle_send, send_gates, refusal. cbn [sf_to sf_envelope sf_dedupe_key].
  destruct (N.ltb_spec (max_envelope_bytes (cn_caps cn)) (default usize_max (encoded_len env)));
    [left; eexists (Some _); by eauto|].
  destruct (rd_allowed rd); [|left; eexists (Some _); by eauto]. cbn.
  case_bool_decide; [|left; exists None; by eauto]. cbn.
  destruct ((e_version env =? 2) || (e_version env =? 3)) eqn:Hv; [|left; exists None; by eauto].
  rewrite orb_true_iff, !N.eqb_eq in Hv. cbn.
  destruct (recipient_moved to (rd_now_forwarding rd) r);
    [left; eexists (Some _); by eauto|].
  right. split; [done|].
  destruct (t_enqueue to env (rd_now_store rd) (r_transit r)) as [[id|e] t]; [right | left; by eauto].
  exists id, t. split; [done|]. by destruct (session_send _ _ _ _).
Qed.

(** The store operation an operation of the relay may amount to. *)
Definition transit_op_of (op : RelayOp) : option TransitOp :=
  match op with
  | RFrame cn rd (CSend send) => Some (TEnqueue (sf_to send) (sf_envelope send) (rd_now_store rd))
  | RFrame cn rd (CTransitAck ids) => Some (TDelete (cn_agent cn) (take MAX_ACK_IDS_PER_FRAME ids))
  | RSweepTransit now => Some (TSweep now)
  | _ => None
  end.

Lemma handle_send_transit cn rd send (r : R) :
  r_transit (handle_send cn rd send r) = r_transit r \/
  r_transit (handle_send cn rd send r) =
    transit_step (r_transit r) (TEnqueue (sf_to send) (sf_envelope send) (rd_now_store rd)).
Proof.
  destruct (handle_send_cases cn rd send r)
    as [(f & _ & ->)|[_ [(e & t & Ht & ->)|(id & t & Ht & ->)]]]; cbn.
  - left. by destruct f.
  - right. by rewrite Ht.
  - right. by rewrite Ht.
Qed.

Lemma relay_step_transit (r : R) op :
  r_transit (relay_step r op) = r_transit r \/
  exists t, transit_op_of op = Some t /\ r_transit (relay_step r op) = transit_step (r_transit r) t.
Proof.
  destruct op as [cn rd frame|sv cc keys region auth hello tx nr|cn now|cn|ev clock tx|now|now]; cbn.
  - destruct frame as [h|topic|send|add remove|nonce|reason|ids|append|g since]; cbn; try by left.
    + destruct (handle_send_transit cn rd send r) as [|]; [by left | right; by eauto].
    + left. destruct add; [|destruct (add_watches _ _ _ _ _)]; by destruct remove.
    + left. by destruct (try_send _ _ _).
    + right. by eauto.
    + left. destruct append as [g k rc p]. unfold handle_log_append.
      repeat case_match; by simplify_eq/=.
  - left. destruct (register_session _ _ _ _ _ _ _) as [[cn r']|] eqn:Ho; [|done].
    unfold register_session in Ho. repeat case_match; by simplify_eq/=.
  - left. unfold replay_session. by destruct (replay_transit _ _ _ _).
  - left. unfold close_session. by destruct (unregister _ _ _ _).
  - left. unfold writer_turn. repeat case_match; by simplify_eq/=.
  - right. by eauto.
  - by left.
Qed.

(** The operation neither acknowledges [x] for [to] nor sweeps it after its
    lifetime. *)
Definition relay_spares (to : AgentId) (x : StoredEntry) (ttl : N) (op : RelayOp) : Prop :=
  match transit_op_of op with Some t => spares to x ttl t | None => True end.

Context `{!TransitStoreLaws T}.

Lemma relay_run_spares ops (r : R) to x :
  t_wf (r_transit r) -> t_next (r_transit r) + len ops <= i64_max ->
  Forall (relay_spares to x (t_ttl (r_transit r))) ops ->
  x ∈ t_read_all to (r_transit r) -> x ∈ t_read_all to (r_transit (relay_run r ops)).
Proof.
  unfold relay_run. revert r. induction ops as [|op ops IH]; intros r Hwf Hn Hall Hx; [done|].
  apply Forall_cons in Hall as [Hop Hall]. unfold len in *. cbn [length] in Hn. cbn.
  destruct (relay_step_transit r op) as [Heq|(t & Ht & Heq)].
  - apply IH; rewrite Heq; [done|lia|done|done].
  - unfold relay_spares in Hop. rewrite Ht in Hop.
    destruct (transit_step_spares (r_transit r) t to x) as ([Hwf' Httl] & Hnx & Hx'); [done|lia|done|done|].
    apply IH; rewrite Heq; [done|lia|by rewrite Httl|done].
Qed.

(** *** Replies *)

Definition queue_of (tx : Sender) (cs : Channels) : list ServerFrame :=
  match cs !! tx with Some c => ch_queue c | None => [] end.
Definition is_ack (f : ServerFrame) : bool := match f with SAck _ _ => true | _ => false end.

(** The acknowledgements waiting to be written to a client. *)
Definition acks (tx : Sender) (r : R) : list ServerFrame :=
  List.filter is_ack (queue_of tx (r_channels r)).

Lemma try_send_queue tx tx' f cs :
  queue_of tx' (try_send tx f cs).2 = queue_of tx' cs ++
    (if (try_send tx f cs).1 && bool_decide (tx' = tx) then [f] else []).
Proof.
  unfold try_send. destruct (cs !! tx) as [[q cap []]|] eqn:Hc; cbn [fst snd andb];
    rewrite ?app_nil_r; try done.
  destruct (length q <? cap)%nat; cbn [fst snd andb]; [|by rewrite app_nil_r].
  unfold queue_of.
  case_bool_decide as Htx.
  - subst. by rewrite lookup_insert_eq, Hc.
  - rewrite lookup_insert_ne by done. symmetry. apply app_nil_r.
Qed.

Lemma try_send_acks tx tx' f cs :
  is_ack f = false ->
  List.filter is_ack (queue_of tx' (try_send tx f cs).2) = List.filter is_ack (queue_of tx' cs).
Proof.
  intros Hf. rewrite try_send_queue, List.filter_app. destruct (_ && _); cbn; [rewrite Hf|];
    by rewrite app_nil_r.
Qed.

Lemma session_send_acks to f s tx' cs :
  is_ack f = false ->
  List.filter is_ack (queue_of tx' (session_send to f s cs).2)
    = List.filter is_ack (queue_of tx' cs).
Proof.
  intros Hf. unfold session_send. case_bool_decide; [done|].
  destruct (Session.by_agent s !! to) as [[id tx]|]; [|done]. by apply try_send_acks.
Qed.

(** C3: when a deposit makes a session's queue gain an
    acknowledgement, the envelope came from the authenticated agent in an
    accepted wire version, and it is stored for its recipient: through anything
    the relay does later, for as long as the recipient does not itself
    acknowledge that id and the entry does not outlive the time-to-live, it
    stays readable, whether or not the live push reached anybody. *)
Theorem acked_deposit_survives (r : R) (cn : Conn) (rd : Reading) (send : SendFrame) :
  t_wf (r_transit r) -> t_next (r_transit r) < i64_max -> rd_now_store rd <= i64_max ->
  acks (cn_tx cn) (handle_send cn rd send r) <> acks (cn_tx cn) r ->
  send_gates cn rd send r /\
  exists id, let x := Build_StoredEntry id (sf_envelope send) (rd_now_store rd) in
    forall ops, t_next (r_transit r) + 1 + len ops <= i64_max ->
      Forall (relay_spares (sf_to send) x (t_ttl (r_transit r))) ops ->
      x ∈ t_read_all (sf_to send) (r_transit (relay_run (handle_send cn rd send r) ops)).
Proof.
  intros Hwf Hn Hnow. unfold acks.
  destruct (handle_send_cases cn rd send r)
    as [(f & Hf & ->)|[Hg [(e & t & Ht & ->)|(id & t & Ht & ->)]]].
  - intros Hacks. exfalso. apply Hacks. destruct f as [f|]; [|done].
    apply try_send_acks. unfold refusal in Hf. naive_solver.
  - intros Hacks. exfalso. apply Hacks. by apply try_send_acks.
  - intros _. split; [done|]. exists id. intros ops Hlen Hall.
    apply t_enqueue_ok in Ht as ([Hwf' Httl] & Hid & Hnx & Hr); [|done..].
    apply relay_run_spares; cbn; [done|lia|by rewrite Httl|].
    rewrite Hr, decide_True by done. apply elem_of_app. right. by left.
Qed.

(** A deposit that names another sender or an
    unsupported wire version leaves the relay exactly as it was: it is neither
    stored nor pushed, and its depositor gets no reply. *)
Theorem refused_deposit_unanswered (r : R) (cn : Conn) (rd : Reading) (send : SendFrame) :
  default usize_max (encoded_len (sf_envelope send)) <= max_envelope_bytes (cn_caps cn) ->
  rd_allowed rd = true ->
  e_sender_agent_id (sf_envelope send) <> cn_agent cn \/
    e_version (sf_envelope send) <> 2 /\ e_version (sf_envelope send) <> 3 ->
  handle_send cn rd send r = r.
Proof.
  destruct send as [to env dk]. cbn. intros Hsz -> Hbad.
  destruct (N.ltb_spec (max_envelope_bytes (cn_caps cn)) (default usize_max (encoded_len env)));
    [lia|]. cbn.
  case_bool_decide as Hs; [|done]. destruct Hbad as [|[Hv2 Hv3]]; [done|]. cbn.
  apply N.eqb_neq in Hv2, Hv3. by rewrite Hv2, Hv3.
Qed.

(** ** Serving the group log *)

(** A reply as one list of frames: chunks of at most 64, only the last is final. *)
Inductive log_reply (g : GroupId) : list LogRecordWire -> list ServerFrame -> Prop :=
| reply_last recs : (length recs <= LOG_RECORDS_CHUNK)%nat ->
    log_reply g recs [SLogRecords g recs true]
| reply_more recs rest fs : length recs = LOG_RECORDS_CHUNK -> rest <> [] ->
    log_reply g rest fs -> log_reply g (recs ++ rest) (SLogRecords g recs false :: fs).

Lemma try_send_open tx f cs q cap :
  cs !! tx = Some (mkChan q cap true) ->
  try_send tx f cs = if decide (length q < cap)%nat
                     then (true, <[tx := mkChan (q ++ [f]) cap true]> cs) else (false, cs).
Proof.
  intros Hc. unfold try_send. rewrite Hc.
  destruct (Nat.ltb_spec (length q) cap); case_decide; (done || lia).
Qed.

(** As many of the frames as the queue has room for. *)
Lemma try_send_take tx f cs q cap :
  cs !! tx = Some (mkChan q cap true) ->
  queue_of tx (try_send tx f cs).2 = q ++ take (cap - length q) [f].
Proof.
  intros Hc. rewrite (try_send_open _ _ _ _ _ Hc). unfold queue_of. case_decide; cbn.
  - rewrite lookup_insert_eq. cbn. f_equal. by destruct (cap - length q)%nat eqn:Hn; [lia|destruct n].
  - rewrite Hc. cbn. replace (cap - length q)%nat with 0%nat by lia. by rewrite app_nil_r.
Qed.

Lemma send_log_loop_last fuel tx g recs cs :
  (length recs <= LOG_RECORDS_CHUNK)%nat ->
  send_log_loop fuel tx g recs cs = (try_send tx (SLogRecords g recs true) cs).2.
Proof.
  intros Hs. destruct fuel; cbn [send_log_loop];
    (destruct (Nat.ltb_spec LOG_RECORDS_CHUNK (length recs)); [lia|]);
    rewrite bool_decide_eq_true_2 by done; destruct (try_send _ _ _) as [ok cs'];
    by rewrite orb_true_r.
Qed.

Lemma send_log_loop_spec g tx fuel recs q cap cs :
  (length recs <= fuel)%nat -> cs !! tx = Some (mkChan q cap true) ->
  exists fs, log_reply g recs fs /\
    queue_of tx (send_log_loop fuel tx g recs cs) = q ++ take (cap - length q) fs.
Proof.
  revert recs q cs. induction fuel as [|fuel IH]; intros recs q cs Hlen Hc;
    (destruct (Nat.le_gt_cases (length recs) LOG_RECORDS_CHUNK) as [Hsmall|Hbig];
      [exists [SLogRecords g recs true]; split; [by constructor|];
       rewrite send_log_loop_last by done; by apply try_send_take|]); [lia|].
  assert (length (drop LOG_RECORDS_CHUNK recs) <= fuel)%nat as Hfuel
    by (rewrite length_drop; unfold LOG_RECORDS_CHUNK in *; lia).
  assert (drop LOG_RECORDS_CHUNK recs <> []) as Hne.
  { intros Hd%(f_equal length). rewrite length_drop in Hd. cbn in Hd. lia. }
  set (f := SLogRecords g (take LOG_RECORDS_CHUNK recs) false).
  assert (forall fs, log_reply g (drop LOG_RECORDS_CHUNK recs) fs -> log_reply g recs (f :: fs)) as Hreply.
  { intros fs Hfs. rewrite <- (take_drop LOG_RECORDS_CHUNK recs) at 1.
    constructor; [rewrite length_take; lia | done | done]. }
  cbn [send_log_loop]. destruct (Nat.ltb_spec LOG_RECORDS_CHUNK (length recs)); [|lia].
  rewrite bool_decide_eq_false_2 by done. fold f. rewrite (try_send_open _ _ _ _ _ Hc).
  case_decide as Hroom; cbn [negb orb].
  - destruct (IH (drop LOG_RECORDS_CHUNK recs) (q ++ [f])
        (<[tx := mkChan (q ++ [f]) cap true]> cs)) as (fs & Hfs & Hq);
      [done | by rewrite lookup_insert_eq|].
    exists (f :: fs). split; [by apply Hreply|]. rewrite Hq, length_app. cbn [length].
    replace (cap - length q)%nat with (S (cap - (length q + 1))) by lia.
    cbn [take]. by rewrite <- app_assoc.
  - destruct (IH (drop LOG_RECORDS_CHUNK recs) q cs) as (fs & Hfs & _); [done..|].
    exists (f :: fs). split; [by apply Hreply|]. unfold queue_of. rewrite Hc. cbn.
    replace (cap - length q)%nat with 0%nat by lia. by rewrite app_nil_r.
Qed.

Context `{!GroupLogLaws L}.

(** A fetch changes nothing but the client's own queue,
    and answers with every retained record of the group after the given
    sequence number that is addressed to nobody or to this agent, whatever its
    kind, in order, in frames of at most 64 of which exactly the last is final;
    a queue that cannot hold them all gets the frames that fit. *)
Theorem log_fetch_complete (r : R) (cn : Conn) (g : GroupId) (since : N) (q : list ServerFrame)
    (cap : nat) :
  g_wf (r_log r) -> since <= i64_max ->
  r_channels r !! cn_tx cn = Some (mkChan q cap true) ->
  let r' := handle_log_fetch cn g since r in
  r' = set_channels (r_channels r') r /\
  exists fs,
    log_reply g (to_wire <$> List.filter (fun x => (since <? lr_seq x) && log_visible (cn_agent cn) x)
                               (g_records g (r_log r))) fs /\
    queue_of (cn_tx cn) (r_channels r') = q ++ take (cap - length q) fs.
Proof.
  intros Hwf Hs Hc. cbv zeta. split; [done|]. cbn.
  rewrite g_fetch_spec, filter_filter_bool by done. by apply send_log_loop_spec.
Qed.

(** ** Reconnecting *)

Lemma try_send_other tx tx' f cs : tx <> tx' -> (try_send tx' f cs).2 !! tx = cs !! tx.
Proof.
  intros Hne. unfold try_send. destruct (cs !! tx') as [[q cap []]|]; try done.
  destruct (length q <? cap)%nat; [by apply lookup_insert_ne | done].
Qed.

Lemma send_each_other tx f txs cs : tx ∉ txs -> send_each f txs cs !! tx = cs !! tx.
Proof.
  unfold send_each. revert cs. induction txs as [|t txs IH]; intros cs Hni; [done|].
  rewrite not_elem_of_cons in Hni. destruct Hni as [Hne Hni]. cbn.
  by rewrite IH, try_send_other.
Qed.

(** No session and no watcher holds this sender yet. *)
Definition fresh_sender (tx : Sender) (s : SessionRegistry) : Prop :=
  (forall a e, Session.by_agent s !! a = Some e -> e.2 <> tx) /\
  (forall a l, watchers s !! a = Some l -> tx ∉ l.*2).

Lemma register_other agent tx s cs :
  fresh_sender tx s -> (register agent tx s cs).2 !! tx = cs !! tx.
Proof.
  intros [Ha Hw]. unfold register. destruct (Session.by_agent s !! agent) as [[id ptx]|] eqn:Hp; cbn.
  - apply try_send_other. specialize (Ha _ _ Hp). cbn in Ha. done.
  - unfold broadcast_presence. cbn. destruct (watchers s !! agent) as [l|] eqn:Hl; [|done].
    apply send_each_other. by eapply Hw.
Qed.

Definition deliver_of (now : N) (e : StoredEntry) : ServerFrame :=
  SDeliver (se_envelope e) (se_id e) now.

Lemma replay_loop_spec stored tx now n q cap cs :
  cs !! tx = Some (mkChan q cap true) ->
  let res := replay_loop stored tx now n cs in
  queue_of tx res.2 = q ++ take (cap - length q) (deliver_of now <$> stored) /\
  res.1 = n + N.of_nat (min (cap - length q) (length stored)).
Proof.
  cbv zeta. revert n q cs. induction stored as [|e stored IH]; intros n q cs Hc; cbn [replay_loop].
  { cbn [fst snd]. unfold queue_of. rewrite Hc. cbn [ch_queue length].
    rewrite fmap_nil, take_nil, app_nil_r, Nat.min_0_r. split; [done|lia]. }
  rewrite (try_send_open _ _ _ _ _ Hc). case_decide as Hroom; cbn [negb].
  - fold (deliver_of now e).
    destruct (IH (n + 1) (q ++ [deliver_of now e])
      (<[tx := mkChan (q ++ [deliver_of now e]) cap true]> cs)) as [Hq Hn];
      [by rewrite lookup_insert_eq|].
    rewrite Hq, Hn, length_app. cbn [length].
    replace (cap - length q)%nat with (S (cap - (length q + 1))) by lia.
    cbn. rewrite <- app_assoc. split; [done|lia].
  - cbn [fst snd]. unfold queue_of. rewrite Hc. cbn [ch_queue].
    replace (cap - length q)%nat with 0%nat by lia. cbn [take min].
    rewrite app_nil_r. split; [done|lia].
Qed.

(** The channel is open, with its capacity kept. *)
Definition chan_open (tx : Sender) (cs : Channels) : Prop :=
  exists q, cs !! tx = Some (mkChan q WS_OUTBOUND_CAPACITY true) /\ (length q <= WS_OUTBOUND_CAPACITY)%nat.

Lemma try_send_chan tx tx' f cs : chan_open tx cs -> chan_open tx (try_send tx' f cs).2.
Proof.
  intros (q & Hq & Hl). destruct (decide (tx = tx')) as [<-|Hne].
  - rewrite (try_send_open _ _ _ _ _ Hq). case_decide; cbn [snd]; [|by exists q].
    exists (q ++ [f]). rewrite lookup_insert_eq, length_app. cbn. split; [done|lia].
  - exists q. by rewrite try_send_other.
Qed.

Lemma send_each_chan tx f txs cs : chan_open tx cs -> chan_open tx (send_each f txs cs).
Proof.
  unfold send_each. revert cs. induction txs as [|t txs IH]; intros cs Hc; [done|]. cbn. by apply IH, try_send_chan.
Qed.

Lemma broadcast_chan tx a o s cs : chan_open tx cs -> chan_open tx (broadcast_presence a o s cs).
Proof. intros Hc. unfold broadcast_presence. destruct (watchers s !! a); [by apply send_each_chan|done]. Qed.

Lemma add_watches_chan tx id wtx agents s cs :
  chan_open tx cs -> chan_open tx (add_watches_loop id wtx agents s cs).2.
Proof.
  revert s cs. induction agents as [|a agents IH]; intros s cs Hc; [done|]. cbn [add_watches_loop].
  destruct (_ <=? _); [done|]. unfold add_watch. case_bool_decide; [by apply IH|]. by apply IH, try_send_chan.
Qed.

Lemma send_log_chan tx fuel tx' g recs cs : chan_open tx cs -> chan_open tx (send_log_loop fuel tx' g recs cs).
Proof.
  revert recs cs. induction fuel as [|fuel IH]; intros recs cs Hc; cbn [send_log_loop];
    match goal with |- context [try_send ?t ?f cs] => pose proof (try_send_chan tx t f cs Hc) as Ht; destruct (try_send t f cs) as [ok cs'] end;
    (destruct (_ || _); [done|]); [done|by apply IH].
Qed.

Lemma replay_chan tx stored tx' now n cs : chan_open tx cs -> chan_open tx (replay_loop stored tx' now n cs).2.
Proof.
  revert n cs. induction stored as [|e stored IH]; intros n cs Hc; [done|]. cbn [replay_loop].
  pose proof (try_send_chan tx tx' (SDeliver (se_envelope e) (se_id e) now) cs Hc) as Ht.
  destruct (try_send _ _ _) as [ok cs']. destruct ok; cbn [negb]; [by apply IH|done].
Qed.

(** Operations that leave the channel to the task that opens the session: its writer
    runs, and the session closes, only after the replay, and no other session has the
    same sender. *)
Definition before_replay (tx : Sender) (op : RelayOp) : Prop :=
  match op with
  | ROpen _ _ _ _ _ _ tx' _ => tx' <> tx
  | RClose cn => cn_tx cn <> tx
  | RWriter _ _ tx' => tx' <> tx
  | _ => True
  end.

Lemma tell_chan tx tx' f (r : R) : chan_open tx (r_channels r) -> chan_open tx (r_channels (tell tx' f r)).
Proof. apply try_send_chan. Qed.

Lemma frame_chan tx cn rd frame (r : R) :
  chan_open tx (r_channels r) -> chan_open tx (r_channels (handle_client_frame cn rd frame r).2).
Proof.
  intros Hc. destruct frame as [h|topic|send|add remove|nonce|reason|ids|append|g since]; cbn [handle_client_frame snd]; try done.
  - destruct (handle_send_cases cn rd send r) as [(f & _ & ->)|[_ [(e & t & _ & ->)|(id & t & _ & ->)]]].
    + destruct f; [by apply tell_chan|done].
    + by apply tell_chan.
    + apply tell_chan. cbn [r_channels set_channels]. unfold session_send.
      case_bool_decide; [done|]. destruct (Session.by_agent _ !! _) as [[? ?]|]; [by apply try_send_chan|done].
  - assert (chan_open tx (r_channels (match add with [] => r | _ =>
      let '(s, cs) := add_watches (cn_id cn) (cn_tx cn) add (r_sessions r) (r_channels r) in set_sessions s cs r end))) as Ha.
    { destruct add as [|a add]; [done|]. unfold add_watches.
      pose proof (add_watches_chan tx (cn_id cn) (cn_tx cn) (a :: add)
        (set_watches (<[cn_id cn := default ∅ (watches_by_session (r_sessions r) !! cn_id cn)]> (watches_by_session (r_sessions r)))
           (r_sessions r)) (r_channels r) Hc) as Hw.
      by destruct (add_watches_loop _ _ _ _ _). }
    by destruct remove.
  - pose proof (try_send_chan tx (cn_tx cn) (SPong nonce) (r_channels r) Hc) as Ht. by destruct (try_send _ _ _).
  - destruct append as [g k rc pl]. cbn [handle_log_append]. unfold handle_log_append.
    destruct (_ <? _); [by apply tell_chan|]. destruct (negb _); [by apply tell_chan|].
    destruct (g_append _ _ _ _ _ _ _) as [[]]; [done|by apply tell_chan].
  - by apply send_log_chan.
Qed.

Lemma register_chan tx a tx' s cs : chan_open tx cs -> chan_open tx (register a tx' s cs).2.
Proof.
  intros Hc. unfold register. destruct (Session.by_agent s !! a) as [[? ?]|]; cbn; [by apply try_send_chan|by apply broadcast_chan].
Qed.

Lemma step_chan tx op (r : R) :
  before_replay tx op -> chan_open tx (r_channels r) -> chan_open tx (r_channels (relay_step r op)).
Proof.
  intros Hb Hc. destruct op as [cn rd frame|sv cc keys region auth hello tx' nr|cn now|cn|ev clock tx'|now|now]; cbn [relay_step]; try done.
  - by apply frame_chan.
  - destruct (register_session _ _ _ _ _ _ _) as [[cn r']|] eqn:Ho; [|done]. unfold register_session in Ho.
    destruct (resolve _ _ _ _ _); [|done].
    pose proof (register_chan tx (ats_agent_id auth) tx' (r_sessions r) (<[tx' := mkChan [] WS_OUTBOUND_CAPACITY true]> (r_channels r))) as Hr.
    destruct (register _ _ _ _) as [[id s] cs]. injection Ho as <- <-. apply Hr.
    destruct Hc as (q & Hq & ?). exists q. by rewrite lookup_insert_ne.
  - unfold replay_session. pose proof (replay_chan tx (take REPLAY_BATCH_MAX (t_read_all (cn_agent cn) (r_transit r)))
      (cn_tx cn) now 0 (r_channels r) Hc) as Hr. unfold replay_transit. by destruct (replay_loop _ _ _ _ _).
  - unfold close_session, unregister. cbn in Hb.
    assert (forall cs, chan_open tx cs -> chan_open tx (alter (fun c => mkChan (ch_queue c) (ch_capacity c) false) (cn_tx cn) cs)) as Ha.
    { intros cs (q & Hq & ?). exists q. by rewrite lookup_alter_ne. }
    destruct (Session.by_agent _ !! _) as [[cid ?]|]; [|by apply Ha]. destruct (cid =? cn_id cn); [|by apply Ha].
    apply Ha. by apply broadcast_chan.
  - cbn in Hb. destruct Hc as (q & Hq & Hl). exists q. split; [|done]. unfold writer_turn. destruct ev as [w|now w].
    + destruct (r_channels r !! tx') as [[[|f q'] cap o]|]; cbn; [done| |done]. by rewrite lookup_insert_ne.
    + by destruct (_ <? _).
Qed.

(** C23: whatever the relay does between the registration of a session and its replay,
    the replay queues behind what was pushed in between, in order and under the ids
    that acknowledge them, the oldest 256 envelopes then stored for the agent, as many
    as the channel has room for: all of them when nothing was pushed.  Neither step
    removes any from the store, so what does not fit is there for the next session,
    and the agent is online from the registration on. *)
Theorem reconnect_replays_backlog `{SignatureVerifier} `{ClaimsCodec} (r r1 : R) (cn : Conn)
    (keys : gmap string bytes) (region : Region) (auth : AuthTokenState) (hello : Hello)
    (tx : Sender) (now_resolve now : N) (between : list RelayOp) :
  fresh_sender tx (r_sessions r) ->
  register_session keys region auth hello tx now_resolve r = Some (cn, r1) ->
  Forall (before_replay tx) between ->
  let r2 := relay_run r1 between in
  let r3 := replay_session cn now r2 in
  let pushed := queue_of tx (r_channels r2) in
  cn_agent cn = ats_agent_id auth /\ cn_tx cn = tx /\
  is_online (ats_agent_id auth) (r_sessions r1) = true /\ queue_of tx (r_channels r1) = [] /\
  queue_of tx (r_channels r3) = pushed ++ take (WS_OUTBOUND_CAPACITY - length pushed)
    (deliver_of now <$> take REPLAY_BATCH_MAX (t_read_all (ats_agent_id auth) (r_transit r2))) /\
  (pushed = [] -> queue_of tx (r_channels r3) =
     deliver_of now <$> take REPLAY_BATCH_MAX (t_read_all (ats_agent_id auth) (r_transit r2))) /\
  r_transit r1 = r_transit r /\ r_transit r3 = r_transit r2.
Proof.
  intros Hfresh Hopen Hall r2 r3 pushed. unfold register_session in Hopen.
  destruct (resolve _ _ _ _ _) as [caps|]; [|done].
  pose proof (register_other (ats_agent_id auth) tx (r_sessions r)
    (<[tx := mkChan [] WS_OUTBOUND_CAPACITY true]> (r_channels r)) Hfresh) as Hreg.
  destruct (register _ _ _ _) as [[id s] cs] eqn:Hr. cbn in Hreg. rewrite lookup_insert_eq in Hreg.
  injection Hopen as <- Hr1.
  assert (chan_open tx (r_channels r2)) as (q & Hq & Hl).
  { subst r2. assert (chan_open tx (r_channels r1)) as Hc by (subst r1; exists []; split; [done|cbn; lia]).
    clear - Hall Hc. unfold relay_run. revert r1 Hc. induction Hall as [|op ops Hop _ IH]; intros r1 Hc; [done|].
    cbn. by apply IH, step_chan. }
  assert (pushed = q) as Hp by (subst pushed; unfold queue_of; by rewrite Hq).
  assert (queue_of tx (r_channels r3) = pushed ++ take (WS_OUTBOUND_CAPACITY - length pushed)
    (deliver_of now <$> take REPLAY_BATCH_MAX (t_read_all (ats_agent_id auth) (r_transit r2)))) as Hq3.
  { subst r3. unfold replay_session, replay_transit. cbn [cn_agent cn_tx]. rewrite Hp.
    destruct (replay_loop_spec (take REPLAY_BATCH_MAX (t_read_all (ats_agent_id auth) (r_transit r2))) tx now 0 q _ _ Hq) as [Hqq _].
    by destruct (replay_loop _ _ _ _ _). }
  split_and!; [done|done| | |exact Hq3| | |].
  - subst r1. unfold is_online. apply bool_decide_eq_true_2. unfold register in Hr.
    destruct (Session.by_agent (r_sessions r) !! _) as [[? ?]|]; injection Hr as <- <- <-; cbn; rewrite lookup_insert_eq; by eexists.
  - subst r1. unfold queue_of. cbn. by rewrite Hreg.
  - intros Hnil. rewrite Hq3, Hnil. cbn [app length]. rewrite take_ge; [done|]. rewrite length_fmap, length_take.
    unfold WS_OUTBOUND_CAPACITY, REPLAY_BATCH_MAX. lia.
  - by subst r1.
  - subst r3. unfold replay_session. by destruct (replay_transit _ _ _ _).
Qed.
End relay.

(** ** Witnesses *)

#[local] Instance demo_encoded_len : EncodedLen := fun e => Some (len (e_ciphertext e)).
#[local] Instance demo_frames : FrameCodec := fun _ => None.

Definition demo_relay : Relay TransitBuffer RamGroupLog :=
  mkRelay registry_new (<[7 := mkChan [] 4 true]> ∅) (buf_new 50 4 1000)
    demo_log reach_new.
Definition demo_conn : Conn :=
  {| cn_agent := [1]; cn_caps := default_profile; cn_tx := 7; cn_id := 1 |}.
Definition demo_reading : Reading :=
  {| rd_allowed := true; rd_now_forwarding := 100; rd_now_store := 100; rd_now_push := 100;
     rd_now_reply := 100 |}.
Definition demo_send : SendFrame :=
  {| sf_to := [2]; sf_envelope := demo_envelope; sf_dedupe_key := [4] |}.

(** A stranger's acknowledgement of the id, another deposit and an early sweep. *)
Lemma acked_deposit_survives_witness :
  exists id, Build_StoredEntry id demo_envelope 100 ∈ t_read_all [2]
    (r_transit (relay_run (handle_send demo_conn demo_reading demo_send demo_relay)
       [RFrame demo_conn demo_reading (CTransitAck [1]);
        RFrame demo_conn demo_reading (CSend demo_send); RSweepTransit 140])).
Proof.
  destruct (acked_deposit_survives demo_relay demo_conn demo_reading demo_send) as [_ [id Hs]].
  - apply buf_wf_new. by vm_compute.
  - by vm_compute.
  - by vm_compute.
  - by vm_compute.
  - exists id. apply Hs; [by vm_compute|]. repeat constructor; by vm_compute.
Defined.

Lemma refused_deposit_unanswered_witness :
  let forged := {| sf_to := [2];
    sf_envelope := Build_TransitEnvelope 3 Dm None None [8] [1] 0 0 [5; 6] [] [] [];
    sf_dedupe_key := [4] |} in
  handle_send demo_conn demo_reading forged demo_relay = demo_relay.
Proof. apply refused_deposit_unanswered; [by vm_compute | done | left; by vm_compute]. Defined.

Lemma log_fetch_complete_witness :
  exists fs, log_reply [1] (to_wire <$> g_records [1] demo_log) fs /\
    queue_of 7 (r_channels (handle_log_fetch demo_conn [1] 0 demo_relay)) = [] ++ take 4 fs.
Proof.
  destruct (log_fetch_complete demo_relay demo_conn [1] 0 [] 4) as [_ (fs & Hfs & Hq)].
  - apply demo_log_spec.
  - done.
  - by vm_compute.
  - exists fs. split; [exact Hfs | exact Hq].
Defined.

#[local] Instance demo_claims : ClaimsCodec := fun _ => Ok [].
#[local] Instance demo_sigs : SignatureVerifier := fun _ _ _ => true.

Definition demo_auth : AuthTokenState :=
  {| ats_agent_id := [2]; ats_agent_public_key := []; ats_expires_at := 900 |}.
Definition demo_hello : Hello :=
  {| hello_client_version := "v"; hello_tenant_id := None; hello_preferred_region := None;
     hello_capabilities := None |}.
Definition demo_stored : Relay TransitBuffer RamGroupLog :=
  handle_send demo_conn demo_reading demo_send demo_relay.
Definition demo_opened : option (Conn * Relay TransitBuffer RamGroupLog) :=
  register_session ∅ Nyc demo_auth demo_hello 8 120 demo_stored.

(** Another envelope arrives between the two steps: it is pushed, and replayed with the
    first. *)
Lemma reconnect_replays_backlog_witness :
  exists cn r1, demo_opened = Some (cn, r1) /\
    queue_of 8 (r_channels (replay_session cn 121 (relay_run r1 [RFrame demo_conn demo_reading (CSend demo_send)])))
      = [SDeliver demo_envelope 2 100; SDeliver demo_envelope 1 121; SDeliver demo_envelope 2 121].
Proof.
  assert (is_some demo_opened = true) as Ho by by vm_compute.
  destruct demo_opened as [[cn r1]|] eqn:Hopen; [|done]. exists cn, r1. split; [done|].
  destruct (reconnect_replays_backlog demo_stored r1 cn ∅ Nyc demo_auth demo_hello 8 120 121
    [RFrame demo_conn demo_reading (CSend demo_send)]) as (_ & _ & _ & _ & Hq & _).
  - split; [intros a e Ha; by vm_compute in Ha | intros a l Ha; by vm_compute in Ha].
  - exact Hopen.
  - by repeat constructor.
  - rewrite Hq. revert Hopen. vm_compute. by intros [= _ <-].
Defined.
