(* ===== verification/Conversation.v ===== *)
(** * Conversation state

    Models the pure part of a conversation
    ([crates/fetchit-chat/src/conversation/types.rs]): members and their devices,
    the epoch keys and the window in which a superseded key still opens late
    frames, the per-sender replay window, the bounded history with its read mark
    and delivery receipts.  Clock readings and random bytes are arguments. *)
From S2P Require Import Prelude SendState Attachment Bubble Overlay SeqGap RelayProto.

Definition DEFAULT_AUTO_REKEY_INTERVAL_MS : N := 7 * 24 * 60 * 60 * 1000.
Definition PRIOR_KEY_WINDOW_MS : N := 60 * 1000.
Definition AEAD_KEY_LEN : N := 32.
Definition HISTORY_CAP : nat := 1000.
Definition WINDOW_SIZE : nat := 64.

Inductive Role := RoleAdmin | RoleMember.
Inductive TrustState := Pending | Confirmed.
Inductive MemberDeviceStatus := Active | Revoked.

#[export] Instance Role_eq_dec : EqDecision Role.
Proof. solve_decision. Defined.
#[export] Instance TrustState_eq_dec : EqDecision TrustState.
Proof. solve_decision. Defined.
#[export] Instance MemberDeviceStatus_eq_dec : EqDecision MemberDeviceStatus.
Proof. solve_decision. Defined.

Record MemberDevice := {
  md_agent_id_hex : string;
  md_kem_public_key_b64 : string;
  md_agent_public_key_b64 : option string;
  md_added_at_epoch : N;
  md_status : MemberDeviceStatus;
}.

Record Member := {
  mb_user_id_hex : option string;
  mb_devices : list MemberDevice;
  mb_joined_at_epoch : N;
}.

Record PriorKey := {
  pk_epoch : N;
  pk_key_b64 : string;
  pk_expires_at_ms : N;
}.

#[projections(primitive)] Record Conversation := mkConv {
  c_group_id_hex : string;
  c_name : option string;
  c_members : list Member;
  c_current_epoch : N;
  c_current_key_b64 : string;
  c_prior_keys : list PriorKey;
  c_own_role : Role;
  c_created_at_ms : N;
  c_last_rekey_at_ms : N;
  c_auto_rekey_interval_ms : N;
  c_trust_state : TrustState;
  c_seen_nonces : gmap string (list bytes);
  c_history : list HistoryEntry;
  c_own_group_send_seq : N;
  c_group_seq_windows : gmap string SenderSeqState;
  c_wedge_last_progress_ms : N;
  c_wedge_last_inbound_ms : N;
  c_wedge_progress_epoch : N;
  c_wedge_max_stale_epoch : N;
  c_read_ms : N;
}.

(** Field updates. *)
Definition set_trust_state (v : TrustState) (c : Conversation) : Conversation :=
  let '(mkConv g nm ms ep ky pk ro ca lr ai _ sn hi os sw wp wi we wm rd) := c in
  mkConv g nm ms ep ky pk ro ca lr ai v sn hi os sw wp wi we wm rd.
Definition set_seen_nonces (v : gmap string (list bytes)) (c : Conversation) : Conversation :=
  let '(mkConv g nm ms ep ky pk ro ca lr ai ts _ hi os sw wp wi we wm rd) := c in
  mkConv g nm ms ep ky pk ro ca lr ai ts v hi os sw wp wi we wm rd.
Definition set_history (v : list HistoryEntry) (c : Conversation) : Conversation :=
  let '(mkConv g nm ms ep ky pk ro ca lr ai ts sn _ os sw wp wi we wm rd) := c in
  mkConv g nm ms ep ky pk ro ca lr ai ts sn v os sw wp wi we wm rd.
Definition set_group_seq_windows (v : gmap string SenderSeqState) (c : Conversation) : Conversation :=
  let '(mkConv g nm ms ep ky pk ro ca lr ai ts sn hi os _ wp wi we wm rd) := c in
  mkConv g nm ms ep ky pk ro ca lr ai ts sn hi os v wp wi we wm rd.
Definition set_read_ms (v : N) (c : Conversation) : Conversation :=
  let '(mkConv g nm ms ep ky pk ro ca lr ai ts sn hi os sw wp wi we wm _) := c in
  mkConv g nm ms ep ky pk ro ca lr ai ts sn hi os sw wp wi we wm v.
Definition set_prior_keys (v : list PriorKey) (c : Conversation) : Conversation :=
  let '(mkConv g nm ms ep ky _ ro ca lr ai ts sn hi os sw wp wi we wm rd) := c in
  mkConv g nm ms ep ky v ro ca lr ai ts sn hi os sw wp wi we wm rd.
Definition set_epoch (epoch : N) (key_b64 : string) (now : N) (c : Conversation) : Conversation :=
  let '(mkConv g nm ms _ _ pk ro ca _ ai ts sn hi os sw wp wi we wm rd) := c in
  mkConv g nm ms epoch key_b64 pk ro ca now ai ts sn hi os sw wp wi we wm rd.
Definition set_roster (m : list Member) (n : option string) (c : Conversation) : Conversation :=
  let '(mkConv g _ _ ep ky pk ro ca lr ai ts sn hi os sw wp wi we wm rd) := c in
  mkConv g n m ep ky pk ro ca lr ai ts sn hi os sw wp wi we wm rd.
Definition set_wedge (progress inbound progress_epoch max_stale : N) (c : Conversation) : Conversation :=
  let '(mkConv g nm ms ep ky pk ro ca lr ai ts sn hi os sw _ _ _ _ rd) := c in
  mkConv g nm ms ep ky pk ro ca lr ai ts sn hi os sw progress inbound progress_epoch max_stale rd.

Record WelcomePayload := {
  wp_group_id_hex : string;
  wp_current_key_b64 : string;
  wp_epoch : N;
  wp_members : list Member;
  wp_name : option string;
}.

Record MessagePayload := {
  mp_sender_name : option string;
  mp_body : string;
  mp_ts_ms : N;
  mp_message_id : option string;
  mp_reply_to_message_id : option string;
  mp_attachment : option Attachment;
  mp_advertised_relays : option (list string);
  mp_hint_epoch_ms : option N;
}.

Record DeliveryReceiptPayload := {
  drp_message_id : string;
  drp_received_at_ms : N;
}.

Section conversation.
  Context `{Base64}.

(** [group_id] and [key] are drawn from the system's random source. *)
Definition new_dm (local_member peer_member : Member) (name : option string)
    (group_id key : bytes) (now : N) : Conversation :=
  mkConv (hex_encode group_id) name [local_member; peer_member] 0 (b64_encode key) [] RoleAdmin
    now now DEFAULT_AUTO_REKEY_INTERVAL_MS Confirmed ∅ [] 0 ∅ 0 0 0 0 0.

Definition from_welcome (payload : WelcomePayload) (trust_state : TrustState) (now : N)
    : Conversation :=
  mkConv (wp_group_id_hex payload) (wp_name payload) (wp_members payload) (wp_epoch payload)
    (wp_current_key_b64 payload) [] RoleMember now now DEFAULT_AUTO_REKEY_INTERVAL_MS trust_state
    ∅ [] 0 ∅ 0 0 0 0 0.

Definition record_group_seq (sender_agent_id_hex : string) (seq now_ms : N) (c : Conversation)
    : SeqObservation * Conversation :=
  let st := default seq_default (c_group_seq_windows c !! sender_agent_id_hex) in
  let '(obs, st') := record seq now_ms st in
  (obs, set_group_seq_windows (<[sender_agent_id_hex := st']> (c_group_seq_windows c)) c).

Definition confirm_trust (c : Conversation) : Conversation :=
  if bool_decide (c_trust_state c = Pending) then set_trust_state Confirmed c else c.

(** Decode a stored key; [what] is the context of the error text. *)
Definition decode_key (what : string) (b64 : string) : result bytes ChatError :=
  match b64_decode b64 with
  | None => Err (Invalid (what +:+ " b64"))
  | Some v => if len v =? AEAD_KEY_LEN then Ok v else Err (Invalid (what +:+ " length"))
  end.

Definition current_key (c : Conversation) : result bytes ChatError :=
  decode_key "current_key" (c_current_key_b64 c).

Definition group_id_bytes (c : Conversation) : result bytes ChatError :=
  match hex_decode (c_group_id_hex c) with
  | None => Err (Invalid "group_id hex")
  | Some v => if len v =? 32 then Ok v else Err (Invalid "group_id length")
  end.

(** The loop of [key_for_epoch] over the prior keys. *)
Fixpoint prior_key_for (epoch now : N) (l : list PriorKey) : result (option bytes) ChatError :=
  match l with
  | [] => Ok None
  | prior :: rest =>
      if negb (pk_epoch prior =? epoch) then prior_key_for epoch now rest
      else if pk_expires_at_ms prior <=? now then prior_key_for epoch now rest
      else let? k := decode_key "prior key" (pk_key_b64 prior) in Ok (Some k)
  end.

Definition key_for_epoch (epoch now : N) (c : Conversation) : result (option bytes) ChatError :=
  if epoch =? c_current_epoch c then let? k := current_key c in Ok (Some k)
  else prior_key_for epoch now (c_prior_keys c).

Definition sweep_prior_keys (now : N) (c : Conversation) : Conversation :=
  set_prior_keys (List.filter (fun p => now <? pk_expires_at_ms p) (c_prior_keys c)) c.

Definition push_history (entry : HistoryEntry) (c : Conversation) : Conversation :=
  let kept := if (HISTORY_CAP <=? length (c_history c))%nat then tail (c_history c)
              else c_history c in
  set_history (kept ++ [entry]) c.

Definition is_unread (local_agent_id_hex : string) (read_ms : N) (e : HistoryEntry) : bool :=
  negb (bool_decide (h_sender_agent_id_hex e = local_agent_id_hex)) && (read_ms <? h_ts_ms e).

Definition unread (local_agent_id_hex : string) (c : Conversation) : N :=
  N.min u32_max (len (List.filter (is_unread local_agent_id_hex (c_read_ms c)) (c_history c))).

(** [history.iter().map(|e| e.ts_ms).max()]. *)
Definition newest_stamp (l : list HistoryEntry) : option N :=
  match l with
  | [] => None
  | e :: rest => Some (foldl (fun m e => N.max m (h_ts_ms e)) (h_ts_ms e) rest)
  end.

Definition mark_read (c : Conversation) : bool * Conversation :=
  match newest_stamp (c_history c) with
  | None => (false, c)
  | Some newest => if newest <=? c_read_ms c then (false, c) else (true, set_read_ms newest c)
  end.

(** The delivered entry. *)
Definition deliver_entry (at_ms : N) (e : HistoryEntry) : HistoryEntry :=
  mkEntry (h_sender_agent_id_hex e) (h_sender_name e) (h_body e) (h_ts_ms e) (h_message_id e)
    (h_attachment e) (Some at_ms) (Some Delivered) at_ms.

(** The scan, on the reversed history: newest first. *)
Fixpoint receipt_scan (message_id : string) (at_ms : N) (l : list HistoryEntry)
    : option (list HistoryEntry) :=
  match l with
  | [] => None
  | e :: rest =>
      if bool_decide (h_message_id e = message_id) then
        if is_some (h_delivered_at_ms e) then None else Some (deliver_entry at_ms e :: rest)
      else rest' ← receipt_scan message_id at_ms rest; Some (e :: rest')
  end.

Definition apply_delivery_receipt (message_id : string) (received_at_ms : N) (c : Conversation)
    : bool * Conversation :=
  match receipt_scan message_id received_at_ms (rev (c_history c)) with
  | None => (false, c)
  | Some l => (true, set_history (rev l) c)
  end.

(** [now_sweep] is the reading [sweep_prior_keys] takes for itself. *)
Definition advance_epoch_to (floor : N) (new_key : bytes) (now now_sweep : N) (c : Conversation)
    : Conversation :=
  let old := {| pk_epoch := c_current_epoch c; pk_key_b64 := c_current_key_b64 c;
                pk_expires_at_ms := wrapping_add u64_max now PRIOR_KEY_WINDOW_MS |} in
  let c := set_prior_keys (c_prior_keys c ++ [old]) c in
  let epoch := saturating_add u32_max (N.max floor (c_current_epoch c)) 1 in
  sweep_prior_keys now_sweep (set_epoch epoch (b64_encode new_key) now c).

Definition advance_epoch (new_key : bytes) (now now_sweep : N) (c : Conversation)
    : Conversation := advance_epoch_to (c_current_epoch c) new_key now now_sweep c.

Definition auto_rekey_due (now : N) (c : Conversation) : bool :=
  if negb (bool_decide (c_own_role c = RoleAdmin)) then false
  else c_auto_rekey_interval_ms c <? now -| c_last_rekey_at_ms c.

Definition check_and_record_nonce (sender_agent_hex : string) (nonce : bytes) (c : Conversation)
    : bool * Conversation :=
  let window := default [] (c_seen_nonces c !! sender_agent_hex) in
  if bool_decide (nonce ∈ window) then (true, c)
  else
    let kept := if (WINDOW_SIZE <=? length window)%nat then tail window else window in
    (false, set_seen_nonces (<[sender_agent_hex := kept ++ [nonce]]> (c_seen_nonces c)) c).

Definition conv_devices (c : Conversation) : list MemberDevice :=
  List.concat (mb_devices <$> c_members c).

Definition fanout_devices (local_agent_id_hex : string) (c : Conversation) : list MemberDevice :=
  List.filter (fun d => bool_decide (md_status d = Active)
                        && negb (bool_decide (md_agent_id_hex d = local_agent_id_hex)))
    (conv_devices c).
End conversation.

(** ** The replay window *)

(** The newest [n] elements. *)
Definition newest_of {A} (n : nat) (l : list A) : list A := drop (length l - n) l.

Lemma newest_of_snoc {A} n (l : list A) x :
  (0 < n)%nat ->
  newest_of n (l ++ [x])
  = (if (n <=? length (newest_of n l))%nat then tail (newest_of n l) else newest_of n l) ++ [x].
Proof.
  intros Hn. unfold newest_of. rewrite length_app, length_drop. cbn [length].
  destruct (Nat.leb_spec n (length l - (length l - n))).
  - rewrite tail_drop, drop_app_le by lia. do 2 f_equal. lia.
  - rewrite drop_app_le by lia. do 2 f_equal. lia.
Qed.

(** An observed nonce with its sender, and the conversation after some of them. *)
Definition observe_nonces (obs : list (string * bytes)) (c : Conversation) : Conversation :=
  foldl (fun c o => (check_and_record_nonce o.1 o.2 c).2) c obs.

(** What should have been let through from [sender]: a nonce passes unless it is
    one of the last 64 that passed. *)
Definition passed (sender : string) (obs : list (string * bytes)) : list bytes :=
  foldl (fun acc o =>
    if bool_decide (o.1 = sender) && negb (bool_decide (o.2 ∈ newest_of WINDOW_SIZE acc))
    then acc ++ [o.2] else acc) [] obs.

Lemma observe_window obs c sender :
  c_seen_nonces c = ∅ ->
  default [] (c_seen_nonces (observe_nonces obs c) !! sender)
  = newest_of WINDOW_SIZE (passed sender obs).
Proof.
  intros Hc. revert sender.
  induction obs as [|[s n] obs IH] using rev_ind; intros sender.
  { cbn. by rewrite Hc, lookup_empty. }
  unfold observe_nonces, passed in *. rewrite !foldl_app. cbn [foldl fst snd].
  set (c' := foldl _ c obs) in *. set (acc := foldl _ [] obs) in *.
  unfold check_and_record_nonce. rewrite IH.
  case_bool_decide as Hin; cbn [snd].
  - rewrite IH. case_bool_decide as Hs; cbn; [subst s|done].
    fold acc in Hin. by rewrite bool_decide_eq_true_2.
  - destruct (decide (s = sender)) as [->|Hne].
    + rewrite (bool_decide_eq_true_2 (sender = sender)) by done. fold acc in Hin |- *.
      rewrite bool_decide_eq_false_2 by done. cbn [andb negb c_seen_nonces set_seen_nonces].
      rewrite lookup_insert_eq. cbn [default]. symmetry. apply newest_of_snoc.
      unfold WINDOW_SIZE. lia.
    + rewrite (bool_decide_eq_false_2 (s = sender)) by done. cbn [andb c_seen_nonces set_seen_nonces].
      rewrite lookup_insert_ne by done. apply IH.
Qed.

(** Whatever nonces arrive from whatever senders, the
    replay check answers "replay" exactly for a nonce that is one of the last 64
    let through from that sender; other senders' traffic never evicts a nonce or
    causes a false alarm. *)
Theorem replay_window_exact (c : Conversation) (obs : list (string * bytes)) (sender : string)
    (nonce : bytes) :
  c_seen_nonces c = ∅ ->
  (check_and_record_nonce sender nonce (observe_nonces obs c)).1 = true
  <-> nonce ∈ newest_of WINDOW_SIZE (passed sender obs).
Proof.
  intros Hc. unfold check_and_record_nonce. rewrite (observe_window obs c sender Hc).
  by case_bool_decide.
Qed.

(** ** Epoch keys *)

Section epochs.
  Context `{Base64}.

(** One re-key: a floor, the new key, and the two clock readings. *)
Record Rekey := { rk_floor : N; rk_key : bytes; rk_now : N; rk_sweep : N }.

Definition rekey (c : Conversation) (o : Rekey) : Conversation :=
  advance_epoch_to (rk_floor o) (rk_key o) (rk_now o) (rk_sweep o) c.
Definition rekey_all (c : Conversation) (ops : list Rekey) : Conversation := foldl rekey c ops.

(** The keys a run of re-keys retires: epoch, key and the moment it stopped being
    current. *)
Fixpoint retired (c : Conversation) (ops : list Rekey) : list (N * string * N) :=
  match ops with
  | [] => []
  | o :: ops => (c_current_epoch c, c_current_key_b64 c, rk_now o) :: retired (rekey c o) ops
  end.

(** The clock does not run backwards between the readings, and no expiry
    overflows. *)
Fixpoint clock_ok (t : N) (ops : list Rekey) (last : N) : Prop :=
  match ops with
  | [] => t <= last
  | o :: ops => t <= rk_now o <= rk_sweep o /\ rk_now o + PRIOR_KEY_WINDOW_MS <= u64_max /\
                clock_ok (rk_sweep o) ops last
  end.

Definition to_prior (r : N * string * N) : PriorKey :=
  {| pk_epoch := r.1.1; pk_key_b64 := r.1.2; pk_expires_at_ms := r.2 + PRIOR_KEY_WINDOW_MS |}.

Definition key_alive (t : N) (p : PriorKey) : bool := t <? pk_expires_at_ms p.

Lemma clock_ok_le t ops last : clock_ok t ops last -> t <= last.
Proof.
  revert t. induction ops as [|o ops IH]; intros t; cbn; [done|].
  intros (? & _ & Hrest). specialize (IH _ Hrest). lia.
Qed.

(** A later filter absorbs an earlier one. *)
Lemma alive_twice s t (l : list PriorKey) :
  s <= t -> List.filter (key_alive t) (List.filter (key_alive s) l) = List.filter (key_alive t) l.
Proof.
  intros Hst. rewrite filter_filter_bool. apply List.filter_ext. intros p. unfold key_alive.
  destruct (N.ltb_spec s (pk_expires_at_ms p)), (N.ltb_spec t (pk_expires_at_ms p)); try done. lia.
Qed.

(** Seen at [t], the stored keys are the retired ones that have not expired. *)
Lemma rekey_all_priors ops c t0 t :
  clock_ok t0 ops t ->
  List.filter (key_alive t) (c_prior_keys (rekey_all c ops))
  = List.filter (key_alive t) (c_prior_keys c ++ (to_prior <$> retired c ops)).
Proof.
  unfold rekey_all. revert c t0. induction ops as [|o ops IH]; intros c t0; cbn [foldl retired].
  { intros _. by rewrite fmap_nil, app_nil_r. }
  intros (Ht & Hof & Hck). rewrite (IH (rekey c o) _ Hck), fmap_cons, cons_middle.
  rewrite app_assoc, !(List.filter_app _ _ (to_prior <$> _)). f_equal.
  unfold rekey, advance_epoch_to. cbn.
  pose proof (clock_ok_le _ _ _ Hck) as Hle.
  change (fun p => rk_sweep o <? pk_expires_at_ms p) with (key_alive (rk_sweep o)).
  rewrite alive_twice by done. unfold to_prior, wrapping_add. cbn [fst snd].
  by rewrite N.mod_small by lia.
Qed.

Lemma prior_key_for_alive e t l :
  prior_key_for e t l = prior_key_for e t (List.filter (key_alive t) l).
Proof.
  induction l as [|p l IH]; [done|]. cbn. unfold key_alive at 1.
  destruct (N.leb_spec (pk_expires_at_ms p) t), (N.ltb_spec t (pk_expires_at_ms p)); try lia; cbn.
  - by destruct (pk_epoch p =? e).
  - destruct (N.eqb_spec (pk_epoch p) e); cbn; [|done].
    by destruct (N.leb_spec (pk_expires_at_ms p) t); [lia|].
Qed.

(** With one key per epoch the lookup finds it. *)
Lemma prior_key_for_spec e t l k :
  StronglySorted N.lt (pk_epoch <$> l) -> Forall (fun p => key_alive t p = true) l ->
  prior_key_for e t l = Ok (Some k) <->
  exists p, p ∈ l /\ pk_epoch p = e /\ decode_key "prior key" (pk_key_b64 p) = Ok k.
Proof.
  induction l as [|p l IH]; intros Hs Ha.
  { split; [done | by intros (? & ?%elem_of_nil & _)]. }
  rewrite fmap_cons in Hs. apply StronglySorted_inv in Hs as [Hs Hlt].
  apply Forall_cons in Ha as [Hp Ha]. cbn.
  destruct (N.eqb_spec (pk_epoch p) e) as [He|He]; cbn.
  - apply N.ltb_lt in Hp. destruct (N.leb_spec (pk_expires_at_ms p) t); [lia|].
    split.
    + destruct (decode_key _ _) eqn:Hd; [|done]. intros [= <-]. exists p. split; [by left | done].
    + intros (q & [->|Hq]%elem_of_cons & Hqe & Hd); [by rewrite Hd|].
      rewrite Forall_forall in Hlt. specialize (Hlt (pk_epoch q)).
      assert (pk_epoch p < pk_epoch q); [|lia]. apply Hlt. by apply list_elem_of_fmap_2.
  - rewrite IH by done. split.
    + intros (q & Hq & ?). exists q. split; [by right | done].
    + intros (q & [->|Hq]%elem_of_cons & ? & ?); [done | eauto].
Qed.

Lemma rekey_epoch c o :
  c_current_epoch (rekey c o) = N.min u32_max (N.max (rk_floor o) (c_current_epoch c) + 1).
Proof. done. Qed.

Lemma rekey_all_epoch_le ops c :
  c_current_epoch c <= u32_max ->
  c_current_epoch c <= c_current_epoch (rekey_all c ops) <= u32_max.
Proof.
  unfold rekey_all. revert c. induction ops as [|o ops IH]; intros c Hc; cbn [foldl]; [lia|].
  pose proof (rekey_epoch c o) as He. specialize (IH (rekey c o) ltac:(lia)). lia.
Qed.

(** Short of saturation the retired epochs grow and stay below the current one. *)
Lemma retired_epochs ops c :
  c_current_epoch (rekey_all c ops) < u32_max -> c_current_epoch c <= u32_max ->
  StronglySorted N.lt (fst ∘ fst <$> retired c ops) /\
  Forall (fun r => c_current_epoch c <= r.1.1 < c_current_epoch (rekey_all c ops)) (retired c ops).
Proof.
  revert c. induction ops as [|o ops IH]; intros c Hsat Hc; cbn [retired].
  { split; constructor. }
  change (rekey_all c (o :: ops)) with (rekey_all (rekey c o) ops) in *.
  pose proof (rekey_epoch c o) as He.
  assert (c_current_epoch (rekey c o) <= u32_max) as Hc' by lia.
  destruct (IH (rekey c o) Hsat Hc') as [Hs Hall].
  pose proof (rekey_all_epoch_le ops _ Hc') as Hle.
  assert (c_current_epoch c < c_current_epoch (rekey c o)) as Hlt by lia.
  split.
  - rewrite fmap_cons. constructor; [done|]. apply Forall_fmap.
    eapply Forall_impl; [exact Hall|]. intros [[e k] a] [Hr _]. cbn [fst snd compose] in *. lia.
  - constructor; [cbn [fst snd]; lia|]. eapply Forall_impl; [exact Hall|].
    intros [[e k] a] Hr. cbn [fst snd] in *. lia.
Qed.

(** After any run of re-keys, with any peer-supplied
    floors, a frame of epoch [e] seen at time [t] is opened with the key that was
    current in epoch [e], when [e] is the current epoch or stopped being current
    less than sixty seconds before [t], and with no key otherwise; every re-key
    moves to a strictly later epoch, short of the end of the epoch range. *)
Theorem epoch_key_window_exact (c : Conversation) (ops : list Rekey) (t0 t e : N) (k : bytes) :
  c_prior_keys c = [] -> c_current_epoch c <= u32_max -> clock_ok t0 ops t ->
  c_current_epoch (rekey_all c ops) < u32_max ->
  key_for_epoch e t (rekey_all c ops) = Ok (Some k) <->
  (e = c_current_epoch (rekey_all c ops) /\ current_key (rekey_all c ops) = Ok k) \/
  exists key_b64 at_ms, (e, key_b64, at_ms) ∈ retired c ops /\
    t < at_ms + PRIOR_KEY_WINDOW_MS /\ decode_key "prior key" key_b64 = Ok k.
Proof.
  intros Hnil Hc Hck Hsat. destruct (retired_epochs ops c Hsat Hc) as [Hs Hall].
  unfold key_for_epoch. destruct (N.eqb_spec e (c_current_epoch (rekey_all c ops))) as [->|Hne].
  - split; [intros Hk; left; split; [done|]; by destruct (current_key _); simplify_eq|].
    intros [[_ ->]|(kb & a & Hin & _)]; [done|].
    rewrite Forall_forall in Hall. specialize (Hall _ Hin). cbn [fst snd] in Hall. lia.
  - rewrite prior_key_for_alive, (rekey_all_priors _ _ _ _ Hck), Hnil. cbn [app].
    rewrite prior_key_for_spec.
    + split.
      * intros (p & Hp & <- & Hd). right. apply elem_of_list_filter_bool in Hp as [Hal Hp].
        apply list_elem_of_fmap in Hp as ([[e' kb] a] & -> & Hin). apply N.ltb_lt in Hal.
        by exists kb, a.
      * intros [[-> _]|(kb & a & Hin & Hlt & Hd)]; [done|]. exists (to_prior (e, kb, a)).
        split; [|done]. apply elem_of_list_filter_bool. split; [by apply N.ltb_lt|].
        by apply list_elem_of_fmap_2.
    + apply StronglySorted_filter_keys. by rewrite <- list_fmap_compose.
    + rewrite Forall_forall. by intros p [? _]%elem_of_list_filter_bool.
Qed.
End epochs.

(** ** Witnesses *)

Definition demo_fresh : Conversation :=
  mkConv "ab" None [] 0 "" [] RoleMember 0 0 DEFAULT_AUTO_REKEY_INTERVAL_MS Confirmed
    ∅ [] 0 ∅ 0 0 0 0 0.

Lemma replay_window_exact_witness :
  (check_and_record_nonce "a" [1] (observe_nonces [("a", [1]); ("b", [1]); ("b", [2])] demo_fresh)).1
  = true.
Proof. apply (replay_window_exact demo_fresh); [reflexivity|]. vm_compute. left. Defined.

Definition demo_key (b : N) : bytes := replicate 32 b.
Definition demo_keyed : Conversation :=
  set_epoch 0 (b64_encode (Base64 := demo_base64) (demo_key 7)) 0 demo_fresh.
Definition demo_rekeys : list Rekey :=
  [{| rk_floor := 4; rk_key := demo_key 8; rk_now := 1000; rk_sweep := 1001 |}].

Lemma epoch_key_window_exact_witness :
  key_for_epoch (H := demo_base64) 0 60999 (rekey_all (H := demo_base64) demo_keyed demo_rekeys)
  = Ok (Some (demo_key 7)).
Proof.
  apply (epoch_key_window_exact (H := demo_base64) demo_keyed demo_rekeys 0 60999);
    [reflexivity | vm_compute; discriminate
    | split_and!; vm_compute; split_and?; discriminate | reflexivity |].
  right. exists (b64_encode (Base64 := demo_base64) (demo_key 7)), 1000.
  split; [left | split; reflexivity].
Defined.
