(* ===== verification/ConvRegistry.v ===== *)
(** * The conversation registry

    Models [crates/fetchit-chat/src/conversation/registry.rs]: an in-memory cache
    of conversations over one sealed file each.  [disk] maps a group to what
    opening and parsing its file yields; sealing writes a temporary file and
    renames it, so a failed seal leaves the file as it was, and whether it
    succeeds is an argument [io] of the operation.  The operations
    that change a conversation hold the registry's lock throughout and are one
    step; [get] releases it between its lookup, its read and its insert, and
    [save] seals before it takes the lock: their steps are definitions of their
    own.

    The synchronous mirror of peers' public keys is left out. *)
From S2P Require Import Prelude SendState Attachment Bubble Overlay SeqGap RelayProto Conversation.

Inductive MutateAction (T : Type) :=
| Persist (value : T)
| Skip (value : T).
Arguments Persist {T} value.
Arguments Skip {T} value.

Inductive NonceCheckOutcome := Recorded | Replay.

Record ConversationRegistry := mkRegistry {
  cache : gmap string Conversation;
  disk : gmap string (result Conversation ChatError);
}.

Definition registry_empty (disk : gmap string (result Conversation ChatError))
    : ConversationRegistry := mkRegistry ∅ disk.

Definition cache_insert (g : string) (c : Conversation) (r : ConversationRegistry)
    : ConversationRegistry := mkRegistry (<[g := c]> (cache r)) (disk r).

(** ** [get] and [save], step by step *)

(** What a [get] in progress holds. *)
Inductive GetState :=
| GetDone (res : result (option Conversation) ChatError)
| GetRead
| GetInsert (conv : Conversation).

Definition get_lookup (g : string) (r : ConversationRegistry) : GetState :=
  match cache r !! g with
  | Some c => GetDone (Ok (Some c))
  | None => GetRead
  end.

Definition get_read (g : string) (r : ConversationRegistry) : GetState :=
  match disk r !! g with
  | None => GetDone (Ok None)
  | Some (Err e) => GetDone (Err e)
  | Some (Ok conv) => GetInsert conv
  end.

(** The whole call with nothing interleaved. *)
Definition get (g : string) (r : ConversationRegistry)
    : result (option Conversation) ChatError * ConversationRegistry :=
  match get_lookup g r with
  | GetDone res => (res, r)
  | _ =>
      match get_read g r with
      | GetDone res => (res, r)
      | GetRead => (Ok None, r)
      | GetInsert conv => (Ok (Some conv), cache_insert g conv r)
      end
  end.

(** The file is sealed before the lock is taken. *)
Definition save_seal (conv : Conversation) (io : result unit ChatError) (r : ConversationRegistry)
    : result unit ChatError * ConversationRegistry :=
  match io with
  | Err e => (Err e, r)
  | Ok _ => (Ok tt, mkRegistry (cache r) (<[c_group_id_hex conv := Ok conv]> (disk r)))
  end.

Definition save (conv : Conversation) (io : result unit ChatError) (r : ConversationRegistry)
    : result unit ChatError * ConversationRegistry :=
  match save_seal conv io r with
  | (Err e, r) => (Err e, r)
  | (Ok _, r) => (Ok tt, cache_insert (c_group_id_hex conv) conv r)
  end.

(** ** Operations under the lock *)

(** Bring the conversation into the cache: the conversation and the registry. *)
Definition hydrate (who g : string) (init_if_missing : option Conversation)
    (r : ConversationRegistry) : result (Conversation * ConversationRegistry) ChatError :=
  match cache r !! g with
  | Some c => Ok (c, r)
  | None =>
      match disk r !! g with
      | Some (Ok c) => Ok (c, cache_insert g c r)
      | Some (Err e) => Err e
      | None =>
          match init_if_missing with
          | Some c => Ok (c, cache_insert g c r)
          | None => Err (Invalid (who +:+ ": no conversation for group_id " +:+ g))
          end
      end
  end.

(** Seal the new image, or put the snapshot back. *)
Definition persist {T} (g : string) (conv : Conversation) (value : T) (io : result unit ChatError)
    (r : ConversationRegistry) : result T ChatError * ConversationRegistry :=
  match io with
  | Ok _ => (Ok value, mkRegistry (<[g := conv]> (cache r)) (<[g := Ok conv]> (disk r)))
  | Err e => (Err e, r)
  end.

Definition mutate_in_place_impl {T} (g : string) (init_if_missing : option Conversation)
    (mutate : Conversation -> MutateAction T * Conversation) (io : result unit ChatError)
    (r : ConversationRegistry) : result T ChatError * ConversationRegistry :=
  match hydrate "mutate_in_place" g init_if_missing r with
  | Err e => (Err e, r)
  | Ok (conv, r) =>
      match mutate conv with
      | (Persist value, conv') => persist g conv' value io r
      | (Skip value, _) => (Ok value, r)
      end
  end.

Definition mutate_in_place {T} (g : string)
    (mutate : Conversation -> MutateAction T * Conversation) (io : result unit ChatError)
    (r : ConversationRegistry) : result T ChatError * ConversationRegistry :=
  mutate_in_place_impl g None mutate io r.

Definition mutate_in_place_or_init {T} (g : string) (init : Conversation)
    (mutate : Conversation -> MutateAction T * Conversation) (io : result unit ChatError)
    (r : ConversationRegistry) : result T ChatError * ConversationRegistry :=
  mutate_in_place_impl g (Some init) mutate io r.

Definition wedge_progress (now_ms : N) (c : Conversation) : MutateAction unit * Conversation :=
  (Persist tt, set_wedge now_ms now_ms (c_current_epoch c) (c_wedge_max_stale_epoch c) c).

Definition note_wedge_progress (g : string) (now_ms : N) (io : result unit ChatError)
    (r : ConversationRegistry) : ConversationRegistry :=
  (mutate_in_place g (wedge_progress now_ms) io r).2.

Definition wedge_inbound (frame_epoch : option N) (now_ms : N) (c : Conversation)
    : MutateAction unit * Conversation :=
  let max_stale :=
    match frame_epoch with
    | Some e => if c_current_epoch c <? e then N.max (c_wedge_max_stale_epoch c) e
                else c_wedge_max_stale_epoch c
    | None => c_wedge_max_stale_epoch c
    end in
  (Persist tt, set_wedge (c_wedge_last_progress_ms c) now_ms (c_wedge_progress_epoch c) max_stale c).

Definition note_wedge_inbound (g : string) (frame_epoch : option N) (now_ms : N)
    (io : result unit ChatError) (r : ConversationRegistry) : ConversationRegistry :=
  (mutate_in_place g (wedge_inbound frame_epoch now_ms) io r).2.

Definition record_nonce (g sender_agent_hex : string) (nonce : bytes) (io : result unit ChatError)
    (r : ConversationRegistry) : result NonceCheckOutcome ChatError * ConversationRegistry :=
  match hydrate "record_nonce" g None r with
  | Err e => (Err e, r)
  | Ok (conv, r) =>
      match check_and_record_nonce sender_agent_hex nonce conv with
      | (true, _) => (Ok Replay, r)
      | (false, conv') => persist g conv' Recorded io r
      end
  end.

Definition record_delivery (g message_id : string) (received_at_ms : N)
    (io : result unit ChatError) (r : ConversationRegistry)
    : result bool ChatError * ConversationRegistry :=
  match hydrate "record_delivery" g None r with
  | Err e => (Err e, r)
  | Ok (conv, r) =>
      match apply_delivery_receipt message_id received_at_ms conv with
      | (false, _) => (Ok false, r)
      | (true, conv') => persist g conv' true io r
      end
  end.

(** ** The registry over time *)

(** The conversation a caller would work on: the cached one, else the file. *)
Definition effective (g : string) (r : ConversationRegistry) : option Conversation :=
  match cache r !! g with
  | Some c => Some c
  | None => match disk r !! g with Some (Ok c) => Some c | _ => None end
  end.

(** The cache is a part of what is on disk. *)
Definition synced (r : ConversationRegistry) : Prop :=
  forall g c, cache r !! g = Some c -> disk r !! g = Some (Ok c).

(** A call on the registry, or the process coming back with an empty cache. *)
Inductive RegOp :=
| OGet (g : string)
| ONonce (g sender : string) (nonce : bytes) (io : result unit ChatError)
| ODelivery (g message_id : string) (at_ms : N) (io : result unit ChatError)
| OMutate (g : string) (mutate : Conversation -> MutateAction unit * Conversation)
    (io : result unit ChatError)
| ORestart.

Definition reg_step (r : ConversationRegistry) (op : RegOp) : ConversationRegistry :=
  match op with
  | OGet g => (get g r).2
  | ONonce g s n io => (record_nonce g s n io r).2
  | ODelivery g id t io => (record_delivery g id t io r).2
  | OMutate g m io => (mutate_in_place g m io r).2
  | ORestart => registry_empty (disk r)
  end.

(** *** Each operation on the effective conversations *)

(** Same effective conversations, and still synced. *)
Definition reg_same (r r' : ConversationRegistry) : Prop :=
  synced r' /\ forall g, effective g r' = effective g r.

Lemma hydrate_ok who g r c r' :
  synced r -> hydrate who g None r = Ok (c, r') -> reg_same r r' /\ effective g r = Some c.
Proof.
  intros Hs. unfold hydrate, reg_same, effective. destruct (cache r !! g) as [c0|] eqn:Hc.
  { intros [= <- <-]. done. }
  destruct (disk r !! g) as [[c0|]|] eqn:Hd; try done. intros [= <- <-].
  split; [|done]. split.
  - intros g' c'. cbn. rewrite lookup_insert_Some. intros [[<- <-]|[_ ?]]; [done | by apply Hs].
  - intros g'. cbn. destruct (decide (g' = g)) as [->|].
    + by rewrite lookup_insert_eq, Hc, Hd.
    + by rewrite lookup_insert_ne.
Qed.

(** Sealing succeeded and [g] now is [c], or nothing changed. *)
Definition reg_updated (g : string) (c : Conversation) (r r' : ConversationRegistry) : Prop :=
  synced r' /\ forall g', effective g' r' = if decide (g' = g) then Some c else effective g' r.

Lemma persist_spec {T} g c (v : T) io r :
  synced r ->
  match io with
  | Ok _ => (persist g c v io r).1 = Ok v /\ reg_updated g c r (persist g c v io r).2
  | Err e => persist g c v io r = (Err e, r)
  end.
Proof.
  intros Hs. destruct io as [[]|e]; [|done]. cbn. split; [done|]. split.
  - intros g' c'. cbn. rewrite lookup_insert_Some. intros [[<- <-]|[Hne Hc]].
    + by rewrite lookup_insert_eq.
    + rewrite lookup_insert_ne by done. by apply Hs.
  - intros g'. unfold effective. cbn. case_decide as Hg; [subst; by rewrite lookup_insert_eq|].
    by rewrite !lookup_insert_ne by done.
Qed.

Lemma reg_updated_same g c r r1 r2 : reg_same r r1 -> reg_updated g c r1 r2 -> reg_updated g c r r2.
Proof.
  intros [_ He] [Hs Hu]. split; [done|]. intros g'. rewrite Hu, He. done.
Qed.

Lemma get_same g r : synced r -> reg_same r (get g r).2.
Proof.
  intros Hs. unfold get, get_lookup, get_read.
  destruct (cache r !! g) as [c|] eqn:Hc; [done|].
  destruct (disk r !! g) as [[c|]|] eqn:Hd; [|done..].
  apply (hydrate_ok "" g r c); [done|]. unfold hydrate. by rewrite Hc, Hd.
Qed.

(** The three calls that hydrate, change and seal. *)
Lemma locked_update {T} who g r (f : Conversation -> option (T * Conversation)) (other : T)
    (res : result T ChatError * ConversationRegistry) io :
  synced r ->
  res = match hydrate who g None r with
        | Err e => (Err e, r)
        | Ok (c, r) => match f c with
                       | None => (Ok other, r)
                       | Some (v, c') => persist g c' v io r
                       end
        end ->
  (reg_same r res.2 /\ ((exists e, res.1 = Err e) \/
     exists c, effective g r = Some c /\ f c = None /\ res.1 = Ok other)) \/
  exists c v c', effective g r = Some c /\ f c = Some (v, c') /\ res.1 = Ok v /\
    reg_updated g c' r res.2.
Proof.
  intros Hs ->. destruct (hydrate who g None r) as [[c r1]|e] eqn:Hh; cbn.
  - apply hydrate_ok in Hh as [Hsame Heff]; [|done]. destruct (f c) as [[v c']|] eqn:Hf.
    + pose proof (persist_spec g c' v io r1 (proj1 Hsame)) as Hp.
      destruct io as [u|e].
      * right. exists c, v, c'. destruct Hp as [? Hp]. split_and!; try done.
        by eapply reg_updated_same.
      * rewrite Hp. left. split; [done|]. left. by eexists.
    + left. split; [done|]. right. by exists c.
  - left. split; [done|]. left. by eexists.
Qed.

(** [None] is a replay. *)
Definition fresh_nonce (s : string) (n : bytes) (c : Conversation)
    : option (NonceCheckOutcome * Conversation) :=
  match check_and_record_nonce s n c with
  | (true, _) => None
  | (false, c') => Some (Recorded, c')
  end.

Lemma record_nonce_cases g s n io r :
  synced r ->
  let res := record_nonce g s n io r in
  (reg_same r res.2 /\ ((exists e, res.1 = Err e) \/
     exists c, effective g r = Some c /\ (check_and_record_nonce s n c).1 = true /\ res.1 = Ok Replay)) \/
  exists c, effective g r = Some c /\ (check_and_record_nonce s n c).1 = false /\
    res.1 = Ok Recorded /\ reg_updated g (check_and_record_nonce s n c).2 r res.2.
Proof.
  intros Hs. cbv zeta.
  destruct (locked_update "record_nonce" g r (fresh_nonce s n) Replay (record_nonce g s n io r) io Hs)
    as [[Hsame Hres]|(c & v & c' & Hc & Hf & Hr & Hu)].
  { unfold record_nonce, fresh_nonce. destruct (hydrate _ _ _ _) as [[c r1]|]; [|done].
    by destruct (check_and_record_nonce s n c) as [[] c']. }
  - left. split; [done|]. destruct Hres as [He|(c & Hc & Hf & Hr)]; [by left|].
    right. exists c. unfold fresh_nonce in Hf.
    by destruct (check_and_record_nonce s n c) as [[] c'].
  - right. exists c. unfold fresh_nonce in Hf.
    destruct (check_and_record_nonce s n c) as [[] c''] eqn:Hk; [done|]. by simplify_eq/=.
Qed.

(** ** The replay window across restarts and failed writes *)

(** The window a sender has in a group. *)
Definition window (g s : string) (r : ConversationRegistry) : list bytes :=
  match effective g r with
  | Some c => default [] (c_seen_nonces c !! s)
  | None => []
  end.

(** A change that leaves the replay windows alone. *)
Definition keeps_nonces (op : RegOp) : Prop :=
  match op with
  | OMutate _ m _ => forall c, c_seen_nonces (m c).2 = c_seen_nonces c
  | _ => True
  end.

(** The nonces of [s] that [record_nonce] admitted along a run, oldest first. *)
Definition admit_nonce (g s : string) (ra : ConversationRegistry * list bytes) (op : RegOp)
    : ConversationRegistry * list bytes :=
  (reg_step ra.1 op,
   match op with
   | ONonce g' s' n io =>
       match (record_nonce g' s' n io ra.1).1 with
       | Ok Recorded => if bool_decide (g' = g /\ s' = s) then ra.2 ++ [n] else ra.2
       | _ => ra.2
       end
   | _ => ra.2
   end).
Definition admitted (g s : string) (r : ConversationRegistry) (ops : list RegOp) : list bytes :=
  (foldl (admit_nonce g s) (r, []) ops).2.

Lemma same_window g s r r' : reg_same r r' -> window g s r' = window g s r.
Proof. intros [_ He]. unfold window. by rewrite He. Qed.

Lemma updated_window g' c' g s r r' :
  reg_updated g' c' r r' ->
  window g s r' = if decide (g = g') then default [] (c_seen_nonces c' !! s) else window g s r.
Proof. intros [_ He]. unfold window. rewrite He. by case_decide. Qed.

(** An update that keeps the windows of the conversation it changes. *)
Lemma updated_keeps g' c c' g s r r' :
  effective g' r = Some c -> c_seen_nonces c' = c_seen_nonces c ->
  reg_updated g' c' r r' -> window g s r' = window g s r.
Proof.
  intros Hc Hk Hu. rewrite (updated_window _ _ _ _ _ _ Hu). case_decide; [subst|done].
  unfold window. by rewrite Hc, Hk.
Qed.

Lemma receipt_keeps_nonces id t c : c_seen_nonces (apply_delivery_receipt id t c).2 = c_seen_nonces c.
Proof. unfold apply_delivery_receipt. by destruct (receipt_scan _ _ _). Qed.

(** Still synced, and every window as it was. *)
Definition windows_kept (r r' : ConversationRegistry) : Prop :=
  synced r' /\ forall g s, window g s r' = window g s r.

Lemma same_windows_kept r r' : reg_same r r' -> windows_kept r r'.
Proof. intros Hs. split; [apply Hs|]. intros g s. by apply same_window. Qed.

Lemma updated_windows_kept g c c' r r' :
  effective g r = Some c -> c_seen_nonces c' = c_seen_nonces c -> reg_updated g c' r r' ->
  windows_kept r r'.
Proof. intros Hc Hk Hu. split; [apply Hu|]. intros g' s. by eapply updated_keeps. Qed.

Lemma delivery_windows_kept g id t io r :
  synced r -> windows_kept r (record_delivery g id t io r).2.
Proof.
  intros Hs. destruct (locked_update "record_delivery" g r
    (fun c => match apply_delivery_receipt id t c with (false, _) => None | (true, c') => Some (true, c') end)
    false (record_delivery g id t io r) io Hs) as [[Hsame _]|(c & v & c' & Hc & Hf & _ & Hu)].
  - unfold record_delivery. destruct (hydrate _ _ _ _) as [[c r1]|]; [|done].
    by destruct (apply_delivery_receipt id t c) as [[] c'].
  - by apply same_windows_kept.
  - eapply updated_windows_kept; [done| |done]. pose proof (receipt_keeps_nonces id t c) as Hrk.
    destruct (apply_delivery_receipt id t c) as [[] c'']; by simplify_eq/=.
Qed.

Lemma mutate_windows_kept {T} g (m : Conversation -> MutateAction T * Conversation) io r :
  synced r -> (forall c, c_seen_nonces (m c).2 = c_seen_nonces c) ->
  windows_kept r (mutate_in_place g m io r).2.
Proof.
  intros Hs Hk. unfold mutate_in_place, mutate_in_place_impl.
  destruct (hydrate "mutate_in_place" g None r) as [[c r1]|e] eqn:Hh; [|done].
  apply hydrate_ok in Hh as [Hsame Heff]; [|done]. specialize (Hk c).
  destruct (m c) as [[v|v] c'] eqn:Hm; cbn in Hk |- *; [|by apply same_windows_kept].
  pose proof (persist_spec g c' v io r1 (proj1 Hsame)) as Hp. destruct io as [u|e].
  - destruct Hp as [_ Hp]. apply (updated_windows_kept g c c'); [done..|].
    by eapply reg_updated_same.
  - rewrite Hp. by apply same_windows_kept.
Qed.

Lemma restart_windows_kept r : synced r -> windows_kept r (registry_empty (disk r)).
Proof.
  intros Hs. split; [intros g c; cbn; by rewrite lookup_empty|]. intros g s.
  unfold window, effective. cbn. rewrite lookup_empty.
  destruct (cache r !! g) as [c|] eqn:Hc; [by rewrite (Hs _ _ Hc) | done].
Qed.

(** An admitted nonce enters the window of its sender and no other. *)
Lemma admitted_window g s n c r r' g' s' :
  effective g r = Some c -> (check_and_record_nonce s n c).1 = false ->
  reg_updated g (check_and_record_nonce s n c).2 r r' ->
  let w := window g s r in
  window g' s' r' =
    if bool_decide (g = g' /\ s = s')
    then (if (WINDOW_SIZE <=? length w)%nat then tail w else w) ++ [n]
    else window g' s' r.
Proof.
  intros Hc Hck Hu w. rewrite (updated_window _ _ _ _ _ _ Hu). subst w.
  assert (window g s r = default [] (c_seen_nonces c !! s)) as Hw by (unfold window; by rewrite Hc).
  unfold check_and_record_nonce in Hck |- *. rewrite <- Hw in Hck |- *.
  destruct (bool_decide (n ∈ window g s r)); [done|]. cbn [snd c_seen_nonces set_seen_nonces].
  destruct (decide (g' = g)) as [->|Hg]; [|by rewrite bool_decide_eq_false_2 by naive_solver].
  destruct (decide (s = s')) as [->|Hne].
  - by rewrite bool_decide_eq_true_2, lookup_insert_eq by done.
  - rewrite bool_decide_eq_false_2, lookup_insert_ne by naive_solver.
    unfold window. by rewrite Hc.
Qed.

Lemma step_synced_window r op g s acc :
  synced r -> keeps_nonces op -> window g s r = newest_of WINDOW_SIZE acc ->
  let ra := admit_nonce g s (r, acc) op in
  synced ra.1 /\ window g s ra.1 = newest_of WINDOW_SIZE ra.2.
Proof.
  intros Hs Hk Hw.
  assert (forall r', windows_kept r r' -> synced r' /\ window g s r' = newest_of WINDOW_SIZE acc)
    as Hkept by (intros r' [? ->]; done).
  destruct op as [g'|g' s' n io|g' id t io|g' m io|]; cbn [admit_nonce reg_step fst snd].
  - apply Hkept, same_windows_kept. by apply get_same.
  - destruct (record_nonce_cases g' s' n io r Hs) as [[Hsame Hres]|(c & Hc & Hck & Hr & Hu)].
    + assert (match (record_nonce g' s' n io r).1 with
              | Ok Recorded => if bool_decide (g' = g /\ s' = s) then acc ++ [n] else acc
              | _ => acc end = acc) as ->
        by (destruct Hres as [[e ->]|(c & _ & _ & ->)]; done).
      by apply Hkept, same_windows_kept.
    + split; [apply Hu|]. rewrite Hr, (admitted_window g' s' n c r _ g s) by done.
      case_bool_decide as Hgs; [|done]. destruct Hgs as [-> ->]. rewrite Hw.
      symmetry. apply newest_of_snoc. unfold WINDOW_SIZE. lia.
  - by apply Hkept, delivery_windows_kept.
  - by apply Hkept, mutate_windows_kept.
  - by apply Hkept, restart_windows_kept.
Qed.

Lemma run_synced_window ops r g s acc :
  synced r -> Forall keeps_nonces ops -> window g s r = newest_of WINDOW_SIZE acc ->
  let ra := foldl (admit_nonce g s) (r, acc) ops in
  synced ra.1 /\ window g s ra.1 = newest_of WINDOW_SIZE ra.2.
Proof.
  cbv zeta. revert r acc. induction ops as [|op ops IH]; intros r acc Hs Hk Hw; [done|].
  apply Forall_cons in Hk as [Hop Hk]. cbn [foldl].
  destruct (step_synced_window r op g s acc Hs Hop Hw) as [Hs' Hw'].
  destruct (admit_nonce g s (r, acc) op) as [r' acc']. by apply IH.
Qed.

Lemma admit_nonce_run ops r g s acc : (foldl (admit_nonce g s) (r, acc) ops).1 = foldl reg_step r ops.
Proof.
  revert r acc. induction ops as [|op ops IH]; intros r acc; [done|]. cbn [foldl].
  unfold admit_nonce at 2. cbn [fst snd]. by rewrite IH.
Qed.

(** Let the registry's calls run one after another,
    with seals that fail, delivery receipts, other updates and restarts of the
    process between them.  A nonce is then reported as a replay exactly when it is
    one of the last 64 that were recorded for its sender and group; in particular
    neither a restart nor a failed write forgets a recorded nonce, and a write
    that failed recorded none. *)
Theorem replays_rejected_durably (r : ConversationRegistry) (ops : list RegOp)
    (g s : string) (n : bytes) (io : result unit ChatError) :
  synced r -> window g s r = [] -> Forall keeps_nonces ops ->
  (record_nonce g s n io (foldl reg_step r ops)).1 = Ok Replay
  <-> n ∈ newest_of WINDOW_SIZE (admitted g s r ops).
Proof.
  intros Hs Hw Hk. destruct (run_synced_window ops r g s [] Hs Hk Hw) as [Hs' Hw'].
  unfold admitted. rewrite admit_nonce_run in Hs', Hw'. rewrite <- Hw'.
  set (r' := foldl reg_step r ops) in *.
  assert (forall c, effective g r' = Some c ->
    ((check_and_record_nonce s n c).1 = true <-> n ∈ window g s r')) as Hck.
  { intros c Hc. unfold check_and_record_nonce, window. rewrite Hc. by case_bool_decide. }
  destruct (record_nonce_cases g s n io r' Hs') as [[_ [[e He]|(c & Hc & Hrp & ->)]]|(c & Hc & Hf & -> & _)].
  - rewrite He. split; [done|]. intros Hin. exfalso. unfold window in Hin.
    destruct (effective g r') as [c|] eqn:Hc; [|by apply elem_of_nil in Hin].
    specialize (Hck c eq_refl). unfold window in Hck. rewrite Hc in Hck.
    apply Hck in Hin. revert He. unfold record_nonce. clear - Hc Hin.
    unfold effective in Hc. unfold hydrate.
    destruct (cache r' !! g) as [c0|]; [|destruct (disk r' !! g) as [[c0|]|]; [|done..]];
      simplify_eq; destruct (check_and_record_nonce s n c) as [[] ?]; done.
  - naive_solver.
  - rewrite <- (Hck c Hc), Hf. done.
Qed.

(** A [get] of a conversation that is not cached reads
    the file without the lock and then replaces whatever the cache holds.  When
    another task records a nonce between that read and that insert, the insert
    brings back the window from before, and the same nonce is recorded a second
    time: the same frame passes the replay check twice. *)
Theorem cold_get_reopens_window (r : ConversationRegistry) (c : Conversation) (g s : string)
    (n : bytes) :
  cache r !! g = None -> disk r !! g = Some (Ok c) ->
  (check_and_record_nonce s n c).1 = false ->
  get_lookup g r = GetRead /\ get_read g r = GetInsert c /\
  let '(first, r1) := record_nonce g s n (Ok tt) r in
  let '(second, _) := record_nonce g s n (Ok tt) (cache_insert g c r1) in
  first = Ok Recorded /\ second = Ok Recorded.
Proof.
  intros Hc Hd Hf. unfold get_lookup, get_read. rewrite Hc, Hd. split; [done|]. split; [done|].
  unfold record_nonce, hydrate. rewrite Hc, Hd.
  destruct (check_and_record_nonce s n c) as [[] c'] eqn:Hk; [done|].
  cbn. by rewrite lookup_insert_eq, Hk.
Qed.

(** ** Witnesses *)

Definition demo_member : Member :=
  {| mb_user_id_hex := None; mb_devices := []; mb_joined_at_epoch := 0 |}.
Definition demo_conv : Conversation :=
  mkConv "ab" None [demo_member] 0 "k" [] RoleMember 0 0 DEFAULT_AUTO_REKEY_INTERVAL_MS Confirmed
    ∅ [] 0 ∅ 0 0 0 0 0.
Definition demo_registry : ConversationRegistry := registry_empty {["ab" := Ok demo_conv]}.
Definition demo_ops : list RegOp :=
  [OGet "ab"; ONonce "ab" "peer" [1] (Ok tt); ONonce "ab" "peer" [2] (Err (Invalid "disk full"));
   OMutate "ab" (wedge_progress 5) (Ok tt); ORestart; ODelivery "ab" "m" 7 (Ok tt)].

Lemma replays_rejected_durably_witness :
  (record_nonce "ab" "peer" [1] (Ok tt) (foldl reg_step demo_registry demo_ops)).1 = Ok Replay /\
  ((record_nonce "ab" "peer" [2] (Ok tt) (foldl reg_step demo_registry demo_ops)).1 = Ok Replay
   <-> [2] ∈ newest_of WINDOW_SIZE [[1]]).
Proof.
  assert (synced demo_registry) as Hs by (intros g c; cbn; by rewrite lookup_empty).
  assert (Forall keeps_nonces demo_ops) as Hk by (repeat constructor).
  split.
  - apply (replays_rejected_durably demo_registry demo_ops "ab" "peer" [1] (Ok tt)); [done..|].
    vm_compute. left.
  - apply (replays_rejected_durably demo_registry demo_ops "ab" "peer" [2] (Ok tt)); done.
Defined.

Lemma cold_get_reopens_window_witness :
  let '(first, r1) := record_nonce "ab" "peer" [1] (Ok tt) demo_registry in
  let '(second, _) := record_nonce "ab" "peer" [1] (Ok tt) (cache_insert "ab" demo_conv r1) in
  first = Ok Recorded /\ second = Ok Recorded.
Proof.
  apply (cold_get_reopens_window demo_registry demo_conv "ab" "peer" [1]); reflexivity.
Defined.
