(* ===== verification/ContactCard.v ===== *)
(** * Contact cards on disk

    Models the stored card of a peer and the writes that update it
    ([crates/fetchit-chat/src/messages.rs] [StoredContactCard]): relay hints
    learned from messages, and imports.  Both run under one process-wide lock, so
    each is one step.  A card file is absent, unreadable, unparsable or a card;
    writing replaces it atomically, and whether that succeeds is an argument. *)
From stdpp Require Import pretty.
From S2P Require Import Prelude SendState RelayProto RelayAuth PairRecord.

Definition MAX_HINT_RELAYS : N := 8.
Definition MAX_HINT_URL_LEN : N := 256.

Record RendezvousHintsV1 := { rh_relays : list string }.

#[projections(primitive)] Record StoredContactCard := mkCard {
  cc_agent_id_hex : string;
  cc_display_name : string;
  cc_kem_public_key_b64 : string;
  cc_agent_public_key_b64 : option string;
  cc_rendezvous_hints : option RendezvousHintsV1;
  cc_last_hint_epoch_ms : option N;
  cc_user_id_hex : option string;
}.

Inductive CardFile :=
| CardUnreadable (source : string)
| CardCorrupt (why : string)
| CardOk (card : StoredContactCard).

(** The contacts directory and its files by agent id. *)
Record Contacts := mkContacts {
  contacts_dir : string;
  card_files : gmap string CardFile;
}.

Definition contact_path (agent_id_hex : string) (cs : Contacts) : string :=
  contacts_dir cs +:+ "/" +:+ agent_id_hex +:+ ".json".

Definition card_load (agent_id_hex : string) (cs : Contacts)
    : result (option StoredContactCard) ChatError :=
  match card_files cs !! agent_id_hex with
  | None => Ok None
  | Some (CardUnreadable s) => Err (Io s)
  | Some (CardCorrupt e) => Err (Invalid ("stored card parse: " +:+ e))
  | Some (CardOk card) => Ok (Some card)
  end.

(** [write_json_atomic] at the card's own path. *)
Definition card_save (card : StoredContactCard) (io : result unit ChatError) (cs : Contacts)
    : result unit ChatError * Contacts :=
  match io with
  | Err e => (Err e, cs)
  | Ok _ => (Ok tt, mkContacts (contacts_dir cs)
                      (<[cc_agent_id_hex card := CardOk card]> (card_files cs)))
  end.

Definition BARE_IP_RELAY_MIGRATIONS : list (string * string) :=
  [("67.207.94.66:8088", "https://nyc-relay.etchit.io");
   ("159.89.11.217:8088", "https://fra-relay.etchit.io")]%string.

Definition migrate_known_bare_ip_relay `{UrlParse} (relay : string) : string :=
  match url_parse relay with
  | None => relay
  | Some url =>
      match url_host_str url with
      | None => relay
      | Some host =>
          let host_port := match url_port url with
                           | Some p => host +:+ ":" +:+ pretty p
                           | None => host
                           end in
          match List.find (fun m => bool_decide (host_port = m.1)) BARE_IP_RELAY_MIGRATIONS with
          | Some m => m.2
          | None => relay
          end
      end
  end.

Definition set_hint (relays : list string) (epoch : N) (c : StoredContactCard) : StoredContactCard :=
  let '(mkCard a d k p _ _ u) := c in
  mkCard a d k p (Some {| rh_relays := relays |}) (Some epoch) u.

(** The list is within the caps. *)
Definition hint_list_ok (relays : list string) : bool :=
  negb (bool_decide (relays = []) || (MAX_HINT_RELAYS <? len relays)
        || existsb (fun u => MAX_HINT_URL_LEN <? str_len u) relays).

Definition apply_relay_hint `{UrlParse} (sender_agent_id_hex : string) (relays : list string)
    (hint_epoch_ms : N) (io : result unit ChatError) (cs : Contacts)
    : result bool ChatError * Contacts :=
  if negb (hint_list_ok relays) then (Ok false, cs)
  else
    let relays := migrate_known_bare_ip_relay <$> relays in
    match card_load sender_agent_id_hex cs with
    | Err e => (Err e, cs)
    | Ok None => (Ok false, cs)
    | Ok (Some card) =>
        let stored_epoch := default 0 (cc_last_hint_epoch_ms card) in
        if hint_epoch_ms <=? stored_epoch then (Ok false, cs)
        else match card_save (set_hint relays hint_epoch_ms card) io cs with
             | (Err e, cs) => (Err e, cs)
             | (Ok _, cs) => (Ok true, cs)
             end
    end.

Definition nonempty (s : string) : bool := negb (bool_decide (s = EmptyString)).

(** What the card on disk contributes to an imported one. *)
Definition merge_imported (existing incoming : StoredContactCard) : StoredContactCard :=
  let epoch_held := is_some (cc_last_hint_epoch_ms existing) in
  mkCard
    (cc_agent_id_hex incoming)
    (if negb (nonempty (cc_display_name incoming)) && nonempty (cc_display_name existing)
     then cc_display_name existing else cc_display_name incoming)
    (if negb (nonempty (cc_kem_public_key_b64 incoming)) && nonempty (cc_kem_public_key_b64 existing)
     then cc_kem_public_key_b64 existing else cc_kem_public_key_b64 incoming)
    (if negb (nonempty (default EmptyString (cc_agent_public_key_b64 incoming)))
        && match cc_agent_public_key_b64 existing with Some k => nonempty k | None => false end
     then cc_agent_public_key_b64 existing else cc_agent_public_key_b64 incoming)
    (if epoch_held then cc_rendezvous_hints existing else cc_rendezvous_hints incoming)
    (if epoch_held then cc_last_hint_epoch_ms existing else cc_last_hint_epoch_ms incoming)
    (if negb (is_some (cc_user_id_hex incoming)) && is_some (cc_user_id_hex existing)
     then cc_user_id_hex existing else cc_user_id_hex incoming).

Definition save_imported (card : StoredContactCard) (io : result unit ChatError) (cs : Contacts)
    : result unit ChatError * Contacts :=
  match card_load (cc_agent_id_hex card) cs with
  | Err e => (Err e, cs)
  | Ok existing =>
      let card := match existing with Some e => merge_imported e card | None => card end in
      card_save card io cs
  end.

(** ** Cards over time *)

Section cards.
  Context `{UrlParse}.

Inductive CardOp :=
| HintOp (agent : string) (relays : list string) (epoch : N) (io : result unit ChatError)
| ImportOp (card : StoredContactCard) (io : result unit ChatError).

Definition card_step (cs : Contacts) (op : CardOp) : Contacts :=
  match op with
  | HintOp a relays epoch io => (apply_relay_hint a relays epoch io cs).2
  | ImportOp card io => (save_imported card io cs).2
  end.

Definition held_key (c : StoredContactCard) : bool :=
  nonempty (default EmptyString (cc_agent_public_key_b64 c)).
Definition watermark (c : StoredContactCard) : N := default 0 (cc_last_hint_epoch_ms c).

(** [c'] keeps everything [c] had learned: keys, name and account stay filled in,
    the watermark does not go back, and once there is one the relays change only
    together with it. *)
Record card_le (c c' : StoredContactCard) : Prop := {
  cl_key : held_key c = true -> held_key c' = true;
  cl_kem : nonempty (cc_kem_public_key_b64 c) = true -> nonempty (cc_kem_public_key_b64 c') = true;
  cl_name : nonempty (cc_display_name c) = true -> nonempty (cc_display_name c') = true;
  cl_user : is_some (cc_user_id_hex c) = true -> is_some (cc_user_id_hex c') = true;
  cl_mark : watermark c <= watermark c';
  cl_held : is_some (cc_last_hint_epoch_ms c) = true -> is_some (cc_last_hint_epoch_ms c') = true;
  cl_hints : is_some (cc_last_hint_epoch_ms c) = true -> watermark c' = watermark c ->
             cc_rendezvous_hints c' = cc_rendezvous_hints c;
}.

#[export] Instance card_le_preorder : PreOrder card_le.
Proof.
  split.
  - intros c. by constructor.
  - intros a b c [? ? ? ? ? ? Hh1] [? ? ? ? ? ? Hh2]. constructor; eauto; [lia|].
    intros Hs Hw. rewrite Hh2; [apply Hh1|..]; eauto; lia.
Qed.

Lemma set_hint_le relays epoch c : watermark c < epoch -> card_le c (set_hint relays epoch c).
Proof. intros Hw. constructor; try done; cbn; [lia|]. intros _ ->. lia. Qed.

Lemma merge_imported_le e c : card_le e (merge_imported e c).
Proof.
  constructor; unfold held_key, watermark; cbn.
  - destruct (cc_agent_public_key_b64 e) as [k|]; cbn; [|done].
    destruct (nonempty k) eqn:Hk; [|done]. intros _.
    by destruct (nonempty (default "" (cc_agent_public_key_b64 c))) eqn:Hi; cbn.
  - destruct (nonempty (cc_kem_public_key_b64 e)) eqn:Hk; [|done].
    by destruct (nonempty (cc_kem_public_key_b64 c)) eqn:Hi; cbn.
  - destruct (nonempty (cc_display_name e)) eqn:Hk; [|done].
    by destruct (nonempty (cc_display_name c)) eqn:Hi; cbn.
  - destruct (cc_user_id_hex e), (cc_user_id_hex c) eqn:Hu; cbn; rewrite ?Hu; done.
  - destruct (cc_last_hint_epoch_ms e) eqn:He; cbn; rewrite ?He; cbn; lia.
  - by destruct (cc_last_hint_epoch_ms e) eqn:He; cbn.
  - by destruct (cc_last_hint_epoch_ms e) eqn:He; cbn.
Qed.

(** Every file is named after the card in it. *)
Definition files_named (cs : Contacts) : Prop :=
  forall a c, card_files cs !! a = Some (CardOk c) -> cc_agent_id_hex c = a.

Lemma card_save_step c io cs a old :
  files_named cs -> card_files cs !! a = Some (CardOk old) ->
  (cc_agent_id_hex c = a -> card_le old c) ->
  files_named (card_save c io cs).2 /\
  exists new, card_files (card_save c io cs).2 !! a = Some (CardOk new) /\ card_le old new.
Proof.
  intros Hn Ha Hle. destruct io; cbn; [|split; [done|]; by exists old]. split.
  - intros a' c'. cbn. rewrite lookup_insert_Some. intros [[? [= <-]]|[_ ?]]; [done | by apply Hn].
  - destruct (decide (cc_agent_id_hex c = a)) as [<-|Hne].
    + rewrite lookup_insert_eq. eauto.
    + rewrite lookup_insert_ne by done. by exists old.
Qed.

Lemma card_step_le op cs a old :
  files_named cs -> card_files cs !! a = Some (CardOk old) ->
  files_named (card_step cs op) /\
  exists new, card_files (card_step cs op) !! a = Some (CardOk new) /\ card_le old new.
Proof.
  intros Hn Ha. assert (files_named cs /\ exists new, card_files cs !! a = Some (CardOk new) /\ card_le old new)
    as Hkeep by (split; [done|]; by exists old).
  destruct op as [b relays epoch io|c io]; cbn.
  - unfold apply_relay_hint. destruct (hint_list_ok relays); cbn; [|done].
    unfold card_load. destruct (card_files cs !! b) as [[|?|card]|] eqn:Hb; cbn; try done.
    destruct (N.leb_spec epoch (default 0 (cc_last_hint_epoch_ms card))); [done|].
    pose proof (card_save_step (set_hint (migrate_known_bare_ip_relay <$> relays) epoch card)
      io cs a old Hn Ha) as Hs. ospecialize (Hs _).
    { intros Heq. change (cc_agent_id_hex card = a) in Heq. rewrite (Hn _ _ Hb) in Heq. subst b.
      rewrite Ha in Hb. simplify_eq. by apply set_hint_le. }
    by destruct (card_save _ io cs) as [[?|?] cs'].
  - unfold save_imported, card_load.
    destruct (card_files cs !! cc_agent_id_hex c) as [[|?|e]|] eqn:Hb; cbn; try done.
    + apply card_save_step; [done..|]. cbn. intros <-. rewrite Ha in Hb. simplify_eq.
      apply merge_imported_le.
    + apply card_save_step; [done..|]. intros <-. by rewrite Ha in Hb.
Qed.

(** Whatever relay hints and imported cards arrive
    in whatever order, and whichever writes fail, a card on disk is never lost and
    never loses what it had: its verification key, KEM key, name and account id
    stay filled in, its hint watermark never goes back, and once a hint was
    learned the stored relays change only together with a strictly newer
    watermark. *)
Theorem contact_cards_never_downgrade (cs : Contacts) (ops : list CardOp) (a : string)
    (old : StoredContactCard) :
  files_named cs -> card_files cs !! a = Some (CardOk old) ->
  exists new, card_files (foldl card_step cs ops) !! a = Some (CardOk new) /\ card_le old new.
Proof.
  revert cs old. induction ops as [|op ops IH]; intros cs old Hn Ha; cbn [foldl]; [by exists old|].
  destruct (card_step_le op cs a old Hn Ha) as [Hn' (mid & Hm & Hle)].
  destruct (IH _ _ Hn' Hm) as (new & ? & ?). exists new. split; [done | by etrans].
Qed.
End cards.

(** ** Witnesses *)

Definition demo_card : StoredContactCard :=
  mkCard "aa" "Alice" "kem" (Some "pk"%string) None None (Some "u"%string).
Definition demo_contacts : Contacts := mkContacts "/d" {["aa"%string := CardOk demo_card]}.
Definition demo_card_ops : list CardOp :=
  [HintOp "aa" ["https://r1"%string] 10 (Ok tt); ImportOp (mkCard "aa" "" "" None None None None) (Ok tt);
   HintOp "aa" ["https://old"%string] 9 (Ok tt)].

Lemma contact_cards_never_downgrade_witness :
  exists new, card_files (foldl (card_step (H := demo_url)) demo_contacts demo_card_ops) !! "aa"%string
    = Some (CardOk new) /\ card_le demo_card new.
Proof.
  apply (contact_cards_never_downgrade (H := demo_url) demo_contacts demo_card_ops);
    [|reflexivity].
  intros a c Hc. cbn [demo_contacts card_files] in Hc. apply lookup_singleton_Some in Hc as [<- [= <-]]. done.
Defined.
