(* ===== verification/Inbound.v ===== *)
(** * Inbound dispatch

    Models [crates/fetchit-chat/src/conversation/inbound.rs] with the helpers it
    calls in [chat_crypto.rs]: what happens to an envelope a transport delivers,
    from the signature check to the conversation registry, the contact card and
    the outbox.  ML-KEM, HKDF, ChaCha20-Poly1305, ML-DSA, the postcard encoding
    and the JSON parser are parameters.  One dispatch runs without interleaving;
    the clock readings it takes and the outcomes of its writes are an argument. *)
From S2P Require Import Prelude SendState Attachment Bubble OutboxStore Overlay SeqGap.
From S2P Require Import RelayProto RelayAuth Transit TransitSqlite PairRecord.
From S2P Require Import Conversation ConvRegistry ContactCard.

(** ** Cryptography *)

Definition KEM_CIPHERTEXT_LEN : N := 1088.
Definition KEM_SECRET_KEY_LEN : N := 2400.
Definition AAD_DOMAIN : bytes := ascii_bytes "lit/v1".
Definition KDF_INFO_WELCOME : bytes := ascii_bytes "lit/welcome/v1".
Definition SIGN_DOMAIN_ENVELOPE : bytes := ascii_bytes "lit/envelope/v1".

(** ML-KEM-768 decapsulation (secret key, ciphertext), HKDF-SHA256 (secret, info)
    and ChaCha20-Poly1305 decryption (key, nonce, ciphertext, associated data). *)
Class ChatCipher := {
  mlkem_decapsulate : bytes -> bytes -> result bytes string;
  hkdf_sha256 : bytes -> bytes -> bytes;
  chacha_open : bytes -> bytes -> bytes -> bytes -> option bytes;
}.

(** [serde_json::from_slice] at the three payload types. *)
Class PayloadJson := {
  parse_welcome : bytes -> result WelcomePayload string;
  parse_message : bytes -> result MessagePayload string;
  parse_receipt : bytes -> result DeliveryReceiptPayload string;
}.

Definition kem_decapsulate `{ChatCipher} (our_kem_sec kem_ciphertext : bytes)
    : result bytes ChatError :=
  if negb (len our_kem_sec =? KEM_SECRET_KEY_LEN) then Err (Invalid "kem secret key wrong length")
  else if negb (len kem_ciphertext =? KEM_CIPHERTEXT_LEN)
  then Err (Invalid "kem ciphertext wrong length")
  else match mlkem_decapsulate our_kem_sec kem_ciphertext with
       | Ok ss => Ok ss
       | Err e => Err (Invalid e)
       end.

Definition derive_aead_key `{ChatCipher} (shared_secret info : bytes) : bytes :=
  hkdf_sha256 shared_secret info.

Definition aead_open `{ChatCipher} (key nonce ciphertext aad : bytes) : option bytes :=
  chacha_open key nonce ciphertext aad.

Definition message_aad (group_id : bytes) (epoch : N) : bytes :=
  AAD_DOMAIN ++ group_id ++ u32_be epoch.

Definition without_signature (e : TransitEnvelope) : TransitEnvelope :=
  {| e_version := e_version e; e_kind := e_kind e; e_group_id := e_group_id e;
     e_tenant_id := e_tenant_id e; e_sender_agent_id := e_sender_agent_id e;
     e_sender_machine_id := e_sender_machine_id e; e_timestamp_ms := e_timestamp_ms e;
     e_epoch := e_epoch e; e_ciphertext := e_ciphertext e; e_nonce := e_nonce e;
     e_kem_ciphertext := e_kem_ciphertext e; e_sender_signature := [] |}.

Definition canonical_envelope_bytes `{EnvelopeCodec} (env : TransitEnvelope)
    : result bytes ChatError :=
  match env_to_bytes (without_signature env) with
  | Ok b => Ok b
  | Err e => Err (Invalid ("postcard: " +:+ e))
  end.

Definition ml_dsa_verify `{MlDsaBackend} (public_key_bytes message signature_bytes : bytes)
    : result unit ChatError :=
  match pk_from_bytes public_key_bytes with
  | Err e => Err (Invalid ("ml-dsa pub parse: " +:+ e))
  | Ok _ =>
      match sig_from_bytes signature_bytes with
      | Err e => Err (Invalid ("ml-dsa sig parse: " +:+ e))
      | Ok _ =>
          match mldsa_verify public_key_bytes message signature_bytes with
          | Ok true => Ok tt
          | Ok false => Err (Invalid "ml-dsa signature invalid")
          | Err e => Err (Invalid ("ml-dsa verify: " +:+ e))
          end
      end
  end.

(** ** Outcomes *)

Inductive InboundDispatch :=
| Welcomed (conversation : Conversation)
| WelcomedPending (conversation : Conversation)
| WelcomeIgnored
| Rekeyed (conversation : Conversation)
| Message (group_id_hex sender_agent_id_hex : string) (payload : MessagePayload)
| Receipt (group_id_hex sender_agent_id_hex message_id : string) (received_at_ms : N)
| StaleEpoch (group_id_hex : string) (epoch : N)
| KemDecapFailed
| AeadOpenFailed (group_id_hex : string) (epoch : N)
| ReplayDetected (group_id_hex sender_agent_id_hex : string)
| Dropped (kind sender : string).

Definition confirms_delivery (dispatch : InboundDispatch) : bool :=
  match dispatch with
  | Welcomed _ | WelcomedPending _ | WelcomeIgnored | Rekeyed _ | Message _ _ _
  | Receipt _ _ _ _ | AeadOpenFailed _ _ | ReplayDetected _ _ => true
  | StaleEpoch _ _ | KemDecapFailed => false
  | Dropped kind _ =>
      negb (bool_decide (kind = "no-card"%string) || bool_decide (kind = "no-pubkey"%string))
  end.

(** What a dispatch reads and writes: the registry, the contact cards and, when
    they are wired, the outbox and its events (newest last). *)
Record Inbox := mkInbox {
  ib_registry : ConversationRegistry;
  ib_contacts : Contacts;
  ib_outbox : option OutboxStore;
  ib_events : option (list OutboxBubble);
}.

Definition set_registry (r : ConversationRegistry) (st : Inbox) : Inbox :=
  mkInbox r (ib_contacts st) (ib_outbox st) (ib_events st).
Definition set_contacts (cs : Contacts) (st : Inbox) : Inbox :=
  mkInbox (ib_registry st) cs (ib_outbox st) (ib_events st).

(** Clock readings and the outcomes of the writes of one dispatch. *)
Record InboundIO := {
  io_now_key : N;
  io_now_wedge : N;
  io_now_rekey : N;
  io_now_sweep : N;
  io_nonce : result unit ChatError;
  io_wedge : result unit ChatError;
  io_card : result unit ChatError;
  io_history : result unit ChatError;
  io_delivery : result unit ChatError;
  io_save : result unit ChatError;
}.

Section dispatch.
  Context `{Base64, Sha256, MlDsaBackend, EnvelopeCodec, ChatCipher, PayloadJson, UrlParse}.
  Context `{VaultIO} `{HB : !HashIter string OutboxBubble}.

(** ** The message and receipt paths *)

(** What a sender signs. *)
Definition envelope_sign_input (canonical : bytes) : bytes :=
  agent_sign_input (SIGN_DOMAIN_ENVELOPE ++ canonical).

Definition sender_hex (env : TransitEnvelope) : string := hex_encode (e_sender_agent_id env).

(** [None] is the green light. *)
Definition verify_sender (env : TransitEnvelope) (cs : Contacts)
    : result (option InboundDispatch) ChatError :=
  let sender := sender_hex env in
  match card_files cs !! sender with
  | None => Ok (Some (Dropped "no-card" sender))
  | Some (CardUnreadable e) => Err (Invalid ("read card " +:+ contact_path sender cs +:+ ": " +:+ e))
  | Some (CardCorrupt e) => Err (Invalid ("stored card parse: " +:+ e))
  | Some (CardOk stored) =>
      match cc_agent_public_key_b64 stored with
      | None => Ok (Some (Dropped "no-pubkey" sender))
      | Some agent_pk_b64 =>
          match b64_decode agent_pk_b64 with
          | None => Err (Invalid "card agent_public_key_b64")
          | Some agent_pub =>
              let? canonical := canonical_envelope_bytes env in
              if is_ok (ml_dsa_verify agent_pub (envelope_sign_input canonical)
                          (e_sender_signature env))
              then Ok None
              else Ok (Some (Dropped "bad-signature" sender))
          end
      end
  end.

(** The part [dispatch_receipt] and [dispatch_message] share: the conversation, the
    epoch key, the replay window, decryption.  [inl] is an early return. *)
Definition open_frame (env : TransitEnvelope) (group_id_bytes : bytes) (group_id_hex : string)
    (io : InboundIO) (r : ConversationRegistry)
    : result (InboundDispatch + bytes) ChatError * ConversationRegistry :=
  match get group_id_hex r with
  | (Err e, r) => (Err e, r)
  | (Ok None, r) => (Ok (inl (StaleEpoch group_id_hex (e_epoch env))), r)
  | (Ok (Some conv), r) =>
      match key_for_epoch (e_epoch env) (io_now_key io) conv with
      | Err e => (Err e, r)
      | Ok None =>
          (Ok (inl (StaleEpoch group_id_hex (e_epoch env))),
           note_wedge_inbound group_id_hex (Some (e_epoch env)) (io_now_wedge io) (io_wedge io) r)
      | Ok (Some key) =>
          if negb (len (e_nonce env) =? 12) then (Err (Invalid "nonce length"), r)
          else
            match record_nonce group_id_hex (sender_hex env) (e_nonce env) (io_nonce io) r with
            | (Err e, r) => (Err e, r)
            | (Ok Replay, r) => (Ok (inl (ReplayDetected group_id_hex (sender_hex env))), r)
            | (Ok Recorded, r) =>
                match aead_open key (e_nonce env) (e_ciphertext env)
                        (message_aad group_id_bytes (e_epoch env)) with
                | None =>
                    (Ok (inl (AeadOpenFailed group_id_hex (e_epoch env))),
                     note_wedge_inbound group_id_hex (Some (e_epoch env)) (io_now_wedge io)
                       (io_wedge io) r)
                | Some plaintext =>
                    (Ok (inr plaintext),
                     note_wedge_progress group_id_hex (io_now_wedge io) (io_wedge io) r)
                end
            end
      end
  end.

Definition dispatch_receipt (env : TransitEnvelope) (group_id_bytes : bytes) (group_id_hex : string)
    (io : InboundIO) (st : Inbox) : result InboundDispatch ChatError * Inbox :=
  let '(frame, r) := open_frame env group_id_bytes group_id_hex io (ib_registry st) in
  match frame with
  | Err e => (Err e, set_registry r st)
  | Ok (inl d) => (Ok d, set_registry r st)
  | Ok (inr plaintext) =>
      match parse_receipt plaintext with
      | Err e => (Err (Invalid ("receipt payload parse: " +:+ e)), set_registry r st)
      | Ok payload =>
          let r := (record_delivery group_id_hex (drp_message_id payload)
                      (drp_received_at_ms payload) (io_delivery io) r).2 in
          let st := set_registry r st in
          let st :=
            match ib_outbox st, ib_events st with
            | Some outbox, Some events =>
                match mark_delivered (drp_message_id payload) (drp_received_at_ms payload) outbox with
                | (Some bubble, outbox) =>
                    mkInbox r (ib_contacts st) (Some outbox) (Some (events ++ [bubble]))
                | (None, outbox) => mkInbox r (ib_contacts st) (Some outbox) (Some events)
                end
            | _, _ => st
            end in
          (Ok (Receipt group_id_hex (sender_hex env) (drp_message_id payload)
                 (drp_received_at_ms payload)), st)
      end
  end.

(** An attachment that does not validate is removed. *)
Definition strip_invalid (p : MessagePayload) : MessagePayload :=
  {| mp_sender_name := mp_sender_name p; mp_body := mp_body p; mp_ts_ms := mp_ts_ms p;
     mp_message_id := mp_message_id p; mp_reply_to_message_id := mp_reply_to_message_id p;
     mp_attachment :=
       match mp_attachment p with
       | Some att => if is_ok (validate att) then Some att else None
       | None => None
       end;
     mp_advertised_relays := mp_advertised_relays p; mp_hint_epoch_ms := mp_hint_epoch_ms p |}.

Definition inbound_entry (sender : string) (p : MessagePayload) : HistoryEntry :=
  mkEntry sender (mp_sender_name p) (mp_body p) (mp_ts_ms p) (default EmptyString (mp_message_id p))
    (mp_attachment p) None None 0.

Definition append_entry (entry : HistoryEntry) (conv : Conversation)
    : MutateAction unit * Conversation := (Persist tt, push_history entry conv).

Definition dispatch_message (env : TransitEnvelope) (group_id_bytes : bytes) (group_id_hex : string)
    (io : InboundIO) (st : Inbox) : result InboundDispatch ChatError * Inbox :=
  let '(frame, r) := open_frame env group_id_bytes group_id_hex io (ib_registry st) in
  match frame with
  | Err e => (Err e, set_registry r st)
  | Ok (inl d) => (Ok d, set_registry r st)
  | Ok (inr plaintext) =>
      match parse_message plaintext with
      | Err e => (Err (Invalid ("message payload parse: " +:+ e)), set_registry r st)
      | Ok payload =>
          let payload := strip_invalid payload in
          let contacts :=
            match mp_advertised_relays payload, mp_hint_epoch_ms payload with
            | Some relays, Some epoch =>
                (apply_relay_hint (sender_hex env) relays epoch (io_card io) (ib_contacts st)).2
            | _, _ => ib_contacts st
            end in
          let r := (mutate_in_place group_id_hex
                      (append_entry (inbound_entry (sender_hex env) payload)) (io_history io) r).2 in
          (Ok (Message group_id_hex (sender_hex env) payload),
           set_registry r (set_contacts contacts st))
      end
  end.

(** ** The welcome path *)

Record WelcomeVerified := {
  wv_payload : WelcomePayload;
  wv_sender_agent_hex : string;
  wv_sender_pk_b64 : string;
  wv_sender_kem_pub_b64 : string;
}.

(** The last checks: the claimed key hashes to the sender and signed the envelope. *)
Definition bind_sender_key (env : TransitEnvelope) (payload : WelcomePayload) (d : MemberDevice)
    (sender_pk_b64 : string) (sender_pk : bytes)
    : result (WelcomeVerified + InboundDispatch) ChatError :=
  if negb (bool_decide (derive_agent_id sender_pk = e_sender_agent_id env))
  then Ok (inr (Dropped "welcome-pubkey-agent-mismatch" (sender_hex env)))
  else
    let? canonical := canonical_envelope_bytes env in
    if negb (is_ok (ml_dsa_verify sender_pk (envelope_sign_input canonical)
                      (e_sender_signature env)))
    then Ok (inr (Dropped "bad-signature" (sender_hex env)))
    else Ok (inl {| wv_payload := payload; wv_sender_agent_hex := sender_hex env;
                    wv_sender_pk_b64 := sender_pk_b64;
                    wv_sender_kem_pub_b64 := md_kem_public_key_b64 d |}).

(** The checks on the decrypted payload. *)
Definition check_welcome (env : TransitEnvelope) (payload : WelcomePayload)
    : result (WelcomeVerified + InboundDispatch) ChatError :=
  let drop kind := Ok (inr (Dropped kind (sender_hex env))) in
  if negb (wp_epoch payload =? e_epoch env) then drop "welcome-epoch-mismatch"%string
  else if negb (match b64_decode (wp_current_key_b64 payload) with
                | Some k => len k =? AEAD_KEY_LEN
                | None => false
                end) then drop "welcome-invalid-key-length"%string
  else
    match List.find (fun d => bool_decide (md_agent_id_hex d = sender_hex env))
            (List.concat (mb_devices <$> wp_members payload)) with
    | None => drop "welcome-sender-not-member"%string
    | Some d =>
        match md_agent_public_key_b64 d with
        | None => drop "welcome-missing-sender-pubkey"%string
        | Some sender_pk_b64 =>
            match b64_decode sender_pk_b64 with
            | None => Err (Invalid "welcome sender pk b64")
            | Some sender_pk => bind_sender_key env payload d sender_pk_b64 sender_pk
            end
        end
    end.

Definition decrypt_and_verify_welcome (env : TransitEnvelope) (kem_secret_key group_id_bytes : bytes)
    : result (WelcomeVerified + InboundDispatch) ChatError :=
  match kem_decapsulate kem_secret_key (e_kem_ciphertext env) with
  | Err _ => Ok (inr KemDecapFailed)
  | Ok ss =>
      let aead_key := derive_aead_key ss KDF_INFO_WELCOME in
      if negb (len (e_nonce env) =? 12) then Err (Invalid "nonce length")
      else
        match aead_open aead_key (e_nonce env) (e_ciphertext env)
                (message_aad group_id_bytes (e_epoch env)) with
        | None => Ok (inr (AeadOpenFailed (hex_encode group_id_bytes) (e_epoch env)))
        | Some plaintext =>
            match parse_welcome plaintext with
            | Err e => Err (Invalid ("welcome payload parse: " +:+ e))
            | Ok payload => check_welcome env payload
            end
        end
  end.

Inductive RekeyResolution :=
| Ignored
| NotMember
| RekeyApplied (conv : Conversation).

Definition is_member (agent_hex : string) (conv : Conversation) : bool :=
  existsb (fun d => bool_decide (md_agent_id_hex d = agent_hex)) (conv_devices conv).

(** The new epoch of a conversation. *)
Definition install_epoch (payload : WelcomePayload) (now now_sweep : N) (conv : Conversation)
    : Conversation :=
  let old := {| pk_epoch := c_current_epoch conv; pk_key_b64 := c_current_key_b64 conv;
                pk_expires_at_ms := wrapping_add u64_max now PRIOR_KEY_WINDOW_MS |} in
  let conv := set_prior_keys (c_prior_keys conv ++ [old]) conv in
  let conv := set_epoch (wp_epoch payload) (wp_current_key_b64 payload) now conv in
  let conv := set_roster (wp_members payload) (wp_name payload) conv in
  sweep_prior_keys now_sweep conv.

(** The closure run under the registry's lock. *)
Definition rekey_closure (env : TransitEnvelope) (payload : WelcomePayload) (sender : string)
    (io : InboundIO) (conv : Conversation) : MutateAction RekeyResolution * Conversation :=
  if e_epoch env <=? c_current_epoch conv then (Skip Ignored, conv)
  else if negb (is_member sender conv) then (Skip NotMember, conv)
  else
    let conv := install_epoch payload (io_now_rekey io) (io_now_sweep io) conv in
    (Persist (RekeyApplied conv), conv).

Definition install_or_rekey_conversation (env : TransitEnvelope) (payload : WelcomePayload)
    (sender group_id_hex : string) (trust_state : TrustState) (io : InboundIO)
    (r : ConversationRegistry) : result InboundDispatch ChatError * ConversationRegistry :=
  match get group_id_hex r with
  | (Err e, r) => (Err e, r)
  | (Ok None, r) =>
      let conv := from_welcome payload trust_state (io_now_rekey io) in
      match save conv (io_save io) r with
      | (Err e, r) => (Err e, r)
      | (Ok _, r) =>
          (Ok (if bool_decide (trust_state = Pending) then WelcomedPending conv else Welcomed conv), r)
      end
  | (Ok (Some _), r) =>
      match mutate_in_place group_id_hex (rekey_closure env payload sender io) (io_save io) r with
      | (Err e, r) => (Err e, r)
      | (Ok Ignored, r) => (Ok WelcomeIgnored, r)
      | (Ok NotMember, r) => (Ok (Dropped "rekey-from-non-member" sender), r)
      | (Ok (RekeyApplied conv), r) => (Ok (Rekeyed conv), r)
      end
  end.

Definition pending_card (v : WelcomeVerified) : StoredContactCard :=
  mkCard (wv_sender_agent_hex v) EmptyString (wv_sender_kem_pub_b64 v) (Some (wv_sender_pk_b64 v))
    None None None.

Definition dispatch_welcome (env : TransitEnvelope) (kem_secret_key group_id_bytes : bytes)
    (group_id_hex : string) (io : InboundIO) (st : Inbox)
    : result InboundDispatch ChatError * Inbox :=
  match decrypt_and_verify_welcome env kem_secret_key group_id_bytes with
  | Err e => (Err e, st)
  | Ok (inr d) => (Ok d, st)
  | Ok (inl v) =>
      let prior_card_exists := is_some (card_files (ib_contacts st) !! wv_sender_agent_hex v) in
      let trust_state := if prior_card_exists then Confirmed else Pending in
      match install_or_rekey_conversation env (wv_payload v) (wv_sender_agent_hex v) group_id_hex
              trust_state io (ib_registry st) with
      | (Err e, r) => (Err e, set_registry r st)
      | (Ok result, r) =>
          let st := set_registry r st in
          match result with
          | WelcomedPending _ =>
              if prior_card_exists then (Ok result, st)
              else match card_save (pending_card v) (io_card io) (ib_contacts st) with
                   | (Err e, cs) => (Err e, set_contacts cs st)
                   | (Ok _, cs) => (Ok result, set_contacts cs st)
                   end
          | _ => (Ok result, st)
          end
      end
  end.

(** ** Dispatch *)

Definition dispatch_inbound_with_outbox (env : TransitEnvelope) (kem_secret_key : bytes)
    (io : InboundIO) (st : Inbox) : result InboundDispatch ChatError * Inbox :=
  match e_group_id env with
  | None => (Err (Invalid "envelope has no group_id"), st)
  | Some group_id_bytes =>
      let group_id_hex := hex_encode group_id_bytes in
      let verified k :=
        match verify_sender env (ib_contacts st) with
        | Err e => (Err e, st)
        | Ok (Some d) => (Ok d, st)
        | Ok None => k env group_id_bytes group_id_hex io st
        end in
      match e_kind env with
      | DeliveryReceipt => verified dispatch_receipt
      | _ =>
          if bool_decide (e_kem_ciphertext env = []) then verified dispatch_message
          else dispatch_welcome env kem_secret_key group_id_bytes group_id_hex io st
      end
  end.

Definition dispatch_inbound (env : TransitEnvelope) (kem_secret_key : bytes) (io : InboundIO)
    (r : ConversationRegistry) (cs : Contacts) : result InboundDispatch ChatError * Inbox :=
  dispatch_inbound_with_outbox env kem_secret_key io (mkInbox r cs None None).
End dispatch.

(** ** What a frame does to the registry *)

(** A nonce enters a full or partial window. *)
Definition slide (n : bytes) (w : list bytes) : list bytes :=
  (if (WINDOW_SIZE <=? length w)%nat then tail w else w) ++ [n].

(** Every window is as before or took in one nonce. *)
Definition windows_slid (r r' : ConversationRegistry) : Prop :=
  synced r' /\ forall g s, window g s r' = window g s r \/
                          exists n, window g s r' = slide n (window g s r).

Lemma kept_slid r r' : windows_kept r r' -> windows_slid r r'.
Proof. intros [? Hw]. split; [done|]. intros g s. left. apply Hw. Qed.

Lemma slid_kept r1 r2 r3 : windows_slid r1 r2 -> windows_kept r2 r3 -> windows_slid r1 r3.
Proof. intros [_ Hs] [? Hk]. split; [done|]. intros g s. rewrite Hk. apply Hs. Qed.

Lemma kept_slid_trans r1 r2 r3 : windows_kept r1 r2 -> windows_slid r2 r3 -> windows_slid r1 r3.
Proof. intros [_ Hk] [? Hs]. split; [done|]. intros g s. rewrite <- Hk. apply Hs. Qed.

Lemma get_effective g r c r' : synced r -> get g r = (Ok (Some c), r') -> effective g r = Some c.
Proof.
  intros Hs. unfold get, get_lookup, get_read, effective.
  destruct (cache r !! g) as [c0|]; [congruence|].
  destruct (disk r !! g) as [[c0|]|]; congruence.
Qed.

(** An update of a conversation that exists. *)
Lemma locked_mutate {T} g (m : Conversation -> MutateAction T * Conversation) io r c :
  synced r -> effective g r = Some c ->
  let r' := (mutate_in_place g m io r).2 in
  synced r' /\ forall g', effective g' r' =
    if decide (g' = g) then Some (match m c, io with (Persist _, c'), Ok _ => c' | _, _ => c end)
    else effective g' r.
Proof.
  intros Hs Hc. cbv zeta. unfold mutate_in_place, mutate_in_place_impl.
  destruct (hydrate "mutate_in_place" g None r) as [[c0 r1]|e] eqn:Hh; cycle 1.
  { exfalso. revert Hc Hh. unfold effective, hydrate. destruct (cache r !! g); [done|].
    by destruct (disk r !! g) as [[]|]. }
  apply hydrate_ok in Hh as [[Hs1 He] Heff]; [|done]. simplify_eq.
  assert (synced r1 /\ forall g', effective g' r1 = if decide (g' = g) then Some c else effective g' r)
    as Hkeep by (split; [done|]; intros g'; rewrite He; case_decide; by subst).
  destruct (m c) as [[v|v] c']; cbn; [|done].
  pose proof (persist_spec g c' v io r1 Hs1) as Hp. destruct io as [u|e]; [|by rewrite Hp].
  destruct Hp as [_ [? Hu]]. split; [done|]. intros g'. rewrite Hu. case_decide; [done|]. apply He.
Qed.

Lemma mutate_effective {T} g (m : Conversation -> MutateAction T * Conversation) io r c :
  synced r -> effective g r = Some c ->
  let r' := (mutate_in_place g m io r).2 in
  synced r' /\
  effective g r' = Some (match m c, io with (Persist _, c'), Ok _ => c' | _, _ => c end).
Proof.
  intros Hs Hc. destruct (locked_mutate g m io r c Hs Hc) as [? He].
  split; [done|]. rewrite He. by case_decide.
Qed.

(** What [record_nonce] let through: the nonce was not in the window and now is
    the newest in it. *)
Lemma record_nonce_recorded g s n io r r' :
  synced r -> record_nonce g s n io r = (Ok Recorded, r') ->
  windows_slid r r' /\ n ∉ window g s r /\ window g s r' = slide n (window g s r) /\
  exists c, effective g r' = Some c /\ forall c0, effective g r = Some c0 -> c_history c = c_history c0.
Proof.
  intros Hs Hr. destruct (record_nonce_cases g s n io r Hs) as
    [[_ [[e He]|(c & _ & _ & He)]]|(c & Hc & Hck & _ & Hu)]; rewrite Hr in *; cbn in *; [done..|].
  pose proof (admitted_window g s n c r r') as Hw. split_and!.
  - split; [apply Hu|]. intros g' s'. rewrite (Hw g' s') by done.
    case_bool_decide as Heq; [|by left]. destruct Heq as [-> ->]. right. by exists n.
  - revert Hck. unfold check_and_record_nonce, window. rewrite Hc. by case_bool_decide.
  - rewrite (Hw g s) by done. by rewrite bool_decide_eq_true_2.
  - eexists. split; [rewrite (proj2 Hu g); by case_decide|]. intros c0 Hc0. simplify_eq.
    unfold check_and_record_nonce. by case_bool_decide.
Qed.

Lemma record_nonce_other g s n io r res r' :
  synced r -> record_nonce g s n io r = (res, r') -> res <> Ok Recorded -> windows_kept r r'.
Proof.
  intros Hs Hr Hne. destruct (record_nonce_cases g s n io r Hs) as
    [[Hsame _]|(c & _ & _ & He & _)]; rewrite Hr in *; cbn in *; [|done].
  by apply same_windows_kept.
Qed.

Lemma wedge_windows_kept g now io fe r :
  synced r -> windows_kept r (note_wedge_inbound g fe now io r) /\
              windows_kept r (note_wedge_progress g now io r).
Proof. intros Hs. split; by apply mutate_windows_kept. Qed.

(** The pushed entry is the newest. *)
Lemma last_snoc_history entry c : last (c_history (push_history entry c)) = Some entry.
Proof. unfold push_history. cbn. apply last_snoc. Qed.

Section facts.
  Context `{Base64, Sha256, MlDsaBackend, EnvelopeCodec, ChatCipher, PayloadJson, UrlParse}.
  Context `{VaultIO} `{HB : !HashIter string OutboxBubble}.

(** The frame was decrypted with the key of its epoch, and its nonce was fresh. *)
Definition frame_opened (env : TransitEnvelope) (gid : bytes) (io : InboundIO)
    (r r' : ConversationRegistry) (plaintext : bytes) : Prop :=
  let g := hex_encode gid in
  (exists conv key, effective g r = Some conv /\
     key_for_epoch (e_epoch env) (io_now_key io) conv = Ok (Some key) /\
     chacha_open key (e_nonce env) (e_ciphertext env) (message_aad gid (e_epoch env))
       = Some plaintext) /\
  e_nonce env ∉ window g (sender_hex env) r /\
  window g (sender_hex env) r' = slide (e_nonce env) (window g (sender_hex env) r) /\
  is_Some (effective g r').

Lemma open_frame_spec env gid io r :
  synced r ->
  let '(res, r') := open_frame env gid (hex_encode gid) io r in
  windows_slid r r' /\
  match res with
  | Ok (inr plaintext) => frame_opened env gid io r r' plaintext
  | Ok (inl d) => forall g s p, d <> Message g s p
  | Err _ => True
  end.
Proof.
  intros Hs. unfold open_frame. set (g := hex_encode gid).
  pose proof (get_same g r Hs) as Hsame. pose proof (get_effective g r) as Hge.
  pose proof (same_windows_kept _ _ Hsame) as Hk.
  destruct (get g r) as [[[conv|]|e] r1]; cbn [fst snd] in *; [|by split; [apply kept_slid|]..].
  specialize (Hge conv r1 Hs eq_refl).
  destruct (key_for_epoch _ _ _) as [[key|]|e] eqn:Hkey; cycle 1.
  { split; [|done]. apply kept_slid. destruct (wedge_windows_kept g (io_now_wedge io) (io_wedge io)
      (Some (e_epoch env)) r1 (proj1 Hk)) as [[? Hw] _]. split; [done|].
    intros g' s'. rewrite Hw. apply Hk. }
  { by split; [apply kept_slid|]. }
  destruct (len (e_nonce env) =? 12); cbn [negb]; [|by split; [apply kept_slid|]].
  destruct (record_nonce _ _ _ _ r1) as [res r2] eqn:Hr.
  assert (res <> Ok Recorded -> windows_slid r r2) as Hother.
  { intros Hne. apply record_nonce_other in Hr; [|apply Hsame|done].
    by eapply kept_slid_trans; [|apply kept_slid]. }
  destruct res as [[]|e]; [|by split; [apply Hother|]..].
  apply record_nonce_recorded in Hr as (Hsl & Hfresh & Hw & (c & Hc & _)); [|apply Hsame].
  pose proof (kept_slid_trans _ _ _ Hk Hsl) as Hsl'.
  destruct (wedge_windows_kept g (io_now_wedge io) (io_wedge io) (Some (e_epoch env)) r2
    (proj1 Hsl)) as [Hwi Hwp].
  unfold aead_open. destruct (chacha_open _ _ _ _) as [plaintext|] eqn:Hopen; cycle 1.
  { split; [by eapply slid_kept | done]. }
  split; [by eapply slid_kept|]. split; [by eauto|]. destruct Hk as [_ Hk].
  rewrite Hk in Hfresh, Hw. split; [done|]. split; [by rewrite (proj2 Hwp)|].
  apply (mutate_effective g (wedge_progress (io_now_wedge io)) (io_wedge io)) in Hc as [_ Hc];
    [|apply Hsl]. unfold note_wedge_progress. fold g. rewrite Hc. by eexists.
Qed.

Lemma verify_sender_ok env cs :
  verify_sender env cs = Ok None ->
  exists card pk_b64 pk canonical,
    card_files cs !! sender_hex env = Some (CardOk card) /\
    cc_agent_public_key_b64 card = Some pk_b64 /\ b64_decode pk_b64 = Some pk /\
    canonical_envelope_bytes env = Ok canonical /\
    ml_dsa_verify pk (envelope_sign_input canonical) (e_sender_signature env) = Ok tt.
Proof.
  unfold verify_sender. destruct (card_files cs !! sender_hex env) as [[| |card]|]; try done.
  destruct (cc_agent_public_key_b64 card) as [pk_b64|] eqn:Hpk; [|done].
  destruct (b64_decode pk_b64) as [pk|] eqn:Hdec; [|done].
  destruct (canonical_envelope_bytes env) as [canonical|] eqn:Hcan; [|done].
  destruct (ml_dsa_verify _ _ _) as [[]|] eqn:Hv; [|done]. intros _.
  by exists card, pk_b64, pk, canonical.
Qed.

(** Early returns are never messages. *)
Lemma dropped_welcome_not_message env sk gid d g s p :
  decrypt_and_verify_welcome env sk gid = Ok (inr d) -> d <> Message g s p.
Proof.
  unfold decrypt_and_verify_welcome, check_welcome, bind_sender_key.
  intros Hd. repeat case_match; by simplify_eq.
Qed.

Lemma install_not_message env payload sender g0 ts io r g s p :
  (install_or_rekey_conversation env payload sender g0 ts io r).1 <> Ok (Message g s p).
Proof. unfold install_or_rekey_conversation. repeat case_match; by simplify_eq/=. Qed.

Lemma welcome_not_message env sk gid g0 io st g s p :
  (dispatch_welcome env sk gid g0 io st).1 <> Ok (Message g s p).
Proof.
  unfold dispatch_welcome.
  destruct (decrypt_and_verify_welcome env sk gid) as [[v|d]|e] eqn:Hd; [| |done]; cycle 1.
  { intros [= ->]. by eapply dropped_welcome_not_message in Hd. }
  pose proof (install_not_message env (wv_payload v) (wv_sender_agent_hex v) g0
    (if is_some (card_files (ib_contacts st) !! wv_sender_agent_hex v) then Confirmed else Pending)
    io (ib_registry st) g s p) as Hi.
  destruct (install_or_rekey_conversation _ _ _ _ _ _ _) as [[res|e] r]; [|done]. cbn in Hi.
  by destruct res; repeat case_match; simplify_eq/=.
Qed.

Lemma receipt_not_message env gid io st g s p :
  synced (ib_registry st) ->
  (dispatch_receipt env gid (hex_encode gid) io st).1 <> Ok (Message g s p).
Proof.
  intros Hs. unfold dispatch_receipt.
  pose proof (open_frame_spec env gid io _ Hs) as Ho.
  destruct (open_frame _ _ _ _ _) as [[[d|pt]|e] r]; cbn; [|by repeat case_match|done].
  destruct Ho as [_ Hd]. intros [= Heq]. by eapply Hd.
Qed.

(** A dispatched message came through the message path, signature checked. *)
Lemma message_path env sk io st g s p st' :
  synced (ib_registry st) ->
  dispatch_inbound_with_outbox env sk io st = (Ok (Message g s p), st') ->
  exists gid, e_group_id env = Some gid /\ verify_sender env (ib_contacts st) = Ok None /\
    dispatch_message env gid (hex_encode gid) io st = (Ok (Message g s p), st').
Proof.
  intros Hs. unfold dispatch_inbound_with_outbox. destruct (e_group_id env) as [gid|]; [|done].
  assert (forall d, verify_sender env (ib_contacts st) = Ok (Some d) -> d <> Message g s p) as Hvd.
  { intros d. unfold verify_sender. intros Hv. repeat case_match; by simplify_eq. }
  pose proof (receipt_not_message env gid io st g s p Hs) as Hrm.
  pose proof (welcome_not_message env sk gid (hex_encode gid) io st g s p) as Hwm.
  assert (forall k, match verify_sender env (ib_contacts st) with
                    | Err e => (Err e, st) | Ok (Some d) => (Ok d, st) | Ok None => k
                    end = (Ok (Message g s p), st') ->
    verify_sender env (ib_contacts st) = Ok None /\ k = (Ok (Message g s p), st')) as Hver.
  { intros k. destruct (verify_sender env (ib_contacts st)) as [[d|]|e]; [|done..].
    intros [= -> _]. by destruct (Hvd _ eq_refl). }
  intros Hd. exists gid. split; [done|].
  destruct (e_kind env); try case_bool_decide;
    try (apply Hver in Hd as [? Hd]); try done; exfalso; rewrite Hd in *; done.
Qed.

(** What [dispatch_message] did when it returns a message. *)
Lemma dispatch_message_inv env gid io st g s p st' :
  synced (ib_registry st) ->
  dispatch_message env gid (hex_encode gid) io st = (Ok (Message g s p), st') ->
  g = hex_encode gid /\ s = sender_hex env /\
  exists r1 plaintext raw,
    frame_opened env gid io (ib_registry st) r1 plaintext /\ windows_slid (ib_registry st) r1 /\
    parse_message plaintext = Ok raw /\ p = strip_invalid raw /\
    ib_registry st' = (mutate_in_place g (append_entry (inbound_entry s p)) (io_history io) r1).2.
Proof.
  intros Hs. unfold dispatch_message. pose proof (open_frame_spec env gid io _ Hs) as Ho.
  destruct (open_frame _ _ _ _ _) as [[[d|pt]|e] r1]; [|..|done].
  { destruct Ho as [_ Hd]. intros [= Heq _]. by eapply Hd in Heq. }
  destruct Ho as [Hsl Hf]. destruct (parse_message pt) as [raw|] eqn:Hp; [|done].
  intros [= <- <- <- <-]. split; [done|]. split; [done|]. by exists r1, pt, raw.
Qed.

(** C4: an envelope is shown as a message from [s] in
    group [g] only when the signature on it verifies under the key stored on the
    card of that sender, its ciphertext opens under the key the conversation holds
    for its epoch with the group and the epoch authenticated, and its nonce is not
    one the sender used recently; the payload is the decrypted one, with an
    attachment only when it passes every limit.  When the history write succeeds,
    the message is the newest entry of the conversation on disk. *)
Theorem dispatched_message_authentic (env : TransitEnvelope) (sk : bytes) (io : InboundIO)
    (st st' : Inbox) (g s : string) (p : MessagePayload) :
  synced (ib_registry st) ->
  dispatch_inbound_with_outbox env sk io st = (Ok (Message g s p), st') ->
  (exists card pk_b64 pk canonical,
    card_files (ib_contacts st) !! s = Some (CardOk card) /\
    cc_agent_public_key_b64 card = Some pk_b64 /\ b64_decode pk_b64 = Some pk /\
    canonical_envelope_bytes env = Ok canonical /\
    ml_dsa_verify pk (envelope_sign_input canonical) (e_sender_signature env) = Ok tt) /\
  (exists gid conv key plaintext raw,
    e_group_id env = Some gid /\ g = hex_encode gid /\ s = hex_encode (e_sender_agent_id env) /\
    effective g (ib_registry st) = Some conv /\
    key_for_epoch (e_epoch env) (io_now_key io) conv = Ok (Some key) /\
    chacha_open key (e_nonce env) (e_ciphertext env) (message_aad gid (e_epoch env))
      = Some plaintext /\
    parse_message plaintext = Ok raw /\ p = strip_invalid raw) /\
  e_nonce env ∉ window g s (ib_registry st) /\
  (forall a, mp_attachment p = Some a -> is_ok (validate a) = true) /\
  (io_history io = Ok tt -> exists conv',
    disk (ib_registry st') !! g = Some (Ok conv') /\
    last (c_history conv') = Some (inbound_entry s p)).
Proof.
  intros Hs Hd. apply message_path in Hd as (gid & Hgid & Hv & Hd); [|done].
  apply dispatch_message_inv in Hd as (-> & -> & r1 & pt & raw & Hf & Hsl & Hp & -> & Hr); [|done].
  destruct Hf as ((conv & key & Hc & Hk & Ho) & Hfresh & _ & [c1 Hc1]).
  split; [by apply verify_sender_ok|]. split; [by exists gid, conv, key, pt, raw|].
  split; [done|]. split.
  - intros a. cbn. destruct (mp_attachment raw) as [a0|]; [|done].
    destruct (is_ok (validate a0)) eqn:Hval; [|done]. congruence.
  - intros Hio. rewrite Hr, Hio.
    destruct (mutate_effective (hex_encode gid) (append_entry (inbound_entry (sender_hex env)
      (strip_invalid raw))) (Ok tt) r1 c1 (proj1 Hsl) Hc1) as [Hs' He]. cbn in He.
    eexists. split; [|apply last_snoc_history].
    unfold effective in He.
    destruct (cache _ !! _) as [c|] eqn:Hcc; [apply Hs' in Hcc|]; simplify_eq; [done|].
    by destruct (disk _ !! _) as [[]|]; simplify_eq.
Qed.

(** ** A frame is accepted once *)

(** Delivery of an envelope, or the process coming back. *)
Inductive InStep :=
| Deliver (env : TransitEnvelope) (io : InboundIO)
| Reboot.

Definition in_step (sk : bytes) (st : Inbox) (step : InStep) : Inbox :=
  match step with
  | Deliver env io => (dispatch_inbound_with_outbox env sk io st).2
  | Reboot => set_registry (registry_empty (disk (ib_registry st))) st
  end.

(** Not a welcome. *)
Definition is_frame (step : InStep) : Prop :=
  match step with
  | Deliver env _ => e_kem_ciphertext env = [] \/ e_kind env = DeliveryReceipt
  | Reboot => True
  end.

Lemma dispatch_receipt_slid env gid io st :
  synced (ib_registry st) ->
  windows_slid (ib_registry st) (ib_registry (dispatch_receipt env gid (hex_encode gid) io st).2).
Proof.
  intros Hs. unfold dispatch_receipt. pose proof (open_frame_spec env gid io _ Hs) as Ho.
  destruct (open_frame _ _ _ _ _) as [[[d|pt]|e] r]; destruct Ho as [Hsl _]; [done| |done].
  destruct (parse_receipt pt) as [payload|e]; [|done].
  eapply slid_kept; [exact Hsl|].
  pose proof (delivery_windows_kept (hex_encode gid) (drp_message_id payload)
    (drp_received_at_ms payload) (io_delivery io) r (proj1 Hsl)) as Hk.
  by repeat case_match.
Qed.

Lemma dispatch_message_slid env gid io st :
  synced (ib_registry st) ->
  windows_slid (ib_registry st) (ib_registry (dispatch_message env gid (hex_encode gid) io st).2).
Proof.
  intros Hs. unfold dispatch_message. pose proof (open_frame_spec env gid io _ Hs) as Ho.
  destruct (open_frame _ _ _ _ _) as [[[d|pt]|e] r]; destruct Ho as [Hsl _]; [done| |done].
  destruct (parse_message pt) as [payload|e]; [|done].
  eapply slid_kept; [exact Hsl|]. apply mutate_windows_kept; [apply Hsl | done].
Qed.

Lemma in_step_slid sk st step :
  is_frame step -> synced (ib_registry st) ->
  windows_slid (ib_registry st) (ib_registry (in_step sk st step)).
Proof.
  intros Hf Hs. assert (windows_slid (ib_registry st) (ib_registry st)) as Hid.
  { split; [done|]. intros; by left. }
  destruct step as [env io|]; cbn; [|by apply kept_slid, restart_windows_kept].
  unfold dispatch_inbound_with_outbox. destruct (e_group_id env) as [gid|]; [|done].
  pose proof (dispatch_receipt_slid env gid io st Hs) as Hr.
  pose proof (dispatch_message_slid env gid io st Hs) as Hm.
  cbn in Hf.
  destruct (e_kind env), Hf as [Hk|Hk]; try done; rewrite ?bool_decide_eq_true_2 by done;
    by destruct (verify_sender env (ib_contacts st)) as [[]|].
Qed.

(** [n] is in the window with at most [k] newer nonces. *)
Definition newer_at_most (n : bytes) (k : nat) (w : list bytes) : Prop :=
  exists pre post, w = pre ++ n :: post /\ (length post <= k)%nat.

Lemma newer_at_most_slide n k m w :
  (S k < WINDOW_SIZE)%nat -> newer_at_most n k w -> newer_at_most n (S k) (slide m w).
Proof.
  intros Hk (pre & post & -> & Hp). unfold slide.
  destruct (Nat.leb_spec WINDOW_SIZE (length (pre ++ n :: post))) as [Hl|Hl].
  - destruct pre as [|x pre]; [cbn in Hl; lia|]. exists pre, (post ++ [m]). cbn.
    rewrite <- app_assoc. cbn. split; [done|]. rewrite length_app. cbn. lia.
  - exists pre, (post ++ [m]). rewrite <- app_assoc. cbn. split; [done|].
    rewrite length_app. cbn. lia.
Qed.

(** ** Welcomes *)

(** The welcome's sender holds the key its agent id is derived from, and signed
    the envelope with it; the welcome is for the epoch the envelope names and
    carries a usable key. *)
Lemma welcome_verified env sk gid v :
  decrypt_and_verify_welcome env sk gid = Ok (inl v) ->
  wv_sender_agent_hex v = sender_hex env /\ wp_epoch (wv_payload v) = e_epoch env /\
  (exists k, b64_decode (wp_current_key_b64 (wv_payload v)) = Some k /\ len k = AEAD_KEY_LEN) /\
  exists pk canonical, derive_agent_id pk = e_sender_agent_id env /\
    canonical_envelope_bytes env = Ok canonical /\
    ml_dsa_verify pk (envelope_sign_input canonical) (e_sender_signature env) = Ok tt.
Proof.
  unfold decrypt_and_verify_welcome. destruct (kem_decapsulate _ _) as [ss|]; [|done].
  destruct (len (e_nonce env) =? 12); [|done]. cbn [negb].
  destruct (aead_open _ _ _ _) as [pt|]; [|done]. destruct (parse_welcome pt) as [payload|]; [|done].
  unfold check_welcome. destruct (N.eqb_spec (wp_epoch payload) (e_epoch env)) as [He|]; [|done].
  destruct (b64_decode (wp_current_key_b64 payload)) as [k|] eqn:Hk; [|done]. cbn [negb].
  destruct (N.eqb_spec (len k) AEAD_KEY_LEN) as [Hlen|]; [|done]. cbn [negb].
  destruct (List.find _ _) as [d|]; [|done].
  destruct (md_agent_public_key_b64 d) as [pkb|]; [|done].
  destruct (b64_decode pkb) as [pk|]; [|done]. unfold bind_sender_key.
  case_bool_decide as Hder; [|done]. cbn [negb].
  destruct (canonical_envelope_bytes env) as [canonical|] eqn:Hcan; [|done].
  destruct (ml_dsa_verify _ _ _) as [[]|] eqn:Hv; [|done]. intros [= <-]. cbn.
  split_and!; [done..| |]; eauto.
Qed.

Lemma save_effective c r g :
  synced r ->
  let r' := (save c (Ok tt) r).2 in
  synced r' /\ effective g r' = if decide (g = c_group_id_hex c) then Some c else effective g r.
Proof.
  intros Hs. cbv zeta. split.
  - intros g' c'. cbn. rewrite lookup_insert_Some. intros [[<- <-]|[Hne Hc]].
    + by rewrite lookup_insert_eq.
    + rewrite lookup_insert_ne by done. by apply Hs.
  - unfold effective. cbn. case_decide as Hg; [subst; by rewrite lookup_insert_eq|].
    by rewrite !lookup_insert_ne by done.
Qed.

(** The re-key branch. *)
Definition rekeyed_at (env : TransitEnvelope) (payload : WelcomePayload) (sender g0 : string)
    (io : InboundIO) (r r' : ConversationRegistry) (g : string) : Prop :=
  exists c, g = g0 /\ effective g0 r = Some c /\ c_current_epoch c < e_epoch env /\
    is_member sender c = true /\
    effective g r' = Some (install_epoch payload (io_now_rekey io) (io_now_sweep io) c).

Lemma rekey_effective env payload sender g0 io r c :
  synced r -> effective g0 r = Some c ->
  let r' := (mutate_in_place g0 (rekey_closure env payload sender io) (io_save io) r).2 in
  synced r' /\ forall g, effective g r' = effective g r \/
                         rekeyed_at env payload sender g0 io r r' g.
Proof.
  intros Hs Hc. cbv zeta. unfold rekeyed_at.
  destruct (locked_mutate g0 (rekey_closure env payload sender io) (io_save io) r c Hs Hc)
    as [Hs' Hm]. split; [done|]. intros g. rewrite Hm. case_decide as Hg; [subst g|by left].
  rewrite Hc. unfold rekey_closure.
  destruct (N.leb_spec (e_epoch env) (c_current_epoch c)); [by left|].
  destruct (is_member sender c) eqn:Hmem; [|by left]. cbn [negb].
  destruct (io_save io); [|by left]. right. by exists c.
Qed.

Lemma get_none g r r' : get g r = (Ok None, r') -> effective g r = None.
Proof.
  unfold get, get_lookup, get_read, effective.
  destruct (cache r !! g); [done|]. by destruct (disk r !! g) as [[]|].
Qed.

(** A verified welcome on the conversations: what [g] holds afterwards. *)
Lemma install_effective env payload sender g0 ts io r :
  synced r ->
  let r' := (install_or_rekey_conversation env payload sender g0 ts io r).2 in
  synced r' /\ forall g,
    effective g r' = effective g r \/
    (effective g0 r = None /\ g = wp_group_id_hex payload /\
     effective g r' = Some (from_welcome payload ts (io_now_rekey io))) \/
    rekeyed_at env payload sender g0 io r r' g.
Proof.
  intros Hs. cbv zeta. unfold install_or_rekey_conversation.
  pose proof (get_same g0 r Hs) as [Hs1 He1]. pose proof (get_effective g0 r) as Hge.
  pose proof (get_none g0 r) as Hnone.
  destruct (get g0 r) as [[[c|]|e] r1]; cbn [snd] in *.
  - specialize (Hge c r1 Hs eq_refl). rewrite <- He1 in Hge.
    pose proof (rekey_effective env payload sender g0 io r1 c Hs1 Hge) as Hm.
    destruct (mutate_in_place _ _ _ r1) as [res r2]. cbn [snd] in Hm. destruct Hm as [Hs2 Hm].
    assert (forall g, effective g r2 = effective g r \/
      (effective g0 r = None /\ g = wp_group_id_hex payload /\
       effective g r2 = Some (from_welcome payload ts (io_now_rekey io))) \/
      rekeyed_at env payload sender g0 io r r2 g) as Hall.
    { intros g. destruct (Hm g) as [Heq|Hr]; [left; by rewrite Heq, He1|]. right; right.
      destruct Hr as (c' & ? & Hc' & ?). exists c'. by rewrite <- He1. }
    by destruct res as [[]|].
  - specialize (Hnone r1 eq_refl). destruct (io_save io) as [[]|e] eqn:Hio.
    + pose proof (fun g => save_effective (from_welcome payload ts (io_now_rekey io)) r1 g Hs1) as Hse.
      destruct (save _ (Ok tt) r1) as [[u|e] r2] eqn:Hsv; [|done]. cbn [snd] in Hse |- *.
      split; [apply (Hse EmptyString)|]. intros g. destruct (Hse g) as [_ ->].
      case_decide; [by right; left | left; apply He1].
    + split; [done|]. intros g. left. apply He1.
  - split; [done|]. intros g. left. apply He1.
Qed.

(** The trust posture a welcome's sender gets. *)
Definition welcome_trust (st : Inbox) (v : WelcomeVerified) : TrustState :=
  if is_some (card_files (ib_contacts st) !! wv_sender_agent_hex v) then Confirmed else Pending.

Lemma dispatch_welcome_registry env sk gid g io st :
  ib_registry (dispatch_welcome env sk gid g io st).2 =
  match decrypt_and_verify_welcome env sk gid with
  | Ok (inl v) => (install_or_rekey_conversation env (wv_payload v) (wv_sender_agent_hex v) g
                     (welcome_trust st v) io (ib_registry st)).2
  | _ => ib_registry st
  end.
Proof.
  unfold dispatch_welcome, welcome_trust.
  destruct (decrypt_and_verify_welcome env sk gid) as [[v|d]|e]; [|done..].
  destruct (install_or_rekey_conversation _ _ _ _ _ _ _) as [[res|e] r]; [|done].
  destruct res; try done. destruct (is_some _); [done|]. by destruct (io_card io).
Qed.

(** Dispatch of a welcome envelope. *)
Definition is_welcome (env : TransitEnvelope) : Prop :=
  e_kem_ciphertext env <> [] /\ e_kind env <> DeliveryReceipt.

Lemma dispatch_is_welcome env sk io st gid :
  e_group_id env = Some gid -> is_welcome env ->
  dispatch_inbound_with_outbox env sk io st = dispatch_welcome env sk gid (hex_encode gid) io st.
Proof.
  intros Hg [Hk Hr]. unfold dispatch_inbound_with_outbox. rewrite Hg.
  rewrite bool_decide_eq_false_2 by done. by destruct (e_kind env).
Qed.

(** C6: a welcome that names in its payload the
    group of its envelope leaves every existing conversation as it was, or is a
    re-key of that one group: its sender proved to hold the key its agent id is
    derived from, was a member before, and the epoch is strictly newer; the new
    key is usable, and history, replay windows and the trust state are
    untouched. *)
Theorem rekey_needs_member_and_newer_epoch (env : TransitEnvelope) (sk gid : bytes)
    (io : InboundIO) (st : Inbox) (g : string) (c : Conversation) :
  synced (ib_registry st) -> e_group_id env = Some gid -> is_welcome env ->
  (forall v, decrypt_and_verify_welcome env sk gid = Ok (inl v) ->
             wp_group_id_hex (wv_payload v) = hex_encode gid) ->
  effective g (ib_registry st) = Some c ->
  let st' := (dispatch_inbound_with_outbox env sk io st).2 in
  effective g (ib_registry st') = Some c \/
  exists c', effective g (ib_registry st') = Some c' /\ g = hex_encode gid /\
    c_current_epoch c < c_current_epoch c' /\ c_current_epoch c' = e_epoch env /\
    is_member (sender_hex env) c = true /\
    (exists pk canonical, derive_agent_id pk = e_sender_agent_id env /\
       canonical_envelope_bytes env = Ok canonical /\
       ml_dsa_verify pk (envelope_sign_input canonical) (e_sender_signature env) = Ok tt) /\
    (exists k, current_key c' = Ok k) /\
    c_history c' = c_history c /\ c_seen_nonces c' = c_seen_nonces c /\
    c_trust_state c' = c_trust_state c.
Proof.
  intros Hs Hg Hw Hname Hc. cbv zeta.
  rewrite (dispatch_is_welcome _ _ _ _ gid) by done. rewrite dispatch_welcome_registry.
  destruct (decrypt_and_verify_welcome env sk gid) as [[v|d]|e] eqn:Hv; [|by left..].
  specialize (Hname v eq_refl).
  apply welcome_verified in Hv as (Hsend & Hep & (k & Hk & Hlen) & Hsig).
  destruct (install_effective env (wv_payload v) (wv_sender_agent_hex v) (hex_encode gid)
    (welcome_trust st v) io (ib_registry st) Hs) as [_ He]. specialize (He g).
  destruct He as [->|[(Hnone & -> & _)|(c0 & -> & Hc0 & Hlt & Hm & He)]]; [by left| |].
  { rewrite Hname in Hc. congruence. }
  rewrite Hc in Hc0. simplify_eq. right. rewrite He. eexists. split; [done|]. rewrite <- Hsend.
  cbn [install_epoch c_current_epoch sweep_prior_keys set_prior_keys set_roster set_epoch].
  rewrite Hep. split_and!; try done. exists k.
  unfold current_key, decode_key. cbn. rewrite Hk, Hlen. done.
Qed.

(** ** A frame is shown once *)

(** A welcome that puts a conversation in place of group [g] though its envelope names another group. *)
Definition replaces (sk : bytes) (g : string) (step : InStep) : Prop :=
  match step with
  | Deliver env _ => exists gid v, e_group_id env = Some gid /\ is_welcome env /\
      decrypt_and_verify_welcome env sk gid = Ok (inl v) /\ wp_group_id_hex (wv_payload v) = g /\ hex_encode gid <> g
  | Reboot => False
  end.

Lemma frame_or_welcome step : is_frame step \/ exists env io, step = Deliver env io /\ is_welcome env.
Proof.
  destruct step as [env io|]; [|by left]. cbn. destruct (decide (e_kem_ciphertext env = [])) as [|Hk]; [by left; left|].
  destruct (e_kind env) eqn:He; try (by left; right); right; exists env, io; (split; [done|]); by split; rewrite ?He.
Qed.

Lemma in_step_window sk st step g s :
  synced (ib_registry st) -> is_Some (effective g (ib_registry st)) ->
  replaces sk g step \/
  (synced (ib_registry (in_step sk st step)) /\
   (window g s (ib_registry (in_step sk st step)) = window g s (ib_registry st) \/
    exists n, window g s (ib_registry (in_step sk st step)) = slide n (window g s (ib_registry st)))).
Proof.
  intros Hs [c Hc]. destruct (frame_or_welcome step) as [Hf|(env & io & -> & Hw)].
  { right. destruct (in_step_slid sk st step Hf Hs) as [Hs' Hsl]. split; [done|]. apply Hsl. }
  cbn [in_step]. destruct (e_group_id env) as [gid|] eqn:Hg.
  2:{ right. unfold dispatch_inbound_with_outbox. rewrite Hg. split; [done|by left]. }
  rewrite (dispatch_is_welcome _ _ _ _ gid), dispatch_welcome_registry by done.
  destruct (decrypt_and_verify_welcome env sk gid) as [[v|d]|e] eqn:Hv; [|by right; split; [|left]..].
  destruct (install_effective env (wv_payload v) (wv_sender_agent_hex v) (hex_encode gid)
    (welcome_trust st v) io (ib_registry st) Hs) as [Hs' He]. specialize (He g). unfold window.
  destruct He as [He|[(Hnone & Hname & He)|(c0 & -> & Hc0 & _ & _ & He)]].
  - right. split; [done|left]. by rewrite He.
  - left. exists gid, v. split_and!; try done. intros <-. congruence.
  - right. split; [done|left]. by rewrite He, Hc0.
Qed.

Lemma nonce_exists n k g s r : newer_at_most n k (window g s r) -> is_Some (effective g r).
Proof. intros (pre & post & Hw & _). unfold window in Hw. destruct (effective g r); [eauto|]. by destruct pre. Qed.

Lemma run_keeps_nonce sk steps st n k g s :
  synced (ib_registry st) -> newer_at_most n k (window g s (ib_registry st)) -> (length steps + k < WINDOW_SIZE)%nat ->
  let st' := foldl (in_step sk) st steps in
  Exists (replaces sk g) steps \/ (synced (ib_registry st') /\ n ∈ window g s (ib_registry st')).
Proof.
  cbv zeta. revert st k. induction steps as [|step steps IH]; intros st k Hs Hn Hl; cbn [foldl].
  { right. split; [done|]. destruct Hn as (pre & post & -> & _). apply elem_of_app. right. by left. }
  cbn [length] in Hl. destruct (in_step_window sk st step g s Hs (nonce_exists _ _ _ _ _ Hn)) as [Hr|[Hs' Hw]]; [by left; left|].
  destruct (IH (in_step sk st step) (S k)) as [He|He]; [done| |lia|by left; right|by right].
  destruct Hw as [->|[m ->]].
  - destruct Hn as (pre & post & -> & ?). exists pre, post. split; [done | lia].
  - apply newer_at_most_slide; [lia | done].
Qed.

(** C5: deliveries are dispatched one after the other.  Once an envelope was shown as a
    message, an envelope with the same group, sender and nonce is shown again only after at
    least 64 more deliveries, whichever writes fail and however often the process restarts,
    or when one of the deliveries in between was a welcome that puts a new conversation in
    place of the group though its envelope names another one. *)
Theorem frame_accepted_once (sk : bytes) (st st1 st2 : Inbox) (env env' : TransitEnvelope)
    (io io' : InboundIO) (mid : list InStep) (g s : string) (p p' : MessagePayload) :
  synced (ib_registry st) -> e_nonce env' = e_nonce env ->
  dispatch_inbound_with_outbox env sk io st = (Ok (Message g s p), st1) ->
  dispatch_inbound_with_outbox env' sk io' (foldl (in_step sk) st1 mid)
    = (Ok (Message g s p'), st2) ->
  (64 <= length mid)%nat \/ Exists (replaces sk g) mid.
Proof.
  intros Hs Hn Hd1 Hd2. destruct (Nat.le_gt_cases 64 (length mid)) as [|Hlt]; [by left|]. right.
  apply message_path in Hd1 as (gid & _ & _ & Hd1); [|done].
  apply dispatch_message_inv in Hd1 as (-> & -> & r1 & pt & raw & Hfo & Hsl & _ & -> & Hr); [|done].
  destruct Hfo as (_ & _ & Hw & _).
  pose proof (mutate_windows_kept (hex_encode gid) (append_entry (inbound_entry (sender_hex env)
    (strip_invalid raw))) (io_history io) r1 (proj1 Hsl) ltac:(done)) as [Hs1 Hk].
  rewrite <- Hr in Hs1, Hk. specialize (Hk (hex_encode gid) (sender_hex env)).
  destruct (run_keeps_nonce sk mid st1 (e_nonce env) 0 (hex_encode gid) (sender_hex env) Hs1)
    as [He|[Hs2 Hin]]; [| |done|].
  { rewrite Hk, Hw. eexists _, []. split; [done | cbn; lia]. }
  { unfold WINDOW_SIZE. lia. }
  exfalso. apply message_path in Hd2 as (gid2 & _ & _ & Hd2); [|done].
  apply dispatch_message_inv in Hd2 as (Hg & Hsn & r2 & pt2 & raw2 & Hfo2 & _); [|done].
  destruct Hfo2 as (_ & Hfresh & _). apply Hfresh. by rewrite <- Hg, <- Hsn, Hn.
Qed.

(** The group id inside a welcome's payload is
    not compared with the one its envelope carries.  A welcome whose envelope
    names a group that does not exist here, while the payload names one that does,
    is installed over it: anyone who can reach this device replaces the members,
    the key and the history of a conversation it is not a member of, at any
    epoch. *)
Theorem welcome_overwrites_other_group (env : TransitEnvelope) (sk gid : bytes) (io : InboundIO)
    (st : Inbox) (v : WelcomeVerified) (g : string) (c : Conversation) :
  synced (ib_registry st) -> e_group_id env = Some gid -> is_welcome env ->
  decrypt_and_verify_welcome env sk gid = Ok (inl v) -> io_save io = Ok tt ->
  (get (hex_encode gid) (ib_registry st)).1 = Ok None ->
  wp_group_id_hex (wv_payload v) = g ->
  effective g (ib_registry st) = Some c -> is_member (sender_hex env) c = false ->
  exists c', effective g (ib_registry (dispatch_inbound_with_outbox env sk io st).2) = Some c' /\
    c_members c' = wp_members (wv_payload v) /\
    c_current_key_b64 c' = wp_current_key_b64 (wv_payload v) /\
    c_current_epoch c' = e_epoch env /\ c_history c' = [] /\ c_seen_nonces c' = ∅.
Proof.
  intros Hs Hg Hw Hv Hio Hnone Hname Hc Hm.
  rewrite (dispatch_is_welcome _ _ _ _ gid) by done. rewrite dispatch_welcome_registry, Hv.
  apply welcome_verified in Hv as (_ & Hep & _).
  exists (from_welcome (wv_payload v) (welcome_trust st v) (io_now_rekey io)).
  split; [|by rewrite <- Hep].
  unfold install_or_rekey_conversation. destruct (get_same (hex_encode gid) _ Hs) as [Hs1 _].
  destruct (get _ _) as [[[c0|]|e] r1]; simplify_eq/=.
  rewrite Hio. destruct (save_effective (from_welcome (wv_payload v) (welcome_trust st v)
    (io_now_rekey io)) r1 (wp_group_id_hex (wv_payload v)) Hs1) as [_ He].
  destruct (save _ _ r1) as [[u|e] r2] eqn:Hsv; [|done]. cbn [snd] in He |- *. rewrite He.
  by case_decide.
Qed.

(** ** The nonce is recorded before the message is stored *)

(** [record_nonce] changes nothing but the replay window. *)
Lemma record_nonce_conv g s n io r r1 c :
  synced r -> record_nonce g s n io r = (Ok Recorded, r1) -> effective g r = Some c ->
  effective g r1 = Some (check_and_record_nonce s n c).2 /\
  (check_and_record_nonce s n c).1 = false /\ synced r1.
Proof.
  intros Hs Hr Hc. destruct (record_nonce_cases g s n io r Hs) as
    [[_ [[e He]|(? & _ & _ & He)]]|(c0 & Hc0 & Hck & _ & Hu)]; rewrite Hr in *; cbn in *; [done..|].
  simplify_eq. split; [rewrite (proj2 Hu g); by case_decide | split; [done | apply Hu]].
Qed.

Lemma record_again s n c :
  (check_and_record_nonce s n c).1 = false ->
  (check_and_record_nonce s n (check_and_record_nonce s n c).2).1 = true.
Proof.
  unfold check_and_record_nonce.
  destruct (bool_decide (n ∈ default [] (c_seen_nonces c !! s))); [done|]. intros _.
  cbn [fst snd c_seen_nonces set_seen_nonces].
  rewrite lookup_insert_eq. cbn [default]. rewrite bool_decide_eq_true_2; [done|].
  apply elem_of_app. right. by left.
Qed.

Lemma nonce_keeps_keys s n c e now :
  key_for_epoch e now (check_and_record_nonce s n c).2 = key_for_epoch e now c /\
  c_history (check_and_record_nonce s n c).2 = c_history c.
Proof. unfold check_and_record_nonce. by case_bool_decide. Qed.

(** A cold [get] of what is on disk. *)
Lemma get_cold g r c :
  synced r -> effective g r = Some c ->
  get g (registry_empty (disk r)) = (Ok (Some c), cache_insert g c (registry_empty (disk r))).
Proof.
  intros Hs. unfold effective, get, get_lookup, get_read. cbn [cache disk registry_empty].
  rewrite lookup_empty. destruct (cache r !! g) as [c0|] eqn:Hc0; [apply Hs in Hc0; rewrite Hc0|].
  - by intros [= ->].
  - by destruct (disk r !! g) as [[]|]; intros; simplify_eq.
Qed.

(** The replay window is written before the
    frame is decrypted and stored.  When the process stops between the two, the
    redelivered frame is answered as a replay, which confirms it to the relay so
    that its copy is reclaimed, although the message never reached the history. *)
Theorem crash_before_store_confirms_loss (env : TransitEnvelope) (sk gid : bytes) (io : InboundIO)
    (st : Inbox) (conv : Conversation) (key : bytes) (r1 : ConversationRegistry) :
  let g := hex_encode gid in
  synced (ib_registry st) -> e_group_id env = Some gid -> e_kem_ciphertext env = [] ->
  e_kind env <> DeliveryReceipt -> verify_sender env (ib_contacts st) = Ok None ->
  effective g (ib_registry st) = Some conv ->
  key_for_epoch (e_epoch env) (io_now_key io) conv = Ok (Some key) -> len (e_nonce env) = 12 ->
  record_nonce g (sender_hex env) (e_nonce env) (Ok tt) (ib_registry st) = (Ok Recorded, r1) ->
  let crashed := set_registry (registry_empty (disk r1)) st in
  let '(d, st2) := dispatch_inbound_with_outbox env sk io crashed in
  d = Ok (ReplayDetected g (sender_hex env)) /\
  confirms_delivery (ReplayDetected g (sender_hex env)) = true /\
  exists c2, effective g (ib_registry st2) = Some c2 /\ c_history c2 = c_history conv.
Proof.
  intros g Hs Hg Hkem Hkind Hv Hc Hkey Hlen Hr.
  destruct (record_nonce_conv _ _ _ _ _ _ _ Hs Hr Hc) as (Hc1 & Hck & Hs1). cbv zeta.
  unfold dispatch_inbound_with_outbox. rewrite Hg, bool_decide_eq_true_2 by done.
  change (ib_contacts (set_registry (registry_empty (disk r1)) st)) with (ib_contacts st).
  rewrite Hv. fold g.
  pose proof (nonce_keeps_keys (sender_hex env) (e_nonce env) conv (e_epoch env) (io_now_key io))
    as [Hkk Hhist].
  set (c1 := (check_and_record_nonce (sender_hex env) (e_nonce env) conv).2) in *.
  assert (open_frame env gid g io (registry_empty (disk r1)) =
    (Ok (inl (ReplayDetected g (sender_hex env))), cache_insert g c1 (registry_empty (disk r1)))) as Ho.
  { unfold open_frame. rewrite (get_cold g r1 c1 Hs1 Hc1).
    rewrite Hkk, Hkey, Hlen. cbn [negb N.eqb Pos.eqb].
    unfold record_nonce, hydrate. cbn [cache cache_insert]. rewrite lookup_insert_eq.
    pose proof (record_again _ _ _ Hck) as Ha. fold c1 in Ha.
    by destruct (check_and_record_nonce _ _ c1) as [[] ?]. }
  assert (exists c2, effective g (cache_insert g c1 (registry_empty (disk r1))) = Some c2 /\
    c_history c2 = c_history conv) as He.
  { exists c1. unfold effective. cbn [cache cache_insert]. rewrite lookup_insert_eq.
    by split. }
  destruct (e_kind env); try done; unfold dispatch_message; cbn [ib_registry set_registry];
    rewrite Ho; done.
Qed.
End facts.

(** ** Witnesses *)

#[local] Existing Instance demo_base64.
#[local] Existing Instance demo_sha32.
#[local] Existing Instance demo_mldsa.
#[local] Existing Instance demo_url.
#[local] Instance in_demo_io : VaultIO := fun _ => true.

(** A peer with a card and a conversation, and a stranger. *)
Definition peer_id : bytes := derive_agent_id [1].
Definition stranger_id : bytes := derive_agent_id [1; 1].

Definition demo_env (gid sender nonce : bytes) (epoch : N) (kem sig : bytes) : TransitEnvelope :=
  {| e_version := 1; e_kind := Dm; e_group_id := Some gid; e_tenant_id := None;
     e_sender_agent_id := sender; e_sender_machine_id := []; e_timestamp_ms := 0; e_epoch := epoch;
     e_ciphertext := [9]; e_nonce := nonce; e_kem_ciphertext := kem;
     e_sender_signature := sig |}.
Definition demo_kem_ct : bytes := replicate 1088 0.
Definition demo_nonce (n : N) : bytes := n :: replicate 11 0.
Definition frame_with (nonce : bytes) : TransitEnvelope := demo_env [171] peer_id nonce 0 [] [1].
Definition demo_frame : TransitEnvelope := frame_with (demo_nonce 0).
Definition demo_welcome : TransitEnvelope :=
  demo_env [171] peer_id (demo_nonce 0) 1 demo_kem_ct [1].
Definition demo_attack : TransitEnvelope :=
  demo_env [205] stranger_id (demo_nonce 0) 1 demo_kem_ct [1; 1].

(** Distinct first bytes for the envelopes above. *)
#[local] Instance in_demo_codec : EnvelopeCodec.
Proof.
  refine {| env_to_bytes e :=
              if decide (e = without_signature (frame_with (e_nonce e))) then Ok (1 :: e_nonce e)
              else if decide (e = without_signature demo_welcome) then Ok [2]
              else if decide (e = without_signature demo_attack) then Ok [3] else Err "x"%string;
            env_from_bytes b :=
              match b with
              | 1 :: nonce => Some (without_signature (frame_with nonce))
              | 2 :: _ => Some (without_signature demo_welcome)
              | 3 :: _ => Some (without_signature demo_attack)
              | _ => None
              end |}.
  intros e b. repeat case_decide; intros [= <-]; congruence.
Defined.

#[local] Instance in_demo_cipher : ChatCipher :=
  {| mlkem_decapsulate := fun _ _ => Ok [4]; hkdf_sha256 := fun s _ => s;
     chacha_open := fun _ _ ct aad => Some (ct ++ aad) |}.

Definition demo_device (pk : bytes) : MemberDevice :=
  {| md_agent_id_hex := hex_encode (derive_agent_id pk); md_kem_public_key_b64 := "";
     md_agent_public_key_b64 := Some (b64_encode pk); md_added_at_epoch := 0; md_status := Active |}.
Definition member_of (pk : bytes) : Member :=
  {| mb_user_id_hex := None; mb_devices := [demo_device pk]; mb_joined_at_epoch := 0 |}.
Definition demo_payload (pk : bytes) : WelcomePayload :=
  {| wp_group_id_hex := "ab"; wp_current_key_b64 := b64_encode (demo_key 8); wp_epoch := 1;
     wp_members := [member_of pk]; wp_name := None |}.

(** The payload tells by the group in the associated data who wrote it; both name
    the group [ab]. *)
#[local] Instance in_demo_json : PayloadJson :=
  {| parse_welcome := fun b => Ok (demo_payload (if bool_decide (171 ∈ b) then [1] else [1; 1]));
     parse_message := fun _ => Ok {| mp_sender_name := None; mp_body := "hi"; mp_ts_ms := 3;
       mp_message_id := Some "m1"%string; mp_reply_to_message_id := None; mp_attachment := None;
       mp_advertised_relays := None; mp_hint_epoch_ms := None |};
     parse_receipt := fun _ => Err "x"%string |}.

Definition peer_conv : Conversation :=
  mkConv "ab" None [member_of [1]] 0 (b64_encode (demo_key 7)) [] RoleMember 0 0
    DEFAULT_AUTO_REKEY_INTERVAL_MS Confirmed ∅ [] 0 ∅ 0 0 0 0 0.
Definition peer_card : StoredContactCard :=
  mkCard (hex_encode peer_id) "" "" (Some (b64_encode [1])) None None None.
Definition demo_inbox : Inbox :=
  mkInbox (registry_empty {["ab"%string := Ok peer_conv]})
    (mkContacts "/d" {[hex_encode peer_id := CardOk peer_card]}) None None.
Definition io_fine : InboundIO :=
  {| io_now_key := 10; io_now_wedge := 10; io_now_rekey := 10; io_now_sweep := 10; io_nonce := Ok tt;
     io_wedge := Ok tt; io_card := Ok tt; io_history := Ok tt; io_delivery := Ok tt;
     io_save := Ok tt |}.
Definition demo_sk : bytes := replicate 2400 0.

Lemma demo_synced : synced (ib_registry demo_inbox).
Proof. intros g c. cbn. by rewrite lookup_empty. Qed.

Lemma dispatched_message_authentic_witness :
  exists conv', disk (ib_registry (dispatch_inbound_with_outbox demo_frame demo_sk io_fine
                                     demo_inbox).2) !! "ab"%string = Some (Ok conv') /\
    length (c_history conv') = 1%nat.
Proof.
  destruct (dispatch_inbound_with_outbox demo_frame demo_sk io_fine demo_inbox) as [d st'] eqn:Hd.
  pose proof (f_equal fst Hd) as Hd1. vm_compute in Hd1. subst d.
  destruct (dispatched_message_authentic _ _ _ _ _ _ _ _ demo_synced Hd) as (_ & _ & _ & _ & Hh).
  destruct (Hh eq_refl) as (conv' & Hc & _). exists conv'. split; [done|].
  pose proof (f_equal snd Hd) as Hd2. vm_compute in Hd2. cbn in Hd2. subst st'.
  vm_compute in Hc. injection Hc as <-. reflexivity.
Defined.

(** Sixty-four other frames and a restart, then the first frame again: it is
    accepted, and no earlier. *)
Definition demo_mid : list InStep :=
  Reboot :: ((fun n => Deliver (frame_with (demo_nonce (N.of_nat n))) io_fine) <$> seq 1 64).

Lemma frame_accepted_once_witness : (64 <= length demo_mid)%nat \/ Exists (replaces demo_sk "ab") demo_mid.
Proof.
  destruct (dispatch_inbound_with_outbox demo_frame demo_sk io_fine demo_inbox) as [d st1] eqn:Hd.
  destruct (dispatch_inbound_with_outbox demo_frame demo_sk io_fine
    (foldl (in_step demo_sk) st1 demo_mid)) as [d2 st2] eqn:Hd2.
  pose proof (f_equal snd Hd) as Hs. pose proof (f_equal fst Hd2) as Hr2.
  cbn [snd] in Hs. rewrite <- Hs in Hr2. vm_compute in Hr2. subst d2.
  pose proof (f_equal fst Hd) as Hr. vm_compute in Hr. subst d.
  eapply (frame_accepted_once demo_sk demo_inbox st1 st2 demo_frame demo_frame io_fine io_fine demo_mid);
    [exact demo_synced | reflexivity | exact Hd | exact Hd2].
Defined.

Lemma rekey_needs_member_and_newer_epoch_witness :
  exists c', effective "ab" (ib_registry (dispatch_inbound_with_outbox demo_welcome demo_sk io_fine
                                           demo_inbox).2) = Some c' /\ c_current_epoch c' = 1.
Proof.
  destruct (rekey_needs_member_and_newer_epoch demo_welcome demo_sk [171] io_fine demo_inbox "ab"
    peer_conv demo_synced eq_refl) as [Hsame|(c' & Hc & _ & _ & He & _)].
  - split; vm_compute; discriminate.
  - intros v Hv. vm_compute in Hv. injection Hv as <-. reflexivity.
  - reflexivity.
  - exfalso. apply (f_equal (option_map c_current_epoch)) in Hsame. vm_compute in Hsame.
    discriminate.
  - by exists c'.
Defined.

Lemma welcome_overwrites_other_group_witness :
  exists c', effective "ab" (ib_registry (dispatch_inbound_with_outbox demo_attack demo_sk io_fine
                                           demo_inbox).2) = Some c' /\
    c_members c' = [member_of [1; 1]] /\ c_members peer_conv = [member_of [1]].
Proof.
  destruct (decrypt_and_verify_welcome demo_attack demo_sk [205]) as [[v|d]|e] eqn:Hv;
    [|vm_compute in Hv; discriminate..].
  pose proof Hv as Hp. vm_compute in Hp. injection Hp as <-.
  destruct (welcome_overwrites_other_group demo_attack demo_sk [205] io_fine demo_inbox _ "ab"
    peer_conv demo_synced eq_refl ltac:(split; vm_compute; discriminate) Hv eq_refl
    ltac:(vm_compute; reflexivity) eq_refl eq_refl ltac:(vm_compute; reflexivity))
    as (c' & Hc & Hm & _).
  exists c'. split; [done|]. split; [|reflexivity]. rewrite Hm. vm_compute. reflexivity.
Defined.

Lemma crash_before_store_confirms_loss_witness :
  let '(_, r1) := record_nonce "ab" (hex_encode peer_id) (demo_nonce 0) (Ok tt)
                    (ib_registry demo_inbox) in
  (dispatch_inbound_with_outbox demo_frame demo_sk io_fine
     (set_registry (registry_empty (disk r1)) demo_inbox)).1
  = Ok (ReplayDetected "ab" (hex_encode peer_id)).
Proof.
  destruct (record_nonce "ab" (hex_encode peer_id) (demo_nonce 0) (Ok tt) (ib_registry demo_inbox))
    as [o r1] eqn:Hr.
  assert (o = Ok Recorded) as -> by (apply (f_equal fst) in Hr; by vm_compute in Hr).
  pose proof (crash_before_store_confirms_loss demo_frame demo_sk [171] io_fine demo_inbox peer_conv
    (demo_key 7) r1 demo_synced eq_refl eq_refl ltac:(discriminate) ltac:(vm_compute; reflexivity)
    eq_refl ltac:(vm_compute; reflexivity) eq_refl Hr) as Hc.
  cbv zeta in Hc. change (hex_encode [171]) with "ab"%string in Hc.
  by destruct (dispatch_inbound_with_outbox _ _ _ _) as [d st2], Hc as [-> _].
Defined.
