(* ===== verification/EpochRecovery.v ===== *)
(** * Group epoch recovery

    Models [crates/fetchit-chat/src/groups/epoch_recovery/] (the ordered apply
    loop, the recovery driver, the status map, the wedge watchdog, the routing of
    records) with the producer of log records ([groups/group_log.rs]) and the part
    of [client.rs] that triggers recovery.  The fetch, apply, probe and cold-resume
    seams of the source are one class over a world they act on. *)
From S2P Require Import Prelude SendState Attachment Bubble Overlay SeqGap RelayProto GroupLog.
From S2P Require Import RelayWs Conversation ConvRegistry.

(** ** Data *)

Inductive EpochRelation := Behind | EpochEqual | Ahead.

Definition epoch_relation (inbound_epoch local_epoch : N) : EpochRelation :=
  match N.compare inbound_epoch local_epoch with
  | Gt => Behind
  | Eq => EpochEqual
  | Lt => Ahead
  end.

Definition frame_is_behind (frame_epoch local_epoch : N) : bool :=
  match epoch_relation frame_epoch local_epoch with Behind => true | _ => false end.

Inductive MembershipStatus := Absent | ActiveKeyed | ListedButUnkeyed.
#[export] Instance MembershipStatus_eq_dec : EqDecision MembershipStatus.
Proof. solve_decision. Defined.

Record CommitRecord := {
  cr_seq : N;
  cr_kind : LogRecordKind;
  cr_payload_b64 : string;
  cr_author_agent_id_hex : option string;
}.

Record GroupState := { gst_keyed : bool; gst_in_roster : bool; gst_epoch : N }.

Definition membership (s : GroupState) : MembershipStatus :=
  if gst_keyed s then ActiveKeyed
  else if gst_in_roster s then ListedButUnkeyed else Absent.

Inductive ApplyOutcome := Applied | AlreadyApplied.

Record ApplyLoopResult := {
  al_cursor : N;
  al_applied : N;
  al_skipped : N;
  al_stopped_on_gap : bool;
}.

Inductive RecoverOutcome :=
| Converged
| StillReconnecting
| ColdPending (drove : bool).

(** The seams over the world they act on. *)
Class RecoverySeams (W : Type) := {
  fetch_since : string -> N -> W -> result (list CommitRecord) ChatError * W;
  apply_record : string -> CommitRecord -> W -> result ApplyOutcome ChatError * W;
  probe_group : string -> W -> result GroupState ChatError * W;
  recover_cold : string -> W -> result bool ChatError * W;
}.

(** ** The status map *)

Inductive GroupRecoveryStatus := Live | Reconnecting.
#[export] Instance GroupRecoveryStatus_eq_dec : EqDecision GroupRecoveryStatus.
Proof. solve_decision. Defined.

(** The map and the events it broadcast, newest last. *)
Record GroupStatusMap := mkStatus {
  sm_inner : gmap string GroupRecoveryStatus;
  sm_events : list (string * GroupRecoveryStatus);
}.

Definition status_get (group_id : string) (m : GroupStatusMap) : GroupRecoveryStatus :=
  default Live (sm_inner m !! group_id).

Definition status_set (group_id : string) (status : GroupRecoveryStatus) (m : GroupStatusMap)
    : GroupStatusMap :=
  if bool_decide (status_get group_id m = status) then m
  else mkStatus (<[group_id := status]> (sm_inner m)) (sm_events m ++ [(group_id, status)]).

Definition set_reconnecting (group_id : string) := status_set group_id Reconnecting.
Definition set_live (group_id : string) := status_set group_id Live.

Definition status_reconnecting `{!HashIter string GroupRecoveryStatus} (m : GroupStatusMap)
    : list string :=
  fst <$> List.filter (fun e => bool_decide (e.2 = Reconnecting)) (hm_iter (sm_inner m)).

(** ** The driver *)

Section driver.
  Context {W : Type} `{RecoverySeams W}.

(** The loop of [apply_records_in_order], with the running cursor and counts. *)
Fixpoint apply_loop (group_id : string) (records : list CommitRecord) (cursor applied skipped : N)
    (w : W) : result ApplyLoopResult ChatError * W :=
  match records with
  | [] => (Ok (Build_ApplyLoopResult cursor applied skipped false), w)
  | record :: rest =>
      if cr_seq record <=? cursor then apply_loop group_id rest cursor applied (skipped + 1) w
      else if wrapping_add u64_max cursor 1 <? cr_seq record
      then (Ok (Build_ApplyLoopResult cursor applied skipped true), w)
      else
        match apply_record group_id record w with
        | (Err e, w) => (Err e, w)
        | (Ok Applied, w) => apply_loop group_id rest (cr_seq record) (applied + 1) skipped w
        | (Ok AlreadyApplied, w) => apply_loop group_id rest (cr_seq record) applied skipped w
        end
  end.

Definition apply_records_in_order (group_id : string) (start_seq : N) (records : list CommitRecord)
    (w : W) : result ApplyLoopResult ChatError * W :=
  apply_loop group_id records start_seq 0 0 w.

Definition MAX_PASSES : nat := 64.

(** The driver's own state beside the world. *)
Record Recovery := mkRecovery {
  rv_status : GroupStatusMap;
  rv_cursors : gmap string N;
  rv_world : W;
}.
Definition with_status (f : GroupStatusMap -> GroupStatusMap) (r : Recovery) : Recovery :=
  mkRecovery (f (rv_status r)) (rv_cursors r) (rv_world r).
Definition with_world (w : W) (r : Recovery) : Recovery :=
  mkRecovery (rv_status r) (rv_cursors r) w.
Definition cursor_of (group_id : string) (r : Recovery) : N := default 0 (rv_cursors r !! group_id).
Definition set_cursor (group_id : string) (seq : N) (r : Recovery) : Recovery :=
  mkRecovery (rv_status r) (<[group_id := seq]> (rv_cursors r)) (rv_world r).

Definition is_keyed (s : GroupState) : bool := bool_decide (membership s = ActiveKeyed).

(** The [for _ in 0..MAX_PASSES] loop. *)
Fixpoint recover_passes (passes : nat) (group_id : string) (target_epoch : option N) (r : Recovery)
    : result RecoverOutcome ChatError * Recovery :=
  match passes with
  | O => (Ok StillReconnecting, r)
  | S passes =>
      let cursor := cursor_of group_id r in
      match fetch_since group_id cursor (rv_world r) with
      | (Err e, w) => (Err e, with_world w r)
      | (Ok [], w) =>
          match probe_group group_id w with
          | (Err e, w) => (Err e, with_world w r)
          | (Ok state, w) =>
              let caught_up := match target_epoch with
                               | None => is_keyed state
                               | Some t => is_keyed state && (t <=? gst_epoch state)
                               end in
              if caught_up then (Ok Converged, with_status (set_live group_id) (with_world w r))
              else (Ok StillReconnecting, with_world w r)
          end
      | (Ok records, w) =>
          match apply_records_in_order group_id cursor records w with
          | (Err e, w) => (Err e, with_world w r)
          | (Ok res, w) =>
              let r := set_cursor group_id (al_cursor res) (with_world w r) in
              if al_stopped_on_gap res then (Ok StillReconnecting, r)
              else
                match probe_group group_id w with
                | (Err e, w) => (Err e, with_world w r)
                | (Ok state, w) =>
                    let r := with_world w r in
                    match target_epoch with
                    | Some t => if is_keyed state && (t <=? gst_epoch state)
                                then (Ok Converged, with_status (set_live group_id) r)
                                else recover_passes passes group_id target_epoch r
                    | None => recover_passes passes group_id target_epoch r
                    end
                end
          end
      end
  end.

Definition recover_once (group_id : string) (target_epoch : option N) (r : Recovery)
    : result RecoverOutcome ChatError * Recovery :=
  match probe_group group_id (rv_world r) with
  | (Err e, w) => (Err e, with_world w r)
  | (Ok state, w) =>
      let r := with_world w r in
      if is_keyed state then
        if match target_epoch with Some t => t <=? gst_epoch state | None => false end
        then (Ok Converged, with_status (set_live group_id) r)
        else recover_passes MAX_PASSES group_id target_epoch (with_status (set_reconnecting group_id) r)
      else
        let r := with_status (set_reconnecting group_id) r in
        match recover_cold group_id (rv_world r) with
        | (Err e, w) => (Err e, with_world w r)
        | (Ok drove, w) => (Ok (ColdPending drove), with_world w r)
        end
  end.
End driver.
Arguments Recovery : clear implicits.

(** ** The wedge watchdog *)

Definition WEDGE_THRESHOLD_MS : N := 60000.
Definition WEDGE_RECENT_WINDOW_MS : N := 90000.

Record WedgeSignals := {
  ws_last_progress_ms : N;
  ws_recent_receipt_activity : bool;
  ws_current_epoch : N;
  ws_last_seen_epoch : N;
}.

Definition wedge_should_trip (signals : WedgeSignals) (now_ms threshold_ms : N) : bool :=
  if negb (ws_recent_receipt_activity signals) then false
  else if ws_last_seen_epoch signals <? ws_current_epoch signals then false
  else threshold_ms <=? now_ms -| ws_last_progress_ms signals.

Definition groups_to_recover (now_ms threshold_ms : N) (groups : list (string * WedgeSignals))
    : list string :=
  fst <$> List.filter (fun g => wedge_should_trip g.2 now_ms threshold_ms) groups.

Definition wedge_signals (now_ms recent_window_ms : N) (conv : Conversation) : WedgeSignals :=
  {| ws_last_progress_ms := c_wedge_last_progress_ms conv;
     ws_recent_receipt_activity :=
       (c_wedge_last_progress_ms conv <? c_wedge_last_inbound_ms conv)
       && (now_ms -| c_wedge_last_inbound_ms conv <=? recent_window_ms);
     ws_current_epoch := c_current_epoch conv;
     ws_last_seen_epoch := c_wedge_progress_epoch conv |}.

Definition wedge_snapshot `{!HashIter string Conversation} (now_ms recent_window_ms : N)
    (r : ConversationRegistry) : list (string * WedgeSignals) :=
  (fun e => (e.1, wedge_signals now_ms recent_window_ms e.2)) <$> hm_iter (cache r).

(** The groups one watchdog pass hands on: tripped, and not already being
    recovered. *)
Definition watchdog_triggers `{!HashIter string Conversation} (now_ms : N) (m : GroupStatusMap)
    (r : ConversationRegistry) : list string :=
  List.filter (fun g => negb (bool_decide (status_get g m = Reconnecting)))
    (groups_to_recover now_ms WEDGE_THRESHOLD_MS (wedge_snapshot now_ms WEDGE_RECENT_WINDOW_MS r)).

(** ** Records on the wire *)

Section wire.
  Context `{Base64}.

Definition commit_record_from_wire (w : LogRecordWire) : CommitRecord :=
  {| cr_seq := lw_seq w; cr_kind := lw_kind w; cr_payload_b64 := b64_encode (lw_payload w);
     cr_author_agent_id_hex := hex_encode <$> lw_author w |}.

Inductive ApplyPlan :=
| PlanMetadata (payload_b64 author_hex : string)
| PlanJoinResult (stable_group_id member payload_b64 owner_hex : string)
| PlanSkip (reason : string).

(** [member_added_self_target] parses JSON: a parameter. *)
Definition plan_apply (self_target : bytes -> string -> option (string * string))
    (rec : CommitRecord) (my_agent_hex : string) : ApplyPlan :=
  match cr_author_agent_id_hex rec with
  | None => PlanSkip "record carries no author"
  | Some author_hex =>
      match cr_kind rec with
      | Commit => PlanMetadata (cr_payload_b64 rec) author_hex
      | JoinResult =>
          match b64_decode (cr_payload_b64 rec) with
          | None => PlanSkip "join-result payload not base64"
          | Some payload =>
              match self_target payload my_agent_hex with
              | Some (stable_group_id, member) =>
                  PlanJoinResult stable_group_id member (cr_payload_b64 rec) author_hex
              | None => PlanSkip "join-result not addressed to this node"
              end
          end
      end
  end.
End wire.

(** What a member's fetch brings: the relay's reply, mapped. *)
Definition member_fetch `{Base64} {L} `{GroupLogStore L} (agent : AgentId) (g : GroupId) (since : N)
    (s : L) : list CommitRecord :=
  commit_record_from_wire <$> (to_wire <$> List.filter (log_visible agent) (g_fetch_since g since s)).

Record GroupLogIntent := {
  gi_group_id : GroupId;
  gi_kind : LogRecordKind;
  gi_recipient : option AgentId;
  gi_payload : bytes;
}.

(** [welcome] and [commit] are the two encodings of the event. *)
Definition join_reply_log_intents (mls_group_id_hex : string) (joiner : AgentId)
    (welcome commit : result bytes string) : result (list GroupLogIntent) ChatError :=
  match hex_decode mls_group_id_hex with
  | Some g =>
      if negb (len g =? 32) then Err (Invalid "group-log: mls group id hex")
      else
        match welcome with
        | Err e => Err (Invalid ("group-log: welcome event encode: " +:+ e))
        | Ok w =>
            match commit with
            | Err e => Err (Invalid ("group-log: commit event encode: " +:+ e))
            | Ok c => Ok [Build_GroupLogIntent g JoinResult (Some joiner) w;
                          Build_GroupLogIntent g Commit None c]
            end
        end
  | None => Err (Invalid "group-log: mls group id hex")
  end.

(** ** The apply loop *)

Section apply.
  Context {W : Type} `{RecoverySeams W}.

(** Apply records one after another, up to the first error. *)
Fixpoint apply_all (group_id : string) (l : list CommitRecord) (w : W) : result unit ChatError * W :=
  match l with
  | [] => (Ok tt, w)
  | record :: rest =>
      match apply_record group_id record w with
      | (Err e, w) => (Err e, w)
      | (Ok _, w) => apply_all group_id rest w
      end
  end.

(** The records of a batch that continue [cursor] without a hole. *)
Fixpoint contiguous (cursor : N) (records : list CommitRecord) : list CommitRecord :=
  match records with
  | [] => []
  | record :: rest =>
      if cr_seq record <=? cursor then contiguous cursor rest
      else if cr_seq record =? cursor + 1 then record :: contiguous (cursor + 1) rest
      else []
  end.

(** Something is left beyond a hole. *)
Definition beyond (cursor : N) (records : list CommitRecord) : bool :=
  existsb (fun r => cursor + 1 <? cr_seq r) records.

Lemma contiguous_seqs cursor records :
  cr_seq <$> contiguous cursor records
  = range (cursor + 1) (cursor + 1 + len (contiguous cursor records)).
Proof.
  revert cursor. induction records as [|r rest IH]; intros cursor; cbn.
  { unfold range, len. cbn [length N.of_nat]. by rewrite N.add_0_r, N.sub_diag. }
  destruct (N.leb_spec (cr_seq r) cursor); [done|].
  destruct (N.eqb_spec (cr_seq r) (cursor + 1)) as [Hr|]; cycle 1.
  { unfold range, len. cbn [length N.of_nat]. by rewrite N.add_0_r, N.sub_diag. }
  rewrite fmap_cons, IH, Hr. unfold len. cbn [length].
  rewrite (range_cons (cursor + 1)) by lia. f_equal. f_equal; lia.
Qed.

Lemma contiguous_sublist cursor records : contiguous cursor records `sublist_of` records.
Proof.
  revert cursor. induction records as [|r rest IH]; intros cursor; cbn; [done|].
  destruct (cr_seq r <=? cursor); [by apply sublist_cons|].
  destruct (cr_seq r =? cursor + 1); [by apply sublist_skip | apply sublist_nil_l].
Qed.

(** In an ascending batch the hole is right after the last applied record. *)
Lemma contiguous_maximal cursor records :
  StronglySorted N.lt (cr_seq <$> records) ->
  Forall (fun r => cr_seq r <> cursor + 1 + len (contiguous cursor records)) records.
Proof.
  revert cursor. induction records as [|r rest IH]; intros cursor Hs; [by constructor|].
  rewrite fmap_cons in Hs. apply StronglySorted_inv in Hs as [Hs Hlt].
  rewrite Forall_fmap in Hlt. cbn [contiguous].
  destruct (N.leb_spec (cr_seq r) cursor).
  { constructor; [unfold len; lia | by apply IH]. }
  destruct (N.eqb_spec (cr_seq r) (cursor + 1)) as [Hr|Hr].
  - specialize (IH (cursor + 1) Hs). unfold len in *. cbn [length]. constructor; [lia|].
    eapply Forall_impl; [exact IH|]. cbn. intros x Hx. lia.
  - constructor; [unfold len; cbn; lia|]. eapply Forall_impl; [exact Hlt|]. cbn.
    unfold len. cbn. intros x Hx. lia.
Qed.

(** What [apply_loop] does, against [apply_all]. *)
Lemma apply_loop_spec g records cursor a s w :
  cursor < u64_max -> Forall (fun r => cr_seq r < u64_max) records ->
  StronglySorted N.lt (cr_seq <$> records) ->
  let batch := contiguous cursor records in
  match apply_all g batch w with
  | (Err e, w') => apply_loop g records cursor a s w = (Err e, w')
  | (Ok _, w') => exists res, apply_loop g records cursor a s w = (Ok res, w') /\
      al_cursor res = cursor + len batch /\
      al_stopped_on_gap res = beyond (al_cursor res) records
  end.
Proof.
  cbv zeta. revert cursor a s w. induction records as [|r rest IH]; intros cursor a s w Hc Hb Hs.
  { cbn. eexists. split; [done|]. cbn. unfold len. cbn. split; [lia | done]. }
  rewrite fmap_cons in Hs. apply StronglySorted_inv in Hs as [Hs Hlt].
  rewrite Forall_fmap in Hlt. apply Forall_cons in Hb as [Hr Hb].
  cbn [contiguous apply_loop]. unfold wrapping_add. rewrite N.mod_small by lia.
  destruct (N.leb_spec (cr_seq r) cursor) as [Hle|Hgt].
  { specialize (IH cursor a (s + 1) w Hc Hb Hs).
    destruct (apply_all g (contiguous cursor rest) w) as [[u|e] w']; [|done].
    destruct IH as (res & ? & Hcur & Hgap). exists res. split_and!; [done..|]. rewrite Hgap. cbn.
    destruct (N.ltb_spec (al_cursor res + 1) (cr_seq r)); [lia | done]. }
  destruct (N.eqb_spec (cr_seq r) (cursor + 1)) as [Heq|Hne]; cycle 1.
  { rewrite (proj2 (N.ltb_lt (cursor + 1) (cr_seq r))) by lia. eexists. split; [done|].
    cbn [al_cursor al_stopped_on_gap len length]. split; [unfold len; cbn; lia|]. cbn.
    by rewrite (proj2 (N.ltb_lt (cursor + 1) (cr_seq r))) by lia. }
  rewrite Heq, N.ltb_irrefl. cbn [apply_all].
  destruct (apply_record g r w) as [[o|e] w1]; [|done].
  assert (forall a, match apply_all g (contiguous (cursor + 1) rest) w1 with
    | (Err e, w') => apply_loop g rest (cursor + 1) a s w1 = (Err e, w')
    | (Ok _, w') => exists res, apply_loop g rest (cursor + 1) a s w1 = (Ok res, w') /\
        al_cursor res = cursor + len (r :: contiguous (cursor + 1) rest) /\
        al_stopped_on_gap res = beyond (al_cursor res) (r :: rest) end) as Hrest.
  { intros a'. specialize (IH (cursor + 1) a' s w1 ltac:(lia) Hb Hs).
    destruct (apply_all g (contiguous (cursor + 1) rest) w1) as [[u|e] w']; [|done].
    destruct IH as (res & ? & Hcur & Hgap). exists res. unfold len in *. cbn [length].
    split_and!; [done | lia|]. rewrite Hgap. cbn.
    destruct (N.ltb_spec (al_cursor res + 1) (cr_seq r)); [lia | done]. }
  destruct o; apply Hrest.
Qed.

(** Given an ascending batch of log records, the
    apply loop hands the daemon exactly the records that continue the cursor
    without a hole, each once and in order, and stops at the first error; when
    none fails the cursor ends at the last one and the gap flag says whether
    records beyond a hole were left. *)
Theorem recovery_applies_contiguously (g : string) (start : N) (records : list CommitRecord) (w : W) :
  start < u64_max -> Forall (fun r => cr_seq r < u64_max) records ->
  StronglySorted N.lt (cr_seq <$> records) ->
  exists batch, batch `sublist_of` records /\
    cr_seq <$> batch = range (start + 1) (start + 1 + len batch) /\
    Forall (fun r => cr_seq r <> start + 1 + len batch) records /\
    match apply_all g batch w with
    | (Err e, w') => apply_records_in_order g start records w = (Err e, w')
    | (Ok _, w') => exists res, apply_records_in_order g start records w = (Ok res, w') /\
        al_cursor res = start + len batch /\
        (al_stopped_on_gap res = true <->
         exists r, r ∈ records /\ start + len batch + 1 < cr_seq r)
    end.
Proof.
  intros Hst Hb Hs. exists (contiguous start records).
  split; [apply contiguous_sublist|]. split; [apply contiguous_seqs|].
  split; [by apply contiguous_maximal|].
  pose proof (apply_loop_spec g records start 0 0 w Hst Hb Hs) as Hl.
  cbv zeta in Hl. unfold apply_records_in_order.
  destruct (apply_all g (contiguous start records) w) as [[u|e] w']; [|done].
  destruct Hl as (res & -> & Hcur & Hgap). exists res. split; [done|]. split; [done|].
  rewrite Hgap. unfold beyond. rewrite existsb_exists, Hcur. setoid_rewrite N.ltb_lt.
  by setoid_rewrite <- list_elem_of_In.
Qed.
End apply.

(** ** The driver *)

Lemma status_get_set g g' v m :
  status_get g' (status_set g v m) = if decide (g' = g) then v else status_get g' m.
Proof.
  unfold status_set. case_bool_decide as Hv; [case_decide; by subst|].
  unfold status_get. cbn. case_decide; [subst; by rewrite lookup_insert_eq|].
  by rewrite lookup_insert_ne.
Qed.

Section outcomes.
  Context {W : Type} `{RecoverySeams W}.

Lemma apply_loop_mono g records cursor a s w res w' :
  apply_loop g records cursor a s w = (Ok res, w') -> cursor <= al_cursor res.
Proof.
  revert cursor a s w. induction records as [|r rest IH]; intros cursor a s w; cbn.
  { by intros [= <- _]. }
  destruct (N.leb_spec (cr_seq r) cursor); [apply IH|].
  destruct (_ <? cr_seq r); [by intros [= <- _]|].
  destruct (apply_record g r w) as [[[]|e] w1]; [| |done]; intros Hl%IH; lia.
Qed.

(** Nothing but [g]'s entries changed, and [g]'s cursor did not go back. *)
Definition only_group (g : string) (r r' : Recovery W) : Prop :=
  (forall g', g' <> g -> status_get g' (rv_status r') = status_get g' (rv_status r) /\
                         rv_cursors r' !! g' = rv_cursors r !! g') /\
  cursor_of g r <= cursor_of g r'.

#[export] Instance only_group_preorder g : PreOrder (only_group g).
Proof.
  split.
  - intros r. split; [done | lia].
  - intros r1 r2 r3 [Ho1 Hc1] [Ho2 Hc2]. split; [|lia]. intros g' Hne.
    destruct (Ho1 g' Hne) as [<- <-]. by apply Ho2.
Qed.

Lemma only_group_world g w r : only_group g r (with_world w r).
Proof. split; [done|]. unfold cursor_of. cbn. lia. Qed.

Lemma only_group_status g v r : only_group g r (with_status (status_set g v) r).
Proof.
  split; [|unfold cursor_of; cbn; lia]. intros g' Hne. cbn. split; [|done].
  rewrite status_get_set. by case_decide.
Qed.

Lemma only_group_cursor g n r : cursor_of g r <= n -> only_group g r (set_cursor g n r).
Proof.
  intros Hn. split.
  - intros g' Hne. cbn. by rewrite lookup_insert_ne.
  - unfold cursor_of at 2. cbn. by rewrite lookup_insert_eq.
Qed.

(** The group was seen keyed, at the target if there is one, in the last probe. *)
Definition seen_converged (g : string) (t : option N) (r : Recovery W) : Prop :=
  exists w state, probe_group g w = (Ok state, rv_world r) /\ is_keyed state = true /\
    forall te, t = Some te -> te <= gst_epoch state.

(** What an outcome says of the status. *)
Definition honest (g : string) (t : option N) (res : result RecoverOutcome ChatError)
    (r' : Recovery W) : Prop :=
  match res with
  | Ok Converged => status_get g (rv_status r') = Live /\ seen_converged g t r'
  | _ => status_get g (rv_status r') = Reconnecting
  end.

Lemma converged_honest g t r :
  seen_converged g t r -> honest g t (Ok Converged) (with_status (set_live g) r).
Proof.
  intros Hs. unfold honest. cbn [with_status rv_status]. unfold set_live.
  rewrite status_get_set, decide_True by done. by split.
Qed.

Lemma recover_passes_honest passes g t r :
  status_get g (rv_status r) = Reconnecting ->
  let '(res, r') := recover_passes passes g t r in only_group g r r' /\ honest g t res r'.
Proof.
  revert r. induction passes as [|passes IH]; intros r Hr; cbn [recover_passes]; [done|].
  destruct (fetch_since _ _ _) as [[[|rec recs]|e] w]; [| |by split; [apply only_group_world|]].
  - destruct (probe_group g w) as [[state|e] w1] eqn:Hp; [|by split; [apply only_group_world|]].
    destruct (match t with None => _ | Some te => _ end) eqn:Hup; [|by split; [apply only_group_world|]].
    split; [etrans; [apply only_group_world | apply only_group_status]|].
    apply converged_honest. exists w, state. cbn.
    destruct t as [te|]; [apply andb_true_iff in Hup as [? ?%N.leb_le]|]; split_and!; naive_solver.
  - destruct (apply_records_in_order _ _ _ w) as [[res|e] w1] eqn:Ha;
      [|by split; [apply only_group_world|]].
    set (r1 := set_cursor g (al_cursor res) (with_world w1 r)).
    assert (only_group g r r1) as Ho.
    { etrans; [apply (only_group_world g w1)|]. apply only_group_cursor. by eapply apply_loop_mono. }
    destruct (al_stopped_on_gap res); [done|].
    destruct (probe_group g w1) as [[state|e] w2] eqn:Hp;
      [|split; [etrans; [exact Ho | apply only_group_world] | done]].
    assert (only_group g r (with_world w2 r1)) as Ho2
      by (etrans; [exact Ho | apply only_group_world]).
    assert (let '(res, r') := recover_passes passes g t (with_world w2 r1) in
            only_group g r r' /\ honest g t res r') as Hrec.
    { specialize (IH (with_world w2 r1) Hr). destruct (recover_passes _ _ _ _) as [res' r'].
      destruct IH. split; [by etrans | done]. }
    destruct t as [te|]; [|done]. destruct (is_keyed state && (te <=? gst_epoch state)) eqn:Hup; [|done].
    split; [etrans; [exact Ho2 | apply only_group_status]|].
    apply converged_honest. exists w1, state. cbn.
    apply andb_true_iff in Hup as [? ?%N.leb_le]. split_and!; naive_solver.
Qed.

(** A recovery step reports convergence, and shows the
    group as live, only when its last probe saw the group keyed and, for a frame
    that triggered it, at or past that frame's epoch.  After any other outcome
    the group is shown as reconnecting (an error of the very first probe leaves
    the status as it was); other groups are not touched and the log cursor never
    moves back. *)
Theorem recovery_status_honest (g : string) (t : option N) (r : Recovery W) :
  let '(res, r') := recover_once g t r in
  only_group g r r' /\
  (honest g t res r' \/ exists e, res = Err e /\ rv_status r' = rv_status r).
Proof.
  unfold recover_once.
  destruct (probe_group g (rv_world r)) as [[state|e] w] eqn:Hp; cycle 1.
  { split; [apply only_group_world|]. right. by exists e. }
  pose proof (only_group_world g w r) as Hw.
  pose proof (only_group_status g Reconnecting (with_world w r)) as Hs.
  assert (status_get g (status_set g Reconnecting (rv_status r)) = Reconnecting) as Hrec
    by (rewrite status_get_set; by case_decide).
  destruct (is_keyed state) eqn:Hk; cycle 1.
  { destruct (recover_cold g _) as [[drove|e] w1]; (split; [|by left]);
      (etrans; [exact Hw|]; etrans; [exact Hs | apply only_group_world]). }
  destruct (match t with Some te => te <=? gst_epoch state | None => false end) eqn:Hup.
  - split; [etrans; [exact Hw | apply only_group_status]|]. left. apply converged_honest.
    exists (rv_world r), state. cbn. split_and!; [done..|]. intros te ->. by apply N.leb_le.
  - pose proof (recover_passes_honest MAX_PASSES g t
      (with_status (set_reconnecting g) (with_world w r)) Hrec) as Hp'.
    destruct (recover_passes _ _ _ _) as [res r']. destruct Hp' as [Ho Hh].
    split; [by etrans; [exact Hw|]; etrans; [exact Hs|] | by left].
Qed.
End outcomes.

(** ** Recovery over the relay's log *)

Section blocked.
  Context {L : Type} `{GroupLogLaws L} `{Base64}.

(** Through any run the records are old ones or added ones. *)
Lemma log_run_records ops (s : L) g rec :
  g_wf s -> (forall g', g_next g' s + len ops <= i64_max) -> Forall (log_timed (g_window s)) ops ->
  g_wf (foldl log_step s ops) /\
  (rec ∈ g_records g (foldl log_step s ops) -> rec ∈ g_records g s \/ rec ∈ added g s ops).
Proof.
  revert s. induction ops as [|op ops IH]; intros s Hwf Hn Hall; [by split; [|left]|].
  apply Forall_cons in Hall as [Hop Hall]. unfold len in *. cbn [length] in Hn.
  assert (forall g, g_next g s < i64_max) as Hlt by (intros g'; specialize (Hn g'); lia).
  destruct (log_step_spec s op Hwf Hlt Hop) as [(Hwf' & _ & Hwin) Hg].
  destruct (IH (log_step s op)) as [Hwf2 Hin]; [done| |by rewrite Hwin|].
  { intros g'. pose proof (log_next_le s op g' Hwf Hlt Hop). specialize (Hn g'). lia. }
  split; [done|]. cbn [foldl added]. intros Hr. rewrite elem_of_app.
  destruct (Hin Hr) as [Hold|]; [|by right; right]. specialize (Hg g).
  destruct (adds g s op) as [x|] eqn:Hadds.
  - destruct Hg as (_ & _ & Hrec). rewrite Hrec in Hold. apply elem_of_app in Hold as [Hold|Hold].
    + left. rewrite <- (take_drop (length (g_records g s) - N.to_nat (g_cap s - 1)) (g_records g s)).
      apply elem_of_app. by right.
    + right. left. cbn. done.
  - destruct Hg as [_ [Heq|[now ->]]]; [rewrite Heq in Hold; by left|]. left. cbn in Hold, Hop.
    destruct (g_sweep_expired now s) as [n s'] eqn:Hsw. destruct Hop as [Hw Hnow].
    apply g_sweep_spec in Hsw as (_ & _ & Hrec); [|done..]. cbn in Hold. rewrite Hrec in Hold.
    by apply elem_of_list_filter_bool in Hold as [_ ?].
Qed.

(** The two appends of a join reply, and what came after them. *)
Definition join_reply (g : GroupId) (joiner owner : AgentId) (welcome commit : bytes) (now1 now2 : N)
    (rest : list LogOp) : list LogOp :=
  LAppend g JoinResult (Some joiner) welcome owner now1 ::
  LAppend g Commit None commit owner now2 :: rest.

(** Another member never sees the number right after its cursor. *)
Lemma fetched_beyond_hole (s : L) g joiner owner member welcome commit now1 now2 rest seq :
  let ops := join_reply g joiner owner welcome commit now1 now2 rest in
  g_wf s -> 0 < g_next g s -> (forall g', g_next g' s + len ops <= i64_max) ->
  Forall (log_timed (g_window s)) ops ->
  (g_append g JoinResult (Some joiner) welcome owner now1 s).1 = Ok seq -> member <> joiner ->
  Forall (fun x => g_next g s + 1 <= cr_seq x)
    (member_fetch member g (g_next g s - 1) (foldl log_step s ops)).
Proof.
  intros ops Hwf Hpos Hn Hall Hok Hne. unfold member_fetch. rewrite !Forall_fmap.
  apply Forall_forall. intros rec [Hvis Hrec]%elem_of_list_filter_bool. cbn.
  destruct (log_run_records ops s g rec Hwf Hn Hall) as [Hwf' Hin].
  rewrite g_fetch_spec in Hrec; [|done|specialize (Hn g); lia].
  apply elem_of_list_filter_bool in Hrec as [Hsince%N.ltb_lt Hrec].
  destruct (Hin Hrec) as [Hold|Hadd].
  { destruct (g_seqs s g Hwf) as [_ Hlt]. rewrite Forall_forall in Hlt.
    specialize (Hlt rec Hold). lia. }
  destruct (added_seqs ops s g Hwf Hn Hall) as [_ Hseqs].
  assert (exists tl, added g s ops =
    Build_StoredLogRecord seq JoinResult (Some joiner) welcome (Some owner) now1 :: tl) as [tl Heq].
  { eexists. unfold ops, join_reply. cbn [added]. unfold adds at 1.
    rewrite Hok, decide_True by done. done. }
  rewrite Heq in Hadd, Hseqs. apply elem_of_cons in Hadd as [->|Htl].
  { unfold log_visible in Hvis. cbn [lr_recipient] in Hvis.
    apply orb_true_iff in Hvis as [Hv|Hv]; apply bool_decide_eq_true in Hv; congruence. }
  assert (lr_seq rec ∈ range (g_next g s + 1) (g_next g (foldl log_step s ops))) as Hr;
    [|apply elem_of_range in Hr; lia].
  rewrite fmap_cons in Hseqs. clear Hwf' Hin Hrec Heq.
  generalize dependent (g_next g (foldl log_step s ops)). intros n' Hseqs.
  destruct (N.lt_ge_cases (g_next g s) n') as [Hlt|Hge].
  - rewrite (range_cons (g_next g s)) in Hseqs by done. injection Hseqs as _ Htail.
    rewrite <- Htail. by apply list_elem_of_fmap_2.
  - unfold range in Hseqs. replace (n' - g_next g s) with 0 in Hseqs by lia.
    done.
Qed.

(** What depositing an intent does to the log. *)
Definition intent_op (owner : AgentId) (now : N) (i : GroupLogIntent) : LogOp :=
  LAppend (gi_group_id i) (gi_kind i) (gi_recipient i) (gi_payload i) owner now.

(** The owner's reply to a join puts a
    join-result for the joiner on the group's log and, with the next number, the
    commit for everyone else; the relay hands the join-result to nobody but the
    joiner.  A member that had the log up to there and then fetches, whatever was
    appended or swept since, finds a hole right after its cursor: the recovery
    step applies nothing, moves no cursor and stays reconnecting. *)
Theorem gated_join_result_blocks_recovery {W : Type} `{RecoverySeams W} (s : L) (g : GroupId)
    (joiner owner member : AgentId) (welcome commit : bytes) (now1 now2 : N) (rest : list LogOp)
    (seq : N) (gid : string) (te : N) (r : Recovery W) (state : GroupState) (w1 w2 : W)
    (intents : list GroupLogIntent) :
  let ops := zip_with (intent_op owner) [now1; now2] intents ++ rest in
  let cursor := g_next g s - 1 in
  let fetched := member_fetch member g cursor (foldl log_step s ops) in
  join_reply_log_intents gid joiner (Ok welcome) (Ok commit) = Ok intents ->
  hex_decode gid = Some g ->
  g_wf s -> 0 < g_next g s -> (forall g', g_next g' s + len ops <= i64_max) ->
  Forall (log_timed (g_window s)) ops ->
  (g_append g JoinResult (Some joiner) welcome owner now1 s).1 = Ok seq -> member <> joiner ->
  cursor_of gid r = cursor -> probe_group gid (rv_world r) = (Ok state, w1) ->
  is_keyed state = true -> gst_epoch state < te ->
  fetch_since gid cursor w1 = (Ok fetched, w2) -> fetched <> [] ->
  recover_once gid (Some te) r =
    (Ok StillReconnecting,
     set_cursor gid cursor (with_world w2 (with_status (set_reconnecting gid) (with_world w1 r)))).
Proof.
  intros ops cursor fetched Hint Hgid Hwf Hpos Hn Hall Hok Hne Hcur Hp Hk Hte Hf Hnil.
  assert (ops = join_reply g joiner owner welcome commit now1 now2 rest) as Hops.
  { unfold join_reply_log_intents in Hint. rewrite Hgid in Hint.
    destruct (negb (len g =? 32)); [done|]. by injection Hint as <-. }
  rewrite Hops in Hn, Hall. clearbody ops. subst ops.
  pose proof (fetched_beyond_hole s g joiner owner member welcome commit now1 now2 rest seq
    Hwf Hpos Hn Hall Hok Hne) as Hb. fold cursor fetched in Hb.
  unfold recover_once. rewrite Hp, Hk.
  destruct (N.leb_spec te (gst_epoch state)); [lia|]. unfold MAX_PASSES. cbn [recover_passes].
  change (cursor_of gid (with_status (set_reconnecting gid) (with_world w1 r))) with (cursor_of gid r).
  rewrite Hcur. cbn [rv_world with_status with_world]. rewrite Hf.
  destruct fetched as [|x xs]; [done|]. apply Forall_cons in Hb as [Hx _].
  unfold apply_records_in_order. cbn [apply_loop].
  assert (g_next g s <= i64_max) by (specialize (Hn g); lia).
  unfold wrapping_add. rewrite N.mod_small by (unfold cursor, i64_max, u64_max in *; lia).
  destruct (N.leb_spec (cr_seq x) cursor); [unfold cursor in *; lia|].
  rewrite (proj2 (N.ltb_lt (cursor + 1) (cr_seq x))) by (unfold cursor in *; lia).
  done.
Qed.
End blocked.

(** A group shown as reconnecting is passed over by every watchdog pass. *)
Lemma watchdog_skips_reconnecting `{!HashIter string Conversation} now m r g :
  status_get g m = Reconnecting -> g ∉ watchdog_triggers now m r.
Proof.
  intros Hs [Hn _]%elem_of_list_filter_bool. by rewrite bool_decide_eq_true_2 in Hn.
Qed.

(** ** Witnesses *)

(** A relay log as the world: fetches read it, records apply, the group is keyed
    at epoch 0. *)
Definition watcher : AgentId := repeat 9 32.
#[local] Existing Instance demo_base64.
#[local] Instance demo_seams : RecoverySeams RamGroupLog := {
  fetch_since _ since w := (Ok (member_fetch watcher (repeat 1 32) since w), w);
  apply_record _ _ w := (Ok Applied, w);
  probe_group _ w := (Ok {| gst_keyed := true; gst_in_roster := true; gst_epoch := 0 |}, w);
  recover_cold _ w := (Ok false, w);
}.
Definition demo_gid : GroupId := repeat 1 32.
Definition demo_gid_hex : string := hex_encode demo_gid.
Definition empty_log : RamGroupLog := log_new 100 4 1000.
Definition demo_intents : list GroupLogIntent :=
  [Build_GroupLogIntent demo_gid JoinResult (Some demo_agent) [5];
   Build_GroupLogIntent demo_gid Commit None [6]].
Definition replied_log : RamGroupLog :=
  foldl log_step empty_log (zip_with (intent_op demo_agent) [200; 201] demo_intents).
Definition demo_recovery : Recovery RamGroupLog := mkRecovery (mkStatus ∅ []) ∅ replied_log.

Lemma gated_join_result_blocks_recovery_witness :
  (recover_once demo_gid_hex (Some 1) demo_recovery).1 = Ok StillReconnecting /\
  g_len replied_log = 2.
Proof.
  split; [|reflexivity].
  rewrite (gated_join_result_blocks_recovery empty_log demo_gid demo_agent demo_agent watcher [5] [6]
    200 201 [] 1 demo_gid_hex 1 demo_recovery
    {| gst_keyed := true; gst_in_roster := true; gst_epoch := 0 |} replied_log replied_log demo_intents);
    try reflexivity.
  - by apply log_wf_new.
  - intros g'. unfold g_next. cbn. unfold ram_next. cbn. by rewrite lookup_empty.
  - repeat constructor; try (by vm_compute); by intros a [= <-].
  - by vm_compute.
  - by vm_compute.
Defined.

Definition demo_record (n : N) : CommitRecord :=
  {| cr_seq := n; cr_kind := Commit; cr_payload_b64 := ""; cr_author_agent_id_hex := None |}.

Lemma recovery_applies_contiguously_witness :
  exists batch, cr_seq <$> batch = range 3 (3 + len batch) /\
    Forall (fun r => cr_seq r <> 3 + len batch) (demo_record <$> [2; 3; 4; 7]).
Proof.
  destruct (recovery_applies_contiguously "01" 2 (demo_record <$> [2; 3; 4; 7]) empty_log)
    as (batch & _ & Hs & Hm & _).
  - reflexivity.
  - repeat constructor.
  - repeat constructor.
  - by exists batch.
Defined.
