(* ===== verification/Outbound.v ===== *)
(** * Building the envelopes of a conversation

    Models [crates/fetchit-chat/src/conversation/outbound.rs] and the sealing half
    of [chat_crypto.rs]: the welcome, message and receipt envelopes a device sends,
    one per recipient device.  ML-KEM encapsulation, ChaCha20-Poly1305 sealing, the
    JSON printer and the agent's signer are parameters; what a build draws from the
    random source and the clock for the [i]-th recipient is an argument.  The
    theorems compose it with [Inbound]: what is built here is what the other side
    dispatches. *)
From stdpp Require Import pretty.
From S2P Require Import Prelude SendState Attachment Bubble OutboxStore Overlay SeqGap.
From S2P Require Import RelayProto RelayAuth Transit TransitSqlite PairRecord.
From S2P Require Import Conversation ConvRegistry ContactCard Inbound.

Definition WIRE_VERSION : N := 3.
Definition KEM_PUBLIC_KEY_LEN : N := 1184.

(** Encapsulation to a public key (with the randomness it draws) and sealing (key,
    nonce, plaintext, associated data). *)
Class ChatSeal := {
  mlkem_encapsulate : bytes -> bytes -> result (bytes * bytes) string;
  chacha_seal : bytes -> bytes -> bytes -> bytes -> result bytes string;
}.

(** [serde_json::to_vec] at the three payload types. *)
Class PayloadPrint := {
  print_welcome : WelcomePayload -> result bytes string;
  print_message : MessagePayload -> result bytes string;
  print_receipt : DeliveryReceiptPayload -> result bytes string;
}.

(** The signer an agent's envelopes are signed by: its key, and [sign]. *)
Class AgentSigner := {
  signer_public_key : bytes;
  signer_sign : bytes -> result bytes string;
}.

(** What is drawn for one envelope. *)
Record Draw := { dr_nonce : bytes; dr_seed : bytes; dr_now : N }.

Record OutboundEnvelope := mkOut { oe_recipient : AgentId; oe_envelope : TransitEnvelope }.

Section build.
  Context `{Base64, EnvelopeCodec, ChatCipher, ChatSeal, PayloadPrint, AgentSigner}.

Definition kem_encapsulate (recipient_kem_pub seed : bytes) : result (bytes * bytes) ChatError :=
  if negb (len recipient_kem_pub =? KEM_PUBLIC_KEY_LEN)
  then Err (Invalid ("kem pub key wrong length: " +:+ pretty (len recipient_kem_pub)))
  else match mlkem_encapsulate recipient_kem_pub seed with
       | Ok v => Ok v
       | Err e => Err (Invalid e)
       end.

Definition aead_seal (key nonce plaintext aad : bytes) : result bytes ChatError :=
  match chacha_seal key nonce plaintext aad with
  | Ok c => Ok c
  | Err e => Err (Invalid ("aead seal: " +:+ e))
  end.

(** [hex::decode_to_slice] into 32 bytes. *)
Definition decode_agent (what agent_hex : string) : result bytes ChatError :=
  match hex_decode agent_hex with
  | Some b => if len b =? 32 then Ok b else Err (Invalid what)
  | None => Err (Invalid what)
  end.

Definition to_invalid {A} (what : string) (r : result A string) : result A ChatError :=
  match r with Ok a => Ok a | Err e => Err (Invalid (what +:+ ": " +:+ e)) end.

Definition with_signature (sig : bytes) (e : TransitEnvelope) : TransitEnvelope :=
  {| e_version := e_version e; e_kind := e_kind e; e_group_id := e_group_id e;
     e_tenant_id := e_tenant_id e; e_sender_agent_id := e_sender_agent_id e;
     e_sender_machine_id := e_sender_machine_id e; e_timestamp_ms := e_timestamp_ms e;
     e_epoch := e_epoch e; e_ciphertext := e_ciphertext e; e_nonce := e_nonce e;
     e_kem_ciphertext := e_kem_ciphertext e; e_sender_signature := sig |}.

(** The common end of the three builders: sign the canonical bytes. *)
Definition sign_envelope (env : TransitEnvelope) : result TransitEnvelope ChatError :=
  let? canonical := canonical_envelope_bytes env in
  let? sig := to_invalid "envelope sign" (signer_sign (SIGN_DOMAIN_ENVELOPE ++ canonical)) in
  Ok (with_signature sig env).

Definition unsigned (kind : EnvelopeKind) (gid local machine : bytes) (now epoch : N)
    (ciphertext nonce kem_ct : bytes) : TransitEnvelope :=
  {| e_version := WIRE_VERSION; e_kind := kind; e_group_id := Some gid; e_tenant_id := None;
     e_sender_agent_id := local; e_sender_machine_id := machine; e_timestamp_ms := now;
     e_epoch := epoch; e_ciphertext := ciphertext; e_nonce := nonce; e_kem_ciphertext := kem_ct;
     e_sender_signature := [] |}.

(** One envelope per device, stopping at the first error. *)
Fixpoint build_each (one : MemberDevice -> Draw -> result OutboundEnvelope ChatError)
    (draws : nat -> Draw) (i : nat) (devices : list MemberDevice)
    : result (list OutboundEnvelope) ChatError :=
  match devices with
  | [] => Ok []
  | d :: rest =>
      let? o := one d (draws i) in
      let? out := build_each one draws (S i) rest in
      Ok (o :: out)
  end.

(** The local device says which key it signs with. *)
Definition attest_device (local_agent_hex pk_b64 : string) (d : MemberDevice) : MemberDevice :=
  if bool_decide (md_agent_id_hex d = local_agent_hex)
  then {| md_agent_id_hex := md_agent_id_hex d; md_kem_public_key_b64 := md_kem_public_key_b64 d;
          md_agent_public_key_b64 := Some pk_b64; md_added_at_epoch := md_added_at_epoch d;
          md_status := md_status d |}
  else d.
Definition attest_member (local_agent_hex pk_b64 : string) (m : Member) : Member :=
  {| mb_user_id_hex := mb_user_id_hex m;
     mb_devices := attest_device local_agent_hex pk_b64 <$> mb_devices m;
     mb_joined_at_epoch := mb_joined_at_epoch m |}.

Definition welcome_payload (conv : Conversation) (local_agent_hex : string) : WelcomePayload :=
  {| wp_group_id_hex := c_group_id_hex conv; wp_current_key_b64 := c_current_key_b64 conv;
     wp_epoch := c_current_epoch conv;
     wp_members := attest_member local_agent_hex (b64_encode signer_public_key) <$> c_members conv;
     wp_name := c_name conv |}.

Definition welcome_for (conv : Conversation) (payload gid local machine : bytes) (d : MemberDevice)
    (dr : Draw) : result OutboundEnvelope ChatError :=
  match b64_decode (md_kem_public_key_b64 d) with
  | None => Err (Invalid "device kem b64")
  | Some kem_pub =>
      if negb (len kem_pub =? KEM_PUBLIC_KEY_LEN) then Err (Invalid "device kem key length")
      else
        let? kem := kem_encapsulate kem_pub (dr_seed dr) in
        let aead_key := derive_aead_key kem.2 KDF_INFO_WELCOME in
        let? ciphertext := aead_seal aead_key (dr_nonce dr) payload
                             (message_aad gid (c_current_epoch conv)) in
        let? recipient := decode_agent "recipient agent_id hex" (md_agent_id_hex d) in
        let? env := sign_envelope (unsigned GroupChat gid local machine (dr_now dr)
                                     (c_current_epoch conv) ciphertext (dr_nonce dr) kem.1) in
        Ok (mkOut recipient env)
  end.

Definition build_welcome_outbox (conv : Conversation) (local_agent_hex : string) (machine : bytes)
    (draws : nat -> Draw) : result (list OutboundEnvelope) ChatError :=
  let? payload := to_invalid "welcome serialize" (print_welcome (welcome_payload conv local_agent_hex)) in
  let? gid := group_id_bytes conv in
  let? local := decode_agent "local agent_id hex" local_agent_hex in
  build_each (welcome_for conv payload gid local machine) draws 0
    (fanout_devices local_agent_hex conv).

Definition attachment_error (e : AttachmentError) : ChatError :=
  Invalid ("attachment: " +:+
    match e with
    | DisallowedMime m => "disallowed attachment mime: " +:+ m
    | ZeroDimension => "attachment has zero width or height"
    | InvalidBase64 => "attachment base64 is invalid"
    | TooLarge raw_len max =>
        "attachment too large: " +:+ pretty raw_len +:+ " raw bytes (max " +:+ pretty max +:+ ")"
    end).

Record MessageArgs := {
  ma_body : string;
  ma_sender_name : string;
  ma_message_id : string;
  ma_reply_to : option string;
  ma_attachment : option Attachment;
  ma_relays : option (list string);
  ma_hint_epoch_ms : option N;
}.

Definition message_payload (a : MessageArgs) (now : N) : MessagePayload :=
  {| mp_sender_name := Some (ma_sender_name a); mp_body := ma_body a; mp_ts_ms := now;
     mp_message_id := Some (ma_message_id a); mp_reply_to_message_id := ma_reply_to a;
     mp_attachment := ma_attachment a; mp_advertised_relays := ma_relays a;
     mp_hint_epoch_ms := ma_hint_epoch_ms a |}.

(** The message for one device, under the conversation's key. *)
Definition message_for (conv : Conversation)
    (payload key gid local machine : bytes) (now : N) (agent_hex : string) (dr : Draw)
    : result OutboundEnvelope ChatError :=
  let? ciphertext := aead_seal key (dr_nonce dr) payload (message_aad gid (c_current_epoch conv)) in
  let? recipient := decode_agent "recipient hex" agent_hex in
  let? env := sign_envelope (unsigned GroupChat gid local machine now (c_current_epoch conv) ciphertext
                               (dr_nonce dr) []) in
  Ok (mkOut recipient env).

Definition build_message_outbox (conv : Conversation) (a : MessageArgs) (local_agent_hex : string)
    (machine : bytes) (now : N) (draws : nat -> Draw) : result (list OutboundEnvelope) ChatError :=
  let? _ := match ma_attachment a with
            | Some att => match validate att with Ok _ => Ok tt | Err e => Err (attachment_error e) end
            | None => Ok tt
            end in
  let? payload := to_invalid "message serialize" (print_message (message_payload a now)) in
  let? key := current_key conv in
  let? gid := group_id_bytes conv in
  let? local := decode_agent "local agent_id hex" local_agent_hex in
  build_each (fun d => message_for conv payload key gid local machine now (md_agent_id_hex d))
    draws 0 (fanout_devices local_agent_hex conv).

Definition build_receipt_outbox (conv : Conversation) (message_id : string) (received_at_ms : N)
    (recipient_hex local_agent_hex : string) (machine : bytes) (dr : Draw)
    : result (list OutboundEnvelope) ChatError :=
  let? payload := to_invalid "receipt serialize"
                    (print_receipt {| drp_message_id := message_id; drp_received_at_ms := received_at_ms |}) in
  let? key := current_key conv in
  let? gid := group_id_bytes conv in
  let? local := decode_agent "local agent_id hex" local_agent_hex in
  let? recipient := decode_agent "recipient hex" recipient_hex in
  let? ciphertext := aead_seal key (dr_nonce dr) payload (message_aad gid (c_current_epoch conv)) in
  let? env := sign_envelope (unsigned DeliveryReceipt gid local machine (dr_now dr)
                               (c_current_epoch conv) ciphertext (dr_nonce dr) []) in
  Ok [mkOut recipient env].
End build.

(** ** What the primitives promise

    Opening inverts sealing, decapsulation inverts encapsulation for a matching key
    pair, the JSON parser inverts the printer, a signature the signer makes
    verifies under its key in the framing every agent signs in. *)
Class ChatLaws `{ChatCipher, ChatSeal, PayloadJson, PayloadPrint, AgentSigner, MlDsaBackend} := {
  open_seal : forall k n p a c, chacha_seal k n p a = Ok c -> chacha_open k n c a = Some p;
  kem_pair : bytes -> bytes -> Prop;
  decap_encap : forall pk sk seed ct ss, kem_pair pk sk -> mlkem_encapsulate pk seed = Ok (ct, ss) ->
    len ct = KEM_CIPHERTEXT_LEN /\ mlkem_decapsulate sk ct = Ok ss;
  parse_print_welcome : forall p b, print_welcome p = Ok b -> parse_welcome b = Ok p;
  parse_print_message : forall p b, print_message p = Ok b -> parse_message b = Ok p;
  parse_print_receipt : forall p b, print_receipt p = Ok b -> parse_receipt b = Ok p;
  verify_sign : forall m sig, signer_sign m = Ok sig ->
    pk_from_bytes signer_public_key = Ok tt /\ sig_from_bytes sig = Ok tt /\
    mldsa_verify signer_public_key (agent_sign_input m) sig = Ok true;
}.

Section round_trip.
  Context `{Base64, Sha256, MlDsaBackend, EnvelopeCodec, ChatCipher, ChatSeal, PayloadJson,
            PayloadPrint, AgentSigner, UrlParse, VaultIO} `{HB : !HashIter string OutboxBubble}.
  Context `{!ChatLaws}.

Lemma build_each_elem one draws i ds out o :
  build_each one draws i ds = Ok out -> o ∈ out -> exists d j, d ∈ ds /\ one d (draws j) = Ok o.
Proof.
  revert i out. induction ds as [|d ds IH]; intros i out Hb Ho; cbn in Hb.
  - injection Hb as <-. inversion Ho.
  - destruct (one d (draws i)) as [o1|e] eqn:E1; [|done].
    destruct (build_each one draws (S i) ds) as [out1|e] eqn:E2; [|done]. injection Hb as <-.
    apply elem_of_cons in Ho as [->|Ho]; [exists d, i; split; [left|done]|].
    destruct (IH _ _ E2 Ho) as (d' & j & ? & ?). exists d', j. split; [by right|done].
Qed.

Lemma decode_agent_hex what b :
  Forall (fun x => x < 256) b -> len b = 32 -> decode_agent what (hex_encode b) = Ok b.
Proof. intros Hb Hl. unfold decode_agent. rewrite hex_decode_encode by done. by rewrite Hl. Qed.

(** A signed envelope verifies under the signer's key. *)
Lemma sign_envelope_verifies env env' :
  sign_envelope env = Ok env' ->
  exists sig canonical, env' = with_signature sig env /\ canonical_envelope_bytes env' = Ok canonical /\
    ml_dsa_verify signer_public_key (envelope_sign_input canonical) sig = Ok tt.
Proof.
  unfold sign_envelope, to_invalid. destruct (canonical_envelope_bytes env) as [c|e] eqn:Hc; [|done].
  destruct (signer_sign _) as [sig|e] eqn:Hs; [|done]. intros [= <-]. exists sig, c.
  destruct (verify_sign _ _ Hs) as (Hpk & Hsig & Hv). split_and!; [done|done|].
  unfold ml_dsa_verify, envelope_sign_input. by rewrite Hpk, Hsig, Hv.
Qed.

Lemma verify_sender_signed env env' cs card :
  Forall (fun b => b < 256) signer_public_key ->
  sign_envelope env = Ok env' -> card_files cs !! sender_hex env = Some (CardOk card) ->
  cc_agent_public_key_b64 card = Some (b64_encode signer_public_key) ->
  verify_sender env' cs = Ok None.
Proof.
  intros Hb Hs Hc Hk. destruct (sign_envelope_verifies _ _ Hs) as (sig & c & -> & Hcan & Hv).
  unfold verify_sender. change (sender_hex (with_signature sig env)) with (sender_hex env).
  rewrite Hc, Hk, b64_decode_encode by done. rewrite Hcan.
  cbn [e_sender_signature with_signature]. by rewrite Hv.
Qed.

Lemma get_hit g r c :
  effective g r = Some c -> exists r1, get g r = (Ok (Some c), r1) /\ effective g r1 = Some c.
Proof.
  unfold effective, get, get_lookup, get_read. destruct (cache r !! g) as [c0|] eqn:Hc.
  - intros [= ->]. exists r. by rewrite Hc.
  - destruct (disk r !! g) as [[c0|]|]; [|done..]. intros [= ->]. eexists. split; [done|].
    cbn. by rewrite lookup_insert_eq.
Qed.

(** A fresh frame under the key its epoch selects is opened. *)
Lemma open_frame_fresh env gid io r c key pt :
  let g := hex_encode gid in
  effective g r = Some c -> key_for_epoch (e_epoch env) (io_now_key io) c = Ok (Some key) ->
  len (e_nonce env) = 12 -> e_nonce env ∉ default [] (c_seen_nonces c !! sender_hex env) ->
  io_nonce io = Ok tt ->
  chacha_open key (e_nonce env) (e_ciphertext env) (message_aad gid (e_epoch env)) = Some pt ->
  exists r', open_frame env gid g io r = (Ok (inr pt), r').
Proof.
  intros g Hc Hk Hl Hn Hio Ho. destruct (get_hit _ _ _ Hc) as (r1 & Hg & Hc1).
  unfold open_frame. rewrite Hg, Hk, Hl. cbn [negb N.eqb Pos.eqb].
  assert (exists r2, record_nonce g (sender_hex env) (e_nonce env) (io_nonce io) r1 = (Ok Recorded, r2))
    as [r2 ->].
  { unfold record_nonce, hydrate. rewrite Hio. unfold effective in Hc1.
    assert (check_and_record_nonce (sender_hex env) (e_nonce env) c
              = (false, (check_and_record_nonce (sender_hex env) (e_nonce env) c).2)) as Hck
      by (unfold check_and_record_nonce; by rewrite bool_decide_eq_false_2).
    destruct (cache r1 !! g) as [c0|]; [injection Hc1 as ->; rewrite Hck; by eexists|].
    destruct (disk r1 !! g) as [[c0|]|]; [|done..]. injection Hc1 as ->. rewrite Hck. by eexists. }
  unfold aead_open. rewrite Ho. by eexists.
Qed.

(** What building a message puts into each envelope. *)
Lemma message_built conv a local machine now draws out o :
  Forall (fun x => x < 256) local -> len local = 32 ->
  build_message_outbox conv a (hex_encode local) machine now draws = Ok out -> o ∈ out ->
  exists gid key payload ct dr,
    group_id_bytes conv = Ok gid /\ current_key conv = Ok key /\
    print_message (message_payload a now) = Ok payload /\
    (forall att, ma_attachment a = Some att -> is_ok (validate att) = true) /\
    chacha_seal key (dr_nonce dr) payload (message_aad gid (c_current_epoch conv)) = Ok ct /\
    sign_envelope (unsigned GroupChat gid local machine now (c_current_epoch conv) ct (dr_nonce dr) [])
      = Ok (oe_envelope o).
Proof.
  intros Hb Hl. unfold build_message_outbox, to_invalid.
  destruct (match ma_attachment a with Some att => _ | None => _ end) as [u|e] eqn:Hatt; [|done].
  destruct (print_message _) as [payload|e] eqn:Hp; [|done].
  destruct (current_key conv) as [key|e] eqn:Hk; [|done].
  destruct (group_id_bytes conv) as [gid|e] eqn:Hg; [|done].
  rewrite decode_agent_hex by done. intros Hbuild Ho.
  destruct (build_each_elem _ _ _ _ _ _ Hbuild Ho) as (d & j & _ & Hone).
  unfold message_for, aead_seal in Hone.
  destruct (chacha_seal _ _ _ _) as [ct|e] eqn:Hs; [|done].
  destruct (decode_agent _ _) as [rcp|e]; [|done].
  destruct (sign_envelope _) as [env|e] eqn:Hsign; [|done]. injection Hone as <-.
  exists gid, key, payload, ct, (draws j). split_and!; try done.
  intros att Ha. rewrite Ha in Hatt. by destruct (validate att).
Qed.

Lemma strip_valid p :
  (forall att, mp_attachment p = Some att -> is_ok (validate att) = true) -> strip_invalid p = p.
Proof.
  destruct p as [n b ts id re att rl he]; unfold strip_invalid; cbn. intros Hv.
  destruct att as [att|]; [|done]. by rewrite (Hv att eq_refl).
Qed.

(** A message for a recipient that can read it. *)
Lemma message_intact (conv : Conversation) (a : MessageArgs) (local machine gid key : bytes)
    (now : N) (draws : nat -> Draw) (out : list OutboundEnvelope) (o : OutboundEnvelope)
    (sk : bytes) (io : InboundIO) (st : Inbox) (c : Conversation) (card : StoredContactCard) :
  Forall (fun x => x < 256) local -> len local = 32 -> Forall (fun b => b < 256) signer_public_key ->
  build_message_outbox conv a (hex_encode local) machine now draws = Ok out -> o ∈ out ->
  group_id_bytes conv = Ok gid -> current_key conv = Ok key ->
  effective (hex_encode gid) (ib_registry st) = Some c ->
  key_for_epoch (c_current_epoch conv) (io_now_key io) c = Ok (Some key) ->
  len (e_nonce (oe_envelope o)) = 12 ->
  e_nonce (oe_envelope o) ∉ default [] (c_seen_nonces c !! hex_encode local) ->
  io_nonce io = Ok tt -> card_files (ib_contacts st) !! hex_encode local = Some (CardOk card) ->
  cc_agent_public_key_b64 card = Some (b64_encode signer_public_key) ->
  (dispatch_inbound_with_outbox (oe_envelope o) sk io st).1 =
    Ok (Message (hex_encode gid) (hex_encode local) (message_payload a now)).
Proof.
  intros Hb Hl Hpk Hbuild Ho Hg Hk Hc Hkey Hn Hfresh Hio Hcard Hck.
  destruct (message_built _ _ _ _ _ _ _ _ Hb Hl Hbuild Ho)
    as (gid' & key' & payload & ct & dr & Hg' & Hk' & Hp & Hatt & Hs & Hsign).
  assert (gid' = gid) as -> by congruence. assert (key' = key) as -> by congruence.
  destruct (sign_envelope_verifies _ _ Hsign) as (sig & can & Henv & _).
  pose proof (verify_sender_signed _ _ (ib_contacts st) card Hpk Hsign Hcard Hck) as Hv.
  destruct (open_frame_fresh (oe_envelope o) gid io (ib_registry st) c key payload) as [r' Hopen];
    rewrite ?Henv; try done.
  { by rewrite Henv in Hn. }
  { by rewrite Henv in Hfresh. }
  { apply open_seal. exact Hs. }
  unfold dispatch_inbound_with_outbox. rewrite Henv in *.
  cbn [e_group_id e_kind e_kem_ciphertext with_signature unsigned].
  rewrite bool_decide_eq_true_2, Hv by done.
  unfold dispatch_message. rewrite Hopen, (parse_print_message _ _ Hp), strip_valid; [done|].
  cbn. done.
Qed.
(** Every envelope [build_message_outbox] makes, from
    whichever device of the conversation to whichever other, is dispatched by a
    recipient as exactly the message that was sent (body, sender name, time, id,
    reply reference, attachment, relay hint), attributed to the sender, when the
    recipient has the sender's signing key on a card, holds under the envelope's
    epoch the key the sender sealed with, and has not seen the nonce. *)
Theorem message_delivered_intact (conv : Conversation) (a : MessageArgs) (local machine gid key : bytes)
    (now : N) (draws : nat -> Draw) (out : list OutboundEnvelope) (o : OutboundEnvelope)
    (sk : bytes) (io : InboundIO) (st : Inbox) (c : Conversation) (card : StoredContactCard) :
  Forall (fun x => x < 256) local -> len local = 32 -> Forall (fun b => b < 256) signer_public_key ->
  build_message_outbox conv a (hex_encode local) machine now draws = Ok out -> o ∈ out ->
  group_id_bytes conv = Ok gid -> current_key conv = Ok key ->
  effective (hex_encode gid) (ib_registry st) = Some c ->
  key_for_epoch (c_current_epoch conv) (io_now_key io) c = Ok (Some key) ->
  len (e_nonce (oe_envelope o)) = 12 ->
  e_nonce (oe_envelope o) ∉ default [] (c_seen_nonces c !! hex_encode local) ->
  io_nonce io = Ok tt -> card_files (ib_contacts st) !! hex_encode local = Some (CardOk card) ->
  cc_agent_public_key_b64 card = Some (b64_encode signer_public_key) ->
  (dispatch_inbound_with_outbox (oe_envelope o) sk io st).1 =
    Ok (Message (hex_encode gid) (hex_encode local) (message_payload a now)).
Proof. exact (message_intact conv a local machine gid key now draws out o sk io st c card). Qed.

(** *** First contact *)

Lemma welcome_built conv local machine draws out o :
  Forall (fun x => x < 256) local -> len local = 32 ->
  build_welcome_outbox conv (hex_encode local) machine draws = Ok out -> o ∈ out ->
  exists gid payload d dr kem_pub kct ss ct,
    group_id_bytes conv = Ok gid /\ print_welcome (welcome_payload conv (hex_encode local)) = Ok payload /\
    d ∈ fanout_devices (hex_encode local) conv /\ b64_decode (md_kem_public_key_b64 d) = Some kem_pub /\
    mlkem_encapsulate kem_pub (dr_seed dr) = Ok (kct, ss) /\
    chacha_seal (hkdf_sha256 ss KDF_INFO_WELCOME) (dr_nonce dr) payload
      (message_aad gid (c_current_epoch conv)) = Ok ct /\
    decode_agent "recipient agent_id hex" (md_agent_id_hex d) = Ok (oe_recipient o) /\
    sign_envelope (unsigned GroupChat gid local machine (dr_now dr) (c_current_epoch conv) ct
                     (dr_nonce dr) kct) = Ok (oe_envelope o).
Proof.
  intros Hb Hl. unfold build_welcome_outbox, to_invalid.
  destruct (print_welcome _) as [payload|e] eqn:Hp; [|done].
  destruct (group_id_bytes conv) as [gid|e] eqn:Hg; [|done].
  rewrite decode_agent_hex by done. intros Hbuild Ho.
  destruct (build_each_elem _ _ _ _ _ _ Hbuild Ho) as (d & j & Hd & Hone). unfold welcome_for in Hone.
  destruct (b64_decode _) as [kem_pub|] eqn:Hkp; [|done].
  destruct (negb _) eqn:Hlen; [done|]. unfold kem_encapsulate, aead_seal, derive_aead_key in Hone.
  rewrite Hlen in Hone. destruct (mlkem_encapsulate _ _) as [[kct ss]|e] eqn:Hk; [|done]. cbn [fst snd] in Hone.
  destruct (chacha_seal _ _ _ _) as [ct|e] eqn:Hs; [|done].
  destruct (decode_agent _ _) as [rcp|e] eqn:Hr; [|done].
  destruct (sign_envelope _) as [env|e] eqn:Hsign; [|done]. injection Hone as <-.
  by exists gid, payload, d, (draws j), kem_pub, kct, ss, ct.
Qed.

Lemma find_attested h pk ms :
  List.find (fun d => bool_decide (md_agent_id_hex d = h))
    (List.concat (mb_devices <$> (attest_member h pk <$> ms))) =
  attest_device h pk <$> List.find (fun d => bool_decide (md_agent_id_hex d = h))
    (List.concat (mb_devices <$> ms)).
Proof.
  assert (forall l, List.find (fun d => bool_decide (md_agent_id_hex d = h)) (attest_device h pk <$> l) =
    attest_device h pk <$> List.find (fun d => bool_decide (md_agent_id_hex d = h)) l) as Hl.
  { intros l. induction l as [|d l IH]; [done|]. cbn.
    assert (md_agent_id_hex (attest_device h pk d) = md_agent_id_hex d) as -> by (unfold attest_device; by case_bool_decide).
    by case_bool_decide. }
  rewrite <- Hl. f_equal. induction ms as [|m ms IH]; [done|]. cbn. by rewrite IH, fmap_app.
Qed.

(** The recipient of a welcome for it decrypts the payload and accepts its sender. *)
Lemma welcome_verifies conv local machine gid key draws out o sk d0 :
  Forall (fun x => x < 256) local -> len local = 32 -> Forall (fun b => b < 256) signer_public_key ->
  derive_agent_id signer_public_key = local -> current_key conv = Ok key ->
  group_id_bytes conv = Ok gid ->
  List.find (fun d => bool_decide (md_agent_id_hex d = hex_encode local)) (conv_devices conv) = Some d0 ->
  build_welcome_outbox conv (hex_encode local) machine draws = Ok out -> o ∈ out ->
  (forall d pk, d ∈ conv_devices conv -> decode_agent "recipient agent_id hex" (md_agent_id_hex d) = Ok (oe_recipient o) ->
     b64_decode (md_kem_public_key_b64 d) = Some pk -> kem_pair pk sk) ->
  len sk = KEM_SECRET_KEY_LEN -> len (e_nonce (oe_envelope o)) = 12 ->
  e_group_id (oe_envelope o) = Some gid /\ e_kind (oe_envelope o) = GroupChat /\
  e_kem_ciphertext (oe_envelope o) <> [] /\ sender_hex (oe_envelope o) = hex_encode local /\
  decrypt_and_verify_welcome (oe_envelope o) sk gid =
    Ok (inl {| wv_payload := welcome_payload conv (hex_encode local);
               wv_sender_agent_hex := hex_encode local;
               wv_sender_pk_b64 := b64_encode signer_public_key;
               wv_sender_kem_pub_b64 := md_kem_public_key_b64 d0 |}).
Proof.
  intros Hb Hl Hpkb Hid Hkey Hg Hd0 Hbuild Ho Hpair Hsk Hn.
  destruct (welcome_built _ _ _ _ _ _ Hb Hl Hbuild Ho)
    as (gid' & payload & d & dr & kem_pub & kct & ss & ct & Hg' & Hp & Hd & Hkp & Hk & Hs & Hr & Hsign).
  assert (gid' = gid) as -> by congruence.
  destruct (sign_envelope_verifies _ _ Hsign) as (sig & can & Henv & Hcan & Hv).
  apply elem_of_list_filter_bool in Hd as [_ Hd].
  destruct (decap_encap kem_pub sk (dr_seed dr) kct ss (Hpair d kem_pub Hd Hr Hkp) Hk) as [Hct Hdec].
  rewrite Henv in *. split_and!; [done|done| |done|].
  { cbn. intros ->. by cbn in Hct. }
  unfold decrypt_and_verify_welcome, kem_decapsulate. cbn [e_kem_ciphertext with_signature unsigned].
  rewrite Hsk, Hct, Hdec, Hn. cbn [negb N.eqb Pos.eqb KEM_SECRET_KEY_LEN KEM_CIPHERTEXT_LEN].
  unfold aead_open, derive_aead_key. cbn [e_nonce e_ciphertext e_epoch with_signature unsigned].
  rewrite (open_seal _ _ _ _ _ Hs), (parse_print_welcome _ _ Hp).
  unfold check_welcome. cbn [wp_epoch welcome_payload e_epoch with_signature unsigned wp_current_key_b64 wp_members].
  rewrite N.eqb_refl. unfold current_key, decode_key in Hkey.
  destruct (b64_decode (c_current_key_b64 conv)) as [k|]; [|done].
  destruct (len k =? AEAD_KEY_LEN); [|done]. cbn [negb].
  change (sender_hex (with_signature sig _)) with (hex_encode local). rewrite find_attested.
  unfold conv_devices in Hd0. rewrite Hd0. cbn [fmap option_fmap option_map].
  assert (md_agent_id_hex d0 = hex_encode local) as Hh.
  { apply List.find_some in Hd0 as [_ Hx]. by apply bool_decide_eq_true in Hx. }
  unfold attest_device at 1. rewrite Hh, bool_decide_eq_true_2 by done.
  cbn [md_agent_public_key_b64]. rewrite b64_decode_encode by done. unfold bind_sender_key.
  cbn [e_sender_agent_id with_signature unsigned]. rewrite bool_decide_eq_true_2 by done. cbn [negb].
  rewrite Hcan. cbn [e_sender_signature with_signature]. rewrite Hv. cbn [is_ok negb].
  unfold attest_device. by rewrite bool_decide_eq_true_2.
Qed.
(** A stranger's welcome is installed as pending, with the stranger's card. *)
Lemma first_welcome_installs env sk gid io st v :
  e_group_id env = Some gid -> e_kind env = GroupChat -> e_kem_ciphertext env <> [] ->
  decrypt_and_verify_welcome env sk gid = Ok (inl v) ->
  get (hex_encode gid) (ib_registry st) = (Ok None, ib_registry st) ->
  card_files (ib_contacts st) !! wv_sender_agent_hex v = None ->
  io_save io = Ok tt -> io_card io = Ok tt ->
  let conv := from_welcome (wv_payload v) Pending (io_now_rekey io) in
  exists st', dispatch_inbound_with_outbox env sk io st = (Ok (WelcomedPending conv), st') /\
    effective (wp_group_id_hex (wv_payload v)) (ib_registry st') = Some conv /\
    card_files (ib_contacts st') !! wv_sender_agent_hex v = Some (CardOk (pending_card v)).
Proof.
  intros Hg Hkind Hkem Hv Hget Hcard Hsave Hcio conv.
  unfold dispatch_inbound_with_outbox. rewrite Hg, Hkind, bool_decide_eq_false_2 by done.
  unfold dispatch_welcome. rewrite Hv, Hcard. cbn [is_some].
  unfold install_or_rekey_conversation, save, save_seal. rewrite Hget, Hsave. cbn [fst snd].
  rewrite bool_decide_eq_true_2 by done. unfold card_save. rewrite Hcio. eexists. split; [done|].
  split; [|cbn; by rewrite lookup_insert_eq].
  unfold effective. cbn. by rewrite lookup_insert_eq.
Qed.

(** C9: a recipient that has never heard of the sender, has no
    card of it and no such conversation, installs the sender's welcome as a pending
    conversation with the sender's epoch, key and members, and from then on reads
    the sender's messages in it: the welcome carries all that the message path
    needs, the signing key on the stored card included. *)
Theorem first_contact_readable (conv : Conversation) (a : MessageArgs) (local machine gid key : bytes)
    (now : N) (draws draws' : nat -> Draw) (welcomes messages : list OutboundEnvelope)
    (w m : OutboundEnvelope) (sk : bytes) (io io' : InboundIO) (st : Inbox) (d0 : MemberDevice) :
  Forall (fun x => x < 256) local -> len local = 32 -> Forall (fun b => b < 256) signer_public_key ->
  derive_agent_id signer_public_key = local -> current_key conv = Ok key ->
  group_id_bytes conv = Ok gid -> c_group_id_hex conv = hex_encode gid ->
  List.find (fun d => bool_decide (md_agent_id_hex d = hex_encode local)) (conv_devices conv) = Some d0 ->
  build_welcome_outbox conv (hex_encode local) machine draws = Ok welcomes -> w ∈ welcomes ->
  build_message_outbox conv a (hex_encode local) machine now draws' = Ok messages -> m ∈ messages ->
  (forall d pk, d ∈ conv_devices conv ->
     decode_agent "recipient agent_id hex" (md_agent_id_hex d) = Ok (oe_recipient w) ->
     b64_decode (md_kem_public_key_b64 d) = Some pk -> kem_pair pk sk) ->
  len sk = KEM_SECRET_KEY_LEN -> len (e_nonce (oe_envelope w)) = 12 ->
  len (e_nonce (oe_envelope m)) = 12 ->
  get (hex_encode gid) (ib_registry st) = (Ok None, ib_registry st) ->
  card_files (ib_contacts st) !! hex_encode local = None ->
  io_save io = Ok tt -> io_card io = Ok tt -> io_nonce io' = Ok tt ->
  exists conv' st', dispatch_inbound_with_outbox (oe_envelope w) sk io st = (Ok (WelcomedPending conv'), st') /\
    c_current_epoch conv' = c_current_epoch conv /\ current_key conv' = Ok key /\
    c_members conv' = attest_member (hex_encode local) (b64_encode signer_public_key) <$> c_members conv /\
    (dispatch_inbound_with_outbox (oe_envelope m) sk io' st').1 =
      Ok (Message (hex_encode gid) (hex_encode local) (message_payload a now)).
Proof.
  intros Hb Hl Hpk Hid Hkey Hg Hgh Hd0 Hw Hwi Hm Hmi Hpair Hsk Hnw Hnm Hget Hcard Hsave Hcio Hnio.
  destruct (welcome_verifies _ _ _ _ _ _ _ _ _ _ Hb Hl Hpk Hid Hkey Hg Hd0 Hw Hwi Hpair Hsk Hnw)
    as (Eg & Ek & Ekem & _ & Hv).
  destruct (first_welcome_installs _ _ _ io st _ Eg Ek Ekem Hv Hget Hcard Hsave Hcio)
    as (st' & Hd & He & Hc).
  eexists _, st'. split; [exact Hd|]. split_and!; [done|done|done|].
  cbn [wv_payload wp_group_id_hex welcome_payload wv_sender_agent_hex] in He, Hc. rewrite Hgh in He.
  eapply (message_intact conv a local machine gid key now draws' messages m sk io' st');
    try done.
  - unfold key_for_epoch. match goal with |- (if ?b then _ else _) = _ =>
      replace b with true by (symmetry; apply N.eqb_refl) end.
    change (current_key (from_welcome _ _ _)) with (current_key conv). by rewrite Hkey.
  - change (c_seen_nonces (from_welcome _ _ _)) with (∅ : gmap string (list bytes)).
    rewrite lookup_empty. apply not_elem_of_nil.
Qed.
(** *** Receipts *)

(** The receipt a device builds for a message id reaches the message's sender as a
    receipt for that id. *)
Theorem receipt_delivered_intact (conv : Conversation) (id : string) (at_ms : N) (to : string)
    (local machine gid key : bytes) (dr : Draw) (out : list OutboundEnvelope) (o : OutboundEnvelope)
    (sk : bytes) (io : InboundIO) (st : Inbox) (c : Conversation) (card : StoredContactCard) :
  Forall (fun x => x < 256) local -> len local = 32 -> Forall (fun b => b < 256) signer_public_key ->
  build_receipt_outbox conv id at_ms to (hex_encode local) machine dr = Ok out -> o ∈ out ->
  group_id_bytes conv = Ok gid -> current_key conv = Ok key ->
  effective (hex_encode gid) (ib_registry st) = Some c ->
  key_for_epoch (c_current_epoch conv) (io_now_key io) c = Ok (Some key) ->
  len (dr_nonce dr) = 12 -> dr_nonce dr ∉ default [] (c_seen_nonces c !! hex_encode local) ->
  io_nonce io = Ok tt -> card_files (ib_contacts st) !! hex_encode local = Some (CardOk card) ->
  cc_agent_public_key_b64 card = Some (b64_encode signer_public_key) ->
  (dispatch_inbound_with_outbox (oe_envelope o) sk io st).1 =
    Ok (Receipt (hex_encode gid) (hex_encode local) id at_ms).
Proof.
  intros Hb Hl Hpk Hbuild Ho Hg Hk Hc Hkey Hn Hfresh Hio Hcard Hck.
  unfold build_receipt_outbox, to_invalid, aead_seal in Hbuild.
  destruct (print_receipt _) as [payload|e] eqn:Hp; [|done].
  rewrite Hk, Hg, decode_agent_hex in Hbuild by done.
  destruct (decode_agent _ to) as [rcp|e]; [|done].
  destruct (chacha_seal _ _ _ _) as [ct|e] eqn:Hs; [|done].
  destruct (sign_envelope _) as [env|e] eqn:Hsign; [|done]. injection Hbuild as <-.
  apply list_elem_of_singleton in Ho as ->. cbn [oe_envelope].
  destruct (sign_envelope_verifies _ _ Hsign) as (sig & can & Henv & _).
  pose proof (verify_sender_signed _ _ (ib_contacts st) card Hpk Hsign Hcard Hck) as Hv.
  destruct (open_frame_fresh env gid io (ib_registry st) c key payload) as [r' Hopen];
    rewrite ?Henv; try done.
  { apply open_seal. exact Hs. }
  unfold dispatch_inbound_with_outbox. rewrite Henv in *.
  cbn [e_group_id e_kind e_kem_ciphertext with_signature unsigned]. rewrite Hv.
  unfold dispatch_receipt. by rewrite Hopen, (parse_print_receipt _ _ Hp).
Qed.
End round_trip.

(** ** Witnesses *)

#[local] Instance MemberDevice_eq_dec : EqDecision MemberDevice.
Proof. solve_decision. Defined.
#[local] Instance Member_eq_dec : EqDecision Member.
Proof. solve_decision. Defined.
#[local] Instance WelcomePayload_eq_dec : EqDecision WelcomePayload.
Proof. solve_decision. Defined.
#[local] Instance MessagePayload_eq_dec : EqDecision MessagePayload.
Proof. solve_decision. Defined.

#[local] Existing Instance demo_base64.
#[local] Existing Instance demo_sha32.
#[local] Existing Instance demo_mldsa.
#[local] Existing Instance demo_url.
#[local] Instance out_demo_io : VaultIO := fun _ => true.

(** Alice ([1]) and Bob ([1; 1]); the ciphertext is the plaintext, the KEM
    ciphertext is the seed, a signature repeats the key. *)
Definition alice : bytes := derive_agent_id [1].
Definition bob : bytes := derive_agent_id [1; 1].
#[local] Instance alice_signer : AgentSigner :=
  {| signer_public_key := [1]; signer_sign := fun _ => Ok [1] |}.
#[local] Instance out_demo_cipher : ChatCipher :=
  {| mlkem_decapsulate := fun _ ct => Ok ct; hkdf_sha256 := fun s _ => s;
     chacha_open := fun _ _ ct _ => Some ct |}.
#[local] Instance out_demo_seal : ChatSeal :=
  {| mlkem_encapsulate := fun _ seed =>
       if len seed =? KEM_CIPHERTEXT_LEN then Ok (seed, seed) else Err "x"%string;
     chacha_seal := fun _ _ p _ => Ok p |}.

Definition party (agent : bytes) : Member :=
  {| mb_user_id_hex := None; mb_joined_at_epoch := 0;
     mb_devices := [{| md_agent_id_hex := hex_encode agent;
       md_kem_public_key_b64 := b64_encode (replicate 1184 0); md_agent_public_key_b64 := None;
       md_added_at_epoch := 0; md_status := Active |}] |}.
Definition talk : Conversation :=
  new_dm (party alice) (party bob) None (replicate 32 9) (demo_key 7) 5.
Definition hello : MessageArgs :=
  {| ma_body := "hi"; ma_sender_name := "Alice"; ma_message_id := "m1"; ma_reply_to := None;
     ma_attachment := None; ma_relays := None; ma_hint_epoch_ms := None |}.

#[local] Instance out_demo_json : PayloadJson :=
  {| parse_welcome := fun _ => Ok (welcome_payload talk (hex_encode alice));
     parse_message := fun _ => Ok (message_payload hello 8);
     parse_receipt := fun _ => Err "x"%string |}.
#[local] Instance out_demo_print : PayloadPrint :=
  {| print_welcome := fun p => if decide (p = welcome_payload talk (hex_encode alice)) then Ok [1]
                               else Err "x"%string;
     print_message := fun p => if decide (p = message_payload hello 8) then Ok [2] else Err "x"%string;
     print_receipt := fun _ => Err "x"%string |}.

Definition draw (n : N) : Draw :=
  {| dr_nonce := demo_nonce n; dr_seed := replicate 1088 n; dr_now := 8 |}.
Definition plain_envelope (n ct : N) (kct : bytes) : TransitEnvelope :=
  unsigned GroupChat (replicate 32 9) alice [] 8 0 [ct] (demo_nonce n) kct.
#[local] Instance out_demo_codec : EnvelopeCodec.
Proof.
  refine {| env_to_bytes e :=
              if decide (e = plain_envelope 3 1 (replicate 1088 3)) then Ok [1]
              else if decide (e = plain_envelope 4 2 []) then Ok [2] else Err "x"%string;
            env_from_bytes b :=
              match b with
              | 1 :: _ => Some (plain_envelope 3 1 (replicate 1088 3))
              | _ => Some (plain_envelope 4 2 [])
              end |}.
  intros e b. repeat case_decide; intros [= <-]; congruence.
Defined.

#[local] Instance out_demo_laws : ChatLaws.
Proof.
  unshelve refine {| kem_pair := fun _ _ => True |}; cbn; intros.
  - congruence.
  - destruct (N.eqb_spec (len seed) KEM_CIPHERTEXT_LEN); simplify_eq; done.
  - case_decide; congruence.
  - case_decide; congruence.
  - done.
  - simplify_eq. done.
Defined.

Definition empty_inbox : Inbox :=
  mkInbox (registry_empty ∅) (mkContacts "/d" ∅) None None.
Definition the_welcome : OutboundEnvelope :=
  mkOut bob (with_signature [1] (plain_envelope 3 1 (replicate 1088 3))).
Definition the_message : OutboundEnvelope := mkOut bob (with_signature [1] (plain_envelope 4 2 [])).

Lemma first_contact_readable_witness :
  exists conv' st', dispatch_inbound_with_outbox (oe_envelope the_welcome) demo_sk io_fine empty_inbox
      = (Ok (WelcomedPending conv'), st') /\
    (dispatch_inbound_with_outbox (oe_envelope the_message) demo_sk io_fine st').1 =
      Ok (Message (hex_encode (replicate 32 9)) (hex_encode alice) (message_payload hello 8)).
Proof.
  destruct (first_contact_readable talk hello alice [] (replicate 32 9) (demo_key 7) 8
    (fun _ => draw 3) (fun _ => draw 4) [the_welcome] [the_message] the_welcome the_message
    demo_sk io_fine io_fine empty_inbox
    {| md_agent_id_hex := hex_encode alice; md_kem_public_key_b64 := b64_encode (replicate 1184 0);
       md_agent_public_key_b64 := None; md_added_at_epoch := 0; md_status := Active |})
    as (conv' & st' & Hd & _ & _ & _ & Hm);
    [repeat constructor|by vm_compute|repeat constructor|by vm_compute|by vm_compute|by vm_compute
    |by vm_compute|by vm_compute|by vm_compute|left|by vm_compute|left|done|by vm_compute
    |by vm_compute|by vm_compute|by vm_compute|by vm_compute|by vm_compute|by vm_compute|by vm_compute|].
  by exists conv', st'.
Defined.

Definition bob_inbox : Inbox :=
  mkInbox (registry_empty {[hex_encode (replicate 32 9) := Ok talk]})
    (mkContacts "/d" {[hex_encode alice :=
       CardOk (mkCard (hex_encode alice) "" "" (Some (b64_encode [1])) None None None)]}) None None.

Lemma message_delivered_intact_witness :
  (dispatch_inbound_with_outbox (oe_envelope the_message) demo_sk io_fine bob_inbox).1 =
    Ok (Message (hex_encode (replicate 32 9)) (hex_encode alice) (message_payload hello 8)).
Proof.
  apply (message_delivered_intact talk hello alice [] (replicate 32 9) (demo_key 7) 8 (fun _ => draw 4)
    [the_message] the_message demo_sk io_fine bob_inbox talk
    (mkCard (hex_encode alice) "" "" (Some (b64_encode [1])) None None None));
    [repeat constructor|by vm_compute|repeat constructor|by vm_compute|left|by vm_compute|by vm_compute
    |by vm_compute|by vm_compute|by vm_compute|apply not_elem_of_nil|done|by vm_compute|done].
Defined.
