(* ===== verification/Publish.v ===== *)
(** * Publishing where an agent can be reached

    Models [crates/fetchit-chat/src/pair_record.rs] (the logical clock of an agent's
    records, building and signing them, posting them) and [publish_pair_record] of
    [client.rs].  The watermark file is the map it reads as, empty when it is missing
    or unreadable; whether writing it succeeds is an argument.  The theorems compose
    it with the relay's handlers of [PairIndex]. *)
From stdpp Require Import pretty.
From S2P Require Import Prelude SendState Attachment Bubble OutboxStore Overlay SeqGap.
From S2P Require Import RelayProto RelayAuth Transit TransitSqlite PairRecord RelayHttp DeviceFabric PairIndex.
From S2P Require Import Conversation ConvRegistry ContactCard Inbound Outbound.
Open Scope rust_scope.

(** [chat_identity.rs]. *)
Record FetchitIdentity := {
  fi_agent_id_hex : string;
  fi_user_id_hex : option string;
  fi_kem_public_key : bytes;
  fi_kem_secret_key : bytes;
}.

(** The 409 body. *)
Class WatermarkJson := parse_watermark : bytes -> result N string.

(** ** The logical clock *)

Abbreviation Watermarks := (gmap string N).

Definition next_issued_at_ms (self_agent_hex : string) (wall_clock_ms : N) (io : result unit ChatError)
    (marks : Watermarks) : result N ChatError * Watermarks :=
  let last := default 0 (marks !! self_agent_hex) in
  if last =? u64_max then (Err (Invalid "pair-record watermark is corrupt (u64::MAX)"), marks)
  else
    let next := N.max wall_clock_ms (saturating_add u64_max last 1) in
    if next =? u64_max
    then (Err (Invalid "pair-record watermark would reach u64::MAX (corrupt clock input)"), marks)
    else match io with
         | Err e => (Err e, marks)
         | Ok _ => (Ok next, <[self_agent_hex := next]> marks)
         end.

Definition current_watermark (self_agent_hex : string) (marks : Watermarks) : option N :=
  marks !! self_agent_hex.

Definition observe_external_watermark (self_agent_hex : string) (observed_ms : N)
    (io : result unit ChatError) (marks : Watermarks) : result unit ChatError * Watermarks :=
  if observed_ms =? u64_max then (Err (Invalid "pair-record watermark is corrupt (u64::MAX)"), marks)
  else
    let stored := default 0 (marks !! self_agent_hex) in
    if observed_ms <=? stored then (Ok tt, marks)
    else match io with
         | Err e => (Err e, marks)
         | Ok _ => (Ok tt, <[self_agent_hex := observed_ms]> marks)
         end.

(** ** Building the records *)

Section build.
  Context `{Base64, Sha256, MlDsaBackend, UrlParse, PairErrorDisplay, AgentSigner, UrlEdit}.

Definition relay_to_http (relay : string) : string :=
  match url_parse relay with
  | None => relay
  | Some url =>
      let mapped := if bool_decide (url_scheme url = "wss"%string) then Some "https"%string
                    else if bool_decide (url_scheme url = "ws"%string) then Some "http"%string
                    else None in
      match mapped with
      | None => relay
      | Some scheme => match url_set_scheme url scheme with
                       | None => relay
                       | Some url => url_to_string url
                       end
      end
  end.
Definition relays_to_http_for_signing (relays : list string) : list string := relay_to_http <$> relays.

Definition ensure_identity_binds_signer (agent_id_hex : string) (ml_dsa_pubkey : bytes)
    : result unit ChatError :=
  let derived := hex_encode (derive_agent_id ml_dsa_pubkey) in
  if bool_decide (derived = agent_id_hex) then Ok tt
  else Err (Invalid ("identity agent_id_hex does not match signer-derived id (derived " +:+ derived +:+ ")")).

Definition sign_record (what : string) (input : result bytes PairRecordError) : result bytes ChatError :=
  match input with
  | Err e => Err (Invalid (what +:+ ": " +:+ pair_error_to_string e))
  | Ok input => match signer_sign input with
                | Err e => Err (Invalid ("ml-dsa sign: " +:+ e))
                | Ok sig => Ok sig
                end
  end.

Definition build_signed_pair_record (identity : FetchitIdentity) (advertised_relays : list string)
    (issued_at_ms : N) (machine_id : string) : result PairRecordV1 ChatError :=
  let agent := fi_agent_id_hex identity in
  let? _ := ensure_identity_binds_signer agent signer_public_key in
  let relays := relays_to_http_for_signing advertised_relays in
  let? sig := sign_record "pair_signing_input"
                (pair_signing_input agent signer_public_key (fi_kem_public_key identity) relays issued_at_ms) in
  Ok {| pr_record_version := 1; pr_agent_id_hex := agent;
        pr_ml_dsa_pubkey_b64 := b64_encode signer_public_key;
        pr_kem_pubkey_b64 := b64_encode (fi_kem_public_key identity); pr_machine_id := machine_id;
        pr_advertised_relays := relays; pr_issued_at_ms := issued_at_ms; pr_sig_b64 := b64_encode sig |}.

Definition build_signed_forwarding_record (identity : FetchitIdentity) (moved_to_relays : list string)
    (issued_at_ms : N) : result ForwardingRecordV1 ChatError :=
  let agent := fi_agent_id_hex identity in
  let? _ := ensure_identity_binds_signer agent signer_public_key in
  let relays := relays_to_http_for_signing moved_to_relays in
  let? sig := sign_record "forwarding_signing_input" (forwarding_signing_input agent relays issued_at_ms) in
  Ok {| fr_agent_id_hex := agent; fr_moved_to_relays := relays; fr_issued_at_ms := issued_at_ms;
        fr_sig_b64 := b64_encode sig |}.
End build.

(** ** Posting them *)

Inductive PostOutcome := Accepted | WatermarkReject (current_issued_at_ms : N).
Inductive ForwardingOutcome := Written | SkippedNoPairRecord.
Inductive ForwardingAttempt := FwdWritten | FwdSkipped | FwdReject (current_issued_at_ms : N).

Section post.
  Context `{Base64, Sha256, MlDsaBackend, UrlParse, PairErrorDisplay, FabricJson, AgentSigner, UrlEdit, WatermarkJson}.
  Context {W : Type} `{IpDisplay, RelayNet, HS : !RelayServer W}.

Definition read_reject (resp : Response) : result N ChatError :=
  match read_body_capped resp MAX_RELAY_BODY_BYTES with
  | Err e => Err (Invalid (body_display e))
  | Ok raw => match parse_watermark raw with
              | Err e => Err (Invalid ("409 body decode: " +:+ e))
              | Ok n => Ok n
              end
  end.

Definition post_pair_record (relay : Url) (record : PairRecordV1) (w : W) : result PostOutcome ChatError * W :=
  match relay_request relay "v1/pair-record" (RelayHttp.PostPair record) w with
  | (Err e, w) => (Err (request_error e), w)
  | (Ok resp, w) =>
      if is_success resp then (Ok Accepted, w)
      else if rp_status resp =? 409
      then (let? n := read_reject resp in Ok (WatermarkReject n), w)
      else (Err (Invalid ("relay returned " +:+ pretty (rp_status resp) +:+ " publishing pair record")), w)
  end.

Definition post_forwarding_once (relay : Url) (relay_str : string) (record : ForwardingRecordV1) (w : W)
    : result ForwardingAttempt ChatError * W :=
  match relay_request relay "v1/forwarding" (RelayHttp.PostForwarding record) w with
  | (Err e, w) => (Err (request_error e), w)
  | (Ok resp, w) =>
      if is_success resp then (Ok FwdWritten, w)
      else if rp_status resp =? 409 then (let? n := read_reject resp in Ok (FwdReject n), w)
      else if rp_status resp =? 412 then (Ok FwdSkipped, w)
      else if rp_status resp =? 403
      then (Err (Invalid ("relay rejected forwarding record with 403 (bad sig) at " +:+ relay_str)), w)
      else (Err (Invalid ("relay returned " +:+ pretty (rp_status resp) +:+ " publishing forwarding record")), w)
  end.

(** The clock readings and file writes of one publish, with its one retry. *)
Record PublishIO := {
  pi_wall : N; pi_write : result unit ChatError;
  pi_observe : result unit ChatError;
  pi_wall2 : N; pi_write2 : result unit ChatError;
}.

Definition post_forwarding_record (relay : Url) (relay_str : string) (identity : FetchitIdentity)
    (moved_to_relays : list string) (io : PublishIO) (marks : Watermarks) (w : W)
    : result ForwardingOutcome ChatError * Watermarks * W :=
  let agent := fi_agent_id_hex identity in
  match next_issued_at_ms agent (pi_wall io) (pi_write io) marks with
  | (Err e, marks) => (Err e, marks, w)
  | (Ok issued, marks) =>
      match build_signed_forwarding_record identity moved_to_relays issued with
      | Err e => (Err e, marks, w)
      | Ok record =>
          match post_forwarding_once relay relay_str record w with
          | (Err e, w) => (Err e, marks, w)
          | (Ok FwdWritten, w) => (Ok Written, marks, w)
          | (Ok FwdSkipped, w) => (Ok SkippedNoPairRecord, marks, w)
          | (Ok (FwdReject current), w) =>
              match observe_external_watermark agent current (pi_observe io) marks with
              | (Err e, marks) => (Err e, marks, w)
              | (Ok _, marks) =>
                  match next_issued_at_ms agent (pi_wall2 io) (pi_write2 io) marks with
                  | (Err e, marks) => (Err e, marks, w)
                  | (Ok issued2, marks) =>
                      match build_signed_forwarding_record identity (fr_moved_to_relays record) issued2 with
                      | Err e => (Err e, marks, w)
                      | Ok record2 =>
                          match post_forwarding_once relay relay_str record2 w with
                          | (Err e, w) => (Err e, marks, w)
                          | (Ok FwdWritten, w) => (Ok Written, marks, w)
                          | (Ok FwdSkipped, w) => (Ok SkippedNoPairRecord, marks, w)
                          | (Ok (FwdReject _), w) =>
                              (Err (Invalid "forwarding record publish rejected twice by relay watermark guard"),
                               marks, w)
                          end
                      end
                  end
              end
          end
      end
  end.

(** [Client::publish_pair_record] of a client with chat state; the primary relay URL
    is the one it reads, [machine_id] what the daemon answers. *)
Definition publish_pair_record (identity : FetchitIdentity) (primary_relay_url : option string)
    (machine_id : string) (io : PublishIO) (marks : Watermarks) (fb : FabricStore) (w : W)
    : result unit ChatError * Watermarks * W :=
  match primary_relay_url with
  | None => (Ok tt, marks, w)
  | Some relay_str =>
      match url_parse relay_str with
      | None => (Err (Invalid "relay url"), marks, w)
      | Some relay =>
          let agent := fi_agent_id_hex identity in
          let republish marks w := (Ok tt, marks, (republish_cached_pair_record_v4 relay fb w).2) in
          match next_issued_at_ms agent (pi_wall io) (pi_write io) marks with
          | (Err e, marks) => (Err e, marks, w)
          | (Ok issued, marks) =>
              match build_signed_pair_record identity [relay_str] issued machine_id with
              | Err e => (Err e, marks, w)
              | Ok record =>
                  match post_pair_record relay record w with
                  | (Err e, w) => (Err e, marks, w)
                  | (Ok Accepted, w) => republish marks w
                  | (Ok (WatermarkReject current), w) =>
                      match observe_external_watermark agent current (pi_observe io) marks with
                      | (Err e, marks) => (Err e, marks, w)
                      | (Ok _, marks) =>
                          match next_issued_at_ms agent (pi_wall2 io) (pi_write2 io) marks with
                          | (Err e, marks) => (Err e, marks, w)
                          | (Ok issued2, marks) =>
                              match build_signed_pair_record identity [relay_str] issued2 machine_id with
                              | Err e => (Err e, marks, w)
                              | Ok record2 =>
                                  match post_pair_record relay record2 w with
                                  | (Err e, w) => (Err e, marks, w)
                                  | (Ok (WatermarkReject _), w) =>
                                      (Err (Invalid "pair-record publish rejected twice by relay watermark guard"),
                                       marks, w)
                                  | (Ok Accepted, w) => republish marks w
                                  end
                              end
                          end
                      end
                  end
              end
          end
      end
  end.
End post.

(** ** The clock over time *)

Inductive ClockOp :=
| ClockNext (wall : N) (io : result unit ChatError)
| ClockObserve (observed : N) (io : result unit ChatError).

(** The stamps handed out, in order, and the file after. *)
Fixpoint clock_run (agent : string) (ops : list ClockOp) (marks : Watermarks) : list N * Watermarks :=
  match ops with
  | [] => ([], marks)
  | ClockNext wall io :: ops =>
      let '(res, marks) := next_issued_at_ms agent wall io marks in
      let '(l, marks) := clock_run agent ops marks in
      (match res with Ok n => n :: l | Err _ => l end, marks)
  | ClockObserve observed io :: ops =>
      clock_run agent ops (observe_external_watermark agent observed io marks).2
  end.

Definition mark_of (agent : string) (marks : Watermarks) : N := default 0 (marks !! agent).

Lemma mark_insert (agent : string) (n : N) (marks : Watermarks) : mark_of agent (<[agent := n]> marks) = n.
Proof. unfold mark_of. by rewrite lookup_insert_eq. Qed.

Lemma next_cases agent wall io marks :
  wall <= u64_max ->
  let '(res, marks') := next_issued_at_ms agent wall io marks in
  match res with
  | Ok n => n = N.max wall (mark_of agent marks + 1) /\ mark_of agent marks < n < u64_max /\
            mark_of agent marks' = n
  | Err _ => marks' = marks
  end.
Proof.
  intros Hwall. unfold next_issued_at_ms. fold (mark_of agent marks).
  destruct (N.eqb_spec (mark_of agent marks) u64_max) as [|Hm]; [done|].
  destruct (N.eqb_spec (N.max wall (saturating_add u64_max (mark_of agent marks) 1)) u64_max) as [|Hn]; [done|].
  destruct io; [|done]. rewrite mark_insert.
  unfold saturating_add in *. unfold u64_max in *. lia.
Qed.

Lemma next_ok agent wall marks :
  mark_of agent marks < u64_max - 1 -> wall < u64_max ->
  next_issued_at_ms agent wall (Ok tt) marks =
    (Ok (N.max wall (mark_of agent marks + 1)), <[agent := N.max wall (mark_of agent marks + 1)]> marks).
Proof.
  intros Hm Hw. unfold next_issued_at_ms. fold (mark_of agent marks).
  replace (saturating_add u64_max (mark_of agent marks) 1) with (mark_of agent marks + 1)
    by (unfold saturating_add; lia).
  destruct (N.eqb_spec (mark_of agent marks) u64_max); [lia|].
  destruct (N.eqb_spec (N.max wall (mark_of agent marks + 1)) u64_max); [lia|done].
Qed.

Lemma watermark_observe_cases agent n io marks :
  let '(res, marks') := observe_external_watermark agent n io marks in
  mark_of agent marks <= mark_of agent marks' /\
  (res = Ok tt -> n < u64_max -> n <= mark_of agent marks').
Proof.
  unfold observe_external_watermark. fold (mark_of agent marks).
  destruct (N.eqb_spec n u64_max) as [|Hn]; [done|].
  destruct (N.leb_spec n (mark_of agent marks)); [done|]. destruct io; [|done].
  rewrite mark_insert. lia.
Qed.

(** Whatever the wall clock does (stops, jumps back, reads zero)
    and whatever watermarks relays report, the stamps an agent's records are issued
    with strictly increase, across restarts, and stay below the largest number: no
    relay that has one of its records refuses a later one as old. *)
Theorem stamps_increase (agent : string) (ops : list ClockOp) (marks : Watermarks) :
  Forall (fun op => match op with ClockNext wall _ => wall <= u64_max | ClockObserve _ _ => True end) ops ->
  StronglySorted N.lt (mark_of agent marks :: (clock_run agent ops marks).1) /\
  Forall (fun n => n < u64_max) (clock_run agent ops marks).1.
Proof.
  intros Hops. revert marks. induction Hops as [|[wall io|n io] ops Hop _ IH]; intros marks; cbn [clock_run].
  { split; repeat constructor. }
  - pose proof (next_cases agent wall io marks Hop) as Hn.
    destruct (next_issued_at_ms agent wall io marks) as [res marks1].
    specialize (IH marks1). destruct (clock_run agent ops marks1) as [l marks2]. cbn [fst] in *.
    destruct res as [n|e]; [|by subst].
    destruct Hn as (_ & [Hlt Hmax] & Hmark). rewrite Hmark in IH. destruct IH as [Hs Hf].
    split; [|by constructor]. constructor; [done|]. constructor; [done|].
    apply StronglySorted_inv in Hs as [_ Hall]. eapply Forall_impl; [exact Hall|]. cbn. lia.
  - pose proof (watermark_observe_cases agent n io marks) as Ho.
    destruct (observe_external_watermark agent n io marks) as [res marks1]. cbn [snd].
    destruct Ho as [Hle _]. destruct (IH marks1) as [Hs Hf]. split; [|done].
    apply StronglySorted_inv in Hs as [Hs Hall]. constructor; [done|].
    eapply Forall_impl; [exact Hall|]. cbn. lia.
Qed.

(** A clock at the last usable value stays there and hands out nothing. *)
Lemma exhausted_clock agent wall io marks :
  mark_of agent marks = u64_max - 1 -> wall <= u64_max ->
  is_ok (next_issued_at_ms agent wall io marks).1 = false /\ (next_issued_at_ms agent wall io marks).2 = marks.
Proof.
  intros Hm Hw. pose proof (next_cases agent wall io marks Hw) as Hn.
  destruct (next_issued_at_ms agent wall io marks) as [[n|e] marks']; [|done]. exfalso.
  destruct Hn as (-> & Hlt & _). unfold u64_max in *. lia.
Qed.

Section publishing.
  Context `{Base64, Sha256, MlDsaBackend, UrlParse, PairErrorDisplay, FabricJson, AgentSigner, UrlEdit, WatermarkJson}.
  Context {W : Type} `{IpDisplay, RelayNet, HS : !RelayServer W}.

(** One 409 answer that claims the stamp
    2^64 - 2 is stored as the agent's watermark (only 2^64 - 1 is refused), and from
    then on every publish, to any relay, fails before anything is sent: the agent
    never publishes a pair record again. *)
Theorem hostile_conflict_stops_publishing (identity : FetchitIdentity) (relay_str machine_id : string)
    (relay : Url) (io : PublishIO) (marks : Watermarks) (fb : FabricStore) (w w' : W) (record : PairRecordV1)
    (issued : N) (marks' : Watermarks) :
  url_parse relay_str = Some relay ->
  next_issued_at_ms (fi_agent_id_hex identity) (pi_wall io) (pi_write io) marks = (Ok issued, marks') ->
  issued < u64_max - 1 -> pi_wall io <= u64_max -> pi_wall2 io <= u64_max -> pi_observe io = Ok tt ->
  build_signed_pair_record identity [relay_str] issued machine_id = Ok record ->
  post_pair_record relay record w = (Ok (WatermarkReject (u64_max - 1)), w') ->
  let '(res, marks1, w1) := publish_pair_record identity (Some relay_str) machine_id io marks fb w in
  is_ok res = false /\
  forall other machine io' fb' w2, pi_wall io' <= u64_max ->
    exists e, publish_pair_record identity (Some other) machine io' marks1 fb' w2 = (Err e, marks1, w2).
Proof.
  intros Hurl Hnext Hlt Hw Hw2 Hobs Hbuild Hpost. unfold publish_pair_record at 1.
  rewrite Hurl, Hnext, Hbuild, Hpost.
  pose proof (next_cases (fi_agent_id_hex identity) (pi_wall io) (pi_write io) marks Hw) as Hn. rewrite Hnext in Hn.
  destruct Hn as (_ & _ & Hmark). unfold observe_external_watermark. fold (mark_of (fi_agent_id_hex identity) marks').
  replace (u64_max - 1 =? u64_max) with false by done.
  destruct (N.leb_spec (u64_max - 1) (mark_of (fi_agent_id_hex identity) marks')); [lia|]. rewrite Hobs.
  set (marks1 := <[fi_agent_id_hex identity := u64_max - 1]> marks').
  assert (mark_of (fi_agent_id_hex identity) marks1 = u64_max - 1) as Hm1.
  { apply mark_insert. }
  destruct (exhausted_clock _ (pi_wall2 io) (pi_write2 io) marks1 Hm1 Hw2) as [Hbad Hsame].
  destruct (next_issued_at_ms _ (pi_wall2 io) _ _) as [[n|e] marks2]; [done|]. cbn [snd] in Hsame. subst marks2.
  split; [done|]. intros other machine io' fb' w2 Hw'. unfold publish_pair_record.
  destruct (url_parse other) as [relay'|]; [|by eexists].
  destruct (exhausted_clock _ (pi_wall io') (pi_write io') marks1 Hm1 Hw') as [Hbad' Hsame'].
  destruct (next_issued_at_ms _ (pi_wall io') _ _) as [[n|e'] marks2]; [done|]. cbn [snd] in Hsame'. subst marks2.
  by eexists.
Qed.
End publishing.

(** ** Publishing to a relay *)

(** The JSON of a record and of a 409 body; with numbers of their width they read
    back, and the conflict is the few bytes of one number. *)
Class ReachPrint `{RecordJson, WatermarkJson} := {
  print_pair : PairRecordV1 -> bytes;
  print_user : PairRecordV4 -> bytes;
  print_conflict : N -> bytes;
  json_print_pair : forall r, pr_record_version r <= 255 -> pr_issued_at_ms r <= u64_max ->
    json_pair (print_pair r) = Some r;
  parse_print_conflict : forall n, n <= u64_max -> parse_watermark (print_conflict n) = Ok n;
  conflict_fits : forall n, n <= u64_max -> len (print_conflict n) <= MAX_RELAY_BODY_BYTES;
}.

(** A relay: the indices, and what its rate limiter answers the requests to come. *)
Record RelayWorld := mkWorld {
  rw_reach : Reach;
  rw_verdicts : list bool;
}.

#[local] Abbreviation held w agent := (index_get agent (pair_records (rw_reach w))).

Section to_relay.
  Context `{Base64, Sha256, MlDsaBackend, UrlParse, PairErrorDisplay, FabricJson, AgentSigner, UrlEdit}.
  Context `{HJ : RecordJson, HW : WatermarkJson, HP : !ReachPrint} `{IpDisplay, RelayNet}.

(** The response to what the handler returns. *)
Definition relay_answer (r : result unit PairRecordHttpError) : Response :=
  match r with
  | Ok _ => {| rp_status := 200; rp_content_length := None; rp_chunks := [] |}
  | Err (NonMonotonic n) =>
      {| rp_status := 409; rp_content_length := None; rp_chunks := [Ok (print_conflict n)] |}
  | Err e => {| rp_status := pair_status e; rp_content_length := None; rp_chunks := [] |}
  end.

(** A relay that runs the handlers of [PairIndex]. *)
Definition reach_server : RelayServer RelayWorld :=
  {| url_join := fun u _ => Ok u;
     serve := fun _ body w =>
       let allowed := default false (head (rw_verdicts w)) in
       let rest := tail (rw_verdicts w) in
       match body with
       | RelayHttp.PostPair r =>
           let '(res, st) := PairIndex.post_pair_record (print_pair r) allowed (rw_reach w) in
           (fun _ => Ok (relay_answer res), mkWorld st rest)
       | RelayHttp.PostPairV4 r =>
           let '(res, st) := PairIndex.post_pair_record_v4 (print_user r) allowed (rw_reach w) in
           (fun _ => Ok (relay_answer res), mkWorld st rest)
       | _ => (fun _ => Ok {| rp_status := 404; rp_content_length := None; rp_chunks := [] |}, w)
       end;
     local_relays_allowed := false |}.
#[local] Existing Instance reach_server.

(** The signer's signatures verify, in the framing every agent signs in. *)
Definition signer_ok : Prop :=
  Forall (fun b => b < 256) signer_public_key /\
  forall m sig, signer_sign m = Ok sig ->
    Forall (fun b => b < 256) sig /\ pk_from_bytes signer_public_key = Ok tt /\ sig_from_bytes sig = Ok tt /\
    mldsa_verify signer_public_key (agent_sign_input m) sig = Ok true.

Lemma built_record identity relays t machine r :
  signer_ok -> Forall (fun b => b < 256) (fi_kem_public_key identity) ->
  build_signed_pair_record identity relays t machine = Ok r ->
  verify_pair_record r = Ok tt /\ pr_agent_id_hex r = fi_agent_id_hex identity /\ pr_issued_at_ms r = t /\
  pr_advertised_relays r = relays_to_http_for_signing relays /\ pr_record_version r = 1.
Proof.
  intros [Hpk Hs] Hk. unfold build_signed_pair_record, ensure_identity_binds_signer.
  case_bool_decide as Hid; [|done]. unfold sign_record.
  destruct (pair_signing_input _ _ _ _ _) as [input|] eqn:Hi; [|done].
  destruct (signer_sign input) as [sig|] eqn:Hsig; [|done]. intros [= <-].
  destruct (Hs _ _ Hsig) as (Hsb & Hp & Hsp & Hv). split; [|done]. unfold verify_pair_record.
  cbn [pr_agent_id_hex pr_advertised_relays pr_ml_dsa_pubkey_b64 pr_kem_pubkey_b64 pr_sig_b64 pr_issued_at_ms].
  pose proof Hi as Hi'. unfold pair_signing_input in Hi'.
  destruct (validate_agent_id_hex _) as [[]|]; [|done]. destruct (validate_relays _) as [[]|]; [|done].
  unfold b64. rewrite !b64_decode_encode by done. rewrite bool_decide_eq_true_2 by done. cbn [negb].
  rewrite Hi. unfold check_signature. by rewrite Hp, Hsp, Hv.
Qed.

Lemma sent_once (resp : Response) : relay_send_with_retry (fun _ => Ok resp) = (Ok resp, 1, 0).
Proof. done. Qed.

Lemma mkReach_eta st : mkReach (pair_records st) (forwarding st) = st.
Proof. by destruct st. Qed.

Lemma refused_status e :
  (forall c, e <> NonMonotonic c) -> (forall c, e <> NonMonotonicRevision c) ->
  is_success (relay_answer (Err e)) = false /\ rp_status (relay_answer (Err e)) =? 409 = false.
Proof. intros Ha Hb. destruct e as [| |e| |c|c]; [done|done|by destruct e|done|by destruct (Ha c)|by destruct (Hb c)]. Qed.

(** What the client makes of the relay's answer to one post: the record is taken, the
    stamp of a record as new comes back, or the post is refused by a gate; the index
    changes in the first case only. *)
Lemma post_built relay r w :
  guard_relay_url_with relay false = Ok tt -> verify_pair_record r = Ok tt -> pr_record_version r = 1 ->
  pr_issued_at_ms r <= u64_max ->
  (forall old, held w (pr_agent_id_hex r) = Some old -> pr_issued_at_ms old <= u64_max) ->
  let '(res, w') := post_pair_record relay r w in
  rw_verdicts w' = tail (rw_verdicts w) /\
  match res with
  | Ok Accepted => held w' (pr_agent_id_hex r) = Some r /\
      (forall other, other <> pr_agent_id_hex r -> held w' other = held w other) /\
      (forall old, held w (pr_agent_id_hex r) = Some old -> pr_issued_at_ms old < pr_issued_at_ms r)
  | Ok (WatermarkReject n) => rw_reach w' = rw_reach w /\
      exists old, held w (pr_agent_id_hex r) = Some old /\ n = pr_issued_at_ms old /\ pr_issued_at_ms r <= n
  | Err _ => rw_reach w' = rw_reach w /\
      (head (rw_verdicts w) <> Some true \/ MAX_PAIR_RECORD_BODY_BYTES < len (print_pair r) \/
       is_ok (agent_id_from_hex (pr_agent_id_hex r)) = false)
  end.
Proof.
  intros Hg Hv Hver Ht Hold. unfold post_pair_record, relay_request. cbn [local_relays_allowed reach_server].
  rewrite Hg. cbn [url_join serve reach_server].
  pose proof (post_pair_no_revision (print_pair r) (default false (head (rw_verdicts w))) (rw_reach w)) as Hnr.
  destruct (post_pair_gated (print_pair r) (default false (head (rw_verdicts w))) (rw_reach w))
    as [(r' & (_ & Hj & _ & _ & _) & ->)|[Hng (e & Heq & He)]].
  - rewrite json_print_pair in Hj by lia. injection Hj as <-. rewrite sent_once. unfold index_get, put_if_newer in *.
    destruct (by_agent (pair_records (rw_reach w)) !! pr_agent_id_hex r) as [e|] eqn:Hh; cycle 1.
    { cbn. split; [done|]. rewrite lookup_insert_eq. split_and!; [done| |done].
      intros other Hne. by rewrite lookup_insert_ne. }
    destruct (N.leb_spec (pr_issued_at_ms r) (pr_issued_at_ms e)) as [Hle|Hgt]; cbn [map_err fst snd].
    + cbn [is_success relay_answer rp_status N.leb N.ltb N.compare Pos.compare Pos.compare_cont andb N.eqb Pos.eqb].
      unfold read_reject. specialize (Hold e eq_refl).
      rewrite (read_body_fits _ _ (print_conflict (pr_issued_at_ms e))); [|done|by apply conflict_fits|done].
      rewrite parse_print_conflict by done. cbn [rw_reach rw_verdicts]. rewrite mkReach_eta. eauto 10.
    + cbn. split; [done|]. rewrite lookup_insert_eq. split_and!; [done| |by intros old [= <-]].
      intros other Hne. by rewrite lookup_insert_ne.
  - rewrite Heq in *. rewrite sent_once.
    assert (head (rw_verdicts w) <> Some true \/ MAX_PAIR_RECORD_BODY_BYTES < len (print_pair r) \/
       is_ok (agent_id_from_hex (pr_agent_id_hex r)) = false) as Hwhy.
    { destruct (decide (head (rw_verdicts w) = Some true)) as [Hh|]; [right|by left].
      destruct (decide (len (print_pair r) <= MAX_PAIR_RECORD_BODY_BYTES)); [right|left; lia].
      destruct (is_ok _) eqn:Hok; [|done]. destruct (Hng r). rewrite Hh. split_and!; try done.
      apply json_print_pair; lia. }
    destruct (refused_status e) as [-> ->]; [done|intros c ->; by apply (Hnr c)|done].
Qed.

Lemma republish_keeps relay fb w :
  by_agent (pair_records (rw_reach (republish_cached_pair_record_v4 relay fb w).2)) =
  by_agent (pair_records (rw_reach w)).
Proof.
  unfold republish_cached_pair_record_v4. destruct (load_pair_record_v4 fb) as [[r|]|]; [|done..].
  unfold DeviceFabric.post_pair_record_v4, relay_request. cbn [local_relays_allowed reach_server].
  destruct (guard_relay_url_with relay false); [|done]. cbn [url_join serve reach_server].
  set (allowed := default _ _).
  assert (by_agent (pair_records (PairIndex.post_pair_record_v4 (print_user r) allowed (rw_reach w)).2) =
          by_agent (pair_records (rw_reach w))) as Hk.
  { destruct (post_user_gated (print_user r) allowed (rw_reach w)) as [(r' & _ & ->)|[_ (e & -> & _)]]; [|done].
    cbn. unfold put_if_newer_v4. destruct (by_user _ !! _); [|done]. by destruct (_ <=? _). }
  destruct (PairIndex.post_pair_record_v4 _ _ _) as [res st']. rewrite sent_once. cbn [snd] in Hk.
  destruct (is_success _); [exact Hk|]. destruct (_ =? 409); [|exact Hk].
  destruct (read_body_capped _ _); [|exact Hk]. destruct (parse_revision _); exact Hk.
Qed.

(** The stamp is handed out, or the clock or its file is what stopped it. *)
Lemma next_or_why agent wall io marks :
  wall <= u64_max ->
  let '(res, marks') := next_issued_at_ms agent wall io marks in
  match res with
  | Ok n => n < u64_max /\ mark_of agent marks' = n /\ mark_of agent marks < n
  | Err _ => is_ok io = false \/ u64_max - 1 <= mark_of agent marks \/ wall = u64_max
  end.
Proof.
  intros Hwall. unfold next_issued_at_ms. fold (mark_of agent marks).
  destruct (N.eqb_spec (mark_of agent marks) u64_max) as [|Hm]; [right; left; lia|].
  destruct (N.eqb_spec (N.max wall (saturating_add u64_max (mark_of agent marks) 1)) u64_max) as [Hn|Hn].
  { unfold saturating_add in Hn. right. destruct (decide (wall = u64_max)); [by right|left]. lia. }
  destruct io; [|by left]. rewrite mark_insert. unfold saturating_add in *. lia.
Qed.

Lemma observe_or_why agent n io marks :
  let '(res, marks') := observe_external_watermark agent n io marks in
  match res with
  | Ok _ => mark_of agent marks' = N.max n (mark_of agent marks)
  | Err _ => is_ok io = false \/ n = u64_max
  end.
Proof.
  unfold observe_external_watermark. fold (mark_of agent marks).
  destruct (N.eqb_spec n u64_max); [by right|]. destruct (N.leb_spec n (mark_of agent marks)); [lia|].
  destruct io; [|by left]. rewrite mark_insert. lia.
Qed.

(** What can keep a publish from succeeding at a relay it reaches. *)
Inductive Hindered (identity : FetchitIdentity) (relay_str machine : string) (io : PublishIO)
    (marks : Watermarks) (w : RelayWorld) : Prop :=
| hindered_limiter : head (rw_verdicts w) <> Some true \/ head (tail (rw_verdicts w)) <> Some true ->
    Hindered identity relay_str machine io marks w
| hindered_files : is_ok (pi_write io) && is_ok (pi_observe io) && is_ok (pi_write2 io) = false ->
    Hindered identity relay_str machine io marks w
| hindered_clock : u64_max - 1 <= mark_of (fi_agent_id_hex identity) marks \/
    pi_wall io = u64_max \/ pi_wall2 io = u64_max -> Hindered identity relay_str machine io marks w
| hindered_stamp old : held w (fi_agent_id_hex identity) = Some old -> u64_max - 1 <= pr_issued_at_ms old ->
    Hindered identity relay_str machine io marks w
| hindered_record t : t < u64_max ->
    (forall r, build_signed_pair_record identity [relay_str] t machine = Ok r ->
       MAX_PAIR_RECORD_BODY_BYTES < len (print_pair r) \/
       is_ok (agent_id_from_hex (fi_agent_id_hex identity)) = false) ->
    Hindered identity relay_str machine io marks w.

(** The relay has the agent's new record, and no other agent's record changed. *)
Definition renewed (identity : FetchitIdentity) (relay_str : string) (w w' : RelayWorld) : Prop :=
  (exists r, held w' (fi_agent_id_hex identity) = Some r /\ verify_pair_record r = Ok tt /\
     pr_advertised_relays r = relays_to_http_for_signing [relay_str] /\
     forall old, held w (fi_agent_id_hex identity) = Some old -> pr_issued_at_ms old < pr_issued_at_ms r) /\
  forall other, other <> fi_agent_id_hex identity -> held w' other = held w other.

(** A built record posted: the last step of either attempt. *)
Lemma attempt identity relay_str machine relay t r w :
  signer_ok -> Forall (fun b => b < 256) (fi_kem_public_key identity) -> guard_relay_url_with relay false = Ok tt ->
  t < u64_max -> (forall old, held w (fi_agent_id_hex identity) = Some old -> pr_issued_at_ms old <= u64_max) ->
  build_signed_pair_record identity [relay_str] t machine = Ok r ->
  let '(res, w') := post_pair_record relay r w in
  rw_verdicts w' = tail (rw_verdicts w) /\
  match res with
  | Ok Accepted => renewed identity relay_str w w'
  | Ok (WatermarkReject n) => rw_reach w' = rw_reach w /\
      exists old, held w (fi_agent_id_hex identity) = Some old /\ n = pr_issued_at_ms old /\ t <= n
  | Err _ => rw_reach w' = rw_reach w /\
      (head (rw_verdicts w) <> Some true \/
       forall r', build_signed_pair_record identity [relay_str] t machine = Ok r' ->
         MAX_PAIR_RECORD_BODY_BYTES < len (print_pair r') \/
         is_ok (agent_id_from_hex (fi_agent_id_hex identity)) = false)
  end.
Proof.
  intros Hs Hk Hg Ht Hold Hb. destruct (built_record _ _ _ _ _ Hs Hk Hb) as (Hv & Hi & Hst & Hrel & Hver).
  pose proof (post_built relay r w Hg Hv Hver) as Hp. rewrite Hi, Hst in Hp.
  specialize (Hp ltac:(lia) Hold). destruct (post_pair_record relay r w) as [[[|n]|e] w']; [| |].
  - destruct Hp as (Htl & Hnew & Hoth & Hlt). split; [done|]. split; [|done]. exists r. by rewrite Hst.
  - done.
  - destruct Hp as (Htl & Hsame & [Hlim|Hwhy]); split_and!; try done; [by left|right].
    intros r' Hb'. rewrite Hb in Hb'. by injection Hb' as <-.
Qed.

(** C11: a publish to a relay it can reach either succeeds, and the relay then holds a
    verified record of the agent that advertises the relay and is newer than what it
    had, other agents' records unchanged; or fails, with the relay's indices as they
    were, and then for one of the named causes: the rate limiter refused a post, a
    write of the stamp file failed, a clock or the stored stamp is at the end of its
    range, so is the stamp of the record the relay held, or no record that the relay
    takes can be built.  A record left by another device with a clock ahead is none of
    them. *)
Theorem publish_reaches_relay (identity : FetchitIdentity) (relay_str machine : string) (relay : Url)
    (io : PublishIO) (marks : Watermarks) (fb : FabricStore) (w : RelayWorld) :
  signer_ok -> Forall (fun b => b < 256) (fi_kem_public_key identity) ->
  url_parse relay_str = Some relay -> guard_relay_url_with relay false = Ok tt ->
  pi_wall io <= u64_max -> pi_wall2 io <= u64_max ->
  (forall old, held w (fi_agent_id_hex identity) = Some old -> pr_issued_at_ms old <= u64_max) ->
  let '(res, _, w') := publish_pair_record identity (Some relay_str) machine io marks fb w in
  (res = Ok tt /\ renewed identity relay_str w w') \/
  (is_ok res = false /\ rw_reach w' = rw_reach w /\ Hindered identity relay_str machine io marks w).
Proof.
  intros Hs Hk Hurl Hg Hw1 Hw2 Hold. unfold publish_pair_record. rewrite Hurl.
  assert (forall w' : RelayWorld, renewed identity relay_str w w' ->
    renewed identity relay_str w (republish_cached_pair_record_v4 relay fb w').2) as Hrep.
  { unfold renewed, index_get. intros w'. by rewrite republish_keeps. }
  pose proof (next_or_why (fi_agent_id_hex identity) (pi_wall io) (pi_write io) marks Hw1) as Hn.
  destruct (next_issued_at_ms _ (pi_wall io) _ _) as [[t1|e] marks1]; cycle 1.
  { right. split_and!; [done..|]. destruct Hn as [Hn|Hn]; [apply hindered_files; by rewrite Hn|apply hindered_clock; tauto]. }
  destruct Hn as (Ht1 & Hm1 & _).
  destruct (build_signed_pair_record identity [relay_str] t1 machine) as [r1|e] eqn:Hb1; cycle 1.
  { right. split_and!; [done..|]. apply (hindered_record _ _ _ _ _ _ t1 Ht1). by rewrite Hb1. }
  pose proof (attempt _ _ _ _ _ _ w Hs Hk Hg Ht1 Hold Hb1) as Ha.
  destruct (post_pair_record relay r1 w) as [[[|n]|e] w1].
  { left. split; [done|]. apply Hrep, Ha. }
  2: { right. destruct Ha as (_ & Hsame & [Hl|Hl]); split_and!; try done;
       [by apply hindered_limiter; left|by apply (hindered_record _ _ _ _ _ _ t1)]. }
  destruct Ha as (Htl & Hsame & old & Hheld & -> & Hle).
  pose proof (observe_or_why (fi_agent_id_hex identity) (pr_issued_at_ms old) (pi_observe io) marks1) as Ho.
  destruct (observe_external_watermark _ _ _ _) as [[[]|e] marks2]; cycle 1.
  { right. split_and!; [done..|]. destruct Ho as [Ho|Ho].
    - apply hindered_files. rewrite Ho. by destruct (is_ok (pi_write io)).
    - apply (hindered_stamp _ _ _ _ _ _ old Hheld). lia. }
  pose proof (next_or_why (fi_agent_id_hex identity) (pi_wall2 io) (pi_write2 io) marks2 Hw2) as Hn.
  destruct (next_issued_at_ms _ (pi_wall2 io) _ _) as [[t2|e] marks3]; cycle 1.
  { right. split_and!; [done..|]. destruct Hn as [Hn|[Hn|Hn]].
    - apply hindered_files. rewrite Hn. by rewrite andb_false_r.
    - apply (hindered_stamp _ _ _ _ _ _ old Hheld). lia.
    - apply hindered_clock. tauto. }
  destruct Hn as (Ht2 & _ & Hgt).
  destruct (build_signed_pair_record identity [relay_str] t2 machine) as [r2|e] eqn:Hb2; cycle 1.
  { right. split_and!; [done..|]. apply (hindered_record _ _ _ _ _ _ t2 Ht2). by rewrite Hb2. }
  assert (held w1 (fi_agent_id_hex identity) = held w (fi_agent_id_hex identity)) as Hh1 by by rewrite Hsame.
  pose proof (attempt identity relay_str machine relay t2 r2 w1 Hs Hk Hg Ht2) as Ha. rewrite Hh1 in Ha.
  specialize (Ha Hold Hb2). rewrite Htl in Ha. unfold renewed in Ha. rewrite Hsame in Ha.
  destruct (post_pair_record relay r2 w1) as [[[|n]|e] w2].
  - left. split; [done|]. apply Hrep, Ha.
  - exfalso. destruct Ha as (_ & _ & old' & Hh & -> & Hle'). rewrite Hheld in Hh. injection Hh as <-. lia.
  - right. destruct Ha as (_ & -> & [Hl|Hl]); split_and!; try done;
       [by apply hindered_limiter; right|by apply (hindered_record _ _ _ _ _ _ t2)].
Qed.
End to_relay.

(** ** Witnesses *)

#[local] Existing Instance demo_base64.
#[local] Existing Instance demo_url.
#[local] Existing Instance demo_sha32.
#[local] Existing Instance demo_mldsa.
#[local] Instance pub_display : PairErrorDisplay := fun _ => EmptyString.
#[local] Instance pub_json : FabricJson :=
  {| print_cert := fun _ => Ok []; print_v4 := fun _ => Ok []; parse_v4 := fun _ => Err "x"%string;
     parse_revision := fun _ => Err "x"%string |}.
#[local] Instance pub_signer : AgentSigner := {| signer_public_key := [1]; signer_sign := fun _ => Ok [1] |}.
#[local] Instance pub_edit : UrlEdit :=
  {| url_set_scheme := fun _ _ => None; url_set_host := fun _ _ => None; url_to_string := fun _ => EmptyString |}.
#[local] Instance pub_ip : IpDisplay :=
  {| v4_to_string := fun _ => EmptyString; v6_to_string := fun _ => EmptyString |}.
#[local] Instance pub_net : RelayNet :=
  {| url_host := fun _ => Some (HostV4 (mkV4 67 207 94 66)); url_port_or_known_default := fun _ => None;
     lookup_host := fun _ _ => Err "x"%string |}.
#[local] Instance pub_watermark : WatermarkJson := fun b => match b with [n] => Ok n | _ => Err "x"%string end.

Definition me : FetchitIdentity :=
  {| fi_agent_id_hex := demo_agent [1]; fi_user_id_hex := None; fi_kem_public_key := [8]; fi_kem_secret_key := [] |}.
Definition my_record (t : N) : PairRecordV1 :=
  {| pr_record_version := 1; pr_agent_id_hex := demo_agent [1]; pr_ml_dsa_pubkey_b64 := b64_encode [1];
     pr_kem_pubkey_b64 := b64_encode [8]; pr_machine_id := "m"; pr_advertised_relays := ["https://r"%string];
     pr_issued_at_ms := t; pr_sig_b64 := b64_encode [1] |}.
Definition some_io : PublishIO :=
  {| pi_wall := 100; pi_write := Ok tt; pi_observe := Ok tt; pi_wall2 := 101; pi_write2 := Ok tt |}.

Lemma stamps_increase_witness :
  (clock_run "a" [ClockNext 5 (Ok tt); ClockNext 0 (Ok tt); ClockObserve 90 (Ok tt); ClockNext 7 (Ok tt)] ∅).1
    = [5; 6; 91] /\
  StronglySorted N.lt (0 :: (clock_run "a" [ClockNext 5 (Ok tt); ClockNext 0 (Ok tt); ClockObserve 90 (Ok tt);
    ClockNext 7 (Ok tt)] ∅).1).
Proof.
  split; [by vm_compute|].
  refine (proj1 (stamps_increase "a" [ClockNext 5 (Ok tt); ClockNext 0 (Ok tt); ClockObserve 90 (Ok tt);
    ClockNext 7 (Ok tt)] ∅ _)). repeat constructor; by vm_compute.
Defined.

(** A relay that answers every post with the conflict. *)
Definition hostile : RelayServer unit :=
  {| url_join := fun u _ => Ok u;
     serve := fun _ _ _ => (fun _ => Ok {| rp_status := 409; rp_content_length := None;
                                          rp_chunks := [Ok [u64_max - 1]] |}, tt);
     local_relays_allowed := true |}.

Definition r_url : Url := Build_Url "https" (Some "h"%string) None "" None "" None None.
Lemma no_marks agent : mark_of agent ∅ = 0.
Proof. unfold mark_of. by rewrite lookup_empty. Qed.
Lemma first_stamp : next_issued_at_ms (fi_agent_id_hex me) 100 (Ok tt) ∅ = (Ok 100, <[fi_agent_id_hex me := 100]> ∅).
Proof. rewrite next_ok by (by rewrite ?no_marks). by rewrite no_marks. Qed.
Lemma my_record_built t : t = 100 -> build_signed_pair_record me ["https://r"%string] t "m" = Ok (my_record t).
Proof. intros ->. by vm_compute. Qed.
Lemma hostile_answer :
  post_pair_record (HS := hostile) r_url (my_record 100) tt = (Ok (WatermarkReject (u64_max - 1)), tt).
Proof. by vm_compute. Qed.

Lemma hostile_conflict_stops_publishing_witness :
  let '(_, marks1, _) := publish_pair_record (HS := hostile) me (Some "https://r"%string) "m" some_io ∅ no_files tt in
  exists e, publish_pair_record (HS := hostile) me (Some "https://s"%string) "m" some_io marks1 no_files tt
            = (Err e, marks1, tt).
Proof.
  pose proof (hostile_conflict_stops_publishing (HS := hostile) me "https://r" "m" r_url some_io ∅ no_files tt tt
    (my_record 100) 100 (<[fi_agent_id_hex me := 100]> ∅) eq_refl first_stamp) as Hh.
  specialize (Hh ltac:(done) ltac:(done) ltac:(done) eq_refl (my_record_built 100 eq_refl) hostile_answer).
  destruct (publish_pair_record (HS := hostile) me (Some "https://r"%string) _ _ _ _ _) as [[res marks1] w1].
  destruct Hh as [_ Hh]. by apply Hh.
Defined.

(** JSON of a record as one number, shorter for the record of the demo. *)
Definition record_tuple (r : PairRecordV1) : N * string * string * string * string * list string * N * string :=
  (pr_record_version r, pr_agent_id_hex r, pr_ml_dsa_pubkey_b64 r, pr_kem_pubkey_b64 r, pr_machine_id r,
   pr_advertised_relays r, pr_issued_at_ms r, pr_sig_b64 r).
Definition of_tuple (t : N * string * string * string * string * list string * N * string) : PairRecordV1 :=
  let '(v, a, m, k, mi, rs, t, s) := t in Build_PairRecordV1 v a m k mi rs t s.
#[local] Instance pub_records : RecordJson :=
  {| json_pair := fun b => match b with [Npos p] => of_tuple <$> decode p | [n; _] => Some (my_record n) | _ => None end;
     json_pair_v4 := fun _ => None; json_forwarding := fun _ => None |}.
#[local] Instance pub_print : ReachPrint.
Proof.
  refine {| print_pair := fun r => if decide (record_tuple r = record_tuple (my_record (pr_issued_at_ms r)))
                                    then [pr_issued_at_ms r; 0] else [Npos (encode (record_tuple r))]; print_user := fun _ => [];
            print_conflict := fun n => [n] |}.
  - intros r _ _. cbn. case_decide as Hr.
    + destruct r, pr_issued_at_ms; unfold record_tuple in Hr; cbn in *; by simplify_eq.
    + rewrite decode_encode. by destruct r.
  - done.
  - done.
Defined.

(** A device with its clock behind, and a limiter that allows three posts, or one. *)
Definition crowded (verdicts : list bool) : RelayWorld :=
  mkWorld (mkReach (index_put (my_record 500) index_new) ∅) verdicts.

Lemma crowded_held verdicts : held (crowded verdicts) (demo_agent [1]) = Some (my_record 500).
Proof.
  unfold crowded, index_get, index_put. cbn [rw_reach pair_records by_agent my_record pr_agent_id_hex].
  by rewrite lookup_insert_eq.
Qed.

Lemma publish_reaches_relay_witness :
  let '(res, _, w') := publish_pair_record (HS := reach_server) me (Some "https://r"%string) "m" some_io ∅ no_files
                         (crowded [true; true; true]) in
  (res = Ok tt /\ exists r, held w' (demo_agent [1]) = Some r /\ 500 < pr_issued_at_ms r) /\
  is_ok (publish_pair_record (HS := reach_server) me (Some "https://r"%string) "m" some_io ∅ no_files
           (crowded [true; false])).1.1 = false.
Proof.
  pose proof (publish_reaches_relay me "https://r" "m" r_url some_io ∅ no_files (crowded [true; true; true])) as Hp.
  assert (is_ok (publish_pair_record (HS := reach_server) me (Some "https://r"%string) "m" some_io ∅ no_files
            (crowded [true; true; true])).1.1 = true) as Hok by by vm_compute.
  destruct (publish_pair_record (HS := reach_server) _ _ _ _ _ _ _) as [[res marks1] w'].
  destruct Hp as [[Hres [(r & Hr & _ & _ & Hnew) _]]|[Hbad _]].
  - split; [repeat constructor|]. intros m sig [= <-]. split_and!; [repeat constructor|done..].
  - repeat constructor.
  - done.
  - by vm_compute.
  - by vm_compute.
  - by vm_compute.
  - intros old Ho. change (fi_agent_id_hex me) with (demo_agent [1]) in Ho. rewrite crowded_held in Ho. by injection Ho as <-.
  - split; [|by vm_compute]. split; [done|]. exists r. split; [exact Hr|].
    apply (Hnew (my_record 500)). apply crowded_held.
  - cbn [fst] in Hok. by rewrite Hbad in Hok.
Defined.
