(* ===== verification/PendingJoin.v ===== *)
(** * Durable group joins

    Models [crates/fetchit-chat/src/groups/pending_join.rs] (the record and its
    store), [groups/pending_join_driver.rs] (the resume driver),
    [groups/convergence.rs] (the record of groups this node holds keys for),
    [groups/join_bridge.rs] and [groups/engine_a.rs], the join policy of
    [client.rs] ([join_group_durable], [drive_pending_joins_once],
    [probe_group_state], the reply arm of [dispatch_inbound_bridge]), the warm
    applier of [groups/epoch_recovery/log_applier.rs] and the polling loop of
    [groups/membership.rs].

    The two directories are maps from a group id to the bytes of its file.  The
    daemon, the relay router, the clock and the file system are seams over a
    world.  [trace] is a record of what the code did, newest first: it is read by
    no operation. *)
From S2P Require Import Prelude SendState Attachment Bubble Overlay SeqGap RelayProto RelayAuth GroupLog.
From S2P Require Import RelayWs Conversation ConvRegistry EpochRecovery.
Open Scope rust_scope.

(** ** Data *)

Inductive PendingJoinState :=
| Submitted
| Bridged
| KeyedButUnverified
| JoinFailed (reason : string).

Record PendingJoin := mkPending {
  pj_group_id : string;
  pj_captured_event_b64 : string;
  pj_captured_topic : string;
  pj_invite_hash : string;
  pj_owner_agent_id : string;
  pj_owner_kem_pubkey_b64 : string;
  pj_owner_relay_hints : list string;
  pj_joiner_kem_pubkey_b64 : string;
  pj_created_at_ms : N;
  pj_last_attempt_ms : N;
  pj_attempts : N;
  pj_state : PendingJoinState;
}.

Definition pending_new (group_id captured_event_b64 captured_topic invite_hash owner_agent_id
    owner_kem_pubkey_b64 : string) (owner_relay_hints : list string)
    (joiner_kem_pubkey_b64 : string) (now_ms : N) : PendingJoin :=
  mkPending group_id captured_event_b64 captured_topic invite_hash owner_agent_id
    owner_kem_pubkey_b64 owner_relay_hints joiner_kem_pubkey_b64 now_ms 0 0 Submitted.

Definition pending_is_terminal (r : PendingJoin) : bool :=
  match pj_state r with JoinFailed _ => true | _ => false end.

(** The three assignments of a drive step. *)
Definition attempted (state : PendingJoinState) (now_ms : N) (r : PendingJoin) : PendingJoin :=
  mkPending (pj_group_id r) (pj_captured_event_b64 r) (pj_captured_topic r) (pj_invite_hash r)
    (pj_owner_agent_id r) (pj_owner_kem_pubkey_b64 r) (pj_owner_relay_hints r)
    (pj_joiner_kem_pubkey_b64 r) (pj_created_at_ms r) now_ms
    (saturating_add u32_max (pj_attempts r) 1) state.

Record ConvergenceRecord := { cv_group_id : string; cv_epoch : N; cv_at_ms : N }.

(** ** Backoff *)

Definition BASE_MS : N := 2000.
Definition CAP_MS : N := 5 * 60 * 1000.

Definition join_backoff_ms (attempts : N) : N :=
  if attempts =? 0 then 0
  else N.min (saturating_mul u64_max BASE_MS (N.shiftl 1 (N.min attempts 20))) CAP_MS.

Definition join_is_due (r : PendingJoin) (now_ms : N) : bool :=
  pj_last_attempt_ms r +|64 join_backoff_ms (pj_attempts r) <=? now_ms.

Definition apply_ok_retires_record (probe_keyed : option bool) : bool :=
  match probe_keyed with Some true => true | _ => false end.

Inductive DriveOutcome :=
| DriveConverged
| DrivePending
| DriveFailed (reason : string).

(** ** Events the daemon signs *)

(** [serde_json::from_slice] to a value: [None] when the bytes are not JSON, else
    its string members by name. *)
Class JsonObject := json_fields : bytes -> option (string -> option string).

Definition str_field `{JsonObject} (name : string) (payload : bytes) : option string :=
  match json_fields payload with Some v => v name | None => None end.

Record CapturedSelfJoin := { cap_topic : string; cap_payload : bytes }.

Definition inviter_agent_id_from_member_joined `{JsonObject} := str_field "inviter_agent_id".
Definition member_agent_id_from_member_joined `{JsonObject} := str_field "member_agent_id".
Definition group_id_from_member_joined `{JsonObject} := str_field "group_id".
Definition stable_group_id_from_member_joined `{JsonObject} := str_field "stable_group_id".

Definition eq_ignore_ascii_case (a b : string) : bool :=
  String.eqb (to_ascii_lowercase a) (to_ascii_lowercase b).

Definition member_added_self_target `{JsonObject} (payload : bytes) (my_agent_hex : string)
    : option (string * string) :=
  match json_fields payload with
  | None => None
  | Some v =>
      if negb (bool_decide (v "event" = Some "member_added"))
         && negb (bool_decide (v "event" = Some "member_rekeyed")) then None
      else
        match v "agent_id" with
        | None => None
        | Some agent_id =>
            if negb (eq_ignore_ascii_case agent_id my_agent_hex) then None
            else match v "group_id" with
                 | None => None
                 | Some group_id => Some (group_id, agent_id)
                 end
        end
  end.

(** ** Errors of the daemon client *)

Inductive X0xdError :=
| XHttp (why : string)
| XUrl (why : string)
| XRejected (why : string)
| XInvalid (why : string)
| XApplyRejected (status : N) (detail : string).

(** [format!] of a status number. *)
Class StatusText := status_text : N -> string.

Definition from_x0xd `{StatusText} (e : X0xdError) : ChatError :=
  match e with
  | XHttp re => Transport re
  | XUrl u => Invalid ("x0xd url: " +:+ u)
  | XRejected s => MessageTransport s
  | XApplyRejected status detail =>
      MessageTransport ("x0xd apply rejected (" +:+ status_text status +:+ "): " +:+ detail)
  | XInvalid s => Invalid s
  end.

Definition quoted (s : string) : string :=
  String (Ascii.ascii_of_N 34) (s +:+ String (Ascii.ascii_of_N 34) EmptyString).

Definition route_miss_404 (e : X0xdError) : bool :=
  match e with
  | XApplyRejected status detail => (status =? 404) && negb (str_contains (quoted "error") detail)
  | _ => false
  end.

Definition apply_conflict_409 (e : X0xdError) : bool :=
  match e with
  | XApplyRejected status detail => (status =? 409) && str_contains (quoted "applied") detail
  | _ => false
  end.

(** ** The client's join state *)

(** [serde_json] of a record to a file and back. *)
Class JsonFile (R : Type) := {
  to_json : R -> bytes;
  from_json : bytes -> option R;
  from_to_json : forall r, from_json (to_json r) = Some r;
}.

Inductive FileOp := OpenDir | ReadDir | ReadFile | WriteFile | RemoveFile.

(** What [emit_self_join_bridge] seals to the owner and hands to the router. *)
Record BridgeSend := {
  bs_owner : bytes;
  bs_owner_kem : bytes;
  bs_topic : string;
  bs_payload_b64 : string;
  bs_joiner_kem : option bytes;
  bs_hints : option (list string);
}.

(** The daemon, the router, the clock and the file system. *)
Class JoinSeams (W : Type) := {
  io_fault : FileOp -> string -> W -> option string * W;
  now_ms : W -> N;
  env_secs : string -> W -> option N;
  post_join : string -> option string -> W
    -> result (string * option (string * string)) ChatError * W;
  resolve_owner_kem : string -> W -> result bytes ChatError * W;
  recipient_hints : string -> W -> option (list string);
  primary_relay : W -> option string;
  own_kem : bytes;
  self_hex : string;
  members : string -> W -> result (list string) ChatError * W;
  wait_membership : string -> N -> W -> result unit ChatError * W;
  send_sealed : BridgeSend -> W -> result unit ChatError * W;
  group_self_status : string -> W -> result (option GroupState) X0xdError * W;
  encrypt_probe : string -> W -> result N X0xdError * W;
  apply_join_result : string -> string -> string -> string -> W -> result bool X0xdError * W;
  apply_metadata_event : string -> string -> string -> W -> result bool X0xdError * W;
  publish : string -> string -> W -> result unit X0xdError * W;
  log_fetch : option (bytes -> N -> W -> result (list LogRecordWire) ChatError * W);
}.

Inductive JoinEvent :=
| EvPosted (invite : string)
| EvSaved (invite_hash group_id : string)
| EvKeyed (group_id : string)
| EvDropped (group_id : string)
| EvUnread (group_id : string)
| EvBridge (sent : BridgeSend)
| EvEncrypt (group_id : string).

(** [engine_a] is the latch [engine_a_supported]. *)
Record JoinSys (W : Type) := mkJoin {
  pending_dir : gmap string bytes;
  converged_dir : gmap string bytes;
  engine_a : option bool;
  trace : list JoinEvent;
  jworld : W;
}.
Arguments mkJoin {W} _ _ _ _ _.
Arguments pending_dir {W} _.
Arguments converged_dir {W} _.
Arguments engine_a {W} _.
Arguments trace {W} _.
Arguments jworld {W} _.

(** An operation of the client: a result and the state it leaves. *)
Definition M (W A : Type) : Type := JoinSys W -> result A ChatError * JoinSys W.

Definition ret {W A} (a : A) : M W A := fun s => (Ok a, s).
Definition raise {W A} (e : ChatError) : M W A := fun s => (Err e, s).
Definition bind {W A B} (m : M W A) (k : A -> M W B) : M W B :=
  fun s => match m s with (Ok a, s') => k a s' | (Err e, s') => (Err e, s') end.
(** The result as a value: [.ok()], [let _ =] and [if let Ok]. *)
Definition attempt {W A} (m : M W A) : M W (result A ChatError) :=
  fun s => match m s with (r, s') => (Ok r, s') end.

Notation "'let!' x := c1 'in' c2" := (bind c1 (fun x => c2))
  (at level 10, x pattern, c1 at level 200, c2 at level 200) : rust_scope.

Definition set_pending {W} (d : gmap string bytes) (s : JoinSys W) : JoinSys W :=
  mkJoin d (converged_dir s) (engine_a s) (trace s) (jworld s).
Definition set_converged {W} (d : gmap string bytes) (s : JoinSys W) : JoinSys W :=
  mkJoin (pending_dir s) d (engine_a s) (trace s) (jworld s).
Definition set_jworld {W} (w : W) (s : JoinSys W) : JoinSys W :=
  mkJoin (pending_dir s) (converged_dir s) (engine_a s) (trace s) w.
Definition event {W} (e : JoinEvent) : M W unit :=
  fun s => (Ok tt, mkJoin (pending_dir s) (converged_dir s) (engine_a s) (e :: trace s) (jworld s)).

(** [OnceLock::set(false)], its result ignored. *)
Definition mark_engine_a_unsupported {W} : M W unit :=
  fun s => (Ok tt, mkJoin (pending_dir s) (converged_dir s)
                     (match engine_a s with None => Some false | set => set end)
                     (trace s) (jworld s)).

Definition engine_a_available {W} (s : JoinSys W) : bool := default true (engine_a s).

Definition call {W A} (f : W -> result A ChatError * W) : M W A :=
  fun s => let (r, w) := f (jworld s) in (r, set_jworld w s).
Definition call_x0xd {W A} (f : W -> result A X0xdError * W) : M W (result A X0xdError) :=
  fun s => let (r, w) := f (jworld s) in (Ok r, set_jworld w s).
Definition of_result {W A} (r : result A ChatError) : M W A := fun s => (r, s).
Definition clock {W} `{JoinSeams W} : M W N := fun s => (Ok (now_ms (jworld s)), s).

Section client.
  Context {W : Type} `{JoinSeams W} `{JsonObject} `{Base64} `{StatusText} `{Sha256}.
  Context `{!JsonFile PendingJoin} `{!JsonFile ConvergenceRecord} `{!HashIter string bytes}.

(** *** The pending-join store *)

Definition io (op : FileOp) (name : string) : M W unit :=
  fun s => let (fault, w) := io_fault op name (jworld s) in
           (match fault with Some e => Err (Io e) | None => Ok tt end, set_jworld w s).

Definition pending_open : M W unit := io OpenDir "pending_joins".

Definition pending_upsert (r : PendingJoin) : M W unit :=
  let! _ := io WriteFile (pj_group_id r) in
  fun s => (Ok tt, set_pending (<[pj_group_id r := to_json r]> (pending_dir s)) s).

Definition pending_get (group_id : string) : M W (option PendingJoin) :=
  let! _ := io ReadFile group_id in
  fun s => match pending_dir s !! group_id with
           | None => (Ok None, s)
           | Some b => (match from_json b with
                        | Some r => Ok (Some r)
                        | None => Err (Decode "json")
                        end, s)
           end.

Fixpoint read_files (files : list (string * bytes)) : M W (list PendingJoin) :=
  match files with
  | [] => ret []
  | (name, b) :: files =>
      let! got := attempt (io ReadFile name) in
      match got with
      | Ok _ =>
          let! out := read_files files in
          ret (match from_json b with Some r => r :: out | None => out end)
      | Err _ => let! _ := event (EvUnread name) in read_files files
      end
  end.

Definition pending_list : M W (list PendingJoin) :=
  let! _ := io ReadDir "pending_joins" in
  fun s => read_files (hm_iter (pending_dir s)) s.

Definition pending_remove (group_id : string) : M W unit :=
  let! _ := io RemoveFile group_id in
  fun s => (Ok tt, set_pending (delete group_id (pending_dir s)) s).

(** *** The convergence store *)

Definition convergence_open : M W unit := io OpenDir "converged".

Definition convergence_record (group_id : string) (epoch at_ms : N) : M W unit :=
  let! _ := io WriteFile group_id in
  fun s => (Ok tt, set_converged (<[group_id := to_json {| cv_group_id := group_id;
                                                         cv_epoch := epoch;
                                                         cv_at_ms := at_ms |}]>
                                    (converged_dir s)) s).

Definition convergence_get (group_id : string) : M W (option ConvergenceRecord) :=
  let! _ := io ReadFile group_id in
  fun s => match converged_dir s !! group_id with
           | None => (Ok None, s)
           | Some b => (match from_json b with
                        | Some r => Ok (Some r)
                        | None => Err (Decode "json")
                        end, s)
           end.

Definition convergence_remove (group_id : string) : M W unit :=
  let! _ := io RemoveFile group_id in
  fun s => (Ok tt, set_converged (delete group_id (converged_dir s)) s).

(** *** Probing a group *)

Definition group_id_char (c : Ascii.ascii) : bool :=
  let n := Ascii.N_of_ascii c in
  (48 <=? n) && (n <=? 57) || (65 <=? n) && (n <=? 90) || (97 <=? n) && (n <=? 122)
  || (n =? 95) || (n =? 45).

Definition group_id_parse (s : string) : result string ChatError :=
  if String.eqb s "" then Err (Invalid "GroupId is empty")
  else if negb (forallb group_id_char (String.list_ascii_of_string s))
  then Err (Invalid "GroupId contains characters outside [a-zA-Z0-9_-]")
  else Ok s.

(** The one-shot encrypt that settles whether the daemon holds keys. *)
Definition settle_keyed (group_id_hex : string) (stale_record : bool) : M W GroupState :=
  let! _ := event (EvEncrypt group_id_hex) in
  let! sealed := call_x0xd (encrypt_probe group_id_hex) in
  match sealed with
  | Ok epoch =>
      let! now := clock in
      let! _ := convergence_record group_id_hex epoch now in
      ret {| gst_keyed := true; gst_in_roster := true; gst_epoch := epoch |}
  | Err _ =>
      let! _ := if stale_record
                then let! _ := attempt (convergence_remove group_id_hex) in ret tt
                else ret tt in
      ret {| gst_keyed := false; gst_in_roster := true; gst_epoch := 0 |}
  end.

Definition probe_group_state (group_id_hex : string) : M W GroupState :=
  let! status := call_x0xd (group_self_status group_id_hex) in
  match status with
  | Err e => raise (from_x0xd e)
  | Ok (Some st) => ret st
  | Ok None =>
      let! parsed := of_result (group_id_parse group_id_hex) in
      let! roster := call (members parsed) in
      if negb (bool_decide (self_hex ∈ roster))
      then ret {| gst_keyed := false; gst_in_roster := false; gst_epoch := 0 |}
      else
        let! _ := convergence_open in
        let! rec := convergence_get group_id_hex in
        match rec with
        | Some r =>
            if 0 <? cv_epoch r
            then ret {| gst_keyed := true; gst_in_roster := true; gst_epoch := cv_epoch r |}
            else settle_keyed group_id_hex true
        | None => settle_keyed group_id_hex false
        end
  end.

Definition note_group_converged (group_id_hex : string) (epoch : N) : M W unit :=
  let! _ := attempt (let! _ := convergence_open in
                     let! now := clock in
                     convergence_record group_id_hex epoch now) in
  ret tt.

(** *** Bridging the join to the owner *)

Definition agent_hex_to_bytes (agent_hex : string) : result bytes ChatError :=
  match hex_decode agent_hex with
  | None => Err (Invalid "join-bridge: owner agent_id hex decode")
  | Some b => if len b =? 32 then Ok b
              else Err (Invalid "join-bridge: owner agent_id is not 32 bytes")
  end.

Definition emit_self_join_bridge (captured : CapturedSelfJoin) (owner_agent_hex : string)
    (owner_kem_pub joiner_kem_pub : bytes) (hints : option (list string)) : M W unit :=
  let! owner := of_result (agent_hex_to_bytes owner_agent_hex) in
  let sent := {| bs_owner := owner; bs_owner_kem := owner_kem_pub;
                 bs_topic := cap_topic captured;
                 bs_payload_b64 := b64_encode (cap_payload captured);
                 bs_joiner_kem := Some joiner_kem_pub; bs_hints := hints |} in
  let! _ := event (EvBridge sent) in
  call (send_sealed sent).

(** The owner's relays: its card's, else the primary relay. *)
Definition owner_hints (owner_hex : string) (w : W) : option (list string) :=
  match recipient_hints owner_hex w with
  | Some relays => Some relays
  | None => (fun url => [url]) <$> primary_relay w
  end.

(** The environment's override in seconds, else the default; [Duration]s are
    milliseconds here. *)
Definition resolve_membership_wait (raw : option N) : N := default 60000 (N.mul 1000 <$> raw).
Definition resolve_native_first_wait (raw : option N) : N := default 25000 (N.mul 1000 <$> raw).

Definition membership_wait_timeout (w : W) : N :=
  resolve_membership_wait (env_secs "FETCHIT_MEMBERSHIP_WAIT_SECS" w).
Definition native_first_wait (w : W) : N :=
  resolve_native_first_wait (env_secs "FETCHIT_NATIVE_FIRST_WAIT_SECS" w).

Definition bridge_captured_join (group_id : string) (captured : CapturedSelfJoin) : M W unit :=
  match inviter_agent_id_from_member_joined (cap_payload captured) with
  | None => raise (Invalid "join-bridge: captured member_joined has no inviter_agent_id")
  | Some owner_hex =>
      let! owner_kem := call (resolve_owner_kem owner_hex) in
      let! hints := fun s => (Ok (owner_hints owner_hex (jworld s)), s) in
      let! _ := emit_self_join_bridge captured owner_hex owner_kem own_kem hints in
      call (fun w => wait_membership group_id (membership_wait_timeout w) w)
  end.

Definition build_pending_join (gid_hex invite_hash : string) (captured : CapturedSelfJoin)
    : M W PendingJoin :=
  match inviter_agent_id_from_member_joined (cap_payload captured) with
  | None => raise (Invalid "durable join: captured event has no inviter")
  | Some owner_hex =>
      let! owner_kem := call (resolve_owner_kem owner_hex) in
      let! hints := fun s => (Ok (owner_hints owner_hex (jworld s)), s) in
      let! now := clock in
      ret (pending_new gid_hex (b64_encode (cap_payload captured)) (cap_topic captured) invite_hash
             owner_hex (b64_encode owner_kem) (default [] hints) (b64_encode own_kem) now)
  end.

Definition rebridge_pending (r : PendingJoin) : M W unit :=
  match b64_decode (pj_captured_event_b64 r) with
  | None => raise (Invalid "pending-join payload b64")
  | Some payload =>
      match b64_decode (pj_owner_kem_pubkey_b64 r) with
      | None => raise (Invalid "pending-join owner_kem b64")
      | Some owner_kem =>
          match b64_decode (pj_joiner_kem_pubkey_b64 r) with
          | None => raise (Invalid "pending-join joiner_kem b64")
          | Some joiner_kem =>
              emit_self_join_bridge {| cap_topic := pj_captured_topic r; cap_payload := payload |}
                (pj_owner_agent_id r) owner_kem joiner_kem
                (match pj_owner_relay_hints r with [] => None | relays => Some relays end)
          end
      end
  end.

(** *** The driver, over its bridge and probe *)

Definition drive_once (rebridge request_join_result : PendingJoin -> M W unit)
    (status : string -> M W MembershipStatus) (r : PendingJoin) : M W DriveOutcome :=
  match pj_state r with
  | JoinFailed reason => ret (DriveFailed reason)
  | _ =>
      let! st := attempt (status (pj_group_id r)) in
      match st with
      | Ok ActiveKeyed =>
          let! _ := event (EvKeyed (pj_group_id r)) in
          let! _ := pending_remove (pj_group_id r) in
          ret DriveConverged
      | Ok ListedButUnkeyed =>
          let! now := clock in
          let r := attempted KeyedButUnverified now r in
          let! _ := pending_upsert r in
          let! _ := attempt (request_join_result r) in
          ret DrivePending
      | Ok Absent =>
          let! now := clock in
          let r := attempted Bridged now r in
          let! _ := pending_upsert r in
          let! _ := attempt (rebridge r) in
          ret DrivePending
      | Err _ => ret DrivePending
      end
  end.

(** [drive_all] drives what the listing brings; [fail] retires an intent. *)
Fixpoint drive_each (drive : PendingJoin -> M W DriveOutcome) (l : list PendingJoin)
    : M W (list (string * DriveOutcome)) :=
  match l with
  | [] => ret []
  | r :: l =>
      let! o := drive r in
      let! out := drive_each drive l in
      ret ((pj_group_id r, o) :: out)
  end.

Definition drive_all (drive : PendingJoin -> M W DriveOutcome) : M W (list (string * DriveOutcome)) :=
  let! l := pending_list in drive_each drive l.

Definition driver_fail (group_id : string) : M W unit := pending_remove group_id.

(** The production probe: [probe_group_state], else the roster alone. *)
Definition production_status (group_id : string) : M W MembershipStatus :=
  let! parsed := of_result (group_id_parse group_id) in
  let! st := attempt (probe_group_state group_id) in
  match st with
  | Ok st => ret (membership st)
  | Err _ =>
      let! roster := call (members parsed) in
      ret (if bool_decide (self_hex ∈ roster) then ListedButUnkeyed else Absent)
  end.

Definition production_drive : PendingJoin -> M W DriveOutcome :=
  drive_once rebridge_pending rebridge_pending production_status.

(** One turn of the loop of [drive_pending_joins_once]. *)
Definition drive_due (r : PendingJoin) : M W DriveOutcome :=
  let! now := clock in
  if negb (join_is_due r now) then ret DrivePending else production_drive r.

Definition drive_pending_joins_once : M W (list (string * DriveOutcome)) :=
  let! _ := pending_open in
  let! _ := pending_open in
  let! l := pending_list in
  drive_each drive_due (List.filter (fun r => negb (pending_is_terminal r)) l).

Definition pending_joins : M W (list string) :=
  let! _ := pending_open in
  let! l := pending_list in
  ret (pj_group_id <$> List.filter (fun r => negb (pending_is_terminal r)) l).

(** *** Joining *)

Inductive JoinOutcome := JoinConverged (group_id : string) | JoinPending (group_id : string).

(** [POST /groups/join]; the inline event comes back as base64. *)
Definition join_post (invite : string) (display_name : option string)
    : M W (string * option CapturedSelfJoin) :=
  let! _ := event (EvPosted invite) in
  let! answer := call (post_join invite display_name) in
  let (raw, inline) := (answer : string * option (string * string)) in
  let! gid := of_result (match group_id_parse raw with
                         | Ok g => Ok g
                         | Err _ => Err (Transport "error decoding response body")
                         end) in
  match inline with
  | None => ret (gid, None)
  | Some (topic, event_b64) =>
      match b64_decode event_b64 with
      | Some payload => ret (gid, Some {| cap_topic := topic; cap_payload := payload |})
      | None => raise (Invalid "join_post: member_joined event_b64 decode")
      end
  end.

Definition run_native_then_bridge (captured : option CapturedSelfJoin) (native : M W unit)
    (bridge : CapturedSelfJoin -> M W unit) : M W unit :=
  let! native_result := attempt native in
  match captured with
  | Some cap => bridge cap
  | None =>
      match native_result with
      | Ok _ => ret tt
      | Err _ => raise (Invalid "group join: native convergence failed and no inline member_joined")
      end
  end.

Definition invite_hash (invite : string) : string := hex_encode (sha256 (ascii_bytes invite)).

(** The resume check: the live intent for this invite, if one is stored. *)
Definition resume_check (invite : string) : M W (option string) :=
  let! l := pending_list in
  ret (pj_group_id <$> List.find (fun r => negb (pending_is_terminal r)
                                         && String.eqb (pj_invite_hash r) (invite_hash invite)) l).

(** The native wait, the bridge and what is made of their outcome. *)
Definition settle_join (gid_hex : string) (captured : option CapturedSelfJoin) : M W JoinOutcome :=
  let! outcome := attempt (run_native_then_bridge captured
                             (call (fun w => wait_membership gid_hex (native_first_wait w) w))
                             (bridge_captured_join gid_hex)) in
  match outcome with
  | Ok _ => ret (JoinConverged gid_hex)
  | Err (JoinerNotConverged _ _) => ret (JoinPending gid_hex)
  | Err e =>
      if is_some captured then ret (JoinPending gid_hex)
      else
        let! _ := event (EvDropped gid_hex) in
        let! _ := attempt (pending_remove gid_hex) in
        raise e
  end.

(** What [join_group_durable] does with the answer of its [join_post]. *)
Definition save_intent (invite gid_hex : string) (captured : option CapturedSelfJoin) : M W unit :=
  match captured with
  | Some cap =>
      let! r := build_pending_join gid_hex (invite_hash invite) cap in
      let! _ := pending_upsert r in
      event (EvSaved (invite_hash invite) gid_hex)
  | None => ret tt
  end.
Definition after_post (invite : string) (answer : string * option CapturedSelfJoin) : M W JoinOutcome :=
  let (gid_hex, captured) := answer in
  let! _ := save_intent invite gid_hex captured in
  settle_join gid_hex captured.

(** The part of [join_group_durable] after the resume check. *)
Definition post_and_settle (invite : string) (display_name : option string) : M W JoinOutcome :=
  let! answer := join_post invite display_name in after_post invite answer.

Definition join_group_durable (invite : string) (display_name : option string) : M W JoinOutcome :=
  let! _ := pending_open in
  let! existing := resume_check invite in
  match existing with
  | Some group_id => ret (JoinPending group_id)
  | None => post_and_settle invite display_name
  end.

(** *** The owner's reply arrives *)

(** [dispatch_inbound_bridge] on an unsealed wrapper without a joiner key. *)
Definition dispatch_join_result (topic payload_b64 sender_hex : string) : M W unit :=
  match b64_decode payload_b64 with
  | None => raise (Invalid "bridge: payload b64")
  | Some event_bytes =>
      match member_added_self_target event_bytes self_hex with
      | Some (stable_group_id, member) =>
          let! applied := call_x0xd (apply_join_result stable_group_id member payload_b64 sender_hex) in
          match applied with
          | Err e =>
              if route_miss_404 e then mark_engine_a_unsupported
              else if apply_conflict_409 e then ret tt
              else raise (from_x0xd e)
          | Ok _ =>
              let! st := attempt (probe_group_state stable_group_id) in
              if apply_ok_retires_record (match st with Ok st => Some (gst_keyed st) | Err _ => None end)
              then
                let! _ := event (EvKeyed stable_group_id) in
                let! _ := attempt (let! _ := pending_open in pending_remove stable_group_id) in
                note_group_converged stable_group_id 0
              else ret tt
          end
      | None =>
          let! sent := call_x0xd (publish topic payload_b64) in
          match sent with Ok _ => ret tt | Err e => raise (from_x0xd e) end
      end
  end.

(** *** Warm recovery over the client *)

Definition classify_apply_error (e : X0xdError) : M W ApplyOutcome :=
  if route_miss_404 e then
    let! _ := mark_engine_a_unsupported in raise (from_x0xd e)
  else
    match e with
    | XApplyRejected status _ =>
        if (400 <=? status) && (status <? 500)
           && negb (bool_decide (status ∈ [401; 407; 408; 429; 431]))
        then ret AlreadyApplied else raise (from_x0xd e)
    | _ => raise (from_x0xd e)
    end.

(** [X0xdCommitApplier::apply]. *)
Definition applier_apply (group_id : string) (record : CommitRecord) : M W ApplyOutcome :=
  let outcome (applied : bool) := if applied then Applied else AlreadyApplied in
  match plan_apply member_added_self_target record self_hex with
  | PlanMetadata payload_b64 author_hex =>
      let! r := call_x0xd (apply_metadata_event group_id payload_b64 author_hex) in
      match r with Ok applied => ret (outcome applied) | Err e => classify_apply_error e end
  | PlanJoinResult stable_group_id member payload_b64 owner_hex =>
      let! r := call_x0xd (apply_join_result stable_group_id member payload_b64 owner_hex) in
      match r with Ok applied => ret (outcome applied) | Err e => classify_apply_error e end
  | PlanSkip _ => ret AlreadyApplied
  end.

(** [LogFetchCommitSource::fetch_since]; [warm] says whether it was given the relay. *)
Definition source_fetch (warm : bool) (group_id : string) (since_seq : N) : M W (list CommitRecord) :=
  match (if warm then log_fetch else None) with
  | None => ret []
  | Some fetch =>
      match hex_decode group_id with
      | Some gid =>
          if len gid =? 32 then
            let! wire := call (fetch gid since_seq) in
            ret (commit_record_from_wire <$> wire)
          else raise (Invalid "recover: group id hex")
      | None => raise (Invalid "recover: group id hex")
      end
  end.

(** [ColdViaPendingJoins::recover_cold]. *)
Definition recover_via_pending_joins (group_id : string) : M W bool :=
  let! outcomes := drive_pending_joins_once in
  ret (existsb (fun o => String.eqb o.1 group_id) outcomes).

(** The production seams of the recovery driver. *)
Definition production_seams (warm : bool) : RecoverySeams (JoinSys W) := {|
  fetch_since := source_fetch warm;
  apply_record := applier_apply;
  probe_group := probe_group_state;
  recover_cold := recover_via_pending_joins;
|}.

Definition recover_group_once (group_id_hex : string) (target_epoch : option N)
    (r : Recovery (JoinSys W)) : result RecoverOutcome ChatError * Recovery (JoinSys W) :=
  @recover_once _ (production_seams (engine_a_available (rv_world r))) group_id_hex target_epoch r.

End client.

(** ** Waiting for the roster *)

(** The loop of [wait_for_active_membership]: [fetch] polls the roster, [sleep]
    waits, [now] reads the clock; [None] when the fuel runs out. *)
Fixpoint wait_loop {W} (fetch : W -> result (list string) ChatError * W) (sleep : W -> W)
    (now : W -> N) (group_id self_id : string) (timeout deadline : N) (fuel : nat) (w : W)
    : option (result unit ChatError * W) :=
  match fuel with
  | O => None
  | S fuel =>
      let (result, w) := fetch w in
      if match result with Ok ms => bool_decide (self_id ∈ ms) | Err _ => false end
      then Some (Ok tt, w)
      else if deadline <=? now w then
        Some (match result with
              | Ok _ => Err (JoinerNotConverged group_id timeout)
              | Err e => Err e
              end, w)
      else wait_loop fetch sleep now group_id self_id timeout deadline fuel (sleep w)
  end.

Definition wait_for_active_membership {W} (fetch : W -> result (list string) ChatError * W)
    (sleep : W -> W) (now : W -> N) (group_id self_id : string) (timeout : N) (fuel : nat) (w : W)
    : option (result unit ChatError * W) :=
  wait_loop fetch sleep now group_id self_id timeout (now w + timeout) fuel w.
