(* ===== verification/JoinRuns.v ===== *)
(** * Durable joins: what every run keeps

    Theorems about [PendingJoin]: which operations leave the stored intents alone,
    that no run spends an invite whose intent is stored, that a re-bridge replays
    the first bridge, what a daemon without the apply routes does to recovery, the
    backoff and the termination of the membership wait; with concrete runs. *)
From S2P Require Import Prelude SendState Attachment Bubble Overlay SeqGap RelayProto RelayAuth GroupLog.
From S2P Require Import RelayWs Conversation ConvRegistry EpochRecovery PendingJoin.
Open Scope rust_scope.

(** ** What an operation leaves alone *)

Definition keeps {W A} (R : JoinSys W -> JoinSys W -> Prop) (m : M W A) : Prop :=
  forall s, R s (m s).2.

(** Events of operations that neither spend an invite nor change the store. *)
Definition quiet_event (e : JoinEvent) : bool :=
  match e with EvBridge _ | EvEncrypt _ | EvUnread _ => true | _ => false end.

Definition quiet {W} (s s' : JoinSys W) : Prop :=
  pending_dir s' = pending_dir s
  /\ exists t, trace s' = t ++ trace s /\ Forall (fun e => quiet_event e = true) t.

#[export] Instance quiet_preorder {W} : PreOrder (@quiet W).
Proof.
  split.
  - intros s. split; [done|]. by exists [].
  - intros s1 s2 s3 [? (t & Ht & Hq)] [? (t' & Ht' & Hq')]. split; [congruence|].
    exists (t' ++ t). rewrite Ht', Ht, app_assoc. split; [done|]. by apply Forall_app.
Qed.

Section keeps.
  Context {W : Type} (R : JoinSys W -> JoinSys W -> Prop) `{!PreOrder R}.

Lemma keeps_ret {A} (a : A) : keeps R (ret a).
Proof. intros s. simpl. reflexivity. Qed.
Lemma keeps_raise {A} e : keeps R (raise (A := A) e).
Proof. intros s. simpl. reflexivity. Qed.
Lemma keeps_of_result {A} (r : result A ChatError) : keeps R (of_result r).
Proof. intros s. simpl. reflexivity. Qed.
Lemma keeps_read {A} (f : JoinSys W -> A) : keeps R (fun s => (Ok (f s), s)).
Proof. intros s. simpl. reflexivity. Qed.
Lemma keeps_bind {A B} (m : M W A) (k : A -> M W B) :
  keeps R m -> (forall a, keeps R (k a)) -> keeps R (bind m k).
Proof.
  intros Hm Hk s. unfold bind. specialize (Hm s). destruct (m s) as [[a|e] s1]; simpl in *; [|done].
  etrans; [exact Hm | apply Hk].
Qed.
Lemma keeps_attempt {A} (m : M W A) : keeps R m -> keeps R (attempt m).
Proof. intros Hm s. unfold attempt. specialize (Hm s). by destruct (m s). Qed.
Lemma keeps_sub {A} (R' : JoinSys W -> JoinSys W -> Prop) (m : M W A) :
  (forall s s', R' s s' -> R s s') -> keeps R' m -> keeps R m.
Proof. intros Hsub Hm s. apply Hsub, Hm. Qed.
End keeps.

(** A run of [bind] by its parts. *)
Lemma run_bind_ok {W A B} (m : M W A) (k : A -> M W B) s :
  (exists a s1, m s = (Ok a, s1) /\ bind m k s = k a s1)
  \/ (exists e s1, m s = (Err e, s1) /\ bind m k s = (Err e, s1)).
Proof. unfold bind. destruct (m s) as [[a|e] s1]; [left | right]; eauto. Qed.

Section quiet.
  Context {W : Type} `{JoinSeams W} `{JsonObject} `{Base64} `{StatusText} `{Sha256}.
  Context `{!JsonFile PendingJoin} `{!JsonFile ConvergenceRecord} `{!HashIter string bytes}.
  Implicit Types s : JoinSys W.

Lemma quiet_same s s' : pending_dir s' = pending_dir s -> trace s' = trace s -> quiet s s'.
Proof. intros ? Ht. split; [done|]. exists []. by rewrite Ht. Qed.

Lemma quiet_call {A} (f : W -> result A ChatError * W) : keeps quiet (call f).
Proof. intros s. unfold call. by destruct (f (jworld s)); apply quiet_same. Qed.
Lemma quiet_call_x0xd {A} (f : W -> result A X0xdError * W) : keeps quiet (call_x0xd f).
Proof. intros s. unfold call_x0xd. by destruct (f (jworld s)); apply quiet_same. Qed.
Lemma quiet_io op name : keeps quiet (io op name).
Proof. intros s. unfold io. by destruct (io_fault op name (jworld s)); apply quiet_same. Qed.
Lemma quiet_clock : keeps quiet (clock (W := W)).
Proof. intros s. by apply quiet_same. Qed.
Lemma quiet_mark : keeps quiet (mark_engine_a_unsupported (W := W)).
Proof. intros s. by apply quiet_same. Qed.
Lemma quiet_ev e : quiet_event e = true -> keeps (W := W) quiet (event e).
Proof.
  intros He s. split; [done|]. exists [e]. split; [done|]. by repeat constructor.
Qed.
End quiet.

(** Decompose an operation into its calls. *)
Ltac keeps_step :=
  match goal with
  | |- keeps _ (call _) => apply quiet_call
  | |- keeps _ (call_x0xd _) => apply quiet_call_x0xd
  | |- keeps _ (io _ _) => apply quiet_io
  | |- keeps _ clock => apply quiet_clock
  | |- keeps _ mark_engine_a_unsupported => apply quiet_mark
  | |- keeps _ (event _) => apply quiet_ev; reflexivity
  | |- keeps _ (ret _) => apply keeps_ret; apply _
  | |- keeps _ (raise _) => apply keeps_raise; apply _
  | |- keeps _ (of_result _) => apply keeps_of_result; apply _
  | |- keeps _ (bind _ _) => apply keeps_bind; [apply _ | | intros ?]
  | |- keeps _ (attempt _) => apply keeps_attempt
  | |- keeps _ (fun s => (Ok _, s)) => apply keeps_read; apply _
  | |- keeps _ (match _ with _ => _ end) => case_match
  | |- _ => solve [auto with joins]
  end.
Ltac keeps := repeat keeps_step.
Create HintDb joins.

Section quiet_ops.
  Context {W : Type} `{JoinSeams W} `{JsonObject} `{Base64} `{StatusText} `{Sha256}.
  Context `{!JsonFile PendingJoin} `{!JsonFile ConvergenceRecord} `{!HashIter string bytes}.

Lemma quiet_read_files files : keeps (W := W) quiet (read_files files).
Proof. induction files as [|[name b] files IH]; simpl; keeps. Qed.
Hint Resolve quiet_read_files : joins.
Lemma quiet_pending_list : keeps (W := W) quiet pending_list.
Proof. unfold pending_list. keeps. intros s. apply quiet_read_files. Qed.
Lemma quiet_convergence_record g e at_ms : keeps (W := W) quiet (convergence_record g e at_ms).
Proof. unfold convergence_record. keeps. intros s. by apply quiet_same. Qed.
Lemma quiet_convergence_remove g : keeps (W := W) quiet (convergence_remove g).
Proof. unfold convergence_remove. keeps. intros s. by apply quiet_same. Qed.
Lemma quiet_convergence_get g : keeps (W := W) quiet (convergence_get g).
Proof. unfold convergence_get. keeps. intros s. by destruct (converged_dir s !! g); apply quiet_same. Qed.
Hint Resolve quiet_pending_list quiet_convergence_record quiet_convergence_remove
  quiet_convergence_get : joins.
Lemma quiet_probe g : keeps (W := W) quiet (probe_group_state g).
Proof. unfold probe_group_state, settle_keyed, convergence_open. keeps. Qed.
Lemma quiet_note g e : keeps (W := W) quiet (note_group_converged g e).
Proof. unfold note_group_converged, convergence_open. keeps. Qed.
Lemma quiet_emit cap o k j h : keeps (W := W) quiet (emit_self_join_bridge cap o k j h).
Proof. unfold emit_self_join_bridge. keeps. Qed.
Hint Resolve quiet_probe quiet_note quiet_emit : joins.
Lemma quiet_rebridge r : keeps (W := W) quiet (rebridge_pending r).
Proof. unfold rebridge_pending. keeps. Qed.
Lemma quiet_bridge_captured g cap : keeps (W := W) quiet (bridge_captured_join g cap).
Proof. unfold bridge_captured_join. keeps. Qed.
Lemma quiet_build g h cap : keeps (W := W) quiet (build_pending_join g h cap).
Proof. unfold build_pending_join. keeps. Qed.
Lemma quiet_status g : keeps (W := W) quiet (production_status g).
Proof. unfold production_status. keeps. Qed.
Lemma quiet_applier g rec : keeps (W := W) quiet (applier_apply g rec).
Proof. unfold applier_apply, classify_apply_error. keeps. Qed.
Lemma quiet_fetch warm g n : keeps (W := W) quiet (source_fetch warm g n).
Proof. unfold source_fetch. keeps. Qed.
End quiet_ops.
#[export] Hint Resolve quiet_read_files quiet_pending_list quiet_probe quiet_note quiet_emit
  quiet_rebridge quiet_bridge_captured quiet_build quiet_status quiet_applier quiet_fetch : joins.

(** ** A stored intent *)

Section intents.
  Context {W : Type} `{JoinSeams W} `{JsonObject} `{Base64} `{StatusText} `{Sha256}.
  Context `{!JsonFile PendingJoin} `{!JsonFile ConvergenceRecord} `{!HashIter string bytes}.
  Implicit Types s : JoinSys W.

(** Every file that parses is the record of the group it is named after. *)
Definition named s : Prop :=
  forall g b r, pending_dir s !! g = Some b -> from_json b = Some r -> pj_group_id r = g.

(** The file of [g] is a live intent for the invite hashed [h]. *)
Definition stored (h g : string) s : Prop :=
  exists b r, pending_dir s !! g = Some b /\ from_json b = Some r
    /\ pj_invite_hash r = h /\ pending_is_terminal r = false.

(** What takes a stored intent away, or hides it from a listing. *)
Definition spoils (h g : string) (e : JoinEvent) : Prop :=
  e = EvKeyed g \/ e = EvDropped g \/ e = EvUnread g \/ (exists h', e = EvSaved h' g /\ h' <> h).

Definition spoiled (h g : string) (t : list JoinEvent) : Prop := exists e, e ∈ t /\ spoils h g e.

Lemma spoiled_app h g t t' : spoiled h g (t ++ t') <-> spoiled h g t \/ spoiled h g t'.
Proof.
  unfold spoiled. setoid_rewrite elem_of_app. naive_solver.
Qed.

(** From [s] to [s'] by the events [t], every intent that was stored or got saved
    on the way is stored, or was spoiled after. *)
Definition kept_by (t : list JoinEvent) s s' : Prop :=
  trace s' = t ++ trace s /\ named s'
  /\ (forall h g, stored h g s -> spoiled h g t \/ stored h g s')
  /\ (forall h g t2 t1, t = t2 ++ EvSaved h g :: t1 -> spoiled h g t2 \/ stored h g s').

Definition framed s s' : Prop := named s -> exists t, kept_by t s s'.

Lemma kept_by_trans t1 t2 s1 s2 s3 :
  kept_by t1 s1 s2 -> kept_by t2 s2 s3 -> kept_by (t2 ++ t1) s1 s3.
Proof.
  intros (E1 & _ & K1 & S1) (E2 & N2 & K2 & S2). split; [by rewrite E2, E1, app_assoc|].
  split; [done|]. split.
  - intros h g Hs. rewrite spoiled_app. destruct (K1 h g Hs) as [|Hs2]; [auto|].
    destruct (K2 h g Hs2); auto.
  - intros h g a b Heq. destruct (app_eq_inv _ _ _ _ Heq) as [(k & Ea & Eb) | (k & Ea & Eb)].
    + destruct k as [|e k].
      * simplify_eq/=. rewrite app_nil_r in *. destruct (S1 h g [] b eq_refl) as [[? [Hin _]]|Hs];
          [by apply elem_of_nil in Hin | by apply K2].
      * simplify_eq/=. by destruct (S2 h g a k eq_refl); auto.
    + rewrite Ea, spoiled_app. destruct (S1 h g k b) as [|Hs]; [done|auto|].
      destruct (K2 h g Hs); auto.
Qed.

#[export] Instance framed_preorder : PreOrder framed.
Proof.
  split.
  - intros s Hn. exists []. split; [done|]. split; [done|]. split; [auto|].
    intros h g [] ? ?; simplify_eq/=.
  - intros s1 s2 s3 F1 F2 Hn. destruct (F1 Hn) as [t1 K1]. destruct (F2 (proj1 (proj2 K1))) as [t2 K2].
    exists (t2 ++ t1). by eapply kept_by_trans.
Qed.

Lemma quiet_kept t s s' :
  pending_dir s' = pending_dir s -> trace s' = t ++ trace s ->
  Forall (fun e => quiet_event e = true) t -> named s -> kept_by t s s'.
Proof.
  intros Hd Ht Hq Hn. split; [done|]. unfold named, stored. rewrite Hd.
  split; [done|]. split; [auto|]. intros h g t2 t1 ->. exfalso.
  apply Forall_app in Hq as [_ Hq]. by inversion Hq.
Qed.

Lemma quiet_framed s s' : quiet s s' -> framed s s'.
Proof. intros [Hd (t & Ht & Hq)] Hn. exists t. by apply quiet_kept. Qed.

(** A change of [g]'s file alone. *)
Definition edits (g : string) s s' : Prop :=
  (forall g', g' <> g -> pending_dir s' !! g' = pending_dir s !! g')
  /\ (forall b r, pending_dir s' !! g = Some b -> from_json b = Some r -> pj_group_id r = g).

Lemma edits_named g s s' : edits g s s' -> named s -> named s'.
Proof.
  intros [Ho Hg] Hn g' b r Hl Hj. destruct (decide (g' = g)) as [->|]; [by eapply Hg|].
  rewrite Ho in Hl by done. by eapply Hn.
Qed.

Lemma edits_stored g h g' s s' : edits g s s' -> g' <> g -> stored h g' s -> stored h g' s'.
Proof. intros [Ho _] Hne (b & r & Hl & ?). exists b, r. by rewrite Ho. Qed.

(** An edit of [g] logged by events that spoil [g] for every other intent. *)
Lemma edit_kept g t s s' :
  trace s' = t ++ trace s -> edits g s s' -> named s ->
  (forall h, stored h g s -> spoiled h g t \/ stored h g s') ->
  (forall h g' t2 t1, t = t2 ++ EvSaved h g' :: t1 -> g' = g /\ (spoiled h g t2 \/ stored h g s')) ->
  kept_by t s s'.
Proof.
  intros Ht He Hn Hg Hs. split; [done|]. split; [by eapply edits_named|]. split.
  - intros h g' Hst. destruct (decide (g' = g)) as [->|]; [auto|].
    right. by eapply edits_stored.
  - intros h g' t2 t1 E. by destruct (Hs h g' t2 t1 E) as [-> ?].
Qed.

(** *** The two writes *)

Lemma pending_remove_run g s :
  let s' := (pending_remove g s).2 in
  trace s' = trace s /\ edits g s s' \/ (trace s' = trace s /\ pending_dir s' = pending_dir s).
Proof.
  unfold pending_remove, bind, io. destruct (io_fault RemoveFile g (jworld s)) as [[e|] w]; simpl.
  - by right.
  - left. split; [done|]. split; intros; simpl in *; [by rewrite lookup_delete_ne|].
    by rewrite lookup_delete_eq in *.
Qed.

Lemma pending_upsert_run r s :
  (exists e w, pending_upsert r s = (Err e, set_jworld w s))
  \/ (exists w, pending_upsert r s
        = (Ok tt, set_pending (<[pj_group_id r := to_json r]> (pending_dir s)) (set_jworld w s))).
Proof.
  unfold pending_upsert, bind, io.
  destruct (io_fault WriteFile (pj_group_id r) (jworld s)) as [[e|] w]; simpl; eauto.
Qed.

Lemma upsert_edits r s w :
  edits (pj_group_id r) s
    (set_pending (<[pj_group_id r := to_json r]> (pending_dir s)) (set_jworld w s)).
Proof.
  split; simpl.
  - intros. by rewrite lookup_insert_ne.
  - intros b r' Hl Hj. rewrite lookup_insert_eq in Hl. simplify_eq.
    rewrite from_to_json in Hj. by simplify_eq.
Qed.

Lemma upsert_stored r s w :
  pending_is_terminal r = false ->
  stored (pj_invite_hash r) (pj_group_id r)
    (set_pending (<[pj_group_id r := to_json r]> (pending_dir s)) (set_jworld w s)).
Proof.
  intros Ht. exists (to_json r), r. simpl. by rewrite lookup_insert_eq, from_to_json.
Qed.

(** A retirement: the keyed event, then the removal. *)
Lemma retire_framed g s s1 :
  trace s1 = EvKeyed g :: trace s \/ trace s1 = EvDropped g :: trace s ->
  pending_dir s1 = pending_dir s ->
  framed s (pending_remove g s1).2.
Proof.
  intros He Hd Hn. destruct (pending_remove_run g s1) as [[Ht Hed] | [Ht Hdir]];
    (assert (exists e, trace (pending_remove g s1).2 = [e] ++ trace s
               /\ (e = EvKeyed g \/ e = EvDropped g)) as (e & Htr & Hev);
     [rewrite Ht; destruct He as [-> | ->]; eauto|]);
    exists [e].
  - apply (edit_kept g); [done| |done| |].
    + destruct Hed as [Ho Hg]. split; [|done]. intros g' Hne. rewrite Ho by done. by rewrite Hd.
    + intros h _. left. exists e. split; [by apply list_elem_of_singleton|]. unfold spoils. naive_solver.
    + intros h g' [|? []] t1 E; simplify_eq/=; naive_solver.
  - split; [done|]. unfold named, stored. rewrite Hdir, Hd. split; [done|]. split; [auto|].
    intros h g' [|? []] t1 E; simplify_eq/=; naive_solver.
Qed.

(** *** The listing *)

Lemma read_files_spec files s :
  exists fs t s', read_files files s = (Ok (omap (fun f => from_json f.2) fs), s')
    /\ fs `sublist_of` files /\ trace s' = t ++ trace s
    /\ forall f, f ∈ files -> f ∈ fs \/ EvUnread f.1 ∈ t.
Proof.
  revert s. induction files as [|[name b] files IH]; intros s.
  - exists [], [], s. split_and!; [done|done|done|]. intros f Hf. by apply elem_of_nil in Hf.
  - simpl. unfold bind, attempt, io.
    destruct (io_fault ReadFile name (jworld s)) as [[e|] w].
    + simpl. match goal with |- context [read_files files ?s1] =>
        destruct (IH s1) as (fs & t & s' & -> & ? & Ht & Hin) end.
      exists fs, (t ++ [EvUnread name]), s'. split_and!; [done|by constructor| |].
      * rewrite Ht, <- app_assoc. done.
      * intros f [->|Hf]%elem_of_cons; [right; set_solver|]. destruct (Hin f Hf); set_solver.
    + destruct (IH (set_jworld w s)) as (fs & t & s' & -> & ? & Ht & Hin).
      exists ((name, b) :: fs), t, s'. simpl. split_and!; [by destruct (from_json b)|by constructor|done|].
      intros f [->|Hf]%elem_of_cons; [set_solver|]. destruct (Hin f Hf); set_solver.
Qed.

(** The record is what its group's file holds. *)
Definition current (r : PendingJoin) s : Prop :=
  exists b, pending_dir s !! pj_group_id r = Some b /\ from_json b = Some r.

Lemma pending_list_spec s :
  named s ->
  (exists e s', pending_list s = (Err e, s') /\ quiet s s')
  \/ exists l t s', pending_list s = (Ok l, s') /\ quiet s s' /\ trace s' = t ++ trace s
     /\ NoDup (pj_group_id <$> l) /\ Forall (fun r => current r s') l
     /\ (forall h g, stored h g s ->
           (exists r, r ∈ l /\ pj_invite_hash r = h /\ pending_is_terminal r = false)
           \/ EvUnread g ∈ t).
Proof.
  intros Hn. unfold pending_list, bind, io.
  destruct (io_fault ReadDir "pending_joins" (jworld s)) as [[e|] w];
    [left; do 2 eexists; split; [done|by apply quiet_same]|right].
  set (s1 := set_jworld w s).
  destruct (read_files_spec (hm_iter (pending_dir s1)) s1) as (fs & t & s' & E & Hsub & Ht & Hin).
  assert (Hq : quiet s s').
  { etrans; [by apply (quiet_same s s1)|].
    pose proof (quiet_read_files (hm_iter (pending_dir s1)) s1) as Hq. by rewrite E in Hq. }
  rewrite E. pose proof Hq as [Hd _].
  assert (Hfs : forall f, f ∈ fs -> pending_dir s !! f.1 = Some f.2).
  { intros [name b] Hf. apply elem_of_hm_iter. by eapply elem_of_sublist. }
  exists (omap (fun f => from_json f.2) fs), t, s'.
  split_and!; [done|done|done| | |].
  - assert (Hnd : NoDup fs.*1).
    { eapply sublist_NoDup; [apply (NoDup_hm_keys (pending_dir s1))|]. by apply fmap_sublist. }
    clear -Hfs Hnd Hn. induction fs as [|[name b] fs IH]; [constructor|].
    apply NoDup_cons in Hnd as [Hnot Hnd]. simpl.
    destruct (from_json b) as [r|] eqn:Hj; [|apply IH; [set_solver|done]].
    simpl. apply NoDup_cons. split; [|apply IH; [set_solver|done]].
    rewrite (Hn name b r); [|apply (Hfs (name, b)); set_solver|done].
    intros (r' & Hg & (f & Hf & Hj')%list_elem_of_omap)%list_elem_of_fmap. apply Hnot.
    apply list_elem_of_fmap. exists f. split; [|done].
    simpl. rewrite Hg. eapply Hn; [apply Hfs; set_solver|done].
  - apply Forall_forall. intros r ([name b] & Hf & Hj)%list_elem_of_omap. simpl in Hj.
    apply Hfs in Hf as Hl. exists b. rewrite Hd, (Hn name b r) by done. done.
  - intros h g (b & r & Hl & Hj & Hh & Hterm). destruct (Hin (g, b)) as [Hf|Hf]; [by apply elem_of_hm_iter| |by right].
    left. exists r. split; [|done]. apply list_elem_of_omap. by exists (g, b).
Qed.

(** *** The driver *)

(** A change of [g]'s file alone, that keeps every intent or logs why not. *)
Definition framed_at (g : string) s s' : Prop :=
  framed s s' /\ forall g', g' <> g -> pending_dir s' !! g' = pending_dir s !! g'.

Lemma quiet_framed_at g s s' : quiet s s' -> framed_at g s s'.
Proof. intros Hq. split; [by apply quiet_framed|]. by destruct Hq as [-> _]. Qed.

Lemma framed_at_trans g s1 s2 s3 : framed_at g s1 s2 -> framed_at g s2 s3 -> framed_at g s1 s3.
Proof.
  intros [F1 E1] [F2 E2]. split; [by etrans|]. intros g' Hne. by rewrite E2, E1.
Qed.

Lemma current_quiet r s s' : quiet s s' -> current r s -> current r s'.
Proof. intros [Hd _] Hc. unfold current. by rewrite Hd. Qed.

Lemma attempt_framed r st (bridge : PendingJoin -> M W unit) s :
  current r s -> pending_is_terminal r = false ->
  match st with JoinFailed _ => False | _ => True end ->
  (forall r', keeps quiet (bridge r')) ->
  framed_at (pj_group_id r) s
    ((let! now := clock in
      let r' := attempted st now r in
      let! _ := pending_upsert r' in
      let! _ := attempt (bridge r') in
      ret DrivePending) s).2.
Proof.
  intros (b & Hl & Hj) Hlive Hst Hb. unfold bind at 1, clock. simpl.
  set (r' := attempted st _ r). unfold bind.
  destruct (pending_upsert_run r' s) as [(e & w & ->) | (w & ->)].
  { by apply quiet_framed_at, quiet_same. }
  eapply framed_at_trans; [|apply quiet_framed_at].
  2:{ pose proof (Hb r' (set_pending (<[pj_group_id r' := to_json r']> (pending_dir s)) (set_jworld w s))) as Hq.
      unfold attempt. by destruct (bridge r' _). }
  split; [|intros; simpl; by rewrite lookup_insert_ne].
  intros Hn. exists []. apply (edit_kept (pj_group_id r)); [done|apply (upsert_edits r')|done| |].
  - intros h (b' & r0 & Hl' & Hj' & <- & _). simplify_eq. right.
    apply (upsert_stored r'). by destruct st.
  - intros h g' [] ? ?; simplify_eq/=.
Qed.

Lemma retire_framed_at {A} g (k : unit -> M W A) s :
  (forall u, keeps quiet (k u)) ->
  framed_at g s ((let! _ := event (EvKeyed g) in let! u := pending_remove g in k u) s).2.
Proof.
  intros Hk. unfold bind at 1, event. simpl. set (s1 := mkJoin _ _ _ _ _).
  assert (framed_at g s (pending_remove g s1).2) as Hr.
  { split; [by apply retire_framed; [left|]|]. intros g' Hne.
    destruct (pending_remove_run g s1) as [[_ [Ho _]] | [_ Hd]]; [by rewrite Ho | by rewrite Hd]. }
  unfold bind. destruct (pending_remove g s1) as [[u|e] s2]; [|done].
  eapply framed_at_trans; [exact Hr|]. apply quiet_framed_at, Hk.
Qed.

Lemma production_drive_framed r s :
  current r s -> framed_at (pj_group_id r) s (production_drive r s).2.
Proof.
  intros Hc. unfold production_drive, drive_once.
  destruct (pj_state r) eqn:Hst; [| | |by apply quiet_framed_at];
    (unfold bind at 1; pose proof (quiet_status (pj_group_id r) s) as Hq;
     unfold attempt at 1; destruct (production_status (pj_group_id r) s) as [st s1]; simpl in Hq;
     eapply framed_at_trans; [by apply quiet_framed_at|];
     pose proof (current_quiet _ _ _ Hq Hc) as Hc1;
     assert (pending_is_terminal r = false) as Hlive by (unfold pending_is_terminal; by rewrite Hst);
     destruct st as [[]|]; [apply (attempt_framed r Bridged); auto with joins
                           | apply retire_framed_at; intros; keeps
                           | apply (attempt_framed r KeyedButUnverified); auto with joins
                           | by apply quiet_framed_at]).
Qed.

Lemma drive_due_framed r s : current r s -> framed_at (pj_group_id r) s (drive_due r s).2.
Proof.
  intros Hc. unfold drive_due, bind, clock. case_match; [by apply quiet_framed_at|].
  by apply production_drive_framed.
Qed.

Lemma drive_each_framed l s :
  NoDup (pj_group_id <$> l) -> Forall (fun r => current r s) l ->
  framed s (drive_each drive_due l s).2.
Proof.
  revert s. induction l as [|r l IH]; intros s Hnd Hc; [simpl; reflexivity|].
  apply NoDup_cons in Hnd as [Hnot Hnd]. apply Forall_cons in Hc as [Hr Hl]. simpl.
  destruct (drive_due_framed r s Hr) as [Hf Ho].
  unfold bind. destruct (drive_due r s) as [[o|e] s1]; [|done]. simpl in *.
  assert (framed s1 (drive_each drive_due l s1).2) as Hrest.
  { apply IH; [done|]. apply Forall_forall. intros r' Hin.
    destruct (proj1 (Forall_forall _ _) Hl r' Hin) as (b & Hb & Hj). exists b. split; [|done].
    rewrite Ho; [done|]. intros E. apply Hnot. rewrite <- E. by apply list_elem_of_fmap_2. }
  destruct (drive_each drive_due l s1) as [[out|e] s2]; simpl in *; by etrans.
Qed.

Lemma bind_framed {A B} (m : M W A) (k : A -> M W B) s :
  framed s (m s).2 -> (forall a s1, m s = (Ok a, s1) -> named s -> framed s1 (k a s1).2) ->
  framed s (bind m k s).2.
Proof.
  intros Hm Hk Hn. unfold bind. destruct (m s) as [[a|e] s1]; simpl in *; [|auto].
  exact (transitivity (R := framed) Hm (Hk a s1 eq_refl Hn) Hn).
Qed.

Lemma quiet_at {A} (m : M W A) s : keeps quiet m -> framed s (m s).2.
Proof. intros Hq. apply quiet_framed, Hq. Qed.

Lemma listed_framed {A} (k : list PendingJoin -> M W A) s :
  (forall l s1, NoDup (pj_group_id <$> l) -> Forall (fun r => current r s1) l -> framed s1 (k l s1).2) ->
  framed s ((let! l := pending_list in k l) s).2.
Proof.
  intros Hk. apply bind_framed; [apply quiet_at; auto with joins|]. intros l s1 E Hn.
  destruct (pending_list_spec s Hn) as [(e & s' & E' & _) | (l' & t & s' & E' & _ & _ & Hnd & Hc & _)];
    rewrite E' in E; simplify_eq. by apply Hk.
Qed.

Lemma drive_pending_joins_once_framed : keeps framed (drive_pending_joins_once (W := W)).
Proof.
  intros s. apply bind_framed; [apply quiet_at; unfold pending_open; keeps|]. intros _ s1 _ _.
  apply bind_framed; [apply quiet_at; unfold pending_open; keeps|]. intros _ s2 _ _.
  apply listed_framed. intros l s3 Hnd Hc. apply drive_each_framed.
  - by apply NoDup_fmap_filter_bool.
  - apply Forall_forall. intros r [_ Hin]%elem_of_list_filter_bool.
    by apply (proj1 (Forall_forall _ _) Hc).
Qed.

(** *** Posting *)

Lemma save_intent_framed invite gid captured : keeps framed (save_intent invite gid captured).
Proof.
  intros s. unfold save_intent. destruct captured as [cap|]; [|apply quiet_at; by keeps].
  apply bind_framed; [apply quiet_at; auto with joins|]. intros r s1 Eb _.
  assert (pj_group_id r = gid /\ pj_invite_hash r = invite_hash invite /\ pending_is_terminal r = false)
    as (Hg & Hh & Ht).
  { unfold build_pending_join, bind, call, clock, ret, raise in Eb. by repeat (case_match; simplify_eq/=). }
  unfold bind. destruct (pending_upsert_run r s1) as [(e & w & ->) | (w & ->)].
  { by apply quiet_framed, quiet_same. }
  intros Hn. exists [EvSaved (invite_hash invite) gid].
  apply (edit_kept gid); [done| |done| |].
  - rewrite <- Hg. apply (upsert_edits r s1 w).
  - intros h _. destruct (decide (h = invite_hash invite)) as [->|Hne].
    + right. rewrite <- Hh, <- Hg. by apply (upsert_stored r s1 w).
    + left. eexists. split; [by apply list_elem_of_singleton|]. do 3 right. eauto.
  - intros h g' [|? []] t1 E; simplify_eq/=. split; [done|]. right.
    rewrite <- Hh. by apply (upsert_stored r s1 w).
Qed.

Lemma event_framed e :
  match e with EvSaved _ _ => False | _ => True end -> keeps (W := W) framed (event e).
Proof.
  intros He s Hn. exists [e]. split; [done|]. split; [done|]. split; [by right|].
  intros h g [|? []] t1 E; simplify_eq/=; done.
Qed.

Lemma remove_framed {A} g (k : result unit ChatError -> M W A) s :
  (forall u, keeps quiet (k u)) ->
  framed s ((let! _ := event (EvDropped g) in let! u := attempt (pending_remove g) in k u) s).2.
Proof.
  intros Hk. unfold bind at 1, event. simpl. set (s1 := mkJoin _ _ _ _ _).
  assert (framed s (pending_remove g s1).2) as Hr by (by apply retire_framed; [right|]).
  unfold bind, attempt. destruct (pending_remove g s1) as [u s2].
  etrans; [exact Hr|]. apply quiet_at, Hk.
Qed.

Lemma settle_join_framed gid captured : keeps framed (settle_join gid captured).
Proof.
  intros s. apply bind_framed; [apply quiet_at; unfold run_native_then_bridge; keeps|].
  intros o s1 _ _.
  repeat case_match; try (apply quiet_at; by keeps); apply remove_framed; intros; keeps.
Qed.

Lemma after_post_framed invite answer : keeps framed (after_post invite answer).
Proof.
  destruct answer as [gid captured]. intros s. unfold after_post.
  apply bind_framed; [apply save_intent_framed|]. intros; apply settle_join_framed.
Qed.

Lemma join_post_framed invite name : keeps framed (join_post (W := W) invite name).
Proof.
  intros s. apply bind_framed; [by apply event_framed|]. intros _ s1 _ _.
  apply quiet_at. keeps.
Qed.

Lemma dispatch_framed topic payload sender :
  keeps framed (dispatch_join_result (W := W) topic payload sender).
Proof.
  intros s. unfold dispatch_join_result.
  destruct (b64_decode payload) as [ev|]; [|apply quiet_at; keeps].
  destruct (member_added_self_target ev self_hex) as [[g m]|]; [|apply quiet_at; keeps].
  apply bind_framed; [apply quiet_at; keeps|]. intros applied s1 _ _.
  case_match; [|apply quiet_at; keeps].
  apply bind_framed; [apply quiet_at; keeps|]. intros st s2 _ _.
  case_match; [|apply quiet_at; keeps].
  unfold bind at 1, event. simpl. set (s3 := mkJoin _ _ _ _ _).
  unfold bind at 1, attempt, bind at 1, pending_open, io.
  destruct (io_fault OpenDir "pending_joins" (jworld s3)) as [[e|] w]; simpl.
  - etrans; [apply (event_framed (EvKeyed g) I)|]. etrans; [|apply quiet_at; auto with joins].
    by apply quiet_framed, quiet_same.
  - assert (framed s2 (pending_remove g (set_jworld w s3)).2) as Hr by (by apply retire_framed; [left|]).
    destruct (pending_remove g (set_jworld w s3)) as [u s4].
    etrans; [exact Hr|]. apply quiet_at. auto with joins.
Qed.
End intents.

(** ** Recovery through its seams *)

Section through_seams.
  Context {W : Type} `{RecoverySeams W} (R : W -> W -> Prop) `{!PreOrder R}.
  Context (R_fetch : forall g n w, R w (fetch_since g n w).2).
  Context (R_apply : forall g rec w, R w (apply_record g rec w).2).
  Context (R_probe : forall g w, R w (probe_group g w).2).
  Context (R_cold : forall g w, R w (recover_cold g w).2).

Lemma apply_loop_through g records cursor a k w :
  R w (apply_loop g records cursor a k w).2.
Proof.
  revert cursor a k w. induction records as [|rec records IH]; intros; simpl; [reflexivity|].
  case_match; [apply IH|]. case_match; [reflexivity|].
  pose proof (R_apply g rec w) as Ha. destruct (apply_record g rec w) as [[[]|] w1]; simpl in *;
    [| |done]; etrans; try exact Ha; apply IH.
Qed.

Lemma recover_passes_through passes g t r :
  R (rv_world r) (rv_world (recover_passes passes g t r).2).
Proof.
  revert r. induction passes as [|passes IH]; intros r; simpl; [reflexivity|].
  pose proof (R_fetch g (cursor_of g r) (rv_world r)) as Hf.
  destruct (fetch_since g (cursor_of g r) (rv_world r)) as [[[|rec recs]|e] w1]; simpl in Hf; [| |done].
  - pose proof (R_probe g w1) as Hp. destruct (probe_group g w1) as [[st|e] w2]; simpl in *;
      [|by etrans]. case_match; by etrans.
  - pose proof (apply_loop_through g (rec :: recs) (cursor_of g r) 0 0 w1) as Ha.
    unfold apply_records_in_order.
    destruct (apply_loop g (rec :: recs) (cursor_of g r) 0 0 w1) as [[res|e] w2]; simpl in Ha; [|by etrans].
    case_match; [by do 2 (etrans; [done|])|].
    pose proof (R_probe g w2) as Hp. destruct (probe_group g w2) as [[st|e] w3]; simpl in Hp;
      [|by do 2 (etrans; [done|])].
    assert (R (rv_world r) w3) as H3 by (by do 2 (etrans; [done|])).
    repeat case_match; [done| |]; (etrans; [exact H3|]; apply (IH (with_world w3 (set_cursor g (al_cursor res) (with_world w2 r))))).
Qed.

Lemma recover_once_through g t r : R (rv_world r) (rv_world (recover_once g t r).2).
Proof.
  unfold recover_once. pose proof (R_probe g (rv_world r)) as Hp.
  destruct (probe_group g (rv_world r)) as [[st|e] w1]; simpl in Hp; [|done].
  case_match; [case_match; [done|]|].
  - etrans; [exact Hp|]. apply (recover_passes_through _ g t (with_status _ (with_world w1 r))).
  - simpl. pose proof (R_cold g w1) as Hc. destruct (recover_cold g w1) as [[d|e] w2]; by etrans.
Qed.
End through_seams.

(** ** Runs of the client *)

Definition is_post (e : JoinEvent) : bool := match e with EvPosted _ => true | _ => false end.

Definition unposted {W} (s s' : JoinSys W) : Prop :=
  exists t, trace s' = t ++ trace s /\ Forall (fun e => is_post e = false) t.

#[export] Instance unposted_preorder {W} : PreOrder (@unposted W).
Proof.
  split.
  - intros s. by exists [].
  - intros s1 s2 s3 (t & Ht & Hq) (t' & Ht' & Hq').
    exists (t' ++ t). rewrite Ht', Ht, app_assoc. split; [done|]. by apply Forall_app.
Qed.

Lemma quiet_unposted {W} (s s' : JoinSys W) : quiet s s' -> unposted s s'.
Proof.
  intros [_ (t & Ht & Hq)]. exists t. split; [done|]. eapply Forall_impl; [exact Hq|].
  by intros [].
Qed.

(** A call of [join_group_durable] is a tap with the sections its long waits delimit:
    the resume check, the post, the saving of the intent, the settling.  [TapChecked]
    keeps the trace its check saw. *)
Inductive Tap :=
| TapChecked (invite : string) (display_name : option string) (seen : list JoinEvent)
| TapAnswered (invite : string) (answer : string * option CapturedSelfJoin)
| TapSaved (gid_hex : string) (captured : option CapturedSelfJoin)
| TapDone.

Inductive JoinOp :=
| OpTap (invite : string) (display_name : option string)
| OpPost (tap : nat)
| OpSave (tap : nat)
| OpSettle (tap : nat)
| OpDrive
| OpReply (topic payload_b64 sender_hex : string)
| OpRecover (group_id : string) (target_epoch : option N).

Section runs.
  Context {W : Type} `{JoinSeams W} `{JsonObject} `{Base64} `{StatusText} `{Sha256}.
  Context `{!JsonFile PendingJoin} `{!JsonFile ConvergenceRecord} `{!HashIter string bytes}.
  Implicit Types s : JoinSys W.

(** The client, its taps, and the checks that found no stored intent: the invite and
    the trace they saw. *)
Record JoinRun := mkRun {
  jr_client : Recovery (JoinSys W);
  jr_taps : list Tap;
  jr_checks : list (string * list JoinEvent);
}.
Definition run_trace (j : JoinRun) : list JoinEvent := trace (rv_world (jr_client j)).
Definition set_client (r : Recovery (JoinSys W)) (j : JoinRun) : JoinRun := mkRun r (jr_taps j) (jr_checks j).
(** Tap [n] runs [m] and goes on as [next] says. *)
Definition advance {A} (n : nat) (m : M W A) (next : A -> Tap) (j : JoinRun) : JoinRun :=
  let '(res, s) := m (rv_world (jr_client j)) in
  mkRun (with_world s (jr_client j)) (<[n := match res with Ok a => next a | Err _ => TapDone end]> (jr_taps j)) (jr_checks j).

Definition tap_check (invite : string) : M W (option string) := let! _ := pending_open in resume_check invite.

Definition join_step (op : JoinOp) (j : JoinRun) : JoinRun :=
  let r := jr_client j in
  match op with
  | OpTap invite name =>
      match tap_check invite (rv_world r) with
      | (Ok None, s) => mkRun (with_world s r) (jr_taps j ++ [TapChecked invite name (trace s)]) ((invite, trace s) :: jr_checks j)
      | (_, s) => set_client (with_world s r) j
      end
  | OpPost n => match jr_taps j !! n with
                | Some (TapChecked invite name _) => advance n (join_post invite name) (TapAnswered invite) j
                | _ => j
                end
  | OpSave n => match jr_taps j !! n with
                | Some (TapAnswered invite (gid, captured)) => advance n (save_intent invite gid captured) (fun _ => TapSaved gid captured) j
                | _ => j
                end
  | OpSettle n => match jr_taps j !! n with
                  | Some (TapSaved gid captured) => advance n (settle_join gid captured) (fun _ => TapDone) j
                  | _ => j
                  end
  | OpDrive => set_client (with_world (drive_pending_joins_once (rv_world r)).2 r) j
  | OpReply topic payload sender => set_client (with_world (dispatch_join_result topic payload sender (rv_world r)).2 r) j
  | OpRecover g t => set_client (recover_group_once g t r).2 j
  end.

Definition join_run (ops : list JoinOp) (j : JoinRun) : JoinRun := foldl (fun j op => join_step op j) j ops.

(** A client with no pending join. *)
Definition fresh_client (w : W) : JoinRun :=
  mkRun (mkRecovery (mkStatus ∅ []) ∅ (mkJoin ∅ ∅ None [] w)) [] [].

(** A tap nothing interrupts is the call. *)
Lemma tap_alone invite name j :
  let n := length (jr_taps j) in
  rv_world (jr_client (join_run [OpTap invite name; OpPost n; OpSave n; OpSettle n] j))
  = (join_group_durable invite name (rv_world (jr_client j))).2.
Proof.
  cbv zeta. assert (jr_taps j !! length (jr_taps j) = None) as Hnone by (by apply lookup_ge_None_2).
  unfold join_run, join_group_durable. cbn [foldl join_step]. unfold tap_check, bind.
  destruct (pending_open _) as [[u|e] s0]; [|by repeat (cbn [set_client jr_taps]; rewrite Hnone)].
  destruct (resume_check invite s0) as [[[g|]|e] s1]; [by repeat (cbn [set_client jr_taps]; rewrite Hnone)| |by repeat (cbn [set_client jr_taps]; rewrite Hnone)].
  unfold post_and_settle, bind, advance. cbn [jr_taps jr_client rv_world with_world].
  rewrite list_lookup_middle by done. cbn [rv_world with_world]. destruct (join_post invite name s1) as [[[gid cap]|e] s2]; cbn [jr_taps jr_client jr_checks].
  2:{ by rewrite list_lookup_insert_eq by (rewrite length_app; cbn; lia); cbn; rewrite list_lookup_insert_eq by (rewrite length_app; cbn; lia). }
  rewrite list_lookup_insert_eq by (rewrite length_app; cbn; lia). cbn [jr_taps jr_client jr_checks rv_world with_world]. unfold after_post, bind.
  destruct (save_intent invite gid cap s2) as [[[]|e] s3]; cbn [jr_taps jr_client jr_checks];
    rewrite list_lookup_insert_eq by (rewrite length_insert, length_app; cbn; lia); cbn; [|done].
  by destruct (settle_join gid cap s3) as [[]].
Qed.

Lemma unposted_event e : is_post e = false -> keeps (W := W) unposted (event e).
Proof. intros He s. exists [e]. split; [done|]. by repeat constructor. Qed.
Lemma unposted_upsert r : keeps (W := W) unposted (pending_upsert r).
Proof.
  intros s. destruct (pending_upsert_run r s) as [(e & w & ->) | (w & ->)]; by exists [].
Qed.
Lemma unposted_remove g : keeps (W := W) unposted (pending_remove g).
Proof.
  intros s. destruct (pending_remove_run g s) as [[Ht _] | [Ht _]]; by exists [].
Qed.
Lemma unposted_quiet {A} (m : M W A) : keeps quiet m -> keeps unposted m.
Proof. apply keeps_sub, quiet_unposted. Qed.

Ltac unposted_step :=
  match goal with
  | |- keeps _ (pending_upsert _) => apply unposted_upsert
  | |- keeps _ (pending_remove _) => apply unposted_remove
  | |- keeps _ (event _) => apply unposted_event; reflexivity
  | |- keeps _ (bind _ _) => apply keeps_bind; [apply _ | | intros ?]
  | |- keeps _ (attempt _) => apply keeps_attempt
  | |- keeps _ (match _ with _ => _ end) => case_match
  | |- keeps unposted _ => apply unposted_quiet; solve [keeps]
  end.
Ltac unposted := repeat unposted_step.

Lemma unposted_drive : keeps (W := W) unposted drive_pending_joins_once.
Proof.
  assert (forall l, keeps (W := W) unposted (drive_each drive_due l)) as Hl.
  { intros l. induction l as [|r l IH]; simpl; [unposted|].
    apply keeps_bind; [apply _| |intros o; apply keeps_bind; [apply _|done|intros; unposted]].
    unfold drive_due, production_drive, drive_once. unposted. }
  unfold drive_pending_joins_once, pending_open. unposted. apply Hl.
Qed.

Lemma unposted_dispatch t p sd : keeps (W := W) unposted (dispatch_join_result t p sd).
Proof. unfold dispatch_join_result, pending_open. unposted. Qed.

Lemma unposted_after_post invite answer : keeps (W := W) unposted (after_post invite answer).
Proof. destruct answer. unfold after_post, save_intent, settle_join, run_native_then_bridge. unposted. Qed.

Lemma recover_keeps R `{!PreOrder R} g t r :
  (forall s s', quiet s s' -> R s s') -> keeps (W := W) R drive_pending_joins_once ->
  R (rv_world r) (rv_world (recover_group_once g t r).2).
Proof.
  intros Hq Hd. apply (recover_once_through R); intros; simpl.
  - apply Hq, quiet_fetch.
  - apply Hq, quiet_applier.
  - apply Hq, quiet_probe.
  - unfold recover_via_pending_joins. apply keeps_bind; [done|exact Hd|].
    intros a s. apply Hq. by apply keeps_ret; apply _.
Qed.

(** *** No invite is spent while its intent is stored *)

Definition saves_held s : Prop :=
  forall h g t2 t1, trace s = t2 ++ EvSaved h g :: t1 -> spoiled h g t2 \/ stored h g s.

Lemma saves_held_framed s s' : named s -> framed s s' -> saves_held s -> named s' /\ saves_held s'.
Proof.
  intros Hn Hf Hs. destruct (Hf Hn) as (t & Ht & Hn' & Hk & Ht2). split; [done|].
  intros h g a b E. rewrite Ht in E.
  destruct (app_eq_inv _ _ _ _ E) as [(k & Ea & Eb) | (k & Ea & Eb)].
  - destruct k as [|e k]; simplify_eq/=; [|by apply (Ht2 h g a k)].
    rewrite app_nil_r in *. destruct (Hs h g [] b) as [[? [Hin _]]|Hst];
      [done|by apply elem_of_nil in Hin|auto].
  - rewrite Ea, spoiled_app. destruct (Hs h g k b Eb) as [|Hst]; [auto|]. destruct (Hk h g Hst); auto.
Qed.

Lemma resume_check_guards invite s s' :
  named s -> saves_held s -> resume_check invite s = (Ok None, s') ->
  forall t2 g t1, trace s' = t2 ++ EvSaved (invite_hash invite) g :: t1 ->
  spoiled (invite_hash invite) g t2.
Proof.
  intros Hn Hs. unfold resume_check, bind.
  destruct (pending_list_spec s Hn) as [(e & s1 & -> & _) | (l & t & s1 & -> & Hq & Ht & _ & _ & Hin)];
    [done|]. intros Er. injection Er as Hfind ->.
  assert (List.find (fun r => negb (pending_is_terminal r)
                       && String.eqb (pj_invite_hash r) (invite_hash invite)) l = None) as Hnone.
  { revert Hfind. by destruct (List.find _ l). }
  assert (forall g, stored (invite_hash invite) g s -> spoiled (invite_hash invite) g t) as Hsp.
  { intros g Hst. destruct (Hin _ _ Hst) as [(r & Hr & Hh & Hlive)|Hun].
    - eapply List.find_none in Hnone; [|by apply list_elem_of_In].
      by rewrite Hlive, Hh, String.eqb_refl in Hnone.
    - exists (EvUnread g). split; [done|]. unfold spoils; naive_solver. }
  intros t2 g t1 E. rewrite Ht in E.
  destruct (app_eq_inv _ _ _ _ E) as [(k & Ea & Eb) | (k & Ea & Eb)].
  - destruct Hq as [_ (t' & Ht' & Hqt)]. rewrite Ht' in Ht. apply app_inv_tail in Ht. subst t'.
    destruct k as [|e k]; simplify_eq/=.
    + rewrite app_nil_r in *. destruct (Hs (invite_hash invite) g [] t1) as [[? [Hi _]]|Hst];
        [done|by apply elem_of_nil in Hi|auto].
    + apply Forall_app in Hqt as [_ Hqt]. by inversion Hqt.
  - rewrite Ea, spoiled_app. destruct (Hs (invite_hash invite) g k t1 Eb) as [|Hst]; auto.
Qed.

Lemma join_post_trace invite name s :
  exists t, trace (join_post (W := W) invite name s).2 = t ++ EvPosted invite :: trace s
    /\ Forall (fun e => is_post e = false) t.
Proof.
  unfold join_post. unfold bind at 1, event.
  match goal with |- context [bind ?m ?k ?s2] =>
    assert (keeps (W := W) quiet (bind m k)) as Hq by keeps;
    destruct (quiet_unposted _ _ (Hq s2)) as (t & Ht & ?) end.
  by exists t.
Qed.

Definition posts_of (invite : string) (t : list JoinEvent) : nat :=
  length (List.filter (fun e => match e with EvPosted i => String.eqb i invite | _ => false end) t).

Lemma posts_of_app invite t t' : posts_of invite (t ++ t') = (posts_of invite t + posts_of invite t')%nat.
Proof. unfold posts_of. by rewrite List.filter_app, length_app. Qed.

Lemma posts_of_unposted invite t :
  Forall (fun e => is_post e = false) t -> posts_of invite t = 0%nat.
Proof. induction 1 as [|e t He _ IH]; [done|]. unfold posts_of in *. by destruct e. Qed.

(** The checks of an invite that found nothing, and those whose tap has not posted. *)
Definition checks_of (invite : string) (j : JoinRun) : nat :=
  length (List.filter (fun c => String.eqb c.1 invite) (jr_checks j)).
Definition waiting (invite : string) (t : Tap) : nat :=
  match t with TapChecked i _ _ => if String.eqb i invite then 1 else 0 | _ => 0 end%nat.
Definition waiting_of (invite : string) (l : list Tap) : nat := foldr (fun t n => (waiting invite t + n)%nat) 0%nat l.

Lemma waiting_app invite l l' : waiting_of invite (l ++ l') = (waiting_of invite l + waiting_of invite l')%nat.
Proof. unfold waiting_of. induction l as [|t l IH]; [done|]. cbn. rewrite IH. lia. Qed.
Lemma waiting_insert invite l n t t' : l !! n = Some t ->
  (waiting_of invite (<[n := t']> l) + waiting invite t = waiting_of invite l + waiting invite t')%nat.
Proof.
  revert n. induction l as [|x l IH]; intros n; [done|].
  assert (forall y m, waiting_of invite (y :: m) = waiting invite y + waiting_of invite m)%nat as Hc by done.
  destruct n as [|n]; cbn [lookup list_lookup].
  - intros [= ->]. change (<[0%nat := t']> (t :: l)) with (t' :: l). rewrite !Hc. lia.
  - intros Hn. change (<[S n := t']> (x :: l)) with (x :: <[n := t']> l). rewrite !Hc. specialize (IH n Hn). lia.
Qed.

(** A check that saw the trace [seen] found no stored intent of [invite]. *)
Definition unstored (invite : string) (seen : list JoinEvent) : Prop :=
  forall g between older, seen = between ++ EvSaved (invite_hash invite) g :: older -> spoiled (invite_hash invite) g between.

Record guarded (j : JoinRun) : Prop := {
  gd_named : named (rv_world (jr_client j));
  gd_saves : saves_held (rv_world (jr_client j));
  gd_checks : forall invite seen, (invite, seen) ∈ jr_checks j -> seen `suffix_of` run_trace j /\ unstored invite seen;
  gd_taps : forall invite name seen, TapChecked invite name seen ∈ jr_taps j -> (invite, seen) ∈ jr_checks j;
  gd_posts : forall newer invite before, run_trace j = newer ++ EvPosted invite :: before ->
    exists seen, (invite, seen) ∈ jr_checks j /\ seen `suffix_of` before;
  gd_count : forall invite, (posts_of invite (run_trace j) + waiting_of invite (jr_taps j) <= checks_of invite j)%nat;
}.

(** A step that posts nothing and starts no tap. *)
Lemma guarded_step r' taps' j :
  guarded j -> framed (rv_world (jr_client j)) (rv_world r') -> unposted (rv_world (jr_client j)) (rv_world r') ->
  (forall invite name seen, TapChecked invite name seen ∈ taps' -> TapChecked invite name seen ∈ jr_taps j) ->
  (forall invite, waiting_of invite taps' <= waiting_of invite (jr_taps j))%nat ->
  guarded (mkRun r' taps' (jr_checks j)).
Proof.
  intros [Hn Hs Hc Ht Hp Hk] Hf (t & Htr & Hu) Hsub Hw. destruct (saves_held_framed _ _ Hn Hf Hs) as [Hn' Hs'].
  unfold run_trace in *. constructor; cbn [jr_client jr_taps jr_checks]; unfold run_trace; cbn [jr_client]; [done|done| |eauto| |].
  - intros invite seen Hin. destruct (Hc invite seen Hin) as [Hsuf ?]. split; [|done]. rewrite Htr. by apply suffix_app_r.
  - intros newer invite before E. rewrite Htr in E. apply app_eq_inv in E as [(k & Ea & Eb)|(k & Ea & Eb)]; [|by apply (Hp k)].
    destruct k as [|e k]; [by apply (Hp [])|]. simplify_eq/=. apply Forall_app in Hu as [_ Hu]. by inversion Hu.
  - intros invite. specialize (Hk invite). specialize (Hw invite). rewrite Htr, posts_of_app, (posts_of_unposted _ t Hu). unfold checks_of in *. cbn. lia.
Qed.

(** A tap that has been let through goes on without posting. *)
Lemma guarded_advance {A} n (m : M W A) next t j :
  guarded j -> jr_taps j !! n = Some t -> keeps framed m -> keeps unposted m ->
  (forall i a, waiting i (next a) = 0%nat /\ forall nm sn, next a <> TapChecked i nm sn) ->
  guarded (advance n m next j).
Proof.
  intros Hg Hl Hf Hu Hnext. unfold advance. specialize (Hf (rv_world (jr_client j))). specialize (Hu (rv_world (jr_client j))).
  destruct (m (rv_world (jr_client j))) as [res s]. set (t' := match res with Ok a => next a | Err _ => TapDone end).
  assert (forall i, waiting i t' = 0%nat /\ forall nm sn, t' <> TapChecked i nm sn) as Ht' by (intros i; subst t'; destruct res; [apply Hnext|done]).
  apply guarded_step; [done|done|done| |].
  - intros i nm sn [k Hk]%list_elem_of_lookup. apply list_lookup_insert_Some in Hk as [(_ & E & _)|[_ Hk]]; [by apply (Ht' i) in E|].
    by eapply list_elem_of_lookup_2.
  - intros i. pose proof (waiting_insert i _ _ _ t' Hl) as E. rewrite (proj1 (Ht' i)) in E. lia.
Qed.

Lemma guarded_post n invite name seen j :
  guarded j -> jr_taps j !! n = Some (TapChecked invite name seen) ->
  guarded (advance n (join_post invite name) (TapAnswered invite) j).
Proof.
  intros Hg Hl. pose proof (list_elem_of_lookup_2 _ _ _ Hl) as Hin. destruct Hg as [Hn Hs Hc Ht Hp Hk]. unfold advance.
  pose proof (join_post_framed invite name (rv_world (jr_client j))) as Hf. destruct (join_post_trace invite name (rv_world (jr_client j))) as (t & Htr & Hu).
  destruct (join_post invite name (rv_world (jr_client j))) as [res s]. cbn [snd] in *. destruct (saves_held_framed _ _ Hn Hf Hs) as [Hn' Hs'].
  set (t' := match res with Ok a => TapAnswered invite a | Err _ => TapDone end).
  assert (forall i, waiting i t' = 0%nat) as Hw by (intros i; by destruct res). pose proof (Ht _ _ _ Hin) as Hchk.
  unfold run_trace in *. constructor; cbn [jr_client jr_taps jr_checks rv_world with_world]; unfold run_trace; cbn [jr_client rv_world with_world]; [done|done| | | |].
  - intros i sn Hi. destruct (Hc i sn Hi) as [Hsuf ?]. split; [|done]. rewrite Htr. by apply suffix_app_r, suffix_cons_r.
  - intros i nm sn [k Hlk]%list_elem_of_lookup. apply list_lookup_insert_Some in Hlk as [(_ & E & _)|[_ Hlk]]; [subst t'; by destruct res|].
    eapply Ht, list_elem_of_lookup_2, Hlk.
  - intros newer i before E. rewrite Htr in E. apply app_eq_inv in E as [(k & Ea & Eb)|(k & Ea & Eb)].
    + destruct k as [|e k]; simplify_eq/=; [exists seen; split; [done|by apply (Hc invite seen)]|]. apply Forall_app in Hu as [_ Hu]. by inversion Hu.
    + destruct k as [|e k]; simplify_eq/=; [exists seen; split; [done|by apply (Hc i seen)]|by apply (Hp k)].
  - intros i. specialize (Hk i). pose proof (waiting_insert i _ _ _ t' Hl) as E. rewrite Hw in E. cbn [waiting] in E.
    rewrite Htr, posts_of_app, (posts_of_unposted _ t Hu). unfold checks_of, posts_of in *. cbn [List.filter jr_checks] in *.
    rewrite String.eqb_sym in E. rewrite String.eqb_sym. destruct (String.eqb i invite); cbn in *; lia.
Qed.

Lemma guarded_tap invite name j : guarded j -> guarded (join_step (OpTap invite name) j).
Proof.
  intros Hg. cbn [join_step]. set (s := rv_world (jr_client j)).
  assert (keeps (W := W) quiet (tap_check invite)) as Hq by (unfold tap_check, pending_open, resume_check; keeps).
  specialize (Hq s). pose proof (quiet_framed _ _ Hq) as Hf. pose proof (quiet_unposted _ _ Hq) as Hu.
  assert (forall s', tap_check invite s = (Ok None, s') -> unstored invite (trace s')) as Hun.
  { intros s'. unfold tap_check, bind, pending_open. pose proof (quiet_io OpenDir "pending_joins" s) as Hq0.
    destruct (io OpenDir "pending_joins" s) as [[u|e] s0]; [|done]. simpl in Hq0.
    destruct (saves_held_framed s s0 (gd_named j Hg) (quiet_framed _ _ Hq0) (gd_saves j Hg)) as [Hn0 Hs0].
    intros Hr g between older E. by eapply (resume_check_guards invite s0 s'). }
  destruct (tap_check invite s) as [[[g|]|e] s'] eqn:Hchk; cbn [snd] in *; [by apply guarded_step| |by apply guarded_step].
  specialize (Hun s' eq_refl). pose proof (guarded_step (with_world s' (jr_client j)) (jr_taps j) j Hg Hf Hu ltac:(done) ltac:(done)) as [Hn Hs Hc Ht Hp Hk].
  unfold run_trace in *. cbn [jr_client jr_taps jr_checks rv_world with_world] in *.
  constructor; cbn [jr_client jr_taps jr_checks rv_world with_world]; unfold run_trace; cbn [jr_client rv_world with_world]; [done|done| | | |].
  - intros i sn [[= -> ->]|Hi]%elem_of_cons; [done|by apply Hc].
  - intros i nm sn [Hi|[= -> -> ->]%list_elem_of_singleton]%elem_of_app; [right; by eapply Ht|left].
  - intros newer i before E. destruct (Hp newer i before E) as (sn & ? & ?). exists sn. split; [by right|done].
  - intros i. specialize (Hk i). rewrite waiting_app. unfold checks_of in *. cbn [List.filter jr_checks waiting_of foldr waiting fst] in *.
    destruct (String.eqb invite i); cbn [length]; lia.
Qed.

Lemma join_step_guarded op j : guarded j -> guarded (join_step op j).
Proof.
  intros Hg. destruct op as [invite name|n|n|n| |topic payload sender|g t]; [by apply guarded_tap|..]; cbn [join_step].
  - destruct (jr_taps j !! n) as [[]|] eqn:Hl; try done. by eapply guarded_post.
  - destruct (jr_taps j !! n) as [[|invite [gid cap]| |]|] eqn:Hl; try done. eapply guarded_advance; [done|done|apply save_intent_framed| |done].
    unfold save_intent. unposted.
  - destruct (jr_taps j !! n) as [[]|] eqn:Hl; try done. eapply guarded_advance; [done|done|apply settle_join_framed| |done].
    unfold settle_join, run_native_then_bridge. unposted.
  - apply guarded_step; [done|apply drive_pending_joins_once_framed|apply unposted_drive|done|done].
  - apply guarded_step; [done|apply dispatch_framed|apply unposted_dispatch|done|done].
  - apply guarded_step; [done| | |done|done].
    + apply (recover_keeps framed); [apply quiet_framed | apply drive_pending_joins_once_framed].
    + apply (recover_keeps unposted); [apply quiet_unposted | apply unposted_drive].
Qed.

Lemma join_run_guarded ops w : guarded (join_run ops (fresh_client w)).
Proof.
  unfold join_run. assert (guarded (fresh_client w)) as H0'.
  { constructor; cbn.
    - intros g b r Hl. simpl in Hl. by rewrite lookup_empty in Hl.
    - by intros h g [] t1.
    - intros ? ? Hi. by apply elem_of_nil in Hi.
    - intros ? ? ? Hi. by apply elem_of_nil in Hi.
    - by intros [] invite before.
    - done. }
  revert H0'. generalize (fresh_client w). induction ops as [|op ops IH]; intros j Hj; [done|].
  by apply IH, join_step_guarded.
Qed.

(** C7: in any run of taps whose checks, posts, saves and settling interleave, driver
    ticks, owner replies and epoch recoveries, from an empty store: every post of an
    invite is of a tap whose check found no intent of it, and each such check posts at
    most once.  A check finds none only when, since each earlier save of the invite, the
    client saw the group keyed, dropped or overwrote that group's record, or could not
    read its file: once an intent is saved, and while it stays stored and readable, no
    later tap spends the invite again. *)
Theorem stored_intent_stops_taps (ops : list JoinOp) (w : W) (invite : string) :
  let j := join_run ops (fresh_client w) in
  (posts_of invite (run_trace j) <= checks_of invite j)%nat /\
  (forall newer before, run_trace j = newer ++ EvPosted invite :: before ->
     exists seen, (invite, seen) ∈ jr_checks j /\ seen `suffix_of` before) /\
  (forall seen g between older, (invite, seen) ∈ jr_checks j ->
     seen = between ++ EvSaved (invite_hash invite) g :: older ->
     exists e, e ∈ between /\ spoils (invite_hash invite) g e).
Proof.
  cbv zeta. destruct (join_run_guarded ops w) as [_ _ Hc _ Hp Hk]. split; [specialize (Hk invite); lia|]. split.
  - intros newer before E. by apply (Hp newer).
  - intros seen g between older Hin E. by apply (proj2 (Hc invite seen Hin) g between older).
Qed.
End runs.

(** ** Re-bridging, probing, waiting *)

Section bridging.
  Context {W : Type} `{JoinSeams W} `{JsonObject} `{Base64} `{StatusText} `{Sha256}.
  Context `{!JsonFile PendingJoin} `{!JsonFile ConvergenceRecord} `{!HashIter string bytes}.
  Implicit Types s : JoinSys W.

(** Any number of drive steps on a record. *)
Inductive redriven : PendingJoin -> PendingJoin -> Prop :=
| redriven_refl r : redriven r r
| redriven_step r r' st now : redriven r r' -> redriven r (attempted st now r').

Definition bytes_ok (b : bytes) : Prop := Forall (fun x => x < 256) b.

(** Empty hints fall back to the router's own choice. *)
Definition some_relays (hints : option (list string)) : option (list string) :=
  match default [] hints with [] => None | relays => Some relays end.

Lemma redriven_rebridge r r' : redriven r r' -> rebridge_pending (W := W) r' = rebridge_pending r.
Proof. by induction 1. Qed.

(** However often the driver retried it, the record
    built from a captured join re-sends exactly what the first bridge sends: the
    same event bytes, topic, owner, owner key and joiner key, to the relays known
    when the join was submitted. *)
Theorem rebridge_replays_first_bridge (gid h : string) (cap : CapturedSelfJoin) (r r' : PendingJoin)
    s s1 (owner : string) (kem : bytes) (w1 : W) :
  bytes_ok (cap_payload cap) -> bytes_ok kem -> bytes_ok own_kem ->
  inviter_agent_id_from_member_joined (cap_payload cap) = Some owner ->
  resolve_owner_kem owner (jworld s) = (Ok kem, w1) ->
  build_pending_join gid h cap s = (Ok r, s1) -> redriven r r' ->
  forall s2, rebridge_pending r' s2
    = emit_self_join_bridge cap owner kem own_kem (some_relays (owner_hints owner w1)) s2.
Proof.
  intros Hp Hk Ho Hi Hr Hb Hd s2. rewrite (redriven_rebridge _ _ Hd).
  unfold build_pending_join, bind, call, clock, ret in Hb. rewrite Hi, Hr in Hb. simplify_eq/=.
  unfold rebridge_pending. simpl. rewrite !b64_decode_encode by done. by destruct cap.
Qed.

(** *** A stock daemon *)

(** The daemon has no apply routes. *)
Definition stock_daemon : Prop :=
  (forall g payload author w, exists e w', apply_metadata_event g payload author w = (Err e, w') /\ route_miss_404 e = true) /\
  (forall g member payload owner w, exists e w', apply_join_result g member payload owner w = (Err e, w') /\ route_miss_404 e = true).

(** A record the daemon would have to apply. *)
Definition actionable (rec : CommitRecord) : Prop := forall why, plan_apply member_added_self_target rec self_hex <> PlanSkip why.

Lemma stock_apply g rec s : stock_daemon ->
  actionable rec /\ (exists e, (applier_apply g rec s).1 = Err e) /\ engine_a_available (applier_apply g rec s).2 = default false (engine_a s) \/
  applier_apply g rec s = (Ok AlreadyApplied, s) /\ ~ actionable rec.
Proof.
  intros [Hm Hj]. unfold applier_apply, actionable. destruct (plan_apply _ rec _) as [payload author|sg member payload owner|why] eqn:Hplan; [left|left|right].
  - destruct (Hm g payload author (jworld s)) as (e & w' & Ha & Hr). split; [done|]. unfold bind, call_x0xd. rewrite Ha. unfold classify_apply_error.
    rewrite Hr. unfold bind, mark_engine_a_unsupported, raise, engine_a_available. cbn. split; [eauto|]. by destruct (engine_a s).
  - destruct (Hj sg member payload owner (jworld s)) as (e & w' & Ha & Hr). split; [done|]. unfold bind, call_x0xd. rewrite Ha. unfold classify_apply_error.
    rewrite Hr. unfold bind, mark_engine_a_unsupported, raise, engine_a_available. cbn. split; [eauto|]. by destruct (engine_a s).
  - split; [done|]. intros Hn. by apply (Hn why).
Qed.

Lemma stock_loop warm g num records cursor a k s : stock_daemon -> num <= u64_max -> cursor < num ->
  Forall (fun rec => cr_seq rec = num -> actionable rec) records ->
  match (@apply_loop _ (production_seams warm) g records cursor a k s).1 with Ok res => al_cursor res < num | Err _ => True end.
Proof.
  intros Hst Hmax. revert cursor a k s. induction records as [|rec rest IH]; intros cursor a k s Hc Hall; [done|].
  apply Forall_cons in Hall as [Hrec Hall]. cbn [apply_loop]. destruct (N.leb_spec (cr_seq rec) cursor); [by apply IH|].
  unfold wrapping_add. rewrite N.mod_small by (unfold u64_max in *; lia). destruct (N.ltb_spec (cursor + 1) (cr_seq rec)); [done|].
  cbn [apply_record production_seams]. destruct (stock_apply g rec s Hst) as [(_ & [e He] & _)|[-> Hno]].
  - destruct (applier_apply g rec s) as [[[]|] s1]; by cbn in He.
  - apply IH; [|done]. destruct (decide (cr_seq rec = num)) as [E|]; [by apply Hrec in E|lia].
Qed.

(** What the relay serves as number [num] of the group's log is a record to apply. *)
Definition log_needs (g : string) (num : N) : Prop :=
  forall n s recs s', source_fetch true g n s = (Ok recs, s') -> Forall (fun rec => cr_seq rec = num -> actionable rec) recs.

Lemma stock_passes warm passes g t num r : stock_daemon -> num <= u64_max -> log_needs g num -> cursor_of g r < num ->
  cursor_of g (@recover_passes _ (production_seams warm) passes g t r).2 < num.
Proof.
  intros Hst Hmax Hlog. revert r. induction passes as [|passes IH]; intros r Hc; [done|]. cbn [recover_passes].
  destruct (fetch_since g (cursor_of g r) (rv_world r)) as [[recs|e] s1] eqn:Hf; [|done]. cbn [fetch_since production_seams] in Hf.
  assert (Forall (fun rec => cr_seq rec = num -> actionable rec) recs) as Hall.
  { destruct warm; [by eapply Hlog|]. injection Hf as <- _. constructor. }
  destruct recs as [|rec rest].
  - destruct (probe_group g s1) as [[st|e] s2]; [|done]. case_match; done.
  - unfold apply_records_in_order. pose proof (stock_loop warm g num (rec :: rest) (cursor_of g r) 0 0 s1 Hst Hmax Hc Hall) as Hl.
    destruct (@apply_loop _ (production_seams warm) g (rec :: rest) (cursor_of g r) 0 0 s1) as [[res|e] s2]; [|done]. cbn [fst] in Hl.
    assert (forall s, cursor_of g (with_world s (set_cursor g (al_cursor res) (with_world s2 r))) < num) as Hc'
      by (intros s; unfold cursor_of; cbn; by rewrite lookup_insert_eq).
    case_match; [unfold cursor_of; cbn; by rewrite lookup_insert_eq|]. destruct (probe_group g s2) as [[st|e] s3]; [|by apply Hc'].
    repeat case_match; [apply Hc'|by apply IH, Hc'..].
Qed.

Lemma stock_recovery g t num r : stock_daemon -> num <= u64_max -> log_needs g num -> cursor_of g r < num ->
  cursor_of g (recover_group_once g t r).2 < num.
Proof.
  intros Hst Hmax Hlog Hc. unfold recover_group_once, recover_once. destruct (probe_group _ _) as [[st|e] s1]; [|done].
  case_match; [case_match; [done|]|].
  - by apply (stock_passes _ _ g t num (with_status _ (with_world s1 r))).
  - cbn zeta. by destruct (@recover_cold _ _ g _) as [[]].
Qed.

Lemma latched_passes passes g t (r : Recovery (JoinSys W)) :
  rv_cursors (@recover_passes _ (production_seams false) passes g t r).2 = rv_cursors r.
Proof.
  destruct passes; [done|]. cbn [recover_passes fetch_since production_seams]. unfold source_fetch, ret.
  destruct (probe_group g _) as [[st|e] s2]; [|done]. by case_match.
Qed.

(** C26: on a daemon without the apply routes, no number of recoveries moves a group's
    cursor to a record that would have to be applied: the log is not drained unapplied.
    An attempt at such a record is an error and latches the missing engine, and once it
    is latched recovery fetches no record and leaves the cursor alone. *)
Theorem stock_daemon_keeps_cursor (g : string) (num : N) (ts : list (option N)) (r : Recovery (JoinSys W)) :
  stock_daemon -> num <= u64_max -> log_needs g num -> cursor_of g r < num ->
  cursor_of g (foldl (fun r t => (recover_group_once g t r).2) r ts) < num /\
  (forall rec s, actionable rec -> engine_a s = None ->
     is_ok (applier_apply g rec s).1 = false /\ engine_a_available (applier_apply g rec s).2 = false) /\
  (forall t r1, engine_a_available (rv_world r1) = false -> rv_cursors (recover_group_once g t r1).2 = rv_cursors r1).
Proof.
  intros Hst Hmax Hlog Hc. split; [|split].
  - revert r Hc. induction ts as [|t ts IH]; intros r Hc; [done|]. cbn. by apply IH, stock_recovery.
  - intros rec s Hact Hnone. destruct (stock_apply g rec s Hst) as [(_ & [e He] & Hl)|[_ Hno]]; [|done]. by rewrite He, Hl, Hnone.
  - intros t r1 Hl. unfold recover_group_once, recover_once. rewrite Hl. destruct (probe_group _ _) as [[st|e] s1]; [|done].
    case_match; [case_match; [done|]|by destruct (@recover_cold _ _ g _) as [[]]].
    by apply (latched_passes MAX_PASSES g t (with_status _ (with_world s1 r1))).
Qed.

(** The one-shot encrypt on a group still at epoch 0 never settles: its record is
    read as unsettled and the next probe encrypts again. *)
Theorem epoch_zero_probe_never_settles (g : string) s s' w1 w2 w3 w4 w5 w6 b :
  group_self_status g (jworld s) = (Ok None, w1) -> group_id_parse g = Ok g ->
  members g w1 = (Ok [self_hex], w2) ->
  io_fault OpenDir "converged" w2 = (None, w3) -> io_fault ReadFile g w3 = (None, w4) ->
  converged_dir s !! g = Some b ->
  from_json b = Some {| cv_group_id := g; cv_epoch := 0; cv_at_ms := 0 |} ->
  encrypt_probe g w4 = (Ok 0, w5) -> io_fault WriteFile g w5 = (None, w6) ->
  probe_group_state g s = (Ok {| gst_keyed := true; gst_in_roster := true; gst_epoch := 0 |}, s') ->
  trace s' = EvEncrypt g :: trace s
  /\ exists at_ms, converged_dir s' !! g
       = Some (to_json {| cv_group_id := g; cv_epoch := 0; cv_at_ms := at_ms |}).
Proof.
  intros Hst Hparse Hm Hopen Hread Hl Hj Henc Hwrite Hp. revert Hp.
  unfold probe_group_state, bind, call_x0xd, call. rewrite Hst, Hparse. simpl. rewrite Hm.
  rewrite bool_decide_true by set_solver. simpl.
  unfold convergence_open, io at 1. simpl. rewrite Hopen.
  unfold convergence_get, bind, io. simpl. rewrite Hread. simpl. rewrite Hl, Hj. simpl.
  unfold settle_keyed, bind, event, call_x0xd. simpl. rewrite Henc. simpl.
  unfold convergence_record, bind, io. simpl. rewrite Hwrite. simpl.
  intros E. injection E as <-. simpl. split; [done|]. eexists. by rewrite lookup_insert_eq.
Qed.

(** *** Overlapping taps *)

(** Two calls whose resume checks both run before either posts. *)
Definition two_taps (invite : string) (name : option string) : M W unit :=
  let! first := resume_check invite in
  let! second := resume_check invite in
  match first, second with
  | None, None =>
      let! _ := attempt (post_and_settle invite name) in
      let! _ := attempt (post_and_settle invite name) in
      ret tt
  | _, _ => ret tt
  end.

Lemma post_and_settle_posts invite name s :
  exists t, trace (post_and_settle (W := W) invite name s).2 = t ++ EvPosted invite :: trace s
    /\ Forall (fun e => is_post e = false) t.
Proof.
  destruct (join_post_trace invite name s) as (t & Ht & Hp). unfold post_and_settle, bind.
  destruct (join_post invite name s) as [[a|e] s1]; simpl in *; [|eauto].
  destruct (unposted_after_post invite a s1) as (t' & Ht' & Hp').
  exists (t' ++ t). rewrite Ht', Ht, app_assoc. split; [done|]. by apply Forall_app.
Qed.

(** The resume check holds no lock across the post: two overlapping calls for one
    fresh invite both post it. *)
Theorem overlapping_taps_spend_twice (invite : string) (name : option string) s :
  pending_dir s = ∅ -> (forall w, (io_fault ReadDir "pending_joins" w).1 = None) ->
  posts_of invite (trace (two_taps invite name s).2) = (2 + posts_of invite (trace s))%nat.
Proof.
  intros Hd Hio.
  assert (forall s, pending_dir s = ∅ -> exists s', resume_check invite s = (Ok None, s')
            /\ pending_dir s' = ∅ /\ trace s' = trace s) as Hcheck.
  { clear s Hd. intros s Hd. unfold resume_check, pending_list, bind, io.
    pose proof (Hio (jworld s)) as Hf.
    destruct (io_fault ReadDir "pending_joins" (jworld s)) as [f w]; simpl in Hf; subst f. simpl.
    rewrite Hd. assert (hm_iter (∅ : gmap string bytes) = []) as ->.
    { apply elem_of_nil_inv. intros [k v]. by rewrite elem_of_hm_iter, lookup_empty. }
    simpl. eauto. }
  unfold two_taps, bind.
  destruct (Hcheck s Hd) as (s1 & -> & Hd1 & Ht1). destruct (Hcheck s1 Hd1) as (s2 & -> & _ & Ht2).
  unfold attempt.
  destruct (post_and_settle_posts invite name s2) as (t & Ht & Hp).
  destruct (post_and_settle invite name s2) as [r s3]. simpl in Ht.
  destruct (post_and_settle_posts invite name s3) as (t' & Ht' & Hp').
  destruct (post_and_settle invite name s3) as [r' s4]. simpl in *.
  rewrite Ht', Ht, !posts_of_app, !(posts_of_unposted _ _ Hp'), Ht2, Ht1. unfold posts_of at 1. simpl.
  rewrite String.eqb_refl. simpl. rewrite List.filter_app. simpl. rewrite String.eqb_refl, length_app.
  fold (posts_of invite t). rewrite (posts_of_unposted _ _ Hp). done.
Qed.
End bridging.

(** *** Backoff and waiting *)

(** The backoff after [n] attempts doubles from four seconds up to five minutes. *)
Theorem join_backoff_exact (n : N) :
  join_backoff_ms n = if n =? 0 then 0 else N.min (2000 * 2 ^ N.min n 20) 300000.
Proof.
  unfold join_backoff_ms, saturating_mul, BASE_MS, CAP_MS. case_match; [done|].
  rewrite N.shiftl_1_l. change (5 * 60 * 1000) with 300000.
  assert (2 ^ N.min n 20 <= 2 ^ 20) by (apply N.pow_le_mono_r; lia).
  change (2 ^ 20) with 1048576 in *. unfold u64_max. lia.
Qed.

Section waiting.
  Context {W : Type} (fetch : W -> result (list string) ChatError * W) (sleep : W -> W) (now : W -> N).
  Context (poll_interval : N).

(** The clock does not run backwards over a poll; a sleep lasts at least its interval. *)
Definition clock_runs : Prop :=
  (forall w, now w <= now (fetch w).2) /\ (forall w, now w + poll_interval <= now (sleep w)).

(** What the wait may answer in the world it ends in. *)
Definition wait_answer (group_id self_id : string) (timeout deadline : N)
    (answer : result unit ChatError) (w' : W) : Prop :=
  exists w roster, fetch w = (roster, w')
  /\ match answer with
     | Ok _ => exists ms, roster = Ok ms /\ self_id ∈ ms
     | Err e => deadline <= now w'
                /\ match roster with
                   | Ok ms => self_id ∉ ms /\ e = JoinerNotConverged group_id timeout
                   | Err e' => e = e'
                   end
     end.

Lemma wait_loop_S g self timeout deadline fuel w :
  wait_loop fetch sleep now g self timeout deadline (S fuel) w =
  let (result, w1) := fetch w in
  if match result with Ok ms => bool_decide (self ∈ ms) | Err _ => false end then Some (Ok tt, w1)
  else if deadline <=? now w1 then
    Some (match result with Ok _ => Err (JoinerNotConverged g timeout) | Err e => Err e end, w1)
  else wait_loop fetch sleep now g self timeout deadline fuel (sleep w1).
Proof. reflexivity. Qed.

Lemma wait_loop_answers g self timeout deadline fuel w :
  clock_runs -> deadline <= now w + N.of_nat fuel * poll_interval ->
  exists answer w', wait_loop fetch sleep now g self timeout deadline (S fuel) w = Some (answer, w')
    /\ wait_answer g self timeout deadline answer w'.
Proof.
  intros [Hf Hs]. revert w. induction fuel as [|fuel IH]; intros w Hd;
    rewrite wait_loop_S;
    specialize (Hf w) as Hfw; destruct (fetch w) as [roster w1] eqn:Ef; simpl in Hfw;
    (destruct (match roster with Ok ms => bool_decide (self ∈ ms) | Err _ => false end) eqn:Eq;
     [destruct roster as [ms|]; [|done]; apply bool_decide_eq_true in Eq;
      exists (Ok tt), w1; split; [done|]; exists w, (Ok ms); eauto|]);
    assert (match roster with Ok ms => self ∉ ms | Err _ => True end) as Hout
      by (destruct roster; [by apply bool_decide_eq_false in Eq|done]);
    (destruct (deadline <=? now w1) eqn:El;
     [apply N.leb_le in El; eexists _, w1; split; [done|]; exists w, roster; split; [done|];
      by destruct roster|]).
  - apply N.leb_gt in El. lia.
  - apply IH. specialize (Hs w1). lia.
Qed.

(** Polling the roster ends after at most one poll per
    interval of the timeout and two more; it answers [Ok] exactly on a poll that
    lists this agent, and otherwise only once the deadline has passed, with the last
    poll's error or [JoinerNotConverged]. *)
Theorem membership_wait_terminates (group_id self_id : string) (timeout : N) (w : W) :
  0 < poll_interval -> clock_runs ->
  exists answer w',
    wait_for_active_membership fetch sleep now group_id self_id timeout
      (N.to_nat (timeout / poll_interval) + 2) w = Some (answer, w')
    /\ wait_answer group_id self_id timeout (now w + timeout) answer w'.
Proof.
  intros Hpos Hc. unfold wait_for_active_membership.
  replace (N.to_nat (timeout / poll_interval) + 2)%nat with (S (N.to_nat (timeout / poll_interval) + 1))
    by lia.
  apply wait_loop_answers; [done|].
  pose proof (N.div_mod timeout poll_interval ltac:(lia)).
  pose proof (N.mod_lt timeout poll_interval ltac:(lia)). nia.
Qed.
End waiting.

(** ** Concrete runs *)

Section demo.

Definition state_code (st : PendingJoinState) : N * string :=
  match st with
  | Submitted => (0, EmptyString)
  | Bridged => (1, EmptyString)
  | KeyedButUnverified => (2, EmptyString)
  | JoinFailed reason => (3, reason)
  end.
Definition state_of (c : N * string) : PendingJoinState :=
  match c.1 with 0 => Submitted | 1 => Bridged | 2 => KeyedButUnverified | _ => JoinFailed c.2 end.

(** A codec the witnesses run with. *)
Definition demo_pending_file : JsonFile PendingJoin.
Proof.
  refine {| to_json r := [N.pos (encode
                (((pj_group_id r, pj_captured_event_b64 r, pj_captured_topic r, pj_invite_hash r),
                  (pj_owner_agent_id r, pj_owner_kem_pubkey_b64 r, pj_owner_relay_hints r,
                   pj_joiner_kem_pubkey_b64 r)),
                 (pj_created_at_ms r, pj_last_attempt_ms r, pj_attempts r, state_code (pj_state r))))];
            from_json b := match b with
                           | [N.pos p] =>
                               (fun t => let '(((g, ev, tp, ih), (o, ok, hs, jk)), (c, la, at_, st)) := t in
                                mkPending g ev tp ih o ok hs jk c la at_ (state_of st)) <$> decode p
                           | _ => None
                           end |}.
  intros r. rewrite decode_encode. destruct r as [? ? ? ? ? ? ? ? ? ? ? []]; reflexivity.
Defined.

Definition demo_convergence_file : JsonFile ConvergenceRecord.
Proof.
  refine {| to_json r := [N.pos (encode (cv_group_id r, cv_epoch r, cv_at_ms r))];
            from_json b := match b with
                           | [N.pos p] => (fun '(g, e, a) => Build_ConvergenceRecord g e a) <$> decode p
                           | _ => None
                           end |}.
  intros r. rewrite decode_encode. by destruct r.
Defined.

Definition demo_owner : string := hex_encode (repeat 1 32).
Definition demo_json : JsonObject := fun payload =>
  match payload with
  | [7] => Some (fun name => if String.eqb name "inviter_agent_id" then Some demo_owner else None)
  | _ => None
  end.

(** A daemon that answers every join with group [g1], holds keys once [keyed], has no
    engine-A routes, and a disk that never fails. *)
Definition demo_join_seams (keyed : bool) : JoinSeams N := {|
  io_fault _ _ w := (None, w);
  now_ms w := w;
  env_secs _ _ := None;
  post_join _ _ w := (Ok ("g1", Some ("topic", @b64_encode demo_base64 [7])), w + 1);
  resolve_owner_kem _ w := (Ok [5], w);
  recipient_hints _ _ := None;
  primary_relay _ := Some "https://relay.example/";
  own_kem := [6];
  self_hex := "me";
  members _ w := (Ok ["me"], w);
  wait_membership g t w := (Err (JoinerNotConverged g t), w + t);
  send_sealed _ w := (Ok tt, w);
  group_self_status _ w :=
    (Ok (Some {| gst_keyed := keyed; gst_in_roster := true; gst_epoch := 1 |}), w);
  encrypt_probe _ w := (Ok 0, w);
  apply_join_result _ _ _ _ w := (Ok true, w);
  apply_metadata_event _ _ _ w := (Err (XApplyRejected 404 "not found"), w);
  publish _ _ w := (Ok tt, w);
  log_fetch := None;
|}.

Definition demo_status : StatusText := fun n => "404".
Definition demo_hash : Sha256 := fun b => b.
#[local] Existing Instances demo_pending_file demo_convergence_file demo_json demo_base64 demo_status demo_hash.

(** The client of the runs, over a daemon that does or does not hold the keys. *)
Definition demo_run (keyed : bool) (ops : list JoinOp) : JoinRun :=
  @join_run N (demo_join_seams keyed) _ _ _ _ _ _ _ ops (fresh_client 1).
(** The [n]-th tap, uninterrupted. *)
Definition tap_all (n : nat) (invite : string) : list JoinOp := [OpTap invite None; OpPost n; OpSave n; OpSettle n].

Definition demo_sent : BridgeSend :=
  {| bs_owner := repeat 1 32; bs_owner_kem := [5]; bs_topic := "topic";
     bs_payload_b64 := b64_encode [7]; bs_joiner_kem := Some [6];
     bs_hints := Some ["https://relay.example/"] |}.

Lemma stored_intent_stops_taps_witness :
  posts_of "i" (run_trace (demo_run false (tap_all 0 "i" ++ [OpDrive] ++ tap_all 1 "i"))) = 1%nat /\
  checks_of "i" (demo_run false (tap_all 0 "i" ++ [OpDrive] ++ tap_all 1 "i")) = 1%nat /\
  exists e, e ∈ [EvKeyed "g1"; EvBridge demo_sent] /\ spoils (invite_hash "i") "g1" e.
Proof.
  split; [by vm_compute|]. split; [by vm_compute|].
  refine (proj2 (proj2 (@stored_intent_stops_taps N (demo_join_seams true) _ _ _ _ _ _ _
           (tap_all 0 "i" ++ [OpDrive; OpTap "i" None]) 1 "i")) _ "g1" _ [EvPosted "i"] _ _).
  - vm_compute. left.
  - reflexivity.
Defined.

(** The store keeps one intent per group: a second invite to the same group
    overwrites the first one's intent, and tapping the first again spends it again. *)
Example second_invite_forgets_first :
  posts_of "i" (run_trace (demo_run false (tap_all 0 "i" ++ tap_all 1 "j" ++ tap_all 2 "i"))) = 2%nat.
Proof. vm_compute. reflexivity. Qed.

Definition demo_cap : CapturedSelfJoin := {| cap_topic := "topic"; cap_payload := [7] |}.
Definition demo_state : JoinSys N := mkJoin ∅ ∅ None [] 1.
Definition demo_record : PendingJoin :=
  pending_new "g1" (b64_encode [7]) "topic" "h" demo_owner (b64_encode [5])
    ["https://relay.example/"] (b64_encode [6]) 1.

Lemma rebridge_replays_first_bridge_witness :
  rebridge_pending (H := demo_join_seams false) (attempted Bridged 9 demo_record) demo_state
  = emit_self_join_bridge (H := demo_join_seams false) demo_cap demo_owner [5] [6]
      (Some ["https://relay.example/"]) demo_state.
Proof.
  apply (@rebridge_replays_first_bridge N (demo_join_seams false) _ _ "g1" "h" demo_cap demo_record
           (attempted Bridged 9 demo_record) demo_state demo_state demo_owner [5] 1);
    try (repeat constructor; fail); try (vm_compute; reflexivity).

Defined.

(** A daemon of the same kind behind a relay that serves one commit. *)
Definition demo_wire : LogRecordWire :=
  {| lw_seq := 1; lw_kind := Commit; lw_recipient := None; lw_payload := [7]; lw_author := Some [1]; lw_inserted_at_ms := 0 |}.
Definition stock_seams : JoinSeams N := {|
  io_fault _ _ w := (None, w); now_ms w := w; env_secs _ _ := None;
  post_join _ _ w := (Ok ("g1", None), w); resolve_owner_kem _ w := (Ok [5], w); recipient_hints _ _ := None; primary_relay _ := None;
  own_kem := [6]; self_hex := "me"; members _ w := (Ok ["me"], w); wait_membership g t w := (Err (JoinerNotConverged g t), w + t);
  send_sealed _ w := (Ok tt, w);
  group_self_status _ w := (Ok (Some {| gst_keyed := true; gst_in_roster := true; gst_epoch := 1 |}), w);
  encrypt_probe _ w := (Ok 0, w);
  apply_join_result _ _ _ _ w := (Err (XApplyRejected 404 "not found"), w);
  apply_metadata_event _ _ _ w := (Err (XApplyRejected 404 "not found"), w);
  publish _ _ w := (Ok tt, w);
  log_fetch := Some (fun _ _ w => (Ok [demo_wire], w));
|}.
Definition stock_group : string := hex_encode (repeat 1 32).
Definition stock_client : Recovery (JoinSys N) := mkRecovery (mkStatus ∅ []) ∅ demo_state.

Lemma stock_daemon_keeps_cursor_witness :
  cursor_of stock_group (foldl (fun r t => (@recover_group_once N stock_seams _ _ _ _ _ _ stock_group t r).2) stock_client [Some 2; None; Some 3]) < 1 /\
  engine_a_available (rv_world (@recover_group_once N stock_seams _ _ _ _ _ _ stock_group (Some 2) stock_client).2) = false.
Proof.
  split; [|by vm_compute].
  refine (proj1 (@stock_daemon_keeps_cursor N stock_seams _ _ _ _ _ _ stock_group 1 [Some 2; None; Some 3] stock_client _ _ _ _)).
  - split; intros; do 2 eexists; (split; [reflexivity|by vm_compute]).
  - done.
  - intros n s recs s'. unfold source_fetch. cbn [log_fetch stock_seams]. vm_compute (hex_decode stock_group).
    vm_compute (len _ =? 32). unfold bind, call, ret. intros [= <- _]. constructor; [|done]. intros _ why. by vm_compute.
  - by vm_compute.
Defined.

Lemma membership_wait_terminates_witness :
  exists answer w',
    wait_for_active_membership (fun w : N => (Ok ["other"], w)) (N.add 1000) id "g1" "me" 60000 62 5
      = Some (answer, w')
    /\ wait_answer (fun w : N => (Ok ["other"], w)) id "g1" "me" 60000 60005 answer w'.
Proof.
  apply (membership_wait_terminates (fun w : N => (Ok ["other"], w)) (N.add 1000) id 1000 "g1" "me" 60000 5);
    [lia|]. split; intros w; simpl; unfold id; lia.
Defined.
End demo.
