(* ===== verification/Pairing.v ===== *)
(** * Learning a contact's keys from relays

    Models [crates/fetchit-chat/src/pair.rs] (profile index records, and fetching
    signed records from relays), the parts of [messages.rs] that turn a pair record
    into a contact card ([resolve_and_persist_member_card], [prefetch_group_member_cards])
    and [import_pair_uri] of [client.rs].  Cards are those of [ContactCard], the stamp
    file is [Publish]'s, HTTP is [RelayHttp]'s. *)
From stdpp Require Import pretty.
From S2P Require Import Prelude SendState Attachment Bubble OutboxStore Overlay SeqGap.
From S2P Require Import RelayProto RelayAuth Transit TransitSqlite PairRecord ShareUri RelayHttp DeviceFabric PairIndex.
From S2P Require Import Conversation ConvRegistry ContactCard Inbound Outbound Publish PendingJoin.
Open Scope rust_scope.

(** [URL_SAFE_NO_PAD] of the [base64] crate. *)
Class Base64Url := {
  b64url_encode : bytes -> string;
  b64url_decode : string -> option bytes;
}.

(** [serde_json::from_slice] at the bodies relays answer with, and the canonical JSON
    of an index record without its signature. *)
Class PairBodies := {
  parse_index : bytes -> result ProfileIndexRecord string;
  parse_pair : bytes -> result PairRecordV1 string;
  parse_forwarding : bytes -> result ForwardingRecordV1 string;
  canonical_bytes_sans_sig : ProfileIndexRecord -> result bytes string;
}.

Definition ALL_ZEROS_PROFILE_ADDR : string := "0000000000000000000000000000000000000000000000000000000000000000".
Definition MINIMAL_PROFILE_ADDR : string := "ffffffffffffffffffffffffffffffffffffffffffffffffffffffffffffffff".

Module Pair.
Inductive PairError :=
| Uri (e : V3ShareUriError)
| Http (e : SendError)
| RelayStatus (status : N)
| Decode (why : string)
| AgentIdMismatch
| DerivationMismatch
| Tombstoned
| SigVerifyFailed
| FieldDecode (why : string)
| Pqc (why : string)
| PairRecordVerify (why : string)
| ForwardingVerify (why : string)
| RelayBlocked (why : string).
End Pair.
Import Pair.

Definition v3_display (e : V3ShareUriError) : string :=
  match e with
  | WrongScheme => "not a v3 share URI: missing `fetchit://share/v3/` prefix"
  | UnsupportedVersion => "unsupported share-URI version: only v3 is recognised today"
  | MalformedAgentId => "agent_id segment is not 64 lowercase-hex characters"
  | MalformedProfileAddr => "profile_addr segment is malformed or is the tombstone sentinel"
  | MissingRelay => "missing required `relay=` query parameter"
  | MalformedRelay why => "relay= value is not a valid http(s) URL: " +:+ why
  | V3TooLong n => "share URI exceeds the 256-byte cap (got " +:+ pretty n +:+ " bytes)"
  end.

Definition pair_error_display (e : PairError) : string :=
  match e with
  | Uri e => "share URI: " +:+ v3_display e
  | Http e => "relay fetch: " +:+ se_why e
  | RelayStatus n => "relay returned " +:+ pretty n
  | Decode why => "relay response: " +:+ why
  | Pair.AgentIdMismatch => "URI agent_id does not match relay record"
  | DerivationMismatch => "relay record's pubkey doesn't derive its claimed agent_id"
  | Tombstoned => "offerer's profile was tombstoned"
  | SigVerifyFailed => "signature verification failed"
  | FieldDecode why => "field decode: " +:+ why
  | Pqc why => "pqc: " +:+ why
  | PairRecordVerify why => "pair record verify: " +:+ why
  | ForwardingVerify why => "forwarding record verify: " +:+ why
  | RelayBlocked why => "relay blocked: " +:+ why
  end.

Definition from_pair_error (e : PairError) : ChatError := Invalid (pair_error_display e).

Section records.
  Context `{Base64, Base64Url, Sha256, MlDsaBackend, UrlParse, UrlEdit, FormUrl, PairErrorDisplay, PairBodies, AgentSigner}.

Definition from_b64url (what s : string) : result bytes PairError :=
  match b64url_decode s with Some b => Ok b | None => Err (FieldDecode (what +:+ " b64")) end.

Definition canonical_sign_input (record : ProfileIndexRecord) : result bytes PairError :=
  match canonical_bytes_sans_sig record with
  | Err e => Err (Decode e)
  | Ok canonical => Ok (SIGN_DOMAIN_PROFILE ++ canonical)
  end.

Definition verify_index_record (record : ProfileIndexRecord) : result bytes PairError :=
  if bool_decide (pi_profile_addr record = ALL_ZEROS_PROFILE_ADDR) then Err Tombstoned
  else
    let? pubkey_bytes := from_b64url "ml_dsa_pubkey" (pi_ml_dsa_pubkey record) in
    let? sig_bytes := from_b64url "sig" (pi_sig record) in
    match hex_decode (pi_agent_id record) with
    | None => Err (FieldDecode "agent_id hex")
    | Some embedded =>
        if negb (len embedded =? 32)
        then Err (FieldDecode ("agent_id: expected 32 bytes, got " +:+ pretty (len embedded)))
        else if negb (bool_decide (derive_agent_id pubkey_bytes = embedded)) then Err DerivationMismatch
        else
          let? sign_input := canonical_sign_input record in
          match pk_from_bytes pubkey_bytes with
          | Err e => Err (Pqc e)
          | Ok _ =>
              match sig_from_bytes sig_bytes with
              | Err e => Err (Pqc e)
              | Ok _ =>
                  match mldsa_verify pubkey_bytes (agent_sign_input sign_input) sig_bytes with
                  | Err e => Err (Pqc e)
                  | Ok ok => if (ok : bool) then Ok pubkey_bytes else Err SigVerifyFailed
                  end
              end
          end
    end.

Definition with_sig (sig : string) (r : ProfileIndexRecord) : ProfileIndexRecord :=
  Build_ProfileIndexRecord (pi_agent_id r) (pi_profile_addr r) (pi_kem_pubkey r) (pi_ml_dsa_pubkey r)
    (pi_issued_at_ms r) sig.

Definition sign_minimal_index_record (agent_id_hex : string) (kem_pubkey ml_dsa_pubkey : bytes)
    (issued_at_ms : N) : result ProfileIndexRecord PairError :=
  let record := Build_ProfileIndexRecord agent_id_hex MINIMAL_PROFILE_ADDR (b64url_encode kem_pubkey)
                  (b64url_encode ml_dsa_pubkey) issued_at_ms EmptyString in
  let? sign_input := canonical_sign_input record in
  match signer_sign sign_input with
  | Err e => Err (Pqc ("sign profile record: " +:+ e))
  | Ok sig =>
      let record := with_sig (b64url_encode sig) record in
      let? _ := verify_index_record record in Ok record
  end.

(** *** Over HTTP *)

Context {W : Type} `{IpDisplay, RelayNet, HS : !RelayServer W}.

Definition pair_request_error (e : RequestError) : PairError :=
  match e with
  | Blocked e => RelayBlocked (guard_display e)
  | BadUrl e => Decode ("build relay url: " +:+ e)
  | HttpError e => Http e
  end.

(** A [GET] whose answer is a success read within the cap. *)
Definition relay_get (relay : Url) (path : string) (w : W) : result bytes PairError * W :=
  match relay_request relay path GetRequest w with
  | (Err e, w) => (Err (pair_request_error e), w)
  | (Ok resp, w) =>
      if negb (is_success resp) then (Err (RelayStatus (rp_status resp)), w)
      else match read_body_capped resp MAX_RELAY_BODY_BYTES with
           | Err e => (Err (Decode (body_display e)), w)
           | Ok raw => (Ok raw, w)
           end
  end.

Definition relay_json {A} (r : result A string) : result A PairError :=
  match r with Ok a => Ok a | Err e => Err (Decode ("relay JSON: " +:+ e)) end.

Definition publish_index_record (relay : Url) (record : ProfileIndexRecord) (w : W) : result unit PairError * W :=
  match relay_request relay "v1/profile" (PostProfile record) w with
  | (Err e, w) => (Err (pair_request_error e), w)
  | (Ok resp, w) => if negb (is_success resp) then (Err (RelayStatus (rp_status resp)), w) else (Ok tt, w)
  end.

Definition checked_index (agent_id : string) (raw : bytes) : result ProfileIndexRecord PairError :=
  let? record := relay_json (parse_index raw) in
  if bool_decide (pi_profile_addr record = ALL_ZEROS_PROFILE_ADDR) then Err Tombstoned
  else
    let? _ := verify_index_record record in
    if negb (bool_decide (pi_agent_id record = agent_id)) then Err Pair.AgentIdMismatch else Ok record.

Definition fetch_index_record_by_id (relay : Url) (agent_id : string) (w : W)
    : result ProfileIndexRecord PairError * W :=
  let '(body, w) := relay_get relay ("v1/profile/" +:+ agent_id) w in
  (let? raw := body in checked_index agent_id raw, w).

Definition checked_pair (agent_id_hex : string) (raw : bytes) : result PairRecordV1 PairError :=
  let? record := relay_json (parse_pair raw) in
  match verify_pair_record record with
  | Err e => Err (PairRecordVerify (pair_error_to_string e))
  | Ok _ => if negb (bool_decide (pr_agent_id_hex record = agent_id_hex)) then Err Pair.AgentIdMismatch else Ok record
  end.

Definition fetch_pair_record_by_id (relay : Url) (agent_id_hex : string) (w : W)
    : result PairRecordV1 PairError * W :=
  let '(body, w) := relay_get relay ("v1/pair-record/" +:+ agent_id_hex) w in
  (let? raw := body in checked_pair agent_id_hex raw, w).

Definition checked_forwarding (agent_id_hex pubkey_b64 : string) (raw : bytes)
    : result ForwardingRecordV1 PairError :=
  let? record := relay_json (parse_forwarding raw) in
  match b64_decode pubkey_b64 with
  | None => Err (FieldDecode "pubkey_b64")
  | Some pubkey_bytes =>
      match verify_forwarding_record record pubkey_bytes with
      | Err e => Err (ForwardingVerify (pair_error_to_string e))
      | Ok _ => if negb (bool_decide (fr_agent_id_hex record = agent_id_hex)) then Err Pair.AgentIdMismatch
                else Ok record
      end
  end.

Definition fetch_forwarding_record_by_id (relay : Url) (agent_id_hex pubkey_b64 : string) (w : W)
    : result ForwardingRecordV1 PairError * W :=
  let '(body, w) := relay_get relay ("v1/forwarding/" +:+ agent_id_hex) w in
  (let? raw := body in checked_forwarding agent_id_hex pubkey_b64 raw, w).

Definition fetch_from_uri (uri_str : string) (w : W) : result (V3ShareUri * ProfileIndexRecord) PairError * W :=
  match from_v3_share_uri uri_str with
  | Err e => (Err (Uri e), w)
  | Ok uri =>
      let '(res, w) := fetch_index_record_by_id (vs_relay uri) (vs_agent_id uri) w in
      (let? record := res in Ok (uri, record), w)
  end.

(** *** Into contact cards *)

Definition record_into_stored_contact (record : ProfileIndexRecord) : StoredContactCard :=
  mkCard (pi_agent_id record) EmptyString (pi_kem_pubkey record) (Some (pi_ml_dsa_pubkey record)) None None None.

Definition pair_accept (uri_str : string) (io : result unit ChatError) (cs : Contacts) (w : W)
    : result (string * ProfileIndexRecord) ChatError * Contacts * W :=
  match fetch_from_uri uri_str w with
  | (Err e, w) => (Err (from_pair_error e), cs, w)
  | (Ok (_, record), w) =>
      match save_imported (record_into_stored_contact record) io cs with
      | (Err e, cs) => (Err e, cs, w)
      | (Ok _, cs) => (Ok (pi_agent_id record, record), cs, w)
      end
  end.

Definition resolve_recipient_hints (agent_id_hex : string) (cs : Contacts)
    : result (option RendezvousHintsV1) ChatError :=
  let? card := card_load agent_id_hex cs in Ok (c ← card; cc_rendezvous_hints c).

Definition resolve_recipient_hints_or_fallback (agent_id_hex primary_fallback_url : string) (cs : Contacts)
    : result RendezvousHintsV1 ChatError :=
  let? hints := resolve_recipient_hints agent_id_hex cs in
  Ok (default {| rh_relays := [primary_fallback_url] |} hints).

Definition contact_user_id_hex (agent_id_hex : string) (cs : Contacts) : result (option string) ChatError :=
  let? card := card_load agent_id_hex cs in Ok (c ← card; cc_user_id_hex c).

Definition card_from_pair_record (record : PairRecordV1) : StoredContactCard :=
  let hints := if bool_decide (pr_advertised_relays record = []) then None
               else Some {| rh_relays := pr_advertised_relays record |} in
  mkCard (pr_agent_id_hex record) EmptyString (pr_kem_pubkey_b64 record) (Some (pr_ml_dsa_pubkey_b64 record))
    hints (Some (pr_issued_at_ms record)) None.

(** [io_card] and [io_mark]: whether the card and the stamp file can be written. *)
Definition resolve_and_persist_member_card (relay : Url) (agent_id_hex : string)
    (io_card io_mark : result unit ChatError) (cs : Contacts) (marks : Watermarks) (w : W)
    : result bool ChatError * Contacts * Watermarks * W :=
  match fetch_pair_record_by_id relay agent_id_hex w with
  | (Err _, w) => (Ok false, cs, marks, w)
  | (Ok record, w) =>
      let seen := default 0 (current_watermark agent_id_hex marks) in
      if pr_issued_at_ms record <? seen then (Ok false, cs, marks, w)
      else match save_imported (card_from_pair_record record) io_card cs with
           | (Err e, cs) => (Err e, cs, marks, w)
           | (Ok _, cs) =>
               (Ok true, cs, (observe_external_watermark agent_id_hex (pr_issued_at_ms record) io_mark marks).2, w)
           end
  end.

Definition card_needs_resolve (agent_id_hex : string) (cs : Contacts) : result bool ChatError :=
  let? card := card_load agent_id_hex cs in
  Ok (match card with
      | None => true
      | Some c => negb (nonempty (default EmptyString (cc_agent_public_key_b64 c)))
      end).

(** The loop over the members; each takes the next pair of write outcomes. *)
Fixpoint prefetch_each (relay : Url) (self_id : string) (members : list string)
    (ios : nat -> result unit ChatError * result unit ChatError) (resolved skipped : N)
    (cs : Contacts) (marks : Watermarks) (w : W)
    : result (N * N) ChatError * Contacts * Watermarks * W :=
  match members with
  | [] => (Ok (resolved, skipped), cs, marks, w)
  | member :: rest =>
      let next := prefetch_each relay self_id rest (fun n => ios (S n)) in
      if eq_ignore_ascii_case member self_id then next resolved skipped cs marks w
      else match card_needs_resolve member cs with
           | Err e => (Err e, cs, marks, w)
           | Ok false => next resolved (skipped + 1) cs marks w
           | Ok true =>
               let '(io_card, io_mark) := ios O in
               match resolve_and_persist_member_card relay member io_card io_mark cs marks w with
               | (Err e, cs, marks, w) => (Err e, cs, marks, w)
               | (Ok true, cs, marks, w) => next (resolved + 1) skipped cs marks w
               | (Ok false, cs, marks, w) => next resolved (skipped + 1) cs marks w
               end
           end
  end.

(** Of a client with chat state. *)
Definition prefetch_group_member_cards (primary_relay_url : option string) (members : list string)
    (self_id : string) (ios : nat -> result unit ChatError * result unit ChatError)
    (cs : Contacts) (marks : Watermarks) (w : W)
    : result (N * N) ChatError * Contacts * Watermarks * W :=
  match primary_relay_url with
  | None => (Ok (0, len (List.filter (fun m => negb (eq_ignore_ascii_case m self_id)) members)), cs, marks, w)
  | Some relay_str =>
      match url_parse relay_str with
      | None => (Err (Invalid "primary relay URL"), cs, marks, w)
      | Some relay => prefetch_each relay self_id members ios 0 0 cs marks w
      end
  end.

(** *** [import_pair_uri] *)

Definition pair_uri_display (e : PairUri.PairUriError) : string :=
  match e with
  | PairUri.TooLong => "pair URI exceeds 512 bytes"
  | PairUri.InvalidAgentId => "agent_id_hex must be lowercase 64-hex"
  | PairUri.NoRelays => "pair URI must contain at least one relay"
  | PairUri.TooManyRelays => "pair URI must not contain more than 4 relays"
  | PairUri.InvalidRelay why => "invalid relay URL: " +:+ why
  end.

(** The first relay that answers with a good record. *)
Fixpoint fetch_first (agent_id_hex : string) (relays : list string) (last_err : string) (w : W)
    : result PairRecordV1 ChatError * W :=
  match relays with
  | [] => (Err (Invalid ("could not reach any of their relays: " +:+ last_err)), w)
  | relay_str :: rest =>
      match url_parse relay_str with
      | None => (Err (Invalid "relay URL in pair URI"), w)
      | Some relay =>
          match fetch_pair_record_by_id relay agent_id_hex w with
          | (Ok r, w) => (Ok r, w)
          | (Err e, w) => fetch_first agent_id_hex rest (pair_error_display e) w
          end
      end
  end.

(** The card offered to the daemon, which is not asked for an answer. *)
Record DaemonCard := { dc_agent_id : string; dc_created_at : N; dc_machine_id : option string }.

Definition daemon_card (record : PairRecordV1) : DaemonCard :=
  {| dc_agent_id := pr_agent_id_hex record; dc_created_at := pr_issued_at_ms record / 1000;
     dc_machine_id := if bool_decide (pr_machine_id record = EmptyString) then None
                      else Some (pr_machine_id record) |}.

(** Of a client with chat state, whose agent is [me]. *)
Definition import_pair_uri (uri me : string) (io : result unit ChatError) (cs : Contacts) (w : W)
    : result (option DaemonCard) ChatError * Contacts * W :=
  if String.prefix V3_SHARE_URI_PREFIX uri then
    match from_v3_share_uri uri with
    | Err e => (Err (Invalid (v3_display e)), cs, w)
    | Ok parsed =>
        if bool_decide (me = vs_agent_id parsed) then (Err (Invalid "that is your own pairing link"), cs, w)
        else match pair_accept uri io cs w with
             | (Err e, cs, w) => (Err e, cs, w)
             | (Ok _, cs, w) => (Ok None, cs, w)
             end
    end
  else
    match PairUri.parse_pair_uri uri with
    | Err PairUri.TooLong => (Err (Invalid "pair URI too long"), cs, w)
    | Err e => (Err (Invalid (pair_uri_display e)), cs, w)
    | Ok parsed =>
        let agent := PairUri.pu_agent_id_hex parsed in
        if bool_decide (me = agent) then (Err (Invalid "that is your own pairing link"), cs, w)
        else match fetch_first agent (PairUri.pu_relays parsed) EmptyString w with
             | (Err e, w) => (Err e, cs, w)
             | (Ok record, w) =>
                 match save_imported (card_from_pair_record record) io cs with
                 | (Err e, cs) => (Err e, cs, w)
                 | (Ok _, cs) => (Ok (Some (daemon_card record)), cs, w)
                 end
             end
    end.
End records.

(** ** What a link or a relay can bring in *)

(** Sizes of the keys and of their encodings: both alphabets are read only in the
    form they are written in, padded to four characters or not padded. *)
Class KeyLaws `{Base64, Base64Url, Sha256, MlDsaBackend} := {
  sha_bytes m : Forall (fun b => b < 256) (sha256 m);
  pk_size pk : pk_from_bytes pk = Ok tt -> len pk = 1952;
  b64_decoded_len s raw : b64_decode s = Some raw -> str_len s = 4 * ((len raw + 2) / 3);
  b64url_decoded_len s raw : b64url_decode s = Some raw -> str_len s = (4 * len raw + 2) / 3;
}.

Section bound.
  Context `{Base64, Base64Url, Sha256, MlDsaBackend, UrlParse, UrlEdit, FormUrl, PairErrorDisplay, PairBodies, AgentSigner}.
  Context `{!KeyLaws}.
  Context {W : Type} `{IpDisplay, RelayNet, HS : !RelayServer W}.

Lemma fetched_pair relay id w r w' :
  fetch_pair_record_by_id relay id w = (Ok r, w') -> verify_pair_record r = Ok tt /\ pr_agent_id_hex r = id.
Proof.
  unfold fetch_pair_record_by_id. destruct (relay_get _ _ w) as [[raw|] w1]; [|done]. intros [= Hc <-].
  revert Hc. unfold checked_pair. destruct (relay_json _) as [r0|]; [|done].
  destruct (verify_pair_record r0) as [[]|] eqn:Hv; [|done].
  destruct (bool_decide_reflect (pr_agent_id_hex r0 = id)); [|done]. by intros [= <-].
Qed.

Lemma fetched_first id relays e w r w' :
  fetch_first id relays e w = (Ok r, w') -> verify_pair_record r = Ok tt /\ pr_agent_id_hex r = id.
Proof.
  revert e w. induction relays as [|s relays IH]; intros e w; [done|]. cbn.
  destruct (url_parse s) as [relay|]; [|done].
  destruct (fetch_pair_record_by_id relay id w) as [[r0|] w1] eqn:E; [|apply IH].
  intros [= <- <-]. by apply fetched_pair in E.
Qed.

Lemma verified_index r pk :
  verify_index_record r = Ok pk ->
  b64url_decode (pi_ml_dsa_pubkey r) = Some pk /\ hex_decode (pi_agent_id r) = Some (derive_agent_id pk) /\
  pk_from_bytes pk = Ok tt.
Proof.
  unfold verify_index_record, from_b64url. destruct (bool_decide _); [done|].
  destruct (b64url_decode (pi_ml_dsa_pubkey r)) as [pk0|]; [|done].
  destruct (b64url_decode (pi_sig r)); [|done]. destruct (hex_decode _) as [emb|]; [|done].
  destruct (negb (len emb =? 32)); [done|]. destruct (bool_decide_reflect (derive_agent_id pk0 = emb)) as [<-|]; [|done].
  cbn [negb]. destruct (canonical_sign_input r); [|done]. destruct (pk_from_bytes pk0) as [[]|] eqn:Hpk; [|done].
  repeat case_match; try done. by intros [= <-].
Qed.

Lemma fetched_index relay id w r w' :
  fetch_index_record_by_id relay id w = (Ok r, w') -> is_ok (verify_index_record r) = true /\ pi_agent_id r = id.
Proof.
  unfold fetch_index_record_by_id. destruct (relay_get _ _ w) as [[raw|] w1]; [|done]. intros [= Hc <-].
  revert Hc. unfold checked_index. destruct (relay_json _) as [r0|]; [|done]. destruct (bool_decide _); [done|].
  destruct (verify_index_record r0) as [pk|] eqn:Hv; [|done].
  destruct (bool_decide_reflect (pi_agent_id r0 = id)); [|done]. intros [= <-]. by rewrite Hv.
Qed.

Lemma saved_import card io cs cs' :
  save_imported card io cs = (Ok tt, cs') ->
  (exists c, card_load (cc_agent_id_hex card) cs' = Ok (Some c) /\
     (nonempty (cc_kem_public_key_b64 card) = true -> cc_kem_public_key_b64 c = cc_kem_public_key_b64 card) /\
     (nonempty (default EmptyString (cc_agent_public_key_b64 card)) = true ->
      cc_agent_public_key_b64 c = cc_agent_public_key_b64 card)) /\
  forall a, a <> cc_agent_id_hex card -> card_files cs' !! a = card_files cs !! a.
Proof.
  unfold save_imported. destruct (card_load (cc_agent_id_hex card) cs) as [existing|]; [|done].
  set (c := match existing with Some e => _ | None => _ end).
  assert (cc_agent_id_hex c = cc_agent_id_hex card) as Hid by by destruct existing.
  unfold card_save. destruct io as [[]|]; [|done]. intros [= <-]. split.
  - exists c. unfold card_load. cbn. rewrite <- Hid, lookup_insert_eq. split; [done|].
    subst c. destruct existing as [e|]; [|done]. unfold merge_imported; cbn.
    by split; intros ->.
  - intros a Ha. cbn. by rewrite lookup_insert_ne by (by rewrite Hid).
Qed.

Lemma nonempty_key s pk : pk_from_bytes pk = Ok tt -> b64url_decode s = Some pk \/ b64_decode s = Some pk ->
  nonempty s = true.
Proof.
  intros Hpk%pk_size Hs. unfold nonempty. destruct (bool_decide_reflect (s = EmptyString)) as [->|]; [|done].
  destruct Hs as [Hs%b64url_decoded_len|Hs%b64_decoded_len]; rewrite Hpk in Hs; by vm_compute in Hs.
Qed.

(** The agent a link names, and how the key on its card is written. *)
Definition link_agent (uri : string) : option string :=
  if String.prefix V3_SHARE_URI_PREFIX uri
  then match from_v3_share_uri uri with Ok p => Some (vs_agent_id p) | Err _ => None end
  else match PairUri.parse_pair_uri uri with Ok p => Some (PairUri.pu_agent_id_hex p) | Err _ => None end.
Definition link_decode (uri s : string) : option bytes :=
  if String.prefix V3_SHARE_URI_PREFIX uri then b64url_decode s else b64_decode s.

Lemma verified_pair_key r : verify_pair_record r = Ok tt ->
  exists pk, b64_decode (pr_ml_dsa_pubkey_b64 r) = Some pk /\ pk_from_bytes pk = Ok tt /\
    hex_encode (derive_agent_id pk) = pr_agent_id_hex r.
Proof.
  intros (pk & kem & sig & input & Hpk & _ & _ & Hid & _ & _ & _ & Hsig)%verified_record_binds_agent.
  exists pk. split; [done|]. split; [|done]. destruct Hsig as [Hok _]. by destruct (pk_from_bytes pk) as [[]|].
Qed.

(** C12: an import that succeeds stores, for the agent the link names
    and for no other, a card whose signing key hashes to that agent's id, whatever
    the relays answered; the encryption key was signed by it.  One's own link is
    refused. *)
Theorem link_binds_keys (uri me : string) (io : result unit ChatError) (cs cs' : Contacts) (w w' : W) (d : option DaemonCard) :
  import_pair_uri uri me io cs w = (Ok d, cs', w') ->
  exists agent card key pk,
    link_agent uri = Some agent /\ agent <> me /\
    card_load agent cs' = Ok (Some card) /\ cc_agent_public_key_b64 card = Some key /\
    link_decode uri key = Some pk /\ hex_decode agent = Some (derive_agent_id pk) /\
    (forall other, other <> agent -> card_files cs' !! other = card_files cs !! other) /\
    ((exists r, verify_pair_record r = Ok tt /\ pr_agent_id_hex r = agent /\
        (nonempty (pr_kem_pubkey_b64 r) = true -> cc_kem_public_key_b64 card = pr_kem_pubkey_b64 r)) \/
     (exists r, verify_index_record r = Ok pk /\ pi_agent_id r = agent /\
        (nonempty (pi_kem_pubkey r) = true -> cc_kem_public_key_b64 card = pi_kem_pubkey r))).
Proof.
  unfold import_pair_uri, link_agent, link_decode. destruct (String.prefix _ uri) eqn:Hpre.
  - unfold pair_accept, fetch_from_uri. destruct (from_v3_share_uri uri) as [p|]; [|done].
    destruct (bool_decide_reflect (me = vs_agent_id p)) as [|Hme]; [done|].
    destruct (fetch_index_record_by_id _ _ w) as [[r|] w1] eqn:Hf; [|done].
    apply fetched_index in Hf as [Hv Hid]. destruct (verify_index_record r) as [pk|] eqn:Hvr; [|done].
    apply verified_index in Hvr as Hk. destruct Hk as (Hk & Hhex & Hpk).
    cbn. destruct (save_imported _ io cs) as [[[]|] cs1] eqn:Hs; [|done]. intros [= <- <- <-].
    apply saved_import in Hs as [(c & Hc & Hkem & Hkey) Hother]. cbn in *.
    rewrite Hid in *. exists (vs_agent_id p), c, (pi_ml_dsa_pubkey r), pk.
    split_and!; try done; [apply Hkey; by eapply nonempty_key; [|left]|].
    right. by exists r.
  - destruct (PairUri.parse_pair_uri uri) as [p|[]]; try done.
    destruct (bool_decide_reflect (me = PairUri.pu_agent_id_hex p)) as [|Hme]; [done|].
    destruct (fetch_first _ _ _ w) as [[r|] w1] eqn:Hf; [|done]. apply fetched_first in Hf as [Hv Hid].
    destruct (save_imported _ io cs) as [[[]|] cs1] eqn:Hs; [|done]. intros [= <- <- <-].
    apply saved_import in Hs as [(c & Hc & Hkem & Hkey) Hother]. cbn in *.
    destruct (verified_pair_key r Hv) as (pk & Hk & Hpk & Hbind). rewrite Hid in *.
    exists (PairUri.pu_agent_id_hex p), c, (pr_ml_dsa_pubkey_b64 r), pk.
    split_and!; try done; [apply Hkey; by eapply nonempty_key; [|right]|..].
    + rewrite <- Hbind. apply hex_decode_encode, sha_bytes.
    + left. by exists r.
Qed.

Lemma unpadded_unreadable s raw n :
  b64url_decode s = Some raw -> len raw = n -> ((4 * n + 2) / 3) mod 4 <> 0 -> b64_decode s = None.
Proof.
  intros Hs <- Hn. apply b64url_decoded_len in Hs. destruct (b64_decode s) as [raw'|] eqn:E; [|done].
  apply b64_decoded_len in E. rewrite Hs in E. rewrite E in Hn. by rewrite N.mul_comm, N.Div0.mod_mul in Hn.
Qed.

(** The keys of a contact imported from a v3 share link are
    written to its card in the unpadded alphabet of the index record, while every
    reader of a card decodes the padded one: no message of that contact is accepted,
    and no welcome can be sealed to a device with the card's key. *)
Theorem v3_contact_unreadable `{EnvelopeCodec, ChatCipher, ChatSeal, PayloadPrint}
    (uri : string) (io : result unit ChatError) (cs cs' : Contacts) (w w' : W) (agent : string)
    (r : ProfileIndexRecord) (kem : bytes) :
  pair_accept uri io cs w = (Ok (agent, r), cs', w') ->
  b64url_decode (pi_kem_pubkey r) = Some kem -> len kem = KEM_PUBLIC_KEY_LEN ->
  exists card, card_load agent cs' = Ok (Some card) /\
    (forall env, sender_hex env = agent -> verify_sender env cs' = Err (Invalid "card agent_public_key_b64")) /\
    (forall conv payload gid local machine d dr, md_kem_public_key_b64 d = cc_kem_public_key_b64 card ->
       welcome_for conv payload gid local machine d dr = Err (Invalid "device kem b64")).
Proof.
  unfold pair_accept, fetch_from_uri. destruct (from_v3_share_uri uri) as [p|]; [|done].
  destruct (fetch_index_record_by_id _ _ w) as [[r0|] w1] eqn:Hf; [|done].
  apply fetched_index in Hf as [Hv Hid]. destruct (verify_index_record r0) as [pk|] eqn:Hvr; [|done].
  apply verified_index in Hvr as (Hk & _ & Hpk).
  cbn. destruct (save_imported _ io cs) as [[[]|] cs1] eqn:Hs; [|done]. intros [= <- <- <- <-] Hkem Hlen.
  apply saved_import in Hs as [(c & Hc & Hckem & Hckey) _]. cbn in *.
  specialize (Hckey (nonempty_key _ _ Hpk (or_introl Hk))).
  assert (nonempty (pi_kem_pubkey r0) = true) as Hne.
  { unfold nonempty. destruct (bool_decide_reflect (pi_kem_pubkey r0 = EmptyString)) as [He|]; [|done].
    rewrite He in Hkem. apply b64url_decoded_len in Hkem. by rewrite Hlen in Hkem. }
  exists c. split; [done|]. split.
  - intros env Henv. unfold verify_sender. rewrite Henv. unfold card_load in Hc.
    destruct (card_files cs1 !! _) as [[| |c']|]; try done. injection Hc as ->. rewrite Hckey.
    by rewrite (unpadded_unreadable _ pk 1952 Hk (pk_size _ Hpk)).
  - intros conv payload gid local machine d dr Hd. unfold welcome_for. rewrite Hd, Hckem by done.
    by rewrite (unpadded_unreadable _ kem KEM_PUBLIC_KEY_LEN Hkem Hlen).
Qed.

(** *** Resolving again and again *)

Record ResolveOp := { ro_relay : Url; ro_agent : string; ro_card : result unit ChatError }.

(** One resolve whose stamp file can be written; the record it took, if it took one. *)
Definition resolve_op (op : ResolveOp) (s : Contacts * Watermarks * W)
    : option PairRecordV1 * (Contacts * Watermarks * W) :=
  let '(cs, marks, w) := s in
  match resolve_and_persist_member_card (ro_relay op) (ro_agent op) (ro_card op) (Ok tt) cs marks w with
  | (Ok true, cs, marks, w') =>
      (match (fetch_pair_record_by_id (ro_relay op) (ro_agent op) w).1 with Ok r => Some r | Err _ => None end,
       (cs, marks, w'))
  | (_, cs, marks, w) => (None, (cs, marks, w))
  end.

Fixpoint resolve_run (ops : list ResolveOp) (s : Contacts * Watermarks * W)
    : list PairRecordV1 * (Contacts * Watermarks * W) :=
  match ops with
  | [] => ([], s)
  | op :: rest =>
      let '(r, s) := resolve_op op s in
      let '(rs, s) := resolve_run rest s in (option_list r ++ rs, s)
  end.

Definition stamps_of (agent : string) (rs : list PairRecordV1) : list N :=
  pr_issued_at_ms <$> List.filter (fun r => bool_decide (pr_agent_id_hex r = agent)) rs.

Lemma resolve_op_step op cs marks w r s :
  resolve_op op (cs, marks, w) = (r, s) ->
  match r with
  | None => s.1.2 = marks /\ (s.1.1 = cs)
  | Some r =>
      verify_pair_record r = Ok tt /\ pr_agent_id_hex r = ro_agent op /\
      mark_of (ro_agent op) marks <= pr_issued_at_ms r /\
      (pr_issued_at_ms r <> u64_max -> mark_of (ro_agent op) s.1.2 = pr_issued_at_ms r) /\
      (forall a, a <> ro_agent op -> mark_of a s.1.2 = mark_of a marks) /\
      exists c, card_load (ro_agent op) s.1.1 = Ok (Some c) /\
        (nonempty (pr_kem_pubkey_b64 r) = true -> cc_kem_public_key_b64 c = pr_kem_pubkey_b64 r)
  end.
Proof.
  unfold resolve_op, resolve_and_persist_member_card.
  destruct (fetch_pair_record_by_id _ _ w) as [[r0|] w1] eqn:Hf; [|by intros [= <- <-]].
  apply fetched_pair in Hf as [Hv Hid]. unfold current_watermark.
  destruct (N.ltb_spec (pr_issued_at_ms r0) (default 0 (marks !! ro_agent op))) as [|Hge]; [by intros [= <- <-]|].
  destruct (save_imported _ (ro_card op) cs) as [[[]|] cs1] eqn:Hs; cbn [fst snd].
  2:{ intros [= <- <-]. split; [done|]. cbn. unfold save_imported in Hs.
      destruct (card_load _ cs); [|by simplify_eq]. unfold card_save in Hs. destruct (ro_card op); by simplify_eq. }
  intros [= <- <-]. cbn [fst snd].
  apply saved_import in Hs as [(c & Hc & Hckem & _) _]. cbn in Hc, Hckem. rewrite Hid in Hc.
  split_and!; [done..| | |by exists c].
  - intros Hmax. unfold observe_external_watermark. destruct (N.eqb_spec (pr_issued_at_ms r0) u64_max); [done|].
    destruct (N.leb_spec (pr_issued_at_ms r0) (default 0 (marks !! ro_agent op))); cbn; [|apply mark_insert].
    unfold mark_of. lia.
  - intros a Ha. unfold observe_external_watermark, mark_of.
    repeat case_match; cbn; try done; by rewrite lookup_insert_ne.
Qed.

Lemma resolve_run_marks ops s rs s' agent :
  resolve_run ops s = (rs, s') -> Forall (fun r => pr_issued_at_ms r <> u64_max) rs ->
  StronglySorted N.le (stamps_of agent rs) /\ Forall (fun t => mark_of agent s.1.2 <= t) (stamps_of agent rs).
Proof.
  revert s rs s'. induction ops as [|op ops IH]; intros [[cs marks] w] rs s'; [intros [= <- <-] _; by repeat constructor|].
  cbn [resolve_run]. destruct (resolve_op op (cs, marks, w)) as [r st1] eqn:Ho. apply resolve_op_step in Ho.
  destruct (resolve_run ops st1) as [rs1 st2] eqn:Hr. intros [= <- <-] Hmax.
  apply Forall_app in Hmax as [Hm Hmax]. destruct (IH _ _ _ Hr Hmax) as [Hsort Hall].
  destruct r as [r|]; cbn in *; [|destruct Ho as [<- _]; done].
  destruct Ho as (_ & Hid & Hge & Hmark & Hother & _). apply Forall_cons in Hm as [Hm _]. specialize (Hmark Hm).
  unfold stamps_of in *. cbn. destruct (bool_decide_reflect (pr_agent_id_hex r = agent)) as [<-|Hne]; cbn.
  - rewrite Hid in *. rewrite Hmark in Hall. split; constructor; try done.
    eapply Forall_impl; [apply Hall|]. cbn. lia.
  - rewrite Hother in Hall by congruence. done.
Qed.

(** Over any sequence of resolves, whatever records
    the relays serve, the records taken for an agent have stamps that never fall, each
    is verified and about that agent, and none is older than the stamp file knew; the
    last one's encryption key is the one on the card.  (An agent that signs the
    largest stamp ends this for itself: the stamp file refuses it.) *)
Theorem member_keys_never_roll_back (ops : list ResolveOp) (op : ResolveOp) (cs : Contacts) (marks : Watermarks) (w : W)
    (agent : string) :
  let '(rs, s) := resolve_run ops (cs, marks, w) in
  let '(last, s') := resolve_op op s in
  Forall (fun r => pr_issued_at_ms r <> u64_max) (rs ++ option_list last) ->
  StronglySorted N.le (stamps_of agent (rs ++ option_list last)) /\
  Forall (fun t => mark_of agent marks <= t) (stamps_of agent (rs ++ option_list last)) /\
  forall r, last = Some r ->
    verify_pair_record r = Ok tt /\
    exists c, card_load (pr_agent_id_hex r) s'.1.1 = Ok (Some c) /\
      (nonempty (pr_kem_pubkey_b64 r) = true -> cc_kem_public_key_b64 c = pr_kem_pubkey_b64 r).
Proof.
  destruct (resolve_run ops (cs, marks, w)) as [rs s] eqn:Hr. destruct (resolve_op op s) as [last s'] eqn:Ho.
  assert (resolve_run (ops ++ [op]) (cs, marks, w) = (rs ++ option_list last, s')) as Hrun.
  { clear - Hr Ho. revert Hr. generalize (cs, marks, w). revert rs. induction ops as [|o ops IH]; intros rs s0; cbn.
    - intros [= <- <-]. by rewrite Ho, app_nil_r.
    - destruct (resolve_op o s0) as [r1 s1]. destruct (resolve_run ops s1) as [rs1 s2] eqn:E. intros [= <- <-].
      rewrite (IH _ _ E). by rewrite app_assoc. }
  intros Hmax. destruct (resolve_run_marks _ _ _ _ agent Hrun Hmax) as [Hsort Hall].
  split; [done|]. split; [done|]. intros r ->. destruct s as [[cs1 marks1] w1].
  apply resolve_op_step in Ho as (Hv & Hid & _ & _ & _ & Hc). rewrite Hid. done.
Qed.

(** Importing the link of a new contact does not enter the
    record's stamp into the stamp file, so a relay that serves an older signed record
    right after it replaces the contact's encryption key with the older one, while the
    card still carries the newer stamp. *)
Theorem imported_key_rolled_back (uri me agent : string) (io : result unit ChatError) (cs cs1 : Contacts)
    (marks : Watermarks) (w w1 : W) (d : option DaemonCard) :
  import_pair_uri uri me io cs w = (Ok d, cs1, w1) ->
  String.prefix V3_SHARE_URI_PREFIX uri = false -> link_agent uri = Some agent -> card_files cs !! agent = None ->
  exists card1 t1, card_load agent cs1 = Ok (Some card1) /\ cc_last_hint_epoch_ms card1 = Some t1 /\
    forall relay old w2 io_mark,
      fetch_pair_record_by_id relay agent w1 = (Ok old, w2) ->
      mark_of agent marks <= pr_issued_at_ms old < t1 -> nonempty (pr_kem_pubkey_b64 old) = true ->
      let '(res, cs2, _, _) := resolve_and_persist_member_card relay agent (Ok tt) io_mark cs1 marks w1 in
      res = Ok true /\ exists card2, card_load agent cs2 = Ok (Some card2) /\
        cc_last_hint_epoch_ms card2 = Some t1 /\ cc_kem_public_key_b64 card2 = pr_kem_pubkey_b64 old.
Proof.
  intros Himp Hpre Hlink Hnew. unfold import_pair_uri in Himp. unfold link_agent in Hlink. rewrite Hpre in *.
  destruct (PairUri.parse_pair_uri uri) as [p|[]]; try done. injection Hlink as <-.
  destruct (bool_decide _); [done|]. destruct (fetch_first _ _ _ w) as [[r|] w3] eqn:Hf; [|done].
  apply fetched_first in Hf as [_ Hid]. unfold save_imported, card_load in Himp. cbn [cc_agent_id_hex card_from_pair_record] in Himp.
  rewrite Hid, Hnew in Himp. destruct io as [[]|]; [|done]. cbn in Himp. injection Himp as <- <- <-.
  set (a := PairUri.pu_agent_id_hex p) in *. set (cs1 := mkContacts _ _).
  assert (card_load a cs1 = Ok (Some (card_from_pair_record r))) as Hc1.
  { unfold card_load. cbn. by rewrite Hid, lookup_insert_eq. }
  exists (card_from_pair_record r), (pr_issued_at_ms r). split; [done|]. split; [done|].
  intros relay old w2 io_mark Hfo [Hmark _] Hne. unfold resolve_and_persist_member_card. rewrite Hfo.
  apply fetched_pair in Hfo as [_ Hido]. unfold current_watermark. fold (mark_of a marks).
  destruct (N.ltb_spec (pr_issued_at_ms old) (mark_of a marks)); [lia|].
  unfold save_imported. cbn [cc_agent_id_hex card_from_pair_record]. rewrite Hido, Hc1. cbn -[merge_imported card_from_pair_record].
  split; [done|]. exists (merge_imported (card_from_pair_record r) (card_from_pair_record old)).
  unfold card_load. cbn -[merge_imported card_from_pair_record]. change (cc_agent_id_hex (merge_imported _ (card_from_pair_record old))) with (pr_agent_id_hex old). rewrite Hido, lookup_insert_eq.
  split; [done|]. split; [done|]. cbn. by rewrite Hne.
Qed.
End bound.

(** ** Witnesses *)

(** Encodings read only at the length they are written in. *)
#[local] Instance pw_b64 : Base64.
Proof.
  refine {| b64_encode raw := chars (pad_to_b64 raw);
            b64_decode s := match unpad (ascii_bytes s) with
                            | Some raw => if str_len s =? 4 * ((len raw + 2) / 3) then Some raw else None
                            | None => None
                            end |}.
  intros raw Hr. rewrite ascii_bytes_chars, unpad_pad by (by apply pad_bytes).
  by rewrite chars_len, pad_len, N.eqb_refl.
Defined.
#[local] Instance pw_b64url : Base64Url :=
  {| b64url_encode raw := chars (raw ++ replicate (N.to_nat ((4 * len raw + 2) / 3 - len raw)) 0);
     b64url_decode s := let n := 3 * str_len s / 4 in
                        if (4 * n + 2) / 3 =? str_len s then Some (take (N.to_nat n) (ascii_bytes s)) else None |}.
#[local] Instance pw_sha : Sha256 := fun b => replicate 31 0 ++ [len b mod 256].
#[local] Instance pw_mldsa : MlDsaBackend :=
  {| pk_from_bytes pk := if len pk =? 1952 then Ok tt else Err "length"%string; sig_from_bytes := fun _ => Ok tt;
     mldsa_verify := fun pk _ sig => Ok (bool_decide (pk = sig)) |}.
#[local] Existing Instance su_parse.
#[local] Existing Instance su_edit.
#[local] Existing Instance su_form.
#[local] Instance pw_display : PairErrorDisplay := fun _ => EmptyString.
#[local] Instance pw_signer : AgentSigner := {| signer_public_key := [1]; signer_sign := fun _ => Ok [1] |}.
#[local] Instance pw_ip : IpDisplay := {| v4_to_string := fun _ => EmptyString; v6_to_string := fun _ => EmptyString |}.
#[local] Instance pw_net : RelayNet :=
  {| url_host := fun _ => None; url_port_or_known_default := fun _ => None; lookup_host := fun _ _ => Ok [] |}.

#[local] Instance pw_laws : KeyLaws.
Proof.
  split.
  - intros m. apply Forall_app. split; [by apply Forall_replicate|]. constructor; [|done]. by apply N.mod_lt.
  - intros pk. cbn. destruct (N.eqb_spec (len pk) 1952); [done|discriminate].
  - intros s raw. cbn. destruct (unpad _) as [r|]; [|done].
    destruct (N.eqb_spec (str_len s) (4 * ((len r + 2) / 3))); [|done]. by intros [= <-].
  - intros s raw. cbn -[N.div N.mul]. set (n := 3 * str_len s / 4).
    destruct (N.eqb_spec ((4 * n + 2) / 3) (str_len s)) as [He|]; [|done]. intros [= <-].
    assert (n <= str_len s) by (unfold n; apply N.Div0.div_le_upper_bound; lia).
    replace (len (take (N.to_nat n) (ascii_bytes s))) with n; [done|].
    unfold len, str_len, len in *. rewrite length_take. lia.
Qed.

Definition pw_key : bytes := replicate 1952 5.
Definition pw_agent : string := "00000000000000000000000000000000000000000000000000000000000000b4".
Definition pw_record (n : N) : PairRecordV1 :=
  {| pr_record_version := 1; pr_agent_id_hex := pw_agent; pr_ml_dsa_pubkey_b64 := b64_encode pw_key;
     pr_kem_pubkey_b64 := b64_encode [n]; pr_machine_id := EmptyString; pr_advertised_relays := ["http://h"%string];
     pr_issued_at_ms := n; pr_sig_b64 := b64_encode pw_key |}.
Definition pw_kem : bytes := replicate 1184 7.
Definition pw_index : ProfileIndexRecord :=
  {| pi_agent_id := pw_agent; pi_profile_addr := MINIMAL_PROFILE_ADDR; pi_kem_pubkey := b64url_encode pw_kem;
     pi_ml_dsa_pubkey := b64url_encode pw_key; pi_issued_at_ms := 1; pi_sig := b64url_encode pw_key |}.
(** A body is the stamp of the record it holds. *)
#[local] Instance pw_bodies : PairBodies :=
  {| parse_index := fun _ => Ok pw_index;
     parse_pair b := match b with [n] => Ok (pw_record n) | _ => Err "body"%string end;
     parse_forwarding := fun _ => Err "body"%string; canonical_bytes_sans_sig := fun _ => Ok [] |}.
(** A relay that answers with the stamps it is given, in turn. *)
#[local] Instance pw_server : RelayServer (list N) :=
  {| url_join := fun u _ => Ok u;
     serve := fun _ _ w => match w with
                           | n :: w => (fun _ => Ok {| rp_status := 200; rp_content_length := None; rp_chunks := [Ok [n]] |}, w)
                           | [] => (fun _ => Ok {| rp_status := 404; rp_content_length := None; rp_chunks := [] |}, [])
                           end;
     local_relays_allowed := true |}.

Definition pw_link : string := "x0x://pair/" +:+ pw_agent +:+ "?r=http://h".
Definition pw_share : string := "fetchit://share/v3/" +:+ pw_agent +:+ "/" +:+ MINIMAL_PROFILE_ADDR +:+ "?relay=http://h".
Definition no_cards : Contacts := mkContacts EmptyString ∅.
Definition pw_card (n : N) : StoredContactCard := card_from_pair_record (pw_record n).

Lemma pw_parsed : PairUri.parse_pair_uri pw_link =
  Ok {| PairUri.pu_agent_id_hex := pw_agent; PairUri.pu_relays := ["http://h"%string] |}.
Proof. reflexivity. Qed.

Lemma pw_fetched3 w : fetch_pair_record_by_id (web "http") pw_agent (3 :: w) = (Ok (pw_record 3), w).
Proof. vm_compute. reflexivity. Qed.
Lemma pw_fetched5 w : fetch_pair_record_by_id (web "http") pw_agent (5 :: w) = (Ok (pw_record 5), w).
Proof. vm_compute. reflexivity. Qed.

Lemma pw_url : url_parse "http://h" = Some (web "http").
Proof. reflexivity. Qed.

Lemma pw_imported w :
  import_pair_uri pw_link "me" (Ok tt) no_cards (5 :: w) =
  (Ok (Some (daemon_card (pw_record 5))), mkContacts EmptyString (<[pw_agent := CardOk (pw_card 5)]> ∅), w).
Proof.
  unfold import_pair_uri. replace (String.prefix V3_SHARE_URI_PREFIX pw_link) with false by reflexivity.
  rewrite pw_parsed. cbn [PairUri.pu_agent_id_hex PairUri.pu_relays]. rewrite bool_decide_false by done.
  cbn [fetch_first]. rewrite pw_url, pw_fetched5.
  unfold save_imported, card_load, no_cards. cbn [card_files]. by rewrite (lookup_empty (M := gmap string)).
Qed.

Lemma pw_link_agent : link_agent pw_link = Some pw_agent.
Proof. reflexivity. Qed.

Lemma link_binds_keys_witness :
  exists cs' d card key, import_pair_uri pw_link "me" (Ok tt) no_cards [5] = (Ok d, cs', []) /\
    card_load pw_agent cs' = Ok (Some card) /\ cc_agent_public_key_b64 card = Some key /\
    b64_decode key <> None.
Proof.
  do 2 eexists. destruct (link_binds_keys pw_link "me" (Ok tt) no_cards _ [5] [] _ (pw_imported []))
    as (agent & card & key & pk & Ha & _ & Hc & Hk & Hd & _).
  rewrite pw_link_agent in Ha. injection Ha as <-. exists card, key.
  split; [apply pw_imported|]. split; [done|]. split; [done|].
  unfold link_decode in Hd. replace (String.prefix V3_SHARE_URI_PREFIX pw_link) with false in Hd by reflexivity.
  by rewrite Hd.
Defined.

Lemma pw_accepted :
  pair_accept pw_share (Ok tt) no_cards [1] =
  (Ok (pw_agent, pw_index), mkContacts EmptyString (<[pw_agent := CardOk (record_into_stored_contact pw_index)]> ∅), []).
Proof.
  unfold pair_accept. replace (fetch_from_uri pw_share [1]) with
    (Ok (Build_V3ShareUri pw_agent MINIMAL_PROFILE_ADDR (web "http"), pw_index) :
       result (V3ShareUri * ProfileIndexRecord) PairError, [] : list N) by (vm_compute; reflexivity).
  unfold save_imported, card_load, no_cards. cbn [card_files]. by rewrite (lookup_empty (M := gmap string)).
Qed.

#[local] Existing Instance out_demo_codec.
#[local] Existing Instance out_demo_cipher.
#[local] Existing Instance out_demo_seal.
#[local] Existing Instance out_demo_print.
Lemma v3_contact_unreadable_witness :
  exists cs', pair_accept pw_share (Ok tt) no_cards [1] = (Ok (pw_agent, pw_index), cs', []) /\
    forall env, sender_hex env = pw_agent -> verify_sender env cs' = Err (Invalid "card agent_public_key_b64").
Proof.
  eexists. split; [apply pw_accepted|].
  destruct (v3_contact_unreadable pw_share (Ok tt) no_cards _ [1] [] pw_agent pw_index pw_kem pw_accepted)
    as (card & _ & Hv & _); [vm_compute; reflexivity..|]. exact Hv.
Defined.

Lemma imported_key_rolled_back_witness :
  exists cs1, import_pair_uri pw_link "me" (Ok tt) no_cards [5; 3] = (Ok (Some (daemon_card (pw_record 5))), cs1, [3]) /\
  let '(res, cs2, _, _) := resolve_and_persist_member_card (web "http") pw_agent (Ok tt) (Ok tt) cs1 ∅ [3] in
  res = Ok true /\ exists card2, card_load pw_agent cs2 = Ok (Some card2) /\
    cc_last_hint_epoch_ms card2 = Some 5 /\ cc_kem_public_key_b64 card2 = b64_encode [3].
Proof.
  eexists. split; [apply pw_imported|].
  destruct (imported_key_rolled_back pw_link "me" pw_agent (Ok tt) no_cards _ ∅ [5; 3] [3] _ (pw_imported [3]))
    as (card1 & t1 & Hc1 & Ht1 & Hroll); [reflexivity|reflexivity|apply lookup_empty|].
  assert (t1 = 5) as ->.
  { unfold card_load in Hc1. cbn [card_files] in Hc1. rewrite lookup_insert_eq in Hc1. injection Hc1 as <-.
    by injection Ht1 as <-. }
  apply (Hroll (web "http") (pw_record 3) [] (Ok tt)); [apply pw_fetched3| |reflexivity].
  unfold mark_of. rewrite (lookup_empty (M := gmap string)). cbn. lia.
Defined.

Lemma member_keys_never_roll_back_witness :
  let ask := {| ro_relay := web "http"; ro_agent := pw_agent; ro_card := Ok tt |} in
  let '(rs, s) := resolve_run [ask] (no_cards, ∅, [5; 3]) in
  rs = [pw_record 5] /\ (resolve_op ask s).1 = None /\ StronglySorted N.le (stamps_of pw_agent rs).
Proof.
  cbv zeta. set (ask := Build_ResolveOp _ _ _).
  pose proof (member_keys_never_roll_back [ask] ask no_cards ∅ [5; 3] pw_agent) as Hm.
  set (s1 := (mkContacts EmptyString (<[pw_agent := CardOk (pw_card 5)]> ∅), <[pw_agent := 5]> ∅, [3]) : Contacts * Watermarks * list N).
  assert (resolve_op ask (no_cards, ∅, [5; 3]) = (Some (pw_record 5), s1)) as Ho.
  { unfold resolve_op, resolve_and_persist_member_card. cbn [ro_relay ro_agent ro_card ask]. rewrite pw_fetched5.
    unfold current_watermark, observe_external_watermark. rewrite (lookup_empty (M := gmap string)).
    unfold save_imported, card_load, no_cards. cbn [card_files]. by rewrite (lookup_empty (M := gmap string)). }
  assert ((resolve_op ask s1).1 = None) as Ho2.
  { unfold resolve_op, resolve_and_persist_member_card, s1. cbn [ro_relay ro_agent ro_card ask]. rewrite pw_fetched3.
    unfold current_watermark. by rewrite lookup_insert_eq. }
  clearbody s1. cbn [resolve_run] in *. rewrite Ho in *. cbn [option_list app] in *.
  destruct (resolve_op ask s1) as [last s2]. cbn [fst] in Ho2. subst last. split; [done|]. split; [done|].
  destruct Hm as [Hs _]; [by repeat constructor|]. exact Hs.
Defined.
