(* ===== verification/MultiHome.v ===== *)
(** * Message transports

    Models [crates/fetchit-chat/src/transport/]: the router and the delivery
    acknowledgement ([mod.rs]), the first-seen gate on inbound copies
    ([nonce_dedup.rs]) and the transport that keeps a pinned session to the home
    relay and two sessions to other relays ([multi_home.rs]); with the dispatch of
    one inbound envelope ([default_dispatch_one] of [client.rs]), which decides
    whether the relay may drop its copy.

    A relay session is a number; [mh_sessions] holds the sessions that are open,
    with the relay they go to.  A session closes when its [RelayTransport] is shut
    down, not when a slot forgets it.  Clock readings and the outcome of opening a
    session are arguments. *)
From S2P Require Import Prelude SendState Attachment Bubble OutboxStore OutboxDriver Overlay SeqGap RelayProto RelayAuth.
From S2P Require Import Conversation ConvRegistry ContactCard Inbound.
Open Scope rust_scope.

(** ** The router *)

Inductive Reachability := Always | IfReachable | No.

Record SendReceipt := {
  sr_accepted_at_ms : N;
  sr_message_id : option string;
  sr_transport_name : string;
}.

Inductive OutboundKind := OutDm | OutGroup (group_id : string).

Record OutboundEnvelope := {
  oe_kind : OutboundKind;
  oe_from_machine_id : option bytes;
  oe_payload : bytes;
  oe_timestamp_ms : N;
  oe_transit : option TransitEnvelope;
}.

(** The sealed frame of a stored group send, forwarded as it is. *)
Definition group_resend_envelope (decode : bytes -> option TransitEnvelope) (group_id : string)
    (sealed_envelope from_machine_id : bytes) : result OutboundEnvelope ChatError :=
  match decode sealed_envelope with
  | None => Err (Invalid "group outbox envelope decode")
  | Some env =>
      Ok {| oe_kind := OutGroup group_id; oe_from_machine_id := Some from_machine_id;
            oe_payload := []; oe_timestamp_ms := e_timestamp_ms env; oe_transit := Some env |}
  end.

(** The trait: a name, a reachability hint, a send over the world. *)
Record Transport (W : Type) := {
  tr_name : string;
  tr_reachability : string -> W -> Reachability;
  tr_send : string -> OutboundEnvelope -> option (list string) -> W -> result SendReceipt ChatError * W;
}.
Arguments tr_name {W} _.
Arguments tr_reachability {W} _ _ _.
Arguments tr_send {W} _ _ _ _ _.

Definition router_add {W} (t : Transport W) (transports : list (Transport W)) : list (Transport W) :=
  transports ++ [t].

Fixpoint router_loop {W} (transports : list (Transport W)) (to : string) (envelope : OutboundEnvelope)
    (hints : option (list string)) (any_reachable : bool) (last_err : option ChatError) (w : W)
    : result SendReceipt ChatError * W :=
  match transports with
  | [] => (Err (if negb any_reachable then NoTransportAvailable
                else default NoTransportAvailable last_err), w)
  | t :: rest =>
      match tr_reachability t to w with
      | No => router_loop rest to envelope hints any_reachable last_err w
      | _ => match tr_send t to envelope hints w with
             | (Ok receipt, w) => (Ok receipt, w)
             | (Err e, w) => router_loop rest to envelope hints true (Some e) w
             end
      end
  end.

Definition router_send {W} (transports : list (Transport W)) (to : string)
    (envelope : OutboundEnvelope) (hints : option (list string)) (w : W)
    : result SendReceipt ChatError * W :=
  match transports with
  | [] => (Err NoTransportAvailable, w)
  | _ => router_loop transports to envelope hints false None w
  end.

(** ** First-seen gate *)

(** The [lru] crate's cache: [lru_items] lists the entries, most recent first;
    [get] promotes, [put] inserts in front and drops the oldest beyond the
    capacity. *)
Class Lru (K V C : Type) `{EqDecision K} := {
  lru_new : nat -> C;
  lru_cap : C -> nat;
  lru_items : C -> list (K * V);
  lru_get : K -> C -> option V * C;
  lru_put : K -> V -> C -> C;
  lru_new_items : forall n, lru_items (lru_new n) = [];
  lru_new_cap : forall n, lru_cap (lru_new n) = n;
  lru_get_cap : forall k c, lru_cap (lru_get k c).2 = lru_cap c;
  lru_put_cap : forall k v c, lru_cap (lru_put k v c) = lru_cap c;
  lru_get_value : forall k c,
    (lru_get k c).1 = snd <$> List.find (fun e => bool_decide (e.1 = k)) (lru_items c);
  lru_get_items : forall k c,
    lru_items (lru_get k c).2 =
    List.filter (fun e => bool_decide (e.1 = k)) (lru_items c)
    ++ List.filter (fun e => negb (bool_decide (e.1 = k))) (lru_items c);
  lru_put_items : forall k v c,
    lru_items (lru_put k v c) =
    take (lru_cap c) ((k, v) :: List.filter (fun e => negb (bool_decide (e.1 = k))) (lru_items c));
}.

Definition DedupKey : Type := string * bytes.

Record NonceDedup (C : Type) := mkDedup { nd_seen : C; nd_ttl : N }.
Arguments mkDedup {C} _ _.
Arguments nd_seen {C} _.
Arguments nd_ttl {C} _.

Section dedup.
  Context {C : Type} `{!Lru DedupKey N C}.

(** [None] is the documented panic on a zero capacity. *)
Definition dedup_new (capacity : nat) (ttl : N) : option (NonceDedup C) :=
  match capacity with O => None | _ => Some (mkDedup (lru_new capacity) ttl) end.

Definition observe (key : DedupKey) (now : N) (d : NonceDedup C) : bool * NonceDedup C :=
  let (seen_at, seen) := lru_get key (nd_seen d) in
  match seen_at with
  | Some seen_at =>
      if now -| seen_at <? nd_ttl d then (false, mkDedup seen (nd_ttl d))
      else (true, mkDedup (lru_put key now seen) (nd_ttl d))
  | None => (true, mkDedup (lru_put key now seen) (nd_ttl d))
  end.
End dedup.

(** ** Slots and sessions *)

Inductive TransportError :=
| BuildFailed (why : string)
| Blocked (why : string)
| SwapNotLive (url : string).

Record Slot := { sl_relay_url : string; sl_handle : N; sl_last_traffic_at : N }.

Record MultiHome (C : Type) := mkHome {
  mh_primary_url : string;
  mh_slots : list (option Slot);
  mh_inbox_dedup : NonceDedup C;
  mh_sessions : gmap N string;
  mh_next_session : N;
}.
Arguments mkHome {C} _ _ _ _ _.
Arguments mh_primary_url {C} _.
Arguments mh_slots {C} _.
Arguments mh_inbox_dedup {C} _.
Arguments mh_sessions {C} _.
Arguments mh_next_session {C} _.

(** [DenylistQuery::is_blocked] for a relay URL and for an agent. *)
Class DenylistQuery := { url_blocked : string -> bool; agent_blocked : string -> bool }.

Section home.
  Context {C : Type} `{!Lru DedupKey N C} `{DenylistQuery}.
  Implicit Types m : MultiHome C.

Definition set_slots (slots : list (option Slot)) m : MultiHome C :=
  mkHome (mh_primary_url m) slots (mh_inbox_dedup m) (mh_sessions m) (mh_next_session m).

(** A session opens. *)
Definition open_session (url : string) m : N * MultiHome C :=
  (mh_next_session m,
   mkHome (mh_primary_url m) (mh_slots m) (mh_inbox_dedup m)
     (<[mh_next_session m := url]> (mh_sessions m)) (mh_next_session m + 1)).

(** [RelayTransport::shutdown]. *)
Definition shutdown (h : N) m : MultiHome C :=
  mkHome (mh_primary_url m) (mh_slots m) (mh_inbox_dedup m) (delete h (mh_sessions m))
    (mh_next_session m).

(** The gate the transport is built with: ten thousand keys, five minutes. *)
Definition home_dedup : NonceDedup C := mkDedup (lru_new (N.to_nat 10000)) 300000.

Definition home_new (primary_url : string) (build : result unit string) (dedup : NonceDedup C)
    (now : N) : result (MultiHome C) TransportError :=
  match build with
  | Err e => Err (BuildFailed e)
  | Ok _ =>
      let slot := {| sl_relay_url := primary_url; sl_handle := 0; sl_last_traffic_at := now |} in
      Ok (mkHome primary_url [Some slot; None; None] dedup {[0 := primary_url]} 1)
  end.

(** *** Taking a slot *)

Definition hosts (url : string) (slot : option Slot) : bool :=
  match slot with Some s => String.eqb (sl_relay_url s) url | None => false end.

(** The fast path: the first slot that hosts the URL, refreshed. *)
Fixpoint refresh_hosting (url : string) (now : N) (slots : list (option Slot))
    : option N * list (option Slot) :=
  match slots with
  | [] => (None, [])
  | Some s :: rest =>
      if String.eqb (sl_relay_url s) url
      then (Some (sl_handle s),
            Some {| sl_relay_url := sl_relay_url s; sl_handle := sl_handle s;
                    sl_last_traffic_at := now |} :: rest)
      else let (h, rest) := refresh_hosting url now rest in (h, Some s :: rest)
  | None :: rest => let (h, rest) := refresh_hosting url now rest in (h, None :: rest)
  end.

Definition acquire_fast (url : string) (now : N) m : option N * MultiHome C :=
  let (h, slots) := refresh_hosting url now (mh_slots m) in (h, set_slots slots m).

Definition slot_at (i : nat) (slots : list (option Slot)) : option Slot := mjoin (slots !! i).

(** The first free slot of 1 and 2, else the one with the older traffic. *)
Definition pick_victim (now : N) (slots : list (option Slot)) : nat :=
  let last i := from_option sl_last_traffic_at now (slot_at i slots) in
  if negb (is_some (slot_at 1 slots)) then 1%nat
  else if negb (is_some (slot_at 2 slots)) then 2%nat
  else if last 1%nat <=? last 2%nat then 1%nat else 2%nat.

(** The session was opened: put it in the chosen slot, whatever is there now. *)
Definition install (url : string) (victim : nat) (now : N) m : N * MultiHome C :=
  let (h, m) := open_session url m in
  (h, set_slots (<[victim := Some {| sl_relay_url := url; sl_handle := h;
                                    sl_last_traffic_at := now |}]> (mh_slots m)) m).

Definition acquire_slot (url : string) (build : result unit string) (now now_built : N) m
    : result N TransportError * MultiHome C :=
  match acquire_fast url now m with
  | (Some h, m) => (Ok h, m)
  | (None, m) =>
      let victim := pick_victim now (mh_slots m) in
      match build with
      | Err e => (Err (BuildFailed e), m)
      | Ok _ => let (h, m) := install url victim now_built m in (Ok h, m)
      end
  end.

(** The checks of [send_inner] before it takes a slot. *)
Definition send_target (to : string) (hints : list string) : result string TransportError :=
  match hints with
  | [] => Err (BuildFailed "hints.relays empty")
  | target_url :: _ =>
      if url_blocked target_url then Err (Blocked ("relay denylisted: " +:+ target_url))
      else if agent_blocked to then Err (Blocked ("agent denylisted: " +:+ to))
      else Ok target_url
  end.

(** [wire] is the send on the session. *)
Definition send_inner (wire : N -> OutboundEnvelope -> result SendReceipt ChatError)
    (show : ChatError -> string) (to : string) (envelope : TransitEnvelope) (hints : list string)
    (build : result unit string) (now now_built : N) m
    : result SendReceipt TransportError * MultiHome C :=
  match send_target to hints with
  | Err e => (Err e, m)
  | Ok target_url =>
      match acquire_slot target_url build now now_built m with
      | (Err e, m) => (Err e, m)
      | (Ok h, m) =>
          (match wire h {| oe_kind := OutDm; oe_from_machine_id := None;
                           oe_payload := e_ciphertext envelope;
                           oe_timestamp_ms := e_timestamp_ms envelope;
                           oe_transit := Some envelope |} with
           | Ok r => Ok r
           | Err e => Err (BuildFailed ("relay send: " +:+ show e))
           end, m)
      end
  end.

(** [Transport::send] of the multi-home transport. *)
Definition home_send (wire : N -> OutboundEnvelope -> result SendReceipt ChatError)
    (show : ChatError -> string) (to : string) (envelope : OutboundEnvelope)
    (hints : option (list string)) (build : result unit string) (now now_built : N) m
    : result SendReceipt ChatError * MultiHome C :=
  match hints with
  | None => (Err (Invalid "MultiHomeTransport::send requires RendezvousHints"), m)
  | Some hints =>
      match oe_transit envelope with
      | None => (Err (SealedRequired "MultiHomeTransport::send"), m)
      | Some transit =>
          match send_inner wire show to transit hints build now now_built m with
          | (Ok r, m) => (Ok {| sr_accepted_at_ms := sr_accepted_at_ms r;
                                sr_message_id := sr_message_id r;
                                sr_transport_name := "multi-home" |}, m)
          | (Err (Blocked msg), m) => (Err (Denied msg), m)
          | (Err (BuildFailed msg), m) => (Err (MessageTransport msg), m)
          | (Err (SwapNotLive url), m) =>
              (Err (MessageTransport ("relay swap did not go live: " +:+ url)), m)
          end
      end
  end.

(** *** The denylist subscriber *)

(** A [RelayUrl] block: whether the primary callback fires, and the slots after. *)
Definition on_block_event (added : list string) m : bool * MultiHome C :=
  match added with
  | [] => (false, m)
  | _ =>
      let listed slot := match slot with
                         | Some s => bool_decide (sl_relay_url s ∈ added)
                         | None => false
                         end in
      (bool_decide (mh_primary_url m ∈ added),
       set_slots (match mh_slots m with
                  | [] => []
                  | slot0 :: rest => slot0 :: ((fun s => if listed s then None else s) <$> rest)
                  end) m)
  end.

(** *** Swapping the primary *)

(** [live] is whether the new session connected in time. *)
Definition replace_primary (new_url : string) (build : result unit string) (live : bool) (now : N) m
    : result unit TransportError * MultiHome C :=
  match build with
  | Err e => (Err (BuildFailed e), m)
  | Ok _ =>
      let (h, m) := open_session new_url m in
      if negb live then (Err (SwapNotLive new_url), shutdown h m)
      else
        let old := slot_at 0 (mh_slots m) in
        let m := mkHome new_url
                   (<[0%nat := Some {| sl_relay_url := new_url; sl_handle := h;
                                       sl_last_traffic_at := now |}]> (mh_slots m))
                   (mh_inbox_dedup m) (mh_sessions m) (mh_next_session m) in
        (Ok tt, match old with Some s => shutdown (sl_handle s) m | None => m end)
  end.

(** *** Inbound *)

Record InboundEnvelope := {
  ie_from : string;
  ie_transit : option TransitEnvelope;
  ie_ack : bool;
}.

Inductive FanIn := Passed | DroppedConfirmed.

(** One turn of a slot's fan-in task: pass the envelope on, or confirm its stored
    copy and drop it. *)
Definition fan_in (env : InboundEnvelope) (now : N) m : FanIn * MultiHome C :=
  match ie_transit env with
  | None => (Passed, m)
  | Some transit =>
      if negb (len (e_nonce transit) =? 12) then (DroppedConfirmed, m)
      else
        let (pass, d) := observe (ie_from env, e_nonce transit) now (mh_inbox_dedup m) in
        (if pass then Passed else DroppedConfirmed,
         mkHome (mh_primary_url m) (mh_slots m) d (mh_sessions m) (mh_next_session m))
  end.
End home.

(** ** Dispatching one envelope *)

Definition is_private_group_envelope (env : TransitEnvelope) : bool :=
  match e_kind env with PrivateGroupChat => true | _ => false end.

(** The handlers [default_dispatch_one] calls, over the state they share. *)
Class DispatchSeams (W : Type) := {
  ds_identity : option string;
  ds_bridge : TransitEnvelope -> W -> result unit ChatError * W;
  ds_public_post : TransitEnvelope -> W -> result unit ChatError * W;
  ds_denylisted : string -> W -> bool;
  ds_note_dropped : W -> W;
  ds_pair_record_push : TransitEnvelope -> W -> result unit ChatError * W;
  ds_private_group : TransitEnvelope -> string -> W -> result unit ChatError * W;
  ds_note_wedge : string -> N -> W -> W;
  ds_trigger_recovery : string -> N -> W -> W;
  ds_conversation : TransitEnvelope -> W -> result InboundDispatch ChatError * W;
  ds_has_registry : bool;
}.

(** Whether the stored copy is confirmed. *)
Definition default_dispatch_one {W} `{DispatchSeams W} (env : InboundEnvelope) (w : W) : bool * W :=
  match ie_transit env with
  | None => (true, w)
  | Some transit =>
      if match ds_identity with
         | Some me => String.eqb (sender_hex transit) me
         | None => false
         end then (true, w)
      else
        match e_kind transit with
        | X0xdGroupMetadataEvent => let (r, w) := ds_bridge transit w in (is_ok r, w)
        | PublicPost => let (_, w) := ds_public_post transit w in (true, w)
        | _ =>
            if ds_denylisted (sender_hex transit) w then (true, ds_note_dropped w)
            else
              match e_kind transit with
              | PairRecordPush => let (r, w) := ds_pair_record_push transit w in (is_ok r, w)
              | _ =>
                  if is_private_group_envelope transit then
                    match hex_encode <$> e_group_id transit with
                    | None | Some EmptyString => (true, w)
                    | Some gid =>
                        match ds_private_group transit gid w with
                        | (Ok _, w) => (true, w)
                        | (Err _, w) =>
                            (false, ds_trigger_recovery gid (e_epoch transit)
                                      (ds_note_wedge gid (e_epoch transit) w))
                        end
                    end
                  else if is_some (ds_identity (W := W)) && ds_has_registry (W := W) then
                    match ds_conversation transit w with
                    | (Ok dispatch, w) => (confirms_delivery dispatch, w)
                    | (Err _, w) => (false, w)
                    end
                  else (false, w)
              end
        end
  end.

(** A delivery from a session: the gate, then the dispatch.  The first component is
    whether the envelope was dispatched, the second whether its stored copy is
    confirmed. *)
Definition deliver {C W} `{!Lru DedupKey N C} `{DispatchSeams W} (env : InboundEnvelope) (now : N)
    (st : MultiHome C * W) : bool * bool * (MultiHome C * W) :=
  let (m, w) := st in
  match fan_in env now m with
  | (Passed, m) => let (ok, w) := default_dispatch_one env w in (true, ok, (m, w))
  | (DroppedConfirmed, m) => (false, true, (m, w))
  end.

(** ** The gate *)

Section dedup_facts.
  Context {C : Type} `{!Lru DedupKey N C}.
  Implicit Types d : NonceDedup C.

Definition obs_run (obs : list (DedupKey * N)) d : NonceDedup C :=
  foldl (fun d o => (observe o.1 o.2 d).2) d obs.

(** The keys other than [k] among the observations. *)
Definition other_keys (k : DedupKey) (obs : list (DedupKey * N)) : gset DedupKey :=
  list_to_set (List.filter (fun k' => negb (bool_decide (k' = k))) obs.*1).

(** [k] was recorded at [t]; the entries more recent than it are keyed in [D]. *)
Definition holds_entry (k : DedupKey) (t : N) (D : gset DedupKey) d : Prop :=
  NoDup (lru_items (nd_seen d)).*1
  /\ exists pre post, lru_items (nd_seen d) = pre ++ (k, t) :: post
     /\ Forall (fun e => e.1 ∈ D) pre.

Definition without (k : DedupKey) (l : list (DedupKey * N)) : list (DedupKey * N) :=
  List.filter (fun e => negb (bool_decide (e.1 = k))) l.

Lemma without_in k l : k ∉ (without k l).*1.
Proof.
  intros (e & -> & [Hb _]%elem_of_list_filter_bool)%list_elem_of_fmap.
  by rewrite bool_decide_true in Hb.
Qed.

Lemma without_app k l l' : without k (l ++ l') = without k l ++ without k l'.
Proof. apply List.filter_app. Qed.

Lemma without_self k l : without k (without k l) = without k l.
Proof. apply list_filter_bool_all. by intros e [He _]%elem_of_list_filter_bool. Qed.

(** The entries of [k] among distinct keys: at most one. *)
Definition only (k : DedupKey) (l : list (DedupKey * N)) : list (DedupKey * N) :=
  List.filter (fun e => bool_decide (e.1 = k)) l.

Lemma only_absent k l : k ∉ l.*1 -> only k l = [].
Proof.
  intros Hn. apply list_filter_bool_nil. intros e He.
  apply bool_decide_eq_false. intros <-. by apply Hn, list_elem_of_fmap_2.
Qed.

Lemma without_absent k l : k ∉ l.*1 -> without k l = l.
Proof.
  intros Hn. apply list_filter_bool_all. intros e He.
  rewrite bool_decide_false; [done|]. intros <-. by apply Hn, list_elem_of_fmap_2.
Qed.

Lemma promote_keys k l : NoDup l.*1 -> NoDup (only k l ++ without k l).*1.
Proof.
  intros Hd. rewrite fmap_app. apply NoDup_app. split_and!.
  - by apply NoDup_fmap_filter_bool.
  - intros x (e & -> & [He _]%elem_of_list_filter_bool)%list_elem_of_fmap.
    apply bool_decide_eq_true in He. rewrite He. apply without_in.
  - by apply NoDup_fmap_filter_bool.
Qed.

Lemma find_only k l : List.find (fun e => bool_decide (e.1 = k)) l = head (only k l).
Proof.
  induction l as [|e l IH]; [done|]. unfold only in *. simpl. by case_match.
Qed.

Lemma without_only k l : without k (only k l) = [].
Proof.
  apply list_filter_bool_nil. intros e [He _]%elem_of_list_filter_bool. by rewrite He.
Qed.

Lemma observe_cases k now d :
  let l := lru_items (nd_seen d) in
  let d' := (observe k now d).2 in
  nd_ttl d' = nd_ttl d /\ lru_cap (nd_seen d') = lru_cap (nd_seen d)
  /\ ((exists e, head (only k l) = Some e /\ now - e.2 < nd_ttl d
         /\ (observe k now d).1 = false /\ lru_items (nd_seen d') = only k l ++ without k l)
      \/ ((forall e, head (only k l) = Some e -> nd_ttl d <= now - e.2)
         /\ (observe k now d).1 = true
         /\ lru_items (nd_seen d') = take (lru_cap (nd_seen d)) ((k, now) :: without k l))).
Proof.
  unfold observe. pose proof (lru_get_value k (nd_seen d)) as Hv.
  pose proof (lru_get_items k (nd_seen d)) as Hi. pose proof (lru_get_cap k (nd_seen d)) as Hc.
  destruct (lru_get k (nd_seen d)) as [v c]. simpl in *. rewrite find_only in Hv.
  assert (lru_items (lru_put k now c)
          = take (lru_cap (nd_seen d)) ((k, now) :: without k (lru_items (nd_seen d)))) as Hput.
  { rewrite lru_put_items, Hc, Hi. do 2 f_equal. fold (only k (lru_items (nd_seen d))).
    fold (without k (lru_items (nd_seen d))).
    change (without k (only k (lru_items (nd_seen d)) ++ without k (lru_items (nd_seen d)))
            = without k (lru_items (nd_seen d))).
    by rewrite without_app, without_only, without_self. }
  destruct (head (only k (lru_items (nd_seen d)))) as [e|] eqn:Eh; simpl in Hv; subst v; simpl.
  - unfold saturating_sub. destruct (now - e.2 <? nd_ttl d) eqn:El; simpl; (split; [done|]).
    + apply N.ltb_lt in El. split; [done|]. left. by exists e.
    + apply N.ltb_ge in El. rewrite lru_put_cap. split; [done|]. right.
      split; [|done]. intros e' [= <-]. done.
  - rewrite lru_put_cap. split; [done|]. split; [done|]. right. split; [done|]. done.
Qed.

Lemma observe_nodup k now d :
  NoDup (lru_items (nd_seen d)).*1 -> NoDup (lru_items (nd_seen (observe k now d).2)).*1.
Proof.
  intros Hd. destruct (observe_cases k now d) as (_ & _ & [(e & _ & _ & _ & ->) | (_ & _ & ->)]).
  - by apply promote_keys.
  - rewrite fmap_take. eapply sublist_NoDup; [|apply sublist_take]. simpl. apply NoDup_cons.
    split; [apply without_in | by apply NoDup_fmap_filter_bool].
Qed.

Lemma holds_only k t D d : holds_entry k t D d -> only k (lru_items (nd_seen d)) = [(k, t)].
Proof.
  intros (Hd & pre & post & E & _). rewrite E in Hd |- *.
  rewrite fmap_app in Hd. simpl in Hd. apply NoDup_app in Hd as (_ & Hx & [Hn _]%NoDup_cons).
  unfold only. rewrite List.filter_app. simpl. rewrite bool_decide_true by done.
  fold (only k pre). fold (only k post). rewrite (only_absent k post Hn), only_absent; [done|].
  intros Hk. apply (Hx k Hk). set_solver.
Qed.

(** Another observation of [k] within its window is refused and keeps the entry. *)
Lemma observe_again k t D d now :
  holds_entry k t D d -> now - t < nd_ttl d ->
  (observe k now d).1 = false /\ holds_entry k t D (observe k now d).2.
Proof.
  intros Hh Hw. pose proof (holds_only _ _ _ _ Hh) as Ho.
  assert (Hd := proj1 Hh). apply (observe_nodup k now) in Hd.
  destruct (observe_cases k now d) as (_ & _ & [(e & He & _ & Hf & Ei) | (Hs & _)]).
  - split; [done|]. split; [done|]. rewrite Ei, Ho. exists [], (without k (lru_items (nd_seen d))). by split.
  - rewrite Ho in Hs. specialize (Hs (k, t) eq_refl). simpl in Hs. lia.
Qed.

(** An observation of another key moves the entry back by at most one. *)
Lemma observe_other k k' t D d now :
  k' <> k -> holds_entry k t D d -> (size (D ∪ {[k']}) < lru_cap (nd_seen d))%nat ->
  holds_entry k t (D ∪ {[k']}) (observe k' now d).2.
Proof.
  intros Hne (Hd & pre & post & E & Hpre) Hcap.
  assert (Hd' := observe_nodup k' now d Hd). split; [done|].
  assert (Hw : without k' (lru_items (nd_seen d)) = without k' pre ++ (k, t) :: without k' post).
  { rewrite E, without_app. unfold without at 2. simpl. rewrite bool_decide_false by done. done. }
  assert (Hin : Forall (fun e : DedupKey * N => e.1 ∈ D ∪ {[k']}) (without k' pre)).
  { apply Forall_forall. intros e [_ He]%elem_of_list_filter_bool.
    apply elem_of_union_l. by apply (proj1 (Forall_forall _ _) Hpre). }
  destruct (observe_cases k' now d) as (_ & _ & [(e & _ & _ & _ & Ei) | (_ & _ & Ei)]); rewrite Ei in Hd' |- *.
  - exists (only k' (lru_items (nd_seen d)) ++ without k' pre), (without k' post).
    rewrite Hw, app_assoc. split; [done|]. apply Forall_app. split; [|done].
    apply Forall_forall. intros e' [He%bool_decide_eq_true _]%elem_of_list_filter_bool.
    rewrite He. set_solver.
  - rewrite Hw in Hd' |- *. set (pre' := (k', now) :: without k' pre).
    change ((k', now) :: without k' pre ++ (k, t) :: without k' post)
      with (pre' ++ (k, t) :: without k' post) in *.
    assert (Hpre' : Forall (fun e : DedupKey * N => e.1 ∈ D ∪ {[k']}) pre').
    { constructor; [set_solver|done]. }
    assert (Hlen : (length pre' < lru_cap (nd_seen d))%nat).
    { eapply Nat.le_lt_trans; [|exact Hcap]. rewrite <- (length_fmap fst).
      assert (NoDup pre'.*1) as Hnp.
      { unfold pre'. simpl. apply NoDup_cons. split; [apply without_in|]. apply NoDup_fmap_filter_bool.
        rewrite E, fmap_app in Hd. by apply NoDup_app in Hd as (? & _). }
      rewrite <- (size_list_to_set (C := gset DedupKey) pre'.*1 Hnp). apply subseteq_size.
      intros x (e & -> & He)%elem_of_list_to_set%list_elem_of_fmap.
      by apply (proj1 (Forall_forall _ _) Hpre'). }
    exists pre', (take (lru_cap (nd_seen d) - length pre' - 1) (without k' post)). split; [|done].
    rewrite take_app_ge by lia. f_equal.
    destruct (lru_cap (nd_seen d) - length pre')%nat as [|n] eqn:En; [lia|]. simpl. do 2 f_equal. lia.
Qed.

Lemma observe_same_window k now d :
  nd_ttl (observe k now d).2 = nd_ttl d /\ lru_cap (nd_seen (observe k now d).2) = lru_cap (nd_seen d).
Proof. by destruct (observe_cases k now d) as (? & ? & _). Qed.

Lemma other_keys_cons k k' now obs :
  other_keys k ((k', now) :: obs)
  = (if bool_decide (k' = k) then other_keys k obs else {[k']} ∪ other_keys k obs).
Proof. unfold other_keys. simpl. by case_bool_decide. Qed.

Lemma obs_run_holds k t D d between last :
  holds_entry k t D d -> Forall (fun o => o.2 <= last) between -> last - t < nd_ttl d ->
  (size (D ∪ other_keys k between) < lru_cap (nd_seen d))%nat ->
  exists D', holds_entry k t D' (obs_run between d)
    /\ nd_ttl (obs_run between d) = nd_ttl d.
Proof.
  revert D d. induction between as [|[k' now] obs IH]; intros D d Hh Ht Hw Hsz; [by eauto|].
  apply Forall_cons in Ht as [Hnow Ht]. simpl in Hnow. rewrite other_keys_cons in Hsz.
  destruct (observe_same_window k' now d) as [Ettl Ecap]. simpl. rewrite <- Ettl.
  case_bool_decide as Ek.
  - subst k'. destruct (observe_again k t D d now Hh ltac:(lia)) as [_ Hh'].
    apply (IH D); rewrite ?Ettl, ?Ecap; done.
  - assert (Hu : (size (D ∪ {[k']}) < lru_cap (nd_seen d))%nat).
    { eapply Nat.le_lt_trans; [|exact Hsz]. apply subseteq_size. set_solver. }
    apply (IH (D ∪ {[k']})); rewrite ?Ettl, ?Ecap; [by apply observe_other|done|done|].
    eapply Nat.le_lt_trans; [|exact Hsz]. apply subseteq_size. set_solver.
Qed.

Lemma obs_run_new_keys obs n ttl :
  let d := obs_run obs (mkDedup (lru_new n) ttl) in
  NoDup (lru_items (nd_seen d)).*1 /\ nd_ttl d = ttl /\ lru_cap (nd_seen d) = n
  /\ forall k, k ∈ (lru_items (nd_seen d)).*1 -> k ∈ obs.*1.
Proof.
  induction obs as [|[k' now] obs IH] using rev_ind; simpl.
  - rewrite lru_new_items, lru_new_cap. split_and!; [constructor|done|done|done].
  - unfold obs_run in *. rewrite foldl_app. simpl.
    set (d := foldl (fun d o => (observe o.1 o.2 d).2) (mkDedup (lru_new n) ttl) obs) in *.
    destruct IH as (Hd & Httl & Hcap & Hk). destruct (observe_same_window k' now d) as [-> ->].
    split_and!; [by apply observe_nodup|done|done|]. intros k Hin. rewrite fmap_app.
    destruct (decide (k = k')) as [->|Hne]; [set_solver|]. apply elem_of_app. left. apply Hk.
    destruct (observe_cases k' now d) as (_ & _ & [(e & _ & _ & _ & Ei) | (_ & _ & Ei)]);
      rewrite Ei in Hin; apply list_elem_of_fmap in Hin as (x & -> & Hx).
    + apply list_elem_of_fmap_2. apply elem_of_app in Hx as [[_ ?]%elem_of_list_filter_bool
        | [_ ?]%elem_of_list_filter_bool]; done.
    + apply elem_of_take in Hx as (i & Hi & _). apply list_elem_of_lookup_2 in Hi.
      apply elem_of_cons in Hi as [->|[_ ?]%elem_of_list_filter_bool]; [done|].
      by apply list_elem_of_fmap_2.
Qed.

(** A copy passes the gate the first time its sender and
    nonce are observed; later copies are refused as long as the recording is younger
    than the gate's lifetime and fewer other keys than its capacity came between. *)
Theorem dedup_first_seen_wins (n : nat) (ttl t t' : N) (k : DedupKey)
    (before between : list (DedupKey * N)) :
  (0 < n)%nat -> t' - t < ttl -> Forall (fun o => o.2 <= t') between ->
  k ∉ before.*1 -> (size (other_keys k between) < n)%nat ->
  let d := obs_run before (mkDedup (lru_new n) ttl) in
  (observe k t d).1 = true
  /\ (observe k t' (obs_run between (observe k t d).2)).1 = false.
Proof.
  intros Hn Hw Hlast Hfresh Hsz d.
  destruct (obs_run_new_keys before n ttl) as (Hd & Httl & Hcap & Hk). fold d in Hd, Httl, Hcap, Hk.
  assert (Habs : k ∉ (lru_items (nd_seen d)).*1) by auto.
  destruct (observe_same_window k t d) as [Ettl Ecap].
  destruct (observe_cases k t d) as (_ & _ & [(e & He & _) | (_ & Hp & Ei)]).
  { by rewrite (only_absent k) in He. }
  split; [done|].
  assert (Hh : holds_entry k t ∅ (observe k t d).2).
  { split; [by apply observe_nodup|]. rewrite Ei, Hcap.
    exists [], (take (n - 1) (without k (lru_items (nd_seen d)))). split; [|constructor].
    destruct n as [|n]; [lia|]. simpl. by rewrite Nat.sub_0_r. }
  destruct (obs_run_holds k t ∅ _ between t' Hh Hlast) as (D' & Hh' & Ht').
  - by rewrite Ettl, Httl.
  - by rewrite (left_id_L ∅ (∪)), Ecap, Hcap.
  - eapply observe_again; [exact Hh'|]. by rewrite Ht', Ettl, Httl.
Qed.
End dedup_facts.

(** ** Interleaved sends, blocks and swaps *)

Section home_facts.
  Context {C : Type} `{!Lru DedupKey N C}.
  Implicit Types m : MultiHome C.

(** The transport and the sends that chose a slot and are opening its session. *)
Definition Home : Type := MultiHome C * list (string * nat).

Inductive home_step : Home -> Home -> Prop :=
| step_fast m tasks url now :
    home_step (m, tasks) ((acquire_fast url now m).2, tasks)
| step_pick m tasks url now :
    home_step (m, tasks) (m, (url, pick_victim now (mh_slots m)) :: tasks)
| step_built m tasks1 tasks2 url victim now :
    home_step (m, tasks1 ++ (url, victim) :: tasks2)
              ((install url victim now m).2, tasks1 ++ tasks2)
| step_unbuilt m tasks1 tasks2 url victim :
    home_step (m, tasks1 ++ (url, victim) :: tasks2) (m, tasks1 ++ tasks2)
| step_block m tasks added :
    home_step (m, tasks) ((on_block_event added m).2, tasks)
| step_replace m tasks url build live now :
    home_step (m, tasks) ((replace_primary url build live now m).2, tasks)
| step_fan_in m tasks env now :
    home_step (m, tasks) ((fan_in env now m).2, tasks).

Definition home_reachable (h : Home) : Prop :=
  exists url dedup now m, home_new url (Ok tt) dedup now = Ok m /\ rtc home_step (m, []) h.

(** A slot's session is open and goes to the slot's relay; no two slots share one;
    slot 0 is the primary's. *)
Definition slots_backed m : Prop :=
  length (mh_slots m) = 3%nat
  /\ (forall i s, slot_at i (mh_slots m) = Some s ->
        mh_sessions m !! sl_handle s = Some (sl_relay_url s))
  /\ (forall h url, mh_sessions m !! h = Some url -> h < mh_next_session m)
  /\ (forall i j s s', slot_at i (mh_slots m) = Some s -> slot_at j (mh_slots m) = Some s' ->
        sl_handle s = sl_handle s' -> i = j)
  /\ (exists s, slot_at 0 (mh_slots m) = Some s /\ sl_relay_url s = mh_primary_url m).

Definition victims_ok (tasks : list (string * nat)) : Prop :=
  Forall (fun t => t.2 = 1%nat \/ t.2 = 2%nat) tasks.

Lemma pick_victim_ok now slots : pick_victim now slots = 1%nat \/ pick_victim now slots = 2%nat.
Proof. unfold pick_victim. repeat case_match; auto. Qed.

Lemma slot_at_insert i j x slots :
  (i < length slots)%nat ->
  slot_at j (<[i := x]> slots) = if decide (j = i) then x else slot_at j slots.
Proof.
  intros Hi. unfold slot_at. case_decide as E.
  - subst j. by rewrite list_lookup_insert_eq.
  - by rewrite list_lookup_insert_ne.
Qed.

Lemma refresh_hosting_spec url now slots :
  forall i, slot_at i (refresh_hosting url now slots).2 = slot_at i slots
    \/ exists s, slot_at i slots = Some s /\ sl_relay_url s = url
       /\ slot_at i (refresh_hosting url now slots).2
          = Some {| sl_relay_url := url; sl_handle := sl_handle s; sl_last_traffic_at := now |}.
Proof.
  unfold slot_at. induction slots as [|[s|] slots IH]; intros i; simpl; [auto| |].
  - destruct (String.eqb_spec (sl_relay_url s) url) as [<-|].
    + destruct i; simpl; [right; eauto|auto].
    + destruct (refresh_hosting url now slots). destruct i; [auto|]. apply IH.
  - destruct (refresh_hosting url now slots). destruct i; [auto|]. apply IH.
Qed.

Lemma refresh_hosting_length url now slots :
  length (refresh_hosting url now slots).2 = length slots.
Proof.
  induction slots as [|[s|] slots IH]; simpl; [done| |].
  - case_match; [done|]. destruct (refresh_hosting url now slots). simpl in *. lia.
  - destruct (refresh_hosting url now slots). simpl in *. lia.
Qed.

(** A change of the slots that keeps handles and relays where a slot survives. *)
Lemma slots_backed_shrink m slots :
  slots_backed m -> length slots = 3%nat ->
  (forall i s, slot_at i slots = Some s -> exists s0, slot_at i (mh_slots m) = Some s0
     /\ sl_handle s0 = sl_handle s /\ sl_relay_url s0 = sl_relay_url s) ->
  (exists s, slot_at 0 slots = Some s) ->
  slots_backed (set_slots slots m).
Proof.
  intros (Hl & Hs & Hn & Hd & (p & Hp & Hu)) Hlen Hsub [s0 Hs0]. split_and!; simpl.
  - done.
  - intros i s Hi. destruct (Hsub i s Hi) as (s1 & H1 & <- & <-). eauto.
  - done.
  - intros i j s s' Hi Hj E. destruct (Hsub i s Hi) as (s1 & H1 & E1 & _).
    destruct (Hsub j s' Hj) as (s2 & H2 & E2 & _). eapply Hd; [exact H1|exact H2|congruence].
  - exists s0. split; [done|]. destruct (Hsub 0%nat s0 Hs0) as (s1 & H1 & _ & <-). congruence.
Qed.

Lemma slots_backed_fast url now m : slots_backed m -> slots_backed (acquire_fast url now m).2.
Proof.
  intros Hb. unfold acquire_fast. pose proof (refresh_hosting_spec url now (mh_slots m)) as Hr.
  pose proof (refresh_hosting_length url now (mh_slots m)) as Hl.
  destruct (refresh_hosting url now (mh_slots m)) as [h slots]. simpl in *.
  assert (Hb' := Hb). destruct Hb' as (Hlen & _ & _ & _ & (p & Hp & _)).
  apply slots_backed_shrink; [done|congruence| |].
  - intros i s Hi. destruct (Hr i) as [E | (s0 & E & Eu & E')]; [rewrite E in Hi; eauto|].
    rewrite E' in Hi. simplify_eq. eauto.
  - destruct (Hr 0%nat) as [E | (s0 & E & Eu & E')]; [rewrite Hp in E; eauto|eauto].
Qed.

Lemma slots_backed_block added m : slots_backed m -> slots_backed (on_block_event added m).2.
Proof.
  intros Hb. unfold on_block_event. destruct added as [|a added]; [done|]. simpl.
  assert (Hb' := Hb). destruct Hb' as (Hlen & _ & _ & _ & (p & Hp & _)).
  destruct (mh_slots m) as [|x rest] eqn:E; [done|].
  apply slots_backed_shrink; [done|by rewrite length_cons, length_fmap| |].
  - intros [|i] s Hi; rewrite E; [eauto|]. unfold slot_at in Hi |- *. simpl in *.
    rewrite list_lookup_fmap in Hi. destruct (rest !! i) as [[s1|]|]; simpl in Hi; [|done|done].
    case_bool_decide; simpl in *; [done|]. eauto.
  - unfold slot_at in *. simpl in *. eauto.
Qed.

Lemma slots_backed_install url victim now m :
  slots_backed m -> (victim = 1 \/ victim = 2)%nat -> slots_backed (install url victim now m).2.
Proof.
  intros (Hl & Hs & Hn & Hd & (p & Hp & Hu)) Hv. unfold install, open_session. simpl.
  assert (Hfresh : mh_sessions m !! mh_next_session m = None).
  { destruct (mh_sessions m !! mh_next_session m) eqn:E; [|done]. apply Hn in E. lia. }
  split_and!; simpl.
  - by rewrite length_insert.
  - intros i s. rewrite slot_at_insert by lia. case_decide.
    + intros [= <-]. simpl. by rewrite lookup_insert_eq.
    + intros Hi. rewrite lookup_insert_ne; [by eapply Hs|]. intros E. apply Hs in Hi. congruence.
  - intros h u. destruct (decide (h = mh_next_session m)) as [->|]; [lia|].
    rewrite lookup_insert_ne by done. intros Hu'. apply Hn in Hu'. lia.
  - intros i j s s'. rewrite !slot_at_insert by lia. repeat case_decide; subst.
    + done.
    + intros [= <-] Hj E. simpl in E. apply Hs in Hj. congruence.
    + intros Hi [= <-] E. simpl in E. apply Hs in Hi. congruence.
    + eauto.
  - exists p. rewrite slot_at_insert by lia. case_decide; [lia|]. done.
Qed.

Lemma slots_backed_replace url build live now m :
  slots_backed m -> slots_backed (replace_primary url build live now m).2.
Proof.
  intros (Hl & Hs & Hn & Hd & (p & Hp & Hu)). unfold replace_primary.
  destruct build as [[]|]; [|by split_and!; eauto]. simpl.
  assert (Hfresh : mh_sessions m !! mh_next_session m = None).
  { destruct (mh_sessions m !! mh_next_session m) eqn:E; [|done]. apply Hn in E. lia. }
  destruct live; simpl.
  - rewrite Hp. split_and!; simpl.
    + by rewrite length_insert.
    + intros i s. rewrite slot_at_insert by lia. case_decide as Ei.
      * intros [= <-]. simpl. rewrite lookup_delete_ne; [by rewrite lookup_insert_eq|].
        apply Hs in Hp. congruence.
      * intros Hi. rewrite lookup_delete_ne by (intros E; apply Ei; by eapply Hd).
        rewrite lookup_insert_ne; [by eapply Hs|]. intros E. apply Hs in Hi. congruence.
    + intros h u [_ Hlk]%lookup_delete_Some. destruct (decide (h = mh_next_session m)) as [->|]; [lia|].
      rewrite lookup_insert_ne in Hlk by done. apply Hn in Hlk. lia.
    + intros i j s s'. rewrite !slot_at_insert by lia. repeat case_decide; subst.
      * done.
      * intros [= <-] Hj E. simpl in E. apply Hs in Hj. congruence.
      * intros Hi [= <-] E. simpl in E. apply Hs in Hi. congruence.
      * eauto.
    + eexists. rewrite slot_at_insert by lia. by case_decide.
  - split_and!; simpl; [done| | |done|eauto].
    + intros i s Hi. apply Hs in Hi. rewrite lookup_delete_ne by congruence.
      rewrite lookup_insert_ne by congruence. done.
    + intros h u [Hne Hlk]%lookup_delete_Some. rewrite lookup_insert_ne in Hlk by done.
      apply Hn in Hlk. lia.
Qed.

Lemma slots_backed_fan_in env now m : slots_backed m -> slots_backed (fan_in env now m).2.
Proof.
  intros Hb. unfold fan_in. repeat case_match; simplify_eq/=; done.
Qed.

Lemma home_step_backed h h' :
  home_step h h' -> slots_backed h.1 -> victims_ok h.2 -> slots_backed h'.1 /\ victims_ok h'.2.
Proof.
  unfold victims_ok. intros Hst Hb Hv. destruct Hst; simpl in *.
  - split; [by apply slots_backed_fast|done].
  - split; [done|]. constructor; [apply pick_victim_ok|done].
  - apply Forall_app in Hv as [Hv1 [Hv2 Hv3]%Forall_cons]. split; [by apply slots_backed_install|].
    by apply Forall_app.
  - apply Forall_app in Hv as [Hv1 [Hv2 Hv3]%Forall_cons]. split; [done|]. by apply Forall_app.
  - split; [by apply slots_backed_block|done].
  - split; [by apply slots_backed_replace|done].
  - split; [by apply slots_backed_fan_in|done].
Qed.

Lemma home_new_backed url dedup now m :
  home_new (C := C) url (Ok tt) dedup now = Ok m -> slots_backed m.
Proof.
  intros [= <-]. split_and!; simpl.
  - done.
  - intros [|[|[|i]]] s; simpl; try done. intros [= <-]. simpl. by rewrite lookup_singleton_eq.
  - intros h u [<- _]%lookup_singleton_Some. lia.
  - intros [|[|[|i]]] [|[|[|j]]] s s'; simpl; try done.
  - eexists. done.
Qed.

Lemma home_run_backed h h' :
  rtc home_step h h' -> slots_backed h.1 -> victims_ok h.2 -> slots_backed h'.1 /\ victims_ok h'.2.
Proof.
  induction 1 as [|x y z Hst _ IH]; [done|]. intros Hb Hv.
  destruct (home_step_backed x y Hst Hb Hv). by apply IH.
Qed.

Lemma home_reachable_backed h : home_reachable h -> slots_backed h.1 /\ victims_ok h.2.
Proof.
  intros (url & dedup & now & m & Hnew & Hr). apply (home_run_backed (m, [])); [done| |constructor].
  by eapply home_new_backed.
Qed.

(** Whatever sends, denylist blocks, failovers and deliveries
    interleave, slot 0 stays taken by the session of the current primary relay, and
    every taken slot is backed by an open session of its own to its relay. *)
Theorem primary_slot_pinned (h : Home) :
  home_reachable h ->
  (exists s, slot_at 0 (mh_slots h.1) = Some s /\ sl_relay_url s = mh_primary_url h.1)
  /\ forall i s, slot_at i (mh_slots h.1) = Some s ->
       (i < 3)%nat /\ mh_sessions h.1 !! sl_handle s = Some (sl_relay_url s)
       /\ forall j s', slot_at j (mh_slots h.1) = Some s' -> sl_handle s' = sl_handle s -> j = i.
Proof.
  intros Hr. destruct (home_reachable_backed h Hr) as [(Hl & Hs & Hn & Hd & Hp) _].
  split; [done|]. intros i s Hi. split_and!; [|by eapply Hs|].
  - assert (is_Some (mh_slots h.1 !! i)) as Hlt%lookup_lt_is_Some.
    { unfold slot_at in Hi. destruct (mh_slots h.1 !! i); [done|discriminate]. }
    by rewrite Hl in Hlt.
  - intros j s' Hj E. by eapply Hd.
Qed.

(** *** Sessions nobody closes *)

(** An open session that no slot refers to. *)
Definition orphaned (k : N) m : Prop :=
  is_Some (mh_sessions m !! k) /\ forall i s, slot_at i (mh_slots m) = Some s -> sl_handle s <> k.

Lemma home_step_orphaned h h' k :
  home_step h h' -> slots_backed h.1 -> victims_ok h.2 -> orphaned k h.1 -> orphaned k h'.1.
Proof.
  intros Hst Hb Hv [Ho Hk]. assert (Hb' := Hb). destruct Hb' as (Hl & _ & Hn & _ & _).
  assert (k <> mh_next_session h.1) as Hne.
  { destruct Ho as [u Hu]. apply Hn in Hu. lia. }
  destruct Hst; simpl in *.
  - unfold acquire_fast. pose proof (refresh_hosting_spec url now (mh_slots m)) as Hr.
    destruct (refresh_hosting url now (mh_slots m)) as [h slots]. simpl in *. split; [done|].
    intros i s Hi. simpl in Hi.
    destruct (Hr i) as [E | (s0 & E & _ & E')]; [rewrite E in Hi; eauto|].
    rewrite E' in Hi. simplify_eq. simpl. eauto.
  - by split.
  - unfold install, open_session. simpl. split; simpl; [by rewrite lookup_insert_ne|].
    apply Forall_app in Hv as [_ [Hv _]%Forall_cons]. simpl in Hv.
    intros i s. rewrite slot_at_insert by lia. case_decide; [|eauto].
    intros [= <-]. simpl. congruence.
  - by split.
  - unfold on_block_event. destruct added as [|a added]; [by split|]. simpl. split; [done|]. simpl.
    destruct (mh_slots m) as [|x rest]; [done|]. intros [|i] s Hi; [by apply (Hk 0%nat)|].
    unfold slot_at in Hi. simpl in Hi. rewrite list_lookup_fmap in Hi.
    apply (Hk (S i)). unfold slot_at. simpl. destruct (rest !! i) as [[s1|]|]; simpl in *; [|done|done].
    by case_bool_decide.
  - unfold replace_primary. destruct build as [[]|]; [|by split]. simpl.
    destruct live; simpl; [|by split; simpl; [rewrite lookup_delete_ne, lookup_insert_ne|]].
    assert (forall u, is_Some (<[mh_next_session m := u]> (mh_sessions m) !! k)) as Ho'.
    { intros u. by rewrite lookup_insert_ne. }
    assert (forall sl i s, sl_handle sl = mh_next_session m ->
              slot_at i (<[0%nat := Some sl]> (mh_slots m)) = Some s -> sl_handle s <> k) as Hslots.
    { intros sl i s Esl. rewrite slot_at_insert by lia. case_decide; [|eauto]. intros [= <-]. congruence. }
    destruct (slot_at 0 (mh_slots m)) as [p|] eqn:Ep; simpl; (split; simpl; [|by intros i s; apply Hslots]); [|done].
    rewrite lookup_delete_ne; [done|]. by eapply Hk.
  - unfold fan_in. repeat case_match; simplify_eq/=; by split.
Qed.

(** Once an eviction or a denylist block makes every
    slot forget a session, no later send, block, failover or delivery closes it: it
    stays open and keeps delivering. *)
Theorem orphaned_session_never_closed (h h' : Home) (k : N) :
  home_reachable h -> orphaned k h.1 -> rtc home_step h h' -> orphaned k h'.1.
Proof.
  intros Hr Ho Hrun. destruct (home_reachable_backed h Hr) as [Hb Hv]. clear Hr. revert Hb Hv Ho.
  induction Hrun as [|x y z Hst _ IH]; [done|]. intros Hb Hv Ho.
  destruct (home_step_backed x y Hst Hb Hv). apply IH; [done..|]. by eapply home_step_orphaned.
Qed.

(** *** The two other slots as a cache *)

Inductive SlotOp := SlotSend (url : string) (now now_built : N) | SlotBlock (added : list string).

Definition slot_op (op : SlotOp) m : MultiHome C :=
  match op with
  | SlotSend url now now_built => (acquire_slot url (Ok tt) now now_built m).2
  | SlotBlock added => (on_block_event added m).2
  end.

(** The relays of slots 1 and 2, most recent traffic first. *)
Definition recency m : list string :=
  match slot_at 1 (mh_slots m), slot_at 2 (mh_slots m) with
  | Some a, Some b => if sl_last_traffic_at b <? sl_last_traffic_at a
                      then [sl_relay_url a; sl_relay_url b] else [sl_relay_url b; sl_relay_url a]
  | Some a, None => [sl_relay_url a]
  | None, Some b => [sl_relay_url b]
  | None, None => []
  end.

(** The reference: the two most recently used relays other than the primary. *)
Definition recent_relays (primary : string) (l : list string) (op : SlotOp) : list string :=
  match op with
  | SlotSend url _ _ =>
      if String.eqb url primary then l
      else take 2 (url :: List.filter (fun u => negb (String.eqb u url)) l)
  | SlotBlock added => List.filter (fun u => negb (bool_decide (u ∈ added))) l
  end.

(** The clock moves on from one send to the next. *)
Fixpoint clock_advances (t : N) (ops : list SlotOp) : Prop :=
  match ops with
  | [] => True
  | SlotSend _ now now_built :: ops => t < now /\ now <= now_built /\ clock_advances now_built ops
  | SlotBlock _ :: ops => clock_advances t ops
  end.

(** What relates the slots to the reference list at time [t]. *)
Definition slots_follow (l : list string) (t : N) m : Prop :=
  exists p s1 s2, mh_slots m = [Some p; s1; s2] /\ sl_relay_url p = mh_primary_url m
    /\ recency m = l
    /\ Forall (fun s => match s with
                        | Some s => sl_last_traffic_at s <= t /\ sl_relay_url s <> mh_primary_url m
                        | None => True
                        end) [s1; s2]
    /\ match s1, s2 with
       | Some a, Some b => sl_last_traffic_at a <> sl_last_traffic_at b
                           /\ sl_relay_url a <> sl_relay_url b
       | _, _ => True
       end.

Ltac slot_case :=
  repeat match goal with
  | |- context [String.eqb ?a ?b] => destruct (String.eqb_spec a b); simplify_eq/=
  | |- context [N.ltb ?a ?b] => destruct (N.ltb_spec a b); simplify_eq/=; try lia
  | |- context [N.leb ?a ?b] => destruct (N.leb_spec a b); simplify_eq/=; try lia
  | |- context [bool_decide ?P] => case_bool_decide; simplify_eq/=
  end.

Lemma slots_follow_send l t m url now now_built :
  slots_follow l t m -> t < now -> now <= now_built ->
  slots_follow (recent_relays (mh_primary_url m) l (SlotSend url now now_built)) now_built
    (slot_op (SlotSend url now now_built) m)
  /\ mh_primary_url (slot_op (SlotSend url now now_built) m) = mh_primary_url m.
Proof.
  intros (p & s1 & s2 & E & Hp & <- & Ht & Hne) Hnow Hb.
  apply Forall_cons in Ht as [H1 [H2 _]%Forall_cons]. destruct m as [pr slots dd ss nx]. simpl in *. subst slots pr.
  unfold recency, acquire_slot, acquire_fast, pick_victim. simpl.
  destruct s1 as [a|], s2 as [b|]; simpl; slot_case; unfold slots_follow, recency; simpl;
    (split; [|done]); do 3 eexists; (split; [reflexivity|]); simpl;
    split_and!; try done; repeat constructor; simpl; try done; try lia; slot_case; try done;
    naive_solver lia.
Qed.

Lemma slots_follow_block l t m added :
  slots_follow l t m ->
  slots_follow (recent_relays (mh_primary_url m) l (SlotBlock added)) t (slot_op (SlotBlock added) m)
  /\ mh_primary_url (slot_op (SlotBlock added) m) = mh_primary_url m.
Proof.
  intros (p & s1 & s2 & E & Hp & <- & Ht & Hne).
  apply Forall_cons in Ht as [H1 [H2 _]%Forall_cons]. destruct m as [pr slots dd ss nx]. simpl in *. subst slots pr.
  unfold recency, on_block_event. destruct added as [|x added]; simpl.
  - split; [|done]. exists p, s1, s2. unfold recency. simpl.
    destruct s1, s2; simpl; slot_case; split_and!; try done; repeat constructor; naive_solver.
  - destruct s1 as [a|], s2 as [b|]; simpl; slot_case; unfold slots_follow, recency; simpl;
      (split; [|done]); do 3 eexists; (split; [reflexivity|]); simpl; slot_case;
      split_and!; try done; repeat constructor; simpl; try done; naive_solver lia.
Qed.

Lemma slot_ops_follow ops l t m :
  slots_follow l t m -> clock_advances t ops ->
  recency (foldl (fun m op => slot_op op m) m ops) = foldl (recent_relays (mh_primary_url m)) l ops.
Proof.
  revert l t m. induction ops as [|[url now built|added] ops IH]; intros l t m Hf Hc.
  - by destruct Hf as (? & ? & ? & _ & _ & ? & _).
  - destruct Hc as (Hn & Hb & Hc). cbn [foldl].
    destruct (slots_follow_send l t m url now built Hf Hn Hb) as [Hf' Hp]. rewrite (IH _ _ _ Hf' Hc).
    by rewrite Hp.
  - cbn [foldl]. destruct (slots_follow_block l t m added Hf) as [Hf' Hp]. rewrite (IH _ _ _ Hf' Hc).
    by rewrite Hp.
Qed.

(** After any sequence of sends and denylist blocks, with a
    clock that moves on, slots 1 and 2 hold exactly the two most recently used relays
    other than the primary that were not blocked since, in order of recency. *)
Theorem slots_hold_recent_relays (primary : string) (dedup : NonceDedup C) (t : N) (ops : list SlotOp) m :
  home_new primary (Ok tt) dedup t = Ok m -> clock_advances t ops ->
  recency (foldl (fun m op => slot_op op m) m ops) = foldl (recent_relays primary) [] ops.
Proof.
  intros [= <-] Hc. eapply slot_ops_follow; [|exact Hc]. unfold slots_follow, recency. simpl.
  do 3 eexists. split; [reflexivity|]. simpl. split_and!; try done. repeat constructor.
Qed.
End home_facts.

(** ** The router *)

Section router.
  Context {W : Type}.

(** Whether a transport refuses the send in [w]. *)
Definition passes_over (t : Transport W) (to : string) (env : OutboundEnvelope)
    (hints : option (list string)) (w w' : W) : Prop :=
  (tr_reachability t to w = No /\ w' = w)
  \/ (tr_reachability t to w <> No /\ exists e, tr_send t to env hints w = (Err e, w')).

Inductive passed_over (to : string) (env : OutboundEnvelope) (hints : option (list string))
  : list (Transport W) -> W -> W -> Prop :=
| passed_nil w : passed_over to env hints [] w w
| passed_cons t ts w w1 w2 :
    passes_over t to env hints w w1 -> passed_over to env hints ts w1 w2 ->
    passed_over to env hints (t :: ts) w w2.

Lemma router_loop_ok ts to env hints any e w r w' :
  router_loop ts to env hints any e w = (Ok r, w') <->
  exists before t after w1, ts = before ++ t :: after /\ passed_over to env hints before w w1
    /\ tr_reachability t to w1 <> No /\ tr_send t to env hints w1 = (Ok r, w').
Proof.
  revert any e w. induction ts as [|t ts IH]; intros any e w; simpl.
  { split; [done|]. intros (b & t & a & w1 & E & _). by destruct b. }
  split.
  - intros Hr. destruct (tr_reachability t to w) eqn:Er;
      try (destruct (tr_send t to env hints w) as [[r'|e'] w1] eqn:Es;
           [simplify_eq; exists [], t, ts, w; split_and!; [done|constructor|congruence|done]|]);
      apply IH in Hr as (b & t' & a & w2 & -> & Hp & Hn & Hs); exists (t :: b), t', a, w2;
      (split_and!; [done| |done|done]); econstructor; try exact Hp; unfold passes_over;
      [right; split; [congruence|eauto]|right; split; [congruence|eauto]|by left].
  - intros ([|t' b] & t0 & a & w1 & E & Hp & Hn & Hs); simplify_eq/=.
    + inversion Hp; subst. rewrite Hs. by destruct (tr_reachability t0 to w1).
    + inversion Hp as [|? ? ? w2 ? Ho Hp']; subst.
      assert (forall any e, router_loop (b ++ t0 :: a) to env hints any e w2 = (Ok r, w')) as Hrec.
      { intros any' e'. apply IH. eauto 10. }
      destruct Ho as [[-> ->] | [Hne (e' & ->)]]; [apply Hrec|].
      destruct (tr_reachability t' to w); [apply Hrec..|done].
Qed.

(** A send is accepted exactly when some transport accepts it
    after every transport registered before it was unreachable or refused; that
    transport is the last one asked. *)
Theorem router_first_accepting (ts : list (Transport W)) (to : string) (env : OutboundEnvelope)
    (hints : option (list string)) (w : W) (r : SendReceipt) (w' : W) :
  router_send ts to env hints w = (Ok r, w') <->
  exists before t after w1, ts = before ++ t :: after /\ passed_over to env hints before w w1
    /\ tr_reachability t to w1 <> No /\ tr_send t to env hints w1 = (Ok r, w').
Proof.
  destruct ts as [|t ts]; [|apply router_loop_ok].
  split; [done|]. intros (b & t & a & w1 & E & _). by destruct b.
Qed.
End router.

(** ** Redelivery of a held frame *)

Section redelivery.
  Context {C W : Type} `{!Lru DedupKey N C} `{DispatchSeams W}.

Definition delivery_obs (env : InboundEnvelope) (now : N) : list (DedupKey * N) :=
  match ie_transit env with
  | Some tr => if len (e_nonce tr) =? 12 then [((ie_from env, e_nonce tr), now)] else []
  | None => []
  end.

Lemma fan_in_dedup env now (m : MultiHome C) :
  mh_inbox_dedup (fan_in env now m).2 = obs_run (delivery_obs env now) (mh_inbox_dedup m).
Proof.
  unfold fan_in, delivery_obs. destruct (ie_transit env) as [tr|]; [|done].
  destruct (len (e_nonce tr) =? 12); [|done]. simpl.
  by destruct (observe (ie_from env, e_nonce tr) now (mh_inbox_dedup m)).
Qed.

Definition deliver_all (l : list (InboundEnvelope * N)) (st : MultiHome C * W) : MultiHome C * W :=
  foldl (fun st d => (deliver d.1 d.2 st).2) st l.

Lemma deliver_dedup env now st :
  mh_inbox_dedup (deliver env now st).2.1 = obs_run (delivery_obs env now) (mh_inbox_dedup st.1).
Proof.
  destruct st as [m w]. simpl. rewrite <- fan_in_dedup. unfold deliver.
  destruct (fan_in env now m) as [[] m']; [|done]. by destruct (default_dispatch_one env w).
Qed.

Lemma deliver_all_dedup l st :
  mh_inbox_dedup (deliver_all l st).1
  = obs_run (concat ((fun d => delivery_obs d.1 d.2) <$> l)) (mh_inbox_dedup st.1).
Proof.
  revert st. induction l as [|[env now] l IH]; intros st; [done|]. unfold deliver_all in *. simpl.
  rewrite IH, deliver_dedup. unfold obs_run. by rewrite foldl_app.
Qed.

(** The gate counts a frame whose first dispatch was
    held (a stale epoch, a missing card, a write error) as seen, so when the relay
    delivers its stored copy again within the gate's lifetime the copy is confirmed
    without being dispatched and the relay drops it. *)
Theorem held_frame_lost_on_redelivery (n : nat) (ttl t t' : N) (env : InboundEnvelope)
    (tr : TransitEnvelope) (before : list (DedupKey * N)) (between : list (InboundEnvelope * N))
    (m : MultiHome C) (w : W) :
  mh_inbox_dedup m = obs_run before (mkDedup (lru_new n) ttl) -> (0 < n)%nat -> t' - t < ttl ->
  ie_transit env = Some tr -> len (e_nonce tr) = 12 -> (ie_from env, e_nonce tr) ∉ before.*1 ->
  Forall (fun d => d.2 <= t') between ->
  (size (other_keys (ie_from env, e_nonce tr)
           (concat ((fun d => delivery_obs d.1 d.2) <$> between))) < n)%nat ->
  (default_dispatch_one env w).1 = false ->
  let first := deliver env t (m, w) in
  let again := deliver env t' (deliver_all between first.2) in
  first.1 = (true, false) /\ again.1 = (false, true).
Proof.
  intros Hm Hn Hw Htr Hlen Hfresh Hbt Hsz Hheld first again.
  assert (Hobs : forall now, delivery_obs env now = [((ie_from env, e_nonce tr), now)]).
  { intros now. unfold delivery_obs. by rewrite Htr, Hlen. }
  destruct (dedup_first_seen_wins n ttl t t' (ie_from env, e_nonce tr) before
              (concat ((fun d => delivery_obs d.1 d.2) <$> between)) Hn Hw) as [Hp Hr]; [|done|done|].
  { apply Forall_concat, Forall_fmap. eapply Forall_impl; [exact Hbt|]. intros [e now] Hle. simpl in *.
    unfold delivery_obs. repeat case_match; repeat constructor; done. }
  assert (Hfan : forall (m0 : MultiHome C) now, (fan_in env now m0).1
            = if (observe (ie_from env, e_nonce tr) now (mh_inbox_dedup m0)).1 then Passed else DroppedConfirmed).
  { intros m0 now. unfold fan_in. rewrite Htr, Hlen. simpl.
    by destruct (observe (ie_from env, e_nonce tr) now (mh_inbox_dedup m0)) as [[] ?]. }
  split.
  - unfold first, deliver. pose proof (Hfan m t) as Hf. rewrite Hm, Hp in Hf.
    destruct (fan_in env t m) as [f m1]. simpl in Hf. subst f.
    destruct (default_dispatch_one env w) as [ok w1]. simpl in Hheld. by subst ok.
  - unfold again. destruct (deliver_all between first.2) as [m2 w2] eqn:E2. unfold deliver.
    pose proof (Hfan m2 t') as Hf.
    assert (mh_inbox_dedup m2 = obs_run (concat ((fun d => delivery_obs d.1 d.2) <$> between))
              (observe (ie_from env, e_nonce tr) t (obs_run before (mkDedup (lru_new n) ttl))).2) as Ed.
    { pose proof (deliver_all_dedup between first.2) as Ed. rewrite E2 in Ed. simpl in Ed. rewrite Ed.
      unfold first. rewrite deliver_dedup, Hobs. simpl. by rewrite Hm. }
    rewrite Ed, Hr in Hf. destruct (fan_in env t' m2) as [f m3]. simpl in Hf. by subst f.
Qed.
End redelivery.

(** ** Concrete runs *)

Section demo.

Record ListLru := { ll_cap : nat; ll_items : list (DedupKey * N) }.

(** A cache the witnesses run with: the list itself. *)
Definition list_lru : Lru DedupKey N ListLru.
Proof.
  refine {|
    lru_new n := {| ll_cap := n; ll_items := [] |};
    lru_cap := ll_cap; lru_items := ll_items;
    lru_get k c := (snd <$> List.find (fun e => bool_decide (e.1 = k)) (ll_items c),
                    {| ll_cap := ll_cap c;
                       ll_items := List.filter (fun e => bool_decide (e.1 = k)) (ll_items c)
                         ++ List.filter (fun e => negb (bool_decide (e.1 = k))) (ll_items c) |});
    lru_put k v c := {| ll_cap := ll_cap c;
                        ll_items := take (ll_cap c) ((k, v) ::
                          List.filter (fun e => negb (bool_decide (e.1 = k))) (ll_items c)) |};
  |}; reflexivity.
Defined.
#[local] Existing Instance list_lru.

Definition demo_dedup : NonceDedup ListLru := mkDedup (lru_new 4) 300.

Lemma dedup_first_seen_wins_witness :
  (observe ("a", [1]) 20 (obs_run [(("b", [1]), 15)]
     (observe ("a", [1]) 10 (obs_run [] (mkDedup (lru_new 2) 300))).2)).1 = false.
Proof.
  apply (dedup_first_seen_wins 2 300 10 20 ("a", [1]) [] [(("b", [1]), 15)]);
    [lia|lia|repeat constructor; simpl; lia|apply not_elem_of_nil|vm_compute; lia].
Defined.

Definition demo_home : MultiHome ListLru :=
  mkHome "p" [Some {| sl_relay_url := "p"; sl_handle := 0; sl_last_traffic_at := 1 |}; None; None]
    demo_dedup {[0 := "p"]} 1.

Definition demo_ops : list SlotOp :=
  [SlotSend "a" 2 2; SlotSend "b" 3 3; SlotSend "a" 4 4; SlotSend "p" 5 5; SlotSend "c" 6 6].

Lemma slots_hold_recent_relays_witness :
  recency (foldl (fun m op => slot_op op m) demo_home demo_ops) = ["c"; "a"].
Proof.
  apply (slots_hold_recent_relays "p" demo_dedup 1 demo_ops demo_home); [reflexivity|].
  simpl. lia.
Defined.

(** Three sends to three relays: the third takes the slot of the first. *)
Definition demo_evicted : MultiHome ListLru :=
  (install "c" 1 4 (install "b" 2 3 (install "a" 1 2 demo_home).2).2).2.

Lemma demo_evicted_reachable : home_reachable (demo_evicted, []).
Proof.
  exists "p", demo_dedup, 1, demo_home. split; [reflexivity|].
  eapply rtc_l; [apply (step_pick demo_home [] "a" 2)|].
  eapply rtc_l; [apply (step_built demo_home [] [] "a" 1 2)|].
  eapply rtc_l; [apply (step_pick (install "a" 1 2 demo_home).2 [] "b" 3)|].
  eapply rtc_l; [apply (step_built (install "a" 1 2 demo_home).2 [] [] "b" 2 3)|].
  eapply rtc_l; [apply (step_pick (install "b" 2 3 (install "a" 1 2 demo_home).2).2 [] "c" 4)|].
  eapply rtc_l; [apply (step_built (install "b" 2 3 (install "a" 1 2 demo_home).2).2 [] [] "c" 1 4)|].
  apply rtc_refl.
Qed.

Lemma primary_slot_pinned_witness :
  exists s, slot_at 0 (mh_slots demo_evicted) = Some s /\ sl_relay_url s = "p".
Proof. apply (primary_slot_pinned (demo_evicted, [])). apply demo_evicted_reachable. Defined.

Lemma orphaned_session_never_closed_witness :
  orphaned 1 (on_block_event ["a"; "c"] demo_evicted).2.
Proof.
  apply (orphaned_session_never_closed (demo_evicted, [])
           ((on_block_event ["a"; "c"] demo_evicted).2, []) 1).
  - apply demo_evicted_reachable.
  - split; [by eexists|]. intros [|[|[|i]]] s E; vm_compute in E; try discriminate; injection E as <-; discriminate.
  - eapply rtc_l; [apply step_block|apply rtc_refl].
Defined.

(** A client whose group frames cannot be opened yet. *)
Definition demo_dispatch : DispatchSeams unit := {|
  ds_identity := Some "me";
  ds_bridge _ w := (Ok tt, w);
  ds_public_post _ w := (Ok tt, w);
  ds_denylisted _ _ := false;
  ds_note_dropped w := w;
  ds_pair_record_push _ w := (Ok tt, w);
  ds_private_group _ _ w := (Err (MessageTransport "stale epoch"), w);
  ds_note_wedge _ _ w := w;
  ds_trigger_recovery _ _ w := w;
  ds_conversation _ w := (Ok WelcomeIgnored, w);
  ds_has_registry := true;
|}.
#[local] Existing Instance demo_dispatch.

Definition demo_frame : TransitEnvelope :=
  {| e_version := 1; e_kind := PrivateGroupChat; e_group_id := Some (repeat 2 32);
     e_tenant_id := None; e_sender_agent_id := repeat 3 32; e_sender_machine_id := repeat 4 32;
     e_timestamp_ms := 5; e_epoch := 6; e_ciphertext := [7]; e_nonce := repeat 8 12;
     e_kem_ciphertext := []; e_sender_signature := [] |}.
Definition demo_inbound : InboundEnvelope :=
  {| ie_from := "alice"; ie_transit := Some demo_frame; ie_ack := true |}.

Lemma held_frame_lost_on_redelivery_witness :
  (deliver demo_inbound 50 (deliver_all [] (deliver demo_inbound 10 (demo_home, tt)).2)).1 = (false, true).
Proof.
  apply (held_frame_lost_on_redelivery 4 300 10 50 demo_inbound demo_frame [] [] demo_home tt);
    try reflexivity; try (vm_compute; lia); [apply not_elem_of_nil|constructor].
Defined.
End demo.
