(* ===== verification/DmLookup.v ===== *)
(** * Finding the current direct conversation

    Models [find_dm_with], [dm_with], [pick_current_dm] and [snapshot_cached] of
    [crates/fetchit-chat/src/conversation/registry.rs]: the scan of the cache and of
    the sealed files for the conversations with a peer, and the tiebreak chain that
    picks the one a message is sent on.  The orders in which the cache and the
    directory are listed are arguments ([HashIter]). *)
From S2P Require Import Prelude SendState Attachment Bubble Overlay SeqGap RelayProto Conversation ConvRegistry.
Open Scope rust_scope.

(** ** Comparisons *)

(** [Ordering::then_with]. *)
Definition then_with (c d : comparison) : comparison := match c with Eq => d | _ => c end.

(** [b.current_epoch.cmp(&a.current_epoch)] and the rest of the chain. *)
Definition dm_compare (a b : Conversation) : comparison :=
  then_with (N.compare (c_current_epoch b) (c_current_epoch a))
    (then_with (N.compare (c_last_rekey_at_ms b) (c_last_rekey_at_ms a))
       (then_with (N.compare (c_created_at_ms b) (c_created_at_ms a))
          (String.compare (c_group_id_hex b) (c_group_id_hex a)))).

(** [a] does not come after [b]. *)
Definition dm_before (a b : Conversation) : Prop := dm_compare a b <> Gt.

#[export] Instance dm_before_dec : RelDecision dm_before.
Proof. intros a b. unfold dm_before. apply _. Defined.

Definition dm_with (conv : Conversation) (peer_agent_id_hex : string) : bool :=
  if negb (length (c_members conv) =? 2)%nat then false
  else existsb (fun d => String.eqb (md_agent_id_hex d) peer_agent_id_hex)
         (concat (mb_devices <$> c_members conv)).

(** [sort_by] and the first element. *)
Definition pick_current_dm (candidates : list Conversation) : option Conversation :=
  head (merge_sort dm_before candidates).

Section scan.
  Context `{!HashIter string Conversation} `{!HashIter string (result Conversation ChatError)}.

(** The files in listing order: a file that does not open or parse ends the scan. *)
Fixpoint scan_files (peer : string) (files : list (string * result Conversation ChatError))
    (seen : gset string) (candidates : list Conversation) (r : ConversationRegistry)
    : result (list Conversation) ChatError * ConversationRegistry :=
  match files with
  | [] => (Ok candidates, r)
  | (_, Err e) :: _ => (Err e, r)
  | (_, Ok conv) :: files =>
      if negb (dm_with conv peer) then scan_files peer files seen candidates r
      else
        let gid := c_group_id_hex conv in
        let r := match cache r !! gid with Some _ => r | None => cache_insert gid conv r end in
        if bool_decide (gid ∈ seen) then scan_files peer files seen candidates r
        else scan_files peer files ({[gid]} ∪ seen) (candidates ++ [conv]) r
  end.

Definition cached_dms (peer : string) (r : ConversationRegistry) : list Conversation :=
  List.filter (fun c => dm_with c peer) (hm_values (cache r)).

Definition find_dm_with (peer : string) (r : ConversationRegistry)
    : result (option Conversation) ChatError * ConversationRegistry :=
  let candidates := cached_dms peer r in
  match scan_files peer (hm_iter (disk r)) (list_to_set (c_group_id_hex <$> candidates)) candidates r with
  | (Err e, r) => (Err e, r)
  | (Ok candidates, r) => (Ok (pick_current_dm candidates), r)
  end.

Definition snapshot_cached (r : ConversationRegistry) : list Conversation := hm_values (cache r).
End scan.

(** ** The chain is a total order on conversations *)

Lemma then_with_eq c d : then_with c d = Eq <-> c = Eq /\ d = Eq.
Proof. destruct c; simpl; naive_solver. Qed.

Lemma then_with_opp c d : CompOpp (then_with c d) = then_with (CompOpp c) (CompOpp d).
Proof. by destruct c. Qed.

Lemma dm_compare_opp a b : dm_compare a b = CompOpp (dm_compare b a).
Proof.
  unfold dm_compare. rewrite !then_with_opp, <- !N.compare_antisym, <- String.compare_antisym. done.
Qed.

Lemma dm_compare_eq a b : dm_compare a b = Eq -> c_group_id_hex a = c_group_id_hex b.
Proof.
  unfold dm_compare. rewrite !then_with_eq. intros (_ & _ & _ & E). symmetry.
  by apply String.compare_eq_iff.
Qed.

(** A comparison that orders: loosely transitive, and equal only through equals. *)
Definition cmp_trans {A} (cmp : A -> A -> comparison) : Prop :=
  forall a b c, cmp a b <> Gt -> cmp b c <> Gt ->
    cmp a c <> Gt /\ (cmp a c = Eq <-> cmp a b = Eq /\ cmp b c = Eq).

Lemma N_cmp_trans {A} (f : A -> N) : cmp_trans (fun a b => N.compare (f b) (f a)).
Proof. intros a b c. rewrite !N.compare_ngt_iff, !N.compare_eq_iff. lia. Qed.

Lemma string_compare_trans : cmp_trans String.compare.
Proof.
  intros s. induction s as [|a s IH]; intros [|b t] [|c u]; [simpl; intros; naive_solver..|].
  cbn [String.compare].
  unfold Ascii.compare.
  destruct (N.compare_spec (Ascii.N_of_ascii a) (Ascii.N_of_ascii b)) as [E1|E1|E1];
    destruct (N.compare_spec (Ascii.N_of_ascii b) (Ascii.N_of_ascii c)) as [E2|E2|E2]; try done;
    destruct (N.compare_spec (Ascii.N_of_ascii a) (Ascii.N_of_ascii c)) as [E3|E3|E3]; try lia; try naive_solver.
Qed.

Lemma string_cmp_trans {A} (f : A -> string) : cmp_trans (fun a b => String.compare (f b) (f a)).
Proof.
  intros a b c H1 H2. destruct (string_compare_trans (f c) (f b) (f a) H2 H1) as [H3 H4].
  split; [done|]. rewrite H4. tauto.
Qed.

Lemma then_with_trans {A} (f g : A -> A -> comparison) :
  cmp_trans f -> cmp_trans g -> cmp_trans (fun a b => then_with (f a b) (g a b)).
Proof.
  intros Hf Hg a b c H1 H2.
  assert (f a b <> Gt) as F1 by (intros E; by rewrite E in H1).
  assert (f b c <> Gt) as F2 by (intros E; by rewrite E in H2).
  destruct (Hf a b c F1 F2) as [F3 Fe]. unfold then_with in *.
  destruct (f a c) eqn:E3; [|by destruct (f a b), (f b c); naive_solver|done].
  destruct (proj1 Fe eq_refl) as [E1 E2]. rewrite E1 in *. rewrite E2 in *. by apply Hg.
Qed.

Lemma dm_compare_trans : cmp_trans dm_compare.
Proof.
  repeat apply then_with_trans; try apply N_cmp_trans. apply string_cmp_trans.
Qed.

#[export] Instance dm_before_trans : Transitive dm_before.
Proof. intros a b c H1 H2. by apply (dm_compare_trans a b c). Qed.

#[export] Instance dm_before_total : Total dm_before.
Proof. intros a b. unfold dm_before. rewrite (dm_compare_opp b a). destruct (dm_compare a b); naive_solver. Qed.

Lemma dm_before_antisym a b : dm_before a b -> dm_before b a -> c_group_id_hex a = c_group_id_hex b.
Proof.
  unfold dm_before. rewrite (dm_compare_opp b a). intros H1 H2. apply dm_compare_eq.
  by destruct (dm_compare a b).
Qed.

(** ** The reference *)

(** The best of a list by pairwise comparison. *)
Fixpoint best (l : list Conversation) : option Conversation :=
  match l with
  | [] => None
  | c :: l =>
      match best l with
      | None => Some c
      | Some d => if decide (dm_before c d) then Some c else Some d
      end
  end.

Definition is_best (c : Conversation) (l : list Conversation) : Prop :=
  c ∈ l /\ forall d, d ∈ l -> dm_before c d.

Lemma dm_before_refl a : dm_before a a.
Proof. by destruct (total dm_before a a). Qed.

Lemma best_spec l : match best l with None => l = [] | Some c => is_best c l end.
Proof.
  induction l as [|a l IH]; [done|]. simpl. destruct (best l) as [d|].
  - destruct IH as [Hd Hb]. case_decide as Hc.
    + split; [left|]. intros x [->|Hx]%elem_of_cons; [apply dm_before_refl|].
      etrans; [exact Hc|auto].
    + split; [by right|]. intros x [->|Hx]%elem_of_cons; [|auto].
      by destruct (total dm_before a d).
  - subst l. split; [left|]. intros x [->|Hx%elem_of_nil]%elem_of_cons; [apply dm_before_refl|done].
Qed.

Lemma pick_current_dm_spec l :
  match pick_current_dm l with None => l = [] | Some c => is_best c l end.
Proof.
  unfold pick_current_dm. pose proof (merge_sort_Permutation dm_before l) as Hp.
  pose proof (StronglySorted_merge_sort dm_before l) as Hs.
  destruct (merge_sort dm_before l) as [|c k]; simpl.
  - by apply Permutation_nil_l in Hp.
  - split; [rewrite <- Hp; left|]. intros d Hd. rewrite <- Hp in Hd.
    apply elem_of_cons in Hd as [->|Hd]; [apply dm_before_refl|].
    apply StronglySorted_inv in Hs as [_ Hs]. by apply (proj1 (Forall_forall _ _) Hs).
Qed.

Lemma elem_of_same_id (l : list Conversation) a b :
  NoDup (c_group_id_hex <$> l) -> a ∈ l -> b ∈ l -> c_group_id_hex a = c_group_id_hex b -> a = b.
Proof.
  induction l as [|x l IH]; intros Hd Ha Hb E; [by apply elem_of_nil in Ha|].
  apply NoDup_cons in Hd as [Hx Hd].
  apply elem_of_cons in Ha as [->|Ha]; apply elem_of_cons in Hb as [->|Hb]; [done| | |auto].
  - exfalso. apply Hx, list_elem_of_fmap. by exists b.
  - exfalso. apply Hx, list_elem_of_fmap. by exists a.
Qed.

(** Among distinct conversations the pick does not depend on their order. *)
Lemma pick_current_dm_best l l' :
  l ≡ₚ l' -> NoDup (c_group_id_hex <$> l) -> pick_current_dm l = best l'.
Proof.
  intros Hp Hd. pose proof (pick_current_dm_spec l) as H1. pose proof (best_spec l') as H2.
  destruct (pick_current_dm l) as [c|], (best l') as [d|]; subst.
  - destruct H1 as [Hc Hcb], H2 as [Hd' Hdb]. rewrite <- Hp in Hd'. f_equal.
    apply (elem_of_same_id l); [done..|]. apply dm_before_antisym; [auto|].
    apply Hdb. by rewrite <- Hp.
  - destruct H1 as [Hc _]. rewrite Hp in Hc. by apply elem_of_nil in Hc.
  - destruct H2 as [Hd' _]. rewrite <- Hp in Hd'. by apply elem_of_nil in Hd'.
  - done.
Qed.

(** *** The scan *)

Definition opened (f : string * result Conversation ChatError) : option Conversation :=
  match f.2 with Ok c => Some c | Err _ => None end.

(** The conversations of the files that the cache does not already offer. *)
Definition file_dms (peer : string) (seen : gset string) (convs : list Conversation) : list Conversation :=
  List.filter (fun c => dm_with c peer && negb (bool_decide (c_group_id_hex c ∈ seen))) convs.

Lemma file_dms_more peer seen g convs :
  g ∉ c_group_id_hex <$> convs -> file_dms peer ({[g]} ∪ seen) convs = file_dms peer seen convs.
Proof.
  intros Hg. unfold file_dms. induction convs as [|c convs IH]; [done|]. simpl in *.
  apply not_elem_of_cons in Hg as [Hne Hg].
  replace (bool_decide (c_group_id_hex c ∈ {[g]} ∪ seen)) with (bool_decide (c_group_id_hex c ∈ seen))
    by (apply bool_decide_ext; set_solver).
  by rewrite IH.
Qed.

Lemma scan_files_ok peer files seen cands r :
  Forall (fun f => is_ok f.2 = true) files ->
  NoDup (c_group_id_hex <$> omap opened files) ->
  (scan_files peer files seen cands r).1 = Ok (cands ++ file_dms peer seen (omap opened files)).
Proof.
  revert seen cands r. induction files as [|[n [c|e]] files IH]; intros seen cands r Hok Hd; simpl.
  - by rewrite app_nil_r.
  - apply Forall_cons in Hok as [_ Hok]. simpl in Hd. apply NoDup_cons in Hd as [Hc Hd].
    unfold file_dms. simpl. destruct (dm_with c peer); simpl; [|by apply IH].
    case_bool_decide; simpl; (etrans; [by apply IH|]); [done|].
    rewrite <- app_assoc. do 2 f_equal. simpl. f_equal. by apply file_dms_more.
  - apply Forall_cons in Hok as [? _]. done.
Qed.

(** Cached and stored conversations are filed under their own group id. *)
Definition well_filed (r : ConversationRegistry) : Prop :=
  (forall g c, cache r !! g = Some c -> c_group_id_hex c = g)
  /\ (forall g c, disk r !! g = Some (Ok c) -> c_group_id_hex c = g).

(** Every conversation with the peer, in a fixed order. *)
Definition dm_candidates (peer : string) (r : ConversationRegistry) : list Conversation :=
  let cached := cached_dms (HashIter0 := canonical_iter _ _) peer r in
  cached ++ file_dms peer (list_to_set (c_group_id_hex <$> cached)) (omap opened (map_to_list (disk r))).

Section find.
  Context `{HC : !HashIter string Conversation} `{HD : !HashIter string (result Conversation ChatError)}.

Lemma opened_ids r (it : list (string * result Conversation ChatError)) :
  well_filed r -> it ≡ₚ map_to_list (disk r) ->
  NoDup (c_group_id_hex <$> omap opened it) /\ forall c, c ∈ omap opened it -> disk r !! c_group_id_hex c = Some (Ok c).
Proof.
  intros [_ Hd] Hp.
  assert (Hin : forall f, f ∈ it -> disk r !! f.1 = Some f.2).
  { intros [g x] Hf. apply elem_of_map_to_list. by rewrite <- Hp. }
  assert (Hnd : NoDup it.*1) by (rewrite Hp; apply NoDup_fst_map_to_list).
  clear Hp. split.
  - induction it as [|[g [c|e]] it IH]; [constructor| |].
    + simpl in *. apply NoDup_cons in Hnd as [Hg Hnd]. apply NoDup_cons.
      split; [|apply IH; [set_solver|done]].
      intros (c' & Ec & ([g' x] & Hf & Ho)%list_elem_of_omap)%list_elem_of_fmap. apply Hg.
      apply list_elem_of_fmap. exists (g', x). split; [|done]. simpl.
      destruct x as [x|]; [|done]. unfold opened in Ho. simplify_eq/=.
      assert (disk r !! g = Some (Ok c)) as E1 by (apply (Hin (g, Ok c)); set_solver).
      assert (disk r !! g' = Some (Ok c')) as E2 by (apply (Hin (g', Ok c')); set_solver).
      apply Hd in E1. apply Hd in E2. congruence.
    + simpl in *. apply NoDup_cons in Hnd as [_ Hnd]. apply IH; [set_solver|done].
  - intros c ([g [x|]] & Hf & Ho)%list_elem_of_omap; [|done]. unfold opened in Ho. simplify_eq/=.
    apply Hin in Hf. simpl in Hf. by rewrite (Hd g c Hf).
Qed.

Lemma cached_ids r peer :
  well_filed r -> NoDup (c_group_id_hex <$> cached_dms (HashIter0 := HC) peer r).
Proof.
  intros [Hc _]. unfold cached_dms. apply NoDup_fmap_filter_bool. unfold hm_values.
  assert (forall it : list (string * Conversation), (forall e, e ∈ it -> c_group_id_hex e.2 = e.1) ->
            c_group_id_hex <$> it.*2 = it.*1) as Hids.
  { induction it as [|e it IH]; intros Hit; [done|]. simpl. f_equal; [apply Hit; left|].
    apply IH. intros e' He'. apply Hit. by right. }
  assert (c_group_id_hex <$> (hm_iter (cache r)).*2 = hm_keys (cache r)) as E.
  { apply Hids. intros [g c] He. apply elem_of_hm_iter in He. by apply Hc. }
  rewrite E. apply NoDup_hm_keys.
Qed.

Lemma cached_perm r peer :
  cached_dms (HashIter0 := HC) peer r ≡ₚ cached_dms (HashIter0 := canonical_iter _ _) peer r.
Proof.
  unfold cached_dms, hm_values. apply filter_bool_perm, fmap_Permutation.
  etrans; [apply hm_iter_perm|done].
Qed.

(** When every conversation file opens, the conversation a
    message to a peer is sent on is the best of all two-member conversations with that
    peer by epoch, last re-key, creation and group id, whatever order the cache and
    the directory are listed in. *)
Theorem current_dm_is_best (peer : string) (r : ConversationRegistry) :
  well_filed r -> (forall g f, disk r !! g = Some f -> is_ok f = true) ->
  (find_dm_with peer r).1 = Ok (best (dm_candidates peer r)).
Proof.
  intros Hw Hok. unfold find_dm_with.
  set (cached := cached_dms peer r). set (seen := list_to_set (c_group_id_hex <$> cached) : gset string).
  destruct (opened_ids r (hm_iter (disk r)) Hw (hm_iter_perm _)) as [Hnd Hlk].
  pose proof (scan_files_ok peer (hm_iter (disk r)) seen cached r) as Hs.
  assert (Forall (fun f => is_ok f.2 = true) (hm_iter (disk r))) as Hall.
  { apply Forall_forall. intros [g f] Hf. apply elem_of_hm_iter in Hf. by eapply Hok. }
  specialize (Hs Hall Hnd). destruct (scan_files peer (hm_iter (disk r)) seen cached r) as [res r'].
  simpl in Hs. subst res. simpl. f_equal. apply pick_current_dm_best.
  - unfold dm_candidates. apply Permutation_app; [apply cached_perm|].
    assert (list_to_set (c_group_id_hex <$> cached_dms (HashIter0 := canonical_iter _ _) peer r) = seen) as ->.
    { unfold seen. apply set_eq. intros x. rewrite !elem_of_list_to_set.
      unfold cached. by rewrite (fmap_Permutation c_group_id_hex _ _ (cached_perm r peer)). }
    unfold file_dms. apply filter_bool_perm, omap_Permutation, hm_iter_perm.
  - rewrite fmap_app. apply NoDup_app. split_and!.
    + by apply cached_ids.
    + intros g Hg (c & -> & [Hf _]%elem_of_list_filter_bool)%list_elem_of_fmap.
      apply andb_true_iff in Hf as [_ Hf]. apply negb_true_iff, bool_decide_eq_false in Hf.
      apply Hf. unfold seen. by apply elem_of_list_to_set.
    + by apply NoDup_fmap_filter_bool.
Qed.
End find.

(** ** A concrete registry *)

Definition demo_member (agent : string) : Member :=
  {| mb_user_id_hex := None; mb_joined_at_epoch := 0;
     mb_devices := [{| md_agent_id_hex := agent; md_kem_public_key_b64 := "";
                       md_agent_public_key_b64 := None; md_added_at_epoch := 0;
                       md_status := Active |}] |}.

Definition demo_dm (gid : string) (epoch : N) : Conversation :=
  mkConv gid None [demo_member "me"; demo_member "peer"] epoch "" [] RoleMember 0 0
    DEFAULT_AUTO_REKEY_INTERVAL_MS Confirmed ∅ [] 0 ∅ 0 0 0 0 0.

(** An empty shell in the cache, a conversation that was re-keyed on disk. *)
Definition demo_filed : ConversationRegistry :=
  mkRegistry {["aa" := demo_dm "aa" 0]} {["bb" := Ok (demo_dm "bb" 3)]}.

Lemma current_dm_is_best_witness :
  (find_dm_with "peer" demo_filed).1 = Ok (Some (demo_dm "bb" 3)).
Proof.
  apply (current_dm_is_best "peer" demo_filed).
  - split; simpl.
    + intros g c [<- <-]%lookup_singleton_Some. reflexivity.
    + intros g c [<- [= <-]]%lookup_singleton_Some. reflexivity.
  - simpl. intros g f [_ <-]%lookup_singleton_Some. reflexivity.
Defined.
