(* ===== verification/Endpoint.v ===== *)
(** * The messages endpoint of a client

    What the send and receive calls of [crates/fetchit-chat/src/messages.rs]
    ([Endpoint]) share: the stores they work on, and handing an envelope to the
    router with the recipient's relay hints, following a forwarding record when no
    known relay takes it.  The calls run in a monad of failure over those stores.
    Every hand-over to the router is also entered in a trace, which the theorems
    read and no call does. *)
From stdpp Require Import pretty.
From S2P Require Import Prelude SendState Attachment Bubble OutboxStore Overlay SeqGap.
From S2P Require Import RelayProto RelayAuth Transit TransitSqlite PairRecord ShareUri RelayHttp DeviceFabric PairIndex.
From S2P Require Import Conversation ConvRegistry ContactCard Inbound Outbound Publish PendingJoin Pairing MultiHome DmLookup.
Open Scope rust_scope.

Inductive GroupKind := Public | Private.

(** One hand-over: recipient, envelope, hints, and whether a transport took it. *)
Record HandOver := mkHand {
  ho_to : string;
  ho_envelope : MultiHome.OutboundEnvelope;
  ho_hints : option (list string);
  ho_taken : bool;
}.

(** The mutable state the endpoint works on. *)
Record Stores (W : Type) := mkStores {
  st_registry : ConversationRegistry;
  st_contacts : Contacts;
  st_marks : Watermarks;
  st_fabric : FabricStore;
  st_outbox : option OutboxStore;
  st_neg_cache : gmap string N;
  st_group_kinds : gmap string GroupKind;
  st_net : W;
  st_trace : list HandOver;
}.
Arguments mkStores {W} _ _ _ _ _ _ _ _ _.
Arguments st_registry {W} _.
Arguments st_contacts {W} _.
Arguments st_marks {W} _.
Arguments st_fabric {W} _.
Arguments st_outbox {W} _.
Arguments st_neg_cache {W} _.
Arguments st_group_kinds {W} _.
Arguments st_net {W} _.
Arguments st_trace {W} _.

(** The handles the endpoint borrows, for a client with chat state.  The denylist is
    asked again on every check: its verdict may change between two of them. *)
Record Endpoint (W : Type) := {
  en_identity : FetchitIdentity;
  en_machine_id : bytes;
  en_denylist : option (nat -> string -> bool);
  en_primary_relay_url : option string;
  en_transports : list (MultiHome.Transport W);
}.
Arguments en_identity {W} _.
Arguments en_machine_id {W} _.
Arguments en_denylist {W} _.
Arguments en_primary_relay_url {W} _.
Arguments en_transports {W} _.

(** ** The monad *)

Definition M (W A : Type) : Type := Stores W -> result A ChatError * Stores W.
Definition ret {W A} (a : A) : M W A := fun s => (Ok a, s).
Definition fail {W A} (e : ChatError) : M W A := fun s => (Err e, s).
Definition bind {W A B} (m : M W A) (k : A -> M W B) : M W B :=
  fun s => match m s with (Ok a, s) => k a s | (Err e, s) => (Err e, s) end.
(** A [match] on the call's own result. *)
Definition catch {W A} (m : M W A) : M W (result A ChatError) := fun s => let '(r, s) := m s in (Ok r, s).
Definition read {W A} (f : Stores W -> A) : M W A := fun s => (Ok (f s), s).
Definition of_result {W A} (r : result A ChatError) : M W A := fun s => (r, s).
Notation "'let*' x := m 'in' k" := (bind m (fun x => k))
  (at level 10, x pattern, m at level 200, k at level 200) : rust_scope.

Definition on_registry {W A} (f : ConversationRegistry -> result A ChatError * ConversationRegistry) : M W A :=
  fun s => let '(r, reg) := f (st_registry s) in
    (r, mkStores reg (st_contacts s) (st_marks s) (st_fabric s) (st_outbox s) (st_neg_cache s) (st_group_kinds s)
          (st_net s) (st_trace s)).
Definition on_contacts {W A} (f : Contacts -> result A ChatError * Contacts) : M W A :=
  fun s => let '(r, cs) := f (st_contacts s) in
    (r, mkStores (st_registry s) cs (st_marks s) (st_fabric s) (st_outbox s) (st_neg_cache s) (st_group_kinds s)
          (st_net s) (st_trace s)).
Definition on_net {W A} (f : W -> A * W) : M W A :=
  fun s => let '(a, w) := f (st_net s) in
    (Ok a, mkStores (st_registry s) (st_contacts s) (st_marks s) (st_fabric s) (st_outbox s) (st_neg_cache s)
             (st_group_kinds s) w (st_trace s)).
Definition on_fabric {W A} (f : FabricStore -> W -> result A ChatError * FabricStore * W) : M W A :=
  fun s => let '(r, fb, w) := f (st_fabric s) (st_net s) in
    (r, mkStores (st_registry s) (st_contacts s) (st_marks s) fb (st_outbox s) (st_neg_cache s) (st_group_kinds s)
          w (st_trace s)).
Definition on_outbox {W} (f : OutboxStore -> OutboxStore) : M W unit :=
  fun s => (Ok tt, mkStores (st_registry s) (st_contacts s) (st_marks s) (st_fabric s) (f <$> st_outbox s) (st_neg_cache s)
                     (st_group_kinds s) (st_net s) (st_trace s)).

Section endpoint.
  Context `{Base64, Base64Url, Sha256, MlDsaBackend, UrlParse, UrlEdit, FormUrl, PairErrorDisplay, PairBodies}.
  Context {W : Type} `{IpDisplay, RelayNet, HS : !RelayServer W}.
  Context (en : Endpoint W).

Definition own_agent : string := fi_agent_id_hex (en_identity en).

(** [Router::send]. *)
Definition hand_over (to : string) (envelope : MultiHome.OutboundEnvelope) (hints : option RendezvousHintsV1)
    : M W MultiHome.SendReceipt :=
  fun s => let relays := rh_relays <$> hints in
    let '(r, w) := router_send (en_transports en) to envelope relays (st_net s) in
    (r, mkStores (st_registry s) (st_contacts s) (st_marks s) (st_fabric s) (st_outbox s) (st_neg_cache s)
          (st_group_kinds s) w (st_trace s ++ [mkHand to envelope relays (is_ok r)])).

Definition resolve_hints_for (recipient_agent_id_hex : string) (cs : Contacts) : option RendezvousHintsV1 :=
  match resolve_recipient_hints recipient_agent_id_hex cs with
  | Ok (Some hints) => Some {| rh_relays := migrate_known_bare_ip_relay <$> rh_relays hints |}
  | _ => (fun url => {| rh_relays := [url] |}) <$> en_primary_relay_url en
  end.

Definition hint_to_https_url (hint : string) : result Url ChatError :=
  match url_parse hint with
  | None => Err (Invalid "hint url parse")
  | Some url =>
      let set s := match url_set_scheme url s with
                   | Some url => Ok url
                   | None => Err (Invalid "set_scheme failed")
                   end in
      if bool_decide (url_scheme url = "https"%string) || bool_decide (url_scheme url = "http"%string) then Ok url
      else if bool_decide (url_scheme url = "wss"%string) then set "https"%string
      else if bool_decide (url_scheme url = "ws"%string) then set "http"%string
      else Err (Invalid ("hint url scheme must be ws(s) or http(s), got " +:+ url_scheme url))
  end.

(** The stale relays in turn; [io] says whether the card can be written. *)
Fixpoint reresolve (recipient_hex pubkey_b64 : string) (envelope : MultiHome.OutboundEnvelope)
    (stale_relays : list string) (io : nat -> result unit ChatError) : M W MultiHome.SendReceipt :=
  match stale_relays with
  | [] => fail (AllRelaysUnreachable recipient_hex)
  | hint_url :: rest =>
      let next := reresolve recipient_hex pubkey_b64 envelope rest (fun n => io (S n)) in
      match hint_to_https_url hint_url with
      | Err _ => next
      | Ok https_url =>
          let* fetched := on_net (fetch_forwarding_record_by_id https_url recipient_hex pubkey_b64) in
          match fetched with
          | Err _ => next
          | Ok record =>
              let* updated := on_contacts
                (apply_relay_hint recipient_hex (fr_moved_to_relays record) (fr_issued_at_ms record) (io O)) in
              if negb updated then next
              else
                let* sent := catch (hand_over recipient_hex envelope
                                      (Some {| rh_relays := fr_moved_to_relays record |})) in
                match sent with
                | Ok receipt => ret receipt
                | Err _ => next
                end
          end
      end
  end.

Definition deposit_with_reresolve (recipient_hex : string) (envelope : MultiHome.OutboundEnvelope)
    (hints : option RendezvousHintsV1) (io : nat -> result unit ChatError) : M W MultiHome.SendReceipt :=
  let* first := catch (hand_over recipient_hex envelope hints) in
  match first with
  | Ok receipt => ret receipt
  | Err (MessageTransport _) =>
      let* card := read (fun s => card_load recipient_hex (st_contacts s)) in
      let* card := of_result card in
      match c ← card; cc_agent_public_key_b64 c with
      | None => fail (AllRelaysUnreachable recipient_hex)
      | Some pubkey_b64 => reresolve recipient_hex pubkey_b64 envelope (default [] (rh_relays <$> hints)) io
      end
  | Err other => fail other
  end.

Definition transport_out (kind : OutboundKind) (env : TransitEnvelope) : MultiHome.OutboundEnvelope :=
  {| oe_kind := kind; oe_from_machine_id := Some (en_machine_id en); oe_payload := [];
     oe_timestamp_ms := e_timestamp_ms env; oe_transit := Some env |}.

(** [io n]: the card writes while the [n]th envelope is deposited. *)
Fixpoint dispatch_outbox (outbox : list Outbound.OutboundEnvelope) (last_id : option string)
    (io : nat -> nat -> result unit ChatError) : M W (option string) :=
  match outbox with
  | [] => ret last_id
  | ob :: rest =>
      let recipient_hex := hex_encode (oe_recipient ob) in
      let* hints := read (fun s => resolve_hints_for recipient_hex (st_contacts s)) in
      let* receipt := deposit_with_reresolve recipient_hex (transport_out OutDm (oe_envelope ob)) hints (io O) in
      dispatch_outbox rest (sr_message_id receipt) (fun n => io (S n))
  end.
End endpoint.

(** ** Facts *)

Ltac run_monad := unfold bind, catch, ret, fail, read, of_result, on_net, on_contacts, on_registry, on_fabric, on_outbox.

(** What depositing leaves alone: everything but the cards, the network and the trace. *)
Record same_stores {W} (s s' : Stores W) : Prop := {
  ss_registry : st_registry s' = st_registry s;
  ss_marks : st_marks s' = st_marks s;
  ss_fabric : st_fabric s' = st_fabric s;
  ss_outbox : st_outbox s' = st_outbox s;
  ss_neg : st_neg_cache s' = st_neg_cache s;
  ss_kinds : st_group_kinds s' = st_group_kinds s;
}.

#[export] Instance same_stores_preorder {W} : PreOrder (@same_stores W).
Proof. split; [done|]. intros a b c [] []. split; congruence. Qed.

(** The traces of attempts at one envelope: the results say which one was taken, and
    only the last one can be. *)
Definition attempts (ok : bool) (hs : list HandOver) : Prop :=
  if ok then exists front h, hs = front ++ [h] /\ ho_taken h = true /\ Forall (fun h => ho_taken h = false) front
  else Forall (fun h => ho_taken h = false) hs.

Lemma attempts_cons ok h hs : ho_taken h = false -> attempts ok hs -> attempts ok (h :: hs).
Proof.
  intros Hh. destruct ok; cbn; [|by constructor]. intros (front & h' & -> & Hh' & Hf).
  exists (h :: front), h'. split; [done|]. split; [done|]. by constructor.
Qed.

Section facts.
  Context `{Base64, Base64Url, Sha256, MlDsaBackend, UrlParse, UrlEdit, FormUrl, PairErrorDisplay, PairBodies}.
  Context {W : Type} `{IpDisplay, RelayNet, HS : !RelayServer W}.
  Context (en : Endpoint W).

Lemma hand_over_spec to env hints s r s' :
  hand_over en to env hints s = (r, s') ->
  same_stores s s' /\ st_contacts s' = st_contacts s /\
  st_trace s' = st_trace s ++ [mkHand to env (rh_relays <$> hints) (is_ok r)].
Proof. unfold hand_over. destruct (router_send _ _ _ _ _) as [r0 w]. by intros [= <- <-]. Qed.

(** A hand-over of a retry: at relays the contact signed as the ones it moved to,
    with a stamp above [t]. *)
Definition moved_to (recipient pubkey_b64 : string) (env : MultiHome.OutboundEnvelope) (t : N) (h : HandOver) : Prop :=
  exists record pk, b64_decode pubkey_b64 = Some pk /\ verify_forwarding_record record pk = Ok tt /\
    fr_agent_id_hex record = recipient /\ t < fr_issued_at_ms record /\
    ho_to h = recipient /\ ho_envelope h = env /\ ho_hints h = Some (fr_moved_to_relays record).

Lemma fetched_forwarding url id pk64 w r w' :
  fetch_forwarding_record_by_id url id pk64 w = (Ok r, w') ->
  exists pk, b64_decode pk64 = Some pk /\ verify_forwarding_record r pk = Ok tt /\ fr_agent_id_hex r = id.
Proof.
  unfold fetch_forwarding_record_by_id. destruct (relay_get _ _ w) as [[raw|] w1]; [|done]. intros [= Hc <-].
  revert Hc. unfold checked_forwarding. destruct (relay_json _) as [r0|]; [|done].
  destruct (b64_decode pk64) as [pk|]; [|done]. destruct (verify_forwarding_record r0 pk) as [[]|] eqn:Hv; [|done].
  destruct (bool_decide_reflect (fr_agent_id_hex r0 = id)); [|done]. intros [= <-]. by exists pk.
Qed.

(** The stamp the card of [a] carries. *)
Definition hint_mark (a : string) (cs : Contacts) : N :=
  match card_files cs !! a with Some (CardOk c) => watermark c | _ => 0 end.

Lemma apply_hint_cases a relays t io cs r cs' :
  files_named cs -> apply_relay_hint a relays t io cs = (r, cs') ->
  files_named cs' /\
  match r with
  | Ok true => hint_mark a cs < t /\ hint_mark a cs' = t
  | _ => cs' = cs
  end.
Proof.
  intros Hn. unfold apply_relay_hint. destruct (hint_list_ok relays); cbn [negb]; [|by intros [= <- <-]].
  unfold card_load, hint_mark. destruct (card_files cs !! a) as [[| |c]|] eqn:Ha; try by intros [= <- <-].
  destruct (N.leb_spec t (default 0 (cc_last_hint_epoch_ms c))); [by intros [= <- <-]|].
  unfold card_save. destruct io as [[]|]; [|by intros [= <- <-]]. intros [= <- <-].
  set (c' := set_hint _ _ _). assert (cc_agent_id_hex c' = a) as Hid by by apply Hn in Ha.
  assert (watermark c' = t) as Hw by done.
  clearbody c'. cbn [card_files]. split; [|split; [done|]].
  - intros a' c2. cbn [card_files]. rewrite lookup_insert_Some. intros [[? [= <-]]|[_ ?]]; [by rewrite Hid, <- (Hn _ _ Ha)|by apply Hn].
  - replace (<[_ := CardOk c']> (card_files cs) !! a) with (Some (CardOk c')); [exact Hw|].
    symmetry. apply lookup_insert_Some. left. by split; [exact (Hn _ _ Ha)|].
Qed.

Lemma reresolve_spec recipient pk64 env relays io s r s' :
  files_named (st_contacts s) ->
  reresolve en recipient pk64 env relays io s = (r, s') ->
  same_stores s s' /\ files_named (st_contacts s') /\
  exists hs, st_trace s' = st_trace s ++ hs /\ (length hs <= length relays)%nat /\
    Forall (moved_to recipient pk64 env (hint_mark recipient (st_contacts s))) hs /\ attempts (is_ok r) hs.
Proof.
  revert io s. induction relays as [|url relays IH]; intros io s Hn; cbn [reresolve].
  { unfold fail. intros [= <- <-]. split; [done|]. split; [done|]. exists []. rewrite app_nil_r. by repeat constructor. }
  assert (forall io s1, same_stores s s1 -> st_trace s1 = st_trace s -> files_named (st_contacts s1) ->
    hint_mark recipient (st_contacts s1) = hint_mark recipient (st_contacts s) ->
    reresolve en recipient pk64 env relays io s1 = (r, s') ->
    same_stores s s' /\ files_named (st_contacts s') /\
    exists hs, st_trace s' = st_trace s ++ hs /\ (length hs <= S (length relays))%nat /\
      Forall (moved_to recipient pk64 env (hint_mark recipient (st_contacts s))) hs /\ attempts (is_ok r) hs) as Hnext.
  { intros io1 s1 Hs1 Ht1 Hn1 Hm1 Hr. apply IH in Hr as (Hs & Hn' & hs & Ht & Hl & Hf & Ha); [|done].
    split; [by etrans|]. split; [done|]. exists hs. rewrite Ht, Ht1, <- Hm1. split_and!; try done. lia. }
  destruct (hint_to_https_url url) as [https|]; [|by apply Hnext].
  run_monad. destruct (fetch_forwarding_record_by_id _ _ _ _) as [[record|] w1] eqn:Hf; [|by apply Hnext].
  apply fetched_forwarding in Hf as (pk & Hpk & Hv & Hid). cbn [st_contacts].
  destruct (apply_relay_hint _ _ _ _ _) as [u cs1] eqn:Hh. apply apply_hint_cases in Hh as [Hn1 Hh]; [|done].
  destruct u as [[]|e]; cbn [negb].
  2:{ subst cs1. by apply Hnext. }
  2:{ intros [= <- <-]. subst cs1. split; [done|]. split; [done|]. exists []. cbn. rewrite app_nil_r. split_and!; [done|lia|constructor..]. }
  destruct Hh as [Hlt Hmark].
  destruct (hand_over en recipient env _ _) as [sent s2] eqn:Hsend.
  apply hand_over_spec in Hsend as (Hs2 & Hc2 & Ht2). cbn [st_contacts st_trace] in Hc2, Ht2.
  assert (same_stores s s2) as Hs by (etrans; [|exact Hs2]; done).
  set (h := mkHand _ _ _ _) in Ht2.
  assert (moved_to recipient pk64 env (hint_mark recipient (st_contacts s)) h) as Hmoved by (by exists record, pk).
  destruct sent as [receipt|e2].
  - intros [= <- <-]. split; [done|]. split; [by rewrite Hc2|]. exists [h]. split_and!; [done|cbn; lia|by constructor|].
    by exists [], h.
  - intros Hr. apply IH in Hr as (Hs' & Hn' & hs & Ht & Hl & Hf & Ha); [|by rewrite Hc2].
    split; [by etrans|]. split; [done|]. exists (h :: hs). rewrite Ht, Ht2, <- app_assoc.
    split_and!; [done|cbn; lia| |by apply attempts_cons]. constructor; [done|].
    eapply Forall_impl; [exact Hf|]. intros h' (r' & pk' & ? & ? & ? & Hlt' & ?). exists r', pk'. split_and!; try tauto.
    rewrite Hc2, Hmark in Hlt'. lia.
Qed.

(** A deposit hands the envelope to the router at the
    hints it was given, and on a transport failure at most once more per relay hinted,
    each time at relays that a forwarding record names, signed by the key on the
    contact's card and newer than what the card knew.  It succeeds exactly when the
    last hand-over was taken, the earlier ones having failed; nothing but cards changes. *)
Theorem deposit_follows_signed_moves (recipient : string) (env : MultiHome.OutboundEnvelope) (hints : option RendezvousHintsV1)
    (io : nat -> result unit ChatError) (s s' : Stores W) (r : result MultiHome.SendReceipt ChatError) :
  files_named (st_contacts s) ->
  deposit_with_reresolve en recipient env hints io s = (r, s') ->
  same_stores s s' /\
  exists first hs, st_trace s' = st_trace s ++ first :: hs /\
    ho_to first = recipient /\ ho_envelope first = env /\ ho_hints first = rh_relays <$> hints /\
    (length hs <= length (default [] (rh_relays <$> hints)))%nat /\
    attempts (is_ok r) (first :: hs) /\
    (hs <> [] -> exists card key, card_load recipient (st_contacts s) = Ok (Some card) /\
       cc_agent_public_key_b64 card = Some key /\
       Forall (moved_to recipient key env (hint_mark recipient (st_contacts s))) hs).
Proof.
  intros Hn. unfold deposit_with_reresolve. run_monad.
  destruct (hand_over en recipient env hints s) as [sent s1] eqn:Hsend.
  apply hand_over_spec in Hsend as (Hs1 & Hc1 & Ht1). set (h := mkHand _ _ _ _) in Ht1.
  assert (forall e, sent = Err e -> (r, s') = (Err (AllRelaysUnreachable recipient), s1) \/ (exists e', (r, s') = (Err e', s1)) ->
    same_stores s s' /\ exists first hs, st_trace s' = st_trace s ++ first :: hs /\
    ho_to first = recipient /\ ho_envelope first = env /\ ho_hints first = rh_relays <$> hints /\
    (length hs <= length (default [] (rh_relays <$> hints)))%nat /\ attempts (is_ok r) (first :: hs) /\
    (hs <> [] -> exists card key, card_load recipient (st_contacts s) = Ok (Some card) /\
       cc_agent_public_key_b64 card = Some key /\
       Forall (moved_to recipient key env (hint_mark recipient (st_contacts s))) hs)) as Hstop.
  { intros e -> Hr. assert (exists e', (r, s') = (Err e', s1)) as [e' [= -> ->]] by (destruct Hr; eauto).
    split; [done|]. exists h, []. split_and!; [done..|cbn; lia|by constructor|done]. }
  destruct sent as [receipt|[]]; try solve [intros [= <- <-]; eapply Hstop; eauto].
  - intros [= <- <-]. split; [done|]. exists h, []. split_and!; [done..|cbn; lia|by exists [], h|done].
  - rewrite Hc1. destruct (card_load recipient (st_contacts s)) as [card|e] eqn:Hcard.
    2:{ intros [= <- <-]. eapply Hstop; eauto. }
    destruct (c ← card; cc_agent_public_key_b64 c) as [key|] eqn:Hkey.
    2:{ intros [= <- <-]. eapply Hstop; eauto. }
    destruct card as [card|]; [|discriminate Hkey]. cbn in Hkey. intros Hr.
    apply reresolve_spec in Hr as (Hs' & _ & hs & Ht & Hl & Hf & Ha); [|by rewrite Hc1].
    split; [by etrans|]. exists h, hs. rewrite Ht, Ht1, <- app_assoc. rewrite Hc1 in Hf.
    split_and!; try done; [by apply attempts_cons|]. intros _. by exists card, key.
Qed.
End facts.

(** ** Witness *)

#[local] Existing Instance pw_b64.
#[local] Existing Instance pw_b64url.
#[local] Existing Instance pw_sha.
#[local] Existing Instance pw_mldsa.
#[local] Existing Instance su_parse.
#[local] Existing Instance su_edit.
#[local] Existing Instance su_form.
#[local] Existing Instance pw_display.
#[local] Existing Instance pw_ip.
#[local] Existing Instance pw_net.
#[local] Existing Instance pw_server.

Definition moved_record (n : N) : ForwardingRecordV1 :=
  {| fr_agent_id_hex := pw_agent; fr_moved_to_relays := ["http://new"%string]; fr_issued_at_ms := n;
     fr_sig_b64 := b64_encode pw_key |}.
#[local] Instance ep_bodies : PairBodies :=
  {| parse_index := fun _ => Ok pw_index; parse_pair := fun _ => Ok (pw_record 1);
     parse_forwarding b := match b with [n] => Ok (moved_record n) | _ => Err "body"%string end;
     canonical_bytes_sans_sig := fun _ => Ok [] |}.

(** A transport that reaches only the new relay. *)
Definition only_new : MultiHome.Transport (list N) :=
  {| tr_name := "demo"; tr_reachability := fun _ _ => Always;
     tr_send := fun _ _ hints w =>
       (if bool_decide (hints = Some ["http://new"%string])
        then Ok {| sr_accepted_at_ms := 1; sr_message_id := None; sr_transport_name := "demo" |}
        else Err (MessageTransport "gone"), w) |}.
Definition ep_demo : Endpoint (list N) :=
  {| en_identity := me; en_machine_id := []; en_denylist := None; en_primary_relay_url := Some "http://h"%string;
     en_transports := [only_new] |}.
Definition ep_stores : Stores (list N) :=
  mkStores (registry_empty ∅) (mkContacts EmptyString (<[pw_agent := CardOk (pw_card 5)]> ∅)) ∅
    (mkFabric None None ∅) None ∅ ∅ [9] [].
Definition ep_env : MultiHome.OutboundEnvelope :=
  {| oe_kind := OutDm; oe_from_machine_id := None; oe_payload := []; oe_timestamp_ms := 1; oe_transit := None |}.

Lemma ep_fetched : fetch_forwarding_record_by_id (web "http") pw_agent (b64_encode pw_key) [9] = (Ok (moved_record 9), []).
Proof. vm_compute. reflexivity. Qed.

Lemma deposit_follows_signed_moves_witness :
  exists r s', deposit_with_reresolve ep_demo pw_agent ep_env (Some {| rh_relays := ["http://h"%string] |}) (fun _ => Ok tt)
                 ep_stores = (Ok r, s') /\ length (st_trace s') = 2%nat /\
    exists first hs, st_trace s' = first :: hs /\ ho_taken first = false.
Proof.
  destruct (deposit_with_reresolve _ _ _ _ _ _) as [r s'] eqn:E. pose proof E as Hrun.
  apply (deposit_follows_signed_moves ep_demo) in Hrun as (_ & first & hs & Ht & _ & _ & _ & _ & Ha & _).
  2:{ intros a c. cbn [ep_stores st_contacts card_files]. rewrite lookup_insert_Some.
      intros [[<- [= <-]]|[_ Hno]]; [done|by rewrite (lookup_empty (M := gmap string)) in Hno]. }
  cbn [ep_stores st_trace app] in Ht.
  assert (exists q, r = Ok q /\ length (st_trace s') = 2%nat) as (q & -> & Hl).
  { revert E. unfold deposit_with_reresolve, card_load. run_monad.
    unfold hand_over, ep_stores, ep_demo, en_transports, router_send. cbn -[reresolve lookup insert pw_card].
    rewrite (bool_decide_false (Some ["http://h"%string] = Some ["http://new"%string])) by done.
    cbn -[reresolve lookup insert pw_card]. rewrite lookup_insert_eq.
    cbn -[fetch_forwarding_record_by_id lookup insert pw_card b64_encode url_parse]. unfold hint_to_https_url. rewrite pw_url.
    cbn -[fetch_forwarding_record_by_id lookup insert pw_card b64_encode url_parse].
    change (cc_agent_public_key_b64 (pw_card 5)) with (Some (b64_encode pw_key)).
    change (bool_decide ("http"%string = "https"%string) || bool_decide ("http"%string = "http"%string)) with true.
    cbn iota beta. run_monad. cbn [st_net]. rewrite ep_fetched. cbn [st_contacts].
    unfold apply_relay_hint, card_load. cbn -[lookup insert pw_card b64_encode]. rewrite lookup_insert_eq.
    cbn -[lookup insert b64_encode]. intros [= <- <-]. by eexists. }
  exists q, s'. split; [done|]. split; [done|]. exists first, hs. split; [done|].
  rewrite Ht in Hl. cbn in Ha. destruct Ha as ([|f front] & h & Heq & _ & Hf).
  - by injection Heq as -> ->.
  - injection Heq as -> _. by apply Forall_cons in Hf as [].
Defined.
