(* ===== verification/DmSend.v ===== *)
(** * Sending a direct message

    Models [Endpoint::send] of [crates/fetchit-chat/src/messages.rs] with everything
    below it: the recipient's devices from its signed list, the denylist, finding or
    establishing the conversation with each device, sealing and depositing one copy
    per device, and the row entered in the history.  Random draws, clock readings and
    file writes are the record [SendIO]. *)
From stdpp Require Import pretty.
From S2P Require Import Prelude SendState Attachment Bubble OutboxStore Overlay SeqGap.
From S2P Require Import RelayProto RelayAuth Transit TransitSqlite PairRecord ShareUri RelayHttp DeviceFabric PairIndex.
From S2P Require Import Conversation ConvRegistry ContactCard Inbound Outbound Publish PendingJoin Pairing MultiHome DmLookup.
From S2P Require Import Endpoint.
Open Scope rust_scope.

Record FanoutTarget := { ft_agent : string; ft_device : option DeviceEntryV4 }.

Definition fanout_contact (to : string) : FanoutTarget := {| ft_agent := to; ft_device := None |}.

Definition fanout_targets_from_record (record : option PairRecordV4) (to : string) : list FanoutTarget :=
  match record with
  | Some rec =>
      if existsb (fun d => bool_decide (de_agent_id_hex d = to)) (p4_devices rec)
      then (fun d => {| ft_agent := de_agent_id_hex d; ft_device := Some d |}) <$> p4_devices rec
      else [fanout_contact to]
  | None => [fanout_contact to]
  end.

(** [i] counts the checks of this send. *)
Fixpoint retain_undenylisted_targets (denylist : option (nat -> string -> bool)) (i : nat)
    (targets : list FanoutTarget) : list FanoutTarget :=
  match denylist, targets with
  | None, _ => targets
  | Some _, [] => []
  | Some blocked, t :: rest =>
      if blocked i (ft_agent t) then retain_undenylisted_targets denylist (S i) rest
      else t :: retain_undenylisted_targets denylist (S i) rest
  end.

Definition relay_rest_base `{UrlParse, UrlEdit} (rendezvous_url : string) : option Url :=
  url ← url_parse rendezvous_url;
  http_scheme ← (if bool_decide (url_scheme url = "wss"%string) || bool_decide (url_scheme url = "https"%string)
                 then Some "https"%string
                 else if bool_decide (url_scheme url = "ws"%string) || bool_decide (url_scheme url = "http"%string)
                 then Some "http"%string else None);
  url ← url_set_scheme url http_scheme;
  Some (Build_Url (url_scheme url) (url_host_str url) (url_port url) (url_username url) (url_password url)
          "/" None None).

(** What one target takes from the outside: the new conversation's id, key and time,
    the draws of its welcome and of the message, file writes. *)
Record TargetIO := {
  ti_group_id : bytes; ti_key : bytes; ti_now : N;
  ti_welcome : nat -> Draw; ti_save : result unit ChatError; ti_welcome_cards : nat -> nat -> result unit ChatError;
  ti_sent_at : N; ti_message : nat -> Draw; ti_message_cards : nat -> nat -> result unit ChatError;
}.
Record SendIO := {
  si_message_id : string;
  si_contact_record : result unit ChatError;
  si_target : nat -> TargetIO;
  si_now : N; si_history : result unit ChatError;
}.

(** The arguments of [send]. *)
Record SendArgs := {
  sa_to : string; sa_body : string; sa_sender_name : string;
  sa_reply_to : option string; sa_attachment : option Attachment;
}.

Section send.
  Context `{Base64, Base64Url, Sha256, MlDsaBackend, UrlParse, UrlEdit, FormUrl, PairErrorDisplay, PairBodies, FabricJson}.
  Context `{EnvelopeCodec, ChatCipher, ChatSeal, PayloadPrint, AgentSigner}.
  Context `{VaultIO} `{HB : !HashIter string OutboxBubble} `{HF : !HashIter string N}.
  Context `{HC : !HashIter string Conversation} `{HD : !HashIter string (result Conversation ChatError)}.
  Context {W : Type} `{IpDisplay, RelayNet, HS : !RelayServer W}.
  Context (en : Endpoint W).

Definition fanout_targets (to : string) (io : result unit ChatError) : M W (list FanoutTarget) :=
  let* user := read (fun s => contact_user_id_hex to (st_contacts s)) in
  match user, en_primary_relay_url en with
  | Ok (Some user_id_hex), Some primary =>
      let* hints := read (fun s => resolve_recipient_hints_or_fallback to primary (st_contacts s)) in
      match match hints with Ok h => (r ← head (rh_relays h); relay_rest_base r) | Err _ => None end with
      | None => ret [fanout_contact to]
      | Some relay =>
          let* old := read (fun s => load_contact_pair_record_v4 user_id_hex (st_fabric s)) in
          let* new := catch (on_fabric (fun fb w => resolve_pair_record_v4 user_id_hex relay io fb w)) in
          let old := match old with Ok r => r | Err _ => None end in
          let new := match new with Ok r => r | Err _ => None end in
          let* _ := match old, new with
                    | Some old, Some new =>
                        match removed_device_agents old new with
                        | [] => ret tt
                        | removed => on_outbox (fun o => (drop_bubbles_for_peers removed o).2)
                        end
                    | _, _ => ret tt
                    end in
          ret (fanout_targets_from_record new to)
      end
  | _, _ => ret [fanout_contact to]
  end.

Definition dm_peer_member (agent_id_hex kem_public_key_b64 : string) (agent_public_key_b64 : option string) : Member :=
  {| mb_user_id_hex := None;
     mb_devices := [{| md_agent_id_hex := agent_id_hex; md_kem_public_key_b64 := kem_public_key_b64;
                       md_agent_public_key_b64 := agent_public_key_b64; md_added_at_epoch := 0; md_status := Active |}];
     mb_joined_at_epoch := 0 |}.

(** The local party, its key attested. *)
Definition local_member : Member :=
  {| mb_user_id_hex := fi_user_id_hex (en_identity en);
     mb_devices := [{| md_agent_id_hex := own_agent en; md_kem_public_key_b64 := b64_encode (fi_kem_public_key (en_identity en));
                       md_agent_public_key_b64 := Some (b64_encode signer_public_key); md_added_at_epoch := 0; md_status := Active |}];
     mb_joined_at_epoch := 0 |}.

Definition establish_dm (peer_agent : string) (peer_member : Member) (io : TargetIO) : M W Conversation :=
  let* existing := on_registry (find_dm_with peer_agent) in
  match existing with
  | Some conv => ret conv
  | None =>
      let conv := new_dm local_member peer_member None (ti_group_id io) (ti_key io) (ti_now io) in
      let* welcome := of_result (build_welcome_outbox conv (own_agent en) (en_machine_id en) (ti_welcome io)) in
      let* _ := on_registry (save conv (ti_save io)) in
      let* _ := dispatch_outbox en welcome None (ti_welcome_cards io) in
      ret conv
  end.

Definition bootstrap_conversation (to : string) (io : TargetIO) : M W Conversation :=
  let* existing := on_registry (find_dm_with to) in
  match existing with
  | Some conv => ret conv
  | None =>
      let* card := read (fun s => card_load to (st_contacts s)) in
      let* card := of_result card in
      match card with
      | None => fail (Invalid ("no stored card for " +:+ String.substring 0 8 to +:+ " — import their share card first"))
      | Some card =>
          establish_dm (cc_agent_id_hex card)
            (dm_peer_member (cc_agent_id_hex card) (cc_kem_public_key_b64 card) (cc_agent_public_key_b64 card)) io
      end
  end.

Definition bootstrap_from_device (device : DeviceEntryV4) (io : TargetIO) : M W Conversation :=
  establish_dm (de_agent_id_hex device)
    (dm_peer_member (de_agent_id_hex device) (de_kem_pubkey_b64 device) (Some (de_ml_dsa_pubkey_b64 device))) io.

(** The conversation with one target. *)
Definition target_conversation (target : FanoutTarget) (io : TargetIO) : M W Conversation :=
  let* found := on_registry (find_dm_with (ft_agent target)) in
  match found with
  | Some c => ret c
  | None =>
      match ft_device target with
      | Some device => bootstrap_from_device device io
      | None => bootstrap_conversation (ft_agent target) io
      end
  end.

(** What the loop carries: the anchor, whether a device was reached, the last error. *)
Record Fanout := { fo_anchor : option string; fo_any : bool; fo_last_err : option ChatError }.

Definition deliver_target (to : string) (msg : MessageArgs) (target : FanoutTarget) (io : TargetIO) (acc : Fanout) : M W Fanout :=
  let* conv := catch (target_conversation target io) in
  match conv with
  | Err e => ret {| fo_anchor := fo_anchor acc; fo_any := fo_any acc; fo_last_err := Some e |}
  | Ok conv =>
      let anchor := if bool_decide (ft_agent target = to) then Some (c_group_id_hex conv) else fo_anchor acc in
      let* delivered := catch (
        let* outbox := of_result (build_message_outbox conv msg (own_agent en) (en_machine_id en) (ti_sent_at io) (ti_message io)) in
        dispatch_outbox en outbox None (ti_message_cards io)) in
      ret (match delivered with
           | Ok _ => {| fo_anchor := anchor; fo_any := true; fo_last_err := fo_last_err acc |}
           | Err e => {| fo_anchor := anchor; fo_any := fo_any acc; fo_last_err := Some e |}
           end)
  end.

Fixpoint deliver_each (to : string) (msg : MessageArgs) (targets : list FanoutTarget) (io : nat -> TargetIO) (acc : Fanout) : M W Fanout :=
  match targets with
  | [] => ret acc
  | t :: rest => let* acc := deliver_target to msg t (io O) acc in deliver_each to msg rest (fun n => io (S n)) acc
  end.

Definition outbound_entry (a : SendArgs) (io : SendIO) : HistoryEntry :=
  {| h_sender_agent_id_hex := own_agent en; h_sender_name := Some (sa_sender_name a); h_body := sa_body a;
     h_ts_ms := si_now io; h_message_id := si_message_id io; h_attachment := sa_attachment a;
     h_delivered_at_ms := None; h_send_state := Some Sent; h_state_changed_at_ms := si_now io |}.

(** The message, stamped with the sender's relay and the stamp of its pair record. *)
Definition message_args (a : SendArgs) (io : SendIO) (marks : Watermarks) : MessageArgs :=
  let hint_epoch_ms := current_watermark (own_agent en) marks in
  {| ma_body := sa_body a; ma_sender_name := sa_sender_name a; ma_message_id := si_message_id io;
     ma_reply_to := sa_reply_to a; ma_attachment := sa_attachment a;
     ma_relays := if is_some hint_epoch_ms then (fun url => [url]) <$> en_primary_relay_url en else None;
     ma_hint_epoch_ms := hint_epoch_ms |}.

Definition send (a : SendArgs) (io : SendIO) : M W (option string) :=
  let to := sa_to a in
  if match en_denylist en with Some blocked => blocked O to | None => false end then fail (Denied to)
  else if bool_decide (length (en_transports en) = O) then fail NoTransportAvailable
  else
    let* msg := read (fun s => message_args a io (st_marks s)) in
    let* targets := fanout_targets to (si_contact_record io) in
    let targets := retain_undenylisted_targets (en_denylist en) 1 targets in
    if bool_decide (length targets = O) then fail (Denied to)
    else
      let* acc := deliver_each to msg targets (si_target io) {| fo_anchor := None; fo_any := false; fo_last_err := None |} in
      if negb (fo_any acc) then fail (default (Invalid "DM fanout reached no device") (fo_last_err acc))
      else
        let* anchor := match fo_anchor acc with
                       | Some g => ret (Some g)
                       | None => let* found := catch (on_registry (find_dm_with to)) in
                                 ret (match found with Ok c => c_group_id_hex <$> c | Err _ => None end)
                       end in
        let* _ := match anchor with
                  | None => ret tt
                  | Some gid =>
                      let* _ := catch (on_registry (mutate_in_place gid
                        (fun c => (Persist tt, push_history (outbound_entry a io) c)) (si_history io))) in ret tt
                  end in
        ret (Some (si_message_id io)).

(** The retry driver's way to send a stored message again. *)
Definition resend_dm_bubble (b : OutboxBubble) (sender_name : string) (io : SendIO) : M W (option string) :=
  send {| sa_to := b_peer b; sa_body := b_body b; sa_sender_name := sender_name;
          sa_reply_to := b_reply_to_message_id b; sa_attachment := b_attachment b |} io.

Definition send_receipt (group_id_hex message_id recipient_agent_id_hex : string) (received_at_ms : N) (dr : Draw)
    (io : nat -> nat -> result unit ChatError) : M W unit :=
  if bool_decide (length (en_transports en) = O) then fail NoTransportAvailable
  else
    let* conv := on_registry (get group_id_hex) in
    match conv with
    | None => fail (Invalid ("no conversation for group_id " +:+ group_id_hex))
    | Some conv =>
        let* outbox := of_result (build_receipt_outbox conv message_id received_at_ms recipient_agent_id_hex
                                    (own_agent en) (en_machine_id en) dr) in
        let* _ := dispatch_outbox en outbox None io in ret tt
    end.
End send.

(** ** What is handed over *)

Section facts.
  Context `{Base64, Base64Url, Sha256, MlDsaBackend, UrlParse, UrlEdit, FormUrl, PairErrorDisplay, PairBodies, FabricJson}.
  Context `{EnvelopeCodec, ChatCipher, ChatSeal, PayloadPrint, AgentSigner}.
  Context `{VaultIO} `{HB : !HashIter string OutboxBubble} `{HF : !HashIter string N}.
  Context `{HC : !HashIter string Conversation} `{HD : !HashIter string (result Conversation ChatError)}.
  Context {W : Type} `{IpDisplay, RelayNet, HS : !RelayServer W}.
  Context (en : Endpoint W).

(** A hand-over of one of the envelopes. *)
Definition hands_over (outbox : list Outbound.OutboundEnvelope) (h : HandOver) : Prop :=
  exists ob, ob ∈ outbox /\ ho_to h = hex_encode (oe_recipient ob) /\
    ho_envelope h = transport_out en OutDm (oe_envelope ob).

Lemma deposit_spec recipient env hints io s r s' :
  files_named (st_contacts s) ->
  deposit_with_reresolve en recipient env hints io s = (r, s') ->
  same_stores s s' /\ files_named (st_contacts s') /\
  exists hs, st_trace s' = st_trace s ++ hs /\ Forall (fun h => ho_to h = recipient /\ ho_envelope h = env) hs /\
    attempts (is_ok r) hs.
Proof.
  intros Hn. unfold deposit_with_reresolve. run_monad.
  destruct (hand_over en recipient env hints s) as [sent s1] eqn:Hsend.
  apply hand_over_spec in Hsend as (Hs1 & Hc1 & Ht1). set (h := mkHand _ _ _ _) in Ht1.
  assert (forall e, sent = Err e -> forall e', (r, s') = (Err e', s1) ->
    same_stores s s' /\ files_named (st_contacts s') /\ exists hs, st_trace s' = st_trace s ++ hs /\
      Forall (fun h => ho_to h = recipient /\ ho_envelope h = env) hs /\ attempts (is_ok r) hs) as Hstop.
  { intros e -> e' [= -> ->]. split; [done|]. split; [by rewrite Hc1|]. exists [h]. split_and!; [done|by repeat constructor..]. }
  destruct sent as [receipt|[]]; try solve [intros [= <- <-]; eapply Hstop; eauto].
  - intros [= <- <-]. split; [done|]. split; [by rewrite Hc1|]. exists [h]. split_and!; [done|by repeat constructor|]. by exists [], h.
  - rewrite Hc1. destruct (card_load recipient (st_contacts s)) as [card|e]; [|intros [= <- <-]; by eapply Hstop].
    destruct (c ← card; cc_agent_public_key_b64 c) as [key|]; [|intros [= <- <-]; by eapply Hstop].
    intros Hr. apply reresolve_spec in Hr as (Hs' & Hn' & hs & Ht & _ & Hf & Ha); [|by rewrite Hc1].
    split; [by etrans|]. split; [done|]. exists (h :: hs). rewrite Ht, Ht1, <- app_assoc.
    split_and!; [done| |by apply attempts_cons]. constructor; [done|].
    eapply Forall_impl; [exact Hf|]. intros h' (r' & pk & Hm). tauto.
Qed.

Lemma dispatch_spec outbox last io s r s' :
  files_named (st_contacts s) ->
  dispatch_outbox en outbox last io s = (r, s') ->
  same_stores s s' /\ files_named (st_contacts s') /\
  exists hs, st_trace s' = st_trace s ++ hs /\ Forall (hands_over outbox) hs /\
    (is_ok r = true -> forall ob, ob ∈ outbox -> exists h, h ∈ hs /\ ho_taken h = true /\
       ho_to h = hex_encode (oe_recipient ob) /\ ho_envelope h = transport_out en OutDm (oe_envelope ob)) /\
    (is_ok r = false -> length outbox = 1%nat -> Forall (fun h => ho_taken h = false) hs).
Proof.
  revert last io s. induction outbox as [|ob outbox IH]; intros last io s Hn; cbn [dispatch_outbox].
  { unfold ret. intros [= <- <-]. split; [done|]. split; [done|]. exists []. rewrite app_nil_r.
    split_and!; [done|constructor| |done]. intros _ ob Hob. by apply elem_of_nil in Hob. }
  unfold bind at 1, read at 1. unfold bind at 1. cbn iota beta.
  destruct (deposit_with_reresolve en _ _ _ _ s) as [res s1] eqn:Hd.
  apply deposit_spec in Hd as (Hs1 & Hn1 & hs1 & Ht1 & Hf1 & Ha1); [|done].
  assert (Forall (hands_over (ob :: outbox)) hs1) as Hh1.
  { eapply Forall_impl; [exact Hf1|]. intros h [Hto Henv]. exists ob. split; [by left|done]. }
  destruct res as [receipt|e].
  - intros Hr. pose proof Hr as Hr0. apply IH in Hr as (Hs & Hn' & hs & Ht & Hh & Hok & Herr); [|done].
    split; [by etrans|]. split; [done|]. exists (hs1 ++ hs). rewrite Ht, Ht1, app_assoc. split_and!.
    + done.
    + apply Forall_app. split; [done|]. eapply Forall_impl; [exact Hh|].
      intros h (ob' & Hin & ?). exists ob'. split; [by right|done].
    + intros Hr ob' [->|Hin]%elem_of_cons.
      * destruct Ha1 as (front & h & -> & Htaken & _). exists h. split; [set_solver|]. split; [done|].
        apply Forall_app in Hf1 as [_ Hf1]. by apply Forall_cons in Hf1 as [[] _].
      * destruct (Hok Hr ob' Hin) as (h & Hhin & ?). exists h. split; [set_solver|done].
    + intros Hr Hl. destruct outbox; [|done]. cbn [dispatch_outbox] in Hr0. by injection Hr0 as <- <-.
  - intros [= <- <-]. split; [done|]. split; [done|]. exists hs1. split_and!; [done|done|done|]. by intros _ _.
Qed.

(** *** The registry behind the lookup *)

Definition in_registry (c : Conversation) (r : ConversationRegistry) : Prop :=
  (exists g, cache r !! g = Some c) \/ (exists g, disk r !! g = Some (Ok c)).

Lemma scan_in_registry peer files seen cands r res r' c :
  (forall f, f ∈ files -> forall c, f.2 = Ok c -> in_registry c r) ->
  scan_files peer files seen cands r = (res, r') -> in_registry c r' -> in_registry c r.
Proof.
  revert seen cands r. induction files as [|[n [f|e]] files IH]; intros seen cands r Hf; cbn -[dm_with].
  - by intros [= <- <-].
  - assert (in_registry f r) as Hfr by (apply (Hf (n, Ok f)); [by left|done]).
    destruct (dm_with f peer); cbn [negb]; [|apply IH; intros x Hx; apply Hf; by right].
    set (r1 := match cache r !! _ with Some _ => r | None => _ end).
    assert (forall c, in_registry c r1 <-> in_registry c r) as Hr1.
    { intros c'. subst r1. destruct (cache r !! c_group_id_hex f) eqn:Hc; [done|]. unfold in_registry, cache_insert. cbn.
      split; [|intros [[g Hg]|Hg]; [left; exists g; rewrite lookup_insert_ne; [done|intros Heq; rewrite Heq in Hc; by rewrite Hc in Hg]|by right]].
      intros [[g Hg]|Hg]; [|by right]. apply lookup_insert_Some in Hg as [[_ <-]|[_ Hg]]; [done|by left; exists g]. }
    assert (forall x, x ∈ files -> forall c, x.2 = Ok c -> in_registry c r1) as Hf1.
    { intros x Hx c' Hc'. apply Hr1. eapply Hf; [by right|done]. }
    destruct (bool_decide _); intros Hs Hc; apply Hr1; by eapply IH.
  - by intros [= <- <-].
Qed.

Lemma find_in_registry peer r res r' c :
  find_dm_with peer r = (res, r') -> in_registry c r' -> in_registry c r.
Proof.
  unfold find_dm_with. destruct (scan_files _ _ _ _ _) as [q r1] eqn:Hs.
  assert (r' = r1 -> in_registry c r' -> in_registry c r) as Hr.
  { intros ->. eapply scan_in_registry; [|exact Hs]. intros [g x] Hx c' Hc'. apply elem_of_hm_iter in Hx.
    cbn in Hc'. subst x. right. by exists g. }
  destruct q; intros [= <- <-]; by apply Hr.
Qed.

(** No conversation known has a row with this message id. *)
Definition unrecorded (mid : string) (r : ConversationRegistry) : Prop :=
  forall c, in_registry c r -> Forall (fun e => h_message_id e <> mid) (c_history c).

Lemma find_unrecorded mid peer r : unrecorded mid r -> unrecorded mid (find_dm_with peer r).2.
Proof. intros Hu c Hc. apply Hu. destruct (find_dm_with peer r) as [res r'] eqn:Hf. by eapply find_in_registry. Qed.

Lemma save_unrecorded mid conv io r :
  c_history conv = [] -> unrecorded mid r -> unrecorded mid (save conv io r).2.
Proof.
  intros Hh Hu. unfold save, save_seal. destruct io; [|done]. intros c [[g Hg]|[g Hg]]; cbn in Hg.
  - apply lookup_insert_Some in Hg as [[_ <-]|[_ Hg]]; [by rewrite Hh|]. apply Hu. left. by exists g.
  - apply lookup_insert_Some in Hg as [[_ [= <-]]|[_ Hg]]; [by rewrite Hh|]. apply Hu. right. by exists g.
Qed.

(** A scan only fills the cache, and what it adds to the candidates is a readable file
    of a conversation with the peer, by then in the cache. *)
Lemma scan_found peer files seen cands r res r' :
  scan_files peer files seen cands r = (res, r') ->
  disk r' = disk r /\
  (forall g, is_Some (cache r !! g) -> is_Some (cache r' !! g)) /\
  ((forall g c, cache r !! g = Some c -> c_group_id_hex c = g) -> forall g c, cache r' !! g = Some c -> c_group_id_hex c = g) /\
  (forall l c, res = Ok l -> c ∈ l -> c ∈ cands \/
     ((exists n, (n, Ok c) ∈ files) /\ dm_with c peer = true /\ is_Some (cache r' !! c_group_id_hex c))).
Proof.
  revert seen cands r. induction files as [|[n [f|e]] files IH]; intros seen cands r; cbn -[dm_with].
  - intros [= <- <-]. split_and!; try done. intros l c [= <-]. by left.
  - destruct (dm_with f peer) eqn:Hd; cbn [negb].
    2:{ intros (Hd1 & Hg1 & Hk1 & Hl1)%IH. split_and!; try done. intros l c Hl Hc.
        destruct (Hl1 l c Hl Hc) as [|([m Hm] & ? & ?)]; [by left|right]. split_and!; [exists m; by right|done..]. }
    set (r1 := match cache r !! _ with Some _ => r | None => _ end).
    assert (disk r1 = disk r /\ is_Some (cache r1 !! c_group_id_hex f) /\
      (forall g, is_Some (cache r !! g) -> is_Some (cache r1 !! g)) /\
      ((forall g c, cache r !! g = Some c -> c_group_id_hex c = g) -> forall g c, cache r1 !! g = Some c -> c_group_id_hex c = g))
      as (Hdk & Hf & Hgrow & Hkey).
    { subst r1. destruct (cache r !! c_group_id_hex f) eqn:Hc; [by rewrite Hc|]. cbn. split_and!; [done|by rewrite lookup_insert_eq| |].
      - intros g Hg. destruct (decide (g = c_group_id_hex f)) as [->|]; [by rewrite lookup_insert_eq|by rewrite lookup_insert_ne].
      - intros Hk g c [[<- <-]|[_ Hg]]%lookup_insert_Some; [done|by apply Hk]. }
    destruct (bool_decide _); intros (Hd1 & Hg1 & Hk1 & Hl1)%IH; split_and!; try congruence; try (by eauto);
      intros l c Hl Hc; (destruct (Hl1 l c Hl Hc) as [Hin|([m Hm] & ? & ?)];
        [|right; split_and!; [exists m; by right|done..]]); [by left|].
    apply elem_of_app in Hin as [|[-> | []%elem_of_nil]%elem_of_cons]; [by left|right].
    split_and!; [exists n; by left|done|by apply Hg1].
  - intros [= <- <-]. split_and!; try done.
Qed.

Lemma find_found peer r res r' :
  well_filed r -> find_dm_with peer r = (res, r') ->
  well_filed r' /\ (forall g, is_Some (cache r !! g) -> is_Some (cache r' !! g)) /\
  forall c, res = Ok (Some c) -> in_registry c r /\ dm_with c peer = true /\ is_Some (cache r' !! c_group_id_hex c).
Proof.
  intros [Hc Hd]. unfold find_dm_with. destruct (scan_files _ _ _ _ _) as [q r1] eqn:Hs.
  apply scan_found in Hs as (Hdk & Hgrow & Hkey & Hin).
  assert (well_filed r1) as Hw by (split; [by apply Hkey|by rewrite Hdk]).
  destruct q as [l|e]; intros [= <- <-]; split_and!; try done. intros c [= Hp].
  pose proof (pick_current_dm_spec l) as Hl. rewrite Hp in Hl. destruct Hl as [Hl _].
  destruct (Hin l c eq_refl Hl) as [Hcand|([n Hn] & ? & ?)].
  - apply elem_of_list_filter_bool in Hcand as [Hdm Hv]. unfold hm_values in Hv.
    apply list_elem_of_fmap in Hv as ([g c'] & -> & Hg%elem_of_hm_iter). cbn in *. split_and!; [left; by exists g|done|].
    apply Hgrow. rewrite (Hc g c' Hg). by eexists.
  - apply elem_of_hm_iter in Hn. split_and!; [right; by exists n|done..].
Qed.

(** A conversation the endpoint had, or one it made for a peer in this send. *)
Definition known (r0 : ConversationRegistry) (c : Conversation) : Prop :=
  in_registry c r0 \/
  exists peer kem key gid k now, c = new_dm (local_member en) (dm_peer_member peer kem key) None gid k now.

(** What the steps of a send keep until it enters its row. *)
Record quiet (mid : string) (r0 : ConversationRegistry) (s : Stores W) : Prop := {
  q_named : files_named (st_contacts s);
  q_unrecorded : unrecorded mid (st_registry s);
  q_filed : well_filed (st_registry s);
  q_known : forall c, in_registry c (st_registry s) -> known r0 c;
}.

Definition kept (mid : string) (r0 : ConversationRegistry) (s s' : Stores W) : Prop :=
  quiet mid r0 s' /\ (exists hs, st_trace s' = st_trace s ++ hs) /\
  forall g, is_Some (cache (st_registry s) !! g) -> is_Some (cache (st_registry s') !! g).

Lemma kept_refl mid r0 s : quiet mid r0 s -> kept mid r0 s s.
Proof. intros Hq. split_and!; [done| |done]. exists []. by rewrite app_nil_r. Qed.

Lemma kept_trans mid r0 s s1 s' : kept mid r0 s s1 -> kept mid r0 s1 s' -> kept mid r0 s s'.
Proof.
  intros (_ & [hs1 He1] & Hg1) (Hq & [hs2 He2] & Hg2). split_and!; [done| |by eauto].
  exists (hs1 ++ hs2). by rewrite He2, He1, app_assoc.
Qed.

(** A conversation with the peer, in the cache. *)
Definition conversation_with (r0 : ConversationRegistry) (peer : string) (s : Stores W) (c : Conversation) : Prop :=
  known r0 c /\ dm_with c peer = true /\ is_Some (cache (st_registry s) !! c_group_id_hex c).

Lemma conversation_kept mid r0 peer s s' c :
  conversation_with r0 peer s c -> kept mid r0 s s' -> conversation_with r0 peer s' c.
Proof. intros (? & ? & ?) (_ & _ & Hg). split_and!; [done..|by apply Hg]. Qed.

Lemma lookup_kept mid r0 peer s r s' :
  quiet mid r0 s -> on_registry (W := W) (find_dm_with peer) s = (r, s') ->
  kept mid r0 s s' /\ st_trace s' = st_trace s /\ forall c, r = Ok (Some c) -> conversation_with r0 peer s' c.
Proof.
  intros [Hn Hu Hw Hk]. unfold on_registry. pose proof (find_unrecorded mid peer _ Hu) as Hu'.
  destruct (find_dm_with peer (st_registry s)) as [q r1] eqn:Hf.
  pose proof (find_found _ _ _ _ Hw Hf) as (Hw' & Hgrow & Hres). intros [= <- <-].
  split_and!; [|done|].
  - split_and!; [split; try done|exists []; by rewrite app_nil_r|done].
    intros c Hc. apply Hk. by eapply find_in_registry.
  - intros c Hc. destruct (Hres c Hc) as (Hin & ? & ?). split_and!; [by apply Hk|done..].
Qed.

Lemma dispatch_kept mid r0 outbox last io s r s' :
  quiet mid r0 s -> dispatch_outbox en outbox last io s = (r, s') -> kept mid r0 s s'.
Proof.
  intros [Hn Hu Hw Hk] Hd. apply dispatch_spec in Hd as ([Hreg _ _ _ _ _] & Hn2 & hs & Ht & _); [|done].
  split_and!; [split; [done|by rewrite Hreg..]|by exists hs|by rewrite Hreg].
Qed.

Lemma save_kept mid r0 peer kem key gid k now io s r s' :
  let conv := new_dm (local_member en) (dm_peer_member peer kem key) None gid k now in
  quiet mid r0 s -> on_registry (W := W) (save conv io) s = (r, s') ->
  kept mid r0 s s' /\ (r = Ok tt -> conversation_with r0 peer s' conv).
Proof.
  intros conv Hq. unfold on_registry. pose proof (save_unrecorded mid conv io _ eq_refl (q_unrecorded _ _ _ Hq)) as Hu'.
  assert (known r0 conv) as Hkn by (right; by repeat eexists).
  assert (dm_with conv peer = true) as Hd.
  { unfold dm_with, conv. cbn. rewrite String.eqb_refl. by destruct (String.eqb _ _). }
  destruct Hq as [Hn Hu [Hc Hd'] Hk]. unfold save, save_seal in *. destruct io as [[]|e]; cbn in Hu' |- *; intros [= <- <-].
  2:{ split; [|done]. split_and!; [by split|exists []; by rewrite app_nil_r|done]. }
  split.
  - split_and!; [split; [done|exact Hu'| |]|exists []; by rewrite app_nil_r|].
    + split; cbn; intros g c [[<- Heq]|[_ Hg]]%lookup_insert_Some; simplify_eq; eauto.
    + intros c [[g Hg]|[g Hg]]; cbn in Hg; apply lookup_insert_Some in Hg as [[_ Heq]|[_ Hg]]; simplify_eq; try done;
        apply Hk; [left|right]; by exists g.
    + cbn. intros g Hg. destruct (decide (g = c_group_id_hex conv)) as [->|];
        [by rewrite lookup_insert_eq|by rewrite lookup_insert_ne].
  - intros _. split_and!; [done..|]. cbn. by rewrite lookup_insert_eq.
Qed.

Lemma establish_kept mid r0 peer kem key io s r s' :
  quiet mid r0 s -> establish_dm en peer (dm_peer_member peer kem key) io s = (r, s') ->
  kept mid r0 s s' /\ forall c, r = Ok c -> conversation_with r0 peer s' c.
Proof.
  intros Hq. unfold establish_dm. unfold bind at 1.
  destruct (on_registry (find_dm_with peer) s) as [found s1] eqn:Hf. apply (lookup_kept mid r0) in Hf as (Hk1 & _ & Hc); [|done].
  destruct found as [[c|]|e]; [intros [= <- <-]; split; [done|intros c' [= <-]; by apply Hc]| |by intros [= <- <-]].
  unfold bind at 1, of_result at 1. destruct (build_welcome_outbox _ _ _ _) as [welcome|e]; [|by intros [= <- <-]].
  unfold bind at 1. destruct (on_registry (save _ _) s1) as [sv s2] eqn:Hs.
  apply (save_kept mid r0) in Hs as [Hk2 Hconv]; [|apply Hk1].
  assert (kept mid r0 s s2) as Hk by by eapply kept_trans.
  destruct sv as [[]|e]; [|by intros [= <- <-]]. unfold bind at 1.
  destruct (dispatch_outbox en welcome _ _ _) as [d s3] eqn:Hd. apply (dispatch_kept mid r0) in Hd; [|apply Hk2].
  assert (kept mid r0 s s3) as Hk3 by by eapply kept_trans.
  destruct d; intros [= <- <-]; [|done]. split; [done|]. intros c [= <-]. eapply conversation_kept; [by apply Hconv|done].
Qed.

Lemma target_kept mid r0 t io s r s' :
  quiet mid r0 s -> (forall d, ft_device t = Some d -> de_agent_id_hex d = ft_agent t) ->
  target_conversation en t io s = (r, s') ->
  kept mid r0 s s' /\ forall c, r = Ok c -> conversation_with r0 (ft_agent t) s' c.
Proof.
  intros Hq Hdev. unfold target_conversation. unfold bind at 1.
  destruct (on_registry _ s) as [found s1] eqn:Hf. apply (lookup_kept mid r0) in Hf as (Hk1 & _ & Hc); [|done].
  destruct found as [[c|]|e]; [intros [= <- <-]; split; [done|intros c' [= <-]; by apply Hc]| |by intros [= <- <-]].
  destruct (ft_device t) as [d|].
  { unfold bootstrap_from_device. rewrite (Hdev d eq_refl). intros [Hk Hr]%(establish_kept mid r0); [|apply Hk1].
    split; [by eapply kept_trans|done]. }
  unfold bootstrap_conversation. unfold bind at 1.
  destruct (on_registry _ s1) as [found s2] eqn:Hf. apply (lookup_kept mid r0) in Hf as (Hk2 & _ & Hc2); [|apply Hk1].
  assert (kept mid r0 s s2) as Hk by by eapply kept_trans.
  destruct found as [[c|]|e]; [intros [= <- <-]; split; [done|intros c' [= <-]; by apply Hc2]| |by intros [= <- <-]].
  run_monad. destruct (card_load _ _) as [[card|]|e] eqn:Hl; [|by intros [= <- <-]..].
  assert (cc_agent_id_hex card = ft_agent t) as ->.
  { unfold card_load in Hl. destruct (card_files _ !! _) as [[c| |]|] eqn:Hcf; simplify_eq. by eapply (q_named _ _ _ (proj1 Hk2)). }
  intros [Hk' Hr]%(establish_kept mid r0); [|apply Hk]. split; [by eapply kept_trans|done].
Qed.

(** Every active device but the sender's own, of a conversation with the target, was
    handed its sealed copy of the message and a transport took it. *)
Definition copies_taken (r0 : ConversationRegistry) (t : FanoutTarget) (msg : MessageArgs) (hs : list HandOver) : Prop :=
  exists conv now draws outbox, known r0 conv /\ dm_with conv (ft_agent t) = true /\
    build_message_outbox conv msg (own_agent en) (en_machine_id en) now draws = Ok outbox /\
    forall d, d ∈ fanout_devices (own_agent en) conv -> exists ob h, ob ∈ outbox /\ h ∈ hs /\ ho_taken h = true /\
      decode_agent "recipient hex" (md_agent_id_hex d) = Ok (oe_recipient ob) /\
      ho_to h = hex_encode (oe_recipient ob) /\ ho_envelope h = transport_out en OutDm (oe_envelope ob).

Lemma build_each_all one draws i ds out d :
  build_each one draws i ds = Ok out -> d ∈ ds -> exists ob j, ob ∈ out /\ one d (draws j) = Ok ob.
Proof.
  revert i out. induction ds as [|d' ds IH]; intros i out; cbn; [by intros _ ?%elem_of_nil|].
  destruct (one d' (draws i)) as [ob|] eqn:Ho; [|done]. destruct (build_each one draws (S i) ds) as [rest|] eqn:Hr; [|done].
  intros [= <-] [->|Hd]%elem_of_cons; [exists ob, i; split; [by left|done]|].
  destruct (IH _ _ Hr Hd) as (ob' & j & Hin & ?). exists ob', j. split; [by right|done].
Qed.

Lemma message_for_all conv msg now draws outbox d :
  build_message_outbox conv msg (own_agent en) (en_machine_id en) now draws = Ok outbox ->
  d ∈ fanout_devices (own_agent en) conv ->
  exists ob, ob ∈ outbox /\ decode_agent "recipient hex" (md_agent_id_hex d) = Ok (oe_recipient ob).
Proof.
  unfold build_message_outbox, to_invalid.
  destruct (match ma_attachment msg with Some att => _ | None => _ end); [|done].
  destruct (print_message _); [|done]. destruct (current_key conv); [|done]. destruct (group_id_bytes conv); [|done].
  destruct (decode_agent _ (own_agent en)); [|done]. intros Hb Hd.
  destruct (build_each_all _ _ _ _ _ _ Hb Hd) as (ob & j & Hin & Hone). exists ob. split; [done|].
  unfold message_for in Hone. destruct (aead_seal _ _ _ _); [|done].
  destruct (decode_agent _ (md_agent_id_hex d)) as [rcp|]; [|done].
  destruct (sign_envelope _); [|done]. by injection Hone as <-.
Qed.

(** Where the row goes: the conversation with the contact, once there is one. *)
Definition anchored (r0 : ConversationRegistry) (to : string) (acc : Fanout) (s : Stores W) : Prop :=
  forall g, fo_anchor acc = Some g -> exists c, g = c_group_id_hex c /\ conversation_with r0 to s c.

Lemma anchored_kept mid r0 to acc s s' : anchored r0 to acc s -> kept mid r0 s s' -> anchored r0 to acc s'.
Proof. intros Ha Hk g Hg. destruct (Ha g Hg) as (c & -> & Hc). exists c. split; [done|]. by eapply conversation_kept. Qed.

Lemma deliver_target_spec mid r0 to msg t io acc s r s' :
  quiet mid r0 s -> (forall d, ft_device t = Some d -> de_agent_id_hex d = ft_agent t) -> anchored r0 to acc s ->
  deliver_target en to msg t io acc s = (r, s') ->
  quiet mid r0 s' /\ exists acc' hs, r = Ok acc' /\ st_trace s' = st_trace s ++ hs /\ anchored r0 to acc' s' /\
    (fo_any acc' = true -> fo_any acc = true \/ copies_taken r0 t msg hs).
Proof.
  intros Hq Hdev Hanc. unfold deliver_target. unfold bind at 1, catch at 1.
  destruct (target_conversation en t io s) as [conv s1] eqn:Ht.
  apply (target_kept mid r0) in Ht as [Hk1 Hconv]; [|done..]. pose proof Hk1 as (Hq1 & [hs1 Ht1] & _).
  destruct conv as [conv|e].
  2:{ intros [= <- <-]. split; [done|]. do 2 eexists. split_and!; [done|exact Ht1|by eapply anchored_kept|by left]. }
  specialize (Hconv conv eq_refl).
  set (anchor := if bool_decide (ft_agent t = to) then _ else _).
  assert (forall s2 any err, kept mid r0 s1 s2 -> anchored r0 to (Build_Fanout anchor any err) s2) as Hanc2.
  { intros s2 any err Hk2 g. subst anchor. cbn. case_bool_decide as Hto; [intros [= <-]|].
    - exists conv. split; [done|]. rewrite <- Hto. by eapply conversation_kept.
    - intros Hg. destruct (Hanc g Hg) as (c & -> & Hc). exists c. split; [done|].
      eapply conversation_kept; [|exact Hk2]. by eapply conversation_kept. }
  unfold bind at 1, catch at 1. unfold bind at 1, of_result at 1.
  destruct (build_message_outbox _ _ _ _ _ _) as [outbox|e] eqn:Hb.
  2:{ intros [= <- <-]. split; [done|]. do 2 eexists.
      split_and!; [done|exact Ht1|by apply Hanc2, kept_refl|by left]. }
  destruct (dispatch_outbox en outbox _ _ s1) as [d s2] eqn:Hd. intros [= <- <-].
  pose proof Hd as Hk2. apply (dispatch_kept mid r0) in Hk2; [|done].
  apply dispatch_spec in Hd as (_ & _ & hs & Ht2 & _ & Hok & _); [|apply Hq1].
  split; [apply Hk2|]. eexists _, (hs1 ++ hs).
  split_and!; [done|by rewrite Ht2, Ht1, app_assoc|destruct d; by apply Hanc2|].
  destruct d as [id|e]; cbn; [|by left]. intros _. right. destruct Hconv as (Hkn & Hdm & _).
  eexists conv, _, _, outbox. split_and!; [done|done|exact Hb|]. intros dv Hdv.
  destruct (message_for_all _ _ _ _ _ _ Hb Hdv) as (ob & Hob & Hdec).
  destruct (Hok eq_refl ob Hob) as (h & Hh & ? & ? & ?). exists ob, h. split_and!; [done|set_solver|done..].
Qed.

Lemma copies_more r0 t msg hs hs1 hs2 : copies_taken r0 t msg hs -> copies_taken r0 t msg (hs1 ++ hs ++ hs2).
Proof.
  intros (conv & now & draws & outbox & Hkn & Hdm & Hb & Hall). exists conv, now, draws, outbox. split_and!; [done..|].
  intros d Hd. destruct (Hall d Hd) as (ob & h & ? & Hh & ?). exists ob, h. split; [done|]. split; [set_solver|done].
Qed.

Lemma deliver_each_spec mid r0 to msg targets io acc s r s' :
  quiet mid r0 s -> (forall t d, t ∈ targets -> ft_device t = Some d -> de_agent_id_hex d = ft_agent t) ->
  anchored r0 to acc s -> deliver_each en to msg targets io acc s = (r, s') ->
  quiet mid r0 s' /\ exists acc' hs, r = Ok acc' /\ st_trace s' = st_trace s ++ hs /\ anchored r0 to acc' s' /\
    (fo_any acc' = true -> fo_any acc = true \/ exists t, t ∈ targets /\ copies_taken r0 t msg hs).
Proof.
  revert io acc s. induction targets as [|t targets IH]; intros io acc s Hq Hdev Hanc; cbn [deliver_each].
  { intros [= <- <-]. split; [done|]. exists acc, []. rewrite app_nil_r. auto. }
  unfold bind at 1. destruct (deliver_target en to msg t (io O) acc s) as [r1 s1] eqn:Hs.
  apply (deliver_target_spec mid r0) in Hs as [Hq1 (acc1 & hs1 & -> & Ht1 & Hanc1 & Hany1)]; [|done|intros d; apply Hdev; by left|done].
  intros Hr. apply IH in Hr as [Hq2 (acc2 & hs2 & -> & Ht2 & Hanc2 & Hany2)]; [|done|intros t' d Ht'; apply Hdev; by right|done].
  split; [done|]. exists acc2, (hs1 ++ hs2). split_and!; [done|by rewrite Ht2, Ht1, app_assoc|done|].
  intros Ha. destruct (Hany2 Ha) as [Ha1|(t' & Ht' & Hc)]; [destruct (Hany1 Ha1) as [|Hc]; [by left|right]|right].
  - exists t. split; [by left|]. by apply (copies_more _ _ _ _ []).
  - exists t'. split; [by right|]. rewrite <- (app_nil_r hs2). by apply copies_more.
Qed.

Lemma fanout_targets_spec to io s r s' :
  fanout_targets en to io s = (r, s') ->
  (exists l, r = Ok l) /\ st_registry s' = st_registry s /\ st_contacts s' = st_contacts s /\
  st_marks s' = st_marks s /\ st_trace s' = st_trace s.
Proof.
  unfold fanout_targets. run_monad.
  destruct (contact_user_id_hex _ _) as [[u|]|]; [|solve [intros [= <- <-]; split_and!; eauto]..].
  destruct (en_primary_relay_url en) as [p|]; [|solve [intros [= <- <-]; split_and!; eauto]].
  destruct (match resolve_recipient_hints_or_fallback _ _ _ with Ok _ => _ | Err _ => _ end) as [relay|];
    [|solve [intros [= <- <-]; split_and!; eauto]].
  destruct (resolve_pair_record_v4 _ _ _ _ _) as [[new fb] w]. 
  destruct (match load_contact_pair_record_v4 _ _ with Ok r0 => r0 | Err _ => None end) as [o|];
    destruct (match new with Ok r0 => r0 | Err _ => None end) as [n|]; try solve [intros [= <- <-]; split_and!; eauto].
  destruct (removed_device_agents o n); intros [= <- <-]; split_and!; eauto.
Qed.

(** Every row with this message id is the entry. *)
Definition only_row (mid : string) (entry : HistoryEntry) (r : ConversationRegistry) : Prop :=
  forall c, in_registry c r -> Forall (fun e => h_message_id e = mid -> e = entry) (c_history c).

Lemma unrecorded_only_row mid entry r : unrecorded mid r -> only_row mid entry r.
Proof. intros Hu c Hc. eapply Forall_impl; [by apply Hu|]. intros e He Hm. by destruct (He Hm). Qed.

Lemma Forall_push (P : HistoryEntry -> Prop) entry c : Forall P (c_history c) -> P entry -> Forall P (c_history (push_history entry c)).
Proof.
  intros Hc He. unfold push_history, set_history. cbn [c_history]. apply Forall_app. split; [|by constructor].
  destruct (HISTORY_CAP <=? length (c_history c))%nat; [|done]. by destruct Hc; [constructor|].
Qed.

(** A locked update that adds the entry to a conversation, or to a new one. *)
Lemma enter_row_init {T} mid entry g init (f : Conversation -> MutateAction T * Conversation) io r :
  h_message_id entry = mid -> unrecorded mid r -> (forall c, init = Some c -> c_history c = []) ->
  (forall c, c_history (f c).2 = c_history (push_history entry c)) ->
  only_row mid entry (mutate_in_place_impl g init f io r).2.
Proof.
  intros Hmid Hu Hinit Hf. unfold mutate_in_place_impl.
  assert (forall c r1, hydrate "mutate_in_place" g init r = Ok (c, r1) ->
    Forall (fun e => h_message_id e = mid -> e = entry) (c_history c) /\ only_row mid entry r1) as Hhyd.
  { intros c r1. unfold hydrate. pose proof (unrecorded_only_row mid entry r Hu) as Ho.
    assert (forall c0, Forall (fun e => h_message_id e = mid -> e = entry) (c_history c0) ->
      only_row mid entry (cache_insert g c0 r)) as Hins.
    { intros c0 Hc0 c' [[g' Hg]|Hg]; [|by apply Ho; right]. cbn in Hg.
      apply lookup_insert_Some in Hg as [[_ <-]|[_ Hg]]; [done|]. apply Ho. left. by exists g'. }
    destruct (cache r !! g) as [c0|] eqn:Hc; [intros [= <- <-]; split; [apply Ho; left; by exists g|done]|].
    destruct (disk r !! g) as [[c0|]|] eqn:Hd; [|done|destruct init as [c0|]; [|done]]; intros [= <- <-].
    - assert (Forall (fun e => h_message_id e = mid -> e = entry) (c_history c0)) by (apply Ho; right; by exists g). by split; [|apply Hins].
    - assert (Forall (fun e => h_message_id e = mid -> e = entry) (c_history c0)) by by rewrite (Hinit c0). by split; [|apply Hins]. }
  destruct (hydrate _ g init r) as [[c r1]|]; [|by apply unrecorded_only_row].
  destruct (Hhyd c r1 eq_refl) as [Hc Ho1]. pose proof (Hf c) as Hfc. destruct (f c) as [[v|v] c2]; cbn in Hfc |- *; [|done].
  unfold persist. destruct io; cbn; [|done].
  assert (Forall (fun e => h_message_id e = mid -> e = entry) (c_history c2)) as Hpush.
  { rewrite Hfc. by apply Forall_push. }
  intros c' [[g' Hg]|[g' Hg]]; cbn in Hg; apply lookup_insert_Some in Hg as [[_ Heq]|[_ Hg]]; simplify_eq; try done;
    apply Ho1; [left|right]; by exists g'.
Qed.

Lemma enter_row mid entry g io r :
  h_message_id entry = mid -> unrecorded mid r ->
  only_row mid entry (mutate_in_place g (fun c => (Persist tt, push_history entry c)) io r).2.
Proof. intros Hmid Hu. by apply enter_row_init. Qed.

(** The row is in, and on disk with the conversation. *)
Lemma enter_row_there g entry c r :
  cache r !! g = Some c ->
  exists c', cache (mutate_in_place g (fun c => (Persist tt, push_history entry c)) (Ok tt) r).2 !! g = Some c' /\
    disk (mutate_in_place g (fun c => (Persist tt, push_history entry c)) (Ok tt) r).2 !! g = Some (Ok c') /\
    entry ∈ c_history c'.
Proof.
  intros Hc. unfold mutate_in_place, mutate_in_place_impl, hydrate. rewrite Hc. cbn. rewrite !lookup_insert_eq.
  eexists. split_and!; [done..|]. unfold push_history, set_history. cbn [c_history]. set_solver.
Qed.

(** Devices of a contact's list are targets under their own id. *)
Lemma target_devices to io s targets s1 i t d :
  fanout_targets en to io s = (Ok targets, s1) -> t ∈ retain_undenylisted_targets (en_denylist en) i targets ->
  ft_device t = Some d -> de_agent_id_hex d = ft_agent t.
Proof.
  intros Hf Ht Hd.
  assert (t ∈ targets) as Hin.
  { revert i Ht. clear -t. destruct (en_denylist en) as [bl|]; [|by destruct targets]. induction targets as [|t' l IH]; intros i; cbn; [done|].
    destruct (bl i (ft_agent t')); [intros ?; right; by eapply IH|]. intros [->|?]%elem_of_cons; [by left|right; by eapply IH]. }
  assert (forall rec, targets = fanout_targets_from_record rec to -> de_agent_id_hex d = ft_agent t) as Hrec.
  { intros rec ->. unfold fanout_targets_from_record in Hin.
    destruct rec as [rec|]; [destruct (existsb _ _)|];
      try (apply list_elem_of_singleton in Hin; subst t; done).
    apply list_elem_of_fmap in Hin as (d' & -> & _). by injection Hd as ->. }
  revert Hf. unfold fanout_targets. run_monad.
  destruct (contact_user_id_hex _ _) as [[u|]|]; [|solve [intros [= <- <-]; by apply (Hrec None)]..].
  destruct (en_primary_relay_url en) as [p|]; [|solve [intros [= <- <-]; by apply (Hrec None)]].
  destruct (match resolve_recipient_hints_or_fallback _ _ _ with Ok _ => _ | Err _ => _ end) as [relay|];
    [|solve [intros [= <- <-]; by apply (Hrec None)]].
  destruct (resolve_pair_record_v4 _ _ _ _ _) as [[new fb] w].
  destruct (match load_contact_pair_record_v4 _ _ with Ok r0 => r0 | Err _ => None end) as [o|];
    destruct (match new with Ok r0 => r0 | Err _ => None end) as [n|];
    try (intros [= Heq _]; by apply (Hrec (Some n)) || by apply (Hrec None)).
  destruct (removed_device_agents o n); intros [= Heq _]; by apply (Hrec (Some n)).
Qed.

(** The message's own row is in a conversation with the contact, in memory and on disk. *)
Definition row_entered (r0 : ConversationRegistry) (to : string) (entry : HistoryEntry) (r : ConversationRegistry) : Prop :=
  exists conv c, known r0 conv /\ dm_with conv to = true /\ cache r !! c_group_id_hex conv = Some c /\
    disk r !! c_group_id_hex conv = Some (Ok c) /\ entry ∈ c_history c.


(** *** A conversation that was saved *)

Lemma scan_keeps peer files seen cands r r' : cands <> [] -> scan_files peer files seen cands r <> (Ok [], r').
Proof.
  revert seen cands r. induction files as [|[n [f|e]] files IH]; intros seen cands r Hc; cbn -[dm_with]; [naive_solver| |done].
  destruct (dm_with f peer); cbn [negb]; [|by apply IH].
  destruct (bool_decide _); apply IH; [done|]. by destruct cands.
Qed.

(** A scan that found nothing read every file, and none is a conversation with the peer. *)
Lemma scan_nothing peer files r r' :
  scan_files peer files ∅ [] r = (Ok [], r') ->
  r' = r /\ forall f, f ∈ files -> exists c, f.2 = Ok c /\ dm_with c peer = false.
Proof.
  revert r. induction files as [|[n [f|e]] files IH]; intros r; cbn -[dm_with].
  - intros [= <-]. split; [done|]. intros f Hf. by apply elem_of_nil in Hf.
  - destruct (dm_with f peer) eqn:Hd; cbn [negb].
    + rewrite bool_decide_eq_false_2 by set_solver. by intros []%scan_keeps.
    + intros Hr. apply IH in Hr as [-> Hall]. split; [done|]. intros x [->|Hx]%elem_of_cons; [by exists f|by apply Hall].
  - done.
Qed.

(** When only one conversation is with the peer, the scan finds no other. *)
Lemma scan_one peer conv files seen cands r :
  (forall f, f ∈ files -> exists c, f.2 = Ok c /\ (dm_with c peer = true -> c = conv)) ->
  Forall (eq conv) cands ->
  exists l r', scan_files peer files seen cands r = (Ok l, r') /\ Forall (eq conv) l.
Proof.
  revert seen cands r. induction files as [|[n f] files IH]; intros seen cands r Hf Hc; cbn -[dm_with]; [by exists cands, r|].
  destruct (Hf (n, f)) as (c & Hfc & Heq); [by left|]. cbn in Hfc. subst f.
  assert (forall f, f ∈ files -> exists c, f.2 = Ok c /\ (dm_with c peer = true -> c = conv)) as Hf'
    by (intros x Hx; apply Hf; by right).
  destruct (dm_with c peer); cbn [negb]; [|by apply IH]. destruct (bool_decide _); apply IH; [done..|].
  apply Forall_app. split; [done|]. constructor; [by rewrite Heq|done].
Qed.

Lemma pick_one conv l : Forall (eq conv) l -> l <> [] -> pick_current_dm l = Some conv.
Proof.
  intros Hl Hne. pose proof (pick_current_dm_spec l) as Hp. destruct (pick_current_dm l) as [c|]; [|done].
  destruct Hp as [Hin _]. f_equal. symmetry. by apply (proj1 (Forall_forall _ _) Hl).
Qed.

(** Saving a conversation with a peer there was none with makes it the current one. *)
Lemma find_saved peer conv r r1 :
  find_dm_with peer r = (Ok None, r1) -> dm_with conv peer = true ->
  exists r', find_dm_with peer (save conv (Ok tt) r1).2 = (Ok (Some conv), r').
Proof.
  unfold find_dm_with at 1. destruct (scan_files _ _ _ _ _) as [[l|e] r0] eqn:Hs; [|done].
  intros [= Hpick ->] Hconv. pose proof (pick_current_dm_spec l) as Hl. rewrite Hpick in Hl. subst l.
  assert (cached_dms peer r = []) as Hcache.
  { destruct (cached_dms peer r) eqn:E; [done|]. exfalso. revert Hs. by apply scan_keeps. }
  rewrite Hcache in Hs. apply scan_nothing in Hs as [-> Hfiles].
  assert (forall c, c ∈ cached_dms peer (save conv (Ok tt) r).2 -> c = conv) as Hcands.
  { unfold cached_dms, save, save_seal. cbn. intros c [Hd Hc]%elem_of_list_filter_bool.
    unfold hm_values in Hc. apply list_elem_of_fmap in Hc as ([g c'] & -> & Hc). apply elem_of_hm_iter in Hc. cbn in *.
    apply lookup_insert_Some in Hc as [[_ <-]|[_ Hc]]; [done|]. exfalso.
    assert (c' ∈ cached_dms peer r) as Hin; [|by rewrite Hcache in Hin; apply elem_of_nil in Hin].
    apply elem_of_list_filter_bool. split; [done|]. apply list_elem_of_fmap. exists (g, c'). split; [done|]. by apply elem_of_hm_iter. }
  assert (conv ∈ cached_dms peer (save conv (Ok tt) r).2) as Hin.
  { apply elem_of_list_filter_bool. split; [done|]. apply list_elem_of_fmap. exists (c_group_id_hex conv, conv).
    split; [done|]. apply elem_of_hm_iter. cbn. by apply lookup_insert_eq. }
  unfold find_dm_with. set (cands := cached_dms peer (save conv (Ok tt) r).2) in *.
  assert (Forall (eq conv) cands) as Hall by (apply Forall_forall; intros c Hc; symmetry; by apply Hcands).
  destruct (scan_one peer conv (hm_iter (disk (save conv (Ok tt) r).2)) (list_to_set (c_group_id_hex <$> cands)) cands
    (save conv (Ok tt) r).2) as (l & r' & Hscan & Hl); [|done|].
  { intros [g f] Hf. apply elem_of_hm_iter in Hf. cbn in Hf. apply lookup_insert_Some in Hf as [[_ <-]|[_ Hf]]; [by exists conv|].
    destruct (Hfiles (g, f)) as (c & Hc & Hd); [by apply elem_of_hm_iter|]. exists c. split; [done|]. by rewrite Hd. }
  rewrite Hscan. exists r'. do 2 f_equal. apply pick_one; [done|]. intros ->.
  apply (scan_keeps peer) in Hscan; [done|]. intros Hnil. rewrite Hnil in Hin. by apply elem_of_nil in Hin.
Qed.

Lemma build_each_length one draws i ds out : build_each one draws i ds = Ok out -> length out = length ds.
Proof.
  revert i out. induction ds as [|d ds IH]; intros i out; cbn; [by intros [= <-]|].
  destruct (one d (draws i)); [|done]. destruct (build_each one draws (S i) ds) eqn:E; [|done].
  intros [= <-]. cbn. f_equal. by eapply IH.
Qed.

Lemma one_welcome peer kem key io outbox :
  peer <> own_agent en ->
  build_welcome_outbox (new_dm (local_member en) (dm_peer_member peer kem key) None (ti_group_id io) (ti_key io) (ti_now io))
    (own_agent en) (en_machine_id en) (ti_welcome io) = Ok outbox -> length outbox = 1%nat.
Proof.
  intros Hp. unfold build_welcome_outbox, to_invalid. destruct (print_welcome _); [|done].
  destruct (group_id_bytes _); [|done]. destruct (decode_agent _ _); [|done]. intros Hb. apply build_each_length in Hb.
  rewrite Hb. unfold fanout_devices, new_dm, local_member, dm_peer_member. cbn -[bool_decide String.eqb].
  rewrite bool_decide_eq_true_2 by done. rewrite (bool_decide_eq_false_2 (peer = _)) by done.
  by rewrite (bool_decide_eq_true_2 (own_agent en = _)).
Qed.

(** When no relay takes the welcome of a new direct
    conversation, the peer was handed nothing, but the conversation stays saved: the next
    send to that peer uses it as it is and no welcome goes out again. *)
Theorem failed_welcome_strands_dm (peer kem : string) (key : option string) (io io' : TargetIO) (s s' : Stores W)
    (r1 : ConversationRegistry) (e : ChatError) (device : option DeviceEntryV4) :
  let conv := new_dm (local_member en) (dm_peer_member peer kem key) None (ti_group_id io) (ti_key io) (ti_now io) in
  files_named (st_contacts s) -> peer <> own_agent en ->
  find_dm_with peer (st_registry s) = (Ok None, r1) ->
  is_ok (build_welcome_outbox conv (own_agent en) (en_machine_id en) (ti_welcome io)) = true -> ti_save io = Ok tt ->
  establish_dm en peer (dm_peer_member peer kem key) io s = (Err e, s') ->
  (exists hs, st_trace s' = st_trace s ++ hs /\ Forall (fun h => ho_taken h = false) hs) /\
  exists s'', target_conversation en {| ft_agent := peer; ft_device := device |} io' s' = (Ok conv, s'') /\
    st_trace s'' = st_trace s'.
Proof.
  intros conv Hn Hp Hf Hw Hio. unfold establish_dm. fold conv. unfold bind at 1, on_registry at 1. rewrite Hf.
  unfold bind at 1, of_result at 1. destruct (build_welcome_outbox conv _ _ _) as [welcome|] eqn:Hb; [|done].
  apply one_welcome in Hb; [|done]. unfold bind at 1, on_registry at 1. cbn [st_registry]. rewrite Hio.
  assert (dm_with conv peer = true) as Hd.
  { unfold dm_with, conv. cbn. rewrite String.eqb_refl. by destruct (String.eqb _ _). }
  destruct (find_saved peer conv _ _ Hf Hd) as [r' Hfound].
  destruct (save conv (Ok tt) r1) as [q r2] eqn:Hsave. cbn [snd] in Hfound.
  assert (q = Ok tt) as -> by by injection Hsave. unfold bind at 1.
  destruct (dispatch_outbox en welcome _ _ _) as [d s3] eqn:Hdis.
  apply dispatch_spec in Hdis as ([Hreg _ _ _ _ _] & _ & hs & Ht & _ & _ & Herr); [|done].
  cbn [st_registry st_trace] in Hreg, Ht. destruct d; [by intros [=]|]. intros [= _ <-].
  split; [exists hs; by auto|]. unfold target_conversation, bind at 1, on_registry. rewrite Hreg. cbn [ft_agent].
  rewrite Hfound. by eexists.
Qed.

(** The devices a built message goes to. *)
Lemma message_recipients conv msg now draws outbox ob :
  build_message_outbox conv msg (own_agent en) (en_machine_id en) now draws = Ok outbox -> ob ∈ outbox ->
  exists d, d ∈ fanout_devices (own_agent en) conv /\
    decode_agent "recipient hex" (md_agent_id_hex d) = Ok (oe_recipient ob).
Proof.
  unfold build_message_outbox, to_invalid.
  destruct (match ma_attachment msg with Some att => _ | None => _ end); [|done].
  destruct (print_message _); [|done]. destruct (current_key conv); [|done]. destruct (group_id_bytes conv); [|done].
  destruct (decode_agent _ (own_agent en)); [|done]. intros Hb Ho.
  destruct (build_each_elem _ _ _ _ _ _ Hb Ho) as (d & j & Hd & Hone). exists d. split; [done|].
  unfold message_for in Hone. destruct (aead_seal _ _ _ _); [|done].
  destruct (decode_agent _ (md_agent_id_hex d)) as [rcp|]; [|done].
  destruct (sign_envelope _); [|done]. by injection Hone as <-.
Qed.

(** The signed device list of the sender's own account makes the
    sending device a target of its own message, and the conversation looked up for that
    target is the current one of all direct conversations: the copy is sealed in it and
    goes only to the other party of that conversation, whoever that is. *)
Theorem own_device_copy_leaks (record : PairRecordV4) (to : string) (conv : Conversation) (r1 : ConversationRegistry)
    (msg : MessageArgs) (io : TargetIO) (acc acc' : Fanout) (s s' : Stores W) (own : DeviceEntryV4) :
  own ∈ p4_devices record -> de_agent_id_hex own = own_agent en ->
  to ∈ de_agent_id_hex <$> p4_devices record -> files_named (st_contacts s) ->
  find_dm_with (own_agent en) (st_registry s) = (Ok (Some conv), r1) ->
  let target := {| ft_agent := own_agent en; ft_device := Some own |} in
  deliver_target en to msg target io acc s = (Ok acc', s') ->
  target ∈ fanout_targets_from_record (Some record) to /\
  exists hs, st_trace s' = st_trace s ++ hs /\
    Forall (fun h => exists d b, d ∈ fanout_devices (own_agent en) conv /\
      decode_agent "recipient hex" (md_agent_id_hex d) = Ok b /\ ho_to h = hex_encode b) hs /\
    (fo_last_err acc' = None -> exists outbox,
      build_message_outbox conv msg (own_agent en) (en_machine_id en) (ti_sent_at io) (ti_message io) = Ok outbox /\
      forall ob, ob ∈ outbox -> exists h, h ∈ hs /\ ho_taken h = true /\ ho_to h = hex_encode (oe_recipient ob) /\
        ho_envelope h = transport_out en OutDm (oe_envelope ob)).
Proof.
  intros Hown Hid Hto Hn Hf target Hsend. split.
  { unfold fanout_targets_from_record. apply list_elem_of_fmap in Hto as (d & -> & Hd).
    replace (existsb _ _) with true; [|symmetry; apply existsb_exists; exists d; split;
      [by apply list_elem_of_In|by apply bool_decide_eq_true_2]].
    apply list_elem_of_fmap. exists own. split; [|done]. unfold target. by rewrite Hid. }
  revert Hsend. unfold deliver_target, target_conversation. unfold bind at 1, catch at 1, bind at 1, on_registry at 1.
  cbn [ft_agent target]. rewrite Hf. unfold ret at 1. unfold bind at 1, catch at 1, bind at 1, of_result at 1.
  destruct (build_message_outbox _ _ _ _ _ _) as [outbox|] eqn:Hb.
  2:{ intros [= <- <-]. exists []. rewrite app_nil_r. split_and!; [done|constructor|done]. }
  destruct (dispatch_outbox en outbox _ _ _) as [d s2] eqn:Hd.
  apply dispatch_spec in Hd as (_ & _ & hs & Ht & Hall & Hok & _); [|done]. intros [= <- <-].
  exists hs. split; [done|]. split.
  - eapply Forall_impl; [exact Hall|]. intros h (ob & Hob & Hho & _).
    destruct (message_recipients _ _ _ _ _ _ Hb Hob) as (d' & Hd' & Hdec). by exists d', (oe_recipient ob).
  - destruct d; [|done]. intros _. exists outbox. split; [done|]. by apply Hok.
Qed.
End facts.
(** ** Witnesses *)

#[local] Existing Instance demo_base64.
#[local] Existing Instance pw_b64url.
#[local] Existing Instance demo_sha32.
#[local] Existing Instance demo_mldsa.
#[local] Existing Instance su_parse.
#[local] Existing Instance su_edit.
#[local] Existing Instance su_form.
#[local] Existing Instance pw_display.
#[local] Existing Instance ep_bodies.
#[local] Existing Instance pw_ip.
#[local] Existing Instance pw_net.
#[local] Existing Instance pw_server.
#[local] Existing Instance out_demo_codec.
#[local] Existing Instance out_demo_cipher.
#[local] Existing Instance out_demo_seal.
#[local] Existing Instance out_demo_print.
#[local] Existing Instance alice_signer.
#[local] Existing Instance out_demo_io.
#[local] Existing Instance pub_json.

Definition relay_at (up : bool) : MultiHome.Transport (list N) :=
  {| tr_name := "demo"; tr_reachability := fun _ _ => Always;
     tr_send := fun _ _ _ w =>
       (if up then Ok {| sr_accepted_at_ms := 1; sr_message_id := None; sr_transport_name := "demo" |}
        else Err (MessageTransport "down"), w) |}.
Definition alice_at (up : bool) : Endpoint (list N) :=
  {| en_identity := {| fi_agent_id_hex := hex_encode alice; fi_user_id_hex := None;
                       fi_kem_public_key := replicate 1184 0; fi_kem_secret_key := [] |};
     en_machine_id := []; en_denylist := None; en_primary_relay_url := None; en_transports := [relay_at up] |}.
Definition alice_stores (talks : ConversationRegistry) : Stores (list N) :=
  mkStores talks (mkContacts EmptyString ∅) ∅ (mkFabric None None ∅) None ∅ ∅ [] [].
Definition to_bob : SendArgs :=
  {| sa_to := hex_encode bob; sa_body := "hi"; sa_sender_name := "Alice"; sa_reply_to := None; sa_attachment := None |}.
Definition alice_target : TargetIO :=
  {| ti_group_id := replicate 32 9; ti_key := demo_key 7; ti_now := 5; ti_welcome := fun _ => draw 3; ti_save := Ok tt;
     ti_welcome_cards := fun _ _ => Ok tt; ti_sent_at := 8; ti_message := fun _ => draw 4;
     ti_message_cards := fun _ _ => Ok tt |}.
Definition alice_io : SendIO :=
  {| si_message_id := "m1"; si_contact_record := Ok tt; si_target := fun _ => alice_target; si_now := 8;
     si_history := Ok tt |}.
Definition with_talk : ConversationRegistry :=
  mkRegistry {[c_group_id_hex talk := talk]} ∅.


Lemma no_cards_named : files_named (mkContacts EmptyString ∅).
Proof. intros a c Ha. cbn [card_files] in Ha. by rewrite (lookup_empty (M := gmap string)) in Ha. Qed.

Lemma talk_filed : well_filed with_talk.
Proof.
  split; intros g c; cbn [with_talk cache disk].
  - by intros [<- <-]%lookup_singleton_Some.
  - by rewrite (lookup_empty (M := gmap string)).
Qed.


Lemma failed_welcome_strands_dm_witness :
  exists e s', establish_dm (alice_at false) (hex_encode bob) (dm_peer_member (hex_encode bob) (b64_encode (replicate 1184 0)) None)
      alice_target (alice_stores (registry_empty ∅)) = (Err e, s') /\
    exists conv s'', target_conversation (alice_at false) (fanout_contact (hex_encode bob)) alice_target s' = (Ok conv, s'') /\
      c_group_id_hex conv = hex_encode (replicate 32 9) /\ st_trace s'' = st_trace s'.
Proof.
  destruct (establish_dm _ _ _ _ _) as [r s'] eqn:E.
  assert (r = Err (AllRelaysUnreachable (hex_encode bob))) as -> by (change r with (r, s').1; rewrite <- E; vm_compute; reflexivity).
  do 2 eexists. split; [done|].
  destruct (failed_welcome_strands_dm (alice_at false) (hex_encode bob) (b64_encode (replicate 1184 0)) None alice_target alice_target
    (alice_stores (registry_empty ∅)) s' (registry_empty ∅) (AllRelaysUnreachable (hex_encode bob)) None) as [_ (s'' & Ht & Htr)];
    [|by vm_compute|by vm_compute|by vm_compute|done|exact E|].
  { apply no_cards_named. }
  do 2 eexists. split; [exact Ht|]. by split.
Defined.

(** Alice's account has a second device; Bob is the other party of her one conversation. *)
Definition alice_device (agent : string) : DeviceEntryV4 :=
  {| de_agent_id_hex := agent; de_ml_dsa_pubkey_b64 := EmptyString; de_kem_pubkey_b64 := EmptyString;
     de_advertised_relays := []; de_cert_b64 := EmptyString; de_added_at_ms := 0; de_primary := false |}.
Definition alice_record : PairRecordV4 :=
  {| p4_record_version := 4; p4_user_id_hex := EmptyString; p4_user_ml_dsa_pubkey_b64 := EmptyString; p4_revision := 1;
     p4_issued_at_ms := 1; p4_devices := [alice_device "laptop"; alice_device (hex_encode alice)];
     p4_user_signature_b64 := EmptyString |}.

Lemma own_device_copy_leaks_witness :
  let target := {| ft_agent := hex_encode alice; ft_device := Some (alice_device (hex_encode alice)) |} in
  target ∈ fanout_targets_from_record (Some alice_record) "laptop" /\
  exists acc s', deliver_target (alice_at true) "laptop" hello target alice_target (Build_Fanout None false None)
      (alice_stores with_talk) = (Ok acc, s') /\ fo_any acc = true /\
    exists h, h ∈ st_trace s' /\ ho_taken h = true /\ ho_to h = hex_encode bob.
Proof.
  cbv zeta. destruct (deliver_target _ _ _ _ _ _ _) as [r s'] eqn:E.
  set (acc := Build_Fanout None true None).
  assert (r = Ok acc) as -> by (change r with (r, s').1; rewrite <- E; vm_compute; reflexivity).
  destruct (own_device_copy_leaks (alice_at true) alice_record "laptop" talk with_talk hello alice_target
    (Build_Fanout None false None) acc (alice_stores with_talk) s' (alice_device (hex_encode alice)))
    as (Hin & hs & Ht & _ & Hcopies); [by right; left|done|by left| |by vm_compute|exact E|].
  { apply no_cards_named. }
  split; [exact Hin|]. exists acc, s'. split; [done|]. split; [done|].
  destruct (Hcopies eq_refl) as (outbox & Hb & Hall).
  assert (outbox = [the_message]) as -> by (revert Hb; vm_compute; by intros [= <-]).
  destruct (Hall the_message) as (h & Hh & Htaken & Hto & _); [by left|].
  exists h. split; [by rewrite Ht|]. split; [done|]. exact Hto.
Defined.
