(* ===== verification/Daemon.v ===== *)
(** * The daemon's HTTP surface

    Models [crates/fetchit-chat/src/http.rs] (requests to the x0xd daemon, with the
    re-read of its port file), the secure-group calls of
    [crates/x0xd-client/src/secure.rs] and the group calls of
    [crates/fetchit-chat/src/groups/mod.rs].  The daemon's answers, joining URLs, the
    JSON of its replies and the text of a body are arguments; the client's cached base
    URL is part of the world [W]. *)
From stdpp Require Import pretty.
From S2P Require Import Prelude SendState Attachment Bubble Overlay SeqGap RelayProto RelayAuth PairRecord ShareUri.
From S2P Require Import Conversation ConvRegistry ContactCard PendingJoin Endpoint.
Open Scope rust_scope.

(** ** Requests *)

Inductive Method := GET | POST | PATCH | DELETE.

(** The request structs the callers serialize. *)
Inductive DaemonBody :=
| CreateRequest (name : string) (display_name : option string) (preset : string)
| CreatePrivateRequest (name : string) (display_name : option string) (preset discoverability : string)
| AddTreekemMemberRequest (agent_id treekem_key_package_b64 : string)
| EncryptRequest (payload_b64 : string)
| DecryptRequest (ciphertext_b64 : string) (nonce_b64 : option string) (secret_epoch : N) (sender_agent_id : option string)
| PublishRequest (topic payload : string)
| ApplyMetadataEventRequest (event_b64 sender_agent_id : string)
| ApplyJoinResultRequest (event_b64 sender_agent_id : string)
| AddMemberRequest (agent_id : string) (display_name : option string)
| UpdateGroupRequest (name : option string)
| SendGroupRequest (body kind : string)
| EmptyObject.

(** How a request ends: no connection, another failure, or a status and the body (or
    why it could not be read). *)
Inductive Answer :=
| ConnectFailed (why : string)
| SendFailed (why : string)
| Answered (status : N) (body : result bytes string).

Class DaemonNet (W : Type) := {
  dn_base : W -> string;
  dn_rebase : string -> W -> W;
  (** the text of [api.port], trimmed, when its path is known *)
  dn_port_file : option (W -> result string ChatError);
  dn_request : Method -> string -> option DaemonBody -> W -> Answer * W;
}.
(** [Response::text], [StatusCode]'s [Display], [Url::join] and [Display]. *)
Class BodyText := body_text : bytes -> string.
Class StatusLine := status_line : N -> string.
Class UrlJoin := url_join : Url -> string -> result string string.

Definition is_success (status : N) : bool := (200 <=? status) && (status <=? 299).

(** ** [http.rs] *)

(** [Http]'s errors, before they become [ChatError]. *)
Inductive HttpFail :=
| NoConnection (why : string)
| OtherFailure (e : ChatError).
Definition http_fail (e : HttpFail) : ChatError :=
  match e with NoConnection why => Transport why | OtherFailure e => e end.

Definition is_char_boundary (s : string) (i : nat) : bool :=
  match ascii_bytes s !! i with
  | Some b => negb ((128 <=? b) && (b <? 192))
  | None => (i =? String.length s)%nat
  end.
Fixpoint boundary_below (s : string) (i : nat) : nat :=
  if is_char_boundary s i then i else match i with O => O | S i => boundary_below s i end.
Definition truncate (s : string) (max : nat) : string :=
  if (String.length s <=? max)%nat then s
  else String.substring 0 (boundary_below s max) s +:+ "…".

Definition base_url_from_api_port_line (raw : string) : string :=
  if str_contains ":" raw then "http://" +:+ raw else "http://127.0.0.1:" +:+ raw.

Section http.
  Context {W : Type} `{DaemonNet W, BodyText}.

Definition daemon_error (status : N) (body : result bytes string) : ChatError :=
  let body := match body with Ok b => body_text b | Err e => "<body read failed: " +:+ e +:+ ">" end in
  Daemon status (truncate body 512).

Definition request_json_once {R} (parse : bytes -> result R string) (method : Method) (path : string)
    (body : option DaemonBody) (w : W) : result R HttpFail * W :=
  match dn_request method (dn_base w +:+ path) body w with
  | (ConnectFailed why, w) => (Err (NoConnection why), w)
  | (SendFailed why, w) => (Err (OtherFailure (Transport why)), w)
  | (Answered status raw, w) =>
      if negb (is_success status) then (Err (OtherFailure (daemon_error status raw)), w)
      else match raw with
           | Err why => (Err (OtherFailure (Transport why)), w)
           | Ok b => (match parse b with Ok r => Ok r | Err why => Err (OtherFailure (Transport why)) end, w)
           end
  end.

Definition delete_once (path : string) (w : W) : result unit HttpFail * W :=
  match dn_request DELETE (dn_base w +:+ path) None w with
  | (ConnectFailed why, w) => (Err (NoConnection why), w)
  | (SendFailed why, w) => (Err (OtherFailure (Transport why)), w)
  | (Answered status raw, w) =>
      (if is_success status then Ok tt else Err (OtherFailure (daemon_error status raw)), w)
  end.

Definition read_port_file (read : W -> result string ChatError) (w : W) : result string ChatError :=
  let? trimmed := read w in
  if String.eqb trimmed "" then Err (Invalid "empty api.port")
  else Ok (base_url_from_api_port_line trimmed).

Definition try_re_resolve_port (w : W) : bool * W :=
  match dn_port_file with
  | None => (false, w)
  | Some read =>
      match read_port_file read w with
      | Err _ => (false, w)
      | Ok new_url => if bool_decide (dn_base w = new_url) then (false, w) else (true, dn_rebase new_url w)
      end
  end.

Definition with_retry {T} (op : W -> result T HttpFail * W) (w : W) : result T ChatError * W :=
  match op w with
  | (Ok r, w) => (Ok r, w)
  | (Err (NoConnection why), w) =>
      if is_some dn_port_file then
        match try_re_resolve_port w with
        | (true, w) => let '(r, w) := op w in (match r with Ok r => Ok r | Err e => Err (http_fail e) end, w)
        | (false, w) => (Err (Transport why), w)
        end
      else (Err (Transport why), w)
  | (Err (OtherFailure e), w) => (Err e, w)
  end.

Definition get_json {R} (parse : bytes -> result R string) (path : string) : W -> result R ChatError * W :=
  with_retry (request_json_once parse GET path None).
Definition post_json {R} (parse : bytes -> result R string) (path : string) (body : DaemonBody) : W -> result R ChatError * W :=
  with_retry (request_json_once parse POST path (Some body)).
Definition patch_json {R} (parse : bytes -> result R string) (path : string) (body : DaemonBody) : W -> result R ChatError * W :=
  with_retry (request_json_once parse PATCH path (Some body)).
Definition http_delete (path : string) : W -> result unit ChatError * W := with_retry (delete_once path).
End http.

(** ** [secure.rs] *)

Record EncryptedFrame := mkFrame {
  ef_ciphertext_b64 : string;
  ef_nonce_b64 : option string;
  ef_secret_epoch : N;
  ef_plane : option string;
}.
#[export] Instance encrypted_frame_eq_dec : EqDecision EncryptedFrame.
Proof. solve_decision. Defined.

Definition PLANE_TREEKEM : string := "treekem".
Definition is_treekem (f : EncryptedFrame) : bool := bool_decide (ef_plane f = Some PLANE_TREEKEM).

Record CreatedGroup := { cg_group_id : string; cg_chat_topic : string }.
Record CreatedGroupResponse := { cr_ok : bool; cr_error : option string; cr_group_id : option string; cr_chat_topic : option string }.
Inductive Confidentiality := MlsEncrypted | SignedPublic.
Record GroupSelfStatus := { gs_keyed : bool; gs_in_roster : bool; gs_epoch : N }.
Record EncryptResponse := {
  er_ok : bool; er_error : option string; er_ciphertext_b64 : option string; er_nonce_b64 : option string;
  er_secret_epoch : option N; er_secure_plane : option string;
}.
Record DecryptResponse := { dr_ok : bool; dr_error : option string; dr_payload_b64 : option string }.

(** [raw.json()] for the replies: [Err] when the body is not one. *)
Class DaemonJson := {
  parse_created : bytes -> result CreatedGroupResponse string;
  parse_encrypt : bytes -> result EncryptResponse string;
  parse_decrypt : bytes -> result DecryptResponse string;
  parse_ok : bytes -> result (bool * option string) string;
  parse_policy : bytes -> result (option Confidentiality) string;
  parse_self_status : bytes -> result GroupSelfStatus string;
  parse_applied : bytes -> result bool string;
}.

Definition is_ascii_hexdigit (b : N) : bool :=
  (48 <=? b) && (b <=? 57) || (65 <=? b) && (b <=? 70) || (97 <=? b) && (b <=? 102).

Definition validate_group_id_hex (s : string) : result string X0xdError :=
  if negb (str_len s =? 64) then Err (XInvalid ("group_id must be 64 hex chars, got " +:+ pretty (str_len s)))
  else if negb (forallb is_ascii_hexdigit (ascii_bytes s)) then Err (XInvalid "group_id must be ASCII hex")
  else Ok s.

Module SecureGroups.
Section secure.
  Context {W : Type} `{DaemonNet W, BodyText, StatusLine, UrlParse, UrlJoin, DaemonJson, Base64}.
  (** [base_url]: the daemon's, parsed when the endpoint was made. *)
  Context (base_url : Url).

(** [send()]. *)
Definition send_to (method : Method) (url : string) (body : option DaemonBody) (w : W)
    : result (N * result bytes string) X0xdError * W :=
  match dn_request method url body w with
  | (ConnectFailed why, w) | (SendFailed why, w) => (Err (XHttp why), w)
  | (Answered status raw, w) => (Ok (status, raw), w)
  end.
(** [base_url.join(path)] and [send()]. *)
Definition call (method : Method) (path : string) (body : option DaemonBody) (w : W)
    : result (N * result bytes string) X0xdError * W :=
  match url_join base_url path with
  | Err e => (Err (XUrl e), w)
  | Ok url => send_to method url body w
  end.

(** [raw.text().await.unwrap_or_default()]. *)
Definition text_or_empty (raw : result bytes string) : string :=
  match raw with Ok b => body_text b | Err _ => EmptyString end.
(** [raw.json().await?]. *)
Definition json {R} (parse : bytes -> result R string) (raw : result bytes string) : result R X0xdError :=
  match raw with
  | Err e => Err (XHttp e)
  | Ok b => match parse b with Ok r => Ok r | Err e => Err (XHttp e) end
  end.

(** The non-success answer of most calls. *)
Definition success (what : string) (a : result (N * result bytes string) X0xdError) : result (result bytes string) X0xdError :=
  let? a := a in
  if is_success a.1 then Ok a.2
  else Err (XRejected (what +:+ " returned " +:+ status_line a.1 +:+ ": " +:+ text_or_empty a.2)).

Definition require {A} (what : string) (o : option A) : result A X0xdError :=
  match o with Some a => Ok a | None => Err (XRejected what) end.

Definition refuse_not_ok (ok : bool) (error : option string) : result unit X0xdError :=
  if ok then Ok tt else Err (XRejected (default "x0xd returned ok=false without error message"%string error)).

Definition create_private_secure (name : string) (display_name : option string) (w : W) : result CreatedGroup X0xdError * W :=
  let '(a, w) := call POST "groups" (Some (CreatePrivateRequest name display_name "private_secure" "Hidden")) w in
  (let? raw := success "x0xd /groups" a in
   let? resp := json parse_created raw in
   let? _ := refuse_not_ok (cr_ok resp) (cr_error resp) in
   let? group_id := require "x0xd response missing group_id" (cr_group_id resp) in
   let? chat_topic := require "x0xd response missing chat_topic" (cr_chat_topic resp) in
   Ok {| cg_group_id := group_id; cg_chat_topic := chat_topic |}, w).

Definition add_treekem_member (group_id agent_id_hex treekem_key_package_b64 : string) (w : W) : result bool X0xdError * W :=
  match validate_group_id_hex group_id with
  | Err e => (Err e, w)
  | Ok group_id =>
      let '(a, w) := call POST ("groups/" +:+ group_id +:+ "/members")
                       (Some (AddTreekemMemberRequest agent_id_hex treekem_key_package_b64)) w in
      (let? a := a in
       if negb (is_success a.1) && negb (a.1 =? 409)
       then Err (XRejected ("x0xd POST /groups/" +:+ group_id +:+ "/members returned " +:+ status_line a.1 +:+ ": "
                              +:+ text_or_empty a.2))
       else Ok (negb (a.1 =? 409)), w)
  end.

(** The frame of an encrypt reply. *)
Definition frame_of (resp : EncryptResponse) : result EncryptedFrame X0xdError :=
  let? _ := refuse_not_ok (er_ok resp) (er_error resp) in
  let? ciphertext_b64 := require "encrypt response missing ciphertext_b64" (er_ciphertext_b64 resp) in
  let? secret_epoch := require "encrypt response missing secret_epoch" (er_secret_epoch resp) in
  let plane := er_secure_plane resp in
  let? nonce_b64 := if bool_decide (plane = Some PLANE_TREEKEM) then Ok None
                    else let? n := require "encrypt response missing nonce_b64" (er_nonce_b64 resp) in Ok (Some n) in
  Ok (mkFrame ciphertext_b64 nonce_b64 secret_epoch plane).

Definition encrypt (group_id : string) (plaintext : bytes) (w : W) : result EncryptedFrame X0xdError * W :=
  match validate_group_id_hex group_id with
  | Err e => (Err e, w)
  | Ok group_id =>
      let '(a, w) := call POST ("groups/" +:+ group_id +:+ "/secure/encrypt") (Some (EncryptRequest (b64_encode plaintext))) w in
      (let? raw := success "x0xd /secure/encrypt" a in
       let? resp := json parse_encrypt raw in
       frame_of resp, w)
  end.

(** The plaintext of a decrypt reply. *)
Definition payload_of (a : result (N * result bytes string) X0xdError) : result bytes X0xdError :=
  let? raw := success "x0xd /secure/decrypt" a in
  let? resp := json parse_decrypt raw in
  let? _ := refuse_not_ok (dr_ok resp) (dr_error resp) in
  let? payload_b64 := require "decrypt response missing payload_b64" (dr_payload_b64 resp) in
  match b64_decode payload_b64 with
  | Some p => Ok p
  | None => Err (XRejected "decrypt payload base64")
  end.

Definition decrypt (group_id : string) (frame : EncryptedFrame) (sender_agent_id : option string) (w : W)
    : result bytes X0xdError * W :=
  match validate_group_id_hex group_id with
  | Err e => (Err e, w)
  | Ok group_id =>
      match url_join base_url ("groups/" +:+ group_id +:+ "/secure/decrypt") with
      | Err e => (Err (XUrl e), w)
      | Ok url =>
          match (if is_treekem frame then Ok None
                 else match ef_nonce_b64 frame with
                      | Some n => Ok (Some n)
                      | None => Err (XInvalid "legacy decrypt requires nonce_b64")
                      end) with
          | Err e => (Err e, w)
          | Ok nonce_b64 =>
              let '(a, w) := send_to POST url
                               (Some (DecryptRequest (ef_ciphertext_b64 frame) nonce_b64 (ef_secret_epoch frame) sender_agent_id)) w in
              (payload_of a, w)
          end
      end
  end.

Definition publish (topic payload_b64 : string) (w : W) : result unit X0xdError * W :=
  let '(a, w) := call POST "publish" (Some (PublishRequest topic payload_b64)) w in
  (let? raw := success "x0xd /publish" a in
   let? resp := json parse_ok raw in
   refuse_not_ok resp.1 resp.2, w).

Definition get_group_confidentiality (group_id : string) (w : W) : result Confidentiality X0xdError * W :=
  match validate_group_id_hex group_id with
  | Err e => (Err e, w)
  | Ok group_id =>
      let '(a, w) := call GET ("groups/" +:+ group_id) None w in
      (let? raw := success ("x0xd GET /groups/" +:+ group_id) a in
       let? policy := json parse_policy raw in
       require "group meta response missing policy" policy, w)
  end.

Definition group_self_status (group_id : string) (w : W) : result (option GroupSelfStatus) X0xdError * W :=
  match validate_group_id_hex group_id with
  | Err e => (Err e, w)
  | Ok group_id =>
      let '(a, w) := call GET ("groups/" +:+ group_id +:+ "/secure/self") None w in
      (let? a := a in
       if a.1 =? 404 then Ok None
       else let? raw := success ("x0xd GET /groups/" +:+ group_id +:+ "/secure/self") (Ok a) in
            let? st := json parse_self_status raw in Ok (Some st), w)
  end.

(** The answer of the two apply calls: 200 and 409 carry [applied]. *)
Definition applied (what : string) (a : result (N * result bytes string) X0xdError) : result bool X0xdError :=
  let? a := a in
  if negb (a.1 =? 200) && negb (a.1 =? 409) then Err (XApplyRejected a.1 (what +:+ ": " +:+ text_or_empty a.2))
  else json parse_applied a.2.

Definition apply_metadata_event (group_id event_b64 sender_agent_id : string) (w : W) : result bool X0xdError * W :=
  match validate_group_id_hex group_id with
  | Err e => (Err e, w)
  | Ok group_id =>
      let '(a, w) := call POST ("groups/" +:+ group_id +:+ "/apply-metadata-event")
                       (Some (ApplyMetadataEventRequest event_b64 sender_agent_id)) w in
      (applied ("POST /groups/" +:+ group_id +:+ "/apply-metadata-event") a, w)
  end.

Definition apply_join_result (group_id member event_b64 sender_agent_id : string) (w : W) : result bool X0xdError * W :=
  match validate_group_id_hex group_id with
  | Err e => (Err e, w)
  | Ok group_id =>
      let '(a, w) := call POST ("groups/" +:+ group_id +:+ "/join-result/" +:+ member)
                       (Some (ApplyJoinResultRequest event_b64 sender_agent_id)) w in
      (applied ("POST /groups/" +:+ group_id +:+ "/join-result/" +:+ member) a, w)
  end.
End secure.
End SecureGroups.

(** ** [groups/mod.rs] *)

Record Group := { gr_group_id : string; gr_name : option string; gr_member_count : N; gr_is_owner : bool; gr_kind : option GroupKind }.
Record GroupMemberEntry := { gm_agent_id : string; gm_display_name : option string; gm_role : option string; gm_state : option string }.

Record GroupMessage := {
  gmsg_group_id : string; gmsg_message_id : string; gmsg_from : string; gmsg_body : string; gmsg_timestamp_ms : N; gmsg_signature : string; gmsg_kind : string;
}.

Class GroupsJson := {
  parse_groups : bytes -> result (list Group) string;
  parse_group : bytes -> result Group string;
  parse_value : bytes -> result unit string;
  parse_invite : bytes -> result string string;
  parse_members : bytes -> result (list GroupMemberEntry) string;
  parse_message_id : bytes -> result (option string) string;
  parse_messages : bytes -> result (list GroupMessage) string;
}.

Module Groups.
Section groups.
  Context {W : Type} `{DaemonNet W, BodyText, GroupsJson}.

Definition list_groups : W -> result (list Group) ChatError * W := get_json parse_groups "/groups".

Definition leave (group : string) : W -> result unit ChatError * W := http_delete ("/groups/" +:+ group).

(** A group that is withdrawn already counts as deleted. *)
Definition delete_group (group : string) (w : W) : result unit ChatError * W :=
  match post_json parse_value ("/groups/" +:+ group +:+ "/state/withdraw") EmptyObject w with
  | (Err (Daemon status body), w) =>
      (if (status =? 409) && str_contains "group is withdrawn" body then Ok tt else Err (Daemon status body), w)
  | (r, w) => (r, w)
  end.

Definition set_kind (k : GroupKind) (g : Group) : Group :=
  {| gr_group_id := gr_group_id g; gr_name := gr_name g; gr_member_count := gr_member_count g;
     gr_is_owner := gr_is_owner g; gr_kind := Some k |}.

Definition create (name : string) (display_name : option string) (w : W) : result Group ChatError * W :=
  let '(r, w) := post_json parse_group "/groups" (CreateRequest name display_name "public_open") w in
  (let? g := r in Ok (set_kind Public g), w).

Definition create_private (name : string) (display_name : option string) (w : W) : result Group ChatError * W :=
  let '(r, w) := post_json parse_group "/groups" (CreatePrivateRequest name display_name "private_secure" "Hidden") w in
  (let? g := r in Ok (set_kind Private g), w).

Definition invite (group : string) : W -> result string ChatError * W :=
  post_json parse_invite ("/groups/" +:+ group +:+ "/invite") EmptyObject.

Definition add_member (group agent_id : string) (display_name : option string) : W -> result unit ChatError * W :=
  post_json parse_value ("/groups/" +:+ group +:+ "/members") (AddMemberRequest agent_id display_name).

Definition send_public (group body : string) : W -> result (option string) ChatError * W :=
  post_json parse_message_id ("/groups/" +:+ group +:+ "/send") (SendGroupRequest body "chat").

Definition is_active (m : GroupMemberEntry) : bool :=
  match gm_state m with None => true | Some s => String.eqb s "active" end.

Definition members (group : string) (w : W) : result (list string) ChatError * W :=
  let '(r, w) := get_json parse_members ("/groups/" +:+ group +:+ "/members") w in
  (let? ms := r in Ok (gm_agent_id <$> List.filter is_active ms), w).

Definition member_roster (group : string) (w : W) : result (list GroupMemberEntry) ChatError * W :=
  let '(r, w) := get_json parse_members ("/groups/" +:+ group +:+ "/members") w in
  (let? ms := r in Ok (List.filter is_active ms), w).

Definition remove_member (group agent_id : string) : W -> result unit ChatError * W :=
  http_delete ("/groups/" +:+ group +:+ "/members/" +:+ agent_id).

Definition rename (group name : string) (w : W) : result unit ChatError * W :=
  patch_json parse_value ("/groups/" +:+ group) (UpdateGroupRequest (Some name)) w.

Definition ban_member (group agent_id : string) : W -> result unit ChatError * W :=
  post_json parse_value ("/groups/" +:+ group +:+ "/ban/" +:+ agent_id) EmptyObject.

(** A message without an id gets its signature, or its time and sender. *)
Definition with_id (m : GroupMessage) : GroupMessage :=
  if nonempty (gmsg_message_id m) then m
  else {| gmsg_group_id := gmsg_group_id m;
          gmsg_message_id := if nonempty (gmsg_signature m) then gmsg_signature m
                             else pretty (gmsg_timestamp_ms m) +:+ "-" +:+ gmsg_from m;
          gmsg_from := gmsg_from m; gmsg_body := gmsg_body m; gmsg_timestamp_ms := gmsg_timestamp_ms m;
          gmsg_signature := gmsg_signature m; gmsg_kind := gmsg_kind m |}.

Definition history (group : string) (w : W) : result (list GroupMessage) ChatError * W :=
  let '(r, w) := get_json parse_messages ("/groups/" +:+ group +:+ "/messages") w in
  (let? ms := r in Ok (with_id <$> ms), w).
End groups.
End Groups.

(** ** Frames *)

(** A separate nonce exactly when the frame is not a TreeKEM one. *)
Definition frame_wf (f : EncryptedFrame) : bool := Bool.eqb (is_treekem f) (negb (is_some (ef_nonce_b64 f))).

(** The text is 64 hexadecimal digits: it names one path segment. *)
Lemma group_id_checked g g' : validate_group_id_hex g = Ok g' -> g' = g /\ str_len g = 64 /\ forallb is_ascii_hexdigit (ascii_bytes g) = true.
Proof.
  unfold validate_group_id_hex. destruct (N.eqb_spec (str_len g) 64) as [Hl|]; [|done]. cbn [negb].
  destruct (forallb is_ascii_hexdigit (ascii_bytes g)) eqn:Hh; [|done]. by intros [= <-].
Qed.

Section frames.
  Context {W : Type} `{DaemonNet W, BodyText, StatusLine, UrlParse, UrlJoin, DaemonJson, Base64}.

(** C29: a frame the daemon sealed for this client has a separate
    nonce exactly when it is not a TreeKEM frame, and its group id is 64 hexadecimal
    digits; so opening it never stops short of the daemon, and asks it with the frame's
    ciphertext, epoch and nonce as they are. *)
Theorem sealed_frames_well_formed (base : Url) (group_id : string) (plaintext : bytes) (f : EncryptedFrame) (w w' : W) :
  SecureGroups.encrypt base group_id plaintext w = (Ok f, w') ->
  frame_wf f = true /\ str_len group_id = 64 /\ forallb is_ascii_hexdigit (ascii_bytes group_id) = true /\
  forall base' sender w1,
    SecureGroups.decrypt base' group_id f sender w1 =
    let '(a, w2) := SecureGroups.call base' POST ("groups/" +:+ group_id +:+ "/secure/decrypt")
                      (Some (DecryptRequest (ef_ciphertext_b64 f) (ef_nonce_b64 f) (ef_secret_epoch f) sender)) w1 in
    (SecureGroups.payload_of a, w2).
Proof.
  unfold SecureGroups.encrypt. destruct (validate_group_id_hex group_id) as [g|] eqn:Hg; [|done].
  pose proof Hg as (-> & Hlen & Hhex)%group_id_checked.
  destruct (SecureGroups.call _ _ _ _ w) as [a w0]. intros [= Hf _].
  destruct (SecureGroups.success _ a) as [raw|]; [|done]. destruct (SecureGroups.json _ raw) as [resp|]; [|done].
  assert (frame_wf f = true) as Hwf.
  { revert Hf. unfold SecureGroups.frame_of, SecureGroups.require, SecureGroups.refuse_not_ok.
    destruct (er_ok resp); [|done]. destruct (er_ciphertext_b64 resp); [|done]. destruct (er_secret_epoch resp); [|done].
    case_bool_decide as Hp; [intros [= <-]|destruct (er_nonce_b64 resp); [|done]; intros [= <-]];
      unfold frame_wf, is_treekem; cbn [ef_plane ef_nonce_b64]; by case_bool_decide. }
  split_and!; [done..|]. intros base' sender w1. unfold SecureGroups.decrypt. rewrite Hg.
  unfold SecureGroups.call. destruct (url_join base' _) as [url|e]; [|done].
  apply Bool.eqb_prop in Hwf. rewrite Hwf. by destruct (ef_nonce_b64 f).
Qed.
End frames.

(** ** Witness *)

#[local] Existing Instance demo_base64.
#[local] Existing Instance demo_url.
#[local] Instance sealing_text : BodyText := fun _ => EmptyString.
#[local] Instance sealing_line : StatusLine := fun _ => EmptyString.
#[local] Instance sealing_join : UrlJoin := fun _ path => Ok path.
#[local] Instance sealing_net : DaemonNet unit :=
  {| dn_base _ := "http://h"%string; dn_rebase _ w := w; dn_port_file := None; dn_request _ _ _ w := (Answered 200 (Ok []), w) |}.
#[local] Instance sealing_json : DaemonJson :=
  {| parse_created _ := Err "x"%string;
     parse_encrypt _ := Ok {| er_ok := true; er_error := None; er_ciphertext_b64 := Some "c"%string; er_nonce_b64 := Some "n"%string;
                              er_secret_epoch := Some 2; er_secure_plane := None |};
     parse_decrypt _ := Err "x"%string; parse_ok _ := Err "x"%string; parse_policy _ := Err "x"%string;
     parse_self_status _ := Err "x"%string; parse_applied _ := Err "x"%string |}.
Definition sealing_base : Url :=
  {| url_scheme := "http"; url_host_str := None; url_port := None; url_username := EmptyString; url_password := None;
     url_path := EmptyString; url_query := None; url_fragment := None |}.

Lemma sealed_frames_well_formed_witness :
  exists f, SecureGroups.encrypt sealing_base (hex_encode (replicate 32 3)) [1] tt = (Ok f, tt) /\
    ef_nonce_b64 f = Some "n"%string /\ frame_wf f = true.
Proof.
  eexists. split; [vm_compute; reflexivity|]. split; [reflexivity|].
  eapply (sealed_frames_well_formed sealing_base (hex_encode (replicate 32 3)) [1] _ tt tt). vm_compute. reflexivity.
Defined.
