(* ===== verification/Singleflight.v ===== *)
(** * One membership probe at a time

    Models [crates/fetchit-chat/src/members_singleflight.rs]: concurrent callers asking
    for one group's roster share a single request.  A caller's progress is its [FlightPhase];
    a step is what one caller does between two points where another task can run, or the
    runtime dropping a caller that awaits.  Roster requests are an argument of the
    [Fetch] step. *)
From S2P Require Import Prelude SendState.
Open Scope rust_scope.

Definition SharedRoster : Type := result (list string) string.

Definition shared_to_result (shared : SharedRoster) : result (list string) ChatError :=
  match shared with
  | Ok roster => Ok roster
  | Err msg => Err (MessageTransport ("/members (singleflight): " +:+ msg))
  end.

(** What [publish_result] stores. *)
Definition shared_of `{ErrorDisplay} (r : result (list string) ChatError) : SharedRoster :=
  match r with Ok v => Ok v | Err e => Err (error_to_string e) end.

Definition leader_gone : result (list string) ChatError :=
  Err (MessageTransport "singleflight leader dropped without setting a result").

(** A leader runs down the first column, a waiter the second; [woken] is the pinned
    [Notified]. *)
Inductive FlightPhase :=
| Fetching (slot : nat)
| Fetched (slot : nat) (r : result (list string) ChatError)
| Published (slot : nat) (r : result (list string) ChatError)
| Notified (slot : nat) (r : result (list string) ChatError)
| Led (slot : nat) (r : result (list string) ChatError)
| Joined (slot : nat)
| Enabled (slot : nat) (woken : bool)
| Awaiting (slot : nat) (woken : bool)
| Waited (slot : nat) (r : result (list string) ChatError)
| Dropped.

(** [sf_next] is the next fresh [Inflight]. *)
Record Flights := mkFlights {
  sf_inflight : gmap string nat;
  sf_results : gmap nat SharedRoster;
  sf_callers : gmap nat (string * FlightPhase);
  sf_next : nat;
}.
Definition no_flights : Flights := mkFlights ∅ ∅ ∅ O.

Definition set_phase (c : nat) (k : string) (p : FlightPhase) (f : Flights) : Flights :=
  mkFlights (sf_inflight f) (sf_results f) (<[c := (k, p)]> (sf_callers f)) (sf_next f).

(** [notify_waiters]: every registered waiter of the slot. *)
Definition wake (slot : nat) (p : FlightPhase) : FlightPhase :=
  match p with
  | Enabled s w => Enabled s (w || bool_decide (s = slot))
  | Awaiting s w => Awaiting s (w || bool_decide (s = slot))
  | _ => p
  end.

Inductive FlightStep :=
| Enter (c : nat) (key : string)
| Fetch (c : nat) (r : result (list string) ChatError)
| Go (c : nat)
| Cancel (c : nat).

Section steps.
  Context `{ErrorDisplay}.

(** Claim leadership, or pick up the probe in flight. *)
Definition fetch_or_wait (c : nat) (key : string) (f : Flights) : Flights :=
  match sf_inflight f !! key with
  | Some slot => set_phase c key (Joined slot) f
  | None => mkFlights (<[key := sf_next f]> (sf_inflight f)) (sf_results f)
              (<[c := (key, Fetching (sf_next f))]> (sf_callers f)) (S (sf_next f))
  end.

Definition publish_result (c : nat) (k : string) (slot : nat) (r : result (list string) ChatError) (f : Flights) : Flights :=
  mkFlights (sf_inflight f) (<[slot := shared_of r]> (sf_results f)) (<[c := (k, Published slot r)]> (sf_callers f)) (sf_next f).

Definition notify_waiters (c : nat) (k : string) (slot : nat) (r : result (list string) ChatError) (f : Flights) : Flights :=
  mkFlights (sf_inflight f) (sf_results f) (<[c := (k, Notified slot r)]> (prod_map id (wake slot) <$> sf_callers f)) (sf_next f).

Definition remove_entry (c : nat) (k : string) (slot : nat) (r : result (list string) ChatError) (f : Flights) : Flights :=
  mkFlights (delete k (sf_inflight f)) (sf_results f) (<[c := (k, Led slot r)]> (sf_callers f)) (sf_next f).

(** The next thing the caller does by itself. *)
Definition go (c : nat) (k : string) (p : FlightPhase) (f : Flights) : option Flights :=
  match p with
  | Fetched slot r => Some (publish_result c k slot r f)
  | Published slot r => Some (notify_waiters c k slot r f)
  | Notified slot r => Some (remove_entry c k slot r f)
  | Joined slot => Some (set_phase c k (Enabled slot false) f)
  | Enabled slot w =>
      Some (set_phase c k (match sf_results f !! slot with
                           | Some shared => Waited slot (shared_to_result shared)
                           | None => Awaiting slot w
                           end) f)
  | Awaiting slot true =>
      Some (set_phase c k (Waited slot (match sf_results f !! slot with
                                        | Some shared => shared_to_result shared
                                        | None => leader_gone
                                        end)) f)
  | _ => None
  end.

(** Points where a caller's future can be dropped: it awaits the request, the lock or
    the notification. *)
Definition can_drop (p : FlightPhase) : bool :=
  match p with Fetching _ | Notified _ _ | Awaiting _ _ => true | _ => false end.

Definition flight_step (step : FlightStep) (f : Flights) : option Flights :=
  match step with
  | Enter c key => match sf_callers f !! c with None => Some (fetch_or_wait c key f) | Some _ => None end
  | Fetch c r =>
      match sf_callers f !! c with
      | Some (k, Fetching slot) => Some (set_phase c k (Fetched slot r) f)
      | _ => None
      end
  | Go c => match sf_callers f !! c with Some (k, p) => go c k p f | None => None end
  | Cancel c =>
      match sf_callers f !! c with
      | Some (k, p) => if can_drop p then Some (set_phase c k Dropped f) else None
      | None => None
      end
  end.

Fixpoint flight_run (steps : list FlightStep) (f : Flights) : option Flights :=
  match steps with
  | [] => Some f
  | step :: rest => f ← flight_step step f; flight_run rest f
  end.
End steps.

(** ** The invariant *)

(** The slot a leader works on, while its entry is in the map. *)
Definition leads (p : FlightPhase) : option nat :=
  match p with Fetching s | Fetched s _ | Published s _ | Notified s _ => Some s | _ => None end.
(** The slot a waiter holds. *)
Definition waits_on (p : FlightPhase) : option nat :=
  match p with Joined s | Enabled s _ | Awaiting s _ => Some s | _ => None end.
(** The slot's waiters have not been notified. *)
Definition before_notify (p : FlightPhase) : bool :=
  match p with Fetching _ | Fetched _ _ | Published _ _ => true | _ => false end.
Definition before_publish (p : FlightPhase) : bool :=
  match p with Fetching _ | Fetched _ _ => true | _ => false end.
(** The result a leader has published. *)
Definition published (p : FlightPhase) : option (nat * result (list string) ChatError) :=
  match p with Published s r | Notified s r | Led s r => Some (s, r) | _ => None end.

(** The notification reached this waiter. *)
Definition woken_on (p : FlightPhase) : option nat :=
  match p with Enabled s true | Awaiting s true => Some s | _ => None end.

Record flights_ok (f : Flights) : Prop := {
  fo_lead c k p s : sf_callers f !! c = Some (k, p) -> leads p = Some s -> sf_inflight f !! k = Some s;
  fo_one c1 c2 k1 k2 p1 p2 s : sf_callers f !! c1 = Some (k1, p1) -> sf_callers f !! c2 = Some (k2, p2) ->
    leads p1 = Some s -> leads p2 = Some s -> c1 = c2;
  fo_slot k s : sf_inflight f !! k = Some s -> (s < sf_next f)%nat;
  fo_key k1 k2 s : sf_inflight f !! k1 = Some s -> sf_inflight f !! k2 = Some s -> k1 = k2;
  fo_result s x : sf_results f !! s = Some x -> (s < sf_next f)%nat;
  fo_quiet c k p s : sf_callers f !! c = Some (k, p) -> before_publish p = true -> leads p = Some s -> sf_results f !! s = None;
  fo_woken c k p s : sf_callers f !! c = Some (k, p) -> woken_on p = Some s -> is_Some (sf_results f !! s);
}.

(** The callers after one of them moved, and all of a slot's waiters were woken. *)
Lemma callers_set c k p c' k' p' m :
  (<[c := (k, p)]> m : gmap nat (string * FlightPhase)) !! c' = Some (k', p') ->
  (c' = c /\ k' = k /\ p' = p) \/ (c' <> c /\ m !! c' = Some (k', p')).
Proof. rewrite lookup_insert_Some. intros [[<- [= <- <-]]|[? ?]]; [by left|by right]. Qed.

Lemma callers_wake slot c k p m :
  (prod_map id (wake slot) <$> m : gmap nat (string * FlightPhase)) !! c = Some (k, p) ->
  exists p0, m !! c = Some (k, p0) /\ p = wake slot p0.
Proof. rewrite lookup_fmap. destruct (m !! c) as [[k0 p0]|]; [|done]. intros [= <- <-]. by exists p0. Qed.

Lemma leads_wake slot p : leads (wake slot p) = leads p.
Proof. by destruct p. Qed.
Lemma before_publish_wake slot p : before_publish (wake slot p) = before_publish p.
Proof. by destruct p. Qed.
Lemma woken_wake slot p s : woken_on (wake slot p) = Some s -> woken_on p = Some s \/ s = slot.
Proof. destruct p as [| | | | | |s' [|]|s' [|]| |]; cbn; auto; case_bool_decide; cbn; intros [=]; subst; auto. Qed.

(** A caller moving to a phase that leads what it led, or nothing. *)
Lemma set_phase_ok c k p p' f :
  flights_ok f -> sf_callers f !! c = Some (k, p) -> (leads p' = leads p \/ leads p' = None) ->
  (before_publish p' = true -> before_publish p = true) ->
  (forall s, woken_on p' = Some s -> is_Some (sf_results f !! s)) ->
  flights_ok (set_phase c k p' f).
Proof.
  intros [] Hc Hl Hb Hw. split; cbn; try done.
  - intros c1 k1 p1 s [(-> & -> & ->)|[_ Hc1]]%callers_set Hs; [|by eapply fo_lead0].
    destruct Hl as [Hl|Hl]; [|congruence]. rewrite Hl in Hs. by eapply fo_lead0.
  - intros c1 c2 k1 k2 p1 p2 s [(-> & -> & ->)|[Hn1 H1]]%callers_set [(-> & -> & ->)|[Hn2 H2]]%callers_set Hs1 Hs2; [done| | |];
      destruct Hl as [Hl|Hl]; try congruence; rewrite ?Hl in *; eapply fo_one0; eauto.
  - intros c1 k1 p1 s [(-> & -> & ->)|[_ Hc1]]%callers_set Hbp Hs; [|by eapply fo_quiet0].
    destruct Hl as [Hl|Hl]; [|congruence]. rewrite Hl in Hs. eapply fo_quiet0; eauto.
  - intros c1 k1 p1 s [(-> & -> & ->)|[_ Hc1]]%callers_set Hs; [by apply Hw|by eapply fo_woken0].
Qed.

Section invariant.
  Context `{ErrorDisplay}.

Lemma enter_ok c key f : flights_ok f -> sf_callers f !! c = None -> flights_ok (fetch_or_wait c key f).
Proof.
  intros Hok Hc. pose proof Hok as []. unfold fetch_or_wait. destruct (sf_inflight f !! key) as [slot|] eqn:Hk.
  - split; cbn; try done.
    + intros c1 k1 p1 s [(-> & -> & ->)|[_ Hc1]]%callers_set Hs; [done|by eapply fo_lead0].
    + intros c1 c2 k1 k2 p1 p2 s [(-> & -> & ->)|[Hn1 H1]]%callers_set [(-> & -> & ->)|[Hn2 H2]]%callers_set Hs1 Hs2; try done.
      eapply fo_one0; eauto.
    + intros c1 k1 p1 s [(-> & -> & ->)|[_ Hc1]]%callers_set Hb Hs; [done|by eapply fo_quiet0].
    + intros c1 k1 p1 s [(-> & -> & ->)|[_ Hc1]]%callers_set Hs; [done|by eapply fo_woken0].
  - assert (forall s x, sf_results f !! s = Some x -> s <> sf_next f) as Hfresh by (intros s x Hx; apply fo_result0 in Hx; lia).
    split; cbn.
    + intros c1 k1 p1 s [(-> & -> & ->)|[_ Hc1]]%callers_set Hs; [injection Hs as <-; apply lookup_insert_eq|].
      pose proof (fo_lead0 _ _ _ _ Hc1 Hs) as Hin. rewrite lookup_insert_ne; [done|]. intros ->. congruence.
    + intros c1 c2 k1 k2 p1 p2 s [(-> & -> & ->)|[Hn1 H1]]%callers_set [(-> & -> & ->)|[Hn2 H2]]%callers_set Hs1 Hs2; [done| | |].
      * injection Hs1 as <-. pose proof (fo_slot0 _ _ (fo_lead0 _ _ _ _ H2 Hs2)). lia.
      * injection Hs2 as <-. pose proof (fo_slot0 _ _ (fo_lead0 _ _ _ _ H1 Hs1)). lia.
      * eapply fo_one0; eauto.
    + intros k s [[<- <-]|[_ Hin]]%lookup_insert_Some; [lia|]. apply fo_slot0 in Hin. lia.
    + intros k1 k2 s [[<- <-]|[? H1]]%lookup_insert_Some [[<- Heq]|[? H2]]%lookup_insert_Some; [done| | |by eapply fo_key0].
      * apply fo_slot0 in H2. lia.
      * subst s. apply fo_slot0 in H1. lia.
    + intros s x Hx. apply fo_result0 in Hx. lia.
    + intros c1 k1 p1 s [(-> & -> & ->)|[_ Hc1]]%callers_set Hb Hs; [|by eapply fo_quiet0].
      injection Hs as <-. destruct (sf_results f !! sf_next f) eqn:Hx; [|done]. by apply Hfresh in Hx.
    + intros c1 k1 p1 s [(-> & -> & ->)|[_ Hc1]]%callers_set Hs; [done|by eapply fo_woken0].
Qed.

Lemma publish_ok c k slot r f :
  flights_ok f -> sf_callers f !! c = Some (k, Fetched slot r) -> flights_ok (publish_result c k slot r f).
Proof.
  intros Hok Hc. pose proof (set_phase_ok c k (Fetched slot r) (Published slot r) f Hok Hc) as [];
    [by left|done|done|]. cbn in *. pose proof (fo_lead _ Hok _ _ _ _ Hc eq_refl) as Hin.
  split; cbn; try done.
  - intros s x [[<- <-]|[_ Hx]]%lookup_insert_Some; [by eapply fo_slot0|by eapply fo_result0].
  - intros c1 k1 p1 s Hc1 Hb Hs. rewrite lookup_insert_ne; [by eapply fo_quiet0|]. intros <-.
    assert (c1 = c) as -> by (eapply fo_one0; [exact Hc1|apply lookup_insert_eq|done|done]).
    rewrite lookup_insert_eq in Hc1. injection Hc1 as <- <-. done.
  - intros c1 k1 p1 s Hc1 Hs. destruct (decide (s = slot)) as [->|Hne]; [rewrite lookup_insert_eq; by eexists|].
    rewrite lookup_insert_ne by done. by eapply fo_woken0.
Qed.

Lemma notify_ok c k slot r f :
  flights_ok f -> sf_callers f !! c = Some (k, Published slot r) -> is_Some (sf_results f !! slot) ->
  flights_ok (notify_waiters c k slot r f).
Proof.
  intros [] Hc Hr. split; cbn; try done.
  - intros c1 k1 p1 s [(-> & -> & ->)|[_ (p0 & Hc1 & ->)%callers_wake]]%callers_set; [intros [= <-]; by eapply fo_lead0|].
    rewrite leads_wake. by eapply fo_lead0.
  - intros c1 c2 k1 k2 p1 p2 s [(-> & -> & ->)|[Hn1 (q1 & H1 & ->)%callers_wake]]%callers_set
      [(-> & -> & ->)|[Hn2 (q2 & H2 & ->)%callers_wake]]%callers_set; rewrite ?leads_wake; intros Hs1 Hs2; [done| | |].
    + by apply (fo_one0 c c2 k k2 (Published slot r) q2 s).
    + by apply (fo_one0 c1 c k1 k q1 (Published slot r) s).
    + by apply (fo_one0 c1 c2 k1 k2 q1 q2 s).
  - intros c1 k1 p1 s [(-> & -> & ->)|[_ (p0 & Hc1 & ->)%callers_wake]]%callers_set; [done|].
    rewrite before_publish_wake, leads_wake. by eapply fo_quiet0.
  - intros c1 k1 p1 s [(-> & -> & ->)|[_ (p0 & Hc1 & ->)%callers_wake]]%callers_set; [done|].
    intros [Hs| ->]%woken_wake; [by eapply fo_woken0|done].
Qed.

Lemma remove_ok c k slot r f :
  flights_ok f -> sf_callers f !! c = Some (k, Notified slot r) -> flights_ok (remove_entry c k slot r f).
Proof.
  intros Hok Hc. pose proof (set_phase_ok c k (Notified slot r) (Led slot r) f Hok Hc) as [];
    [by right|done|done|]. cbn in *. pose proof (fo_lead _ Hok _ _ _ _ Hc eq_refl) as Hin.
  split; cbn; try done.
  - intros c1 k1 p1 s Hc1 Hs. pose proof (fo_lead0 _ _ _ _ Hc1 Hs) as Hin1. rewrite lookup_delete_ne; [done|]. intros <-.
    rewrite Hin in Hin1. injection Hin1 as <-. apply callers_set in Hc1 as [(-> & _ & ->)|[Hne Hc1]]; [done|].
    apply Hne. by eapply (fo_one _ Hok).
  - intros k1 s [_ Hk]%lookup_delete_Some. by eapply fo_slot0.
  - intros k1 k2 s [_ H1]%lookup_delete_Some [_ H2]%lookup_delete_Some. by eapply fo_key0.
Qed.
End invariant.

(** ** What the callers get *)

Section callers.
  Context `{ErrorDisplay}.

(** Whoever has the leader's result, or got it through the slot, has what was published. *)
Record flights_agree (f : Flights) : Prop := {
  fa_done c k p s r : sf_callers f !! c = Some (k, p) -> published p = Some (s, r) -> sf_results f !! s = Some (shared_of r);
  fa_waited c k s r : sf_callers f !! c = Some (k, Waited s r) -> exists x, sf_results f !! s = Some x /\ r = shared_to_result x;
}.

Lemma published_wake slot p : published (wake slot p) = published p.
Proof. by destruct p. Qed.

Lemma set_phase_agree c k p f :
  flights_agree f -> (forall s r, published p = Some (s, r) -> sf_results f !! s = Some (shared_of r)) ->
  (forall s r, p = Waited s r -> exists x, sf_results f !! s = Some x /\ r = shared_to_result x) ->
  flights_agree (set_phase c k p f).
Proof.
  intros [] Hp Hw. split; cbn.
  - intros c1 k1 p1 s r [(-> & -> & ->)|[_ Hc]]%callers_set; [by apply Hp|by eapply fa_done0].
  - intros c1 k1 s r [(-> & -> & Heq)|[_ Hc]]%callers_set; [by apply Hw|by eapply fa_waited0].
Qed.

Lemma publish_agree c k slot r f :
  flights_ok f -> flights_agree f -> sf_callers f !! c = Some (k, Fetched slot r) -> flights_agree (publish_result c k slot r f).
Proof.
  intros Hok [] Hc. pose proof (fo_quiet _ Hok _ _ _ _ Hc eq_refl eq_refl) as Hnone. split; cbn.
  - intros c1 k1 p1 s r1 [(-> & -> & ->)|[_ Hc1]]%callers_set Hp; [injection Hp as <- <-; apply lookup_insert_eq|].
    pose proof (fa_done0 _ _ _ _ _ Hc1 Hp) as Hx. rewrite lookup_insert_ne; [done|]. intros <-. congruence.
  - intros c1 k1 s r1 [(-> & -> & [=])|[_ Hc1]]%callers_set. destruct (fa_waited0 _ _ _ _ Hc1) as (x & Hx & ->).
    exists x. split; [|done]. rewrite lookup_insert_ne; [done|]. intros <-. congruence.
Qed.

Lemma go_ok c k p f f' :
  flights_ok f -> flights_agree f -> sf_callers f !! c = Some (k, p) -> go c k p f = Some f' ->
  flights_ok f' /\ flights_agree f'.
Proof.
  intros Hok Hag Hc. destruct p as [| | | | | |s w|s [|]| |]; cbn [go]; intros [=]; subst f'.
  - split; [by apply publish_ok|by apply publish_agree].
  - pose proof (fa_done _ Hag _ _ _ _ _ Hc eq_refl) as Hx. split; [apply notify_ok; [done..|by eexists]|].
    destruct Hag. split; cbn.
    + intros c1 k1 p1 s r1 [(-> & -> & ->)|[_ (p0 & Hc1 & ->)%callers_wake]]%callers_set; [by intros [= <- <-]|].
      rewrite published_wake. by eapply fa_done0.
    + intros c1 k1 s r1 [(-> & -> & [=])|[_ (p0 & Hc1 & Hp)%callers_wake]]%callers_set. destruct p0; cbn in Hp; try done.
      injection Hp as <- <-. by eapply fa_waited0.
  - pose proof (fa_done _ Hag _ _ _ _ _ Hc eq_refl) as Hx. split; [by apply remove_ok|].
    destruct (set_phase_agree c k (Led slot r) f Hag); [by intros s r1 [= <- <-]|done|]. by split.
  - split; [eapply set_phase_ok; eauto; by right || done|by apply set_phase_agree].
  - destruct (sf_results f !! s) as [x|] eqn:Hx.
    + split; [eapply set_phase_ok; eauto; by right || done|]. apply set_phase_agree; [done..|]. intros s1 r1 [= <- <-]. eauto.
    + split; [|by apply set_phase_agree]. eapply set_phase_ok; eauto. intros s1 Hs1. apply (fo_woken _ Hok _ _ _ _ Hc).
      by destruct w.
  - destruct (fo_woken _ Hok _ _ _ _ Hc eq_refl) as [x Hx]. rewrite Hx.
    split; [eapply set_phase_ok; eauto; by right || done|]. apply set_phase_agree; [done..|]. intros s1 r1 [= <- <-]. eauto.
Qed.

Lemma flight_step_ok step f f' :
  flights_ok f -> flights_agree f -> flight_step step f = Some f' -> flights_ok f' /\ flights_agree f'.
Proof.
  intros Hok Hag. destruct step as [c key|c r|c|c]; cbn [flight_step].
  - destruct (sf_callers f !! c) eqn:Hc; [done|]. intros [= <-]. split; [by apply enter_ok|].
    destruct Hag. unfold fetch_or_wait. destruct (sf_inflight f !! key); split; cbn;
      try (intros c1 k1 p1 s r1 [(-> & -> & ->)|[_ Hc1]]%callers_set; [done|by eapply fa_done0]);
      intros c1 k1 s r1 [(-> & -> & [=])|[_ Hc1]]%callers_set; by eapply fa_waited0.
  - destruct (sf_callers f !! c) as [[k []]|] eqn:Hc; try done. intros [= <-]. split; [|by apply set_phase_agree].
    eapply set_phase_ok; eauto; try done; by left.
  - destruct (sf_callers f !! c) as [[k p]|] eqn:Hc; [|done]. by apply go_ok.
  - destruct (sf_callers f !! c) as [[k p]|] eqn:Hc; [|done]. destruct (can_drop p); [|done]. intros [= <-].
    split; [|by apply set_phase_agree]. eapply set_phase_ok; eauto; by right || done.
Qed.

Lemma no_flights_ok : flights_ok no_flights /\ flights_agree no_flights.
Proof.
  assert (forall c x, (∅ : gmap nat (string * FlightPhase)) !! c <> Some x) as H0 by (intros; by rewrite lookup_empty).
  split; split; cbn; intros; rewrite ?(lookup_empty (M := gmap string)), ?(lookup_empty (M := gmap nat)) in *; done.
Qed.

Lemma flight_run_ok steps f f' :
  flights_ok f -> flights_agree f -> flight_run steps f = Some f' -> flights_ok f' /\ flights_agree f'.
Proof.
  revert f. induction steps as [|step steps IH]; intros f Hok Hag; cbn [flight_run]; [by intros [= <-]|].
  destruct (flight_step step f) as [f1|] eqn:Hs; [|done]. cbn. apply flight_step_ok in Hs as [? ?]; [|done..]. by apply IH.
Qed.

(** Whatever callers come, go and are dropped, at most one request for
    a group's roster is under way at a time, and every caller that waited got the answer
    of the request it joined. *)
Theorem one_probe_shared (steps : list FlightStep) (f : Flights) :
  flight_run steps no_flights = Some f ->
  (forall c1 c2 k p1 p2, sf_callers f !! c1 = Some (k, p1) -> sf_callers f !! c2 = Some (k, p2) ->
     is_Some (leads p1) -> is_Some (leads p2) -> c1 = c2) /\
  (forall c l k kl s r p r0, sf_callers f !! c = Some (k, Waited s r) -> sf_callers f !! l = Some (kl, p) ->
     published p = Some (s, r0) -> r = shared_to_result (shared_of r0)).
Proof.
  intros Hrun. destruct no_flights_ok as [H0 H1]. apply flight_run_ok in Hrun as [Hok Hag]; [|done..]. split.
  - intros c1 c2 k p1 p2 Hc1 Hc2 [s1 Hs1] [s2 Hs2]. pose proof (fo_lead _ Hok _ _ _ _ Hc1 Hs1) as He1.
    pose proof (fo_lead _ Hok _ _ _ _ Hc2 Hs2) as He2. rewrite He1 in He2. injection He2 as <-. by eapply (fo_one _ Hok).
  - intros c l k kl s r p r0 Hc Hl Hp. destruct (fa_waited _ Hag _ _ _ _ Hc) as (x & Hx & ->).
    pose proof (fa_done _ Hag _ _ _ _ _ Hl Hp) as Hx'. congruence.
Qed.
End callers.

(** ** Nobody waits forever, unless a leader is dropped *)

Section progress.
  Context `{ErrorDisplay}.

Definition cancels (step : FlightStep) : bool := match step with Cancel _ => true | _ => false end.

(** Every entry has its leader; a waiter has a result to read or a leader yet to publish
    one, and an unwoken one a leader yet to notify it. *)
Record flights_live (f : Flights) : Prop := {
  fl_entry k s : sf_inflight f !! k = Some s -> exists l p, sf_callers f !! l = Some (k, p) /\ leads p = Some s;
  fl_wait c k p s : sf_callers f !! c = Some (k, p) -> waits_on p = Some s ->
    is_Some (sf_results f !! s) \/ exists l kl pl, sf_callers f !! l = Some (kl, pl) /\ leads pl = Some s /\ before_publish pl = true;
  fl_await c k s : sf_callers f !! c = Some (k, Awaiting s false) ->
    exists l kl pl, sf_callers f !! l = Some (kl, pl) /\ leads pl = Some s /\ before_notify pl = true;
}.

Lemma waits_wake slot p : waits_on (wake slot p) = waits_on p.
Proof. by destruct p. Qed.
Lemma notify_wake slot p : before_notify (wake slot p) = before_notify p.
Proof. by destruct p. Qed.

(** A caller that leads nothing, or stays before the same points, moves. *)
Lemma set_phase_live c k p p' f :
  flights_live f -> sf_callers f !! c = Some (k, p) ->
  (leads p = None \/ leads p' = leads p /\ before_publish p' = before_publish p /\ before_notify p' = before_notify p) ->
  (forall s, waits_on p' = Some s -> waits_on p = Some s) ->
  (forall s, p' = Awaiting s false -> sf_results f !! s = None) ->
  flights_live (set_phase c k p' f).
Proof.
  intros [] Hc Hl Hw Ha.
  assert (forall l kl pl s, sf_callers f !! l = Some (kl, pl) -> leads pl = Some s ->
    exists pl', sf_callers (set_phase c k p' f) !! l = Some (kl, pl') /\ leads pl' = Some s /\
      before_publish pl' = before_publish pl /\ before_notify pl' = before_notify pl) as Hkeep.
  { intros l kl pl s Hcl Hs. destruct (decide (l = c)) as [->|Hne]; [|exists pl; cbn; by rewrite lookup_insert_ne].
    rewrite Hc in Hcl. injection Hcl as <- <-. destruct Hl as [Hl|(Hl & Hb & Hn)]; [congruence|].
    exists p'. cbn. rewrite lookup_insert_eq. by rewrite Hl. }
  assert (forall c1 k1 p1 s, sf_callers (set_phase c k p' f) !! c1 = Some (k1, p1) -> waits_on p1 = Some s ->
    is_Some (sf_results f !! s) \/
    exists l kl pl, sf_callers (set_phase c k p' f) !! l = Some (kl, pl) /\ leads pl = Some s /\ before_publish pl = true) as Hwait.
  { intros c1 k1 p1 s Hc1 Hs. assert (exists k2 p2, sf_callers f !! c1 = Some (k2, p2) /\ waits_on p2 = Some s) as (k2 & p2 & H1 & H2).
    { apply callers_set in Hc1 as [(-> & -> & ->)|[_ Hc1]]; [exists k, p; split; [done|by apply Hw]|by exists k1, p1]. }
    destruct (fl_wait0 _ _ _ _ H1 H2) as [|(l & kl & pl & Hcl & Hls & Hb)]; [by left|right].
    destruct (Hkeep _ _ _ _ Hcl Hls) as (pl' & ? & ? & ? & ?). exists l, kl, pl'. by rewrite Hb in *. }
  split.
  - intros k1 s Hin. destruct (fl_entry0 _ _ Hin) as (l & pl & Hcl & Hs). destruct (Hkeep _ _ _ _ Hcl Hs) as (pl' & ? & ? & _). eauto.
  - exact Hwait.
  - intros c1 k1 s Hc1. pose proof Hc1 as Hc1'. apply callers_set in Hc1' as [(-> & -> & Heq)|[_ Hc1']].
    + destruct (Hwait c k (Awaiting s false) s Hc1 eq_refl) as [[x Hx]|(l & kl & pl & ? & ? & Hb)]; [|exists l, kl, pl; by destruct pl].
      rewrite (Ha s) in Hx; [done|by symmetry].
    + destruct (fl_await0 _ _ _ Hc1') as (l & kl & pl & Hcl & Hs & Hb). destruct (Hkeep _ _ _ _ Hcl Hs) as (pl' & ? & ? & ? & ?).
      exists l, kl, pl'. by rewrite Hb in *.
Qed.

Lemma enter_live c key f :
  flights_agree f -> flights_live f -> sf_callers f !! c = None -> flights_live (fetch_or_wait c key f).
Proof.
  intros Hag [] Hc. unfold fetch_or_wait.
  assert (forall (p' : FlightPhase) l kl pl, sf_callers f !! l = Some (kl, pl) -> (<[c := (key, p')]> (sf_callers f)) !! l = Some (kl, pl)) as Hkeep.
  { intros p' l kl pl Hl. rewrite lookup_insert_ne; [done|]. intros ->. congruence. }
  destruct (sf_inflight f !! key) as [slot|] eqn:Hk; split; cbn.
  - intros k s Hin. destruct (fl_entry0 _ _ Hin) as (l & p & Hl & Hs). exists l, p. eauto.
  - intros c1 k1 p1 s [(-> & -> & ->)|[_ Hc1]]%callers_set Hs.
    + injection Hs as <-. destruct (fl_entry0 _ _ Hk) as (l & p & Hl & Hs). destruct (before_publish p) eqn:Hb; [right; eauto 10|left].
      destruct p; try done; injection Hs as <-; rewrite (fa_done _ Hag _ _ _ _ _ Hl eq_refl); by eexists.
    + destruct (fl_wait0 _ _ _ _ Hc1 Hs) as [|(l & kl & pl & Hl & ? & ?)]; [by left|right; eauto 10].
  - intros c1 k1 s [(-> & -> & [=])|[_ Hc1]]%callers_set. destruct (fl_await0 _ _ _ Hc1) as (l & kl & pl & Hl & ? & ?). eauto 10.
  - intros k s [[<- <-]|[_ Hin]]%lookup_insert_Some; [exists c, (Fetching (sf_next f)); by rewrite lookup_insert_eq|].
    destruct (fl_entry0 _ _ Hin) as (l & p & Hl & Hs). exists l, p. eauto.
  - intros c1 k1 p1 s [(-> & -> & ->)|[_ Hc1]]%callers_set Hs; [done|].
    destruct (fl_wait0 _ _ _ _ Hc1 Hs) as [|(l & kl & pl & Hl & ? & ?)]; [by left|right; eauto 10].
  - intros c1 k1 s [(-> & -> & [=])|[_ Hc1]]%callers_set. destruct (fl_await0 _ _ _ Hc1) as (l & kl & pl & Hl & ? & ?). eauto 10.
Qed.

(** The leader of a slot moves on; others keep their places. *)
Lemma publish_live c k slot r f :
  flights_live f -> sf_callers f !! c = Some (k, Fetched slot r) -> flights_live (publish_result c k slot r f).
Proof.
  intros [] Hc. split; cbn.
  - intros k1 s Hin. destruct (fl_entry0 _ _ Hin) as (l & p & Hl & Hs). destruct (decide (l = c)) as [->|Hne].
    + exists c, (Published slot r). rewrite lookup_insert_eq. rewrite Hc in Hl. by injection Hl as <- <-.
    + exists l, p. by rewrite lookup_insert_ne.
  - intros c1 k1 p1 s [(-> & -> & ->)|[_ Hc1]]%callers_set Hs; [done|]. destruct (decide (s = slot)) as [->|Hne].
    { left. rewrite lookup_insert_eq. by eexists. }
    rewrite lookup_insert_ne by done. destruct (fl_wait0 _ _ _ _ Hc1 Hs) as [|(l & kl & pl & Hl & Hls & Hb)]; [by left|right].
    exists l, kl, pl. rewrite lookup_insert_ne; [done|]. intros ->. rewrite Hc in Hl. injection Hl as <- <-. cbn in Hls. congruence.
  - intros c1 k1 s [(-> & -> & [=])|[_ Hc1]]%callers_set. destruct (fl_await0 _ _ _ Hc1) as (l & kl & pl & Hl & Hls & Hb).
    destruct (decide (l = c)) as [->|Hne]; [|exists l, kl, pl; by rewrite lookup_insert_ne].
    exists c, k, (Published slot r). rewrite lookup_insert_eq. rewrite Hc in Hl. injection Hl as <- <-. by injection Hls as <-.
Qed.

Lemma notify_live c k slot r f :
  flights_live f -> sf_callers f !! c = Some (k, Published slot r) -> is_Some (sf_results f !! slot) ->
  flights_live (notify_waiters c k slot r f).
Proof.
  intros [] Hc Hr.
  assert (forall l kl pl, l <> c -> sf_callers f !! l = Some (kl, pl) ->
    (<[c := (k, Notified slot r)]> (prod_map id (wake slot) <$> sf_callers f)) !! l = Some (kl, wake slot pl)) as Hkeep.
  { intros l kl pl Hne Hl. rewrite lookup_insert_ne by done. rewrite lookup_fmap, Hl. done. }
  split; cbn.
  - intros k1 s Hin. destruct (fl_entry0 _ _ Hin) as (l & p & Hl & Hs). destruct (decide (l = c)) as [->|Hne].
    + exists c, (Notified slot r). rewrite lookup_insert_eq. rewrite Hc in Hl. by injection Hl as <- <-.
    + exists l, (wake slot p). rewrite leads_wake. by rewrite (Hkeep l k1 p).
  - intros c1 k1 p1 s [(-> & -> & ->)|[_ (p0 & Hc1 & ->)%callers_wake]]%callers_set Hs; [done|]. rewrite waits_wake in Hs.
    destruct (fl_wait0 _ _ _ _ Hc1 Hs) as [|(l & kl & pl & Hl & Hls & Hb)]; [by left|right].
    exists l, kl, (wake slot pl). rewrite leads_wake, before_publish_wake. split; [|done]. apply Hkeep; [|done].
    intros ->. rewrite Hc in Hl. by injection Hl as <- <-.
  - intros c1 k1 s [(-> & -> & [=])|[_ (p0 & Hc1 & Hp)%callers_wake]]%callers_set.
    assert (p0 = Awaiting s false /\ s <> slot) as [-> Hne].
    { destruct p0 as [| | | | | | |s0 [|]| |]; cbn in Hp; try done. injection Hp as <- Hw.
      split; [done|]. intros ->. by rewrite bool_decide_eq_true_2 in Hw. }
    destruct (fl_await0 _ _ _ Hc1) as (l & kl & pl & Hl & Hls & Hb). exists l, kl, (wake slot pl).
    rewrite leads_wake, notify_wake. split; [|done]. apply Hkeep; [|done]. intros ->. rewrite Hc in Hl. injection Hl as <- <-.
    cbn in Hls. congruence.
Qed.

Lemma remove_live c k slot r f :
  flights_ok f -> flights_live f -> sf_callers f !! c = Some (k, Notified slot r) -> flights_live (remove_entry c k slot r f).
Proof.
  intros Hok [] Hc. pose proof (fo_lead _ Hok _ _ _ _ Hc eq_refl) as Hin. split; cbn.
  - intros k1 s [Hne Hin1]%lookup_delete_Some. destruct (fl_entry0 _ _ Hin1) as (l & p & Hl & Hs). exists l, p.
    rewrite lookup_insert_ne; [done|]. intros ->. rewrite Hc in Hl. by injection Hl as <- <-.
  - intros c1 k1 p1 s [(-> & -> & ->)|[_ Hc1]]%callers_set Hs; [done|].
    destruct (fl_wait0 _ _ _ _ Hc1 Hs) as [|(l & kl & pl & Hl & Hls & Hb)]; [by left|right]. exists l, kl, pl.
    rewrite lookup_insert_ne; [done|]. intros ->. rewrite Hc in Hl. by injection Hl as <- <-.
  - intros c1 k1 s [(-> & -> & [=])|[_ Hc1]]%callers_set. destruct (fl_await0 _ _ _ Hc1) as (l & kl & pl & Hl & Hls & Hb).
    exists l, kl, pl. rewrite lookup_insert_ne; [done|]. intros ->. rewrite Hc in Hl. by injection Hl as <- <-.
Qed.

Lemma step_live step f f' :
  flights_ok f -> flights_agree f -> flights_live f -> cancels step = false -> flight_step step f = Some f' -> flights_live f'.
Proof.
  intros Hok Hag Hlive Hnc. destruct step as [c key|c r|c|c]; cbn [flight_step]; [| | |done].
  - destruct (sf_callers f !! c) eqn:Hc; [done|]. intros [= <-]. by apply enter_live.
  - destruct (sf_callers f !! c) as [[k []]|] eqn:Hc; try done. intros [= <-]. eapply set_phase_live; eauto; done.
  - destruct (sf_callers f !! c) as [[k p]|] eqn:Hc; [|done].
    destruct p as [| | | | |s|s w|s [|]| |]; cbn [go]; intros [=]; subst f'.
    + by apply publish_live.
    + apply notify_live; [done..|]. rewrite (fa_done _ Hag _ _ _ _ _ Hc eq_refl). by eexists.
    + by apply remove_live.
    + eapply set_phase_live; eauto; done.
    + eapply set_phase_live; eauto; [by destruct (sf_results f !! s)|].
      intros s1. destruct (sf_results f !! s) eqn:Hx; [done|]. by intros [= <- _].
    + eapply set_phase_live; eauto; done.
Qed.

Lemma run_live steps f f' :
  flights_ok f -> flights_agree f -> flights_live f -> forallb (fun s => negb (cancels s)) steps = true ->
  flight_run steps f = Some f' -> flights_live f'.
Proof.
  revert f. induction steps as [|step steps IH]; intros f Hok Hag Hlive; cbn [flight_run forallb]; [by intros _ [= <-]|].
  intros [Hs Hrest]%andb_true_iff. apply negb_true_iff in Hs. destruct (flight_step step f) as [f1|] eqn:Hstep; [|done]. cbn.
  pose proof (flight_step_ok _ _ _ Hok Hag Hstep) as [? ?]. intros Hr. apply (IH f1); [done..|by apply (step_live step f)|done|done].
Qed.
End progress.

Section finish.
  Context `{ErrorDisplay}.

Definition finished (p : FlightPhase) : bool := match p with Led _ _ | Waited _ _ | Dropped => true | _ => false end.

Lemma run_app steps1 steps2 f f1 f2 :
  flight_run steps1 f = Some f1 -> flight_run steps2 f1 = Some f2 -> flight_run (steps1 ++ steps2) f = Some f2.
Proof.
  revert f. induction steps1 as [|s steps1 IH]; intros f; cbn [flight_run app]; [by intros [= ->]|].
  destruct (flight_step s f) as [f0|]; [|done]. cbn. apply IH.
Qed.

(** One caller moves by itself. *)
Lemma run_go c k p f f1 : sf_callers f !! c = Some (k, p) -> go c k p f = Some f1 -> flight_run [Go c] f = Some f1.
Proof. intros Hc Hg. cbn [flight_run flight_step]. rewrite Hc, Hg. done. Qed.

(** A leader can always be led to its end; the waiters keep their places, woken when
    their leader had not notified them yet. *)
Definition led_to_end (l : nat) (s : nat) (notify : bool) (f f' : Flights) : Prop :=
  (exists kl r, sf_callers f' !! l = Some (kl, Led s r)) /\ is_Some (sf_results f' !! s) /\
  forall c k p, c <> l -> sf_callers f !! c = Some (k, p) ->
    sf_callers f' !! c = Some (k, if notify then wake s p else p).

Lemma end_notified l k s r f :
  flights_agree f -> sf_callers f !! l = Some (k, Notified s r) ->
  exists f', flight_run [Go l] f = Some f' /\ led_to_end l s false f f'.
Proof.
  intros Hag Hl. eexists. split; [by eapply run_go|]. split; [exists k, r; cbn; apply lookup_insert_eq|].
  split; [cbn; rewrite (fa_done _ Hag _ _ _ _ _ Hl eq_refl); by eexists|]. intros c k1 p Hne Hc. cbn. by rewrite lookup_insert_ne.
Qed.

Lemma end_published l k s r f :
  flights_ok f -> flights_agree f -> sf_callers f !! l = Some (k, Published s r) ->
  exists f', flight_run [Go l; Go l] f = Some f' /\ led_to_end l s true f f'.
Proof.
  intros Hok Hag Hl. set (f1 := notify_waiters l k s r f).
  assert (flight_run [Go l] f = Some f1) as Hrun by by eapply run_go.
  assert (flights_agree f1) as Hag1 by (destruct (flight_run_ok _ _ _ Hok Hag Hrun); done).
  destruct (end_notified l k s r f1 Hag1) as (f' & Hrun' & Hled & Hres & Hoth); [cbn; apply lookup_insert_eq|].
  exists f'. split; [exact (run_app [Go l] [Go l] _ _ _ Hrun Hrun')|]. split; [done|]. split; [done|].
  intros c k1 p Hne Hc. rewrite (Hoth c k1 (wake s p)); [done..|]. cbn. rewrite lookup_insert_ne by done. by rewrite lookup_fmap, Hc.
Qed.

Lemma end_fetched l k s r f :
  flights_ok f -> flights_agree f -> sf_callers f !! l = Some (k, Fetched s r) ->
  exists f', flight_run [Go l; Go l; Go l] f = Some f' /\ led_to_end l s true f f'.
Proof.
  intros Hok Hag Hl. set (f1 := publish_result l k s r f).
  assert (flight_run [Go l] f = Some f1) as Hrun by by eapply run_go.
  destruct (flight_run_ok _ _ _ Hok Hag Hrun) as [Hok1 Hag1].
  destruct (end_published l k s r f1 Hok1 Hag1) as (f' & Hrun' & Hled & Hres & Hoth); [cbn; apply lookup_insert_eq|].
  exists f'. split; [exact (run_app [Go l] [Go l; Go l] _ _ _ Hrun Hrun')|]. split; [done|]. split; [done|].
  intros c k1 p Hne Hc. rewrite (Hoth c k1 p); [done..|]. cbn. by rewrite lookup_insert_ne.
Qed.

Lemma end_leader l k p s f :
  flights_ok f -> flights_agree f -> sf_callers f !! l = Some (k, p) -> leads p = Some s ->
  exists steps f', forallb (fun s => negb (cancels s)) steps = true /\ flight_run steps f = Some f' /\
    led_to_end l s (before_notify p) f f'.
Proof.
  intros Hok Hag Hl Hs. destruct p as [s0|s0 r|s0 r|s0 r| | | | | |]; try done; injection Hs as ->.
  - set (f1 := set_phase l k (Fetched s (Ok [])) f).
    assert (flight_run [Fetch l (Ok [])] f = Some f1) as Hrun by (cbn [flight_run flight_step]; by rewrite Hl).
    destruct (flight_run_ok _ _ _ Hok Hag Hrun) as [Hok1 Hag1].
    destruct (end_fetched l k s (Ok []) f1 Hok1 Hag1) as (f' & Hrun' & Hled & Hres & Hoth); [cbn; apply lookup_insert_eq|].
    exists [Fetch l (Ok []); Go l; Go l; Go l], f'. split; [done|].
    split; [exact (run_app [Fetch l (Ok [])] [Go l; Go l; Go l] _ _ _ Hrun Hrun')|]. split; [done|]. split; [done|].
    intros c k1 p Hne Hc. rewrite (Hoth c k1 p); [done..|]. cbn. by rewrite lookup_insert_ne.
  - destruct (end_fetched l k s r f Hok Hag Hl) as (f' & ? & ?). exists [Go l; Go l; Go l], f'. by split_and!.
  - destruct (end_published l k s r f Hok Hag Hl) as (f' & ? & ?). exists [Go l; Go l], f'. by split_and!.
  - destruct (end_notified l k s r f Hag Hl) as (f' & ? & ?). exists [Go l], f'. by split_and!.
Qed.

(** With a published result a waiter that is not blocked goes to its end. *)
Lemma end_waiter c k p s f :
  sf_callers f !! c = Some (k, p) -> waits_on p = Some s -> is_Some (sf_results f !! s) -> p <> Awaiting s false ->
  exists steps f' r, forallb (fun s => negb (cancels s)) steps = true /\ flight_run steps f = Some f' /\
    sf_callers f' !! c = Some (k, Waited s r).
Proof.
  intros Hc Hs [x Hx] Hne. destruct p as [| | | | |s0|s0 w|s0 [|]| |]; try done; injection Hs as ->; [| | |done].
  - exists [Go c; Go c]. do 2 eexists. split; [done|]. split.
    + cbn [flight_run flight_step]. rewrite Hc. cbn. rewrite lookup_insert_eq. cbn. by rewrite Hx.
    + cbn. by rewrite lookup_insert_eq.
  - exists [Go c]. do 2 eexists. split; [done|]. split.
    + cbn [flight_run flight_step]. rewrite Hc. cbn. by rewrite Hx.
    + cbn. by rewrite lookup_insert_eq.
  - exists [Go c]. do 2 eexists. split; [done|]. split.
    + cbn [flight_run flight_step]. rewrite Hc. cbn. by rewrite Hx.
    + cbn. by rewrite lookup_insert_eq.
Qed.

(** C30: as long as no caller is dropped, every caller that has not
    finished can be run to its result, by steps of the callers there are and an answer
    to the request under way; no wakeup is lost. *)
Theorem waiters_never_stranded (steps : list FlightStep) (f : Flights) (c : nat) (k : string) (p : FlightPhase) :
  flight_run steps no_flights = Some f -> forallb (fun s => negb (cancels s)) steps = true ->
  sf_callers f !! c = Some (k, p) ->
  exists more f' k' p', forallb (fun s => negb (cancels s)) more = true /\ flight_run more f = Some f' /\
    sf_callers f' !! c = Some (k', p') /\ finished p' = true.
Proof.
  intros Hrun Hnc Hc. destruct no_flights_ok as [H0 H1].
  assert (flights_live no_flights) as H2.
  { split; cbn; intros; rewrite ?(lookup_empty (M := gmap string)), ?(lookup_empty (M := gmap nat)) in *; done. }
  pose proof (run_live _ _ _ H0 H1 H2 Hnc Hrun) as Hlive. destruct (flight_run_ok _ _ _ H0 H1 Hrun) as [Hok Hag].
  destruct (finished p) eqn:Hfin; [by exists [], f, k, p|].
  destruct (leads p) as [s|] eqn:Hs.
  { destruct (end_leader c k p s f Hok Hag Hc Hs) as (more & f' & ? & ? & (kl & r & Hl) & _). by exists more, f', kl, (Led s r). }
  destruct (waits_on p) as [s|] eqn:Hw; [|by destruct p].
  assert (forall more f1 p1, forallb (fun s => negb (cancels s)) more = true -> flight_run more f = Some f1 ->
    sf_callers f1 !! c = Some (k, p1) -> waits_on p1 = Some s -> is_Some (sf_results f1 !! s) -> p1 <> Awaiting s false ->
    exists more f' k' p', forallb (fun s => negb (cancels s)) more = true /\ flight_run more f = Some f' /\
      sf_callers f' !! c = Some (k', p') /\ finished p' = true) as Hend.
  { intros more f1 p1 Hm Hr Hc1 Hw1 Hres Hne. destruct (end_waiter c k p1 s f1 Hc1 Hw1 Hres Hne) as (more2 & f2 & r & Hm2 & Hr2 & Hc2).
    exists (more ++ more2), f2, k, (Waited s r). split; [by rewrite forallb_app, Hm|]. split; [by eapply run_app|done]. }
  assert (p = Awaiting s false \/ p <> Awaiting s false) as [->|Hne].
  { destruct p as [| | | | | | |s0 [|]| |]; try by right. injection Hw as ->. by left. }
  - destruct (fl_await _ Hlive _ _ _ Hc) as (l & kl & pl & Hl & Hls & Hb).
    destruct (end_leader l kl pl s f Hok Hag Hl Hls) as (more & f1 & Hm & Hr & _ & Hres & Hoth). rewrite Hb in Hoth.
    eapply (Hend more f1 (Awaiting s true)); [done..| |done|done|done].
    rewrite (Hoth c k (Awaiting s false)); [cbn; by rewrite bool_decide_eq_true_2| |done]. intros ->. rewrite Hc in Hl. by injection Hl as <- <-.
  - destruct (fl_wait _ Hlive _ _ _ _ Hc Hw) as [Hres|(l & kl & pl & Hl & Hls & Hb)]; [by eapply (Hend [] f p)|].
    destruct (end_leader l kl pl s f Hok Hag Hl Hls) as (more & f1 & Hm & Hr & _ & Hres & Hoth).
    assert (before_notify pl = true) as Hbn by by destruct pl. rewrite Hbn in Hoth.
    eapply (Hend more f1 (wake s p)); [done..| |by rewrite waits_wake|done|].
    + apply Hoth; [|done]. intros ->. rewrite Hc in Hl. injection Hl as <- <-. congruence.
    + destruct p as [| | | | | | |s0 [|]| |]; try done. injection Hw as ->. done.
Qed.

(** The entry of [k] points to slot [s], nobody will publish there, and everyone who asks
    about [k] from now on waits unwoken on it. *)
Record stranded (k : string) (s : nat) (old : gset nat) (f : Flights) : Prop := {
  sr_entry : sf_inflight f !! k = Some s;
  sr_result : sf_results f !! s = None;
  sr_lead c kc p : sf_callers f !! c = Some (kc, p) -> leads p <> Some s;
  sr_late c p : sf_callers f !! c = Some (k, p) -> c ∉ old ->
    p = Joined s \/ p = Enabled s false \/ p = Awaiting s false \/ p = Dropped;
}.

Lemma set_phase_stranded c kc p' k s old f p :
  stranded k s old f -> sf_callers f !! c = Some (kc, p) -> (leads p' = leads p \/ leads p' = None) ->
  (kc = k -> c ∉ old -> p' = Joined s \/ p' = Enabled s false \/ p' = Awaiting s false \/ p' = Dropped) ->
  stranded k s old (set_phase c kc p' f).
Proof.
  intros [] Hc Hl Hp. split; cbn; try done.
  - intros c1 k1 p1 [(-> & -> & ->)|[_ Hc1]]%callers_set; [|by eapply sr_lead0].
    destruct Hl as [->| ->]; [by eapply sr_lead0|done].
  - intros c1 p1 [(-> & <- & ->)|[_ Hc1]]%callers_set Ho; [by apply Hp|by apply (sr_late0 c1)].
Qed.

Lemma go_stranded c kc p k s old f f' :
  flights_ok f -> stranded k s old f -> sf_callers f !! c = Some (kc, p) -> go c kc p f = Some f' -> stranded k s old f'.
Proof.
  intros Hok Hst Hc. pose proof Hst as [].
  assert (forall s', leads p = Some s' -> s' <> s /\ kc <> k) as Hother.
  { intros s' Hs'. assert (s' <> s) as Hne by (intros ->; by eapply sr_lead0). split; [done|]. intros ->.
    pose proof (fo_lead _ Hok _ _ _ _ Hc Hs'). congruence. }
  assert (kc = k -> c ∉ old -> p = Joined s \/ p = Enabled s false \/ p = Awaiting s false \/ p = Dropped) as Hlate
    by (intros -> Ho; by apply (sr_late0 c)).
  destruct p as [|s0 r|s0 r|s0 r| |s0|s0 w|s0 [|]| |]; cbn [go]; intros [=]; subst f'.
  - destruct (Hother s0 eq_refl) as [Hs Hk]. destruct (set_phase_stranded c kc (Published s0 r) k s old f (Fetched s0 r)) as [];
      [done..|by left|done|]. split; cbn in *; try done. by rewrite lookup_insert_ne.
  - destruct (Hother s0 eq_refl) as [Hs Hk]. split; cbn; try done.
    + intros c1 k1 p1 [(-> & -> & ->)|[_ (p0 & Hc1 & ->)%callers_wake]]%callers_set; [cbn; congruence|]. rewrite leads_wake. by eapply sr_lead0.
    + intros c1 p1 [(-> & Heq & ->)|[_ (p0 & Hc1 & ->)%callers_wake]]%callers_set Ho; [by subst|].
      destruct (sr_late0 _ _ Hc1 Ho) as [->|[->|[->| ->]]]; cbn; rewrite ?bool_decide_eq_false_2 by done; auto.
  - destruct (Hother s0 eq_refl) as [Hs Hk]. destruct (set_phase_stranded c kc (Led s0 r) k s old f (Notified s0 r)) as [];
      [done..|by right|done|]. split; cbn in *; try done. by rewrite lookup_delete_ne.
  - eapply set_phase_stranded; eauto. intros Hk Ho. destruct (Hlate Hk Ho) as [[= ->]|[|[|]]]; auto; done.
  - eapply set_phase_stranded; eauto; [by destruct (sf_results f !! s0); right|]. intros Hk Ho.
    destruct (Hlate Hk Ho) as [|[[= -> ->]|[|]]]; try done. rewrite sr_result0. auto.
  - eapply set_phase_stranded; eauto. intros Hk Ho. by destruct (Hlate Hk Ho) as [|[|[|]]].
Qed.

Lemma step_stranded step k s old f f' :
  flights_ok f -> stranded k s old f -> flight_step step f = Some f' -> stranded k s old f'.
Proof.
  intros Hok Hst. pose proof Hst as []. destruct step as [c key|c r|c|c]; cbn [flight_step].
  - destruct (sf_callers f !! c) eqn:Hc; [done|]. intros [= <-]. unfold fetch_or_wait.
    destruct (sf_inflight f !! key) as [slot|] eqn:Hk; split; cbn; try done.
    + intros c1 k1 p1 [(-> & -> & ->)|[_ Hc1]]%callers_set; [done|by eapply sr_lead0].
    + intros c1 p1 [(-> & <- & ->)|[_ Hc1]]%callers_set Ho; [|by apply (sr_late0 c1)]. rewrite sr_entry0 in Hk. injection Hk as ->. by left.
    + rewrite lookup_insert_ne; [done|]. congruence.
    + intros c1 k1 p1 [(-> & -> & ->)|[_ Hc1]]%callers_set; [|by eapply sr_lead0]. cbn. intros [= Heq].
      pose proof (fo_slot _ Hok _ _ sr_entry0). lia.
    + intros c1 p1 [(-> & <- & ->)|[_ Hc1]]%callers_set Ho; [congruence|by apply (sr_late0 c1)].
  - destruct (sf_callers f !! c) as [[kc []]|] eqn:Hc; try done. intros [= <-]. eapply set_phase_stranded; eauto.
    intros -> Ho. by destruct (sr_late0 _ _ Hc Ho) as [|[|[|]]].
  - destruct (sf_callers f !! c) as [[kc p]|] eqn:Hc; [|done]. by apply go_stranded.
  - destruct (sf_callers f !! c) as [[kc p]|] eqn:Hc; [|done]. destruct (can_drop p); [|done]. intros [= <-].
    eapply set_phase_stranded; eauto 6.
Qed.

Lemma run_stranded steps k s old f f' :
  flights_ok f -> flights_agree f -> stranded k s old f -> flight_run steps f = Some f' -> stranded k s old f'.
Proof.
  revert f. induction steps as [|step steps IH]; intros f Hok Hag Hst; cbn [flight_run]; [by intros [= <-]|].
  destruct (flight_step step f) as [f1|] eqn:Hs; [|done]. cbn. destruct (flight_step_ok _ _ _ Hok Hag Hs) as [Hok1 Hag1].
  apply (IH f1); [done..|]. by apply (step_stranded step k s old f).
Qed.

(** When the caller whose request is under way is dropped,
    no later caller for that group ever gets an answer, whatever happens: its entry
    stays in the map with nobody to publish a result or to wake anyone. *)
Theorem dropped_leader_strands_group (before after : list FlightStep) (f f1 f2 : Flights) (l c : nat) (k : string)
    (s : nat) (p : FlightPhase) :
  flight_run before no_flights = Some f -> sf_callers f !! l = Some (k, Fetching s) ->
  flight_step (Cancel l) f = Some f1 -> flight_run after f1 = Some f2 ->
  sf_callers f1 !! c = None -> sf_callers f2 !! c = Some (k, p) ->
  forall r s', p <> Waited s' r /\ p <> Led s' r.
Proof.
  intros Hb Hl Hcancel Hafter Hnew Hc r s'. destruct no_flights_ok as [H0 H1].
  destruct (flight_run_ok _ _ _ H0 H1 Hb) as [Hok Hag]. destruct (flight_step_ok _ _ _ Hok Hag Hcancel) as [Hok1 Hag1].
  assert (stranded k s (dom (sf_callers f1)) f1) as Hst.
  { cbn [flight_step] in Hcancel. rewrite Hl in Hcancel. injection Hcancel as <-. split; cbn.
    - by eapply (fo_lead _ Hok).
    - by eapply (fo_quiet _ Hok).
    - intros c1 k1 p1 [(-> & -> & ->)|[Hne Hc1]]%callers_set Hs; [done|]. apply Hne. by eapply (fo_one _ Hok).
    - intros c1 p1 Hc1 Ho. exfalso. apply Ho, elem_of_dom. by eexists. }
  pose proof (run_stranded _ _ _ _ _ _ Hok1 Hag1 Hst Hafter) as [].
  destruct (sr_late0 c p Hc) as [->|[->|[->| ->]]]; [by apply not_elem_of_dom|done..].
Qed.
End finish.

(** ** Witnesses *)

#[local] Instance flight_errors : ErrorDisplay := fun _ => "error"%string.

(** Two callers, one request; the second gets the first one's answer. *)
Definition two_callers : list FlightStep :=
  [Enter 1 "g"; Enter 2 "g"; Go 2; Go 2; Fetch 1 (Ok ["a"%string]); Go 1; Go 1; Go 2; Go 1].

Lemma one_probe_shared_witness :
  exists f, flight_run two_callers no_flights = Some f /\ sf_callers f !! 2%nat = Some ("g"%string, Waited 0 (Ok ["a"%string])) /\
    forall l kl p r0, sf_callers f !! l = Some (kl, p) -> published p = Some (0%nat, r0) -> Ok ["a"%string] = shared_to_result (shared_of r0).
Proof.
  assert (exists f, flight_run two_callers no_flights = Some f) as [f Hf] by by eexists.
  exists f. split; [done|]. assert (sf_callers f !! 2%nat = Some ("g"%string, Waited 0 (Ok ["a"%string]))) as Hc
    by (cbn in Hf; injection Hf as <-; reflexivity).
  split; [done|]. intros l kl p r0 Hl Hp. by eapply (proj2 (one_probe_shared two_callers f Hf)).
Defined.

Lemma waiters_never_stranded_witness :
  exists f more f' k' p', flight_run [Enter 1 "g"; Enter 2 "g"; Go 2; Go 2] no_flights = Some f /\
    sf_callers f !! 2%nat = Some ("g"%string, Awaiting 0 false) /\
    flight_run more f = Some f' /\ sf_callers f' !! 2%nat = Some (k', p') /\ finished p' = true.
Proof.
  assert (exists f, flight_run [Enter 1 "g"; Enter 2 "g"; Go 2; Go 2] no_flights = Some f) as [f Hf] by by eexists.
  assert (sf_callers f !! 2%nat = Some ("g"%string, Awaiting 0 false)) as Hc by (cbn in Hf; injection Hf as <-; reflexivity).
  destruct (waiters_never_stranded [Enter 1 "g"; Enter 2 "g"; Go 2; Go 2] f 2 "g" (Awaiting 0 false) Hf eq_refl Hc)
    as (more & f' & k' & p' & _ & Hr & Hc' & Hp). by exists f, more, f', k', p'.
Defined.

Lemma dropped_leader_strands_group_witness :
  exists f f2, flight_run [Enter 1 "g"; Cancel 1] no_flights = Some f /\ flight_run [Enter 2 "g"; Go 2; Go 2] f = Some f2 /\
    exists p, sf_callers f2 !! 2%nat = Some ("g"%string, p) /\ forall r s', p <> Waited s' r.
Proof.
  assert (exists f f1 f2, flight_run [Enter 1 "g"] no_flights = Some f /\ flight_step (Cancel 1) f = Some f1 /\
    flight_run [Enter 2 "g"; Go 2; Go 2] f1 = Some f2) as (f & f1 & f2 & Hf & Hf1 & Hf2) by (do 3 eexists; split_and!; reflexivity).
  exists f1, f2. split; [exact (run_app [Enter 1 "g"] [Cancel 1] _ _ _ Hf ltac:(cbn [flight_run]; by rewrite Hf1))|]. split; [done|].
  assert (sf_callers f !! 1%nat = Some ("g"%string, Fetching 0)) as Hl by (cbn in Hf; injection Hf as <-; reflexivity).
  cbn in Hf. injection Hf as <-. cbn in Hf1. injection Hf1 as <-. cbn in Hf2. injection Hf2 as <-.
  exists (Awaiting 0 false). split; [reflexivity|]. intros r s'.
  apply (dropped_leader_strands_group [Enter 1 "g"] [Enter 2 "g"; Go 2; Go 2] _ _ _ 1 2 "g" 0 (Awaiting 0 false) eq_refl Hl eq_refl eq_refl eq_refl eq_refl r s').
Defined.
