(* ===== verification/GroupMsg.v ===== *)
(** * Messages of private groups

    Models the group calls of [crates/fetchit-chat/src/messages.rs]: creating a group,
    sealing a message with the daemon and fanning it out, the retry of a stored copy,
    the choice between private and public groups, and the receive path with the lazy
    fetch of an unknown sender's key, the replay window and the gap ledger.  Also the
    plaintext format of [crates/fetchit-chat/src/conversation/types.rs].  Clock readings,
    fresh ids and file writes are the records [GroupSendIO] and [ReceiveIO]. *)
From stdpp Require Import pretty.
From S2P Require Import Prelude SendState Attachment Bubble OutboxStore Overlay SeqGap.
From S2P Require Import RelayProto RelayAuth Transit TransitSqlite PairRecord ShareUri RelayHttp DeviceFabric PairIndex.
From S2P Require Import Conversation ConvRegistry ContactCard Inbound Outbound Publish PendingJoin Pairing MultiHome DmLookup.
From S2P Require Import Endpoint DmSend Daemon.
Open Scope rust_scope.

(** ** The plaintext *)

Record GroupBodyV1 := mkGroupBody { gb_sender_name : option string; gb_body : string; gb_seq : option N }.

(** [serde_json] of the body; [String::from_utf8]. *)
Class GroupBodyJson := {
  print_group_body : GroupBodyV1 -> result bytes string;
  parse_group_body : bytes -> result GroupBodyV1 string;
  from_utf8 : bytes -> result string string;
}.

Definition GROUP_BODY_MAGIC : bytes := [0; 76; 73; 84; 71; 49; 0].

Definition encode_group_plaintext `{GroupBodyJson} (sender_name body : string) (seq : option N) : bytes :=
  let payload := mkGroupBody (if nonempty sender_name then Some sender_name else None) body seq in
  GROUP_BODY_MAGIC ++ match print_group_body payload with Ok b => b | Err _ => [] end.

Fixpoint strip_bytes (pre l : bytes) : option bytes :=
  match pre, l with
  | [], _ => Some l
  | p :: pre, b :: l => if p =? b then strip_bytes pre l else None
  | _, [] => None
  end.

(** The decoded body has the fields of [GroupBodyV1]. *)
Definition decode_group_plaintext `{GroupBodyJson} (plaintext : bytes) : result GroupBodyV1 string :=
  match strip_bytes GROUP_BODY_MAGIC plaintext with
  | Some rest => match parse_group_body rest with Ok p => Ok p | Err e => Err ("group payload json: " +:+ e) end
  | None => match from_utf8 plaintext with
            | Ok body => Ok (mkGroupBody None body None)
            | Err e => Err ("body utf8: " +:+ e)
            end
  end.

(** ** Envelopes *)

(** [postcard] of a frame. *)
Class FrameCodec := {
  frame_to_bytes : EncryptedFrame -> result bytes string;
  frame_from_bytes : bytes -> result EncryptedFrame string;
}.

Definition parse_group_id_hex (group_id_hex : string) : result bytes ChatError := decode_agent "group_id hex" group_id_hex.

Definition bytes_of (s : string) : bytes := ascii_bytes s.

Definition envelope_dedupe_bytes `{Sha256} (env : TransitEnvelope) : bytes :=
  take 16 (sha256 (bytes_of "lit/group/dedupe/v1" ++ [0] ++ e_sender_agent_id env ++ u64_be (e_timestamp_ms env)
                     ++ u32_be (e_epoch env) ++ e_ciphertext env)).

Definition derive_treekem_outer_nonce `{Sha256} (ciphertext_b64 : string) : bytes :=
  take 12 (sha256 (bytes_of "lit/group/treekem/outer-nonce/v1" ++ [0] ++ bytes_of ciphertext_b64)).

(** The nonce an envelope of this frame carries; [missing] is the caller's text. *)
Definition frame_nonce `{Sha256, Base64} (missing : string) (frame : EncryptedFrame) : result bytes ChatError :=
  if is_treekem frame then Ok (derive_treekem_outer_nonce (ef_ciphertext_b64 frame))
  else match ef_nonce_b64 frame with
       | None => Err (Invalid missing)
       | Some n => match b64_decode n with Some b => Ok b | None => Err (Invalid "frame nonce b64") end
       end.

Record GroupSendReceipt := { gsr_message_id : option string; gsr_delivered : bool }.

Record GapReport := { gap_sender : string; gap_missing : list N; gap_epoch : N }.
Inductive PrivateGroupReceive :=
| Persisted (entry : HistoryEntry) (gap : option GapReport)
| Replayed.

Definition NEG_CACHE_CAP : nat := 4096.
Definition NEG_CACHE_TTL : N := 60000.

(** What a group send takes from outside. *)
Record GroupSendIO := {
  gs_now : N; gs_message_id : string; gs_bubble_id : nat -> string;
  gs_shell_now : N; gs_persist : result unit ChatError;
}.
(** What a receive takes: the clock when the negative cache is asked and when it is
    written, the writes of the sender's card and stamp, the clock of a new shell, of
    the progress mark and of the gap ledger, the vault write. *)
Record ReceiveIO := {
  rx_ask : N; rx_note : N; rx_card : result unit ChatError; rx_mark : result unit ChatError;
  rx_shell_now : N; rx_now : N; rx_seq_now : N; rx_persist : result unit ChatError;
}.

Definition set_own_seq (v : N) (c : Conversation) : Conversation :=
  let '(mkConv g nm ms ep ky pk ro ca lr ai ts sn hi _ sw wp wi we wm rd) := c in
  mkConv g nm ms ep ky pk ro ca lr ai ts sn hi v sw wp wi we wm rd.

(** [eq_ignore_ascii_case] keys, first occurrence kept. *)
Fixpoint dedup_roster (seen : gset string) (roster : list string) : list string :=
  match roster with
  | [] => []
  | m :: rest =>
      let k := to_ascii_lowercase m in
      if decide (k ∈ seen) then dedup_roster seen rest else m :: dedup_roster ({[k]} ∪ seen) rest
  end.

(** Ask the daemon about each member but oneself; the first blocked one. *)
Fixpoint first_blocked (blocked : nat -> string -> bool) (local : string) (i : nat) (roster : list string) : option string :=
  match roster with
  | [] => None
  | m :: rest =>
      if eq_ignore_ascii_case m local then first_blocked blocked local i rest
      else if blocked i (to_ascii_lowercase m) then Some m
      else first_blocked blocked local (S i) rest
  end.

Section groups.
  Context `{Base64, Base64Url, Sha256, MlDsaBackend, UrlParse, UrlEdit, FormUrl, PairErrorDisplay, PairBodies}.
  Context `{EnvelopeCodec, AgentSigner, FrameCodec, GroupBodyJson, ErrorDisplay, StatusText}.
  Context `{VaultIO} `{HB : !HashIter string OutboxBubble}.
  Context `{BodyText, StatusLine, UrlJoin, DaemonJson, GroupsJson}.
  Context {W : Type} `{IpDisplay, RelayNet, HS : !RelayServer W, HN : !DaemonNet W}.
  Context (en : Endpoint W).

Definition daemon {A} (f : W -> result A ChatError * W) : M W A := let* r := on_net f in of_result r.

(** [secure_groups()?] and one call on it. *)
Definition secure {A} (f : Url -> W -> result A X0xdError * W) : M W A :=
  let* base := read (fun s => url_parse (dn_base (st_net s))) in
  match base with
  | None => fail (Invalid "x0xd base url")
  | Some base => let* r := on_net (f base) in
                 of_result (match r with Ok a => Ok a | Err e => Err (from_x0xd e) end)
  end.

Definition self_only_private_group_conversation (group_id_hex : string) (name : option string) (now : N) : Conversation :=
  mkConv group_id_hex name [local_member en] 0 (b64_encode (replicate 32 0)) [] RoleAdmin now now
    DEFAULT_AUTO_REKEY_INTERVAL_MS Confirmed ∅ [] 0 ∅ 0 0 0 0 0.

Definition create_private_group (name : string) (display_name : option string) (now : N) (io : result unit ChatError) : M W Group :=
  let* group := daemon (Groups.create_private name display_name) in
  let* _ := on_registry (save (self_only_private_group_conversation (gr_group_id group) (gr_name group) now) io) in
  ret group.

Definition build_private_group_envelope (frame : EncryptedFrame) (group_id_bytes : bytes) (now : N)
    : result TransitEnvelope ChatError :=
  let? ciphertext := to_invalid "postcard frame" (frame_to_bytes frame) in
  let? nonce := frame_nonce "legacy encrypt frame missing nonce_b64" frame in
  let? local := decode_agent "local agent_id hex" (own_agent en) in
  sign_envelope
    {| e_version := WIRE_VERSION; e_kind := PrivateGroupChat; e_group_id := Some group_id_bytes; e_tenant_id := None;
       e_sender_agent_id := local; e_sender_machine_id := en_machine_id en; e_timestamp_ms := now;
       e_epoch := ef_secret_epoch frame; e_ciphertext := ciphertext; e_nonce := nonce; e_kem_ciphertext := [];
       e_sender_signature := [] |}.

(** ** Sending *)

Definition group_out (group_id : string) (env : TransitEnvelope) : MultiHome.OutboundEnvelope :=
  {| oe_kind := OutGroup group_id; oe_from_machine_id := Some (en_machine_id en); oe_payload := [];
     oe_timestamp_ms := e_timestamp_ms env; oe_transit := Some env |}.

Record GroupFanout := { gf_first_err : option ChatError; gf_delivered : N; gf_attempted : N; gf_enqueued : N }.

Definition retry_bubble (group_id body message_id id member reason : string) (frame : bytes) (now : N) : OutboxBubble :=
  set_last_error (Some reason)
    (with_group {| g_group_id := group_id; g_envelope := frame; g_client_message_id := message_id |}
       (queued id member body now)).

(** One member; [i] counts the bubbles made. *)
Definition fan_member (group_id body : string) (env : TransitEnvelope) (sealed_frame : option bytes) (io : GroupSendIO)
    (member : string) (acc : GroupFanout) : M W GroupFanout :=
  if eq_ignore_ascii_case member (own_agent en) then ret acc
  else
    let attempted := gf_attempted acc + 1 in
    let* hints := read (fun s => resolve_hints_for en member (st_contacts s)) in
    let* sent := catch (hand_over en member (group_out group_id env) hints) in
    match sent with
    | Ok _ => ret {| gf_first_err := gf_first_err acc; gf_delivered := gf_delivered acc + 1;
                     gf_attempted := attempted; gf_enqueued := gf_enqueued acc |}
    | Err e =>
        let* sink := read (fun s => is_some (st_outbox s)) in
        let first_err := match gf_first_err acc with Some f => Some f | None => Some e end in
        match sealed_frame with
        | Some frame =>
            if sink then
              let* _ := on_outbox (upsert (retry_bubble group_id body (gs_message_id io)
                          (gs_bubble_id io (N.to_nat (gf_enqueued acc))) member (error_to_string e) frame (e_timestamp_ms env))) in
              ret {| gf_first_err := first_err; gf_delivered := gf_delivered acc; gf_attempted := attempted;
                     gf_enqueued := gf_enqueued acc + 1 |}
            else ret {| gf_first_err := first_err; gf_delivered := gf_delivered acc; gf_attempted := attempted;
                        gf_enqueued := gf_enqueued acc |}
        | None => ret {| gf_first_err := first_err; gf_delivered := gf_delivered acc; gf_attempted := attempted;
                         gf_enqueued := gf_enqueued acc |}
        end
    end.

Fixpoint fan_out (group_id body : string) (env : TransitEnvelope) (sealed_frame : option bytes) (io : GroupSendIO)
    (roster : list string) (acc : GroupFanout) : M W GroupFanout :=
  match roster with
  | [] => ret acc
  | m :: rest => let* acc := fan_member group_id body env sealed_frame io m acc in
                 fan_out group_id body env sealed_frame io rest acc
  end.

Definition persist_own_group_message (group_id : string) (entry : HistoryEntry) (sealed_seq : option N) (io : GroupSendIO)
    : M W unit :=
  let* _ := catch (on_registry (mutate_in_place_or_init group_id
    (self_only_private_group_conversation group_id None (gs_shell_now io))
    (fun conv =>
       let conv := push_history entry conv in
       (Persist tt, match sealed_seq with
                    | Some seq => set_own_seq (N.max (c_own_group_send_seq conv) seq) conv
                    | None => conv
                    end)) (gs_persist io))) in
  ret tt.

Definition own_row (body sender_name : string) (io : GroupSendIO) (state : SendState) (ts : N) : HistoryEntry :=
  {| h_sender_agent_id_hex := own_agent en; h_sender_name := Some sender_name; h_body := body; h_ts_ms := ts;
     h_message_id := gs_message_id io; h_attachment := None; h_delivered_at_ms := None; h_send_state := Some state;
     h_state_changed_at_ms := ts |}.

(** The counter sealed into the frame. *)
Definition next_send_seq (group_id : string) : M W (option N) :=
  let* conv := catch (on_registry (ConvRegistry.get group_id)) in
  ret (match conv with
       | Ok conv => Some ((match conv with Some c => c_own_group_send_seq c | None => 0 end + 1) mod 18446744073709551616)
       | Err _ => None
       end).

Definition send_private_group (group_id body sender_name : string) (io : GroupSendIO) : M W GroupSendReceipt :=
  if bool_decide (length (en_transports en) = O) then fail NoTransportAvailable
  else
    let* group_id_bytes := of_result (parse_group_id_hex group_id) in
    let* base := read (fun s => url_parse (dn_base (st_net s))) in
    match base with
    | None => fail (Invalid "x0xd base url")
    | Some base =>
        let* send_seq := next_send_seq group_id in
        let plaintext := encode_group_plaintext sender_name body send_seq in
        let* frame := on_net (SecureGroups.encrypt base group_id plaintext) in
        let* frame := of_result (match frame with Ok f => Ok f | Err e => Err (from_x0xd e) end) in
        let* env := of_result (build_private_group_envelope frame group_id_bytes (gs_now io)) in
        let* gid := of_result (group_id_parse group_id) in
        let* raw_roster := daemon (Groups.members gid) in
        let roster := dedup_roster ∅ raw_roster in
        match match en_denylist en with Some blocked => first_blocked blocked (own_agent en) O roster | None => None end with
        | Some m => fail (Denied m)
        | None =>
            let sealed_frame := match env_to_bytes env with Ok b => Some b | Err _ => None end in
            let* acc := fan_out group_id body env sealed_frame io roster
                          {| gf_first_err := None; gf_delivered := 0; gf_attempted := 0; gf_enqueued := 0 |} in
            if (gf_delivered acc =? 0) && (gf_enqueued acc =? 0) && (0 <? gf_attempted acc)
            then fail (default (MessageTransport "fanout: every recipient failed") (gf_first_err acc))
            else
              let state := if gf_delivered acc =? gf_attempted acc then Sent else Queued in
              let* _ := persist_own_group_message group_id (own_row body sender_name io state (e_timestamp_ms env)) send_seq io in
              ret {| gsr_message_id := Some (gs_message_id io);
                     gsr_delivered := (gf_attempted acc =? 0) || (0 <? gf_delivered acc) |}
        end
    end.

(** The retry driver's way to send a stored copy again. *)
Definition resend_group_bubble (peer group_id : string) (sealed_frame : bytes) : M W (option string) :=
  if bool_decide (length (en_transports en) = O) then fail NoTransportAvailable
  else
    let* env := of_result (group_resend_envelope env_from_bytes group_id sealed_frame (en_machine_id en)) in
    let* hints := read (fun s => resolve_hints_for en peer (st_contacts s)) in
    let* receipt := hand_over en peer env hints in
    ret (sr_message_id receipt).

Definition note_group_kind (group_id : string) (kind : GroupKind) : M W unit :=
  fun s => (Ok tt, mkStores (st_registry s) (st_contacts s) (st_marks s) (st_fabric s) (st_outbox s) (st_neg_cache s)
                     (<[group_id := kind]> (st_group_kinds s)) (st_net s) (st_trace s)).

Definition send_to_group (group_id body sender_name : string) (io : GroupSendIO) : M W GroupSendReceipt :=
  let* cached := read (fun s => st_group_kinds s !! group_id) in
  let* kind := match cached with
               | Some k => ret k
               | None =>
                   let* conf := secure (fun base => SecureGroups.get_group_confidentiality base group_id) in
                   let k := match conf with MlsEncrypted => Private | SignedPublic => Public end in
                   let* _ := note_group_kind group_id k in ret k
               end in
  match kind with
  | Private => send_private_group group_id body sender_name io
  | Public =>
      let* gid := of_result (group_id_parse group_id) in
      let* _ := daemon (Groups.send_public gid body) in
      ret {| gsr_message_id := None; gsr_delivered := true |}
  end.

(** ** Receiving *)

Definition on_cards {A} (f : Contacts -> Watermarks -> W -> result A ChatError * Contacts * Watermarks * W) : M W (result A ChatError) :=
  fun s => let '(r, cs, marks, w) := f (st_contacts s) (st_marks s) (st_net s) in
    (Ok r, mkStores (st_registry s) cs marks (st_fabric s) (st_outbox s) (st_neg_cache s) (st_group_kinds s) w (st_trace s)).

(** Entries younger than the limit. *)
Definition fresh_at (now t : N) : bool := now -| t <? NEG_CACHE_TTL.

Definition neg_note (sender : string) (now : N) (m : gmap string N) : gmap string N :=
  let m := filter (fun kv => fresh_at now kv.2 = true) m in
  if (size m <? NEG_CACHE_CAP)%nat then <[sender := now]> m else m.

Definition note_unresolved (sender : string) (now : N) : M W unit :=
  fun s => (Ok tt, mkStores (st_registry s) (st_contacts s) (st_marks s) (st_fabric s) (st_outbox s)
                     (neg_note sender now (st_neg_cache s)) (st_group_kinds s) (st_net s) (st_trace s)).

(** The sender's card, fetched from the relay when it lacks the key. *)
Definition sender_card (sender : string) (io : ReceiveIO) : M W (option StoredContactCard) :=
  let* card := read (fun s => card_load sender (st_contacts s)) in
  let* card := of_result card in
  let needs_resolve := match card with
                       | None => true
                       | Some c => negb (nonempty (default EmptyString (cc_agent_public_key_b64 c)))
                       end in
  if negb needs_resolve then ret card
  else
    let* fresh := read (fun s => match st_neg_cache s !! sender with Some t => fresh_at (rx_ask io) t | None => false end) in
    match (if fresh then None else u ← en_primary_relay_url en; url_parse u) with
    | None => ret card
    | Some relay =>
        let* resolved := on_cards (resolve_and_persist_member_card relay sender (rx_card io) (rx_mark io)) in
        match resolved with
        | Ok true => let* card := read (fun s => card_load sender (st_contacts s)) in of_result card
        | Ok false => let* _ := note_unresolved sender (rx_note io) in ret card
        | Err _ => ret card
        end
    end.

(** The key, the signature and the nonce of an envelope; its frame. *)
Definition check_group_envelope (env : TransitEnvelope) (card : option StoredContactCard) : result EncryptedFrame ChatError :=
  let sender := sender_hex env in
  let? stored_card := match card with
                      | Some c => Ok c
                      | None => Err (Invalid ("no card for envelope sender " +:+ String.substring 0 8 sender))
                      end in
  let? agent_pk_b64 := match cc_agent_public_key_b64 stored_card with
                       | Some k => Ok k
                       | None => Err (Invalid ("card for " +:+ String.substring 0 8 sender +:+ " has no ML-DSA pubkey"))
                       end in
  let? agent_pub := match b64_decode agent_pk_b64 with Some b => Ok b | None => Err (Invalid "card agent_public_key_b64") end in
  let? canonical := canonical_envelope_bytes env in
  let? _ := match ml_dsa_verify agent_pub (envelope_sign_input canonical) (e_sender_signature env) with
            | Ok _ => Ok tt
            | Err _ => Err (Invalid "envelope signature verify failed")
            end in
  if negb (len (e_nonce env) =? 12) then Err (Invalid "nonce length")
  else
    let? frame := to_invalid "postcard frame" (frame_from_bytes (e_ciphertext env)) in
    let? expected := frame_nonce "legacy frame missing nonce_b64" frame in
    if negb (bool_decide (expected = e_nonce env)) then Err (Invalid "envelope nonce vs frame nonce mismatch")
    else Ok frame.

Definition verify_group_membership (group_id_hex self_agent_id_hex : string) : M W unit :=
  let* gid := of_result (group_id_parse group_id_hex) in
  let* roster := daemon (Groups.members gid) in
  if existsb (fun m => eq_ignore_ascii_case m self_agent_id_hex) roster then ret tt
  else fail (Invalid ("not a member of group " +:+ String.substring 0 8 group_id_hex +:+ "; refusing to bootstrap conversation")).

Definition inbound_row (env : TransitEnvelope) (body : GroupBodyV1) : HistoryEntry :=
  {| h_sender_agent_id_hex := sender_hex env; h_sender_name := gb_sender_name body; h_body := gb_body body;
     h_ts_ms := e_timestamp_ms env; h_message_id := hex_encode (envelope_dedupe_bytes env); h_attachment := None;
     h_delivered_at_ms := None; h_send_state := None; h_state_changed_at_ms := 0 |}.

(** The locked update: replay check, row, progress mark, gap ledger. *)
Definition record_inbound (env : TransitEnvelope) (body : GroupBodyV1) (io : ReceiveIO) (conv : Conversation)
    : MutateAction (option (option GapReport)) * Conversation :=
  match check_and_record_nonce (sender_hex env) (e_nonce env) conv with
  | (true, conv) => (Skip None, conv)
  | (false, conv) =>
      let conv := push_history (inbound_row env body) conv in
      let conv := set_wedge (rx_now io) (rx_now io) (c_current_epoch conv) (c_wedge_max_stale_epoch conv) conv in
      match gb_seq body with
      | None => (Persist (Some None), conv)
      | Some seq =>
          let '(obs, conv) := record_group_seq (sender_hex env) seq (rx_seq_now io) conv in
          (Persist (Some (match obs with
                          | Gap missing => Some {| gap_sender := sender_hex env; gap_missing := missing; gap_epoch := e_epoch env |}
                          | _ => None
                          end)), conv)
      end
  end.

Definition receive_private_group_envelope (env : TransitEnvelope) (group_id_hex : string) (io : ReceiveIO)
    : M W PrivateGroupReceive :=
  let* card := sender_card (sender_hex env) io in
  let* frame := of_result (check_group_envelope env card) in
  let* plaintext := secure (fun base => SecureGroups.decrypt base group_id_hex frame (Some (sender_hex env))) in
  let* body := of_result (match decode_group_plaintext plaintext with Ok b => Ok b | Err e => Err (Invalid e) end) in
  let* known := on_registry (ConvRegistry.get group_id_hex) in
  let* _ := match known with None => verify_group_membership group_id_hex (own_agent en) | Some _ => ret tt end in
  let* outcome := on_registry (mutate_in_place_or_init group_id_hex
                    (self_only_private_group_conversation group_id_hex None (rx_shell_now io))
                    (record_inbound env body io) (rx_persist io)) in
  ret (match outcome with
       | Some gap => Persisted (inbound_row env body) gap
       | None => Replayed
       end).
End groups.

(** ** What a fan-out leaves *)

Section send_facts.
  Context `{Base64, Base64Url, Sha256, MlDsaBackend, UrlParse, UrlEdit, FormUrl, PairErrorDisplay, PairBodies}.
  Context `{EnvelopeCodec, AgentSigner, FrameCodec, GroupBodyJson, ErrorDisplay, StatusText}.
  Context `{VaultIO} `{HB : !HashIter string OutboxBubble}.
  Context `{BodyText, StatusLine, UrlJoin, DaemonJson, GroupsJson}.
  Context {W : Type} `{IpDisplay, RelayNet, HS : !RelayServer W, HN : !DaemonNet W}.
  Context (en : Endpoint W).

Definition others (roster : list string) : list string :=
  List.filter (fun m => negb (eq_ignore_ascii_case m (own_agent en))) roster.

(** [n] of the hand-overs were taken. *)
Definition taken (hs : list HandOver) : N := len (List.filter ho_taken hs).
Definition refused (hs : list HandOver) : N := len (List.filter (fun h => negb (ho_taken h)) hs).

Lemma taken_refused hs : taken hs + refused hs = len hs.
Proof. unfold taken, refused, len. induction hs as [|h hs IH]; cbn; [done|]. destruct (ho_taken h); cbn in *; lia. Qed.

(** A copy for [m] waits in the outbox, with this frame. *)
Definition waits (group_id message_id : string) (frame : bytes) (m : string) (o : option OutboxStore) : Prop :=
  exists store id b, o = Some store /\ inner store !! id = Some b /\ b_peer b = m /\ b_status b = Queued /\
    b_group b = Some {| g_group_id := group_id; g_envelope := frame; g_client_message_id := message_id |}.

(** Ids the send has not drawn yet name no bubble. *)
Definition ids_fresh (io : GroupSendIO) (from : N) (o : option OutboxStore) : Prop :=
  forall store i, o = Some store -> from <= i -> inner store !! gs_bubble_id io (N.to_nat i) = None.

(** The state of a fan-out between two points, with the hand-overs made. *)
Record fanned (group_id : string) (env : TransitEnvelope) (sealed : option bytes) (io : GroupSendIO) (roster : list string)
    (acc acc' : GroupFanout) (s s' : Stores W) (hs : list HandOver) : Prop := {
  fa_trace : st_trace s' = st_trace s ++ hs;
  fa_to : ho_to <$> hs = others roster;
  fa_env : Forall (fun h => ho_envelope h = group_out en group_id env) hs;
  fa_registry : st_registry s' = st_registry s;
  fa_sink : is_some (st_outbox s') = is_some (st_outbox s);
  fa_attempted : gf_attempted acc' = gf_attempted acc + len hs;
  fa_delivered : gf_delivered acc' = gf_delivered acc + taken hs;
  fa_enqueued : gf_enqueued acc' = gf_enqueued acc + (if is_some sealed && is_some (st_outbox s) then refused hs else 0);
  fa_idle : gf_enqueued acc' = gf_enqueued acc -> st_outbox s' = st_outbox s;
  fa_fresh : ids_fresh io (gf_enqueued acc') (st_outbox s');
  fa_waits : forall frame, sealed = Some frame -> is_some (st_outbox s) = true ->
    Forall (fun h => ho_taken h = false -> waits group_id (gs_message_id io) frame (ho_to h) (st_outbox s')) hs;
  fa_kept : forall mid frame m, waits group_id mid frame m (st_outbox s) -> waits group_id mid frame m (st_outbox s');
}.

Lemma on_outbox_run f s : on_outbox (W := W) f s =
  (Ok tt, mkStores (st_registry s) (st_contacts s) (st_marks s) (st_fabric s) (f <$> st_outbox s) (st_neg_cache s)
            (st_group_kinds s) (st_net s) (st_trace s)).
Proof. done. Qed.

(** A fresh bubble goes in without displacing another. *)
Lemma upsert_keeps group_id mid frame m b store :
  inner store !! b_id b = None -> waits group_id mid frame m (Some store) -> waits group_id mid frame m (Some (upsert b store)).
Proof.
  intros Hf (store' & id & b' & [= <-] & Hb & Hw). exists (upsert b store), id, b'. split; [done|].
  unfold upsert. rewrite flush_inner. cbn. rewrite lookup_insert_ne; [done|]. intros Heq. rewrite <- Heq in Hb. congruence.
Qed.

Lemma fan_member_spec group_id body env sealed io m acc s r s' :
  (forall i j, gs_bubble_id io i = gs_bubble_id io j -> i = j) -> ids_fresh io (gf_enqueued acc) (st_outbox s) ->
  fan_member en group_id body env sealed io m acc s = (r, s') ->
  exists acc' hs, r = Ok acc' /\ fanned group_id env sealed io [m] acc acc' s s' hs.
Proof.
  intros Hinj Hfresh. unfold fan_member. destruct (eq_ignore_ascii_case m (own_agent en)) eqn:Hself.
  { intros [= <- <-]. exists acc, []. split; [done|]. split; rewrite ?app_nil_r; try done.
    - unfold others. cbn. by rewrite Hself.
    - unfold len. cbn. lia.
    - unfold taken, len. cbn. lia.
    - unfold refused, len. cbn. destruct (_ && _); lia. }
  unfold bind at 1, read at 1. unfold bind at 1, catch at 1.
  destruct (hand_over en m _ _ s) as [sent s1] eqn:Hh.
  apply hand_over_spec in Hh as ([Hreg _ _ Hout _ _] & _ & Ht). set (h := mkHand _ _ _ _) in Ht.
  assert (ho_to <$> [h] = others [m]) as Hto by (unfold others; cbn; by rewrite Hself).
  destruct sent as [receipt|e].
  { intros [= <- <-]. eexists _, [h]. split; [done|]. split; try done; cbn.
    - by repeat constructor.
    - by rewrite Hout.
    - rewrite N.add_0_r || idtac. destruct (is_some sealed && _); unfold refused, len; cbn; lia.
    - by rewrite Hout.
    - intros frame _ _. by repeat constructor.
    - by rewrite Hout. }
  unfold bind at 1, read at 1. cbn iota beta.
  assert (fanned group_id env sealed io [m] acc
    {| gf_first_err := match gf_first_err acc with Some f => Some f | None => Some e end; gf_delivered := gf_delivered acc;
       gf_attempted := gf_attempted acc + 1; gf_enqueued := gf_enqueued acc |} s s1 [h] \/ is_some sealed && is_some (st_outbox s) = true) as Hplain.
  { destruct (is_some sealed && is_some (st_outbox s)) eqn:Hsink; [by right|left]. split; try done; cbn.
    - by repeat constructor.
    - by rewrite Hout.
    - unfold taken, len. cbn. lia.
    - rewrite Hsink. lia.
    - by rewrite Hout.
    - intros frame -> Hs. cbn in Hsink. congruence.
    - by rewrite Hout. }
  destruct sealed as [frame|].
  2:{ intros [= <- <-]. eexists _, [h]. split; [done|]. by destruct Hplain. }
  rewrite Hout. destruct (st_outbox s) as [store|] eqn:Hs; cbn [is_some].
  2:{ intros [= <- <-]. eexists _, [h]. split; [done|]. by destruct Hplain. }
  clear Hplain. unfold bind at 1. rewrite on_outbox_run, Hout. cbn [fmap option_fmap option_map].
  set (b := retry_bubble _ _ _ _ _ _ _ _). intros [= <- <-]. eexists _, [h]. split; [done|].
  assert (inner store !! b_id b = None) as Hb by by apply Hfresh.
  split; cbn; try done.
  - by repeat constructor.
  - by rewrite Hs.
  - unfold taken, len. cbn. lia.
  - rewrite Hs. cbn. unfold refused, len. cbn. lia.
  - lia.
  - intros store' i [= <-] Hi. unfold upsert. rewrite flush_inner. cbn. rewrite lookup_insert_ne.
    + apply Hfresh; [done|lia].
    + intros Heq%Hinj. lia.
  - intros f [= <-] _. repeat constructor. intros _. exists (upsert b store), (b_id b), b. unfold upsert. rewrite flush_inner.
    cbn. by rewrite lookup_insert_eq.
  - rewrite Hs. intros mid f m' Hw. by apply upsert_keeps.
Qed.

Lemma fanned_app group_id env sealed io r1 r2 acc1 acc2 acc3 s1 s2 s3 h1 h2 :
  fanned group_id env sealed io r1 acc1 acc2 s1 s2 h1 -> fanned group_id env sealed io r2 acc2 acc3 s2 s3 h2 ->
  fanned group_id env sealed io (r1 ++ r2) acc1 acc3 s1 s3 (h1 ++ h2).
Proof.
  intros [] []. assert (is_some sealed && is_some (st_outbox s2) = is_some sealed && is_some (st_outbox s1)) as Hsink by congruence.
  split.
  - rewrite fa_trace1, fa_trace0. by rewrite app_assoc.
  - rewrite fmap_app, fa_to0, fa_to1. unfold others. by rewrite List.filter_app.
  - by apply Forall_app.
  - congruence.
  - congruence.
  - rewrite fa_attempted1, fa_attempted0. unfold len. rewrite length_app. lia.
  - rewrite fa_delivered1, fa_delivered0. unfold taken, len. rewrite List.filter_app, length_app. lia.
  - rewrite fa_enqueued1, fa_enqueued0, Hsink. unfold refused, len. rewrite List.filter_app, length_app. destruct (_ && _); lia.
  - intros Heq. rewrite fa_idle1, fa_idle0; [done| |]; rewrite fa_enqueued1, fa_enqueued0, Hsink in *; destruct (_ && _); lia.
  - done.
  - intros frame Hs Ho. apply Forall_app. split; [|apply fa_waits1; [done|congruence]].
    eapply Forall_impl; [by apply fa_waits0|]. intros h Hh Ht. by apply fa_kept1, Hh.
  - intros mid frame m Hw. by apply fa_kept1, fa_kept0.
Qed.

Lemma fan_out_spec group_id body env sealed io roster acc s r s' :
  (forall i j, gs_bubble_id io i = gs_bubble_id io j -> i = j) -> ids_fresh io (gf_enqueued acc) (st_outbox s) ->
  fan_out en group_id body env sealed io roster acc s = (r, s') ->
  exists acc' hs, r = Ok acc' /\ fanned group_id env sealed io roster acc acc' s s' hs.
Proof.
  intros Hinj. revert acc s. induction roster as [|m roster IH]; intros acc s Hfresh; cbn [fan_out].
  { intros [= <- <-]. exists acc, []. split; [done|]. split; rewrite ?app_nil_r; try done.
    - unfold len. cbn. lia.
    - unfold taken, len. cbn. lia.
    - unfold refused, len. cbn. destruct (_ && _); lia. }
  unfold bind at 1. destruct (fan_member en _ _ _ _ _ _ acc s) as [r1 s1] eqn:Hm.
  apply fan_member_spec in Hm as (acc1 & h1 & -> & Hf1); [|done..]. intros Hr.
  apply IH in Hr as (acc2 & h2 & -> & Hf2); [|apply Hf1]. exists acc2, (h1 ++ h2). split; [done|].
  change (m :: roster) with ([m] ++ roster). by eapply fanned_app.
Qed.
End send_facts.

Section accounts.
  Context `{Base64, Base64Url, Sha256, MlDsaBackend, UrlParse, UrlEdit, FormUrl, PairErrorDisplay, PairBodies}.
  Context `{EnvelopeCodec, AgentSigner, FrameCodec, GroupBodyJson, ErrorDisplay, StatusText}.
  Context `{VaultIO} `{HB : !HashIter string OutboxBubble}.
  Context `{BodyText, StatusLine, UrlJoin, DaemonJson, GroupsJson}.
  Context {W : Type} `{IpDisplay, RelayNet, HS : !RelayServer W, HN : !DaemonNet W}.
  Context (en : Endpoint W).

Lemma get_unrecorded mid g r : unrecorded mid r -> unrecorded mid (ConvRegistry.get g r).2.
Proof.
  intros Hu. unfold ConvRegistry.get, get_lookup, get_read. destruct (cache r !! g); [done|].
  destruct (disk r !! g) as [[c|]|] eqn:Hd; [|done..]. intros c' [[g' Hg]|Hg]; [|by apply Hu; right]. cbn in Hg.
  apply lookup_insert_Some in Hg as [[_ <-]|[_ Hg]]; apply Hu; [right; by exists g|left; by exists g'].
Qed.

Lemma eq_ignore_trans a b c : eq_ignore_ascii_case a b = true -> eq_ignore_ascii_case b c = eq_ignore_ascii_case a c.
Proof. unfold eq_ignore_ascii_case. by intros ->%String.eqb_eq. Qed.

Lemma eq_ignore_refl a : eq_ignore_ascii_case a a = true.
Proof. apply String.eqb_refl. Qed.

(** Dropping repeats keeps every member under some spelling. *)
Lemma dedup_roster_complete seen roster m :
  m ∈ roster -> to_ascii_lowercase m ∉ seen ->
  exists m', m' ∈ dedup_roster seen roster /\ eq_ignore_ascii_case m' m = true.
Proof.
  revert seen. induction roster as [|x roster IH]; intros seen Hm Hs; [by apply elem_of_nil in Hm|]. cbn [dedup_roster].
  apply elem_of_cons in Hm as [->|Hm].
  { rewrite decide_False by done. exists x. split; [by left|apply eq_ignore_refl]. }
  destruct (decide (to_ascii_lowercase x ∈ seen)); [by apply IH|].
  destruct (decide (to_ascii_lowercase m = to_ascii_lowercase x)) as [Heq|Hne].
  - exists x. split; [by left|]. unfold eq_ignore_ascii_case. rewrite Heq. apply String.eqb_refl.
  - destruct (IH ({[to_ascii_lowercase x]} ∪ seen)) as (m' & Hin & ?); [done|set_solver|]. exists m'. split; [by right|done].
Qed.

Lemma taken_all hs : taken hs = len hs <-> forallb ho_taken hs = true.
Proof.
  unfold taken, len. induction hs as [|h hs IH]; cbn [List.filter length forallb]; [done|].
  pose proof (filter_length_le ho_taken hs). destruct (ho_taken h); cbn [length andb]; [rewrite <- IH; lia|split; [lia|done]].
Qed.

Lemma taken_none hs : taken hs = 0 -> Forall (fun h => ho_taken h = false) hs.
Proof.
  unfold taken, len. induction hs as [|h hs IH]; cbn [List.filter]; [constructor|].
  destruct (ho_taken h) eqn:Ht; cbn [length]; [lia|]. intros Hz. constructor; [done|by apply IH].
Qed.

(** What is asked of the fresh ids of a send. *)
Definition fresh_ids (io : GroupSendIO) (s : Stores W) : Prop :=
  (forall i j, gs_bubble_id io i = gs_bubble_id io j -> i = j) /\ ids_fresh io 0 (st_outbox s) /\
  unrecorded (gs_message_id io) (st_registry s).

Lemma dedup_roster_sub seen roster m : m ∈ dedup_roster seen roster -> m ∈ roster.
Proof.
  revert seen. induction roster as [|x roster IH]; intros seen; cbn [dedup_roster]; [done|].
  destruct (decide _); [intros ?; right; by eapply IH|]. intros [->|?]%elem_of_cons; [by left|right; by eapply IH].
Qed.

(** The envelope of this message: the daemon's sealing of the name, the text and the
    next counter, as the endpoint signs it. *)
Definition sealed_as (group_id body name : string) (io : GroupSendIO) (s : Stores W) (env : TransitEnvelope) (w1 : W) : Prop :=
  exists gid base seq s0 frame, parse_group_id_hex group_id = Ok gid /\ url_parse (dn_base (st_net s)) = Some base /\
    next_send_seq (W := W) group_id s = (Ok seq, s0) /\
    SecureGroups.encrypt base group_id (encode_group_plaintext name body seq) (st_net s) = (Ok frame, w1) /\
    build_private_group_envelope en frame gid (gs_now io) = Ok env.

(** The row is in the group's history, in memory and on disk. *)
Definition group_row (group_id : string) (entry : HistoryEntry) (r : ConversationRegistry) : Prop :=
  exists c, cache r !! group_id = Some c /\ disk r !! group_id = Some (Ok c) /\ entry ∈ c_history c.

(** What a send leaves from the fan-out on: who was handed the envelope, the copies
    kept of it when the endpoint has an outbox and the envelope encodes, the row. *)
Definition fanned_out (group_id body name : string) (io : GroupSendIO) (env : TransitEnvelope) (raw : list string)
    (s s' : Stores W) (hs : list HandOver) (receipt : GroupSendReceipt) : Prop :=
  (forall m, m ∈ raw -> eq_ignore_ascii_case m (own_agent en) = false ->
     exists h, h ∈ hs /\ eq_ignore_ascii_case (ho_to h) m = true) /\
  (forall h, h ∈ hs -> ho_envelope h = group_out en group_id env /\ ho_to h ∈ raw /\
     eq_ignore_ascii_case (ho_to h) (own_agent en) = false) /\
  (if is_some (st_outbox s) && is_ok (env_to_bytes env)
   then forall h, h ∈ hs -> ho_taken h = false -> exists frame, env_from_bytes frame = Some env /\
          waits group_id (gs_message_id io) frame (ho_to h) (st_outbox s')
   else st_outbox s' = st_outbox s /\ (existsb ho_taken hs = true \/ hs = [])) /\
  (let row := own_row en body name io (if forallb ho_taken hs then Sent else Queued) (e_timestamp_ms env) in
   only_row (gs_message_id io) row (st_registry s') /\
   (is_ok (gs_persist io) = true -> (forall e, disk (st_registry s) !! group_id <> Some (Err e)) ->
    group_row group_id row (st_registry s'))) /\
  gsr_message_id receipt = Some (gs_message_id io) /\
  gsr_delivered receipt = bool_decide (hs = []) || existsb ho_taken hs.

Definition group_send_result (group_id body name : string) (io : GroupSendIO) (s s' : Stores W) (hs : list HandOver)
    (r : result GroupSendReceipt ChatError) : Prop :=
  match r with
  | Err _ => Forall (fun h => ho_taken h = false) hs /\ st_outbox s' = st_outbox s /\
             unrecorded (gs_message_id io) (st_registry s')
  | Ok receipt => exists env raw w1 w2, sealed_as group_id body name io s env w1 /\
      Groups.members group_id w1 = (Ok raw, w2) /\ fanned_out group_id body name io env raw s s' hs receipt
  end.

(** A locked update that enters a row leaves it there. *)
Lemma row_there {T} g entry init (f : Conversation -> MutateAction T * Conversation) r :
  (forall c, exists v c', f c = (Persist v, c') /\ c_history c' = c_history (push_history entry c)) ->
  (forall e, disk r !! g <> Some (Err e)) ->
  group_row g entry (mutate_in_place_impl g (Some init) f (Ok tt) r).2.
Proof.
  intros Hf Hd. unfold mutate_in_place_impl, group_row.
  assert (exists c r1, hydrate "mutate_in_place" g (Some init) r = Ok (c, r1)) as (c & r1 & ->).
  { unfold hydrate. destruct (cache r !! g); [by eauto|]. destruct (disk r !! g) as [[c|e]|] eqn:E; [by eauto| |by eauto].
    by destruct (Hd e). }
  destruct (Hf c) as (v & c' & -> & Hh). exists c'. cbn. rewrite !lookup_insert_eq. split_and!; [done..|].
  rewrite Hh. unfold push_history, set_history. cbn [c_history]. set_solver.
Qed.

Lemma next_seq_spec group_id (s s0 : Stores W) r :
  next_send_seq group_id s = (r, s0) ->
  exists seq, r = Ok seq /\ (forall mid, unrecorded mid (st_registry s) -> unrecorded mid (st_registry s0)) /\
    disk (st_registry s0) = disk (st_registry s) /\ st_net s0 = st_net s /\ st_trace s0 = st_trace s /\
    st_outbox s0 = st_outbox s.
Proof.
  unfold next_send_seq, bind at 1, catch at 1, on_registry at 1.
  pose proof (fun mid => get_unrecorded mid group_id (st_registry s)) as Hu.
  assert (disk (ConvRegistry.get group_id (st_registry s)).2 = disk (st_registry s)) as Hd.
  { unfold ConvRegistry.get, get_lookup, get_read. destruct (cache _ !! _); [done|]. by destruct (disk _ !! _) as [[]|]. }
  destruct (ConvRegistry.get group_id (st_registry s)) as [q r1]. intros [= <- <-]. by eexists.
Qed.

Lemma existsb_taken hs : existsb ho_taken hs = (0 <? taken hs).
Proof.
  unfold taken, len. induction hs as [|h hs IH]; [done|]. cbn [List.filter existsb].
  destruct (ho_taken h); cbn [length orb]; [symmetry; apply N.ltb_lt; lia|done].
Qed.

(** From the fan-out on. *)
Lemma fan_out_accounts group_id body name io seq env raw s s' r :
  fresh_ids io s ->
  (let* acc := fan_out en group_id body env (match env_to_bytes env with Ok b => Some b | Err _ => None end) io
                 (dedup_roster ∅ raw) {| gf_first_err := None; gf_delivered := 0; gf_attempted := 0; gf_enqueued := 0 |} in
   if (gf_delivered acc =? 0) && (gf_enqueued acc =? 0) && (0 <? gf_attempted acc)
   then fail (default (MessageTransport "fanout: every recipient failed") (gf_first_err acc))
   else
     let state := if gf_delivered acc =? gf_attempted acc then Sent else Queued in
     let* _ := persist_own_group_message en group_id (own_row en body name io state (e_timestamp_ms env)) seq io in
     ret {| gsr_message_id := Some (gs_message_id io);
            gsr_delivered := (gf_attempted acc =? 0) || (0 <? gf_delivered acc) |}) s = (r, s') ->
  exists hs, st_trace s' = st_trace s ++ hs /\
    match r with
    | Err _ => Forall (fun h => ho_taken h = false) hs /\ st_outbox s' = st_outbox s /\
               unrecorded (gs_message_id io) (st_registry s')
    | Ok receipt => fanned_out group_id body name io env raw s s' hs receipt
    end.
Proof.
  intros (Hinj & Hids & Hu). set (sealed := match env_to_bytes env with Ok b => Some b | Err _ => None end).
  set (acc0 := Build_GroupFanout None 0 0 0). unfold bind at 1.
  destruct (fan_out en _ _ _ _ _ _ _ s) as [q s1] eqn:Hf.
  apply fan_out_spec in Hf as (acc & hs & -> & Hf); [|done|by apply Hids].
  pose proof (fa_attempted _ _ _ _ _ _ _ _ _ _ _ Hf) as Ha. pose proof (fa_delivered _ _ _ _ _ _ _ _ _ _ _ Hf) as Hd.
  pose proof (fa_enqueued _ _ _ _ _ _ _ _ _ _ _ Hf) as Hq. pose proof (fa_registry _ _ _ _ _ _ _ _ _ _ _ Hf) as Hreg.
  assert (is_some sealed = is_ok (env_to_bytes env)) as Hsd by (subst sealed; by destruct (env_to_bytes env)).
  cbn [acc0 gf_attempted gf_delivered gf_enqueued] in Ha, Hd, Hq. rewrite N.add_0_l in Ha, Hd, Hq. rewrite Hsd, andb_comm in Hq.
  rewrite Ha, Hd. destruct ((taken hs =? 0) && (gf_enqueued acc =? 0) && (0 <? len hs)) eqn:Hall.
  { intros [= <- <-]. exists hs. split; [apply Hf|]. apply andb_true_iff in Hall as [[Ht%N.eqb_eq He%N.eqb_eq]%andb_true_iff _].
    split; [by apply taken_none|]. split; [by eapply (fa_idle _ _ _ _ _ _ _ _ _ _ _ Hf)|]. by rewrite Hreg. }
  set (state := if taken hs =? len hs then Sent else Queued).
  assert (state = if forallb ho_taken hs then Sent else Queued) as Hstate.
  { subst state. destruct (N.eqb_spec (taken hs) (len hs)) as [Ht|Ht]; rewrite taken_all in Ht; [by rewrite Ht|].
    by destruct (forallb ho_taken hs). }
  unfold persist_own_group_message. run_monad.
  assert (unrecorded (gs_message_id io) (st_registry s1)) as Hu1 by by rewrite Hreg.
  set (row := own_row en body name io state (e_timestamp_ms env)). unfold mutate_in_place_or_init.
  set (enter := fun conv => (Persist tt, match seq with
                  | Some seq => set_own_seq (N.max (c_own_group_send_seq (push_history row conv)) seq) (push_history row conv)
                  | None => push_history row conv end)).
  assert (forall c, c_history (enter c).2 = c_history (push_history row c)) as Hent by (intros c; by destruct seq).
  pose proof (enter_row_init (gs_message_id io) row group_id
    (Some (self_only_private_group_conversation en group_id None (gs_shell_now io))) enter
    (gs_persist io) _ eq_refl Hu1) as Hrow.
  specialize (Hrow ltac:(by intros c [= <-]) Hent).
  pose proof (row_there group_id row (self_only_private_group_conversation en group_id None (gs_shell_now io)) enter (st_registry s1)
    ltac:(intros c; eexists _, _; split; [done|apply Hent])) as Hthere.
  destruct (mutate_in_place_impl _ _ _ (gs_persist io) _) as [v r2] eqn:Hmut. intros [= <- <-]. exists hs. split; [apply Hf|].
  unfold fanned_out. cbn [st_outbox st_registry gsr_delivered gsr_message_id]. cbv zeta. rewrite <- Hstate, existsb_taken. fold row.
  split_and!; [| | |done| |done|].
  - intros m Hm Hself. destruct (dedup_roster_complete ∅ raw m) as (m' & Hin & Heq); [done|set_solver|].
    assert (m' ∈ others en (dedup_roster ∅ raw)) as Hin'.
    { apply elem_of_list_filter_bool. split; [|done]. apply negb_true_iff. by rewrite <- (eq_ignore_trans _ _ _ Heq). }
    rewrite <- (fa_to _ _ _ _ _ _ _ _ _ _ _ Hf) in Hin'. apply list_elem_of_fmap in Hin' as (h & -> & Hh). by exists h.
  - intros h Hh. split; [by apply (proj1 (Forall_forall _ _) (fa_env _ _ _ _ _ _ _ _ _ _ _ Hf))|].
    assert (ho_to h ∈ others en (dedup_roster ∅ raw)) as [Hs Hin]%elem_of_list_filter_bool.
    { rewrite <- (fa_to _ _ _ _ _ _ _ _ _ _ _ Hf). apply list_elem_of_fmap. by exists h. }
    split; [by eapply dedup_roster_sub|]. by apply negb_true_iff in Hs.
  - destruct (is_some (st_outbox s) && is_ok (env_to_bytes env)) eqn:Hkeep.
    { intros h Hh Ht. apply andb_true_iff in Hkeep as [Ho Hb].
      subst sealed. destruct (env_to_bytes env) as [b|] eqn:Hbytes; [|done]. exists b. split; [by apply env_codec_round_trip|].
      by apply (proj1 (Forall_forall _ _) (fa_waits _ _ _ _ _ _ _ _ _ _ _ Hf b eq_refl Ho)). }
    split; [by apply (fa_idle _ _ _ _ _ _ _ _ _ _ _ Hf)|]. rewrite Hq in Hall. destruct hs as [|h hs']; [by right|left]. clear -Hall.
    assert (0 <? len (h :: hs') = true) as Hl by (apply N.ltb_lt; unfold len; cbn [length]; lia). rewrite Hl, andb_true_r in Hall.
    destruct (N.eqb_spec (taken (h :: hs')) 0); [done|]. apply N.ltb_lt. lia.
  - intros Hp Hdisk. destruct (gs_persist io) as [[]|]; [|done]. rewrite Hmut in Hthere. apply Hthere. by rewrite Hreg.
  - f_equal. destruct hs as [|h hs']; [done|]. rewrite bool_decide_eq_false_2 by done. apply N.eqb_neq. unfold len. cbn. lia.
Qed.

(** C14: when a private group message is reported sent, every other member on the
    daemon's roster was handed the one envelope the daemon's sealing of this message
    was signed into, and nobody off the roster was; with an outbox that can keep
    copies, a queued copy of that envelope waits for every member no transport took it
    for, and without one the outbox is unchanged and at least one member was reached.
    The one history row, which says sent exactly when all hand-overs were taken, is in
    the group's history unless its write failed or the group's file was unreadable.
    When the send fails, no transport took a copy, none waits, and no history mentions
    it. *)
Theorem group_send_accounts_for_members (group_id body name : string) (io : GroupSendIO) (s s' : Stores W)
    (r : result GroupSendReceipt ChatError) :
  fresh_ids io s -> send_private_group en group_id body name io s = (r, s') ->
  exists hs, st_trace s' = st_trace s ++ hs /\ group_send_result group_id body name io s s' hs r.
Proof.
  intros Hfresh. assert (forall e s1, st_trace s1 = st_trace s -> st_outbox s1 = st_outbox s ->
    unrecorded (gs_message_id io) (st_registry s1) -> (Err e, s1) = (r, s') ->
    exists hs, st_trace s' = st_trace s ++ hs /\ group_send_result group_id body name io s s' hs r) as Hstop.
  { intros e s1 Ht Ho Hu [= <- <-]. exists []. rewrite app_nil_r. split; [done|]. by split; [constructor|]. }
  pose proof Hfresh as (Hinj & Hids & Hu). unfold send_private_group. destruct (bool_decide _); [by apply Hstop|].
  unfold bind at 1, of_result at 1. destruct (parse_group_id_hex group_id) as [gidb|] eqn:Hgb; [|by apply Hstop].
  unfold bind at 1, read at 1. destruct (url_parse _) as [base|] eqn:Hbase; [|by apply Hstop].
  unfold bind at 1. destruct (next_send_seq group_id s) as [sq s0] eqn:Hseq. pose proof Hseq as Hseq'.
  apply next_seq_spec in Hseq' as (seq & -> & Hu0 & Hd0 & Hn0 & Ht0 & Ho0).
  unfold bind at 1, on_net at 1. rewrite Hn0. destruct (SecureGroups.encrypt _ _ _ _) as [frame w1] eqn:Henc.
  unfold bind at 1, of_result at 1. destruct frame as [frame|]; [|apply Hstop; [done..|by apply Hu0]].
  unfold bind at 1, of_result at 1.
  destruct (build_private_group_envelope en frame gidb (gs_now io)) as [env|] eqn:Henv; [|apply Hstop; [done..|by apply Hu0]].
  unfold bind at 1, of_result at 1. destruct (group_id_parse group_id) as [gid|] eqn:Hgid; [|apply Hstop; [done..|by apply Hu0]].
  assert (gid = group_id) as ->.
  { revert Hgid. unfold group_id_parse. destruct (String.eqb group_id ""); [done|]. by destruct (negb _); intros [= <-]. }
  unfold bind at 1, daemon, bind at 1, on_net at 1, of_result at 1. cbn [st_net].
  destruct (Groups.members group_id w1) as [[raw|] w2] eqn:Hm; [|apply Hstop; [done..|by apply Hu0]].
  destruct (match en_denylist en with Some _ => _ | None => _ end); [apply Hstop; [done..|by apply Hu0]|]. intros Hr.
  eapply fan_out_accounts in Hr as (hs & Ht & Hres).
  2:{ split; [done|]. split; [by cbn; rewrite Ho0|by apply Hu0]. }
  exists hs. split; [rewrite Ht; cbn; by rewrite Ht0|]. destruct r as [receipt|e]; unfold fanned_out in *;
    cbn [st_outbox st_registry group_send_result] in *; rewrite ?Hd0, ?Ho0 in Hres; [|done].
  exists env, raw, w1, w2. split_and!; [|done|exact Hres]. exists gidb, base, seq, s0, frame. split_and!; [exact Hgb|exact Hbase|exact Hseq|exact Henc|exact Henv].
Qed.

End accounts.

(** ** What a receive does to the replay windows *)

(** The cache is a part of what is on disk, shells that were never written aside. *)
Definition nearly_synced (r : ConversationRegistry) : Prop :=
  forall g c, cache r !! g = Some c -> disk r !! g = Some (Ok c) \/ (disk r !! g = None /\ c_seen_nonces c = ∅).

(** Windows kept, and still nearly synced. *)
Definition calm (r r' : ConversationRegistry) : Prop :=
  nearly_synced r' /\ forall g s, window g s r' = window g s r.

Lemma window_of_nonces g s r c : effective g r = Some c -> window g s r = default [] (c_seen_nonces c !! s).
Proof. unfold window. by intros ->. Qed.

Lemma window_none g s r : effective g r = None -> window g s r = [].
Proof. unfold window. by intros ->. Qed.

Lemma cached_same g c r :
  nearly_synced r -> disk r !! g = Some (Ok c) \/ (disk r !! g = None /\ c_seen_nonces c = ∅) -> cache r !! g = None ->
  calm r (cache_insert g c r) /\ effective g (cache_insert g c r) = Some c.
Proof.
  intros Hn Hd Hc. assert (effective g (cache_insert g c r) = Some c) as He by (unfold effective; cbn; by rewrite lookup_insert_eq).
  split; [|done]. split.
  - intros g' c' Hg. cbn in Hg |- *. apply lookup_insert_Some in Hg as [[<- <-]|[_ Hg]]; [done|by apply Hn].
  - intros g' s. destruct (decide (g' = g)) as [->|Hne].
    + rewrite (window_of_nonces _ _ _ _ He). destruct Hd as [Hd|[Hd Hs]].
      * rewrite (window_of_nonces g s r c); [done|]. unfold effective. by rewrite Hc, Hd.
      * rewrite window_none; [by rewrite Hs, lookup_empty|]. unfold effective. by rewrite Hc, Hd.
    + unfold window, effective. cbn. by rewrite lookup_insert_ne.
Qed.

Lemma calm_refl r : nearly_synced r -> calm r r.
Proof. by split. Qed.

Lemma get_calm g r : nearly_synced r -> calm r (ConvRegistry.get g r).2.
Proof.
  intros Hn. unfold ConvRegistry.get, get_lookup, get_read. destruct (cache r !! g) eqn:Hc; [by apply calm_refl|].
  destruct (disk r !! g) as [[c|]|] eqn:Hd; [|by apply calm_refl..]. apply cached_same; auto.
Qed.

Lemma hydrate_calm who g init r c r1 :
  nearly_synced r -> (forall c, init = Some c -> c_seen_nonces c = ∅) -> hydrate who g init r = Ok (c, r1) ->
  calm r r1 /\ effective g r1 = Some c /\ cache r1 !! g = Some c.
Proof.
  intros Hn Hi. unfold hydrate. destruct (cache r !! g) as [c0|] eqn:Hc.
  { intros [= <- <-]. split; [by apply calm_refl|]. unfold effective. by rewrite Hc. }
  destruct (disk r !! g) as [[c0|]|] eqn:Hd; [|done|destruct init as [c0|]; [|done]]; intros [= <- <-];
    (destruct (cached_same g c0 r) as [Hk He]; [done|auto|done|]; split; [done|]; split; [done|]; cbn; by rewrite lookup_insert_eq).
Qed.

Lemma persist_windows {T} g c (v : T) r :
  nearly_synced r -> nearly_synced (persist g c v (Ok tt) r).2 /\ effective g (persist g c v (Ok tt) r).2 = Some c /\
  forall g' s, g' <> g -> window g' s (persist g c v (Ok tt) r).2 = window g' s r.
Proof.
  intros Hn. split; [|split].
  - intros g' c' Hg. cbn [cache disk snd persist] in Hg |- *. apply lookup_insert_Some in Hg as [[<- <-]|[Hne Hg]].
    + left. apply lookup_insert_eq.
    + rewrite !lookup_insert_ne by done. by apply Hn.
  - unfold effective. cbn. by rewrite lookup_insert_eq.
  - intros g' s Hne. unfold window, effective. cbn. by rewrite !lookup_insert_ne by done.
Qed.

(** Every window as before or one nonce later; the nonce of a row that was entered was new. *)
Definition recorded (g sender : string) (nonce : bytes) (r r' : ConversationRegistry) (entered : bool) : Prop :=
  nearly_synced r' /\
  (forall g' s, window g' s r' = window g' s r \/ exists n, window g' s r' = slide n (window g' s r)) /\
  (entered = true -> nonce ∉ window g sender r /\ window g sender r' = slide nonce (window g sender r)).

Lemma calm_recorded g sender nonce r r' : calm r r' -> recorded g sender nonce r r' false.
Proof. intros [Hn Hw]. split; [done|]. split; [by left|done]. Qed.

(** *** Direct envelopes on the same registry *)

(** Every window as before or one nonce later. *)
Definition drift (r r' : ConversationRegistry) : Prop :=
  nearly_synced r' /\ forall g s, window g s r' = window g s r \/ exists n, window g s r' = slide n (window g s r).
Lemma calm_drift r r' : calm r r' -> drift r r'.
Proof. intros [Hn Hw]. split; [done|]. intros g s. left. apply Hw. Qed.
Lemma drift_calm r1 r2 r3 : drift r1 r2 -> calm r2 r3 -> drift r1 r3.
Proof. intros [_ Hd] [Hn Hw]. split; [done|]. intros g s. rewrite Hw. apply Hd. Qed.
Lemma calm_then_drift r1 r2 r3 : calm r1 r2 -> drift r2 r3 -> drift r1 r3.
Proof. intros [_ Hw] [Hn Hd]. split; [done|]. intros g s. rewrite <- Hw. apply Hd. Qed.
Lemma calm_trans r1 r2 r3 : calm r1 r2 -> calm r2 r3 -> calm r1 r3.
Proof. intros [_ H1] [Hn H2]. split; [done|]. intros g s. by rewrite H2. Qed.

Lemma persist_calm {T} g c c' (v : T) io r :
  nearly_synced r -> effective g r = Some c -> c_seen_nonces c' = c_seen_nonces c -> calm r (persist g c' v io r).2.
Proof.
  intros Hn Hc Hs. destruct io as [[]|e]; [|by apply calm_refl]. destruct (persist_windows g c' v r Hn) as (Hn' & He & Ho).
  split; [done|]. intros g' s. destruct (decide (g' = g)) as [->|Hne]; [|by apply Ho].
  by rewrite (window_of_nonces _ _ _ _ He), (window_of_nonces _ _ _ _ Hc), Hs.
Qed.
Lemma mutate_calm {T} g (m : Conversation -> MutateAction T * Conversation) io r :
  nearly_synced r -> (forall c, c_seen_nonces (m c).2 = c_seen_nonces c) -> calm r (mutate_in_place g m io r).2.
Proof.
  intros Hn Hk. unfold mutate_in_place, mutate_in_place_impl.
  destruct (hydrate _ g None r) as [[c r1]|] eqn:Hh; [|by apply calm_refl]. apply hydrate_calm in Hh as (Hc & He & _); [|done|done].
  specialize (Hk c). destruct (m c) as [[v|v] c']; [|done]. eapply calm_trans; [done|]. by eapply persist_calm; [apply Hc| |].
Qed.
Lemma delivery_calm g id t io r : nearly_synced r -> calm r (record_delivery g id t io r).2.
Proof.
  intros Hn. unfold record_delivery. destruct (hydrate _ g None r) as [[c r1]|] eqn:Hh; [|by apply calm_refl].
  apply hydrate_calm in Hh as (Hc & He & _); [|done|done]. pose proof (receipt_keeps_nonces id t c) as Hk.
  destruct (apply_delivery_receipt id t c) as [[] c']; [|done]. eapply calm_trans; [done|]. by eapply persist_calm; [apply Hc| |].
Qed.
Lemma nonce_drift g s n io r : nearly_synced r -> drift r (record_nonce g s n io r).2.
Proof.
  intros Hn. unfold record_nonce. destruct (hydrate _ g None r) as [[c r1]|] eqn:Hh; [|by apply calm_drift, calm_refl].
  apply hydrate_calm in Hh as (Hc & He & _); [|done|done]. unfold check_and_record_nonce. case_bool_decide; [by apply calm_drift|].
  eapply calm_then_drift; [done|]. destruct io as [[]|e]; [|by apply calm_drift, calm_refl; apply Hc].
  match goal with |- drift _ (persist g ?c' _ _ _).2 => destruct (persist_windows g c' Recorded r1 (proj1 Hc)) as (Hn' & He' & Ho) end.
  split; [done|]. intros g' s'. destruct (decide (g' = g)) as [->|Hne]; [|left; by apply Ho].
  rewrite (window_of_nonces _ _ _ _ He'), (window_of_nonces _ _ _ _ He). cbn.
  destruct (decide (s' = s)) as [->|Hs]; [right; eexists; by rewrite lookup_insert_eq|left; by rewrite lookup_insert_ne].
Qed.
Lemma save_windows c io r : nearly_synced r -> nearly_synced (save c io r).2 /\
  forall g s, g <> c_group_id_hex c -> window g s (save c io r).2 = window g s r.
Proof.
  intros Hn. unfold save, save_seal. destruct io as [[]|e]; [|done]. cbn [snd]. split.
  - intros g' c'. cbn. rewrite lookup_insert_Some. intros [[<- <-]|[Hne Hg]]; [left; apply lookup_insert_eq|].
    rewrite lookup_insert_ne by done. by apply Hn.
  - intros g s Hne. unfold window, effective. cbn. by rewrite !lookup_insert_ne by done.
Qed.

(** The nonces of a conversation after the locked update. *)
Lemma record_inbound_nonces `{Sha256} env body io c a c' :
  record_inbound env body io c = (a, c') ->
  match a with
  | Skip o => o = None
  | Persist o => (exists gap, o = Some gap) /\ e_nonce env ∉ default [] (c_seen_nonces c !! sender_hex env) /\
      c_seen_nonces c' = <[sender_hex env := slide (e_nonce env) (default [] (c_seen_nonces c !! sender_hex env))]> (c_seen_nonces c)
  end.
Proof.
  unfold record_inbound, check_and_record_nonce. case_bool_decide as Hin; [by intros [= <- <-]|].
  destruct (gb_seq body) as [seq|].
  - unfold record_group_seq. destruct (record seq _ _) as [obs st]. intros [= <- <-]. split; [eauto|]. split; [done|]. done.
  - intros [= <- <-]. split; [eauto|]. by split.
Qed.

Section receive_facts.
  Context `{Base64, Base64Url, Sha256, MlDsaBackend, UrlParse, UrlEdit, FormUrl, PairErrorDisplay, PairBodies}.
  Context `{EnvelopeCodec, AgentSigner, FrameCodec, GroupBodyJson, ErrorDisplay, StatusText}.
  Context `{VaultIO} `{HB : !HashIter string OutboxBubble}.
  Context `{BodyText, StatusLine, UrlJoin, DaemonJson, GroupsJson}.
  Context {W : Type} `{IpDisplay, RelayNet, HS : !RelayServer W, HN : !DaemonNet W}.
  Context (en : Endpoint W).

Lemma locked_recorded g env body io shell r o r' :
  nearly_synced r -> c_seen_nonces shell = ∅ ->
  mutate_in_place_or_init g shell (record_inbound env body io) (rx_persist io) r = (o, r') ->
  recorded g (sender_hex env) (e_nonce env) r r' (match o with Ok (Some _) => true | _ => false end).
Proof.
  intros Hn Hs. unfold mutate_in_place_or_init, mutate_in_place_impl.
  destruct (hydrate _ g (Some shell) r) as [[c r1]|] eqn:Hh; [|intros [= <- <-]; by apply calm_recorded, calm_refl].
  apply hydrate_calm in Hh as (Hk & He & _); [|done|by intros ? [= <-]].
  destruct (record_inbound env body io c) as [a c'] eqn:Hr. apply record_inbound_nonces in Hr.
  destruct a as [v|v].
  2:{ subst v. intros [= <- <-]. by apply calm_recorded. }
  destruct Hr as ([gap ->] & Hnew & Hc'). destruct Hk as [Hn1 Hw1].
  destruct (rx_persist io) as [[]|e]; [|intros [= <- <-]; by apply calm_recorded].
  destruct (persist_windows g c' (Some gap) r1 Hn1) as (Hn2 & He2 & Hother).
  intros Hp. change (persist g c' (Some gap) (Ok tt) r1 = (o, r')) in Hp. rewrite Hp in Hn2, He2, Hother. cbn [snd] in *.
  assert (o = Ok (Some gap)) as -> by by injection Hp.
  assert (forall s, window g s r' = default [] (c_seen_nonces c' !! s)) as Hw2 by (intros s; by apply window_of_nonces).
  assert (forall s, window g s r = default [] (c_seen_nonces c !! s)) as Hw by (intros s; rewrite <- Hw1; by apply window_of_nonces).
  split; [done|]. split.
  - intros g' s. destruct (decide (g' = g)) as [->|Hne]; [|left; by rewrite Hother, Hw1].
    rewrite Hw2, Hc', Hw. destruct (decide (s = sender_hex env)) as [->|Hne].
    + right. eexists. by rewrite lookup_insert_eq.
    + left. by rewrite lookup_insert_ne.
  - intros _. rewrite Hw2, Hc', Hw, lookup_insert_eq. done.
Qed.

Lemma sender_card_registry sender io s r s' : sender_card en sender io s = (r, s') -> st_registry s' = st_registry s.
Proof.
  unfold sender_card. unfold bind at 1, read at 1, bind at 1, of_result at 1. destruct (card_load _ _) as [card|]; [|by intros [= _ <-]].
  destruct (negb _); [by intros [= _ <-]|]. unfold bind at 1, read at 1.
  match goal with |- context [match (if ?b then None else ?x) with Some _ => _ | None => _ end] => destruct (if b then None else x) as [relay|] end; [|by intros [= _ <-]].
  unfold bind at 1, on_cards. destruct (resolve_and_persist_member_card _ _ _ _ _ _ _) as [[[q cs] marks] w].
  destruct q as [[]|]; by intros [= _ <-].
Qed.

(** From the decoded body on. *)
Lemma enter_recorded env g body io s r s' :
  nearly_synced (st_registry s) ->
  (let* known := on_registry (ConvRegistry.get g) in
   let* _ := match known with None => verify_group_membership g (own_agent en) | Some _ => ret tt end in
   let* outcome := on_registry (mutate_in_place_or_init g (self_only_private_group_conversation en g None (rx_shell_now io))
                     (record_inbound env body io) (rx_persist io)) in
   ret (match outcome with Some gap => Persisted (inbound_row env body) gap | None => Replayed end)) s = (r, s') ->
  recorded g (sender_hex env) (e_nonce env) (st_registry s) (st_registry s') (match r with Ok (Persisted _ _) => true | _ => false end).
Proof.
  intros Hn. unfold bind at 1, on_registry at 1. pose proof (get_calm g _ Hn) as Hk.
  destruct (ConvRegistry.get g (st_registry s)) as [q r1]. cbn [snd] in Hk.
  destruct q as [known|e]; [|intros [= <- <-]; by apply calm_recorded]. unfold bind at 1.
  set (s1 := mkStores r1 _ _ _ _ _ _ _ _).
  assert (exists v s2, (match known with None => verify_group_membership g (own_agent en) | Some _ => ret tt end) s1 = (v, s2) /\
    st_registry s2 = r1) as (v & s2 & -> & Hr2).
  { destruct known; [by eexists _, _|]. unfold verify_group_membership, daemon. run_monad.
    destruct (group_id_parse g) as [gid|]; [|by eexists _, _]. cbn. destruct (Groups.members gid _) as [[roster|] w]; [|by eexists _, _].
    destruct (existsb _ roster); by eexists _, _. }
  destruct v as [v|e]; [|intros [= <- <-]; rewrite Hr2; by apply calm_recorded].
  unfold bind at 1, on_registry at 1. rewrite Hr2.
  destruct (mutate_in_place_or_init _ _ _ _ r1) as [o r3] eqn:Hm.
  apply locked_recorded in Hm as (Hn3 & Hw3 & He3); [|apply Hk|done]. destruct Hk as [_ Hk].
  assert (recorded g (sender_hex env) (e_nonce env) (st_registry s) r3 (match o with Ok (Some _) => true | _ => false end)) as Hrec.
  { split; [done|]. split; [intros g' s0; rewrite <- Hk; apply Hw3|]. rewrite <- Hk. exact He3. }
  destruct o as [[gap|]|e]; intros [= <- <-]; exact Hrec.
Qed.

Lemma receive_recorded env g io s r s' :
  nearly_synced (st_registry s) -> receive_private_group_envelope en env g io s = (r, s') ->
  recorded g (sender_hex env) (e_nonce env) (st_registry s) (st_registry s') (match r with Ok (Persisted _ _) => true | _ => false end).
Proof.
  intros Hn. unfold receive_private_group_envelope. unfold bind at 1.
  destruct (sender_card en _ io s) as [card s1] eqn:Hcard. apply sender_card_registry in Hcard. rewrite <- Hcard in *. clear Hcard.
  assert (forall (e : ChatError) s2, st_registry s2 = st_registry s1 -> (Err e, s2) = (r, s') ->
    recorded g (sender_hex env) (e_nonce env) (st_registry s1) (st_registry s') (match r with Ok (Persisted _ _) => true | _ => false end)) as Hstop.
  { intros e s2 Hs2 [= <- <-]. rewrite Hs2. by apply calm_recorded, calm_refl. }
  destruct card as [card|e]; [|by eapply Hstop]. unfold bind at 1, of_result at 1.
  destruct (check_group_envelope env card) as [frame|]; [|by eapply Hstop].
  unfold bind at 1, secure, bind at 1, read at 1. destruct (url_parse _) as [base|]; [|by eapply Hstop].
  unfold bind at 1, on_net at 1. destruct (SecureGroups.decrypt _ _ _ _ _) as [[pt|] w]; unfold of_result at 1; [|by eapply Hstop].
  unfold bind at 1, of_result at 1. destruct (decode_group_plaintext pt) as [body|]; [|by eapply Hstop].
  apply enter_recorded. exact Hn.
Qed.

(** ** A frame is shown once *)

(** The nonce is a function of the frame. *)
Lemma checked_nonce env card frame :
  check_group_envelope env card = Ok frame ->
  frame_from_bytes (e_ciphertext env) = Ok frame /\ exists m, frame_nonce m frame = Ok (e_nonce env).
Proof.
  unfold check_group_envelope, to_invalid. destruct card as [card|]; [|done].
  destruct (cc_agent_public_key_b64 card); [|done]. destruct (b64_decode _); [|done]. destruct (canonical_envelope_bytes env); [|done].
  destruct (ml_dsa_verify _ _ _); [|done]. destruct (negb (len _ =? 12)); [done|].
  destruct (frame_from_bytes _) as [f|]; [|done]. destruct (frame_nonce _ f) as [n|] eqn:Hf; [|done].
  destruct (bool_decide_reflect (n = e_nonce env)) as [->|]; [|done]. intros [= <-]. eauto.
Qed.

Lemma frame_nonce_unique m1 m2 frame n1 n2 : frame_nonce m1 frame = Ok n1 -> frame_nonce m2 frame = Ok n2 -> n1 = n2.
Proof. unfold frame_nonce. destruct (is_treekem frame); [congruence|]. destruct (ef_nonce_b64 frame); [|done]. destruct (b64_decode _); congruence. Qed.

Lemma receive_checked env g io s entry gap s' :
  receive_private_group_envelope en env g io s = (Ok (Persisted entry gap), s') ->
  exists card frame, check_group_envelope env card = Ok frame.
Proof.
  unfold receive_private_group_envelope. unfold bind at 1. destruct (sender_card en _ io s) as [[card|] s1]; [|done].
  unfold bind at 1, of_result at 1. destruct (check_group_envelope env card) as [frame|] eqn:Hc; [|done]. by exists card, frame.
Qed.

Section direct_facts.
  Context `{ChatCipher, PayloadJson}.

Lemma open_frame_drift env gid g io r : nearly_synced r -> drift r (open_frame env gid g io r).2.
Proof.
  intros Hn. unfold open_frame. pose proof (get_calm g r Hn) as Hg. destruct (ConvRegistry.get g r) as [[[conv|]|e] r1]; cbn [snd] in *;
    [|by apply calm_drift..].
  destruct (key_for_epoch _ _ _) as [[key|]|e]; [|eapply drift_calm; [by apply calm_drift|]; by apply mutate_calm; [apply Hg|]|by apply calm_drift].
  destruct (negb _); [by apply calm_drift|]. pose proof (nonce_drift g (sender_hex env) (e_nonce env) (io_nonce io) r1 (proj1 Hg)) as Hd.
  destruct (record_nonce _ _ _ _ r1) as [[[]|e] r2]; cbn [snd] in *; [|by eapply calm_then_drift..].
  destruct (aead_open _ _ _ _); cbn [snd]; (eapply drift_calm; [by eapply calm_then_drift|]); by apply mutate_calm; [apply Hd|].
Qed.

Lemma direct_frame_drift env gid g io st : nearly_synced (ib_registry st) ->
  drift (ib_registry st) (ib_registry (dispatch_receipt env gid g io st).2) /\
  drift (ib_registry st) (ib_registry (dispatch_message env gid g io st).2).
Proof.
  intros Hn. unfold dispatch_receipt, dispatch_message. pose proof (open_frame_drift env gid g io _ Hn) as Hd.
  destruct (open_frame _ _ _ _ _) as [[[d|pt]|e] r]; cbn [snd] in *; [done| |done]. split.
  - destruct (parse_receipt pt) as [payload|]; [|done]. eapply drift_calm; [done|].
    pose proof (delivery_calm g (drp_message_id payload) (drp_received_at_ms payload) (io_delivery io) r (proj1 Hd)) as Hc.
    by repeat case_match.
  - destruct (parse_message pt) as [payload|]; [|done]. eapply drift_calm; [done|]. by apply mutate_calm; [apply Hd|].
Qed.

(** A verified welcome: every group that exists keeps its windows, but the one the payload names when the envelope names another. *)
Lemma install_drift env payload sender g0 ts io r g :
  nearly_synced r -> is_Some (effective g r) -> wp_group_id_hex payload <> g \/ g0 = g ->
  let r' := (install_or_rekey_conversation env payload sender g0 ts io r).2 in
  nearly_synced r' /\ forall s, window g s r' = window g s r.
Proof.
  intros Hn [c Hc] Hne. cbv zeta. unfold install_or_rekey_conversation. pose proof (get_calm g0 r Hn) as Hg.
  pose proof (get_none g0 r) as Hnone. destruct (ConvRegistry.get g0 r) as [[[c0|]|e] r1]; cbn [snd] in *; [| |by split; apply Hg].
  - pose proof (mutate_calm g0 (rekey_closure env payload sender io) (io_save io) r1 (proj1 Hg)) as Hm.
    assert (calm r (mutate_in_place g0 (rekey_closure env payload sender io) (io_save io) r1).2) as Hk.
    { eapply calm_trans; [done|]. apply Hm. intros c1. unfold rekey_closure. destruct (_ <=? _); [done|]. by destruct (negb _). }
    destruct (mutate_in_place _ _ _ r1) as [res r2]. cbn [snd] in Hk. destruct res as [[]|]; by split; apply Hk.
  - specialize (Hnone r1 eq_refl). destruct Hne as [Hne|<-]; [|congruence].
    destruct (save_windows (from_welcome payload ts (io_now_rekey io)) (io_save io) r1 (proj1 Hg)) as [Hn2 Hw].
    destruct (save _ _ r1) as [res r2]. cbn [snd] in *. destruct Hg as [_ Hg].
    assert (forall s, window g s r2 = window g s r) by (intros s; rewrite <- Hg; apply Hw; by intros ->). by destruct res.
Qed.

Lemma direct_window sk env io st g s :
  nearly_synced (ib_registry st) -> is_Some (effective g (ib_registry st)) ->
  replaces sk g (Deliver env io) \/
  let r' := ib_registry (dispatch_inbound_with_outbox env sk io st).2 in
  nearly_synced r' /\ (window g s r' = window g s (ib_registry st) \/ exists n, window g s r' = slide n (window g s (ib_registry st))).
Proof.
  intros Hn Hg. cbv zeta. destruct (e_group_id env) as [gid|] eqn:Hgid.
  2:{ right. unfold dispatch_inbound_with_outbox. rewrite Hgid. split; [done|by left]. }
  destruct (frame_or_welcome (Deliver env io)) as [Hf|(env' & io' & [= <- <-] & Hw)].
  - right. destruct (direct_frame_drift env gid (hex_encode gid) io st Hn) as [[Hn1 Hd1] [Hn2 Hd2]].
    unfold dispatch_inbound_with_outbox. rewrite Hgid. cbn in Hf.
    destruct (e_kind env), Hf as [Hk|Hk]; try done; rewrite ?bool_decide_eq_true_2 by done;
      destruct (verify_sender env (ib_contacts st)) as [[]|]; (split; [done|]); (by left) || apply Hd1 || apply Hd2.
  - rewrite (dispatch_is_welcome _ _ _ _ gid), dispatch_welcome_registry by done.
    destruct (decrypt_and_verify_welcome env sk gid) as [[v|d]|e] eqn:Hv; [|by right; split; [|left]..].
    destruct (decide (wp_group_id_hex (wv_payload v) = g /\ hex_encode gid <> g)) as [[He Hne]|Hno]; [by left; exists gid, v|].
    right. destruct (install_drift env (wv_payload v) (wv_sender_agent_hex v) (hex_encode gid) (welcome_trust st v) io (ib_registry st) g Hn Hg)
      as [Hn' Hw']; [|split; [done|]; left; apply Hw'].
    destruct (decide (wp_group_id_hex (wv_payload v) = g)); [|by left]. right. destruct (decide (hex_encode gid = g)); [done|]. exfalso. by apply Hno.
Qed.

(** A group frame in some group, any other envelope, or the process coming back with an empty cache. *)
Inductive GroupStep := Arrive (g : string) (env : TransitEnvelope) (io : ReceiveIO) | ArriveDirect (env : TransitEnvelope) (io : InboundIO) | Restart.
Context (sk : bytes).
Definition of_inbox (st : Inbox) (s : Stores W) : Stores W :=
  mkStores (ib_registry st) (ib_contacts st) (st_marks s) (st_fabric s) (ib_outbox st) (st_neg_cache s) (st_group_kinds s) (st_net s) (st_trace s).
Definition group_replaced (g : string) (step : GroupStep) : Prop :=
  match step with ArriveDirect env io => replaces sk g (Deliver env io) | _ => False end.
Definition group_step (s : Stores W) (step : GroupStep) : Stores W :=
  match step with
  | Arrive g env io => (receive_private_group_envelope en env g io s).2
  | ArriveDirect env io =>
      of_inbox (dispatch_inbound_with_outbox env sk io (mkInbox (st_registry s) (st_contacts s) (st_outbox s) (Some []))).2 s
  | Restart => mkStores (registry_empty (disk (st_registry s))) (st_contacts s) (st_marks s) (st_fabric s) (st_outbox s)
                 ∅ ∅ (st_net s) (st_trace s)
  end.

Lemma restart_calm r : nearly_synced r -> calm r (registry_empty (disk r)).
Proof.
  intros Hn. split; [intros g c Hc; cbn in Hc; by rewrite (lookup_empty (M := gmap string)) in Hc|].
  intros g s. unfold window, effective. cbn. rewrite (lookup_empty (M := gmap string)).
  destruct (cache r !! g) as [c|] eqn:Hc; [|done]. destruct (Hn _ _ Hc) as [->|[-> He]]; [done|]. by rewrite He, lookup_empty.
Qed.

Lemma group_step_windows s step g sd :
  nearly_synced (st_registry s) -> is_Some (effective g (st_registry s)) ->
  group_replaced g step \/
  (nearly_synced (st_registry (group_step s step)) /\
   (window g sd (st_registry (group_step s step)) = window g sd (st_registry s) \/
    exists n, window g sd (st_registry (group_step s step)) = slide n (window g sd (st_registry s)))).
Proof.
  intros Hn Hg. destruct step as [g' env io|env io|]; cbn [group_step group_replaced].
  - right. destruct (receive_private_group_envelope en env g' io s) as [r s'] eqn:Hr. apply receive_recorded in Hr as (? & Hw & _); [|done].
    split; [done|]. apply Hw.
  - by apply (direct_window sk env io (mkInbox (st_registry s) (st_contacts s) (st_outbox s) (Some []))).
  - right. destruct (restart_calm _ Hn) as [? Hw]. split; [done|]. by left.
Qed.

Lemma steps_keep_nonce steps s n k g sd :
  nearly_synced (st_registry s) -> newer_at_most n k (window g sd (st_registry s)) -> (length steps + k < WINDOW_SIZE)%nat ->
  let s' := foldl group_step s steps in
  Exists (group_replaced g) steps \/ (nearly_synced (st_registry s') /\ n ∈ window g sd (st_registry s')).
Proof.
  cbv zeta. revert s k. induction steps as [|step steps IH]; intros s k Hs Hn Hl; cbn [foldl].
  { right. split; [done|]. destruct Hn as (pre & post & -> & _). apply elem_of_app. right. by left. }
  cbn [length] in Hl. destruct (group_step_windows s step g sd Hs (nonce_exists _ _ _ _ _ Hn)) as [Hr|[Hs' Hw]]; [by left; left|].
  destruct (IH (group_step s step) (S k)) as [He|He]; [done| |lia|by left; right|by right].
  destruct Hw as [->|[m ->]].
  - destruct Hn as (pre & post & -> & ?). exists pre, post. split; [done|lia].
  - apply newer_at_most_slide; [lia|done].
Qed.

End direct_facts.
End receive_facts.

(** ** From one member to another *)

(** Decoding inverts encoding, for frames and for bodies; a body always prints. *)
Class GroupLaws `{FrameCodec, GroupBodyJson} := {
  frame_round_trip f b : frame_to_bytes f = Ok b -> frame_from_bytes b = Ok f;
  body_printed p : exists b, print_group_body p = Ok b /\ parse_group_body b = Ok p;
}.

Lemma strip_bytes_app pre l : strip_bytes pre (pre ++ l) = Some l.
Proof. induction pre as [|p pre IH]; [done|]. cbn. by rewrite N.eqb_refl. Qed.

Lemma plaintext_round_trip `{GroupLaws} name body seq :
  decode_group_plaintext (encode_group_plaintext name body seq)
  = Ok (mkGroupBody (if nonempty name then Some name else None) body seq).
Proof.
  unfold decode_group_plaintext, encode_group_plaintext. rewrite strip_bytes_app.
  destruct (body_printed (mkGroupBody (if nonempty name then Some name else None) body seq)) as (b & -> & Hp). by rewrite Hp.
Qed.

Section round_trip.
  Context `{Base64, Base64Url, Sha256, MlDsaBackend, UrlParse, UrlEdit, FormUrl, PairErrorDisplay, PairBodies}.
  Context `{EnvelopeCodec, AgentSigner, FrameCodec, GroupBodyJson, ErrorDisplay, StatusText}.
  Context `{ChatCipher, ChatSeal, PayloadJson, PayloadPrint, !ChatLaws, !GroupLaws}.
  Context `{VaultIO} `{HB : !HashIter string OutboxBubble}.
  Context `{BodyText, StatusLine, UrlJoin, DaemonJson, GroupsJson}.
  Context {W : Type} `{IpDisplay, RelayNet, HS : !RelayServer W, HN : !DaemonNet W}.
  Context (sender receiver : Endpoint W).

Lemma built_checks frame gid now env card :
  Forall (fun b => b < 256) signer_public_key ->
  build_private_group_envelope sender frame gid now = Ok env -> len (e_nonce env) = 12 ->
  cc_agent_public_key_b64 card = Some (b64_encode signer_public_key) ->
  check_group_envelope env (Some card) = Ok frame /\ e_timestamp_ms env = now.
Proof.
  intros Hpk. unfold build_private_group_envelope, to_invalid. destruct (frame_to_bytes frame) as [ct|] eqn:Hct; [|done].
  destruct (frame_nonce _ frame) as [nonce|] eqn:Hn; [|done]. destruct (decode_agent _ _) as [local|]; [|done].
  intros Hs Hlen Hk. destruct (sign_envelope_verifies _ _ Hs) as (sig & canonical & -> & Hcan & Hv).
  cbn [with_signature e_nonce e_timestamp_ms] in Hlen |- *. split; [|done].
  unfold check_group_envelope, to_invalid. rewrite Hk, b64_decode_encode by done. rewrite Hcan.
  cbn [with_signature e_sender_signature e_nonce e_ciphertext]. rewrite Hv, Hlen. cbn [negb N.eqb Pos.eqb].
  rewrite (frame_round_trip _ _ Hct).
  assert (frame_nonce "legacy frame missing nonce_b64" frame = Ok nonce) as ->.
  { revert Hn. unfold frame_nonce. destruct (is_treekem frame); [done|]. by destruct (ef_nonce_b64 frame). }
  by rewrite bool_decide_eq_true_2.
Qed.

Lemma known_card a io s card key :
  card_load a (st_contacts s) = Ok (Some card) -> cc_agent_public_key_b64 card = Some key -> nonempty key = true ->
  sender_card receiver a io s = (Ok (Some card), s).
Proof. intros Hc Hk Hne. unfold sender_card, bind at 1, read at 1, bind at 1, of_result at 1. rewrite Hc, Hk. change (default EmptyString (Some key)) with key. by rewrite Hne. Qed.

(** An envelope built for a body sealed by the daemon is
    accepted by a member who has the sender's key: it is shown under the sender's id and
    name with that body and the time of sending, and it is the newest row of the group. *)
Theorem group_message_round_trip (group_id name body : string) (seq : option N) (frame : EncryptedFrame) (gid : bytes)
    (now : N) (env : TransitEnvelope) (card : StoredContactCard) (io : ReceiveIO) (s : Stores W) (base : Url) (w : W)
    (conv : Conversation) :
  Forall (fun b => b < 256) signer_public_key -> nonempty (b64_encode signer_public_key) = true ->
  build_private_group_envelope sender frame gid now = Ok env -> len (e_nonce env) = 12 ->
  card_load (sender_hex env) (st_contacts s) = Ok (Some card) ->
  cc_agent_public_key_b64 card = Some (b64_encode signer_public_key) ->
  url_parse (dn_base (st_net s)) = Some base ->
  SecureGroups.decrypt base group_id frame (Some (sender_hex env)) (st_net s) = (Ok (encode_group_plaintext name body seq), w) ->
  effective group_id (st_registry s) = Some conv ->
  e_nonce env ∉ window group_id (sender_hex env) (st_registry s) -> rx_persist io = Ok tt ->
  exists entry gap s' conv',
    receive_private_group_envelope receiver env group_id io s = (Ok (Persisted entry gap), s') /\
    h_sender_agent_id_hex entry = sender_hex env /\ h_sender_name entry = (if nonempty name then Some name else None) /\
    h_body entry = body /\ h_ts_ms entry = now /\
    effective group_id (st_registry s') = Some conv' /\ last (c_history conv') = Some entry.
Proof.
  intros Hpk Hne Hbuild Hlen Hcard Hkey Hbase Hdec Hconv Hnew Hio.
  destruct (built_checks _ _ _ _ _ Hpk Hbuild Hlen Hkey) as [Hcheck Hts].
  unfold receive_private_group_envelope. unfold bind at 1. erewrite known_card by done.
  unfold bind at 1, of_result at 1. rewrite Hcheck.
  unfold bind at 1, secure, bind at 1, read at 1. rewrite Hbase. unfold bind at 1, on_net at 1. rewrite Hdec. unfold of_result at 1.
  unfold bind at 1, of_result at 1. rewrite plaintext_round_trip. set (b := mkGroupBody _ _ _).
  unfold bind at 1, on_registry at 1. cbn [st_registry].
  destruct (get_hit _ _ _ Hconv) as (r1 & -> & Hc1). unfold bind at 1, ret at 1. unfold bind at 1, on_registry at 1. cbn [st_registry].
  assert (default [] (c_seen_nonces conv !! sender_hex env) = window group_id (sender_hex env) (st_registry s)) as Hwin
    by (symmetry; by apply window_of_nonces).
  destruct (record_inbound env b io conv) as [a c'] eqn:Hrec.
  assert (exists gap, a = Persist (Some gap)) as [gap ->].
  { pose proof Hrec as Hr. apply record_inbound_nonces in Hr. destruct a as [v|v]; [destruct Hr as [[gap ->] _]; by exists gap|].
    exfalso. revert Hrec. unfold record_inbound, check_and_record_nonce. rewrite Hwin, bool_decide_eq_false_2 by done.
    destruct (gb_seq b); [destruct (record_group_seq _ _ _ _)|]; done. }
  assert (mutate_in_place_or_init group_id (self_only_private_group_conversation receiver group_id None (rx_shell_now io))
            (record_inbound env b io) (rx_persist io) r1
    = (Ok (Some gap), mkRegistry (<[group_id := c']> (cache (match cache r1 !! group_id with Some _ => r1 | None => cache_insert group_id conv r1 end)))
                       (<[group_id := Ok c']> (disk r1)))) as ->.
  { unfold mutate_in_place_or_init, mutate_in_place_impl, hydrate. unfold effective in Hc1. rewrite Hio.
    destruct (cache r1 !! group_id) as [c0|]; [injection Hc1 as ->; by rewrite Hrec|].
    destruct (disk r1 !! group_id) as [[c0|]|]; [|done..]. injection Hc1 as ->. by rewrite Hrec. }
  do 4 eexists. split; [done|]. split_and!; [done..|exact Hts| |].
  - cbn [st_registry]. unfold effective. cbn [cache]. by rewrite lookup_insert_eq.
  - assert (c_history c' = c_history (push_history (inbound_row env b) conv)) as ->.
    { revert Hrec. unfold record_inbound, check_and_record_nonce. rewrite Hwin, bool_decide_eq_false_2 by done.
      destruct (gb_seq b); [unfold record_group_seq; destruct (record _ _ _)|]; by intros [= _ <-]. }
    unfold push_history, set_history. cbn [c_history]. apply last_snoc.
Qed.
End round_trip.

(** ** Witnesses *)

#[local] Existing Instance demo_base64.
#[local] Existing Instance pw_b64url.
#[local] Existing Instance demo_sha32.
#[local] Existing Instance demo_mldsa.
#[local] Existing Instance su_parse.
#[local] Existing Instance su_edit.
#[local] Existing Instance su_form.
#[local] Existing Instance pw_display.
#[local] Existing Instance ep_bodies.
#[local] Existing Instance pw_ip.
#[local] Existing Instance pw_net.
#[local] Existing Instance pw_server.
#[local] Existing Instance out_demo_cipher.
#[local] Existing Instance out_demo_seal.
#[local] Existing Instance out_demo_json.
#[local] Existing Instance out_demo_print.
#[local] Existing Instance out_demo_laws.
#[local] Existing Instance alice_signer.
#[local] Existing Instance out_demo_io.

(** A group of Alice and Bob; the daemon seals every body into one frame. *)
Definition room : string := hex_encode (replicate 32 3).
Definition room_frame : EncryptedFrame := mkFrame "c" None 2 (Some PLANE_TREEKEM).
Definition room_envelope : TransitEnvelope :=
  {| e_version := WIRE_VERSION; e_kind := PrivateGroupChat; e_group_id := Some (replicate 32 3); e_tenant_id := None;
     e_sender_agent_id := alice; e_sender_machine_id := []; e_timestamp_ms := 8; e_epoch := 2; e_ciphertext := [5];
     e_nonce := derive_treekem_outer_nonce "c"; e_kem_ciphertext := []; e_sender_signature := [] |}.
Definition room_signed : TransitEnvelope := with_signature [1] room_envelope.

#[local] Instance room_codec : EnvelopeCodec.
Proof.
  refine {| env_to_bytes e := if decide (e = room_envelope) then Ok [1]
                              else if decide (e = room_signed) then Ok [2] else Err "x"%string;
            env_from_bytes b := match b with 1 :: _ => Some room_envelope | _ => Some room_signed end |}.
  intros e b. repeat case_decide; intros [= <-]; congruence.
Defined.
#[local] Instance room_frames : FrameCodec :=
  {| frame_to_bytes f := if decide (f = room_frame) then Ok [5] else Err "x"%string;
     frame_from_bytes b := match b with [5] => Ok room_frame | _ => Err "x"%string end |}.
#[local] Instance room_bodies : GroupBodyJson :=
  {| print_group_body p := Ok [Npos (encode (gb_sender_name p, gb_body p, gb_seq p))];
     parse_group_body b := match b with
                           | [Npos x] => match decode x with Some (n, t, q) => Ok (mkGroupBody n t q) | None => Err "x"%string end
                           | _ => Err "x"%string
                           end;
     from_utf8 _ := Err "x"%string |}.
#[local] Instance room_laws : GroupLaws.
Proof.
  split.
  - intros f b. cbn. case_decide; [subst f; by intros [= <-]|done].
  - intros [n t q]. eexists. split; [done|]. cbn. by rewrite decode_encode.
Defined.
#[local] Instance room_display : ErrorDisplay := fun _ => "down"%string.
#[local] Instance room_status : StatusText := fun _ => EmptyString.
#[local] Instance room_text : BodyText := fun _ => EmptyString.
#[local] Instance room_line : StatusLine := fun _ => EmptyString.
#[local] Instance room_join : UrlJoin := fun _ path => Ok path.
Definition room_body : bytes := encode_group_plaintext "Alice" "hi" (Some 1).
#[local] Instance room_daemon : DaemonNet (list N) :=
  {| dn_base _ := "http://h"%string; dn_rebase _ w := w; dn_port_file := None;
     dn_request _ _ _ w := (Answered 200 (Ok []), w) |}.
#[local] Instance room_json : DaemonJson :=
  {| parse_created _ := Err "x"%string;
     parse_encrypt _ := Ok {| er_ok := true; er_error := None; er_ciphertext_b64 := Some "c"%string; er_nonce_b64 := None;
                              er_secret_epoch := Some 2; er_secure_plane := Some PLANE_TREEKEM |};
     parse_decrypt _ := Ok {| dr_ok := true; dr_error := None; dr_payload_b64 := Some (b64_encode room_body) |};
     parse_ok _ := Err "x"%string; parse_policy _ := Ok (Some MlsEncrypted); parse_self_status _ := Err "x"%string;
     parse_applied _ := Err "x"%string |}.
Definition in_room (a : bytes) : GroupMemberEntry :=
  {| gm_agent_id := hex_encode a; gm_display_name := None; gm_role := None; gm_state := Some "active"%string |}.
#[local] Instance room_groups : GroupsJson :=
  {| parse_groups _ := Err "x"%string; parse_group _ := Err "x"%string; parse_value _ := Err "x"%string;
     parse_invite _ := Err "x"%string; parse_members _ := Ok [in_room alice; in_room bob]; parse_message_id _ := Err "x"%string;
     parse_messages _ := Err "x"%string |}.

Definition room_io : GroupSendIO :=
  {| gs_now := 8; gs_message_id := "m1"; gs_bubble_id n := hex_encode (replicate n 1); gs_shell_now := 8; gs_persist := Ok tt |}.
Definition with_outbox (s : Stores (list N)) : Stores (list N) :=
  mkStores (st_registry s) (st_contacts s) (st_marks s) (st_fabric s) (Some OutboxStore.new) ∅ ∅ (st_net s) (st_trace s).
Definition room_stores : Stores (list N) := with_outbox (alice_stores (registry_empty ∅)).

Lemma room_ids i j : gs_bubble_id room_io i = gs_bubble_id room_io j -> i = j.
Proof.
  cbn. intros Heq. assert (forall n, hex_decode (hex_encode (replicate n 1)) = Some (replicate n 1)) as Hd.
  { intros n. apply hex_decode_encode. apply Forall_replicate. lia. }
  pose proof (Hd i) as Hi. rewrite Heq, (Hd j) in Hi. injection Hi as Hr. apply (f_equal length) in Hr.
  by rewrite !length_replicate in Hr.
Qed.

Lemma room_fresh : fresh_ids room_io room_stores.
Proof.
  split; [apply room_ids|]. split.
  - intros store i [= <-] _. apply lookup_empty.
  - intros c [[g Hg]|[g Hg]]; cbn [st_registry room_stores with_outbox alice_stores registry_empty cache disk] in Hg;
      by rewrite (lookup_empty (M := gmap string)) in Hg.
Qed.

(** The relay is down: Bob's copy waits, and the row says so. *)
Lemma group_send_accounts_for_members_witness :
  exists s', send_private_group (alice_at false) room "hi" "Alice" room_io room_stores
      = (Ok {| gsr_message_id := Some "m1"%string; gsr_delivered := false |}, s') /\
    exists h frame, h ∈ st_trace s' /\ ho_to h = hex_encode bob /\ waits room "m1" frame (ho_to h) (st_outbox s') /\
      env_from_bytes frame = Some room_signed.
Proof.
  set (run := send_private_group _ _ _ _ _ _).
  assert (run.1 = Ok {| gsr_message_id := Some "m1"%string; gsr_delivered := false |}) as Hr by (vm_compute; reflexivity).
  assert (map (fun h => (ho_to h, ho_taken h, oe_transit (ho_envelope h))) (st_trace run.2) = [(hex_encode bob, false, Some room_signed)])
    as Htr by (vm_compute; reflexivity).
  destruct run as [r s'] eqn:E. cbn [fst snd] in Hr, Htr. subst r. exists s'. split; [done|].
  destruct (group_send_accounts_for_members (alice_at false) room "hi" "Alice" room_io room_stores s'
    (Ok {| gsr_message_id := Some "m1"%string; gsr_delivered := false |}) room_fresh E)
    as (hs & Ht & env & raw & w & w' & _ & _ & _ & Hone & Hkeep & _).
  cbn [st_trace room_stores with_outbox alice_stores app] in Ht. rewrite Ht in Htr.
  destruct hs as [|h [|]]; [done| |done]. injection Htr as Hto Hta Htx.
  destruct (Hone h) as (Henv & _); [by left|]. rewrite Henv in Htx. injection Htx as ->.
  replace (is_some (st_outbox room_stores) && is_ok (env_to_bytes room_signed)) with true in Hkeep by (vm_compute; reflexivity).
  destruct (Hkeep h) as (frame & Hf & Hw); [by left|done|].
  exists h, frame. split_and!; [rewrite Ht; by left|exact Hto|exact Hw|exact Hf].
Defined.

Definition bob_card : StoredContactCard := mkCard (hex_encode alice) "" "" (Some (b64_encode [1])) None None None.
Definition bob_end : Endpoint (list N) :=
  {| en_identity := {| fi_agent_id_hex := hex_encode bob; fi_user_id_hex := None; fi_kem_public_key := []; fi_kem_secret_key := [] |};
     en_machine_id := []; en_denylist := None; en_primary_relay_url := None; en_transports := [] |}.
Definition bob_room : Conversation := self_only_private_group_conversation bob_end room None 1.
Definition bob_stores : Stores (list N) :=
  mkStores (mkRegistry {[room := bob_room]} {[room := Ok bob_room]}) (mkContacts EmptyString {[hex_encode alice := CardOk bob_card]}) ∅
    (mkFabric None None ∅) None ∅ ∅ [] [].
Definition bob_rx : ReceiveIO :=
  {| rx_ask := 9; rx_note := 9; rx_card := Ok tt; rx_mark := Ok tt; rx_shell_now := 9; rx_now := 9; rx_seq_now := 9; rx_persist := Ok tt |}.

Lemma group_message_round_trip_witness :
  exists entry gap s', receive_private_group_envelope bob_end room_signed room bob_rx bob_stores = (Ok (Persisted entry gap), s') /\
    h_sender_name entry = Some "Alice"%string /\ h_body entry = "hi"%string.
Proof.
  destruct (group_message_round_trip (alice_at true) bob_end room "Alice" "hi" (Some 1) room_frame (replicate 32 3) 8 room_signed
    bob_card bob_rx bob_stores (web "http") [] bob_room) as (entry & gap & s' & conv' & Hr & _ & Hn & Hb & _).
  - by repeat constructor.
  - by vm_compute.
  - by vm_compute.
  - by vm_compute.
  - by vm_compute.
  - done.
  - apply pw_url.
  - by vm_compute.
  - by vm_compute.
  - assert (window room (sender_hex room_signed) (st_registry bob_stores) = []) as -> by (vm_compute; reflexivity). apply not_elem_of_nil.
  - done.
  - by exists entry, gap, s'.
Defined.

(** Frames that differ in their nonce: after 64 others and a restart the first one is
    accepted again, and no earlier. *)
Definition numbered (n : N) : TransitEnvelope :=
  {| e_version := WIRE_VERSION; e_kind := PrivateGroupChat; e_group_id := Some (replicate 32 3); e_tenant_id := None;
     e_sender_agent_id := alice; e_sender_machine_id := []; e_timestamp_ms := 8; e_epoch := 2; e_ciphertext := [n];
     e_nonce := replicate 12 n; e_kem_ciphertext := []; e_sender_signature := [] |}.
#[local] Instance numbered_codec : EnvelopeCodec.
Proof.
  refine {| env_to_bytes e := let n := default 0 (head (e_nonce e)) in
                              if decide (e = numbered n) then Ok [n] else Err "x"%string;
            env_from_bytes b := Some (numbered (default 0 (head b))) |}.
  intros e b. cbv zeta. case_decide as Heq; intros [= <-]. cbn. by rewrite <- Heq.
Defined.
#[local] Instance numbered_frames : FrameCodec :=
  {| frame_to_bytes f := Err "x"%string;
     frame_from_bytes b := Ok (mkFrame "c" (Some (b64_encode (replicate 12 (default 0 (head b))))) 2 None) |}.
Definition sealed_no (n : N) : TransitEnvelope := with_signature [1] (numbered n).
Definition room_mid : list GroupStep :=
  Restart :: ArriveDirect (sealed_no 1) io_fine :: ((fun n => Arrive room (sealed_no (N.of_nat n)) bob_rx) <$> seq 1 64).

