(* ===== verification/RelayClient.v ===== *)
(** * The client's end of a relay session

    Models crates/fetchit-relay-client/src: [client.rs] (the handle, the
    supervisor task with its reader and keepalive tasks), [outbox.rs],
    [error.rs] and [relay_set.rs].

    The supervisor, the reader and the keepalive task run concurrently and meet
    in the command channel, the outbox and the lock around the socket's sink, so
    the client is a transition system: a state, and a step for everything that can
    happen next ([Event]).  A step that is not enabled is [None].  Time only moves
    by [Time]; a timer may fire once its deadline has passed, no sooner.  What the
    network decides (a write's outcome, a frame that arrives, the result of
    [open_session]) comes with the event.  The postcard encoder's verdict on a
    frame is a parameter. *)
From S2P Require Import Prelude RelayProto.

(** Times are milliseconds. *)
Definition DEFAULT_KEEPALIVE : N := 30 * 1000.
Definition DEFAULT_PONG_TIMEOUT : N := 60 * 1000.
Definition INITIAL_BACKOFF : N := 1000.
Definition MAX_BACKOFF : N := 60 * 1000.
Definition SEND_WRITE_TIMEOUT : N := 5 * 1000.
Definition SEND_ACK_TIMEOUT : N := 10 * 1000.
Definition LOG_FETCH_CHUNK_TIMEOUT : N := 10 * 1000.

(** The wrapped errors of other crates are their text. *)
Inductive ClientError :=
| Http (why : string)
| Url (why : string)
| Io (why : string)
| WebSocket (why : string)
| Proto (why : string)
| AuthRejected (why : string)
| RelayClosed (why : string)
| InboxClosed
| Disconnected (why : string)
| UnexpectedMessage
| RecipientMoved
| SendTimeout (after : N)
| LogFetchTimeout (after : N).

#[export] Instance ClientError_eq_dec : EqDecision ClientError.
Proof. solve_decision. Defined.

(** The fields the supervisor reads. *)
Record ClientConfig := mkConfig {
  keepalive : option N;
  pong_timeout : option N;
  send_write_timeout : N;
  send_ack_timeout : N;
  max_reconnect_attempts : option N;
  max_reconnect_elapsed : option N;
}.

Definition config_new : ClientConfig :=
  mkConfig (Some DEFAULT_KEEPALIVE) (Some DEFAULT_PONG_TIMEOUT)
    SEND_WRITE_TIMEOUT SEND_ACK_TIMEOUT (Some 20) None.

Definition with_unbounded_reconnect (c : ClientConfig) : ClientConfig :=
  mkConfig (keepalive c) (pong_timeout c) (send_write_timeout c) (send_ack_timeout c)
    None (max_reconnect_elapsed c).

Inductive ConnState :=
| Connecting
| Connected (caps : EffectiveCapabilities)
| DisconnectedState (reason : string) (retry_at : N)
| PermanentlyDisconnected (reason : string) (attempts : N).

(** ** The outbox of one connection

    A [oneshot] is a ticket: the sender half sits in [by_dedupe] under the key,
    the value it was completed with waits in [completed] until the receiver takes
    it. *)
Record Receipt := mkReceipt { accepted_at_ms : N }.
Inductive SendResolution := Acked (r : Receipt) | Moved.

Record Outbox := mkOutbox {
  by_dedupe : gmap DedupeKey N;
  completed : gmap N SendResolution;
  next_ticket : N;
  last_pong : N;
  last_pong_nonce : option N;
}.

Definition outbox_new (now : N) : Outbox := mkOutbox ∅ ∅ 0 now None.

(** Registers a send; a previous one under the same key loses its sender half. *)
Definition track (key : DedupeKey) (o : Outbox) : N * Outbox :=
  (next_ticket o,
   mkOutbox (<[key := next_ticket o]> (by_dedupe o)) (completed o) (next_ticket o + 1)
     (last_pong o) (last_pong_nonce o)).

Definition complete (key : DedupeKey) (v : SendResolution) (o : Outbox) : bool * Outbox :=
  match by_dedupe o !! key with
  | None => (false, o)
  | Some t => (true, mkOutbox (delete key (by_dedupe o)) (<[t := v]> (completed o))
                      (next_ticket o) (last_pong o) (last_pong_nonce o))
  end.
Definition ack (key : DedupeKey) (at_ms : N) (o : Outbox) : bool * Outbox :=
  complete key (Acked (mkReceipt at_ms)) o.
Definition moved (key : DedupeKey) (o : Outbox) : bool * Outbox := complete key Moved o.

Definition in_flight (o : Outbox) : nat := size (by_dedupe o).
Definition touch_pong (now : N) (o : Outbox) : Outbox :=
  mkOutbox (by_dedupe o) (completed o) (next_ticket o) now (last_pong_nonce o).
Definition record_pong (now nonce : N) (o : Outbox) : Outbox :=
  mkOutbox (by_dedupe o) (completed o) (next_ticket o) now (Some nonce).

(** Whether the receiver half of [t] can still be completed. *)
Definition sender_alive (t : N) (o : Outbox) : bool :=
  bool_decide (t ∈ (map_to_list (by_dedupe o)).*2).

(** ** State *)

Inductive SupervisorCmd :=
| CmdSend (reply : N) (f : SendFrame)
| CmdWatchPresence (add remove : list AgentId)
| CmdAckTransit (acked_ids : list N)
| CmdLogAppend (a : LogAppend)
| CmdLogFetch (group_id : GroupId) (since_seq : N)
| CmdDisconnected (gen : N) (reason : string)
| CmdShutdown
| CmdReconnectNow.

(** The lock around the socket's sink and the two tasks that take it. *)
Inductive Writer := BySupervisor | ByKeepalive.

(** Where the keepalive task stands: before its next tick, waiting for the sink,
    writing its ping, returned. *)
Inductive Keepalive := KaWaiting (next : N) | KaLock (next nonce : N) | KaWrite (next nonce : N) | KaGone.

(** One connection.  [written] holds the frames whose write succeeded, in order,
    which is what the relay at the other end has been told; [lost] those whose
    write failed or was given up. *)
Record Inner := mkInner {
  gen : N;
  sink : option Writer;
  outbox : Outbox;
  reader_up : bool;
  ka : Keepalive;
  written : list ClientFrame;
  lost : list ClientFrame;
}.

(** Where the supervisor stands.  [Idle] waits for a command in [run]; a send
    waits for the sink, for its write (with the write's deadline), for its
    acknowledgement (with that deadline); a best-effort frame waits for the sink
    and for its write; [Backing] sleeps until the deadline, draining commands, and
    [Opening] waits for [open_session], both with the time the loop started, the
    failures so far and whether [bootstrap] called it. *)
Inductive Phase :=
| Idle
| SendLock (reply ticket : N) (f : SendFrame)
| SendWrite (reply ticket : N) (f : SendFrame) (deadline : N)
| SendAck (reply ticket : N) (f : SendFrame) (deadline : N)
| FrameLock (f : ClientFrame)
| FrameWrite (f : ClientFrame)
| Backing (boot : bool) (start attempts deadline : N)
| Opening (boot : bool) (start attempts : N)
| Stopped.

Record State := mkState {
  phase : Phase;
  inner : option Inner;
  next_gen : N;
  backoff : N;
  watch_set : gset AgentId;
  queue : list SupervisorCmd;
  conn : ConnState;
  now : N;
  handle_open : bool;
  replies : list (N * result Receipt ClientError);
  inbox : list ServerFrame;
  presence : list ServerFrame;
  log_records : list (GroupId * list LogRecordWire * bool);
}.

Definition set_phase (p : Phase) (s : State) : State :=
  mkState p (inner s) (next_gen s) (backoff s) (watch_set s) (queue s) (conn s) (now s)
    (handle_open s) (replies s) (inbox s) (presence s) (log_records s).
Definition set_inner (i : option Inner) (s : State) : State :=
  mkState (phase s) i (next_gen s) (backoff s) (watch_set s) (queue s) (conn s) (now s)
    (handle_open s) (replies s) (inbox s) (presence s) (log_records s).
Definition set_next_gen (g : N) (s : State) : State :=
  mkState (phase s) (inner s) g (backoff s) (watch_set s) (queue s) (conn s) (now s)
    (handle_open s) (replies s) (inbox s) (presence s) (log_records s).
Definition set_backoff (b : N) (s : State) : State :=
  mkState (phase s) (inner s) (next_gen s) b (watch_set s) (queue s) (conn s) (now s)
    (handle_open s) (replies s) (inbox s) (presence s) (log_records s).
Definition set_watch (w : gset AgentId) (s : State) : State :=
  mkState (phase s) (inner s) (next_gen s) (backoff s) w (queue s) (conn s) (now s)
    (handle_open s) (replies s) (inbox s) (presence s) (log_records s).
Definition set_queue (q : list SupervisorCmd) (s : State) : State :=
  mkState (phase s) (inner s) (next_gen s) (backoff s) (watch_set s) q (conn s) (now s)
    (handle_open s) (replies s) (inbox s) (presence s) (log_records s).
Definition set_conn (c : ConnState) (s : State) : State :=
  mkState (phase s) (inner s) (next_gen s) (backoff s) (watch_set s) (queue s) c (now s)
    (handle_open s) (replies s) (inbox s) (presence s) (log_records s).
Definition set_now (t : N) (s : State) : State :=
  mkState (phase s) (inner s) (next_gen s) (backoff s) (watch_set s) (queue s) (conn s) t
    (handle_open s) (replies s) (inbox s) (presence s) (log_records s).
Definition set_handle (b : bool) (s : State) : State :=
  mkState (phase s) (inner s) (next_gen s) (backoff s) (watch_set s) (queue s) (conn s) (now s)
    b (replies s) (inbox s) (presence s) (log_records s).
Definition set_replies (l : list (N * result Receipt ClientError)) (s : State) : State :=
  mkState (phase s) (inner s) (next_gen s) (backoff s) (watch_set s) (queue s) (conn s) (now s)
    (handle_open s) l (inbox s) (presence s) (log_records s).
Definition set_inbox (l : list ServerFrame) (s : State) : State :=
  mkState (phase s) (inner s) (next_gen s) (backoff s) (watch_set s) (queue s) (conn s) (now s)
    (handle_open s) (replies s) l (presence s) (log_records s).
Definition set_presence (l : list ServerFrame) (s : State) : State :=
  mkState (phase s) (inner s) (next_gen s) (backoff s) (watch_set s) (queue s) (conn s) (now s)
    (handle_open s) (replies s) (inbox s) l (log_records s).
Definition set_log_records (l : list (GroupId * list LogRecordWire * bool)) (s : State) : State :=
  mkState (phase s) (inner s) (next_gen s) (backoff s) (watch_set s) (queue s) (conn s) (now s)
    (handle_open s) (replies s) (inbox s) (presence s) l.

Definition set_sink (w : option Writer) (i : Inner) : Inner :=
  mkInner (gen i) w (outbox i) (reader_up i) (ka i) (written i) (lost i).
Definition set_outbox (o : Outbox) (i : Inner) : Inner :=
  mkInner (gen i) (sink i) o (reader_up i) (ka i) (written i) (lost i).
Definition set_reader (b : bool) (i : Inner) : Inner :=
  mkInner (gen i) (sink i) (outbox i) b (ka i) (written i) (lost i).
Definition set_ka (k : Keepalive) (i : Inner) : Inner :=
  mkInner (gen i) (sink i) (outbox i) (reader_up i) k (written i) (lost i).
(** The outcome of writing [f]. *)
Definition wrote (ok : bool) (f : ClientFrame) (i : Inner) : Inner :=
  if ok then mkInner (gen i) (sink i) (outbox i) (reader_up i) (ka i) (written i ++ [f]) (lost i)
  else mkInner (gen i) (sink i) (outbox i) (reader_up i) (ka i) (written i) (lost i ++ [f]).

Definition answer (reply : N) (r : result Receipt ClientError) (s : State) : State :=
  set_replies (replies s ++ [(reply, r)]) s.

(** Something pushes on the command channel. *)
Definition push (c : SupervisorCmd) (s : State) : State := set_queue (queue s ++ [c]) s.

(** [watch_set.insert] of every [add], then [remove] of every [remove]. *)
Definition apply_watch (add remove : list AgentId) (w : gset AgentId) : gset AgentId :=
  (w ∪ list_to_set add) ∖ list_to_set remove.

(** ** The handle *)

Inductive ClientCall :=
| Send (reply : N) (f : SendFrame)
| AckTransit (acked_ids : list N)
| AppendLog (a : LogAppend)
| FetchLog (group_id : GroupId) (since_seq : N)
| Watch (agents : list AgentId)
| Unwatch (agents : list AgentId)
| ReconnectNow
| Shutdown.

(** The command a call queues; [None] returns before queueing. *)
Definition call_cmd (c : ClientCall) : option SupervisorCmd :=
  match c with
  | Send reply f => Some (CmdSend reply f)
  | AckTransit ids =>
      match List.filter (fun id => negb (id =? 0)) ids with
      | [] => None
      | ids => Some (CmdAckTransit ids)
      end
  | AppendLog a => Some (CmdLogAppend a)
  | FetchLog g since => Some (CmdLogFetch g since)
  | Watch agents => match agents with [] => None | _ => Some (CmdWatchPresence agents []) end
  | Unwatch agents => match agents with [] => None | _ => Some (CmdWatchPresence [] agents) end
  | ReconnectNow => Some CmdReconnectNow
  | Shutdown => Some CmdShutdown
  end.

(** A channel whose receiver is gone refuses the command: a send resolves as
    [InboxClosed] on the spot. *)
Definition call (c : ClientCall) (s : State) : State :=
  match call_cmd c with
  | None => s
  | Some cmd =>
      match phase s with
      | Stopped => match c with Send reply _ => answer reply (Err InboxClosed) s | _ => s end
      | _ => push cmd s
      end
  end.

(** [cmd_rx] and the replies it holds are dropped: whoever still awaits one sees
    the channel close. *)
Definition closed_reply (c : SupervisorCmd) : option (N * result Receipt ClientError) :=
  match c with CmdSend reply _ => Some (reply, Err InboxClosed) | _ => None end.
Definition current_reply (p : Phase) : list N :=
  match p with
  | SendLock r _ _ | SendWrite r _ _ _ | SendAck r _ _ _ => [r]
  | _ => []
  end.
Definition stop (s : State) : State :=
  set_phase Stopped (set_inner None (set_queue []
    (set_replies (replies s ++ ((fun r => (r, Err InboxClosed)) <$> current_reply (phase s))
                  ++ omap closed_reply (queue s)) s))).

(** ** The supervisor *)

Section supervisor.
Context (cfg : ClientConfig) (encode_error : ClientFrame -> option string).

(** What [sender.send] came back with, or [None] when its timeout fired first. *)
Abbreviation WriteResult := (option (result unit string)).

(** [send_watch_frame], [send_ack_frame], [send_log_append_frame] and
    [send_log_fetch_frame], whose results are dropped: encode, then wait for the
    sink. *)
Definition send_frame (f : ClientFrame) (s : State) : State :=
  match inner s with
  | None => s
  | Some i =>
      match encode_error f with
      | Some _ => set_inner (Some (wrote false f i)) s
      | None => set_phase (FrameLock f) s
      end
  end.
Definition send_watch_frame (add remove : list AgentId) (s : State) : State :=
  match add, remove with
  | [], [] => s
  | _, _ => send_frame (CWatchPresence add remove) s
  end.
Definition send_ack_frame (ids : list N) (s : State) : State :=
  match ids with [] => s | _ => send_frame (CTransitAck ids) s end.

(** The reader and the keepalive task start with the connection, which is
    announced before the watch set is resent.  The counter and the backoff are
    set when [install] returns; nothing reads them before. *)
Definition install (caps : EffectiveCapabilities) (s : State) : State :=
  let i := mkInner (next_gen s) None (outbox_new (now s)) true KaGone [] [] in
  let i := match keepalive cfg with
           | Some d => set_ka (KaWaiting (now s + d)) (set_outbox (touch_pong (now s) (outbox i)) i)
           | None => i
           end in
  let s := set_conn (Connected caps) (set_inner (Some i) s) in
  let s := set_next_gen (next_gen s + 1) (set_phase Idle s) in
  send_watch_frame (elements (watch_set s)) [] s.

(** The head of the reconnect loop: sleep for the current backoff. *)
Definition back_off (boot : bool) (start attempts : N) (s : State) : State :=
  set_phase (Backing boot start attempts (now s + backoff s)) s.

(** [do_send] up to the lock around the sink. *)
Definition start_send (reply : N) (f : SendFrame) (i : Inner) (s : State) : State :=
  let '(ticket, o) := track (sf_dedupe_key f) (outbox i) in
  let s := set_inner (Some (set_outbox o i)) s in
  match encode_error (CSend f) with
  | Some e => answer reply (Err (Proto e)) s
  | None => set_phase (SendLock reply ticket f) s
  end.

(** One command of the loop of [run]. *)
Definition run_cmd (c : SupervisorCmd) (s : State) : State :=
  match c with
  | CmdShutdown => stop s
  | CmdReconnectNow => s
  | CmdSend reply f =>
      match inner s with
      | Some i => start_send reply f i s
      | None => answer reply (Err (Disconnected "client is reconnecting")) s
      end
  | CmdWatchPresence add remove =>
      send_watch_frame add remove (set_watch (apply_watch add remove (watch_set s)) s)
  | CmdAckTransit ids => send_ack_frame ids s
  | CmdLogAppend a => send_frame (CLogAppend a) s
  | CmdLogFetch g since => send_frame (CLogFetch g since) s
  | CmdDisconnected g reason =>
      match inner s with
      | None => s
      | Some i =>
          if negb (gen i =? g) then s
          else
            let s := set_conn (DisconnectedState reason (now s + backoff s)) (set_inner None s) in
            back_off false (now s) 0 s
      end
  end.

(** One command drained while the reconnect loop sleeps. *)
Definition backing_cmd (boot : bool) (start attempts : N) (c : SupervisorCmd) (s : State) : State :=
  match c with
  | CmdShutdown => stop s
  | CmdSend reply _ => answer reply (Err (Disconnected "client is reconnecting")) s
  | CmdWatchPresence add remove => set_watch (apply_watch add remove (watch_set s)) s
  | CmdAckTransit _ | CmdLogAppend _ | CmdLogFetch _ _ | CmdDisconnected _ _ => s
  | CmdReconnectNow =>
      set_conn Connecting (set_phase (Opening boot start attempts) (set_backoff INITIAL_BACKOFF s))
  end.

(** The result of [open_session]. *)
Definition opened (boot : bool) (start attempts : N)
    (r : result EffectiveCapabilities string) (s : State) : State :=
  match r with
  | Ok caps => set_backoff INITIAL_BACKOFF (install caps s)
  | Err e =>
      let attempts := saturating_add u32_max attempts 1 in
      let reason := String.append "reconnect failed: " e in
      let s := set_backoff (N.min (backoff s * 2) MAX_BACKOFF) s in
      let hit_attempts := match max_reconnect_attempts cfg with Some m => m <=? attempts | None => false end in
      let hit_elapsed := match max_reconnect_elapsed cfg with Some d => d <=? now s - start | None => false end in
      if hit_attempts || hit_elapsed then
        let s := set_conn (PermanentlyDisconnected reason attempts) s in
        if boot then set_phase Idle s else stop s
      else
        back_off boot start attempts
          (set_conn (DisconnectedState reason (now s + backoff s)) s)
  end.

(** ** The reader *)

Definition with_inner (f : Inner -> Inner) (s : State) : State := set_inner (f <$> inner s) s.

(** The reader leaves its loop and reports its generation. *)
Definition reader_ends (reason : string) (s : State) : State :=
  match inner s with
  | None => s
  | Some i => push (CmdDisconnected (gen i) reason) (set_inner (Some (set_reader false i)) s)
  end.

Definition bye_debug (r : ByeReason) : string :=
  match r with
  | ClientGoodbye => "ClientGoodbye" | ServerShutdown => "ServerShutdown"
  | AuthExpired => "AuthExpired" | ProtocolError => "ProtocolError"
  | DisplacedByNewSession => "DisplacedByNewSession"
  end.

Definition read_frame (f : ServerFrame) (s : State) : State :=
  match f with
  | SAck key at_ms => with_inner (fun i => set_outbox (ack key at_ms (outbox i)).2 i) s
  | SDeliver _ _ _ =>
      if handle_open s then set_inbox (inbox s ++ [f]) s else reader_ends "inbox dropped" s
  | SPresenceUpdate _ _ =>
      if handle_open s then set_presence (presence s ++ [f]) s
      else reader_ends "presence channel dropped" s
  | SPong nonce => with_inner (fun i => set_outbox (record_pong (now s) nonce (outbox i)) i) s
  | SLogRecords g recs fin =>
      if handle_open s then set_log_records (log_records s ++ [(g, recs, fin)]) s else s
  | SThrottle _ _ | SReady _ _ _ => s
  | SMoved key => with_inner (fun i => set_outbox (moved key (outbox i)).2 i) s
  | SBye reason => reader_ends (String.append "relay sent Bye: " (bye_debug reason)) s
  end.

(** ** Events *)

Inductive Event :=
| Call (c : ClientCall)
| DropHandle
| Time (d : N)
| Recv
| TakeSink (w : Writer)
| Written (r : WriteResult)
| Resolve
| AckLate
| SleepOver
| Opened (r : result EffectiveCapabilities string)
| Frame (f : ServerFrame)
| ReaderEnds (reason : string)
| KaTick (nonce : N)
| KaWritten (r : result unit string)
| Abort.

Definition take_sink (w : Writer) (s : State) : option State :=
  match inner s with
  | Some i =>
      match sink i with
      | Some _ => None
      | None =>
          let i := set_sink (Some w) i in
          match w, phase s, ka i with
          | BySupervisor, SendLock r t f, _ =>
              Some (set_phase (SendWrite r t f (now s + send_write_timeout cfg)) (set_inner (Some i) s))
          | BySupervisor, FrameLock f, _ => Some (set_phase (FrameWrite f) (set_inner (Some i) s))
          | ByKeepalive, _, KaLock next nonce =>
              Some (set_inner (Some (set_ka (KaWrite next nonce) i)) s)
          | _, _, _ => None
          end
      end
  | None => None
  end.

(** The supervisor's write comes back, or its timeout fires: only a send's write
    has one. *)
Definition supervisor_wrote (r : WriteResult) (s : State) : option State :=
  match inner s with
  | None => None
  | Some i =>
      match phase s, r with
      | SendWrite reply t f deadline, Some (Ok _) =>
          Some (set_phase (SendAck reply t f (now s + send_ack_timeout cfg))
                  (set_inner (Some (set_sink None (wrote true (CSend f) i))) s))
      | SendWrite reply t f deadline, Some (Err e) =>
          Some (set_phase Idle (answer reply (Err (WebSocket e))
                  (set_inner (Some (set_sink None (wrote false (CSend f) i))) s)))
      | SendWrite reply t f deadline, None =>
          if deadline <=? now s then
            Some (set_phase Idle (answer reply (Err (SendTimeout (send_write_timeout cfg)))
                    (set_inner (Some (set_sink None (wrote false (CSend f) i))) s)))
          else None
      | FrameWrite f, Some r =>
          Some (set_phase Idle (set_inner (Some (set_sink None (wrote (is_ok r) f i))) s))
      | _, _ => None
      end
  end.

Definition resolution_reply (v : SendResolution) : result Receipt ClientError :=
  match v with Acked receipt => Ok receipt | Moved => Err RecipientMoved end.

(** The send's one-shot completes, or loses its sender. *)
Definition resolve_send (s : State) : option State :=
  match phase s, inner s with
  | SendAck reply t _ _, Some i =>
      match completed (outbox i) !! t with
      | Some v => Some (set_phase Idle (answer reply (resolution_reply v) s))
      | None =>
          if sender_alive t (outbox i) then None
          else Some (set_phase Idle (answer reply (Err InboxClosed) s))
      end
  | _, _ => None
  end.

(** The keepalive task's ping comes back; then it looks at the last pong (the
    reason it reports also prints how old that is). *)
Definition keepalive_wrote (r : result unit string) (s : State) : option State :=
  match inner s with
  | Some i =>
      match ka i with
      | KaWrite next nonce =>
          let i := set_sink None (wrote (is_ok r) (CPing nonce) i) in
          let gone reason := push (CmdDisconnected (gen i) reason) (set_inner (Some (set_ka KaGone i)) s) in
          match r with
          | Err e => Some (gone (String.append "send ping: " e))
          | Ok _ =>
              let silent := match pong_timeout cfg with
                            | Some d => d <? now s - last_pong (outbox i)
                            | None => false
                            end in
              if silent then Some (gone "no Pong"%string)
              else Some (set_inner (Some (set_ka (KaWaiting next) i)) s)
          end
      | _ => None
      end
  | None => None
  end.

Definition keepalive_tick (nonce : N) (s : State) : option State :=
  match inner s, keepalive cfg with
  | Some i, Some d =>
      match ka i with
      | KaWaiting next =>
          if next <=? now s then
            match encode_error (CPing nonce) with
            | None => Some (set_inner (Some (set_ka (KaLock (next + d) nonce) i)) s)
            | Some e => Some (push (CmdDisconnected (gen i) (String.append "encode ping: " e))
                                (set_inner (Some (set_ka KaGone i)) s))
            end
          else None
      | _ => None
      end
  | _, _ => None
  end.

Definition step (ev : Event) (s : State) : option State :=
  match ev with
  | Call c => if handle_open s then Some (call c s) else None
  | DropHandle =>
      if handle_open s then
        Some (match phase s with Stopped => set_handle false s | _ => push CmdShutdown (set_handle false s) end)
      else None
  | Time d => Some (set_now (now s + d) s)
  | Recv =>
      match queue s with
      | [] => None
      | c :: q =>
          match phase s with
          | Idle => Some (run_cmd c (set_queue q s))
          | Backing boot start attempts _ => Some (backing_cmd boot start attempts c (set_queue q s))
          | _ => None
          end
      end
  | TakeSink w => take_sink w s
  | Written r => supervisor_wrote r s
  | Resolve => resolve_send s
  | AckLate =>
      match phase s with
      | SendAck reply _ _ deadline =>
          if deadline <=? now s then
            Some (set_phase Idle (answer reply (Err (SendTimeout (send_ack_timeout cfg))) s))
          else None
      | _ => None
      end
  | SleepOver =>
      match phase s with
      | Backing boot start attempts deadline =>
          if deadline <=? now s then Some (set_conn Connecting (set_phase (Opening boot start attempts) s))
          else None
      | _ => None
      end
  | Opened r =>
      match phase s with
      | Opening boot start attempts => Some (opened boot start attempts r s)
      | _ => None
      end
  | Frame f =>
      match inner s with
      | Some i => if reader_up i then Some (read_frame f s) else None
      | None => None
      end
  | ReaderEnds reason =>
      match inner s with
      | Some i => if reader_up i then Some (reader_ends reason s) else None
      | None => None
      end
  | KaTick nonce => keepalive_tick nonce s
  | KaWritten r => keepalive_wrote r s
  | Abort => if handle_open s then None else Some (stop s)
  end.

Definition run (evs : list Event) (s : State) : option State :=
  foldl (fun o ev => o ≫= step ev) (Some s) evs.

(** [Client::connect] and the start of [run]: the first [open_session], then
    [bootstrap]. *)
Definition fresh (c : ConnState) (t : N) : State :=
  mkState Idle None 1 INITIAL_BACKOFF ∅ [] c t true [] [] [] [].
Definition connect (first : result EffectiveCapabilities string) (t : N) : State :=
  match first with
  | Ok caps => install caps (fresh (Connected caps) t)
  | Err _ => back_off true t 0
               (set_conn (DisconnectedState "initial connect pending" (t + INITIAL_BACKOFF))
                  (fresh Connecting t))
  end.
End supervisor.

(** ** Fetching a group log

    What the caller's [rx.recv] under its timeout comes back with. *)

Abbreviation LogChunk := (GroupId * list LogRecordWire * bool)%type.
Inductive RxEvent := RxChunk (c : LogChunk) | RxClosed | RxTimeout.

(** The loop of [log_fetch]; [None] is still waiting. *)
Fixpoint log_fetch_loop (group_id : GroupId) (out : list LogRecordWire) (rx : list RxEvent)
    : option (result (list LogRecordWire) ClientError) :=
  match rx with
  | [] => None
  | RxChunk (g, recs, fin) :: rest =>
      if bool_decide (g = group_id) then
        let out := out ++ recs in
        if fin then Some (Ok out) else log_fetch_loop group_id out rest
      else log_fetch_loop group_id out rest
  | RxClosed :: _ => Some (Err InboxClosed)
  | RxTimeout :: _ => Some (Err (LogFetchTimeout LOG_FETCH_CHUNK_TIMEOUT))
  end.

(** [stopped]: the supervisor is gone.  Chunks already in the channel are thrown
    away; [rx] is what arrives from then on. *)
Definition log_fetch (stopped : bool) (queued : list LogChunk) (group_id : GroupId)
    (rx : list RxEvent) : option (result (list LogRecordWire) ClientError) :=
  if stopped then Some (Err InboxClosed) else log_fetch_loop group_id [] rx.

(** ** A set of relays ([relay_set.rs])

    One result per relay, in the order of the set. *)
Module RelaySet.

(** What [connect] keeps of the per-relay results. *)
Definition connect {C} (results : list (result C ClientError)) : result (list C) ClientError :=
  match results with
  | [] => Err InboxClosed
  | _ =>
      let relays := omap (fun r => match r with Ok c => Some c | Err _ => None end) results in
      let last_err := foldl (fun acc r => match r with Ok _ => acc | Err e => Some e end) None results in
      match relays with
      | [] => Err (default InboxClosed last_err)
      | _ => Ok relays
      end
  end.

Record SendOutcome := mkOutcome {
  primary : Receipt;
  extras : list (result Receipt ClientError);
}.

Definition collect (acc : option Receipt * list (result Receipt ClientError))
    (r : result Receipt ClientError) : option Receipt * list (result Receipt ClientError) :=
  match r, acc.1 with
  | Ok receipt, None => (Some receipt, acc.2)
  | other, _ => (acc.1, acc.2 ++ [other])
  end.
Definition send (results : list (result Receipt ClientError)) : result SendOutcome ClientError :=
  let '(primary, extras) := foldl collect (None, []) results in
  match primary with
  | Some p => Ok (mkOutcome p extras)
  | None =>
      Err (default InboxClosed
             (last (omap (fun r => match r with Err e => Some e | Ok _ => None end) extras)))
  end.

(** [watch_presence] and [unwatch_presence] over the relays' results. *)
Definition any_ok (results : list (result unit ClientError)) : result unit ClientError :=
  let ok := existsb is_ok results in
  let last_err := foldl (fun acc r => match r with Ok _ => acc | Err e => Some e end) None results in
  if ok || negb (is_some last_err) then Ok tt else Err (default InboxClosed last_err).

(** The relay an acknowledgement goes to. *)
Definition ack_transit {C} (relays : list C) (relay : nat) : result C ClientError :=
  match relays !! relay with Some c => Ok c | None => Err InboxClosed end.
Definition log_relay {C} (relays : list C) : result C ClientError :=
  match head relays with Some c => Ok c | None => Err InboxClosed end.
End RelaySet.

(** ** Probing candidates ([region_probe.rs])

    One probe: it failed, or the measured round trip and the region the relay
    named. *)
Record ProbeResult := mkProbe { pr_base : string; pr_rtt : N; pr_region : Region }.
Definition rtt_le (a b : ProbeResult) : Prop := pr_rtt a <= pr_rtt b.
#[export] Instance rtt_le_dec : RelDecision rtt_le.
Proof. unfold rtt_le. intros ? ?. apply _. Defined.

(** [sort_by_key] is stable. *)
Definition probe (answers : list (string * option (N * string))) : list ProbeResult :=
  merge_sort rtt_le
    (omap (fun a => match a.2 with
                    | Some (rtt, tag) => Some (mkProbe a.1 rtt (region_from tag))
                    | None => None
                    end) answers).
