(* ===== verification/RelayClientRuns.v ===== *)
(** * What a relay client guarantees

    Invariants of the transition system of [RelayClient], and its composition
    with the relay's side of the session ([RelayWs]): presence watches survive
    reconnects, every send is answered once and in order, reconnecting gives up
    when its budget is spent, a group-log fetch returns what the relay stored. *)
From S2P Require Import Prelude RelayProto RelayAuth Transit GroupLog Session PairRecord PairIndex RelayWs RelayClient.

(** ** The run of a client

    Facts about every step, one induction for all of them. *)

Section runs.
Context (cfg : ClientConfig) (encode_error : ClientFrame -> option string).
Abbreviation step := (step cfg encode_error).
Abbreviation run := (run cfg encode_error).

Lemma run_None evs : foldl (fun o ev => o ≫= step ev) None evs = None.
Proof. induction evs as [|ev evs IH]; [done|]. cbn. apply IH. Qed.

Lemma run_cons ev evs s s' :
  run (ev :: evs) s = Some s' <-> exists s1, step ev s = Some s1 /\ run evs s1 = Some s'.
Proof.
  unfold RelayClient.run. cbn. destruct (step ev s) as [s1|] eqn:Hs; cbn.
  - split; [eauto | intros (? & [= <-] & ?); done].
  - rewrite run_None. split; [done | by intros (? & ? & ?)].
Qed.

Lemma run_ind (P : State -> list Event -> Prop) :
  (forall s, P s []) ->
  (forall ev s s1 evs, step ev s = Some s1 -> P s1 evs -> P s (ev :: evs)) ->
  forall evs s s', run evs s = Some s' -> P s evs.
Proof.
  intros H0 H1 evs. induction evs as [|ev evs IH]; intros s s' Hr; [apply H0|].
  apply run_cons in Hr as (s1 & Hs & Hr). eauto.
Qed.

Lemma run_invariant (P : State -> Prop) :
  (forall ev s s', P s -> step ev s = Some s' -> P s') ->
  forall evs s s', P s -> run evs s = Some s' -> P s'.
Proof.
  intros H evs. induction evs as [|ev evs IH]; intros s s' Hp Hr; [by injection Hr as <-|].
  apply run_cons in Hr as (s1 & Hs & Hr). eauto.
Qed.

(** A connection exists exactly where the supervisor's position needs one; a
    stopped supervisor holds nothing. *)
Definition shape (s : State) : Prop :=
  match phase s with
  | Idle => True
  | SendLock _ _ _ | SendWrite _ _ _ _ | SendAck _ _ _ _ | FrameLock _ | FrameWrite _ =>
      is_Some (inner s)
  | Backing _ _ _ _ | Opening _ _ _ => inner s = None
  | Stopped => inner s = None /\ queue s = []
  end.

(** Case analysis of one step: on the event, then on whatever the step looks at. *)
Ltac step_cases Hs :=
  match type of Hs with
  | RelayClient.step _ _ ?ev ?s = Some _ => destruct ev; cbn in Hs
  end;
  unfold RelayClient.take_sink, supervisor_wrote, resolve_send, keepalive_wrote, keepalive_tick, run_cmd,
    backing_cmd, opened, install, read_frame, reader_ends, with_inner, start_send, send_ack_frame,
    send_watch_frame, send_frame, back_off, call, call_cmd, stop in Hs;
  repeat (first [ progress simplify_eq/= | case_match ]).

Lemma shape_step ev s s' : shape s -> step ev s = Some s' -> shape s'.
Proof.
  intros H Hs. unfold shape in *. destruct s as [p i ng b w q c t h r ib pr lr]; cbn in *.
  step_cases Hs; naive_solver.
Qed.

Lemma shape_connect first t : shape (connect cfg encode_error first t).
Proof.
  destruct first as [caps|e]; [|done]. unfold connect, install, send_watch_frame, send_frame, shape.
  destruct (keepalive cfg); cbn; by rewrite elements_empty.
Qed.

(** ** Every send is answered, in order *)

Definition cmd_reply (c : SupervisorCmd) : option N :=
  match c with CmdSend r _ => Some r | _ => None end.

(** The sends answered so far, the one being carried out, the ones queued. *)
Definition sends (s : State) : list N :=
  (replies s).*1 ++ current_reply (phase s) ++ omap cmd_reply (queue s).
Definition submitted (ev : Event) : list N :=
  match ev with Call (Send r _) => [r] | _ => [] end.

Lemma closed_replies q : (omap closed_reply q).*1 = omap cmd_reply q.
Proof. induction q as [|[] q IH]; cbn; by rewrite ?IH. Qed.

Lemma sends_step ev s s' :
  shape s -> step ev s = Some s' -> sends s' = sends s ++ submitted ev.
Proof.
  intros H Hs. unfold shape in *. destruct s as [p i ng b w q c t h r ib pr lr]; cbn in *.
  step_cases Hs; unfold sends; cbn in *; try (destruct H; simplify_eq);
    rewrite ?app_nil_r, ?fmap_app, ?omap_app, ?closed_replies, <- ?app_assoc; cbn;
    by rewrite ?closed_replies, ?app_nil_r.
Qed.
Lemma run_snoc_ind s0 (P : list Event -> State -> Prop) :
  P [] s0 ->
  (forall evs ev s s', P evs s -> step ev s = Some s' -> P (evs ++ [ev]) s') ->
  forall evs s, run evs s0 = Some s -> P evs s.
Proof.
  intros H0 H1 evs. induction evs as [|ev evs IH] using rev_ind; intros s Hr; [by injection Hr as <-|].
  unfold RelayClient.run in *. rewrite foldl_app in Hr. cbn in Hr.
  destruct (foldl _ (Some s0) evs) as [s1|]; [|done]. eauto.
Qed.

(** Whatever the network and the other tasks do, the
    sends a client has accepted are, in the order they were submitted, the ones it
    has answered, the one it is carrying out and the ones still queued; so each is
    answered at most once and none overtakes another, across disconnects and
    reconnects; and a supervisor that has stopped has answered every one of them. *)
Theorem sends_answered_in_order (first : result EffectiveCapabilities string) (t : N)
    (evs : list Event) (s : State) :
  run evs (connect cfg encode_error first t) = Some s ->
  (replies s).*1 ++ current_reply (phase s) ++ omap cmd_reply (queue s) = evs ≫= submitted /\
  (phase s = Stopped -> (replies s).*1 = evs ≫= submitted).
Proof.
  intros Hr. assert (shape s /\ sends s = evs ≫= submitted) as [Hsh Hs].
  { revert evs s Hr. apply run_snoc_ind.
    - split; [apply shape_connect|]. destruct first as [caps|e]; [|done].
      unfold connect, install, send_watch_frame, send_frame, sends. cbn.
      by destruct (keepalive cfg); cbn; rewrite elements_empty.
    - intros evs ev s s' [Hsh Hs] Hstep. split; [by eapply shape_step|].
      rewrite (sends_step _ _ _ Hsh Hstep), Hs, bind_app. cbn. by rewrite app_nil_r. }
  split; [done|]. intros Hp. rewrite <- Hs. unfold sends, shape in *. rewrite Hp in *.
  destruct Hsh as [_ ->]. cbn. by rewrite app_nil_r.
Qed.

(** ** A send reported delivered was acknowledged *)

(** Tickets are handed out once. *)
Record outbox_wf (o : Outbox) : Prop := {
  ow_pending : forall k t, by_dedupe o !! k = Some t -> t < next_ticket o /\ completed o !! t = None;
  ow_inj : forall k k' t, by_dedupe o !! k = Some t -> by_dedupe o !! k' = Some t -> k = k';
  ow_done : forall t, is_Some (completed o !! t) -> t < next_ticket o;
}.

(** The send that holds ticket [t] under key [k] is still pending, or was
    completed, and by an acknowledgement only if one for its key arrived. *)
Definition ticket_ok (evs : list Event) (k : DedupeKey) (t : N) (o : Outbox) : Prop :=
  by_dedupe o !! k = Some t \/
  exists v, completed o !! t = Some v /\
    forall a, v = Acked (mkReceipt a) -> Frame (SAck k a) ∈ evs.

Lemma outbox_wf_new now : outbox_wf (outbox_new now).
Proof. constructor; cbn; [by intros ?? ?%lookup_empty_Some | by intros ??? ?%lookup_empty_Some | by intros ? [? ?%lookup_empty_Some]]. Qed.

Lemma outbox_wf_track k o : outbox_wf o -> outbox_wf (track k o).2.
Proof.
  intros [H1 H2 H3]. constructor; cbn.
  - intros k' t. rewrite lookup_insert_Some. intros [[<- <-]|[Hne Hk]].
    + split; [lia|]. apply eq_None_not_Some. intros Hd%H3. lia.
    + destruct (H1 _ _ Hk). split; [lia|done].
  - intros k1 k2 t. rewrite !lookup_insert_Some.
    intros [[<- <-]|[? Hk1]] [[<- ?]|[? Hk2]]; try done; [destruct (H1 _ _ Hk2) | destruct (H1 _ _ Hk1) | eauto]; lia.
  - intros t Ht%H3. lia.
Qed.

Lemma outbox_wf_complete k v o : outbox_wf o -> outbox_wf (complete k v o).2.
Proof.
  intros Hw. pose proof Hw as [H1 H2 H3]. unfold complete. destruct (by_dedupe o !! k) as [t|] eqn:Hk; [|done].
  destruct (H1 _ _ Hk). constructor; cbn.
  - intros k' t'. rewrite lookup_delete_Some. intros [Hne Hk']. destruct (H1 _ _ Hk'). split; [done|].
    rewrite lookup_insert_ne; [done|]. intros ->. by apply Hne, (H2 k k' t').
  - intros k1 k2 t'. rewrite !lookup_delete_Some. intros [? ?] [? ?]. eauto.
  - intros t' [v' Hv']. apply lookup_insert_Some in Hv' as [[<- _]|[_ Hv']]; [done|]. eauto.
Qed.

Lemma ticket_ok_mono evs ev k t o : ticket_ok evs k t o -> ticket_ok (evs ++ [ev]) k t o.
Proof. intros [?|(v & ? & Hv)]; [by left|]. right. exists v. split; [done|]. set_solver. Qed.

Lemma ticket_ok_complete evs ev k t key v o :
  outbox_wf o -> (forall a, v = Acked (mkReceipt a) -> ev = Frame (SAck key a)) ->
  ticket_ok evs k t o -> ticket_ok (evs ++ [ev]) k t (complete key v o).2.
Proof.
  intros [H1 H2 H3] Hev Ht. unfold complete. destruct (by_dedupe o !! key) as [t'|] eqn:Hk;
    [|by apply ticket_ok_mono].
  destruct Ht as [Ht|(v' & Hv' & Ha)]; unfold ticket_ok; cbn.
  - destruct (decide (key = k)) as [->|Hne].
    + right. exists v. simplify_eq. rewrite lookup_insert_eq. split; [done|]. intros a ->.
      rewrite (Hev a eq_refl). set_solver.
    + left. by rewrite lookup_delete_ne.
  - right. exists v'. rewrite lookup_insert_ne; [set_solver|]. intros ->.
    destruct (H1 _ _ Hk). congruence.
Qed.

Lemma ticket_ok_track evs k o : ticket_ok evs k (track k o).1 (track k o).2.
Proof. left. cbn. by rewrite lookup_insert_eq. Qed.

Lemma ticket_alive evs k t o :
  ticket_ok evs k t o -> completed o !! t = None -> sender_alive t o = true.
Proof.
  intros [Hb|(v & Hv & _)] Hn; [|congruence]. unfold sender_alive. apply bool_decide_eq_true_2.
  apply list_elem_of_fmap. exists (k, t). by rewrite elem_of_map_to_list.
Qed.

(** The send being carried out. *)
Definition current_send (p : Phase) : option (N * N * SendFrame) :=
  match p with
  | SendLock r t f | SendWrite r t f _ | SendAck r t f _ => Some (r, t, f)
  | _ => None
  end.
Definition acked_send (evs : list Event) (r : N * result Receipt ClientError) : Prop :=
  match r with
  | (id, Ok receipt) =>
      exists f, Call (Send id f) ∈ evs /\ Frame (SAck (sf_dedupe_key f) (accepted_at_ms receipt)) ∈ evs
  | _ => True
  end.
Definition cmd_called (evs : list Event) (c : SupervisorCmd) : Prop :=
  match c with CmdSend r f => Call (Send r f) ∈ evs | _ => True end.
Definition cur_ok (evs : list Event) (cur : option (N * N * SendFrame)) (o : option Outbox) : Prop :=
  match cur, o with
  | Some (r, t, f), Some o => Call (Send r f) ∈ evs /\ ticket_ok evs (sf_dedupe_key f) t o
  | Some _, None => False
  | None, _ => True
  end.
Definition box_ok (o : option Outbox) : Prop :=
  match o with Some o => outbox_wf o | None => True end.

#[local] Arguments cur_ok : simpl never.
#[local] Arguments acked_send : simpl never.
#[local] Arguments track : simpl never.
#[local] Arguments box_ok : simpl never.

Record honest (evs : list Event) (s : State) : Prop := {
  ho_queue : Forall (cmd_called evs) (queue s);
  ho_cur : cur_ok evs (current_send (phase s)) (outbox <$> inner s);
  ho_replies : Forall (acked_send evs) (replies s);
  ho_outbox : box_ok (outbox <$> inner s);
}.

Lemma elem_of_snoc_old {A} (x y : A) l : x ∈ l -> x ∈ l ++ [y].
Proof. set_solver. Qed.
Lemma elem_of_snoc_new {A} (x : A) l : x ∈ l ++ [x].
Proof. set_solver. Qed.
Lemma cmd_called_mono evs ev l : Forall (cmd_called evs) l -> Forall (cmd_called (evs ++ [ev])) l.
Proof. intros H. eapply Forall_impl; [exact H|]. intros [] ?; cbn in *; set_solver. Qed.
Lemma acked_send_mono evs ev l : Forall (acked_send evs) l -> Forall (acked_send (evs ++ [ev])) l.
Proof.
  intros H. eapply Forall_impl; [exact H|]. intros [? []]; cbn in *; [|done]. intros (f & ? & ?). exists f. set_solver.
Qed.
Lemma acked_send_closed evs q : Forall (acked_send evs) (omap closed_reply q).
Proof. induction q as [|[] q IH]; cbn; auto. by constructor. Qed.

Lemma cur_ok_mono evs ev c o : cur_ok evs c o -> cur_ok (evs ++ [ev]) c o.
Proof.
  destruct c as [[[r t] f]|]; [|done]. destruct o; [|done]. intros [? ?]. split; [set_solver|].
  by apply ticket_ok_mono.
Qed.
Lemma cur_ok_none evs o : cur_ok evs None o.
Proof. done. Qed.
Lemma cur_ok_complete evs ev c key v o :
  box_ok (Some o) -> (forall a, v = Acked (mkReceipt a) -> ev = Frame (SAck key a)) ->
  cur_ok evs c (Some o) -> cur_ok (evs ++ [ev]) c (Some (complete key v o).2).
Proof.
  destruct c as [[[r t] f]|]; [|done]. intros ? ? [? ?]. split; [set_solver|].
  by apply ticket_ok_complete.
Qed.
Lemma cur_ok_ack evs c key a o :
  box_ok (Some o) -> cur_ok evs c (Some o) ->
  cur_ok (evs ++ [Frame (SAck key a)]) c (Some (ack key a o).2).
Proof. intros. apply cur_ok_complete; [done|congruence|done]. Qed.
Lemma cur_ok_moved evs ev c key o :
  box_ok (Some o) -> cur_ok evs c (Some o) -> cur_ok (evs ++ [ev]) c (Some (moved key o).2).
Proof. intros. by apply cur_ok_complete. Qed.
Lemma cur_ok_track evs ev r f o :
  Call (Send r f) ∈ evs ->
  cur_ok (evs ++ [ev]) (Some (r, (track (sf_dedupe_key f) o).1, f)) (Some (track (sf_dedupe_key f) o).2).
Proof. intros H. split; [set_solver | apply ticket_ok_track]. Qed.
Lemma cur_ok_pong evs ev c nonce now o :
  cur_ok evs c (Some o) -> cur_ok (evs ++ [ev]) c (Some (record_pong now nonce o)).
Proof. intros H. by apply (cur_ok_mono evs ev) in H. Qed.

Lemma box_ok_none : box_ok None.
Proof. done. Qed.
Lemma box_ok_complete key v o : box_ok (Some o) -> box_ok (Some (complete key v o).2).
Proof. apply outbox_wf_complete. Qed.
Lemma box_ok_track k o : box_ok (Some o) -> box_ok (Some (track k o).2).
Proof. apply outbox_wf_track. Qed.
Lemma box_ok_pong nonce now o : box_ok (Some o) -> box_ok (Some (record_pong now nonce o)).
Proof. by intros [? ? ?]. Qed.
Lemma box_ok_wrote ok f i : box_ok (Some (outbox i)) -> box_ok (Some (outbox (wrote ok f i))).
Proof. by destruct ok. Qed.
Lemma box_ok_fresh now : box_ok (Some (outbox_new now)) /\ box_ok (Some (touch_pong now (outbox_new now))).
Proof. split; apply (outbox_wf_new now). Qed.

Lemma acked_send_err evs r e : acked_send evs (r, Err e).
Proof. done. Qed.
Lemma acked_send_current evs l :
  Forall (acked_send evs) ((fun r => (r, Err InboxClosed)) <$> l).
Proof. induction l; by constructor. Qed.

(** The answer of a send that resolves: by an acknowledgement, or not at all. *)
Lemma cur_ok_answer evs ev r t f v o :
  completed o !! t = Some v -> cur_ok evs (Some (r, t, f)) (Some o) ->
  box_ok (Some o) -> acked_send (evs ++ [ev]) (r, resolution_reply v).
Proof.
  intros Hv [Hcall [Hp|(v' & Hv' & Ha)]] Hw.
  - destruct (ow_pending _ Hw _ _ Hp). congruence.
  - simplify_eq. destruct v as [[a]|]; [|done]. exists f. split; [set_solver|]. cbn.
    apply elem_of_snoc_old. by apply Ha.
Qed.

Hint Resolve elem_of_snoc_old elem_of_snoc_new cmd_called_mono acked_send_mono acked_send_closed
  cur_ok_mono cur_ok_none cur_ok_ack cur_ok_moved cur_ok_track cur_ok_pong cur_ok_answer
  box_ok_none box_ok_complete box_ok_track box_ok_pong box_ok_wrote acked_send_err
  acked_send_current : fetchit.

Lemma honest_step evs ev s s' : honest evs s -> step ev s = Some s' -> honest (evs ++ [ev]) s'.
Proof.
  intros [Hq Hc Hr Ho] Hs. destruct s as [p i ng b w q c t h r ib pr lr]; cbn in *.
  step_cases Hs;
    try (match goal with H : Forall (cmd_called _) (_ :: _) |- _ => apply Forall_cons_1 in H as [??] end);
    try (match goal with |- context [outbox_new ?t] => destruct (box_ok_fresh t) end);
    (constructor; cbn in *; rewrite ?Forall_app, ?Forall_singleton; split_and?; cbn; eauto with fetchit).
  all: first [exact (box_ok_track _ _ Ho) | by apply (cur_ok_track evs Recv)].
Qed.

Lemma honest_connect first t : honest [] (connect cfg encode_error first t).
Proof.
  destruct first as [caps|e]; [|by constructor].
  unfold connect, install, send_watch_frame, send_frame.
  destruct (box_ok_fresh t), (keepalive cfg); constructor; cbn; rewrite ?elements_empty; cbn; auto with fetchit.
Qed.

Lemma honest_run first t evs s : run evs (connect cfg encode_error first t) = Some s -> honest evs s.
Proof. revert evs s. apply run_snoc_ind; [apply honest_connect|]. intros. by eapply honest_step. Qed.

(** C8: a send reported delivered was handed to this client
    and the relay's acknowledgement for that very send's key arrived, with the
    acceptance time the caller is given; no acknowledgement of another send, of a
    timed-out earlier attempt under another key or of a previous connection can
    stand in for it. *)
Theorem send_ok_means_acked (first : result EffectiveCapabilities string) (t : N)
    (evs : list Event) (s : State) (id : N) (receipt : Receipt) :
  run evs (connect cfg encode_error first t) = Some s ->
  (id, Ok receipt) ∈ replies s ->
  exists f, Call (Send id f) ∈ evs /\
            Frame (SAck (sf_dedupe_key f) (accepted_at_ms receipt)) ∈ evs.
Proof.
  intros Hr Hin. destruct (honest_run _ _ _ _ Hr) as [_ _ Hrep _].
  exact (proj1 (Forall_forall _ _) Hrep _ Hin).
Qed.

(** The one-shot of the send being carried out never closes, so a send whose
    acknowledgement is lost waits for its timeout: it is answered
    [SendTimeout], not [InboxClosed] as the documentation of [Client::send] has
    it. *)
Lemma live_send_never_closed first t evs s s' :
  run evs (connect cfg encode_error first t) = Some s -> resolve_send s = Some s' ->
  exists id v, replies s' = replies s ++ [(id, resolution_reply v)].
Proof.
  intros Hr Hs. destruct (honest_run _ _ _ _ Hr) as [_ Hc _ _]. unfold resolve_send in Hs.
  destruct (phase s) as [| | |reply tk f d| | | | |]; try done. cbn in Hc.
  destruct (inner s) as [i|]; [|done]. destruct (completed (outbox i) !! tk) as [v|] eqn:Hv.
  - injection Hs as <-. by exists reply, v.
  - destruct Hc as [_ Ht]. by rewrite (ticket_alive _ _ _ _ Ht Hv) in Hs.
Qed.

(** ** The relay watches whom the client watches *)

Definition is_watch (f : ClientFrame) : bool :=
  match f with CWatchPresence _ _ => true | _ => false end.
(** The watch set the frames of one connection add up to. *)
Definition view_frame (w : gset AgentId) (f : ClientFrame) : gset AgentId :=
  match f with CWatchPresence add remove => apply_watch add remove w | _ => w end.
Definition relay_view (fs : list ClientFrame) : gset AgentId := foldl view_frame ∅ fs.

(** The frame the supervisor is about to write. *)
Definition pending (p : Phase) : list ClientFrame :=
  match p with FrameLock f | FrameWrite f => [f] | _ => [] end.

(** Unless a watch frame was lost on this connection, what was written and what
    is about to be make up the watch set. *)
Definition sync_ok (w : gset AgentId) (wr lo pend : list ClientFrame) : Prop :=
  List.filter is_watch lo = [] -> relay_view (wr ++ pend) = w.
Definition synced (s : State) : Prop :=
  match inner s with
  | None => True
  | Some i => sync_ok (watch_set s) (written i) (lost i) (pending (phase s))
  end.
#[local] Arguments sync_ok : simpl never.
#[local] Arguments apply_watch : simpl never.

Lemma relay_view_snoc fs f : relay_view (fs ++ [f]) = view_frame (relay_view fs) f.
Proof. unfold relay_view. by rewrite foldl_app. Qed.
Lemma apply_watch_nil w : apply_watch [] [] w = w.
Proof. unfold apply_watch. set_solver. Qed.
Lemma relay_view_skip fs f gs : is_watch f = false -> relay_view ((fs ++ [f]) ++ gs) = relay_view (fs ++ gs).
Proof. intros Hf. unfold relay_view. rewrite !foldl_app. by destruct f. Qed.

Lemma sync_sent w wr lo f : sync_ok w wr lo [f] -> sync_ok w (wr ++ [f]) lo [].
Proof. unfold sync_ok. by rewrite app_nil_r. Qed.
Lemma sync_skip w wr lo pend f :
  is_watch f = false -> sync_ok w wr lo pend -> sync_ok w (wr ++ [f]) lo pend.
Proof. unfold sync_ok. intros Hf. by rewrite relay_view_skip. Qed.
Lemma sync_lost_other w wr lo pend f :
  is_watch f = false -> sync_ok w wr lo pend -> sync_ok w wr (lo ++ [f]) pend.
Proof. unfold sync_ok. intros Hf. rewrite List.filter_app. cbn. by rewrite Hf, app_nil_r. Qed.
Lemma sync_lost w wr lo pend add remove : sync_ok w wr (lo ++ [CWatchPresence add remove]) pend.
Proof. unfold sync_ok. rewrite List.filter_app. by intros ?%app_nil%proj2. Qed.
Lemma sync_wrote w f (ok : bool) i :
  sync_ok w (written i) (lost i) [f] -> sync_ok w (written (wrote ok f i)) (lost (wrote ok f i)) [].
Proof.
  destruct ok; cbn; [apply sync_sent|]. unfold sync_ok. rewrite List.filter_app, app_nil_r.
  destruct f; cbn; rewrite ?app_nil_r; try (intros H Hl; rewrite <- (H Hl); by rewrite relay_view_snoc).
  by intros _ ?%app_nil%proj2.
Qed.
Lemma sync_other w wr lo f : is_watch f = false -> sync_ok w wr lo [] -> sync_ok w wr lo [f].
Proof. unfold sync_ok. rewrite app_nil_r, relay_view_snoc. by destruct f. Qed.
Lemma sync_cmd add remove w wr lo :
  sync_ok w wr lo [] -> sync_ok (apply_watch add remove w) wr lo [CWatchPresence add remove].
Proof. unfold sync_ok. rewrite app_nil_r, relay_view_snoc. cbn. intros H Hl. by rewrite (H Hl). Qed.
Lemma sync_fresh w : sync_ok w [] [] [CWatchPresence (elements w) []].
Proof. intros _. cbn. unfold apply_watch. set_solver. Qed.
Lemma sync_empty w : elements w = [] -> sync_ok w [] [] [].
Proof. intros He%elements_empty_iff _. cbn. set_solver. Qed.
Lemma sync_nil w wr lo pend : sync_ok w wr lo pend -> sync_ok (apply_watch [] [] w) wr lo pend.
Proof. by rewrite apply_watch_nil. Qed.

Hint Resolve sync_lost sync_sent sync_skip sync_lost_other sync_wrote sync_other sync_cmd sync_fresh
  sync_empty sync_nil : fetchit.

Lemma synced_step ev s s' : shape s -> synced s -> step ev s = Some s' -> synced s'.
Proof.
  intros Hsh H Hs. unfold synced, shape in *. destruct s as [p i ng b w q c t h r ib pr lr]; cbn in *.
  step_cases Hs; auto with fetchit;
    match goal with E : elements _ = _ |- _ => rewrite <- E end; auto with fetchit;
    apply (sync_lost _ _ []).
Qed.

Lemma synced_run first t evs s :
  run evs (connect cfg encode_error first t) = Some s -> shape s /\ synced s.
Proof.
  revert evs s. apply run_snoc_ind.
  - split; [apply shape_connect|]. destruct first as [caps|e]; [|done].
    unfold connect, install, send_watch_frame, send_frame, synced.
    by destruct (keepalive cfg); cbn; rewrite elements_empty.
  - intros evs ev s s' [Hsh Hs] Hstep. eauto using shape_step, synced_step.
Qed.

(** *** The relay's side *)

Context {T L : Type} `{TransitStore T} `{GroupLogStore L} `{EncodedLen}.

(** The relay's io loop over the frames of one connection, each handled with its
    own readings of the limiter and the clock. *)
Definition serve (cn : Conn) (fs : list (Reading * ClientFrame)) (r : Relay T L) : Relay T L :=
  foldl (fun r f => (handle_client_frame cn f.1 f.2 r).2) r fs.

Definition watches_of (sid : SessionId) (r : SessionRegistry) : gset AgentId :=
  default ∅ (watches_by_session r !! sid).

Lemma tell_sessions tx f (r : Relay T L) : r_sessions (tell tx f r) = r_sessions r.
Proof. done. Qed.

Lemma other_frame_sessions cn rd f (r : Relay T L) :
  is_watch f = false -> r_sessions (handle_client_frame cn rd f r).2 = r_sessions r.
Proof.
  destruct f as [| |[to env key]| | | | |[g k rc p]|]; try done; intros _; cbn.
  - unfold recipient_moved. repeat (case_match; try done).
  - by destruct (try_send _ _ _).
  - repeat (case_match; try done).
Qed.

(** The names a connection's watch frames add. *)
Definition names (fs : list ClientFrame) : gset AgentId :=
  list_to_set (fs ≫= fun f => match f with CWatchPresence add _ => add | _ => [] end).

Lemma add_loop_watches (sid : SessionId) (tx : Sender) (agents : list AgentId) (r : SessionRegistry)
    (cs : Channels) (U : gset AgentId) :
  N.of_nat (size U) <= MAX_WATCHES_PER_SESSION -> watches_of sid r ⊆ U -> list_to_set agents ⊆ U ->
  watches_of sid (add_watches_loop sid tx agents r cs).1 = watches_of sid r ∪ list_to_set agents.
Proof.
  intros HU. revert r cs. induction agents as [|a agents IH]; intros r cs Hr Ha; cbn; [set_solver|].
  fold (watches_of sid r). destruct (N.leb_spec MAX_WATCHES_PER_SESSION (N.of_nat (size (watches_of sid r)))).
  - assert (watches_of sid r = U) as Heq; [|clear IH; rewrite Heq; set_solver].
    apply set_subseteq_size_eq; [done|]. lia.
  - unfold add_watch. fold (watches_of sid r). case_bool_decide as Hin.
    + rewrite IH; set_solver.
    + rewrite IH; unfold watches_of in *; cbn; rewrite ?lookup_insert_eq; cbn; set_solver.
Qed.

Lemma remove_watches_of (sid : SessionId) (agents : list AgentId) (r : SessionRegistry) :
  watches_of sid (remove_watches sid agents r) = watches_of sid r ∖ list_to_set agents.
Proof.
  unfold watches_of, remove_watches, unwatch_all.
  assert (forall r, watches_by_session (foldl (fun r a => unwatch sid a r) r agents) =
                    watches_by_session r) as Hw.
  { induction agents as [|a l IH]; intros r0; [done|]. cbn. rewrite IH. apply unwatch_frame. }
  rewrite Hw. destruct (watches_by_session r !! sid) as [m|] eqn:Hm; cbn.
  - by rewrite lookup_insert_eq.
  - rewrite Hm. set_solver.
Qed.

Lemma frame_watches (cn : Conn) (rd : Reading) (f : ClientFrame) (r : Relay T L) (U : gset AgentId) :
  N.of_nat (size U) <= MAX_WATCHES_PER_SESSION -> watches_of (cn_id cn) (r_sessions r) ⊆ U ->
  names [f] ⊆ U ->
  watches_of (cn_id cn) (r_sessions (handle_client_frame cn rd f r).2) =
    view_frame (watches_of (cn_id cn) (r_sessions r)) f.
Proof.
  intros HU Hr Hf. destruct (is_watch f) eqn:Hw; [|rewrite other_frame_sessions by done; by destruct f].
  destruct f as [| | |add remove| | | | |]; try done. cbn [view_frame]. unfold names in Hf. cbn in Hf.
  rewrite app_nil_r in Hf.
  assert (forall r1 : Relay T L, watches_of (cn_id cn) (r_sessions (match remove with [] => r1 | _ =>
      set_sessions (remove_watches (cn_id cn) remove (r_sessions r1)) (r_channels r1) r1 end)) =
    watches_of (cn_id cn) (r_sessions r1) ∖ list_to_set remove) as Hrem.
  { intros r1. destruct remove; [set_solver|]. cbn [r_sessions set_sessions]. apply remove_watches_of. }
  cbn [handle_client_frame snd]. rewrite Hrem. unfold apply_watch. f_equal.
  destruct add as [|a add]; [set_solver|].
  destruct (add_watches _ _ _ _ _) as [reg cs] eqn:Hadd. cbn [r_sessions set_sessions].
  apply (f_equal fst) in Hadd. cbn [fst] in Hadd. subst reg. unfold add_watches.
  assert (forall m, watches_of (cn_id cn) (set_watches (<[cn_id cn := m]>
    (watches_by_session (r_sessions r))) (r_sessions r)) = m) as Hm
    by (intros m; unfold watches_of; cbn; by rewrite lookup_insert_eq).
  rewrite (add_loop_watches _ _ _ _ _ U), Hm; [done|done| |done]. by rewrite Hm.
Qed.

Lemma serve_watches (cn : Conn) (fs : list (Reading * ClientFrame)) (r : Relay T L) (U : gset AgentId) :
  N.of_nat (size U) <= MAX_WATCHES_PER_SESSION -> watches_of (cn_id cn) (r_sessions r) ⊆ U ->
  names fs.*2 ⊆ U ->
  watches_of (cn_id cn) (r_sessions (serve cn fs r)) =
    foldl view_frame (watches_of (cn_id cn) (r_sessions r)) fs.*2.
Proof.
  intros HU. revert r. induction fs as [|[rd f] fs IH]; intros r Hr Hn; [done|].
  unfold names in *. cbn in Hn. rewrite list_to_set_app_L in Hn.
  assert (names [f] ⊆ U) by (unfold names; cbn; rewrite app_nil_r; set_solver).
  change (serve cn ((rd, f) :: fs) r) with (serve cn fs (handle_client_frame cn rd f r).2).
  rewrite IH, (frame_watches _ _ _ _ U); [done|done|done|done| |set_solver].
  rewrite (frame_watches _ _ _ _ U) by done. unfold names in *. cbn in *. rewrite app_nil_r in *.
  destruct f; cbn in *; try done. unfold apply_watch. set_solver.
Qed.

(** Whenever the supervisor is between commands on a
    live connection that has lost no watch frame, the relay at the other end,
    having handled the frames of this connection, watches for this session exactly
    the agents in the client's watch set: every watch and unwatch since the client
    was built, also those made while it was disconnected, and none other.  The
    connection must name at most the 1024 agents the relay allows a session. *)
Theorem presence_watches_survive (first : result EffectiveCapabilities string) (t : N)
    (evs : list Event) (s : State) (i : Inner) (cn : Conn) (rds : list Reading) (r : Relay T L) :
  run evs (connect cfg encode_error first t) = Some s ->
  phase s = Idle -> inner s = Some i -> List.filter is_watch (lost i) = [] ->
  watches_of (cn_id cn) (r_sessions r) = ∅ ->
  N.of_nat (size (names (written i))) <= MAX_WATCHES_PER_SESSION -> length rds = length (written i) ->
  watches_of (cn_id cn) (r_sessions (serve cn (zip rds (written i)) r)) = watch_set s.
Proof.
  intros Hr Hp Hi Hlost Hr0 Hcap Hlen. destruct (synced_run _ _ _ _ Hr) as [_ Hs].
  assert ((zip rds (written i)).*2 = written i) as Hzip by (apply snd_zip; lia).
  rewrite (serve_watches _ _ _ (names (written i))); rewrite ?Hzip; [|done|set_solver|done].
  unfold synced in Hs. rewrite Hi, Hp in Hs. specialize (Hs Hlost). cbn in Hs.
  rewrite app_nil_r in Hs. by rewrite Hr0.
Qed.

(** ** Giving up *)

Definition failures (evs : list Event) : nat :=
  length (List.filter (fun ev => match ev with Opened (Err _) => true | _ => false end) evs).

(** After [k] failed attempts, of at most [M]. *)
Definition giving_up (M : N) (k : nat) (s : State) : Prop :=
  inner s = None /\
  match phase s with
  | Backing _ _ a _ | Opening _ _ a => a = N.of_nat k /\ a < M
  | Idle | Stopped =>
      N.of_nat k <= M /\ (N.of_nat k = M -> exists reason, conn s = PermanentlyDisconnected reason M)
  | _ => False
  end.

Lemma giving_up_step m ev s s' k :
  max_reconnect_attempts cfg = Some m -> m <= u32_max ->
  (forall caps, ev <> Opened (Ok caps)) -> giving_up (N.max 1 m) k s -> step ev s = Some s' ->
  giving_up (N.max 1 m) (k + failures [ev]) s'.
Proof.
  intros Hm Hu Hok Hg Hs. unfold giving_up in *. destruct s as [p i ng b w q c t h r ib pr lr]; cbn in *.
  destruct Hg as [-> Hg]. step_cases Hs; try done; rewrite ?Nat.add_0_r; try (split; [done|]);
    try (destruct Hg as [-> ?]; unfold u32_max in *); try done; try lia.
  all: try (by exfalso; eapply Hok).
  all: try (split; [lia|]; intros; eexists; f_equal; unfold saturating_add; lia).
  all: unfold saturating_add in *;
    match goal with E : _ || _ = false |- _ => apply orb_false_iff in E as [E%N.leb_gt _] end; lia.
Qed.

(** C27: a client configured to stop after [m] failed attempts
    that loses its connection, or never gets a first one, and whose attempts keep
    failing makes at most [m] of them (one when [m] is 0), however the other
    events interleave and however often it is told to retry now; when it has made
    them all it has stopped trying and reports so, with that count. *)
Theorem reconnect_gives_up (m start deadline : N) (boot : bool) (evs : list Event) (s s' : State) :
  max_reconnect_attempts cfg = Some m -> m <= u32_max ->
  phase s = Backing boot start 0 deadline -> inner s = None ->
  run evs s = Some s' -> (forall caps, Opened (Ok caps) ∉ evs) ->
  N.of_nat (failures evs) <= N.max 1 m /\
  (N.of_nat (failures evs) = N.max 1 m ->
   (phase s' = Idle \/ phase s' = Stopped) /\ inner s' = None /\
   exists reason, conn s' = PermanentlyDisconnected reason (N.max 1 m)).
Proof.
  intros Hm Hu Hp Hi Hr Hok.
  assert (giving_up (N.max 1 m) (failures evs) s') as [Hi' Hg].
  { assert (giving_up (N.max 1 m) 0 s) as H2 by (split; [done|]; rewrite Hp; lia).
    change (failures evs) with (0 + failures evs)%nat. generalize 0%nat, H2. clear Hp Hi H2.
    revert s Hr Hok. induction evs as [|ev evs IH]; intros s Hr Hok k Hk.
    - injection Hr as <-. by rewrite Nat.add_0_r.
    - apply run_cons in Hr as (s1 & Hs & Hr).
      replace (k + failures (ev :: evs))%nat with (k + failures [ev] + failures evs)%nat
        by (unfold failures; cbn; destruct ev as [| | | | | | | | |[]| | | | |]; cbn; lia).
      apply (IH s1 Hr); [set_solver|]. eapply giving_up_step; [done..| |done|done].
      intros caps ->. apply (Hok caps). left. }
  split.
  - destruct (phase s'); try done; lia.
  - intros Hk. rewrite Hk in Hg. destruct (phase s'); try done; try lia; naive_solver.
Qed.

(** ** A wedged socket *)

Lemma sink_held_step ev s s' reply tk f :
  phase s = SendLock reply tk f -> (exists i, inner s = Some i /\ sink i = Some ByKeepalive) ->
  (forall r, ev <> KaWritten r) -> ev <> Abort -> step ev s = Some s' ->
  phase s' = SendLock reply tk f /\ replies s' = replies s /\
  (exists i, inner s' = Some i /\ sink i = Some ByKeepalive).
Proof.
  intros Hp (i & Hi & Hk) Hw Ha Hs. destruct s as [p i' ng b w q c t h r ib pr lr]; cbn in *. subst.
  step_cases Hs; try done; try (by edestruct Hw); by repeat (eexists || split).
Qed.

(** The write timeout does not cover the wait for the
    sink.  While the keepalive task's ping is stuck in the socket, a send that
    waits for the sink gets no answer, whatever else happens and however much
    time passes: its 5-second timeout is not running yet, and the supervisor,
    which is inside that send, takes no command either, not even the report that
    the connection died. *)
Theorem wedged_ping_hangs_send (s s' : State) (evs : list Event) (reply tk : N) (f : SendFrame)
    (i : Inner) :
  phase s = SendLock reply tk f -> inner s = Some i -> sink i = Some ByKeepalive ->
  run evs s = Some s' -> (forall r, KaWritten r ∉ evs) -> Abort ∉ evs ->
  phase s' = SendLock reply tk f /\ replies s' = replies s.
Proof.
  intros Hp Hi Hk. assert (exists i, inner s = Some i /\ sink i = Some ByKeepalive) as Hsink by eauto.
  clear i Hi Hk. revert s Hp Hsink. induction evs as [|ev evs IH]; intros s Hp Hsink Hr Hw Ha.
  - by injection Hr as <-.
  - apply run_cons in Hr as (s1 & Hs & Hr).
    destruct (sink_held_step ev s s1 reply tk f) as (Hp1 & Hr1 & Hsink1); [done|done| | |done|].
    + intros r ->. apply (Hw r). left.
    + intros ->. apply Ha. left.
    + rewrite <- Hr1. apply IH; set_solver.
Qed.

(** ** A first connection that never came *)

(** Once the first connection's budget is spent the supervisor keeps taking
    commands with no connection and never tries again: nothing but a shutdown
    changes that, a request to reconnect now included. *)
Lemma exhausted_step ev s s' :
  phase s = Idle \/ phase s = Stopped -> inner s = None -> step ev s = Some s' ->
  (phase s' = Idle \/ phase s' = Stopped) /\ inner s' = None /\ conn s' = conn s.
Proof.
  intros Hp Hi Hs. destruct s as [p i' ng b w q c t h r ib pr lr]; cbn in *. subst.
  destruct Hp; subst; step_cases Hs; auto.
Qed.

Theorem exhausted_bootstrap_never_reconnects (s s' : State) (evs : list Event) :
  phase s = Idle -> inner s = None -> run evs s = Some s' ->
  inner s' = None /\ conn s' = conn s /\ (forall r, Opened r ∉ evs).
Proof.
  intros Hp Hi Hr. assert (phase s = Idle \/ phase s = Stopped) as Hp' by auto. clear Hp.
  revert s Hp' Hi Hr. induction evs as [|ev evs IH]; intros s Hp Hi Hr.
  - injection Hr as <-. split_and!; [done|done|]. intros r Hin. inversion Hin.
  - apply run_cons in Hr as (s1 & Hs & Hr).
    destruct (exhausted_step _ _ _ Hp Hi Hs) as (Hp1 & Hi1 & Hc1).
    destruct (IH s1 Hp1 Hi1 Hr) as (? & Hc & Hno). rewrite Hc1 in Hc. split_and!; [done|done|].
    intros r Hin. apply elem_of_cons in Hin as [<-|Hin]; [|by eapply Hno].
    cbn in Hs. destruct Hp as [Hp|Hp]; by rewrite Hp in Hs.
Qed.
End runs.

(** ** Reading a group log end to end *)

(** The chunks among the frames the relay queued. *)
Definition chunk_of (f : ServerFrame) : option LogChunk :=
  match f with SLogRecords g recs fin => Some (g, recs, fin) | _ => None end.
Definition arriving (fs : list ServerFrame) : list RxEvent := RxChunk <$> omap chunk_of fs.

(** The frames of a reply that got through: all of them give all the records, a
    proper prefix gives nothing. *)
Lemma log_fetch_reply g recs fs out k :
  log_reply g recs fs ->
  log_fetch_loop g out (arriving (take k fs) ++ [RxTimeout]) =
    Some (if (length fs <=? k)%nat then Ok (out ++ recs)
          else Err (LogFetchTimeout LOG_FETCH_CHUNK_TIMEOUT)).
Proof.
  intros H. revert out k. induction H as [recs Hl | recs rest fs Hl Hne H IH]; intros out [|k]; cbn;
    rewrite ?bool_decide_eq_true_2 by done; try done.
  - rewrite app_assoc. apply IH.
Qed.

Lemma log_reply_length g recs fs k :
  log_reply g recs fs -> (length fs <= k <-> length recs <= k * LOG_RECORDS_CHUNK /\ 0 < k)%nat.
Proof.
  unfold LOG_RECORDS_CHUNK. intros H. revert k.
  induction H as [recs Hl | recs rest fs Hl Hne H IH]; intros k; cbn.
  - unfold LOG_RECORDS_CHUNK in *. split; [|lia]. intros. split; [nia|lia].
  - rewrite length_app, Hl. unfold LOG_RECORDS_CHUNK in *. destruct k as [|k]; [lia|].
    assert (0 < length rest)%nat by (destruct rest; [done|cbn; lia]).
    specialize (IH k). destruct k; lia.
Qed.

Section log_round_trip.
Context {T L : Type} `{TransitStore T} `{GroupLogStore L} `{!GroupLogLaws L} `{EncodedLen}.

(** A client that fetches a group's log from a relay
    whose queue for it is empty gets exactly the records the relay retains for
    the group past the given sequence number that are addressed to nobody or to
    this agent, in order and complete, however many frames they take; if they
    take more frames than the queue holds it gets the retryable timeout, never a
    part of them; chunks left over from an earlier fetch and already queued are
    thrown away. *)
Theorem log_fetch_round_trip (r : Relay T L) (cn : Conn) (g : GroupId) (since : N) (cap : nat)
    (queued : list LogChunk) :
  g_wf (r_log r) -> since <= i64_max ->
  r_channels r !! cn_tx cn = Some (mkChan [] cap true) ->
  let recs := to_wire <$> List.filter (fun x => (since <? lr_seq x) && log_visible (cn_agent cn) x)
                            (g_records g (r_log r)) in
  let sent := queue_of (cn_tx cn) (r_channels (handle_log_fetch cn g since r)) in
  log_fetch false queued g (arriving sent ++ [RxTimeout]) =
    Some (if decide (length recs <= cap * LOG_RECORDS_CHUNK /\ 0 < cap)%nat then Ok recs
          else Err (LogFetchTimeout LOG_FETCH_CHUNK_TIMEOUT)).
Proof.
  intros Hwf Hs Hc. cbn zeta. unfold handle_log_fetch. cbn [r_channels set_channels].
  rewrite g_fetch_spec, filter_filter_bool by done. set (recs := to_wire <$> _).
  destruct (send_log_loop_spec g (cn_tx cn) (length recs) recs [] cap (r_channels r)) as (fs & Hfs & Hq);
    [done|done|].
  unfold send_log_records. rewrite Hq, Nat.sub_0_r. cbn [app]. unfold log_fetch.
  rewrite (log_fetch_reply g recs fs) by done. cbn [app]. f_equal.
  pose proof (log_reply_length g recs fs cap Hfs) as Hlen.
  destruct (Nat.leb_spec (length fs) cap); case_decide; (done || naive_solver lia).
Qed.
End log_round_trip.

(** A late final chunk of the same group ends the fetch that is waiting,
    whatever that fetch asked for: a reply has no number to tell it from an
    earlier one. *)
Lemma late_chunk_answers_fetch g old queued rest :
  log_fetch false queued g (RxChunk (g, old, true) :: rest) = Some (Ok old).
Proof. unfold log_fetch. cbn. by rewrite bool_decide_eq_true_2. Qed.

(** ** A set of relays *)

Lemma collect_errs pre acc :
  Forall (fun r => is_ok r = false) pre ->
  foldl RelaySet.collect acc pre = (acc.1, acc.2 ++ pre).
Proof.
  intros H. revert acc. induction H as [|r pre Hr _ IH]; intros [p ex]; cbn; [by rewrite app_nil_r|].
  destruct r; [done|]. cbn. rewrite IH. cbn. by rewrite <- app_assoc.
Qed.
Lemma collect_rest p ex post :
  foldl RelaySet.collect (Some p, ex) post = (Some p, ex ++ post).
Proof.
  revert ex. induction post as [|r post IH]; intros ex; cbn; [by rewrite app_nil_r|].
  destruct r; cbn; rewrite IH; by rewrite <- app_assoc.
Qed.
Lemma omap_errs (errs : list ClientError) :
  omap (fun r : result Receipt ClientError => match r with Err e => Some e | Ok _ => None end)
    (Err <$> errs) = errs.
Proof. induction errs as [|e l IH]; cbn; by rewrite ?IH. Qed.

(** A fan-out send succeeds when any relay took the message: the first receipt in
    the order of the set is the primary one and every other result is kept, in
    order; it fails, with the last relay's error, only when all did. *)
Lemma set_send_first_success :
  (forall pre receipt post, Forall (fun r => is_ok r = false) pre ->
    RelaySet.send (pre ++ Ok receipt :: post) = Ok (RelaySet.mkOutcome receipt (pre ++ post))) /\
  (forall errs, RelaySet.send (Err <$> errs) = Err (default InboxClosed (last errs))).
Proof.
  split.
  - intros pre receipt post H. unfold RelaySet.send. rewrite foldl_app, (collect_errs pre) by done. cbn.
    by rewrite collect_rest.
  - intros errs. unfold RelaySet.send. rewrite collect_errs; cbn.
    + by rewrite omap_errs.
    + induction errs; by constructor.
Qed.

(** ** Witnesses *)

Definition demo_encode (f : ClientFrame) : option string := None.
Definition demo_client : State := connect config_new demo_encode (Ok default_profile) 0.
Definition demo_after (evs : list Event) : State :=
  default demo_client (run config_new demo_encode evs demo_client).

(** A send that is acknowledged, a second one, a connection that dies while it
    waits, a watch made while disconnected, a third send and a reconnect. *)
Definition demo_sent : list Event :=
  [Call (Watch [[2]]); Recv; TakeSink BySupervisor; Written (Some (Ok ()));
   Call (Send 1 demo_send); Recv; TakeSink BySupervisor; Written (Some (Ok ()));
   Frame (SAck [4] 77); Resolve;
   Call (Send 2 demo_send); Recv; TakeSink BySupervisor; Written (Some (Ok ()));
   ReaderEnds "ws stream ended"; Time SEND_ACK_TIMEOUT; AckLate; Recv;
   Call (Watch [[3]]); Call (Unwatch [[2]]); Call (Send 3 demo_send); Recv; Recv; Recv;
   Time INITIAL_BACKOFF; SleepOver; Opened (Ok default_profile); TakeSink BySupervisor;
   Written (Some (Ok ())); Call (Send 4 demo_send)].

Lemma sends_answered_in_order_witness :
  replies (demo_after demo_sent) =
    [(1, Ok (mkReceipt 77)); (2, Err (SendTimeout SEND_ACK_TIMEOUT));
     (3, Err (Disconnected "client is reconnecting"))] /\
  (replies (demo_after demo_sent)).*1 ++ current_reply (phase (demo_after demo_sent)) ++
    omap cmd_reply (queue (demo_after demo_sent)) = [1; 2; 3; 4].
Proof.
  split; [by vm_compute|].
  rewrite (proj1 (sends_answered_in_order config_new demo_encode (Ok default_profile) 0 demo_sent
             (demo_after demo_sent) ltac:(by vm_compute))). by vm_compute.
Defined.

Lemma send_ok_means_acked_witness :
  exists f, Call (Send 1 f) ∈ demo_sent /\ Frame (SAck (sf_dedupe_key f) 77) ∈ demo_sent.
Proof.
  apply (send_ok_means_acked config_new demo_encode (Ok default_profile) 0 demo_sent
           (demo_after demo_sent) 1 (mkReceipt 77)); [by vm_compute|].
  apply list_elem_of_lookup_2 with (i := 0%nat). by vm_compute.
Defined.

Lemma presence_watches_survive_witness :
  watch_set (demo_after demo_sent) = {[ [3] ]} /\
  exists i, inner (demo_after demo_sent) = Some i /\ gen i = 2 /\
    watches_of (cn_id demo_conn) (r_sessions
      (serve (H1 := demo_encoded_len) demo_conn (zip [demo_reading] (written i)) demo_relay)) = {[ [3] ]}.
Proof.
  split; [by vm_compute|]. eexists. split; [by vm_compute|]. split; [by vm_compute|].
  replace ({[ [3] ]} : gset AgentId) with (watch_set (demo_after demo_sent)) by by vm_compute.
  apply (presence_watches_survive config_new demo_encode (H1 := demo_encoded_len)
    (Ok default_profile) 0 demo_sent (demo_after demo_sent)); by vm_compute.
Defined.

(** Two attempts allowed, both fail, with a request to retry now in between. *)
Definition demo_two : ClientConfig :=
  mkConfig (Some DEFAULT_KEEPALIVE) None SEND_WRITE_TIMEOUT SEND_ACK_TIMEOUT (Some 2) None.
Definition demo_cold : State := connect demo_two demo_encode (Err "refused"%string) 0.
Definition demo_failing : list Event :=
  [Time 1000; SleepOver; Opened (Err "refused"%string); Call ReconnectNow; Recv;
   Opened (Err "timeout"%string)].

Lemma reconnect_gives_up_witness :
  exists s', run demo_two demo_encode demo_failing demo_cold = Some s' /\
    N.of_nat (failures demo_failing) <= 2 /\ phase s' = Idle /\
    exists reason, conn s' = PermanentlyDisconnected reason 2.
Proof.
  eexists. split; [by vm_compute|].
  match goal with |- _ /\ phase ?s' = _ /\ _ =>
    destruct (reconnect_gives_up demo_two demo_encode 2 0 1000 true demo_failing demo_cold s')
      as [Hle Hend] end; [done|done|by vm_compute|by vm_compute|by vm_compute|set_solver|].
  split; [exact Hle|]. split; [done|]. by apply Hend.
Defined.

(** The keepalive ping is in the socket, a send waits for the sink. *)
Definition demo_wedged : list Event :=
  [Time DEFAULT_KEEPALIVE; KaTick 9; TakeSink ByKeepalive; Call (Send 1 demo_send); Recv].
Definition demo_waiting : list Event :=
  [Time (60 * 60 * 1000); ReaderEnds "ws stream ended"; Call Shutdown; Time (24 * 60 * 60 * 1000)].

Lemma wedged_ping_hangs_send_witness :
  exists s', run config_new demo_encode demo_waiting (demo_after demo_wedged) = Some s' /\
    phase s' = SendLock 1 0 demo_send /\ replies s' = [].
Proof.
  eexists. split; [by vm_compute|].
  match goal with |- phase ?s' = _ /\ _ =>
    apply (wedged_ping_hangs_send config_new demo_encode (demo_after demo_wedged) s' demo_waiting
             1 0 demo_send (default (mkInner 0 None (outbox_new 0) false KaGone [] [])
                             (inner (demo_after demo_wedged)))) end;
    try (by vm_compute); set_solver.
Defined.

(** The run of [reconnect_gives_up_witness] goes on: a send, a request to retry. *)
Example exhausted_demo :
  exists s', run demo_two demo_encode
      (demo_failing ++ [Call ReconnectNow; Recv; Call (Send 1 demo_send); Recv]) demo_cold = Some s' /\
    replies s' = [(1, Err (Disconnected "client is reconnecting"))] /\ inner s' = None.
Proof. eexists. by vm_compute. Qed.

Lemma log_fetch_round_trip_witness :
  log_fetch false [([1], [], true)] [1]
    (arriving (queue_of 7 (r_channels (handle_log_fetch demo_conn [1] 0 demo_relay))) ++ [RxTimeout]) =
  Some (Ok (to_wire <$> g_records [1] demo_log)).
Proof.
  rewrite (log_fetch_round_trip demo_relay demo_conn [1] 0 4); [by vm_compute| |done|by vm_compute].
  apply demo_log_spec.
Defined.
