(* ===== verification/Trust.v ===== *)
(** * The trust service and its consumers

    Models the denylist from the moderator to the gates that enforce it:
    [crates/fetchit-trust-types] (targets and their canonical form),
    [crates/fetchit-trust/src] (the stored snapshot, the HTTP handlers, the signed
    response and its verification), [crates/fetchit-trust-client/src] (the index, the
    refresh, the cache on disk), [denylist.rs], [report.rs] and the gates of
    [public.rs] in [crates/fetchit-chat/src], and [denylist.rs] of
    [crates/fetchit-bridge-server/src].

    A string is its bytes.  ML-DSA, postcard and JSON are parameters.  A request to the
    service mutates the snapshot under the write lock and then writes the file under the
    read lock; [persist_step] has the file operations of concurrent requests apart. *)
From Stdlib Require Import Ascii.
From stdpp Require Import pretty.
From S2P Require Import Prelude SendState Attachment Bubble OutboxStore OutboxDriver Overlay SeqGap RelayProto RelayAuth.
From S2P Require Import PairRecord ShareUri Text.
Open Scope rust_scope.

(** ** Targets *)

Inductive EntryKind := XorName | AgentIdKind | RelayUrl | ActorUrl.

#[export] Instance EntryKind_eq_dec : EqDecision EntryKind.
Proof. solve_decision. Defined.
#[export] Instance EntryKind_countable : Countable EntryKind.
Proof.
  apply (inj_countable'
    (fun k => match k with XorName => 0%nat | AgentIdKind => 1%nat | RelayUrl => 2%nat | ActorUrl => 3%nat end)
    (fun n => match n with O => XorName | 1%nat => AgentIdKind | 2%nat => RelayUrl | _ => ActorUrl end)).
  by intros [].
Defined.

Record TargetIdentity := { ti_kind : EntryKind; ti_value : string }.

#[export] Instance TargetIdentity_eq_dec : EqDecision TargetIdentity.
Proof. solve_decision. Defined.

Definition MAX_URL_VALUE_LEN : N := 512.

(** [v.find(COLON_SLASH_SLASH).map_or(v, |i| &v[i + 3..])]. *)
Definition after_scheme (v : string) : string :=
  match String.index 0 "://" v with
  | Some i => String.substring (i + 3) (String.length v - (i + 3)) v
  | None => v
  end.

Definition canonicalize_url_value (v : string) : result string string :=
  if MAX_URL_VALUE_LEN <? str_len v then Err "URL value exceeds MAX_URL_VALUE_LEN"%string
  else
    let rest := after_scheme v in
    if str_contains "@" rest then Err "URL value must not contain userinfo (`@`)"%string
    else if str_contains "?" rest then Err "URL value must not contain a query string (`?`)"%string
    else if str_contains "#" rest then Err "URL value must not contain a fragment (`#`)"%string
    else match strip_last "/"%char v with
         | Some stripped => if str_contains "/" (after_scheme stripped) then Ok stripped else Ok v
         | None => Ok v
         end.

(** [TargetIdentity::new]. *)
Definition target_new (kind : EntryKind) (value : string) : TargetIdentity :=
  {| ti_kind := kind; ti_value := to_ascii_lowercase value |}.

(** [char::is_ascii_hexdigit]. *)
Definition is_ascii_hexdigit (b : N) : bool :=
  ((48 <=? b) && (b <=? 57)) || ((97 <=? b) && (b <=? 102)) || ((65 <=? b) && (b <=? 70)).

Definition try_new (kind : EntryKind) (value : string) : result TargetIdentity string :=
  let v := to_ascii_lowercase value in
  let? v := match kind with
            | XorName | AgentIdKind =>
                if negb (str_len v =? 64) || negb (forallb is_ascii_hexdigit (ascii_bytes v))
                then Err "XorName/AgentId require 64-char lowercase hex"%string
                else Ok v
            | RelayUrl =>
                if negb (starts_with "wss://" v) then Err "RelayUrl must be wss://"%string
                else canonicalize_url_value v
            | ActorUrl =>
                if negb (starts_with "https://" v) then Err "ActorUrl must be https://"%string
                else canonicalize_url_value v
            end in
  Ok {| ti_kind := kind; ti_value := v |}.

Inductive ReportKind := Csam | ViolenceThreat | Harassment | Spam | Doxxing | AbusiveContent | OtherReport.

Record Report := {
  rp_reporter_agent_id_hex : option string;
  rp_target : TargetIdentity;
  rp_kind : ReportKind;
  rp_reason : string;
  rp_attached_excerpt : option string;
  rp_timestamp_ms : N;
}.

Record DenylistEntry := {
  dn_target : TargetIdentity;
  dn_added_at_ms : N;
  dn_reason : ReportKind;
}.

Record DenylistResponse := {
  dr_etag : string;
  dr_generated_at_ms : N;
  dr_kind : EntryKind;
  dr_entries : list DenylistEntry;
  dr_issuer_signature_hex : string;
  dr_issuer_key_id : string;
}.

Record Health := {
  hl_ok : bool; hl_queued_reports : N; hl_denylisted_xornames : N; hl_denylisted_agents : N;
}.

(** ** The service's storage *)

Inductive TrustError := TIo (e : string) | TConfig (e : string) | TJson (e : string) | TIssuerKey (e : string)
  | TPostcard (e : string).

Definition trust_display (e : TrustError) : string :=
  match e with
  | TIo e => "io: " +:+ e
  | TConfig e => "config: " +:+ e
  | TJson e => "json: " +:+ e
  | TIssuerKey e => "issuer key: " +:+ e
  | TPostcard e => "postcard: " +:+ e
  end.

Record Snapshot := {
  sn_reports : list Report;
  sn_xornames : gmap string DenylistEntry;
  sn_agents : gmap string DenylistEntry;
  sn_relay_urls : gmap string DenylistEntry;
  sn_actor_urls : gmap string DenylistEntry;
  sn_etag_seq : N;
}.

Definition snapshot_default : Snapshot :=
  {| sn_reports := []; sn_xornames := ∅; sn_agents := ∅; sn_relay_urls := ∅; sn_actor_urls := ∅; sn_etag_seq := 0 |}.

Definition denied (kind : EntryKind) (s : Snapshot) : gmap string DenylistEntry :=
  match kind with
  | XorName => sn_xornames s
  | AgentIdKind => sn_agents s
  | RelayUrl => sn_relay_urls s
  | ActorUrl => sn_actor_urls s
  end.

Definition set_denied (kind : EntryKind) (m : gmap string DenylistEntry) (s : Snapshot) : Snapshot :=
  match kind with
  | XorName => {| sn_reports := sn_reports s; sn_xornames := m; sn_agents := sn_agents s;
                  sn_relay_urls := sn_relay_urls s; sn_actor_urls := sn_actor_urls s; sn_etag_seq := sn_etag_seq s |}
  | AgentIdKind => {| sn_reports := sn_reports s; sn_xornames := sn_xornames s; sn_agents := m;
                  sn_relay_urls := sn_relay_urls s; sn_actor_urls := sn_actor_urls s; sn_etag_seq := sn_etag_seq s |}
  | RelayUrl => {| sn_reports := sn_reports s; sn_xornames := sn_xornames s; sn_agents := sn_agents s;
                  sn_relay_urls := m; sn_actor_urls := sn_actor_urls s; sn_etag_seq := sn_etag_seq s |}
  | ActorUrl => {| sn_reports := sn_reports s; sn_xornames := sn_xornames s; sn_agents := sn_agents s;
                  sn_relay_urls := sn_relay_urls s; sn_actor_urls := m; sn_etag_seq := sn_etag_seq s |}
  end.

Definition bump_etag (s : Snapshot) : Snapshot :=
  {| sn_reports := sn_reports s; sn_xornames := sn_xornames s; sn_agents := sn_agents s;
     sn_relay_urls := sn_relay_urls s; sn_actor_urls := sn_actor_urls s; sn_etag_seq := sn_etag_seq s +|64 1 |}.

(** What each mutating call does under the write lock. *)
Inductive Mutation := MReport (r : Report) | MDeny (e : DenylistEntry) | MAllow (t : TargetIdentity).

Definition mutate (m : Mutation) (s : Snapshot) : Snapshot :=
  match m with
  | MReport r =>
      {| sn_reports := sn_reports s ++ [r]; sn_xornames := sn_xornames s; sn_agents := sn_agents s;
         sn_relay_urls := sn_relay_urls s; sn_actor_urls := sn_actor_urls s; sn_etag_seq := sn_etag_seq s |}
  | MDeny e =>
      let t := dn_target e in
      bump_etag (set_denied (ti_kind t) (<[ti_value t := e]> (denied (ti_kind t) s)) s)
  | MAllow t => bump_etag (set_denied (ti_kind t) (delete (ti_value t) (denied (ti_kind t) s)) s)
  end.

(** [BTreeMap::values]: in the order of the keys. *)
Definition btree_le {V} (a b : string * V) : Prop := String.le a.1 b.1.
#[export] Instance btree_le_dec {V} : RelDecision (@btree_le V) := fun a b => String.le_dec a.1 b.1.
Definition btree_values {V} (m : gmap string V) : list V := (merge_sort btree_le (map_to_list m)).*2.

Definition denylist_for (kind : EntryKind) (s : Snapshot) : list DenylistEntry := btree_values (denied kind s).

(** [format!] of the sequence number in quotes. *)
Definition storage_etag (s : Snapshot) : string := quote +:+ pretty (sn_etag_seq s) +:+ quote.

(** [serde_json] at the snapshot. *)
Class SnapshotJson := {
  print_snapshot : Snapshot -> result bytes string;
  parse_snapshot : bytes -> result Snapshot string;
}.

(** The two files of the storage. *)
Record Disk := { dk_path : option bytes; dk_tmp : option bytes }.

(** What the file operations of one [persist] answer: both succeed, the write fails after
    leaving [partial] in the temporary file, or the rename fails. *)
Inductive PersistIO := Stored | WriteFails (partial : bytes) (e : string) | RenameFails (e : string).

Section storage.
  Context `{SnapshotJson}.

Definition persist (io : PersistIO) (s : Snapshot) (d : Disk) : result unit TrustError * Disk :=
  match print_snapshot s with
  | Err e => (Err (TJson e), d)
  | Ok b =>
      match io with
      | Stored => (Ok tt, {| dk_path := Some b; dk_tmp := None |})
      | WriteFails partial e => (Err (TIo e), {| dk_path := dk_path d; dk_tmp := Some partial |})
      | RenameFails e => (Err (TIo e), {| dk_path := dk_path d; dk_tmp := Some b |})
      end
  end.

(** [enqueue_report], [deny] and [allow], run without a concurrent call. *)
Definition apply_mutation (m : Mutation) (io : PersistIO) (s : Snapshot) (d : Disk)
    : result unit TrustError * (Snapshot * Disk) :=
  let s := mutate m s in
  let (r, d) := persist io s d in (r, (s, d)).

(** [Storage::open]; [read] and [mkdir] are the answers of reading the file and of creating
    its directory. *)
Definition storage_open (read mkdir : result unit string) (io : PersistIO) (d : Disk)
    : result Snapshot TrustError * Disk :=
  let inner :=
    match dk_path d with
    | Some b =>
        match read with
        | Err e => Err (TIo e)
        | Ok _ =>
            if bool_decide (b = []) then Ok snapshot_default
            else match parse_snapshot b with Ok s => Ok s | Err e => Err (TJson e) end
        end
    | None => match mkdir with Err e => Err (TIo e) | Ok _ => Ok snapshot_default end
    end in
  match inner with
  | Err e => (Err e, d)
  | Ok s => match persist io s d with
            | (Ok _, d) => (Ok s, d)
            | (Err e, d) => (Err e, d)
            end
  end.
End storage.

(** *** Concurrent requests

    A request thread mutates under the write lock, then takes the read lock and, holding it,
    opens (and truncates) the temporary file, writes it and renames it.  Several threads can
    hold the read lock at once.  A file is an inode; a thread writes through the inode it
    opened, whatever the name now refers to. *)
Inductive ThreadPc :=
| PcMutate (m : Mutation)
| PcPersist
| PcOpened (inode : N)
| PcWritten
| PcDone (r : result unit TrustError).

Record StoreWorld := {
  sw_mem : Snapshot;
  sw_inodes : gmap N bytes;
  sw_path : option N;
  sw_tmp : option N;
  sw_threads : gmap N ThreadPc;
}.

Definition pc_reading (pc : ThreadPc) : bool :=
  match pc with PcOpened _ | PcWritten => true | _ => false end.

(** No thread holds the read lock. *)
Definition lock_free (ts : gmap N ThreadPc) : bool := bool_decide (map_Forall (fun _ pc => pc_reading pc = false) ts).

Section interleaving.
  Context `{SnapshotJson}.

Definition set_pc (t : N) (pc : ThreadPc) (w : StoreWorld) : StoreWorld :=
  {| sw_mem := sw_mem w; sw_inodes := sw_inodes w; sw_path := sw_path w; sw_tmp := sw_tmp w;
     sw_threads := <[t := pc]> (sw_threads w) |}.

(** One step of thread [t]; [None] when it has to wait for the lock or has returned. *)
Definition persist_step (t : N) (w : StoreWorld) : option StoreWorld :=
  match sw_threads w !! t with
  | Some (PcMutate m) =>
      if lock_free (sw_threads w)
      then Some {| sw_mem := mutate m (sw_mem w); sw_inodes := sw_inodes w; sw_path := sw_path w; sw_tmp := sw_tmp w;
                   sw_threads := <[t := PcPersist]> (sw_threads w) |}
      else None
  | Some PcPersist =>
      match print_snapshot (sw_mem w) with
      | Err e => Some (set_pc t (PcDone (Err (TJson e))) w)
      | Ok _ =>
          let i := match sw_tmp w with Some i => i | None => fresh (dom (sw_inodes w)) end in
          Some {| sw_mem := sw_mem w; sw_inodes := <[i := []]> (sw_inodes w); sw_path := sw_path w; sw_tmp := Some i;
                  sw_threads := <[t := PcOpened i]> (sw_threads w) |}
      end
  | Some (PcOpened i) =>
      match print_snapshot (sw_mem w) with
      | Err e => Some (set_pc t (PcDone (Err (TJson e))) w)
      | Ok b => Some {| sw_mem := sw_mem w; sw_inodes := <[i := b]> (sw_inodes w); sw_path := sw_path w; sw_tmp := sw_tmp w;
                        sw_threads := <[t := PcWritten]> (sw_threads w) |}
      end
  | Some PcWritten =>
      match sw_tmp w with
      | Some i => Some {| sw_mem := sw_mem w; sw_inodes := sw_inodes w; sw_path := Some i; sw_tmp := None;
                          sw_threads := <[t := PcDone (Ok tt)]> (sw_threads w) |}
      | None => Some (set_pc t (PcDone (Err (TIo "No such file or directory (os error 2)"))) w)
      end
  | Some (PcDone _) | None => None
  end.

(** A new request. *)
Definition persist_spawn (t : N) (m : Mutation) (w : StoreWorld) : option StoreWorld :=
  match sw_threads w !! t with None => Some (set_pc t (PcMutate m) w) | Some _ => None end.

Inductive StoreEvent := EvSpawn (t : N) (m : Mutation) | EvStep (t : N).

Definition store_event (ev : StoreEvent) (w : StoreWorld) : option StoreWorld :=
  match ev with EvSpawn t m => persist_spawn t m w | EvStep t => persist_step t w end.

Fixpoint store_run (evs : list StoreEvent) (w : StoreWorld) : option StoreWorld :=
  match evs with
  | [] => Some w
  | ev :: evs => w ← store_event ev w; store_run evs w
  end.

(** What a process that starts after a crash finds. *)
Definition disk_of (w : StoreWorld) : Disk :=
  {| dk_path := i ← sw_path w; sw_inodes w !! i; dk_tmp := i ← sw_tmp w; sw_inodes w !! i |}.
End interleaving.

(** ** The service's handlers *)

(** [postcard::to_allocvec] of [DenylistToSign]: etag, time, kind and entries. *)
Class DenylistPostcard := postcard_denylist : string -> N -> EntryKind -> list DenylistEntry -> result bytes string.

(** The issuer's key pair. *)
Class IssuerSigner := {
  issuer_key_id : string;
  issuer_public_key : bytes;
  issuer_sign : bytes -> result bytes string;
}.

Inductive StatusCode := SOk | SAccepted | SNoContent | SBadRequest | SInternal.

(** A handler's answer: the success, or a status and a message. *)
Definition handled (A : Type) : Type := result A (StatusCode * string).
Definition internal {A} (r : result A TrustError) : handled A :=
  match r with Ok a => Ok a | Err e => Err (SInternal, trust_display e) end.

Section handlers.
  Context `{SnapshotJson, DenylistPostcard, IssuerSigner}.

(** [signed_denylist]: the entries and the etag are read one after the other, each under the
    lock, so a mutation can come between; [s_etag] is the snapshot at the second read. *)
Definition signed_denylist (kind : EntryKind) (now : N) (s_entries s_etag : Snapshot) : handled DenylistResponse :=
  let entries := denylist_for kind s_entries in
  let etag := storage_etag s_etag in
  match postcard_denylist etag now kind entries with
  | Err e => Err (SInternal, e)
  | Ok sign_bytes =>
      match issuer_sign sign_bytes with
      | Err e => Err (SInternal, trust_display (TIssuerKey e))
      | Ok sig => Ok {| dr_etag := etag; dr_generated_at_ms := now; dr_kind := kind; dr_entries := entries;
                        dr_issuer_signature_hex := hex_encode sig; dr_issuer_key_id := issuer_key_id |}
      end
  end.

Record ReportSubmit := {
  rs_target : TargetIdentity; rs_kind : ReportKind; rs_reason : string; rs_attached_excerpt : option string;
  rs_reporter_agent_id_hex : option string;
}.

Definition submit_report (body : ReportSubmit) (now : N) (io : PersistIO) (s : Snapshot) (d : Disk)
    : handled StatusCode * (Snapshot * Disk) :=
  let report := {| rp_reporter_agent_id_hex := rs_reporter_agent_id_hex body; rp_target := rs_target body;
                   rp_kind := rs_kind body; rp_reason := rs_reason body;
                   rp_attached_excerpt := rs_attached_excerpt body; rp_timestamp_ms := now |} in
  let (r, sd) := apply_mutation (MReport report) io s d in
  (match internal r with Ok _ => Ok SAccepted | Err e => Err e end, sd).

Definition admin_deny (kind : EntryKind) (value : string) (reason : ReportKind) (now : N) (io : PersistIO)
    (s : Snapshot) (d : Disk) : handled StatusCode * (Snapshot * Disk) :=
  match try_new kind value with
  | Err e => (Err (SBadRequest, e), (s, d))
  | Ok target =>
      let (r, sd) := apply_mutation (MDeny {| dn_target := target; dn_added_at_ms := now; dn_reason := reason |}) io s d in
      (match internal r with Ok _ => Ok SNoContent | Err e => Err e end, sd)
  end.

Definition admin_revoke (kind : EntryKind) (value : string) (io : PersistIO) (s : Snapshot) (d : Disk)
    : handled StatusCode * (Snapshot * Disk) :=
  match try_new kind value with
  | Err e => (Err (SBadRequest, e), (s, d))
  | Ok target =>
      let (r, sd) := apply_mutation (MAllow target) io s d in
      (match internal r with Ok _ => Ok SNoContent | Err e => Err e end, sd)
  end.

Definition ALL_KINDS : list EntryKind := [XorName; AgentIdKind; RelayUrl; ActorUrl].

Definition admin_list (s : Snapshot) : list DenylistEntry * list Report :=
  (List.concat (map (fun kind => denylist_for kind s) ALL_KINDS), sn_reports s).

Definition health (s : Snapshot) : Health :=
  {| hl_ok := true; hl_queued_reports := len (sn_reports s); hl_denylisted_xornames := N.of_nat (size (sn_xornames s));
     hl_denylisted_agents := N.of_nat (size (sn_agents s)) |}.
End handlers.

(** [Server::new]: the admin listener has to be bound to a loopback address. *)
Definition server_new `{SnapshotJson} (admin_is_loopback : bool) (admin_bind : string) (mkdir : result unit string)
    (read : result unit string) (io : PersistIO) (signer : result unit TrustError) (d : Disk)
    : result Snapshot TrustError * Disk :=
  if negb admin_is_loopback
  then (Err (TConfig ("admin_bind must be a loopback address (the admin API is unauthenticated); got " +:+ admin_bind)), d)
  else match mkdir with
       | Err e => (Err (TIo e), d)
       | Ok _ =>
           match storage_open read (Ok tt) io d with
           | (Err e, d) => (Err e, d)
           | (Ok s, d) => (match signer with Ok _ => Ok s | Err e => Err e end, d)
           end
       end.

(** ** Verification *)

(** The text of a [hex::FromHexError]. *)
Class HexDisplay := hex_error : string -> string.

Section verification.
  Context `{MlDsaBackend, DenylistPostcard, HexDisplay}.

Definition signing_bytes (r : DenylistResponse) : result bytes TrustError :=
  match postcard_denylist (dr_etag r) (dr_generated_at_ms r) (dr_kind r) (dr_entries r) with
  | Ok b => Ok b
  | Err e => Err (TIssuerKey ("encode: " +:+ e))
  end.

Definition verify_signature (r : DenylistResponse) (issuer_pk : bytes) : result unit TrustError :=
  match pk_from_bytes issuer_pk with
  | Err e => Err (TIssuerKey ("pk: " +:+ e))
  | Ok _ =>
      match hex_decode (dr_issuer_signature_hex r) with
      | None => Err (TIssuerKey ("sig hex: " +:+ hex_error (dr_issuer_signature_hex r)))
      | Some sig =>
          match sig_from_bytes sig with
          | Err e => Err (TIssuerKey ("sig: " +:+ e))
          | Ok _ =>
              let? message := signing_bytes r in
              match mldsa_verify issuer_pk message sig with
              | Err e => Err (TIssuerKey ("verify: " +:+ e))
              | Ok true => Ok tt
              | Ok false => Err (TIssuerKey "signature mismatch")
              end
          end
      end
  end.
End verification.

(** *** [VerifiedDenylist] *)

Record VerifiedDenylist := { vd_response : DenylistResponse; vd_blocked : list TargetIdentity }.

Definition new_unchecked (r : DenylistResponse) : VerifiedDenylist :=
  {| vd_response := r; vd_blocked := dn_target <$> dr_entries r |}.

Definition from_response `{MlDsaBackend, DenylistPostcard, HexDisplay} (r : DenylistResponse) (issuer_pk : bytes)
    : result VerifiedDenylist TrustError :=
  let? _ := verify_signature r issuer_pk in Ok (new_unchecked r).

Definition vd_is_blocked (target : TargetIdentity) (v : VerifiedDenylist) : bool := bool_decide (target ∈ vd_blocked v).
Definition vd_is_blocked_agent_hex (agent_id_hex : string) (v : VerifiedDenylist) : bool :=
  vd_is_blocked (target_new AgentIdKind agent_id_hex) v.
Definition vd_is_blocked_xor_name_hex (xor_name_hex : string) (v : VerifiedDenylist) : bool :=
  vd_is_blocked (target_new XorName xor_name_hex) v.

(** ** The consumer's index *)

Record DenylistIndexes := {
  ix_xor_names : gset string; ix_agent_ids : gset string; ix_relay_urls : gset string; ix_actor_urls : gset string;
}.

Definition indexes_default : DenylistIndexes :=
  {| ix_xor_names := ∅; ix_agent_ids := ∅; ix_relay_urls := ∅; ix_actor_urls := ∅ |}.

Definition bucket (kind : EntryKind) (ix : DenylistIndexes) : gset string :=
  match kind with
  | XorName => ix_xor_names ix
  | AgentIdKind => ix_agent_ids ix
  | RelayUrl => ix_relay_urls ix
  | ActorUrl => ix_actor_urls ix
  end.

(** [*self.bucket_mut(kind) = new]. *)
Definition set_bucket (kind : EntryKind) (new : gset string) (ix : DenylistIndexes) : DenylistIndexes :=
  match kind with
  | XorName => {| ix_xor_names := new; ix_agent_ids := ix_agent_ids ix; ix_relay_urls := ix_relay_urls ix;
                  ix_actor_urls := ix_actor_urls ix |}
  | AgentIdKind => {| ix_xor_names := ix_xor_names ix; ix_agent_ids := new; ix_relay_urls := ix_relay_urls ix;
                  ix_actor_urls := ix_actor_urls ix |}
  | RelayUrl => {| ix_xor_names := ix_xor_names ix; ix_agent_ids := ix_agent_ids ix; ix_relay_urls := new;
                  ix_actor_urls := ix_actor_urls ix |}
  | ActorUrl => {| ix_xor_names := ix_xor_names ix; ix_agent_ids := ix_agent_ids ix; ix_relay_urls := ix_relay_urls ix;
                  ix_actor_urls := new |}
  end.

(** The order a [HashSet] is iterated in. *)
Class SetIter := {
  hs_iter : gset string -> list string;
  hs_iter_perm : forall s : gset string, hs_iter s ≡ₚ elements s;
}.

Record Delta := { dl_kind : EntryKind; dl_added : list string; dl_removed : list string }.

Definition index_replace `{SetIter} (kind : EntryKind) (values : list string) (ix : DenylistIndexes)
    : Delta * DenylistIndexes :=
  let new : gset string := list_to_set (to_ascii_lowercase <$> values) in
  let target := bucket kind ix in
  ({| dl_kind := kind; dl_added := hs_iter (new ∖ target); dl_removed := hs_iter (target ∖ new) |},
   set_bucket kind new ix).

Definition index_is_blocked (kind : EntryKind) (value : string) (ix : DenylistIndexes) : bool :=
  bool_decide (to_ascii_lowercase value ∈ bucket kind ix).

(** ** The consumer *)

Inductive ClientError := CHttp (e : string) | CDecode (e : string) | CBadSignature (e : string) | CIo (e : string).

(** [serde_json] at the response; the debug form of two kinds that differ. *)
Class ResponseJson := {
  parse_response : bytes -> result DenylistResponse string;
  print_response : DenylistResponse -> bytes;
}.

Definition kind_query_str (kind : EntryKind) : string :=
  match kind with
  | XorName => "xor_name"
  | AgentIdKind => "agent_id"
  | RelayUrl => "relay_url"
  | ActorUrl => "actor_url"
  end.

(** The derived [Debug]. *)
Definition kind_debug (kind : EntryKind) : string :=
  match kind with
  | XorName => "XorName"
  | AgentIdKind => "AgentId"
  | RelayUrl => "RelayUrl"
  | ActorUrl => "ActorUrl"
  end.

Record ConsumerConfig := { cc_issuer_pk : bytes; cc_fetch_url_base : string; cc_has_cache : bool }.

(** The index, the cache files by kind, and what was sent on the broadcast channel. *)
Record Consumer := {
  cn_indexes : DenylistIndexes;
  cn_cache : gmap EntryKind bytes;
  cn_events : list Delta;
}.

Definition entry_values (r : DenylistResponse) : list string := (fun e => ti_value (dn_target e)) <$> dr_entries r.

(** [cache_file_name]. *)
Definition cache_file_name (kind : EntryKind) : string := kind_query_str kind +:+ ".json".

(** [write_kind]; the answers of creating the directory, of writing the temporary file and of
    renaming it are [io]. *)
Definition write_kind (kind : EntryKind) (b : bytes) (io : result unit string) (cache : gmap EntryKind bytes)
    : result unit string * gmap EntryKind bytes :=
  match io with Ok _ => (Ok tt, <[kind := b]> cache) | Err e => (Err e, cache) end.

(** [read_kind]. *)
Definition read_kind (kind : EntryKind) (io : result unit string) (cache : gmap EntryKind bytes)
    : result (option bytes) string :=
  match io with Ok _ => Ok (cache !! kind) | Err e => Err e end.

Section consumer.
  Context `{MlDsaBackend, DenylistPostcard, HexDisplay, ResponseJson, SetIter}.
  Context (cfg : ConsumerConfig).

(** Decoding and checking the bytes of a response, for a refresh and for a cached file. *)
Definition checked_response (kind : EntryKind) (b : bytes) : result DenylistResponse ClientError :=
  match parse_response b with
  | Err e => Err (CDecode e)
  | Ok resp =>
      if negb (bool_decide (dr_kind resp = kind))
      then Err (CDecode ("response kind " +:+ kind_debug (dr_kind resp) +:+ " does not match requested " +:+ kind_debug kind))
      else match verify_signature resp (cc_issuer_pk cfg) with
           | Err e => Err (CBadSignature (trust_display e))
           | Ok _ => Ok resp
           end
  end.

(** [get] is the HTTP client, [io] the answer of the cache write. *)
Definition refresh_one (get : string -> result bytes ClientError) (io : result unit string) (kind : EntryKind) (c : Consumer)
    : result unit ClientError * Consumer :=
  let url := (cc_fetch_url_base cfg +:+ "/denylist?kind=" +:+ kind_query_str kind)%string in
  match get url with
  | Err e => (Err e, c)
  | Ok b =>
      match checked_response kind b with
      | Err e => (Err e, c)
      | Ok resp =>
          let (delta, ix) := index_replace (dr_kind resp) (entry_values resp) (cn_indexes c) in
          let cache := if cc_has_cache cfg then (write_kind kind b io (cn_cache c)).2 else cn_cache c in
          let events := if negb (bool_decide (dl_added delta = [])) || negb (bool_decide (dl_removed delta = []))
                        then cn_events c ++ [delta] else cn_events c in
          (Ok tt, {| cn_indexes := ix; cn_cache := cache; cn_events := events |})
      end
  end.

(** The loop of [refresh] over the kinds: whether one succeeded and the last error. *)
Fixpoint refresh_kinds (get : string -> result bytes ClientError) (io : EntryKind -> result unit string)
    (kinds : list EntryKind) (any_ok : bool) (last_err : option ClientError) (c : Consumer)
    : bool * option ClientError * Consumer :=
  match kinds with
  | [] => (any_ok, last_err, c)
  | kind :: kinds =>
      match refresh_one get (io kind) kind c with
      | (Ok _, c) => refresh_kinds get io kinds true last_err c
      | (Err e, c) => refresh_kinds get io kinds any_ok (Some e) c
      end
  end.

Definition refresh (get : string -> result bytes ClientError) (io : EntryKind -> result unit string) (c : Consumer)
    : result unit ClientError * Consumer :=
  match refresh_kinds get io ALL_KINDS false None c with
  | (true, _, c) => (Ok tt, c)
  | (false, Some e, c) => (Err e, c)
  | (false, None, c) => (Err (CHttp "no kinds refreshed"), c)
  end.

(** The body of the loop of [load_cache_blocking]. *)
Definition load_one (io : result unit string) (kind : EntryKind) (c : Consumer) : Consumer :=
  match read_kind kind io (cn_cache c) with
  | Err _ | Ok None => c
  | Ok (Some b) =>
      match checked_response kind b with
      | Err _ => c
      | Ok resp =>
          {| cn_indexes := (index_replace kind (entry_values resp) (cn_indexes c)).2; cn_cache := cn_cache c;
             cn_events := cn_events c |}
      end
  end.

Definition load_cache_blocking (io : EntryKind -> result unit string) (c : Consumer) : Consumer :=
  if cc_has_cache cfg then foldl (fun c kind => load_one (io kind) kind c) c ALL_KINDS else c.
End consumer.

(** [DenylistConsumer::new] over the files a process finds. *)
Definition consumer_new (cache : gmap EntryKind bytes) : Consumer :=
  {| cn_indexes := indexes_default; cn_cache := cache; cn_events := [] |}.

Definition consumer_is_blocked (kind : EntryKind) (value : string) (c : Consumer) : bool :=
  index_is_blocked kind value (cn_indexes c).

(** ** The gates *)

(** [DenylistQueryAdapter]. *)
Definition adapter_is_blocked (query : EntryKind -> string -> bool) (agent_id_hex : string) : bool :=
  query AgentIdKind agent_id_hex.
Definition adapter_is_blocked_actor (query : EntryKind -> string -> bool) (actor_url : string) : bool :=
  query ActorUrl actor_url.

(** The chat client's gate on an actor URL. *)
Definition check_actor_url_denylist (blocked_actor : string -> bool) (actor_url : string) : result unit ChatError :=
  match canonicalize_url_value actor_url with
  | Err _ => Err (DeniedActor actor_url)
  | Ok canonical => if blocked_actor canonical then Err (DeniedActor actor_url) else Ok tt
  end.

Definition check_optional_actor_url_denylist (denylist : option (string -> bool)) (actor_url : string)
    : result unit ChatError :=
  match denylist with
  | Some dl => check_actor_url_denylist dl actor_url
  | None => Ok tt
  end.

(** A post's [reply_to_actor_url] is what the publish gate reads of it. *)
Definition check_publish_denylist (blocked_actor : string -> bool) (reply_to_actor_url : option string)
    : result unit ChatError :=
  match reply_to_actor_url with
  | Some reply_to => check_actor_url_denylist blocked_actor reply_to
  | None => Ok tt
  end.

(** The bridge's gate on the inbox. *)
Definition bridge_is_blocked_actor (denylist : option (EntryKind -> string -> bool)) (actor_url : string) : bool :=
  match denylist with
  | None => false
  | Some query =>
      match canonicalize_url_value actor_url with
      | Err _ => true
      | Ok canonical => query ActorUrl canonical
      end
  end.

(** ** Reports *)

Definition MAX_COMMENT_LEN : N := 2000.

(** [debug] is the [Debug] form of a string. *)
Definition parse_report_kind (debug : string -> string) (kind : string) : result ReportKind ChatError :=
  if bool_decide (kind = "csam"%string) then Ok Csam
  else if bool_decide (kind = "violence_threat"%string) then Ok ViolenceThreat
  else if bool_decide (kind = "harassment"%string) then Ok Harassment
  else if bool_decide (kind = "spam"%string) then Ok Spam
  else if bool_decide (kind = "doxxing"%string) then Ok Doxxing
  else if bool_decide (kind = "abusive_content"%string) then Ok AbusiveContent
  else if bool_decide (kind = "other"%string) then Ok OtherReport
  else Err (Invalid ("unknown report kind " +:+ debug kind)).

Definition build_report (reporter : option string) (kind : EntryKind) (value : string)
    (report_kind : ReportKind) (comment : string) (now : N) : result Report ChatError :=
  if MAX_COMMENT_LEN <? char_count comment then Err (Invalid ("report comment exceeds 2000 characters"))
  else match try_new kind value with
       | Err e => Err (Invalid ("report target: " +:+ e))
       | Ok target => Ok {| rp_reporter_agent_id_hex := reporter; rp_target := target; rp_kind := report_kind;
                            rp_reason := trim comment; rp_attached_excerpt := None; rp_timestamp_ms := now |}
       end.

(** ** Canonical targets *)

Lemma ascii_lower_idem c : ascii_lower (ascii_lower c) = ascii_lower c.
Proof. by destruct c as [[] [] [] [] [] [] [] []]. Qed.
Lemma lowercase_idem s : to_ascii_lowercase (to_ascii_lowercase s) = to_ascii_lowercase s.
Proof. induction s as [|c s IH]; cbn; [done|]. by rewrite ascii_lower_idem, IH. Qed.
Lemma lowercase_app s t : to_ascii_lowercase (s +:+ t) = to_ascii_lowercase s +:+ to_ascii_lowercase t.
Proof. induction s as [|c s IH]; [done|]. rewrite append_cons. cbn [to_ascii_lowercase]. by rewrite IH, append_cons. Qed.
Lemma lowercase_length s : String.length (to_ascii_lowercase s) = String.length s.
Proof. induction s as [|c s IH]; cbn; [done|]. by rewrite IH. Qed.
Lemma lowercase_str_len s : str_len (to_ascii_lowercase s) = str_len s.
Proof. unfold str_len, len. f_equal. induction s as [|c s IH]; [done|]. cbn. by rewrite IH. Qed.

(** A character that case does not change and that no other character is lowered to. *)
Definition caseless (c : ascii) : Prop := forall x, ascii_lower x = c <-> x = c.
Lemma caseless_at : caseless "@" /\ caseless "?" /\ caseless "#" /\ caseless "/" /\ caseless ":".
Proof. repeat split; try (intros ->; done); by destruct x as [[] [] [] [] [] [] [] []]. Qed.

Fixpoint all_caseless (p : string) : Prop :=
  match p with EmptyString => True | String c p' => caseless c /\ all_caseless p' end.

Lemma prefix_lower p s : all_caseless p -> String.prefix p (to_ascii_lowercase s) = String.prefix p s.
Proof.
  revert s. induction p as [|c p IH]; intros s Hc; [by destruct s|]. destruct Hc as [Hc Hp].
  destruct s as [|x s]; [done|]. cbn. specialize (Hc x).
  destruct (Ascii.ascii_dec c (ascii_lower x)) as [E|E], (Ascii.ascii_dec c x) as [E'|E']; [by apply IH| | |done].
  - destruct E'. symmetry. by apply Hc.
  - destruct E. symmetry. by apply Hc.
Qed.
Lemma index_lower p s : all_caseless p -> String.index 0 p (to_ascii_lowercase s) = String.index 0 p s.
Proof.
  intros Hc. induction s as [|x s IH]; [done|].
  cbn [to_ascii_lowercase]. cbn [String.index].
  pose proof (prefix_lower p (String x s) Hc) as Hp. cbn [to_ascii_lowercase] in Hp.
  rewrite Hp. destruct (String.prefix p (String x s)); [reflexivity|]. by rewrite IH.
Qed.
Lemma contains_lower p s : all_caseless p -> str_contains p (to_ascii_lowercase s) = str_contains p s.
Proof. intros Hc. unfold str_contains. by rewrite index_lower. Qed.
Lemma substring_lower n m s : String.substring n m (to_ascii_lowercase s) = to_ascii_lowercase (String.substring n m s).
Proof.
  revert n m. induction s as [|x s IH]; intros n m; [by destruct n, m|].
  destruct n as [|n]; [destruct m as [|m]; [done|]|]; cbn [to_ascii_lowercase String.substring]; by rewrite IH.
Qed.

Lemma colon_slashes : all_caseless "://".
Proof. pose proof caseless_at as (? & ? & ? & ? & ?). cbn. tauto. Qed.

Lemma after_scheme_lower v : after_scheme (to_ascii_lowercase v) = to_ascii_lowercase (after_scheme v).
Proof.
  unfold after_scheme. rewrite (index_lower _ _ colon_slashes), lowercase_length.
  destruct (String.index 0 "://" v); [apply substring_lower|done].
Qed.
Lemma strip_last_lower c v : caseless c ->
  strip_last c (to_ascii_lowercase v) = to_ascii_lowercase <$> strip_last c v.
Proof.
  intros Hc. induction v as [|x v IH]; [done|]. destruct v as [|y v].
  - cbn -[bool_decide]. destruct (Hc x). do 2 case_bool_decide; tauto.
  - change (to_ascii_lowercase (String x (String y v))) with
      (String (ascii_lower x) (to_ascii_lowercase (String y v))).
    change (strip_last c (String x (String y v))) with (String x <$> strip_last c (String y v)).
    change (strip_last c (String (ascii_lower x) (to_ascii_lowercase (String y v)))) with
      (String (ascii_lower x) <$> strip_last c (to_ascii_lowercase (String y v))).
    rewrite IH. by destruct (strip_last c (String y v)).
Qed.

(** Lowering the case commutes with canonicalizing. *)
Lemma canonicalize_lower v :
  canonicalize_url_value (to_ascii_lowercase v) =
  match canonicalize_url_value v with Ok w => Ok (to_ascii_lowercase w) | Err e => Err e end.
Proof.
  pose proof caseless_at as (Hat & Hq & Hh & Hs & _).
  unfold canonicalize_url_value. rewrite lowercase_str_len. destruct (MAX_URL_VALUE_LEN <? str_len v); [done|].
  rewrite after_scheme_lower, !contains_lower by (cbn; tauto).
  destruct (str_contains "@" _); [done|]. destruct (str_contains "?" _); [done|].
  destruct (str_contains "#" _); [done|]. rewrite strip_last_lower by done.
  destruct (strip_last "/" v) as [w|]; [|done]. cbn [fmap option_fmap option_map].
  rewrite after_scheme_lower, contains_lower by (cbn; tauto). by destruct (str_contains "/" _).
Qed.

Lemma canonicalize_value v w : canonicalize_url_value v = Ok w -> w = v \/ v = w +:+ "/".
Proof.
  unfold canonicalize_url_value. destruct (_ <? _); [done|]. destruct (str_contains "@" _); [done|].
  destruct (str_contains "?" _); [done|]. destruct (str_contains "#" _); [done|].
  destruct (strip_last "/" v) as [r|] eqn:E; [|intros [= <-]; by left].
  destruct (str_contains "/" _); intros [= <-]; [right; by apply strip_last_Some in E|by left].
Qed.

(** What [try_new] accepts is of the kind it was asked for and in lower case. *)
Lemma try_new_lower kind value t :
  try_new kind value = Ok t -> ti_kind t = kind /\ to_ascii_lowercase (ti_value t) = ti_value t.
Proof.
  unfold try_new.
  assert (forall v w, canonicalize_url_value (to_ascii_lowercase v) = Ok w -> to_ascii_lowercase w = w) as Hcan.
  { intros v w. rewrite canonicalize_lower. destruct (canonicalize_url_value v); [|done]. intros [= <-]. apply lowercase_idem. }
  destruct kind.
  1, 2: destruct (_ || _); [done|]; intros [= <-]; cbn; by rewrite lowercase_idem.
  1, 2: destruct (negb _); [done|]; destruct (canonicalize_url_value _) eqn:E; [|done]; intros [= <-];
    cbn; split; [done|]; by eapply Hcan.
Qed.

(** ** The snapshot *)

Lemma denied_set kind kind' m s : denied kind' (set_denied kind m s) = if bool_decide (kind' = kind) then m else denied kind' s.
Proof. by destruct kind, kind'. Qed.
Lemma denied_bump kind s : denied kind (bump_etag s) = denied kind s.
Proof. by destruct kind. Qed.
Lemma denied_report kind r s : denied kind (mutate (MReport r) s) = denied kind s.
Proof. by destruct kind. Qed.

(** Entries are kept under their own value, in the list of their kind, in lower case. *)
Definition wf_snapshot (s : Snapshot) : Prop :=
  forall kind k e, denied kind s !! k = Some e ->
    ti_kind (dn_target e) = kind /\ ti_value (dn_target e) = k /\ to_ascii_lowercase k = k.

Lemma wf_snapshot_default : wf_snapshot snapshot_default.
Proof. by intros [] k e; cbn; rewrite lookup_empty. Qed.
Lemma wf_mutate m s : wf_snapshot s ->
  match m with
  | MReport _ | MAllow _ => True
  | MDeny e => to_ascii_lowercase (ti_value (dn_target e)) = ti_value (dn_target e)
  end -> wf_snapshot (mutate m s).
Proof.
  intros Hwf Hm kind k e. destruct m as [r|d|t]; [rewrite denied_report; apply Hwf| |]; cbn [mutate];
    rewrite denied_bump, denied_set; case_bool_decide as Hk; try apply Hwf; subst kind.
  - rewrite lookup_insert_Some. intros [[<- <-]|[_ He]]; [by repeat split|by apply Hwf].
  - rewrite lookup_delete_Some. intros [_ He]. by apply Hwf.
Qed.

Lemma btree_values_perm {V} (m : gmap string V) : btree_values m ≡ₚ (map_to_list m).*2.
Proof. unfold btree_values. by rewrite merge_sort_Permutation. Qed.

#[export] Instance btree_le_total {V} : Total (@btree_le V).
Proof. intros a b. apply String.le_total. Qed.
#[export] Instance btree_le_trans {V} : Transitive (@btree_le V).
Proof. intros a b c. apply (transitivity (R := String.le)). Qed.

(** The published list is in the order of its values. *)
Lemma denylist_for_sorted kind s : wf_snapshot s ->
  StronglySorted String.le ((fun e => ti_value (dn_target e)) <$> denylist_for kind s).
Proof.
  intros Hwf. unfold denylist_for, btree_values.
  assert (Forall (fun p : string * DenylistEntry => ti_value (dn_target p.2) = p.1)
            (merge_sort btree_le (map_to_list (denied kind s)))) as Hall.
  { rewrite merge_sort_Permutation. apply Forall_forall. intros [k e] He. apply elem_of_map_to_list in He.
    by apply Hwf in He as (_ & ? & _). }
  pose proof (StronglySorted_merge_sort btree_le (map_to_list (denied kind s))) as Hs. revert Hall Hs.
  generalize (merge_sort btree_le (map_to_list (denied kind s))) as l. clear.
  induction l as [|[k e] l IH]; intros Hall Hs; cbn; [constructor|].
  apply Forall_cons_1 in Hall as [He Hall]. apply StronglySorted_inv in Hs as [Hs Hle]. constructor; [by apply IH|].
  rewrite !Forall_fmap. apply Forall_forall. intros [k' e'] Hin. cbn in *.
  rewrite Forall_forall in Hle, Hall. specialize (Hle _ Hin). specialize (Hall _ Hin). cbn in *.
  unfold btree_le in Hle. cbn in Hle. by rewrite He, Hall.
Qed.

(** ** From the moderator to the gate *)

(** What reaches the service's listeners, with the time and the answers of the disk. *)
Inductive AdminOp :=
| OpDeny (kind : EntryKind) (value : string) (reason : ReportKind) (now : N) (io : PersistIO)
| OpRevoke (kind : EntryKind) (value : string) (io : PersistIO)
| OpReport (body : ReportSubmit) (now : N) (io : PersistIO).

Definition admin_step `{SnapshotJson} (sd : Snapshot * Disk) (op : AdminOp) : Snapshot * Disk :=
  match op with
  | OpDeny kind value reason now io => (admin_deny kind value reason now io sd.1 sd.2).2
  | OpRevoke kind value io => (admin_revoke kind value io sd.1 sd.2).2
  | OpReport body now io => (submit_report body now io sd.1 sd.2).2
  end.

(** What the moderator means: the targets denied and not revoked since. *)
Definition moderate (set : gset (EntryKind * string)) (op : AdminOp) : gset (EntryKind * string) :=
  match op with
  | OpDeny kind value _ _ _ =>
      match try_new kind value with Ok t => {[ (kind, ti_value t) ]} ∪ set | Err _ => set end
  | OpRevoke kind value _ =>
      match try_new kind value with Ok t => set ∖ {[ (kind, ti_value t) ]} | Err _ => set end
  | OpReport _ _ _ => set
  end.

(** The snapshot holds exactly the targets [set]. *)
Definition holds_set (s : Snapshot) (set : gset (EntryKind * string)) : Prop :=
  wf_snapshot s /\ forall kind k, (kind, k) ∈ set <-> is_Some (denied kind s !! k).

Lemma admin_step_holds `{SnapshotJson} sd set op :
  holds_set sd.1 set -> holds_set (admin_step sd op).1 (moderate set op).
Proof.
  intros [Hwf Hset]. destruct op as [kind value reason now io|kind value io|body now io]; cbn [admin_step moderate].
  - unfold admin_deny. destruct (try_new kind value) as [t|e] eqn:Ht; [|done].
    apply try_new_lower in Ht as [Hk Hv]. unfold apply_mutation. destruct (persist _ _ _) as [r d]. cbn [fst snd].
    split; [by apply (wf_mutate (MDeny _))|]. intros kind' k. cbn [mutate]. rewrite denied_bump, denied_set. cbn [dn_target].
    rewrite elem_of_union, elem_of_singleton, Hset, Hk. case_bool_decide as Hkk.
    + subst kind'. rewrite lookup_insert_is_Some. destruct (decide (ti_value t = k)) as [<-|]; [naive_solver|].
      split; [intros [[= ]|]; [congruence|by right]|intros [|[_ ?]]; [done|by right]].
    + split; [intros [[= ->]|]; done|by right].
  - unfold admin_revoke. destruct (try_new kind value) as [t|e] eqn:Ht; [|done].
    apply try_new_lower in Ht as [Hk Hv]. unfold apply_mutation. destruct (persist _ _ _) as [r d]. cbn [fst snd].
    split; [by apply (wf_mutate (MAllow _))|]. intros kind' k. cbn [mutate]. rewrite denied_bump, denied_set.
    rewrite elem_of_difference, elem_of_singleton, Hset, Hk. case_bool_decide as Hkk.
    + subst kind'. rewrite lookup_delete_is_Some. split; [intros [? Hn]; split; [congruence|done]|intros [Hn ?]; split; congruence].
    + split; [by intros [? _]|intros ?; split; [done|congruence]].
  - unfold submit_report, apply_mutation. destruct (persist _ _ _) as [r d]. cbn [fst snd].
    split; [by apply (wf_mutate (MReport _))|]. intros kind' k. rewrite Hset. by rewrite denied_report.
Qed.

Lemma admin_run_holds `{SnapshotJson} ops sd set :
  holds_set sd.1 set -> holds_set (foldl admin_step sd ops).1 (foldl moderate set ops).
Proof. revert sd set. induction ops as [|op ops IH]; intros sd set Hs; cbn; [done|]. by apply IH, admin_step_holds. Qed.

(** The values of a published list are those of its kind. *)
Lemma published_values kind s :
  wf_snapshot s -> list_to_set (to_ascii_lowercase <$> ((fun e => ti_value (dn_target e)) <$> denylist_for kind s))
    =@{gset string} dom (denied kind s).
Proof.
  intros Hwf. apply set_eq. intros k. rewrite elem_of_list_to_set, elem_of_dom, <- list_fmap_compose.
  unfold denylist_for. rewrite btree_values_perm, <- list_fmap_compose, list_elem_of_fmap. split.
  - intros ([k' e] & -> & He). apply elem_of_map_to_list in He. cbn. destruct (Hwf _ _ _ He) as (_ & -> & ->). by exists e.
  - intros [e He]. exists (k, e). cbn. destruct (Hwf _ _ _ He) as (_ & -> & ->). split; [done|]. by apply elem_of_map_to_list.
Qed.

(** The issuer's signatures verify under its key and the JSON parser inverts the printer. *)
Class TrustLaws `{MlDsaBackend, IssuerSigner, ResponseJson} := {
  issuer_verifies : forall m sig, issuer_sign m = Ok sig ->
    pk_from_bytes issuer_public_key = Ok tt /\ sig_from_bytes sig = Ok tt /\
    mldsa_verify issuer_public_key m sig = Ok true /\ Forall (fun b => b < 256) sig;
  parse_print_response : forall r, parse_response (print_response r) = Ok r;
}.

Section end_to_end.
  Context `{SnapshotJson, MlDsaBackend, DenylistPostcard, HexDisplay, IssuerSigner, ResponseJson, SetIter, !TrustLaws}.
  Implicit Types c : Consumer.

(** What the service signs, its consumers accept. *)
Lemma signed_denylist_verifies kind now s s' resp :
  signed_denylist kind now s s' = Ok resp ->
  dr_kind resp = kind /\ dr_entries resp = denylist_for kind s /\ verify_signature resp issuer_public_key = Ok tt.
Proof.
  unfold signed_denylist. destruct (postcard_denylist _ _ _ _) as [b|] eqn:Hb; [|done].
  destruct (issuer_sign b) as [sig|] eqn:Hs; [|done]. intros [= <-]. cbn.
  apply issuer_verifies in Hs as (Hpk & Hsp & Hv & Hb256). split; [done|]. split; [done|].
  unfold verify_signature, signing_bytes. cbn. by rewrite Hpk, hex_decode_encode, Hsp, Hb, Hv.
Qed.

Lemma bucket_set kind kind' new ix : bucket kind' (set_bucket kind new ix) = if bool_decide (kind' = kind) then new else bucket kind' ix.
Proof. by destruct kind, kind'. Qed.

(** The bytes served for a kind's request, and what a refresh makes of them. *)
Definition kind_url (cfg : ConsumerConfig) (kind : EntryKind) : string :=
  (cc_fetch_url_base cfg +:+ "/denylist?kind=" +:+ kind_query_str kind)%string.

Lemma refresh_one_spec cfg get io kind c r c' :
  refresh_one cfg get io kind c = (r, c') ->
  match r with
  | Ok _ => exists b resp, get (kind_url cfg kind) = Ok b /\ checked_response cfg kind b = Ok resp /\
      forall kind', bucket kind' (cn_indexes c') =
        if bool_decide (kind' = kind) then list_to_set (to_ascii_lowercase <$> entry_values resp)
        else bucket kind' (cn_indexes c)
  | Err e => c' = c /\ forall b resp, get (kind_url cfg kind) = Ok b -> checked_response cfg kind b <> Ok resp
  end.
Proof.
  unfold refresh_one, kind_url. destruct (get _) as [b|e] eqn:Hg; [|intros [= <- <-]; by split].
  destruct (checked_response cfg kind b) as [resp|e] eqn:Hc.
  - assert (dr_kind resp = kind) as Hk.
    { unfold checked_response in Hc. destruct (parse_response b); [|done]. case_bool_decide; [|done].
      cbn in Hc. destruct (verify_signature _ _); [|done]. by injection Hc as <-. }
    cbn [index_replace]. intros [= <- <-]. exists b, resp. split; [done|]. split; [done|].
    intros kind'. cbn. by rewrite bucket_set, Hk.
  - intros [= <- <-]. split; [done|]. intros b' resp [= <-]. by rewrite Hc.
Qed.

Lemma checked_response_ok cfg kind b resp :
  parse_response b = Ok resp -> dr_kind resp = kind -> verify_signature resp (cc_issuer_pk cfg) = Ok tt ->
  checked_response cfg kind b = Ok resp.
Proof. intros Hp Hk Hv. unfold checked_response. by rewrite Hp, bool_decide_eq_true_2, Hv. Qed.

Lemma NoDup_ALL_KINDS : NoDup ALL_KINDS.
Proof. apply (bool_decide_unpack _). by vm_compute. Qed.
Lemma elem_of_ALL_KINDS kind : kind ∈ ALL_KINDS.
Proof. unfold ALL_KINDS. rewrite !elem_of_cons. destruct kind; auto. Qed.

(** A refresh of some kinds: those that are answered acceptably get the answer's values. *)
Lemma refresh_kinds_spec cfg get io kinds any last c any' last' c' :
  NoDup kinds -> refresh_kinds cfg get io kinds any last c = (any', last', c') ->
  forall kind b resp, kind ∈ kinds -> get (kind_url cfg kind) = Ok b -> checked_response cfg kind b = Ok resp ->
    any' = true /\ bucket kind (cn_indexes c') = list_to_set (to_ascii_lowercase <$> entry_values resp).
Proof.
  assert (forall kinds any last c, (any = true -> (refresh_kinds cfg get io kinds any last c).1.1 = true) /\
    forall kind, kind ∉ kinds -> bucket kind (cn_indexes (refresh_kinds cfg get io kinds any last c).2) = bucket kind (cn_indexes c)) as Hrest.
  { clear. induction kinds as [|k kinds IH]; intros any last c; cbn; [done|].
    destruct (refresh_one cfg get (io k) k c) as [r c1] eqn:E. apply refresh_one_spec in E. destruct r as [u|e].
    - destruct E as (b & resp & _ & _ & Hb). destruct (IH true last c1) as [IH1 IH2]. split; [by intros _; apply IH1|].
      intros kind Hk. rewrite IH2 by set_solver. rewrite Hb. by rewrite bool_decide_eq_false_2 by set_solver.
    - destruct E as [-> _]. destruct (IH any (Some e) c) as [IH1 IH2]. split; [done|]. intros kind Hk. apply IH2. set_solver. }
  revert any last c. induction kinds as [|k kinds IH]; intros any last c Hnd Hr kind b resp Hin Hg Hc; [by inversion Hin|].
  apply NoDup_cons in Hnd as [Hk Hnd]. cbn in Hr. destruct (refresh_one cfg get (io k) k c) as [r c1] eqn:E.
  apply refresh_one_spec in E. apply elem_of_cons in Hin as [->|Hin].
  - destruct r as [u|e]; [|destruct E as [_ E]; by destruct (E _ resp Hg)].
    destruct E as (b' & resp' & Hg' & Hc' & Hb). rewrite Hg in Hg'. injection Hg' as <-. rewrite Hc in Hc'. injection Hc' as <-.
    destruct (Hrest kinds true last c1) as [Hany Hsame]. rewrite Hr in Hany, Hsame. cbn in Hany, Hsame. split; [by apply Hany|].
    rewrite Hsame by done. rewrite Hb. by rewrite bool_decide_eq_true_2.
  - destruct r; by eapply IH.
Qed.

(** Whatever is reported, denied and revoked at the trust service, with any answers of its disk, a
    consumer that then refreshes from it blocks exactly the targets that were denied and not revoked
    since, each in any letter case. *)
Lemma refreshed_blocks_moderated cfg ops d get io c r c' :
  let s := (foldl admin_step (snapshot_default, d) ops).1 in
  cc_issuer_pk cfg = issuer_public_key ->
  (forall kind, exists now resp, signed_denylist kind now s s = Ok resp /\ get (kind_url cfg kind) = Ok (print_response resp)) ->
  refresh cfg get io c = (r, c') ->
  r = Ok tt /\
  forall kind value, consumer_is_blocked kind value c' = true <->
    (kind, to_ascii_lowercase value) ∈ foldl moderate ∅ ops.
Proof.
  intros s Hpk Hget Hr. destruct (admin_run_holds ops (snapshot_default, d) ∅) as [Hwf Hset].
  { split; [apply wf_snapshot_default|]. intros kind k. split; [set_solver|]. intros [e He]. by destruct kind. }
  fold s in Hwf, Hset. unfold refresh in Hr. destruct (refresh_kinds _ _ _ _ _ _ _) as [[any last] c1] eqn:E.
  assert (forall kind, any = true /\ bucket kind (cn_indexes c1) = dom (denied kind s)) as Hall.
  { intros kind. destruct (Hget kind) as (now & resp & Hs & Hg).
    apply signed_denylist_verifies in Hs as (Hk & He & Hv). rewrite <- Hpk in Hv.
    destruct (refresh_kinds_spec cfg get io ALL_KINDS false None c any last c1 NoDup_ALL_KINDS E kind (print_response resp) resp)
      as [-> Hb]; [apply elem_of_ALL_KINDS|done| |].
    { apply checked_response_ok; [apply parse_print_response|done|done]. }
    split; [done|]. rewrite Hb. unfold entry_values. rewrite He. by apply published_values. }
  destruct (Hall XorName) as [-> _]. injection Hr as <- <-. split; [done|]. intros kind value.
  unfold consumer_is_blocked, index_is_blocked. rewrite bool_decide_eq_true, Hset.
  destruct (Hall kind) as [_ ->]. apply elem_of_dom.
Qed.
End end_to_end.

(** ** What the index can hold *)

(** The life of a consumer: refreshes over any network and disk, the load of cached files,
    files changed by others, restarts. *)
Inductive ConsumerOp :=
| CoRefresh (get : string -> result bytes ClientError) (io : EntryKind -> result unit string)
| CoLoad (io : EntryKind -> result unit string)
| CoTamper (cache : gmap EntryKind bytes)
| CoRestart.

Section consumer_runs.
  Context `{MlDsaBackend, DenylistPostcard, HexDisplay, ResponseJson, SetIter}.
  Context (cfg : ConsumerConfig).
  Implicit Types c : Consumer.

Definition consumer_step (c : Consumer) (op : ConsumerOp) : Consumer :=
  match op with
  | CoRefresh get io => (refresh cfg get io c).2
  | CoLoad io => load_cache_blocking cfg io c
  | CoTamper cache => {| cn_indexes := cn_indexes c; cn_cache := cache; cn_events := cn_events c |}
  | CoRestart => consumer_new (cn_cache c)
  end.

(** The values of a response for [kind] that verifies under the issuer's key. *)
Definition signed_values (kind : EntryKind) (values : gset string) : Prop :=
  exists resp, dr_kind resp = kind /\ verify_signature resp (cc_issuer_pk cfg) = Ok tt /\
    values = list_to_set (to_ascii_lowercase <$> entry_values resp).

Definition index_signed (c : Consumer) : Prop :=
  forall kind, bucket kind (cn_indexes c) = ∅ \/ signed_values kind (bucket kind (cn_indexes c)).

Lemma checked_response_signed kind b resp :
  checked_response cfg kind b = Ok resp -> dr_kind resp = kind /\ verify_signature resp (cc_issuer_pk cfg) = Ok tt.
Proof.
  unfold checked_response. destruct (parse_response b) as [r|]; [|done]. case_bool_decide; [|done]. cbn.
  destruct (verify_signature r _) as [[]|] eqn:E; [|done]. by intros [= <-].
Qed.

Lemma refresh_one_signed get io kind c : index_signed c -> index_signed (refresh_one cfg get io kind c).2.
Proof.
  intros Hs. destruct (refresh_one cfg get io kind c) as [r c'] eqn:E. apply refresh_one_spec in E. cbn.
  destruct r as [u|e]; [|by destruct E as [-> _]]. destruct E as (b & resp & _ & Hc & Hb).
  apply checked_response_signed in Hc as [Hk Hv]. intros kind'. rewrite Hb. case_bool_decide; [|apply Hs].
  subst kind'. right. by exists resp.
Qed.
Lemma refresh_kinds_signed get io kinds any last c :
  index_signed c -> index_signed (refresh_kinds cfg get io kinds any last c).2.
Proof.
  revert any last c. induction kinds as [|k kinds IH]; intros any last c Hs; cbn; [done|].
  pose proof (refresh_one_signed get (io k) k c Hs). destruct (refresh_one cfg get (io k) k c) as [[]]; by apply IH.
Qed.
Lemma refresh_index get io c :
  (refresh cfg get io c).2 = (refresh_kinds cfg get io ALL_KINDS false None c).2.
Proof. unfold refresh. destruct (refresh_kinds _ _ _ _ _ _ _) as [[[] [?|]] ?]; done. Qed.

Lemma load_one_signed io kind c : index_signed c -> index_signed (load_one cfg io kind c).
Proof.
  intros Hs. unfold load_one. destruct (read_kind _ _ _) as [[b|]|]; try done.
  destruct (checked_response cfg kind b) as [resp|] eqn:Hc; [|done]. apply checked_response_signed in Hc as [Hk Hv].
  intros kind'. cbn. rewrite bucket_set. case_bool_decide; [|apply Hs]. subst kind'. right. by exists resp.
Qed.
Lemma load_all_signed io kinds c : index_signed c -> index_signed (foldl (fun c kind => load_one cfg (io kind) kind c) c kinds).
Proof. revert c. induction kinds as [|k kinds IH]; intros c Hs; cbn; [done|]. by apply IH, load_one_signed. Qed.

(** Whatever the network answers and whatever is put into the cache files, over refreshes,
    cache loads and restarts, each of the consumer's lists is empty or is the whole list of a response for
    its own kind that verifies under the issuer's key. *)
Theorem index_always_signed cache ops : index_signed (foldl consumer_step (consumer_new cache) ops).
Proof.
  assert (forall cache, index_signed (consumer_new cache)) as Hnew by (intros ? []; by left).
  enough (forall c, index_signed c -> index_signed (foldl consumer_step c ops)) as Hall by by apply Hall.
  clear cache. induction ops as [|op ops IH]; intros c Hs; cbn; [done|]. apply IH. destruct op as [get io|io|cache|]; cbn.
  - rewrite refresh_index. by apply refresh_kinds_signed.
  - unfold load_cache_blocking. destruct (cc_has_cache cfg); [|done]. by apply load_all_signed.
  - done.
  - apply Hnew.
Qed.

(** A kind whose request fails, or whose answer is not acceptable, keeps its list. *)
Lemma refresh_failure_keeps get io c kind :
  (forall b resp, get (kind_url cfg kind) = Ok b -> checked_response cfg kind b <> Ok resp) ->
  bucket kind (cn_indexes (refresh cfg get io c).2) = bucket kind (cn_indexes c).
Proof.
  intros Hbad. rewrite refresh_index. generalize false, (@None ClientError), ALL_KINDS. intros any last kinds.
  revert any last c. induction kinds as [|k kinds IH]; intros any last c; cbn; [done|].
  destruct (refresh_one cfg get (io k) k c) as [r c1] eqn:E. apply refresh_one_spec in E. destruct r as [u|e].
  - destruct E as (b & resp & Hg & Hc & Hb). rewrite IH, Hb. case_bool_decide as Hk; [|done]. subst k. by destruct (Hbad b resp).
  - destruct E as [-> _]. apply IH.
Qed.

(** Neither the etag nor the time of a response is looked at: a response signed before a target
    was denied, served again, unblocks it. *)
Lemma old_response_unblocks get io c kind b resp value :
  get (kind_url cfg kind) = Ok b -> checked_response cfg kind b = Ok resp ->
  to_ascii_lowercase value ∉ to_ascii_lowercase <$> entry_values resp ->
  consumer_is_blocked kind value (refresh cfg get io c).2 = false.
Proof.
  intros Hg Hc Hn. rewrite refresh_index. destruct (refresh_kinds _ _ _ _ _ _ _) as [[any last] c1] eqn:E.
  destruct (refresh_kinds_spec cfg get io ALL_KINDS false None c any last c1 NoDup_ALL_KINDS E kind b resp) as [_ Hb];
    [apply elem_of_ALL_KINDS|done|done|]. unfold consumer_is_blocked, index_is_blocked. cbn [snd]. rewrite Hb.
  apply bool_decide_eq_false_2. by rewrite elem_of_list_to_set.
Qed.

(** *** The broadcast *)

(** What a subscriber that starts from [set] makes of the events. *)
Definition apply_delta (kind : EntryKind) (set : gset string) (d : Delta) : gset string :=
  if bool_decide (dl_kind d = kind) then (set ∪ list_to_set (dl_added d)) ∖ list_to_set (dl_removed d) else set.

Definition in_step (c0 c : Consumer) : Prop :=
  forall kind, foldl (apply_delta kind) (bucket kind (cn_indexes c0)) (cn_events c) = bucket kind (cn_indexes c).

Lemma list_to_set_iter (s : gset string) : list_to_set (hs_iter s) = s.
Proof. apply set_eq. intros x. by rewrite elem_of_list_to_set, hs_iter_perm, elem_of_elements. Qed.
Lemma hs_iter_nil (s : gset string) : hs_iter s = [] -> s = ∅.
Proof. intros Hn. rewrite <- (list_to_set_iter s), Hn. done. Qed.

Lemma refresh_one_in_step c0 get io kind c : in_step c0 c -> in_step c0 (refresh_one cfg get io kind c).2.
Proof.
  intros Hin kind'. specialize (Hin kind'). unfold refresh_one. destruct (get _) as [b|e]; [|done].
  destruct (checked_response cfg kind b) as [resp|]; [|done]. unfold index_replace. cbn -[bool_decide].
  set (new := list_to_set (to_ascii_lowercase <$> entry_values resp)). set (old := bucket (dr_kind resp) (cn_indexes c)).
  rewrite bucket_set.
  assert (foldl (apply_delta kind') (bucket kind' (cn_indexes c0))
            (cn_events c ++ [{| dl_kind := dr_kind resp; dl_added := hs_iter (new ∖ old); dl_removed := hs_iter (old ∖ new) |}])
          = if bool_decide (kind' = dr_kind resp) then new else bucket kind' (cn_indexes c)) as Happ.
  { rewrite foldl_app, Hin. cbn -[bool_decide]. unfold apply_delta. cbn -[bool_decide]. rewrite !list_to_set_iter.
    repeat case_bool_decide; try congruence. subst kind'. fold old. apply set_eq. intros x.
    destruct (decide (x ∈ new)), (decide (x ∈ old)); set_solver. }
  destruct (bool_decide (hs_iter (new ∖ old) = [])) eqn:Ha; [|exact Happ].
  destruct (bool_decide (hs_iter (old ∖ new) = [])) eqn:Hr; [|exact Happ]. cbn -[bool_decide].
  apply bool_decide_eq_true, hs_iter_nil in Ha, Hr. rewrite Hin. case_bool_decide as Hk; [|done]. subst kind'.
  fold old. apply set_eq. intros x. destruct (decide (x ∈ new)), (decide (x ∈ old)); set_solver.
Qed.

(** A subscriber that applies every event it is sent has the consumer's lists. *)
Lemma events_track_index c refreshes :
  cn_events c = [] ->
  in_step c (foldl (fun c gi => (refresh cfg gi.1 gi.2 c).2) c refreshes).
Proof.
  intros Hev. enough (forall c', in_step c c' -> in_step c (foldl (fun c gi => (refresh cfg gi.1 gi.2 c).2) c' refreshes))
    as Hall by (apply Hall; intros kind; by rewrite Hev).
  induction refreshes as [|[get io] rs IH]; intros c' Hin; [done|]. cbn [foldl]. apply IH. cbn [fst snd].
  rewrite refresh_index. clear IH. revert Hin. generalize false, (@None ClientError), ALL_KINDS. intros any last kinds.
  revert any last c'. induction kinds as [|k kinds IH]; intros any last c' Hin; cbn; [done|].
  pose proof (refresh_one_in_step c get (io k) k c' Hin). destruct (refresh_one cfg get (io k) k c') as [[]]; by apply IH.
Qed.
End consumer_runs.

(** ** The gates on actors *)

(** The gates of the chat client and of the bridge block what [try_new] maps to a listed
    value, however it is spelled. *)
Lemma actor_gates_block_spellings c actor_url t :
  try_new ActorUrl actor_url = Ok t -> ti_value t ∈ bucket ActorUrl (cn_indexes c) ->
  check_actor_url_denylist (adapter_is_blocked_actor (fun kind v => consumer_is_blocked kind v c)) actor_url
    = Err (DeniedActor actor_url) /\
  bridge_is_blocked_actor (Some (fun kind v => consumer_is_blocked kind v c)) actor_url = true.
Proof.
  unfold try_new. destruct (negb _); [done|]. rewrite canonicalize_lower.
  unfold check_actor_url_denylist, bridge_is_blocked_actor, adapter_is_blocked_actor, consumer_is_blocked, index_is_blocked.
  destruct (canonicalize_url_value actor_url) as [w|e]; [|done]. intros [= <-] Hin. cbn in Hin.
  by rewrite bool_decide_eq_true_2.
Qed.

(** ** The service's file *)

(** The printer of snapshots succeeds, is inverted by the parser and prints something. *)
Class SnapshotLaws `{SnapshotJson} := {
  print_snapshot_ok : forall s, exists b, print_snapshot s = Ok b /\ b <> [] /\ parse_snapshot b = Ok s;
}.

Section crash.
  Context `{SnapshotJson, !SnapshotLaws}.

Lemma open_printed s b d :
  print_snapshot s = Ok b -> dk_path d = Some b -> (storage_open (Ok tt) (Ok tt) Stored d).1 = Ok s.
Proof.
  intros Hb Hp. destruct (print_snapshot_ok s) as (b' & Hb' & Hne & Hparse). rewrite Hb in Hb'. injection Hb' as <-.
  unfold storage_open. rewrite Hp. rewrite bool_decide_eq_false_2 by done. rewrite Hparse. unfold persist. by rewrite Hb.
Qed.

(** A mutation run alone: when it is acknowledged, a restart has it; when it is not, a restart has
    the snapshot of before. *)
Lemma acknowledged_survives_restart m io s d r s' d' :
  (exists b, print_snapshot s = Ok b /\ dk_path d = Some b) ->
  apply_mutation m io s d = (r, (s', d')) ->
  (storage_open (Ok tt) (Ok tt) Stored d').1 = Ok (match r with Ok _ => s' | Err _ => s end).
Proof.
  intros (b0 & Hb0 & Hp) Ha. unfold apply_mutation, persist in Ha.
  destruct (print_snapshot_ok (mutate m s)) as (b & Hb & _). rewrite Hb in Ha.
  destruct io; injection Ha as <- <- <-; by eapply open_printed.
Qed.

(** Threads that are in the file never overlap. *)
Definition step_alone (w : StoreWorld) (ev : StoreEvent) : bool :=
  match ev with
  | EvSpawn _ _ => true
  | EvStep t => match sw_threads w !! t with Some PcPersist => lock_free (sw_threads w) | _ => true end
  end.
Fixpoint serial (evs : list StoreEvent) (w : StoreWorld) : bool :=
  match evs with
  | [] => true
  | ev :: evs => step_alone w ev && match store_event ev w with Some w => serial evs w | None => true end
  end.

Definition thread_done (w : StoreWorld) (t : N) : Prop := sw_threads w !! t = Some (PcDone (Ok tt)).

(** The mutations applied so far, by thread, of which the first [k] are in the file. *)
Record file_inv (s0 : Snapshot) (w : StoreWorld) (hist : list (N * Mutation)) (k : nat) : Prop := {
  fi_mem : sw_mem w = foldl (fun s tm => mutate tm.2 s) s0 hist;
  fi_path : exists i b, sw_path w = Some i /\ sw_inodes w !! i = Some b /\
    print_snapshot (foldl (fun s tm => mutate tm.2 s) s0 (take k hist)) = Ok b /\ sw_tmp w <> Some i;
  fi_len : (k <= length hist)%nat;
  fi_tmp : forall i, sw_tmp w = Some i -> is_Some (sw_inodes w !! i);
  fi_done : forall t, thread_done w t -> exists m, (t, m) ∈ take k hist;
  fi_hist : forall t pc, sw_threads w !! t = Some pc -> (forall m, pc <> PcMutate m) -> exists m, (t, m) ∈ hist;
  fi_alone : forall t t' pc pc', sw_threads w !! t = Some pc -> sw_threads w !! t' = Some pc' ->
    pc_reading pc = true -> pc_reading pc' = true -> t = t';
  fi_open : forall t i, sw_threads w !! t = Some (PcOpened i) -> sw_tmp w = Some i;
  fi_written : forall t, sw_threads w !! t = Some PcWritten -> exists i b,
    sw_tmp w = Some i /\ sw_inodes w !! i = Some b /\ print_snapshot (sw_mem w) = Ok b;
}.

(** A thread table after one of its entries changed. *)
Ltac thread_cases H := apply lookup_insert_Some in H as [[<- H]|[? H]].

Lemma not_reading ts t pc : lock_free ts = true -> ts !! t = Some pc -> pc_reading pc = false.
Proof. unfold lock_free. rewrite bool_decide_eq_true. intros Hf Ht. by apply (map_Forall_lookup_1 _ _ _ _ Hf Ht). Qed.

Lemma file_inv_spawn s0 w hist k t m w' :
  file_inv s0 w hist k -> persist_spawn t m w = Some w' -> file_inv s0 w' hist k.
Proof.
  intros [Hmem Hpath Hlen Htmp Hdone Hhist Halone Hopen Hwritten] Hs. unfold persist_spawn in Hs.
  destruct (sw_threads w !! t) eqn:E; [done|]. injection Hs as <-. unfold set_pc, thread_done in *. split; cbn; try done.
  - intros t' Ht. unfold thread_done in Ht. cbn in Ht. thread_cases Ht; [done|by apply Hdone].
  - intros t' pc Ht Hpc. thread_cases Ht; [by destruct (Hpc m)|by eapply Hhist].
  - intros t1 t2 p1 p2 H1 H2 R1 R2. thread_cases H1; [by subst p1|]. thread_cases H2; [by subst p2|]. by eapply Halone.
  - intros t' i Ht. thread_cases Ht; [done|by eapply Hopen].
  - intros t' Ht. thread_cases Ht; [done|by eapply Hwritten].
Qed.

Lemma file_inv_mutate s0 w hist k t m :
  file_inv s0 w hist k -> sw_threads w !! t = Some (PcMutate m) -> lock_free (sw_threads w) = true ->
  file_inv s0 {| sw_mem := mutate m (sw_mem w); sw_inodes := sw_inodes w; sw_path := sw_path w; sw_tmp := sw_tmp w;
                 sw_threads := <[t := PcPersist]> (sw_threads w) |} (hist ++ [(t, m)]) k.
Proof.
  intros [Hmem Hpath Hlen Htmp Hdone Hhist Halone Hopen Hwritten] Ht Hf. unfold thread_done in *. split; cbn.
  - by rewrite foldl_app, Hmem.
  - by rewrite take_app_le.
  - rewrite length_app. lia.
  - done.
  - intros t' Ht'. rewrite take_app_le by done. unfold thread_done in Ht'. cbn in Ht'. thread_cases Ht'; [done|by apply Hdone].
  - intros t' pc Ht' Hpc. thread_cases Ht'; [exists m; set_solver|]. destruct (Hhist _ _ Ht' Hpc) as [m' Hm']. exists m'. set_solver.
  - intros t1 t2 p1 p2 H1 H2 R1 R2. thread_cases H1; [by subst p1|]. by rewrite (not_reading _ _ _ Hf H1) in R1.
  - intros t' i Ht'. thread_cases Ht'; [done|]. by apply (not_reading _ _ _ Hf) in Ht'.
  - intros t' Ht'. thread_cases Ht'; [done|]. by apply (not_reading _ _ _ Hf) in Ht'.
Qed.

Lemma file_inv_open s0 w hist k t i :
  file_inv s0 w hist k -> sw_threads w !! t = Some PcPersist -> lock_free (sw_threads w) = true ->
  i = match sw_tmp w with Some i => i | None => fresh (dom (sw_inodes w)) end ->
  file_inv s0 {| sw_mem := sw_mem w; sw_inodes := <[i := []]> (sw_inodes w); sw_path := sw_path w; sw_tmp := Some i;
                 sw_threads := <[t := PcOpened i]> (sw_threads w) |} hist k.
Proof.
  intros [Hmem (p & b & Hp & Hb & Hprint & Hne) Hlen Htmp Hdone Hhist Halone Hopen Hwritten] Ht Hf Hi.
  assert (i <> p) as Hip.
  { subst i. destruct (sw_tmp w) as [j|] eqn:Ej; [congruence|]. intros Hi.
    apply (is_fresh (dom (sw_inodes w))). rewrite Hi. by apply elem_of_dom_2 in Hb. }
  unfold thread_done in *. split; cbn.
  - done.
  - exists p, b. rewrite lookup_insert_ne by done. split; [done|]. split; [done|]. split; [done|congruence].
  - done.
  - intros j [= <-]. rewrite lookup_insert_eq. eauto.
  - intros t' Ht'. unfold thread_done in Ht'. cbn in Ht'. thread_cases Ht'; [done|by apply Hdone].
  - intros t' pc Ht' Hpc. thread_cases Ht'; [by apply (Hhist t _ Ht)|by eapply Hhist].
  - intros t1 t2 p1 p2 H1 H2 R1 R2. thread_cases H1; [|by rewrite (not_reading _ _ _ Hf H1) in R1].
    thread_cases H2; [done|by rewrite (not_reading _ _ _ Hf H2) in R2].
  - intros t' j Ht'. thread_cases Ht'; [by injection Ht' as ->|]. by apply (not_reading _ _ _ Hf) in Ht'.
  - intros t' Ht'. thread_cases Ht'; [done|]. by apply (not_reading _ _ _ Hf) in Ht'.
Qed.

Lemma file_inv_write s0 w hist k t i b :
  file_inv s0 w hist k -> sw_threads w !! t = Some (PcOpened i) -> print_snapshot (sw_mem w) = Ok b ->
  file_inv s0 {| sw_mem := sw_mem w; sw_inodes := <[i := b]> (sw_inodes w); sw_path := sw_path w; sw_tmp := sw_tmp w;
                 sw_threads := <[t := PcWritten]> (sw_threads w) |} hist k.
Proof.
  intros [Hmem (p & b0 & Hp & Hb & Hprint & Hne) Hlen Htmp Hdone Hhist Halone Hopen Hwritten] Ht Hpr.
  pose proof (Hopen _ _ Ht) as Hti.
  unfold thread_done in *. split; cbn.
  - done.
  - exists p, b0. rewrite lookup_insert_ne by congruence. done.
  - done.
  - intros j Hj. rewrite Hti in Hj. injection Hj as <-. rewrite lookup_insert_eq. eauto.
  - intros t' Ht'. unfold thread_done in Ht'. cbn in Ht'. thread_cases Ht'; [done|by apply Hdone].
  - intros t' pc Ht' Hpc. thread_cases Ht'; [by apply (Hhist t _ Ht)|by eapply Hhist].
  - intros t1 t2 p1 p2 H1 H2 R1 R2. thread_cases H1; thread_cases H2; try done.
    + by destruct (Halone t t2 _ _ Ht H2 eq_refl R2).
    + by destruct (Halone t1 t _ _ H1 Ht R1 eq_refl).
    + by eapply Halone.
  - intros t' j Ht'. thread_cases Ht'; [done|by eapply Hopen].
  - intros t' Ht'. thread_cases Ht'; [exists i, b; by rewrite lookup_insert_eq|].
    by destruct (Halone t t' _ _ Ht Ht' eq_refl eq_refl).
Qed.

Lemma file_inv_rename s0 w hist k t i :
  file_inv s0 w hist k -> sw_threads w !! t = Some PcWritten -> sw_tmp w = Some i ->
  file_inv s0 {| sw_mem := sw_mem w; sw_inodes := sw_inodes w; sw_path := Some i; sw_tmp := None;
                 sw_threads := <[t := PcDone (Ok tt)]> (sw_threads w) |} hist (length hist).
Proof.
  intros [Hmem _ Hlen Htmp Hdone Hhist Halone Hopen Hwritten] Ht Hti.
  destruct (Hwritten _ Ht) as (j & b & Hj & Hb & Hpr). rewrite Hti in Hj. injection Hj as <-.
  unfold thread_done in *. split; cbn.
  - done.
  - exists i, b. rewrite firstn_all, <- Hmem. done.
  - done.
  - done.
  - intros t' Ht'. rewrite firstn_all. unfold thread_done in Ht'. cbn in Ht'. thread_cases Ht'; [by apply (Hhist t _ Ht)|].
    by apply (Hhist t' _ Ht').
  - intros t' pc Ht' Hpc. thread_cases Ht'; [by apply (Hhist t _ Ht)|by eapply Hhist].
  - intros t1 t2 p1 p2 H1 H2 R1 R2. thread_cases H1; [by subst p1|]. thread_cases H2; [by subst p2|]. by eapply Halone.
  - intros t' j Ht'. thread_cases Ht'; [done|]. by destruct (Halone t t' _ _ Ht Ht' eq_refl eq_refl).
  - intros t' Ht'. thread_cases Ht'; [done|]. by destruct (Halone t t' _ _ Ht Ht' eq_refl eq_refl).
Qed.

Lemma file_inv_run s0 evs w hist k w' :
  file_inv s0 w hist k -> serial evs w = true -> store_run evs w = Some w' -> exists hist' k', file_inv s0 w' hist' k'.
Proof.
  revert w hist k. induction evs as [|ev evs IH]; intros w hist k Hi Hser Hrun; cbn in *; [injection Hrun as <-; eauto|].
  apply andb_true_iff in Hser as [Halone Hser]. destruct (store_event ev w) as [w1|] eqn:E; [|done].
  enough (exists hist1 k1, file_inv s0 w1 hist1 k1) as (hist1 & k1 & H1) by by eapply IH.
  clear IH Hser Hrun. destruct ev as [t m|t]; cbn in E; [exists hist, k; by eapply file_inv_spawn|].
  unfold persist_step in E. destruct (sw_threads w !! t) as [[m| |i| |r]|] eqn:Et; try done.
  - destruct (lock_free (sw_threads w)) eqn:Hf; [|done]. injection E as <-. eexists _, _. by apply file_inv_mutate.
  - cbn in Halone. rewrite Et in Halone. destruct (print_snapshot_ok (sw_mem w)) as (b & Hb & _). rewrite Hb in E.
    injection E as <-. eexists _, _. by apply file_inv_open.
  - destruct (print_snapshot_ok (sw_mem w)) as (b & Hb & _). rewrite Hb in E. injection E as <-. eexists _, _. by apply file_inv_write.
  - destruct (fi_written _ _ _ _ Hi _ Et) as (i & b & Hti & _). rewrite Hti in E. injection E as <-.
    eexists _, _. by eapply file_inv_rename.
Qed.

(** A service that has just opened a snapshot, with its file written. *)
Definition clean_world (s : Snapshot) (b : bytes) : StoreWorld :=
  {| sw_mem := s; sw_inodes := {[ 0 := b ]}; sw_path := Some 0; sw_tmp := None; sw_threads := ∅ |}.

Lemma file_inv_clean s b : print_snapshot s = Ok b -> file_inv s (clean_world s b) [] 0.
Proof.
  intros Hb. split; cbn; try done.
  exists 0, b. by rewrite lookup_singleton_eq.
Qed.

(** As long as no two requests of the trust service are in its file at once, a crash at any
    point leaves a file from which the service starts again with the mutations of some prefix of those
    applied, and every acknowledged one is in that prefix. *)
Theorem serial_persist_crash_safe s0 b evs w :
  print_snapshot s0 = Ok b -> serial evs (clean_world s0 b) = true -> store_run evs (clean_world s0 b) = Some w ->
  exists hist k, sw_mem w = foldl (fun s tm => mutate tm.2 s) s0 hist /\
    (storage_open (Ok tt) (Ok tt) Stored (disk_of w)).1 = Ok (foldl (fun s tm => mutate tm.2 s) s0 (take k hist)) /\
    forall t, thread_done w t -> exists m, (t, m) ∈ take k hist.
Proof.
  intros Hb Hser Hrun. destruct (file_inv_run s0 evs _ [] 0 w (file_inv_clean s0 b Hb) Hser Hrun) as (hist & k & Hi).
  exists hist, k. split; [apply Hi|]. split; [|apply Hi]. destruct (fi_path _ _ _ _ Hi) as (i & b' & Hp & Hin & Hpr & _).
  apply (open_printed _ b'); [done|]. cbn. by rewrite Hp.
Qed.

Lemma store_run_cons ev evs w w1 w' :
  store_event ev w = Some w1 -> store_run evs w1 = Some w' -> store_run (ev :: evs) w = Some w'.
Proof. intros He Hr. cbn. by rewrite He. Qed.

Lemma lock_free_empty : lock_free ∅ = true.
Proof. by apply bool_decide_eq_true_2, map_Forall_empty. Qed.
Lemma lock_free_insert ts t pc : pc_reading pc = false -> lock_free ts = true -> lock_free (<[t := pc]> ts) = true.
Proof. unfold lock_free. rewrite !bool_decide_eq_true. intros ??. by apply map_Forall_insert_2. Qed.
#[local] Hint Resolve lock_free_empty lock_free_insert : core.

(** Runs one event of a concrete interleaving. *)
Ltac store_step Hprint :=
  eapply store_run_cons;
  [unfold store_event, persist_spawn, persist_step; cbn [set_pc sw_threads sw_mem sw_tmp sw_path sw_inodes clean_world];
   simplify_map_eq; rewrite ?Hprint; rewrite ?(_ : lock_free _ = true) by auto; reflexivity|].

(** The file operations of two requests can overlap, because [persist] holds only the
    read lock and every request writes the same temporary file: from any snapshot, two concurrent
    requests reach a point where one of them was acknowledged and the file is empty, and a service
    that starts from it has no denylist at all. *)
Theorem concurrent_requests_lose_denylist s b (m1 m2 : Mutation) :
  print_snapshot s = Ok b ->
  exists evs w, store_run evs (clean_world s b) = Some w /\ thread_done w 1 /\
    (storage_open (Ok tt) (Ok tt) Stored (disk_of w)).1 = Ok snapshot_default.
Proof.
  intros Hb. destruct (print_snapshot_ok (mutate m2 (mutate m1 s))) as (b2 & Hb2 & _).
  destruct (print_snapshot_ok snapshot_default) as (b0 & Hb0 & _).
  exists [EvSpawn 1 m1; EvSpawn 2 m2; EvStep 1; EvStep 2; EvStep 1; EvStep 1; EvStep 2; EvStep 1]. eexists.
  split.
  { do 8 store_step Hb2. reflexivity. }
  cbn. set (i := fresh _). unfold thread_done. cbn. split; [by simplify_map_eq|].
  unfold storage_open, disk_of. cbn. rewrite lookup_insert_eq. rewrite bool_decide_eq_true_2 by done.
  unfold persist. by rewrite Hb0.
Qed.
End crash.

(** ** Instances for the witnesses

    Values are printed as their number in stdpp's enumeration; the issuer's signature is
    its key. *)

#[local] Instance ReportKind_eq_dec : EqDecision ReportKind.
Proof. solve_decision. Defined.
#[local] Instance ReportKind_countable : Countable ReportKind.
Proof.
  apply (inj_countable'
    (fun k => match k with Csam => 0 | ViolenceThreat => 1 | Harassment => 2 | Spam => 3 | Doxxing => 4
                         | AbusiveContent => 5 | OtherReport => 6 end)
    (fun n => match n with 0 => Csam | 1 => ViolenceThreat | 2 => Harassment | 3 => Spam | 4 => Doxxing
                         | 5 => AbusiveContent | _ => OtherReport end)).
  by intros [].
Defined.
#[local] Instance TargetIdentity_countable : Countable TargetIdentity.
Proof. apply (inj_countable' (fun t => (ti_kind t, ti_value t)) (fun p => Build_TargetIdentity p.1 p.2)). by intros []. Defined.
#[local] Instance Report_eq_dec : EqDecision Report.
Proof. solve_decision. Defined.
#[local] Instance Report_countable : Countable Report.
Proof.
  apply (inj_countable'
    (fun r => (rp_reporter_agent_id_hex r, rp_target r, rp_kind r, rp_reason r, rp_attached_excerpt r, rp_timestamp_ms r))
    (fun '(a, b, c, d, e, f) => Build_Report a b c d e f)). by intros [].
Defined.
#[local] Instance DenylistEntry_eq_dec : EqDecision DenylistEntry.
Proof. solve_decision. Defined.
#[local] Instance DenylistEntry_countable : Countable DenylistEntry.
Proof.
  apply (inj_countable' (fun e => (dn_target e, dn_added_at_ms e, dn_reason e)) (fun '(a, b, c) => Build_DenylistEntry a b c)).
  by intros [].
Defined.
#[local] Instance Snapshot_eq_dec : EqDecision Snapshot.
Proof. solve_decision. Defined.
#[local] Instance Snapshot_countable : Countable Snapshot.
Proof.
  apply (inj_countable'
    (fun s => (sn_reports s, sn_xornames s, sn_agents s, sn_relay_urls s, sn_actor_urls s, sn_etag_seq s))
    (fun '(a, b, c, d, e, f) => Build_Snapshot a b c d e f)). by intros [].
Defined.
#[local] Instance DenylistResponse_eq_dec : EqDecision DenylistResponse.
Proof. solve_decision. Defined.
#[local] Instance DenylistResponse_countable : Countable DenylistResponse.
Proof.
  apply (inj_countable'
    (fun r => (dr_etag r, dr_generated_at_ms r, dr_kind r, dr_entries r, dr_issuer_signature_hex r, dr_issuer_key_id r))
    (fun '(a, b, c, d, e, f) => Build_DenylistResponse a b c d e f)). by intros [].
Defined.

Definition decode_one {A} `{Countable A} (b : bytes) : result A string :=
  match b with
  | [N.pos p] => match decode p with Some a => Ok a | None => Err "json"%string end
  | _ => Err "json"%string
  end.

Definition tr_snapshot_json : SnapshotJson :=
  {| print_snapshot := fun s => Ok [N.pos (encode s)]; parse_snapshot := decode_one |}.
Definition tr_response_json : ResponseJson :=
  {| print_response := fun r => [N.pos (encode r)]; parse_response := decode_one |}.
Definition tr_postcard : DenylistPostcard := fun etag now kind entries => Ok [now].
Definition tr_signer : IssuerSigner :=
  {| issuer_key_id := "issuer-v1"; issuer_public_key := [7]; issuer_sign := fun _ => Ok [7] |}.
Definition tr_hex : HexDisplay := fun _ => EmptyString.
Definition tr_iter : SetIter := {| hs_iter := elements; hs_iter_perm s := Permutation_refl (elements s) |}.
#[local] Existing Instance tr_snapshot_json.
#[local] Existing Instance tr_response_json.
#[local] Existing Instance tr_postcard.
#[local] Existing Instance tr_signer.
#[local] Existing Instance tr_hex.
#[local] Existing Instance tr_iter.
#[local] Existing Instance demo_mldsa.

#[local] Instance tr_snapshot_laws : SnapshotLaws.
Proof. constructor. intros s. eexists. split; [reflexivity|]. split; [done|]. cbn. by rewrite decode_encode. Defined.
#[local] Instance tr_laws : TrustLaws.
Proof.
  constructor.
  - intros m sig [= <-]. split; [done|]. split; [done|]. split; [done|repeat constructor].
  - intros r. cbn. by rewrite decode_encode.
Defined.

Definition eve : string := "https://bad.example/users/eve".
Definition eve_target : TargetIdentity := {| ti_kind := ActorUrl; ti_value := eve |}.
Definition eve_entry : DenylistEntry := {| dn_target := eve_target; dn_added_at_ms := 5; dn_reason := Spam |}.
Definition some_report : Report :=
  {| rp_reporter_agent_id_hex := None; rp_target := eve_target; rp_kind := Spam; rp_reason := "x"; rp_attached_excerpt := None;
     rp_timestamp_ms := 9 |}.
Definition eve_ops : list AdminOp :=
  [OpDeny ActorUrl "https://Bad.example/users/eve/" Spam 5 Stored;
   OpDeny ActorUrl "https://bad.example/users/eve?x" Spam 6 Stored;
   OpDeny RelayUrl "wss://r.example/ws" Spam 7 (RenameFails "io"); OpRevoke RelayUrl "wss://R.example/ws/" Stored].
Definition tr_cfg : ConsumerConfig := {| cc_issuer_pk := [7]; cc_fetch_url_base := "u"; cc_has_cache := true |}.
Definition fresh_disk : Disk := {| dk_path := None; dk_tmp := None |}.

(** A service that answers the consumer's four requests. *)
Definition honest_get (s : Snapshot) (url : string) : result bytes ClientError :=
  match List.find (fun kind => bool_decide (url = kind_url tr_cfg kind)) ALL_KINDS with
  | Some kind => match signed_denylist kind 9 s s with Ok resp => Ok (print_response resp) | Err _ => Err (CHttp "500") end
  | None => Err (CHttp "404")
  end.

Lemma concurrent_requests_lose_denylist_witness :
  exists evs w, store_run evs (clean_world (mutate (MDeny eve_entry) snapshot_default)
                                 [N.pos (encode (mutate (MDeny eve_entry) snapshot_default))]) = Some w /\
    thread_done w 1 /\ (storage_open (Ok tt) (Ok tt) Stored (disk_of w)).1 = Ok snapshot_default.
Proof. apply (concurrent_requests_lose_denylist _ _ (MReport some_report) (MReport some_report)). reflexivity. Defined.

Definition serial_events : list StoreEvent :=
  [EvSpawn 1 (MAllow eve_target); EvSpawn 2 (MAllow eve_target); EvStep 1; EvStep 2; EvStep 1; EvStep 1; EvStep 1; EvStep 2].

Lemma serial_persist_crash_safe_witness :
  exists w hist k, store_run serial_events (clean_world snapshot_default [N.pos (encode snapshot_default)]) = Some w /\
    (storage_open (Ok tt) (Ok tt) Stored (disk_of w)).1 = Ok (foldl (fun s tm => mutate tm.2 s) snapshot_default (take k hist)) /\
    exists m, (1, m) ∈ take k hist.
Proof.
  destruct (store_run serial_events (clean_world snapshot_default [N.pos (encode snapshot_default)])) as [w|] eqn:E; [|by vm_compute in E].
  destruct (serial_persist_crash_safe snapshot_default [N.pos (encode snapshot_default)] serial_events w)
    as (hist & k & _ & Hopen & Hdone); [reflexivity|by vm_compute|exact E|].
  exists w, hist, k. split; [done|]. split; [done|]. apply Hdone. unfold thread_done.
  enough ((w ← store_run serial_events (clean_world snapshot_default [N.pos (encode snapshot_default)]); sw_threads w !! 1)
    = Some (PcDone (Ok tt))) as Ht by (by rewrite E in Ht). by vm_compute.
Defined.
