(* ===== verification/FediSig.v ===== *)
(** * HTTP signatures of the fediverse

    Models [crates/fetchit-fedi/src/signature.rs] (RFC 9421) and [signature_cavage.rs]
    (draft-cavage): what is signed, the headers that carry it, and the verifiers.  RSA,
    SHA-256, base64 and URLs are parameters. *)
From Stdlib Require Import Ascii.
From stdpp Require Import pretty.
From S2P Require Import Prelude RelayProto RelayAuth PairRecord ShareUri Text.
Open Scope rust_scope.

(** [rsa]: the two PEM parsers, signing and verification with PKCS#1 v1.5 and SHA-256, and the
    parser of signatures. *)
Class Rsa := {
  RsaPublicKey : Type;
  RsaPrivateKey : Type;
  rsa_from_spki_pem : string -> option RsaPublicKey;
  rsa_from_pkcs1_pem : string -> option RsaPublicKey;
  rsa_from_pkcs8_pem : string -> result RsaPrivateKey string;
  rsa_try_sign : RsaPrivateKey -> bytes -> result bytes string;
  rsa_sig_parse : bytes -> result unit string;
  rsa_verify : RsaPublicKey -> bytes -> bytes -> bool;
}.

(** The text of a base64 error, and [str::to_lowercase]. *)
Class SigText := { b64_error : string -> string; to_lowercase : string -> string }.

Inductive HttpSignatureError := InvalidPrivateKey (e : string) | MissingHost (url : string) | SigningFailed (e : string).

Inductive SignatureVerifyError :=
| HeaderMalformed (e : string)
| DigestMismatch
| SignatureDecodeFailed (e : string)
| VerifyFailed
| MissingSignedHeader (name : string).

Definition reason_label (e : SignatureVerifyError) : string :=
  match e with
  | HeaderMalformed _ => "header_malformed"
  | DigestMismatch => "digest_mismatch"
  | SignatureDecodeFailed _ => "signature_decode"
  | VerifyFailed => "verify_failed"
  | MissingSignedHeader _ => "missing_signed_header"
  end.

Record SignedHeaders := {
  sh_date : string; sh_content_digest : string; sh_signature_input : string; sh_signature : string;
}.
Record CavageSignedHeaders := { ch_date : string; ch_digest : string; ch_signature : string }.
Record HttpSignatureKey := { hk_key_id : string; hk_rsa_private_pem : string }.

Definition quoted (s : string) : string := quote +:+ s +:+ quote.

Section fedi_sig.
  Context `{Base64, Sha256, Rsa, SigText, UrlEdit}.

Definition compute_content_digest (body : bytes) : string := "sha-256=:" +:+ b64_encode (sha256 body) +:+ ":".
Definition compute_digest_cavage (body : bytes) : string := "SHA-256=" +:+ b64_encode (sha256 body).

Definition parse_rsa_public_key_pem (pem : string) : option RsaPublicKey :=
  match rsa_from_spki_pem pem with Some k => Some k | None => rsa_from_pkcs1_pem pem end.

(** *** RFC 9421 *)

Definition build_signature_input_params (created : Z) (key_id : string) : string :=
  "(" +:+ quoted "@method" +:+ " " +:+ quoted "@target-uri" +:+ " " +:+ quoted "host" +:+ " " +:+ quoted "date" +:+ " "
  +:+ quoted "content-digest" +:+ ");created=" +:+ pretty created +:+ ";keyid=" +:+ quoted key_id
  +:+ ";alg=" +:+ quoted "rsa-v1_5-sha256".

Definition build_signature_base (target_uri host date content_digest sig_params : string) : string :=
  quoted "@method" +:+ ": POST" +:+ newline +:+ quoted "@target-uri" +:+ ": " +:+ target_uri +:+ newline
  +:+ quoted "host" +:+ ": " +:+ host +:+ newline +:+ quoted "date" +:+ ": " +:+ date +:+ newline
  +:+ quoted "content-digest" +:+ ": " +:+ content_digest +:+ newline +:+ quoted "@signature-params" +:+ ": " +:+ sig_params.

(** The host with its port, as the signers write it. *)
Definition signing_host (url : Url) : result string HttpSignatureError :=
  match url_host_str url with
  | None => Err (MissingHost (url_to_string url))
  | Some h => Ok (match url_port url with Some port => h +:+ ":" +:+ pretty port | None => h end)
  end.

Definition sign_post_rfc9421_with_key (sk : RsaPrivateKey) (key_id : string) (url : Url) (body : bytes) (date_header : string)
    (created : Z) : result SignedHeaders HttpSignatureError :=
  let content_digest := compute_content_digest body in
  let? host := signing_host url in
  let sig_params := build_signature_input_params created key_id in
  let base := build_signature_base (url_to_string url) host date_header content_digest sig_params in
  match rsa_try_sign sk (ascii_bytes base) with
  | Err e => Err (SigningFailed e)
  | Ok sig => Ok {| sh_date := date_header; sh_content_digest := content_digest; sh_signature_input := "sig1=" +:+ sig_params;
                    sh_signature := "sig1=:" +:+ b64_encode sig +:+ ":" |}
  end.

Definition sign_post_rfc9421 (key : HttpSignatureKey) (url : Url) (body : bytes) (date_header : string) (created : Z)
    : result SignedHeaders HttpSignatureError :=
  match rsa_from_pkcs8_pem (hk_rsa_private_pem key) with
  | Err e => Err (InvalidPrivateKey e)
  | Ok sk => sign_post_rfc9421_with_key sk (hk_key_id key) url body date_header created
  end.

(** Decoding a signature and checking it over a base. *)
Definition check_rsa_signature (pk : RsaPublicKey) (base sig_b64 : string) : result unit SignatureVerifyError :=
  match b64_decode sig_b64 with
  | None => Err (SignatureDecodeFailed (b64_error sig_b64))
  | Some sig =>
      match rsa_sig_parse sig with
      | Err e => Err (SignatureDecodeFailed e)
      | Ok _ => if rsa_verify pk (ascii_bytes base) sig then Ok tt else Err VerifyFailed
      end
  end.

Definition verify_signature_rfc9421 (pk : RsaPublicKey) (target_uri host date content_digest signature_input signature : string)
    (body : bytes) : result unit SignatureVerifyError :=
  if negb (bool_decide (compute_content_digest body = content_digest)) then Err DigestMismatch
  else match strip_prefix "sig1=" signature_input with
       | None => Err (HeaderMalformed "Signature-Input must start with 'sig1='")
       | Some sig_params =>
           let base := build_signature_base target_uri host date content_digest sig_params in
           match s ← strip_prefix "sig1=:" signature; strip_last ":" s with
           | None => Err (HeaderMalformed "Signature must be of the form 'sig1=:<base64>:'")
           | Some sig_b64 => check_rsa_signature pk base sig_b64
           end
       end.

(** *** draft-cavage *)

Definition build_request_target (url : Url) : string :=
  match url_query url with
  | Some q => "post " +:+ url_path url +:+ "?" +:+ q
  | None => "post " +:+ url_path url
  end.

Definition build_cavage_base (request_target host date digest : string) : string :=
  "(request-target): " +:+ request_target +:+ newline +:+ "host: " +:+ host +:+ newline +:+ "date: " +:+ date +:+ newline
  +:+ "digest: " +:+ digest.

Definition cavage_signature_header (key_id sig_b64 : string) : string :=
  "keyId=" +:+ quoted key_id +:+ ",algorithm=" +:+ quoted "rsa-sha256" +:+ ",headers="
  +:+ quoted "(request-target) host date digest" +:+ ",signature=" +:+ quoted sig_b64.

Definition sign_post_cavage_with_key (sk : RsaPrivateKey) (key_id : string) (url : Url) (body : bytes) (date_header : string)
    : result CavageSignedHeaders HttpSignatureError :=
  let digest := compute_digest_cavage body in
  let? host := signing_host url in
  let base := build_cavage_base (build_request_target url) host date_header digest in
  match rsa_try_sign sk (ascii_bytes base) with
  | Err e => Err (SigningFailed e)
  | Ok sig => Ok {| ch_date := date_header; ch_digest := digest; ch_signature := cavage_signature_header key_id (b64_encode sig) |}
  end.

Definition sign_post_cavage (key : HttpSignatureKey) (url : Url) (body : bytes) (date_header : string)
    : result CavageSignedHeaders HttpSignatureError :=
  match rsa_from_pkcs8_pem (hk_rsa_private_pem key) with
  | Err e => Err (InvalidPrivateKey e)
  | Ok sk => sign_post_cavage_with_key sk (hk_key_id key) url body date_header
  end.

Record CavageSignatureParams := { cp_key_id : string; cp_algorithm : string; cp_headers : string; cp_signature : string }.

(** The parts between separators that are not inside quotes: the first one and the others. *)
Fixpoint quote_aware_split (sep : ascii) (in_quotes : bool) (s : string) : string * list string :=
  match s with
  | EmptyString => (EmptyString, [])
  | String c s' =>
      let in_quotes' := if bool_decide (c = ascii_of_N 34) then negb in_quotes else in_quotes in
      let '(h, t) := quote_aware_split sep in_quotes' s' in
      if negb (bool_decide (c = ascii_of_N 34)) && bool_decide (c = sep) && negb in_quotes
      then (EmptyString, h :: t) else (String c h, t)
  end.

(** One parameter of the header. *)
Definition set_cavage_param (part : string) (out : CavageSignatureParams) : result CavageSignatureParams SignatureVerifyError :=
  let part := trim part in
  if bool_decide (part = EmptyString) then Ok out
  else match split_once "=" part with
       | None => Err (HeaderMalformed ("cavage Signature parameter missing '=': " +:+ part))
       | Some (key, raw_value) =>
           let key := trim key in
           match s ← strip_prefix quote (trim raw_value); strip_last (ascii_of_N 34) s with
           | None => Err (HeaderMalformed ("cavage Signature value must be quoted: " +:+ key +:+ "=" +:+ raw_value))
           | Some value =>
               Ok (if bool_decide (key = "keyId"%string)
                   then {| cp_key_id := value; cp_algorithm := cp_algorithm out; cp_headers := cp_headers out; cp_signature := cp_signature out |}
                   else if bool_decide (key = "algorithm"%string)
                   then {| cp_key_id := cp_key_id out; cp_algorithm := value; cp_headers := cp_headers out; cp_signature := cp_signature out |}
                   else if bool_decide (key = "headers"%string)
                   then {| cp_key_id := cp_key_id out; cp_algorithm := cp_algorithm out; cp_headers := value; cp_signature := cp_signature out |}
                   else if bool_decide (key = "signature"%string)
                   then {| cp_key_id := cp_key_id out; cp_algorithm := cp_algorithm out; cp_headers := cp_headers out; cp_signature := value |}
                   else out)
           end
       end.

Fixpoint set_cavage_params (parts : list string) (out : CavageSignatureParams) : result CavageSignatureParams SignatureVerifyError :=
  match parts with
  | [] => Ok out
  | part :: parts => let? out := set_cavage_param part out in set_cavage_params parts out
  end.

Definition cavage_default : CavageSignatureParams :=
  {| cp_key_id := EmptyString; cp_algorithm := EmptyString; cp_headers := EmptyString; cp_signature := EmptyString |}.

Definition parse_cavage_signature_header (header_value : string) : result CavageSignatureParams SignatureVerifyError :=
  let '(h, t) := quote_aware_split "," false header_value in
  let? out := set_cavage_params (h :: t) cavage_default in
  if bool_decide (cp_signature out = EmptyString)
  then Err (HeaderMalformed "cavage Signature is missing the 'signature' parameter")
  else if bool_decide (cp_headers out = EmptyString)
  then Err (HeaderMalformed "cavage Signature is missing the 'headers' parameter")
  else Ok out.

Definition verify_signature_cavage (pk : RsaPublicKey) (request_target host date digest signature_header : string) (body : bytes)
    : result unit SignatureVerifyError :=
  if negb (bool_decide (compute_digest_cavage body = digest)) then Err DigestMismatch
  else
    let? params := parse_cavage_signature_header signature_header in
    check_rsa_signature pk (build_cavage_base request_target host date digest) (cp_signature params).

Definition CAVAGE_REQUIRED_COMPONENTS : list string := ["(request-target)"; "host"; "date"; "digest"]%string.

(** The lines of the base for one host: the declared names with their values. *)
Fixpoint declared_lines (method path host : string) (req_header : string -> option string) (declared : list string)
    : result (list string) SignatureVerifyError :=
  match declared with
  | [] => Ok []
  | name :: declared =>
      let? value := if bool_decide (name = "(request-target)"%string) then Ok (method +:+ " " +:+ path)
                    else if bool_decide (name = "host"%string) then Ok host
                    else match req_header name with Some v => Ok v | None => Err (MissingSignedHeader name) end in
      let? lines := declared_lines method path host req_header declared in
      Ok ((name +:+ ": " +:+ value) :: lines)
  end.

(** [lines.join(newline)]. *)
Fixpoint join_lines (lines : list string) : string :=
  match lines with
  | [] => EmptyString
  | [l] => l
  | l :: lines => l +:+ newline +:+ join_lines lines
  end.

(** The loop over the candidate hosts. *)
Fixpoint try_hosts (pk : RsaPublicKey) (method path : string) (req_header : string -> option string) (declared : list string)
    (sig : bytes) (tried hosts : list string) : result unit SignatureVerifyError :=
  match hosts with
  | [] => Err VerifyFailed
  | host :: hosts =>
      if bool_decide (host ∈ tried) then try_hosts pk method path req_header declared sig tried hosts
      else
        let? lines := declared_lines method path host req_header declared in
        if rsa_verify pk (ascii_bytes (join_lines lines)) sig then Ok tt
        else try_hosts pk method path req_header declared sig (tried ++ [host]) hosts
  end.

Definition verify_signature_cavage_declared (pk : RsaPublicKey) (method path : string) (host_candidates : list string)
    (req_header : string -> option string) (signature_header : string) : result unit SignatureVerifyError :=
  let? params := parse_cavage_signature_header signature_header in
  let declared := if bool_decide (trim (cp_headers params) = EmptyString) then ["date"%string]
                  else to_lowercase <$> split_whitespace (cp_headers params) in
  match List.find (fun required => negb (bool_decide (required ∈ declared))) CAVAGE_REQUIRED_COMPONENTS with
  | Some required => Err (HeaderMalformed ("signed header list must cover " +:+ required))
  | None =>
      match b64_decode (cp_signature params) with
      | None => Err (SignatureDecodeFailed (b64_error (cp_signature params)))
      | Some sig =>
          match rsa_sig_parse sig with
          | Err e => Err (SignatureDecodeFailed e)
          | Ok _ => try_hosts pk method path req_header declared sig [] host_candidates
          end
      end
  end.
End fedi_sig.

(** ** What is signed *)

Lemma lacks_const c s : bool_decide (c ∈ String.list_ascii_of_string s) = false -> lacks c s.
Proof. intros Hs. unfold lacks. by apply bool_decide_eq_false_1 in Hs. Qed.

Definition no_newline (s : string) : Prop := lacks (ascii_of_N 10) s.

Lemma no_newline_app s t : no_newline s -> no_newline t -> no_newline (s +:+ t).
Proof. apply lacks_app. Qed.
Lemma no_newline_quoted s : no_newline s -> no_newline (quoted s).
Proof.
  intros Hs. unfold quoted. apply lacks_app; [|apply lacks_app; [done|]];
    (apply lacks_cons; split; [done|apply not_elem_of_nil]).
Qed.

(** The text up to a line feed determines the line and the rest. *)
Lemma line_inj l l' rest rest' :
  no_newline l -> no_newline l' -> l +:+ newline +:+ rest = l' +:+ newline +:+ rest' -> l = l' /\ rest = rest'.
Proof.
  intros Hl Hl' Heq. change (newline +:+ rest) with (String (ascii_of_N 10) rest) in Heq.
  change (newline +:+ rest') with (String (ascii_of_N 10) rest') in Heq.
  apply (f_equal (split_once (ascii_of_N 10))) in Heq. rewrite !split_once_app in Heq by done. by injection Heq.
Qed.
Lemma append_inj_r p s t : p +:+ s = p +:+ t -> s = t.
Proof. induction p as [|a p IH]; [done|]. rewrite !append_cons. intros [= Heq]. by apply IH. Qed.

(** One line of the RFC 9421 base. *)
Definition base_line (name value : string) : string := quoted name +:+ ": " +:+ value.

Lemma base_line_inj name v v' : base_line name v = base_line name v' -> v = v'.
Proof. unfold base_line. intros Heq. by apply append_inj_r, append_inj_r in Heq. Qed.
Lemma base_line_no_newline name v : no_newline name -> no_newline v -> no_newline (base_line name v).
Proof.
  intros Hn Hv. unfold base_line. apply no_newline_app; [by apply no_newline_quoted|]. apply no_newline_app; [|done].
  by apply lacks_const.
Qed.
Lemma build_signature_base_lines u h d cd p :
  build_signature_base u h d cd p =
  base_line "@method" "POST" +:+ newline +:+ base_line "@target-uri" u +:+ newline +:+ base_line "host" h +:+ newline
  +:+ base_line "date" d +:+ newline +:+ base_line "content-digest" cd +:+ newline +:+ base_line "@signature-params" p.
Proof. unfold build_signature_base, base_line. by rewrite !append_assoc. Qed.

(** For header values without line feeds, which is what a header can hold, the text an RFC 9421
    signature covers determines the target, the host, the date, the digest and the parameters. *)
Theorem signing_base_binds_request u h d cd p u' h' d' cd' p' :
  Forall no_newline [u; h; d; cd; u'; h'; d'; cd'] ->
  ascii_bytes (build_signature_base u h d cd p) = ascii_bytes (build_signature_base u' h' d' cd' p') ->
  u = u' /\ h = h' /\ d = d' /\ cd = cd' /\ p = p'.
Proof.
  intros Hall Heq. apply ascii_bytes_inj in Heq. rewrite !build_signature_base_lines in Heq.
  rewrite !Forall_cons in Hall. destruct Hall as (Hu & Hh & Hd & Hcd & Hu' & Hh' & Hd' & Hcd' & _).
  apply line_inj in Heq as [_ Heq]; [|by apply base_line_no_newline; apply lacks_const..].
  apply line_inj in Heq as [Eu Heq]; [|by apply base_line_no_newline; [apply lacks_const|]..].
  apply line_inj in Heq as [Eh Heq]; [|by apply base_line_no_newline; [apply lacks_const|]..].
  apply line_inj in Heq as [Ed Heq]; [|by apply base_line_no_newline; [apply lacks_const|]..].
  apply line_inj in Heq as [Ec Heq]; [|by apply base_line_no_newline; [apply lacks_const|]..].
  by apply base_line_inj in Eu, Eh, Ed, Ec, Heq.
Qed.

Lemma signing_base_binds_request_witness :
  let base d := ascii_bytes (build_signature_base "https://r.example/inbox" "r.example" d "sha-256=:AA==:" "k") in
  base "Sun, 06 Nov 1994 08:49:37 GMT" <> base "Sun, 06 Nov 1994 08:49:38 GMT".
Proof.
  intros base Heq. apply signing_base_binds_request in Heq; [by destruct Heq as (_ & _ & Hd & _)|].
  repeat constructor; by apply lacks_const.
Defined.

(** ** Signing and verifying *)

(** A signature made with a private key verifies under the public key that belongs to it; base64
    text is made of its alphabet, and is empty only for no bytes. *)
Class RsaLaws `{Base64, Rsa} := {
  rsa_pair : RsaPrivateKey -> RsaPublicKey -> Prop;
  rsa_sign_verifies : forall sk pk m sig, rsa_pair sk pk -> rsa_try_sign sk m = Ok sig ->
    rsa_sig_parse sig = Ok tt /\ rsa_verify pk m sig = true /\ Forall (fun b => b < 256) sig /\ sig <> [];
  b64_text : forall raw, lacks (ascii_of_N 34) (b64_encode raw) /\ (b64_encode raw = EmptyString -> raw = []);
}.

Section sign_verify.
  Context `{B : Base64, S : Sha256, R : Rsa, T : SigText, U : UrlEdit, !RsaLaws}.

Lemma check_rsa_signature_ok sk pk base sig :
  rsa_pair sk pk -> rsa_try_sign sk (ascii_bytes base) = Ok sig -> check_rsa_signature pk base (b64_encode sig) = Ok tt.
Proof.
  intros Hp Hs. destruct (rsa_sign_verifies _ _ _ _ Hp Hs) as (Hparse & Hv & Hb & _).
  unfold check_rsa_signature. by rewrite b64_decode_encode, Hparse, Hv.
Qed.

Lemma rfc9421_sign_verifies sk pk key_id url body date created h host :
  rsa_pair sk pk -> signing_host url = Ok host -> sign_post_rfc9421_with_key sk key_id url body date created = Ok h ->
  sh_date h = date /\
  verify_signature_rfc9421 pk (url_to_string url) host (sh_date h) (sh_content_digest h) (sh_signature_input h) (sh_signature h) body
    = Ok tt.
Proof.
  intros Hp Hh Hs. unfold sign_post_rfc9421_with_key in Hs. rewrite Hh in Hs.
  destruct (rsa_try_sign sk _) as [sig|] eqn:Hsig; [|done]. injection Hs as <-. cbn. split; [done|].
  unfold verify_signature_rfc9421. rewrite bool_decide_eq_true_2 by done. cbn [negb].
  rewrite !strip_prefix_app. cbn [mbind option_bind]. rewrite strip_last_app. by eapply check_rsa_signature_ok.
Qed.

(** *** The cavage header *)

Lemma qsplit_outside w s in_quotes :
  lacks (ascii_of_N 34) w -> (in_quotes = true \/ lacks "," w) ->
  quote_aware_split "," in_quotes (w +:+ s) =
    (w +:+ (quote_aware_split "," in_quotes s).1, (quote_aware_split "," in_quotes s).2).
Proof.
  intros Hq Hc. induction w as [|a w IH].
  { change (EmptyString +:+ s) with s. by destruct (quote_aware_split "," in_quotes s). }
  apply lacks_cons in Hq as [Ha Hq]. rewrite !append_cons. cbn -[bool_decide].
  rewrite (bool_decide_eq_false_2 (a = ascii_of_N 34)) by done. cbn [negb andb].
  rewrite IH; [|done|destruct Hc as [|Hc]; [by left|right; by apply lacks_cons in Hc as [_ ?]]].
  destruct (bool_decide (a = ","%char) && negb in_quotes) eqn:E; [|done].
  apply andb_true_iff in E as [E1 E2]. apply bool_decide_eq_true in E1. subst a.
  destruct Hc as [->|Hc]; [done|]. by apply lacks_cons in Hc as [? _].
Qed.
Lemma qsplit_quote s in_quotes :
  quote_aware_split "," in_quotes (quote +:+ s) =
    (quote +:+ (quote_aware_split "," (negb in_quotes) s).1, (quote_aware_split "," (negb in_quotes) s).2).
Proof.
  change (quote +:+ s) with (String (ascii_of_N 34) s). cbn -[bool_decide].
  rewrite (bool_decide_eq_true_2 (ascii_of_N 34 = ascii_of_N 34)) by done. cbn [negb andb].
  by destruct (quote_aware_split "," (negb in_quotes) s).
Qed.

(** One parameter as the signer writes it. *)
Definition cavage_param (name value : string) : string := name +:+ "=" +:+ quoted value.

Lemma qsplit_param name value s :
  lacks (ascii_of_N 34) name -> lacks "," name -> lacks (ascii_of_N 34) value ->
  quote_aware_split "," false (cavage_param name value +:+ s) =
    (cavage_param name value +:+ (quote_aware_split "," false s).1, (quote_aware_split "," false s).2).
Proof.
  intros Hn Hc Hv. unfold cavage_param, quoted. rewrite !append_assoc.
  rewrite qsplit_outside by (by auto). rewrite (qsplit_outside "=") by (try right; by apply lacks_const).
  rewrite qsplit_quote. cbn [negb]. rewrite (qsplit_outside value) by (by auto). rewrite qsplit_quote. by cbn [negb fst snd].
Qed.
Lemma qsplit_comma s : quote_aware_split "," false ("," +:+ s) =
  (EmptyString, (quote_aware_split "," false s).1 :: (quote_aware_split "," false s).2).
Proof.
  change ("," +:+ s) with (String "," s). cbn -[bool_decide]. rewrite bool_decide_eq_false_2, bool_decide_eq_true_2 by done.
  cbn [negb andb]. by destruct (quote_aware_split "," false s).
Qed.

Lemma set_cavage_param_written name value out a n :
  name = String a n -> plain a -> lacks "=" name -> trim name = name ->
  set_cavage_param (cavage_param name value) out =
    Ok (if bool_decide (name = "keyId"%string)
        then {| cp_key_id := value; cp_algorithm := cp_algorithm out; cp_headers := cp_headers out; cp_signature := cp_signature out |}
        else if bool_decide (name = "algorithm"%string)
        then {| cp_key_id := cp_key_id out; cp_algorithm := value; cp_headers := cp_headers out; cp_signature := cp_signature out |}
        else if bool_decide (name = "headers"%string)
        then {| cp_key_id := cp_key_id out; cp_algorithm := cp_algorithm out; cp_headers := value; cp_signature := cp_signature out |}
        else if bool_decide (name = "signature"%string)
        then {| cp_key_id := cp_key_id out; cp_algorithm := cp_algorithm out; cp_headers := cp_headers out; cp_signature := value |}
        else out).
Proof.
  intros Hname Ha Heq Htrim. assert (plain (ascii_of_N 34)) as Hq by by vm_compute.
  assert (trim (cavage_param name value) = cavage_param name value) as Htp.
  { unfold cavage_param, quoted. rewrite <- !append_assoc. rewrite Hname, !append_cons. by apply trim_plain_ends. }
  unfold set_cavage_param. rewrite Htp. rewrite bool_decide_eq_false_2.
  2: { unfold cavage_param. by rewrite Hname, append_cons. }
  unfold cavage_param. change ("=" +:+ quoted value) with (String "=" (quoted value)). rewrite split_once_app by done. rewrite Htrim.
  assert (trim (quoted value) = quoted value) as ->.
  { unfold quoted. rewrite <- append_assoc. change (quote +:+ value) with (String (ascii_of_N 34) value). by apply trim_plain_ends. }
  unfold quoted. rewrite strip_prefix_app. cbn [mbind option_bind]. by rewrite strip_last_app.
Qed.

(** The header the signer writes is parsed back into its parameters. *)
Lemma parse_cavage_written key_id sig_b64 :
  lacks (ascii_of_N 34) key_id -> lacks (ascii_of_N 34) sig_b64 -> sig_b64 <> EmptyString ->
  parse_cavage_signature_header (cavage_signature_header key_id sig_b64) =
    Ok {| cp_key_id := key_id; cp_algorithm := "rsa-sha256"; cp_headers := "(request-target) host date digest"; cp_signature := sig_b64 |}.
Proof.
  intros Hk Hs Hne. unfold parse_cavage_signature_header.
  assert (cavage_signature_header key_id sig_b64 =
    cavage_param "keyId" key_id +:+ "," +:+ cavage_param "algorithm" "rsa-sha256" +:+ ","
    +:+ cavage_param "headers" "(request-target) host date digest" +:+ "," +:+ cavage_param "signature" sig_b64 +:+ EmptyString) as ->.
  { unfold cavage_signature_header, cavage_param. rewrite append_empty_r, !append_assoc. done. }
  do 3 (rewrite qsplit_param by (done || by apply lacks_const); rewrite qsplit_comma; cbn [fst snd]).
  rewrite qsplit_param by (done || by apply lacks_const). cbn [quote_aware_split fst snd]. rewrite !append_empty_r.
  cbn [set_cavage_params].
  rewrite (set_cavage_param_written "keyId" _ _ "k" "eyId") by (done || (by vm_compute) || by apply lacks_const). cbn [bool_decide].
  rewrite (set_cavage_param_written "algorithm" _ _ "a" "lgorithm") by (done || (by vm_compute) || by apply lacks_const).
  rewrite (set_cavage_param_written "headers" _ _ "h" "eaders") by (done || (by vm_compute) || by apply lacks_const).
  rewrite (set_cavage_param_written "signature" _ _ "s" "ignature") by (done || (by vm_compute) || by apply lacks_const).
  repeat rewrite bool_decide_eq_true_2 by done. repeat rewrite bool_decide_eq_false_2 by done.
  repeat rewrite bool_decide_eq_true_2 by done. cbn.
  by rewrite !bool_decide_eq_false_2 by done.
Qed.

Lemma cavage_sign_verifies sk pk key_id url body date h host :
  rsa_pair sk pk -> lacks (ascii_of_N 34) key_id -> signing_host url = Ok host ->
  sign_post_cavage_with_key sk key_id url body date = Ok h ->
  ch_date h = date /\
  (exists params, parse_cavage_signature_header (ch_signature h) = Ok params /\ cp_key_id params = key_id /\ cp_algorithm params = "rsa-sha256"%string) /\
  verify_signature_cavage pk (build_request_target url) host (ch_date h) (ch_digest h) (ch_signature h) body = Ok tt.
Proof.
  intros Hp Hk Hh Hs. unfold sign_post_cavage_with_key in Hs. rewrite Hh in Hs.
  destruct (rsa_try_sign sk _) as [sig|] eqn:Hsig; [|done]. injection Hs as <-. cbn.
  destruct (rsa_sign_verifies _ _ _ _ Hp Hsig) as (_ & _ & _ & Hne). destruct (b64_text sig) as [Hlack Hempty].
  assert (b64_encode sig <> EmptyString) as Hbne by tauto.
  split; [done|]. split; [eexists; split; [by apply parse_cavage_written|done]|].
  unfold verify_signature_cavage. rewrite bool_decide_eq_true_2 by done. cbn [negb]. rewrite parse_cavage_written by done.
  by eapply check_rsa_signature_ok.
Qed.
End sign_verify.
