(* ===== verification/FediInbox.v ===== *)
(** * The relay's fediverse inbox

    Models [crates/fetchit-relay-server/src/inbox/]: the gates a [POST /inbox] passes
    ([router.rs], [sig_verify.rs], [mod.rs]), the replay window ([replay.rs]), the cache of actors' keys
    ([operator.rs]) and the sink that broadcasts an accepted activity to the connected
    sessions ([sink.rs]).  The denylist gate asks [Trust]'s consumer, signatures are [FediSig]'s,
    dates [HttpDate]'s, sessions [Session]'s.

    Wall clock readings are nanoseconds since the epoch, monotonic ones nanoseconds since any
    point.  The rate limiter's verdict (floating point) and the fetched actor document are
    arguments; metrics are left out. *)
From Stdlib Require Import Ascii.
From stdpp Require Import pretty.
From S2P Require Import Prelude SendState Attachment Bubble OutboxStore OutboxDriver Overlay SeqGap RelayProto RelayAuth.
From S2P Require Import Session PairRecord ShareUri Text HttpDate FediSig Trust.
Open Scope rust_scope.

Inductive DropReason :=
| BodyTooLarge
| RateLimited (instance : string)
| StaleRequest
| Replay
| SigFail (label : string)
| UnsupportedAlgorithm
| Denylisted (actor_url : string)
| WebFingerLookupFailed
| MissingKeyId
| MissingHeader (name : string)
| SinkRejected.

Definition counter_label (r : DropReason) : string :=
  match r with
  | BodyTooLarge => "body_too_large"
  | RateLimited _ => "rate_limited"
  | StaleRequest => "stale_request"
  | Replay => "replay"
  | SigFail _ => "sig_fail"
  | UnsupportedAlgorithm => "unsupported_algorithm"
  | Denylisted _ => "denylisted"
  | WebFingerLookupFailed => "webfinger_lookup_failed"
  | MissingKeyId => "missing_keyid"
  | MissingHeader _ => "missing_header"
  | SinkRejected => "sink_rejected"
  end.

Record InboxError := { ie_reason : DropReason; ie_status : N }.

Definition bad_request (r : DropReason) : InboxError := {| ie_reason := r; ie_status := 400 |}.
Definition payload_too_large : InboxError := {| ie_reason := BodyTooLarge; ie_status := 413 |}.
Definition unauthorized (r : DropReason) : InboxError := {| ie_reason := r; ie_status := 401 |}.
Definition forbidden (r : DropReason) : InboxError := {| ie_reason := r; ie_status := 403 |}.
Definition too_many_requests (r : DropReason) : InboxError := {| ie_reason := r; ie_status := 429 |}.
Definition service_unavailable (r : DropReason) : InboxError := {| ie_reason := r; ie_status := 503 |}.

(** ** The replay window *)

Abbreviation ReplayKey := (string * Z)%type.

Definition REPLAY_WINDOW : N := 300 * 1000000000.
Definition REPLAY_CAP : N := 100000.

(** [Iterator::min_by_key]: the first of the least. *)
Fixpoint min_by_key {A} (f : A -> N) (l : list A) : option A :=
  match l with
  | [] => None
  | x :: l' => match min_by_key f l' with
               | Some y => if f x <=? f y then Some x else Some y
               | None => Some x
               end
  end.

Section replay.
  Context `{!HashIter ReplayKey N}.

Definition record_and_check (window cap : N) (key : ReplayKey) (now : N) (m : gmap ReplayKey N) : bool * gmap ReplayKey N :=
  let m := filter (fun kt => now -| kt.2 < window) m in
  match m !! key with
  | Some _ => (false, m)
  | None =>
      let m := if cap <=? N.of_nat (size m)
               then match min_by_key snd (hm_iter m) with Some (oldest, _) => delete oldest m | None => m end
               else m in
      (true, <[key := now]> m)
  end.
End replay.

(** ** The cache of actors' keys *)

Record CacheEntry := { ce_pem : string; ce_fetched_at : N }.

Definition PUBKEY_CACHE_TTL : N := 24 * 60 * 60 * 1000000000.
Definition PUBKEY_CACHE_CAP : N := 50000.

Inductive WebFingerError := NotFound (e : string) | Network (e : string) | Malformed (e : string).

Definition cached (ttl now : N) (key_id : string) (c : gmap string CacheEntry) : option string :=
  match c !! key_id with
  | Some e => if now -| ce_fetched_at e <? ttl then Some (ce_pem e) else None
  | None => None
  end.

Definition store_pem `{!HashIter string CacheEntry} (ttl cap : N) (key_id pem : string) (now : N) (c : gmap string CacheEntry)
    : gmap string CacheEntry :=
  let c := filter (fun ke => now -| ce_fetched_at ke.2 < ttl) c in
  let c := if (cap <=? N.of_nat (size c)) && negb (is_some (c !! key_id))
           then match min_by_key (fun ke => ce_fetched_at ke.2) (hm_iter c) with
                | Some (oldest, _) => delete oldest c
                | None => c
                end
           else c in
  <[key_id := {| ce_pem := pem; ce_fetched_at := now |}]> c.

(** The text of a [url::ParseError]. *)
Class UrlErrorText := url_error : string -> string.

Definition key_id_to_actor_url `{UrlParse, UrlErrorText} (key_id : string) : result Url WebFingerError :=
  match url_parse key_id with
  | None => Err (Malformed ("keyId is not a URL: " +:+ url_error key_id))
  | Some u => Ok {| url_scheme := url_scheme u; url_host_str := url_host_str u; url_port := url_port u;
                    url_username := url_username u; url_password := url_password u; url_path := url_path u;
                    url_query := url_query u; url_fragment := None |}
  end.

(** [fetch] is [fetch_actor], down to the PEM of the document it returns. *)
Definition resolve_pubkey_pem `{UrlParse, UrlErrorText, !HashIter string CacheEntry} (ttl cap : N) (fetch : Url -> result string string)
    (key_id : string) (now now_stored : N) (c : gmap string CacheEntry) : result string WebFingerError * gmap string CacheEntry :=
  match cached ttl now key_id c with
  | Some pem => (Ok pem, c)
  | None =>
      match key_id_to_actor_url key_id with
      | Err e => (Err e, c)
      | Ok actor_url =>
          match fetch actor_url with
          | Err e => (Err (Network e), c)
          | Ok pem => (Ok pem, store_pem ttl cap key_id pem now_stored c)
          end
      end
  end.

(** ** The signature of a request *)

Inductive SignatureScheme := Rfc9421 | Cavage.

Record InboxSignatureContext := {
  ic_scheme : SignatureScheme;
  ic_key_id : string;
  ic_date : string;
  ic_digest : string;
  ic_signature_input : string;
  ic_signature : string;
  ic_host : string;
  ic_target_uri : string;
  ic_request_target : string;
}.

(** The first value of each header of a request, by its lower-case name. *)
Abbreviation HeaderMap := (string -> option string).

(** [HeaderValue::to_str] accepts visible ASCII and tabs. *)
Definition visible_ascii (b : N) : bool := ((32 <=? b) && (b <? 127)) || (b =? 9).
Definition header_value (headers : HeaderMap) (name : string) : option string :=
  v ← headers name; if forallb visible_ascii (ascii_bytes v) then Some v else None.

Definition read_host (headers : HeaderMap) : result string DropReason :=
  match header_value headers "x-forwarded-host" with
  | Some host => Ok host
  | None => match header_value headers "host" with Some host => Ok host | None => Err (MissingHeader "host") end
  end.

Definition reconstruct_target_uri (headers : HeaderMap) (request_path : string) : result string DropReason :=
  let? host := read_host headers in
  let scheme := default "https"%string (header_value headers "x-forwarded-proto") in
  let host := default host (header_value headers "x-forwarded-host") in
  Ok (scheme +:+ "://" +:+ host +:+ request_path).

(** [build_request_target] of the inbox. *)
Definition inbox_request_target (request_path : string) : string := "post " +:+ request_path.

Definition parse_rfc9421_keyid (signature_input : string) : option string :=
  '(_, rest) ← split_once_str ("keyid=" +:+ quote) signature_input;
  '(key_id, _) ← split_once (ascii_of_N 34) rest;
  Some key_id.

Definition required {A} (o : option A) (r : DropReason) : result A DropReason :=
  match o with Some a => Ok a | None => Err r end.

Section gates.
  Context `{Base64, Sha256, Rsa, SigText, UrlParse, UrlErrorText}.

Definition extract_inbox_signature_context (headers : HeaderMap) (request_path : string) : result InboxSignatureContext DropReason :=
  let? signature := required (header_value headers "signature") (MissingHeader "signature") in
  let? date := required (header_value headers "date") (MissingHeader "date") in
  let? host := read_host headers in
  match header_value headers "signature-input" with
  | Some sig_input =>
      let? content_digest := required (header_value headers "content-digest") (MissingHeader "content-digest") in
      let? target_uri := reconstruct_target_uri headers request_path in
      let? key_id := required (parse_rfc9421_keyid sig_input) MissingKeyId in
      Ok {| ic_scheme := Rfc9421; ic_key_id := key_id; ic_date := date; ic_digest := content_digest;
            ic_signature_input := sig_input; ic_signature := signature; ic_host := host; ic_target_uri := target_uri;
            ic_request_target := EmptyString |}
  | None =>
      let? digest := required (header_value headers "digest") (MissingHeader "digest") in
      match parse_cavage_signature_header signature with
      | Err _ => Err (SigFail "header_malformed")
      | Ok parsed =>
          if bool_decide (cp_key_id parsed = EmptyString) then Err MissingKeyId
          else Ok {| ic_scheme := Cavage; ic_key_id := cp_key_id parsed; ic_date := date; ic_digest := digest;
                     ic_signature_input := EmptyString; ic_signature := signature; ic_host := host; ic_target_uri := EmptyString;
                     ic_request_target := inbox_request_target request_path |}
      end
  end.

Definition map_verify_err (r : result unit SignatureVerifyError) (scheme : SignatureScheme) : result SignatureScheme DropReason :=
  match r with Ok _ => Ok scheme | Err e => Err (SigFail (reason_label e)) end.

Definition verify_inbox_request (pubkey_pem : string) (ctx : InboxSignatureContext) (body : bytes) : result SignatureScheme DropReason :=
  match parse_rsa_public_key_pem pubkey_pem with
  | None => Err (SigFail "pubkey_decode")
  | Some pubkey =>
      match ic_scheme ctx with
      | Rfc9421 =>
          map_verify_err (verify_signature_rfc9421 pubkey (ic_target_uri ctx) (ic_host ctx) (ic_date ctx) (ic_digest ctx)
                            (ic_signature_input ctx) (ic_signature ctx) body) Rfc9421
      | Cavage =>
          match parse_cavage_signature_header (ic_signature ctx) with
          | Err _ => Err (SigFail "header_malformed")
          | Ok parsed =>
              if negb (bool_decide (cp_algorithm parsed = EmptyString)) && negb (bool_decide (cp_algorithm parsed = "rsa-sha256"%string))
              then Err UnsupportedAlgorithm
              else map_verify_err (verify_signature_cavage pubkey (ic_request_target ctx) (ic_host ctx) (ic_date ctx) (ic_digest ctx)
                                     (ic_signature ctx) body) Cavage
          end
      end
  end.

(** What a gate that parses the date can do: pass, refuse, or panic. *)
Inductive SkewCheck := SkewOk | SkewStale | SkewPanic.

Definition check_date_skew (date_header : string) (now max_skew : N) : SkewCheck :=
  match parse_imf_fixdate date_header with
  | DateNone => SkewStale
  | DatePanic => SkewPanic
  | DateSecs secs =>
      let parsed := secs * 1000000000 in
      let delta := if now <? parsed then parsed - now else now - parsed in
      if max_skew <? delta then SkewStale else SkewOk
  end.

Definition date_to_unix (date : string) : Z :=
  match parse_imf_fixdate date with
  | DateSecs secs => if i64_max <? secs then 0%Z else Z.of_N secs
  | DateNone | DatePanic => 0%Z
  end.

Definition parse_instance (key_id : string) : option string :=
  u ← url_parse key_id; host ← url_host_str u;
  Some (match url_port u with Some port => host +:+ ":" +:+ pretty port | None => host end).

Definition strip_keyid_fragment (key_id : string) : string :=
  match split_once "#" key_id with Some (actor_url, _) => actor_url | None => key_id end.
End gates.

(** ** The sink *)

(** [postcard::to_allocvec] and [from_bytes] of [PublicPostPayload]: the actor and the activity. *)
Class PublicPostCodec := {
  public_post_bytes : string -> bytes -> result bytes string;
  public_post_parse : bytes -> option (string * bytes);
}.

(** [TransitEnvelope::public_post], with the protocol's version. *)
Definition public_post `{PublicPostCodec} (verified_actor_url : string) (activity_json : bytes) (timestamp_ms : N)
    : result TransitEnvelope string :=
  let? ciphertext := public_post_bytes verified_actor_url activity_json in
  Ok {| e_version := 3; e_kind := PublicPost; e_group_id := None; e_tenant_id := None;
        e_sender_agent_id := FEDIVERSE_BRIDGE_SENDER; e_sender_machine_id := repeat 0 32; e_timestamp_ms := timestamp_ms;
        e_epoch := 0; e_ciphertext := ciphertext; e_nonce := []; e_kem_ciphertext := []; e_sender_signature := [] |}.

Record PendingDelivery := {
  pd_actor_url : string; pd_scheme : SignatureScheme; pd_body : bytes; pd_received_at : N;
}.

Definition system_time_to_ms (t : N) : N := let ms := t / 1000000 in if u64_max <? ms then 0 else ms.

(** [SessionBroadcastSink::enqueue]. *)
Definition enqueue `{PublicPostCodec, !HashIter AgentId (SessionId * Sender)} (delivery : PendingDelivery) (r : SessionRegistry)
    (cs : Channels) : result unit unit * Channels :=
  match try_new ActorUrl (pd_actor_url delivery) with
  | Err _ => (Err tt, cs)
  | Ok target =>
      let received_ms := system_time_to_ms (pd_received_at delivery) in
      match public_post (ti_value target) (pd_body delivery) received_ms with
      | Err _ => (Err tt, cs)
      | Ok envelope => (Ok tt, (broadcast (SDeliver envelope 0 received_ms) r cs).2)
      end
  end.

(** ** The handler *)

Record InboxConfig := {
  ix_max_body_bytes : N; ix_max_date_skew : N; ix_replay_window : N; ix_replay_cap : N; ix_key_ttl : N; ix_key_cap : N;
}.

(** [InboxState::builder] with its defaults. *)
Definition inbox_defaults : InboxConfig :=
  {| ix_max_body_bytes := 1024 * 1024; ix_max_date_skew := 300 * 1000000000; ix_replay_window := REPLAY_WINDOW;
     ix_replay_cap := REPLAY_CAP; ix_key_ttl := PUBKEY_CACHE_TTL; ix_key_cap := PUBKEY_CACHE_CAP |}.

Record InboxState := {
  is_replay : gmap ReplayKey N;
  is_keys : gmap string CacheEntry;
  is_sessions : SessionRegistry;
  is_channels : Channels;
}.

(** What one request reads of its surroundings: the wall clock at the freshness gate and at the
    acceptance, the monotonic one at the key cache's two uses and at the replay window, the rate
    limiter's verdict, the actor document. *)
Record RequestEnv := {
  re_wall : N; re_received_at : N; re_mono_key : N; re_mono_stored : N; re_mono_replay : N;
  re_allowed : bool; re_fetch : Url -> result string string;
}.

Inductive Handled := Answered (r : result unit InboxError) | Panicked.

Section handler.
  Context `{Base64, Sha256, Rsa, SigText, UrlParse, UrlErrorText, PublicPostCodec}.
  Context `{!HashIter ReplayKey N, !HashIter string CacheEntry, !HashIter AgentId (SessionId * Sender)}.
  Context (cfg : InboxConfig) (blocked_actor : string -> bool).

Definition set_replay (m : gmap ReplayKey N) (st : InboxState) : InboxState :=
  {| is_replay := m; is_keys := is_keys st; is_sessions := is_sessions st; is_channels := is_channels st |}.
Definition set_keys (c : gmap string CacheEntry) (st : InboxState) : InboxState :=
  {| is_replay := is_replay st; is_keys := c; is_sessions := is_sessions st; is_channels := is_channels st |}.
Definition set_channels (cs : Channels) (st : InboxState) : InboxState :=
  {| is_replay := is_replay st; is_keys := is_keys st; is_sessions := is_sessions st; is_channels := cs |}.

Definition extract_error (r : DropReason) : InboxError :=
  match r with MissingHeader _ | MissingKeyId => bad_request r | _ => unauthorized r end.
Definition verify_error (r : DropReason) : InboxError :=
  match r with UnsupportedAlgorithm => forbidden r | _ => unauthorized r end.

(** Gates 6 and 7 and the sink, for a request whose actor is not blocked. *)
Definition verify_and_enqueue (env : RequestEnv) (ctx : InboxSignatureContext) (actor_url : string) (body : bytes) (st : InboxState)
    : result unit InboxError * InboxState :=
  match resolve_pubkey_pem (ix_key_ttl cfg) (ix_key_cap cfg) (re_fetch env) (ic_key_id ctx) (re_mono_key env) (re_mono_stored env)
          (is_keys st) with
  | (Err _, keys) => (Err (unauthorized WebFingerLookupFailed), set_keys keys st)
  | (Ok pubkey_pem, keys) =>
      let st := set_keys keys st in
      match verify_inbox_request pubkey_pem ctx body with
      | Err reason => (Err (verify_error reason), set_keys (delete (ic_key_id ctx) (is_keys st)) st)
      | Ok scheme =>
          let key := (ic_digest ctx, date_to_unix (ic_date ctx)) in
          match record_and_check (ix_replay_window cfg) (ix_replay_cap cfg) key (re_mono_replay env) (is_replay st) with
          | (false, m) => (Err (unauthorized Replay), set_replay m st)
          | (true, m) =>
              let st := set_replay m st in
              let delivery := {| pd_actor_url := actor_url; pd_scheme := scheme; pd_body := body;
                                 pd_received_at := re_received_at env |} in
              match enqueue delivery (is_sessions st) (is_channels st) with
              | (Ok _, cs) => (Ok tt, set_channels cs st)
              | (Err _, cs) => (Err (service_unavailable SinkRejected), set_channels cs st)
              end
          end
      end
  end.

Definition run_gates (env : RequestEnv) (headers : HeaderMap) (body : bytes) (st : InboxState) : Handled * InboxState :=
  if ix_max_body_bytes cfg <? len body then (Answered (Err payload_too_large), st)
  else
    match extract_inbox_signature_context headers "/inbox" with
    | Err reason => (Answered (Err (extract_error reason)), st)
    | Ok ctx =>
        match check_date_skew (ic_date ctx) (re_wall env) (ix_max_date_skew cfg) with
        | SkewPanic => (Panicked, st)
        | SkewStale => (Answered (Err (bad_request StaleRequest)), st)
        | SkewOk =>
            match parse_instance (ic_key_id ctx) with
            | None => (Answered (Err (bad_request MissingKeyId)), st)
            | Some instance =>
                if negb (re_allowed env) then (Answered (Err (too_many_requests (RateLimited instance))), st)
                else
                  let actor_url := strip_keyid_fragment (ic_key_id ctx) in
                  if blocked_actor actor_url then (Answered (Err (forbidden (Denylisted actor_url))), st)
                  else let (r, st) := verify_and_enqueue env ctx actor_url body st in (Answered r, st)
            end
        end
    end.
End handler.

(** The production denylist check of the inbox, [DenylistConsumerCheck]. *)
Definition inbox_is_blocked_actor (c : Consumer) (actor_url : string) : bool := consumer_is_blocked ActorUrl actor_url c.

(** ** The replay window's guarantee *)

Section replay_proofs.
  Context `{!HashIter ReplayKey N}.
  Implicit Types (m : gmap ReplayKey N) (k : ReplayKey).

Lemma min_by_key_spec {A} (f : A -> N) (l : list A) :
  match min_by_key f l with
  | None => l = []
  | Some x => x ∈ l /\ forall y, y ∈ l -> f x <= f y
  end.
Proof.
  induction l as [|a l IH]; cbn; [done|]. destruct (min_by_key f l) as [y|].
  - destruct IH as [Hin Hle]. destruct (f a <=? f y) eqn:E; [apply N.leb_le in E|apply N.leb_gt in E].
    + split; [left|]. intros z [->|Hz]%elem_of_cons; [lia|]. specialize (Hle z Hz). lia.
    + split; [by right|]. intros z [->|Hz]%elem_of_cons; [lia|]. by apply Hle.
  - subst l. split; [left|]. intros z [->|Hz]%elem_of_cons; [lia|by apply elem_of_nil in Hz].
Qed.

(** What one call does to the entries: those that stay are still in the window; an entry in the
    window leaves only if the map was full and it was the oldest. *)
Lemma record_and_check_spec window cap key now m r m' :
  record_and_check window cap key now m = (r, m') ->
  (forall k t, m' !! k = Some t -> m !! k = Some t /\ now - t < window \/ r = true /\ k = key /\ t = now) /\
  (r = true -> m' !! key = Some now) /\
  (r = false -> exists t, m !! key = Some t /\ now - t < window) /\
  (forall k t, m !! k = Some t -> now - t < window -> m' !! k = Some t \/
     r = true /\ cap <= N.of_nat (size (filter (fun kt : ReplayKey * N => now -| kt.2 < window) m)) /\
     forall k' t', m !! k' = Some t' -> now - t' < window -> t <= t') /\
  (0 < cap -> N.of_nat (size m) <= cap -> N.of_nat (size m') <= cap).
Proof.
  unfold record_and_check. set (m1 := filter _ m).
  assert (forall k t, m1 !! k = Some t <-> m !! k = Some t /\ now - t < window) as Hm1.
  { intros k t. subst m1. rewrite map_lookup_filter_Some. done. }
  assert (N.of_nat (size m1) <= N.of_nat (size m)) as Hsz.
  { apply N2Z.inj_le. rewrite !nat_N_Z. apply inj_le, map_subseteq_size, map_filter_subseteq. }
  destruct (m1 !! key) as [t0|] eqn:Ek.
  - intros [= <- <-]. split; [intros k t Hk; left; by apply Hm1|]. split; [done|].
    split; [intros _; exists t0; by apply Hm1|]. split; [intros k t Hk Ht; left; by apply Hm1|lia].
  - set (m2 := if cap <=? N.of_nat (size m1) then _ else m1). intros [= <- <-].
    assert (m2 ⊆ m1 /\ (0 < cap -> N.of_nat (size m) <= cap -> N.of_nat (size m2) + 1 <= cap) /\
      forall k t, m1 !! k = Some t -> m2 !! k = Some t \/ cap <= N.of_nat (size m1) /\ forall k' t', m1 !! k' = Some t' -> t <= t')
      as (Hsub & Hcap & Hkeep).
    { subst m2. destruct (cap <=? N.of_nat (size m1)) eqn:Ec; [apply N.leb_le in Ec|apply N.leb_gt in Ec].
      2: { split; [done|]. split; [lia|by left]. }
      pose proof (min_by_key_spec snd (hm_iter m1)) as Hmin. destruct (min_by_key snd (hm_iter m1)) as [[o t0]|].
      - destruct Hmin as [Hin Hle]. apply elem_of_hm_iter in Hin. split; [apply delete_subseteq|]. split.
        + intros _ Hle'. rewrite map_size_delete_Some by eauto.
          assert (size m1 <> 0%nat) by (intros Hz; apply map_size_empty_inv in Hz; by rewrite Hz in Hin). lia.
        + intros k t Hk. destruct (decide (k = o)) as [->|Hne]; [right|left; by rewrite lookup_delete_ne].
          split; [done|]. rewrite Hk in Hin. injection Hin as <-. intros k' t' Hk'.
          apply (Hle (k', t')). by apply elem_of_hm_iter.
      - split; [done|]. assert (m1 = ∅) as Hem.
        { apply map_empty. intros k. destruct (m1 !! k) as [t|] eqn:Hk; [|done]. apply elem_of_hm_iter in Hk. rewrite Hmin in Hk. by apply elem_of_nil in Hk. }
        split; [|by left]. rewrite Hem, map_size_empty in Ec |- *. lia. }
    split; [|split; [|split; [done|split]]].
    + intros k t. rewrite lookup_insert_Some. intros [[<- <-]|[_ Hk]]; [by right|]. left. apply Hm1. by eapply lookup_weaken.
    + intros _. by rewrite lookup_insert_eq.
    + intros k t Hk Ht. assert (m1 !! k = Some t) as Hk1 by by apply Hm1.
      destruct (Hkeep k t Hk1) as [Hk2|[Hc Hold]].
      * left. rewrite lookup_insert_ne; [done|]. intros <-. by rewrite Ek in Hk1.
      * right. split; [done|]. split; [done|]. intros k' t' Hk' Ht'. apply (Hold k' t'). by apply Hm1.
    + intros H1 H2. rewrite map_size_insert_None.
      * specialize (Hcap H1 H2). lia.
      * destruct (m2 !! key) eqn:E2; [|done]. by rewrite (lookup_weaken _ _ _ _ E2 Hsub) in Ek.
Qed.

Lemma record_and_check_known window cap key now m t :
  m !! key = Some t -> now - t < window -> (record_and_check window cap key now m).1 = false.
Proof.
  intros Hk Ht. unfold record_and_check. set (m1 := filter _ m).
  assert (m1 !! key = Some t) as -> by (subst m1; by rewrite map_lookup_filter_Some). done.
Qed.

(** A sequence of requests that reach the window, with their times: the verdicts and the map. *)
Fixpoint replay_run (window cap : N) (reqs : list (ReplayKey * N)) m : list bool * gmap ReplayKey N :=
  match reqs with
  | [] => ([], m)
  | (key, now) :: reqs =>
      let (r, m) := record_and_check window cap key now m in
      let (rs, m) := replay_run window cap reqs m in (r :: rs, m)
  end.

Fixpoint increasing (last : N) (reqs : list (ReplayKey * N)) : Prop :=
  match reqs with [] => True | (_, now) :: reqs => last < now /\ increasing now reqs end.

Definition newer (t1 : N) m : gmap ReplayKey N := filter (fun kt => t1 < kt.2) m.

(** The entry of [k] made at [t1] is in the map, and at most [acc] entries are newer. *)
Definition remembers k (t1 last acc : N) m : Prop :=
  m !! k = Some t1 /\ N.of_nat (size (newer t1 m)) <= acc /\ t1 <= last /\
  forall k' t, m !! k' = Some t -> t <= last /\ (t = t1 -> k' = k).

Lemma newer_after window cap key now m r m' t1 :
  record_and_check window cap key now m = (r, m') ->
  N.of_nat (size (newer t1 m')) <= N.of_nat (size (newer t1 m)) + (if r then 1 else 0).
Proof.
  intros Hr. apply record_and_check_spec in Hr as (Hfrom & Hkey & _).
  assert (newer t1 m' ⊆ (if r then <[key := now]> (newer t1 m) else newer t1 m)) as Hsub.
  { apply map_subseteq_spec. intros k t. unfold newer. rewrite map_lookup_filter_Some. intros [Hk Ht]. cbn in Ht.
    destruct (Hfrom k t Hk) as [[Hm _]|(-> & -> & ->)]; [|by rewrite lookup_insert_eq].
    destruct r; [|by rewrite map_lookup_filter_Some]. destruct (decide (key = k)) as [<-|Hne].
    - rewrite lookup_insert_eq. rewrite Hkey in Hk by done. by rewrite Hk.
    - by rewrite lookup_insert_ne, map_lookup_filter_Some. }
  apply map_subseteq_size in Hsub. destruct r; [|lia].
  destruct (newer t1 m !! key) eqn:E.
  - rewrite map_size_insert_Some in Hsub by eauto. lia.
  - rewrite map_size_insert_None in Hsub by done. lia.
Qed.

(** One request more: the entry is still there, or [cap] requests were accepted since it was made. *)
Lemma remembers_step window cap key now k t1 last acc m r m' :
  remembers k t1 last acc m -> last < now -> now - t1 < window -> record_and_check window cap key now m = (r, m') ->
  remembers k t1 now (acc + if r then 1 else 0) m' \/ cap <= acc + (if r then 1 else 0).
Proof.
  intros (Hk & Hnew & Hlast & Hall) Hnow Hw Hr. pose proof (newer_after _ _ _ _ _ _ _ t1 Hr) as Hsz.
  pose proof Hr as Hspec. apply record_and_check_spec in Hspec as (Hfrom & Hkey & _ & Hkeep & _).
  destruct (Hkeep k t1 Hk Hw) as [Hk'|(-> & Hc & Hold)].
  - left. split; [done|]. split; [lia|]. split; [lia|]. intros k' t Ht. destruct (Hfrom k' t Ht) as [[Hm _]|(-> & -> & ->)].
    + destruct (Hall k' t Hm). split; [lia|done].
    + split; [lia|]. intros ->. lia.
  - right. assert (N.of_nat (size (filter (fun kt : ReplayKey * N => now -| kt.2 < window) m)) <= 1 + N.of_nat (size (newer t1 m))) as Hle.
    2: { lia. }
    assert (filter (fun kt : ReplayKey * N => now -| kt.2 < window) m ⊆ <[k := t1]> (newer t1 m)) as Hsub.
    { apply map_subseteq_spec. intros k' t. rewrite map_lookup_filter_Some. intros [Hm Ht]. cbn in Ht. unfold saturating_sub in Ht.
      specialize (Hold k' t Hm Ht). destruct (decide (k' = k)) as [->|Hne]; [rewrite lookup_insert_eq; congruence|].
      rewrite lookup_insert_ne by done. unfold newer. rewrite map_lookup_filter_Some. split; [done|]. cbn.
      destruct (Hall k' t Hm) as [_ Huniq]. destruct (decide (t = t1)) as [->|]; [by destruct Hne; apply Huniq|lia]. }
    apply map_subseteq_size in Hsub. rewrite map_size_insert_None in Hsub; [lia|]. unfold newer.
    apply map_lookup_filter_None. right. intros t Ht. rewrite Hk in Ht. injection Ht as <-. cbn. lia.
Qed.

Definition accepted (rs : list bool) : N := sum_by (fun r : bool => if r then 1 else 0) rs.

Lemma remembers_run window cap reqs k t1 last acc m rs m' :
  remembers k t1 last acc m -> increasing last reqs -> Forall (fun kt => kt.2 - t1 < window) reqs ->
  replay_run window cap reqs m = (rs, m') ->
  (exists last', remembers k t1 last' (acc + accepted rs) m') \/ cap <= acc + accepted rs.
Proof.
  revert last acc m rs. induction reqs as [|[key now] reqs IH]; intros last acc m rs Hrem Hinc Hw Hrun; cbn in Hrun.
  - injection Hrun as <- <-. left. exists last. unfold accepted. cbn. by rewrite N.add_0_r.
  - destruct Hinc as [Hnow Hinc]. apply Forall_cons in Hw as [Hw1 Hw]. cbn in Hw1.
    destruct (record_and_check window cap key now m) as [r m1] eqn:Er. destruct (replay_run window cap reqs m1) as [rs1 m2] eqn:E2.
    injection Hrun as <- <-. unfold accepted. cbn [sum_by]. fold (accepted rs1). rewrite N.add_assoc.
    destruct (remembers_step _ _ _ _ _ _ _ _ _ _ _ Hrem Hnow Hw1 Er) as [Hrem1|Hc]; [by eapply IH|right; lia].
Qed.

(** With clock readings that increase, when the window takes the same digest and date a second time
    within its length, at least as many requests were taken in between as the window has room for. *)
Theorem replay_refused_in_window window cap k t1 mid t2 m m1 rs m2 m3 :
  (forall k' t, m !! k' = Some t -> t < t1) -> increasing t1 mid -> Forall (fun kt => kt.2 < t2) mid -> t1 < t2 ->
  record_and_check window cap k t1 m = (true, m1) -> replay_run window cap mid m1 = (rs, m2) ->
  record_and_check window cap k t2 m2 = (true, m3) ->
  t2 - t1 < window -> cap <= accepted rs.
Proof.
  intros Hold Hinc Hmid Ht Hr1 Hrun Hr2 Hw. apply record_and_check_spec in Hr1 as (Hfrom & Hkey & _).
  assert (remembers k t1 t1 0 m1) as Hrem.
  { split; [by apply Hkey|]. split.
    - enough (newer t1 m1 = ∅) as -> by (by rewrite map_size_empty). apply map_empty. intros k'. unfold newer.
      apply map_lookup_filter_None. right. intros t Hk' Hlt. cbn in Hlt. destruct (Hfrom k' t Hk') as [[Hm _]|(_ & _ & ->)]; [|lia].
      specialize (Hold k' t Hm). lia.
    - split; [lia|]. intros k' t Hk'. destruct (Hfrom k' t Hk') as [[Hm _]|(_ & -> & ->)]; [|done].
      specialize (Hold k' t Hm). split; [lia|]. intros ->. lia. }
  destruct (remembers_run window cap mid k t1 t1 0 m1 rs m2 Hrem Hinc) as [(last' & Hk & _)|Hc]; [|done| |lia].
  - eapply Forall_impl; [exact Hmid|]. intros [k' t] Htt. cbn in *. lia.
  - by rewrite (surjective_pairing (record_and_check _ _ _ _ _)), (record_and_check_known _ _ _ _ _ _ Hk Hw) in Hr2.
Qed.

(** The window never holds more entries than it has room for. *)
Lemma replay_run_bounded window cap reqs m :
  0 < cap -> N.of_nat (size m) <= cap -> N.of_nat (size (replay_run window cap reqs m).2) <= cap.
Proof.
  intros Hc. revert m. induction reqs as [|[key now] reqs IH]; intros m Hm; cbn; [done|].
  destruct (record_and_check window cap key now m) as [r m1] eqn:E. apply record_and_check_spec in E as (_ & _ & _ & _ & Hb).
  specialize (IH m1 (Hb Hc Hm)). by destruct (replay_run window cap reqs m1).
Qed.
End replay_proofs.

(** ** What an accepted activity went through *)

Section accepted.
  Context `{B : Base64, S : Sha256, R : Rsa, T : SigText, U : UrlParse, UE : UrlErrorText, P : PublicPostCodec}.
  Context `{!HashIter ReplayKey N, !HashIter string CacheEntry, !HashIter AgentId (SessionId * Sender)}.
  Context (cfg : InboxConfig) (blocked_actor : string -> bool).

(** The signature covers the request: the target, the host, the date and the digest of the body. *)
Definition covers_request (pk : RsaPublicKey) (ctx : InboxSignatureContext) (body : bytes) (scheme : SignatureScheme) : Prop :=
  match scheme with
  | Rfc9421 => ic_digest ctx = compute_content_digest body /\
      exists params sig, rsa_verify pk (ascii_bytes
        (build_signature_base (ic_target_uri ctx) (ic_host ctx) (ic_date ctx) (compute_content_digest body) params)) sig = true
  | Cavage => ic_digest ctx = compute_digest_cavage body /\
      exists sig, rsa_verify pk (ascii_bytes
        (build_cavage_base (ic_request_target ctx) (ic_host ctx) (ic_date ctx) (compute_digest_cavage body))) sig = true
  end.

Lemma check_rsa_signature_sound pk base sig_b64 :
  check_rsa_signature pk base sig_b64 = Ok tt -> exists sig, rsa_verify pk (ascii_bytes base) sig = true.
Proof.
  unfold check_rsa_signature. destruct (b64_decode sig_b64) as [sig|]; [|done]. destruct (rsa_sig_parse sig); [|done].
  destruct (rsa_verify pk _ sig) eqn:E; [|done]. intros _. by exists sig.
Qed.

Lemma verify_inbox_request_covers pem ctx body scheme :
  verify_inbox_request pem ctx body = Ok scheme ->
  exists pk, parse_rsa_public_key_pem pem = Some pk /\ covers_request pk ctx body scheme.
Proof.
  unfold verify_inbox_request. destruct (parse_rsa_public_key_pem pem) as [pk|]; [|done]. intros Hv. exists pk. split; [done|].
  destruct (ic_scheme ctx).
  - unfold verify_signature_rfc9421 in Hv. case_bool_decide as Hd; [|done]. cbn [negb] in Hv.
    destruct (strip_prefix "sig1=" _) as [params|]; [|done]. destruct (_ ← _; _) as [sig_b64|]; [|done].
    destruct (check_rsa_signature _ _ _) as [[]|] eqn:Hc; [|done]. injection Hv as <-. split; [done|].
    apply check_rsa_signature_sound in Hc as [sig Hsig]. exists params, sig. by rewrite Hd.
  - destruct (parse_cavage_signature_header _) as [params|] eqn:Hp; [|done]. destruct (_ && _); [done|].
    unfold verify_signature_cavage in Hv. case_bool_decide as Hd; [|done]. cbn [negb] in Hv. rewrite Hp in Hv.
    destruct (check_rsa_signature _ _ _) as [[]|] eqn:Hc; [|done]. injection Hv as <-. split; [done|].
    apply check_rsa_signature_sound in Hc as [sig Hsig]. exists sig. by rewrite Hd.
Qed.

(** The date is a time within the skew of the clock. *)
Definition fresh_date (date : string) (now max_skew : N) : Prop :=
  exists secs, parse_imf_fixdate date = DateSecs secs /\ now <= secs * 1000000000 + max_skew /\ secs * 1000000000 <= now + max_skew.

Lemma check_date_skew_ok date now max_skew : check_date_skew date now max_skew = SkewOk <-> fresh_date date now max_skew.
Proof.
  unfold check_date_skew, fresh_date. destruct (parse_imf_fixdate date) as [|secs|].
  1, 3: split; [done|intros (? & ? & _); done].
  split.
  - destruct (now <? secs * 1000000000) eqn:E1; [apply N.ltb_lt in E1|apply N.ltb_ge in E1];
      (destruct (_ <? _) eqn:E2; [done|apply N.ltb_ge in E2]); intros _; exists secs; (split; [done|lia]).
  - intros (secs' & [= <-] & H1 & H2). destruct (now <? secs * 1000000000) eqn:E1; [apply N.ltb_lt in E1|apply N.ltb_ge in E1];
      by rewrite (proj2 (N.ltb_ge _ _)) by lia.
Qed.

(** A request that passes the gates: the context extracted from it, its actor's key, the scheme, the target it is
    attributed to, the envelope. *)
Record passes (env : RequestEnv) (headers : HeaderMap) (body : bytes) (st : InboxState)
    (ctx : InboxSignatureContext) (pem : string) (scheme : SignatureScheme) (target : TargetIdentity) (envelope : TransitEnvelope) : Prop := {
  ps_size : len body <= ix_max_body_bytes cfg;
  ps_ctx : extract_inbox_signature_context headers "/inbox" = Ok ctx;
  ps_fresh : fresh_date (ic_date ctx) (re_wall env) (ix_max_date_skew cfg);
  ps_instance : is_Some (parse_instance (ic_key_id ctx));
  ps_allowed : re_allowed env = true;
  ps_unblocked : blocked_actor (strip_keyid_fragment (ic_key_id ctx)) = false;
  ps_key : (resolve_pubkey_pem (ix_key_ttl cfg) (ix_key_cap cfg) (re_fetch env) (ic_key_id ctx) (re_mono_key env)
             (re_mono_stored env) (is_keys st)).1 = Ok pem;
  ps_verified : verify_inbox_request pem ctx body = Ok scheme;
  ps_new : (record_and_check (ix_replay_window cfg) (ix_replay_cap cfg) (ic_digest ctx, date_to_unix (ic_date ctx))
             (re_mono_replay env) (is_replay st)).1 = true;
  ps_target : try_new ActorUrl (strip_keyid_fragment (ic_key_id ctx)) = Ok target;
  ps_envelope : public_post (ti_value target) body (system_time_to_ms (re_received_at env)) = Ok envelope;
}.

(** The state after an acceptance. *)
Definition after_accept (env : RequestEnv) (ctx : InboxSignatureContext) (envelope : TransitEnvelope) (st : InboxState) : InboxState :=
  {| is_replay := (record_and_check (ix_replay_window cfg) (ix_replay_cap cfg) (ic_digest ctx, date_to_unix (ic_date ctx))
                     (re_mono_replay env) (is_replay st)).2;
     is_keys := (resolve_pubkey_pem (ix_key_ttl cfg) (ix_key_cap cfg) (re_fetch env) (ic_key_id ctx) (re_mono_key env)
                   (re_mono_stored env) (is_keys st)).2;
     is_sessions := is_sessions st;
     is_channels := (broadcast (SDeliver envelope 0 (system_time_to_ms (re_received_at env))) (is_sessions st) (is_channels st)).2 |}.

Lemma run_gates_accepts env headers body st st' :
  run_gates cfg blocked_actor env headers body st = (Answered (Ok tt), st') <->
  exists ctx pem scheme target envelope,
    passes env headers body st ctx pem scheme target envelope /\ st' = after_accept env ctx envelope st.
Proof.
  split.
  - unfold run_gates. destruct (_ <? len body) eqn:Hsz; [done|apply N.ltb_ge in Hsz].
    destruct (extract_inbox_signature_context headers "/inbox") as [ctx|] eqn:Hctx; [|done].
    destruct (check_date_skew _ _ _) eqn:Hskew; [|done..]. apply check_date_skew_ok in Hskew.
    destruct (parse_instance _) eqn:Hinst; [|done]. destruct (re_allowed env) eqn:Hal; [|done]. cbn [negb].
    destruct (blocked_actor _) eqn:Hbl; [done|]. unfold verify_and_enqueue.
    destruct (resolve_pubkey_pem _ _ _ _ _ _ _) as [[pem|] keys] eqn:Hres; [|done].
    destruct (verify_inbox_request pem ctx body) as [scheme|] eqn:Hver; [|done]. cbn [is_replay set_keys].
    destruct (record_and_check _ _ _ _ _) as [[|] m] eqn:Hrec; [|done]. unfold enqueue. cbn [pd_actor_url pd_received_at pd_body].
    destruct (try_new ActorUrl _) as [target|] eqn:Ht; [|done].
    destruct (public_post _ _ _) as [envelope|] eqn:Hpp; [|done]. intros [= <-].
    exists ctx, pem, scheme, target, envelope. split; [|unfold after_accept; by rewrite Hres, Hrec].
    split; rewrite ?Hres, ?Hrec; eauto.
  - intros (ctx & pem & scheme & target & envelope & [Hsz Hctx Hskew [inst Hinst] Hal Hbl Hres Hver Hrec Ht Hpp] & ->).
    unfold run_gates. rewrite (proj2 (N.ltb_ge _ _) Hsz), Hctx, (proj2 (check_date_skew_ok _ _ _) Hskew), Hinst, Hal. cbn [negb].
    rewrite Hbl. unfold verify_and_enqueue, after_accept.
    destruct (resolve_pubkey_pem _ _ _ _ _ _ _) as [r keys]. cbn in Hres. subst r. rewrite Hver. cbn [is_replay set_keys].
    destruct (record_and_check _ _ _ _ _) as [r m]. cbn in Hrec. subst r. unfold enqueue. cbn [pd_actor_url pd_received_at pd_body].
    by rewrite Ht, Hpp.
Qed.

(** C17: an activity the inbox accepts is within the size limit and dated within the skew of the clock,
    its actor is not on the list, the signature verifies under the key found for its [keyId] and covers the target,
    host, date and digest of the body, its digest and date are new in the replay window, and what is broadcast is
    the activity attributed to the canonical form of that actor. *)
Theorem accepted_activity_checked env headers body st st' :
  run_gates cfg blocked_actor env headers body st = (Answered (Ok tt), st') ->
  exists ctx pem pk scheme target envelope,
    passes env headers body st ctx pem scheme target envelope /\
    parse_rsa_public_key_pem pem = Some pk /\ covers_request pk ctx body scheme /\
    e_kind envelope = PublicPost /\ public_post_bytes (ti_value target) body = Ok (e_ciphertext envelope) /\
    is_channels st' = (broadcast (SDeliver envelope 0 (system_time_to_ms (re_received_at env))) (is_sessions st) (is_channels st)).2.
Proof.
  intros Hrun. apply run_gates_accepts in Hrun as (ctx & pem & scheme & target & envelope & Hp & ->).
  destruct (verify_inbox_request_covers _ _ _ _ (ps_verified _ _ _ _ _ _ _ _ _ Hp)) as (pk & Hpk & Hcov).
  exists ctx, pem, pk, scheme, target, envelope. do 3 (split; [done|]).
  pose proof (ps_envelope _ _ _ _ _ _ _ _ _ Hp) as Henv. unfold public_post in Henv.
  destruct (public_post_bytes _ _) as [ct|] eqn:Ect; [|done]. injection Henv as <-. by repeat split.
Qed.

(** The replay window forgets a request after its length, counted from when it was taken, while its
    date stays acceptable for the skew after the date: a request that was accepted is accepted, and broadcast, again by
    anyone who sends it a second time after that length while its date is still fresh. *)
Theorem dated_ahead_replayed env headers body st st' env2 :
  run_gates cfg blocked_actor env headers body st = (Answered (Ok tt), st') ->
  (forall ctx, extract_inbox_signature_context headers "/inbox" = Ok ctx ->
     fresh_date (ic_date ctx) (re_wall env2) (ix_max_date_skew cfg) /\
     (resolve_pubkey_pem (ix_key_ttl cfg) (ix_key_cap cfg) (re_fetch env2) (ic_key_id ctx) (re_mono_key env2) (re_mono_stored env2) (is_keys st')).1
     = (resolve_pubkey_pem (ix_key_ttl cfg) (ix_key_cap cfg) (re_fetch env) (ic_key_id ctx) (re_mono_key env) (re_mono_stored env) (is_keys st)).1) ->
  re_allowed env2 = true -> re_mono_replay env + ix_replay_window cfg <= re_mono_replay env2 ->
  exists st'', run_gates cfg blocked_actor env2 headers body st' = (Answered (Ok tt), st'').
Proof.
  intros Hrun Hlater Hal Hmono. apply run_gates_accepts in Hrun as (ctx & pem & scheme & target & envelope & Hp & ->).
  destruct Hp as [Hsz Hctx Hskew Hinst Hal1 Hbl Hres Hver Hrec Ht Hpp]. destruct (Hlater ctx Hctx) as [Hfresh Hkey].
  assert (exists envelope', public_post (ti_value target) body (system_time_to_ms (re_received_at env2)) = Ok envelope') as [envelope' Henv].
  { unfold public_post in Hpp |- *. destruct (public_post_bytes _ _); [by eexists|done]. }
  eexists. apply run_gates_accepts. exists ctx, pem, scheme, target, envelope'. split; [|reflexivity].
  split; try done; [by rewrite Hkey|]. cbn [is_replay after_accept].
  destruct (record_and_check (ix_replay_window cfg) (ix_replay_cap cfg) (ic_digest ctx, date_to_unix (ic_date ctx))
             (re_mono_replay env) (is_replay st)) as [r m] eqn:E. cbn in Hrec |- *. subst r.
  apply record_and_check_spec in E as (_ & Hk & _). specialize (Hk eq_refl).
  destruct (record_and_check _ _ _ (re_mono_replay env2) m) as [r m2] eqn:E2. cbn. destruct r; [done|].
  apply record_and_check_spec in E2 as (_ & _ & Hno & _). destruct (Hno eq_refl) as (t & Ht' & Hlt). rewrite Hk in Ht'. injection Ht' as <-. lia.
Qed.
End accepted.

(** ** A spelling the gate does not know *)

Section evasion.
  Context `{B : Base64, S : Sha256, R : Rsa, T : SigText, U : UrlParse, UE : UrlErrorText, P : PublicPostCodec}.
  Context `{!HashIter ReplayKey N, !HashIter string CacheEntry, !HashIter AgentId (SessionId * Sender)}.

(** The inbox asks the denylist for the actor as the [keyId] spells it, without the canonical form: a
    listed actor whose [keyId] has a slash before the fragment passes the gate, and its activity is broadcast
    attributed to the listed form; the gates of the chat client and of the bridge refuse the same spelling. *)
Theorem slash_evades_inbox_gate cfg c env headers body st ctx pem scheme u envelope :
  let spelled := u +:+ "/" in
  lacks "#" u -> try_new ActorUrl spelled = Ok {| ti_kind := ActorUrl; ti_value := u |} ->
  u ∈ bucket ActorUrl (cn_indexes c) -> to_ascii_lowercase spelled ∉ bucket ActorUrl (cn_indexes c) ->
  ic_key_id ctx = spelled +:+ "#main-key" ->
  passes cfg (fun _ => false) env headers body st ctx pem scheme {| ti_kind := ActorUrl; ti_value := u |} envelope ->
  run_gates cfg (inbox_is_blocked_actor c) env headers body st = (Answered (Ok tt), after_accept cfg env ctx envelope st) /\
  public_post_bytes u body = Ok (e_ciphertext envelope) /\
  check_actor_url_denylist (adapter_is_blocked_actor (fun kind v => consumer_is_blocked kind v c)) spelled = Err (DeniedActor spelled) /\
  bridge_is_blocked_actor (Some (fun kind v => consumer_is_blocked kind v c)) spelled = true.
Proof.
  intros spelled Hu Htry Hin Hnot Hkey Hp.
  assert (strip_keyid_fragment (ic_key_id ctx) = spelled) as Hstrip.
  { unfold strip_keyid_fragment. rewrite Hkey. change (spelled +:+ "#main-key") with (spelled +:+ String "#" "main-key").
    rewrite split_once_app; [done|]. apply lacks_app; [done|by apply lacks_const]. }
  pose proof (ps_envelope _ _ _ _ _ _ _ _ _ _ _ Hp) as Henv. destruct Hp as [Hsz Hctx Hskew Hinst Hal _ Hres Hver Hrec Ht Hpp].
  split.
  { apply run_gates_accepts. exists ctx, pem, scheme, {| ti_kind := ActorUrl; ti_value := u |}, envelope. split; [|done].
    split; try done. rewrite Hstrip. unfold inbox_is_blocked_actor, consumer_is_blocked, index_is_blocked.
    by apply bool_decide_eq_false_2. }
  split. { unfold public_post in Henv. cbn [ti_value] in Henv. destruct (public_post_bytes u body); [|done]. by injection Henv as <-. }
  apply (actor_gates_block_spellings c spelled _ Htry Hin).
Qed.
End evasion.

(** ** A delivery of this code's own sender *)

Section own_post.
  Context `{B : Base64, S : Sha256, R : Rsa, T : SigText, U : UrlParse, UE : UrlErrorText, P : PublicPostCodec, UD : UrlEdit, !RsaLaws}.
  Context `{!HashIter ReplayKey N, !HashIter string CacheEntry, !HashIter AgentId (SessionId * Sender)}.

(** What the request's headers carry of a cavage signature for [host]. *)
Definition carries (headers : HeaderMap) (host : string) (h : CavageSignedHeaders) : Prop :=
  header_value headers "signature" = Some (ch_signature h) /\ header_value headers "date" = Some (ch_date h) /\
  header_value headers "digest" = Some (ch_digest h) /\ header_value headers "host" = Some host /\
  header_value headers "x-forwarded-host" = None /\ header_value headers "signature-input" = None.

(** A post signed by the sender of this code for the inbox of the relay, dated with its own date writer
    within the skew of the relay's clock, is accepted and broadcast, when its actor is not listed, the actor's
    document has the sender's key and its digest and date are new. *)
Theorem own_delivery_accepted cfg blocked_actor env headers body st sk pk pem key_id url host secs h target payload :
  rsa_pair sk pk -> lacks (ascii_of_N 34) key_id -> key_id <> EmptyString ->
  url_path url = "/inbox"%string -> url_query url = None -> signing_host url = Ok host -> secs <= i64_max ->
  sign_post_cavage_with_key sk key_id url body (format_imf_fixdate secs) = Ok h -> carries headers host h ->
  len body <= ix_max_body_bytes cfg ->
  re_wall env <= secs * 1000000000 + ix_max_date_skew cfg -> secs * 1000000000 <= re_wall env + ix_max_date_skew cfg ->
  is_Some (parse_instance key_id) -> re_allowed env = true -> blocked_actor (strip_keyid_fragment key_id) = false ->
  (resolve_pubkey_pem (ix_key_ttl cfg) (ix_key_cap cfg) (re_fetch env) key_id (re_mono_key env) (re_mono_stored env) (is_keys st)).1 = Ok pem ->
  parse_rsa_public_key_pem pem = Some pk ->
  is_replay st !! (compute_digest_cavage body, Z.of_N secs) = None ->
  try_new ActorUrl (strip_keyid_fragment key_id) = Ok target -> public_post_bytes (ti_value target) body = Ok payload ->
  exists st', run_gates cfg blocked_actor env headers body st = (Answered (Ok tt), st').
Proof.
  intros Hpair Hq Hne Hpath Hquery Hhost Hsecs Hsign (Hsig & Hdate & Hdigest & Hh & Hx & Hsi) Hsz Hw1 Hw2 Hinst Hal Hbl Hres Hpem Hnew Ht Hpp.
  destruct (cavage_sign_verifies sk pk key_id url body _ h host Hpair Hq Hhost Hsign) as (Hd & (params & Hparse & Hkid & Halg) & Hver).
  assert (ch_digest h = compute_digest_cavage body) as Hdg.
  { unfold sign_post_cavage_with_key in Hsign. rewrite Hhost in Hsign. destruct (rsa_try_sign sk _); [|done]. by injection Hsign as <-. }
  pose proof (http_date_round_trip secs Hsecs) as Hrt.
  set (ctx := {| ic_scheme := Cavage; ic_key_id := key_id; ic_date := ch_date h; ic_digest := ch_digest h; ic_signature_input := EmptyString;
                 ic_signature := ch_signature h; ic_host := host; ic_target_uri := EmptyString; ic_request_target := "post /inbox" |}).
  eexists. apply run_gates_accepts. exists ctx, pem, Cavage, target.
  eexists. split; [|reflexivity]. split; cbn [ic_date ic_key_id ic_digest ctx].
  - done.
  - unfold extract_inbox_signature_context, read_host. rewrite Hsig, Hdate, Hx, Hh, Hsi, Hdigest. cbn [required]. rewrite Hparse, Hkid.
    by rewrite bool_decide_eq_false_2.
  - exists secs. rewrite Hd. done.
  - done.
  - done.
  - done.
  - done.
  - unfold verify_inbox_request. rewrite Hpem. cbn [ic_scheme ic_signature ctx]. rewrite Hparse, Halg.
    cbn [ic_request_target ic_host ic_date ic_digest ctx].
    assert (build_request_target url = "post /inbox"%string) as Hrt'. { unfold build_request_target. by rewrite Hquery, Hpath. }
    rewrite Hrt' in Hver. by rewrite Hver.
  - destruct (record_and_check _ _ _ _ _) as [[|] m] eqn:E; [done|]. apply record_and_check_spec in E as (_ & _ & Hno & _).
    destruct (Hno eq_refl) as (t & Hk & _). rewrite Hdg, Hd in Hk. unfold date_to_unix in Hk. rewrite Hrt in Hk.
    rewrite (proj2 (N.ltb_ge i64_max secs) Hsecs) in Hk. by rewrite Hnew in Hk.
  - done.
  - unfold public_post. by rewrite Hpp.
Qed.
End own_post.

(** ** Instances for the witnesses *)

Definition fi_rsa : Rsa :=
  {| RsaPublicKey := unit; RsaPrivateKey := unit; rsa_from_spki_pem := fun _ => Some tt; rsa_from_pkcs1_pem := fun _ => None;
     rsa_from_pkcs8_pem := fun _ => Ok tt; rsa_try_sign := fun _ _ => Ok [1]; rsa_sig_parse := fun _ => Ok tt;
     rsa_verify := fun _ _ sig => bool_decide (sig = [1]) |}.
Definition fi_text : SigText := {| b64_error := fun _ => EmptyString; to_lowercase := to_ascii_lowercase |}.
Definition fi_url_error : UrlErrorText := fun _ => EmptyString.
Definition fi_codec : PublicPostCodec :=
  {| public_post_bytes := fun u b => Ok (ascii_bytes u ++ [0] ++ b); public_post_parse := fun _ => None |}.
Definition fi_url_edit : UrlEdit :=
  {| url_set_scheme := fun _ _ => None; url_set_host := fun _ _ => None; url_to_string := fun u => url_path u |}.
#[local] Existing Instance demo_base64.
#[local] Existing Instance demo_sha32.
#[local] Existing Instance demo_url.
#[local] Existing Instance fi_rsa.
#[local] Existing Instance fi_text.
#[local] Existing Instance fi_url_error.
#[local] Existing Instance fi_codec.
#[local] Existing Instance fi_url_edit.

Definition fi_inbox_url : Url :=
  {| url_scheme := "https"; url_host_str := Some "relay.example"%string; url_port := None; url_username := EmptyString;
     url_password := None; url_path := "/inbox"; url_query := None; url_fragment := None |}.
Definition fi_body : bytes := [1; 2; 3].
Definition fi_secs : N := 1700000000.
Definition fi_key_id : string := "https://bad.example/users/eve/#main-key".

(** A post signed for the relay, [ahead] seconds in front of the receiver's clock. *)
Definition fi_headers (key_id : string) (ahead : N) : HeaderMap := fun name =>
  match sign_post_cavage_with_key tt key_id fi_inbox_url fi_body (format_imf_fixdate (fi_secs + ahead)) with
  | Err _ => None
  | Ok h =>
      if bool_decide (name = "host"%string) then Some "relay.example"%string
      else if bool_decide (name = "date"%string) then Some (ch_date h)
      else if bool_decide (name = "digest"%string) then Some (ch_digest h)
      else if bool_decide (name = "signature"%string) then Some (ch_signature h)
      else None
  end.
Definition fi_env (later : N) : RequestEnv :=
  {| re_wall := (fi_secs + later) * 1000000000; re_received_at := (fi_secs + later) * 1000000000; re_mono_key := later * 1000000000;
     re_mono_stored := later * 1000000000; re_mono_replay := later * 1000000000; re_allowed := true; re_fetch := fun _ => Ok "pem"%string |}.
Definition fi_state : InboxState :=
  {| is_replay := ∅; is_keys := ∅; is_sessions := registry_new; is_channels := ∅ |}.

Definition fi_ctx (key_id : string) (ahead : N) : InboxSignatureContext :=
  match extract_inbox_signature_context (fi_headers key_id ahead) "/inbox" with
  | Ok ctx => ctx
  | Err _ => Build_InboxSignatureContext Cavage "" "" "" "" "" "" "" ""
  end.
Definition fi_envelope (actor : string) (later : N) : TransitEnvelope :=
  match public_post actor fi_body (system_time_to_ms ((fi_secs + later) * 1000000000)) with
  | Ok e => e
  | Err _ => {| e_version := 0; e_kind := PublicPost; e_group_id := None; e_tenant_id := None; e_sender_agent_id := [];
                e_sender_machine_id := []; e_timestamp_ms := 0; e_epoch := 0; e_ciphertext := []; e_nonce := []; e_kem_ciphertext := [];
                e_sender_signature := [] |}
  end.

Lemma fi_fresh : fresh_date (ic_date (fi_ctx fi_key_id 200)) (re_wall (fi_env 0)) (ix_max_date_skew inbox_defaults).
Proof. apply check_date_skew_ok. by vm_compute. Qed.

(** Eve's consumer lists her canonical URL. *)
Definition eve_consumer : Consumer :=
  {| cn_indexes := {| ix_xor_names := ∅; ix_agent_ids := ∅; ix_relay_urls := ∅; ix_actor_urls := {[ eve ]} |}; cn_cache := ∅; cn_events := [] |}.

Lemma fi_passes : passes inbox_defaults (fun _ => false) (fi_env 0) (fi_headers fi_key_id 200) fi_body fi_state (fi_ctx fi_key_id 200) "pem"
  Cavage {| ti_kind := ActorUrl; ti_value := eve |} (fi_envelope eve 0).
Proof. split; [by vm_compute|by vm_compute|apply fi_fresh|by exists "h"%string; vm_compute|done|done|by vm_compute..]. Qed.

Lemma slash_evades_inbox_gate_witness :
  run_gates inbox_defaults (inbox_is_blocked_actor eve_consumer) (fi_env 0) (fi_headers fi_key_id 200) fi_body fi_state
    = (Answered (Ok tt), after_accept inbox_defaults (fi_env 0) (fi_ctx fi_key_id 200) (fi_envelope eve 0) fi_state).
Proof.
  apply (slash_evades_inbox_gate inbox_defaults eve_consumer (fi_env 0) (fi_headers fi_key_id 200) fi_body fi_state (fi_ctx fi_key_id 200)
    "pem" Cavage eve (fi_envelope eve 0)); [by apply lacks_const|by vm_compute|by vm_compute|by vm_compute|by vm_compute|apply fi_passes].
Defined.

Lemma accepted_activity_checked_witness :
  exists ctx pem pk scheme target envelope,
    passes inbox_defaults (fun _ => false) (fi_env 0) (fi_headers fi_key_id 200) fi_body fi_state ctx pem scheme target envelope /\
    covers_request pk ctx fi_body scheme.
Proof.
  destruct (accepted_activity_checked inbox_defaults (fun _ => false) (fi_env 0) (fi_headers fi_key_id 200) fi_body fi_state
    (after_accept inbox_defaults (fi_env 0) (fi_ctx fi_key_id 200) (fi_envelope eve 0) fi_state)) as (ctx & pem & pk & scheme & target & envelope & Hp & _ & Hc & _).
  { apply run_gates_accepts. eexists _, _, _, _, _. split; [apply fi_passes|reflexivity]. }
  by exists ctx, pem, pk, scheme, target, envelope.
Defined.

(** Dated 200 seconds ahead, the same request is taken again 400 seconds later. *)
Lemma dated_ahead_replayed_witness :
  exists st'', run_gates inbox_defaults (fun _ => false) (fi_env 400) (fi_headers fi_key_id 200) fi_body
    (after_accept inbox_defaults (fi_env 0) (fi_ctx fi_key_id 200) (fi_envelope eve 0) fi_state) = (Answered (Ok tt), st'').
Proof.
  apply (dated_ahead_replayed inbox_defaults (fun _ => false) (fi_env 0) (fi_headers fi_key_id 200) fi_body fi_state).
  - apply run_gates_accepts. eexists _, _, _, _, _. split; [apply fi_passes|reflexivity].
  - intros ctx Hctx. assert (ctx = fi_ctx fi_key_id 200) as -> by (unfold fi_ctx; by rewrite Hctx).
    split; [apply check_date_skew_ok; by vm_compute|by vm_compute].
  - done.
  - by vm_compute.
Defined.

Lemma replay_refused_in_window_witness :
  let k : ReplayKey := ("d"%string, 0%Z) in let k' : ReplayKey := ("e"%string, 0%Z) in
  exists rs m2, replay_run 100 1 [(k', 6)] (record_and_check 100 1 k 5 ∅).2 = (rs, m2) /\
    (record_and_check 100 1 k 7 m2).1 = true /\ 1 <= accepted rs.
Proof.
  intros k k'. destruct (replay_run 100 1 [(k', 6)] (record_and_check 100 1 k 5 ∅).2) as [rs m2] eqn:E.
  exists rs, m2. split; [done|].
  assert ((record_and_check 100 1 k 7 m2).1 = true) as Hr
    by (change m2 with (rs, m2).2; rewrite <- E; by vm_compute). split; [done|].
  apply (replay_refused_in_window 100 1 k 5 [(k', 6)] 7 ∅ (record_and_check 100 1 k 5 ∅).2 rs m2 (record_and_check 100 1 k 7 m2).2).
  - intros ? ?. by rewrite lookup_empty.
  - by vm_compute.
  - by repeat constructor.
  - done.
  - by vm_compute.
  - done.
  - rewrite <- Hr. apply surjective_pairing.
  - done.
Defined.

Lemma bits_plain p : lacks (ascii_of_N 34) (bits_of_pos p).
Proof. induction p as [p IH|p IH|]; cbn; [apply lacks_cons; by split..|apply not_elem_of_nil || (by apply lacks_const)]. Qed.

#[local] Instance fi_rsa_laws : RsaLaws.
Proof.
  refine {| rsa_pair := fun _ _ => True |}.
  - intros sk pk m sig _ [= <-]. split; [done|]. split; [done|]. split; [by repeat constructor|done].
  - intros raw. split; [apply bits_plain|]. intros Hempty. change (bits_of_pos (encode raw) = EmptyString) in Hempty.
    apply (inj encode). by destruct (encode raw).
Defined.

Definition fi_sk : @RsaPrivateKey fi_rsa := tt.
Definition fi_pk : @RsaPublicKey fi_rsa := tt.
Definition alice_key_id : string := "https://good.example/users/alice#main-key".

Lemma own_delivery_accepted_witness :
  exists st', run_gates inbox_defaults (inbox_is_blocked_actor eve_consumer) (fi_env 0) (fi_headers alice_key_id 200) fi_body fi_state
    = (Answered (Ok tt), st').
Proof.
  destruct (sign_post_cavage_with_key fi_sk alice_key_id fi_inbox_url fi_body (format_imf_fixdate (fi_secs + 200))) as [h|] eqn:E; [|done].
  apply (own_delivery_accepted inbox_defaults (inbox_is_blocked_actor eve_consumer) (fi_env 0) (fi_headers alice_key_id 200) fi_body fi_state
    fi_sk fi_pk "pem" alice_key_id fi_inbox_url "relay.example" (fi_secs + 200) h
    {| ti_kind := ActorUrl; ti_value := "https://good.example/users/alice" |}
    (ascii_bytes "https://good.example/users/alice" ++ [0] ++ fi_body)).
  all: try done.
  - by apply lacks_const.
  - assert (Ok h = sign_post_cavage_with_key fi_sk alice_key_id fi_inbox_url fi_body (format_imf_fixdate (fi_secs + 200))) as Hh by done.
    vm_compute in Hh. injection Hh as ->. repeat split; by vm_compute.
Defined.
