(* ===== verification/ActorDoc.v ===== *)
(** * Actor documents

    Models [crates/fetchit-fedi/src]: [attestation.rs] (the signed binding of an RSA key to a
    chat identity), [actor.rs] (the document an actor serves, strict decoding and rendering),
    the shape of pictures in [avatar.rs], and the tolerant decoding of [lookup.rs] with the
    rule that a document is bound to the URL it was fetched from.  JSON text, the derived
    codecs of the attestations, URL parsing, base64 and ML-DSA are parameters. *)
From Stdlib Require Import Ascii.
From S2P Require Import Prelude RelayProto RelayAuth PairRecord ShareUri Text.
Open Scope rust_scope.

(** ** JSON values *)

Inductive JsonNumber := PosInt (n : N) | NegInt (n : Z) | Float (bits : N).
Inductive Value :=
| Null
| Bool (b : bool)
| Number (n : JsonNumber)
| VString (s : string)
| VArray (items : list Value)
| VObject (m : gmap string Value).

(** [Value::get] with a string, [Value::as_str], [Value::as_array]. *)
Definition value_get (name : string) (v : Value) : option Value := match v with VObject m => m !! name | _ => None end.
Definition as_str (v : Value) : option string := match v with VString s => Some s | _ => None end.
Definition as_array (v : Value) : option (list Value) := match v with VArray l => Some l | _ => None end.
Definition get_str (name : string) (v : Value) : option string := u ← value_get name v; as_str u.

(** [Iterator::find_map]. *)
Fixpoint find_map {A B} (f : A -> option B) (l : list A) : option B :=
  match l with [] => None | x :: l' => match f x with Some y => Some y | None => find_map f l' end end.

(** ** Attestations *)

Definition DOMAIN_SEPARATOR : bytes := ascii_bytes "fetchit-fedi-actor-attestation-v1".
Definition DOMAIN_SEPARATOR_V2 : bytes := ascii_bytes "fetchit-fedi-actor-attestation-v2".
Definition MAX_RELAY_HINT_LEN : N := 256.

Record MlDsaAttestation := { at_ml_dsa_pubkey : bytes; at_signature : bytes }.
Record ActorAttestationV2 := {
  a2_version : N; a2_profile_addr : string; a2_relay_hint : string; a2_hint_epoch_ms : N;
  a2_ml_dsa_pubkey : bytes; a2_signature : bytes }.

(** [serde_json]'s [to_value] and [from_value] at the two types. *)
Class AttestationJson := {
  att_to_value : MlDsaAttestation -> Value;
  att_from_value : Value -> result MlDsaAttestation string;
  att2_to_value : ActorAttestationV2 -> Value;
  att2_from_value : Value -> result ActorAttestationV2 string }.

Inductive SigningInputError :=
| AttFieldTooLong (len : N)
| EmptyHandle
| AttInvalidAgentIdHex (len : N)
| InvalidProfileAddr (len : N)
| InvalidRelayHint (len : N).
Inductive AttestationVerifyError :=
| AttSigningInput (e : SigningInputError)
| PubkeyParse (s : string)
| SignatureParse (s : string)
| VerifyBackend (s : string)
| SignatureInvalid
| WrongVersion (got : N).

Definition is_lowercase_64_hex (s : string) : bool := (str_len s =? 64) && forallb is_lower_hex (ascii_bytes s).

(** What [push_lp] appends. *)
Definition push_lp (b : bytes) : result bytes SigningInputError :=
  if len b <=? u32_max then Ok (u32_be (len b) ++ b) else Err (AttFieldTooLong (len b)).

Section attestation.
  Context `{SH : Sha256, ML : MlDsaBackend, UE : UrlEdit}.

Definition signing_input (handle : string) (actor_url : Url) (agent_id_hex : string) (rsa_pubkey_der : bytes)
    : result bytes SigningInputError :=
  if bool_decide (handle = EmptyString) then Err EmptyHandle
  else if negb (is_lowercase_64_hex agent_id_hex) then Err (AttInvalidAgentIdHex (str_len agent_id_hex))
  else
    let? h := push_lp (ascii_bytes handle) in
    let? u := push_lp (ascii_bytes (url_to_string actor_url)) in
    let? a := push_lp (ascii_bytes agent_id_hex) in
    let? r := push_lp rsa_pubkey_der in
    Ok (DOMAIN_SEPARATOR ++ h ++ u ++ a ++ r).

Definition signing_input_v2 (handle : string) (actor_url : Url) (agent_id_hex : string) (rsa_pubkey_der : bytes)
    (profile_addr relay_hint : string) (hint_epoch_ms : N) : result bytes SigningInputError :=
  if bool_decide (handle = EmptyString) then Err EmptyHandle
  else if negb (is_lowercase_64_hex agent_id_hex) then Err (AttInvalidAgentIdHex (str_len agent_id_hex))
  else if negb (is_lowercase_64_hex profile_addr) then Err (InvalidProfileAddr (str_len profile_addr))
  else if bool_decide (relay_hint = EmptyString) || (MAX_RELAY_HINT_LEN <? str_len relay_hint)
  then Err (InvalidRelayHint (str_len relay_hint))
  else
    let? h := push_lp (ascii_bytes handle) in
    let? u := push_lp (ascii_bytes (url_to_string actor_url)) in
    let? a := push_lp (ascii_bytes agent_id_hex) in
    let? r := push_lp rsa_pubkey_der in
    let? p := push_lp (ascii_bytes profile_addr) in
    let? l := push_lp (ascii_bytes relay_hint) in
    Ok (DOMAIN_SEPARATOR_V2 ++ h ++ u ++ a ++ r ++ p ++ l ++ u64_be hint_epoch_ms).

(** The end both verifiers share: parse the key and the signature, then verify. *)
Definition check_attested (pubkey input signature : bytes) : result unit AttestationVerifyError :=
  match pk_from_bytes pubkey with
  | Err e => Err (PubkeyParse e)
  | Ok _ =>
      match sig_from_bytes signature with
      | Err e => Err (SignatureParse e)
      | Ok _ =>
          match mldsa_verify pubkey (agent_sign_input input) signature with
          | Err e => Err (VerifyBackend e)
          | Ok ok => if ok then Ok tt else Err SignatureInvalid
          end
      end
  end.

Definition verify_binding (handle : string) (actor_url : Url) (spki_der : bytes) (attestation : MlDsaAttestation)
    : result string AttestationVerifyError :=
  let derived := hex_encode (derive_agent_id (at_ml_dsa_pubkey attestation)) in
  match signing_input handle actor_url derived spki_der with
  | Err e => Err (AttSigningInput e)
  | Ok input =>
      let? _ := check_attested (at_ml_dsa_pubkey attestation) input (at_signature attestation) in
      Ok derived
  end.

Definition verify_binding_v2 (handle : string) (actor_url : Url) (spki_der : bytes) (attestation : ActorAttestationV2)
    : result string AttestationVerifyError :=
  if negb (a2_version attestation =? 2) then Err (WrongVersion (a2_version attestation))
  else
    let derived := hex_encode (derive_agent_id (a2_ml_dsa_pubkey attestation)) in
    match signing_input_v2 handle actor_url derived spki_der (a2_profile_addr attestation) (a2_relay_hint attestation)
            (a2_hint_epoch_ms attestation) with
    | Err e => Err (AttSigningInput e)
    | Ok input =>
        let? _ := check_attested (a2_ml_dsa_pubkey attestation) input (a2_signature attestation) in
        Ok derived
    end.
End attestation.

(** ** Pictures *)

Definition MAX_ICON_DEPTH : N := 8.

(** The walks take the depths that are left: the source's bound, with the first level. *)
Definition icon_levels : nat := S (N.to_nat MAX_ICON_DEPTH).

Fixpoint url_from_icon_value (levels : nat) (v : Value) : option string :=
  match levels with
  | O => None
  | S levels =>
      match v with
      | VString s => let t := trim s in if bool_decide (t = EmptyString) then None else Some t
      | VArray items => find_map (url_from_icon_value levels) items
      | VObject m =>
          match u ← m !! "url"%string; url_from_icon_value levels u with
          | Some url => Some url
          | None => h ← m !! "href"%string; url_from_icon_value levels h
          end
      | _ => None
      end
  end.
Definition icon_url_from_actor_doc (doc : Value) : option string :=
  v ← value_get "icon" doc; url_from_icon_value icon_levels v.

Definition normalize_content_type (raw : string) : string := to_ascii_lowercase (trim (split ";" raw).1).

Fixpoint media_type_from_icon_value (levels : nat) (v : Value) : option string :=
  match levels with
  | O => None
  | S levels =>
      match v with
      | VArray items => find_map (media_type_from_icon_value levels) items
      | VObject m =>
          raw ← m !! "mediaType"%string; s ← as_str raw;
          let t := normalize_content_type s in if bool_decide (t = EmptyString) then None else Some t
      | _ => None
      end
  end.
Definition icon_media_type_from_actor_doc (doc : Value) : option string :=
  v ← value_get "icon" doc; media_type_from_icon_value icon_levels v.

Definition UPLOADABLE_AVATAR_CONTENT_TYPES : list string := ["image/jpeg"; "image/png"; "image/webp"]%string.

(** [slice::starts_with]. *)
Definition bytes_start (p b : bytes) : bool := bool_decide (take (length p) b = p).
Definition magic_matches_content_type (content_type : string) (b : bytes) : bool :=
  if bool_decide (content_type = "image/jpeg"%string) then bytes_start [255; 216; 255] b
  else if bool_decide (content_type = "image/png"%string) then bytes_start [137; 80; 78; 71; 13; 10; 26; 10] b
  else if bool_decide (content_type = "image/webp"%string)
  then (12 <=? len b) && bytes_start (ascii_bytes "RIFF") b && bool_decide (take 4 (drop 8 b) = ascii_bytes "WEBP")
  else false.

(** ** PEM envelopes *)

Fixpoint line_pieces (p : string) (rest : list string) : list string :=
  match rest with
  | [] => if bool_decide (p = EmptyString) then [] else [p]
  | q :: rest => default p (strip_last (ascii_of_N 13) p) :: line_pieces q rest
  end.
(** [str::lines]. *)
Definition lines (s : string) : list string := let '(p, rest) := split (ascii_of_N 10) s in line_pieces p rest.

Fixpoint concat_strings (l : list string) : string :=
  match l with [] => EmptyString | s :: l' => s +:+ concat_strings l' end.

(** The texts of errors of other packages. *)
Class DocText := {
  url_parse_error : string -> string; debug_str : string -> string; b64_decode_error : string -> string }.

(** [chunks(64)], each followed by a line feed; [room] is the room on the current line. *)
Fixpoint wrap_lines (room : nat) (s : string) : string :=
  match s with
  | EmptyString => if bool_decide (room = 64%nat) then EmptyString else newline
  | String c s' =>
      match room with
      | S (S room) => String c (wrap_lines (S room) s')
      | _ => String c (newline +:+ wrap_lines 64 s')
      end
  end.
Definition PEM_BEGIN : string := "-----BEGIN PUBLIC KEY-----".
Definition PEM_END : string := "-----END PUBLIC KEY-----".
Definition spki_der_to_pem `{Base64} (der : bytes) : string :=
  PEM_BEGIN +:+ newline +:+ wrap_lines 64 (b64_encode der) +:+ PEM_END +:+ newline.
Definition spki_pem_to_der `{Base64, DocText} (pem : string) : result bytes string :=
  let body := concat_strings (List.filter (fun l => negb (starts_with "-----" l)) (lines pem)) in
  if bool_decide (body = EmptyString) then Err "PEM body is empty"%string
  else match b64_decode body with
       | Some der => Ok der
       | None => Err ("PEM base64: " +:+ b64_decode_error body)
       end.

(** ** Actors *)

Definition PQ_ATTESTATION_PROPERTY_URI : string := "https://etchit.io/ns#mlDsaAttestation-v1".
Definition PQ_ATTESTATION_V2_PROPERTY_URI : string := "https://etchit.io/ns#mlDsaAttestation-v2".

Record ActorIdentity := {
  ai_handle : string; ai_actor_url : Url; ai_agent_id_hex : string; ai_rsa_priv_pem : string; ai_spki_der : bytes;
  ai_ml_dsa_attestation : MlDsaAttestation; ai_ml_dsa_attestation_v2 : option ActorAttestationV2;
  ai_icon_url : option string; ai_icon_media_type : option string }.

Record Actor := {
  ac_id : Url; ac_preferred_username : string; ac_inbox : Url; ac_outbox : Url; ac_rsa_public_key_pem : string;
  ac_ml_dsa_attestation : MlDsaAttestation; ac_ml_dsa_attestation_v2 : option ActorAttestationV2;
  ac_icon_url : option string; ac_icon_media_type : option string }.

Inductive ActorError :=
| InboxUrl (s : string)
| OutboxUrl (s : string)
| MissingField (name : string)
| InvalidField (name reason : string)
| AttestationDecode (s : string)
| AttestationVerify (e : AttestationVerifyError).

Definition required_str (v : Value) (name : string) : result string ActorError :=
  match get_str name v with Some s => Ok s | None => Err (MissingField name) end.
Definition is_actor_class_type (t : string) : bool :=
  bool_decide (t ∈ ["Person"; "Service"; "Application"; "Organization"; "Group"]%string).

Section actor.
  Context `{AJ : AttestationJson, UP : UrlParse, UE : UrlEdit, BB : Base64, DT : DocText, SH : Sha256, ML : MlDsaBackend}.

(** [s.parse::<url::Url>()] with the field's error. *)
Definition url_field (name s : string) : result Url ActorError :=
  match url_parse s with Some u => Ok u | None => Err (InvalidField name (url_parse_error s)) end.

(** The two checks both decoders share. *)
Definition check_type (v : Value) : result unit ActorError :=
  match get_str "type" v with
  | Some t =>
      if is_actor_class_type t then Ok tt
      else Err (InvalidField "type" ("expected one of {Person, Service, Application, Organization, Group}; got " +:+ debug_str t))
  | None => Ok tt
  end.
Definition check_owner (pub_key_obj : Value) (id_str : string) : result unit ActorError :=
  match get_str "owner" pub_key_obj with
  | Some owner =>
      if bool_decide (owner = id_str) then Ok tt
      else Err (InvalidField "publicKey.owner"
                  ("owner " +:+ debug_str owner +:+ " does not match Actor id " +:+ debug_str id_str))
  | None => Ok tt
  end.
Definition optional_v2 (v : Value) : result (option ActorAttestationV2) ActorError :=
  match value_get PQ_ATTESTATION_V2_PROPERTY_URI v with
  | None => Ok None
  | Some raw => match att2_from_value raw with
                | Ok a => Ok (Some a)
                | Err e => Err (AttestationDecode ("v2: " +:+ e))
                end
  end.

Definition from_json_ld (v : Value) : result Actor ActorError :=
  let? id_str := required_str v "id" in
  let? id := url_field "id" id_str in
  let? _ := check_type v in
  let? preferred_username := required_str v "preferredUsername" in
  let? inbox_str := required_str v "inbox" in
  let? inbox := url_field "inbox" inbox_str in
  let? outbox_str := required_str v "outbox" in
  let? outbox := url_field "outbox" outbox_str in
  match value_get "publicKey" v with
  | None => Err (MissingField "publicKey")
  | Some pub_key_obj =>
      let? _ := check_owner pub_key_obj id_str in
      match get_str "publicKeyPem" pub_key_obj with
      | None => Err (MissingField "publicKey.publicKeyPem")
      | Some pem =>
          match value_get PQ_ATTESTATION_PROPERTY_URI v with
          | None => Err (MissingField PQ_ATTESTATION_PROPERTY_URI)
          | Some raw =>
              match att_from_value raw with
              | Err e => Err (AttestationDecode e)
              | Ok attestation =>
                  let? v2 := optional_v2 v in
                  Ok {| ac_id := id; ac_preferred_username := preferred_username; ac_inbox := inbox; ac_outbox := outbox;
                        ac_rsa_public_key_pem := pem; ac_ml_dsa_attestation := attestation;
                        ac_ml_dsa_attestation_v2 := v2; ac_icon_url := icon_url_from_actor_doc v;
                        ac_icon_media_type := icon_media_type_from_actor_doc v |}
              end
          end
      end
  end.

Definition icon_object (url : string) (media_type : option string) : gmap string Value :=
  let icon : gmap string Value := {["type" := VString "Image"]} in
  let icon := match media_type with Some mt => <["mediaType" := VString mt]> icon | None => icon end in
  <["url" := VString url]> icon.

Definition to_json_ld (a : Actor) : Value :=
  let actor_url_str := url_to_string (ac_id a) in
  let key_id := actor_url_str +:+ "#main-key" in
  let v : gmap string Value :=
    {[ "@context" := VArray [VString "https://www.w3.org/ns/activitystreams"; VString "https://w3id.org/security/v1"];
       "id" := VString actor_url_str;
       "type" := VString "Person";
       "preferredUsername" := VString (ac_preferred_username a);
       "inbox" := VString (url_to_string (ac_inbox a));
       "outbox" := VString (url_to_string (ac_outbox a));
       "publicKey" := VObject {[ "id" := VString key_id; "owner" := VString actor_url_str;
                                 "publicKeyPem" := VString (ac_rsa_public_key_pem a) ]};
       PQ_ATTESTATION_PROPERTY_URI := att_to_value (ac_ml_dsa_attestation a) ]} in
  let v := match ac_ml_dsa_attestation_v2 a with
           | Some att2 => <[PQ_ATTESTATION_V2_PROPERTY_URI := att2_to_value att2]> v
           | None => v
           end in
  let v := match ac_icon_url a with
           | Some url => <["icon" := VObject (icon_object url (ac_icon_media_type a))]> v
           | None => v
           end in
  VObject v.

Definition pem_der (pem : string) : result bytes ActorError :=
  match spki_pem_to_der pem with Ok der => Ok der | Err e => Err (InvalidField "publicKey.publicKeyPem" e) end.

Definition verify_attestation (a : Actor) : result string ActorError :=
  let? der := pem_der (ac_rsa_public_key_pem a) in
  match verify_binding (ac_preferred_username a) (ac_id a) der (ac_ml_dsa_attestation a) with
  | Ok id => Ok id
  | Err e => Err (AttestationVerify e)
  end.

Definition verify_attestation_v2 (a : Actor) : result string ActorError :=
  match ac_ml_dsa_attestation_v2 a with
  | None => Err (AttestationDecode "no v2 attestation on actor")
  | Some att =>
      let? der := pem_der (ac_rsa_public_key_pem a) in
      match verify_binding_v2 (ac_preferred_username a) (ac_id a) der att with
      | Ok id => Ok id
      | Err e => Err (AttestationVerify e)
      end
  end.

Definition append_path (base : Url) (suffix : string) : result Url string :=
  let raw := trim_end_matches "/" (url_to_string base) +:+ "/" +:+ suffix in
  match url_parse raw with Some u => Ok u | None => Err (debug_str raw +:+ ": " +:+ url_parse_error raw) end.

Definition from_identity (id : ActorIdentity) : result Actor ActorError :=
  match append_path (ai_actor_url id) "inbox" with
  | Err e => Err (InboxUrl e)
  | Ok inbox =>
      match append_path (ai_actor_url id) "outbox" with
      | Err e => Err (OutboxUrl e)
      | Ok outbox =>
          Ok {| ac_id := ai_actor_url id; ac_preferred_username := ai_handle id; ac_inbox := inbox; ac_outbox := outbox;
                ac_rsa_public_key_pem := spki_der_to_pem (ai_spki_der id); ac_ml_dsa_attestation := ai_ml_dsa_attestation id;
                ac_ml_dsa_attestation_v2 := ai_ml_dsa_attestation_v2 id; ac_icon_url := ai_icon_url id;
                ac_icon_media_type := ai_icon_media_type id |}
      end
  end.
End actor.

(** ** Remote actors *)

#[export] Instance url_eq_dec : EqDecision Url.
Proof. solve_decision. Defined.

Record RemoteActor := {
  ra_id : Url; ra_inbox : Url; ra_preferred_username : string; ra_outbox : option Url; ra_rsa_public_key_pem : option string;
  ra_attestation_v2 : option ActorAttestationV2; ra_icon_url : option string; ra_name : option string;
  ra_summary : option string }.

Inductive FetchActorError :=
| PrivateInstance (host : string)
| ActorBodyTooLarge (max_bytes : N)
| FetchTransport (e : string)
| FetchHttp (status : N) (body : string)
| JsonParse (e : string)
| FetchParse (e : ActorError)
| IdMismatch (fetched_from claimed : string).

Definition optional_str (v : Value) (key : string) : option string :=
  s ← get_str key v; let t := trim s in if bool_decide (t = EmptyString) then None else Some t.

Section remote.
  Context `{AJ : AttestationJson, UP : UrlParse, UE : UrlEdit, BB : Base64, DT : DocText, SH : Sha256, ML : MlDsaBackend}.

Definition remote_key (v : Value) (id_str : string) : result (option string) ActorError :=
  match value_get "publicKey" v with
  | None => Ok None
  | Some pk => let? _ := check_owner pk id_str in Ok (get_str "publicKeyPem" pk)
  end.

Definition remote_from_json_ld (v : Value) : result RemoteActor ActorError :=
  let? _ := check_type v in
  let? id_str := required_str v "id" in
  let? id := url_field "id" id_str in
  let? inbox_str := required_str v "inbox" in
  let? inbox := url_field "inbox" inbox_str in
  let? preferred_username := required_str v "preferredUsername" in
  let outbox := s ← get_str "outbox" v; url_parse s in
  let? pem := remote_key v id_str in
  let? v2 := optional_v2 v in
  Ok {| ra_id := id; ra_inbox := inbox; ra_preferred_username := preferred_username; ra_outbox := outbox;
        ra_rsa_public_key_pem := pem; ra_attestation_v2 := v2; ra_icon_url := icon_url_from_actor_doc v;
        ra_name := optional_str v "name"; ra_summary := optional_str v "summary" |}.

Definition remote_verify_attestation_v2 (r : RemoteActor) : result string ActorError :=
  match ra_attestation_v2 r with
  | None => Err (AttestationDecode "no v2 attestation on actor")
  | Some att =>
      match ra_rsa_public_key_pem r with
      | None => Err (MissingField "publicKey.publicKeyPem")
      | Some pem =>
          let? der := pem_der pem in
          match verify_binding_v2 (ra_preferred_username r) (ra_id r) der att with
          | Ok id => Ok id
          | Err e => Err (AttestationVerify e)
          end
      end
  end.

(** [get]: the guarded request for a document, with its JSON parsed. *)
Definition fetch_remote_actor_once (get : Url -> result Value FetchActorError) (url : Url) : result RemoteActor FetchActorError :=
  let? v := get url in
  match remote_from_json_ld v with Ok r => Ok r | Err e => Err (FetchParse e) end.

(** The second request is made after the first; [get2] answers it. *)
Definition fetch_remote_actor (get get2 : Url -> result Value FetchActorError) (actor_url : Url)
    : result RemoteActor FetchActorError :=
  let? actor := fetch_remote_actor_once get actor_url in
  if bool_decide (ra_id actor = actor_url) then Ok actor
  else
    let claimed := ra_id actor in
    let? refetched := fetch_remote_actor_once get2 claimed in
    if bool_decide (ra_id refetched = claimed) then Ok refetched
    else Err (IdMismatch (url_to_string actor_url) (url_to_string (ra_id refetched))).
End remote.

(** ** Posts of an outbox *)

Record MentionRef := { mr_name : string; mr_href : string }.
Definition MAX_MENTIONS_PER_POST : N := 32.
Record RemotePost := {
  rp_author_url : string; rp_content_html : string; rp_published : string; rp_object_url : string; rp_mentions : list MentionRef }.

Definition one_mention (v : Value) : option MentionRef :=
  t ← get_str "type" v;
  if bool_decide (t = "Mention"%string)
  then name ← optional_str v "name"; href ← optional_str v "href"; Some {| mr_name := name; mr_href := href |}
  else None.
Definition option_list {A} (o : option A) : list A := match o with Some x => [x] | None => [] end.
Definition mentions_from_tag (note : Value) : list MentionRef :=
  match value_get "tag" note with
  | Some (VArray items) => take (N.to_nat MAX_MENTIONS_PER_POST) (items ≫= fun v => option_list (one_mention v))
  | Some (VObject m) => option_list (one_mention (VObject m))
  | _ => []
  end.

Definition or_else {A} (a b : option A) : option A := match a with Some _ => a | None => b end.
Definition post_from_note (note : Value) (fallback_author : option string) : option RemotePost :=
  author ← or_else (get_str "attributedTo" note) fallback_author;
  let content := default EmptyString (get_str "content" note) in
  if bool_decide (content = EmptyString) then None
  else Some {| rp_author_url := author; rp_content_html := content; rp_published := default EmptyString (get_str "published" note);
               rp_object_url := default EmptyString (or_else (get_str "url" note) (get_str "id" note));
               rp_mentions := mentions_from_tag note |}.

Definition post_of_item (item : Value) : option RemotePost :=
  let kind := default EmptyString (get_str "type" item) in
  if bool_decide (kind = "Create"%string)
  then match value_get "object" item with
       | Some obj => if bool_decide (get_str "type" obj = Some "Note"%string) then post_from_note obj (get_str "actor" item) else None
       | None => None
       end
  else if bool_decide (kind = "Note"%string) then post_from_note item None
  else None.
Fixpoint collect_posts (cap : N) (items : list Value) (out : list RemotePost) : list RemotePost :=
  match items with
  | [] => out
  | item :: items =>
      if cap <=? len out then out
      else collect_posts cap items (out ++ option_list (post_of_item item))
  end.
Definition posts_from_outbox_page (page : Value) (cap : N) : list RemotePost :=
  match value_get "orderedItems" page ≫= as_array with Some items => collect_posts cap items [] | None => [] end.

Definition fetch_outbox_posts `{UrlParse} (get get2 : Url -> result Value FetchActorError) (outbox : Url) (cap : N)
    : result (list RemotePost) FetchActorError :=
  let? collection := get outbox in
  if is_some (value_get "orderedItems" collection) then Ok (posts_from_outbox_page collection cap)
  else match value_get "first" collection with
       | Some (VString first_url) =>
           match url_parse first_url with
           | None => Ok []
           | Some first => let? page := get2 first in Ok (posts_from_outbox_page page cap)
           end
       | Some (VObject m) => Ok (posts_from_outbox_page (VObject m) cap)
       | _ => Ok []
       end.

(** ** Trimming twice *)

Lemma trim_start_idem s : trim_start (trim_start s) = trim_start s.
Proof.
  induction s as [s IH] using (induction_ltof1 _ String.length). unfold ltof in IH. destruct s as [|a s1]; [done|].
  cbn [trim_start]. destruct (white1 a) eqn:Ea; [apply IH; cbn; lia|]. destruct s1 as [|b s2]; [cbn; by rewrite Ea|].
  destruct (white2 a b) eqn:Eb; [apply IH; cbn; lia|]. destruct s2 as [|c s3]; [cbn; by rewrite Ea, Eb|].
  destruct (white3 a b c) eqn:Ec; [apply IH; cbn; lia|]. cbn. by rewrite Ea, Eb, Ec.
Qed.
Lemma trim_start_rev_idem s : trim_start_rev (trim_start_rev s) = trim_start_rev s.
Proof.
  induction s as [s IH] using (induction_ltof1 _ String.length). unfold ltof in IH. destruct s as [|a s1]; [done|].
  cbn [trim_start_rev]. destruct (white1 a) eqn:Ea; [apply IH; cbn; lia|]. destruct s1 as [|b s2]; [cbn; by rewrite Ea|].
  destruct (white2 b a) eqn:Eb; [apply IH; cbn; lia|]. destruct s2 as [|c s3]; [cbn; by rewrite Ea, Eb|].
  destruct (white3 c b a) eqn:Ec; [apply IH; cbn; lia|]. cbn. by rewrite Ea, Eb, Ec.
Qed.
Lemma trim_start_rev_suffix s : exists p, s = p +:+ trim_start_rev s.
Proof.
  induction s as [s IH] using (induction_ltof1 _ String.length). unfold ltof in IH. destruct s as [|a s1]; [by exists EmptyString|].
  cbn [trim_start_rev]. destruct (white1 a).
  { destruct (IH s1) as [p Hp]; [cbn; lia|]. exists (String a p). by rewrite append_cons, <- Hp. }
  destruct s1 as [|b s2]; [by exists EmptyString|]. destruct (white2 b a).
  { destruct (IH s2) as [p Hp]; [cbn; lia|]. exists (String a (String b p)). by rewrite !append_cons, <- Hp. }
  destruct s2 as [|c s3]; [by exists EmptyString|]. destruct (white3 c b a); [|by exists EmptyString].
  destruct (IH s3) as [p Hp]; [cbn; lia|]. exists (String a (String b (String c p))). by rewrite !append_cons, <- Hp.
Qed.

(** What does not start with white space does not when cut shorter. *)
Lemma trim_start_prefix p s : trim_start (p +:+ s) = p +:+ s -> trim_start p = p.
Proof.
  assert (forall s, (String.length (trim_start s) <= String.length s)%nat) as Hlen.
  { clear. intros s. induction s as [s IH] using (induction_ltof1 _ String.length). unfold ltof in IH. destruct s as [|a [|b [|c s]]]; cbn -[trim_start];
      cbn [trim_start]; repeat case_match; cbn in *; try lia; etransitivity; try (apply IH; cbn; lia); cbn; lia. }
  intros H. destruct p as [|a [|b [|c p]]]; [done| | |]; rewrite ?append_cons in H; cbn [trim_start] in H |- *.
  - destruct (white1 a); [|done]. pose proof (Hlen s). apply (f_equal String.length) in H. rewrite append_empty in H. cbn in H. lia.
  - destruct (white1 a). { pose proof (Hlen (String b (EmptyString +:+ s))). apply (f_equal String.length) in H. cbn in *. lia. }
    destruct (white2 a b); [|done]. pose proof (Hlen (EmptyString +:+ s)). apply (f_equal String.length) in H. cbn in *. lia.
  - destruct (white1 a). { pose proof (Hlen (String b (String c (p +:+ s)))). apply (f_equal String.length) in H. cbn in *. lia. }
    destruct (white2 a b). { pose proof (Hlen (String c (p +:+ s))). apply (f_equal String.length) in H. cbn in *. lia. }
    destruct (white3 a b c); [|done]. pose proof (Hlen (p +:+ s)). apply (f_equal String.length) in H. cbn in *. lia.
Qed.

Lemma rev_onto_append s t : rev_onto (s +:+ t) EmptyString = rev_onto t EmptyString +:+ rev_onto s EmptyString.
Proof.
  induction s as [|x s IH]; [by rewrite append_empty_r|]. rewrite append_cons. cbn [rev_onto].
  rewrite rev_onto_app, IH, (rev_onto_app s (String x EmptyString)). by rewrite append_assoc.
Qed.
Lemma trim_end_prefix s : exists q, s = trim_end s +:+ q.
Proof.
  unfold trim_end. destruct (trim_start_rev_suffix (rev_onto s EmptyString)) as [p Hp]. exists (rev_onto p EmptyString).
  rewrite <- rev_onto_append, <- Hp. by rewrite rev_onto_involutive.
Qed.
Lemma trim_end_idem s : trim_end (trim_end s) = trim_end s.
Proof. unfold trim_end. by rewrite rev_onto_involutive, trim_start_rev_idem. Qed.
Lemma trim_idem s : trim (trim s) = trim s.
Proof.
  unfold trim at 1 2. destruct (trim_end_prefix (trim_start s)) as [q Hq].
  rewrite (trim_start_prefix (trim_end (trim_start s)) q); [apply trim_end_idem|]. rewrite <- Hq. apply trim_start_idem.
Qed.

Lemma trim_start_suffix s : exists p, s = p +:+ trim_start s.
Proof.
  induction s as [s IH] using (induction_ltof1 _ String.length). unfold ltof in IH. destruct s as [|a s1]; [by exists EmptyString|].
  cbn [trim_start]. destruct (white1 a).
  { destruct (IH s1) as [p Hp]; [cbn; lia|]. exists (String a p). by rewrite append_cons, <- Hp. }
  destruct s1 as [|b s2]; [by exists EmptyString|]. destruct (white2 a b).
  { destruct (IH s2) as [p Hp]; [cbn; lia|]. exists (String a (String b p)). by rewrite !append_cons, <- Hp. }
  destruct s2 as [|c s3]; [by exists EmptyString|]. destruct (white3 a b c); [|by exists EmptyString].
  destruct (IH s3) as [p Hp]; [cbn; lia|]. exists (String a (String b (String c p))). by rewrite !append_cons, <- Hp.
Qed.
Lemma lacks_append c s t : lacks c (s +:+ t) -> lacks c s /\ lacks c t.
Proof.
  induction s as [|x s IH]; [split; [apply not_elem_of_nil|done]|]. rewrite append_cons, !lacks_cons. naive_solver.
Qed.
Lemma lacks_trim c s : lacks c s -> lacks c (trim s).
Proof.
  intros Hs. destruct (trim_start_suffix s) as [p Hp]. rewrite Hp in Hs. apply lacks_append in Hs as [_ Hs].
  destruct (trim_end_prefix (trim_start s)) as [q Hq]. rewrite Hq in Hs. by apply lacks_append in Hs as [Hs _].
Qed.
Lemma split_head_lacks c s : lacks c (split c s).1.
Proof.
  induction s as [|a s IH]; [apply not_elem_of_nil|]. cbn -[bool_decide]. destruct (split c s) as [h t].
  case_bool_decide; cbn; [apply not_elem_of_nil|]. by apply lacks_cons.
Qed.

(** The case of letters does not matter to trimming. *)
Lemma lower_code a : N_of_ascii (ascii_lower a) = N_of_ascii a \/ (65 <= N_of_ascii a <= 90 /\ 97 <= N_of_ascii (ascii_lower a) <= 122).
Proof. destruct a as [[] [] [] [] [] [] [] []]; vm_compute; (by left) || (right; by repeat split). Qed.
Lemma white1_lower a : white1 (ascii_lower a) = white1 a.
Proof. destruct a as [[] [] [] [] [] [] [] []]; by vm_compute. Qed.
Lemma lower_fix a n : (n <? 65) || ((90 <? n) && (n <? 97)) || (122 <? n) = true -> (N_of_ascii (ascii_lower a) =? n) = (N_of_ascii a =? n).
Proof.
  rewrite !orb_true_iff, andb_true_iff, !N.ltb_lt. intros Hn. destruct (lower_code a) as [->|Hl]; [done|].
  destruct (N.eqb_spec (N_of_ascii (ascii_lower a)) n), (N.eqb_spec (N_of_ascii a) n); lia.
Qed.
Lemma white2_lower a b : white2 (ascii_lower a) (ascii_lower b) = white2 a b.
Proof. unfold white2. by rewrite !lower_fix by done. Qed.
Lemma lower_range a : ((128 <=? N_of_ascii (ascii_lower a)) && (N_of_ascii (ascii_lower a) <=? 138))
  = ((128 <=? N_of_ascii a) && (N_of_ascii a <=? 138)).
Proof. destruct (lower_code a) as [->|Hl]; [done|]. by rewrite !(proj2 (N.leb_gt 128 _)) by lia. Qed.
Lemma white3_lower a b c : white3 (ascii_lower a) (ascii_lower b) (ascii_lower c) = white3 a b c.
Proof. unfold white3. by rewrite lower_range, !lower_fix by done. Qed.
Lemma trim_start_lower s : trim_start (to_ascii_lowercase s) = to_ascii_lowercase (trim_start s).
Proof.
  induction s as [s IH] using (induction_ltof1 _ String.length). unfold ltof in IH. destruct s as [|a s1]; [done|].
  cbn [trim_start to_ascii_lowercase]. rewrite white1_lower. destruct (white1 a); [apply IH; cbn; lia|].
  destruct s1 as [|b s2]; [done|]. cbn [to_ascii_lowercase]. rewrite white2_lower. destruct (white2 a b); [apply IH; cbn; lia|].
  destruct s2 as [|c s3]; [done|]. cbn [to_ascii_lowercase]. rewrite white3_lower. destruct (white3 a b c); [apply IH; cbn; lia|done].
Qed.
Lemma trim_start_rev_lower s : trim_start_rev (to_ascii_lowercase s) = to_ascii_lowercase (trim_start_rev s).
Proof.
  induction s as [s IH] using (induction_ltof1 _ String.length). unfold ltof in IH. destruct s as [|a s1]; [done|].
  cbn [trim_start_rev to_ascii_lowercase]. rewrite white1_lower. destruct (white1 a); [apply IH; cbn; lia|].
  destruct s1 as [|b s2]; [done|]. cbn [to_ascii_lowercase]. rewrite white2_lower. destruct (white2 b a); [apply IH; cbn; lia|].
  destruct s2 as [|c s3]; [done|]. cbn [to_ascii_lowercase]. rewrite white3_lower. destruct (white3 c b a); [apply IH; cbn; lia|done].
Qed.
Lemma rev_onto_lower s acc : rev_onto (to_ascii_lowercase s) (to_ascii_lowercase acc) = to_ascii_lowercase (rev_onto s acc).
Proof. revert acc. induction s as [|x s IH]; intros acc; [done|]. cbn. apply (IH (String x acc)). Qed.
Lemma trim_lower s : trim (to_ascii_lowercase s) = to_ascii_lowercase (trim s).
Proof.
  unfold trim. rewrite trim_start_lower. unfold trim_end. change EmptyString with (to_ascii_lowercase EmptyString) at 1 2.
  by rewrite rev_onto_lower, trim_start_rev_lower, rev_onto_lower.
Qed.
Lemma letter_lower_twice a : ascii_lower (ascii_lower a) = ascii_lower a.
Proof. destruct a as [[] [] [] [] [] [] [] []]; by vm_compute. Qed.
Lemma lower_twice s : to_ascii_lowercase (to_ascii_lowercase s) = to_ascii_lowercase s.
Proof. induction s as [|x s IH]; [done|]. cbn. by rewrite letter_lower_twice, IH. Qed.
Lemma lacks_lower s : lacks ";" s -> lacks ";" (to_ascii_lowercase s).
Proof.
  induction s as [|x s IH]; [done|]. cbn [to_ascii_lowercase]. rewrite !lacks_cons. intros [Hx Hs]. split; [|by apply IH].
  intros He. apply Hx. destruct x as [[] [] [] [] [] [] [] []]; vm_compute in He |- *; congruence.
Qed.
Lemma normalize_idem raw : normalize_content_type (normalize_content_type raw) = normalize_content_type raw.
Proof.
  unfold normalize_content_type. rewrite (split_whole ";" (to_ascii_lowercase _)) by apply lacks_lower, lacks_trim, split_head_lacks.
  cbn [fst]. by rewrite trim_lower, trim_idem, lower_twice.
Qed.

(** ** A stored document reads back *)

(** What the packages document: a parsed URL prints to a text that parses to it, and so do the
    attestations. *)
Class DocLaws `{AttestationJson, UrlParse, UrlEdit} := {
  url_reparse : forall s u, url_parse s = Some u -> url_parse (url_to_string u) = Some u;
  att_reparse : forall v a, att_from_value v = Ok a -> att_from_value (att_to_value a) = Ok a;
  att2_reparse : forall v a, att2_from_value v = Ok a -> att2_from_value (att2_to_value a) = Ok a;
}.

(** A media type without a picture is not rendered. *)
Definition settled (a : Actor) : Actor :=
  {| ac_id := ac_id a; ac_preferred_username := ac_preferred_username a; ac_inbox := ac_inbox a; ac_outbox := ac_outbox a;
     ac_rsa_public_key_pem := ac_rsa_public_key_pem a; ac_ml_dsa_attestation := ac_ml_dsa_attestation a;
     ac_ml_dsa_attestation_v2 := ac_ml_dsa_attestation_v2 a; ac_icon_url := ac_icon_url a;
     ac_icon_media_type := match ac_icon_url a with Some _ => ac_icon_media_type a | None => None end |}.

Lemma icon_url_trimmed n v t : url_from_icon_value n v = Some t -> trim t = t /\ t <> EmptyString.
Proof.
  revert v t. induction n as [|n IH]; intros v t; [done|]. cbn -[bool_decide trim]. destruct v as [| | |s|items|m]; try done.
  - case_bool_decide as He; [done|]. intros [= <-]. by rewrite trim_idem.
  - induction items as [|x items IHi]; [done|]. cbn. destruct (url_from_icon_value n x) eqn:E; [|done]. intros [= <-]. by apply (IH x).
  - destruct (m !! "url"%string) as [u|]; cbn.
    + destruct (url_from_icon_value n u) eqn:E; [intros [= <-]; by apply (IH u)|].
      destruct (m !! "href"%string) as [h|]; cbn; [apply IH|done].
    + destruct (m !! "href"%string) as [h|]; cbn; [apply IH|done].
Qed.
Lemma icon_media_normal n v t : media_type_from_icon_value n v = Some t -> normalize_content_type t = t /\ t <> EmptyString.
Proof.
  revert v t. induction n as [|n IH]; intros v t; [done|]. cbn -[bool_decide]. destruct v as [| | |s|items|m]; try done.
  - induction items as [|x items IHi]; [done|]. cbn. destruct (media_type_from_icon_value n x) eqn:E; [|done]. intros [= <-]. by apply (IH x).
  - destruct (m !! "mediaType"%string) as [[| | |s| |]|]; cbn -[bool_decide]; try done.
    case_bool_decide as He; [done|]. intros [= <-]. by rewrite normalize_idem.
Qed.

Section round_trip.
  Context `{AJ : AttestationJson, UP : UrlParse, UE : UrlEdit, BB : Base64, DT : DocText, SH : Sha256, ML : MlDsaBackend, DL : !DocLaws}.

(** What a decoded actor's parts are known to be. *)
Record decoded (a : Actor) : Prop := {
  dc_id : url_parse (url_to_string (ac_id a)) = Some (ac_id a);
  dc_inbox : url_parse (url_to_string (ac_inbox a)) = Some (ac_inbox a);
  dc_outbox : url_parse (url_to_string (ac_outbox a)) = Some (ac_outbox a);
  dc_att : att_from_value (att_to_value (ac_ml_dsa_attestation a)) = Ok (ac_ml_dsa_attestation a);
  dc_att2 : forall t, ac_ml_dsa_attestation_v2 a = Some t -> att2_from_value (att2_to_value t) = Ok t;
  dc_icon : forall t, ac_icon_url a = Some t -> trim t = t /\ t <> EmptyString;
  dc_media : forall t, ac_icon_media_type a = Some t -> normalize_content_type t = t /\ t <> EmptyString }.

Lemma url_field_ok name s u : url_field name s = Ok u -> url_parse s = Some u.
Proof. unfold url_field. destruct (url_parse s); [by intros [= <-]|done]. Qed.

Lemma from_json_ld_decoded v a : from_json_ld v = Ok a -> decoded a.
Proof.
  unfold from_json_ld. destruct (required_str v "id") as [id_str|]; [|done]. destruct (url_field "id" id_str) as [id|] eqn:Hid; [|done].
  destruct (check_type v); [|done]. destruct (required_str v "preferredUsername"); [|done].
  destruct (required_str v "inbox") as [ib|]; [|done]. destruct (url_field "inbox" ib) as [inbox|] eqn:Hin; [|done].
  destruct (required_str v "outbox") as [ob|]; [|done]. destruct (url_field "outbox" ob) as [outbox|] eqn:Hout; [|done].
  destruct (value_get "publicKey" v) as [pk|]; [|done]. destruct (check_owner pk id_str); [|done]. destruct (get_str "publicKeyPem" pk); [|done].
  destruct (value_get PQ_ATTESTATION_PROPERTY_URI v) as [raw|]; [|done]. destruct (att_from_value raw) as [att|] eqn:Hatt; [|done].
  destruct (optional_v2 v) as [v2|] eqn:Hv2; [|done]. intros [= <-]. apply url_field_ok in Hid, Hin, Hout.
  constructor; cbn.
  - by eapply url_reparse.
  - by eapply url_reparse.
  - by eapply url_reparse.
  - by eapply att_reparse.
  - intros t ->. unfold optional_v2 in Hv2. destruct (value_get _ v) as [raw2|]; [|done].
    destruct (att2_from_value raw2) as [t'|] eqn:E; [|done]. injection Hv2 as ->. by eapply att2_reparse.
  - unfold icon_url_from_actor_doc. intros t. destruct (value_get "icon" v) as [i|]; [|done]. apply icon_url_trimmed.
  - unfold icon_media_type_from_actor_doc. intros t. destruct (value_get "icon" v) as [i|]; [|done]. apply icon_media_normal.
Qed.

Lemma rendered_icon_url url mt : trim url = url -> url <> EmptyString ->
  url_from_icon_value icon_levels (VObject (icon_object url mt)) = Some url.
Proof.
  intros Ht Hne. change icon_levels with (S (S 7)). cbn [url_from_icon_value]. unfold icon_object. rewrite lookup_insert_eq.
  cbn -[trim bool_decide]. by rewrite Ht, bool_decide_eq_false_2.
Qed.
Lemma rendered_icon_media url mt : (forall t, mt = Some t -> normalize_content_type t = t /\ t <> EmptyString) ->
  media_type_from_icon_value icon_levels (VObject (icon_object url mt)) = mt.
Proof.
  intros Hm. change icon_levels with (S 8). cbn [media_type_from_icon_value]. unfold icon_object. rewrite lookup_insert_ne by done.
  destruct mt as [t|].
  - rewrite lookup_insert_eq. cbn -[bool_decide]. destruct (Hm t eq_refl) as [-> Hne]. by rewrite bool_decide_eq_false_2.
  - by rewrite lookup_singleton_ne.
Qed.

(** The members of a rendered document. *)
Lemma rendered_members a :
  let doc := to_json_ld a in
  get_str "id" doc = Some (url_to_string (ac_id a)) /\ get_str "type" doc = Some "Person"%string /\
  get_str "preferredUsername" doc = Some (ac_preferred_username a) /\
  get_str "inbox" doc = Some (url_to_string (ac_inbox a)) /\ get_str "outbox" doc = Some (url_to_string (ac_outbox a)) /\
  (exists pk, value_get "publicKey" doc = Some pk /\ get_str "owner" pk = Some (url_to_string (ac_id a)) /\
     get_str "publicKeyPem" pk = Some (ac_rsa_public_key_pem a)) /\
  value_get PQ_ATTESTATION_PROPERTY_URI doc = Some (att_to_value (ac_ml_dsa_attestation a)) /\
  value_get PQ_ATTESTATION_V2_PROPERTY_URI doc = att2_to_value <$> ac_ml_dsa_attestation_v2 a /\
  value_get "icon" doc = (fun url => VObject (icon_object url (ac_icon_media_type a))) <$> ac_icon_url a.
Proof.
  unfold to_json_ld. destruct (ac_ml_dsa_attestation_v2 a), (ac_icon_url a); cbv zeta; repeat split; try reflexivity;
    eexists; repeat split; reflexivity.
Qed.

Lemma to_json_ld_reads a : decoded a -> from_json_ld (to_json_ld a) = Ok (settled a).
Proof.
  intros [Hid Hin Hout Hatt Hatt2 Hicon Hmedia].
  destruct (rendered_members a) as (H1 & H2 & H3 & H4 & H5 & (pk & H6 & H7 & H8) & H9 & H10 & H11). generalize dependent (to_json_ld a). intros doc **.
  unfold from_json_ld, required_str, check_type, check_owner, optional_v2, url_field, icon_url_from_actor_doc, icon_media_type_from_actor_doc.
  rewrite H1, H2, H3, H4, H5, H6, H7, H8, H9, H10, H11, Hid, Hin, Hout, Hatt. rewrite bool_decide_eq_true_2 by done.
  change (is_actor_class_type "Person") with true. cbn iota beta.
  assert ((match att2_to_value <$> ac_ml_dsa_attestation_v2 a with
           | Some raw => match att2_from_value raw with Ok a0 => Ok (Some a0) | Err e => Err (AttestationDecode ("v2: " +:+ e)) end
           | None => Ok None end) = Ok (ac_ml_dsa_attestation_v2 a)) as ->.
  { destruct (ac_ml_dsa_attestation_v2 a) as [t|]; [|done]. cbn. by rewrite (Hatt2 t). }
  unfold settled. destruct (ac_icon_url a) as [url|]; cbn [fmap option_fmap option_map mbind option_bind]; [|done].
  destruct (Hicon url eq_refl) as [Ht Hne]. by rewrite rendered_icon_url, rendered_icon_media.
Qed.

(** C32: A document that decodes as an actor is stored as a rendering that decodes to the same actor,
    less a media type that came without a picture. *)
Theorem actor_document_round_trip v a : from_json_ld v = Ok a -> from_json_ld (to_json_ld a) = Ok (settled a).
Proof. intros Hv. apply to_json_ld_reads. by eapply from_json_ld_decoded. Qed.
End round_trip.

(** ** What an attestation binds *)

Lemma push_lp_split x y bx by_ (r s : bytes) :
  push_lp x = Ok bx -> push_lp y = Ok by_ -> bx ++ r = by_ ++ s -> x = y /\ r = s.
Proof.
  unfold push_lp. destruct (N.leb_spec (len x) u32_max); [|done]. intros <-%ok_inj.
  destruct (N.leb_spec (len y) u32_max); [|done]. intros <-%ok_inj.
  rewrite <- !app_assoc. intros [Hlen Heq]%u32_be_split; [|done..].
  apply app_inj_1 in Heq; [done|]. unfold len in Hlen. lia.
Qed.
Lemma push_lp_text x y bx by_ (r s : bytes) :
  push_lp (ascii_bytes x) = Ok bx -> push_lp (ascii_bytes y) = Ok by_ -> bx ++ r = by_ ++ s -> x = y /\ r = s.
Proof. intros Hx Hy Heq. destruct (push_lp_split _ _ _ _ _ _ Hx Hy Heq) as [Hxy ->]. by apply ascii_bytes_inj in Hxy. Qed.

Section binding.
  Context `{SH : Sha256, ML : MlDsaBackend, UE : UrlEdit}.

(** The pieces of an input. *)
Lemma signing_input_ok h u a d b : signing_input h u a d = Ok b ->
  exists bh bu ba bd, push_lp (ascii_bytes h) = Ok bh /\ push_lp (ascii_bytes (url_to_string u)) = Ok bu /\
    push_lp (ascii_bytes a) = Ok ba /\ push_lp d = Ok bd /\ b = DOMAIN_SEPARATOR ++ bh ++ bu ++ ba ++ bd.
Proof.
  unfold signing_input. destruct (bool_decide _); [done|]. destruct (negb _); [done|]. intros H. inv_bind H. apply ok_inj in H as <-. eauto 10.
Qed.
Lemma signing_input_v2_ok h u a d p l e b : signing_input_v2 h u a d p l e = Ok b ->
  exists bh bu ba bd bp bl, push_lp (ascii_bytes h) = Ok bh /\ push_lp (ascii_bytes (url_to_string u)) = Ok bu /\
    push_lp (ascii_bytes a) = Ok ba /\ push_lp d = Ok bd /\ push_lp (ascii_bytes p) = Ok bp /\ push_lp (ascii_bytes l) = Ok bl /\
    b = DOMAIN_SEPARATOR_V2 ++ bh ++ bu ++ ba ++ bd ++ bp ++ bl ++ u64_be e.
Proof.
  unfold signing_input_v2. destruct (bool_decide (h = _)); [done|]. destruct (negb _); [done|]. destruct (negb _); [done|].
  destruct (_ || _); [done|]. intros H. inv_bind H. apply ok_inj in H as <-. eauto 20.
Qed.

Lemma signing_input_inj h u a d h' u' a' d' b :
  signing_input h u a d = Ok b -> signing_input h' u' a' d' = Ok b ->
  h = h' /\ url_to_string u = url_to_string u' /\ a = a' /\ d = d'.
Proof.
  intros (bh & bu & ba & bd & Hh & Hu & Ha & Hd & ->)%signing_input_ok (bh' & bu' & ba' & bd' & Hh' & Hu' & Ha' & Hd' & Heq)%signing_input_ok.
  apply app_inj_1 in Heq as [_ Heq]; [|done].
  destruct (push_lp_text _ _ _ _ _ _ Hh Hh' Heq) as [-> Heq1]. destruct (push_lp_text _ _ _ _ _ _ Hu Hu' Heq1) as [-> Heq2].
  destruct (push_lp_text _ _ _ _ _ _ Ha Ha' Heq2) as [-> Heq3].
  destruct (push_lp_split d d' bd bd' [] [] Hd Hd') as [-> _]; [by rewrite !app_nil_r|done].
Qed.
Lemma signing_input_v2_inj h u a d p l e h' u' a' d' p' l' e' b : e <= u64_max -> e' <= u64_max ->
  signing_input_v2 h u a d p l e = Ok b -> signing_input_v2 h' u' a' d' p' l' e' = Ok b ->
  h = h' /\ url_to_string u = url_to_string u' /\ a = a' /\ d = d' /\ p = p' /\ l = l' /\ e = e'.
Proof.
  intros He He' (bh & bu & ba & bd & bp & bl & Hh & Hu & Ha & Hd & Hp & Hl & ->)%signing_input_v2_ok
    (bh' & bu' & ba' & bd' & bp' & bl' & Hh' & Hu' & Ha' & Hd' & Hp' & Hl' & Heq)%signing_input_v2_ok.
  apply app_inj_1 in Heq as [_ Heq]; [|done].
  destruct (push_lp_text _ _ _ _ _ _ Hh Hh' Heq) as [-> H1]. destruct (push_lp_text _ _ _ _ _ _ Hu Hu' H1) as [-> H2].
  destruct (push_lp_text _ _ _ _ _ _ Ha Ha' H2) as [-> H3]. destruct (push_lp_split _ _ _ _ _ _ Hd Hd' H3) as [-> H4].
  destruct (push_lp_text _ _ _ _ _ _ Hp Hp' H4) as [-> H5]. destruct (push_lp_text _ _ _ _ _ _ Hl Hl' H5) as [-> H6].
  apply u64_be_inj in H6; by subst.
Qed.
(** An input of one version is none of the other. *)
Lemma signing_inputs_apart h u a d h' u' a' d' p l e b :
  signing_input h u a d = Ok b -> signing_input_v2 h' u' a' d' p l e <> Ok b.
Proof.
  intros (bh & bu & ba & bd & _ & _ & _ & _ & ->)%signing_input_ok (bh' & bu' & ba' & bd' & bp' & bl' & _ & _ & _ & _ & _ & _ & Heq)%signing_input_v2_ok.
  by apply app_inj_1 in Heq as [Heq _].
Qed.

Lemma check_attested_ok pk input sig : check_attested pk input sig = Ok tt <->
  pk_from_bytes pk = Ok tt /\ sig_from_bytes sig = Ok tt /\ mldsa_verify pk (agent_sign_input input) sig = Ok true.
Proof.
  unfold check_attested. destruct (pk_from_bytes pk) as [[]|]; [|naive_solver]. destruct (sig_from_bytes sig) as [[]|]; [|naive_solver].
  destruct (mldsa_verify _ _ _) as [[]|]; naive_solver.
Qed.
(** A verified binding: the id is the hash of the key that signed exactly these fields. *)
Lemma verify_binding_ok h u d att id : verify_binding h u d att = Ok id ->
  id = hex_encode (derive_agent_id (at_ml_dsa_pubkey att)) /\
  exists input, signing_input h u id d = Ok input /\
    mldsa_verify (at_ml_dsa_pubkey att) (agent_sign_input input) (at_signature att) = Ok true.
Proof.
  unfold verify_binding. destruct (signing_input _ _ _ _) as [input|] eqn:Hi; [|done].
  destruct (check_attested _ _ _) as [[]|] eqn:Hc; [|done]. intros [= <-]. split; [done|]. exists input. split; [done|]. by apply check_attested_ok.
Qed.
Lemma verify_binding_v2_ok h u d att id : verify_binding_v2 h u d att = Ok id ->
  a2_version att = 2 /\ id = hex_encode (derive_agent_id (a2_ml_dsa_pubkey att)) /\
  exists input, signing_input_v2 h u id d (a2_profile_addr att) (a2_relay_hint att) (a2_hint_epoch_ms att) = Ok input /\
    mldsa_verify (a2_ml_dsa_pubkey att) (agent_sign_input input) (a2_signature att) = Ok true.
Proof.
  unfold verify_binding_v2. destruct (N.eqb_spec (a2_version att) 2) as [Hv|]; [|done]. cbn.
  destruct (signing_input_v2 _ _ _ _ _ _ _) as [input|] eqn:Hi; [|done].
  destruct (check_attested _ _ _) as [[]|] eqn:Hc; [|done]. intros [= <-]. split; [done|]. split; [done|]. exists input. split; [done|].
  by apply check_attested_ok.
Qed.
End binding.

(** ** PEM envelopes read back *)

(** The alphabet of standard base64 has no dash and no line break. *)
Class Base64Text `{Base64} := {
  b64_lines : forall raw, lacks "-" (b64_encode raw) /\ lacks (ascii_of_N 10) (b64_encode raw) /\ lacks (ascii_of_N 13) (b64_encode raw);
  b64_nonempty : forall raw, b64_encode raw = EmptyString -> raw = [] }.

Definition pem_line (l : string) : bool := negb (starts_with "-----" l).
Lemma pieces_line p q rest : lacks (ascii_of_N 13) p -> line_pieces p (q :: rest) = p :: line_pieces q rest.
Proof.
  intros Hp. cbn [line_pieces]. destruct (strip_last (ascii_of_N 13) p) as [r|] eqn:E; [|done]. apply strip_last_Some in E as ->.
  apply lacks_append in Hp as [_ Hp]. apply lacks_cons in Hp as [Hp _]. by destruct Hp.
Qed.
Lemma lines_cons p s : lacks (ascii_of_N 10) p -> lacks (ascii_of_N 13) p -> lines (p +:+ newline +:+ s) = p :: lines s.
Proof.
  intros Hn Hr. unfold lines. change (newline +:+ s) with (String (ascii_of_N 10) (EmptyString +:+ s)). rewrite append_empty, split_app by done.
  destruct (split (ascii_of_N 10) s) as [q rest]. by rewrite pieces_line.
Qed.
Lemma plain_line_kept l : lacks "-" l -> pem_line l = true.
Proof.
  intros Hl. unfold pem_line, starts_with. destruct l as [|a l]; [done|]. apply lacks_cons in Hl as [Ha _]. cbn -[bool_decide].
  by rewrite bool_decide_eq_false_2.
Qed.

(** The wrapped lines, followed by a text that starts a new line, concatenate to the wrapped string. *)
Lemma wrapped_body s acc room t : (1 <= room <= 64)%nat -> (String.length acc + room = 64)%nat ->
  lacks "-" (acc +:+ s) -> lacks (ascii_of_N 10) (acc +:+ s) -> lacks (ascii_of_N 13) (acc +:+ s) ->
  concat_strings (List.filter pem_line (lines (acc +:+ wrap_lines room s +:+ t)))
  = acc +:+ s +:+ concat_strings (List.filter pem_line (lines t)).
Proof.
  revert acc room. induction s as [|c s IH]; intros acc room Hroom Hacc Hd Hn Hr.
  - rewrite append_empty_r in Hd, Hn, Hr. cbn -[bool_decide newline]. case_bool_decide as He.
    + assert (acc = EmptyString) as ->; [|done]. destruct acc; [done|cbn in Hacc; lia].
    + rewrite lines_cons by done. cbn [List.filter]. by rewrite plain_line_kept.
  - assert (forall w, acc +:+ String c w = (acc +:+ String c EmptyString) +:+ w) as Hsnoc
      by (intros w; rewrite append_assoc; done).
    assert (String.length (acc +:+ String c EmptyString) = S (String.length acc)) as Hlen by (rewrite append_length; cbn; lia).
    rewrite Hsnoc in Hd, Hn, Hr. destruct room as [|[|room]]; [lia| |].
    + cbn [wrap_lines]. rewrite append_cons, Hsnoc, (append_assoc newline).
      apply lacks_append in Hd as Hd'. apply lacks_append in Hn as Hn'. apply lacks_append in Hr as Hr'.
      destruct Hd' as [Hd1 Hd2], Hn' as [Hn1 Hn2], Hr' as [Hr1 Hr2].
      rewrite lines_cons by done. cbn [List.filter]. rewrite plain_line_kept by done. cbn [concat_strings].
      rewrite <- (append_empty (wrap_lines 64 s +:+ t)), IH; [|lia|done|done..].
      rewrite append_empty, append_assoc. by rewrite append_cons.
    + cbn [wrap_lines]. rewrite append_cons, Hsnoc, IH; [|lia|lia|done..]. rewrite append_assoc. by rewrite append_cons.
Qed.

Theorem pem_round_trip `{Base64Text, DocText} der :
  Forall (fun b => b < 256) der -> der <> [] -> spki_pem_to_der (spki_der_to_pem der) = Ok der.
Proof.
  intros Hb Hne. unfold spki_pem_to_der, spki_der_to_pem. fold pem_line.
  assert (lines (PEM_BEGIN +:+ newline +:+ wrap_lines 64 (b64_encode der) +:+ PEM_END +:+ newline)
          = PEM_BEGIN :: lines (wrap_lines 64 (b64_encode der) +:+ PEM_END +:+ newline)) as ->.
  { apply lines_cons; apply (bool_decide_unpack _); by vm_compute. }
  cbn [List.filter]. change (pem_line PEM_BEGIN) with false. cbn iota. destruct (b64_lines der) as (Hdash & Hlf & Hcr).
  pose proof (wrapped_body (b64_encode der) EmptyString 64 (PEM_END +:+ newline) ltac:(lia) eq_refl) as Hw. rewrite !append_empty in Hw.
  rewrite Hw by done. change (concat_strings (List.filter pem_line (lines (PEM_END +:+ newline)))) with EmptyString. rewrite append_empty_r.
  rewrite bool_decide_eq_false_2 by (intros He; by apply Hne, b64_nonempty). by rewrite b64_decode_encode.
Qed.

(** ** What a fetched actor is bound to *)

Section fetched.
  Context `{AJ : AttestationJson, UP : UrlParse, UE : UrlEdit, DT : DocText}.

(** A fetched actor's id served a document that names it. *)
Lemma fetched_actor_confirmed get get2 url r : fetch_remote_actor get get2 url = Ok r ->
  exists v, (get (ra_id r) = Ok v \/ get2 (ra_id r) = Ok v) /\ remote_from_json_ld v = Ok r.
Proof.
  unfold fetch_remote_actor, fetch_remote_actor_once. destruct (get url) as [v|] eqn:Hv; [|done].
  destruct (remote_from_json_ld v) as [actor|] eqn:Ha; [|done]. case_bool_decide as Hid.
  { intros [= <-]. exists v. rewrite Hid. auto. }
  destruct (get2 (ra_id actor)) as [v2|] eqn:Hv2; [|done]. destruct (remote_from_json_ld v2) as [r2|] eqn:Hr2; [|done].
  case_bool_decide as Hid2; [|done]. intros [= <-]. exists v2. rewrite Hid2. auto.
Qed.
End fetched.

Lemma collect_posts_len cap items out : len out <= cap -> len (collect_posts cap items out) <= cap.
Proof.
  revert out. induction items as [|i items IH]; intros out Ho; [done|]. cbn. destruct (N.leb_spec cap (len out)); [done|].
  apply IH. unfold len in *. rewrite length_app. destruct (post_of_item i); cbn; lia.
Qed.
(** A page gives at most as many posts as asked for, each with text and at most 32 mentions. *)
Lemma outbox_page_bounded page cap : len (posts_from_outbox_page page cap) <= cap.
Proof.
  unfold posts_from_outbox_page. destruct (value_get "orderedItems" page ≫= as_array); [|unfold len; cbn; lia].
  apply collect_posts_len. unfold len. cbn. lia.
Qed.
Lemma mentions_bounded note : len (mentions_from_tag note) <= MAX_MENTIONS_PER_POST.
Proof.
  unfold mentions_from_tag, len, MAX_MENTIONS_PER_POST. destruct (value_get "tag" note) as [[| | | |items|m]|]; cbn -[one_mention]; try lia.
  - rewrite length_take. lia.
  - destruct (one_mention (VObject m)); cbn; lia.
Qed.

(** ** Concrete packages the witnesses run with *)

(** URLs of the form [https://host/path]. *)
Definition ad_url (host path : string) : Url := Build_Url "https" (Some host) None "" None ("/" +:+ path) None None.
Definition ad_url_parse : UrlParse := fun s =>
  rest ← strip_prefix "https://" s;
  match split_once "/" rest with Some (host, path) => Some (ad_url host path) | None => Some (ad_url rest "") end.
Definition ad_url_edit : UrlEdit :=
  {| url_set_scheme _ _ := None; url_set_host _ _ := None;
     url_to_string u := "https://" +:+ default EmptyString (url_host_str u) +:+ url_path u |}.
Definition ad_att_json : AttestationJson :=
  let b := b64_encode (Base64 := demo_base64) in let d := b64_decode (Base64 := demo_base64) in
  {| att_to_value a := VArray [VString (b (at_ml_dsa_pubkey a)); VString (b (at_signature a))];
     att_from_value v :=
       match v with
       | VArray [VString k; VString s] =>
           match d k, d s with Some k, Some s => Ok {| at_ml_dsa_pubkey := k; at_signature := s |} | _, _ => Err "base64"%string end
       | _ => Err "shape"%string
       end;
     att2_to_value a := VArray [Number (PosInt (a2_version a)); VString (a2_profile_addr a); VString (a2_relay_hint a);
                                Number (PosInt (a2_hint_epoch_ms a)); VString (b (a2_ml_dsa_pubkey a)); VString (b (a2_signature a))];
     att2_from_value v :=
       match v with
       | VArray [Number (PosInt n); VString p; VString l; Number (PosInt e); VString k; VString s] =>
           match d k, d s with
           | Some k, Some s => Ok {| a2_version := n; a2_profile_addr := p; a2_relay_hint := l; a2_hint_epoch_ms := e;
                                     a2_ml_dsa_pubkey := k; a2_signature := s |}
           | _, _ => Err "base64"%string
           end
       | _ => Err "shape"%string
       end |}.
Definition ad_text : DocText := {| url_parse_error _ := "url"%string; debug_str s := s; b64_decode_error _ := "base64"%string |}.
#[local] Existing Instances ad_url_parse ad_url_edit ad_att_json ad_text demo_base64.

Lemma demo_b64_all raw : b64_decode (b64_encode raw) = Some raw.
Proof. cbn. rewrite pos_of_bits_of_pos. cbn. apply decode_encode. Qed.
Lemma ad_att2_reparse a : att2_from_value (att2_to_value a) = Ok a.
Proof. destruct a. cbn -[b64_decode b64_encode]. by rewrite !demo_b64_all. Qed.
Lemma ad_url_reparse host path : lacks "/" host -> url_parse (url_to_string (ad_url host path)) = Some (ad_url host path).
Proof.
  intros Hh. unfold url_parse, ad_url_parse, url_to_string, ad_url_edit. cbn [url_host_str ad_url default url_path]. rewrite strip_prefix_app. cbn [mbind option_bind].
  change ("/" +:+ path) with (String "/" (EmptyString +:+ path)). rewrite append_empty. unfold id. by rewrite split_once_app.
Qed.
Definition ad_laws : DocLaws.
Proof.
  split.
  - intros s u. unfold url_parse at 1, ad_url_parse at 1. destruct (strip_prefix "https://" s) as [rest|]; [|done]. cbn [mbind option_bind].
    destruct (split_once "/" rest) as [[h p]|] eqn:E; intros [= <-]; apply ad_url_reparse.
    + by eapply split_once_lacks.
    + by apply split_once_none.
  - intros _ a _. destruct a. cbn -[b64_decode b64_encode]. by rewrite !demo_b64_all.
  - intros _ a _. apply ad_att2_reparse.
Qed.

(** An actor with a picture, and its document. *)
Definition demo_actor : Actor :=
  {| ac_id := ad_url "etchit.io" "actors/josh"; ac_preferred_username := "josh"; ac_inbox := ad_url "etchit.io" "actors/josh/inbox";
     ac_outbox := ad_url "etchit.io" "actors/josh/outbox"; ac_rsa_public_key_pem := "pem";
     ac_ml_dsa_attestation := {| at_ml_dsa_pubkey := [1]; at_signature := [2] |}; ac_ml_dsa_attestation_v2 := None;
     ac_icon_url := Some "https://etchit.io/actors/josh/avatar"%string; ac_icon_media_type := Some "image/png"%string |}.
Lemma actor_document_round_trip_witness :
  from_json_ld (to_json_ld demo_actor) = Ok demo_actor /\ from_json_ld (to_json_ld demo_actor) = Ok (settled demo_actor).
Proof.
  assert (from_json_ld (to_json_ld demo_actor) = Ok demo_actor) as Hd by by vm_compute.
  split; [exact Hd|]. exact (actor_document_round_trip (DL := ad_laws) (to_json_ld demo_actor) demo_actor Hd).
Defined.
