(* ===== verification/BridgeStore.v ===== *)
(** * The bridge's store

    Models [crates/fetchit-bridge-server/src]: [store.rs] (registered actors, inbound
    messages), [store_follow.rs] (the follow graph and the queue of follow requests) and
    [store_avatar.rs].  A table is the list of its rows in insertion order; each SQL statement
    is applied as a whole, and fails only on the constraints of the schema.  Calls hold the
    connection's lock, so a run is a sequence of calls.  Where a query orders rows by a time
    only, the order of rows with equal times is a parameter. *)
From S2P Require Import Prelude RelayProto.
Open Scope rust_scope.

(** ** Rows *)

Record ActorRecord := {
  ar_agent_id : string; ar_handle : string; ar_actor_url : string; ar_doc_json : string; ar_registered_ms : N }.
Inductive RegisterOutcome := RegisterCreated | RegisterUpdated | HandleTaken.

(** A row of [actors], with the columns of the picture. *)
Record ActorRow := { aw_actor : ActorRecord; aw_avatar : option bytes; aw_avatar_ct : option string }.
Record StoredAvatar := { av_bytes : bytes; av_content_type : string }.

Record InboxMessage := {
  im_actor_id : string; im_sender_actor_url : string; im_note_id : string; im_text : string; im_published : string;
  im_created_ms : N }.

Inductive FollowState := FollowPending | FollowAccepted.
Inductive FollowOutcome := FollowCreated | AlreadyPending | AlreadyAccepted.
Record FollowingRecord := {
  fr_target_actor_url : string; fr_target_inbox_url : string; fr_state : FollowState; fr_follow_activity_id : string;
  fr_created_ms : N }.

(** A row of [following]: its owner and the record. *)
Record FollowingRow := { fg_actor_id : string; fg_record : FollowingRecord }.
Record FollowerRow := {
  fl_actor_id : string; fl_follower_actor_url : string; fl_shared_inbox_url : string; fl_since_ms : N }.
Record FollowRequestRecord := {
  fq_follower_actor_url : string; fq_follower_inbox_url : string; fq_follow_activity_id : string; fq_received_ms : N }.
Record FollowRequestRow := { rq_actor_id : string; rq_record : FollowRequestRecord }.

Inductive BridgeError := StoreFailure | StoreLockPoisoned.

Record Store := {
  actors : list ActorRow;
  inbox_messages : list InboxMessage;
  following : list FollowingRow;
  followers : list FollowerRow;
  follow_requests : list FollowRequestRow }.
Definition empty_store : Store :=
  {| actors := []; inbox_messages := []; following := []; followers := []; follow_requests := [] |}.

Definition set_actors (l : list ActorRow) (st : Store) : Store :=
  {| actors := l; inbox_messages := inbox_messages st; following := following st; followers := followers st;
     follow_requests := follow_requests st |}.
Definition set_inbox (l : list InboxMessage) (st : Store) : Store :=
  {| actors := actors st; inbox_messages := l; following := following st; followers := followers st;
     follow_requests := follow_requests st |}.
Definition set_following (l : list FollowingRow) (st : Store) : Store :=
  {| actors := actors st; inbox_messages := inbox_messages st; following := l; followers := followers st;
     follow_requests := follow_requests st |}.
Definition set_followers (l : list FollowerRow) (st : Store) : Store :=
  {| actors := actors st; inbox_messages := inbox_messages st; following := following st; followers := l;
     follow_requests := follow_requests st |}.
Definition set_requests (l : list FollowRequestRow) (st : Store) : Store :=
  {| actors := actors st; inbox_messages := inbox_messages st; following := following st; followers := followers st;
     follow_requests := l |}.

(** ** Queries *)

(** [ORDER BY] a number: a stable sort. *)
Fixpoint insert_by {A} (key : A -> Z) (x : A) (l : list A) : list A :=
  match l with
  | [] => [x]
  | y :: l' => if (key x <=? key y)%Z then x :: l else y :: insert_by key x l'
  end.
Definition order_by {A} (key : A -> Z) (l : list A) : list A := foldr (insert_by key) [] l.

(** The order in which rows come out of a table where the query leaves it open. *)
Class RowScan := {
  scan : forall {A}, list A -> list A;
  scan_perm : forall {A} (l : list A), scan l ≡ₚ l }.
Definition insertion_scan : RowScan := {| scan _ l := l; scan_perm _ l := Permutation_refl l |}.

Definition ascending {A} (time : A -> N) (r : A) : Z := Z.of_N (time r).
Definition descending {A} (time : A -> N) (r : A) : Z := (- Z.of_N (time r))%Z.

(** ** Actors *)

Definition holds_handle (handle : string) (r : ActorRow) : bool := bool_decide (ar_handle (aw_actor r) = handle).
Definition is_agent (agent_id : string) (r : ActorRow) : bool := bool_decide (ar_agent_id (aw_actor r) = agent_id).

Definition actor_by_handle (handle : string) (st : Store) : option ActorRecord :=
  aw_actor <$> List.find (holds_handle handle) (actors st).

(** The row an [ON CONFLICT] update leaves: the columns of the picture are not set. *)
Definition update_actor (rec : ActorRecord) (r : ActorRow) : ActorRow :=
  if is_agent (ar_agent_id rec) r
  then {| aw_actor := rec; aw_avatar := aw_avatar r; aw_avatar_ct := aw_avatar_ct r |} else r.

Definition register_actor (rec : ActorRecord) (st : Store) : RegisterOutcome * Store :=
  let existing := List.find (holds_handle (ar_handle rec)) (actors st) in
  let taken := match existing with Some other => negb (is_agent (ar_agent_id rec) other) | None => false end in
  if taken then (HandleTaken, st)
  else
    let is_update := existsb (is_agent (ar_agent_id rec)) (actors st) in
    if existsb (fun r => holds_handle (ar_handle rec) r && negb (is_agent (ar_agent_id rec) r)) (actors st)
    then (HandleTaken, st)
    else if is_update then (RegisterUpdated, set_actors (update_actor rec <$> actors st) st)
    else (RegisterCreated,
          set_actors (actors st ++ [{| aw_actor := rec; aw_avatar := None; aw_avatar_ct := None |}]) st).

(** The picture's columns of an actor; each call answers whether one row changed. *)
Definition set_picture (avatar : option bytes) (ct : option string) (r : ActorRow) : ActorRow :=
  {| aw_actor := aw_actor r; aw_avatar := avatar; aw_avatar_ct := ct |}.
Definition update_where (p : ActorRow -> bool) (f : ActorRow -> ActorRow) (st : Store) : bool * Store :=
  (len (List.filter p (actors st)) =? 1, set_actors ((fun r => if p r then f r else r) <$> actors st) st).
Definition set_avatar (agent_id : string) (b : bytes) (content_type : string) (st : Store) : bool * Store :=
  update_where (is_agent agent_id) (set_picture (Some b) (Some content_type)) st.
Definition clear_avatar (agent_id : string) (st : Store) : bool * Store :=
  update_where (fun r => is_agent agent_id r && is_some (aw_avatar r)) (set_picture None None) st.
Definition avatar_by_handle (handle : string) (st : Store) : option StoredAvatar :=
  match List.find (holds_handle handle) (actors st) with
  | Some r =>
      match aw_avatar r, aw_avatar_ct r with
      | Some (b :: bs), Some ct => Some {| av_bytes := b :: bs; av_content_type := ct |}
      | _, _ => None
      end
  | None => None
  end.

(** ** Inbound messages *)

Definition same_note (m n : InboxMessage) : bool :=
  bool_decide (im_actor_id m = im_actor_id n) && bool_decide (im_note_id m = im_note_id n).
Definition inbox_insert (m : InboxMessage) (st : Store) : bool * Store :=
  if existsb (same_note m) (inbox_messages st) then (false, st)
  else (true, set_inbox (inbox_messages st ++ [m]) st).

Definition newer_for (actor_id : string) (since_ms : Z) (m : InboxMessage) : bool :=
  bool_decide (im_actor_id m = actor_id) && (since_ms <? Z.of_N (im_created_ms m))%Z.
Definition inbox_list (actor_id : string) (since_ms : Z) (limit : N) (st : Store) : list InboxMessage :=
  take (N.to_nat limit) (order_by (ascending im_created_ms) (List.filter (newer_for actor_id since_ms) (inbox_messages st))).

(** ** Accounts an actor follows *)

Definition is_follow (actor_id target : string) (r : FollowingRow) : bool :=
  bool_decide (fg_actor_id r = actor_id) && bool_decide (fr_target_actor_url (fg_record r) = target).
Definition has_follow_id (fid : string) (r : FollowingRow) : bool := bool_decide (fr_follow_activity_id (fg_record r) = fid).

Definition follow_request (actor_id target inbox fid : string) (now_ms : N) (st : Store) : result FollowOutcome BridgeError * Store :=
  match fr_state ∘ fg_record <$> List.find (is_follow actor_id target) (following st) with
  | Some FollowAccepted => (Ok AlreadyAccepted, st)
  | Some FollowPending => (Ok AlreadyPending, st)
  | None =>
      if existsb (has_follow_id fid) (following st) then (Err StoreFailure, st)
      else
        let rec := {| fr_target_actor_url := target; fr_target_inbox_url := inbox; fr_state := FollowPending;
                      fr_follow_activity_id := fid; fr_created_ms := clamp_i64 now_ms |} in
        (Ok FollowCreated, set_following (following st ++ [{| fg_actor_id := actor_id; fg_record := rec |}]) st)
  end.

Definition set_accepted (r : FollowingRow) : FollowingRow :=
  {| fg_actor_id := fg_actor_id r;
     fg_record := {| fr_target_actor_url := fr_target_actor_url (fg_record r);
                     fr_target_inbox_url := fr_target_inbox_url (fg_record r); fr_state := FollowAccepted;
                     fr_follow_activity_id := fr_follow_activity_id (fg_record r);
                     fr_created_ms := fr_created_ms (fg_record r) |} |}.
Definition is_pending (r : FollowingRow) : bool := match fr_state (fg_record r) with FollowPending => true | FollowAccepted => false end.
Definition follow_accepted (fid target actor_id : string) (st : Store) : bool * Store :=
  let p r := has_follow_id fid r && is_pending r && is_follow actor_id target r in
  (len (List.filter p (following st)) =? 1,
   set_following ((fun r => if p r then set_accepted r else r) <$> following st) st).

Definition follow_rejected (fid target : string) (st : Store) : bool * Store :=
  let p r := has_follow_id fid r && bool_decide (fr_target_actor_url (fg_record r) = target) in
  (len (List.filter p (following st)) =? 1, set_following (List.filter (negb ∘ p) (following st)) st).

Definition unfollow (actor_id target : string) (st : Store) : option FollowingRecord * Store :=
  match List.find (is_follow actor_id target) (following st) with
  | Some r => (Some (fg_record r), set_following (List.filter (negb ∘ is_follow actor_id target) (following st)) st)
  | None => (None, st)
  end.

Definition following_list `{RowScan} (actor_id : string) (st : Store) : list FollowingRecord :=
  order_by (descending fr_created_ms)
    (scan (fg_record <$> List.filter (fun r => bool_decide (fg_actor_id r = actor_id)) (following st))).

(** ** Followers *)

Definition is_follower (actor_id follower : string) (r : FollowerRow) : bool :=
  bool_decide (fl_actor_id r = actor_id) && bool_decide (fl_follower_actor_url r = follower).
Definition add_follower (actor_id follower inbox : string) (now_ms : N) (st : Store) : bool * Store :=
  if existsb (is_follower actor_id follower) (followers st) then (false, st)
  else (true, set_followers (followers st ++ [{| fl_actor_id := actor_id; fl_follower_actor_url := follower;
                                                 fl_shared_inbox_url := inbox; fl_since_ms := clamp_i64 now_ms |}]) st).
Definition remove_follower (actor_id follower : string) (st : Store) : bool * Store :=
  (len (List.filter (is_follower actor_id follower) (followers st)) =? 1,
   set_followers (List.filter (negb ∘ is_follower actor_id follower) (followers st)) st).
Definition followers_list `{RowScan} (actor_id : string) (st : Store) : list string :=
  fl_follower_actor_url <$>
    order_by (descending fl_since_ms) (scan (List.filter (fun r => bool_decide (fl_actor_id r = actor_id)) (followers st))).

(** ** Follow requests *)

Definition MAX_QUEUED_FOLLOW_REQUESTS : N := 200.
Definition of_actor (actor_id : string) (r : FollowRequestRow) : bool := bool_decide (rq_actor_id r = actor_id).
Definition is_request (actor_id follower : string) (r : FollowRequestRow) : bool :=
  of_actor actor_id r && bool_decide (fq_follower_actor_url (rq_record r) = follower).

(** The rows the eviction keeps, newest first. *)
Definition newest_requests `{RowScan} (actor_id : string) (rows : list FollowRequestRow) : list FollowRequestRow :=
  take (N.to_nat MAX_QUEUED_FOLLOW_REQUESTS)
    (order_by (descending (fq_received_ms ∘ rq_record)) (scan (List.filter (of_actor actor_id) rows))).
Definition upsert_request (row : FollowRequestRow) (rows : list FollowRequestRow) : list FollowRequestRow :=
  let same := is_request (rq_actor_id row) (fq_follower_actor_url (rq_record row)) in
  if existsb same rows then (fun r => if same r then row else r) <$> rows else rows ++ [row].
Definition add_follow_request `{RowScan} (actor_id follower inbox fid : string) (now_ms : N) (st : Store) : Store :=
  let rec := {| fq_follower_actor_url := follower; fq_follower_inbox_url := inbox; fq_follow_activity_id := fid;
                fq_received_ms := clamp_i64 now_ms |} in
  let rows := upsert_request {| rq_actor_id := actor_id; rq_record := rec |} (follow_requests st) in
  let keep := fq_follower_actor_url ∘ rq_record <$> newest_requests actor_id rows in
  set_requests (List.filter (fun r => negb (of_actor actor_id r && negb (bool_decide (fq_follower_actor_url (rq_record r) ∈ keep)))) rows) st.

Definition follow_requests_list `{RowScan} (actor_id : string) (st : Store) : list FollowRequestRecord :=
  take 200 (order_by (descending fq_received_ms) (scan (rq_record <$> List.filter (of_actor actor_id) (follow_requests st)))).

Definition remove_follow_request (actor_id follower : string) (fid : option string) (st : Store) : bool * Store :=
  let p r := is_request actor_id follower r
             && match fid with None => true | Some f => bool_decide (fq_follow_activity_id (rq_record r) = f) end in
  (len (List.filter p (follow_requests st)) =? 1, set_requests (List.filter (negb ∘ p) (follow_requests st)) st).

(** ** Runs

    What the routes call, in any order. *)

Inductive StoreOp :=
| OpRegister (rec : ActorRecord)
| OpSetAvatar (agent_id : string) (b : bytes) (content_type : string)
| OpClearAvatar (agent_id : string)
| OpInsert (m : InboxMessage)
| OpFollow (actor_id target inbox fid : string) (now_ms : N)
| OpAccepted (fid target actor_id : string)
| OpRejected (fid target : string)
| OpUnfollow (actor_id target : string)
| OpAddFollower (actor_id follower inbox : string) (now_ms : N)
| OpRemoveFollower (actor_id follower : string)
| OpAddRequest (actor_id follower inbox fid : string) (now_ms : N)
| OpRemoveRequest (actor_id follower : string) (fid : option string).

Definition store_step `{RowScan} (st : Store) (op : StoreOp) : Store :=
  match op with
  | OpRegister rec => (register_actor rec st).2
  | OpSetAvatar a b ct => (set_avatar a b ct st).2
  | OpClearAvatar a => (clear_avatar a st).2
  | OpInsert m => (inbox_insert m st).2
  | OpFollow a t i f now => (follow_request a t i f now st).2
  | OpAccepted f t a => (follow_accepted f t a st).2
  | OpRejected f t => (follow_rejected f t st).2
  | OpUnfollow a t => (unfollow a t st).2
  | OpAddFollower a f i now => (add_follower a f i now st).2
  | OpRemoveFollower a f => (remove_follower a f st).2
  | OpAddRequest a f i fid now => add_follow_request a f i fid now st
  | OpRemoveRequest a f fid => (remove_follow_request a f fid st).2
  end.
Definition store_run `{RowScan} (ops : list StoreOp) (st : Store) : Store := fold_left store_step ops st.

(** ** Lists of rows *)

Lemma insert_by_perm {A} key (x : A) l : insert_by key x l ≡ₚ x :: l.
Proof.
  induction l as [|y l IH]; [done|]. cbn. case_match; [done|]. rewrite IH. apply Permutation_swap.
Qed.
Lemma order_by_perm {A} key (l : list A) : order_by key l ≡ₚ l.
Proof. induction l as [|x l IH]; [done|]. cbn. rewrite insert_by_perm. by rewrite IH. Qed.

Lemma insert_by_sorted {A} key (x : A) l :
  StronglySorted Z.le (key <$> l) -> StronglySorted Z.le (key <$> insert_by key x l).
Proof.
  induction l as [|y l IH]; cbn -[fmap]; [intros _; repeat constructor|]. intros Hs.
  destruct (Z.leb_spec (key x) (key y)) as [Hle|Hgt].
  - rewrite fmap_cons. constructor; [done|]. rewrite fmap_cons in Hs |- *. constructor; [done|].
    apply StronglySorted_inv in Hs as [_ Hall]. eapply Forall_impl; [exact Hall|]. cbn. lia.
  - rewrite fmap_cons in Hs |- *. apply StronglySorted_inv in Hs as [Hs Hall]. constructor; [by apply IH|].
    apply Forall_forall. intros z Hz. rewrite insert_by_perm, fmap_cons in Hz. apply elem_of_cons in Hz as [->|Hz]; [lia|].
    by apply (proj1 (Forall_forall _ _) Hall).
Qed.
Lemma order_by_sorted {A} key (l : list A) : StronglySorted Z.le (key <$> order_by key l).
Proof. induction l as [|x l IH]; [constructor|]. cbn -[fmap]. by apply insert_by_sorted. Qed.

Lemma elem_of_filter_b {A} (p : A -> bool) x l : x ∈ List.filter p l <-> p x = true /\ x ∈ l.
Proof. rewrite !list_elem_of_In, List.filter_In. tauto. Qed.
Lemma existsb_false_iff {A} (p : A -> bool) l : existsb p l = false <-> forall x, x ∈ l -> p x = false.
Proof.
  rewrite <- not_true_iff_false, existsb_exists. split.
  - intros Hn x Hx. destruct (p x) eqn:E; [|done]. destruct Hn. exists x. by rewrite <- list_elem_of_In.
  - intros Hall (x & Hx & Hp). apply list_elem_of_In, Hall in Hx. congruence.
Qed.
Lemma find_none_iff {A} (p : A -> bool) l : List.find p l = None <-> existsb p l = false.
Proof. induction l as [|x l IH]; [done|]. cbn. by destruct (p x). Qed.
Lemma NoDup_filter_keys {A B} (key : A -> B) (p : A -> bool) (l : list A) : NoDup (key <$> l) -> NoDup (key <$> List.filter p l).
Proof.
  induction l as [|x l IH]; [done|]. rewrite fmap_cons, NoDup_cons. intros [Hx Hl]. cbn. destruct (p x); [|by apply IH].
  rewrite fmap_cons, NoDup_cons. split; [|by apply IH]. intros Hin. apply Hx. apply list_elem_of_fmap in Hin as (y & -> & Hy).
  apply elem_of_filter_b in Hy as [_ Hy]. by apply list_elem_of_fmap_2.
Qed.
Lemma NoDup_snoc_key {A B} (key : A -> B) (l : list A) x : NoDup (key <$> l) -> (forall y, y ∈ l -> key y <> key x) ->
  NoDup (key <$> (l ++ [x])).
Proof.
  intros Hl Hx. rewrite fmap_app. apply NoDup_app. split; [done|]. split; [|apply NoDup_singleton].
  intros k Hk Hin. apply list_elem_of_singleton in Hin as ->. apply list_elem_of_fmap in Hk as (y & Hk & Hy). by apply (Hx y).
Qed.
Lemma fmap_keys_id {A B} (key : A -> B) (f : A -> A) (l : list A) : (forall x, x ∈ l -> key (f x) = key x) -> key <$> (f <$> l) = key <$> l.
Proof.
  intros Hf. induction l as [|x l IH]; [done|]. rewrite !fmap_cons. rewrite Hf by left. rewrite IH; [done|].
  intros y Hy. apply Hf. by right.
Qed.

(** The row a query on a key finds. *)
Lemma find_key {A B} (key : A -> B) (p : A -> bool) (l : list A) x :
  NoDup (key <$> l) -> (forall y z, p y = true -> p z = true -> key y = key z) -> x ∈ l -> p x = true -> List.find p l = Some x.
Proof.
  intros Hl Hp. induction l as [|y l IH]; intros Hx Hpx; [by apply elem_of_nil in Hx|]. cbn.
  rewrite fmap_cons, NoDup_cons in Hl. destruct Hl as [Hy Hl]. apply elem_of_cons in Hx as [->|Hx]; [by rewrite Hpx|].
  destruct (p y) eqn:E; [|by apply IH]. destruct Hy. rewrite (Hp y x E Hpx). by apply list_elem_of_fmap_2.
Qed.

(** ** The keys of the tables *)

Definition request_key (r : FollowRequestRow) : string * string := (rq_actor_id r, fq_follower_actor_url (rq_record r)).
Definition follow_key (r : FollowingRow) : string * string := (fg_actor_id r, fr_target_actor_url (fg_record r)).
Definition follower_key (r : FollowerRow) : string * string := (fl_actor_id r, fl_follower_actor_url r).
Definition note_key (m : InboxMessage) : string * string := (im_actor_id m, im_note_id m).
Definition queue_of (actor_id : string) (st : Store) : list FollowRequestRow := List.filter (of_actor actor_id) (follow_requests st).

Record wf_store (st : Store) : Prop := {
  ws_agents : NoDup (ar_agent_id ∘ aw_actor <$> actors st);
  ws_handles : NoDup (ar_handle ∘ aw_actor <$> actors st);
  ws_notes : NoDup (note_key <$> inbox_messages st);
  ws_following : NoDup (follow_key <$> following st);
  ws_follow_ids : NoDup (fr_follow_activity_id ∘ fg_record <$> following st);
  ws_followers : NoDup (follower_key <$> followers st);
  ws_requests : NoDup (request_key <$> follow_requests st);
  ws_queue : forall a, len (queue_of a st) <= MAX_QUEUED_FOLLOW_REQUESTS }.

Lemma empty_store_wf : wf_store empty_store.
Proof. constructor; intros; try apply NoDup_nil_2; done. Qed.

Lemma is_request_true a f r : is_request a f r = true <-> request_key r = (a, f).
Proof. unfold is_request, of_actor, request_key. rewrite andb_true_iff, !bool_decide_eq_true. naive_solver. Qed.
Lemma is_follow_true a t r : is_follow a t r = true <-> follow_key r = (a, t).
Proof. unfold is_follow, follow_key. rewrite andb_true_iff, !bool_decide_eq_true. naive_solver. Qed.
Lemma is_follower_true a t r : is_follower a t r = true <-> follower_key r = (a, t).
Proof. unfold is_follower, follower_key. rewrite andb_true_iff, !bool_decide_eq_true. naive_solver. Qed.
Lemma same_note_true m n : same_note m n = true <-> note_key n = note_key m.
Proof. unfold same_note, note_key. rewrite andb_true_iff, !bool_decide_eq_true. split; [by intros [-> ->]|by intros [= -> ->]]. Qed.

Lemma upsert_request_keys row rows : NoDup (request_key <$> rows) -> NoDup (request_key <$> upsert_request row rows).
Proof.
  intros Hl. unfold upsert_request. destruct (existsb _ rows) eqn:E.
  - rewrite fmap_keys_id; [done|]. intros x _. destruct (is_request _ _ x) eqn:Hx; [|done].
    apply is_request_true in Hx. by rewrite Hx.
  - apply NoDup_snoc_key; [done|]. rewrite existsb_false_iff in E. intros y Hy Hk. apply E in Hy.
    apply not_true_iff_false in Hy. apply Hy. by apply is_request_true.
Qed.

Lemma filter_filter_b {A} (p q : A -> bool) l : List.filter p (List.filter q l) = List.filter (fun x => q x && p x) l.
Proof. induction l as [|x l IH]; [done|]. cbn. destruct (q x); cbn; [|done]. destruct (p x); by rewrite IH. Qed.
Lemma filter_ext_b {A} (p q : A -> bool) l : (forall x, x ∈ l -> p x = q x) -> List.filter p l = List.filter q l.
Proof. intros Hpq. apply List.filter_ext_in. intros x Hx. apply Hpq. by rewrite list_elem_of_In. Qed.
Lemma filter_len_le {A} (p q : A -> bool) l : (forall x, p x = true -> q x = true) -> len (List.filter p l) <= len (List.filter q l).
Proof.
  intros Hpq. unfold len. induction l as [|x l IH]; [done|]. cbn. destruct (p x) eqn:Ep.
  - rewrite (Hpq x Ep). cbn. lia.
  - destruct (q x); cbn; lia.
Qed.

(** What an eviction leaves of a queue is what the subquery selected. *)
Lemma queue_after_add `{RowScan} a f i fid now st : NoDup (request_key <$> follow_requests st) ->
  let rows := upsert_request {| rq_actor_id := a; rq_record := {| fq_follower_actor_url := f; fq_follower_inbox_url := i;
    fq_follow_activity_id := fid; fq_received_ms := clamp_i64 now |} |} (follow_requests st) in
  queue_of a (add_follow_request a f i fid now st) ≡ₚ newest_requests a rows.
Proof.
  intros Hst rows. unfold queue_of, add_follow_request. cbn [follow_requests set_requests]. fold rows.
  assert (NoDup (request_key <$> rows)) as Hl by by apply upsert_request_keys.
  assert (forall x, x ∈ newest_requests a rows -> x ∈ rows /\ of_actor a x = true) as Hsub.
  { intros x Hx. unfold newest_requests in Hx. apply elem_of_take in Hx as (j & Hx & _). apply list_elem_of_lookup_2 in Hx.
    rewrite order_by_perm, scan_perm in Hx. apply elem_of_filter_b in Hx. tauto. }
  apply NoDup_Permutation.
  - apply (NoDup_fmap_1 request_key). rewrite filter_filter_b. by apply NoDup_filter_keys.
  - apply (NoDup_fmap_1 request_key). unfold newest_requests. rewrite fmap_take. eapply sublist_NoDup; [|apply sublist_take].
    rewrite order_by_perm, scan_perm. by apply NoDup_filter_keys.
  - intros x. rewrite filter_filter_b, elem_of_filter_b, andb_true_iff. split.
    + intros [[Hk Ha] Hx]. rewrite Ha in Hk. cbn in Hk. rewrite negb_involutive, bool_decide_eq_true in Hk.
      apply list_elem_of_fmap in Hk as (y & Hf & Hy). destruct (Hsub y Hy) as [Hyr Hya].
      enough (x = y) as -> by done.
      assert (List.find (is_request a (fq_follower_actor_url (rq_record x))) rows = Some x) as H1.
      { apply (find_key request_key); [done| |done|].
        - intros u v Hu Hv. apply is_request_true in Hu, Hv. congruence.
        - unfold is_request. rewrite Ha. by apply bool_decide_eq_true. }
      assert (List.find (is_request a (fq_follower_actor_url (rq_record x))) rows = Some y) as H2.
      { apply (find_key request_key); [done| |done|].
        - intros u v Hu Hv. apply is_request_true in Hu, Hv. congruence.
        - unfold is_request. rewrite Hya. apply bool_decide_eq_true. by rewrite Hf. }
      congruence.
    + intros Hx. destruct (Hsub x Hx) as [Hr Ha]. split; [|done]. rewrite Ha. split; [|done]. cbn.
      rewrite negb_involutive. apply bool_decide_eq_true. by apply (list_elem_of_fmap_2 (fq_follower_actor_url ∘ rq_record)).
Qed.

Lemma queue_filter a (p : FollowRequestRow -> bool) st :
  len (queue_of a st) <= MAX_QUEUED_FOLLOW_REQUESTS ->
  len (queue_of a (set_requests (List.filter p (follow_requests st)) st)) <= MAX_QUEUED_FOLLOW_REQUESTS.
Proof.
  intros Hq. unfold queue_of in *. cbn. rewrite filter_filter_b. etransitivity; [|exact Hq].
  apply filter_len_le. intros x [_ Hx]%andb_true_iff. done.
Qed.
Lemma queue_other `{RowScan} a b f i fid now st : a <> b ->
  queue_of b (add_follow_request a f i fid now st) = queue_of b st.
Proof.
  intros Hab. unfold queue_of, add_follow_request. cbn [follow_requests set_requests].
  assert (forall x, of_actor a x && of_actor b x = false) as Hdis.
  { intros x. unfold of_actor. apply not_true_iff_false. rewrite andb_true_iff, !bool_decide_eq_true. naive_solver. }
  rewrite filter_filter_b. set (row := {| rq_actor_id := a; rq_record := _ |}).
  assert (of_actor b row = false) as Hrow by by apply bool_decide_eq_false.
  transitivity (List.filter (of_actor b) (upsert_request row (follow_requests st))).
  { apply filter_ext_b. intros x _. specialize (Hdis x). destruct (of_actor a x); [|done]. cbn in *. by rewrite Hdis, andb_false_r. }
  unfold upsert_request. destruct (existsb _ _).
  - induction (follow_requests st) as [|r l IH]; [done|]. rewrite fmap_cons. cbn [List.filter]. destruct (is_request _ _ r) eqn:Hr.
    + rewrite Hrow, IH. specialize (Hdis r). unfold is_request in Hr. cbn in Hr. apply andb_true_iff in Hr as [Hr _].
      rewrite Hr in Hdis. cbn in Hdis. by rewrite Hdis.
    + destruct (of_actor b r); by rewrite IH.
  - rewrite List.filter_app. cbn. by rewrite Hrow, app_nil_r.
Qed.

Lemma add_request_wf `{RowScan} a f i fid now st : wf_store st -> wf_store (add_follow_request a f i fid now st).
Proof.
  intros [Hag Hh Hn Hf Hid Hfl Hr Hq]. constructor; try done.
  - apply NoDup_filter_keys. by apply upsert_request_keys.
  - intros b. destruct (decide (a = b)) as [<-|Hab]; [|by rewrite queue_other].
    unfold len. rewrite queue_after_add by done. unfold newest_requests. rewrite length_take. unfold MAX_QUEUED_FOLLOW_REQUESTS. lia.
Qed.

Lemma update_where_wf p f st : (forall r, aw_actor (f r) = aw_actor r) -> wf_store st -> wf_store (update_where p f st).2.
Proof.
  intros Hf [Hag Hh Hn Hfo Hid Hfl Hr Hq]. constructor; try done; cbn -[fmap]; rewrite fmap_keys_id; try done;
    intros x _; cbn; destruct (p x); by rewrite ?Hf.
Qed.

Lemma register_wf rec st : wf_store st -> wf_store (register_actor rec st).2.
Proof.
  intros Hw. destruct (Hw) as [Hag Hh Hn Hfo Hid Hfl Hr Hq]. unfold register_actor. cbv zeta.
  destruct (match List.find (holds_handle (ar_handle rec)) (actors st) with
            | Some other => negb (is_agent (ar_agent_id rec) other) | None => false end); [done|].
  destruct (existsb (fun r => holds_handle (ar_handle rec) r && negb (is_agent (ar_agent_id rec) r)) (actors st)) eqn:Etaken; [done|].
  rewrite existsb_false_iff in Etaken. destruct (existsb (is_agent (ar_agent_id rec)) (actors st)) eqn:Eup; constructor; try done; cbn -[fmap].
  - rewrite fmap_keys_id; [done|]. intros x _. unfold update_actor. destruct (is_agent _ x) eqn:Ex; [|done].
    apply bool_decide_eq_true in Ex. done.
  - clear Eup Hn Hfo Hid Hfl Hr Hq. induction (actors st) as [|x l IH]; [constructor|].
    rewrite !fmap_cons, NoDup_cons in Hag, Hh. destruct Hag as [Hax Hag], Hh as [Hhx Hh]. rewrite !fmap_cons, NoDup_cons.
    split; [|apply IH; try done; intros y Hy; apply Etaken; by right].
    rewrite list_elem_of_fmap. intros (y' & Hyk & Hy'). apply list_elem_of_fmap in Hy' as (y & -> & Hy).
    pose proof (Etaken x ltac:(left)) as Tx. pose proof (Etaken y ltac:(by right)) as Ty. unfold update_actor, holds_handle, is_agent in *.
    assert (ar_agent_id (aw_actor x) <> ar_agent_id (aw_actor y)) as Hne.
    { intros He. apply Hax. cbn. rewrite He. by apply (list_elem_of_fmap_2 (ar_agent_id ∘ aw_actor)). }
    cbn in Hyk. repeat case_bool_decide; cbn in *; try congruence.
    apply Hhx. cbn. rewrite Hyk. by apply (list_elem_of_fmap_2 (ar_handle ∘ aw_actor)).
  - apply NoDup_snoc_key; [done|]. rewrite existsb_false_iff in Eup. intros y Hy Hk. apply Eup in Hy.
    apply bool_decide_eq_false in Hy. by destruct Hy.
  - apply NoDup_snoc_key; [done|]. rewrite existsb_false_iff in Eup. intros y Hy Hk. pose proof (Etaken y Hy) as Ty.
    rewrite (Eup y Hy) in Ty. cbn in Ty. rewrite andb_true_r in Ty. apply bool_decide_eq_false in Ty. by destruct Ty.
Qed.

Lemma follow_request_wf a t i f now st : wf_store st -> wf_store (follow_request a t i f now st).2.
Proof.
  intros Hw. destruct (Hw) as [Hag Hh Hn Hfo Hid Hfl Hr Hq]. unfold follow_request.
  destruct (List.find (is_follow a t) (following st)) as [r|] eqn:Ef; cbn -[existsb]; [by destruct (fr_state _)|].
  destruct (existsb (has_follow_id f) (following st)) eqn:Ei; [done|]. apply find_none_iff in Ef. rewrite existsb_false_iff in Ef, Ei.
  constructor; try done; cbn -[fmap]; apply NoDup_snoc_key; try done; intros y Hy Hk.
  - apply Ef in Hy. apply not_true_iff_false in Hy. apply Hy. by apply is_follow_true.
  - apply Ei, bool_decide_eq_false in Hy. by destruct Hy.
Qed.

Lemma filter_following_wf (p : FollowingRow -> bool) st : wf_store st -> wf_store (set_following (List.filter p (following st)) st).
Proof. intros [Hag Hh Hn Hfo Hid Hfl Hr Hq]. constructor; try done; by apply NoDup_filter_keys. Qed.

Lemma store_step_wf `{RowScan} st op : wf_store st -> wf_store (store_step st op).
Proof.
  intros Hw. destruct (Hw) as [Hag Hh Hn Hfo Hid Hfl Hr Hq]. destruct op; cbn [store_step].
  - by apply register_wf.
  - by apply update_where_wf.
  - by apply update_where_wf.
  - unfold inbox_insert. destruct (existsb (same_note m) (inbox_messages st)) eqn:E; [done|]. rewrite existsb_false_iff in E.
    constructor; try done. apply NoDup_snoc_key; [done|]. intros y Hy Hk. apply E, not_true_iff_false in Hy. apply Hy. by apply same_note_true.
  - by apply follow_request_wf.
  - constructor; try done; cbn -[fmap]; rewrite fmap_keys_id; try done; intros x _; by case_match.
  - by apply filter_following_wf.
  - unfold unfollow. destruct (List.find _ _); [by apply filter_following_wf|done].
  - unfold add_follower. destruct (existsb _ _) eqn:E; [done|]. rewrite existsb_false_iff in E.
    constructor; try done. apply NoDup_snoc_key; [done|]. intros y Hy Hk. apply E, not_true_iff_false in Hy. apply Hy. by apply is_follower_true.
  - constructor; try done. by apply NoDup_filter_keys.
  - by apply add_request_wf.
  - constructor; try done; [by apply NoDup_filter_keys|]. intros b. by apply queue_filter.
Qed.

Lemma store_run_wf `{RowScan} ops st : wf_store st -> wf_store (store_run ops st).
Proof. revert st. induction ops as [|op ops IH]; intros st Hw; [done|]. apply IH. by apply store_step_wf. Qed.
Lemma store_run_app `{RowScan} ops1 ops2 st : store_run (ops1 ++ ops2) st = store_run ops2 (store_run ops1 st).
Proof. apply fold_left_app. Qed.

(** Calls other than a registration keep the actors. *)
Lemma actors_step `{RowScan} op st : match op with OpRegister _ => True | _ => aw_actor <$> actors (store_step st op) = aw_actor <$> actors st end.
Proof.
  destruct op; cbn [store_step]; try done.
  - cbn -[fmap]. apply fmap_keys_id. intros x _. by case_match.
  - cbn -[fmap]. apply fmap_keys_id. intros x _. by case_match.
  - unfold inbox_insert. by case_match.
  - unfold follow_request. repeat case_match; done.
  - unfold unfollow. by case_match.
  - unfold add_follower. by case_match.
Qed.

(** ** The life of a follow *)

(** The calls of [ops] that explain a row: its owner's request and, once it is accepted,
    after it the answer of the account it names. *)
Definition explained (ops : list StoreOp) (r : FollowingRow) : Prop :=
  let rec := fg_record r in
  exists now,
    (OpFollow (fg_actor_id r) (fr_target_actor_url rec) (fr_target_inbox_url rec) (fr_follow_activity_id rec) now
     :: match fr_state rec with
        | FollowPending => []
        | FollowAccepted => [OpAccepted (fr_follow_activity_id rec) (fr_target_actor_url rec) (fg_actor_id r)]
        end) `sublist_of` ops.

Lemma explained_more ops op r : explained ops r -> explained (ops ++ [op]) r.
Proof. intros [now Hs]. exists now. by apply sublist_inserts_r. Qed.

(** Where a row of [following] comes from. *)
Lemma following_step `{RowScan} op st r : r ∈ following (store_step st op) ->
  r ∈ following st
  \/ (exists now, op = OpFollow (fg_actor_id r) (fr_target_actor_url (fg_record r)) (fr_target_inbox_url (fg_record r))
                         (fr_follow_activity_id (fg_record r)) now /\ fr_state (fg_record r) = FollowPending)
  \/ (exists r0, r0 ∈ following st /\ fr_state (fg_record r0) = FollowPending /\ r = set_accepted r0 /\
        op = OpAccepted (fr_follow_activity_id (fg_record r0)) (fr_target_actor_url (fg_record r0)) (fg_actor_id r0)).
Proof.
  destruct op; cbn [store_step]; try (by left).
  - unfold register_actor. repeat case_match; by left.
  - unfold inbox_insert. case_match; by left.
  - unfold follow_request. destruct (List.find _ _) as [r0|]; cbn -[existsb]; [destruct (fr_state _); by left|].
    destruct (existsb _ _); [by left|]. cbn. intros [Hr|Hr]%elem_of_app; [by left|]. apply list_elem_of_singleton in Hr as ->.
    right. left. by exists now_ms.
  - cbn -[fmap]. intros Hr. apply list_elem_of_fmap in Hr as (r0 & -> & Hr). case_match eqn:Hp; [|by left].
    apply andb_true_iff in Hp as [[Hid Hst]%andb_true_iff Hk]. apply bool_decide_eq_true in Hid. apply is_follow_true in Hk as [= Ha Ht].
    right. right. exists r0. unfold is_pending in Hst. destruct (fr_state (fg_record r0)) eqn:E; [|done]. by subst.
  - cbn. intros Hr. apply elem_of_filter_b in Hr as [_ Hr]. by left.
  - unfold unfollow. destruct (List.find _ _); [|by left]. cbn. intros Hr. apply elem_of_filter_b in Hr as [_ Hr]. by left.
  - unfold add_follower. case_match; by left.
Qed.

Lemma explained_step `{RowScan} ops op st : (forall r, r ∈ following st -> explained ops r) ->
  forall r, r ∈ following (store_step st op) -> explained (ops ++ [op]) r.
Proof.
  intros Hall r [Hr|[(now & -> & Hst)|(r0 & Hr0 & Hst & -> & ->)]]%following_step.
  - by apply explained_more, Hall.
  - exists now. rewrite Hst. by apply sublist_inserts_l.
  - destruct (Hall r0 Hr0) as [now Hs]. exists now. rewrite Hst in Hs. cbn. by apply (sublist_app [_] ops [_] [_]).
Qed.
Lemma explained_run `{RowScan} ops r : r ∈ following (store_run ops empty_store) -> explained ops r.
Proof.
  revert r. induction ops as [|op ops IH] using rev_ind; intros r Hr; [by apply elem_of_nil in Hr|].
  rewrite store_run_app in Hr. cbn in Hr. by eapply explained_step.
Qed.

(** ** Reading the inbox page by page

    A reader asks for what is newer than the last row of the page before it. *)
Fixpoint read_pages (n : nat) (actor_id : string) (since_ms : Z) (st : Store) : list InboxMessage :=
  match n with
  | O => []
  | S n' =>
      let page := inbox_list actor_id since_ms 200 st in
      match last page with
      | None => []
      | Some m => page ++ read_pages n' actor_id (Z.of_N (im_created_ms m)) st
      end
  end.

(** Everything newer than the cursor, oldest first. *)
Definition inbox_after (actor_id : string) (since_ms : Z) (st : Store) : list InboxMessage :=
  order_by (ascending im_created_ms) (List.filter (newer_for actor_id since_ms) (inbox_messages st)).

Lemma filter_insert_by {A} key (p : A -> bool) x l : StronglySorted Z.le (key <$> l) ->
  List.filter p (insert_by key x l) = if p x then insert_by key x (List.filter p l) else List.filter p l.
Proof.
  induction l as [|y l IH]; intros Hs; [cbn; by destruct (p x)|]. rewrite fmap_cons in Hs. apply StronglySorted_inv in Hs as [Hs Hall].
  cbn [insert_by]. destruct (Z.leb_spec (key x) (key y)) as [Hle|Hgt].
  - cbn [List.filter]. destruct (p x) eqn:Ex; [|done]. destruct (p y) eqn:Ey; cbn [insert_by].
    + by rewrite (proj2 (Z.leb_le _ _)).
    + destruct (List.filter p l) as [|z l'] eqn:Ef; [done|]. cbn [insert_by].
      assert (z ∈ l) as Hz by (apply (elem_of_filter_b p); rewrite Ef; left).
      rewrite (proj2 (Z.leb_le _ _)); [done|].
      pose proof (proj1 (Forall_forall _ _) Hall (key z) (list_elem_of_fmap_2 key _ _ Hz)). lia.
  - cbn [List.filter]. rewrite IH by done. destruct (p y); [|done]. destruct (p x); [|done]. cbn [insert_by].
    by rewrite (proj2 (Z.leb_gt _ _)).
Qed.
Lemma filter_order_by {A} key (p : A -> bool) l : List.filter p (order_by key l) = order_by key (List.filter p l).
Proof.
  induction l as [|x l IH]; [done|]. change (order_by key (x :: l)) with (insert_by key x (order_by key l)).
  rewrite filter_insert_by by apply order_by_sorted. rewrite IH. cbn [List.filter]. by destruct (p x).
Qed.

Lemma inbox_after_later a since since' st : (since <= since')%Z ->
  inbox_after a since' st = List.filter (fun m => (since' <? Z.of_N (im_created_ms m))%Z) (inbox_after a since st).
Proof.
  intros Hle. unfold inbox_after. rewrite filter_order_by, filter_filter_b. f_equal. apply filter_ext_b. intros m _.
  unfold newer_for. destruct (bool_decide _); cbn; [|done]. destruct (Z.ltb_spec since' (Z.of_N (im_created_ms m))).
  - rewrite (proj2 (Z.ltb_lt since _)) by lia. done.
  - by rewrite andb_false_r.
Qed.
Lemma inbox_after_newer a since st m : m ∈ inbox_after a since st -> (since < Z.of_N (im_created_ms m))%Z.
Proof.
  unfold inbox_after. rewrite order_by_perm. intros [Hn _]%elem_of_filter_b. apply andb_true_iff in Hn as [_ Hn]. lia.
Qed.

(** In a list with increasing times, what is newer than a row is what follows it. *)
Lemma filter_after_sorted (l1 l2 : list InboxMessage) m :
  StronglySorted Z.le (ascending im_created_ms <$> (l1 ++ m :: l2)) -> NoDup (im_created_ms <$> (l1 ++ m :: l2)) ->
  List.filter (fun x => (Z.of_N (im_created_ms m) <? Z.of_N (im_created_ms x))%Z) (l1 ++ m :: l2) = l2.
Proof.
  induction l1 as [|x l1 IH]; cbn [app]; rewrite !fmap_cons; intros Hs Hd; apply StronglySorted_inv in Hs as [Hs Hall];
    apply NoDup_cons in Hd as [Hx Hd]; cbn [List.filter].
  - rewrite Z.ltb_irrefl. clear Hs. induction l2 as [|y l2 IH]; [done|]. csimpl in *.
    apply Forall_cons in Hall as [Hy Hall]. apply not_elem_of_cons in Hx as [Hne Hx]. apply NoDup_cons in Hd as [_ Hd].
    cbn [List.filter]. unfold ascending in Hy. rewrite (proj2 (Z.ltb_lt _ _)) by lia. by rewrite IH.
  - assert (m ∈ l1 ++ m :: l2) as Hm by (apply elem_of_app; right; left).
    pose proof (proj1 (Forall_forall _ _) Hall _ (list_elem_of_fmap_2 _ _ _ Hm)) as Hle. unfold ascending in Hle.
    rewrite (proj2 (Z.ltb_ge _ _)) by lia. by apply IH.
Qed.

Lemma read_pages_complete n a since st :
  NoDup (im_created_ms <$> inbox_after a since st) -> (length (inbox_after a since st) <= n)%nat ->
  read_pages n a since st = inbox_after a since st.
Proof.
  revert since. induction n as [|n IH]; intros since Hd Hn.
  { destruct (inbox_after a since st); [done|cbn in Hn; lia]. }
  cbn -[N.to_nat]. unfold inbox_list. fold (inbox_after a since st). set (rows := inbox_after a since st) in *.
  destruct (last (take (N.to_nat 200) rows)) as [m|] eqn:El.
  - apply last_Some in El as [l1 El]. assert (rows = l1 ++ m :: drop (N.to_nat 200) rows) as Hrows.
    { rewrite <- (take_drop (N.to_nat 200) rows) at 1. rewrite El, <- app_assoc. done. }
    assert (m ∈ rows) as Hm by (rewrite Hrows; apply elem_of_app; right; left). pose proof (inbox_after_newer _ _ _ _ Hm) as Hlt.
    assert (inbox_after a (Z.of_N (im_created_ms m)) st = drop (N.to_nat 200) rows) as Hnext.
    { rewrite (inbox_after_later a since) by lia. fold rows. rewrite Hrows at 1. apply filter_after_sorted; rewrite <- Hrows; [|done].
      apply order_by_sorted. }
    rewrite IH; rewrite Hnext.
    + apply take_drop.
    + eapply sublist_NoDup; [exact Hd|]. rewrite fmap_drop. apply sublist_drop.
    + rewrite length_drop. assert (0 < length rows)%nat by (rewrite Hrows, length_app; cbn; lia). lia.
  - apply last_None in El. destruct rows as [|x rows]; [done|]. by change (N.to_nat 200) with 200%nat in El.
Qed.

(** A message stored in the millisecond a reader's cursor stands at is never listed to it. *)
Lemma late_message_unlisted a since limit st m : (Z.of_N (im_created_ms m) <= since)%Z -> m ∉ inbox_list a since limit st.
Proof.
  intros Hle Hin. unfold inbox_list in Hin. apply elem_of_take in Hin as (i & Hin & _). apply list_elem_of_lookup_2 in Hin.
  apply (inbox_after_newer a since st) in Hin. lia.
Qed.

(** ** What the store promises *)

(** In any run, agent ids, handles, follow ids, and the pairs that identify follows, followers,
    queued requests and notes stay unique, and no actor's queue of follow requests exceeds 200. *)
Theorem store_tables_keyed `{RowScan} ops : wf_store (store_run ops empty_store).
Proof. apply store_run_wf, empty_store_wf. Qed.

(** When the messages of an actor were stored at different milliseconds, reading its inbox page by
    page, each from the time of the last row before it, gives every message newer than the first cursor once, oldest first. *)
Theorem inbox_pages_complete n a since st :
  NoDup (im_created_ms <$> List.filter (newer_for a since) (inbox_messages st)) -> (length (inbox_messages st) <= n)%nat ->
  let all := read_pages n a since st in
  all ≡ₚ List.filter (newer_for a since) (inbox_messages st) /\ StronglySorted Z.le (ascending im_created_ms <$> all).
Proof.
  intros Hd Hn all. assert (all = inbox_after a since st) as ->.
  - apply read_pages_complete.
    + unfold inbox_after. by rewrite order_by_perm.
    + unfold inbox_after. rewrite order_by_perm. pose proof (List.filter_length_le (newer_for a since) (inbox_messages st)). lia.
  - split; [apply order_by_perm|apply order_by_sorted].
Qed.

(** The last row of a list sorted by a key is the one whose key is above all others'. *)
Lemma sorted_max_last {A} key (l : list A) x n : StronglySorted Z.le (key <$> l) -> NoDup l -> x ∈ l ->
  (forall y, y ∈ l -> y <> x -> (key y < key x)%Z) -> (n < length l)%nat -> x ∉ take n l.
Proof.
  intros Hs Hd Hx Hmax Hn Hin. apply elem_of_take in Hin as (i & Hi & Hlt). destruct (lookup_lt_is_Some_2 l (S i)) as [y Hy]; [lia|].
  assert (y <> x) as Hne. { intros ->. pose proof (NoDup_lookup l i (S i) x Hd Hi Hy). lia. }
  pose proof (Hmax y (list_elem_of_lookup_2 _ _ _ Hy) Hne) as Hk.
  clear Hx Hmax Hd Hn Hlt. revert i Hi Hy. induction l as [|z l IH]; intros i Hi Hy; [done|].
  rewrite fmap_cons in Hs. apply StronglySorted_inv in Hs as [Hs Hall]. destruct i as [|i]; [|by eapply IH].
  cbn in Hi, Hy. injection Hi as ->. pose proof (proj1 (Forall_forall _ _) Hall _ (list_elem_of_fmap_2 key _ _ (list_elem_of_lookup_2 _ _ _ Hy))). lia.
Qed.

(** When an actor's queue is full, a follow request from any further account evicts the oldest one,
    whoever sent it. *)
Theorem flood_evicts_request `{RowScan} a f i fid now st g :
  wf_store st -> len (queue_of a st) = MAX_QUEUED_FOLLOW_REQUESTS -> g ∈ queue_of a st ->
  (forall r, r ∈ queue_of a st -> r <> g -> fq_received_ms (rq_record g) < fq_received_ms (rq_record r)) ->
  (forall r, r ∈ queue_of a st -> fq_follower_actor_url (rq_record r) <> f) ->
  fq_received_ms (rq_record g) < clamp_i64 now ->
  g ∉ queue_of a (add_follow_request a f i fid now st).
Proof.
  intros Hw Hlen Hg Hold Hnew Hnow Hin. rewrite queue_after_add in Hin by apply (ws_requests _ Hw). revert Hin. set (row := {| rq_actor_id := a |}).
  assert (List.filter (of_actor a) (upsert_request row (follow_requests st)) = queue_of a st ++ [row]) as Hrows.
  { unfold upsert_request. rewrite (proj2 (existsb_false_iff _ _)).
    - rewrite List.filter_app. cbn. unfold of_actor at 2. cbn. by rewrite bool_decide_eq_true_2.
    - intros r Hr. apply not_true_iff_false. intros Hk. apply andb_true_iff in Hk as [Ha Hf]. apply bool_decide_eq_true in Hf.
      apply (Hnew r); [|done]. by apply elem_of_filter_b. }
  assert (NoDup (queue_of a st ++ [row])) as Hd.
  { rewrite <- Hrows. apply (NoDup_fmap_1 request_key), NoDup_filter_keys, upsert_request_keys, (ws_requests _ Hw). }
  unfold newest_requests. apply (sorted_max_last (descending (fq_received_ms ∘ rq_record))).
  - apply order_by_sorted.
  - by rewrite order_by_perm, scan_perm, Hrows.
  - rewrite order_by_perm, scan_perm, Hrows. apply elem_of_app. by left.
  - intros y. rewrite order_by_perm, scan_perm, Hrows. intros [Hy|Hy]%elem_of_app Hne; unfold descending; cbn.
    + specialize (Hold y Hy Hne). lia.
    + apply list_elem_of_singleton in Hy as ->. cbn. lia.
  - rewrite order_by_perm, scan_perm, Hrows, length_app. unfold len, MAX_QUEUED_FOLLOW_REQUESTS in *. cbn. lia.
Qed.

(** *** Concrete stores *)

Definition note_at (id : string) (ms : N) : InboxMessage :=
  {| im_actor_id := "a"; im_sender_actor_url := "s"; im_note_id := id; im_text := "t"; im_published := ""; im_created_ms := ms |}.
Definition three_notes : Store := set_inbox [note_at "n1" 30; note_at "n2" 10; note_at "n3" 20] empty_store.
Lemma inbox_pages_complete_witness :
  NoDup (im_created_ms <$> List.filter (newer_for "a" 0) (inbox_messages three_notes)) /\
  StronglySorted Z.le (ascending im_created_ms <$> read_pages 3 "a" 0 three_notes).
Proof.
  assert (NoDup (im_created_ms <$> List.filter (newer_for "a" 0) (inbox_messages three_notes))) as Hd
    by by apply (bool_decide_unpack _); vm_compute.
  split; [done|]. apply (inbox_pages_complete 3 "a" 0 three_notes); [done|]. cbn. lia.
Defined.

(** Two messages of one millisecond: the second is stored after the reader's cursor reached it. *)
Example same_millisecond_lost :
  let st1 := store_run (H := insertion_scan) [OpInsert (note_at "n1" 10)] empty_store in
  let st2 := store_run (H := insertion_scan) [OpInsert (note_at "n2" 10)] st1 in
  read_pages 5 "a" 0 st1 = [note_at "n1" 10] /\ read_pages 5 "a" 10 st2 = [] /\ note_at "n2" 10 ∈ inbox_messages st2.
Proof. vm_compute. repeat split; try done. right. left. Qed.

Fixpoint numeral (n : nat) : string := match n with O => EmptyString | S n' => String (Ascii.ascii_of_N 105) (numeral n') end.
Definition request_at (n : nat) : FollowRequestRow :=
  {| rq_actor_id := "a"; rq_record := {| fq_follower_actor_url := numeral n; fq_follower_inbox_url := "i"; fq_follow_activity_id := "f";
                                         fq_received_ms := N.of_nat n |} |}.
Definition full_rows : list FollowRequestRow := request_at <$> seq 0 200.
Definition full_queue : Store := set_requests full_rows empty_store.
Lemma full_queue_elem r : r ∈ queue_of "a" full_queue <-> of_actor "a" r = true /\ r ∈ full_rows.
Proof. unfold queue_of, full_queue. cbn [follow_requests set_requests]. generalize full_rows. intros l. apply elem_of_filter_b. Qed.
Lemma full_rows_elem r : r ∈ full_rows <-> exists n, r = request_at n /\ (n < 200)%nat.
Proof.
  unfold full_rows. rewrite list_elem_of_fmap. setoid_rewrite elem_of_seq. split.
  - intros (n & Hr & Hn). exists n. split; [exact Hr|lia].
  - intros (n & Hr & Hn). exists n. split; [exact Hr|lia].
Qed.
Lemma full_queue_wf : wf_store full_queue.
Proof.
  constructor; try (by apply NoDup_nil_2).
  - apply (bool_decide_unpack _). by vm_compute.
  - intros a. unfold queue_of. etransitivity; [apply (filter_len_le _ (fun _ => true)); done|]. by vm_compute.
Qed.
Lemma full_queue_len : len (queue_of "a" full_queue) = MAX_QUEUED_FOLLOW_REQUESTS.
Proof. by vm_compute. Qed.
Lemma full_queue_first : request_at 0 ∈ queue_of "a" full_queue.
Proof. apply full_queue_elem. split; [reflexivity|]. apply full_rows_elem. exists O. split; [reflexivity|lia]. Qed.
Lemma full_queue_rows r : r ∈ queue_of "a" full_queue -> exists n, r = request_at n.
Proof. rewrite full_queue_elem, full_rows_elem. intros (_ & n & Hr & _). exists n. exact Hr. Qed.
Lemma full_queue_oldest r : r ∈ queue_of "a" full_queue -> r <> request_at 0 ->
  fq_received_ms (rq_record (request_at 0)) < fq_received_ms (rq_record r).
Proof. intros Hin Hne. destruct (full_queue_rows r Hin) as [[|n] ->]; clear Hin; [by destruct Hne|]. cbn. lia. Qed.
Definition spammer : string := "https://spam.example/u".
Lemma full_queue_other r : r ∈ queue_of "a" full_queue -> fq_follower_actor_url (rq_record r) <> spammer.
Proof. intros Hin. destruct (full_queue_rows r Hin) as [[|n] ->]; clear Hin; cbn; discriminate. Qed.
Lemma flood_evicts_request_witness :
  request_at 0 ∈ queue_of "a" full_queue /\
  request_at 0 ∉ queue_of "a" (add_follow_request (H := insertion_scan) "a" spammer "i" "f" 500 full_queue).
Proof.
  split; [exact full_queue_first|].
  refine (flood_evicts_request (H := insertion_scan) "a" spammer "i" "f" 500 full_queue (request_at 0) full_queue_wf full_queue_len
    full_queue_first full_queue_oldest full_queue_other _).
  reflexivity.
Defined.
