(* ===== verification/BridgeAuth.v ===== *)
(** * The bridge's routes for owners

    Models [crates/fetchit-bridge-server/src]: [auth.rs] with the canonical bytes of
    [crates/fetchit-fedi/src/bridge_auth.rs], registration and the public reads
    ([routes/actors.rs], [routes/webfinger.rs]), the follow graph ([routes/follow.rs]) and
    pictures ([routes/avatar.rs]).  A handler takes the request, the readings of the clock and
    the store, and gives a response and the store; rate limits and body limits are layers of
    the router and are not part of it.  A response has the headers its handler sets. *)
From Stdlib Require Import Ascii.
From stdpp Require Import pretty.
From S2P Require Import Prelude RelayProto RelayAuth PairRecord Session Trust ShareUri Text HtmlText HttpDate FediSig FediInbox ActorDoc BridgeStore.
Open Scope rust_scope.

(** ** Requests and responses *)

Inductive ResponseBody := Plain (s : string) | JsonDoc (v : Value) | RawBytes (b : bytes).
Record Response := { rs_status : N; rs_headers : list (string * string); rs_body : ResponseBody }.
Definition text (status : N) (s : string) : Response := {| rs_status := status; rs_headers := []; rs_body := Plain s |}.
Definition json_response (v : Value) : Response := {| rs_status := 200; rs_headers := []; rs_body := JsonDoc v |}.
Definition store_error : Response := text 500 "store error".

Record BridgeConfig := { bc_domain : string; bc_reserved_handles : gset string }.

(** JSON texts, and the bodies the handlers deserialize. *)
Class JsonText := { json_to_string : Value -> string; json_from_str : string -> option Value }.
Record FollowBody := { fb_target_actor_url : string; fb_target_inbox_url : string; fb_follow_activity_id : string }.
Record UnfollowBody := { ub_target_actor_url : string }.
Record ConfirmFollowerBody := {
  cb_follower_actor_url : string; cb_follower_inbox_url : string; cb_follow_activity_id : option string }.
Class BodyJson := {
  follow_body : bytes -> option FollowBody;
  unfollow_body : bytes -> option UnfollowBody;
  confirm_body : bytes -> option ConfirmFollowerBody }.

(** ** Signed requests *)

Definition MAX_SKEW_MS : N := 5 * 60 * 1000.
Definition BRIDGE_AUTH_DOMAIN : bytes := ascii_bytes "fetchit-bridge-auth-v1".

Definition ascii_upper (c : ascii) : ascii :=
  let n := N_of_ascii c in if (97 <=? n) && (n <=? 122) then ascii_of_N (n - 32) else c.
Fixpoint to_ascii_uppercase (s : string) : string :=
  match s with EmptyString => EmptyString | String c s' => String (ascii_upper c) (to_ascii_uppercase s') end.

Definition canonical_request `{Sha256} (method path : string) (ts_ms : N) (body : bytes) : bytes :=
  BRIDGE_AUTH_DOMAIN ++ [0] ++ ascii_bytes (to_ascii_uppercase method) ++ [0] ++ ascii_bytes path ++ [0]
  ++ u64_be ts_ms ++ sha256 body.

Inductive AuthError :=
| BadHeader (name : string)
| StaleTimestamp
| AgentMismatch
| BadSignature
| ActorUnusable (e : string).
Definition auth_error_text (e : AuthError) : string :=
  match e with
  | BadHeader h => "missing or malformed header " +:+ h
  | StaleTimestamp => "timestamp outside skew window"
  | AgentMismatch => "agent id does not own this handle"
  | BadSignature => "signature verification failed"
  | ActorUnusable e => "stored actor unusable: " +:+ e
  end.
Record AuthHeaders := { ah_agent_id_hex : string; ah_ts_ms : N; ah_sig : bytes }.

Definition auth_header (headers : HeaderMap) (name : string) : result string AuthError :=
  match header_value headers name with Some v => Ok v | None => Err (BadHeader name) end.
Definition parse_headers `{Base64} (headers : HeaderMap) : result AuthHeaders AuthError :=
  let? agent := auth_header headers "x-fetchit-agent" in
  let agent_id_hex := to_ascii_lowercase agent in
  if negb (str_len agent_id_hex =? 64) || negb (all_chars is_hexdigit agent_id_hex) then Err (BadHeader "x-fetchit-agent")
  else
    let? ts := auth_header headers "x-fetchit-ts" in
    match parse_unsigned u64_max ts with
    | None => Err (BadHeader "x-fetchit-ts")
    | Some ts_ms =>
        let? s := auth_header headers "x-fetchit-sig" in
        match b64_decode s with
        | None => Err (BadHeader "x-fetchit-sig")
        | Some sig => Ok {| ah_agent_id_hex := agent_id_hex; ah_ts_ms := ts_ms; ah_sig := sig |}
        end
    end.

Definition abs_diff (a b : N) : N := if a <? b then b - a else a - b.
Definition verify_request `{Sha256, MlDsaBackend} (hdrs : AuthHeaders) (expected_agent_id_hex : string) (ml_dsa_pubkey : bytes)
    (method path : string) (body : bytes) (now_ms : N) : result unit AuthError :=
  if negb (bool_decide (ah_agent_id_hex hdrs = to_ascii_lowercase expected_agent_id_hex)) then Err AgentMismatch
  else if MAX_SKEW_MS <? abs_diff now_ms (ah_ts_ms hdrs) then Err StaleTimestamp
  else match pk_from_bytes ml_dsa_pubkey with
       | Err e => Err (ActorUnusable ("attestation pubkey: " +:+ e))
       | Ok _ =>
           match sig_from_bytes (ah_sig hdrs) with
           | Err _ => Err BadSignature
           | Ok _ =>
               match mldsa_verify ml_dsa_pubkey (agent_sign_input (canonical_request method path (ah_ts_ms hdrs) body)) (ah_sig hdrs) with
               | Ok true => Ok tt
               | _ => Err BadSignature
               end
           end
       end.

Section bridge.
  Context `{AJ : AttestationJson, UP : UrlParse, UE : UrlEdit, BB : Base64, DT : DocText, SH : Sha256, ML : MlDsaBackend}.
  Context `{JT : JsonText, BJ : BodyJson, RS : RowScan}.
  Context (actor_error_text : ActorError -> string).

(** ** Registration *)

Definition handle_char (c : ascii) : bool := is_alphanumeric c || bool_decide (c = "_"%char) || bool_decide (c = "-"%char).
Definition is_valid_handle (handle : string) : bool :=
  negb (bool_decide (handle = EmptyString)) && (str_len handle <=? 64) && all_chars handle_char handle.

(** The actor's URL is [https://<domain>/actors/<handle>] at the default port. *)
Definition id_ok (cfg : BridgeConfig) (id : Url) (handle : string) : bool :=
  bool_decide (url_scheme id = "https"%string) && negb (is_some (url_port id))
  && match url_host_str id with
     | Some h => bool_decide (to_ascii_lowercase h = to_ascii_lowercase (bc_domain cfg))
     | None => false
     end
  && bool_decide (url_path id = "/actors/" +:+ handle).

Definition register (cfg : BridgeConfig) (body : Value) (now_ms : N) (st : Store) : Response * Store :=
  match from_json_ld body with
  | Err e => (text 400 ("malformed actor: " +:+ actor_error_text e), st)
  | Ok actor =>
      match verify_attestation actor with
      | Err e => (text 403 ("attestation rejected (not a fetch>it-native actor): " +:+ actor_error_text e), st)
      | Ok agent_id =>
          let handle := ac_preferred_username actor in
          if negb (is_valid_handle handle) then (text 400 "invalid handle", st)
          else if bool_decide (to_ascii_lowercase handle ∈ bc_reserved_handles cfg) then (text 403 "handle is reserved", st)
          else if negb (id_ok cfg (ac_id actor) handle)
          then (text 403 "actor id must be https://<domain>/actors/<handle> under this bridge", st)
          else
            let rec := {| ar_agent_id := agent_id; ar_handle := handle; ar_actor_url := url_to_string (ac_id actor);
                          ar_doc_json := json_to_string (to_json_ld actor); ar_registered_ms := now_ms |} in
            match register_actor rec st with
            | (RegisterCreated, st) => (text 201 "registered", st)
            | (RegisterUpdated, st) => (text 200 "updated", st)
            | (HandleTaken, st) => (text 409 "handle already registered", st)
            end
      end
  end.

Definition activity_json : list (string * string) := [("content-type", "application/activity+json")]%string.
Definition no_such_actor : Response := text 404 "no such actor".

Definition get_actor (handle : string) (st : Store) : Response :=
  match actor_by_handle handle st with
  | Some rec => {| rs_status := 200; rs_headers := activity_json; rs_body := Plain (ar_doc_json rec) |}
  | None => no_such_actor
  end.
Definition ordered_collection (id : string) (total : N) : Value :=
  VObject {[ "@context" := VString "https://www.w3.org/ns/activitystreams"; "id" := VString id;
             "type" := VString "OrderedCollection"; "totalItems" := Number (PosInt total); "orderedItems" := VArray [] ]}.
Definition followers_route (handle : string) (st : Store) : Response :=
  match actor_by_handle handle st with
  | Some rec =>
      {| rs_status := 200; rs_headers := activity_json;
         rs_body := Plain (json_to_string (ordered_collection (ar_actor_url rec +:+ "/followers")
                                             (len (followers_list (ar_agent_id rec) st)))) |}
  | None => no_such_actor
  end.
Definition empty_collection (handle name : string) (st : Store) : Response :=
  match actor_by_handle handle st with
  | Some rec =>
      {| rs_status := 200; rs_headers := activity_json;
         rs_body := Plain (json_to_string (ordered_collection (ar_actor_url rec +:+ "/" +:+ name) 0)) |}
  | None => no_such_actor
  end.
Definition outbox_route (handle : string) (st : Store) : Response := empty_collection handle "outbox" st.

Definition parse_acct (resource : string) : option (string * string) :=
  rest ← strip_prefix "acct:" resource;
  '(handle, domain) ← split_once "@" rest;
  if bool_decide (handle = EmptyString) || bool_decide (domain = EmptyString) then None else Some (handle, domain).
Definition webfinger (cfg : BridgeConfig) (resource : string) (st : Store) : Response :=
  match parse_acct resource with
  | None => text 400 "resource must be acct:<handle>@<domain>"
  | Some (handle, domain) =>
      if negb (bool_decide (to_ascii_lowercase domain = to_ascii_lowercase (bc_domain cfg))) then text 404 "unknown domain"
      else match actor_by_handle handle st with
           | Some rec =>
               let jrd := VObject {[ "subject" := VString ("acct:" +:+ handle +:+ "@" +:+ bc_domain cfg);
                                     "links" := VArray [VObject {[ "rel" := VString "self"; "type" := VString "application/activity+json";
                                                                   "href" := VString (ar_actor_url rec) ]}] ]} in
               {| rs_status := 200; rs_headers := [("content-type", "application/jrd+json")]%string;
                  rs_body := Plain (json_to_string jrd) |}
           | None => no_such_actor
           end
  end.

(** ** The owner's gate *)

Definition auth_key (actor : Actor) : bytes :=
  match ac_ml_dsa_attestation_v2 actor with
  | Some a => a2_ml_dsa_pubkey a
  | None => at_ml_dsa_pubkey (ac_ml_dsa_attestation actor)
  end.
Definition auth_failure (e : AuthError) : Response :=
  text (match e with BadHeader _ => 401 | _ => 403 end) ("auth: " +:+ auth_error_text e).
Definition unusable : Response := text 403 "actor record unusable".

Definition auth_actor (handle : string) (headers : HeaderMap) (method path : string) (body : bytes) (now_ms : N) (st : Store)
    : result ActorRecord Response :=
  match parse_headers headers with
  | Err e => Err (text 401 ("auth: " +:+ auth_error_text e))
  | Ok hdrs =>
      match actor_by_handle handle st with
      | None => Err (text 404 "unknown handle")
      | Some rec =>
          match json_from_str (ar_doc_json rec) with
          | None => Err unusable
          | Some doc =>
              match from_json_ld doc with
              | Err _ => Err unusable
              | Ok actor =>
                  match verify_request hdrs (ar_agent_id rec) (auth_key actor) method path body now_ms with
                  | Err e => Err (auth_failure e)
                  | Ok _ => Ok rec
                  end
              end
          end
      end
  end.

(** The gate of the message list: the same checks, other answers for a bad record. *)
Definition auth_owner (handle : string) (headers : HeaderMap) (method path : string) (body : bytes) (now_ms : N) (st : Store)
    : result ActorRecord Response :=
  match parse_headers headers with
  | Err e => Err (text 401 ("auth: " +:+ auth_error_text e))
  | Ok hdrs =>
      match actor_by_handle handle st with
      | None => Err no_such_actor
      | Some rec =>
          match json_from_str (ar_doc_json rec) with
          | None => Err (text 500 "corrupt doc")
          | Some doc =>
              match from_json_ld doc with
              | Err _ => Err (text 500 "corrupt doc")
              | Ok actor =>
                  match verify_request hdrs (ar_agent_id rec) (auth_key actor) method path body now_ms with
                  | Err e => Err (auth_failure e)
                  | Ok _ => Ok rec
                  end
              end
          end
      end
  end.

(** ** The follow graph *)

Definition url_invalid (s : string) : bool :=
  match url_parse s with
  | Some u => negb (bool_decide (url_scheme u = "https"%string)) || negb (is_some (url_host_str u))
  | None => true
  end.

(** Handlers read the clock for the gate and again for the store. *)
Definition record_follow (handle : string) (headers : HeaderMap) (body : bytes) (now now2 : N) (st : Store) : Response * Store :=
  match auth_actor handle headers "POST" ("/actors/" +:+ handle +:+ "/following") body now st with
  | Err r => (r, st)
  | Ok rec =>
      match follow_body body with
      | None => (text 400 "malformed body", st)
      | Some req =>
          if url_invalid (fb_target_actor_url req) || url_invalid (fb_target_inbox_url req)
          then (text 400 "target URLs must be https", st)
          else match follow_request (ar_agent_id rec) (fb_target_actor_url req) (fb_target_inbox_url req)
                       (fb_follow_activity_id req) now2 st with
               | (Ok FollowCreated, st) => (text 201 "pending", st)
               | (Ok AlreadyPending, st) => (text 200 "already pending", st)
               | (Ok AlreadyAccepted, st) => (text 200 "already accepted", st)
               | (Err _, st) => (store_error, st)
               end
      end
  end.

Definition unfollow_route (handle : string) (headers : HeaderMap) (body : bytes) (now : N) (st : Store) : Response * Store :=
  match auth_actor handle headers "POST" ("/actors/" +:+ handle +:+ "/unfollow") body now st with
  | Err r => (r, st)
  | Ok rec =>
      match unfollow_body body with
      | None => (text 400 "malformed body", st)
      | Some req =>
          match unfollow (ar_agent_id rec) (ub_target_actor_url req) st with
          | (Some _, st) => (text 200 "removed", st)
          | (None, st) => (text 404 "not following", st)
          end
      end
  end.

Definition items_json (items : list Value) : Response := json_response (VObject {["items" := VArray items]}).

Definition following_list_route (handle : string) (headers : HeaderMap) (now : N) (st : Store) : Response :=
  match auth_actor handle headers "GET" ("/actors/" +:+ handle +:+ "/following") [] now st with
  | Err r => r
  | Ok rec =>
      items_json ((fun f => VObject {[
        "target_actor_url" := VString (fr_target_actor_url f); "target_inbox_url" := VString (fr_target_inbox_url f);
        "state" := VString (match fr_state f with FollowPending => "pending" | FollowAccepted => "accepted" end);
        "follow_activity_id" := VString (fr_follow_activity_id f); "created_ms" := Number (PosInt (fr_created_ms f)) ]})
        <$> following_list (ar_agent_id rec) st)
  end.

Definition followers_list_route (handle : string) (headers : HeaderMap) (now : N) (st : Store) : Response :=
  match auth_actor handle headers "GET" ("/actors/" +:+ handle +:+ "/followers/list") [] now st with
  | Err r => r
  | Ok rec =>
      items_json ((fun url => VObject {["follower_actor_url" := VString url]}) <$> followers_list (ar_agent_id rec) st)
  end.

Definition follow_requests_route (handle : string) (headers : HeaderMap) (now : N) (st : Store) : Response :=
  match auth_actor handle headers "GET" ("/actors/" +:+ handle +:+ "/follow-requests") [] now st with
  | Err r => r
  | Ok rec =>
      items_json ((fun r => VObject {[
        "follower_actor_url" := VString (fq_follower_actor_url r); "follower_inbox_url" := VString (fq_follower_inbox_url r);
        "follow_activity_id" := VString (fq_follow_activity_id r); "received_ms" := Number (PosInt (fq_received_ms r)) ]})
        <$> follow_requests_list (ar_agent_id rec) st)
  end.

Definition confirm_follower (handle : string) (headers : HeaderMap) (body : bytes) (now now2 : N) (st : Store) : Response * Store :=
  match auth_actor handle headers "POST" ("/actors/" +:+ handle +:+ "/followers/confirm") body now st with
  | Err r => (r, st)
  | Ok rec =>
      match confirm_body body with
      | None => (text 400 "malformed body", st)
      | Some req =>
          if url_invalid (cb_follower_actor_url req) || url_invalid (cb_follower_inbox_url req)
          then (text 400 "follower URLs must be https", st)
          else
            let '(created, st) := add_follower (ar_agent_id rec) (cb_follower_actor_url req) (cb_follower_inbox_url req) now2 st in
            let '(_, st) := remove_follow_request (ar_agent_id rec) (cb_follower_actor_url req) (cb_follow_activity_id req) st in
            (if created then text 201 "recorded" else text 200 "already recorded", st)
      end
  end.

(** ** Pictures *)

Definition AVATAR_MAX_AGE_SECS : N := 300.
Definition get_avatar (handle : string) (st : Store) : Response :=
  match avatar_by_handle handle st with
  | Some a =>
      {| rs_status := 200;
         rs_headers := [("content-type"%string, av_content_type a); ("cache-control"%string, "public, max-age=" +:+ pretty AVATAR_MAX_AGE_SECS);
                        ("x-content-type-options", "nosniff")%string];
         rs_body := RawBytes (av_bytes a) |}
  | None => text 404 "no avatar"
  end.

Definition post_avatar (handle : string) (headers : HeaderMap) (body : bytes) (now : N) (st : Store) : Response * Store :=
  match auth_actor handle headers "POST" ("/actors/" +:+ handle +:+ "/avatar") body now st with
  | Err r => (r, st)
  | Ok rec =>
      let content_type := default EmptyString (normalize_content_type <$> header_value headers "content-type") in
      if negb (bool_decide (content_type ∈ UPLOADABLE_AVATAR_CONTENT_TYPES))
      then (text 415 "content-type must be image/jpeg, image/png, or image/webp", st)
      else if bool_decide (body = []) then (text 400 "empty body", st)
      else if negb (magic_matches_content_type content_type body)
      then (text 415 "body does not match the declared image type", st)
      else match set_avatar (ar_agent_id rec) body content_type st with
           | (true, st) => (text 200 "avatar set", st)
           | (false, st) => (text 404 "unknown handle", st)
           end
  end.

Definition delete_avatar (handle : string) (headers : HeaderMap) (now : N) (st : Store) : Response * Store :=
  match auth_actor handle headers "DELETE" ("/actors/" +:+ handle +:+ "/avatar") [] now st with
  | Err r => (r, st)
  | Ok rec =>
      let '(cleared, st) := clear_avatar (ar_agent_id rec) st in
      (text 200 (if cleared then "avatar cleared" else "no avatar"), st)
  end.
End bridge.

(** ** What a signed request covers *)

(** Two fields that end at their first zero byte. *)
Lemma split_zero (l l' r r' : bytes) : 0 ∉ l -> 0 ∉ l' -> l ++ 0 :: r = l' ++ 0 :: r' -> l = l' /\ r = r'.
Proof.
  revert l'. induction l as [|x l IH]; intros [|y l'] Hl Hl' Heq; cbn in Heq.
  - by injection Heq.
  - injection Heq as <- _. destruct Hl'. left.
  - injection Heq as -> _. destruct Hl. left.
  - injection Heq as <- Heq. apply not_elem_of_cons in Hl as [_ Hl]. apply not_elem_of_cons in Hl' as [_ Hl'].
    destruct (IH l' Hl Hl' Heq) as [-> ->]. done.
Qed.

(** The bytes an owner signs determine the method, the path, the time and the hash of the body, for
    methods and paths without zero bytes. *)
Theorem canonical_request_binds `{Sha256} m p t b m' p' t' b' :
  0 ∉ ascii_bytes (to_ascii_uppercase m) -> 0 ∉ ascii_bytes (to_ascii_uppercase m') -> 0 ∉ ascii_bytes p -> 0 ∉ ascii_bytes p' ->
  t <= u64_max -> t' <= u64_max ->
  canonical_request m p t b = canonical_request m' p' t' b' ->
  to_ascii_uppercase m = to_ascii_uppercase m' /\ p = p' /\ t = t' /\ sha256 b = sha256 b'.
Proof.
  intros Hm Hm' Hp Hp' Ht Ht' Heq. unfold canonical_request in Heq. apply app_inj_1 in Heq as [_ Heq]; [|done]. cbn [app] in Heq.
  injection Heq as Heq. apply split_zero in Heq as [H1 Heq]; [|done..]. apply split_zero in Heq as [H2 Heq]; [|done..].
  apply u64_be_split in Heq as [-> ->]; [|done..]. apply ascii_bytes_inj in H1, H2. done.
Qed.

(** ** Registered actors *)

Lemma registered_found rec st : wf_store st -> (register_actor rec st).1 <> HandleTaken ->
  actor_by_handle (ar_handle rec) (register_actor rec st).2 = Some rec.
Proof.
  intros Hw Hout. pose proof (register_wf rec st Hw) as Hw'. revert Hw' Hout. unfold register_actor. cbv zeta.
  destruct (match List.find (holds_handle (ar_handle rec)) (actors st) with
            | Some other => negb (is_agent (ar_agent_id rec) other) | None => false end); [done|].
  destruct (existsb (fun r => holds_handle (ar_handle rec) r && negb (is_agent (ar_agent_id rec) r)) (actors st)); [done|].
  assert (forall l r, NoDup (ar_handle ∘ aw_actor <$> l) -> r ∈ l -> aw_actor r = rec ->
            aw_actor <$> List.find (holds_handle (ar_handle rec)) l = Some rec) as Hfind.
  { intros l r Hl Hr Hrec. rewrite (find_key (ar_handle ∘ aw_actor) _ l r); [by rewrite <- Hrec|done| |done|].
    - intros y z Hy%bool_decide_eq_true Hz%bool_decide_eq_true. cbn. congruence.
    - unfold holds_handle. rewrite Hrec. by apply bool_decide_eq_true. }
  destruct (existsb (is_agent (ar_agent_id rec)) (actors st)) eqn:Eup; intros Hw' _; unfold actor_by_handle; cbn [snd actors set_actors].
  - apply existsb_exists in Eup as (r & Hr & Ha). apply (Hfind _ (update_actor rec r)); [apply (ws_handles _ Hw')| |].
    + apply (list_elem_of_fmap_2 (update_actor rec)). by apply list_elem_of_In.
    + unfold update_actor. by rewrite Ha.
  - eapply (Hfind _ {| aw_actor := rec; aw_avatar := None; aw_avatar_ct := None |}); [apply (ws_handles _ Hw')| |done].
    apply elem_of_app. right. left.
Qed.

(** Which actors the rows of a store after a registration hold. *)
Lemma register_actors rec st r : r ∈ aw_actor <$> actors (register_actor rec st).2 ->
  r ∈ aw_actor <$> actors st \/ (r = rec /\ (register_actor rec st).1 <> HandleTaken).
Proof.
  unfold register_actor. cbv zeta.
  destruct (match List.find (holds_handle (ar_handle rec)) (actors st) with
            | Some other => negb (is_agent (ar_agent_id rec) other) | None => false end); [auto|].
  destruct (existsb (fun r => holds_handle (ar_handle rec) r && negb (is_agent (ar_agent_id rec) r)) (actors st)); [auto|].
  destruct (existsb (is_agent (ar_agent_id rec)) (actors st)); cbn -[fmap].
  - intros Hr. apply list_elem_of_fmap in Hr as (w & -> & Hw). apply list_elem_of_fmap in Hw as (w0 & -> & Hw0).
    unfold update_actor. case_match; [by right|left]. by apply list_elem_of_fmap_2.
  - rewrite fmap_app. intros [Hr|Hr]%elem_of_app; [by left|]. apply list_elem_of_singleton in Hr as ->. by right.
Qed.

(** The laws a stored document relies on: a rendered document's text parses to it. *)
Class BridgeLaws `{DLL : DocLaws, JsonText} := {
  json_reparse : forall a, decoded a -> json_from_str (json_to_string (to_json_ld a)) = Some (to_json_ld a) }.

Section registered.
  Context `{AJ : AttestationJson, UP : UrlParse, UE : UrlEdit, BB : Base64, DT : DocText, SH : Sha256, ML : MlDsaBackend, DL : !DocLaws}.
  Context `{JT : JsonText, BJ : BodyJson, RS : RowScan, BL : !BridgeLaws}.

(** What the bridge knows of a row: it was made from an actor whose first attestation verified, for a handle
    of its own domain. *)
Record attested (cfg : BridgeConfig) (rec : ActorRecord) (a : Actor) : Prop := {
  ar_decoded : decoded a;
  ar_doc : ar_doc_json rec = json_to_string (to_json_ld a);
  ar_agent : verify_attestation a = Ok (ar_agent_id rec);
  ar_name : ar_handle rec = ac_preferred_username a;
  ar_url : ar_actor_url rec = url_to_string (ac_id a);
  ar_valid : is_valid_handle (ar_handle rec) = true;
  ar_free : to_ascii_lowercase (ar_handle rec) ∉ bc_reserved_handles cfg;
  ar_id_ok : id_ok cfg (ac_id a) (ar_handle rec) = true }.
Definition all_attested (cfg : BridgeConfig) (st : Store) : Prop :=
  forall rec, rec ∈ aw_actor <$> actors st -> exists a, attested cfg rec a.

Lemma register_attested actor_error_text cfg body now st :
  all_attested cfg st -> all_attested cfg (register actor_error_text cfg body now st).2.
Proof.
  intros Hst. unfold register. destruct (from_json_ld body) as [a|] eqn:Ha; [|done].
  destruct (verify_attestation a) as [agent|] eqn:Hv; [|done]. destruct (is_valid_handle _) eqn:Hh; [|done]. cbn [negb].
  case_bool_decide as Hfree; [done|]. destruct (id_ok _ _ _) eqn:Hid; [|done]. cbn [negb]. set (rec := {| ar_agent_id := agent |}).
  assert (attested cfg rec a) as Hrec by (constructor; try done; by eapply from_json_ld_decoded).
  assert (all_attested cfg (register_actor rec st).2) as Hall.
  { intros r Hr. apply register_actors in Hr as [Hr|[-> _]]; [by apply Hst|]. by exists a. }
  destruct (register_actor rec st) as [[] st']; exact Hall.
Qed.

(** What a stored document reads back as. *)
Lemma attested_reads cfg rec a : attested cfg rec a ->
  exists doc, json_from_str (ar_doc_json rec) = Some doc /\ from_json_ld doc = Ok (settled a).
Proof. intros [Hd Hdoc _ _ _ _ _ _]. exists (to_json_ld a). rewrite Hdoc, json_reparse by done. split; [done|]. by apply to_json_ld_reads. Qed.
Lemma settled_key a : auth_key (settled a) = auth_key a.
Proof. done. Qed.

Lemma actor_by_handle_row handle st rec : actor_by_handle handle st = Some rec ->
  rec ∈ aw_actor <$> actors st /\ ar_handle rec = handle.
Proof.
  unfold actor_by_handle. destruct (List.find _ _) as [r|] eqn:E; [|done]. intros [= <-]. apply List.find_some in E as [Hr Hh].
  split; [by apply (list_elem_of_fmap_2 aw_actor), list_elem_of_In|]. by apply bool_decide_eq_true in Hh.
Qed.

Lemma verify_request_ok hdrs agent pk m p b now : verify_request hdrs agent pk m p b now = Ok tt <->
  ah_agent_id_hex hdrs = to_ascii_lowercase agent /\ abs_diff now (ah_ts_ms hdrs) <= MAX_SKEW_MS /\
  pk_from_bytes pk = Ok tt /\ sig_from_bytes (ah_sig hdrs) = Ok tt /\
  mldsa_verify pk (agent_sign_input (canonical_request m p (ah_ts_ms hdrs) b)) (ah_sig hdrs) = Ok true.
Proof.
  unfold verify_request. case_bool_decide as Ha; cbn [negb]; [|naive_solver].
  destruct (N.ltb_spec MAX_SKEW_MS (abs_diff now (ah_ts_ms hdrs))) as [Hs|Hs]; [split; [done|intros (_ & ? & _); lia]|].
  destruct (pk_from_bytes pk) as [[]|]; [|naive_solver]. destruct (sig_from_bytes _) as [[]|]; [|naive_solver].
  destruct (mldsa_verify _ _ _) as [[]|]; naive_solver.
Qed.

(** Both gates pass exactly on a fresh request signed under the key of the stored document. *)
Lemma auth_actor_ok cfg handle headers m p b now st rec a :
  actor_by_handle handle st = Some rec -> attested cfg rec a ->
  auth_actor handle headers m p b now st = Ok rec <->
  exists hdrs, parse_headers headers = Ok hdrs /\ verify_request hdrs (ar_agent_id rec) (auth_key a) m p b now = Ok tt.
Proof.
  intros Hrec Hatt. destruct (attested_reads cfg rec a Hatt) as (doc & Hdoc & Hread). unfold auth_actor.
  destruct (parse_headers headers) as [hdrs|] eqn:Hp; [|naive_solver]. rewrite Hrec, Hdoc, Hread, settled_key.
  destruct (verify_request _ _ _ _ _ _ _) as [[]|] eqn:Hv; [naive_solver|]. split; [done|].
  intros (h & [= <-] & Hv'). congruence.
Qed.
Lemma auth_owner_ok cfg handle headers m p b now st rec a :
  actor_by_handle handle st = Some rec -> attested cfg rec a ->
  auth_owner handle headers m p b now st = Ok rec <->
  exists hdrs, parse_headers headers = Ok hdrs /\ verify_request hdrs (ar_agent_id rec) (auth_key a) m p b now = Ok tt.
Proof.
  intros Hrec Hatt. destruct (attested_reads cfg rec a Hatt) as (doc & Hdoc & Hread). unfold auth_owner.
  destruct (parse_headers headers) as [hdrs|] eqn:Hp; [|naive_solver]. rewrite Hrec, Hdoc, Hread, settled_key.
  destruct (verify_request _ _ _ _ _ _ _) as [[]|] eqn:Hv; [naive_solver|]. split; [done|].
  intros (h & [= <-] & Hv'). congruence.
Qed.
Lemma auth_actor_row handle headers m p b now st rec : auth_actor handle headers m p b now st = Ok rec ->
  actor_by_handle handle st = Some rec.
Proof. unfold auth_actor. repeat case_match; naive_solver. Qed.
Lemma auth_owner_row handle headers m p b now st rec : auth_owner handle headers m p b now st = Ok rec ->
  actor_by_handle handle st = Some rec.
Proof. unfold auth_owner. repeat case_match; naive_solver. Qed.

Lemma attested_id a id : verify_attestation a = Ok id ->
  id = hex_encode (derive_agent_id (at_ml_dsa_pubkey (ac_ml_dsa_attestation a))).
Proof.
  unfold verify_attestation. destruct (pem_der _) as [der|]; [|done]. destruct (verify_binding _ _ _ _) as [i|] eqn:Hv; [|done].
  intros [= <-]. by apply verify_binding_ok in Hv as [-> _].
Qed.

(** C31: A request passes the owner's gate only for the row of its handle, with a signature over this
    request, made within five minutes, under the key the stored document shows; and while that document has no
    second attestation, or one that verifies to the row's agent, that key hashes to the row's agent id. *)
Theorem owner_requests_signed cfg handle headers m p b now st rec :
  all_attested cfg st -> auth_actor handle headers m p b now st = Ok rec ->
  exists hdrs a, actor_by_handle handle st = Some rec /\ attested cfg rec a /\ parse_headers headers = Ok hdrs /\
    ah_agent_id_hex hdrs = to_ascii_lowercase (ar_agent_id rec) /\ abs_diff now (ah_ts_ms hdrs) <= MAX_SKEW_MS /\
    mldsa_verify (auth_key a) (agent_sign_input (canonical_request m p (ah_ts_ms hdrs) b)) (ah_sig hdrs) = Ok true /\
    (ac_ml_dsa_attestation_v2 a = None \/ verify_attestation_v2 a = Ok (ar_agent_id rec) ->
     hex_encode (derive_agent_id (auth_key a)) = ar_agent_id rec).
Proof.
  intros Hall Hauth. pose proof (auth_actor_row _ _ _ _ _ _ _ _ Hauth) as Hrec.
  destruct (actor_by_handle_row _ _ _ Hrec) as [Hrow _]. destruct (Hall rec Hrow) as [a Ha].
  apply (auth_actor_ok cfg handle headers m p b now st rec a Hrec Ha) in Hauth as (hdrs & Hp & Hv).
  apply verify_request_ok in Hv as (H1 & H2 & _ & _ & H3). exists hdrs, a. do 6 (split; [done|]).
  unfold auth_key. intros [->|Hv2].
  - by rewrite <- (attested_id a _ (ar_agent _ _ _ Ha)).
  - unfold verify_attestation_v2 in Hv2. destruct (ac_ml_dsa_attestation_v2 a) as [t|]; [|done].
    destruct (pem_der _) as [der|]; [|done]. destruct (verify_binding_v2 _ _ _ _) as [i|] eqn:Hb; [|done].
    injection Hv2 as ->. by apply verify_binding_v2_ok in Hb as (_ & -> & _).
Qed.

(** ** A second attestation nobody checks *)

(** A document with its second attestation replaced. *)
Definition graft (att2 : ActorAttestationV2) (doc : Value) : Value :=
  match doc with VObject m => VObject (<[PQ_ATTESTATION_V2_PROPERTY_URI := att2_to_value att2]> m) | _ => doc end.
Definition with_attestation_v2 (a : Actor) (att2 : ActorAttestationV2) : Actor :=
  {| ac_id := ac_id a; ac_preferred_username := ac_preferred_username a; ac_inbox := ac_inbox a; ac_outbox := ac_outbox a;
     ac_rsa_public_key_pem := ac_rsa_public_key_pem a; ac_ml_dsa_attestation := ac_ml_dsa_attestation a;
     ac_ml_dsa_attestation_v2 := Some att2; ac_icon_url := ac_icon_url a; ac_icon_media_type := ac_icon_media_type a |}.

Lemma graft_get att2 doc name : name <> PQ_ATTESTATION_V2_PROPERTY_URI -> value_get name (graft att2 doc) = value_get name doc.
Proof. intros Hne. destruct doc; try done. cbn. by rewrite lookup_insert_ne by done. Qed.
Lemma graft_reads att2 doc a : att2_from_value (att2_to_value att2) = Ok att2 ->
  from_json_ld doc = Ok a -> from_json_ld (graft att2 doc) = Ok (with_attestation_v2 a att2).
Proof.
  intros Hatt Ha. unfold from_json_ld, required_str, check_type, get_str, icon_url_from_actor_doc, icon_media_type_from_actor_doc in *.
  rewrite !graft_get by done. destruct doc as [| | | | |m]; try done.
  assert (optional_v2 (graft att2 (VObject m)) = Ok (Some att2)) as ->.
  { unfold optional_v2, graft. cbn [value_get]. by rewrite lookup_insert_eq, Hatt. }
  repeat match goal with
  | H : match ?x with Ok _ => _ | Err _ => _ end = Ok _ |- _ => destruct x; [|done]
  | H : match ?x with Some _ => _ | None => _ end = Ok _ |- _ => destruct x; [|done]
  end.
  by injection Ha as <-.
Qed.

(** Anyone who posts the public document of a registered actor with a second attestation holding a
    key of their own is answered 200, and from then on the owner's gate takes exactly the requests signed with that
    key: the attestation's signature is never checked. *)
Theorem grafted_key_takes_over actor_error_text cfg st doc a rec att2 now :
  wf_store st -> from_json_ld doc = Ok a -> attested cfg rec a -> actor_by_handle (ar_handle rec) st = Some rec ->
  att2_from_value (att2_to_value att2) = Ok att2 ->
  exists st', register actor_error_text cfg (graft att2 doc) now st = (text 200 "updated", st') /\
    forall headers hdrs m p b t, parse_headers headers = Ok hdrs ->
      is_ok (auth_actor (ar_handle rec) headers m p b t st') = true <->
      verify_request hdrs (ar_agent_id rec) (a2_ml_dsa_pubkey att2) m p b t = Ok tt.
Proof.
  intros Hw Ha Hatt Hrec Hatt2. destruct (actor_by_handle_row _ _ _ Hrec) as [Hrow _].
  set (a' := with_attestation_v2 a att2). set (rec' := {| ar_agent_id := ar_agent_id rec; ar_handle := ar_handle rec;
    ar_actor_url := ar_actor_url rec; ar_doc_json := json_to_string (to_json_ld a'); ar_registered_ms := now |}).
  pose proof (graft_reads att2 doc a Hatt2 Ha) as Ha'.
  assert (attested cfg rec' a') as Hatt'.
  { destruct Hatt. constructor; try done. by eapply from_json_ld_decoded. }
  assert ((register_actor rec' st).1 = RegisterUpdated) as Hup.
  { unfold register_actor. cbv zeta. change (ar_handle rec') with (ar_handle rec). change (ar_agent_id rec') with (ar_agent_id rec).
    unfold actor_by_handle in Hrec. destruct (List.find (holds_handle (ar_handle rec)) (actors st)) as [r|] eqn:Hf; [|done].
    injection Hrec as Hr. assert (is_agent (ar_agent_id rec) r = true) as Hag by (apply bool_decide_eq_true; by rewrite Hr).
    rewrite Hag. cbn [negb]. apply List.find_some in Hf as Hf'. destruct Hf' as [Hin Hh]. rewrite (proj2 (existsb_false_iff _ _)).
    - replace (existsb (is_agent (ar_agent_id rec)) (actors st)) with true; [done|]. symmetry. apply existsb_exists. by exists r.
    - intros x Hx. apply not_true_iff_false. intros [Hxh Hxa]%andb_true_iff.
      rewrite (find_key (ar_handle ∘ aw_actor) _ _ x (ws_handles _ Hw)) in Hf; [|intros y z Hy%bool_decide_eq_true Hz%bool_decide_eq_true; cbn; congruence|done..].
      injection Hf as ->. by rewrite Hag in Hxa. }
  exists (register_actor rec' st).2. split.
  - unfold register. rewrite Ha'. fold a'. assert (verify_attestation a' = Ok (ar_agent_id rec)) as -> by exact (ar_agent _ _ _ Hatt).
    pose proof (ar_name _ _ _ Hatt) as Hname. change (ac_preferred_username a') with (ac_preferred_username a). change (ac_id a') with (ac_id a). rewrite <- Hname.
    rewrite (ar_valid _ _ _ Hatt). cbn [negb]. rewrite bool_decide_eq_false_2 by apply (ar_free _ _ _ Hatt).
    rewrite (ar_id_ok _ _ _ Hatt). cbn [negb]. rewrite <- (ar_url _ _ _ Hatt). fold rec'.
    destruct (register_actor rec' st) as [o st']. cbn in Hup. by subst o.
  - intros headers hdrs m p b t Hp. assert (actor_by_handle (ar_handle rec) (register_actor rec' st).2 = Some rec') as Hfound.
    { apply (registered_found rec' st Hw). by rewrite Hup. }
    pose proof (auth_actor_ok cfg (ar_handle rec) headers m p b t _ rec' a' Hfound Hatt') as Hiff.
    destruct (auth_actor (ar_handle rec) headers m p b t (register_actor rec' st).2) as [r|r] eqn:Hr; cbn [is_ok].
    + apply auth_actor_row in Hr as Hr2. rewrite Hfound in Hr2. injection Hr2 as <-. split; [intros _|done].
      destruct (proj1 Hiff eq_refl) as (h & Hh & Hv). rewrite Hp in Hh. injection Hh as <-. exact Hv.
    + split; [done|]. intros Hv. assert (Err (A := ActorRecord) r = Ok rec') as Habs by (apply Hiff; eauto). done.
Qed.
End registered.

(** ** Concrete packages and a run *)

#[local] Existing Instances ad_url_parse ad_url_edit ad_att_json ad_text demo_base64.

(** A hash that pads, and signatures that carry the key and the message. *)
Definition ba_sha : Sha256 := fun b => take 32 (b ++ replicate 32 0).
Definition ba_mldsa : MlDsaBackend :=
  {| pk_from_bytes _ := Ok tt; sig_from_bytes _ := Ok tt; mldsa_verify pk m s := Ok (bool_decide (s = pk ++ m)) |}.
#[local] Existing Instances ba_sha ba_mldsa.

(** Texts of documents: the actor they render, as digits. *)
Definition url_code (u : Url) :=
  (url_scheme u, url_host_str u, url_port u, url_username u, url_password u, url_path u, url_query u, url_fragment u).
Definition actor_code (a : Actor) :=
  (url_code (ac_id a), ac_preferred_username a, url_code (ac_inbox a), url_code (ac_outbox a), ac_rsa_public_key_pem a,
   (at_ml_dsa_pubkey (ac_ml_dsa_attestation a), at_signature (ac_ml_dsa_attestation a)),
   (fun t => (a2_version t, a2_profile_addr t, a2_relay_hint t, a2_hint_epoch_ms t, a2_ml_dsa_pubkey t, a2_signature t))
     <$> ac_ml_dsa_attestation_v2 a, ac_icon_url a, ac_icon_media_type a).
Definition url_uncode c : Url :=
  let '(s, h, p, n, w, t, q, f) := c in Build_Url s h p n w t q f.
Definition actor_uncode c : Actor :=
  let '(i, n, ib, ob, pem, (k, s), v2, icon, media) := c in
  {| ac_id := url_uncode i; ac_preferred_username := n; ac_inbox := url_uncode ib; ac_outbox := url_uncode ob;
     ac_rsa_public_key_pem := pem; ac_ml_dsa_attestation := {| at_ml_dsa_pubkey := k; at_signature := s |};
     ac_ml_dsa_attestation_v2 := (fun t => let '(v, p, r, e, k, s) := t in
       {| a2_version := v; a2_profile_addr := p; a2_relay_hint := r; a2_hint_epoch_ms := e; a2_ml_dsa_pubkey := k; a2_signature := s |}) <$> v2;
     ac_icon_url := icon; ac_icon_media_type := media |}.
Lemma actor_uncode_code a : actor_uncode (actor_code a) = a.
Proof. destruct a as [[] n [] [] pem [] [[]|] icon media]; done. Qed.
Definition ba_json : JsonText :=
  {| json_to_string v := match from_json_ld v with Ok a => bits_of_pos (encode (actor_code a)) | Err _ => EmptyString end;
     json_from_str s := p ← pos_of_bits s; c ← decode p; Some (to_json_ld (actor_uncode c)) |}.
#[local] Existing Instances ba_json.
Lemma settled_renders a : to_json_ld (settled a) = to_json_ld a.
Proof. unfold to_json_ld. cbn. by destruct (ac_icon_url a). Qed.
Definition ba_laws : BridgeLaws (DLL := ad_laws).
Proof.
  split. intros a Ha. unfold json_from_str, json_to_string, ba_json. rewrite to_json_ld_reads by done. rewrite pos_of_bits_of_pos.
  cbn [mbind option_bind]. rewrite decode_encode. cbn [mbind option_bind]. by rewrite actor_uncode_code, settled_renders.
Qed.

Definition owner_key : bytes := [1].
Definition thief_key : bytes := [2].
Definition owner_id : string := hex_encode (derive_agent_id owner_key).
Definition owner_der : bytes := [7].
Definition owner_input : bytes :=
  match signing_input "josh" (ad_url "etchit.io" "actors/josh") owner_id owner_der with Ok b => b | Err _ => [] end.
Definition owner_actor : Actor :=
  {| ac_id := ad_url "etchit.io" "actors/josh"; ac_preferred_username := "josh"; ac_inbox := ad_url "etchit.io" "actors/josh/inbox";
     ac_outbox := ad_url "etchit.io" "actors/josh/outbox"; ac_rsa_public_key_pem := spki_der_to_pem owner_der;
     ac_ml_dsa_attestation := {| at_ml_dsa_pubkey := owner_key; at_signature := owner_key ++ agent_sign_input owner_input |};
     ac_ml_dsa_attestation_v2 := None; ac_icon_url := None; ac_icon_media_type := None |}.
Definition demo_config : BridgeConfig := {| bc_domain := "etchit.io"; bc_reserved_handles := {["admin"%string]} |}.
Definition owner_record : ActorRecord :=
  {| ar_agent_id := owner_id; ar_handle := "josh"; ar_actor_url := "https://etchit.io/actors/josh";
     ar_doc_json := json_to_string (to_json_ld owner_actor); ar_registered_ms := 5 |}.
Definition owner_store : Store := set_actors [{| aw_actor := owner_record; aw_avatar := None; aw_avatar_ct := None |}] empty_store.
(** Made with the thief's key, over nothing. *)
Definition thief_attestation : ActorAttestationV2 :=
  {| a2_version := 2; a2_profile_addr := ""; a2_relay_hint := ""; a2_hint_epoch_ms := 0; a2_ml_dsa_pubkey := thief_key; a2_signature := [] |}.
Definition demo_errors (e : ActorError) : string := EmptyString.

Lemma owner_document_reads : from_json_ld (to_json_ld owner_actor) = Ok owner_actor.
Proof. by vm_compute. Qed.
Lemma owner_attested : attested demo_config owner_record owner_actor.
Proof.
  constructor.
  - eapply (from_json_ld_decoded (DL := ad_laws)). exact owner_document_reads.
  - reflexivity.
  - change (ar_agent_id owner_record) with owner_id. by vm_compute.
  - reflexivity.
  - change (ar_actor_url owner_record) with "https://etchit.io/actors/josh"%string. by vm_compute.
  - change (ar_handle owner_record) with "josh"%string. by vm_compute.
  - change (ar_handle owner_record) with "josh"%string. apply (bool_decide_unpack _). by vm_compute.
  - change (ar_handle owner_record) with "josh"%string. by vm_compute.
Qed.
Lemma owner_store_wf : wf_store owner_store.
Proof. constructor; intros; try apply NoDup_nil_2; try apply NoDup_singleton; done. Qed.

Definition signed_headers (key : bytes) (agent method path : string) (ts : N) (body : bytes) : HeaderMap := fun name =>
  if bool_decide (name = "x-fetchit-agent"%string) then Some agent
  else if bool_decide (name = "x-fetchit-ts"%string) then Some (pretty ts)
  else if bool_decide (name = "x-fetchit-sig"%string)
  then Some (b64_encode (key ++ agent_sign_input (canonical_request method path ts body))) else None.
Definition signed_auth (key : bytes) (agent method path : string) (ts : N) (body : bytes) : AuthHeaders :=
  {| ah_agent_id_hex := agent; ah_ts_ms := ts; ah_sig := key ++ agent_sign_input (canonical_request method path ts body) |}.
Definition thief_headers : HeaderMap := signed_headers thief_key owner_id "POST" "/actors/josh/unfollow" 1000 [].
Lemma thief_headers_parse : parse_headers thief_headers = Ok (signed_auth thief_key owner_id "POST" "/actors/josh/unfollow" 1000 []).
Proof. by vm_compute. Qed.
Lemma thief_signature :
  verify_request (signed_auth thief_key owner_id "POST" "/actors/josh/unfollow" 1000 []) (ar_agent_id owner_record) thief_key "POST" "/actors/josh/unfollow" [] 2000 = Ok tt.
Proof. change (ar_agent_id owner_record) with owner_id. by vm_compute. Qed.

Lemma grafted_key_takes_over_witness :
  exists st', register demo_errors demo_config (graft thief_attestation (to_json_ld owner_actor)) 9 owner_store = (text 200 "updated", st') /\
    is_ok (auth_actor "josh" thief_headers "POST" "/actors/josh/unfollow" [] 2000 st') = true.
Proof.
  destruct (grafted_key_takes_over (DL := ad_laws) (BL := ba_laws) demo_errors demo_config owner_store (to_json_ld owner_actor) owner_actor
    owner_record thief_attestation 9 owner_store_wf owner_document_reads owner_attested eq_refl (ad_att2_reparse _)) as (st' & Hr & Hall).
  exists st'. split; [exact Hr|]. apply (Hall thief_headers _ "POST" "/actors/josh/unfollow" [] 2000 thief_headers_parse)%string. exact thief_signature.
Defined.

Definition owner_headers : HeaderMap := signed_headers owner_key owner_id "POST" "/actors/josh/unfollow" 1000 [].
Lemma owner_passes : auth_actor "josh" owner_headers "POST" "/actors/josh/unfollow" [] 2000 owner_store = Ok owner_record.
Proof.
  apply (auth_actor_ok (DL := ad_laws) (BL := ba_laws) demo_config "josh" owner_headers _ _ _ _ owner_store owner_record owner_actor eq_refl owner_attested).
  exists (signed_auth owner_key owner_id "POST" "/actors/josh/unfollow" 1000 []).
  change (ar_agent_id owner_record) with owner_id. split; by vm_compute.
Qed.
Lemma owner_all_attested : all_attested demo_config owner_store.
Proof. intros r Hr. apply list_elem_of_singleton in Hr as ->. exists owner_actor. exact owner_attested. Qed.
Lemma owner_requests_signed_witness :
  exists hdrs a, parse_headers owner_headers = Ok hdrs /\ abs_diff 2000 (ah_ts_ms hdrs) <= MAX_SKEW_MS /\ attested demo_config owner_record a.
Proof.
  destruct (owner_requests_signed (DL := ad_laws) (BL := ba_laws) demo_config "josh" owner_headers "POST" "/actors/josh/unfollow" [] 2000 owner_store
    owner_record owner_all_attested owner_passes) as (hdrs & a & _ & Ha & Hp & _ & Ht & _).
  exists hdrs, a. auto.
Defined.

Lemma canonical_request_binds_witness :
  canonical_request "post" "/a" 1 [9] = canonical_request "POST" "/a" 1 [9] /\ sha256 [9] = sha256 [9].
Proof.
  assert (canonical_request "post" "/a" 1 [9] = canonical_request "POST" "/a" 1 [9]) as He by by vm_compute.
  split; [exact He|]. apply (canonical_request_binds "post" "/a" 1 [9] "POST" "/a" 1 [9]); try exact He;
    first [ by apply (bool_decide_unpack _); vm_compute | by vm_compute ].
Defined.
