(* ===== verification/BridgeInbox.v ===== *)
(** * The bridge's inbox

    Models [crates/fetchit-bridge-server/src/routes/inbox.rs] (deliveries from other servers and the
    owner's message list) and [routes/signature_meta.rs] (which key a request names, and what a
    rejection logs).  The answers of other servers, the clock, RSA and JSON are arguments or
    parameters; a panic of a handler is a reply of its own, and leaves the store as it was. *)
From Stdlib Require Import Ascii.
From stdpp Require Import pretty.
From S2P Require Import Prelude RelayProto RelayAuth PairRecord Session Trust ShareUri Text HtmlText HttpDate FediSig FediInbox ActorDoc BridgeStore BridgeAuth.
Open Scope rust_scope.

(** ** The key a request names *)

Section signature_meta.
  Context `{ST : SigText}.

Record PresentedSignature := {
  ps_format : string; ps_label : string; ps_key_id : string; ps_algorithm : string; ps_declared : list string }.

Definition trim_matches (c : ascii) (s : string) : string := trim_end_matches c (trim_start_matches c s).

(** The parts between commas and semicolons that are not inside quotes. *)
Fixpoint split_params (in_quotes : bool) (s : string) : string * list string :=
  match s with
  | EmptyString => (EmptyString, [])
  | String c s' =>
      if bool_decide (c = ascii_of_N 34) then let '(h, t) := split_params (negb in_quotes) s' in (String c h, t)
      else
        let '(h, t) := split_params in_quotes s' in
        if (bool_decide (c = ","%char) || bool_decide (c = ";"%char)) && negb in_quotes then (EmptyString, h :: t) else (String c h, t)
  end.
Definition push_param (chunk : string) : list (string * string) :=
  match split_once "=" (trim chunk) with
  | Some (k, v) =>
      let key := trim k in
      if bool_decide (key = EmptyString) then [] else [(key, trim_matches (ascii_of_N 34) (trim v))]
  | None => []
  end.
Definition parse_quoted_params (value : string) : list (string * string) :=
  let '(h, t) := split_params false value in (h :: t) ≫= push_param.
Definition param (params : list (string * string)) (key : string) : string :=
  match List.find (fun kv => bool_decide (kv.1 = key)) params with Some kv => kv.2 | None => EmptyString end.

Definition component_name (c : string) : string := to_lowercase (trim_matches (ascii_of_N 34) (split ";" c).1).
Definition parse_signature_input (value : string) : string * list string * list (string * string) :=
  let value := trim value in
  let '(label, rest) := match split_once "=" value with Some (l, r) => (trim l, r) | None => (EmptyString, value) end in
  match split_once "(" rest with
  | None => (label, [], parse_quoted_params rest)
  | Some (_, after) =>
      match split_once ")" after with
      | None => (label, [], parse_quoted_params rest)
      | Some (inside, tail) => (label, component_name <$> split_whitespace inside, parse_quoted_params tail)
      end
  end.

Definition parse_presented (headers : HeaderMap) : PresentedSignature :=
  match header_value headers "signature-input" with
  | Some sig_input =>
      let '(label, declared, params) := parse_signature_input sig_input in
      {| ps_format := "rfc9421"; ps_label := label; ps_key_id := param params "keyid"; ps_algorithm := param params "alg"; ps_declared := declared |}
  | None =>
      match header_value headers "signature" with
      | Some sig =>
          let params := parse_quoted_params sig in
          {| ps_format := "cavage"; ps_label := EmptyString; ps_key_id := param params "keyId"; ps_algorithm := param params "algorithm";
             ps_declared := to_lowercase <$> split_whitespace (param params "headers") |}
      | None => {| ps_format := "none"; ps_label := EmptyString; ps_key_id := EmptyString; ps_algorithm := EmptyString; ps_declared := [] |}
      end
  end.
Definition presented_key_id (headers : HeaderMap) : string := ps_key_id (parse_presented headers).
Definition key_id_owner (key_id : string) : string := match split_once "#" key_id with Some (base, _) => base | None => key_id end.

(** What a rejection logs. *)
Record SignatureDiagnostics := {
  sd_format : string; sd_label : string; sd_key_id : string; sd_key_id_owner_matches_actor : string; sd_algorithm : string;
  sd_signed_headers : string; sd_signed_header_presence : string; sd_host_candidates : string; sd_request_path : string }.
Definition log_host_candidates (headers : HeaderMap) (public_host : string) : string :=
  match header_value headers "host" with
  | Some h => if bool_decide (h = public_host) then public_host else public_host +:+ "," +:+ h
  | None => public_host
  end.
Definition owner_verdict (key_id activity_actor : string) : string :=
  if bool_decide (key_id = EmptyString) then "unknown"
  else if bool_decide (key_id_owner key_id = activity_actor) then "yes" else "no".
Definition presence_of (headers : HeaderMap) (name : string) : string :=
  if starts_with "@" name || bool_decide (name = "(request-target)"%string) then "derived"
  else if bool_decide (name = "(created)"%string) || bool_decide (name = "(expires)"%string) then "unsupported"
  else if is_some (header_value headers name) then "present" else "absent".
Fixpoint join_spaces (l : list string) : string :=
  match l with [] => EmptyString | [s] => s | s :: l' => s +:+ " " +:+ join_spaces l' end.
Definition presence_map (headers : HeaderMap) (declared : list string) : string :=
  join_spaces ((fun name => name +:+ "=" +:+ presence_of headers name) <$> declared).
Definition collect_diagnostics (headers : HeaderMap) (handle public_host activity_actor : string) : SignatureDiagnostics :=
  let presented := parse_presented headers in
  {| sd_format := ps_format presented; sd_label := ps_label presented; sd_key_id := ps_key_id presented;
     sd_key_id_owner_matches_actor := owner_verdict (ps_key_id presented) activity_actor; sd_algorithm := ps_algorithm presented;
     sd_signed_headers := join_spaces (ps_declared presented);
     sd_signed_header_presence := presence_map headers (ps_declared presented);
     sd_host_candidates := log_host_candidates headers public_host; sd_request_path := "/actors/" +:+ handle +:+ "/inbox" |}.
End signature_meta.

(** ** Verifying a delivery *)

Definition MAX_INBOX_BODY : N := 128 * 1024.
Definition MAX_DATE_SKEW_SECS : Z := 12 * 60 * 60.

(** The first of [now_ms], [i64::try_from(...).unwrap_or(i64::MAX)]. *)
Definition bridge_check_date_skew (date : string) (now_ms : N) : SkewCheck :=
  match parse_imf_fixdate date with
  | DateNone => SkewStale
  | DatePanic => SkewPanic
  | DateSecs secs =>
      if i64_max <? secs then SkewStale
      else if (MAX_DATE_SKEW_SECS <? Z.abs (Z.of_N (clamp_i64 now_ms / 1000) - Z.of_N secs))%Z then SkewStale else SkewOk
  end.

Inductive SignatureCheck := SigOk | SigRejected (reason : string) | SigPanicked.

Definition dedup_two (a b : string) : list string := if bool_decide (a = b) then [a] else [a; b].

Inductive Provenance := SelfDelivered | Forwarded | NeedsActorResolution.
Definition classify_provenance (signer_id claimed_actor : Url) : Provenance :=
  if bool_decide (signer_id = claimed_actor) then SelfDelivered
  else if is_some (url_host_str signer_id) && bool_decide (url_host_str signer_id = url_host_str claimed_actor) then NeedsActorResolution
  else Forwarded.

Definition PUBLIC_ALIASES : list string := ["https://www.w3.org/ns/activitystreams#Public"; "as:Public"; "Public"]%string.
Definition audience_uris (field : option Value) : list string :=
  match field with
  | Some (VString s) => [s]
  | Some (VArray arr) => arr ≫= fun v => option_list (as_str v)
  | _ => []
  end.
Definition ends_with (p s : string) : bool := is_some (strip_suffix p s).
Definition is_direct_to (note : Value) (our_actor_url : string) : bool :=
  let audience := audience_uris (value_get "to" note) ++ audience_uris (value_get "cc" note) in
  if existsb (fun u => bool_decide (u ∈ PUBLIC_ALIASES)) audience then false
  else if existsb (ends_with "/followers") audience then false
  else bool_decide (our_actor_url ∈ audience).

Definition gone_delete_shortcut (e : FetchActorError) (activity : Value) : bool :=
  match e with
  | FetchHttp status _ => ((status =? 404) || (status =? 410)) && bool_decide (get_str "type" activity = Some "Delete"%string)
  | _ => false
  end.

Inductive Reply := Replied (r : Response) | HandlerPanicked.

(** [object.id], or [object] itself. *)
Definition object_id (activity : Value) : option string :=
  o ← value_get "object" activity; or_else (get_str "id" o) (as_str o).

Class JsonSlice := json_from_slice : bytes -> option Value.

(** What a delivery finds outside: the answer to each of its requests in turn, and the clock's readings. *)
Record DeliveryEnv := {
  de_get : nat -> Url -> result Value FetchActorError;
  de_date_now : N;
  de_store_now : N }.

Section inbox.
  Context `{AJ : AttestationJson, UP : UrlParse, UE : UrlEdit, BB : Base64, DT : DocText, SH : Sha256, ML : MlDsaBackend}.
  Context `{JT : JsonText, JS : JsonSlice, RS : RowScan, RA : Rsa, ST : SigText}.

Definition verify_rfc9421_hosts (pubkey : RsaPublicKey) (scheme request_path date content_digest sig_input signature : string) (body : bytes)
    (candidates : list string) : bool :=
  existsb (fun candidate => is_ok (verify_signature_rfc9421 pubkey (scheme +:+ "://" +:+ candidate +:+ request_path) candidate date
                                     content_digest sig_input signature body)) candidates.

Definition verify_inbound_signature (headers : HeaderMap) (handle pubkey_pem : string) (body : bytes) (public_host : string) (now_ms : N)
    : SignatureCheck :=
  match header_value headers "date" with
  | None => SigRejected "missing date"
  | Some date =>
      match bridge_check_date_skew date now_ms with
      | SkewPanic => SigPanicked
      | SkewStale => SigRejected "stale date"
      | SkewOk =>
          match header_value headers "host" with
          | None => SigRejected "missing host"
          | Some host =>
              let request_path := "/actors/" +:+ handle +:+ "/inbox" in
              match parse_rsa_public_key_pem pubkey_pem with
              | None => SigRejected "bad sender key"
              | Some pubkey =>
                  match header_value headers "signature-input" with
                  | Some sig_input =>
                      match header_value headers "signature" with
                      | None => SigRejected "missing signature"
                      | Some signature =>
                          match header_value headers "content-digest" with
                          | None => SigRejected "missing content-digest"
                          | Some content_digest =>
                              if negb (bool_decide (compute_content_digest body = content_digest)) then SigRejected "digest mismatch"
                              else
                                let scheme := default "https"%string (header_value headers "x-forwarded-proto") in
                                if verify_rfc9421_hosts pubkey scheme request_path date content_digest sig_input signature body
                                     (dedup_two public_host host)
                                then SigOk else SigRejected "signature invalid"
                          end
                      end
                  | None =>
                      match header_value headers "signature" with
                      | None => SigRejected "missing signature"
                      | Some signature =>
                          match header_value headers "digest" with
                          | None => SigRejected "missing digest"
                          | Some digest =>
                              if negb (bool_decide (compute_digest_cavage body = digest)) then SigRejected "digest mismatch"
                              else match parse_cavage_signature_header signature with
                                   | Err _ => SigRejected "malformed signature"
                                   | Ok parsed =>
                                       if negb (bool_decide (cp_algorithm parsed = EmptyString))
                                          && negb (bool_decide (cp_algorithm parsed = "rsa-sha256"%string))
                                       then SigRejected "unsupported algorithm"
                                       else match verify_signature_cavage_declared pubkey "post" request_path [public_host; host]
                                                    (header_value headers) signature with
                                            | Ok _ => SigOk
                                            | Err (MissingSignedHeader _) => SigRejected "signed header missing from request"
                                            | Err _ => SigRejected "signature invalid"
                                            end
                                   end
                          end
                      end
                  end
              end
          end
      end
  end.

Definition is_forwarded (env : DeliveryEnv) (signer : RemoteActor) (claimed_actor_url : Url) : bool :=
  match classify_provenance (ra_id signer) claimed_actor_url with
  | SelfDelivered => false
  | Forwarded => true
  | NeedsActorResolution =>
      match fetch_remote_actor (de_get env 2) (de_get env 3) claimed_actor_url with
      | Ok resolved => negb (bool_decide (ra_id resolved = ra_id signer))
      | Err _ => true
      end
  end.

(** ** What a delivery changes *)

(** [None] when reducing the note's text panics. *)
Definition handle_create (rec : ActorRecord) (sender_actor_url : string) (activity : Value) (now_ms : N) (st : Store) : option Store :=
  match value_get "object" activity with
  | None => Some st
  | Some note =>
      if negb (bool_decide (get_str "type" note = Some "Note"%string)) then Some st
      else if negb (is_direct_to note (ar_actor_url rec)) then Some st
      else match html_to_text (default EmptyString (get_str "content" note)) with
           | None => None
           | Some text =>
               if bool_decide (text = EmptyString) then Some st
               else
                 let note_id := default EmptyString (get_str "id" note) in
                 if bool_decide (note_id = EmptyString) then Some st
                 else Some (inbox_insert {| im_actor_id := ar_agent_id rec; im_sender_actor_url := sender_actor_url; im_note_id := note_id;
                                            im_text := text; im_published := default EmptyString (get_str "published" note);
                                            im_created_ms := clamp_i64 now_ms |} st).2
           end
  end.
Definition handle_accept (rec : ActorRecord) (sender_id : string) (activity : Value) (st : Store) : Store :=
  match object_id activity with Some fid => (follow_accepted fid sender_id (ar_agent_id rec) st).2 | None => st end.
Definition handle_reject (sender_id : string) (activity : Value) (st : Store) : Store :=
  match object_id activity with Some fid => (follow_rejected fid sender_id st).2 | None => st end.
Definition handle_follow (rec : ActorRecord) (sender : RemoteActor) (activity : Value) (now_ms : N) (st : Store) : Store :=
  if negb (bool_decide (object_id activity = Some (ar_actor_url rec))) then st
  else match get_str "id" activity with
       | None => st
       | Some follow_id =>
           add_follow_request (ar_agent_id rec) (url_to_string (ra_id sender)) (url_to_string (ra_inbox sender)) follow_id (clamp_i64 now_ms) st
       end.
Definition handle_undo (rec : ActorRecord) (sender_id : string) (activity : Value) (st : Store) : Store :=
  match value_get "object" activity with
  | None => st
  | Some object =>
      if bool_decide (get_str "type" object = Some "Follow"%string) && bool_decide (get_str "actor" object = Some sender_id)
         && bool_decide (get_str "object" object = Some (ar_actor_url rec))
      then (remove_follower (ar_agent_id rec) sender_id (remove_follow_request (ar_agent_id rec) sender_id None st).2).2
      else st
  end.

Definition accepted : Reply := Replied (text 202 "accepted").

(** A verified, self-delivered activity. *)
Definition dispatch_activity (env : DeliveryEnv) (rec : ActorRecord) (signer : RemoteActor) (activity : Value) (st : Store) : Reply * Store :=
  let sender_id := url_to_string (ra_id signer) in
  match get_str "type" activity with
  | Some t =>
      if bool_decide (t = "Create"%string)
      then match handle_create rec sender_id activity (de_store_now env) st with Some st' => (accepted, st') | None => (HandlerPanicked, st) end
      else if bool_decide (t = "Accept"%string) then (accepted, handle_accept rec sender_id activity st)
      else if bool_decide (t = "Reject"%string) then (accepted, handle_reject sender_id activity st)
      else if bool_decide (t = "Follow"%string) then (accepted, handle_follow rec signer activity (de_store_now env) st)
      else if bool_decide (t = "Undo"%string) then (accepted, handle_undo rec sender_id activity st)
      else (Replied (text 202 "ignored"), st)
  | None => (Replied (text 202 "ignored"), st)
  end.

(** The gates of [post_inbox], in order: who the delivery is for, who signed it, and that it is the signer's own. *)
Definition screen_delivery (cfg : BridgeConfig) (denylist : option (EntryKind -> string -> bool)) (env : DeliveryEnv) (handle : string)
    (headers : HeaderMap) (body : bytes) (st : Store) : result (ActorRecord * RemoteActor * Value) Reply :=
  if MAX_INBOX_BODY <? len body then Err (Replied (text 413 "activity too large"))
  else match actor_by_handle handle st with
  | None => Err (Replied no_such_actor)
  | Some rec =>
  match json_from_slice body with
  | None => Err (Replied (text 400 "malformed activity"))
  | Some activity =>
  match get_str "actor" activity with
  | None => Err (Replied (text 400 "activity has no actor"))
  | Some claimed_actor =>
  match url_parse claimed_actor with
  | None => Err (Replied (text 400 "actor is not a url"))
  | Some claimed_actor_url =>
  let key_id := presented_key_id headers in
  match url_parse (key_id_owner key_id) with
  | None => Err (Replied (text 401 (if bool_decide (key_id = EmptyString) then "missing keyId" else "keyId is not a url")))
  | Some signer_url =>
  match fetch_remote_actor (de_get env 0) (de_get env 1) signer_url with
  | Err e =>
      if gone_delete_shortcut e activity then Err (Replied (text 202 "ignored"))
      else Err (Replied (text 502 "could not fetch sender"))
  | Ok signer =>
  match ra_rsa_public_key_pem signer with
  | None => Err (Replied (text 401 "sender has no key"))
  | Some pubkey_pem =>
  match verify_inbound_signature headers handle pubkey_pem body (bc_domain cfg) (de_date_now env) with
  | SigPanicked => Err HandlerPanicked
  | SigRejected reason => Err (Replied (text 401 reason))
  | SigOk =>
      if bridge_is_blocked_actor denylist (url_to_string (ra_id signer)) then Err (Replied (text 403 "denylisted"))
      else if is_forwarded env signer claimed_actor_url then Err (Replied (text 202 "ignored (forwarded)"))
      else Ok (rec, signer, activity)
  end end end end end end end end.

Definition post_inbox (cfg : BridgeConfig) (denylist : option (EntryKind -> string -> bool)) (env : DeliveryEnv) (handle : string)
    (headers : HeaderMap) (body : bytes) (st : Store) : Reply * Store :=
  match screen_delivery cfg denylist env handle headers body st with
  | Err reply => (reply, st)
  | Ok (rec, signer, activity) => dispatch_activity env rec signer activity st
  end.

(** ** The owner's message list *)

Definition get_messages (handle : string) (since_ms : Z) (headers : HeaderMap) (now : N) (st : Store) : Response :=
  match auth_owner handle headers "GET" ("/actors/" +:+ handle +:+ "/messages") [] now st with
  | Err r => r
  | Ok rec =>
      items_json ((fun m => VObject {[
        "sender_actor_url" := VString (im_sender_actor_url m); "note_id" := VString (im_note_id m); "text" := VString (im_text m);
        "published" := VString (im_published m); "created_ms" := Number (PosInt (im_created_ms m)) ]})
        <$> inbox_list (ar_agent_id rec) since_ms 200 st)
  end.

(** ** What a delivery may change *)

(** The calls on the store a verified delivery makes: a message from its signer, or follow rows between its recipient and
    its signer. *)
Inductive delivered (rec : ActorRecord) (signer : RemoteActor) (activity : Value) (now : N) : list StoreOp -> Prop :=
| DeliveredNothing : delivered rec signer activity now []
| DeliveredMessage note text :
    get_str "type" activity = Some "Create"%string -> value_get "object" activity = Some note ->
    is_direct_to note (ar_actor_url rec) = true -> html_to_text (default EmptyString (get_str "content" note)) = Some text ->
    delivered rec signer activity now
      [OpInsert {| im_actor_id := ar_agent_id rec; im_sender_actor_url := url_to_string (ra_id signer);
                   im_note_id := default EmptyString (get_str "id" note); im_text := text;
                   im_published := default EmptyString (get_str "published" note); im_created_ms := clamp_i64 now |}]
| DeliveredAccept fid :
    get_str "type" activity = Some "Accept"%string -> object_id activity = Some fid ->
    delivered rec signer activity now [OpAccepted fid (url_to_string (ra_id signer)) (ar_agent_id rec)]
| DeliveredReject fid :
    get_str "type" activity = Some "Reject"%string -> object_id activity = Some fid ->
    delivered rec signer activity now [OpRejected fid (url_to_string (ra_id signer))]
| DeliveredFollow fid :
    get_str "type" activity = Some "Follow"%string -> object_id activity = Some (ar_actor_url rec) -> get_str "id" activity = Some fid ->
    delivered rec signer activity now
      [OpAddRequest (ar_agent_id rec) (url_to_string (ra_id signer)) (url_to_string (ra_inbox signer)) fid (clamp_i64 now)]
| DeliveredUndo :
    get_str "type" activity = Some "Undo"%string ->
    delivered rec signer activity now
      [OpRemoveRequest (ar_agent_id rec) (url_to_string (ra_id signer)) None; OpRemoveFollower (ar_agent_id rec) (url_to_string (ra_id signer))].

(** What the gates of a delivery established. *)
Record screened (cfg : BridgeConfig) (denylist : option (EntryKind -> string -> bool)) (env : DeliveryEnv) (handle : string) (headers : HeaderMap)
    (body : bytes) (st : Store) (rec : ActorRecord) (signer : RemoteActor) (activity : Value) : Prop := {
  sc_size : len body <= MAX_INBOX_BODY;
  sc_recipient : actor_by_handle handle st = Some rec;
  sc_activity : json_from_slice body = Some activity;
  sc_key : exists signer_url, url_parse (key_id_owner (presented_key_id headers)) = Some signer_url /\
             fetch_remote_actor (de_get env 0) (de_get env 1) signer_url = Ok signer;
  sc_signed : exists pem, ra_rsa_public_key_pem signer = Some pem /\
                verify_inbound_signature headers handle pem body (bc_domain cfg) (de_date_now env) = SigOk;
  sc_allowed : bridge_is_blocked_actor denylist (url_to_string (ra_id signer)) = false;
  sc_own : exists claimed claimed_url, get_str "actor" activity = Some claimed /\ url_parse claimed = Some claimed_url /\
             (ra_id signer = claimed_url \/
              exists resolved, fetch_remote_actor (de_get env 2) (de_get env 3) claimed_url = Ok resolved /\ ra_id resolved = ra_id signer) }.

Lemma not_forwarded env signer claimed : is_forwarded env signer claimed = false ->
  ra_id signer = claimed \/ exists resolved, fetch_remote_actor (de_get env 2) (de_get env 3) claimed = Ok resolved /\ ra_id resolved = ra_id signer.
Proof.
  unfold is_forwarded, classify_provenance. case_bool_decide; [auto|]. destruct (_ && _); [|done].
  destruct (fetch_remote_actor _ _ _) as [r|]; [|done]. case_bool_decide; [|done]. intros _. right. eauto.
Qed.
Lemma screen_ok cfg denylist env handle headers body st rec signer activity :
  screen_delivery cfg denylist env handle headers body st = Ok (rec, signer, activity) ->
  screened cfg denylist env handle headers body st rec signer activity.
Proof.
  unfold screen_delivery. destruct (N.ltb_spec MAX_INBOX_BODY (len body)) as [|Hsize]; [done|].
  destruct (actor_by_handle handle st) as [r|] eqn:Hr; [|done]. destruct (json_from_slice body) as [v|] eqn:Hv; [|done].
  destruct (get_str "actor" v) as [c|] eqn:Hc; [|done]. destruct (url_parse c) as [cu|] eqn:Hcu; [|done].
  destruct (url_parse (key_id_owner _)) as [su|] eqn:Hsu; [|done].
  destruct (fetch_remote_actor (de_get env 0) (de_get env 1) su) as [s|e] eqn:Hs; [|by destruct (gone_delete_shortcut e v)].
  destruct (ra_rsa_public_key_pem s) as [pem|] eqn:Hpem; [|done].
  destruct (verify_inbound_signature _ _ _ _ _ _) eqn:Hsig; [|done..]. destruct (bridge_is_blocked_actor _ _) eqn:Hb; [done|].
  destruct (is_forwarded env s cu) eqn:Hf; [done|]. intros [= -> -> ->]. apply not_forwarded in Hf. constructor; eauto 10.
Qed.

Lemma dispatch_delivered env rec signer activity st :
  exists ops, delivered rec signer activity (de_store_now env) ops /\ (dispatch_activity env rec signer activity st).2 = store_run ops st.
Proof.
  unfold dispatch_activity. destruct (get_str "type" activity) as [t|] eqn:Ht; [|exists []; split; [constructor|done]].
  assert (forall r : Reply, exists ops, delivered rec signer activity (de_store_now env) ops /\ (r, st).2 = store_run ops st) as Hno
    by (intros r; exists []; split; [constructor|done]).
  case_bool_decide; [|case_bool_decide; [|case_bool_decide; [|case_bool_decide; [|case_bool_decide; [|apply Hno]]]]]; subst t.
  - unfold handle_create. destruct (value_get "object" activity) as [note|] eqn:Hn; [|apply Hno].
    case_bool_decide; cbn [negb]; [|apply Hno]. destruct (is_direct_to note (ar_actor_url rec)) eqn:Hd; [|apply Hno]. cbn [negb].
    destruct (html_to_text _) as [txt|] eqn:Htxt; [|apply Hno]. case_bool_decide; [apply Hno|]. case_bool_decide; [apply Hno|].
    eexists. split; [by apply (DeliveredMessage _ _ _ _ note txt)|]. done.
  - unfold handle_accept. destruct (object_id activity) as [fid|] eqn:Hf; [|apply Hno]. eexists. split; [by apply (DeliveredAccept _ _ _ _ fid)|done].
  - unfold handle_reject. destruct (object_id activity) as [fid|] eqn:Hf; [|apply Hno]. eexists. split; [by apply (DeliveredReject _ _ _ _ fid)|done].
  - unfold handle_follow. case_bool_decide as Ho; cbn [negb]; [|apply Hno]. destruct (get_str "id" activity) as [fid|] eqn:Hf; [|apply Hno].
    eexists. split; [by apply (DeliveredFollow _ _ _ _ fid)|done].
  - unfold handle_undo. destruct (value_get "object" activity) as [o|]; [|apply Hno]. destruct (_ && _ && _); [|apply Hno].
    eexists. split; [by apply DeliveredUndo|done].
Qed.
(** *** The rows a delivery touches *)

Lemma store_run_one op st : store_run [op] st = store_step st op.
Proof. done. Qed.

(** The most a verified delivery for [owner] signed by [signer] changes, row by row. *)
Record touched (owner signer : string) (st st' : Store) : Prop := {
  tc_actors : actors st' = actors st;
  tc_messages : inbox_messages st' = inbox_messages st \/
    exists m, inbox_messages st' = inbox_messages st ++ [m] /\ im_actor_id m = owner /\ im_sender_actor_url m = signer;
  (* a row of the owner's that follows the signer is accepted, one of anybody's that follows the signer is dropped *)
  tc_following : forall r, r ∈ following st' -> r ∈ following st \/
    exists r0, r0 ∈ following st /\ r = set_accepted r0 /\ is_follow owner signer r0 = true;
  tc_unfollowed : forall r, r ∈ following st -> r ∉ following st' -> fr_target_actor_url (fg_record r) = signer;
  tc_followers : forall r, r ∈ followers st' -> r ∈ followers st;
  tc_dropped : forall r, r ∈ followers st -> r ∉ followers st' -> is_follower owner signer r = true;
  tc_requests : forall r, r ∈ follow_requests st' -> r ∈ follow_requests st \/ is_request owner signer r = true;
  (* requests to the owner from others go only from a full queue *)
  tc_forgotten : forall r, r ∈ follow_requests st -> r ∉ follow_requests st' ->
    is_request owner signer r = true \/
    (rq_actor_id r = owner /\ MAX_QUEUED_FOLLOW_REQUESTS <= len (List.filter (of_actor owner) (follow_requests st)));
}.

Lemma filter_lost {A} (p : A -> bool) l x : x ∈ l -> x ∉ List.filter (negb ∘ p) l -> p x = true.
Proof.
  intros Hx Hn. destruct (p x) eqn:E; [done|]. destruct Hn. apply elem_of_filter_b. by cbn; rewrite E.
Qed.

Lemma upsert_requests_in row rows r :
  r ∈ upsert_request row rows -> r ∈ rows \/ r = row.
Proof.
  unfold upsert_request. destruct (existsb _ rows); [|set_solver].
  intros (r0 & -> & Hr0)%list_elem_of_fmap. destruct (is_request _ _ r0); auto.
Qed.

Lemma upsert_requests_kept row rows r :
  r ∈ rows -> is_request (rq_actor_id row) (fq_follower_actor_url (rq_record row)) r = false -> r ∈ upsert_request row rows.
Proof.
  intros Hr Hn. unfold upsert_request. destruct (existsb _ rows); [|set_solver].
  apply list_elem_of_fmap. exists r. by rewrite Hn.
Qed.

Lemma upsert_requests_count row rows owner :
  len (List.filter (of_actor owner) (upsert_request row rows)) <= len (List.filter (of_actor owner) rows) + 1.
Proof.
  unfold upsert_request, len. destruct (existsb _ rows).
  - induction rows as [|x rows IH]; cbn [fmap list_fmap List.filter length]; [lia|].
    destruct (is_request _ _ x) eqn:Hx.
    + replace (of_actor owner row) with (of_actor owner x); [destruct (of_actor owner x); cbn [length]; lia|].
      apply andb_true_iff in Hx as [Ha%bool_decide_eq_true _]. unfold of_actor. by rewrite Ha.
    + destruct (of_actor owner x); cbn [length]; lia.
  - rewrite List.filter_app, length_app. cbn [List.filter]. destruct (of_actor owner row); cbn; lia.
Qed.

Lemma add_request_touches owner signer inbox fid now st : touched owner signer st (add_follow_request owner signer inbox fid now st).
Proof.
  unfold add_follow_request. set (row := {| rq_actor_id := owner; rq_record := _ |}).
  set (rows := upsert_request row (follow_requests st)). set (keep := _ <$> _).
  split; cbn; try (by left); try done; try (intros r Hr Hn; by destruct (Hn Hr)).
  - intros r [_ Hr]%elem_of_filter_b. apply upsert_requests_in in Hr as [Hr| ->]; [by left|right].
    unfold is_request, of_actor. cbn. by rewrite !bool_decide_eq_true_2.
  - intros r Hr Hn. destruct (is_request owner signer r) eqn:Hq; [by left|right].
    assert (r ∈ rows) as Hrows by by apply upsert_requests_kept.
    assert (of_actor owner r && negb (bool_decide (fq_follower_actor_url (rq_record r) ∈ keep)) = true) as Hgone.
    { destruct (of_actor owner r && _) eqn:E; [done|]. destruct Hn. apply elem_of_filter_b. by rewrite E. }
    apply andb_true_iff in Hgone as [Hown Hkeep]. apply negb_true_iff, bool_decide_eq_false in Hkeep.
    split; [by apply bool_decide_eq_true in Hown|].
    destruct (N.le_gt_cases MAX_QUEUED_FOLLOW_REQUESTS (len (List.filter (of_actor owner) (follow_requests st)))) as [|Hlt]; [done|].
    destruct Hkeep. apply list_elem_of_fmap. exists r. split; [done|]. unfold newest_requests. rewrite take_ge.
    + rewrite order_by_perm, scan_perm. by apply elem_of_filter_b.
    + rewrite order_by_perm, scan_perm. pose proof (upsert_requests_count row (follow_requests st) owner) as Hc.
      fold rows in Hc. unfold len in Hc, Hlt. lia.
Qed.

(** What the calls of a delivery change. *)
Lemma delivered_touches rec signer activity now ops st :
  delivered rec signer activity now ops -> touched (ar_agent_id rec) (url_to_string (ra_id signer)) st (store_run ops st).
Proof.
  intros [|note txt _ _ _ _|fid _ _|fid _ _|fid _ _ _|_]; rewrite ?store_run_one.
  - split; cbn; try done; auto; intros r Hr Hn; by destruct (Hn Hr).
  - cbn [store_step]. unfold inbox_insert. destruct (existsb _ _); (split; cbn; try done; auto; try (intros r Hr Hn; by destruct (Hn Hr))).
    right. by eexists.
  - cbn [store_step]. unfold follow_accepted. split; cbn; auto; try (intros r Hr Hn; by destruct (Hn Hr)).
    + intros r (r0 & -> & Hr0)%list_elem_of_fmap. destruct (_ && _ && is_follow _ _ r0) eqn:Hp; [right|by left].
      exists r0. apply andb_true_iff in Hp as [_ Hp]. done.
    + intros r Hr Hn. destruct (has_follow_id fid r && is_pending r && is_follow (ar_agent_id rec) (url_to_string (ra_id signer)) r) eqn:Hp.
      * apply andb_true_iff in Hp as [_ [_ Ht]%andb_true_iff]. by apply bool_decide_eq_true in Ht.
      * destruct Hn. apply list_elem_of_fmap. exists r. by rewrite Hp.
  - cbn [store_step]. unfold follow_rejected. split; cbn; auto; try (intros r Hr Hn; by destruct (Hn Hr)).
    + intros r [_ Hr]%elem_of_filter_b. by left.
    + intros r Hr Hn. apply filter_lost in Hn; [|done]. apply andb_true_iff in Hn as [_ Ht]. by apply bool_decide_eq_true in Ht.
  - cbn [store_step]. apply add_request_touches.
  - cbn. split; cbn; auto; try (intros r Hr Hn; by destruct (Hn Hr)).
    + intros r [_ Hr]%elem_of_filter_b. done.
    + intros r Hr Hn. by apply filter_lost in Hn.
    + intros r [_ Hr]%elem_of_filter_b. by left.
    + intros r Hr Hn. apply filter_lost in Hn; [|done]. left. by rewrite andb_true_r in Hn.
Qed.
End inbox.

(** ** The bridge as a whole

    The requests that can change the store, in any order and from anyone. *)

Inductive BridgeEvent :=
| EvRegister (body : Value) (now : N)
| EvFollow (handle : string) (headers : HeaderMap) (body : bytes) (now now2 : N)
| EvUnfollow (handle : string) (headers : HeaderMap) (body : bytes) (now : N)
| EvConfirm (handle : string) (headers : HeaderMap) (body : bytes) (now now2 : N)
| EvPostAvatar (handle : string) (headers : HeaderMap) (body : bytes) (now : N)
| EvDeleteAvatar (handle : string) (headers : HeaderMap) (now : N)
| EvDelivery (env : DeliveryEnv) (handle : string) (headers : HeaderMap) (body : bytes).

Section runs.
  Context `{AJ : AttestationJson, UP : UrlParse, UE : UrlEdit, BB : Base64, DT : DocText, SH : Sha256, ML : MlDsaBackend, DL : !DocLaws}.
  Context `{JT : JsonText, BJ : BodyJson, JS : JsonSlice, RS : RowScan, RA : Rsa, ST : SigText, BL : !BridgeLaws}.
  Context (actor_error_text : ActorError -> string) (cfg : BridgeConfig) (denylist : option (EntryKind -> string -> bool)).

Definition bridge_step (st : Store) (ev : BridgeEvent) : Store :=
  match ev with
  | EvRegister body now => (register actor_error_text cfg body now st).2
  | EvFollow handle headers body now now2 => (record_follow handle headers body now now2 st).2
  | EvUnfollow handle headers body now => (unfollow_route handle headers body now st).2
  | EvConfirm handle headers body now now2 => (confirm_follower handle headers body now now2 st).2
  | EvPostAvatar handle headers body now => (post_avatar handle headers body now st).2
  | EvDeleteAvatar handle headers now => (delete_avatar handle headers now st).2
  | EvDelivery env handle headers body => (post_inbox cfg denylist env handle headers body st).2
  end.
Definition bridge_run (evs : list BridgeEvent) (st : Store) : Store := fold_left bridge_step evs st.

(** The calls on the store an event makes, with what it passed before making them. *)
Inductive performs (st : Store) : BridgeEvent -> list StoreOp -> Prop :=
| PerfNothing ev : performs st ev []
| PerfRegister body now rec a : attested cfg rec a -> performs st (EvRegister body now) [OpRegister rec]
| PerfFollow handle headers body now now2 rec req :
    auth_actor handle headers "POST" ("/actors/" +:+ handle +:+ "/following") body now st = Ok rec -> follow_body body = Some req ->
    performs st (EvFollow handle headers body now now2)
      [OpFollow (ar_agent_id rec) (fb_target_actor_url req) (fb_target_inbox_url req) (fb_follow_activity_id req) now2]
| PerfUnfollow handle headers body now rec req :
    auth_actor handle headers "POST" ("/actors/" +:+ handle +:+ "/unfollow") body now st = Ok rec -> unfollow_body body = Some req ->
    performs st (EvUnfollow handle headers body now) [OpUnfollow (ar_agent_id rec) (ub_target_actor_url req)]
| PerfConfirm handle headers body now now2 rec req :
    auth_actor handle headers "POST" ("/actors/" +:+ handle +:+ "/followers/confirm") body now st = Ok rec -> confirm_body body = Some req ->
    performs st (EvConfirm handle headers body now now2)
      [OpAddFollower (ar_agent_id rec) (cb_follower_actor_url req) (cb_follower_inbox_url req) now2;
       OpRemoveRequest (ar_agent_id rec) (cb_follower_actor_url req) (cb_follow_activity_id req)]
| PerfSetAvatar handle headers body now rec ct :
    auth_actor handle headers "POST" ("/actors/" +:+ handle +:+ "/avatar") body now st = Ok rec ->
    ct ∈ UPLOADABLE_AVATAR_CONTENT_TYPES -> magic_matches_content_type ct body = true ->
    performs st (EvPostAvatar handle headers body now) [OpSetAvatar (ar_agent_id rec) body ct]
| PerfClearAvatar handle headers now rec :
    auth_actor handle headers "DELETE" ("/actors/" +:+ handle +:+ "/avatar") [] now st = Ok rec ->
    performs st (EvDeleteAvatar handle headers now) [OpClearAvatar (ar_agent_id rec)]
| PerfDelivery env handle headers body rec signer activity ops :
    screened cfg denylist env handle headers body st rec signer activity -> delivered rec signer activity (de_store_now env) ops ->
    performs st (EvDelivery env handle headers body) ops.

Lemma register_performs body now st : exists ops, performs st (EvRegister body now) ops /\
  (register actor_error_text cfg body now st).2 = store_run ops st.
Proof.
  assert (forall r : Response, exists ops, performs st (EvRegister body now) ops /\ (r, st).2 = store_run ops st) as Hno
    by (intros r; exists []; split; [constructor|done]).
  unfold register. destruct (from_json_ld body) as [a|] eqn:Ha; [|apply Hno]. destruct (verify_attestation a) as [agent|] eqn:Hv; [|apply Hno].
  destruct (is_valid_handle _) eqn:Hh; [|apply Hno]. cbn [negb]. case_bool_decide; [apply Hno|].
  destruct (id_ok _ _ _) eqn:Hid; [|apply Hno]. cbn [negb]. set (rec := {| ar_agent_id := agent |}). exists [OpRegister rec]. split.
  - apply (PerfRegister st body now rec a). constructor; try done. by eapply from_json_ld_decoded.
  - cbn. by destruct (register_actor rec st) as [[] st'].
Qed.

Lemma step_performs ev st : exists ops, performs st ev ops /\ bridge_step st ev = store_run ops st.
Proof.
  assert (forall ev (r : Response), exists ops, performs st ev ops /\ (r, st).2 = store_run ops st) as Hno
    by (intros ? r; exists []; split; [constructor|done]).
  destruct ev as [body now|handle headers body now now2|handle headers body now|handle headers body now now2|handle headers body now|handle headers now|env handle headers body]; cbn [bridge_step].
  - apply register_performs.
  - unfold record_follow. destruct (auth_actor _ _ _ _ _ _ _) as [rec|] eqn:Hauth; [|apply Hno]. destruct (follow_body body) as [req|] eqn:Hb; [|apply Hno].
    destruct (_ || _); [apply Hno|]. eexists. split; [by apply (PerfFollow st handle headers body now now2 rec req)|].
    cbn. by destruct (follow_request _ _ _ _ _ _) as [[[]|] st'].
  - unfold unfollow_route. destruct (auth_actor _ _ _ _ _ _ _) as [rec|] eqn:Hauth; [|apply Hno]. destruct (unfollow_body body) as [req|] eqn:Hb; [|apply Hno].
    eexists. split; [by apply (PerfUnfollow st handle headers body now rec req)|]. cbn. by destruct (unfollow _ _ _) as [[] st'].
  - unfold confirm_follower. destruct (auth_actor _ _ _ _ _ _ _) as [rec|] eqn:Hauth; [|apply Hno]. destruct (confirm_body body) as [req|] eqn:Hb; [|apply Hno].
    destruct (_ || _); [apply Hno|]. eexists. split; [by apply (PerfConfirm st handle headers body now now2 rec req)|].
    cbn [store_run fold_left store_step]. destruct (add_follower _ _ _ _ _) as [c st']. cbn [snd]. by destruct (remove_follow_request _ _ _ _).
  - unfold post_avatar. destruct (auth_actor _ _ _ _ _ _ _) as [rec|] eqn:Hauth; [|apply Hno]. case_bool_decide as Hct; cbn [negb]; [|apply Hno].
    case_bool_decide; [apply Hno|]. destruct (magic_matches_content_type _ _) eqn:Hm; cbn [negb]; [|apply Hno].
    eexists. split; [by eapply (PerfSetAvatar st handle headers body now rec)|]. cbn [store_run fold_left store_step]. by destruct (set_avatar _ _ _ _) as [[] st'].
  - unfold delete_avatar. destruct (auth_actor _ _ _ _ _ _ _) as [rec|] eqn:Hauth; [|apply Hno].
    eexists. split; [by apply (PerfClearAvatar st handle headers now rec)|]. cbn [store_run fold_left store_step]. by destruct (clear_avatar _ _).
  - unfold post_inbox. destruct (screen_delivery _ _ _ _ _ _ _) as [[[rec signer] activity]|] eqn:Hs; [|exists []; split; [constructor|done]].
    apply screen_ok in Hs. destruct (dispatch_delivered env rec signer activity st) as (ops & Hd & ->). exists ops. split; [|done]. by eapply PerfDelivery.
Qed.

Lemma bridge_run_app evs1 evs2 st : bridge_run (evs1 ++ evs2) st = bridge_run evs2 (bridge_run evs1 st).
Proof. apply fold_left_app. Qed.
Lemma bridge_run_wf evs st : wf_store st -> wf_store (bridge_run evs st).
Proof.
  revert st. induction evs as [|ev evs IH]; intros st Hw; [done|]. cbn. apply IH. destruct (step_performs ev st) as (ops & _ & ->). by apply store_run_wf.
Qed.

(** Registered rows stay attested. *)
Lemma run_keeps_attested ops st :
  (forall rec, OpRegister rec ∈ ops -> exists a, attested cfg rec a) -> all_attested cfg st -> all_attested cfg (store_run ops st).
Proof.
  revert st. induction ops as [|op ops IH]; intros st Hreg Hst; [done|]. cbn. apply IH; [intros rec Hr; apply Hreg; by right|].
  intros rec Hrec. pose proof (actors_step op st) as Hkeep. destruct op; try (rewrite Hkeep in Hrec; by apply Hst).
  cbn [store_step] in Hrec. apply register_actors in Hrec as [Hrec|[-> _]]; [by apply Hst|]. apply Hreg. left.
Qed.
Lemma performs_attested st ev ops : performs st ev ops -> forall rec, OpRegister rec ∈ ops -> exists a, attested cfg rec a.
Proof.
  intros Hp rec Hr. destruct Hp; rewrite ?elem_of_cons, ?elem_of_nil in Hr; try naive_solver.
  match goal with H : delivered _ _ _ _ _ |- _ => destruct H end; rewrite ?elem_of_cons, ?elem_of_nil in Hr; naive_solver.
Qed.
Lemma bridge_run_attested evs st : all_attested cfg st -> all_attested cfg (bridge_run evs st).
Proof.
  revert st. induction evs as [|ev evs IH]; intros st Hst; [done|]. cbn. apply IH. destruct (step_performs ev st) as (ops & Hp & ->).
  apply run_keeps_attested; [|done]. by eapply performs_attested.
Qed.

(** C18: whatever is posted to an inbox, the store changes only when the request passed every gate: the actor its keyId
    names was fetched, its key verifies the signature over this request, it is not denylisted and it is the activity's
    actor.  Then at most one message is added, from that actor to the addressed recipient; a follow of that actor by the
    recipient is accepted, or one by anybody dropped; the actor's own follow of the recipient and its request for it are
    dropped or the request renewed; and of the other requests to the recipient some are dropped only when its queue holds
    the 200 it may.  No actor row and no row of anyone else changes. *)
Theorem delivery_binds_signer env handle headers body st :
  let st' := (post_inbox cfg denylist env handle headers body st).2 in
  st' = st \/
  exists rec signer activity,
    screened cfg denylist env handle headers body st rec signer activity /\
    touched (ar_agent_id rec) (url_to_string (ra_id signer)) st st'.
Proof.
  cbv zeta. unfold post_inbox. destruct (screen_delivery _ _ _ _ _ _ _) as [[[rec signer] activity]|] eqn:Hs; [|by left].
  right. apply screen_ok in Hs. destruct (dispatch_delivered env rec signer activity st) as (ops & Hd & ->).
  exists rec, signer, activity. split; [done|]. by eapply delivered_touches.
Qed.

(** C19: In every run of the bridge, whoever sends what, each stored actor has a valid, unreserved
    handle held by no other, a document that reads back under this domain, and an agent id to which its first
    attestation verifies; and all tables keep their keys. *)
Theorem registered_actors_attested evs :
  let st := bridge_run evs empty_store in
  wf_store st /\ all_attested cfg st.
Proof.
  split; [apply bridge_run_wf, empty_store_wf|]. apply bridge_run_attested. intros rec Hr. by apply elem_of_nil in Hr.
Qed.

(** *** Follows *)

(** The owner of a row asked for it. *)
Definition owner_asked (st : Store) (ev : BridgeEvent) (r : FollowingRow) : Prop :=
  exists handle headers body now now2 rec req,
    ev = EvFollow handle headers body now now2 /\
    auth_actor handle headers "POST" ("/actors/" +:+ handle +:+ "/following") body now st = Ok rec /\ follow_body body = Some req /\
    ar_agent_id rec = fg_actor_id r /\ fb_target_actor_url req = fr_target_actor_url (fg_record r) /\
    fb_follow_activity_id req = fr_follow_activity_id (fg_record r).
(** The account it names answered it, to the owner's own inbox. *)
Definition target_answered (st : Store) (ev : BridgeEvent) (r : FollowingRow) : Prop :=
  exists env handle headers body rec signer activity,
    ev = EvDelivery env handle headers body /\ screened cfg denylist env handle headers body st rec signer activity /\
    ar_agent_id rec = fg_actor_id r /\ url_to_string (ra_id signer) = fr_target_actor_url (fg_record r) /\
    get_str "type" activity = Some "Accept"%string /\ object_id activity = Some (fr_follow_activity_id (fg_record r)).

Definition follow_story (evs : list BridgeEvent) (r : FollowingRow) : Prop :=
  exists evs1 e1 rest, evs = evs1 ++ e1 :: rest /\ owner_asked (bridge_run evs1 empty_store) e1 r /\
    (fr_state (fg_record r) = FollowAccepted ->
     exists evs2 e2 evs3, rest = evs2 ++ e2 :: evs3 /\ target_answered (bridge_run (evs1 ++ e1 :: evs2) empty_store) e2 r).

Lemma follow_story_more evs ev r : follow_story evs r -> follow_story (evs ++ [ev]) r.
Proof.
  intros (evs1 & e1 & rest & -> & Ha & Hr). exists evs1, e1, (rest ++ [ev]). rewrite <- app_assoc. split; [done|]. split; [done|].
  intros Hacc. destruct (Hr Hacc) as (evs2 & e2 & evs3 & -> & Hans). exists evs2, e2, (evs3 ++ [ev]). by rewrite <- app_assoc.
Qed.

(** Two calls that leave [following] alone. *)
Lemma following_pair op1 op2 st r : r ∈ following (store_run [op1; op2] st) ->
  (forall a t i f n, op1 <> OpFollow a t i f n /\ op2 <> OpFollow a t i f n) -> (forall f t a, op1 <> OpAccepted f t a /\ op2 <> OpAccepted f t a) ->
  r ∈ following st.
Proof.
  intros Hr Hf Ha. cbn in Hr. apply following_step in Hr as [Hr|[(n & E & _)|(r0 & _ & _ & _ & E)]]; [|by apply Hf in E|by apply Ha in E].
  apply following_step in Hr as [Hr|[(n & E & _)|(r0 & _ & _ & _ & E)]]; [done|by apply Hf in E|by apply Ha in E].
Qed.


Lemma follow_story_step evs ev : (forall r, r ∈ following (bridge_run evs empty_store) -> follow_story evs r) ->
  forall r, r ∈ following (bridge_run (evs ++ [ev]) empty_store) -> follow_story (evs ++ [ev]) r.
Proof.
  intros Hall r Hr. rewrite bridge_run_app in Hr. cbn in Hr. set (st := bridge_run evs empty_store) in *.
  assert (r ∈ following st -> follow_story (evs ++ [ev]) r) as Hold by (intros; by apply follow_story_more, Hall).
  destruct (step_performs ev st) as (ops & Hp & He). rewrite He in Hr. clear He.
  assert (forall op, ops = [op] -> (forall a t i f n, op <> OpFollow a t i f n) -> (forall f t a, op <> OpAccepted f t a) -> r ∈ following st) as Hone.
  { intros op -> Hf Ha. apply following_step in Hr as [Hr|[(n & E & _)|(r0 & _ & _ & _ & E)]]; [done|by apply Hf in E|by apply Ha in E]. }
  destruct Hp as [ev|body now rec a Hatt|handle headers body now now2 rec req Hauth Hb|handle headers body now rec req Hauth Hb
                 |handle headers body now now2 rec req Hauth Hb|handle headers body now rec ct Hauth Hct Hm|handle headers now rec Hauth
                 |env handle headers body rec signer activity ops Hs Hd].
  - by apply Hold.
  - apply Hold. by eapply Hone.
  - rewrite store_run_one in Hr. apply following_step in Hr as [Hr|[(n & [= H1 H2 H3 H4 H5] & Hpend)|(r0 & _ & _ & _ & E)]]; [by apply Hold| |done].
    exists evs, (EvFollow handle headers body now now2), []. split; [done|]. split; [|by rewrite Hpend].
    exists handle, headers, body, now, now2, rec, req. by repeat split.
  - apply Hold. by eapply Hone.
  - apply Hold. by eapply following_pair.
  - apply Hold. by eapply Hone.
  - apply Hold. by eapply Hone.
  - destruct Hd as [|note txt ? ? ? ?|fid Ht Ho|fid Ht Ho|fid Ht Ho Hid|Ht]; try (apply Hold; by eapply Hone); [by apply Hold| |apply Hold; by eapply following_pair].
    rewrite store_run_one in Hr. apply following_step in Hr as [Hr|[(n & E & _)|(r0 & Hr0 & Hpend & -> & [= H1 H2 H3])]]; [by apply Hold|done|].
    destruct (Hall r0 Hr0) as (evs1 & e1 & rest & Hevs & Hask & _). exists evs1, e1, (rest ++ [EvDelivery env handle headers body]).
    split; [by rewrite Hevs, <- app_assoc|]. split; [exact Hask|]. intros _. exists rest, (EvDelivery env handle headers body), [].
    split; [done|]. rewrite <- Hevs. exists env, handle, headers, body, rec, signer, activity. cbn.
    split; [done|]. split; [done|]. split; [congruence|]. split; [congruence|]. split; [done|]. congruence.
Qed.

Lemma follow_stories evs r : r ∈ following (bridge_run evs empty_store) -> follow_story evs r.
Proof.
  revert r. induction evs as [|ev evs IH] using rev_ind; intros r Hr; [by apply elem_of_nil in Hr|]. by apply follow_story_step.
Qed.

(** C20: A follow the bridge shows as accepted was requested by its owner with a request that passed the
    owner's gate, and later answered by an Accept of the followed account itself that passed every gate of the owner's
    inbox. *)
Theorem accepted_follow_answered evs r :
  r ∈ following (bridge_run evs empty_store) -> fr_state (fg_record r) = FollowAccepted ->
  exists evs1 e1 evs2 e2 evs3, evs = evs1 ++ e1 :: evs2 ++ e2 :: evs3 /\
    owner_asked (bridge_run evs1 empty_store) e1 r /\ target_answered (bridge_run (evs1 ++ e1 :: evs2) empty_store) e2 r.
Proof.
  intros Hr Hacc. destruct (follow_stories evs r Hr) as (evs1 & e1 & rest & -> & Ha & Hans).
  destruct (Hans Hacc) as (evs2 & e2 & evs3 & -> & Hb). eauto 10.
Qed.

(** *** What a note's id decides *)

(** A second delivery of a stored note changes nothing. *)
Lemma redelivery_ignored rec sender activity now now' st st1 :
  handle_create rec sender activity now st = Some st1 -> handle_create rec sender activity now' st1 = Some st1.
Proof.
  unfold handle_create. destruct (value_get "object" activity) as [note|]; [|by intros [= <-]]. destruct (negb _); [by intros [= <-]|].
  destruct (negb _); [by intros [= <-]|]. destruct (html_to_text _) as [txt|]; [|done]. case_bool_decide; [by intros [= <-]|].
  case_bool_decide; [by intros [= <-]|]. intros [= <-]. f_equal. unfold inbox_insert.
  set (m := {| im_created_ms := clamp_i64 now |}). set (m' := {| im_created_ms := clamp_i64 now' |}).
  assert (forall x, same_note m' x = same_note m x) as Hsame by done.
  destruct (existsb (same_note m) (inbox_messages st)) eqn:E; cbn [snd].
  - assert (existsb (same_note m') (inbox_messages st) = true) as ->; [|done].
    apply existsb_exists in E as (x & Hx & Hm). apply existsb_exists. exists x. by rewrite Hsame.
  - assert (existsb (same_note m') (inbox_messages (set_inbox (inbox_messages st ++ [m]) st)) = true) as ->; [|done].
    apply existsb_exists. exists m. split; [cbn; apply in_or_app; right; by left|]. by apply same_note_true.
Qed.

(** A direct message whose note id is already stored for the recipient, from whatever sender, is
    answered as accepted and dropped. *)
Theorem taken_note_id_drops_message env rec signer activity note m st :
  get_str "type" activity = Some "Create"%string -> value_get "object" activity = Some note ->
  html_to_text (default EmptyString (get_str "content" note)) <> None ->
  m ∈ inbox_messages st -> im_actor_id m = ar_agent_id rec -> get_str "id" note = Some (im_note_id m) ->
  dispatch_activity env rec signer activity st = (accepted, st).
Proof.
  intros Ht Hn Hh Hm Ha Hid. unfold dispatch_activity. rewrite Ht. rewrite bool_decide_eq_true_2 by done. unfold handle_create. rewrite Hn.
  destruct (negb _); [done|]. destruct (negb _); [done|]. destruct (html_to_text _) as [txt|]; [|done]. case_bool_decide; [done|].
  case_bool_decide; [done|]. unfold inbox_insert. rewrite (proj2 (existsb_exists _ _)); [done|]. exists m. split; [by apply list_elem_of_In|].
  apply same_note_true. unfold note_key. cbn. by rewrite Hid, Ha.
Qed.
End runs.

(** ** A run *)

#[local] Existing Instances ad_url_parse ad_url_edit ad_att_json ad_text demo_base64 ba_sha ba_mldsa fi_rsa fi_text insertion_scan.

Definition bob : string := "https://remote.example/users/bob".
Definition follow_id : string := "https://etchit.io/follows/1".
(** One follow body; the body [2] is Bob's Accept of it and [3] a note of his, answered by the document of Bob. *)
Definition bi_bodies : BodyJson :=
  {| follow_body b := if bool_decide (b = [1]) then Some {| fb_target_actor_url := bob; fb_target_inbox_url := bob; fb_follow_activity_id := follow_id |} else None;
     unfollow_body _ := None; confirm_body _ := None |}.
Definition bob_note : Value :=
  VObject {[ "type" := VString "Note"; "id" := VString "n1"; "content" := VString "<p>hi</p>"; "to" := VString "https://etchit.io/actors/josh" ]}.
Definition bob_accept : Value := VObject {[ "type" := VString "Accept"; "actor" := VString bob; "object" := VString follow_id ]}.
Definition bob_create : Value := VObject {[ "type" := VString "Create"; "actor" := VString bob; "object" := bob_note ]}.
Definition bi_slice : JsonSlice := fun b =>
  if bool_decide (b = [2]) then Some bob_accept else if bool_decide (b = [3]) then Some bob_create else None.
Definition bob_doc : Value :=
  VObject {[ "id" := VString bob; "type" := VString "Person"; "preferredUsername" := VString "bob"; "inbox" := VString bob;
             "publicKey" := VObject {[ "owner" := VString bob; "publicKeyPem" := VString "pem" ]} ]}.
Definition bob_env : DeliveryEnv := {| de_get _ _ := Ok bob_doc; de_date_now := fi_secs * 1000; de_store_now := fi_secs * 1000 |}.
Definition bob_inbox_url : Url := ad_url "etchit.io" "actors/josh/inbox".
Definition bob_headers (body : bytes) : HeaderMap := fun name =>
  match sign_post_cavage_with_key tt (bob +:+ "#main-key") bob_inbox_url body (format_imf_fixdate fi_secs) with
  | Err _ => None
  | Ok h =>
      if bool_decide (name = "host"%string) then Some "origin.etchit.io"%string
      else if bool_decide (name = "date"%string) then Some (ch_date h)
      else if bool_decide (name = "digest"%string) then Some (ch_digest h)
      else if bool_decide (name = "signature"%string) then Some (ch_signature h)
      else None
  end.
(** Documents are stored under one text. *)
Definition bi_json : JsonText := {| json_to_string _ := "doc"%string; json_from_str _ := Some (to_json_ld owner_actor) |}.
#[local] Existing Instances bi_bodies bi_slice bi_json.

Definition follow_headers : HeaderMap := signed_headers owner_key owner_id "POST" "/actors/josh/following" 1000 [1].
Definition follow_events : list BridgeEvent :=
  [EvRegister (to_json_ld owner_actor) 5; EvFollow "josh" follow_headers [1] 2000 2000; EvDelivery bob_env "josh" (bob_headers [2]) [2]].
Definition bob_follow : FollowingRow :=
  {| fg_actor_id := owner_id;
     fg_record := {| fr_target_actor_url := bob; fr_target_inbox_url := bob; fr_state := FollowAccepted; fr_follow_activity_id := follow_id;
                     fr_created_ms := 2000 |} |}.
Lemma follow_events_row : following (bridge_run demo_errors demo_config None follow_events empty_store) = [bob_follow].
Proof. by vm_compute. Qed.

Lemma accepted_follow_answered_witness :
  exists evs1 e1 evs2 e2 evs3, follow_events = evs1 ++ e1 :: evs2 ++ e2 :: evs3 /\
    owner_asked (bridge_run demo_errors demo_config None evs1 empty_store) e1 bob_follow.
Proof.
  destruct (accepted_follow_answered (DL := ad_laws) demo_errors demo_config None follow_events bob_follow) as (evs1 & e1 & evs2 & e2 & evs3 & He & Ha & _).
  - rewrite follow_events_row. left.
  - reflexivity.
  - exists evs1, e1, evs2, e2, evs3. split; [exact He|exact Ha].
Defined.

(** Bob's note reaches the inbox; another account that used its id first keeps it out. *)
Definition josh_store : Store := bridge_run demo_errors demo_config None [EvRegister (to_json_ld owner_actor) 5] empty_store.
Definition squatter_note : InboxMessage :=
  {| im_actor_id := owner_id; im_sender_actor_url := "https://evil.example/u"; im_note_id := "n1"; im_text := "x"; im_published := "";
     im_created_ms := 1 |}.
Example note_delivered :
  im_text <$> inbox_messages (post_inbox demo_config None bob_env "josh" (bob_headers [3]) [3] josh_store).2 = ["hi"%string].
Proof. by vm_compute. Qed.
Lemma delivery_binds_signer_witness :
  let st' := (post_inbox demo_config None bob_env "josh" (bob_headers [3]) [3] josh_store).2 in
  inbox_messages st' <> inbox_messages josh_store /\
  exists rec signer activity, screened demo_config None bob_env "josh" (bob_headers [3]) [3] josh_store rec signer activity /\
    touched (ar_agent_id rec) (url_to_string (ra_id signer)) josh_store st'.
Proof.
  cbv zeta. set (st' := (post_inbox _ _ _ _ _ _ _).2).
  assert (inbox_messages st' <> inbox_messages josh_store) as Hne.
  { intros He. apply (f_equal length) in He. revert He. vm_compute. discriminate. }
  split; [exact Hne|]. destruct (delivery_binds_signer demo_config None bob_env "josh" (bob_headers [3]) [3] josh_store) as [He|Hd];
    [|exact Hd]. exfalso. apply Hne. unfold st'. by rewrite He.
Defined.
Definition josh_record : ActorRecord := default owner_record (actor_by_handle "josh" josh_store).
Definition bob_remote : RemoteActor :=
  match remote_from_json_ld bob_doc with Ok r => r | Err _ => Build_RemoteActor (ad_url "" "") (ad_url "" "") "" None None None None None None end.
Lemma taken_note_id_drops_message_witness :
  dispatch_activity bob_env josh_record bob_remote bob_create (set_inbox [squatter_note] josh_store) = (accepted, set_inbox [squatter_note] josh_store).
Proof.
  apply (taken_note_id_drops_message bob_env josh_record bob_remote bob_create bob_note squatter_note).
  - reflexivity.
  - reflexivity.
  - by vm_compute.
  - left.
  - by vm_compute.
  - reflexivity.
Defined.

(** A message whose text the reader panics on is never stored, however often it is sent again. *)
Definition japanese_note : Value :=
  VObject {[ "type" := VString "Note"; "id" := VString "n2"; "to" := VString "https://etchit.io/actors/josh";
             "content" := VString (markdown_body_to_html ("Q" +:+ "&" +:+ byte_chars [230; 151; 165; 230; 151; 165; 230; 151; 165])) ]}.
Example panicking_note_lost st :
  dispatch_activity bob_env josh_record bob_remote (VObject {[ "type" := VString "Create"; "actor" := VString bob; "object" := japanese_note ]}) st
  = (HandlerPanicked, st).
Proof. by vm_compute. Qed.

(** The registration of [owner_actor] keeps every stored actor attested. *)
Lemma registered_actors_attested_witness :
  all_attested demo_config (bridge_run demo_errors demo_config None [EvRegister (to_json_ld owner_actor) 5] empty_store).
Proof. exact (proj2 (registered_actors_attested (DL := ad_laws) demo_errors demo_config None [EvRegister (to_json_ld owner_actor) 5])). Defined.
