(* ===== verification/GroupRoute.v ===== *)
(** * Gossip or bridge

    Models [crates/fetchit-chat/src/groups_reachability.rs]: which members a group's gossip
    reached lately, whether the user lets the group's events go over the relay, and the payloads
    that came over it (whose echo from the local daemon says nothing about gossip).  The sealed
    consent file is the map it reads as, [None] when it is missing or unreadable; whether sealing
    succeeds is an argument.  The hash of a payload is that of [std]'s unspecified default hasher,
    a parameter.  The runs follow the client's use of the module ([client.rs]). *)
From S2P Require Import Prelude SendState RelayProto RelayAuth PairRecord ShareUri Text PendingJoin.
Open Scope rust_scope.

(** ** Direct gossip *)

Module Gossip.
Inductive Reachability := Reachable | Unreachable.
End Gossip.

Definition STALE_AFTER_MS : N := 60000.

(** When a pair of a group and a member was last heard of, in milliseconds. *)
Notation ReachabilityCache := (gmap (string * string) N).

Definition reach_record (group member : string) (now_ms : N) (c : ReachabilityCache) : ReachabilityCache :=
  <[(group, member) := now_ms]> c.
Definition reach_lookup (group member : string) (now_ms : N) (c : ReachabilityCache) : Gossip.Reachability :=
  match c !! (group, member) with
  | Some last => if saturating_sub now_ms last <? STALE_AFTER_MS then Gossip.Reachable else Gossip.Unreachable
  | None => Gossip.Unreachable
  end.
Definition reach_forget (group member : string) (c : ReachabilityCache) : ReachabilityCache :=
  delete (group, member) c.

(** ** Consent *)

Inductive GroupBridgeConsent := NotAsked | ConsentedOptIn | DeclinedOptOut.
#[export] Instance consent_eq_dec : EqDecision GroupBridgeConsent.
Proof. solve_decision. Defined.

Notation ConsentMap := (gmap string GroupBridgeConsent).

(** [bc_persist]: the store came from [load] and writes its file. *)
Record BridgeConsentStore := mkConsent { bc_inner : ConsentMap; bc_persist : bool }.

Definition consent_new : BridgeConsentStore := mkConsent ∅ false.
Definition consent_load (file : option ConsentMap) : BridgeConsentStore := mkConsent (default ∅ file) true.

Definition consent_lookup (group : string) (c : BridgeConsentStore) : GroupBridgeConsent :=
  default NotAsked (bc_inner c !! group).

(** [sealed]: whether the file could be written. *)
Definition consent_flush (sealed : bool) (c : BridgeConsentStore) (file : option ConsentMap) : option ConsentMap :=
  if bc_persist c && sealed then Some (bc_inner c) else file.
Definition consent_set (group : string) (state : GroupBridgeConsent) (sealed : bool) (c : BridgeConsentStore)
    (file : option ConsentMap) : BridgeConsentStore * option ConsentMap :=
  let c := mkConsent (<[group := state]> (bc_inner c)) (bc_persist c) in (c, consent_flush sealed c file).
Definition consent_forget (group : string) (sealed : bool) (c : BridgeConsentStore) (file : option ConsentMap)
    : BridgeConsentStore * option ConsentMap :=
  let c := mkConsent (delete group (bc_inner c)) (bc_persist c) in (c, consent_flush sealed c file).

(** ** The rule *)

Inductive BridgeDecision := LetGossipCarry | WrapAndSend | DropDeclined | PromptConsent.

Definition decide_route (cache : ReachabilityCache) (consent : BridgeConsentStore) (group member : string) (now_ms : N)
    : BridgeDecision :=
  match reach_lookup group member now_ms cache with
  | Gossip.Reachable => LetGossipCarry
  | Gossip.Unreachable =>
      match consent_lookup group consent with
      | ConsentedOptIn => WrapAndSend
      | DeclinedOptOut => DropDeclined
      | NotAsked => PromptConsent
      end
  end.

(** ** Payloads that came over the bridge *)

Definition SHADOW_WINDOW_MS : N := 30000.
Class PayloadHash := hash_payload : bytes -> N.

Notation BridgeInboundShadow := (gmap N N).
Definition shadow_mark (payload_hash now_ms : N) (s : BridgeInboundShadow) : BridgeInboundShadow :=
  <[payload_hash := now_ms]> s.
Definition shadow_is_recent (payload_hash now_ms : N) (s : BridgeInboundShadow) : bool :=
  match s !! payload_hash with
  | Some last => saturating_sub now_ms last <? SHADOW_WINDOW_MS
  | None => false
  end.
Definition shadow_evict_older_than (now_ms cutoff_ms : N) (s : BridgeInboundShadow) : BridgeInboundShadow :=
  filter (fun kv => (saturating_sub now_ms kv.2 <? cutoff_ms) = true) s.

Definition group_id_from_metadata_topic (topic : string) : option string :=
  inside ← strip_prefix "x0x.named_group/" topic;
  gid ← strip_suffix "/metadata" inside;
  match group_id_parse gid with Ok g => Some g | Err _ => None end.

Definition classify_sse_event `{PayloadHash} (topic : string) (payload : bytes) (from : option string) (local_agent_hex : string)
    (shadow : BridgeInboundShadow) (now_ms : N) : option (string * string) :=
  from ← from;
  if eq_ignore_ascii_case from local_agent_hex then None
  else if shadow_is_recent (hash_payload payload) now_ms shadow then None
  else group ← group_id_from_metadata_topic topic; Some (group, from).

(** ** The client's use of it *)

Record RouteState := mkRoute {
  ro_cache : ReachabilityCache;
  ro_consent : BridgeConsentStore;
  ro_shadow : BridgeInboundShadow;
  ro_file : option ConsentMap;
}.

(** A gossip message of the daemon's event stream. *)
Definition record_event `{PayloadHash} (local_agent_hex topic : string) (payload : bytes) (from : option string) (now : N)
    (r : RouteState) : RouteState :=
  match classify_sse_event topic payload from local_agent_hex (ro_shadow r) now with
  | Some (group, member) => mkRoute (reach_record group member now (ro_cache r)) (ro_consent r) (ro_shadow r) (ro_file r)
  | None => r
  end.

(** [dispatch_inbound_bridge] before it hands the payload to the daemon. *)
Definition mark_bridged `{PayloadHash} (payload : option bytes) (now : N) (r : RouteState) : RouteState :=
  match payload with
  | Some p => mkRoute (ro_cache r) (ro_consent r) (shadow_mark (hash_payload p) now (ro_shadow r)) (ro_file r)
  | None => r
  end.

Inductive RouteEvent :=
| EvDecided (group : string) (state : GroupBridgeConsent) (sealed : bool)
| EvGossip (topic : string) (payload : bytes) (from : option string) (now : N)
| EvBridged (payload : bytes) (now : N)
| EvRestarted.

Definition route_step `{PayloadHash} (local : string) (r : RouteState) (ev : RouteEvent) : RouteState :=
  match ev with
  | EvDecided group state sealed =>
      let '(c, file) := consent_set group state sealed (ro_consent r) (ro_file r) in mkRoute (ro_cache r) c (ro_shadow r) file
  | EvGossip topic payload from now => record_event local topic payload from now r
  | EvBridged payload now => mark_bridged (Some payload) now r
  | EvRestarted => mkRoute ∅ (consent_load (ro_file r)) ∅ (ro_file r)
  end.
Definition route_run `{PayloadHash} (local : string) : list RouteEvent -> RouteState -> RouteState := flip (foldl (route_step local)).
Definition fresh_route : RouteState := mkRoute ∅ (consent_load None) ∅ None.

(** ** What the decisions rest on *)

(** The user's last word on a group. *)
Fixpoint last_decision (group : string) (evs : list RouteEvent) : option GroupBridgeConsent :=
  match evs with
  | [] => None
  | ev :: evs =>
      match last_decision group evs with
      | Some d => Some d
      | None => match ev with
                | EvDecided g d _ => if bool_decide (g = group) then Some d else None
                | _ => None
                end
      end
  end.

Definition seal_ok (ev : RouteEvent) : bool := match ev with EvDecided _ _ sealed => sealed | _ => true end.

(** Gossip of this session that names the group and comes from the member, not the echo of what the bridge delivered. *)
Definition gossip_seen `{PayloadHash} (local group member : string) (now : N) (evs : list RouteEvent) : Prop :=
  exists front topic payload t back,
    evs = front ++ EvGossip topic payload (Some member) t :: back /\ EvRestarted ∉ back /\
    group_id_from_metadata_topic topic = Some group /\ eq_ignore_ascii_case member local = false /\
    shadow_is_recent (hash_payload payload) t (ro_shadow (route_run local front fresh_route)) = false /\
    saturating_sub now t < STALE_AFTER_MS.

Section runs.
  Context `{PayloadHash} (local : string).

Lemma route_run_snoc evs ev r : route_run local (evs ++ [ev]) r = route_step local (route_run local evs r) ev.
Proof. unfold route_run, flip. by rewrite foldl_app. Qed.

Lemma record_event_same topic p from now r :
  ro_consent (record_event local topic p from now r) = ro_consent r /\ ro_shadow (record_event local topic p from now r) = ro_shadow r /\
  ro_file (record_event local topic p from now r) = ro_file r.
Proof. unfold record_event. by destruct (classify_sse_event _ _ _ _ _ _) as [[]|]. Qed.

Lemma last_decision_snoc g evs ev :
  last_decision g (evs ++ [ev]) =
    match ev with EvDecided g' d _ => if bool_decide (g' = g) then Some d else last_decision g evs | _ => last_decision g evs end.
Proof.
  induction evs as [|e evs IH]; cbn [app last_decision].
  - by destruct ev as [g' d ?| | |].
  - rewrite IH. destruct ev as [g' d ?| | |]; [|done..]. by case_bool_decide.
Qed.

(** While every write succeeds the store and its file hold the last decisions. *)
Lemma consent_tracks evs : Forall (fun ev => seal_ok ev = true) evs ->
  let r := route_run local evs fresh_route in
  bc_persist (ro_consent r) = true /\ default ∅ (ro_file r) = bc_inner (ro_consent r) /\
  forall g, bc_inner (ro_consent r) !! g = last_decision g evs.
Proof.
  induction evs as [|ev evs IH] using rev_ind; intros Hok; cbv zeta; [done|].
  apply Forall_app in Hok as [Hok Hev]. destruct (IH Hok) as (Hp & Hf & Hl). rewrite Forall_singleton in Hev.
  cbv beta in Hev. rewrite route_run_snoc. destruct ev as [g' d sealed|topic p from now|p now|]; cbn [route_step].
  - change (sealed = true) in Hev. subst sealed. unfold consent_set, consent_flush. cbn [bc_inner bc_persist ro_consent ro_file]. rewrite Hp.
    split; [done|]. split; [done|]. intros g. rewrite last_decision_snoc, <- Hl.
    case_bool_decide; [subst; by rewrite lookup_insert_eq|by rewrite lookup_insert_ne].
  - destruct (record_event_same topic p from now (route_run local evs fresh_route)) as (-> & _ & ->).
    split; [done|]. split; [done|]. intros g. by rewrite last_decision_snoc.
  - cbn. split; [done|]. split; [done|]. intros g. by rewrite last_decision_snoc.
  - cbn. split; [done|]. split; [done|]. intros g. by rewrite last_decision_snoc, Hf.
Qed.

(** An entry of the cache is gossip of this session. *)
Lemma cache_tracks evs g m t : ro_cache (route_run local evs fresh_route) !! (g, m) = Some t ->
  forall now, saturating_sub now t < STALE_AFTER_MS -> gossip_seen local g m now evs.
Proof.
  revert t. induction evs as [|ev evs IH] using rev_ind; intros t; [done|].
  rewrite route_run_snoc. intros Hc now Hnow.
  assert (forall (Hr : ev <> EvRestarted), ro_cache (route_run local evs fresh_route) !! (g, m) = Some t -> gossip_seen local g m now (evs ++ [ev])) as Hkeep.
  { intros Hr Hold. destruct (IH t Hold now Hnow) as (front & topic & p & t0 & back & -> & Hb & Hrest). exists front, topic, p, t0, (back ++ [ev]).
    split; [by rewrite <- app_assoc|]. split; [|done]. rewrite elem_of_app, list_elem_of_singleton. naive_solver. }
  destruct ev as [g' d sealed|topic p from now'|p now'|]; cbn [route_step] in Hc.
  - by apply Hkeep.
  - unfold record_event in Hc. destruct (classify_sse_event _ _ _ _ _ _) as [[g0 m0]|] eqn:Hcl; [|by apply Hkeep].
    cbn in Hc. unfold reach_record in Hc. destruct (decide ((g0, m0) = (g, m))) as [[= -> ->]|Hne].
    + rewrite lookup_insert_eq in Hc. injection Hc as ->. unfold classify_sse_event in Hcl. destruct from as [from|]; [|done]. cbn [mbind option_bind] in Hcl.
      destruct (eq_ignore_ascii_case from local) eqn:Hself; [done|]. destruct (shadow_is_recent _ _ _) eqn:Hsh; [done|].
      destruct (group_id_from_metadata_topic topic) as [g0|] eqn:Ht; [|done]. injection Hcl as -> ->.
      exists evs, topic, p, t, []. split; [done|]. split; [apply not_elem_of_nil|]. done.
    + rewrite lookup_insert_ne in Hc by done. by apply Hkeep.
  - by apply Hkeep.
  - done.
Qed.

(** Over any decisions, gossip, bridged payloads and restarts, while the consent file can be written: an event is
    left to gossip only after gossip of this session from that member of that group within a minute, which was not the
    echo of a bridged payload; it is sent over the relay exactly on the user's last word for the group, and the user is
    asked when there is none. *)
Theorem route_follows_evidence evs g m now :
  Forall (fun ev => seal_ok ev = true) evs ->
  let r := route_run local evs fresh_route in
  match decide_route (ro_cache r) (ro_consent r) g m now with
  | LetGossipCarry => gossip_seen local g m now evs
  | WrapAndSend => last_decision g evs = Some ConsentedOptIn
  | DropDeclined => last_decision g evs = Some DeclinedOptOut
  | PromptConsent => default NotAsked (last_decision g evs) = NotAsked
  end.
Proof.
  intros Hok r. destruct (consent_tracks evs Hok) as (_ & _ & Hl). unfold decide_route.
  destruct (reach_lookup g m now (ro_cache r)) eqn:Hr.
  - unfold reach_lookup in Hr. destruct (ro_cache r !! (g, m)) as [t|] eqn:Hc; [|done].
    destruct (N.ltb_spec (saturating_sub now t) STALE_AFTER_MS); [by eapply cache_tracks|done].
  - unfold consent_lookup, r. rewrite Hl. by destruct (last_decision g evs) as [[]|].
Qed.

(** What the bridge delivered is not taken for gossip when the daemon echoes it within thirty seconds, whatever else
    happens in between short of a restart or a clock that steps back. *)
Theorem bridged_echo_ignored r p t evs topic from now :
  EvRestarted ∉ evs -> (forall p' t', EvBridged p' t' ∈ evs -> t <= t') -> saturating_sub now t < SHADOW_WINDOW_MS ->
  let r' := route_run local (EvBridged p t :: evs) r in
  record_event local topic p from now r' = r'.
Proof.
  intros Hr Hm Hnow r'. assert (shadow_is_recent (hash_payload p) now (ro_shadow r') = true) as Hrec.
  { assert (exists t', ro_shadow r' !! hash_payload p = Some t' /\ t <= t') as (t' & Ht' & Hle).
    { unfold r'. clear r' Hnow. induction evs as [|ev evs IH] using rev_ind; [exists t; split; [by apply lookup_insert_eq|lia]|].
      destruct IH as (t' & Ht' & Hle); [set_solver..|]. change (EvBridged p t :: evs ++ [ev]) with ((EvBridged p t :: evs) ++ [ev]).
      rewrite route_run_snoc. destruct ev as [g' d sealed|topic' p' from' now'|p' now'|]; cbn [route_step]; [by exists t'| | |set_solver].
      - rewrite (proj1 (proj2 (record_event_same _ _ _ _ _))). by exists t'.
      - cbn. unfold shadow_mark. destruct (decide (hash_payload p' = hash_payload p)) as [->|Hne].
        + exists now'. rewrite lookup_insert_eq. split; [done|]. apply (Hm p'). set_solver.
        + exists t'. by rewrite lookup_insert_ne. }
    unfold shadow_is_recent. rewrite Ht'. apply N.ltb_lt. unfold saturating_sub in *. lia. }
  unfold record_event, classify_sse_event. destruct from as [from|]; [|done]. cbn [mbind option_bind]. rewrite Hrec.
  by destruct (eq_ignore_ascii_case from local).
Qed.

(** A user who let a group's events go over the relay and then declined, with the file not written the second
    time, is taken back to the first answer by a restart: events go over the relay again without a question. *)
Theorem unsealed_opt_out_reverts r g m now :
  bc_persist (ro_consent r) = true ->
  let r' := route_run local [EvDecided g ConsentedOptIn true; EvDecided g DeclinedOptOut false; EvRestarted] r in
  decide_route (ro_cache r') (ro_consent r') g m now = WrapAndSend.
Proof.
  intros Hp. unfold route_run, flip. cbn [foldl route_step consent_set]. unfold consent_flush.
  cbn [bc_inner bc_persist ro_consent ro_cache ro_file]. rewrite Hp. unfold decide_route, reach_lookup. rewrite lookup_empty.
  unfold consent_lookup, consent_load. cbn [andb bc_inner from_option id]. by rewrite lookup_insert_eq.
Qed.
End runs.

(** ** A run *)

#[local] Instance gr_hash : PayloadHash := fun p => foldr N.add 0 p.
Definition gr_events : list RouteEvent :=
  [EvDecided "g1" ConsentedOptIn true; EvBridged [7] 1000; EvGossip "x0x.named_group/g1/metadata" [7] (Some "ab"%string) 2000; EvRestarted;
   EvGossip "x0x.named_group/g2/metadata" [8] (Some "ab"%string) 3000].

Lemma route_follows_evidence_witness :
  last_decision "g1" gr_events = Some ConsentedOptIn /\ gossip_seen "me" "g2" "ab" 4000 gr_events.
Proof.
  split.
  - exact (route_follows_evidence "me" gr_events "g1" "ab" 4000 ltac:(repeat constructor)).
  - exact (route_follows_evidence "me" gr_events "g2" "ab" 4000 ltac:(repeat constructor)).
Defined.
Lemma bridged_echo_ignored_witness :
  ro_cache (route_run "me" [EvBridged [7] 1000; EvGossip "x0x.named_group/g1/metadata" [7] (Some "ab"%string) 2000] fresh_route) = ∅.
Proof.
  change (ro_cache (record_event "me" "x0x.named_group/g1/metadata" [7] (Some "ab"%string) 2000 (route_run "me" [EvBridged [7] 1000] fresh_route)) = ∅).
  rewrite (bridged_echo_ignored "me" fresh_route [7] 1000 []); [done|apply not_elem_of_nil|set_solver|done].
Defined.
Lemma unsealed_opt_out_reverts_witness :
  let r := route_run "me" [EvDecided "g1" ConsentedOptIn true; EvDecided "g1" DeclinedOptOut false; EvRestarted] fresh_route in
  decide_route (ro_cache r) (ro_consent r) "g1" "ab" 5000 = WrapAndSend.
Proof. exact (unsealed_opt_out_reverts "me" fresh_route "g1" "ab" 5000 eq_refl). Defined.
