(* ===== verification/GroupBridge.v ===== *)
(** * Group events over the relay

    Models [crates/fetchit-chat/src/groups/bridge.rs] (the sealed wrapper of a signed group event),
    [dispatch.rs] with the builders of the owner's events ([bridge_member_removed.rs] and its
    siblings), and the client's calls on both sides ([client.rs] [send_x0xd_metadata_event],
    [dispatch_inbound_bridge], [reply_to_bridged_join]).  Calls that send run over the endpoint's
    stores; the inbound one over the joins of [PendingJoin].  What is drawn for an envelope is a
    [Draw].  The postcard codec of the wrapper and the JSON printer are parameters. *)
From stdpp Require Import pretty.
From S2P Require Import Prelude SendState Attachment Bubble OutboxStore Overlay SeqGap.
From S2P Require Import RelayProto RelayAuth Transit TransitSqlite GroupLog PairRecord ShareUri Text RelayHttp DeviceFabric PairIndex.
From S2P Require Import Conversation ConvRegistry ContactCard Inbound EpochRecovery Outbound Publish PendingJoin JoinRuns Pairing MultiHome DmLookup.
From S2P Require Import Endpoint Daemon ActorDoc GroupRoute.
Open Scope rust_scope.

Definition MEMBER_JOINED_DOMAIN : bytes := ascii_bytes "x0x.named_group.member_joined.v2".
Definition KDF_INFO_BRIDGE : bytes := ascii_bytes "lit/bridge/v1".
Definition AEAD_NONCE_LEN : N := 12.
Definition BRIDGE_FRESHNESS_WINDOW_MS : N := 30 * 60 * 1000.

(** ** Events *)

Inductive BridgeRole := RoleOwner | RoleAdmin | RoleModerator | RoleMember | RoleGuest.
Definition role_as_u8 (r : BridgeRole) : N :=
  match r with RoleOwner => 0 | RoleAdmin => 1 | RoleModerator => 2 | RoleMember => 3 | RoleGuest => 4 end.
Definition role_as_wire_str (r : BridgeRole) : string :=
  match r with
  | RoleOwner => "owner" | RoleAdmin => "admin" | RoleModerator => "moderator" | RoleMember => "member" | RoleGuest => "guest"
  end.

Record MemberJoinedInputs := {
  mj_group_id : string; mj_stable_group_id : option string; mj_member_agent_id : string; mj_member_public_key_b64 : string;
  mj_role : BridgeRole; mj_display_name : option string; mj_inviter_agent_id : string; mj_invite_secret : string;
  mj_ts_ms : N; mj_treekem_key_package_b64 : option string;
}.

(** The length in four bytes, clamped, and the bytes. *)
Definition push_lp_clamped (b : bytes) : bytes := u32_be (N.min (len b) u32_max) ++ b.

Definition canonical_member_joined_bytes (i : MemberJoinedInputs) : bytes :=
  MEMBER_JOINED_DOMAIN
  ++ push_lp_clamped (ascii_bytes (mj_group_id i))
  ++ push_lp_clamped (ascii_bytes (default EmptyString (mj_stable_group_id i)))
  ++ push_lp_clamped (ascii_bytes (mj_member_agent_id i))
  ++ push_lp_clamped (ascii_bytes (mj_member_public_key_b64 i))
  ++ [role_as_u8 (mj_role i)]
  ++ push_lp_clamped (ascii_bytes (default EmptyString (mj_display_name i)))
  ++ push_lp_clamped (ascii_bytes (mj_inviter_agent_id i))
  ++ push_lp_clamped (ascii_bytes (mj_invite_secret i))
  ++ u64_be (mj_ts_ms i)
  ++ push_lp_clamped (ascii_bytes (default EmptyString (mj_treekem_key_package_b64 i))).

(** How [json!] writes an optional member. *)
Definition opt_string (o : option string) : Value := match o with Some s => VString s | None => Null end.
Definition opt_number (o : option N) : Value := match o with Some n => Number (PosInt n) | None => Null end.
Definition opt_value (o : option Value) : Value := default Null o.

Definition build_member_joined_event (i : MemberJoinedInputs) (signature_b64 : string) : Value :=
  VObject {[ "event" := VString "member_joined"; "group_id" := VString (mj_group_id i);
             "stable_group_id" := opt_string (mj_stable_group_id i); "member_agent_id" := VString (mj_member_agent_id i);
             "member_public_key_b64" := VString (mj_member_public_key_b64 i); "role" := VString (role_as_wire_str (mj_role i));
             "display_name" := opt_string (mj_display_name i); "inviter_agent_id" := VString (mj_inviter_agent_id i);
             "invite_secret" := VString (mj_invite_secret i); "ts_ms" := Number (PosInt (mj_ts_ms i));
             "treekem_key_package_b64" := opt_string (mj_treekem_key_package_b64 i); "signature_b64" := VString signature_b64 ]}.

Definition build_member_removed_event (group_id : string) (revision : N) (actor agent_id : string)
    (treekem_commit_b64 : option string) (treekem_epoch : option N) (commit_json : option Value) : Value :=
  VObject {[ "event" := VString "member_removed"; "group_id" := VString group_id; "revision" := Number (PosInt revision);
             "actor" := VString actor; "agent_id" := VString agent_id; "treekem_commit_b64" := opt_string treekem_commit_b64;
             "treekem_epoch" := opt_number treekem_epoch; "commit" := opt_value commit_json ]}.
Definition build_member_role_updated_event (group_id : string) (revision : N) (actor agent_id role : string)
    (commit_json : option Value) : Value :=
  VObject {[ "event" := VString "member_role_updated"; "group_id" := VString group_id; "revision" := Number (PosInt revision);
             "actor" := VString actor; "agent_id" := VString agent_id; "role" := VString role; "commit" := opt_value commit_json ]}.
Definition build_policy_updated_event (group_id : string) (revision : N) (actor : string) (policy_json : Value)
    (commit_json : option Value) : Value :=
  VObject {[ "event" := VString "policy_updated"; "group_id" := VString group_id; "revision" := Number (PosInt revision);
             "actor" := VString actor; "policy" := policy_json; "commit" := opt_value commit_json ]}.
Definition build_member_banned_event (group_id : string) (revision : N) (actor agent_id : string) (reason : option string)
    (commit_json : option Value) : Value :=
  VObject {[ "event" := VString "member_banned"; "group_id" := VString group_id; "revision" := Number (PosInt revision);
             "actor" := VString actor; "agent_id" := VString agent_id; "reason" := opt_string reason; "commit" := opt_value commit_json ]}.
Definition build_group_deleted_event (group_id : string) (revision : N) (actor : string) (commit_json : option Value) : Value :=
  VObject {[ "event" := VString "group_deleted"; "group_id" := VString group_id; "revision" := Number (PosInt revision);
             "actor" := VString actor; "commit" := opt_value commit_json ]}.

(** The members only the joiner may see. *)
Definition commit_only_member_added (event : Value) : Value :=
  match event with
  | VObject m => VObject (delete "welcome_ref" (delete "treekem_welcome_b64" m))
  | v => v
  end.

(** ** The sealed wrapper *)

Record X0xdGroupMetadataEventWrapper := mkWrapper {
  wr_topic : string;
  wr_payload_b64 : string;
  wr_joiner_kem_pubkey : option bytes;
}.

Class BridgeCodec := {
  wrapper_encode : X0xdGroupMetadataEventWrapper -> result bytes string;
  wrapper_decode : bytes -> result X0xdGroupMetadataEventWrapper string;
  value_to_vec : Value -> result bytes string;
  value_from_slice : bytes -> result Value string;
}.

Definition to_postcard `{BridgeCodec} (w : X0xdGroupMetadataEventWrapper) : result bytes ChatError :=
  to_invalid "bridge wrapper encode" (wrapper_encode w).
Definition from_postcard `{BridgeCodec} (b : bytes) : result X0xdGroupMetadataEventWrapper ChatError :=
  to_invalid "bridge wrapper decode" (wrapper_decode b).

Definition encode_payload_b64 `{Base64, BridgeCodec} (event_json : Value) : result string ChatError :=
  let? b := to_invalid "event json encode" (value_to_vec event_json) in Ok (b64_encode b).

Definition agent_id_short (agent_id_hex : string) : string :=
  let n := Nat.min (String.length agent_id_hex) 12 in
  if is_char_boundary agent_id_hex n then String.substring 0 n agent_id_hex else agent_id_hex.

Definition recipient_kem_key `{Base64} (agent_id_hex : string) (cs : Contacts) : result bytes ChatError :=
  let? card := card_load agent_id_hex cs in
  match card with
  | None => Err (ShareCardMissing (agent_id_short agent_id_hex))
  | Some card =>
      match b64_decode (cc_kem_public_key_b64 card) with
      | Some kem => Ok kem
      | None => Err (Invalid "share-card KEM pubkey b64 decode")
      end
  end.

Definition bridge_aad : bytes := AAD_DOMAIN ++ ascii_bytes "|bridge-v1|".

Record SealedBridgeParts := { sb_kem_ciphertext : bytes; sb_nonce : bytes; sb_ciphertext : bytes }.

Section seal.
  Context `{Base64, EnvelopeCodec, ChatCipher, ChatSeal, AgentSigner, BridgeCodec, ErrorDisplay}.

Definition seal_bridge_wrapper (recipient_kem_pub : bytes) (wrapper : X0xdGroupMetadataEventWrapper) (dr : Draw)
    : result SealedBridgeParts ChatError :=
  if negb (len recipient_kem_pub =? KEM_PUBLIC_KEY_LEN)
  then Err (Invalid ("bridge recipient KEM pub key length: expected " +:+ pretty KEM_PUBLIC_KEY_LEN +:+ ", got " +:+ pretty (len recipient_kem_pub)))
  else
    let? plaintext := to_postcard wrapper in
    let? kem := kem_encapsulate recipient_kem_pub (dr_seed dr) in
    let aead_key := derive_aead_key kem.2 KDF_INFO_BRIDGE in
    let? ciphertext := aead_seal aead_key (dr_nonce dr) plaintext bridge_aad in
    Ok {| sb_kem_ciphertext := kem.1; sb_nonce := dr_nonce dr; sb_ciphertext := ciphertext |}.

Definition prefix_error {A} (what : string) (r : result A ChatError) : result A ChatError :=
  match r with Ok a => Ok a | Err e => Err (Invalid (what +:+ ": " +:+ error_to_string e)) end.

Definition unseal_bridge_wrapper (our_kem_sec kem_ciphertext nonce ciphertext : bytes)
    : result X0xdGroupMetadataEventWrapper ChatError :=
  if negb (len nonce =? AEAD_NONCE_LEN)
  then Err (Invalid ("bridge nonce length: expected " +:+ pretty AEAD_NONCE_LEN +:+ ", got " +:+ pretty (len nonce)))
  else
    let? ss := prefix_error "bridge kem decap" (kem_decapsulate our_kem_sec kem_ciphertext) in
    let aead_key := derive_aead_key ss KDF_INFO_BRIDGE in
    match aead_open aead_key nonce ciphertext bridge_aad with
    | None => Err (Invalid "bridge aead open")
    | Some plaintext => from_postcard plaintext
    end.

(** An envelope of the bridge before it is signed. *)
Definition bridge_envelope (local machine : bytes) (now : N) (parts : SealedBridgeParts) : TransitEnvelope :=
  {| e_version := WIRE_VERSION; e_kind := X0xdGroupMetadataEvent; e_group_id := None; e_tenant_id := None;
     e_sender_agent_id := local; e_sender_machine_id := machine; e_timestamp_ms := now; e_epoch := 0;
     e_ciphertext := sb_ciphertext parts; e_nonce := sb_nonce parts; e_kem_ciphertext := sb_kem_ciphertext parts;
     e_sender_signature := [] |}.

Definition seal_and_sign_bridge_wrapper (recipient_agent_id recipient_kem_pub : bytes) (wrapper : X0xdGroupMetadataEventWrapper)
    (local_agent_id local_machine_id : bytes) (dr : Draw) : result Outbound.OutboundEnvelope ChatError :=
  let? parts := seal_bridge_wrapper recipient_kem_pub wrapper dr in
  let env := bridge_envelope local_agent_id local_machine_id (dr_now dr) parts in
  let? canonical := canonical_envelope_bytes env in
  let? sig := to_invalid "bridge envelope sign" (signer_sign (SIGN_DOMAIN_ENVELOPE ++ canonical)) in
  Ok (mkOut recipient_agent_id (with_signature sig env)).

Definition build_bridge_outbox (recipient_agent_id recipient_kem_pub : bytes) (topic payload_b64 : string)
    (local_agent_id local_machine_id : bytes) (dr : Draw) : result Outbound.OutboundEnvelope ChatError :=
  seal_and_sign_bridge_wrapper recipient_agent_id recipient_kem_pub (mkWrapper topic payload_b64 None) local_agent_id local_machine_id dr.

(** [dispatch_owner_broadcast]: an envelope for each recipient in turn, the [i]th with the [i]th draw. *)
Fixpoint broadcast_each (topic payload_b64 : string) (local_agent_id local_machine_id : bytes) (draws : nat -> Draw) (i : nat)
    (recipients_kem : list (bytes * bytes)) : result (list Outbound.OutboundEnvelope) ChatError :=
  match recipients_kem with
  | [] => Ok []
  | (aid, kem_pub) :: rest =>
      let? env := build_bridge_outbox aid kem_pub topic payload_b64 local_agent_id local_machine_id (draws i) in
      let? out := broadcast_each topic payload_b64 local_agent_id local_machine_id draws (S i) rest in
      Ok (env :: out)
  end.
Definition dispatch_owner_broadcast (topic : string) (event_json : Value) (recipients_kem : list (bytes * bytes))
    (local_agent_id local_machine_id : bytes) (draws : nat -> Draw) : result (list Outbound.OutboundEnvelope) ChatError :=
  let? payload_b64 := encode_payload_b64 event_json in
  broadcast_each topic payload_b64 local_agent_id local_machine_id draws 0 recipients_kem.
End seal.

Definition check_bridge_event_freshness (transit_ts_ms now_ms : N) : result unit ChatError :=
  let drift := (transit_ts_ms - now_ms) + (now_ms - transit_ts_ms) in
  if BRIDGE_FRESHNESS_WINDOW_MS <? drift then Err (Invalid "bridge envelope ts_ms outside freshness window") else Ok tt.

(** ** The owner's fan-out *)

Definition resolve_hints_for_recipient (recipient_agent_id_hex : string) (primary_relay_url : option string) (cs : Contacts)
    : option RendezvousHintsV1 :=
  match resolve_recipient_hints recipient_agent_id_hex cs with
  | Ok (Some hints) => Some hints
  | _ => (fun url => {| rh_relays := [url] |}) <$> primary_relay_url
  end.

(** The loop of the builders: the members that are told and have a card. *)
Fixpoint fanout_recipients `{Base64} (skip : bytes -> bool) (active_member_aids : list bytes) (cs : Contacts)
    : result (list (bytes * bytes)) ChatError :=
  match active_member_aids with
  | [] => Ok []
  | aid :: rest =>
      if skip aid then fanout_recipients skip rest cs
      else match recipient_kem_key (hex_encode aid) cs with
           | Ok kem => let? out := fanout_recipients skip rest cs in Ok ((aid, kem) :: out)
           | Err (ShareCardMissing _) => fanout_recipients skip rest cs
           | Err e => Err e
           end
  end.

Section dispatch.
  Context `{Base64, EnvelopeCodec, ChatCipher, ChatSeal, AgentSigner, BridgeCodec}.

Definition either (a b : bytes) (aid : bytes) : bool := bool_decide (aid = a) || bool_decide (aid = b).
Definition only (a : bytes) (aid : bytes) : bool := bool_decide (aid = a).

Definition build_member_removed_envelopes (group_id metadata_topic : string) (revision : N) (actor removed : bytes)
    (treekem_commit_b64 : option string) (treekem_epoch : option N) (commit_json : option Value) (active_member_aids : list bytes)
    (local_machine_id : bytes) (draws : nat -> Draw) (cs : Contacts) : result (list Outbound.OutboundEnvelope) ChatError :=
  let event := build_member_removed_event group_id revision (hex_encode actor) (hex_encode removed)
                 treekem_commit_b64 treekem_epoch commit_json in
  let? recipients := fanout_recipients (either actor removed) active_member_aids cs in
  dispatch_owner_broadcast metadata_topic event recipients actor local_machine_id draws.

Definition build_member_added_envelopes (metadata_topic : string) (actor joiner : bytes) (event : Value)
    (active_member_aids : list bytes) (local_machine_id : bytes) (draws : nat -> Draw) (cs : Contacts)
    : result (list Outbound.OutboundEnvelope) ChatError :=
  let? recipients := fanout_recipients (either actor joiner) active_member_aids cs in
  dispatch_owner_broadcast metadata_topic event recipients actor local_machine_id draws.

Definition build_member_role_updated_envelopes (group_id metadata_topic : string) (revision : N) (actor target : bytes) (new_role : string)
    (commit_json : option Value) (active_member_aids : list bytes) (local_machine_id : bytes) (draws : nat -> Draw) (cs : Contacts)
    : result (list Outbound.OutboundEnvelope) ChatError :=
  let event := build_member_role_updated_event group_id revision (hex_encode actor) (hex_encode target) new_role commit_json in
  let? recipients := fanout_recipients (only actor) active_member_aids cs in
  dispatch_owner_broadcast metadata_topic event recipients actor local_machine_id draws.

Definition build_policy_updated_envelopes (group_id metadata_topic : string) (revision : N) (actor : bytes) (policy_json : Value)
    (commit_json : option Value) (active_member_aids : list bytes) (local_machine_id : bytes) (draws : nat -> Draw) (cs : Contacts)
    : result (list Outbound.OutboundEnvelope) ChatError :=
  let event := build_policy_updated_event group_id revision (hex_encode actor) policy_json commit_json in
  let? recipients := fanout_recipients (only actor) active_member_aids cs in
  dispatch_owner_broadcast metadata_topic event recipients actor local_machine_id draws.

Definition build_member_banned_envelopes (group_id metadata_topic : string) (revision : N) (actor banned : bytes) (reason : option string)
    (commit_json : option Value) (active_member_aids : list bytes) (local_machine_id : bytes) (draws : nat -> Draw) (cs : Contacts)
    : result (list Outbound.OutboundEnvelope) ChatError :=
  let event := build_member_banned_event group_id revision (hex_encode actor) (hex_encode banned) reason commit_json in
  let? recipients := fanout_recipients (either actor banned) active_member_aids cs in
  dispatch_owner_broadcast metadata_topic event recipients actor local_machine_id draws.

Definition build_group_deleted_envelopes (group_id metadata_topic : string) (revision : N) (actor : bytes)
    (commit_json : option Value) (active_member_aids : list bytes) (local_machine_id : bytes) (draws : nat -> Draw) (cs : Contacts)
    : result (list Outbound.OutboundEnvelope) ChatError :=
  let event := build_group_deleted_event group_id revision (hex_encode actor) commit_json in
  let? recipients := fanout_recipients (only actor) active_member_aids cs in
  dispatch_owner_broadcast metadata_topic event recipients actor local_machine_id draws.

  Context {W : Type} (en : Endpoint W).

(** The loop of the dispatchers: each envelope to the router, up to the first failure. *)
Fixpoint route_each (envelopes : list Outbound.OutboundEnvelope) : Endpoint.M W unit :=
  match envelopes with
  | [] => Endpoint.ret tt
  | env :: rest =>
      let recipient := hex_encode (oe_recipient env) in
      let* hints := Endpoint.read (fun s => resolve_hints_for_recipient recipient (en_primary_relay_url en) (st_contacts s)) in
      let* _ := hand_over en recipient (transport_out en OutDm (oe_envelope env)) hints in
      route_each rest
  end.

(** Build from the stored cards, then route. *)
Definition build_and_route (build : Contacts -> result (list Outbound.OutboundEnvelope) ChatError) : Endpoint.M W unit :=
  let* envelopes := Endpoint.read (fun s => build (st_contacts s)) in
  let* envelopes := Endpoint.of_result envelopes in
  route_each envelopes.

Definition dispatch_member_removed_bridge (group_id metadata_topic : string) (revision : N) (actor removed : bytes)
    (treekem_commit_b64 : option string) (treekem_epoch : option N) (commit_json : option Value) (active_member_aids : list bytes)
    (draws : nat -> Draw) : Endpoint.M W unit :=
  build_and_route (build_member_removed_envelopes group_id metadata_topic revision actor removed treekem_commit_b64 treekem_epoch
                     commit_json active_member_aids (en_machine_id en) draws).
Definition dispatch_member_added_bridge (metadata_topic : string) (actor joiner : bytes) (event : Value) (active_member_aids : list bytes)
    (draws : nat -> Draw) : Endpoint.M W unit :=
  build_and_route (build_member_added_envelopes metadata_topic actor joiner event active_member_aids (en_machine_id en) draws).
Definition dispatch_member_role_updated_bridge (group_id metadata_topic : string) (revision : N) (actor target : bytes) (new_role : string)
    (commit_json : option Value) (active_member_aids : list bytes) (draws : nat -> Draw) : Endpoint.M W unit :=
  build_and_route (build_member_role_updated_envelopes group_id metadata_topic revision actor target new_role commit_json
                     active_member_aids (en_machine_id en) draws).
Definition dispatch_policy_updated_bridge (group_id metadata_topic : string) (revision : N) (actor : bytes) (policy_json : Value)
    (commit_json : option Value) (active_member_aids : list bytes) (draws : nat -> Draw) : Endpoint.M W unit :=
  build_and_route (build_policy_updated_envelopes group_id metadata_topic revision actor policy_json commit_json
                     active_member_aids (en_machine_id en) draws).
Definition dispatch_member_banned_bridge (group_id metadata_topic : string) (revision : N) (actor banned : bytes) (reason : option string)
    (commit_json : option Value) (active_member_aids : list bytes) (draws : nat -> Draw) : Endpoint.M W unit :=
  build_and_route (build_member_banned_envelopes group_id metadata_topic revision actor banned reason commit_json
                     active_member_aids (en_machine_id en) draws).
Definition dispatch_group_deleted_bridge (group_id metadata_topic : string) (revision : N) (actor : bytes)
    (commit_json : option Value) (active_member_aids : list bytes) (draws : nat -> Draw) : Endpoint.M W unit :=
  build_and_route (build_group_deleted_envelopes group_id metadata_topic revision actor commit_json
                     active_member_aids (en_machine_id en) draws).
End dispatch.

(** ** The client *)

Section owner_key.
  Context `{Base64, Base64Url, Sha256, MlDsaBackend, UrlParse, UrlEdit, FormUrl, PairErrorDisplay, PairBodies}.
  Context {W : Type} `{IpDisplay, RelayNet, HS : !RelayServer W}.

(** [io_card] and [io_mark]: whether the card and the stamp file can be written. *)
Definition resolve_owner_kem_with_fallback (relay : option Url) (agent_id_hex : string) (io_card io_mark : result unit ChatError)
    : Endpoint.M W bytes :=
  fun s =>
    match recipient_kem_key agent_id_hex (st_contacts s) with
    | Err (ShareCardMissing _) =>
        match relay with
        | None => (Err (ShareCardMissing (agent_id_short agent_id_hex)), s)
        | Some relay =>
            let '(found, cs, marks, w) := resolve_and_persist_member_card relay agent_id_hex io_card io_mark (st_contacts s) (st_marks s) (st_net s) in
            let s := mkStores (st_registry s) cs marks (st_fabric s) (st_outbox s) (st_neg_cache s) (st_group_kinds s) w (st_trace s) in
            match found with
            | Err e => (Err e, s)
            | Ok true => (recipient_kem_key agent_id_hex cs, s)
            | Ok false => (Err (ShareCardMissing (agent_id_short agent_id_hex)), s)
            end
        end
    | other => (other, s)
    end.
End owner_key.

Section send_event.
  Context `{Base64, EnvelopeCodec, ChatCipher, ChatSeal, AgentSigner, BridgeCodec}.
  Context {W : Type} (en : Endpoint W).

Definition send_x0xd_metadata_event (recipient_agent_id_hex group_id topic : string) (signed_event_json_bytes : bytes) (now_ms : N)
    (dr : Draw) (r : RouteState) : Endpoint.M W BridgeDecision :=
  match decide_route (ro_cache r) (ro_consent r) group_id recipient_agent_id_hex now_ms with
  | LetGossipCarry => Endpoint.ret LetGossipCarry
  | DropDeclined => Endpoint.fail (BridgeDeclined group_id)
  | PromptConsent => Endpoint.fail (BridgeNeedsConsent group_id)
  | WrapAndSend =>
      let* kem := Endpoint.read (fun s => recipient_kem_key recipient_agent_id_hex (st_contacts s)) in
      let* kem := Endpoint.of_result kem in
      let* recipient_aid := Endpoint.of_result (decode_agent "recipient agent_id hex" recipient_agent_id_hex) in
      let* local_aid := Endpoint.of_result (decode_agent "local agent_id hex" (own_agent en)) in
      let* outbound := Endpoint.of_result (build_bridge_outbox recipient_aid kem topic (b64_encode signed_event_json_bytes) local_aid
                                             (en_machine_id en) dr) in
      let* hints := Endpoint.read (fun s => resolve_hints_for_recipient recipient_agent_id_hex (en_primary_relay_url en) (st_contacts s)) in
      let* _ := hand_over en (hex_encode (oe_recipient outbound)) (transport_out en OutDm (oe_envelope outbound)) hints in
      Endpoint.ret WrapAndSend
  end.
End send_event.

(** The task [dispatch_inbound_bridge] spawns. *)
Record JoinReply := mkReply { jr_wrapper : X0xdGroupMetadataEventWrapper; jr_joiner : bytes }.

Section inbound.
  Context {W : Type} `{JoinSeams W} `{JsonObject} `{Base64} `{StatusText} `{Sha256}.
  Context `{!JsonFile PendingJoin} `{!JsonFile ConvergenceRecord} `{!HashIter string bytes}.
  Context `{ChatCipher, BridgeCodec, ErrorDisplay, PayloadHash}.

(** The owner's side of a bridged join. *)
Definition apply_bridged_join (wrapper : X0xdGroupMetadataEventWrapper) (sender : bytes) : PendingJoin.M W (option JoinReply) :=
  match b64_decode (wr_payload_b64 wrapper) with
  | None => raise (Invalid "join-bridge: payload b64")
  | Some event_bytes =>
      match group_id_from_member_joined event_bytes with
      | None => raise (Invalid "join-bridge: captured member_joined has no group_id")
      | Some group_id =>
          let! applied := call_x0xd (apply_metadata_event group_id (wr_payload_b64 wrapper) (hex_encode sender)) in
          match applied with
          | Ok _ => PendingJoin.ret (Some (mkReply wrapper sender))
          | Err e =>
              if route_miss_404 e then let! _ := mark_engine_a_unsupported in PendingJoin.ret None
              else if apply_conflict_409 e then PendingJoin.ret (Some (mkReply wrapper sender))
              else raise (from_x0xd e)
          end
      end
  end.

Definition dispatch_wrapper (wrapper : X0xdGroupMetadataEventWrapper) (sender : bytes) : PendingJoin.M W (option JoinReply) :=
  if is_some (wr_joiner_kem_pubkey wrapper) then apply_bridged_join wrapper sender
  else let! _ := dispatch_join_result (wr_topic wrapper) (wr_payload_b64 wrapper) (hex_encode sender) in PendingJoin.ret None.

(** The call on the joins' state, and the marked payloads. *)
Definition dispatch_inbound_bridge (kem_secret_key : bytes) (transit : TransitEnvelope) (now : N) (r : RouteState)
    : PendingJoin.M W (option JoinReply) * RouteState :=
  if negb (bool_decide (e_kind transit = X0xdGroupMetadataEvent)) then (raise (Invalid "dispatch_inbound_bridge called on another kind"), r)
  else match unseal_bridge_wrapper kem_secret_key (e_kem_ciphertext transit) (e_nonce transit) (e_ciphertext transit) with
       | Err e => (raise e, r)
       | Ok wrapper => (dispatch_wrapper wrapper (e_sender_agent_id transit), mark_bridged (b64_decode (wr_payload_b64 wrapper)) now r)
       end.

(** The receiver [bridge.rs] offers, over the daemon's publish call. *)
Definition handle_inbound_bridge_envelope (kem_secret_key : bytes) (transit : TransitEnvelope) (now : N) (w : W) : result unit ChatError * W :=
  if negb (bool_decide (e_kind transit = X0xdGroupMetadataEvent)) then (Err (Invalid "handle_inbound_bridge_envelope called on another kind"), w)
  else match check_bridge_event_freshness (e_timestamp_ms transit) now with
       | Err e => (Err e, w)
       | Ok _ =>
           match unseal_bridge_wrapper kem_secret_key (e_kem_ciphertext transit) (e_nonce transit) (e_ciphertext transit) with
           | Err e => (Err e, w)
           | Ok wrapper =>
               let '(r, w) := publish (wr_topic wrapper) (wr_payload_b64 wrapper) w in
               (match r with Ok u => Ok u | Err e => Err (from_x0xd e) end, w)
           end
       end.
End inbound.

Section reply.
  Context `{Base64, EnvelopeCodec, ChatCipher, ChatSeal, AgentSigner, BridgeCodec, JsonObject}.
  Context {W : Type} `{DaemonNet W, BodyText, GroupsJson}.
  (** The signer's agent, waiting, and the relay's log when a relay is configured. *)
  Context (en : Endpoint W) (signer_agent_id : bytes) (sleep : N -> W -> W) (log_append : option (GroupLogIntent -> W -> result unit string * W)).

Definition JOIN_RESULT_DELAYS : list N := [150; 250; 400; 600; 900; 1000; 1000; 1000; 2000].

Fixpoint poll_join_result (delays : list N) (path : string) (w : W) : result Value ChatError * W :=
  match delays with
  | [] => (Err (Invalid "join reply: inline join-result not staged within the poll window"), w)
  | delay :: rest =>
      match get_json value_from_slice path w with
      | (Ok v, w) => (Ok v, w)
      | (Err (Daemon status body), w) =>
          if status =? 404 then poll_join_result rest path (sleep delay w) else (Err (Daemon status body), w)
      | (Err e, w) => (Err e, w)
      end
  end.
Definition fetch_inline_join_result (group_id joiner_hex : string) : W -> result Value ChatError * W :=
  poll_join_result JOIN_RESULT_DELAYS ("/groups/" +:+ group_id +:+ "/join-result/" +:+ joiner_hex).

Fixpoint append_each (append : GroupLogIntent -> W -> result unit string * W) (intents : list GroupLogIntent) (w : W) : W :=
  match intents with [] => w | i :: rest => append_each append rest (append i w).2 end.
Definition append_join_reply_log (member_joined_payload joiner_agent : bytes) (event : Value) : Endpoint.M W unit :=
  match log_append, group_id_from_member_joined member_joined_payload with
  | Some append, Some mls_gid =>
      match join_reply_log_intents mls_gid joiner_agent (value_to_vec event) (value_to_vec (commit_only_member_added event)) with
      | Ok intents => on_net (fun w => (tt, append_each append intents w))
      | Err _ => Endpoint.ret tt
      end
  | _, _ => Endpoint.ret tt
  end.

(** The roster's entries that are agent ids. *)
Definition roster_aids (roster : list string) : list bytes :=
  omap (fun aid => b ← hex_decode aid; if len b =? 32 then Some b else None) roster.

Definition fan_member_added_to_existing (member_joined_payload : bytes) (event : Value) (metadata_topic : string) (joiner_agent : bytes)
    (draws : nat -> Draw) : Endpoint.M W unit :=
  match group_id_from_member_joined member_joined_payload with
  | None => Endpoint.fail (Invalid "join reply: member_joined has no group_id")
  | Some mls_group_id =>
      let* group_id := Endpoint.of_result (group_id_parse mls_group_id) in
      let* roster := on_net (Groups.members group_id) in
      let* roster := Endpoint.of_result roster in
      dispatch_member_added_bridge en metadata_topic signer_agent_id joiner_agent (commit_only_member_added event) (roster_aids roster) draws
  end.

(** The [option]s of the source's [ok_or_else]. *)
Definition require_some {A} (e : string) (o : option A) : Endpoint.M W A :=
  match o with Some a => Endpoint.ret a | None => Endpoint.fail (Invalid e) end.

(** The reply takes the first draw, the fan-out the others. *)
Definition reply_to_bridged_join (wrapper : X0xdGroupMetadataEventWrapper) (joiner_agent : bytes) (dr : Draw) (draws : nat -> Draw)
    : Endpoint.M W unit :=
  let* joiner_kem := require_some "join reply: wrapper missing joiner kem" (wr_joiner_kem_pubkey wrapper) in
  let* payload := require_some "join reply: payload b64" (b64_decode (wr_payload_b64 wrapper)) in
  let* stable_group_id := require_some "join reply: member_joined has no stable_group_id" (stable_group_id_from_member_joined payload) in
  let* joiner_hex := require_some "join reply: member_joined has no member_agent_id" (member_agent_id_from_member_joined payload) in
  if negb (eq_ignore_ascii_case (hex_encode joiner_agent) joiner_hex)
  then Endpoint.fail (Invalid ("join reply: bridge sender " +:+ hex_encode joiner_agent +:+ " != member " +:+ joiner_hex +:+ "; refusing reply"))
  else
    let* fetched := on_net (fetch_inline_join_result stable_group_id joiner_hex) in
    let* fetched := Endpoint.of_result fetched in
    let* event := require_some "join reply: GET response missing event" (value_get "event" fetched) in
    let* event_bytes := Endpoint.of_result (to_invalid "join reply: event encode" (value_to_vec event)) in
    let* _ := append_join_reply_log payload joiner_agent event in
    let reply := mkWrapper (wr_topic wrapper) (b64_encode event_bytes) None in
    let* conv := Endpoint.of_result (seal_and_sign_bridge_wrapper joiner_agent joiner_kem reply signer_agent_id (en_machine_id en) dr) in
    let* hints := Endpoint.read (fun s => resolve_hints_for_recipient joiner_hex (en_primary_relay_url en) (st_contacts s)) in
    let* _ := hand_over en (hex_encode joiner_agent) (transport_out en OutDm (oe_envelope conv)) hints in
    fan_member_added_to_existing payload event (wr_topic wrapper) joiner_agent draws.
End reply.

(** ** Facts *)

(** Opening inverts sealing, decapsulation inverts encapsulation for a matching key pair, and the decoders invert the encoders. *)
Class WrapperLaws `{ChatCipher, ChatSeal, BridgeCodec} := {
  wl_open_seal : forall k n p a c, chacha_seal k n p a = Ok c -> chacha_open k n c a = Some p;
  wl_kem_pair : bytes -> bytes -> Prop;
  wl_decap_encap : forall pk sk seed ct ss, wl_kem_pair pk sk -> mlkem_encapsulate pk seed = Ok (ct, ss) ->
    len ct = KEM_CIPHERTEXT_LEN /\ mlkem_decapsulate sk ct = Ok ss;
  wl_decode_encode : forall w b, wrapper_encode w = Ok b -> wrapper_decode b = Ok w;
}.

(** The holder of [sk] reads [w] in the envelope. *)
Definition reads_as `{ChatCipher, BridgeCodec, ErrorDisplay} (sk : bytes) (env : TransitEnvelope) (w : X0xdGroupMetadataEventWrapper) : Prop :=
  unseal_bridge_wrapper sk (e_kem_ciphertext env) (e_nonce env) (e_ciphertext env) = Ok w.

Lemma commit_only_strips name v : name = "treekem_welcome_b64"%string \/ name = "welcome_ref"%string ->
  value_get name (commit_only_member_added v) = None.
Proof.
  destruct v as [| | | | |m]; try done. intros [->| ->]; cbn -[lookup delete].
  - by rewrite lookup_delete_ne, lookup_delete_eq.
  - by rewrite lookup_delete_eq.
Qed.
Lemma commit_only_keeps name v : name <> "treekem_welcome_b64"%string -> name <> "welcome_ref"%string ->
  value_get name (commit_only_member_added v) = value_get name v.
Proof. destruct v as [| | | | |m]; try done. intros ??; cbn -[lookup delete]. by rewrite !lookup_delete_ne by done. Qed.

Section sealed.
  Context `{Base64, EnvelopeCodec, ChatCipher, ChatSeal, AgentSigner, BridgeCodec, ErrorDisplay, !WrapperLaws}.

Lemma seal_reads pk sk w dr parts local machine now :
  wl_kem_pair pk sk -> len sk = KEM_SECRET_KEY_LEN -> len (dr_nonce dr) = AEAD_NONCE_LEN ->
  seal_bridge_wrapper pk w dr = Ok parts -> reads_as sk (bridge_envelope local machine now parts) w.
Proof.
  intros Hp Hsk Hn. unfold seal_bridge_wrapper, to_postcard, kem_encapsulate, aead_seal, to_invalid.
  destruct (negb _) eqn:Hl; [done|]. destruct (wrapper_encode w) as [b|] eqn:Hb; [|done].
  destruct (mlkem_encapsulate pk (dr_seed dr)) as [[ct ss]|] eqn:He; [|done]. cbn [fst snd].
  destruct (chacha_seal _ _ _ _) as [c|] eqn:Hc; [|done]. intros [= <-].
  destruct (wl_decap_encap _ _ _ _ _ Hp He) as [Hct Hd].
  unfold reads_as, unseal_bridge_wrapper, kem_decapsulate, prefix_error, aead_open, from_postcard, to_invalid. cbn -[N.eqb].
  rewrite Hn, Hsk, Hct, Hd, !N.eqb_refl. cbn [negb]. by rewrite (wl_open_seal _ _ _ _ _ Hc), (wl_decode_encode _ _ Hb).
Qed.

Lemma reads_as_signed sk env w sig : reads_as sk env w -> reads_as sk (with_signature sig env) w.
Proof. done. Qed.

(** The envelope carries the local key's signature over its own canonical bytes. *)
Definition locally_signed (env : TransitEnvelope) : Prop :=
  exists canonical, canonical_envelope_bytes env = Ok canonical /\
    signer_sign (SIGN_DOMAIN_ENVELOPE ++ canonical) = Ok (e_sender_signature env).

Lemma signed_wrapper_spec aid pk w local machine dr o :
  seal_and_sign_bridge_wrapper aid pk w local machine dr = Ok o ->
  locally_signed (oe_envelope o) /\
  exists parts sig, seal_bridge_wrapper pk w dr = Ok parts /\ o = mkOut aid (with_signature sig (bridge_envelope local machine (dr_now dr) parts)).
Proof.
  unfold seal_and_sign_bridge_wrapper, to_invalid. destruct (seal_bridge_wrapper pk w dr) as [parts|]; [|done].
  destruct (canonical_envelope_bytes _) as [c|] eqn:Hc; [|done]. destruct (signer_sign _) as [sig|] eqn:Hs; [|done]. intros [= <-].
  split; [by exists c|eauto].
Qed.

(** An event sealed for a member is read back by the holder of the member's secret key, topic and reply key included, from an
    envelope that names the sender. *)
Theorem bridge_wrapper_round_trip aid pk sk w local machine dr o :
  wl_kem_pair pk sk -> len sk = KEM_SECRET_KEY_LEN -> len (dr_nonce dr) = AEAD_NONCE_LEN ->
  seal_and_sign_bridge_wrapper aid pk w local machine dr = Ok o ->
  oe_recipient o = aid /\ e_kind (oe_envelope o) = X0xdGroupMetadataEvent /\ e_sender_agent_id (oe_envelope o) = local /\ reads_as sk (oe_envelope o) w.
Proof.
  intros Hp Hsk Hn [_ (parts & sig & Hs & ->)]%signed_wrapper_spec. split_and!; try done. by eapply reads_as_signed, seal_reads.
Qed.

(** *** The fan-out *)

Definition card_key (cs : Contacts) (aid : bytes) : option bytes :=
  match recipient_kem_key (hex_encode aid) cs with Ok k => Some k | Err _ => None end.
(** The members that are told, with their keys. *)
Definition told (skip : bytes -> bool) (cs : Contacts) (aids : list bytes) : list (bytes * bytes) :=
  omap (fun aid => if skip aid then None else pair aid <$> card_key cs aid) aids.

Lemma fanout_recipients_told skip aids cs out : fanout_recipients skip aids cs = Ok out -> out = told skip cs aids.
Proof.
  revert out. induction aids as [|aid aids IH]; intros out; cbn; [by intros [= <-]|]. destruct (skip aid); [apply IH|].
  unfold card_key. destruct (recipient_kem_key (hex_encode aid) cs) as [k|e]; cbn.
  - destruct (fanout_recipients skip aids cs) as [out'|]; [|done]. intros [= <-]. f_equal. by apply IH.
  - destruct e; try done. apply IH.
Qed.

Lemma broadcast_each_spec topic p local machine draws i rs out :
  broadcast_each topic p local machine draws i rs = Ok out ->
  Forall2 (fun r o => exists j, build_bridge_outbox r.1 r.2 topic p local machine (draws j) = Ok o) rs out.
Proof.
  revert i out. induction rs as [|[aid k] rs IH]; intros i out; cbn [broadcast_each]; [intros [= <-]; constructor|].
  destruct (build_bridge_outbox _ _ _ _ _ _ _) as [o|] eqn:Ho; [|done]. destruct (broadcast_each _ _ _ _ _ _ rs) as [out'|] eqn:Hb; [|done].
  intros [= <-]. constructor; [by exists i|by eapply IH].
Qed.

  Context {W : Type} (en : Endpoint W).

(** A hand-over of an envelope. *)
Definition handed (taken : bool) (o : Outbound.OutboundEnvelope) (h : HandOver) : Prop :=
  ho_to h = hex_encode (oe_recipient o) /\ oe_transit (ho_envelope h) = Some (oe_envelope o) /\ ho_taken h = taken.

(** The envelopes in turn; the first that no transport takes is the last one tried. *)
Lemma route_each_spec envs (s s' : Stores W) r : route_each en envs s = (r, s') ->
  exists hs, st_trace s' = st_trace s ++ hs /\
    ((r = Ok tt /\ Forall2 (handed true) envs hs) \/
     exists e front env back hs' h, r = Err e /\ envs = front ++ env :: back /\ hs = hs' ++ [h] /\ Forall2 (handed true) front hs' /\ handed false env h).
Proof.
  revert s. induction envs as [|env envs IH]; intros s; cbn [route_each].
  - intros [= <- <-]. exists []. rewrite app_nil_r. split; [done|]. left. split; [done|constructor].
  - unfold Endpoint.bind at 1, Endpoint.read at 1. unfold Endpoint.bind at 1, hand_over at 1.
    destruct (router_send _ _ _ _ _) as [[receipt|e] w].
    + intros Hr. apply IH in Hr as (hs & Ht & Hcase). cbn in Ht. rewrite <- app_assoc in Ht. eexists. split; [exact Ht|].
      destruct Hcase as [[-> Hall]|(e & front & env' & back & hs' & h & -> & -> & -> & Hf & Hh)].
      * left. split; [done|]. constructor; [done|done].
      * right. eexists e, (env :: front), env', back, (_ :: hs'), h. split_and!; try done. by constructor.
    + intros [= <- <-]. cbn. eexists. split; [done|]. right. eexists e, [], env, envs, [], _. by split_and!.
Qed.
End sealed.

(** *** The owner's events *)

Inductive OwnerEvent :=
| OwnerRemoved (group_id : string) (revision : N) (removed : bytes) (treekem_commit_b64 : option string) (treekem_epoch : option N) (commit : option Value)
| OwnerAdded (joiner : bytes) (event : Value)
| OwnerRole (group_id : string) (revision : N) (target : bytes) (role : string) (commit : option Value)
| OwnerPolicy (group_id : string) (revision : N) (policy : Value) (commit : option Value)
| OwnerBanned (group_id : string) (revision : N) (banned : bytes) (reason : option string) (commit : option Value)
| OwnerDeleted (group_id : string) (revision : N) (commit : option Value).

Definition owner_event (actor : bytes) (ev : OwnerEvent) : Value :=
  match ev with
  | OwnerRemoved g n m c e j => build_member_removed_event g n (hex_encode actor) (hex_encode m) c e j
  | OwnerAdded _ event => event
  | OwnerRole g n m role j => build_member_role_updated_event g n (hex_encode actor) (hex_encode m) role j
  | OwnerPolicy g n p j => build_policy_updated_event g n (hex_encode actor) p j
  | OwnerBanned g n m reason j => build_member_banned_event g n (hex_encode actor) (hex_encode m) reason j
  | OwnerDeleted g n j => build_group_deleted_event g n (hex_encode actor) j
  end.
(** Who is not told: the actor, and a member who leaves or has the event already. *)
Definition left_out (actor : bytes) (ev : OwnerEvent) (aid : bytes) : bool :=
  match ev with
  | OwnerRemoved _ _ m _ _ _ | OwnerAdded m _ | OwnerBanned _ _ m _ _ => either actor m aid
  | OwnerRole _ _ _ _ _ | OwnerPolicy _ _ _ _ | OwnerDeleted _ _ _ => only actor aid
  end.

Section owner.
  Context `{Base64, EnvelopeCodec, ChatCipher, ChatSeal, AgentSigner, BridgeCodec, ErrorDisplay, !WrapperLaws}.
  Context {W : Type} (en : Endpoint W).

Definition owner_dispatch (topic : string) (actor : bytes) (aids : list bytes) (draws : nat -> Draw) (ev : OwnerEvent) : Endpoint.M W unit :=
  match ev with
  | OwnerRemoved g n m c e j => dispatch_member_removed_bridge en g topic n actor m c e j aids draws
  | OwnerAdded m event => dispatch_member_added_bridge en topic actor m event aids draws
  | OwnerRole g n m role j => dispatch_member_role_updated_bridge en g topic n actor m role j aids draws
  | OwnerPolicy g n p j => dispatch_policy_updated_bridge en g topic n actor p j aids draws
  | OwnerBanned g n m reason j => dispatch_member_banned_bridge en g topic n actor m reason j aids draws
  | OwnerDeleted g n j => dispatch_group_deleted_bridge en g topic n actor j aids draws
  end.

Lemma owner_dispatch_eq topic actor aids draws ev :
  owner_dispatch topic actor aids draws ev =
  build_and_route en (fun cs =>
    let? recipients := fanout_recipients (left_out actor ev) aids cs in
    dispatch_owner_broadcast topic (owner_event actor ev) recipients actor (en_machine_id en) draws).
Proof. by destruct ev. Qed.

(** A hand-over of an envelope in the owner's name, with the signature of the owner's client, that the member reads the
    event in. *)
Definition told_of (topic : string) (actor payload : bytes) (taken : bool) (m : bytes * bytes) (h : HandOver) : Prop :=
  ho_to h = hex_encode m.1 /\ ho_taken h = taken /\
  exists env, oe_transit (ho_envelope h) = Some env /\ e_sender_agent_id env = actor /\ locally_signed env /\
    forall sk, wl_kem_pair m.2 sk -> len sk = KEM_SECRET_KEY_LEN -> reads_as sk env (mkWrapper topic (b64_encode payload) None).

Lemma outbox_told topic actor payload machine (draws : nat -> Draw) j m o taken h :
  (forall i, len (dr_nonce (draws i)) = AEAD_NONCE_LEN) ->
  build_bridge_outbox m.1 m.2 topic (b64_encode payload) actor machine (draws j) = Ok o -> handed taken o h -> told_of topic actor payload taken m h.
Proof.
  intros Hn [Hsig (parts & sig & Hs & ->)]%signed_wrapper_spec (Hto & Henv & Htk). split; [done|]. split; [done|]. eexists. split; [exact Henv|].
  split; [done|]. split; [exact Hsig|]. intros sk Hp Hsk. by eapply reads_as_signed, seal_reads.
Qed.

Lemma fanout_spec topic event skip actor aids draws (s s' : Stores W) r :
  (forall i, len (dr_nonce (draws i)) = AEAD_NONCE_LEN) ->
  build_and_route en (fun cs => let? recipients := fanout_recipients skip aids cs in
                                dispatch_owner_broadcast topic event recipients actor (en_machine_id en) draws) s = (r, s') ->
  let members := told skip (st_contacts s) aids in
  exists hs, st_trace s' = st_trace s ++ hs /\
    match r with
    | Ok _ => exists payload, value_to_vec event = Ok payload /\ Forall2 (told_of topic actor payload true) members hs
    | Err _ => hs = [] \/ exists payload front m back hs' h,
        value_to_vec event = Ok payload /\ members = front ++ m :: back /\ hs = hs' ++ [h] /\
        Forall2 (told_of topic actor payload true) front hs' /\ told_of topic actor payload false m h
    end.
Proof.
  intros Hn. unfold build_and_route, Endpoint.bind, Endpoint.read, Endpoint.of_result.
  destruct (fanout_recipients _ _ _) as [rs|e] eqn:Hrs; [|intros [= <- <-]; exists []; rewrite app_nil_r; eauto].
  apply fanout_recipients_told in Hrs. unfold dispatch_owner_broadcast, encode_payload_b64, to_invalid.
  destruct (value_to_vec _) as [payload|e] eqn:Hv; [|intros [= <- <-]; exists []; rewrite app_nil_r; eauto].
  destruct (broadcast_each _ _ _ _ _ _ _) as [out|e] eqn:Hb; [|intros [= <- <-]; exists []; rewrite app_nil_r; eauto].
  intros (hs & Ht & Hcase)%route_each_spec. apply broadcast_each_spec in Hb. rewrite Hrs in Hb. exists hs. split; [done|].
  destruct Hcase as [[-> Hall]|(e & front & env & back & hs' & h & -> & -> & -> & Hf & Hh)].
  - exists payload. split; [done|]. eapply Forall2_trans; [|exact Hb|exact Hall]. intros m o h (j & Hj) Hh. by eapply outbox_told.
  - right. apply Forall2_app_inv_r in Hb as (ms & rest & Hms & Hrest & Heq). apply Forall2_cons_inv_r in Hrest as (m & back' & [j Hj] & Hb' & ->).
    exists payload, ms, m, back', hs', h. split; [done|]. split; [done|]. split; [done|]. split; [|by eapply outbox_told].
    eapply Forall2_trans; [|exact Hms|exact Hf]. intros m' o h' (j' & Hj') Hh'. by eapply outbox_told.
Qed.

(** C21: Each of the owner's group events that is dispatched without an error goes to exactly the active members who are to be told
    and have a contact card, once each and in order, as an envelope in the owner's name, signed by the owner's client, that each of them reads the event in; on
    an error the members up to the first that no transport reaches were told, and nobody after. *)
Theorem owner_fanout_exact topic actor aids draws ev (s s' : Stores W) r :
  (forall i, len (dr_nonce (draws i)) = AEAD_NONCE_LEN) ->
  owner_dispatch topic actor aids draws ev s = (r, s') ->
  let members := told (left_out actor ev) (st_contacts s) aids in
  exists hs, st_trace s' = st_trace s ++ hs /\
    match r with
    | Ok _ => exists payload, value_to_vec (owner_event actor ev) = Ok payload /\ Forall2 (told_of topic actor payload true) members hs
    | Err _ => hs = [] \/ exists payload front m back hs' h,
        value_to_vec (owner_event actor ev) = Ok payload /\ members = front ++ m :: back /\ hs = hs' ++ [h] /\
        Forall2 (told_of topic actor payload true) front hs' /\ told_of topic actor payload false m h
    end.
Proof. intros Hn. rewrite owner_dispatch_eq. by apply fanout_spec. Qed.
End owner.

(** *** What the receiver relies on *)

Section receiver.
  Context {W : Type} `{JoinSeams W} `{JsonObject} `{Base64} `{StatusText} `{Sha256}.
  Context `{!JsonFile PendingJoin} `{!JsonFile ConvergenceRecord} `{!HashIter string bytes}.
  Context `{ChatCipher, ChatSeal, BridgeCodec, ErrorDisplay, PayloadHash, !WrapperLaws}.

(** Whoever knows a client's public encryption key can make an envelope without any signature, with any time on it and any
    agent named as its sender, and the client hands its event to the daemon as that agent's: to admit a joiner, or as
    the owner's answer to its own join. *)
Theorem bridge_sender_unverified pk sk sender machine ts wrapper dr parts now r :
  wl_kem_pair pk sk -> len sk = KEM_SECRET_KEY_LEN -> len (dr_nonce dr) = AEAD_NONCE_LEN -> seal_bridge_wrapper pk wrapper dr = Ok parts ->
  let env := bridge_envelope sender machine ts parts in
  e_sender_signature env = [] /\
  dispatch_inbound_bridge (W := W) sk env now r = (dispatch_wrapper wrapper sender, mark_bridged (b64_decode (wr_payload_b64 wrapper)) now r).
Proof.
  intros Hp Hsk Hn Hs env. split; [done|]. pose proof (seal_reads pk sk wrapper dr parts sender machine ts Hp Hsk Hn Hs) as Hr.
  unfold dispatch_inbound_bridge, env. rewrite bool_decide_eq_true_2 by done. cbn [negb]. unfold reads_as in Hr. by rewrite Hr.
Qed.

(** The receiver with the time check refuses an envelope whose time is more than half an hour off, and only its unsigned time decides. *)
Lemma freshness_is_restampable sk env now (w : W) ts :
  check_bridge_event_freshness ts now = Ok tt -> e_kind env = X0xdGroupMetadataEvent ->
  let stamped := {| e_version := e_version env; e_kind := e_kind env; e_group_id := e_group_id env; e_tenant_id := e_tenant_id env;
                    e_sender_agent_id := e_sender_agent_id env; e_sender_machine_id := e_sender_machine_id env; e_timestamp_ms := ts;
                    e_epoch := e_epoch env; e_ciphertext := e_ciphertext env; e_nonce := e_nonce env; e_kem_ciphertext := e_kem_ciphertext env;
                    e_sender_signature := e_sender_signature env |} in
  forall wrapper, reads_as sk env wrapper ->
  (handle_inbound_bridge_envelope sk stamped now w).2 = (publish (wr_topic wrapper) (wr_payload_b64 wrapper) w).2.
Proof.
  intros Hf Hk stamped wrapper Hr. unfold handle_inbound_bridge_envelope. cbn [stamped e_kind e_timestamp_ms e_kem_ciphertext e_nonce e_ciphertext].
  rewrite bool_decide_eq_true_2 by done. cbn [negb]. rewrite Hf. unfold reads_as in Hr. rewrite Hr. by destruct (publish _ _ w).
Qed.
End receiver.

(** *** What a signed join says *)

Lemma lp_clamped_split x y (r s : bytes) : len x <= u32_max -> len y <= u32_max ->
  push_lp_clamped x ++ r = push_lp_clamped y ++ s -> x = y /\ r = s.
Proof.
  intros Hx Hy. unfold push_lp_clamped. rewrite !N.min_l by done. rewrite <- !app_assoc. intros [Hlen Heq]%u32_be_split; [|done..].
  apply app_inj_1 in Heq; [done|]. unfold len in Hlen. lia.
Qed.
Lemma role_byte_inj a b : role_as_u8 a = role_as_u8 b -> a = b.
Proof. by destruct a, b. Qed.

(** The texts of a join event are short and its time is a [u64]. *)
Definition join_bounded (i : MemberJoinedInputs) : Prop :=
  mj_ts_ms i <= u64_max /\
  Forall (fun t => len (ascii_bytes t) <= u32_max)
    [mj_group_id i; default EmptyString (mj_stable_group_id i); mj_member_agent_id i; mj_member_public_key_b64 i;
     default EmptyString (mj_display_name i); mj_inviter_agent_id i; mj_invite_secret i; default EmptyString (mj_treekem_key_package_b64 i)].

(** A missing text is signed as an empty one. *)
Definition fill (i : MemberJoinedInputs) : MemberJoinedInputs :=
  let some o := Some (default EmptyString o) in
  {| mj_group_id := mj_group_id i; mj_stable_group_id := some (mj_stable_group_id i); mj_member_agent_id := mj_member_agent_id i;
     mj_member_public_key_b64 := mj_member_public_key_b64 i; mj_role := mj_role i; mj_display_name := some (mj_display_name i);
     mj_inviter_agent_id := mj_inviter_agent_id i; mj_invite_secret := mj_invite_secret i; mj_ts_ms := mj_ts_ms i;
     mj_treekem_key_package_b64 := some (mj_treekem_key_package_b64 i) |}.

(** The bytes a joiner signs determine the join event, up to whether an empty text was missing. *)
Theorem member_joined_bytes_bind i j :
  join_bounded i -> join_bounded j -> canonical_member_joined_bytes i = canonical_member_joined_bytes j -> fill i = fill j.
Proof.
  intros [Hti Hi] [Htj Hj] Heq. repeat (apply Forall_cons in Hi as [? Hi]). repeat (apply Forall_cons in Hj as [? Hj]).
  unfold canonical_member_joined_bytes in Heq. apply app_inj_1 in Heq as [_ Heq]; [|done].
  do 4 (apply lp_clamped_split in Heq as [?%ascii_bytes_inj Heq]; [|done..]). apply app_inj_1 in Heq as [[= ?%role_byte_inj] Heq]; [|done].
  do 3 (apply lp_clamped_split in Heq as [?%ascii_bytes_inj Heq]; [|done..]). apply u64_be_split in Heq as [? Heq]; [|done..].
  rewrite <- (app_nil_r (push_lp_clamped _)) in Heq. symmetry in Heq. rewrite <- (app_nil_r (push_lp_clamped _)) in Heq.
  apply lp_clamped_split in Heq as [?%ascii_bytes_inj _]; [|done..]. unfold fill. f_equal; congruence.
Qed.

(** *** The owner's answer to a join *)

Section answer.
  Context `{Base64, EnvelopeCodec, ChatCipher, ChatSeal, AgentSigner, BridgeCodec, JsonObject, ErrorDisplay, !WrapperLaws}.
  Context {W : Type} `{DaemonNet W, BodyText, GroupsJson}.
  Context (en : Endpoint W) (signer : bytes) (sleep : N -> W -> W) (log : option (GroupLogIntent -> W -> result unit string * W)).

Lemma told_avoids skip cs aids m : m ∈ told skip cs aids -> skip m.1 = false.
Proof.
  unfold told. intros (aid & _ & Hm)%list_elem_of_omap. destruct (skip aid) eqn:Hs; [done|].
  destruct (card_key cs aid); [|done]. by injection Hm as <-.
Qed.

(** The event with every member of it but the two that hold the welcome. *)
Definition without_welcome (event projection : Value) : Prop :=
  value_get "treekem_welcome_b64" projection = None /\ value_get "welcome_ref" projection = None /\
  forall name, name <> "treekem_welcome_b64"%string -> name <> "welcome_ref"%string -> value_get name projection = value_get name event.
Lemma commit_only_without_welcome event : without_welcome event (commit_only_member_added event).
Proof.
  split; [apply commit_only_strips; by left|]. split; [apply commit_only_strips; by right|]. intros name Hw Hr. by apply commit_only_keeps.
Qed.

(** What an existing member gets: neither the joiner nor the owner, and no welcome. *)
Definition commit_told (topic : string) (joiner : bytes) (event : Value) (h : HandOver) : Prop :=
  exists m taken projection payload, m.1 <> joiner /\ m.1 <> signer /\ without_welcome event projection /\
    value_to_vec projection = Ok payload /\ told_of topic signer payload taken m h.

Lemma commit_fanout topic joiner event aids draws (s s' : Stores W) r :
  (forall i, len (dr_nonce (draws i)) = AEAD_NONCE_LEN) ->
  dispatch_member_added_bridge en topic signer joiner (commit_only_member_added event) aids draws s = (r, s') ->
  exists hs, st_trace s' = st_trace s ++ hs /\ Forall (commit_told topic joiner event) hs.
Proof.
  intros Hn Hd. destruct (fanout_spec en topic (commit_only_member_added event) (either signer joiner) signer aids draws s s' r Hn Hd) as (hs & Ht & Hr).
  exists hs. split; [done|].
  assert (forall payload taken ms hs', (forall m, m ∈ ms -> m ∈ told (either signer joiner) (st_contacts s) aids) ->
    value_to_vec (commit_only_member_added event) = Ok payload -> Forall2 (told_of topic signer payload taken) ms hs' ->
    Forall (commit_told topic joiner event) hs') as Hall.
  { intros payload taken ms hs' Hin Hv Hf. induction Hf as [|m h ms hs' Hm _ IH]; constructor.
    - exists m, taken, (commit_only_member_added event), payload.
      specialize (Hin m ltac:(left)). apply told_avoids, orb_false_iff in Hin as [Ha Hj].
      apply bool_decide_eq_false in Ha, Hj.
      split; [done|]. split; [done|]. split; [apply commit_only_without_welcome|by split].
    - apply IH. intros m' Hm'. apply Hin. by right. }
  destruct r as [u|e].
  - destruct Hr as (payload & Hv & Hf). by apply (Hall payload true (told (either signer joiner) (st_contacts s) aids)).
  - destruct Hr as [->|(payload & front & m & back & hs' & h & Hv & Hms & -> & Hf & Hh)]; [constructor|]. apply Forall_app. split.
    + apply (Hall payload true front); [|done..]. intros m' Hm'. rewrite Hms. apply elem_of_app. by left.
    + apply (Hall payload false [m]); [|done|by constructor]. intros m' ->%list_elem_of_singleton. rewrite Hms. apply elem_of_app. right. left.
Qed.

(** A call that hands nothing over. *)
Definition quiet {A} (m : Endpoint.M W A) : Prop := forall s, st_trace (m s).2 = st_trace s.
Lemma quiet_step {A B} (m : Endpoint.M W A) (k : A -> Endpoint.M W B) s r s' : quiet m -> Endpoint.bind m k s = (r, s') ->
  st_trace s' = st_trace s \/ exists a s1, m s = (Ok a, s1) /\ st_trace s1 = st_trace s /\ k a s1 = (r, s').
Proof.
  intros Hq. specialize (Hq s). unfold Endpoint.bind. destruct (m s) as [[a|e] s1]; cbn in Hq; [|intros [= _ <-]; by left].
  intros Hk. right. by exists a, s1.
Qed.
Lemma quiet_of_result {A} (x : result A ChatError) : quiet (Endpoint.of_result x). Proof. done. Qed.
Lemma quiet_read {A} (f : Stores W -> A) : quiet (Endpoint.read f). Proof. done. Qed.
Lemma quiet_net {A} (f : W -> A * W) : quiet (on_net f). Proof. intros s. unfold on_net. by destruct (f (st_net s)). Qed.
Hint Resolve quiet_of_result quiet_read quiet_net : core.

Lemma fan_quiet payload event topic joiner draws (s s' : Stores W) r :
  (forall i, len (dr_nonce (draws i)) = AEAD_NONCE_LEN) ->
  fan_member_added_to_existing en signer payload event topic joiner draws s = (r, s') ->
  exists hs, st_trace s' = st_trace s ++ hs /\ Forall (commit_told topic joiner event) hs.
Proof.
  intros Hn. unfold fan_member_added_to_existing. destruct (group_id_from_member_joined payload) as [g|].
  2:{ intros [= _ <-]. exists []. by rewrite app_nil_r. }
  assert (forall s1 : Stores W, st_trace s1 = st_trace s -> exists hs, st_trace s1 = st_trace s ++ hs /\ Forall (commit_told topic joiner event) hs) as Hstop.
  { intros s1 ->. exists []. by rewrite app_nil_r. }
  intros [Ht|(gid & s1 & _ & Ht1 & Hr)]%quiet_step; [by apply Hstop| |solve [auto]].
  apply quiet_step in Hr as [Ht|(roster & s2 & _ & Ht2 & Hr)]; [apply Hstop; congruence| |solve [auto]].
  apply quiet_step in Hr as [Ht|(roster' & s3 & _ & Ht3 & Hr)]; [apply Hstop; congruence| |solve [auto]].
  apply commit_fanout in Hr as (hs & Ht & Hall); [|done]. exists hs. split; [|done]. rewrite Ht. congruence.
Qed.

(** The records the answer puts in the relay's log: the event for the joiner alone, and for everybody the event without the
    welcome. *)
Definition answer_record (joiner : bytes) (event : Value) (i : GroupLogIntent) : Prop :=
  (gi_kind i = JoinResult /\ gi_recipient i = Some joiner /\ value_to_vec event = Ok (gi_payload i)) \/
  (gi_kind i = Commit /\ gi_recipient i = None /\
   exists projection, without_welcome event projection /\ value_to_vec projection = Ok (gi_payload i)).
Definition answer_logged (joiner : bytes) (event : Value) (w w' : W) : Prop :=
  exists intents, Forall (answer_record joiner event) intents /\
    w' = match log with Some append => append_each append intents w | None => w end.

Lemma log_answer payload joiner event (s s' : Stores W) u :
  append_join_reply_log log payload joiner event s = (u, s') ->
  st_trace s' = st_trace s /\ answer_logged joiner event (st_net s) (st_net s').
Proof.
  assert (answer_logged joiner event (st_net s) (st_net s)) as Hnone by (exists []; split; [constructor|by destruct log]).
  unfold append_join_reply_log. unfold answer_logged in *. destruct log as [append|]; [|by intros [= _ <-]].
  destruct (group_id_from_member_joined payload) as [gid|]; [|by intros [= _ <-]].
  destruct (join_reply_log_intents _ _ _ _) as [intents|] eqn:Hi; [|by intros [= _ <-]].
  intros [= _ <-]. split; [done|]. exists intents. split; [|done]. revert Hi. unfold join_reply_log_intents.
  destruct (hex_decode gid) as [g|]; [|done]. destruct (negb _); [done|].
  destruct (value_to_vec event) as [wb|] eqn:Hw; [|done]. destruct (value_to_vec (commit_only_member_added event)) as [cb|] eqn:Hc; [|done].
  intros [= <-]. constructor; [by left|]. constructor; [|constructor]. right. split; [done|]. split; [done|].
  exists (commit_only_member_added event). split; [apply commit_only_without_welcome|done].
Qed.

Lemma bind_require {A B} e (o : option A) (k : A -> Endpoint.M W B) s :
  Endpoint.bind (require_some e o) k s = match o with Some a => k a s | None => (Err (Invalid e), s) end.
Proof. by destruct o. Qed.
Lemma bind_result {A B} (x : result A ChatError) (k : A -> Endpoint.M W B) s :
  Endpoint.bind (Endpoint.of_result x) k s = match x with Ok a => k a s | Err e => (Err e, s) end.
Proof. by destruct x. Qed.

(** The event the daemon staged for the member the join names. *)
Definition staged_event (wrapper : X0xdGroupMetadataEventWrapper) (joiner payload : bytes) (event : Value) (w w1 : W) : Prop :=
  exists stable member fetched, b64_decode (wr_payload_b64 wrapper) = Some payload /\
    stable_group_id_from_member_joined payload = Some stable /\ member_agent_id_from_member_joined payload = Some member /\
    eq_ignore_ascii_case (hex_encode joiner) member = true /\
    fetch_inline_join_result sleep stable member w = (Ok fetched, w1) /\ value_get "event" fetched = Some event.

(** What the answer hands over: nothing, having done no more than ask the daemon; nothing, after the log; or the event to the
    joiner and what the others get. *)
Definition answer_outcome (wrapper : X0xdGroupMetadataEventWrapper) (joiner : bytes) (w w' : W) (hs : list HandOver) : Prop :=
  (hs = [] /\ (w' = w \/ exists stable member, w' = (fetch_inline_join_result sleep stable member w).2)) \/
  exists payload event w1 w2, staged_event wrapper joiner payload event w w1 /\ answer_logged joiner event w1 w2 /\
    ((hs = [] /\ w' = w2) \/
     exists kem ebytes taken h rest, wr_joiner_kem_pubkey wrapper = Some kem /\ value_to_vec event = Ok ebytes /\
       hs = h :: rest /\ told_of (wr_topic wrapper) signer ebytes taken (joiner, kem) h /\
       Forall (commit_told (wr_topic wrapper) joiner event) rest).

End answer.

(** ** Runs *)

#[export] Instance wrapper_eq_dec : EqDecision X0xdGroupMetadataEventWrapper.
Proof. solve_decision. Defined.

#[local] Existing Instance demo_base64.
Definition gb_owner : bytes := repeat 1 32.
Definition gb_member (n : N) : bytes := repeat n 32.
(** One wrapper and one unsigned envelope of the owner: the cipher is the identity, the secret is fixed. *)
Definition gb_wrapper : X0xdGroupMetadataEventWrapper := mkWrapper "topic" (b64_encode [9]) None.
Definition gb_draw : Draw := {| dr_nonce := repeat 0 12; dr_seed := []; dr_now := 5 |}.
Definition gb_parts : SealedBridgeParts := {| sb_kem_ciphertext := repeat 0 1088; sb_nonce := repeat 0 12; sb_ciphertext := [1] |}.
Definition gb_envelope : TransitEnvelope := bridge_envelope gb_owner [] 5 gb_parts.

#[local] Instance gb_cipher : ChatCipher :=
  {| mlkem_decapsulate _ _ := Ok [7]; hkdf_sha256 s _ := s; chacha_open _ _ c _ := Some c |}.
#[local] Instance gb_seal : ChatSeal :=
  {| mlkem_encapsulate _ _ := Ok (repeat 0 1088, [7]); chacha_seal _ _ p _ := Ok p |}.
#[local] Instance gb_signer : AgentSigner := {| signer_public_key := [1]; signer_sign _ := Ok [1] |}.
#[local] Instance gb_envelopes : EnvelopeCodec.
Proof.
  refine {| env_to_bytes e := if decide (e = gb_envelope) then Ok [1] else Err "envelope"%string; env_from_bytes _ := Some gb_envelope |}.
  intros e b. case_decide as He; [|done]. intros _. by rewrite He.
Defined.
Definition gb_event : Value := VObject {[ "event" := VString "member_added"; "treekem_welcome_b64" := VString "secret" ]}.
#[local] Instance gb_codec : BridgeCodec :=
  {| wrapper_encode w := if decide (w = gb_wrapper) then Ok [1] else Err "wrapper"%string; wrapper_decode _ := Ok gb_wrapper;
     value_to_vec _ := Ok [9]; value_from_slice _ := Ok (VObject {[ "event" := gb_event ]}) |}.
#[local] Instance gb_display : ErrorDisplay := fun _ => "error"%string.
#[local] Instance gb_laws : WrapperLaws.
Proof.
  unshelve refine {| wl_kem_pair := fun _ _ => True |}; cbn; intros.
  - congruence.
  - by simplify_eq.
  - case_decide; [by subst|done].
Defined.

(** Every member but the third has a card; the transport does not reach [deaf]. *)
Definition gb_card (n : N) : StoredContactCard :=
  mkCard (hex_encode (gb_member n)) "m" (b64_encode (repeat 0 1184)) None None None None.
Definition gb_contacts : Contacts :=
  mkContacts EmptyString (<[hex_encode (gb_member 2) := CardOk (gb_card 2)]> (<[hex_encode (gb_member 4) := CardOk (gb_card 4)]>
    (<[hex_encode (gb_member 5) := CardOk (gb_card 5)]> ∅))).
Definition gb_transport (deaf : string) : MultiHome.Transport N :=
  {| tr_name := "demo"; tr_reachability _ _ := Always;
     tr_send to _ _ w := (if String.eqb to deaf then Err (MessageTransport "gone")
                          else Ok {| sr_accepted_at_ms := 1; sr_message_id := None; sr_transport_name := "demo" |}, w + 1) |}.
Definition gb_endpoint (deaf : string) : Endpoint N :=
  {| en_identity := me; en_machine_id := []; en_denylist := None; en_primary_relay_url := Some "http://h"%string;
     en_transports := [gb_transport deaf] |}.
Definition gb_stores : Stores N := mkStores (registry_empty ∅) gb_contacts ∅ (mkFabric None None ∅) None ∅ ∅ 0 [].
Definition gb_roster : list bytes := gb_member <$> [1; 2; 3; 4; 5].
Definition gb_banned : OwnerEvent := OwnerBanned "g1" 3 (gb_member 4) None None.
Definition gb_dispatch (deaf : string) := owner_dispatch (gb_endpoint deaf) "topic" gb_owner gb_roster (fun _ => gb_draw) gb_banned gb_stores.

(** A ban reaches the members with a card, less the owner and the banned one. *)
Lemma owner_fanout_exact_witness :
  exists hs, st_trace (gb_dispatch "").2 = hs /\ exists payload, Forall2 (told_of "topic" gb_owner payload true)
    (told (left_out gb_owner gb_banned) gb_contacts gb_roster) hs /\ ho_to <$> hs = hex_encode <$> (gb_member <$> [2; 5]).
Proof.
  assert ((gb_dispatch "").1 = Ok tt) as Hok by (by vm_compute).
  assert (ho_to <$> st_trace (gb_dispatch "").2 = hex_encode <$> (gb_member <$> [2; 5])) as Hto by (by vm_compute).
  unfold gb_dispatch in *. destruct (owner_dispatch _ _ _ _ _ _ _) as [r s'] eqn:Hd. cbn [fst snd] in *. subst r.
  apply (owner_fanout_exact (gb_endpoint "")) in Hd as (hs & Ht & payload & _ & Hf); [|done]. cbn [st_trace gb_stores app] in Ht.
  exists hs. split; [done|]. exists payload. split; [exact Hf|]. by rewrite <- Ht.
Defined.

(** One unreachable member keeps those after it from being told. *)
Example unreachable_member_stops_fanout :
  let '(r, s) := gb_dispatch (hex_encode (gb_member 2)) in
  r = Err (MessageTransport "gone") /\ ho_to <$> st_trace s = [hex_encode (gb_member 2)].
Proof. by vm_compute. Qed.

(** The forged answer to a join: the daemon is told it comes from the owner. *)
#[local] Instance gb_json : JsonObject := fun _ => Some (fun name =>
  if String.eqb name "event" then Some "member_added"%string else if String.eqb name "agent_id" then Some "me"%string
  else if String.eqb name "group_id" then Some "g1"%string else if String.eqb name "stable_group_id" then Some "s1"%string
  else if String.eqb name "member_agent_id" then Some (hex_encode (gb_member 2)) else None).
#[local] Instance gb_seams : JoinSeams (list string) := {|
  io_fault _ _ w := (None, w); now_ms _ := 5; env_secs _ _ := None; post_join _ _ w := (Err (Invalid "no"), w);
  resolve_owner_kem _ w := (Ok [5], w); recipient_hints _ _ := None; primary_relay _ := None; own_kem := [6]; self_hex := "me";
  PendingJoin.members _ w := (Ok ["me"%string], w); wait_membership g t w := (Err (JoinerNotConverged g t), w); send_sealed _ w := (Ok tt, w);
  PendingJoin.group_self_status _ w := (Ok None, w); encrypt_probe _ w := (Ok 0, w);
  PendingJoin.apply_join_result _ _ _ sender w := (Ok true, w ++ [sender]); PendingJoin.apply_metadata_event _ _ sender w := (Ok true, w ++ [sender]);
  PendingJoin.publish _ _ w := (Ok tt, w); log_fetch := None |}.
#[local] Instance gb_status : StatusText := fun _ => "404"%string.
#[local] Instance gb_sha : Sha256 := fun b => b.
#[local] Instance gb_pending : JsonFile PendingJoin := demo_pending_file.
#[local] Instance gb_converged : JsonFile ConvergenceRecord := demo_convergence_file.
#[local] Instance gb_hash : PayloadHash := fun _ => 0.

Definition gb_forged : TransitEnvelope := bridge_envelope gb_owner [] 999999999 gb_parts.
Lemma bridge_sender_unverified_witness :
  e_sender_signature gb_forged = [] /\
  jworld ((dispatch_inbound_bridge (repeat 0 2400) gb_forged 5 fresh_route).1 (mkJoin ∅ ∅ None [] [])).2 = [hex_encode gb_owner].
Proof.
  destruct (bridge_sender_unverified (repeat 0 1184) (repeat 0 2400) gb_owner [] 999999999 gb_wrapper gb_draw gb_parts 5 fresh_route) as [Hsig Hd].
  - exact I.
  - reflexivity.
  - reflexivity.
  - by vm_compute.
  - split; [exact Hsig|]. unfold gb_forged. rewrite Hd. by vm_compute.
Defined.

(** The answer to member 2's join: its welcome first, then the commit to the members with a card. *)
#[local] Instance gb_daemon : DaemonNet N :=
  {| dn_base _ := "http://d"%string; dn_rebase _ w := w; dn_port_file := None; dn_request _ _ _ w := (Answered 200 (Ok [1]), w) |}.
#[local] Instance gb_body : BodyText := fun _ => "body"%string.
#[local] Instance gb_groups : GroupsJson :=
  {| parse_groups _ := Err "no"%string; parse_group _ := Err "no"%string; parse_value _ := Ok tt; parse_invite _ := Err "no"%string;
     parse_members _ := Ok ((fun n => {| gm_agent_id := hex_encode (gb_member n); gm_display_name := None; gm_role := None; gm_state := None |}) <$> [1; 2; 3; 4; 5]);
     parse_message_id _ := Ok None; parse_messages _ := Ok [] |}.
Definition gb_join : X0xdGroupMetadataEventWrapper := mkWrapper "topic" (b64_encode [7]) (Some (repeat 0 1184)).
Definition gb_reply := reply_to_bridged_join (gb_endpoint "") gb_owner (fun _ w => w) None gb_join (gb_member 2) gb_draw (fun _ => gb_draw) gb_stores.

Lemma bridge_wrapper_round_trip_witness :
  reads_as (repeat 0 2400) (with_signature [1] gb_envelope) gb_wrapper.
Proof.
  apply (bridge_wrapper_round_trip (gb_member 2) (repeat 0 1184) (repeat 0 2400) gb_wrapper gb_owner [] gb_draw (mkOut (gb_member 2) (with_signature [1] gb_envelope))).
  - exact I.
  - reflexivity.
  - reflexivity.
  - by vm_compute.
Defined.
