(* ===== verification/WebFinger.v ===== *)
(** * Resolving a handle

    Models [crates/fetchit-fedi/src/webfinger.rs]: reading [@user@instance] mentions, the
    [WebFinger] request for one, the gates around it and the link of the answer that names the
    actor.  Name resolution and the response are arguments; [serde_json]'s reading of a body is
    a parameter, the derived decoding of the value it holds is not ([Value] objects have no
    repeated members, which the derived decoder refuses). *)
From Stdlib Require Import Ascii.
From S2P Require Import Prelude RelayProto RelayAuth PairRecord ShareUri Text RelayHttp ActorDoc.
Open Scope rust_scope.

Definition MAX_JRD_BODY_BYTES : N := 64 * 1024.

Inductive WebFingerError :=
| MalformedHandle (why : string)
| InvalidInstance (why : string)
| Http (status : N) (body : string)
| Transport (why : string)
| JrdParse (why : string)
| NoActorLink
| BodyTooLarge (max_bytes : N)
| PrivateInstance (host : string).

(** ** Mentions *)

Record ParsedHandle := mkHandle { ph_local : string; ph_instance : string }.

Definition str_contains (c : ascii) (s : string) : bool := is_some (split_once c s).

Definition parse_mention (handle : string) : result ParsedHandle WebFingerError :=
  match strip_prefix "@" handle with
  | None => Err (MalformedHandle ("missing leading '@': " +:+ handle))
  | Some stripped =>
      match split_once "@" stripped with
      | None => Err (MalformedHandle ("missing '@<instance>': " +:+ handle))
      | Some (local, instance) =>
          if bool_decide (local = EmptyString) then Err (MalformedHandle ("empty local part: " +:+ handle))
          else if bool_decide (instance = EmptyString) then Err (InvalidInstance ("empty instance: " +:+ handle))
          else if negb (str_contains "." instance) then Err (InvalidInstance ("instance has no dot: " +:+ handle))
          else if str_contains "@" instance || str_contains "/" instance
          then Err (InvalidInstance ("instance contains reserved char: " +:+ handle))
          else Ok (mkHandle local (to_ascii_lowercase instance))
      end
  end.

(** [trim_start_matches] and [trim_end_matches] with a set of characters. *)
Fixpoint trim_start_any (cs : list ascii) (s : string) : string :=
  match s with
  | EmptyString => EmptyString
  | String a s' => if bool_decide (a ∈ cs) then trim_start_any cs s' else s
  end.
Definition trim_end_any (cs : list ascii) (s : string) : string := rev_onto (trim_start_any cs (rev_onto s EmptyString)) EmptyString.

Definition OPENING : list ascii := ["("; "["; "{"; ascii_of_N 34; "'"]%char.
Definition CLOSING : list ascii := ["."; ","; "!"; "?"; ";"; ":"; ")"; "]"; "}"; ascii_of_N 34; "'"]%char.

(** The body of the loop over the tokens. *)
Definition add_mention (out : list string) (token : string) : list string :=
  let t := trim_end_any CLOSING (trim_start_any OPENING token) in
  if negb (starts_with "@" t) || negb (is_ok (parse_mention t)) then out
  else if bool_decide (t ∈ out) then out else out ++ [t].
Definition extract_mentions (body : string) : list string := foldl add_mention [] (split_whitespace body).

(** ** The answer *)

Record JrdLink := mkLink { jl_rel : string; jl_type : option string; jl_href : option string }.

(** An [Option<String>] member: absent, [null] or a string. *)
Definition nullable_str (v : option Value) : option (option string) :=
  match v with
  | None | Some Null => Some None
  | Some (VString s) => Some (Some s)
  | _ => None
  end.
(** The derived decoders take an object, or an array of the fields in order. *)
Definition link_from_value (v : Value) : option JrdLink :=
  match v with
  | VObject m =>
      rel ← m !! "rel"%string ≫= as_str;
      ty ← nullable_str (m !! "type"%string);
      href ← nullable_str (m !! "href"%string);
      Some (mkLink rel ty href)
  | VArray [rel; ty; href] =>
      rel ← as_str rel;
      ty ← nullable_str (Some ty);
      href ← nullable_str (Some href);
      Some (mkLink rel ty href)
  | _ => None
  end.
Definition jrd_from_value (v : Value) : option (list JrdLink) :=
  match v with
  | VObject m => ls ← m !! "links"%string ≫= as_array; mapM link_from_value ls
  | VArray [ls] => ls ← as_array ls; mapM link_from_value ls
  | _ => None
  end.

(** The body as JSON, and the texts of the errors of other packages. *)
Class JrdText := {
  jrd_value : bytes -> result Value string;
  jrd_shape_error : Value -> string;
  url_error : string -> string;
}.

Section resolve.
  Context `{UP : UrlParse, FU : FormUrl, JT : JrdText}.

Fixpoint actor_link (links : list JrdLink) : result Url WebFingerError :=
  match links with
  | [] => Err NoActorLink
  | link :: rest =>
      if bool_decide (jl_rel link = "self"%string) && bool_decide (jl_type link = Some "application/activity+json"%string)
      then match jl_href link with
           | Some href => match url_parse href with Some u => Ok u | None => Err (JrdParse (url_error href)) end
           | None => actor_link rest
           end
      else actor_link rest
  end.
Definition jrd_actor (v : Value) : result Url WebFingerError :=
  match jrd_from_value v with
  | None => Err (JrdParse (jrd_shape_error v))
  | Some links => actor_link links
  end.

(** [chars().take(n)]: the bytes after the first of a character are continuations. *)
Definition continuation (a : ascii) : bool := (128 <=? N_of_ascii a) && (N_of_ascii a <? 192).
Fixpoint take_chars (n : nat) (s : string) : string :=
  match s with
  | EmptyString => EmptyString
  | String a s' =>
      if continuation a then String a (take_chars n s')
      else match n with O => EmptyString | S n => String a (take_chars n s') end
  end.

(** A response with the host of its final URL and its body as [text] reads it. *)
Record WebResponse := {
  wr_host_str : option string;
  wr_host : option Host;
  wr_text : result string string;
  wr_response : Response;
}.

Context `{IpDisplay, RN : RelayNet}.

Definition resolve_handle_at_endpoint (endpoint : string) (sent : result WebResponse string) : result Url WebFingerError :=
  match sent with
  | Err e => Err (Transport e)
  | Ok resp =>
      let req_host := u ← url_parse endpoint; url_host_str u in
      match (if negb (bool_decide (req_host = wr_host_str resp)) then h ← wr_host resp; private_ip_reason h else None) with
      | Some reason => Err (PrivateInstance reason)
      | None =>
          if negb (is_success (wr_response resp))
          then match wr_text resp with
               | Err e => Err (Transport e)
               | Ok body_full => Err (Http (rp_status (wr_response resp)) (take_chars 256 body_full))
               end
          else match read_body_capped (wr_response resp) MAX_JRD_BODY_BYTES with
               | Err CapExceeded => Err (BodyTooLarge MAX_JRD_BODY_BYTES)
               | Err (ReadError e) => Err (Transport e)
               | Ok body => match jrd_value body with Err e => Err (JrdParse e) | Ok v => jrd_actor v end
               end
      end
  end.

(** The resource asked for, the query that names it, and the address asked. *)
Definition acct_resource (handle : ParsedHandle) : string := "acct:" +:+ ph_local handle +:+ "@" +:+ ph_instance handle.
Definition webfinger_query (handle : ParsedHandle) : string := "resource=" +:+ form_serialize (acct_resource handle).
Definition webfinger_endpoint (handle : ParsedHandle) : string :=
  "https://" +:+ ph_instance handle +:+ "/.well-known/webfinger?" +:+ webfinger_query handle.

(** [built] is the outcome of the client builder with the addresses pinned, [send] what the built client then answers for them. *)
Definition resolve_handle (handle : ParsedHandle) (built : result unit string) (send : list IpAddr -> result WebResponse string)
    : result Url WebFingerError :=
  let endpoint := webfinger_endpoint handle in
  match url_parse endpoint with
  | None => Err (InvalidInstance (url_error endpoint))
  | Some pre_url =>
      match (h ← url_host pre_url; private_ip_reason h) with
      | Some reason => Err (PrivateInstance reason)
      | None =>
          match url_host_str pre_url with
          | None => Err (InvalidInstance "URL has no host")
          | Some host_for_pin =>
              let port := default 443 (url_port_or_known_default pre_url) in
              match resolve_and_pin_host host_for_pin (lookup_host host_for_pin port) with
              | Err (PrivateAddress host) => Err (PrivateInstance host)
              | Err (Resolve msg) => Err (Transport msg)
              | Ok pinned =>
                  match built with
                  | Err e => Err (Transport ("client builder: " +:+ e))
                  | Ok _ => resolve_handle_at_endpoint endpoint (send pinned)
                  end
              end
          end
      end
  end.
End resolve.

(** ** What a mention and a resolution promise *)

Lemma lacks_at_lower s : lacks "@" s -> lacks "@" (to_ascii_lowercase s).
Proof.
  induction s as [|x s IH]; [done|]. cbn [to_ascii_lowercase]. rewrite !lacks_cons. intros [Hx Hs]. split; [|by apply IH].
  intros He. apply Hx. destruct x as [[] [] [] [] [] [] [] []]; vm_compute in He |- *; congruence.
Qed.

Lemma parse_mention_shape m p : parse_mention m = Ok p ->
  lacks "@" (ph_local p) /\ ph_local p <> EmptyString /\ lacks "@" (ph_instance p) /\ ph_instance p <> EmptyString.
Proof.
  unfold parse_mention. destruct (strip_prefix "@" m) as [stripped|]; [|done].
  destruct (split_once "@" stripped) as [[local instance]|] eqn:Hs; [|done].
  case_bool_decide as Hl; [done|]. case_bool_decide as Hi; [done|]. destruct (str_contains "." instance); [|done].
  destruct (str_contains "@" instance) eqn:Ha; [done|]. cbn. destruct (str_contains "/" instance); [done|]. intros [= <-]. cbn.
  split; [by eapply split_once_lacks|]. split; [done|]. split; [|by destruct instance].
  apply lacks_at_lower, split_once_none. unfold str_contains in Ha. by destruct (split_once "@" instance).
Qed.

(** What is extracted parses, once each, in the order first seen. *)
Lemma extract_mentions_spec body :
  NoDup (extract_mentions body) /\ Forall (fun m => is_ok (parse_mention m) = true) (extract_mentions body).
Proof.
  unfold extract_mentions. assert (NoDup (@nil string) /\ Forall (fun m => is_ok (parse_mention m) = true) []) as Hn by (split; constructor).
  revert Hn. generalize (@nil string) as out. induction (split_whitespace body) as [|token rest IH]; intros out [Hd Hp]; [done|].
  cbn [foldl]. apply IH. unfold add_mention. cbv zeta. set (t := trim_end_any _ _). destruct (is_ok (parse_mention t)) eqn:Ht; [|by rewrite orb_true_r].
  destruct (starts_with "@" t); [|done]. cbn. case_bool_decide as Hin; [done|]. split; [|by apply Forall_app; repeat constructor].
  apply NoDup_app. split; [done|]. split; [|apply NoDup_singleton]. intros x Hx ->%list_elem_of_singleton. done.
Qed.

(** No address the resolver answers with is dialled unless every one of them is public, and the addresses pinned are those. *)
Lemma resolve_handle_pins `{UrlParse, FormUrl, JrdText, IpDisplay, RelayNet} handle built send u :
  resolve_handle handle built send = Ok u ->
  exists pinned, Forall (fun ip => is_private_ip_addr ip = None) pinned /\ pinned <> [] /\
    resolve_handle_at_endpoint (webfinger_endpoint handle) (send pinned) = Ok u.
Proof.
  unfold resolve_handle. destruct (url_parse _) as [pre|]; [|done]. destruct (_ ≫= _); [done|]. destruct (url_host_str pre) as [h|]; [|done].
  unfold resolve_and_pin_host. destruct (lookup_host _ _) as [[|a l]|]; [done| |done].
  destruct (check_addrs (a :: l)) as [[]|[]] eqn:Hc; [|done..]. destruct built; [|done]. intros Hs. exists (a :: l). split; [|done].
  clear -Hc. revert Hc. generalize (a :: l) as addrs. induction addrs as [|x addrs IH]; [constructor|]. cbn.
  destruct (is_private_ip_addr x) eqn:Hx; [done|]. intros Hc. constructor; [done|by apply IH].
Qed.

Example mentions_found : extract_mentions "hi (@Bob@Relay.example), @ann@x.io! @Bob@Relay.example and user@host.com or @bare" =
  ["@Bob@Relay.example"; "@ann@x.io"]%string.
Proof. by vm_compute. Qed.
