(* ===== verification/ActorRegistry.v ===== *)
(** * The relay's actor registry

    Models [crates/fetchit-relay-server/src/registry] ([mod.rs], [verify.rs], [store.rs],
    [store_sqlite.rs], [webfinger.rs], [actor_doc.rs], [router.rs]) and [registry_admin.rs]: the
    directory of handles a relay in the bridge role keeps.  The trait is the class
    [ActorRegistryStore]; both stores refine the directory [Directory].  A JSON answer is the
    value whose text is sent.  Parsing of request bodies, of RSA keys and of URLs, the text of
    attestations in the table, and the texts of other packages' errors are parameters; the rate
    limiter's verdict is an argument.  SQLite is modelled by the statements the source runs; of
    its errors the refusal of numbers beyond [i64]. *)
From Stdlib Require Import Ascii.
From S2P Require Import Prelude RelayProto RelayAuth PairRecord ShareUri Text ActorDoc WebFinger.
Open Scope rust_scope.

(** ** Records and errors *)

Record RegisterActorRequest := mkRequest {
  rq_handle : string; rq_rsa_spki_der : bytes; rq_attestation_v2 : ActorAttestationV2 }.

Record ActorRecord := mkActor {
  rr_handle : string; rr_actor_url : string; rr_agent_id_hex : string; rr_rsa_spki_der : bytes;
  rr_attestation : ActorAttestationV2; rr_registered_at_ms : N }.
Definition rr_epoch (r : ActorRecord) : N := a2_hint_epoch_ms (rr_attestation r).

Inductive RegistryStoreError := HandleTaken | UnknownHandle | AgentMismatch | StaleEpoch | Storage (e : string).
Inductive RegistryRejection :=
| BadHandle (why : string)
| BadBody (why : string)
| BadSpki (why : string)
| BadAttestation (why : string)
| HandleMismatch (path body : string)
| BadEpoch.

(** [ActorRegistryStore]: each method is one locked access. *)
Class ActorRegistryStore (S : Type) := {
  store_register : ActorRecord -> S -> result unit RegistryStoreError * S;
  store_update : ActorRecord -> S -> result unit RegistryStoreError * S;
  store_get : string -> S -> option ActorRecord }.

(** Bodies, RSA keys, the column of attestations, and texts. *)
Class RegistryCodec := {
  parse_register : bytes -> result RegisterActorRequest string;
  rsa_from_der : bytes -> result unit string;
  att2_to_string : ActorAttestationV2 -> string;
  att2_from_str : string -> option ActorAttestationV2;
  attestation_error_text : AttestationVerifyError -> string;
  debug_char : N -> string;
  to_sql_error : N -> string }.

(** ** [verify.rs] *)

Record RegistryConfig := mkConfig {
  cf_domain : string; cf_trusted_client_ip_header : string; cf_reserved_handles : gset string; cf_reserved_min_len : N }.
Definition registry_config_new (domain : string) : RegistryConfig := mkConfig domain "x-real-ip" ∅ 0.
Definition is_reserved (cfg : RegistryConfig) (handle : string) : bool :=
  (str_len handle <=? cf_reserved_min_len cfg) || bool_decide (handle ∈ cf_reserved_handles cfg).

Definition handle_byte (b : N) : bool :=
  ((97 <=? b) && (b <=? 122)) || ((48 <=? b) && (b <=? 57)) || (b =? 95) || (b =? 45).
Fixpoint check_handle_bytes `{RegistryCodec} (bs : bytes) : result unit RegistryRejection :=
  match bs with
  | [] => Ok tt
  | b :: bs =>
      if handle_byte b then check_handle_bytes bs
      else Err (BadHandle ("char " +:+ debug_char b +:+ " not allowed; handles are lowercase [a-z0-9_-]"))
  end.
Definition validate_registry_handle `{RegistryCodec} (handle : string) : result unit RegistryRejection :=
  if bool_decide (handle = EmptyString) then Err (BadHandle "handle must be non-empty")
  else if 64 <? str_len handle then Err (BadHandle "handle exceeds 64 chars")
  else check_handle_bytes (ascii_bytes handle).

Section verify.
  Context `{RC : RegistryCodec, UP : UrlParse, UE : UrlEdit, SH : Sha256, ML : MlDsaBackend, DT : DocText}.

Definition actor_url_text (cfg : RegistryConfig) (handle : string) : string :=
  "https://" +:+ cf_domain cfg +:+ "/actors/" +:+ handle.
Definition canonical_actor_url (cfg : RegistryConfig) (handle : string) : result Url RegistryRejection :=
  let? _ := validate_registry_handle handle in
  match url_parse (actor_url_text cfg handle) with
  | Some u => Ok u
  | None => Err (BadBody ("actor url assembly: " +:+ url_parse_error (actor_url_text cfg handle)))
  end.

Definition verify_registration (cfg : RegistryConfig) (req : RegisterActorRequest) (now_ms : N) : result ActorRecord RegistryRejection :=
  let? actor_url := canonical_actor_url cfg (rq_handle req) in
  if i64_max <? a2_hint_epoch_ms (rq_attestation_v2 req) then Err BadEpoch
  else match rsa_from_der (rq_rsa_spki_der req) with
       | Err e => Err (BadSpki e)
       | Ok _ =>
           match verify_binding_v2 (rq_handle req) actor_url (rq_rsa_spki_der req) (rq_attestation_v2 req) with
           | Err e => Err (BadAttestation (attestation_error_text e))
           | Ok agent_id_hex =>
               Ok (mkActor (rq_handle req) (url_to_string actor_url) agent_id_hex (rq_rsa_spki_der req) (rq_attestation_v2 req) now_ms)
           end
       end.
End verify.

(** ** [store.rs] *)

Notation InMemoryActorStore := (gmap string ActorRecord).
Definition mem_register (record : ActorRecord) (s : InMemoryActorStore) : result unit RegistryStoreError * InMemoryActorStore :=
  match s !! rr_handle record with
  | Some _ => (Err HandleTaken, s)
  | None => (Ok tt, <[rr_handle record := record]> s)
  end.
Definition mem_update (record : ActorRecord) (s : InMemoryActorStore) : result unit RegistryStoreError * InMemoryActorStore :=
  match s !! rr_handle record with
  | None => (Err UnknownHandle, s)
  | Some current =>
      if negb (bool_decide (rr_agent_id_hex current = rr_agent_id_hex record)) then (Err AgentMismatch, s)
      else if rr_epoch record <=? rr_epoch current then (Err StaleEpoch, s)
      else (Ok tt, <[rr_handle record := record]> s)
  end.
Definition mem_get (handle : string) (s : InMemoryActorStore) : option ActorRecord := s !! handle.
#[export] Instance in_memory_store : ActorRegistryStore InMemoryActorStore :=
  {| store_register := mem_register; store_update := mem_update; store_get := mem_get |}.

(** ** [store_sqlite.rs] *)

(** A row of [actors], under its primary key; [None] is NULL. *)
Record RegistryRow := mkRow {
  rw_actor_url : option string; rw_agent_id_hex : option string; rw_rsa_spki_der : option bytes;
  rw_attestation_json : option string; rw_hint_epoch_ms : option N; rw_registered_at_ms : option N;
  rw_tombstoned_at : option N }.
Record SqliteActorStore := mkSqlite { sql_actors : gmap string RegistryRow }.

Section sqlite.
  Context `{RC : RegistryCodec}.

(** [ToSql] of a [u64]. *)
Definition to_sql (n : N) : result N RegistryStoreError := if i64_max <? n then Err (Storage (to_sql_error n)) else Ok n.

Definition sql_register (record : ActorRecord) (s : SqliteActorStore) : result unit RegistryStoreError * SqliteActorStore :=
  let attestation_json := att2_to_string (rr_attestation record) in
  match to_sql (rr_epoch record), to_sql (rr_registered_at_ms record) with
  | Ok epoch, Ok registered =>
      match sql_actors s !! rr_handle record with
      | Some _ => (Err HandleTaken, s)
      | None =>
          (Ok tt, mkSqlite (<[rr_handle record := mkRow (Some (rr_actor_url record)) (Some (rr_agent_id_hex record))
                                                        (Some (rr_rsa_spki_der record)) (Some attestation_json)
                                                        (Some epoch) (Some registered) None]> (sql_actors s)))
      end
  | Err e, _ | _, Err e => (Err e, s)
  end.

(** The row of a handle that is not erased. *)
Definition live_row (handle : string) (s : SqliteActorStore) : option RegistryRow :=
  row ← sql_actors s !! handle; if is_some (rw_tombstoned_at row) then None else Some row.

Definition sql_update (record : ActorRecord) (s : SqliteActorStore) : result unit RegistryStoreError * SqliteActorStore :=
  let attestation_json := att2_to_string (rr_attestation record) in
  match live_row (rr_handle record) s with
  | None => (Err UnknownHandle, s)
  | Some row =>
      match rw_agent_id_hex row, rw_hint_epoch_ms row with
      | Some cur_agent, Some cur_epoch =>
          if negb (bool_decide (cur_agent = rr_agent_id_hex record)) then (Err AgentMismatch, s)
          else if rr_epoch record <=? cur_epoch then (Err StaleEpoch, s)
          else match to_sql (rr_epoch record), to_sql (rr_registered_at_ms record) with
               | Ok epoch, Ok registered =>
                   (Ok tt, mkSqlite (<[rr_handle record := mkRow (Some (rr_actor_url record)) (Some (rr_agent_id_hex record))
                                                                 (Some (rr_rsa_spki_der record)) (Some attestation_json)
                                                                 (Some epoch) (Some registered) (rw_tombstoned_at row)]> (sql_actors s)))
               | Err e, _ | _, Err e => (Err e, s)
               end
      | _, _ => (Err (Storage "Invalid column type Null"), s)
      end
  end.

(** The record of a row; NULL columns and unreadable attestations give none. *)
Definition registry_row_record (handle : string) (row : RegistryRow) : option ActorRecord :=
  actor_url ← rw_actor_url row; agent_id_hex ← rw_agent_id_hex row; rsa_spki_der ← rw_rsa_spki_der row;
  attestation_json ← rw_attestation_json row; registered ← rw_registered_at_ms row;
  attestation ← att2_from_str attestation_json;
  Some (mkActor handle actor_url agent_id_hex rsa_spki_der attestation registered).
Definition sql_get (handle : string) (s : SqliteActorStore) : option ActorRecord :=
  row ← live_row handle s; registry_row_record handle row.

Definition sql_tombstone (handle : string) (now_ms : N) (s : SqliteActorStore) : result unit RegistryStoreError * SqliteActorStore :=
  match to_sql now_ms with
  | Err e => (Err e, s)
  | Ok now => (Ok tt, mkSqlite (<[handle := mkRow None None None None None None (Some now)]> (sql_actors s)))
  end.
Definition is_held (handle : string) (s : SqliteActorStore) : bool :=
  match sql_actors s !! handle with Some row => is_some (rw_tombstoned_at row) | None => false end.
Definition sql_release (handle : string) (s : SqliteActorStore) : SqliteActorStore :=
  if is_held handle s then mkSqlite (delete handle (sql_actors s)) else s.

(** [ORDER BY handle]: the order of the bytes. *)
Definition handle_le (x y : string * bool) : Prop := String.leb x.1 y.1 = true.
#[export] Instance handle_le_dec : RelDecision handle_le.
Proof. unfold handle_le. solve_decision. Defined.
Definition list_handles (s : SqliteActorStore) : list (string * bool) :=
  merge_sort handle_le ((fun kv => (kv.1, is_some (rw_tombstoned_at kv.2))) <$> map_to_list (sql_actors s)).
End sqlite.
#[export] Instance sqlite_store `{RegistryCodec} : ActorRegistryStore SqliteActorStore :=
  {| store_register := sql_register; store_update := sql_update; store_get := sql_get |}.

(** [registry_admin.rs]: what a command prints, and the table after it. *)
Inductive RegistryCmd := CmdTombstone (handle : string) | CmdRelease (handle : string) | CmdGet (handle : string) | CmdList.
Definition run_admin `{RegistryCodec} (cmd : RegistryCmd) (now_ms : N) (s : SqliteActorStore) : result (list string) RegistryStoreError * SqliteActorStore :=
  match cmd with
  | CmdTombstone handle =>
      match sql_tombstone handle now_ms s with
      | (Ok _, s) => (Ok ["tombstoned + held: " +:+ handle], s)
      | (Err e, s) => (Err e, s)
      end
  | CmdRelease handle => (Ok ["released to self-serve: " +:+ handle], sql_release handle s)
  | CmdGet handle =>
      (Ok [match sql_get handle s with
           | Some r => "active  " +:+ handle +:+ "  agent=" +:+ rr_agent_id_hex r +:+ "  url=" +:+ rr_actor_url r
           | None => if is_held handle s then "held    " +:+ handle else "absent  " +:+ handle
           end], s)
  | CmdList => (Ok ((fun e => (if e.2 : bool then "held  " else "active") +:+ "  " +:+ e.1) <$> list_handles s), s)
  end.

(** ** [webfinger.rs], [actor_doc.rs] *)

Definition parse_acct_resource (resource : string) : option (string * string) :=
  rest ← strip_prefix "acct:" resource;
  '(handle, domain) ← split_once "@" rest;
  if bool_decide (handle = EmptyString) || bool_decide (domain = EmptyString) || is_some (split_once "@" domain) then None
  else Some (handle, domain).

Definition webfinger_jrd (record : ActorRecord) (domain : string) : Value :=
  VObject {[ "subject" := VString ("acct:" +:+ rr_handle record +:+ "@" +:+ domain);
             "aliases" := VArray [VString (rr_actor_url record)];
             "links" := VArray [VObject {[ "rel" := VString "self"; "type" := VString "application/activity+json";
                                           "href" := VString (rr_actor_url record) ]}] ]}.

(** [split(p).next()]: what precedes the first occurrence, or everything. *)
Fixpoint before_first (p s : string) : string :=
  if starts_with p s then EmptyString
  else match s with EmptyString => EmptyString | String c s' => String c (before_first p s') end.

Definition actor_document `{AttestationJson, Base64} (record : ActorRecord) : Value :=
  let pem := spki_der_to_pem (rr_rsa_spki_der record) in
  let shared_inbox := before_first "/actors/" (rr_actor_url record) +:+ "/inbox" in
  VObject {[ "@context" := VArray [VString "https://www.w3.org/ns/activitystreams"; VString "https://w3id.org/security/v1"];
             "id" := VString (rr_actor_url record);
             "type" := VString "Person";
             "preferredUsername" := VString (rr_handle record);
             "inbox" := VString shared_inbox;
             "endpoints" := VObject {[ "sharedInbox" := VString shared_inbox ]};
             "publicKey" := VObject {[ "id" := VString (rr_actor_url record +:+ "#main-key"); "owner" := VString (rr_actor_url record);
                                       "publicKeyPem" := VString pem ]};
             PQ_ATTESTATION_V2_PROPERTY_URI := att2_to_value (rr_attestation record) ]}.

(** ** [router.rs] *)

Definition store_error_text (e : RegistryStoreError) : string :=
  match e with
  | HandleTaken => "handle already registered"
  | UnknownHandle => "unknown handle"
  | AgentMismatch => "agent id mismatch: a handle never silently changes agent"
  | StaleEpoch => "stale hint epoch"
  | Storage s => "registry storage error: " +:+ s
  end.
Definition rejection_text `{DocText} (r : RegistryRejection) : string :=
  match r with
  | BadHandle s => "invalid handle: " +:+ s
  | BadBody s => "malformed request body: " +:+ s
  | BadSpki s => "invalid RSA SubjectPublicKeyInfo: " +:+ s
  | BadAttestation s => "attestation verification failed: " +:+ s
  | HandleMismatch path body => "path handle " +:+ debug_str path +:+ " does not match body handle " +:+ debug_str body
  | BadEpoch => "hint_epoch_ms exceeds the storable range"
  end.

Inductive OutcomeBody := TextBody (s : string) | JsonBody (v : Value).
Record Outcome := mkOutcome { oc_status : N; oc_body : OutcomeBody }.

Definition rejection_outcome `{DocText} (r : RegistryRejection) : Outcome := mkOutcome 422 (TextBody (rejection_text r)).
Definition store_outcome (e : RegistryStoreError) : Outcome :=
  match e with
  | UnknownHandle => mkOutcome 404 (TextBody (store_error_text e))
  | HandleTaken | AgentMismatch | StaleEpoch => mkOutcome 409 (TextBody (store_error_text e))
  | Storage _ => mkOutcome 500 (TextBody "internal error")
  end.

Section router.
  Context `{RC : RegistryCodec, UP : UrlParse, UE : UrlEdit, SH : Sha256, ML : MlDsaBackend, DT : DocText, FU : FormUrl,
            AJ : AttestationJson, BB : Base64}.
  Context {S : Type} `{ST : ActorRegistryStore S} (cfg : RegistryConfig).

Definition url_answer (status : N) (url : string) : Outcome := mkOutcome status (JsonBody (VObject {["actor_url" := VString url]})).

Definition register_inner (body : bytes) (now : N) (s : S) : Outcome * S :=
  match parse_register body with
  | Err e => (rejection_outcome (BadBody e), s)
  | Ok req =>
      match validate_registry_handle (rq_handle req) with
      | Err e => (rejection_outcome e, s)
      | Ok _ =>
          if is_reserved cfg (rq_handle req) then (mkOutcome 403 (TextBody "handle is reserved"), s)
          else match verify_registration cfg req now with
               | Err e => (rejection_outcome e, s)
               | Ok record =>
                   match store_register record s with
                   | (Ok _, s) => (url_answer 201 (rr_actor_url record), s)
                   | (Err e, s) => (store_outcome e, s)
                   end
               end
      end
  end.

Definition update_inner (path_handle : string) (body : bytes) (now : N) (s : S) : Outcome * S :=
  match parse_register body with
  | Err e => (rejection_outcome (BadBody e), s)
  | Ok req =>
      if negb (bool_decide (rq_handle req = path_handle)) then (rejection_outcome (HandleMismatch path_handle (rq_handle req)), s)
      else match verify_registration cfg req now with
           | Err e => (rejection_outcome e, s)
           | Ok record =>
               match store_update record s with
               | (Ok _, s) => (url_answer 200 (rr_actor_url record), s)
               | (Err e, s) => (store_outcome e, s)
               end
           end
  end.

Definition unknown : Outcome := mkOutcome 404 (TextBody "unknown").
Definition webfinger_inner (raw_query : option string) (s : S) : Outcome :=
  match q ← raw_query; snd <$> List.find (fun kv => bool_decide (kv.1 = "resource"%string)) (form_parse q) with
  | None => mkOutcome 400 (TextBody "missing resource")
  | Some resource =>
      match parse_acct_resource resource with
      | None => mkOutcome 400 (TextBody "malformed resource")
      | Some (handle, domain) =>
          if negb (bool_decide (domain = cf_domain cfg)) then unknown
          else match store_get handle s with
               | Some record => mkOutcome 200 (JsonBody (webfinger_jrd record (cf_domain cfg)))
               | None => unknown
               end
      end
  end.
Definition actor_doc_inner (handle : string) (s : S) : Outcome :=
  match store_get handle s with
  | Some record => mkOutcome 200 (JsonBody (actor_document record))
  | None => unknown
  end.

(** [headers]: the first value of a header, when it is text. *)
Definition source_key (headers : string -> option string) (trusted_header : string) (peer : option string) : string :=
  match v ← headers trusted_header; let t := trim v in if bool_decide (t = EmptyString) then None else Some t with
  | Some key => key
  | None => default "unknown" peer
  end.

Definition REGISTRY_MAX_BODY : N := 64 * 1024.
(** The layer that reads the body refuses it before the handler runs. *)
Definition limited (allow : string -> bool) (headers : string -> option string) (peer : option string) (body : bytes)
    (inner : S -> Outcome * S) (s : S) : Outcome * S :=
  if REGISTRY_MAX_BODY <? len body then (mkOutcome 413 (TextBody "length limit exceeded"), s)
  else if negb (allow (source_key headers (cf_trusted_client_ip_header cfg) peer)) then (mkOutcome 429 (TextBody "rate limited"), s)
  else inner s.
Definition handle_register (allow : string -> bool) (headers : string -> option string) (peer : option string) (body : bytes) (now : N)
    : S -> Outcome * S := limited allow headers peer body (register_inner body now).
Definition handle_update (allow : string -> bool) (handle : string) (headers : string -> option string) (peer : option string) (body : bytes)
    (now : N) : S -> Outcome * S := limited allow headers peer body (update_inner handle body now).
End router.

(** ** The directory both stores implement *)

Record Directory := mkDirectory { d_active : gmap string ActorRecord; d_held : gset string }.
Definition spec_register (r : ActorRecord) (d : Directory) : result unit RegistryStoreError * Directory :=
  if decide (rr_handle r ∈ d_held d) then (Err HandleTaken, d)
  else match d_active d !! rr_handle r with
       | Some _ => (Err HandleTaken, d)
       | None => (Ok tt, mkDirectory (<[rr_handle r := r]> (d_active d)) (d_held d))
       end.
Definition spec_update (r : ActorRecord) (d : Directory) : result unit RegistryStoreError * Directory :=
  match d_active d !! rr_handle r with
  | None => (Err UnknownHandle, d)
  | Some current =>
      if negb (bool_decide (rr_agent_id_hex current = rr_agent_id_hex r)) then (Err AgentMismatch, d)
      else if rr_epoch r <=? rr_epoch current then (Err StaleEpoch, d)
      else (Ok tt, mkDirectory (<[rr_handle r := r]> (d_active d)) (d_held d))
  end.

(** What a store can keep. *)
Record storable `{RegistryCodec} (r : ActorRecord) : Prop := {
  sb_epoch : rr_epoch r <= i64_max;
  sb_time : rr_registered_at_ms r <= i64_max;
  sb_text : att2_from_str (att2_to_string (rr_attestation r)) = Some (rr_attestation r) }.

Class RegistryStoreLaws (S : Type) `{RegistryCodec, ActorRegistryStore S} := {
  directory : S -> Directory;
  store_wf : S -> Prop;
  store_get_spec : forall h s, store_wf s -> store_get h s = d_active (directory s) !! h;
  store_register_spec : forall r s, storable r -> store_wf s ->
    store_wf (store_register r s).2 /\ ((store_register r s).1, directory (store_register r s).2) = spec_register r (directory s);
  store_update_spec : forall r s, storable r -> store_wf s ->
    store_wf (store_update r s).2 /\ ((store_update r s).1, directory (store_update r s).2) = spec_update r (directory s) }.

(** *** The store in memory *)

Section memory.
  Context `{RC : RegistryCodec}.

#[export] Instance memory_laws : RegistryStoreLaws InMemoryActorStore.
Proof.
  unshelve refine {| directory s := mkDirectory s ∅; store_wf _ := True |}.
  - done.
  - intros r s _ _. split; [done|]. unfold spec_register. cbn [d_active d_held store_register in_memory_store].
    rewrite decide_False by apply not_elem_of_empty. unfold mem_register. by destruct (s !! rr_handle r).
  - intros r s _ _. split; [done|]. unfold spec_update. cbn [d_active d_held store_update in_memory_store].
    unfold mem_update. destruct (s !! rr_handle r); [|done]. by repeat case_match.
Defined.
End memory.

(** *** The table *)

Section table.
  Context `{RC : RegistryCodec}.

(** A row is a whole registration or an erased handle. *)
Definition row_ok (h : string) (row : RegistryRow) : Prop :=
  (exists r, rr_handle r = h /\ storable r /\
     row = mkRow (Some (rr_actor_url r)) (Some (rr_agent_id_hex r)) (Some (rr_rsa_spki_der r))
             (Some (att2_to_string (rr_attestation r))) (Some (rr_epoch r)) (Some (rr_registered_at_ms r)) None) \/
  exists now, row = mkRow None None None None None None (Some now).
Definition table_wf (s : SqliteActorStore) : Prop := map_Forall row_ok (sql_actors s).
Definition table_directory (s : SqliteActorStore) : Directory :=
  mkDirectory (map_imap (fun h row => if is_some (rw_tombstoned_at row) then None else registry_row_record h row) (sql_actors s))
    (dom (filter (fun kv => is_some (rw_tombstoned_at kv.2) = true) (sql_actors s))).

Lemma row_of_record r : storable r ->
  registry_row_record (rr_handle r) (mkRow (Some (rr_actor_url r)) (Some (rr_agent_id_hex r)) (Some (rr_rsa_spki_der r))
    (Some (att2_to_string (rr_attestation r))) (Some (rr_epoch r)) (Some (rr_registered_at_ms r)) None) = Some r.
Proof. intros [_ _ Ht]. unfold registry_row_record. cbn. rewrite Ht. by destruct r. Qed.

Lemma table_held h s : h ∈ d_held (table_directory s) <-> is_held h s = true.
Proof.
  cbn. rewrite elem_of_dom. unfold is_held. split.
  - intros [row [Hl Ht]%map_lookup_filter_Some]. by rewrite Hl.
  - destruct (sql_actors s !! h) as [row|] eqn:Hl; [|done]. intros Ht. exists row. by apply map_lookup_filter_Some.
Qed.
Lemma table_active h s : d_active (table_directory s) !! h = sql_get h s.
Proof. cbn. rewrite map_lookup_imap. unfold sql_get, live_row. destruct (sql_actors s !! h) as [row|]; [|done]. cbn. by destruct (is_some _). Qed.

(** The directory after a row is written. *)
Lemma table_insert r s : storable r -> is_held (rr_handle r) s = false ->
  table_directory (mkSqlite (<[rr_handle r := mkRow (Some (rr_actor_url r)) (Some (rr_agent_id_hex r)) (Some (rr_rsa_spki_der r))
    (Some (att2_to_string (rr_attestation r))) (Some (rr_epoch r)) (Some (rr_registered_at_ms r)) None]> (sql_actors s)))
  = mkDirectory (<[rr_handle r := r]> (d_active (table_directory s))) (d_held (table_directory s)).
Proof.
  intros Hr Hh. unfold table_directory. cbn [d_active d_held sql_actors]. f_equal.
  - rewrite map_imap_insert. cbn [rw_tombstoned_at is_some]. by rewrite row_of_record.
  - rewrite map_filter_insert_False by done. apply set_eq. intros h. rewrite !elem_of_dom. unfold is_Some.
    setoid_rewrite map_lookup_filter_Some. cbn. split; intros [row Hrow]; exists row; destruct Hrow as [Hl Ht]; split; try done.
    + apply lookup_delete_Some in Hl. naive_solver.
    + apply lookup_delete_Some. split; [|done]. intros <-. unfold is_held in Hh. rewrite Hl in Hh. by rewrite Hh in Ht.
Qed.
Lemma to_sql_ok n : n <= i64_max -> to_sql n = Ok n.
Proof. intros Hn. unfold to_sql. by rewrite (proj2 (N.ltb_ge _ _) Hn). Qed.
Lemma live_row_wf h s row : table_wf s -> live_row h s = Some row ->
  exists r, rr_handle r = h /\ storable r /\ sql_get h s = Some r /\ is_held h s = false /\
    row = mkRow (Some (rr_actor_url r)) (Some (rr_agent_id_hex r)) (Some (rr_rsa_spki_der r))
            (Some (att2_to_string (rr_attestation r))) (Some (rr_epoch r)) (Some (rr_registered_at_ms r)) None.
Proof.
  intros Hwf Hl. unfold sql_get, is_held. rewrite Hl. unfold live_row in Hl. destruct (sql_actors s !! h) as [row'|] eqn:E; [|done].
  cbn in Hl. destruct (Hwf h row' E) as [(r & <- & Hr & ->)|[now ->]]; [|done]. cbn in Hl. injection Hl as <-. exists r.
  cbn [mbind option_bind]. by rewrite row_of_record.
Qed.

Lemma table_register_spec r s : storable r -> table_wf s ->
  table_wf (sql_register r s).2 /\ ((sql_register r s).1, table_directory (sql_register r s).2) = spec_register r (table_directory s).
Proof.
  intros Hr Hwf. unfold sql_register.
  rewrite (to_sql_ok (rr_epoch r)), (to_sql_ok (rr_registered_at_ms r)) by apply Hr. unfold spec_register.
  rewrite table_active. destruct (sql_actors s !! rr_handle r) as [row|] eqn:E.
  - split; [done|]. cbn [fst snd]. destruct (Hwf _ _ E) as [(r' & Hh & Hr' & ->)|[now ->]].
    + rewrite decide_False by (rewrite table_held; unfold is_held; rewrite E; done).
      unfold sql_get, live_row. rewrite E. cbn [mbind option_bind is_some rw_tombstoned_at]. by rewrite <- Hh, row_of_record.
    + by rewrite decide_True by (rewrite table_held; unfold is_held; rewrite E; done).
  - assert (is_held (rr_handle r) s = false) as Hh by (unfold is_held; by rewrite E). cbn [fst snd]. split.
    + apply map_Forall_insert_2; [|done]. left. by exists r.
    + rewrite decide_False by (rewrite table_held, Hh; done). unfold sql_get, live_row. rewrite E. cbn [mbind option_bind]. by rewrite table_insert.
Qed.
Lemma table_update_spec r s : storable r -> table_wf s ->
  table_wf (sql_update r s).2 /\ ((sql_update r s).1, table_directory (sql_update r s).2) = spec_update r (table_directory s).
Proof.
  intros Hr Hwf. unfold sql_update, spec_update. rewrite table_active. destruct (live_row (rr_handle r) s) as [row|] eqn:E.
  - destruct (live_row_wf _ _ _ Hwf E) as (cur & Hc & Hs & Hg & Hh & ->). rewrite Hg. cbn [rw_agent_id_hex rw_hint_epoch_ms rw_tombstoned_at].
    case_bool_decide; [|done]. cbn [negb]. destruct (rr_epoch r <=? rr_epoch cur); [done|].
    rewrite (to_sql_ok (rr_epoch r)), (to_sql_ok (rr_registered_at_ms r)) by apply Hr. cbn [fst snd]. split.
    + apply map_Forall_insert_2; [|done]. left. by exists r.
    + by rewrite table_insert.
  - split; [done|]. cbn [fst snd]. unfold sql_get. by rewrite E.
Qed.

#[export] Instance table_laws : RegistryStoreLaws SqliteActorStore.
Proof.
  unshelve refine {| directory := table_directory; store_wf := table_wf |}.
  - intros h s _. by rewrite table_active.
  - exact table_register_spec.
  - exact table_update_spec.
Defined.
End table.

(** ** Two stores give the same answers *)

Inductive StoreCall := CallRegister (r : ActorRecord) | CallUpdate (r : ActorRecord) | CallGet (handle : string).
Inductive StoreAnswer := Wrote (x : result unit RegistryStoreError) | Got (o : option ActorRecord).
Definition call_storable `{RegistryCodec} (c : StoreCall) : Prop :=
  match c with CallRegister r | CallUpdate r => storable r | CallGet _ => True end.
Definition do_call {S} `{ActorRegistryStore S} (c : StoreCall) (s : S) : StoreAnswer * S :=
  match c with
  | CallRegister r => let '(x, s) := store_register r s in (Wrote x, s)
  | CallUpdate r => let '(x, s) := store_update r s in (Wrote x, s)
  | CallGet h => (Got (store_get h s), s)
  end.
Fixpoint do_calls {S} `{ActorRegistryStore S} (cs : list StoreCall) (s : S) : list StoreAnswer * S :=
  match cs with
  | [] => ([], s)
  | c :: cs => let '(a, s) := do_call c s in let '(l, s) := do_calls cs s in (a :: l, s)
  end.

Section agree.
  Context `{RC : RegistryCodec} {S1 S2 : Type} `{A1 : ActorRegistryStore S1, A2 : ActorRegistryStore S2, L1 : !RegistryStoreLaws S1, L2 : !RegistryStoreLaws S2}.

Lemma calls_agree cs (s1 : S1) (s2 : S2) : Forall call_storable cs -> store_wf s1 -> store_wf s2 -> directory s1 = directory s2 ->
  (do_calls cs s1).1 = (do_calls cs s2).1 /\ directory (do_calls cs s1).2 = directory (do_calls cs s2).2.
Proof.
  revert s1 s2. induction cs as [|c cs IH]; intros s1 s2 Hc Hs1 Hs2 Hd; [done|]. apply Forall_cons in Hc as [Hc Hcs].
  assert (exists a t1 t2, do_call c s1 = (a, t1) /\ do_call c s2 = (a, t2) /\ store_wf t1 /\ store_wf t2 /\ directory t1 = directory t2)
    as (a & t1 & t2 & E1 & E2 & W1 & W2 & D).
  { destruct c as [r|r|h]; cbn [call_storable] in Hc; cbn [do_call].
    - destruct (store_register_spec r s1 Hc Hs1) as [W1 E1], (store_register_spec r s2 Hc Hs2) as [W2 E2]. rewrite Hd, <- E2 in E1.
      destruct (store_register r s1), (store_register r s2). injection E1 as -> E. eexists _, _, _. eauto.
    - destruct (store_update_spec r s1 Hc Hs1) as [W1 E1], (store_update_spec r s2 Hc Hs2) as [W2 E2]. rewrite Hd, <- E2 in E1.
      destruct (store_update r s1), (store_update r s2). injection E1 as -> E. eexists _, _, _. eauto.
    - eexists _, s1, s2. rewrite !store_get_spec, Hd by done. eauto. }
  cbn [do_calls]. rewrite E1, E2. destruct (IH t1 t2 Hcs W1 W2 D) as [Ha Hd']. destruct (do_calls cs t1), (do_calls cs t2). cbn [fst snd] in *. by subst.
Qed.
End agree.

(** The table gives the same answers as the store in memory, whatever sequence of registrations, updates and
    lookups they get, as long as the numbers fit the table and attestations read back from their text. *)
Theorem actor_stores_agree `{RegistryCodec} cs : Forall call_storable cs ->
  (do_calls cs (∅ : InMemoryActorStore)).1 = (do_calls cs (mkSqlite ∅)).1.
Proof.
  intros Hc. apply (calls_agree (L1 := memory_laws) (L2 := table_laws) cs ∅ (mkSqlite ∅) Hc); [done| |].
  - apply map_Forall_empty.
  - cbn. unfold table_directory. cbn [sql_actors]. by rewrite map_imap_empty, map_filter_empty, dom_empty_L.
Qed.

(** ** What the directory serves *)

(** What the packages document: a body's bytes are bytes, its attestation survives both of its texts; no bytes are no key. *)
Class RegistryLaws `{RegistryCodec, AttestationJson} := {
  parsed_bytes : forall body req, parse_register body = Ok req -> Forall (fun b => b < 256) (rq_rsa_spki_der req);
  parsed_text : forall body req, parse_register body = Ok req ->
    att2_from_str (att2_to_string (rq_attestation_v2 req)) = Some (rq_attestation_v2 req);
  parsed_value : forall body req, parse_register body = Ok req ->
    att2_from_value (att2_to_value (rq_attestation_v2 req)) = Ok (rq_attestation_v2 req);
  rsa_needs_bytes : rsa_from_der [] <> Ok tt }.

Inductive RegistryEvent :=
| EvPost (allow : string -> bool) (headers : string -> option string) (peer : option string) (body : bytes) (now : N)
| EvPut (allow : string -> bool) (path : string) (headers : string -> option string) (peer : option string) (body : bytes) (now : N)
| EvAdmin (cmd : RegistryCmd) (now : N).
Definition ev_time (ev : RegistryEvent) : N := match ev with EvPost _ _ _ _ now | EvPut _ _ _ _ _ now | EvAdmin _ now => now end.
Definition erases (h : string) (ev : RegistryEvent) : Prop := exists now, ev = EvAdmin (CmdTombstone h) now.

Section runs.
  Context `{RC : RegistryCodec, UP : UrlParse, UE : UrlEdit, SH : Sha256, ML : MlDsaBackend, DT : DocText, AJ : AttestationJson, RL : !RegistryLaws}.
  Context (cfg : RegistryConfig).

Definition registry_step (s : SqliteActorStore) (ev : RegistryEvent) : SqliteActorStore :=
  match ev with
  | EvPost allow headers peer body now => (handle_register cfg allow headers peer body now s).2
  | EvPut allow path headers peer body now => (handle_update cfg allow path headers peer body now s).2
  | EvAdmin cmd now => (run_admin cmd now s).2
  end.
Definition registry_run : list RegistryEvent -> SqliteActorStore -> SqliteActorStore := flip (foldl registry_step).

(** What verification leaves of a record. *)
Record verified (r : ActorRecord) : Prop := {
  vf_handle : validate_registry_handle (rr_handle r) = Ok tt;
  vf_binding : exists u, url_parse (actor_url_text cfg (rr_handle r)) = Some u /\ rr_actor_url r = url_to_string u /\
    verify_binding_v2 (rr_handle r) u (rr_rsa_spki_der r) (rr_attestation r) = Ok (rr_agent_id_hex r);
  vf_key : rsa_from_der (rr_rsa_spki_der r) = Ok tt;
  vf_bytes : Forall (fun b => b < 256) (rr_rsa_spki_der r);
  vf_value : att2_from_value (att2_to_value (rr_attestation r)) = Ok (rr_attestation r) }.

Lemma verify_registration_ok body req now r : parse_register body = Ok req -> now <= i64_max ->
  verify_registration cfg req now = Ok r -> verified r /\ storable r /\ rr_handle r = rq_handle req.
Proof.
  intros Hp Hn. unfold verify_registration, canonical_actor_url. destruct (validate_registry_handle (rq_handle req)) as [[]|] eqn:Hv; [|done].
  cbn. destruct (url_parse _) as [u|] eqn:Hu; [|done]. destruct (N.ltb_spec i64_max (a2_hint_epoch_ms (rq_attestation_v2 req))) as [|He]; [done|].
  destruct (rsa_from_der _) as [[]|] eqn:Hk; [|done]. destruct (verify_binding_v2 _ _ _ _) as [id|] eqn:Hb; [|done]. intros [= <-].
  split; [|split; [|done]].
  - constructor; cbn; [done| |done|by eapply parsed_bytes|by eapply parsed_value]. by exists u.
  - constructor; cbn; [done|done|by eapply parsed_text].
Qed.

(** One event, seen from one handle: nothing changes, or it is newly registered, renewed by its agent, or erased. *)
Definition handle_moves (h : string) (s s' : SqliteActorStore) (ev : RegistryEvent) : Prop :=
  (sql_get h s' = sql_get h s /\ (is_held h s = true -> is_held h s' = true \/ exists now, ev = EvAdmin (CmdRelease h) now)) \/
  (exists r', sql_get h s' = Some r' /\ rr_handle r' = h /\ verified r' /\ is_held h s = false /\
     forall r, sql_get h s = Some r -> rr_agent_id_hex r' = rr_agent_id_hex r /\ rr_epoch r < rr_epoch r') \/
  (erases h ev /\ sql_get h s' = None /\ is_held h s' = true).

Lemma directory_get h s : sql_get h s = d_active (table_directory s) !! h.
Proof. by rewrite table_active. Qed.
Lemma moved_directory h s s' ev : table_directory s' = table_directory s -> handle_moves h s s' ev.
Proof.
  intros Hd. left. rewrite !directory_get, Hd. split; [done|]. intros Hh%table_held. left. apply table_held. by rewrite Hd.
Qed.
Lemma moved_insert h s s' ev r : verified r -> rr_handle r ∉ d_held (table_directory s) ->
  table_directory s' = mkDirectory (<[rr_handle r := r]> (d_active (table_directory s))) (d_held (table_directory s)) ->
  (forall r0, d_active (table_directory s) !! rr_handle r = Some r0 -> rr_agent_id_hex r = rr_agent_id_hex r0 /\ rr_epoch r0 < rr_epoch r) ->
  handle_moves h s s' ev.
Proof.
  intros Hv Hh Hd Hc. destruct (decide (rr_handle r = h)) as [<-|Hne].
  - right. left. exists r. rewrite directory_get, Hd. cbn [d_active]. rewrite lookup_insert_eq.
    split_and!; [done|done|done| |]; [|intros r0; rewrite directory_get; apply Hc].
    apply not_true_is_false. by rewrite <- table_held.
  - left. rewrite !directory_get, Hd. cbn [d_active]. rewrite lookup_insert_ne by done. split; [done|].
    intros Ht%table_held. left. apply table_held. by rewrite Hd.
Qed.

(** What either write leaves. *)
Definition wrote (h : string) (s s' : SqliteActorStore) (ev : RegistryEvent) : Prop := table_wf s' /\ handle_moves h s s' ev.
Lemma register_moves h r s ev : verified r -> storable r -> table_wf s -> wrote h s (sql_register r s).2 ev.
Proof.
  intros Hv Hs Hwf. destruct (table_register_spec r s Hs Hwf) as [Hwf' Hd]. split; [done|]. unfold spec_register in Hd. apply (f_equal snd) in Hd. cbn [snd] in Hd.
  destruct (decide _) as [|Hh]; [by apply moved_directory|].
  destruct (d_active (table_directory s) !! rr_handle r) eqn:E;
  [by apply moved_directory|].
  apply (moved_insert h s _ ev r); [done..|]. intros r0. by rewrite E.
Qed.
Lemma active_not_held h s r : d_active (table_directory s) !! h = Some r -> h ∉ d_held (table_directory s).
Proof.
  rewrite table_active, table_held. unfold sql_get, live_row, is_held. destruct (sql_actors s !! h) as [row|]; [|done]. cbn.
  by destruct (is_some _).
Qed.
Lemma update_moves h r s ev : verified r -> storable r -> table_wf s -> wrote h s (sql_update r s).2 ev.
Proof.
  intros Hv Hs Hwf. destruct (table_update_spec r s Hs Hwf) as [Hwf' Hd]. split; [done|]. unfold spec_update in Hd. apply (f_equal snd) in Hd. cbn [snd] in Hd.
  destruct (d_active (table_directory s) !! rr_handle r) as [cur|] eqn:E; [|by apply moved_directory].
  case_bool_decide as Ha; cbn [negb] in Hd; [|by apply moved_directory].
  destruct (N.leb_spec (rr_epoch r) (rr_epoch cur));
  [by apply moved_directory|].
  apply (moved_insert h s _ ev r); [done|by eapply active_not_held|done|]. rewrite E. by intros r0 [= <-].
Qed.
Lemma wrote_same h s ev : table_wf s -> wrote h s s ev.
Proof. intros Hwf. split; [done|]. by apply moved_directory. Qed.

Lemma tombstone_moves h k now t s : now <= i64_max -> table_wf s -> wrote h s (sql_tombstone k now s).2 (EvAdmin (CmdTombstone k) t).
Proof.
  intros Hn Hwf. unfold sql_tombstone. rewrite to_sql_ok by done. cbn [fst snd]. split.
  { apply map_Forall_insert_2; [|done]. right. by exists now. }
  destruct (decide (k = h)) as [<-|Hne].
  - right. right. unfold sql_get, live_row, is_held. cbn [sql_actors]. rewrite lookup_insert_eq. split_and!; [by exists t|done|done].
  - left. unfold sql_get, live_row, is_held. cbn [sql_actors]. rewrite lookup_insert_ne by done. split; [done|]. by left.
Qed.
Lemma release_moves h k t s : table_wf s -> wrote h s (sql_release k s) (EvAdmin (CmdRelease k) t).
Proof.
  intros Hwf. unfold sql_release. destruct (is_held k s) eqn:Hk; [|by apply wrote_same]. split; [by apply map_Forall_delete|].
  left. destruct (decide (k = h)) as [<-|Hne].
  - split; [|intros _; right; by exists t]. unfold sql_get, live_row, is_held in *. cbn [sql_actors]. rewrite lookup_delete_eq.
    destruct (sql_actors s !! k) as [row|]; [|done]. cbn. by rewrite Hk.
  - unfold sql_get, live_row, is_held. cbn [sql_actors]. rewrite lookup_delete_ne by done. split; [done|]. by left.
Qed.

Lemma registry_step_moves h ev s : table_wf s -> ev_time ev <= i64_max -> wrote h s (registry_step s ev) ev.
Proof.
  intros Hwf Ht. destruct ev as [allow headers peer body now|allow path headers peer body now|cmd now]; cbn [registry_step ev_time] in *.
  - unfold handle_register, limited. destruct (REGISTRY_MAX_BODY <? len body); [by apply wrote_same|].
    destruct (allow _); cbn [negb]; [|by apply wrote_same]. unfold register_inner.
    destruct (parse_register body) as [req|] eqn:Hp; [|by apply wrote_same].
    destruct (validate_registry_handle _); [|by apply wrote_same]. destruct (is_reserved _ _); [by apply wrote_same|].
    destruct (verify_registration cfg req now) as [r|] eqn:Hv; [|by apply wrote_same].
    destruct (verify_registration_ok _ _ _ _ Hp Ht Hv) as (Hvf & Hs & _).
    pose proof (register_moves h r s (EvPost allow headers peer body now) Hvf Hs Hwf) as Hw. cbn [store_register sqlite_store].
    by destruct (sql_register r s) as [[]].
  - unfold handle_update, limited. destruct (REGISTRY_MAX_BODY <? len body); [by apply wrote_same|].
    destruct (allow _); cbn [negb]; [|by apply wrote_same]. unfold update_inner.
    destruct (parse_register body) as [req|] eqn:Hp; [|by apply wrote_same].
    case_bool_decide; cbn [negb]; [|by apply wrote_same].
    destruct (verify_registration cfg req now) as [r|] eqn:Hv; [|by apply wrote_same].
    destruct (verify_registration_ok _ _ _ _ Hp Ht Hv) as (Hvf & Hs & _).
    pose proof (update_moves h r s (EvPut allow path headers peer body now) Hvf Hs Hwf) as Hw. cbn [store_update sqlite_store].
    by destruct (sql_update r s) as [[]].
  - destruct cmd as [k|k|k|]; cbn [run_admin]; [|by apply release_moves|by apply wrote_same..].
    pose proof (tombstone_moves h k now now s Ht Hwf). by destruct (sql_tombstone k now s) as [[]].
Qed.

Lemma registry_run_snoc evs ev s : registry_run (evs ++ [ev]) s = registry_step (registry_run evs s) ev.
Proof. unfold registry_run, flip. by rewrite foldl_app. Qed.
Lemma registry_run_wf evs s : table_wf s -> Forall (fun ev => ev_time ev <= i64_max) evs -> table_wf (registry_run evs s).
Proof.
  intros Hwf. induction evs as [|ev evs IH] using rev_ind; [done|]. rewrite Forall_app, Forall_singleton, registry_run_snoc. intros [H1 H2].
  by apply (registry_step_moves EmptyString ev (registry_run evs s) (IH H1)).
Qed.

(** C34: Once a handle is registered, whatever requests and admin commands follow, as long as none of them erases that
    handle it stays registered, to the same agent, and its record is the same or one with a later epoch. *)
Theorem registered_handle_keeps_agent h s evs r :
  table_wf s -> Forall (fun ev => ev_time ev <= i64_max) evs -> Forall (fun ev => ~ erases h ev) evs ->
  sql_get h s = Some r ->
  exists r', sql_get h (registry_run evs s) = Some r' /\ rr_agent_id_hex r' = rr_agent_id_hex r /\ (r' = r \/ rr_epoch r < rr_epoch r').
Proof.
  intros Hwf. induction evs as [|ev evs IH] using rev_ind; intros Ht He Hg; [by exists r; auto|].
  apply Forall_app in Ht as [Ht Htev], He as [He Heev]. rewrite Forall_singleton in Htev, Heev.
  destruct (IH Ht He Hg) as (r1 & Hg1 & Ha & Hc). rewrite registry_run_snoc.
  destruct (registry_step_moves h ev _ (registry_run_wf evs s Hwf Ht) Htev) as [_ [[Hsame _]|[(r' & Hr' & _ & _ & _ & Hnew)|[Her _]]]].
  - exists r1. by rewrite Hsame.
  - destruct (Hnew r1 Hg1) as [Ha' He']. exists r'. split; [done|]. split; [congruence|]. right. destruct Hc as [->|]; lia.
  - by destruct Heev.
Qed.

(** Every record the table serves was verified for this domain, under its own handle. *)
Lemma served_verified evs h r : Forall (fun ev => ev_time ev <= i64_max) evs ->
  sql_get h (registry_run evs (mkSqlite ∅)) = Some r -> rr_handle r = h /\ verified r.
Proof.
  revert r. induction evs as [|ev evs IH] using rev_ind; intros r; [done|].
  rewrite Forall_app, Forall_singleton, registry_run_snoc. intros [Ht Htev] Hg.
  assert (table_wf (registry_run evs (mkSqlite ∅))) as Hwf by (apply registry_run_wf; [apply map_Forall_empty|done]).
  destruct (registry_step_moves h ev _ Hwf Htev) as [_ [[Hsame _]|[(r' & Hr' & Hh & Hv & _)|[_ [Hn _]]]]].
  - apply IH; [done|]. by rewrite <- Hsame.
  - rewrite Hr' in Hg. by injection Hg as <-.
  - by rewrite Hn in Hg.
Qed.

(** An erased handle is neither served nor registered again until it is released. *)
Theorem erased_handle_held h s evs : table_wf s -> is_held h s = true -> Forall (fun ev => ev_time ev <= i64_max) evs ->
  Forall (fun ev => ~ exists now, ev = EvAdmin (CmdRelease h) now) evs ->
  is_held h (registry_run evs s) = true /\ sql_get h (registry_run evs s) = None.
Proof.
  intros Hwf Hh. assert (forall t, is_held h t = true -> sql_get h t = None) as Hnone.
  { intros t. unfold is_held, sql_get, live_row. destruct (sql_actors t !! h) as [row|]; [|done]. cbn. by intros ->. }
  induction evs as [|ev evs IH] using rev_ind; intros Ht Hr; [auto|].
  apply Forall_app in Ht as [Ht Htev], Hr as [Hr Hrev]. rewrite Forall_singleton in Htev, Hrev. destruct (IH Ht Hr) as [Hheld _].
  rewrite registry_run_snoc.
  enough (is_held h (registry_step (registry_run evs s) ev) = true) by auto.
  destruct (registry_step_moves h ev _ (registry_run_wf evs s Hwf Ht) Htev) as [_ [[_ Hk]|[(r' & _ & _ & _ & Hf & _)|[_ [_ Hk]]]]]; [|congruence|done].
  by destruct (Hk Hheld).
Qed.
End runs.

(** *** The document verifies offline *)

Lemma before_first_lacks s t : lacks "/" s -> before_first "/actors/" (s +:+ "/actors/" +:+ t) = s.
Proof.
  induction s as [|c s IH]; intros Hs.
  - change (EmptyString +:+ "/actors/" +:+ t) with ("/actors/" +:+ t). destruct ("/actors/" +:+ t) eqn:E; [done|].
    cbn [before_first]. unfold starts_with. rewrite <- E. by rewrite strip_prefix_app.
  - apply lacks_cons in Hs as [Hc Hs]. rewrite append_cons. cbn [before_first]. unfold starts_with. cbn [strip_prefix].
    rewrite bool_decide_eq_false_2 by congruence. cbn. by rewrite IH.
Qed.

(** A domain the operator can configure: a host name that URLs print as it is. *)
Record domain_ok `{RegistryCodec, UrlParse, UrlEdit} (cfg : RegistryConfig) : Prop := {
  do_url : forall h u, url_parse (actor_url_text cfg h) = Some u -> validate_registry_handle h = Ok tt ->
    url_to_string u = actor_url_text cfg h;
  do_inbox : is_Some (url_parse ("https://" +:+ cf_domain cfg +:+ "/inbox"));
  do_plain : lacks "/" (cf_domain cfg);
  do_name : cf_domain cfg <> "actors"%string }.

Lemma segment_prefix p d t r : lacks "/" p -> lacks "/" d -> strip_prefix (p +:+ "/") (d +:+ String "/" t) = Some r -> d = p.
Proof.
  revert d. induction p as [|a p IH]; intros d Hp Hd.
  - destruct d as [|b d]; [done|]. apply lacks_cons in Hd as [Hb _]. rewrite append_cons.
    change (EmptyString +:+ "/") with "/"%string. cbn [strip_prefix]. by rewrite bool_decide_eq_false_2 by congruence.
  - apply lacks_cons in Hp as [Ha Hp]. rewrite append_cons. destruct d as [|b d].
    + change (EmptyString +:+ String "/" t) with (String "/" t). cbn [strip_prefix]. by rewrite bool_decide_eq_false_2.
    + apply lacks_cons in Hd as [_ Hd]. rewrite append_cons. cbn [strip_prefix]. case_bool_decide as Hab; [|done].
      intros Hs. by rewrite Hab, (IH d Hp Hd Hs).
Qed.
Lemma before_first_step p c s : starts_with p (String c s) = false -> before_first p (String c s) = String c (before_first p s).
Proof. intros Hs. cbn [before_first]. by rewrite Hs. Qed.
Lemma origin_of_url d h : lacks "/" d -> d <> "actors"%string ->
  before_first "/actors/" ("https://" +:+ d +:+ "/actors/" +:+ h) = "https://" +:+ d.
Proof.
  intros Hd Hn.
  assert (forall t, "https://" +:+ t = String "h" (String "t" (String "t" (String "p" (String "s" (String ":" (String "/" (String "/" t))))))))
    as Hhttps by done.
  rewrite !Hhttps. do 7 rewrite before_first_step by done. rewrite before_first_step; [by rewrite before_first_lacks|].
  unfold starts_with. change ("/actors/" +:+ h) with (String "/" ("actors/" +:+ h)).
  change (is_some (strip_prefix "actors/" (d +:+ String "/" ("actors/" +:+ h))) = false).
  destruct (strip_prefix "actors/" _) as [r|] eqn:E; [|done]. destruct Hn. change "actors/"%string with ("actors" +:+ "/") in E.
  apply segment_prefix in E; [done| |done]. apply (bool_decide_unpack _). by vm_compute.
Qed.

Lemma handle_plain `{RegistryCodec} h : validate_registry_handle h = Ok tt -> lacks "@" h /\ h <> EmptyString.
Proof.
  unfold validate_registry_handle. case_bool_decide as He; [done|]. destruct (64 <? str_len h); [done|]. intros Hc. split; [|done]. clear He.
  induction h as [|c h IH]; [by apply not_elem_of_nil|]. cbn in Hc. destruct (handle_byte _) eqn:Hb; [|done]. apply lacks_cons.
  split; [|by apply IH]. intros ->. by vm_compute in Hb.
Qed.

Section document.
  Context `{RC : RegistryCodec, UP : UrlParse, UE : UrlEdit, SH : Sha256, ML : MlDsaBackend, DT : DocText, AJ : AttestationJson, RL : !RegistryLaws,
            DL : !DocLaws, BB : Base64, BT : !Base64Text}.
  Context (cfg : RegistryConfig) (Hdomain : domain_ok cfg).

Ltac member := repeat first [rewrite lookup_insert_eq | rewrite lookup_insert_ne by done | rewrite lookup_singleton_eq]; done.

(** The members of a served document. *)
Lemma document_members r :
  let doc := actor_document r in
  get_str "type" doc = Some "Person"%string /\ get_str "id" doc = Some (rr_actor_url r) /\
  get_str "preferredUsername" doc = Some (rr_handle r) /\
  get_str "inbox" doc = Some (before_first "/actors/" (rr_actor_url r) +:+ "/inbox") /\
  (exists pk, value_get "publicKey" doc = Some pk /\ get_str "owner" pk = Some (rr_actor_url r) /\
     get_str "publicKeyPem" pk = Some (spki_der_to_pem (rr_rsa_spki_der r))) /\
  value_get PQ_ATTESTATION_V2_PROPERTY_URI doc = Some (att2_to_value (rr_attestation r)).
Proof.
  unfold actor_document, get_str, value_get. cbn zeta. unfold PQ_ATTESTATION_V2_PROPERTY_URI.
  split_and!; [member..| |member]. eexists. split; [member|]. split; member.
Qed.

Lemma verified_document r : verified cfg r ->
  exists a, remote_from_json_ld (actor_document r) = Ok a /\ ra_preferred_username a = rr_handle r /\
    url_to_string (ra_id a) = actor_url_text cfg (rr_handle r) /\ url_parse (rr_actor_url r) = Some (ra_id a) /\
    url_parse ("https://" +:+ cf_domain cfg +:+ "/inbox") = Some (ra_inbox a) /\
    remote_verify_attestation_v2 a = Ok (rr_agent_id_hex r).
Proof.
  intros [Hh (u & Hu & Hurl & Hb) Hk Hbytes Hval]. destruct (document_members r) as (Ht & Hid & Hn & Hin & (pk & Hpk & Hown & Hpem) & Hv2).
  pose proof (do_url cfg Hdomain _ _ Hu Hh) as Htext. rewrite Hurl, Htext in *. unfold actor_url_text in Hin at 1.
  rewrite origin_of_url in Hin by apply Hdomain. rewrite append_assoc in Hin. destruct (do_inbox cfg Hdomain) as [i Hi].
  assert (url_parse (actor_url_text cfg (rr_handle r)) = Some u) as Hparse by done.
  unfold remote_from_json_ld, check_type, required_str, url_field, remote_key, optional_v2. rewrite Ht, Hid, Hn, Hin, Hpk, Hv2, Hval.
  change (is_actor_class_type "Person") with true. cbn iota beta. rewrite Hparse, Hi. cbn iota beta. unfold check_owner. rewrite Hown, Hpem.
  rewrite bool_decide_eq_true_2 by done. cbn iota beta.
  eexists. split; [done|]. cbn [ra_preferred_username ra_id ra_inbox]. split_and!; [done|done|done|done|].
  unfold remote_verify_attestation_v2. cbn [ra_attestation_v2 ra_rsa_public_key_pem ra_preferred_username ra_id]. unfold pem_der.
  rewrite pem_round_trip; [|done|intros Hnil; rewrite Hnil in Hk; by apply rsa_needs_bytes]. by rewrite Hb.
Qed.

(** The self link of a served answer is the one the resolver takes. *)
Lemma jrd_names_actor `{JT : JrdText} r d u : url_parse (rr_actor_url r) = Some u -> jrd_actor (webfinger_jrd r d) = Ok u.
Proof.
  intros Hu. unfold webfinger_jrd, jrd_actor, jrd_from_value, link_from_value.
  repeat (first [rewrite lookup_insert_eq | rewrite lookup_insert_ne by done | rewrite lookup_singleton_eq];
          cbn [mbind option_bind as_array as_str mapM nullable_str]).
  cbn -[bool_decide].
  rewrite !bool_decide_eq_true_2 by done. cbn. by rewrite Hu.
Qed.

Lemma resource_read_back p : lacks "@" (ph_local p) -> ph_local p <> EmptyString -> lacks "@" (ph_instance p) -> ph_instance p <> EmptyString ->
  parse_acct_resource (acct_resource p) = Some (ph_local p, ph_instance p).
Proof.
  intros Hl Hln Hi Hin. unfold parse_acct_resource, acct_resource. rewrite strip_prefix_app. cbn [mbind option_bind].
  change ("@" +:+ ph_instance p) with (String "@" (EmptyString +:+ ph_instance p)). rewrite append_empty, split_once_app by done.
  cbn [mbind option_bind]. rewrite !bool_decide_eq_false_2 by done. by rewrite (lacks_split_once "@" (ph_instance p)).
Qed.

(** C35: In every run of the registry, with a domain URLs print unchanged, a handle that is found is served as a document the remote
    reader decodes to that handle at its own address under the domain, with the relay's inbox, and whose attestation verifies offline
    to the agent the registry keeps; and the query the resolver of this repository sends for a mention of that handle at the domain is
    answered with a description whose subject is the account and whose only alias is that address, and from which the resolver reads
    that very address. *)
Theorem served_actor_verifies `{FU : FormUrl, JT : JrdText} evs h out :
  Forall (fun ev => ev_time ev <= i64_max) evs ->
  (forall v, form_parse ("resource=" +:+ form_serialize v) = [("resource"%string, v)]) ->
  actor_doc_inner h (registry_run cfg evs (mkSqlite ∅)) = out -> oc_status out = 200 ->
  exists r doc a, out = mkOutcome 200 (JsonBody doc) /\ sql_get h (registry_run cfg evs (mkSqlite ∅)) = Some r /\
    remote_from_json_ld doc = Ok a /\ ra_preferred_username a = h /\ url_to_string (ra_id a) = actor_url_text cfg h /\
    url_parse ("https://" +:+ cf_domain cfg +:+ "/inbox") = Some (ra_inbox a) /\
    remote_verify_attestation_v2 a = Ok (rr_agent_id_hex r) /\
    forall m p, parse_mention m = Ok p -> ph_local p = h -> ph_instance p = cf_domain cfg ->
      exists jrd, webfinger_inner cfg (Some (webfinger_query p)) (registry_run cfg evs (mkSqlite ∅)) = mkOutcome 200 (JsonBody jrd) /\
        get_str "subject" jrd = Some (acct_resource p) /\ value_get "aliases" jrd = Some (VArray [VString (actor_url_text cfg h)]) /\
        jrd_actor jrd = Ok (ra_id a).
Proof.
  intros Ht Hform <- Hs. unfold actor_doc_inner in *. cbn [store_get sqlite_store] in *.
  destruct (sql_get h _) as [r|] eqn:Hg; [|done]. clear Hs. destruct (served_verified cfg evs h r Ht Hg) as [Hh Hv].
  destruct (verified_document r Hv) as (a & Ha & Hn & Hid & Hparse & Hin & Hver). exists r, (actor_document r), a. subst h.
  do 7 (split; [done|]). intros m p Hm Hlocal Hinst. destruct (parse_mention_shape m p Hm) as (Hl & Hln & Hi & Hine).
  exists (webfinger_jrd r (cf_domain cfg)). split.
  - unfold webfinger_inner, webfinger_query. cbn [mbind option_bind]. rewrite Hform. cbn [List.find fst]. rewrite bool_decide_eq_true_2 by done.
    cbn [fmap option_fmap option_map snd]. rewrite resource_read_back by done. rewrite bool_decide_eq_true_2 by done.
    cbn [negb store_get sqlite_store]. by rewrite Hlocal, Hg.
  - split; [|split; [|by apply jrd_names_actor]].
    + unfold acct_resource, webfinger_jrd, get_str, value_get. rewrite lookup_insert_eq. cbn [mbind option_bind as_str]. by rewrite Hlocal, Hinst.
    + unfold webfinger_jrd, value_get. rewrite lookup_insert_ne, lookup_insert_eq by done.
      destruct (vf_binding cfg r Hv) as (u & Hu & Hurl & _). by rewrite Hurl, (do_url cfg Hdomain _ _ Hu (vf_handle cfg r Hv)).
Qed.
End document.

(** ** Concrete packages and a run *)

#[local] Existing Instances ad_url_parse ad_url_edit ad_att_json ad_text demo_base64.

(** A hash that pads, signatures that carry the key and the message, bodies numbered by their first byte. *)
Definition rg_sha : Sha256 := fun b => take 32 (b ++ replicate 32 0).
Definition rg_mldsa : MlDsaBackend :=
  {| pk_from_bytes _ := Ok tt; sig_from_bytes _ := Ok tt; mldsa_verify pk m s := Ok (bool_decide (s = pk ++ m)) |}.
#[local] Existing Instances rg_sha rg_mldsa.

Definition rg_signed (key : N) (epoch : N) : ActorAttestationV2 :=
  let pk := [key] in
  let profile := hex_encode (replicate 32 0) in
  let input := match signing_input_v2 "josh" (ad_url "etchit.io" "actors/josh") (hex_encode (derive_agent_id pk)) [7] profile "relay" epoch with
               | Ok b => b | Err _ => [] end in
  {| a2_version := 2; a2_profile_addr := profile; a2_relay_hint := "relay"; a2_hint_epoch_ms := epoch;
     a2_ml_dsa_pubkey := pk; a2_signature := pk ++ agent_sign_input input |}.
Definition rg_request (key epoch : N) : RegisterActorRequest := mkRequest "josh" [7] (rg_signed key epoch).
Definition rg_codec : RegistryCodec :=
  {| parse_register b := match b with [key; epoch] => Ok (rg_request key epoch) | _ => Err "body"%string end;
     rsa_from_der b := match b with [] => Err "der"%string | _ => Ok tt end;
     att2_to_string t := bits_of_pos (encode (a2_version t, a2_profile_addr t, a2_relay_hint t, a2_hint_epoch_ms t, a2_ml_dsa_pubkey t, a2_signature t));
     att2_from_str s := p ← pos_of_bits s; c ← decode p;
       let '(v, pr, r, e, k, sg) := c in
       Some {| a2_version := v; a2_profile_addr := pr; a2_relay_hint := r; a2_hint_epoch_ms := e; a2_ml_dsa_pubkey := k; a2_signature := sg |};
     attestation_error_text _ := "attestation"%string; debug_char _ := "?"%string; to_sql_error _ := "range"%string |}.
#[local] Existing Instances rg_codec.
Lemma rg_text t : att2_from_str (att2_to_string t) = Some t.
Proof. unfold att2_from_str, att2_to_string, rg_codec. rewrite pos_of_bits_of_pos. cbn [mbind option_bind]. rewrite decode_encode. by destruct t. Qed.
Definition rg_laws : RegistryLaws.
Proof.
  split.
  - intros [|k [|e [|]]] req; try done. intros [= <-]. cbn. by repeat constructor.
  - intros body req _. apply rg_text.
  - intros body req _. apply ad_att2_reparse.
  - done.
Qed.
Lemma bits_lack c p : c <> ascii_of_N 48 -> c <> ascii_of_N 49 -> lacks c (bits_of_pos p).
Proof. intros H0 H1. induction p as [p IH|p IH|]; cbn [bits_of_pos]; [apply lacks_cons; split; [by intros <-|done]..|]. by apply not_elem_of_nil. Qed.
Definition rg_base64_text : Base64Text.
Proof.
  split.
  - intros raw. split_and!; by apply bits_lack.
  - intros raw Hraw. cbn in Hraw. apply (inj encode). change (encode (@nil N)) with 1%positive. by destruct (encode raw).
Qed.

Definition rg_config : RegistryConfig := registry_config_new "etchit.io".
Lemma rg_domain : domain_ok rg_config.
Proof.
  split.
  - intros h u Hu _. unfold actor_url_text in *. cbn [cf_domain rg_config registry_config_new] in *. change ("https://" +:+ "etchit.io" +:+ "/actors/" +:+ h)
      with ("https://" +:+ ("etchit.io" +:+ String "/" ("actors/" +:+ h))) in *.
    unfold url_parse, ad_url_parse in Hu. rewrite strip_prefix_app in Hu. cbn [mbind option_bind] in Hu.
    rewrite split_once_app in Hu by (apply (bool_decide_unpack _); by vm_compute). by injection Hu as <-.
  - by eexists.
  - apply (bool_decide_unpack _). by vm_compute.
  - done.
Qed.

(** The first agent registers, the second tries to take the handle over, the first renews. *)
Definition rg_post (key epoch now : N) : RegistryEvent := EvPost (fun _ => true) (fun _ => None) None [key; epoch] now.
Definition rg_put (key epoch now : N) : RegistryEvent := EvPut (fun _ => true) "josh" (fun _ => None) None [key; epoch] now.
Definition rg_events : list RegistryEvent := [rg_post 1 10 100; rg_post 2 20 200; rg_put 2 30 300; rg_put 1 40 400].
Definition rg_first : SqliteActorStore := registry_run rg_config [rg_post 1 10 100] (mkSqlite ∅).
Lemma rg_times evs : forallb (fun ev => ev_time ev <=? i64_max) evs = true -> Forall (fun ev => ev_time ev <= i64_max) evs.
Proof. intros Hf. apply Forall_forall. intros ev Hin. apply N.leb_le. rewrite forallb_forall in Hf. by apply Hf, list_elem_of_In. Qed.
Definition rg_epoch_of (o : option ActorRecord) : option (string * N * N) :=
  (fun r => (rr_agent_id_hex r, rr_epoch r, rr_registered_at_ms r)) <$> o.

Lemma registered_handle_keeps_agent_witness :
  exists r r', sql_get "josh" rg_first = Some r /\ sql_get "josh" (registry_run rg_config [rg_post 2 20 200; rg_put 2 30 300; rg_put 1 40 400] rg_first) = Some r' /\
    rr_epoch r = 10 /\ rr_epoch r' = 40 /\ rr_agent_id_hex r' = rr_agent_id_hex r.
Proof.
  assert (rg_epoch_of (sql_get "josh" rg_first) = Some (hex_encode (derive_agent_id [1]), 10, 100)) as Hr by by vm_compute.
  assert (rg_epoch_of (sql_get "josh" (registry_run rg_config [rg_post 2 20 200; rg_put 2 30 300; rg_put 1 40 400] rg_first))
          = Some (hex_encode (derive_agent_id [1]), 40, 400)) as Hr' by by vm_compute.
  destruct (sql_get "josh" rg_first) as [r|] eqn:E; [|done]. exists r.
  destruct (registered_handle_keeps_agent (RL := rg_laws) rg_config "josh" rg_first [rg_post 2 20 200; rg_put 2 30 300; rg_put 1 40 400] r) as (r' & Hg & Ha & _).
  - apply (registry_run_wf (RL := rg_laws)); [apply map_Forall_empty|]. by apply rg_times.
  - by apply rg_times.
  - repeat constructor; by intros [now ?].
  - exact E.
  - rewrite Hg in Hr'. exists r'. unfold rg_epoch_of in Hr, Hr'. cbn in Hr, Hr'. injection Hr as _ He _. injection Hr' as _ He' _. split_and!; done.
Defined.

(** The time of the first registration does not survive a renewal. *)
Example update_restamps_registration :
  rg_epoch_of (sql_get "josh" rg_first) = Some (hex_encode (derive_agent_id [1]), 10, 100) /\
  rg_epoch_of (sql_get "josh" (registry_run rg_config [rg_put 1 40 400] rg_first)) = Some (hex_encode (derive_agent_id [1]), 40, 400).
Proof. by vm_compute. Qed.

Definition rg_form : FormUrl :=
  {| form_parse q := match strip_prefix "resource=" q with Some v => [("resource"%string, v)] | None => [] end; form_serialize s := s |}.
Definition rg_jrd : JrdText := {| jrd_value _ := Err "json"%string; jrd_shape_error _ := "shape"%string; url_error _ := "url"%string |}.
Lemma served_actor_verifies_witness :
  exists doc a, actor_doc_inner "josh" (registry_run rg_config rg_events (mkSqlite ∅)) = mkOutcome 200 (JsonBody doc) /\
    remote_from_json_ld doc = Ok a /\ ra_preferred_username a = "josh"%string /\
    url_to_string (ra_id a) = "https://etchit.io/actors/josh"%string /\
    remote_verify_attestation_v2 a = Ok (hex_encode (derive_agent_id [1])) /\
    exists jrd, webfinger_inner (FU := rg_form) rg_config (Some "resource=acct:josh@etchit.io"%string) (registry_run rg_config rg_events (mkSqlite ∅))
      = mkOutcome 200 (JsonBody jrd) /\ jrd_actor (JT := rg_jrd) jrd = Ok (ra_id a).
Proof.
  assert (rg_epoch_of (sql_get "josh" (registry_run rg_config rg_events (mkSqlite ∅))) = Some (hex_encode (derive_agent_id [1]), 40, 400)) as Hr
    by by vm_compute.
  destruct (served_actor_verifies (FU := rg_form) (JT := rg_jrd) (RL := rg_laws) (BT := rg_base64_text) rg_config rg_domain rg_events "josh" (actor_doc_inner "josh" (registry_run rg_config rg_events (mkSqlite ∅)))
              (rg_times rg_events eq_refl)) as (r & doc & a & Ho & Hg & Ha & Hn & Hid & _ & Hv & Hwf).
  - intros v. cbn [form_parse form_serialize rg_form]. by rewrite strip_prefix_app.
  - reflexivity.
  - unfold actor_doc_inner. cbn [store_get sqlite_store]. destruct (sql_get "josh" _); [done|]. by vm_compute in Hr.
  - rewrite Hg in Hr. unfold rg_epoch_of in Hr. cbn [fmap option_fmap option_map] in Hr. injection Hr as Hag _ _. rewrite Hag in Hv.
    destruct (Hwf "@josh@etchit.io"%string (mkHandle "josh" "etchit.io")) as (jrd & Hj & _ & _ & Hu); [by vm_compute|done|done|].
    exists doc, a. do 5 (split; [done|]). by exists jrd.
Defined.

Definition rg_record (key epoch now : N) : ActorRecord :=
  mkActor "josh" "https://etchit.io/actors/josh" (hex_encode (derive_agent_id [key])) [7] (rg_signed key epoch) now.
Definition rg_calls : list StoreCall :=
  [CallRegister (rg_record 1 10 100); CallRegister (rg_record 2 20 200); CallUpdate (rg_record 2 30 300); CallUpdate (rg_record 1 5 300);
   CallUpdate (rg_record 1 40 400); CallGet "josh"].
Lemma actor_stores_agree_witness :
  (do_calls rg_calls (mkSqlite ∅)).1 =
    [Wrote (Ok tt); Wrote (Err HandleTaken); Wrote (Err AgentMismatch); Wrote (Err StaleEpoch); Wrote (Ok tt); Got (Some (rg_record 1 40 400))].
Proof.
  rewrite <- (actor_stores_agree rg_calls).
  - by vm_compute.
  - repeat constructor; apply rg_text || by vm_compute.
Defined.
