(* ===== verification/ProfileBlob.v ===== *)
(** * Profile pointers and sealed blobs on the relay

    Models [crates/fetchit-relay-server/src/profile.rs] (the latest signed pointer of an agent to
    its profile, with deletion by a signed tombstone) and [blob.rs] (opaque ciphertexts under a
    random token for an hour).  Both are maps in memory; a request is one locked access each.
    JSON, canonical JSON and base64 are parameters; the rate limiter's verdict and the clock are
    arguments.  The last part composes the index with the client's signer and reader of
    [Pairing]. *)
From Stdlib Require Import Ascii.
From S2P Require Import Prelude SendState RelayProto RelayAuth PairRecord ShareUri Text RelayHttp ActorDoc Outbound Pairing.
Open Scope rust_scope.

(** ** [profile.rs] *)

Module Profile.

Definition MAX_PROFILE_BODY_BYTES : N := 32 * 1024.
Definition ML_KEM_768_PUBKEY_LEN : N := 1184.
Definition ML_DSA_65_PUBKEY_LEN : N := 1952.
Definition TOMBSTONE_PROFILE_ADDR : string := "0000000000000000000000000000000000000000000000000000000000000000".

(** [ProfileIndex]: the latest record, or tombstone, under its agent id. *)
Notation Index := (gmap string ProfileIndexRecord).

Definition profile_get_live (agent_id : string) (i : Index) : option ProfileIndexRecord :=
  r ← i !! agent_id; if bool_decide (pi_profile_addr r = TOMBSTONE_PROFILE_ADDR) then None else Some r.
Definition profile_current_issued_at (agent_id : string) (i : Index) : option N := pi_issued_at_ms <$> i !! agent_id.
Definition put (record : ProfileIndexRecord) (i : Index) : Index := <[pi_agent_id record := record]> i.
Definition profile_put_if_newer (record : ProfileIndexRecord) (i : Index) : result unit N * Index :=
  match i !! pi_agent_id record with
  | Some e => if pi_issued_at_ms record <=? pi_issued_at_ms e then (Err (pi_issued_at_ms e), i) else (Ok tt, put record i)
  | None => (Ok tt, put record i)
  end.
Definition sweep_expired (now_ms ttl_ms : N) (i : Index) : nat * Index :=
  let kept := filter (fun kv => saturating_sub now_ms (pi_issued_at_ms kv.2) <= ttl_ms) i in
  ((size i - size kept)%nat, kept).

Inductive ProfileError := BodyTooLarge | Malformed (why : string) | AgentIdMismatch | SigVerifyFailed | NonMonotonic.
Definition status (e : ProfileError) : N :=
  match e with
  | BodyTooLarge => 413
  | Malformed _ | AgentIdMismatch | SigVerifyFailed => 400
  | NonMonotonic => 409
  end.
Definition error_body (e : ProfileError) : string :=
  match e with
  | BodyTooLarge => "profile body exceeds 32 KB"
  | Malformed why => why
  | AgentIdMismatch => "agent_id does not match derive_agent_id(ml_dsa_pubkey)"
  | SigVerifyFailed => "ml-dsa-65 signature verify failed"
  | NonMonotonic => "issued_at_ms must be strictly greater than the stored value"
  end.

Section handlers.
  Context `{BU : Base64Url, SH : Sha256, PB : PairBodies, SV : SignatureVerifier}.

Definition verify_record (record : ProfileIndexRecord) : result bytes ProfileError :=
  match b64url_decode (pi_ml_dsa_pubkey record) with
  | None => Err (Malformed "ml_dsa_pubkey: not base64url-no-pad")
  | Some pubkey_bytes =>
      if negb (len pubkey_bytes =? ML_DSA_65_PUBKEY_LEN) then Err (Malformed "ml_dsa_pubkey: must be exactly 1952 bytes raw")
      else match b64url_decode (pi_kem_pubkey record) with
           | None => Err (Malformed "kem_pubkey: not base64url-no-pad")
           | Some kem =>
               if negb (len kem =? ML_KEM_768_PUBKEY_LEN) then Err (Malformed "kem_pubkey: must be exactly 1184 bytes raw")
               else match b64url_decode (pi_sig record) with
                    | None => Err (Malformed "sig: not base64url-no-pad")
                    | Some sig_bytes =>
                        match hex_decode (pi_agent_id record) with
                        | None => Err (Malformed "agent_id: not 64-hex")
                        | Some embedded =>
                            if negb (len embedded =? 32) then Err (Malformed "agent_id: must be 32 bytes")
                            else if negb (bool_decide (derive_agent_id pubkey_bytes = embedded)) then Err AgentIdMismatch
                            else match canonical_bytes_sans_sig record with
                                 | Err _ => Err (Malformed "jcs canonicalisation failed")
                                 | Ok canonical =>
                                     if verify_ml_dsa_65 pubkey_bytes (agent_sign_input (SIGN_DOMAIN_PROFILE ++ canonical)) sig_bytes
                                     then Ok pubkey_bytes else Err SigVerifyFailed
                                 end
                        end
                    end
           end
  end.

(** The end both writers share. *)
Definition verified_put (record : ProfileIndexRecord) (i : Index) : result unit ProfileError * Index :=
  match verify_record record with
  | Err e => (Err e, i)
  | Ok _ => match profile_put_if_newer record i with
            | (Ok u, i) => (Ok u, i)
            | (Err _, i) => (Err NonMonotonic, i)
            end
  end.

Definition post_profile (body : bytes) (i : Index) : result unit ProfileError * Index :=
  if MAX_PROFILE_BODY_BYTES <? len body then (Err BodyTooLarge, i)
  else match parse_index body with
       | Err _ => (Err (Malformed "invalid JSON body"), i)
       | Ok record => verified_put record i
       end.
Definition get_profile (agent_id : string) (i : Index) : option ProfileIndexRecord := profile_get_live (to_ascii_lowercase agent_id) i.
Definition delete_profile (agent_id_path : string) (body : bytes) (i : Index) : result unit ProfileError * Index :=
  if MAX_PROFILE_BODY_BYTES <? len body then (Err BodyTooLarge, i)
  else match parse_index body with
       | Err _ => (Err (Malformed "invalid JSON body"), i)
       | Ok record =>
           if negb (bool_decide (pi_profile_addr record = TOMBSTONE_PROFILE_ADDR))
           then (Err (Malformed "DELETE body must carry the all-zeros tombstone profile_addr"), i)
           else if negb (bool_decide (pi_agent_id record = to_ascii_lowercase agent_id_path))
           then (Err (Malformed "agent_id in body must match path parameter"), i)
           else verified_put record i
       end.
End handlers.

(** *** Runs *)

Inductive Event :=
| Posted (body : bytes)
| Deleted (path : string) (body : bytes)
| Swept (now_ms ttl_ms : N).

Section runs.
  Context `{BU : Base64Url, SH : Sha256, PB : PairBodies, SV : SignatureVerifier}.

Definition step (i : Index) (ev : Event) : Index :=
  match ev with
  | Posted body => (post_profile body i).2
  | Deleted path body => (delete_profile path body i).2
  | Swept now ttl => (sweep_expired now ttl i).2
  end.
Definition run : list Event -> Index -> Index := flip (foldl step).
Lemma run_snoc evs ev i : run (evs ++ [ev]) i = step (run evs i) ev.
Proof. unfold run, flip. by rewrite foldl_app. Qed.

(** A step writes one verified record that is newer than what was there, forgets old ones, or does nothing. *)
Lemma verified_put_spec r i : (verified_put r i).2 = i \/
  (verified_put r i = (Ok tt, put r i) /\ is_Some (match verify_record r with Ok b => Some b | Err _ => None end) /\
   forall e, i !! pi_agent_id r = Some e -> pi_issued_at_ms e < pi_issued_at_ms r).
Proof.
  unfold verified_put. destruct (verify_record r) as [b|]; [|by left]. unfold profile_put_if_newer. destruct (i !! pi_agent_id r) as [e|] eqn:E.
  - destruct (N.leb_spec (pi_issued_at_ms r) (pi_issued_at_ms e)); [by left|]. right. split; [done|]. split; [done|]. by intros e' [= <-].
  - right. done.
Qed.
Lemma step_spec ev i : step i ev = i \/
  (exists r b, step i ev = put r i /\ verify_record r = Ok b /\
     forall e, i !! pi_agent_id r = Some e -> pi_issued_at_ms e < pi_issued_at_ms r) \/
  exists now ttl, ev = Swept now ttl.
Proof.
  assert (forall r, (verified_put r i).2 = i \/ exists r0 b, (verified_put r i).2 = put r0 i /\ verify_record r0 = Ok b /\
     forall e, i !! pi_agent_id r0 = Some e -> pi_issued_at_ms e < pi_issued_at_ms r0) as Hput.
  { intros r. destruct (verified_put_spec r i) as [Hs|(Hs & [b Hb] & He)]; [by left|]. right. exists r, b. rewrite Hs. split; [done|].
    split; [|done]. destruct (verify_record r); [by injection Hb as ->|done]. }
  destruct ev as [body|path body|now ttl]; cbn [step].
  - unfold post_profile. destruct (_ <? _); [by left|]. destruct (parse_index body) as [r|]; [|by left]. destruct (Hput r) as [Hs|Hs]; [left; exact Hs|right; left; exact Hs].
  - unfold delete_profile. destruct (_ <? _); [by left|]. destruct (parse_index body) as [r|]; [|by left].
    destruct (negb _); [by left|]. destruct (negb _); [by left|]. destruct (Hput r) as [Hs|Hs]; [left; exact Hs|right; left; exact Hs].
  - right. right. eauto.
Qed.

Definition index_ok (i : Index) : Prop := map_Forall (fun k r => pi_agent_id r = k /\ exists b, verify_record r = Ok b) i.
Lemma run_ok evs i : index_ok i -> index_ok (run evs i).
Proof.
  intros Hi. induction evs as [|ev evs IH] using rev_ind; [done|]. rewrite run_snoc.
  destruct (step_spec ev (run evs i)) as [->|[(r & b & -> & Hb & _)|(now & ttl & ->)]]; [done| |].
  - apply map_Forall_insert_2; [|done]. split; [done|]. by exists b.
  - intros k r [Hl _]%map_lookup_filter_Some. by apply IH.
Qed.

Lemma served_ok evs agent r : get_profile agent (run evs ∅) = Some r ->
  pi_agent_id r = to_ascii_lowercase agent /\ pi_profile_addr r <> TOMBSTONE_PROFILE_ADDR /\ exists b, verify_record r = Ok b.
Proof.
  unfold get_profile, profile_get_live. destruct (run evs ∅ !! _) as [r'|] eqn:E; [|done]. cbn -[bool_decide]. case_bool_decide as Ht; [done|].
  intros [= ->]. assert (index_ok (run evs ∅)) as Hok by (apply run_ok, map_Forall_empty). by destruct (Hok _ _ E) as [Hk Hb].
Qed.

(** Whatever is posted, deleted and swept, a profile served for an agent names that agent, is not a tombstone, and carries a
    signature that verifies under a key hashing to the agent's id. *)
Theorem served_profile_signed evs agent r :
  get_profile agent (run evs ∅) = Some r ->
  pi_agent_id r = to_ascii_lowercase agent /\ pi_profile_addr r <> TOMBSTONE_PROFILE_ADDR /\
  exists pubkey sig canonical, b64url_decode (pi_ml_dsa_pubkey r) = Some pubkey /\ b64url_decode (pi_sig r) = Some sig /\
    hex_decode (pi_agent_id r) = Some (derive_agent_id pubkey) /\ canonical_bytes_sans_sig r = Ok canonical /\
    verify_ml_dsa_65 pubkey (agent_sign_input (SIGN_DOMAIN_PROFILE ++ canonical)) sig = true.
Proof.
  intros (Hk & Ht & b & Hb)%served_ok. split; [done|]. split; [done|]. unfold verify_record in Hb. destruct (b64url_decode (pi_ml_dsa_pubkey r)) as [pubkey|]; [|done].
  destruct (negb _); [done|]. destruct (b64url_decode (pi_kem_pubkey r)); [|done]. destruct (negb _); [done|].
  destruct (b64url_decode (pi_sig r)) as [sig|]; [|done]. destruct (hex_decode _) as [emb|]; [|done]. destruct (negb _); [done|].
  case_bool_decide as Hd; cbn [negb] in Hb; [|done]. destruct (canonical_bytes_sans_sig r) as [canonical|]; [|done].
  destruct (verify_ml_dsa_65 _ _ _) eqn:Hv; [|done]. exists pubkey, sig, canonical. by rewrite Hd.
Qed.

(** Between sweeps the time of an agent's record only grows. *)
Theorem profile_never_rolls_back evs i agent t : Forall (fun ev => forall now ttl, ev <> Swept now ttl) evs ->
  profile_current_issued_at agent i = Some t -> exists t', profile_current_issued_at agent (run evs i) = Some t' /\ t <= t'.
Proof.
  intros Hs Ht. induction evs as [|ev evs IH] using rev_ind; [by exists t|]. apply Forall_app in Hs as [Hs Hev]. rewrite Forall_singleton in Hev.
  destruct (IH Hs) as (t1 & H1 & Hle). rewrite run_snoc.
  destruct (step_spec ev (run evs i)) as [->|[(r & b & -> & _ & Hnew)|(now & ttl & He)]]; [by exists t1| |by destruct (Hev now ttl)].
  unfold profile_current_issued_at, put in *. destruct (decide (pi_agent_id r = agent)) as [<-|Hne].
  - rewrite lookup_insert_eq. exists (pi_issued_at_ms r). split; [done|]. destruct (run evs i !! pi_agent_id r) as [e|]; [|done].
    injection H1 as <-. specialize (Hnew e eq_refl). lia.
  - rewrite lookup_insert_ne by done. by exists t1.
Qed.

(** A record whose agent id is not in lower case is accepted, and never served. *)
Theorem mixed_case_profile_unserved evs r path :
  to_ascii_lowercase (pi_agent_id r) <> pi_agent_id r -> get_profile path (run evs ∅) <> Some r.
Proof.
  intros Hc Hg. apply served_ok in Hg as [Hid _]. apply Hc. rewrite Hid. apply lower_twice.
Qed.

(** A record dated ahead of the clock is kept by every sweep until then. *)
Lemma future_record_never_swept k r (i : Index) now ttl :
  i !! k = Some r -> now <= pi_issued_at_ms r -> (sweep_expired now ttl i).2 !! k = Some r.
Proof. intros Hl Hn. apply map_lookup_filter_Some. split; [done|]. cbn. unfold saturating_sub. lia. Qed.

(** The sweep forgets deletions with the rest: a deleted record, posted again after its tombstone was swept, is served again. *)
Theorem swept_deletion_undone r d path rbody dbody now ttl i :
  parse_index rbody = Ok r -> parse_index dbody = Ok d -> len rbody <= MAX_PROFILE_BODY_BYTES -> len dbody <= MAX_PROFILE_BODY_BYTES ->
  is_Some (match verify_record r with Ok b => Some b | Err _ => None end) -> is_Some (match verify_record d with Ok b => Some b | Err _ => None end) ->
  pi_profile_addr r <> TOMBSTONE_PROFILE_ADDR -> pi_profile_addr d = TOMBSTONE_PROFILE_ADDR ->
  pi_agent_id d = pi_agent_id r -> to_ascii_lowercase path = pi_agent_id r -> i !! pi_agent_id r = None ->
  pi_issued_at_ms r < pi_issued_at_ms d -> ttl < saturating_sub now (pi_issued_at_ms d) ->
  get_profile path (run [Posted rbody; Deleted path dbody] i) = None /\
  get_profile path (run [Posted rbody; Deleted path dbody; Swept now ttl; Posted rbody] i) = Some r.
Proof.
  intros Hr Hd Hlr Hld [br Hvr] [bd Hvd] Hlive Htomb Hid Hpath Hi Hlt Hold.
  assert (forall j, j !! pi_agent_id r = None -> step j (Posted rbody) = put r j) as Hpost.
  { intros j Hj. cbn [step]. unfold post_profile. rewrite (proj2 (N.ltb_ge _ _) Hlr), Hr. unfold verified_put. destruct (verify_record r); [|done].
    unfold profile_put_if_newer. by rewrite Hj. }
  assert (step (put r i) (Deleted path dbody) = put d (put r i)) as Hdel.
  { cbn [step]. unfold delete_profile. rewrite (proj2 (N.ltb_ge _ _) Hld), Hd, Htomb, !bool_decide_eq_true_2 by congruence. cbn [negb].
    unfold verified_put. destruct (verify_record d); [|done]. unfold profile_put_if_newer, put. rewrite Hid, lookup_insert_eq.
    by rewrite (proj2 (N.leb_gt _ _) Hlt). }
  assert ((step (put d (put r i)) (Swept now ttl)) !! pi_agent_id r = None) as Hsw.
  { cbn [step sweep_expired snd]. apply map_lookup_filter_None. right. intros x. unfold put. rewrite <- Hid, lookup_insert_eq. intros [= <-]. cbn. lia. }
  unfold run, flip. cbn [foldl]. rewrite (Hpost i Hi), Hdel, (Hpost _ Hsw). unfold get_profile, profile_get_live, put. rewrite Hpath. split.
  - rewrite <- Hid, lookup_insert_eq. cbn -[bool_decide]. by rewrite Htomb, bool_decide_eq_true_2.
  - rewrite lookup_insert_eq. cbn -[bool_decide]. by rewrite bool_decide_eq_false_2.
Qed.
End runs.
End Profile.

(** *** The client's signer and reader over the relay's index *)

Section published.
  Context `{B6 : Base64, BU : Base64Url, SH : Sha256, ML : MlDsaBackend, PB : PairBodies, AS : AgentSigner}.
  #[local] Existing Instance ml_dsa_65_verifier.

(** What the reader verifies the relay verifies, which also looks at the lengths of the keys. *)
Lemma index_record_verifies r b kem : verify_index_record r = Ok b -> len b = Profile.ML_DSA_65_PUBKEY_LEN ->
  b64url_decode (pi_kem_pubkey r) = Some kem -> len kem = Profile.ML_KEM_768_PUBKEY_LEN -> Profile.verify_record r = Ok b.
Proof.
  unfold verify_index_record, Profile.verify_record. case_bool_decide; [done|]. unfold from_b64url.
  destruct (b64url_decode (pi_ml_dsa_pubkey r)) as [pk|]; [|done]. cbn iota beta. destruct (b64url_decode (pi_sig r)) as [sig|]; [|done]. cbn iota beta.
  destruct (hex_decode (pi_agent_id r)) as [emb|]; [|done]. destruct (len emb =? 32); [|done]. cbn [negb].
  case_bool_decide; [|done]. cbn [negb]. unfold canonical_sign_input. destruct (canonical_bytes_sans_sig r) as [canonical|]; [|done]. cbn iota beta.
  unfold verify_ml_dsa_65, ml_dsa_65_verifier.
  destruct (pk_from_bytes pk); [|done]. destruct (sig_from_bytes sig); [|done]. destruct (mldsa_verify _ _ _) as [[]|]; [|done..].
  intros [= <-] Hb -> Hk. by rewrite Hb, Hk, !N.eqb_refl.
Qed.

(** A minimal profile record signed by a client with full-size keys, newer than what the relay holds of the agent, is
    accepted, then served under the agent's id in any case of its letters, and the reader of another client takes it. *)
Theorem published_profile_found id kem pk issued r body path i :
  sign_minimal_index_record id kem pk issued = Ok r ->
  b64url_decode (b64url_encode kem) = Some kem -> b64url_decode (b64url_encode pk) = Some pk ->
  len kem = Profile.ML_KEM_768_PUBKEY_LEN -> len pk = Profile.ML_DSA_65_PUBKEY_LEN ->
  parse_index body = Ok r -> len body <= Profile.MAX_PROFILE_BODY_BYTES ->
  (forall t, Profile.profile_current_issued_at id i = Some t -> t < issued) -> to_ascii_lowercase path = id ->
  (Profile.post_profile body i).1 = Ok tt /\ Profile.get_profile path (Profile.post_profile body i).2 = Some r /\
  forall raw, parse_index raw = Ok r -> checked_index id raw = Ok r.
Proof.
  unfold sign_minimal_index_record. destruct (canonical_sign_input _) as [input|]; [|done]. cbn iota beta.
  destruct (signer_sign input) as [sig|]; [|done]. cbn zeta. unfold with_sig. cbn [pi_agent_id pi_profile_addr pi_kem_pubkey pi_ml_dsa_pubkey pi_issued_at_ms].
  set (rec := Build_ProfileIndexRecord id MINIMAL_PROFILE_ADDR (b64url_encode kem) (b64url_encode pk) issued (b64url_encode sig)).
  destruct (verify_index_record rec) as [b|] eqn:Hv; [|done]. cbn iota beta. intros [= <-] Hkem Hpk Hlk Hlp Hbody Hlen Hnew Hpath.
  assert (b = pk) as ->.
  { unfold verify_index_record in Hv. rewrite bool_decide_eq_false_2 in Hv by done. unfold from_b64url in Hv. cbn [rec pi_ml_dsa_pubkey] in Hv.
    rewrite Hpk in Hv. cbn iota beta in Hv. repeat (case_match; try done). by injection Hv as <-. }
  pose proof (index_record_verifies rec pk kem Hv Hlp Hkem Hlk) as Hver.
  assert (Profile.post_profile body i = (Ok tt, Profile.put rec i)) as Hpost.
  { unfold Profile.post_profile. rewrite (proj2 (N.ltb_ge _ _) Hlen), Hbody. unfold Profile.verified_put. rewrite Hver. unfold Profile.profile_put_if_newer.
    unfold Profile.profile_current_issued_at in Hnew. cbn [rec pi_agent_id pi_issued_at_ms] in *. destruct (i !! id) as [e|]; [|done].
    specialize (Hnew _ eq_refl). by rewrite (proj2 (N.leb_gt _ _) Hnew). }
  rewrite Hpost. split; [done|]. split.
  - unfold Profile.get_profile, Profile.profile_get_live, Profile.put. cbn [snd]. rewrite Hpath. cbn [rec pi_agent_id]. rewrite lookup_insert_eq.
    cbn -[bool_decide]. by rewrite bool_decide_eq_false_2.
  - intros raw Hraw. unfold checked_index. rewrite Hraw. cbn iota beta. unfold relay_json. rewrite bool_decide_eq_false_2 by done.
    rewrite Hv. cbn [rec pi_agent_id]. by rewrite bool_decide_eq_true_2.
Qed.
End published.

(** ** [blob.rs] *)

Module Blob.

Definition MAX_BLOB_BYTES : N := 128 * 1024.
Definition BLOB_TTL_MS : N := 60 * 60 * 1000.
Definition BLOB_MAX_PER_MIN : N := 30.
Definition TOKEN_MIN_LEN : N := 16.
Definition TOKEN_MAX_LEN : N := 128.

Record StoredBlob := mkBlob { sb_ciphertext : bytes; sb_expiry_ms : N }.
Notation BlobStore := (gmap string StoredBlob).

Definition put (token : string) (ciphertext : bytes) (expiry_ms : N) (s : BlobStore) : BlobStore :=
  <[token := mkBlob ciphertext expiry_ms]> s.
Definition get (token : string) (now_ms : N) (s : BlobStore) : option bytes * BlobStore :=
  match s !! token with
  | Some b => if now_ms <? sb_expiry_ms b then (Some (sb_ciphertext b), s)
              else (None, if sb_expiry_ms b <=? now_ms then delete token s else s)
  | None => (None, s)
  end.
Definition sweep_expired (now_ms : N) (s : BlobStore) : nat * BlobStore :=
  let kept := filter (fun kv => now_ms < sb_expiry_ms kv.2) s in ((size s - size kept)%nat, kept).

Definition token_byte (b : N) : bool :=
  ((65 <=? b) && (b <=? 90)) || ((97 <=? b) && (b <=? 122)) || ((48 <=? b) && (b <=? 57)) || (b =? 45) || (b =? 95).
Definition valid_token (token : string) : bool :=
  (TOKEN_MIN_LEN <=? str_len token) && (str_len token <=? TOKEN_MAX_LEN) && forallb token_byte (ascii_bytes token).
Definition ratelimit_key `{Sha256} (token : string) : bytes := derive_agent_id (ascii_bytes token).

(** [allow]: the limiter's verdict for a key and a ceiling. *)
Definition post_blob `{Sha256} (allow : bytes -> N -> bool) (token : string) (body : bytes) (now_ms : N) (s : BlobStore) : N * BlobStore :=
  if MAX_BLOB_BYTES <? len body then (413, s)
  else if negb (valid_token token) then (400, s)
  else if negb (allow (ratelimit_key token) BLOB_MAX_PER_MIN) then (429, s)
  else (200, put token body (saturating_add u64_max now_ms BLOB_TTL_MS) s).
Definition get_blob (token : string) (now_ms : N) (s : BlobStore) : result bytes N * BlobStore :=
  if negb (valid_token token) then (Err 400, s)
  else match get token now_ms s with
       | (Some ct, s) => (Ok ct, s)
       | (None, s) => (Err 404, s)
       end.

(** *** Runs, and what a reader sees *)

Inductive Event :=
| PostBlob (allow : bytes -> N -> bool) (token : string) (body : bytes) (now_ms : N)
| GetBlob (token : string) (now_ms : N)
| Sweep (now_ms : N).
Definition at_ms (ev : Event) : N := match ev with PostBlob _ _ _ now | GetBlob _ now | Sweep now => now end.

Section runs.
  Context `{SH : Sha256}.

Definition step (s : BlobStore) (ev : Event) : BlobStore :=
  match ev with
  | PostBlob allow token body now => (post_blob allow token body now s).2
  | GetBlob token now => (get_blob token now s).2
  | Sweep now => (sweep_expired now s).2
  end.
Definition run (evs : list Event) : BlobStore := foldl step ∅ evs.

(** The last post the relay took for a token. *)
Definition taken (token : string) (ev : Event) : option (bytes * N) :=
  match ev with
  | PostBlob allow token' body now =>
      if bool_decide (token' = token) && (len body <=? MAX_BLOB_BYTES) && valid_token token && allow (ratelimit_key token) BLOB_MAX_PER_MIN
      then Some (body, now) else None
  | _ => None
  end.
Fixpoint last_taken (token : string) (evs : list Event) (acc : option (bytes * N)) : option (bytes * N) :=
  match evs with
  | [] => acc
  | ev :: evs => last_taken token evs (match taken token ev with Some x => Some x | None => acc end)
  end.
Definition expiry (x : bytes * N) : N := saturating_add u64_max x.2 BLOB_TTL_MS.

(** A token's entry is the last post, unless that had expired by the time of some event. *)
Definition entry_of (token : string) (clock : N) (last : option (bytes * N)) (s : BlobStore) : Prop :=
  match s !! token with
  | Some b => exists x, last = Some x /\ b = mkBlob x.1 (expiry x)
  | None => forall x, last = Some x -> expiry x <= clock
  end.
Lemma get_entry k now s : (get k now s).2 = s \/ exists b, s !! k = Some b /\ sb_expiry_ms b <= now /\ (get k now s).2 = delete k s.
Proof.
  unfold get. destruct (s !! k) as [b|]; [|by left]. destruct (N.ltb_spec now (sb_expiry_ms b)); [by left|].
  right. exists b. cbn [snd]. by rewrite (proj2 (N.leb_le _ _)).
Qed.
Lemma step_entry token clock last s ev : entry_of token clock last s -> clock <= at_ms ev ->
  entry_of token (at_ms ev) (match taken token ev with Some x => Some x | None => last end) (step s ev).
Proof.
  intros He Hc. assert (entry_of token (at_ms ev) last s) as Hsame.
  { unfold entry_of in *. destruct (s !! token); [done|]. intros x Hx. specialize (He x Hx). lia. }
  destruct ev as [allow k body now|k now|now]; cbn [step at_ms taken] in *.
  - unfold post_blob. rewrite N.ltb_antisym. destruct (len body <=? MAX_BLOB_BYTES) eqn:Hl; cbn [negb snd]; [|by rewrite andb_false_r].
    case_bool_decide as Hk; cbn [andb]; [subst k|].
    + destruct (valid_token token); [|done]. destruct (allow _ _); [|done]. cbn [negb snd]. unfold entry_of, put. rewrite lookup_insert_eq.
      by exists (body, now).
    + destruct (valid_token k); [|done]. destruct (allow _ _); [|done]. cbn [negb snd]. unfold entry_of, put. by rewrite lookup_insert_ne.
  - unfold get_blob. destruct (valid_token k); [|done]. cbn [negb]. pose proof (get_entry k now s) as Hg.
    assert (forall s', (get k now s).2 = s' -> entry_of token now last s') as Hall.
    { intros s' <-. destruct Hg as [->|(b & Hb & Hx & ->)]; [done|]. unfold entry_of in *.
      destruct (decide (k = token)) as [->|]; [|by rewrite lookup_delete_ne].
      rewrite lookup_delete_eq. rewrite Hb in Hsame. destruct Hsame as (x & -> & ->). by intros x' [= <-]. }
    destruct (get k now s) as [[ct|] s']; by apply Hall.
  - cbn [sweep_expired snd]. unfold entry_of in *. destruct (s !! token) as [b|] eqn:E.
    + destruct (decide (now < sb_expiry_ms b)) as [Hlt|Hge].
      * rewrite (proj2 (map_lookup_filter_Some _ _ _ _) (conj E Hlt)). done.
      * rewrite (proj2 (map_lookup_filter_None _ _ _)).
        -- destruct Hsame as (x & -> & ->). intros x' [= <-]. cbn in Hge. lia.
        -- right. intros b' Hb'. rewrite E in Hb'. by injection Hb' as <-.
    + rewrite (proj2 (map_lookup_filter_None _ _ _)); [done|]. by left.
Qed.
Lemma run_entry token evs clock last s : entry_of token clock last s -> Sorted N.le (clock :: (at_ms <$> evs)) ->
  entry_of token (default clock (list.last (at_ms <$> evs))) (last_taken token evs last) (foldl step s evs).
Proof.
  revert clock last s. induction evs as [|ev evs IH]; intros clock last s He Hs; [done|].
  cbn [fmap list_fmap] in Hs. apply Sorted_inv in Hs as [Hs Hc]. apply HdRel_inv in Hc.
  cbn [foldl last_taken]. specialize (IH _ _ _ (step_entry _ _ _ _ _ He Hc) Hs). cbn [fmap list_fmap].
  destruct evs as [|ev2 evs]; [done|]. cbn [fmap list_fmap] in *. rewrite last_cons_cons.
  destruct (list.last (at_ms ev2 :: _)) eqn:E; [exact IH|]. by apply last_None in E.
Qed.

Lemma sorted_snoc (l : list N) x : Sorted N.le (l ++ [x]) -> Sorted N.le (0 :: l) /\ default 0 (list.last l) <= x.
Proof.
  induction l as [|a l IH]; intros Hs; [cbn; split; [by repeat constructor|lia]|].
  rewrite <- app_comm_cons in Hs. apply Sorted_inv in Hs as [Hs Hh]. destruct (IH Hs) as [Hl Hx]. apply Sorted_inv in Hl as [Hl _].
  split; [|destruct l as [|b l]].
  - constructor; [|constructor; lia]. constructor; [done|]. destruct l as [|b l]; [constructor|]. cbn in Hh. apply HdRel_inv in Hh. by constructor.
  - cbn in *. by apply HdRel_inv in Hh.
  - rewrite last_cons_cons. done.
Qed.

(** C36: While the clock does not run back, a reader of a token gets exactly the body of the last post the relay took
    for it, until an hour after that post, and nothing from then on, whatever was posted, read or swept meanwhile. *)
Theorem blob_readable_for_its_hour evs token now :
  valid_token token = true -> Sorted N.le ((at_ms <$> evs) ++ [now]) ->
  (get_blob token now (run evs)).1 =
    match last_taken token evs None with
    | Some (body, posted) => if now <? saturating_add u64_max posted BLOB_TTL_MS then Ok body else Err 404
    | None => Err 404
    end.
Proof.
  intros Hv Hs. assert (entry_of token now (last_taken token evs None) (run evs)) as He.
  { destruct (sorted_snoc _ _ Hs) as [Hs0 Hle].
    pose proof (run_entry token evs 0 None ∅ ltac:(by unfold entry_of; rewrite lookup_empty) Hs0) as He.
    unfold entry_of in *. unfold run. destruct (foldl step ∅ evs !! token); [done|]. intros x Hx. specialize (He x Hx). lia. }
  unfold get_blob. rewrite Hv. cbn [negb]. unfold get, entry_of in *. destruct (run evs !! token) as [b|].
  - destruct He as ([body posted] & -> & ->). cbn [sb_expiry_ms sb_ciphertext fst]. unfold expiry. cbn [snd]. by destruct (now <? _).
  - cbn [fst]. destruct (last_taken token evs None) as [[body posted]|]; [|done]. specialize (He _ eq_refl). unfold expiry in He. cbn [snd] in He.
    by rewrite (proj2 (N.ltb_ge _ _) He).
Qed.
End runs.
End Blob.

(** ** Concrete packages and runs *)

(** Texts that name the three byte strings of a run, one signature, bodies that name their record. *)
Definition pb_pk : bytes := repeat 1 1952.
Definition pb_kem : bytes := repeat 2 1184.
Definition pb_b64url : Base64Url :=
  {| b64url_encode b := if bool_decide (b = pb_pk) then "pk"%string else if bool_decide (b = pb_kem) then "kem"%string else "sig"%string;
     b64url_decode s := if bool_decide (s = "pk"%string) then Some pb_pk else if bool_decide (s = "kem"%string) then Some pb_kem
                        else if bool_decide (s = "sig"%string) then Some [7] else None |}.
Definition pb_sha : Sha256 := fun b => take 32 (b ++ replicate 32 0).
Definition pb_mldsa : MlDsaBackend :=
  {| pk_from_bytes _ := Ok tt; sig_from_bytes _ := Ok tt; mldsa_verify _ _ s := Ok (bool_decide (s = [7])) |}.
#[local] Existing Instances pb_b64url pb_sha pb_mldsa demo_base64 ml_dsa_65_verifier.
Definition pb_id : string := hex_encode (derive_agent_id pb_pk).
Definition pb_record (addr : string) (issued : N) : ProfileIndexRecord := Build_ProfileIndexRecord pb_id addr "kem" "pk" issued "sig".
Definition pb_bodies : PairBodies :=
  {| parse_index b := match b with
                      | [0; issued] => Ok (pb_record Profile.TOMBSTONE_PROFILE_ADDR issued)
                      | [1; issued] => Ok (pb_record MINIMAL_PROFILE_ADDR issued)
                      | _ => Err "body"%string
                      end;
     parse_pair _ := Err "body"%string; parse_forwarding _ := Err "body"%string;
     canonical_bytes_sans_sig r := Ok (ascii_bytes (pi_agent_id r) ++ u64_be (pi_issued_at_ms r)) |}.
Definition pb_signer : AgentSigner := {| signer_public_key := pb_pk; signer_sign _ := Ok [7] |}.
#[local] Existing Instances pb_bodies pb_signer.

Lemma served_profile_signed_witness :
  Profile.get_profile pb_id (Profile.run [Profile.Posted [1; 5]; Profile.Posted [1; 4]] ∅) = Some (pb_record MINIMAL_PROFILE_ADDR 5) /\
  hex_decode pb_id = Some (derive_agent_id pb_pk).
Proof.
  assert (Profile.get_profile pb_id (Profile.run [Profile.Posted [1; 5]; Profile.Posted [1; 4]] ∅) = Some (pb_record MINIMAL_PROFILE_ADDR 5)) as Hg
    by by vm_compute.
  split; [exact Hg|]. apply Profile.served_profile_signed in Hg as (_ & _ & pubkey & sig & canonical & Hpk & _ & Hid & _).
  change (Some pb_pk = Some pubkey) in Hpk. injection Hpk as <-. exact Hid.
Defined.

Lemma published_profile_found_witness :
  exists r, sign_minimal_index_record pb_id pb_kem pb_pk 5 = Ok r /\ (Profile.post_profile [1; 5] ∅).1 = Ok tt /\
    Profile.get_profile pb_id (Profile.post_profile [1; 5] ∅).2 = Some r /\ checked_index pb_id [1; 5] = Ok r.
Proof.
  assert (sign_minimal_index_record pb_id pb_kem pb_pk 5 = Ok (pb_record MINIMAL_PROFILE_ADDR 5)) as Hs by by vm_compute.
  exists (pb_record MINIMAL_PROFILE_ADDR 5). split; [exact Hs|].
  destruct (published_profile_found pb_id pb_kem pb_pk 5 _ [1; 5] pb_id ∅ Hs) as (Hp & Hg & Hr); [by vm_compute..|].
  split; [exact Hp|]. split; [exact Hg|]. by apply Hr.
Defined.

Lemma swept_deletion_undone_witness :
  Profile.get_profile pb_id (Profile.run [Profile.Posted [1; 5]; Profile.Deleted pb_id [0; 6]] ∅) = None /\
  Profile.get_profile pb_id (Profile.run [Profile.Posted [1; 5]; Profile.Deleted pb_id [0; 6]; Profile.Swept 100 10; Profile.Posted [1; 5]] ∅)
    = Some (pb_record MINIMAL_PROFILE_ADDR 5).
Proof.
  apply (Profile.swept_deletion_undone (pb_record MINIMAL_PROFILE_ADDR 5) (pb_record Profile.TOMBSTONE_PROFILE_ADDR 6));
    first [by vm_compute | by eexists; vm_compute].
Defined.

Definition pb_token : string := "abcdefghijklmnop".
Definition pb_events : list Blob.Event :=
  [Blob.PostBlob (fun _ _ => true) pb_token [1] 10; Blob.PostBlob (fun _ _ => true) pb_token [2] 20;
   Blob.PostBlob (fun _ _ => false) pb_token [3] 30; Blob.GetBlob pb_token 40; Blob.Sweep 3600010].
Lemma blob_readable_for_its_hour_witness :
  (Blob.get_blob pb_token 3600019 (Blob.run pb_events)).1 = Ok [2] /\ (Blob.get_blob pb_token 3600020 (Blob.run pb_events)).1 = Err 404.
Proof.
  split; rewrite Blob.blob_readable_for_its_hour; try by vm_compute.
  all: cbn; repeat constructor; lia.
Defined.
