(* ===== verification/LinkDevice.v ===== *)
(** * Linking another device to an account

    Models [crates/fetchit-chat/src]: [link_device.rs] (a new device's offer), [link_device_uri.rs]
    (the pointer shown as a QR code), [link_device_flow.rs] (publishing the sealed offer to relays,
    fetching it, the preview with the code a human compares), [link_device_enroll.rs] (the
    certificate, the republished device list) and [sibling_admission.rs] (how a device of the
    account gets another into a group), over [DeviceFabric] and the guarded requests of
    [RelayHttp].  JSON, URLs, base64, the AEAD and ML-DSA are parameters, draws and the clock
    arguments.  The last part runs the flow over the blob store of [ProfileBlob]. *)
From Stdlib Require Import Ascii.
From stdpp Require Import pretty.
From S2P Require Import Prelude SendState RelayProto RelayAuth PairRecord ShareUri Text RelayHttp GroupBridge.
From S2P Require Import Conversation Inbound Outbound DeviceFabric Pairing ProfileBlob.
Open Scope rust_scope.

(** ** [link_device.rs] *)

Definition ML_DSA_PUBKEY_BYTES : N := 1952.
Definition ML_KEM_PUBKEY_BYTES : N := 1184.
Definition NONCE_MIN_BYTES : N := 16.
Definition NONCE_MAX_BYTES : N := 64.
Definition LINK_OFFER_AAD : bytes := ascii_bytes "fetchit-link-offer-v1".
Definition SHORT_CODE_DOMAIN : bytes := ascii_bytes "fetchit-link-short-code-v1".

Record LinkDeviceOffer := mkOffer {
  lo_agent_id_hex : string; lo_agent_ml_dsa_pubkey_b64 : string; lo_kem_pubkey_b64 : string; lo_nonce_b64 : string; lo_exp_ms : N }.

(** [AgentIdMismatch] is [OfferIdMismatch]. *)
Inductive LinkDeviceOfferError := BadAgentIdHex | BadBase64 | BadPubkey | OfferIdMismatch | BadNonce | BadExpiry.
Definition offer_error_text (e : LinkDeviceOfferError) : string :=
  match e with
  | BadAgentIdHex => "agent_id_hex must be 64 lowercase hex chars"
  | BadBase64 => "a public-key or nonce field is not valid base64"
  | BadPubkey => "a public key is not the expected length (ML-DSA-65 1952 B, ML-KEM-768 1184 B)"
  | OfferIdMismatch => "agent_id_hex does not match derive_agent_id(agent ML-DSA pubkey)"
  | BadNonce => "nonce must decode to 16..=64 bytes"
  | BadExpiry => "expiry must be a non-zero epoch-ms timestamp"
  end.

(** [serde_json] at the offer. *)
Class OfferJson := { print_offer : LinkDeviceOffer -> result bytes string; parse_offer : bytes -> result LinkDeviceOffer string }.

Section offer.
  Context `{B6 : Base64, SH : Sha256, OJ : OfferJson, CC : ChatCipher, CS : ChatSeal}.

Definition decode_pubkey (b64 : string) (expected_len : N) : result bytes LinkDeviceOfferError :=
  match b64_decode b64 with
  | None => Err BadBase64
  | Some raw => if len raw =? expected_len then Ok raw else Err BadPubkey
  end.

Definition validate_offer (o : LinkDeviceOffer) : result unit LinkDeviceOfferError :=
  if negb (lower_hex_64 (lo_agent_id_hex o)) then Err BadAgentIdHex
  else
    let? ml_dsa := decode_pubkey (lo_agent_ml_dsa_pubkey_b64 o) ML_DSA_PUBKEY_BYTES in
    let? _ := decode_pubkey (lo_kem_pubkey_b64 o) ML_KEM_PUBKEY_BYTES in
    if negb (bool_decide (hex_encode (derive_agent_id ml_dsa) = lo_agent_id_hex o)) then Err OfferIdMismatch
    else match b64_decode (lo_nonce_b64 o) with
         | None => Err BadBase64
         | Some nonce =>
             if negb ((NONCE_MIN_BYTES <=? len nonce) && (len nonce <=? NONCE_MAX_BYTES)) then Err BadNonce
             else if lo_exp_ms o =? 0 then Err BadExpiry
             else Ok tt
         end.

Definition is_expired (now_ms : N) (o : LinkDeviceOffer) : bool := lo_exp_ms o <=? now_ms.

Definition mint_offer (agent_id_hex : string) (agent_ml_dsa_pubkey kem_pubkey nonce : bytes) (exp_ms : N) : LinkDeviceOffer :=
  mkOffer agent_id_hex (b64_encode agent_ml_dsa_pubkey) (b64_encode kem_pubkey) (b64_encode nonce) exp_ms.

Definition ALPHABET : bytes := ascii_bytes "0123456789ABCDEFGHJKMNPQRSTVWXYZ".
(** What the code is a digest of. *)
Definition short_code_input (o : LinkDeviceOffer) : bytes :=
  SHORT_CODE_DOMAIN
  ++ mjoin ((fun f => push_lp_clamped (ascii_bytes f)) <$> [lo_agent_id_hex o; lo_agent_ml_dsa_pubkey_b64 o; lo_kem_pubkey_b64 o; lo_nonce_b64 o])
  ++ u64_be (lo_exp_ms o).
(** The first eight bytes of the digest, big endian, in a [u64]. *)
Definition code_bits (digest : bytes) : N := foldl (fun acc b => N.lor (N.shiftl acc 8) b) 0 (take 8 digest).
Definition code_char (acc : N) (i : nat) : ascii :=
  let idx := N.land (N.shiftr acc (4 + 5 * (11 - N.of_nat i))) 31 in ascii_of_N (default 0 (ALPHABET !! N.to_nat idx)).
Fixpoint code_from (acc : N) (i n : nat) : string :=
  match n with
  | O => EmptyString
  | S n =>
      let rest := String (code_char acc i) (code_from acc (S i) n) in
      if (0 <? N.of_nat i) && (N.of_nat i mod 4 =? 0) then String "-" rest else rest
  end.
Definition short_code (o : LinkDeviceOffer) : string := code_from (code_bits (sha256 (short_code_input o))) 0 12.

Definition seal_offer (key nonce : bytes) (o : LinkDeviceOffer) : result bytes ChatError :=
  match print_offer o with
  | Err e => Err (Invalid ("link offer serialize: " +:+ e))
  | Ok plaintext =>
      let? ct := aead_seal key nonce plaintext LINK_OFFER_AAD in
      Ok (nonce ++ ct)
  end.
Definition open_offer (blob key : bytes) : result LinkDeviceOffer ChatError :=
  if len blob <? AEAD_NONCE_LEN then Err (Invalid "link offer blob is truncated")
  else match aead_open key (take (N.to_nat AEAD_NONCE_LEN) blob) (drop (N.to_nat AEAD_NONCE_LEN) blob) LINK_OFFER_AAD with
       | None => Err (Invalid "aead open")
       | Some plaintext =>
           match parse_offer plaintext with
           | Ok o => Ok o
           | Err e => Err (Invalid ("link offer parse: " +:+ e))
           end
       end.
End offer.

(** ** [link_device_uri.rs] *)

Module LinkUri.
Definition SCHEME : string := "fetchit".
Definition HOST_SEGMENT : string := "link".
Definition VERSION_SEGMENT : string := "v1".
Definition TOKEN_MIN_BYTES : N := 16.
Definition TOKEN_MAX_BYTES : N := 48.

Inductive LinkDeviceUriError :=
| TooLong | BadUri | BadVersion | InvalidToken | MissingKey | InvalidKey | NoRelays | TooManyRelays | InvalidRelay (why : PairUri.PairUriError).

Record ParsedLinkDeviceUri := mkParsed { pl_token : string; pl_relays : list string; pl_key : bytes }.

Section uri.
  Context `{UP : UrlParse, UE : UrlEdit, FU : FormUrl, BU : Base64Url}.

Definition validate_token (token : string) : result unit LinkDeviceUriError :=
  match b64url_decode token with
  | None => Err InvalidToken
  | Some decoded => if (TOKEN_MIN_BYTES <=? len decoded) && (len decoded <=? TOKEN_MAX_BYTES) then Ok tt else Err InvalidToken
  end.
Definition parse_fragment_key (fragment : option string) : result bytes LinkDeviceUriError :=
  match fragment ≫= strip_prefix "k=" with
  | None => Err MissingKey
  | Some raw =>
      match b64url_decode raw with
      | None => Err InvalidKey
      | Some key => if len key =? AEAD_KEY_LEN then Ok key else Err InvalidKey
      end
  end.

Definition relay_error {A} (r : result A PairUri.PairUriError) : result A LinkDeviceUriError :=
  match r with Ok a => Ok a | Err e => Err (InvalidRelay e) end.
Definition with_fragment (f : string) (u : Url) : Url :=
  Build_Url (url_scheme u) (url_host_str u) (url_port u) (url_username u) (url_password u) (url_path u) (url_query u) (Some f).

Definition link_base (token : string) : string := "fetchit://link/v1/" +:+ token.
Definition emit_link_device_uri (token : string) (relays : list string) (key : bytes) : result string LinkDeviceUriError :=
  let? _ := validate_token token in
  if bool_decide (relays = []) then Err NoRelays
  else if PairUri.MAX_RELAYS <? len relays then Err TooManyRelays
  else
    let? _ := relay_error (PairUri.validate_relays relays) in
    match url_parse (link_base token) with
    | None => Err BadUri
    | Some url =>
        let url := PairUri.with_query (form_print ((fun r => ("r"%string, r)) <$> relays)) url in
        let s := url_to_string (with_fragment ("k=" +:+ b64url_encode key) url) in
        if PairUri.MAX_URI_LEN <? str_len s then Err TooLong else Ok s
    end.

Definition parse_link_device_uri (uri : string) : result ParsedLinkDeviceUri LinkDeviceUriError :=
  if PairUri.MAX_URI_LEN <? str_len uri then Err TooLong
  else match url_parse uri with
       | None => Err BadUri
       | Some parsed =>
           if negb (bool_decide (url_scheme parsed = SCHEME)) then Err BadUri
           else if negb (bool_decide (default EmptyString (url_host_str parsed) = HOST_SEGMENT)) then Err BadUri
           else
             let path := url_path parsed in
             match split_once "/" (default path (strip_prefix "/" path)) with
             | None => Err BadUri
             | Some (version, token) =>
                 if negb (bool_decide (version = VERSION_SEGMENT)) then Err BadVersion
                 else
                   let? _ := validate_token token in
                   let raw_relays := (fun kv => kv.2) <$>
                     List.filter (fun kv => bool_decide (kv.1 = "r"%string)) (form_parse (default EmptyString (url_query parsed))) in
                   if bool_decide (raw_relays = []) then Err NoRelays
                   else if PairUri.MAX_RELAYS <? len raw_relays then Err TooManyRelays
                   else
                     let? relays := relay_error (PairUri.collect_relays [] raw_relays) in
                     let? key := parse_fragment_key (url_fragment parsed) in
                     Ok (mkParsed token relays key)
             end
       end.
End uri.
End LinkUri.

(** ** [link_device_flow.rs] *)

Definition TOKEN_BYTES : N := 24.
Definition MAX_LINK_BLOB_BYTES : N := 256 * 1024.
Definition LINK_OFFER_NONCE_BYTES : N := 16.

Record CreatedLinkOffer := { cl_uri : string; cl_short_code : string; cl_exp_ms : N }.
Record LinkOfferPreview := { lp_agent_id_hex : string; lp_short_code : string; lp_expired : bool }.

(** What is drawn for an offer: its nonce, the seal's key and nonce, the token. *)
Record LinkDraw := { ld_offer_nonce : bytes; ld_key : bytes; ld_nonce : bytes; ld_token : bytes }.

Class LinkUriDisplay := link_uri_display : LinkUri.LinkDeviceUriError -> string.

(** ** [link_device_enroll.rs]: what is reported *)

Record EnrollOutcome := mkEnrolled { eo_agent_id_hex : string; eo_record_revision : N; eo_devices_group_admitted : bool }.

Section flow.
  Context `{B6 : Base64, BU : Base64Url, SH : Sha256, ML : MlDsaBackend, UP : UrlParse, UE : UrlEdit, FU : FormUrl, OJ : OfferJson,
            CC : ChatCipher, CS : ChatSeal, PD : PairErrorDisplay, FJ : FabricJson, LD : LinkUriDisplay}.
  Context {W : Type} `{IP : IpDisplay, RN : RelayNet, RS : !RelayServer W}.

Definition blob_request (relay token : string) (body : RequestBody) (w : W) : result Response ChatError * W :=
  match url_parse relay with
  | None => (Err (Invalid "relay url"), w)
  | Some base =>
      match relay_request base ("v1/blob/" +:+ token) body w with
      | (Ok resp, w) => (Ok resp, w)
      | (Err (BadUrl e), w) => (Err (Invalid ("build blob url: " +:+ e)), w)
      | (Err e, w) => (Err (request_error e), w)
      end
  end.
Definition put_blob (relay token : string) (blob : bytes) (w : W) : result unit ChatError * W :=
  match blob_request relay token (PostSealed blob) w with
  | (Err e, w) => (Err e, w)
  | (Ok resp, w) =>
      (if is_success resp then Ok tt else Err (Invalid ("relay returned " +:+ pretty (rp_status resp) +:+ " storing link blob")), w)
  end.
Definition get_blob (relay token : string) (w : W) : result (option bytes) ChatError * W :=
  match blob_request relay token GetRequest w with
  | (Err e, w) => (Err e, w)
  | (Ok resp, w) =>
      (if rp_status resp =? 404 then Ok None
       else if negb (is_success resp) then Err (Invalid ("relay returned " +:+ pretty (rp_status resp) +:+ " fetching link blob"))
       else match read_body_capped resp MAX_LINK_BLOB_BYTES with
            | Ok b => Ok (Some b)
            | Err e => Err (Invalid (body_display e))
            end, w)
  end.

(** The loop of [publish_link_offer]: the relays that took the blob, and the last error. *)
Fixpoint put_each (relays : list string) (token : string) (blob : bytes) (stored_on : list string) (last_err : option ChatError) (w : W)
    : list string * option ChatError * W :=
  match relays with
  | [] => (stored_on, last_err, w)
  | relay :: rest =>
      match put_blob relay token blob w with
      | (Ok _, w) => put_each rest token blob (stored_on ++ [relay]) last_err w
      | (Err e, w) => put_each rest token blob stored_on (Some e) w
      end
  end.
Definition publish_link_offer (offer : LinkDeviceOffer) (relays : list string) (dr : LinkDraw) (w : W) : result string ChatError * W :=
  let token := b64url_encode (ld_token dr) in
  match seal_offer (ld_key dr) (ld_nonce dr) offer with
  | Err e => (Err e, w)
  | Ok blob =>
      let '(stored_on, last_err, w) := put_each relays token blob [] None w in
      if bool_decide (stored_on = []) then (Err (default (Invalid "no relays accepted the link offer") last_err), w)
      else (match LinkUri.emit_link_device_uri token stored_on (ld_key dr) with
            | Ok uri => Ok uri
            | Err e => Err (Invalid ("emit link uri: " +:+ link_uri_display e))
            end, w)
  end.

(** The loop of [fetch_link_offer]: the first relay that has the blob. *)
Fixpoint first_blob (relays : list string) (token : string) (last_err : option ChatError) (w : W) : result bytes ChatError * W :=
  match relays with
  | [] => (Err (default (Invalid "no relays served the link offer") last_err), w)
  | relay :: rest =>
      match get_blob relay token w with
      | (Ok (Some b), w) => (Ok b, w)
      | (Ok None, w) => first_blob rest token (Some (Invalid "relay has no blob for this link (expired or wrong token)")) w
      | (Err e, w) => first_blob rest token (Some e) w
      end
  end.
Definition open_checked (blob key : bytes) : result LinkDeviceOffer ChatError :=
  let? offer := open_offer blob key in
  match validate_offer offer with
  | Ok _ => Ok offer
  | Err e => Err (Invalid ("invalid link offer: " +:+ offer_error_text e))
  end.
Definition fetch_link_offer (uri : string) (w : W) : result LinkDeviceOffer ChatError * W :=
  match LinkUri.parse_link_device_uri uri with
  | Err e => (Err (Invalid ("parse link uri: " +:+ link_uri_display e)), w)
  | Ok parsed =>
      match first_blob (LinkUri.pl_relays parsed) (LinkUri.pl_token parsed) None w with
      | (Err e, w) => (Err e, w)
      | (Ok blob, w) => (open_checked blob (LinkUri.pl_key parsed), w)
      end
  end.

Definition create_link_offer (agent_id_hex : string) (agent_ml_dsa_pubkey kem_pubkey : bytes) (relays : list string) (exp_ms : N)
    (dr : LinkDraw) (w : W) : result CreatedLinkOffer ChatError * W :=
  let offer := mint_offer agent_id_hex agent_ml_dsa_pubkey kem_pubkey (ld_offer_nonce dr) exp_ms in
  match publish_link_offer offer relays dr w with
  | (Err e, w) => (Err e, w)
  | (Ok uri, w) => (Ok {| cl_uri := uri; cl_short_code := short_code offer; cl_exp_ms := exp_ms |}, w)
  end.
(** [Client::create_link_offer] on a client with chat state. *)
Definition client_create_link_offer (agent_id_hex : string) (ml_dsa kem : bytes) (advertised_relays : list string) (ttl_secs now : N)
    (dr : LinkDraw) : W -> result CreatedLinkOffer ChatError * W :=
  create_link_offer agent_id_hex ml_dsa kem advertised_relays (saturating_add u64_max now (saturating_mul u64_max ttl_secs 1000)) dr.

Definition preview_link_offer (uri : string) (now_ms : N) (w : W) : result LinkOfferPreview ChatError * W :=
  match fetch_link_offer uri w with
  | (Err e, w) => (Err e, w)
  | (Ok offer, w) =>
      (Ok {| lp_agent_id_hex := lo_agent_id_hex offer; lp_short_code := short_code offer; lp_expired := is_expired now_ms offer |}, w)
  end.

Definition decode_offer_keys (offer : LinkDeviceOffer) : result (bytes * bytes) ChatError :=
  let? ml_dsa := b64_or "offer ml-dsa key is not base64" (lo_agent_ml_dsa_pubkey_b64 offer) in
  let? kem := b64_or "offer ml-kem key is not base64" (lo_kem_pubkey_b64 offer) in
  Ok (ml_dsa, kem).

(** [key]: the account key the vault gives. *)
Definition confirm_offer_from_master (key : result UserKeypair ChatError) (offer : LinkDeviceOffer) (added_at_ms : N)
    : result AgentCertificate ChatError :=
  if is_expired added_at_ms offer then Err (Invalid "link offer has expired; ask the new device for a fresh QR")
  else
    let? keys := decode_offer_keys offer in
    let? user := key in
    mint_agent_certificate user (lo_agent_id_hex offer) keys.1 keys.2 added_at_ms.
(** [master]: whether the passphrase opens the vault. *)
Definition confirm_link_device (master : result unit ChatError) (key : result UserKeypair ChatError) (uri : string) (added_at_ms : N) (w : W)
    : result AgentCertificate ChatError * W :=
  match fetch_link_offer uri w with
  | (Err e, w) => (Err e, w)
  | (Ok offer, w) => (let? _ := master in confirm_offer_from_master key offer added_at_ms, w)
  end.

(** ** [link_device_enroll.rs] *)

(** [DevicesGroupSink]. *)
Record DevicesGroupSink := {
  admit_device : AgentCertificate -> W -> result bool ChatError * W;
  remove_device : string -> W -> result bool ChatError * W }.
Definition PendingDevicesGroupSink : DevicesGroupSink :=
  {| admit_device _ w := (Ok false, w); remove_device _ w := (Ok false, w) |}.

Definition finish_enrollment (cert : AgentCertificate) (record_revision : N) (sink : DevicesGroupSink) (w : W) : result EnrollOutcome ChatError * W :=
  match admit_device sink cert w with
  | (Err e, w) => (Err e, w)
  | (Ok admitted, w) => (Ok (mkEnrolled (ac_agent_id_hex cert) record_revision admitted), w)
  end.

Definition enroll_from_master (key : result UserKeypair ChatError) (offer : LinkDeviceOffer) (new_device_relays : list string)
    (post_relay : Url) (post_relay_str : string) (now_ms : N) (io : result unit ChatError) (sink : DevicesGroupSink)
    (fb : FabricStore) (w : W) : result EnrollOutcome ChatError * FabricStore * W :=
  match confirm_offer_from_master key offer now_ms with
  | Err e => (Err e, fb, w)
  | Ok cert =>
      match append_publish_from_master key cert new_device_relays post_relay post_relay_str now_ms io fb w with
      | (Err e, fb, w) => (Err e, fb, w)
      | (Ok record, fb, w) => let '(r, w) := finish_enrollment cert (p4_revision record) sink w in (r, fb, w)
      end
  end.

Definition enroll_confirmed_device (master : result unit ChatError) (key : result UserKeypair ChatError) (uri : string)
    (post_relay : Url) (post_relay_str : string) (now_ms : N) (io : result unit ChatError) (sink : DevicesGroupSink)
    (fb : FabricStore) (w : W) : result EnrollOutcome ChatError * FabricStore * W :=
  match LinkUri.parse_link_device_uri uri with
  | Err e => (Err (Invalid ("parse link uri: " +:+ link_uri_display e)), fb, w)
  | Ok parsed =>
      match fetch_link_offer uri w with
      | (Err e, w) => (Err e, fb, w)
      | (Ok offer, w) =>
          match master with
          | Err e => (Err e, fb, w)
          | Ok _ => enroll_from_master key offer (LinkUri.pl_relays parsed) post_relay post_relay_str now_ms io sink fb w
          end
      end
  end.
End flow.

(** ** [sibling_admission.rs] *)

Definition SIBLING_JOIN_SIG_DOMAIN : bytes := ascii_bytes "fetchit-sibling-join-sig-v1".
Record SiblingJoinRequest := {
  sj_group_id_hex : string; sj_treekem_key_package_b64 : string; sj_cert : AgentCertificate; sj_nonce : N; sj_sig_b64 : string }.
(** [AdmitOutcome::Admitted] is [NewlyAdmitted]. *)
Inductive AdmitOutcome := NewlyAdmitted | AlreadyAdmitted.

Section sibling.
  Context `{B6 : Base64, SH : Sha256, ML : MlDsaBackend, AS : AgentSigner, ED : ErrorDisplay}.

Definition verify_ml_dsa65 (pubkey message sig : bytes) : result unit ChatError :=
  match pk_from_bytes pubkey with
  | Err e => Err (Invalid ("ml-dsa pubkey parse: " +:+ e))
  | Ok _ =>
      match sig_from_bytes sig with
      | Err e => Err (Invalid ("ml-dsa sig parse: " +:+ e))
      | Ok _ =>
          match mldsa_verify pubkey message sig with
          | Err e => Err (Invalid ("ml-dsa verify backend: " +:+ e))
          | Ok ok => if (ok : bool) then Ok tt else Err (Invalid "ml-dsa signature does not verify")
          end
      end
  end.

Definition sibling_join_signing_input (group_id_hex treekem_key_package_b64 : string) (nonce : N) : result bytes ChatError :=
  let? g := DeviceFabric.push_lp (ascii_bytes group_id_hex) in
  let? k := DeviceFabric.push_lp (ascii_bytes treekem_key_package_b64) in
  Ok (SIBLING_JOIN_SIG_DOMAIN ++ g ++ k ++ u64_be nonce).
Definition sign_sibling_join_request (group_id_hex treekem_key_package_b64 : string) (nonce : N) : result string ChatError :=
  let? input := sibling_join_signing_input group_id_hex treekem_key_package_b64 nonce in
  match signer_sign input with
  | Err e => Err (Invalid ("sibling-join sign: " +:+ e))
  | Ok sig => Ok (b64_encode sig)
  end.

(** [map_err] with a prefix. *)
Definition because {A} (what : string) (r : result A ChatError) : result A ChatError :=
  match r with Ok a => Ok a | Err e => Err (Invalid (what +:+ error_to_string e)) end.

Definition authorize_sibling_admission (request : SiblingJoinRequest) (our_user_pubkey : bytes) (current_devices : list DeviceEntryV4)
    (group_is_treekem : bool) : result unit ChatError :=
  let cert := sj_cert request in
  let? _ := because "sibling cert does not chain to our account: " (verify_agent_certificate cert our_user_pubkey) in
  match List.find (fun d => bool_decide (de_agent_id_hex d = ac_agent_id_hex cert)) current_devices with
  | None => Err (Invalid "sibling is not a current device of this account (revoked or unknown)")
  | Some entry =>
      if negb (bool_decide (de_ml_dsa_pubkey_b64 entry = ac_agent_ml_dsa_pubkey_b64 cert))
      then Err (Invalid "sibling cert device key does not match the current record entry")
      else
        let? device_pubkey := b64_or "sibling device pubkey b64" (ac_agent_ml_dsa_pubkey_b64 cert) in
        let? sig := b64_or "sibling-join sig b64" (sj_sig_b64 request) in
        let? input := sibling_join_signing_input (sj_group_id_hex request) (sj_treekem_key_package_b64 request) (sj_nonce request) in
        let? _ := because "sibling-join request signature does not verify: " (verify_ml_dsa65 device_pubkey (agent_sign_input input) sig) in
        if negb group_is_treekem then Err (Invalid "sibling admission requires a TreeKem-plane group") else Ok tt
  end.

(** [direct_add]: [SiblingGroupAdder]; whether the add was fresh. *)
Definition handle_sibling_join_request {W} (direct_add : string -> string -> string -> W -> result bool ChatError * W)
    (request : SiblingJoinRequest) (our_user_pubkey : bytes) (current_devices : list DeviceEntryV4) (group_is_treekem : bool)
    (admitted_nonce : option N) (w : W) : result AdmitOutcome ChatError * W :=
  match authorize_sibling_admission request our_user_pubkey current_devices group_is_treekem with
  | Err e => (Err e, w)
  | Ok _ =>
      if match admitted_nonce with Some seen => sj_nonce request <=? seen | None => false end then (Ok AlreadyAdmitted, w)
      else match direct_add (sj_group_id_hex request) (ac_agent_id_hex (sj_cert request)) (sj_treekem_key_package_b64 request) w with
           | (Err e, w) => (Err e, w)
           | (Ok freshly_added, w) => (Ok (if freshly_added then NewlyAdmitted else AlreadyAdmitted), w)
           end
  end.
End sibling.

(** ** The code a human compares *)

Definition offer_bounded (o : LinkDeviceOffer) : Prop :=
  Forall (fun f => len (ascii_bytes f) <= u32_max) [lo_agent_id_hex o; lo_agent_ml_dsa_pubkey_b64 o; lo_kem_pubkey_b64 o; lo_nonce_b64 o] /\
  lo_exp_ms o <= u64_max.

(** The digest is of every field of the offer: offers with the same code and different fields collide in sixty bits of it. *)
Lemma short_code_input_inj a b : offer_bounded a -> offer_bounded b -> short_code_input a = short_code_input b -> a = b.
Proof.
  intros [Ha Hta] [Hb Htb] Heq. repeat (apply Forall_cons in Ha as [? Ha]). repeat (apply Forall_cons in Hb as [? Hb]).
  unfold short_code_input in Heq. apply app_inj_1 in Heq as [_ Heq]; [|done]. cbn [fmap list_fmap mjoin list_join] in Heq.
  rewrite <- !app_assoc in Heq. do 4 (apply lp_clamped_split in Heq as [?%ascii_bytes_inj Heq]; [|done..]).
  cbn in Heq. apply u64_be_inj in Heq; [|done..]. destruct a, b. cbn in *. congruence.
Qed.

Lemma code_char_letter acc i : N_of_ascii (code_char acc i) ∈ ALPHABET.
Proof.
  unfold code_char. set (idx := N.land _ 31). assert (idx < 32) as Hi.
  { subst idx. change 31 with (N.ones 5). rewrite N.land_ones. by apply N.mod_lt. }
  assert (exists c, ALPHABET !! N.to_nat idx = Some c /\ c < 256) as (c & Hc & Hb).
  { destruct (lookup_lt_is_Some_2 ALPHABET (N.to_nat idx)) as [c Hc]; [change (N.to_nat idx < 32)%nat; lia|]. exists c. split; [done|].
    assert (Forall (fun c => c < 256) ALPHABET) as Hall by (apply (bool_decide_unpack _); by vm_compute).
    exact (Forall_lookup_1 _ _ _ _ Hall Hc). }
  rewrite Hc. cbn [default]. unfold id. rewrite N_ascii_embedding by done. by eapply list_elem_of_lookup_2.
Qed.
Lemma code_from_letters acc i n : Forall (fun c => c = 45 \/ c ∈ ALPHABET) (ascii_bytes (code_from acc i n)).
Proof.
  revert i. induction n as [|n IH]; intros i; [constructor|]. cbn [code_from].
  assert (Forall (fun c => c = 45 \/ c ∈ ALPHABET) (ascii_bytes (String (code_char acc i) (code_from acc (S i) n)))) as Hr.
  { cbn. constructor; [|apply IH]. right. apply code_char_letter. }
  destruct ((0 <? N.of_nat i) && _); [|done]. cbn. by constructor; [left|].
Qed.
(** Three groups of four letters of the alphabet. *)
Lemma short_code_shape `{Sha256} o : str_len (short_code o) = 14 /\ Forall (fun c => c = 45 \/ c ∈ ALPHABET) (ascii_bytes (short_code o)).
Proof. split; [|apply code_from_letters]. done. Qed.

(** ** An offer reads back *)

(** What the packages document. *)
Class LinkLaws `{OfferJson, ChatCipher, ChatSeal, Base64Url, UrlParse, UrlEdit, FormUrl} := {
  ll_open_seal : forall k n p a c, chacha_seal k n p a = Ok c -> chacha_open k n c a = Some p;
  ll_offer : forall o b, print_offer o = Ok b -> parse_offer b = Ok o;
  ll_form : forall pairs, form_parse (form_print pairs) = pairs;
  ll_base : forall token, is_Some (b64url_decode token) ->
    exists u, url_parse (LinkUri.link_base token) = Some u /\ url_scheme u = "fetchit"%string /\ url_host_str u = Some "link"%string /\
              url_path u = "/v1/" +:+ token;
  ll_reparse : forall token u pairs k, is_Some (b64url_decode token) -> url_parse (LinkUri.link_base token) = Some u ->
    let u' := LinkUri.with_fragment ("k=" +:+ b64url_encode k) (PairUri.with_query (form_print pairs) u) in url_parse (url_to_string u') = Some u';
  ll_host_lower : forall s u h, url_parse s = Some u -> url_host_str u = Some h ->
    url_scheme u = "http"%string \/ url_scheme u = "https"%string -> url_set_host u (to_ascii_lowercase h) = Some u }.

(** What relays with a blob store promise their clients: [held] is what a relay keeps under a token.  A put that is answered well
    leaves the blob there, a put that is not may; a read yields what is kept and takes away at most what has expired; the two
    spellings of a relay's URL name one relay. *)
Class BlobRelays (W : Type) `{UrlParse, UrlEdit, IpDisplay, RelayNet, !RelayServer W} := {
  held : W -> string -> string -> option bytes;
  held_put : forall relay token blob w res w', put_blob relay token blob w = (res, w') ->
    (is_ok res = true -> held w' relay token = Some blob) /\
    forall r, held w' r token = held w r token \/ held w' r token = Some blob;
  held_get : forall relay token w res w', get_blob relay token w = (res, w') ->
    (forall b, res = Ok (Some b) -> held w relay token = Some b) /\
    forall r, held w' r token = held w r token \/ held w' r token = None;
  held_alias : forall r n token w, PairUri.normalize_relay r = Ok n -> held w n token = held w r token }.

Section round_trip.
  Context `{B6 : Base64, BU : Base64Url, SH : Sha256, ML : MlDsaBackend, UP : UrlParse, UE : UrlEdit, FU : FormUrl, OJ : OfferJson,
            CC : ChatCipher, CS : ChatSeal, PD : PairErrorDisplay, FJ : FabricJson, LD : LinkUriDisplay, LL : !LinkLaws}.
  Context {W : Type} `{IP : IpDisplay, RN : RelayNet, RS : !RelayServer W, BR : !BlobRelays W}.

Lemma sealed_offer_opens key nonce o blob : len nonce = AEAD_NONCE_LEN -> seal_offer key nonce o = Ok blob -> open_offer blob key = Ok o.
Proof.
  intros Hn. unfold seal_offer, open_offer. destruct (print_offer o) as [p|] eqn:Hp; [|done]. unfold aead_seal.
  destruct (chacha_seal _ _ _ _) as [ct|] eqn:Hs; [|done]. cbn iota beta. intros [= <-].
  assert (N.to_nat AEAD_NONCE_LEN = length nonce) as Hl by (unfold len in Hn; lia).
  rewrite (proj2 (N.ltb_ge _ _)) by (unfold len in *; rewrite length_app; lia).
  rewrite Hl, take_app_length, drop_app_length. unfold aead_open. rewrite (ll_open_seal _ _ _ _ _ Hs). by rewrite (ll_offer _ _ Hp).
Qed.

Lemma link_relay_normalizes r : PairUri.validate_relay r = Ok tt -> exists n, PairUri.normalize_relay r = Ok n.
Proof.
  unfold PairUri.validate_relay, PairUri.normalize_relay. destruct (_ <? _); [done|].
  destruct (url_parse r) as [u|] eqn:Hu; [|done]. destruct (negb _) eqn:Hs; [done|].
  destruct (url_host_str u) as [h|] eqn:Hh; [|done]. destruct (bool_decide (h = _)); [done|]. intros _. cbn.
  rewrite (ll_host_lower r u h Hu Hh); [eauto|]. apply negb_false_iff, orb_true_iff in Hs.
  by destruct Hs as [Hs%bool_decide_eq_true|Hs%bool_decide_eq_true]; auto.
Qed.
Lemma link_relays_collected raw acc : PairUri.validate_relays raw = Ok tt ->
  exists ns, Forall2 (fun r n => PairUri.normalize_relay r = Ok n) raw ns /\
    PairUri.collect_relays acc raw = Ok (foldl (fun acc n => if bool_decide (n ∈ acc) then acc else acc ++ [n]) acc ns).
Proof.
  revert acc. induction raw as [|r raw IH]; intros acc; [exists []; by split; [constructor|]|]. cbn.
  destruct (PairUri.validate_relay r) as [[]|] eqn:Hr; [|done]. cbn. intros Hraw.
  destruct (link_relay_normalizes r Hr) as [n Hn]. rewrite Hn. cbn.
  destruct (IH (if bool_decide (n ∈ acc) then acc else acc ++ [n]) Hraw) as (ns & Hns & ->).
  exists (n :: ns). by split; [constructor|].
Qed.

Lemma link_uri_reads token relays key uri : len key = AEAD_KEY_LEN -> b64url_decode (b64url_encode key) = Some key ->
  LinkUri.emit_link_device_uri token relays key = Ok uri ->
  exists ns, Forall2 (fun r n => PairUri.normalize_relay r = Ok n) relays ns /\
    LinkUri.parse_link_device_uri uri = Ok (LinkUri.mkParsed token (first_seen ns) key).
Proof.
  intros Hk Hkey. unfold LinkUri.emit_link_device_uri, LinkUri.parse_link_device_uri.
  destruct (LinkUri.validate_token token) as [[]|] eqn:Ht; [|done]. cbn iota beta. destruct (bool_decide (relays = [])) eqn:Hne; [done|].
  destruct (_ <? len relays) eqn:Hmax; [done|]. destruct (PairUri.validate_relays relays) as [[]|] eqn:Hv; [|done]. cbn iota beta.
  assert (is_Some (b64url_decode token)) as Htok by (unfold LinkUri.validate_token in Ht; by destruct (b64url_decode token)).
  destruct (ll_base token Htok) as (u & Hu & Hscheme & Hhost & Hpath). rewrite Hu. cbv zeta.
  destruct (_ <? str_len _) eqn:Hlen; [done|]. intros [= <-]. rewrite Hlen, (ll_reparse _ _ _ _ Htok Hu).
  unfold LinkUri.with_fragment, PairUri.with_query. cbn [url_scheme url_host_str url_path url_query url_fragment default].
  rewrite Hscheme, Hhost, Hpath. cbn [default]. unfold id. rewrite !bool_decide_true by done. cbn [negb].
  change ("/v1/" +:+ token) with ("/" +:+ ("v1" +:+ String "/" token)). rewrite strip_prefix_app. cbn [default]. unfold id.
  rewrite split_once_app by (apply (bool_decide_unpack _); by vm_compute). rewrite bool_decide_true by done. cbn [negb]. rewrite Ht. cbn iota beta.
  rewrite ll_form. set (raw := _ <$> List.filter _ _). assert (raw = relays) as ->.
  { subst raw. clear. induction relays as [|r l IH]; [done|]. rewrite fmap_cons. cbn [List.filter fst]. rewrite bool_decide_true by done. by rewrite fmap_cons, IH. }
  rewrite Hne, Hmax. destruct (link_relays_collected relays [] Hv) as (ns & Hns & ->). exists ns. split; [done|].
  cbn [LinkUri.relay_error]. unfold LinkUri.parse_fragment_key. cbn [mbind option_bind].
  rewrite strip_prefix_app, Hkey. by rewrite (proj2 (N.eqb_eq _ _) Hk).
Qed.

(** The relays that took the blob hold it at the end: what follows the put to one of them only puts the same blob again. *)
Lemma put_each_stored relays token blob stored err w stored' err' w' :
  put_each relays token blob stored err w = (stored', err', w') ->
  exists l, stored' = stored ++ l /\ l `sublist_of` relays /\ (forall r, r ∈ l -> held w' r token = Some blob) /\
    forall r, held w' r token = held w r token \/ held w' r token = Some blob.
Proof.
  revert stored err w. induction relays as [|r relays IH]; intros stored err w; cbn [put_each].
  - intros [= <- _ <-]. exists []. rewrite app_nil_r. split_and!; [done|done|by intros r ?%elem_of_nil|by left].
  - destruct (put_blob r token blob w) as [res w1] eqn:Hput. destruct (held_put _ _ _ _ _ _ Hput) as [Hok Hkeep].
    destruct res as [[]|]; intros Hp; apply IH in Hp as (l & -> & Hl & Hin & Hall).
    + exists (r :: l). rewrite <- app_assoc. split_and!; [done|by apply sublist_skip| |].
      * intros r' [->|Hr']%elem_of_cons; [|by apply Hin]. destruct (Hall r) as [Hsame|]; [|done]. rewrite Hsame. by apply Hok.
      * intros r'. destruct (Hall r') as [Hsame|]; [|by right]. rewrite Hsame. apply Hkeep.
    + exists l. split_and!; [done|by apply sublist_cons|done|].
      intros r'. destruct (Hall r') as [Hsame|]; [|by right]. rewrite Hsame. apply Hkeep.
Qed.

(** Nothing but the blob is kept under the token on these relays. *)
Definition only_blob (token : string) (blob : bytes) (relays : list string) (w : W) : Prop :=
  forall r, r ∈ relays -> held w r token = None \/ held w r token = Some blob.

Lemma first_blob_stored relays token blob err w b w' :
  only_blob token blob relays w -> first_blob relays token err w = (Ok b, w') -> b = blob.
Proof.
  revert err w. induction relays as [|r relays IH]; intros err w Ho; cbn [first_blob]; [done|].
  destruct (get_blob r token w) as [res w1] eqn:Hget. destruct (held_get _ _ _ _ _ Hget) as [Hb Hkeep].
  assert (only_blob token blob relays w1) as Ho1.
  { intros r' Hr'. destruct (Hkeep r') as [-> | ->]; [apply Ho; by right|by left]. }
  destruct res as [[b1|]|e]; [|by apply IH..]. intros [= -> ->]. destruct (Ho r) as [Hn|Hs]; [left| |].
  - by rewrite (Hb b eq_refl) in Hn.
  - rewrite (Hb b eq_refl) in Hs. by injection Hs.
Qed.

Lemma first_seen_from ns n : n ∈ first_seen ns -> n ∈ ns.
Proof.
  unfold first_seen. assert (forall acc, n ∈ foldl (fun acc n => if bool_decide (n ∈ acc) then acc else acc ++ [n]) acc ns -> n ∈ acc \/ n ∈ ns) as Hall.
  { induction ns as [|x ns IH]; intros acc; cbn; [by left|]. intros [Hin|Hin]%IH; [|right; by right].
    case_bool_decide; [by left|]. apply elem_of_app in Hin as [Hin|Hin%list_elem_of_singleton]; [by left|]. subst. right. by left. }
  intros [Hn%elem_of_nil|]%Hall; done.
Qed.

Definition minted_keys (agent : string) (ml_dsa kem : bytes) (dr : LinkDraw) (exp : N) : Prop :=
  hex_encode (derive_agent_id ml_dsa) = agent /\ lower_hex_64 agent = true /\ len ml_dsa = ML_DSA_PUBKEY_BYTES /\ len kem = ML_KEM_PUBKEY_BYTES /\
  len (ld_offer_nonce dr) = LINK_OFFER_NONCE_BYTES /\ len (ld_key dr) = AEAD_KEY_LEN /\ len (ld_nonce dr) = AEAD_NONCE_LEN /\ exp <> 0 /\
  Forall (fun b => b < 256) ml_dsa /\ Forall (fun b => b < 256) kem /\ Forall (fun b => b < 256) (ld_offer_nonce dr) /\
  b64url_decode (b64url_encode (ld_key dr)) = Some (ld_key dr).
Lemma minted_offer_valid agent ml_dsa kem dr exp : minted_keys agent ml_dsa kem dr exp ->
  validate_offer (mint_offer agent ml_dsa kem (ld_offer_nonce dr) exp) = Ok tt.
Proof.
  intros (Hid & Hhex & Hml & Hkem & Hn & _ & _ & Hexp & Bml & Bkem & Bn & _). unfold validate_offer, mint_offer.
  cbn [lo_agent_id_hex lo_agent_ml_dsa_pubkey_b64 lo_kem_pubkey_b64 lo_nonce_b64 lo_exp_ms]. rewrite Hhex. cbn [negb]. unfold decode_pubkey.
  rewrite !b64_decode_encode by done. rewrite Hml, Hkem, !N.eqb_refl. cbn iota beta. rewrite Hid, bool_decide_eq_true_2 by done. cbn [negb].
  rewrite Hn. cbn. by rewrite (proj2 (N.eqb_neq _ _) Hexp).
Qed.

End round_trip.

(** ** What is enrolled *)

Section enrolled.
  Context `{B6 : Base64, BU : Base64Url, SH : Sha256, ML : MlDsaBackend, UP : UrlParse, UE : UrlEdit, FU : FormUrl, OJ : OfferJson,
            CC : ChatCipher, CS : ChatSeal, PD : PairErrorDisplay, FJ : FabricJson, LD : LinkUriDisplay}.
  Context {W : Type} `{IP : IpDisplay, RN : RelayNet, RS : !RelayServer W}.

(** The offer a pointer leads to: sealed under its key, served by a relay it names, well formed. *)
Definition offered (parsed : LinkUri.ParsedLinkDeviceUri) (w : W) (offer : LinkDeviceOffer) (w1 : W) : Prop :=
  exists blob, first_blob (LinkUri.pl_relays parsed) (LinkUri.pl_token parsed) None w = (Ok blob, w1) /\
    open_offer blob (LinkUri.pl_key parsed) = Ok offer /\ validate_offer offer = Ok tt.

Lemma fetched_offered uri w offer w1 : fetch_link_offer uri w = (Ok offer, w1) ->
  exists parsed, LinkUri.parse_link_device_uri uri = Ok parsed /\ offered parsed w offer w1.
Proof.
  unfold fetch_link_offer, open_checked, offered. destruct (LinkUri.parse_link_device_uri uri) as [parsed|]; [|done].
  destruct (first_blob _ _ _ _) as [[blob|] w'] eqn:Hb; [|done]. destruct (open_offer _ _) as [o|] eqn:Ho; cbn iota beta; [|done].
  destruct (validate_offer o) as [[]|] eqn:Hv; [|done]. intros [= -> ->].
  exists parsed. split; [done|]. exists blob. by split_and!.
Qed.

Lemma append_minted user cert relays t io fb r fb' : append_and_mint_from_master (Ok user) cert relays t io fb = (Ok r, fb') ->
  exists current entry, fb_record fb = Some (Ok current) /\ device_entry_from_cert cert relays = Ok entry /\ fb_record fb' = Some (Ok r) /\
    p4_revision r = saturating_add u64_max (p4_revision current) 1 /\ p4_devices r = put_device entry (p4_devices current).
Proof.
  unfold append_and_mint_from_master, load_pair_record_v4, read_file. destruct (fb_record fb) as [[current|]|]; [|done..].
  destruct (device_entry_from_cert cert relays) as [entry|] eqn:He; [|done].
  unfold mint_and_cache_pair_record_v4_from_master, mint_pair_record_v4. cbn iota beta.
  destruct (mint_views _); [|done]. cbn iota beta. destruct (pair_record_v4_signing_input _ _ _ _ _); [|done].
  destruct (user_sign _ _); [|done]. cbn iota beta. unfold save_pair_record_v4. destruct io; [|done]. intros [= <- <-].
  exists current, entry. by split_and!.
Qed.

Lemma published_minted key cert relays relay rs t io fb w r fb' w' :
  append_publish_from_master key cert relays relay rs t io fb w = (Ok r, fb', w') ->
  append_and_mint_from_master key cert (if bool_decide (relays = []) then [rs] else relays) t io fb = (Ok r, fb').
Proof.
  unfold append_publish_from_master. destruct (append_and_mint_from_master _ _ _ _ _ _) as [[r0|] fb1]; [|done].
  by destruct (post_pair_record_v4 _ _ _) as [[[]|] ?]; intros [= -> -> _].
Qed.

Lemma confirmed_cert user offer now cert : confirm_offer_from_master (Ok user) offer now = Ok cert ->
  now < lo_exp_ms offer /\ exists ml kem, b64_decode (lo_agent_ml_dsa_pubkey_b64 offer) = Some ml /\ b64_decode (lo_kem_pubkey_b64 offer) = Some kem /\
    mint_agent_certificate user (lo_agent_id_hex offer) ml kem now = Ok cert /\ ac_agent_id_hex cert = lo_agent_id_hex offer /\
    ac_agent_ml_dsa_pubkey_b64 cert = b64_encode ml /\ ac_kem_pubkey_b64 cert = b64_encode kem.
Proof.
  unfold confirm_offer_from_master, is_expired. destruct (N.leb_spec (lo_exp_ms offer) now); [done|]. unfold decode_offer_keys, b64_or.
  destruct (b64_decode (lo_agent_ml_dsa_pubkey_b64 offer)) as [ml|]; [|done]. cbn iota beta.
  destruct (b64_decode (lo_kem_pubkey_b64 offer)) as [kem|]; [|done]. cbn iota beta. intros Hm. split; [done|]. exists ml, kem.
  split_and!; try done; revert Hm; unfold mint_agent_certificate; (case_bool_decide; [|done]); cbn iota beta delta [negb];
    (destruct (cert_signing_input _ _ _ _ _); [|done]); cbn iota beta; (destruct (user_sign _ _); [|done]); by intros [= <-].
Qed.

Lemma put_device_others e ds d : de_agent_id_hex d <> de_agent_id_hex e -> d ∈ put_device e ds <-> d ∈ ds.
Proof.
  intros Hd. induction ds as [|x ds IH]; cbn.
  - rewrite list_elem_of_singleton, elem_of_nil. by split; [intros ->|].
  - case_bool_decide as Hx; rewrite !elem_of_cons; [|by rewrite IH].
    split; (intros [->|?]; [done|by right]).
Qed.

(** C37: A device that enrols is the one of an offer: a relay of the scanned pointer served a blob that opens under the pointer's
    key to a well-formed offer that had not expired, whose agent id is that of its signing key; the account certified that key, and the certificate
    verifies under the account's; the cached device list is the account's, verifies, carries the device with its certificate and the relays it
    published to at the next revision, and is unchanged otherwise; the outcome names both. *)
Theorem enrolled_device_offered (user : UserKeypair) (master : result unit ChatError) (uri : string) (post_relay : Url) (post_relay_str : string)
    (now n : N) (io : result unit ChatError) (sink : DevicesGroupSink) (fb fb' : FabricStore) (w w' : W) (out : EnrollOutcome) :
  user_ok user -> (forall s raw, b64_decode s = Some raw -> Forall (fun b => b < 256) raw) -> list_valid user n fb -> n <= u64_max ->
  enroll_confirmed_device master (Ok user) uri post_relay post_relay_str now io sink fb w = (Ok out, fb', w') ->
  exists parsed offer w1 cert ml current record entry,
    LinkUri.parse_link_device_uri uri = Ok parsed /\ offered parsed w offer w1 /\ now < lo_exp_ms offer /\
    b64_decode (lo_agent_ml_dsa_pubkey_b64 offer) = Some ml /\ hex_encode (derive_agent_id ml) = lo_agent_id_hex offer /\
    ac_agent_id_hex cert = lo_agent_id_hex offer /\ verify_agent_certificate cert (uk_public user) = Ok tt /\
    fb_record fb = Some (Ok current) /\ fb_record fb' = Some (Ok record) /\ list_valid user n fb' /\
    p4_revision record = saturating_add u64_max (p4_revision current) 1 /\
    entry ∈ p4_devices record /\ de_agent_id_hex entry = lo_agent_id_hex offer /\
    device_entry_from_cert cert (if bool_decide (LinkUri.pl_relays parsed = []) then [post_relay_str] else LinkUri.pl_relays parsed) = Ok entry /\
    (forall d, de_agent_id_hex d <> lo_agent_id_hex offer -> d ∈ p4_devices record <-> d ∈ p4_devices current) /\
    eo_agent_id_hex out = lo_agent_id_hex offer /\ eo_record_revision out = p4_revision record.
Proof.
  intros Hu Hb64 Hlist Hn. unfold enroll_confirmed_device. destruct (LinkUri.parse_link_device_uri uri) as [parsed|] eqn:Hp; [|done].
  destruct (fetch_link_offer uri w) as [[offer|] w1] eqn:Hf; [|done]. apply fetched_offered in Hf as (parsed' & Hp' & Hoff).
  rewrite Hp in Hp'. injection Hp' as <-. destruct master; [|done]. unfold enroll_from_master.
  destruct (confirm_offer_from_master _ _ _) as [cert|] eqn:Hc; [|done].
  apply confirmed_cert in Hc as (Hexp & ml & kem & Hml & Hkem & Hmint & Hid & _).
  destruct (append_publish_from_master _ _ _ _ _ _ _ _ _) as [[[record|] fb1] w2] eqn:Ha; [|done]. apply published_minted in Ha.
  set (rl := if bool_decide (LinkUri.pl_relays parsed = []) then _ else _) in Ha |- *.
  pose proof (minted_cert_verifies _ _ _ _ _ _ Hu (Hb64 _ _ Hml) (Hb64 _ _ Hkem) Hmint) as Hv.
  pose proof (fabric_op_valid user (Enroll cert rl now io) n fb Hu Hn
    ltac:(intros ???? [= <- _ _ _]; by rewrite Hv) Hlist) as Hval. cbn [fabric_op] in Hval. rewrite Ha in Hval. destruct Hval as (Hval & _).
  apply append_minted in Ha as (current & entry & Hcur & He & Hrec & Hrev & Hds).
  assert (de_agent_id_hex entry = lo_agent_id_hex offer) as Hent
    by (revert He; unfold device_entry_from_cert; destruct (print_cert cert); [|done]; by intros [= <-]).
  unfold finish_enrollment. destruct (admit_device _ _ _) as [[adm|] w3]; [|done]. intros [= <- <- <-].
  exists parsed, offer, w1, cert, ml, current, record, entry. cbn [eo_agent_id_hex eo_record_revision]. split_and!; try done.
  - revert Hmint. unfold mint_agent_certificate. by case_bool_decide.
  - rewrite Hds. apply put_device_in.
  - intros d Hd. rewrite Hds. apply put_device_others. congruence.
Qed.

(** What is certified is not what was compared. Whoever saw the pointer (it holds the token and the key) may store
    another offer under its token; when the pointer's first relay serves what was stored last, confirming enrols the device of that offer, whatever
    the preview whose code was compared had shown. *)
Theorem enrollment_not_bound_to_code (uri relay : string) (rest : list string) (parsed : LinkUri.ParsedLinkDeviceUri) (preview : LinkOfferPreview)
    (theirs : LinkDeviceOffer) (nonce blob : bytes) (w0 w1 w2 w3 : W) (key : result UserKeypair ChatError) (post_relay : Url) (post_relay_str : string)
    (now : N) (io : result unit ChatError) (sink : DevicesGroupSink) (fb : FabricStore) `{LL : !LinkLaws} :
  LinkUri.parse_link_device_uri uri = Ok parsed -> LinkUri.pl_relays parsed = relay :: rest ->
  preview_link_offer uri now w0 = (Ok preview, w1) ->
  len nonce = AEAD_NONCE_LEN -> validate_offer theirs = Ok tt -> seal_offer (LinkUri.pl_key parsed) nonce theirs = Ok blob ->
  put_blob relay (LinkUri.pl_token parsed) blob w1 = (Ok tt, w2) ->
  get_blob relay (LinkUri.pl_token parsed) w2 = (Ok (Some blob), w3) ->
  enroll_confirmed_device (Ok tt) key uri post_relay post_relay_str now io sink fb w2
    = enroll_from_master key theirs (LinkUri.pl_relays parsed) post_relay post_relay_str now io sink fb w3.
Proof.
  intros Hp Hr _ Hn Hv Hs _ Hg. unfold enroll_confirmed_device, fetch_link_offer. rewrite Hp, Hr. cbn [first_blob]. rewrite Hg.
  unfold open_checked. rewrite (sealed_offer_opens _ _ _ _ Hn Hs). cbn iota beta. by rewrite Hv.
Qed.
End enrolled.

(** ** Admission of a sibling *)

Section admission.
  Context `{B6 : Base64, SH : Sha256, ML : MlDsaBackend, AS : AgentSigner, ED : ErrorDisplay}.

Lemma fabric_lp_split x y bx b_y (r s : bytes) : DeviceFabric.push_lp x = Ok bx -> DeviceFabric.push_lp y = Ok b_y ->
  bx ++ r = b_y ++ s -> x = y /\ r = s.
Proof.
  unfold DeviceFabric.push_lp. destruct (N.leb_spec (len x) u32_max); [|done]. destruct (N.leb_spec (len y) u32_max); [|done].
  intros <-%ok_inj <-%ok_inj. rewrite <- !app_assoc. intros Heq. apply app_inj_1 in Heq as [Hl Heq]; [|done].
  apply u32_be_inj in Hl; [|done..]. apply app_inj_1 in Heq; [done|]. unfold len in Hl. lia.
Qed.

(** A signature is over one group, one key package and one nonce. *)
Lemma sibling_input_inj g k n g' k' n' input : n <= u64_max -> n' <= u64_max ->
  sibling_join_signing_input g k n = Ok input -> sibling_join_signing_input g' k' n' = Ok input -> g' = g /\ k' = k /\ n' = n.
Proof.
  intros Hn Hn'. unfold sibling_join_signing_input.
  destruct (DeviceFabric.push_lp (ascii_bytes g)) as [bg|] eqn:Hg; [|done]. destruct (DeviceFabric.push_lp (ascii_bytes k)) as [bk|] eqn:Hk; [|done].
  destruct (DeviceFabric.push_lp (ascii_bytes g')) as [bg'|] eqn:Hg'; [|done].
  destruct (DeviceFabric.push_lp (ascii_bytes k')) as [bk'|] eqn:Hk'; [|done]. cbn iota beta. intros [= <-] [= Heq].
  destruct (fabric_lp_split _ _ _ _ _ _ Hg' Hg Heq) as [->%ascii_bytes_inj Heq1].
  destruct (fabric_lp_split _ _ _ _ _ _ Hk' Hk Heq1) as [->%ascii_bytes_inj Heq2]. by apply u64_be_inj in Heq2.
Qed.

(** What a request must show: a certificate of the account, for a device that is still listed with the same key, and a signature under that key
    of this group, this key package and this nonce. *)
Definition authorized (request : SiblingJoinRequest) (account : bytes) (devices : list DeviceEntryV4) : Prop :=
  verify_agent_certificate (sj_cert request) account = Ok tt /\
  (exists entry, entry ∈ devices /\ de_agent_id_hex entry = ac_agent_id_hex (sj_cert request) /\
     de_ml_dsa_pubkey_b64 entry = ac_agent_ml_dsa_pubkey_b64 (sj_cert request)) /\
  exists pk sig input, b64_decode (ac_agent_ml_dsa_pubkey_b64 (sj_cert request)) = Some pk /\ b64_decode (sj_sig_b64 request) = Some sig /\
    sibling_join_signing_input (sj_group_id_hex request) (sj_treekem_key_package_b64 request) (sj_nonce request) = Ok input /\
    mldsa_verify pk (agent_sign_input input) sig = Ok true.

Lemma ml_dsa65_verified pk m sig : verify_ml_dsa65 pk m sig = Ok tt -> mldsa_verify pk m sig = Ok true.
Proof. unfold verify_ml_dsa65. destruct (pk_from_bytes pk); [|done]. destruct (sig_from_bytes sig); [|done]. by destruct (mldsa_verify _ _ _) as [[]|]. Qed.

Lemma because_ok {A} what (r : result A ChatError) a : because what r = Ok a -> r = Ok a.
Proof. destruct r; [by intros [= ->]|done]. Qed.

Lemma authorize_sound request account devices treekem : authorize_sibling_admission request account devices treekem = Ok tt ->
  authorized request account devices /\ treekem = true.
Proof.
  unfold authorize_sibling_admission. destruct (because _ (verify_agent_certificate _ _)) as [[]|] eqn:Hc; [|done]. cbn iota beta.
  apply because_ok in Hc. destruct (List.find _ _) as [entry|] eqn:Hf; [|done]. apply List.find_some in Hf as [Hin Hid].
  apply bool_decide_eq_true in Hid. case_bool_decide as Hpk; [|done]. cbn [negb]. unfold b64_or.
  destruct (b64_decode (ac_agent_ml_dsa_pubkey_b64 _)) as [pk|] eqn:Hk; [|done]. cbn iota beta.
  destruct (b64_decode (sj_sig_b64 _)) as [sig|] eqn:Hs; [|done]. cbn iota beta.
  destruct (sibling_join_signing_input _ _ _) as [input|] eqn:Hi; [|done]. cbn iota beta.
  destruct (because _ (verify_ml_dsa65 _ _ _)) as [[]|] eqn:Hv; [|done]. cbn iota beta. apply because_ok, ml_dsa65_verified in Hv.
  destruct treekem; [|done]. intros _. split; [|done]. split; [done|]. split.
  - exists entry. by rewrite list_elem_of_In.
  - exists pk, sig, input. by split_and!.
Qed.

(** [SiblingGroupAdder] with every call it gets written down. *)
Definition traced {W} (add : string -> string -> string -> W -> result bool ChatError * W) (g a k : string) (s : W * list (string * string * string))
    : result bool ChatError * (W * list (string * string * string)) :=
  let '(r, w) := add g a k s.1 in (r, (w, s.2 ++ [(g, a, k)])).

(** C39: Handling a sibling's request adds a device to a group at most once, and only the device the request's certificate
    names, to the group it names, with its key package: the certificate chains to this account, the device is still in the account's list under the
    certified key, the request is signed by that key (a signature that fits no other group, key package or nonce), the group is on the TreeKEM plane and
    the nonce is above the one last admitted. Otherwise nothing is touched. *)
Theorem sibling_added_only_authorized {W} (add : string -> string -> string -> W -> result bool ChatError * W) (request : SiblingJoinRequest)
    (account : bytes) (devices : list DeviceEntryV4) (treekem : bool) (admitted_nonce : option N) (w w' : W)
    (calls : list (string * string * string)) (res : result AdmitOutcome ChatError) :
  sj_nonce request <= u64_max ->
  handle_sibling_join_request (traced add) request account devices treekem admitted_nonce (w, []) = (res, (w', calls)) ->
  (calls = [] /\ w' = w /\ (forall o, res = Ok o -> o = AlreadyAdmitted)) \/
  (calls = [(sj_group_id_hex request, ac_agent_id_hex (sj_cert request), sj_treekem_key_package_b64 request)] /\
   authorized request account devices /\ treekem = true /\ (forall seen, admitted_nonce = Some seen -> seen < sj_nonce request) /\
   (forall g k n input, n <= u64_max -> sibling_join_signing_input g k n = Ok input ->
      sibling_join_signing_input (sj_group_id_hex request) (sj_treekem_key_package_b64 request) (sj_nonce request) = Ok input ->
      (g, k, n) = (sj_group_id_hex request, sj_treekem_key_package_b64 request, sj_nonce request))).
Proof.
  intros Hn. unfold handle_sibling_join_request. destruct (authorize_sibling_admission _ _ _ _) as [[]|] eqn:Ha.
  2: { intros [= <- <- <-]. left. by split_and!. }
  apply authorize_sound in Ha as [Ha Ht]. destruct (match admitted_nonce with Some seen => _ | None => false end) eqn:Hseen.
  { intros [= <- <- <-]. left. split_and!; try done. by intros o [= <-]. }
  unfold traced. cbn [fst snd app]. destruct (add _ _ _ w) as [r w1]. intros Hres. right.
  assert (calls = [(sj_group_id_hex request, ac_agent_id_hex (sj_cert request), sj_treekem_key_package_b64 request)]) as ->
    by (destruct r; by injection Hres as _ _ <-).
  split_and!; try done.
  - intros seen ->. by apply N.leb_gt.
  - intros g k n input Hn' Hi Hi'. destruct (sibling_input_inj _ _ _ _ _ _ _ Hn Hn' Hi' Hi) as (-> & -> & ->). done.
Qed.

(** A listed device's own request is let through to the group. *)
Lemma honest_sibling_authorized request account devices entry pk :
  (forall m sig, signer_sign m = Ok sig -> Forall (fun b => b < 256) sig /\ pk_from_bytes pk = Ok tt /\ sig_from_bytes sig = Ok tt /\
     mldsa_verify pk (agent_sign_input m) sig = Ok true) ->
  verify_agent_certificate (sj_cert request) account = Ok tt ->
  b64_decode (ac_agent_ml_dsa_pubkey_b64 (sj_cert request)) = Some pk ->
  List.find (fun d => bool_decide (de_agent_id_hex d = ac_agent_id_hex (sj_cert request))) devices = Some entry ->
  de_ml_dsa_pubkey_b64 entry = ac_agent_ml_dsa_pubkey_b64 (sj_cert request) ->
  sign_sibling_join_request (sj_group_id_hex request) (sj_treekem_key_package_b64 request) (sj_nonce request) = Ok (sj_sig_b64 request) ->
  authorize_sibling_admission request account devices true = Ok tt.
Proof.
  intros Hsign Hc Hpk Hf He. unfold sign_sibling_join_request, authorize_sibling_admission. rewrite Hc, Hf. cbn [because].
  rewrite bool_decide_eq_true_2 by done. cbn [negb]. unfold b64_or. rewrite Hpk. cbn iota beta.
  destruct (sibling_join_signing_input _ _ _) as [input|]; [|done]. cbn iota beta. destruct (signer_sign input) as [sig|] eqn:Hs; [|done].
  intros [= <-]. destruct (Hsign _ _ Hs) as (Hb & Hp & Hsp & Hv). rewrite b64_decode_encode by done. cbn iota beta.
  unfold verify_ml_dsa65. by rewrite Hp, Hsp, Hv.
Qed.
End admission.

(** ** Witnesses *)

(** Letters for base64url, the fragment of a pointer before its query, a hash that adds up, a seal that shows its key. *)
Definition ld_letter (b : N) : bool := (97 <=? b) && (b <=? 122).
#[local] Instance ld_b64url : Base64Url :=
  {| b64url_encode raw := chars ((fun b => b mod 26 + 97) <$> raw);
     b64url_decode s := if forallb ld_letter (ascii_bytes s) then Some ((fun b => b - 97) <$> ascii_bytes s) else None |}.
Definition link_url (path : string) (q f : option string) : Url := Build_Url "fetchit" (Some "link"%string) None "" None path q f.
#[local] Instance ld_parse : UrlParse := fun s =>
  match strip_prefix "fetchit://link/" s with
  | Some rest =>
      match split_once "#" rest with
      | Some (p, fq) => match split_once "?" fq with
                        | Some (f, q) => Some (link_url ("/" +:+ p) (Some q) (Some f))
                        | None => Some (link_url ("/" +:+ p) None (Some fq))
                        end
      | None => Some (link_url ("/" +:+ rest) None None)
      end
  | None => match split_once ":" s with Some (a, _) => Some (web a) | None => None end
  end.
#[local] Instance ld_edit : UrlEdit :=
  {| url_set_scheme := fun _ _ => None; url_set_host u _ := Some u;
     url_to_string u := if bool_decide (url_scheme u = "fetchit"%string)
                        then "fetchit://link" +:+ url_path u +:+ "#" +:+ default EmptyString (url_fragment u)
                             +:+ "?" +:+ default EmptyString (url_query u)
                        else url_scheme u +:+ "://h/" |}.
#[local] Existing Instances su_form sized_base64 demo_mldsa fb_display fb_json fb_ip fb_net.
#[local] Instance ld_sha : Sha256 := fun b => (foldr N.add 0 b mod 256) :: replicate 31 0.
#[local] Instance ld_cipher : ChatCipher :=
  {| mlkem_decapsulate := fun _ ct => Ok ct; hkdf_sha256 := fun s _ => s;
     chacha_open k _ ct _ := if bool_decide (take (length k) ct = k) then Some (drop (length k) ct) else None |}.
#[local] Instance ld_seal : ChatSeal := {| mlkem_encapsulate := fun _ seed => Ok (seed, seed); chacha_seal k _ p _ := Ok (k ++ p) |}.
#[local] Instance ld_uri_display : LinkUriDisplay := fun _ => EmptyString.
#[local] Instance ld_errors : ErrorDisplay := fun _ => EmptyString.

(** Two offers, and JSON that writes these. *)
Definition ld_kem : bytes := replicate 1184 4.
Definition laptop_key : bytes := replicate 1952 3.
Definition thief_key : bytes := replicate 1952 2.
Definition ld_draw : LinkDraw := {| ld_offer_nonce := replicate 16 1; ld_key := replicate 32 9; ld_nonce := replicate 12 7; ld_token := replicate 24 2 |}.
Definition ld_agent (pk : bytes) : string := hex_encode (derive_agent_id pk).
Definition ld_offer (pk : bytes) : LinkDeviceOffer := mint_offer (ld_agent pk) pk ld_kem (replicate 16 1) 1000.
#[local] Instance offer_eq_dec : EqDecision LinkDeviceOffer.
Proof. solve_decision. Defined.
#[local] Instance ld_json : OfferJson :=
  {| print_offer o := if bool_decide (o = ld_offer laptop_key) then Ok [1] else if bool_decide (o = ld_offer thief_key) then Ok [2] else Err "offer"%string;
     parse_offer b := match b with [1] => Ok (ld_offer laptop_key) | [2] => Ok (ld_offer thief_key) | _ => Err "offer"%string end |}.

Lemma letters_lack c s : ld_letter (N_of_ascii c) = false -> forallb ld_letter (ascii_bytes s) = true -> lacks c s.
Proof.
  intros Hc. induction s as [|a s IH]; [intros _; apply not_elem_of_nil|]. cbn. intros [Ha Hs]%andb_prop. apply lacks_cons.
  split; [|by apply IH]. intros ->. by rewrite Hc in Ha.
Qed.
Lemma encoded_letters raw : forallb ld_letter (ascii_bytes (b64url_encode raw)) = true.
Proof.
  change (b64url_encode raw) with (chars ((fun b => b mod 26 + 97) <$> raw)). rewrite ascii_bytes_chars.
  - apply forallb_forall. intros b. rewrite <- list_elem_of_In. intros (x & -> & _)%list_elem_of_fmap. unfold ld_letter.
    pose proof (N.mod_lt x 26 ltac:(done)) as Hm. revert Hm. generalize (x mod 26). intros m Hm. apply andb_true_intro. split; apply N.leb_le; lia.
  - apply Forall_fmap, Forall_forall. intros x _. unfold compose. pose proof (N.mod_lt x 26 ltac:(done)) as Hm. revert Hm. generalize (x mod 26). intros m Hm. lia.
Qed.

#[local] Instance ld_laws : LinkLaws.
Proof.
  split.
  - intros k n p a c [= <-]. cbn -[bool_decide take drop]. by rewrite take_app_length, drop_app_length, bool_decide_true.
  - intros o b. unfold print_offer, parse_offer, ld_json. destruct (bool_decide_reflect (o = ld_offer laptop_key)) as [->|_]; [by intros <-%ok_inj|].
    destruct (bool_decide_reflect (o = ld_offer thief_key)) as [->|_]; [by intros <-%ok_inj|done].
  - apply su_parse_print.
  - intros token [raw Hraw]. exists (link_url ("/v1/" +:+ token) None None). split; [|done].
    change (LinkUri.link_base token) with ("fetchit://link/" +:+ ("v1/" +:+ token)). unfold url_parse, ld_parse. rewrite strip_prefix_app.
    cbn -[bool_decide forallb] in Hraw. destruct (forallb ld_letter (ascii_bytes token)) eqn:Hl; [|done].
    rewrite lacks_split_once; [done|]. apply lacks_app; [apply (bool_decide_unpack _); by vm_compute|]. by apply letters_lack.
  - intros token u pairs k [raw Hraw]. change (LinkUri.link_base token) with ("fetchit://link/" +:+ ("v1/" +:+ token)).
    unfold url_parse at 1, ld_parse at 1. rewrite strip_prefix_app. cbn -[bool_decide forallb] in Hraw.
    destruct (forallb ld_letter (ascii_bytes token)) eqn:Hl; [|done].
    assert (lacks "#" ("v1/" +:+ token)) as Hh by (apply lacks_app; [apply (bool_decide_unpack _); by vm_compute|by apply letters_lack]).
    rewrite lacks_split_once by done. intros [= <-]. cbn zeta. set (f := "k=" +:+ b64url_encode k).
    change (url_to_string _) with ("fetchit://link/" +:+ (("v1/" +:+ token) +:+ String "#" (f +:+ String "?" (form_print pairs)))).
    unfold url_parse, ld_parse. rewrite strip_prefix_app, split_once_app by done.
    rewrite split_once_app; [done|]. apply lacks_app; [apply (bool_decide_unpack _); by vm_compute|].
    apply letters_lack; [done|]. apply encoded_letters.
  - done.
Qed.

(** A relay with the blob store, its clock standing still. *)
#[local] Instance ld_server : RelayServer (gmap string Blob.StoredBlob) :=
  {| url_join u p := Ok (Build_Url (url_scheme u) (url_host_str u) None "" None p None None);
     serve u body s :=
       let answer st chunks := fun _ : nat => Ok {| rp_status := st; rp_content_length := None; rp_chunks := chunks |} in
       match strip_prefix "v1/blob/" (url_path u), body with
       | Some token, PostSealed b => let '(st, s) := Blob.post_blob (fun _ _ => true) token b 0 s in (answer st [], s)
       | Some token, GetRequest => match Blob.get_blob token 0 s with
                                   | (Ok b, s) => (answer 200 [Ok b], s)
                                   | (Err st, s) => (answer st [], s)
                                   end
       | _, PostPairV4 _ => (answer 200 [], s)
       | _, _ => (answer 404 [], s)
       end;
     local_relays_allowed := true |}.

Lemma answered_once (resp : Response) : relay_send_with_retry (fun _ => Ok resp) = (Ok resp, 1, 0).
Proof. done. Qed.
(** The blob requests of that relay's clients: its routes, one attempt each. *)
Lemma ld_put relay token blob (w : gmap string Blob.StoredBlob) :
  put_blob relay token blob w =
  match url_parse relay with
  | None => (Err (Invalid "relay url"), w)
  | Some _ => let '(st, w') := Blob.post_blob (fun _ _ => true) token blob 0 w in
              (if (200 <=? st) && (st <? 300) then Ok tt else Err (Invalid ("relay returned " +:+ pretty st +:+ " storing link blob")), w')
  end.
Proof.
  unfold put_blob, blob_request. destruct (url_parse relay) as [u|]; [|done]. unfold relay_request. cbn [guard_relay_url_with local_relays_allowed ld_server url_join serve url_path].
  rewrite strip_prefix_app. by destruct (Blob.post_blob _ _ _ _ _) as [st w'].
Qed.
Lemma ld_get relay token (w : gmap string Blob.StoredBlob) b w' :
  get_blob relay token w = (Ok (Some b), w') -> Blob.get_blob token 0 w = (Ok b, w').
Proof.
  unfold get_blob, blob_request. destruct (url_parse relay) as [u|]; [|done]. unfold relay_request. cbn [guard_relay_url_with local_relays_allowed ld_server url_join serve url_path].
  rewrite strip_prefix_app. unfold Blob.get_blob. destruct (negb _); [done|]. destruct (Blob.get _ _ _) as [[ct|] w1]; [|done].
  rewrite answered_once. cbn -[read_body_capped MAX_LINK_BLOB_BYTES]. destruct (read_body_capped _ _) as [body|] eqn:Hr; [|done]. intros [= <- <-].
  apply read_body_bounded in Hr as (parts & Hp & -> & _). destruct parts as [|x [|]]; try done. injection Hp as <-. cbn. by rewrite app_nil_r.
Qed.
Lemma ld_get_keeps relay token (w : gmap string Blob.StoredBlob) : (get_blob relay token w).2 = w \/ (get_blob relay token w).2 = delete token w.
Proof.
  unfold get_blob, blob_request. destruct (url_parse relay) as [u|]; [|by left]. unfold relay_request. cbn [guard_relay_url_with local_relays_allowed ld_server url_join serve url_path].
  rewrite strip_prefix_app. unfold Blob.get_blob. destruct (negb _); [by left|]. pose proof (Blob.get_entry token 0 w) as Hg.
  destruct (Blob.get token 0 w) as [[ct|] w1]; cbn in Hg |- *; destruct Hg as [->|(_ & _ & _ & ->)]; auto.
Qed.
#[local] Instance ld_blobs : BlobRelays (gmap string Blob.StoredBlob).
Proof.
  refine {| held w _ token := Blob.sb_ciphertext <$> (w : gmap string Blob.StoredBlob) !! token |}.
  - intros relay token blob w res w'. rewrite ld_put. destruct (url_parse relay); [|intros [= <- <-]; split; [done|by left]].
    unfold Blob.post_blob. destruct (_ <? len blob); [intros [= <- <-]; split; [done|by left]|].
    destruct (Blob.valid_token token); [|intros [= <- <-]; split; [done|by left]]. cbn [negb]. intros [= <- <-]. unfold Blob.put.
    split; intros; [|right]; by rewrite lookup_insert_eq.
  - intros relay token w res w' Hg. split.
    + intros b ->. apply ld_get in Hg. unfold Blob.get_blob in Hg. destruct (negb _); [done|]. unfold Blob.get in Hg.
      destruct (w !! token) as [sb|]; [|done]. destruct (_ <? _); [|by destruct (_ <=? _)]. by injection Hg as <- _.
    + intros r. pose proof (ld_get_keeps relay token w) as Hk. rewrite Hg in Hk. cbn [snd] in Hk. destruct Hk as [->| ->]; [by left|right]. cbn. by rewrite lookup_delete_eq.
  - done.
Defined.

Definition ld_created := create_link_offer (ld_agent laptop_key) laptop_key ld_kem ["https://h"%string] 1000 ld_draw ∅.
Definition ld_uri : string := match ld_created.1 with Ok c => cl_uri c | Err _ => EmptyString end.
Definition ld_pointer : LinkUri.ParsedLinkDeviceUri := LinkUri.mkParsed (b64url_encode (ld_token ld_draw)) ["https://h"%string] (ld_key ld_draw).
Definition ld_blob (pk : bytes) : bytes :=
  match seal_offer (ld_key ld_draw) (ld_nonce ld_draw) (ld_offer pk) with Ok b => b | Err _ => [] end.
Definition home_device : DeviceEntryV4 :=
  {| de_agent_id_hex := ld_agent [1]; de_ml_dsa_pubkey_b64 := b64_encode [1]; de_kem_pubkey_b64 := b64_encode [8];
     de_advertised_relays := ["https://r"%string]; de_cert_b64 := b64_encode []; de_added_at_ms := 3; de_primary := true |}.
Definition home_record : PairRecordV4 :=
  {| p4_record_version := 4; p4_user_id_hex := user_id_hex owner; p4_user_ml_dsa_pubkey_b64 := b64_encode [5; 6]; p4_revision := 1;
     p4_issued_at_ms := 9; p4_devices := [home_device]; p4_user_signature_b64 := b64_encode [5; 6] |}.
Definition home_files : FabricStore := mkFabric None (Some (Ok home_record)) ∅.
#[local] Notation enrol_at now w :=
  (enroll_confirmed_device (Ok tt) (Ok owner) ld_uri some_relay "https://r" now (Ok tt) PendingDevicesGroupSink home_files w).

(** Both sides of an equation run to the same value. *)
Ltac by_run := match goal with |- ?a = ?b => vm_cast_no_check (@eq_refl _ b) end.


Lemma home_list_valid : list_valid owner 1 home_files.
Proof. exists home_record. split_and!; by vm_compute. Qed.
Lemma sized_base64_bytes s raw : b64_decode s = Some raw -> Forall (fun b => b < 256) raw.
Proof.
  cbn. assert (Forall (fun b => b < 256) (ascii_bytes s)) as Hs by (induction s; constructor; [apply N_ascii_bounded|done]).
  induction Hs as [|b l Hb Hl IH]; cbn; [by intros [= <-]|]. destruct b; [done|]. by intros [= <-].
Qed.

(** The laptop is enrolled next to the one device there is. *)
Lemma enrolled_device_offered_witness : exists out fb' w' record,
  enrol_at 5 ld_created.2 = (Ok out, fb', w') /\ fb_record fb' = Some (Ok record) /\ p4_revision record = 2 /\
  eo_agent_id_hex out = ld_agent laptop_key /\ home_device ∈ p4_devices record.
Proof.
  assert (match enrol_at 5 ld_created.2 with (Ok out, _, _) => bool_decide (eo_agent_id_hex out = ld_agent laptop_key) | _ => false end = true) as Hok
    by by_run.
  destruct (enrol_at 5 ld_created.2) as [[[out|] fb'] w'] eqn:E; [|done]. apply bool_decide_eq_true in Hok.
  destruct (enrolled_device_offered owner (Ok tt) ld_uri some_relay "https://r" 5 1 (Ok tt) PendingDevicesGroupSink home_files fb' ld_created.2 w' out
    owner_ok sized_base64_bytes home_list_valid ltac:(done) E)
    as (parsed & offer & w1 & cert & ml & current & record & entry & _ & _ & _ & _ & _ & _ & _ & Hc & Hr & _ & Hrev & _ & _ & _ & Hothers & Hout & _).
  injection Hc as <-. exists out, fb', w', record.
  split; [reflexivity|]. split; [exact Hr|]. split; [by rewrite Hrev|]. split; [exact Hok|].
  apply Hothers; [|left]. rewrite <- Hout, Hok. by vm_compute.
Defined.

(** The thief, who saw the pointer, stores another offer after the codes were compared, and is the device that is certified. *)
Lemma enrollment_not_bound_to_code_witness : exists preview w1 w2 out fb' w',
  preview_link_offer ld_uri 5 ld_created.2 = (Ok preview, w1) /\ lp_agent_id_hex preview = ld_agent laptop_key /\
  put_blob "https://h" (LinkUri.pl_token ld_pointer) (ld_blob thief_key) w1 = (Ok tt, w2) /\
  enrol_at 5 w2 = (Ok out, fb', w') /\ eo_agent_id_hex out = ld_agent thief_key /\ ld_agent thief_key <> ld_agent laptop_key /\
  lp_short_code preview <> short_code (ld_offer thief_key).
Proof.
  set (w2 := (put_blob "https://h" (LinkUri.pl_token ld_pointer) (ld_blob thief_key) ld_created.2).2).
  set (preview := {| lp_agent_id_hex := ld_agent laptop_key; lp_short_code := short_code (ld_offer laptop_key); lp_expired := false |}).
  assert (match enroll_from_master (Ok owner) (ld_offer thief_key) ["https://h"%string] some_relay "https://r" 5 (Ok tt) PendingDevicesGroupSink
    home_files w2 with (Ok out, _, _) => bool_decide (eo_agent_id_hex out = ld_agent thief_key) | _ => false end = true) as Hok by by_run.
  destruct (enroll_from_master _ _ _ _ _ _ _ _ _ _) as [[[out|] fb'] w'] eqn:E; [|done]. apply bool_decide_eq_true in Hok.
  exists preview, ld_created.2, w2, out, fb', w'.
  split; [by_run|]. split; [reflexivity|]. split; [by_run|]. split; [|split; [exact Hok|split; by vm_compute]].
  rewrite <- E. apply (enrollment_not_bound_to_code ld_uri "https://h" [] ld_pointer preview (ld_offer thief_key) (replicate 12 7) (ld_blob thief_key)
    ld_created.2 ld_created.2 w2 w2); first [exact ld_laws|by_run].
Defined.

(** A listed device asks to join a group of the account. *)
#[local] Instance ld_signer : AgentSigner := {| signer_public_key := [1]; signer_sign := fun _ => Ok [1] |}.
Definition home_cert : AgentCertificate :=
  {| ac_cert_version := 1; ac_user_id_hex := user_id_hex owner; ac_agent_id_hex := ld_agent [1]; ac_agent_ml_dsa_pubkey_b64 := b64_encode [1];
     ac_kem_pubkey_b64 := b64_encode [8]; ac_added_at_ms := 3; ac_sig_b64 := b64_encode [5; 6] |}.
Definition join_request (nonce : N) : SiblingJoinRequest :=
  {| sj_group_id_hex := "ab"; sj_treekem_key_package_b64 := "kp"; sj_cert := home_cert; sj_nonce := nonce; sj_sig_b64 := b64_encode [1] |}.
Definition add_ok (g a k : string) (w : N) : result bool ChatError * N := (Ok true, w + 1).
Lemma sibling_added_only_authorized_witness :
  handle_sibling_join_request (traced add_ok) (join_request 7) [5; 6] [home_device] true (Some 6) (0, [])
    = (Ok NewlyAdmitted, (1, [("ab"%string, ld_agent [1], "kp"%string)])) /\
  authorized (join_request 7) [5; 6] [home_device] /\
  (handle_sibling_join_request (traced add_ok) (join_request 6) [5; 6] [home_device] true (Some 6) (0, [])).1 = Ok AlreadyAdmitted.
Proof.
  split; [by vm_compute|]. split; [|by vm_compute].
  destruct (sibling_added_only_authorized add_ok (join_request 7) [5; 6] [home_device] true (Some 6) 0 1
    [("ab"%string, ld_agent [1], "kp"%string)] (Ok NewlyAdmitted)) as [[[=] _]|(_ & Ha & _)]; [by vm_compute..|done].
Defined.
