(* ===== verification/TrustGates.v ===== *)
(** * The denylist at the gates

    Composes the trust service and its consumer ([Trust]) with the gates that query the
    consumer: the endpoint's direct and group sends ([DmSend], [GroupMsg]), the chat
    client's actor gate and the bridge's.  The multi-home transport has such a gate too
    ([MultiHome]); the client builds it with a query that blocks nothing, so it is only
    shown what that gate would miss. *)
From S2P Require Import Prelude SendState Attachment Bubble OutboxStore OutboxDriver Overlay SeqGap RelayProto RelayAuth.
From S2P Require Import Transit TransitSqlite Session PairRecord PairIndex RelayWs RelayHttp Conversation ConvRegistry ContactCard Inbound Outbound DeviceFabric.
From S2P Require Import Publish PendingJoin Pairing MultiHome DmLookup Endpoint DmSend Daemon GroupMsg ShareUri Text Trust.
Open Scope rust_scope.

(** [impl DenylistQuery for DenylistConsumer], for the two kinds the transport asks about. *)
Definition consumer_query (c : Consumer) : DenylistQuery :=
  {| url_blocked := fun v => consumer_is_blocked RelayUrl v c; agent_blocked := fun v => consumer_is_blocked AgentIdKind v c |}.

(** The denylist as the endpoint is given it: [DenylistQueryAdapter] over the consumer. *)
Definition consumer_gate (c : Consumer) : option (nat -> string -> bool) :=
  Some (fun _ => adapter_is_blocked (fun kind v => consumer_is_blocked kind v c)).

Lemma retained blocked i targets t :
  t ∈ retain_undenylisted_targets (Some (fun _ => blocked)) i targets <-> t ∈ targets /\ blocked (ft_agent t) = false.
Proof.
  revert i. induction targets as [|x targets IH]; intros i; cbn; [set_solver|].
  destruct (blocked (ft_agent x)) eqn:Hx; [rewrite IH|rewrite elem_of_cons, IH]; rewrite elem_of_cons.
  - split; [naive_solver|]. intros [[->|?] ?]; [congruence|done].
  - split; [|naive_solver]. intros [->|[? ?]]; [by split; [left|]|by split; [right|]].
Qed.

Lemma none_blocked blocked local i roster :
  first_blocked (fun _ => blocked) local i roster = None <->
  forall m, m ∈ roster -> eq_ignore_ascii_case m local = false -> blocked (to_ascii_lowercase m) = false.
Proof.
  revert i. induction roster as [|x roster IH]; intros i; cbn; [split; [by intros _ m ?%elem_of_nil|done]|].
  setoid_rewrite elem_of_cons. destruct (eq_ignore_ascii_case x local) eqn:Hx.
  { rewrite IH. split; [intros Hall m [->|Hm] Hs; [congruence|by apply Hall]|by eauto]. }
  destruct (blocked (to_ascii_lowercase x)) eqn:Hb.
  - split; [done|]. intros Hall. specialize (Hall x (or_introl eq_refl) Hx). congruence.
  - rewrite IH. split; [by intros Hall m [->|Hm] Hs; [|apply Hall]|by eauto].
Qed.

Section group_gate.
  Context `{Base64, Base64Url, Sha256, MlDsaBackend, UrlParse, UrlEdit, FormUrl, PairErrorDisplay, PairBodies}.
  Context `{EnvelopeCodec, AgentSigner, FrameCodec, GroupBodyJson, ErrorDisplay, StatusText}.
  Context `{VaultIO} `{HB : !HashIter string OutboxBubble}.
  Context `{BodyText, StatusLine, UrlJoin, DaemonJson, GroupsJson}.
  Context {W : Type} `{IpDisplay, RelayNet, HS : !RelayServer W, HN : !DaemonNet W}.
  Context (en : Endpoint W).

(** Who a fan-out hands over to. *)
Lemma fan_out_addressees group_id body env sealed io roster acc s r s' :
  fan_out en group_id body env sealed io roster acc s = (r, s') ->
  exists hs, st_trace s' = st_trace s ++ hs /\
    Forall (fun h => ho_to h ∈ roster /\ eq_ignore_ascii_case (ho_to h) (own_agent en) = false) hs.
Proof.
  revert acc s. induction roster as [|m roster IH]; intros acc s; cbn [fan_out].
  { intros [= <- <-]. exists []. by rewrite app_nil_r. }
  unfold bind at 1. destruct (fan_member en _ _ _ _ _ m acc s) as [r1 s1] eqn:Hm.
  assert (exists acc1 hs, r1 = Ok acc1 /\ st_trace s1 = st_trace s ++ hs /\
    Forall (fun h => ho_to h = m /\ eq_ignore_ascii_case m (own_agent en) = false) hs) as (acc1 & h1 & -> & Ht1 & Hf1).
  { revert Hm. unfold fan_member. destruct (eq_ignore_ascii_case m (own_agent en)) eqn:Hself.
    { intros [= <- <-]. exists acc, []. by rewrite app_nil_r. }
    unfold bind at 1, read at 1. unfold bind at 1, catch at 1. destruct (hand_over en m _ _ s) as [sent s2] eqn:Hh.
    apply hand_over_spec in Hh as (_ & _ & Ht). set (h := mkHand _ _ _ _) in Ht.
    assert (Forall (fun h => ho_to h = m /\ false = false) [h]) by by repeat constructor.
    destruct sent as [receipt|e]; [intros [= <- <-]; by eexists _, [h]|]. unfold bind at 1, read at 1.
    destruct sealed as [frame|]; [|intros [= <- <-]; by eexists _, [h]].
    destruct (is_some _); [|intros [= <- <-]; by eexists _, [h]]. unfold bind at 1. rewrite on_outbox_run.
    intros [= <- <-]. by eexists _, [h]. }
  intros (h2 & Ht2 & Hf2)%IH. exists (h1 ++ h2). rewrite Ht2, Ht1, app_assoc. split; [done|]. apply Forall_app. split.
  - eapply Forall_impl; [exact Hf1|]. cbn. intros h [-> ?]. split; [by left|done].
  - eapply Forall_impl; [exact Hf2|]. cbn. intros h [? ?]. split; [by right|done].
Qed.

(** A private group message goes to nobody while the gate blocks another member. *)
Lemma group_send_unblocked blocked group_id body name io s r s' :
  en_denylist en = Some (fun _ => blocked) ->
  send_private_group en group_id body name io s = (r, s') ->
  exists hs, st_trace s' = st_trace s ++ hs /\ Forall (fun h => blocked (to_ascii_lowercase (ho_to h)) = false) hs.
Proof.
  intros Hd. assert (forall e s1, st_trace s1 = st_trace s -> (Err e, s1) = (r, s') ->
    exists hs, st_trace s' = st_trace s ++ hs /\ Forall (fun h => blocked (to_ascii_lowercase (ho_to h)) = false) hs) as Hstop.
  { intros e s1 Ht [= <- <-]. exists []. by rewrite app_nil_r. }
  unfold send_private_group. destruct (bool_decide _); [by apply Hstop|].
  unfold bind at 1, of_result at 1. destruct (parse_group_id_hex group_id) as [gidb|]; [|by apply Hstop].
  unfold bind at 1, read at 1. destruct (url_parse _) as [base|]; [|by apply Hstop].
  unfold bind at 1. destruct (next_send_seq group_id s) as [sq s0] eqn:Hseq.
  apply next_seq_spec in Hseq as (seq & -> & _ & _ & _ & Ht0 & _).
  unfold bind at 1, on_net at 1. destruct (SecureGroups.encrypt _ _ _ _) as [[frame|] w1]; [|by apply Hstop].
  unfold bind at 1, of_result at 1. unfold bind at 1, of_result at 1.
  destruct (build_private_group_envelope en frame gidb (gs_now io)) as [env|]; [|by apply Hstop].
  unfold bind at 1, of_result at 1. destruct (group_id_parse group_id) as [gid|]; [|by apply Hstop].
  unfold bind at 1, daemon, bind at 1, on_net at 1, of_result at 1. cbn [st_net].
  destruct (Groups.members gid w1) as [[raw|] w2]; [|by apply Hstop]. rewrite Hd.
  destruct (first_blocked _ _ _ _) eqn:Hfb; [by apply Hstop|]. unfold bind at 1.
  destruct (fan_out en _ _ _ _ _ _ _ _) as [q s1] eqn:Hf. apply fan_out_addressees in Hf as (hs & Ht & Hall).
  cbn [st_trace] in Ht. rewrite Ht0 in Ht. pose proof (proj1 (none_blocked _ _ _ _) Hfb) as Hnone. clear Hfb.
  assert (Forall (fun h => blocked (to_ascii_lowercase (ho_to h)) = false) hs) as Hok.
  { eapply Forall_impl; [exact Hall|]. cbn. intros h [Hin Hself]. by apply Hnone. }
  destruct q as [acc|e]; [|intros [= <- <-]; by exists hs].
  destruct (_ && _ && _); [intros [= <- <-]; by exists hs|].
  unfold persist_own_group_message. run_monad. destruct (mutate_in_place_or_init _ _ _ _ _) as [v r2].
  intros [= <- <-]. by exists hs.
Qed.
End group_gate.

Section gates.
  Context `{Base64, Base64Url, Sha256, MlDsaBackend, UrlParse, UrlEdit, FormUrl, PairErrorDisplay, PairBodies, FabricJson}.
  Context `{EnvelopeCodec, ChatCipher, ChatSeal, PayloadPrint, AgentSigner, FrameCodec, GroupBodyJson, ErrorDisplay, StatusText}.
  Context `{VaultIO} `{HB : !HashIter string OutboxBubble} `{HF : !HashIter string N}.
  Context `{HC : !HashIter string Conversation} `{HD : !HashIter string (result Conversation ChatError)}.
  Context `{BodyText, StatusLine, UrlJoin, DaemonJson, GroupsJson}.
  Context {W : Type} `{IpDisplay, RelayNet, HS : !RelayServer W, HN : !DaemonNet W}.
  Context `{SnapshotJson, DenylistPostcard, HexDisplay, IssuerSigner, ResponseJson, SetIter, !TrustLaws}.

(** C16: whatever is reported, denied and revoked at the trust service, with any answers
    of its disk, after a refresh from it and at the gates the consumer is wired to: a
    direct message to an agent that was denied and not revoked since, in any letter
    case, is refused and changes nothing, and such a device is no target of any other
    message; no private group message is handed to such an agent; and the chat's and
    the bridge's gates pass an actor exactly when its URL has a canonical form that was
    not denied.  (The relay transport is built with a query that blocks nothing, and is
    not among these gates.) *)
Theorem moderation_reaches_gates cfg ops d get io c r c' (en : Endpoint W) :
  let s := (foldl admin_step (snapshot_default, d) ops).1 in
  let denied := foldl moderate ∅ ops in
  let query := fun kind v => consumer_is_blocked kind v c' in
  cc_issuer_pk cfg = issuer_public_key ->
  (forall kind, exists now resp, signed_denylist kind now s s = Ok resp /\ get (kind_url cfg kind) = Ok (print_response resp)) ->
  refresh cfg get io c = (r, c') -> en_denylist en = consumer_gate c' ->
  r = Ok tt /\
  (forall a sio st, (AgentIdKind, to_ascii_lowercase (sa_to a)) ∈ denied -> send en a sio st = (Err (Denied (sa_to a)), st)) /\
  (forall i targets t, t ∈ retain_undenylisted_targets (en_denylist en) i targets <->
     t ∈ targets /\ (AgentIdKind, to_ascii_lowercase (ft_agent t)) ∉ denied) /\
  (forall group_id body name gio st res st', send_private_group en group_id body name gio st = (res, st') ->
     exists hs, st_trace st' = st_trace st ++ hs /\
       Forall (fun h => (AgentIdKind, to_ascii_lowercase (ho_to h)) ∉ denied) hs) /\
  (forall actor_url, check_actor_url_denylist (adapter_is_blocked_actor query) actor_url = Ok tt <->
     exists w, canonicalize_url_value actor_url = Ok w /\ (ActorUrl, to_ascii_lowercase w) ∉ denied) /\
  (forall actor_url, bridge_is_blocked_actor (Some query) actor_url = false <->
     exists w, canonicalize_url_value actor_url = Ok w /\ (ActorUrl, to_ascii_lowercase w) ∉ denied).
Proof.
  intros s denied query Hpk Hget Hr Hen. destruct (refreshed_blocks_moderated cfg ops d get io c r c' Hpk Hget Hr) as [-> Hall].
  fold denied in Hall.
  assert (forall kind v, consumer_is_blocked kind v c' = false <-> (kind, to_ascii_lowercase v) ∉ denied) as Hfree.
  { intros kind v. rewrite <- Hall. by destruct (consumer_is_blocked kind v c'). }
  unfold consumer_gate in Hen. split_and!; [done| | | | |].
  - intros a sio st Hin. unfold send. rewrite Hen. unfold adapter_is_blocked. by rewrite (proj2 (Hall AgentIdKind (sa_to a)) Hin).
  - intros i targets t. rewrite Hen, retained. unfold adapter_is_blocked. by rewrite Hfree.
  - intros group_id body name gio st res st' Hs.
    destruct (group_send_unblocked en _ _ _ _ _ _ _ _ Hen Hs) as (hs & Ht & Hf). exists hs. split; [done|].
    eapply Forall_impl; [exact Hf|]. cbn. intros h Hb. apply Hfree in Hb. by rewrite lowercase_idem in Hb.
  - intros actor_url. unfold check_actor_url_denylist, adapter_is_blocked_actor, query.
    destruct (canonicalize_url_value actor_url) as [w|e]; [|naive_solver]. specialize (Hfree ActorUrl w).
    destruct (consumer_is_blocked ActorUrl w c'); naive_solver.
  - intros actor_url. unfold bridge_is_blocked_actor, query.
    destruct (canonicalize_url_value actor_url) as [w|e]; [|naive_solver]. rewrite Hfree. naive_solver.
Qed.
End gates.

(** ** Instances for the witnesses *)

Section demo.
#[local] Existing Instance tr_snapshot_json.
#[local] Existing Instance tr_response_json.
#[local] Existing Instance tr_postcard.
#[local] Existing Instance tr_signer.
#[local] Existing Instance tr_hex.
#[local] Existing Instance tr_iter.
#[local] Existing Instance demo_mldsa.
#[local] Existing Instance tr_laws.
#[local] Existing Instance demo_base64.
#[local] Existing Instance pw_b64url.
#[local] Existing Instance demo_sha32.
#[local] Existing Instance su_parse.
#[local] Existing Instance su_edit.
#[local] Existing Instance su_form.
#[local] Existing Instance pw_display.
#[local] Existing Instance ep_bodies.
#[local] Existing Instance pw_ip.
#[local] Existing Instance pw_net.
#[local] Existing Instance pw_server.
#[local] Existing Instance pub_json.
#[local] Existing Instance out_demo_cipher.
#[local] Existing Instance out_demo_seal.
#[local] Existing Instance out_demo_print.
#[local] Existing Instance alice_signer.
#[local] Existing Instance out_demo_io.
#[local] Existing Instance room_codec.
#[local] Existing Instance room_frames.
#[local] Existing Instance room_bodies.
#[local] Existing Instance room_display.
#[local] Existing Instance room_status.
#[local] Existing Instance room_text.
#[local] Existing Instance room_line.
#[local] Existing Instance room_join.
#[local] Existing Instance room_daemon.
#[local] Existing Instance room_json.
#[local] Existing Instance room_groups.

(** An actor denied, a relay whose denial is recorded though its file is not written, a relay
    denied and revoked, an invalid request, and an agent denied. *)
Definition gate_ops : list AdminOp :=
  [OpDeny ActorUrl "https://Bad.example/users/eve/" Spam 5 Stored; OpDeny RelayUrl "wss://r.example/ws" Spam 6 (RenameFails "io");
   OpDeny RelayUrl "wss://s.example/ws" Spam 7 Stored; OpDeny RelayUrl "https://t.example" Spam 7 Stored;
   OpRevoke RelayUrl "wss://S.example/ws/" Stored; OpDeny AgentIdKind (hex_encode bob) Spam 8 Stored].
Definition gate_snapshot : Snapshot := (foldl admin_step (snapshot_default, fresh_disk) gate_ops).1.
Definition gate_consumer : Consumer := (refresh tr_cfg (honest_get gate_snapshot) (fun _ => Ok tt) (consumer_new ∅)).2.

Definition gated_alice : Endpoint (list N) :=
  {| en_identity := en_identity (alice_at true); en_machine_id := []; en_denylist := consumer_gate gate_consumer;
     en_primary_relay_url := None; en_transports := [relay_at true] |}.

Lemma moderation_reaches_gates_witness :
  (forall st, send gated_alice to_bob alice_io st = (Err (Denied (hex_encode bob)), st)) /\
  (exists e, check_actor_url_denylist (adapter_is_blocked_actor (fun kind v => consumer_is_blocked kind v gate_consumer))
    "https://bad.example/users/EVE/" = Err e) /\
  check_actor_url_denylist (adapter_is_blocked_actor (fun kind v => consumer_is_blocked kind v gate_consumer))
    "https://bad.example/users/adam" = Ok tt.
Proof.
  destruct (refresh tr_cfg (honest_get gate_snapshot) (fun _ => Ok tt) (consumer_new ∅)) as [r c1] eqn:E.
  assert (gate_consumer = c1) as Hc by (unfold gate_consumer; by rewrite E).
  destruct (moderation_reaches_gates tr_cfg gate_ops fresh_disk (honest_get gate_snapshot) (fun _ => Ok tt) (consumer_new ∅) r c1 gated_alice)
    as (_ & Hsend & _ & _ & Hact & _); [reflexivity| |exact E|unfold gated_alice; cbn; by rewrite Hc|].
  { intros kind. exists 9. eexists. split; [reflexivity|]. by destruct kind. }
  rewrite Hc. split_and!.
  - intros st. apply (Hsend to_bob alice_io st). by vm_compute.
  - destruct (check_actor_url_denylist _ _) as [[]|e] eqn:Hok; [|by eexists]. exfalso.
    apply Hact in Hok as (w & Hw & Hn). apply Hn. revert Hw. vm_compute. by intros [= <-].
  - apply Hact. eexists. split; [by vm_compute|]. by vm_compute.
Defined.

(** The transport asks with the hint as it is written, while the service stores the canonical
    form: with a slash added to the denied relay's URL the send is built and goes out on it. *)
Lemma slash_evades_relay_gate wire show to envelope hints now now_built (m : MultiHome ListLru) receipt :
  (forall h e, wire h e = Ok receipt) -> consumer_is_blocked AgentIdKind to gate_consumer = false ->
  consumer_is_blocked RelayUrl "wss://r.example/ws" gate_consumer = true /\
  (send_inner (H := consumer_query gate_consumer) wire show to envelope ("wss://r.example/ws/"%string :: hints) (Ok tt) now now_built m).1
    = Ok receipt.
Proof.
  intros Hwire Hto. split; [by vm_compute|]. unfold send_inner, send_target, consumer_query; cbn -[acquire_slot consumer_is_blocked].
  assert (consumer_is_blocked RelayUrl "wss://r.example/ws/" gate_consumer = false) as -> by (by vm_compute). rewrite Hto.
  unfold acquire_slot. destruct (acquire_fast _ now m) as [[h|] m']; [by rewrite Hwire|].
  destruct (install _ _ _ _) as [h m'']. by rewrite Hwire.
Qed.

(** A block event names the lower-case form, and the slots are matched as they are written: the
    session of a relay dialed under another case survives the event that blocks it. *)
Lemma block_event_keeps_cased_slot (m : MultiHome ListLru) slot0 now h :
  mh_slots m = [slot0; Some {| sl_relay_url := "wss://R.example/ws"; sl_handle := h; sl_last_traffic_at := now |}; None] ->
  consumer_is_blocked RelayUrl "wss://R.example/ws" gate_consumer = true /\
  mh_slots (on_block_event ["wss://r.example/ws"] m).2 = mh_slots m.
Proof. intros Hs. split; [by vm_compute|]. unfold on_block_event. cbn. by rewrite Hs. Qed.
End demo.
